(* ===== verification/_CoqProject ===== *)
-Q . S2P
Prelude.v
GoTime.v
Bytes.v
Sha256.v
Domain.v
Bolt.v
BudgetModel.v
BudgetCodec.v
BudgetLedger.v
BudgetUsage.v
BudgetSpec.v
BudgetInvariant.v
BudgetReserve.v
BudgetTheorems.v
BudgetClaims.v
StoreModel.v
StoreLease.v
LeaseTheorems.v
StoreCodec.v
StoreQueue.v
StoreCanonical.v
StoreCandidates.v
QueueInv.v
QueueSteps.v
ChainSteps.v
ChainCommit.v
QueueOps.v
QueueClaims.v
CodecClaims.v
StoreRescue.v
StoreValidation.v
ValidationTheorems.v
RescueCodec.v
RescueTheorems.v
RescueFees.v
Admission.v
AdmissionInv.v
AdmissionFile.v
AdmissionTheorems.v
RpcQuorum.v
RpcTheorems.v
Programs.v
RescueErrors.v
Contracts.v
RescueEffects.v
RescueSession.v
RescueOperations.v
RescueFlow.v
RescueCoordinator.v
RescueLogic.v
RescueGuards.v
RescueSafety.v
RescueOutcomes.v
RescueSigning.v
RescueEntry.v
RescueClaims.v
Watcher.v
WatcherLogic.v
WatcherScan.v
WatcherGuarantee.v
WatcherClaims.v
Gate.v
Alerts.v
AlertTheorems.v
AlertClaims.v
Telemetry.v
DryRun.v
RpcDial.v
GoText.v
Fence.v
Configuration.v
ConfigNetworks.v
ConfigRuntime.v
ConfigGuarantees.v
Wiring.v
WiringClaims.v
Attestation.v
AttestationClaims.v
Daemon.v
DaemonClaims.v
