(* ===== verification/Prelude.v ===== *)
(** * guard-daemon: a verification library

    guard-daemon watches the accounts of compromised wallets and moves what
    arrives on them to safety with sponsored transactions.  A process loads its
    configuration and keys, attests the deployed contracts, takes host-wide fences
    and leases, and then runs one worker per network.  A watcher scans blocks read
    through a quorum of RPC providers and puts candidates into a durable store; a
    consumer takes them one by one and gives them to the coordinator, which asks the
    fee policy and the admission policy, reserves the cost in a durable budget
    ledger, signs and sends inside the paid-action gate, and records each operation
    and its outcome in the store.  Alerts, health and metrics report what happens.
    The stores are bbolt files; processes stop and restart at any moment.

    This library models the program as executable definitions, one per Go function,
    and proves what they promise.

    ** Files, parts of the program and their state

    Foundations:
    - Prelude: results, errors and loops of Go, fixed-width integers, tactics.
      GoTime: instants and durations with their saturating arithmetic.  Bytes: the
      byte codecs shared by the stores.  Sha256: crypto/sha256.  GoText: the parts
      of strings, strconv, hex and filepath that are used.
    - Domain: internal/domain (model.go, claim.go); candidates, claim plans,
      identifiers.  RescueErrors: errors.go and the classified errors of rescue.
    - Bolt: bbolt as an interface, [Bolt] with its laws [BoltLaws]; [MapBolt] is an
      instance.  Every theorem about a store holds for any bucket with these laws.
    - Programs: a component that acts through interfaces is a program, a tree of
      calls whose branches are the possible answers, with its executions, a weakest
      precondition and a state and error monad.  Nothing is assumed about what the
      callees answer unless a theorem says so.

    Durable state:
    - BudgetModel, BudgetCodec, BudgetLedger: internal/budget (interfaces.go,
      codec.go, ledger.go); the state is [LedgerState].  BudgetUsage, BudgetSpec,
      BudgetInvariant, BudgetReserve, BudgetTheorems, BudgetClaims: the abstract
      ledger, the invariant relating the file to it, the refinement and the claims.
    - StoreModel: internal/store/bolt_store.go and model.go; [BoltStore] is the
      configuration, [StoreDB] the eleven buckets, [StoreState] what changes.
      StoreCodec: codec.go.  StoreLease, LeaseTheorems: lease.go.
    - StoreQueue, StoreCandidates: bolt_candidates.go; StoreCanonical:
      bolt_canonical.go.  QueueInv, QueueSteps, ChainSteps, ChainCommit: the
      invariants of the queue and of the chain and what each piece of a transaction
      does to them.  QueueOps: the transactions as a transition relation and the
      operations as sequences of them.  QueueClaims, CodecClaims: what follows.
    - StoreRescue: rescue_state.go.  RescueCodec, RescueTheorems: round trips and
      the life cycle of a rescue operation.
    - StoreValidation, ValidationTheorems: bolt_validation.go, Open and
      initializeOrMigrate of bolt_store.go.
    - Fence: process_fence.go, process_fence_unix.go, budget_fence.go and
      budget_path.go; programs of system calls.

    Deciding and acting:
    - RescueFees: internal/rescue/fees.go.  Admission: policy.go and
      policy_persistence.go; AdmissionInv, AdmissionFile, AdmissionTheorems: its
      invariant, its file and its claims.
    - Contracts: internal/contracts (codec.go, delegation.go, erc20.go,
      rescuer.go).  Attestation, AttestationClaims: attestation.go.
    - RescueEffects: the calls of a session to the chain, the stores, the ledger,
      the signers, the gate, the policies and the telemetry.  RescueSession,
      RescueOperations, RescueFlow, RescueCoordinator: coordinator.go, the
      operation files, fast_reconciliation.go, prefetch.go, simulation.go and
      claim.go.  RescueLogic, RescueGuards, RescueSafety, RescueOutcomes,
      RescueSigning, RescueEntry, RescueClaims: a logic for sessions, what holds
      before each kind of call, and the claims with a world they apply to.
    - DryRun: internal/rescue/dryrun and signer.go.
    - RpcQuorum, RpcTheorems: internal/rpc (quorum.go, pinned_state.go,
      base_fees.go).  RpcDial: dialer.go, client.go and the constructors of
      deadline.go.
    - Watcher: internal/watcher (service.go, fast.go); WatcherLogic, WatcherScan,
      WatcherGuarantee, WatcherClaims: what it commits, stores and withdraws.
    - Gate: internal/observability/gate.go, threads with a mutex and a condition
      variable.  Alerts, AlertTheorems, AlertClaims: alerts.go, threads and the
      state file.  Telemetry: health.go, metrics.go, observer.go.

    The process:
    - Configuration, ConfigNetworks, ConfigRuntime, ConfigGuarantees:
      internal/config, from the files and the environment to a [Runtime].
    - Wiring, WiringClaims: the parts of daemon_dependencies.go and
      daemon_startup.go that turn a [Runtime] into the policies of the other parts.
    - Daemon, DaemonClaims: cmd/guard-daemon; start-up, run, shutdown, the consumer
      of the queue, generations, credentials, diagnostics, the command line.

    An operation of a store is a function from its state, its arguments and what the
    environment answers (the clock, the context, whether a commit fails) to the next
    state and a [result]; a transaction is a function on the buckets that is undone
    as a whole when it or its commit fails ([db_update]).

    ** What the theorems show

    - Budget (C1 to C6): limits are never exceeded, over any operations and
      restarts; the ledger refines an abstract one; spent money is never forgotten;
      limits stay those the file was created with; a new attempt the policy admits
      is granted and nothing else is.
    - Exclusion: a fence is owned by one agent of the host at a time (C7); a lease
      excludes others until it expires (C12); once the gate is stopped no paid
      action runs, and stopping returns (C8).
    - The coordinator, for every session and whatever the other parts answer:
      nothing is signed or sent without its guards (C9, C11), charges are what
      receipts show (C18), success is recorded only when proven (C20).
    - The process loses no resource and makes signers last; a generation panics
      exactly on certain answers of its dials, which a failed dial of the process
      is (C10).  Its consumer acknowledges only what was handled for good and puts
      back the rest (C32).
    - Configuration: keys come only from credentials (C13), what loads is sound
      (C19), loading depends on the supported names only (C27), and what loads the
      other parts accept, up to conditions stated exactly (C33).
    - The watcher commits blocks in order, linked and complete (C14), its scans end
      (C28), candidates are justified (C29).
    - Rescue operations (C15 to C17), up to the end of any history of operations or
      to the pruning that removed the incident: changes only along the status
      machine, signed operations are never replaced, attempts are bounded.
    - Queue and chain (C21 to C23, C25, C26, C31): bounds, no lost work, first in
      first out, the checkpoint covers exactly the acknowledged prefix of one
      linked chain, records round trip.
    - Alerts (C24, C30): they survive restarts, whether the constructor's replay of
      the pending ones succeeds or fails, and firings are spaced.
    - Reads by quorum (C34), attestation (C36).  Opening of a store (C35): what the
      validation establishes of any file, and exactly what it leaves open.
    - Fees (C37, C38): the 256-bit computation is the exact one; an allowed rescue
      pays off.  Admission (C39, C40): every window of the history is within the
      limits; each decision, failing commits included, is that of a limiter with the
      whole history.

    Other theorems, without a number, show the rest: the loss signals of leases,
    fairness and progress of the queue, the nonce floor, pruning, failed ledger
    operations, well-typed records, dialing, signers, health and diagnostics.

    ** Loops, fuel and waiting

    Loops over a slice or a bucket are folds.  [advanceLoop] has as fuel one more
    than the stored blocks, [validateBlocks] too, and [pruneLoop] as many rounds as
    there are records: theorems show that this is enough ([advance_terminates],
    [validateBlocks_fuel], [pruneLoop_spec]).  So for parsing: [durationLoop]
    ([duration_ends]) and [jsonFuel] ([consume_fuel]).  The scans of the watcher
    end ([scans_end]).  Loops without an end in the code (the watcher, lease
    maintenance, reconciliation, [consumeCandidates], [supervise]) have arbitrary
    fuel: a safety theorem holds for every amount, and running out of it is told
    apart from every result.  An operation that waits (Put, Next,
    CommitCanonicalBlock) is a list of rounds: each has its inputs, how the wait
    ended and what other goroutines did to the store meanwhile.  Locks make the
    operations of one process atomic with respect to each other; the gate and the
    alerts, where the interleaving matters, have threads.

    ** Parameters and hypotheses

    Libraries are classes: [GethTx], [Geth] and [Abi] for go-ethereum, [TxCodec],
    [WatchCodec], [ConfigLib] with [ConfigLaws] for URLs, JSON, Unicode case and
    checksums, [AttestationLib] with [AttestationLaws], [Kernel] with [KernelLaws]
    for open, flock and close.  Each has an instance that a witness runs.
    Integers are within their Go types ([inU] and the [_typed] records).  Clock
    readings leave room for the durations added to them; alerts have positive
    times; the gate has fewer than 2^64 threads.  Contexts are not nil.  Reads that
    Go makes in parallel are in sequence, with the first failure chosen by the
    environment.  A constructor that fails returns nothing to close, except where
    the code looks: fences, the store, the ledger, the quorum and the clients of a
    generation may come with an error.  The blocks committed hold no candidates of the fast path
    ([block_input]); of an opened file the whole invariant holds exactly when the
    members of its blocks have confirmed records of their block that are no fast-path
    candidates ([members_stored]), which the validation does not check.  The
    admission theorems assume that the clock of a restarted process has reached the
    latest time its predecessors used, and cover restarts up to a first admission
    after [Close]; a clock set back across a restart escapes the limits.  The trust
    domains of C33 are ASCII.  Headers do not hash to zero
    ([hashes_nonzero]).  Nothing is assumed of SHA-256 beyond being a function.

    ** Not modelled

    go-ethereum's client and signatures, the methods of the deadline wrappers (each
    passes its call on with a deadline), HTTP serving and the JSON of diagnostics,
    logs and the alert file, signals, core dumps, file permissions and creation of
    the databases, the clock and the build information.  They are effects of the
    system and of libraries with no decision of their own.  Causes that go-ethereum's
    encoders give for an error are not kept in the error. *)

From stdpp Require Export base numbers list gmap sorting.
From Stdlib Require Export ZArith Lia.

(** ** Go's [(value, error)] results as a sum type *)

Inductive result (E A : Type) : Type :=
| Ok (a : A)
| Err (e : E).
Arguments Ok {E A} _.
Arguments Err {E A} _.

#[export] Instance result_eq_dec {E A} `{EqDecision E, EqDecision A} : EqDecision (result E A).
Proof. solve_decision. Defined.

Declare Scope go_scope.
Delimit Scope go_scope with go.

(** [let! p := c in k]: the Go idiom [x, err := c; if err != nil { return err }; k]. *)
Notation "'let!' p := c 'in' k" :=
  (match c with Ok p => k | Err e => Err e end)
  (at level 10, p pattern, c at level 200, k at level 200) : go_scope.

(** [let? p := c orelse e in k]: [x, ok := c; if !ok { return e }; k]. *)
Notation "'let?' p := c 'orelse' e 'in' k" :=
  (match c with Some p => k | None => Err e end)
  (at level 10, p pattern, c at level 200, e at level 200, k at level 200) : go_scope.

(** [reject b with e in k]: [if b { return e }; k]. *)
Notation "'reject' b 'with' e 'in' k" :=
  (if b then Err e else k)
  (at level 10, b at level 200, e at level 200, k at level 200) : go_scope.

Open Scope go_scope.
Open Scope Z_scope.

(** [errOr e r]: keep the value of [r], replace any of its errors by [e]
    ([if err != nil { return e }]). *)
Definition errOr {E E' A} (e : E') (r : result E A) : result E' A :=
  match r with Ok a => Ok a | Err _ => Err e end.

Definition isOk {E A} (r : result E A) : bool :=
  match r with Ok _ => true | Err _ => false end.

(** A Go loop [for _, x := range l { ... return err ... }] over an accumulator. *)
Fixpoint foldM {E A B} (f : B -> A -> result E B) (l : list A) (acc : B) : result E B :=
  match l with
  | [] => Ok acc
  | x :: l' => let! acc' := f acc x in foldM f l' acc'
  end.

(** ** Fixed-width integers

    A [w]-bit unsigned integer is a [Z] in the range [inU w]; operations that
    wrap write the wrap-around out. *)

Definition inU (w : Z) (z : Z) : Prop := 0 <= z < 2 ^ w.

Definition inUb (w : Z) (z : Z) : bool := (0 <=? z) && (z <? 2 ^ w).

(** Two's complement reading of a 64-bit pattern, and the wrap of [int64] arithmetic. *)
Definition int64_wrap (z : Z) : Z := (z + 2 ^ 63) mod 2 ^ 64 - 2 ^ 63.

Definition uint64_wrap (z : Z) : Z := z mod 2 ^ 64.

Definition uint32_wrap (z : Z) : Z := z mod 2 ^ 32.

Definition uint16_wrap (z : Z) : Z := z mod 2 ^ 16.

(** [uint256.Int]: a 256-bit unsigned integer.  [AddOverflow] and [MulOverflow]
    return the wrapped value and the overflow flag; [Sub] wraps. *)
Definition u256_AddOverflow (a b : Z) : Z * bool :=
  ((a + b) mod 2 ^ 256, negb (a + b <? 2 ^ 256)).

Definition u256_MulOverflow (a b : Z) : Z * bool :=
  ((a * b) mod 2 ^ 256, negb (a * b <? 2 ^ 256)).

Definition u256_Sub (a b : Z) : Z := (a - b) mod 2 ^ 256.

Definition u256_IsZero (a : Z) : bool := a =? 0.

Definition u256_Gt (a b : Z) : bool := b <? a.

Definition u256_Lt (a b : Z) : bool := a <? b.

Definition u256_Eq (a b : Z) : bool := a =? b.

(** ** Sums *)

Definition sumZ {A} (f : A -> Z) (l : list A) : Z := foldr (fun x acc => f x + acc) 0 l.

(** ** Automation *)

Create HintDb guard.

(** Split conjunctions and existentials in the context. *)
Ltac split_hyps :=
  repeat match goal with
  | H : _ /\ _ |- _ => destruct H
  | H : exists _, _ |- _ => destruct H
  end.

(** Turn boolean facts of the context (and goal) into propositions [lia] reads. *)
Ltac bool_hyps :=
  repeat match goal with
  | H : _ && _ = true |- _ => apply andb_true_iff in H; destruct H
  | H : _ || _ = false |- _ => apply orb_false_iff in H; destruct H
  | H : negb _ = true |- _ => apply negb_true_iff in H
  | H : negb _ = false |- _ => apply negb_false_iff in H
  | H : (_ =? _) = true |- _ => apply Z.eqb_eq in H
  | H : (_ =? _) = false |- _ => apply Z.eqb_neq in H
  | H : (_ <? _) = true |- _ => apply Z.ltb_lt in H
  | H : (_ <? _) = false |- _ => apply Z.ltb_ge in H
  | H : (_ <=? _) = true |- _ => apply Z.leb_le in H
  | H : (_ <=? _) = false |- _ => apply Z.leb_gt in H
  | H : bool_decide _ = true |- _ => apply bool_decide_eq_true in H
  | H : bool_decide _ = false |- _ => apply bool_decide_eq_false in H
  end.

(** Case analysis on the scrutinee of the first [if]/[match] in a hypothesis
    [... = Ok _] (or [Err _]), discarding the impossible branches. *)
Ltac inv_result H :=
  repeat match type of H with
  | Ok _ = Err _ => discriminate H
  | Err _ = Ok _ => discriminate H
  | Ok _ = Ok _ => injection H as H
  | Err _ = Err _ => injection H as H
  | context [match ?x with _ => _ end] =>
      let E := fresh "E" in destruct x eqn:E; try discriminate H
  end.

(** One step into a hypothesis [c = Ok v -> _] of the goal, [c] being a chain of
    [let!], [let?] and [reject]: the condition or the bound call is named. *)
Ltac ok_step E :=
  match goal with
  | |- (if ?c then Err _ else _) = Ok _ -> _ => destruct c eqn:E; [discriminate|]
  | |- (match ?c with Ok _ => _ | Err _ => _ end) = Ok _ -> _ => destruct c eqn:E; [|discriminate]
  | |- (match ?c with Some _ => _ | None => _ end) = Ok _ -> _ => destruct c eqn:E; [|discriminate]
  end.

Tactic Notation "ok" := let E := fresh "E" in ok_step E.
Tactic Notation "ok" ident(E) := ok_step E.

(** ** Shared lemmas *)

Lemma inUb_spec w z : inUb w z = true <-> inU w z.
Proof. unfold inUb, inU. rewrite andb_true_iff, Z.leb_le, Z.ltb_lt. done. Qed.

Lemma Ok_inj {E A} (a b : A) : @Ok E A a = Ok b -> a = b.
Proof. congruence. Qed.

Lemma foldM_app {E A B} (f : B -> A -> result E B) l1 l2 acc :
  foldM f (l1 ++ l2) acc = (let! acc' := foldM f l1 acc in foldM f l2 acc').
Proof.
  revert acc. induction l1 as [|x l1 IH]; intros acc; cbn; [done|].
  destruct (f acc x); [apply IH | done].
Qed.

(** Invariant rule for a Go loop: a property of (processed prefix, accumulator)
    kept by the body holds at the end. *)
Lemma foldM_invariant {E A B} (P : list A -> B -> Prop) (f : B -> A -> result E B) l acc acc' :
  P [] acc ->
  (forall done a x a', P done a -> f a x = Ok a' -> P (done ++ [x]) a') ->
  foldM f l acc = Ok acc' -> P l acc'.
Proof.
  intros H0 Hstep.
  cut (forall rest pre a, P pre a -> foldM f rest a = Ok acc' -> P (pre ++ rest) acc').
  { intros Hc Hf. exact (Hc l [] acc H0 Hf). }
  induction rest as [|x rest IH]; intros pre a HP Hf; cbn in Hf.
  - injection Hf as <-. by rewrite app_nil_r.
  - destruct (f a x) as [a'|e] eqn:Hx; [|discriminate].
    rewrite (cons_middle x pre rest), app_assoc. eauto.
Qed.

(** A loop whose body maps each element to the same result in two settings. *)
Lemma foldM_ext {E A B} (f g : B -> A -> result E B) l acc :
  (forall a x, x ∈ l -> f a x = g a x) -> foldM f l acc = foldM g l acc.
Proof.
  revert acc. induction l as [|x l IH]; intros acc H; cbn; [done|].
  rewrite H by set_solver. destruct (g acc x); [|done].
  apply IH. intros a' y Hy. apply H. set_solver.
Qed.

Lemma filter_all {A} (P : A -> Prop) `{!forall x, Decision (P x)} (l : list A) :
  (forall x, x ∈ l -> P x) -> filter P l = l.
Proof.
  induction l as [|x l IH]; intros HP; [done|].
  rewrite filter_cons_True by (apply HP; left). rewrite IH; [done|]. intros y Hy. apply HP. by right.
Qed.

Lemma Forall2_in_r {A B} (P : A -> B -> Prop) l k y :
  Forall2 P l k -> y ∈ k -> exists x, x ∈ l /\ P x y.
Proof.
  induction 1 as [|a b l k Hab _ IH]; intros Hy; [by apply elem_of_nil in Hy|].
  apply elem_of_cons in Hy as [->|Hy]; [exists a; split; [left|done]|].
  destruct (IH Hy) as (x & Hx & HP). exists x. split; [by right|done].
Qed.

Lemma Forall2_in_l {A B} (P : A -> B -> Prop) l k x :
  Forall2 P l k -> x ∈ l -> exists y, y ∈ k /\ P x y.
Proof.
  induction 1 as [|a b l k Hab _ IH]; intros Hy; [by apply elem_of_nil in Hy|].
  apply elem_of_cons in Hy as [->|Hy]; [exists b; split; [left|done]|].
  destruct (IH Hy) as (y & Hx & HP). exists y. split; [by right|done].
Qed.

(** Permuting the left list of a pointwise relation permutes the right one. *)
Lemma Forall2_permute {A B} (P : A -> B -> Prop) l l' k :
  l ≡ₚ l' -> Forall2 P l k -> exists k', k ≡ₚ k' /\ Forall2 P l' k'.
Proof.
  intros Hp. revert k. induction Hp as [|x l l' Hp IH|x y l|l1 l2 l3 H1 IH1 H2 IH2]; intros k H.
  - inv H. by exists [].
  - inv H. destruct (IH l'0) as (k' & Hk & Hf); [done|]. exists (y :: k'). split; [by f_equiv|by constructor].
  - inv H. inv H4. eexists. split; [apply Permutation_swap|]. by repeat constructor.
  - destruct (IH1 k H) as (k1 & Hk1 & Hf1). destruct (IH2 k1 Hf1) as (k2 & Hk2 & Hf2).
    exists k2. split; [by etransitivity|done].
Qed.

Lemma sumZ_nil {A} (f : A -> Z) : sumZ f [] = 0.
Proof. done. Qed.

Lemma sumZ_cons {A} (f : A -> Z) x l : sumZ f (x :: l) = f x + sumZ f l.
Proof. done. Qed.

Lemma sumZ_app {A} (f : A -> Z) l1 l2 : sumZ f (l1 ++ l2) = sumZ f l1 + sumZ f l2.
Proof.
  induction l1 as [|x l1 IH]; cbn [app]; rewrite ?sumZ_nil, ?sumZ_cons; [done|].
  rewrite IH. lia.
Qed.

#[export] Instance sumZ_perm {A} (f : A -> Z) : Proper (Permutation ==> eq) (sumZ f).
Proof. induction 1; rewrite ?sumZ_cons in *; lia. Qed.

Lemma sumZ_nonneg {A} (f : A -> Z) l : (forall x, x ∈ l -> 0 <= f x) -> 0 <= sumZ f l.
Proof.
  induction l as [|x l IH]; intros H; [done|]. rewrite sumZ_cons.
  pose proof (H x ltac:(left)). specialize (IH (fun y Hy => H y (list_elem_of_further _ _ _ Hy))). lia.
Qed.

Lemma sumZ_mono {A} (f g : A -> Z) l :
  (forall x, x ∈ l -> f x <= g x) -> sumZ f l <= sumZ g l.
Proof.
  induction l as [|x l IH]; intros H; [done|]. rewrite !sumZ_cons.
  specialize (H x ltac:(set_solver)) as Hx. specialize (IH ltac:(set_solver)). lia.
Qed.

Lemma sumZ_ext {A} (f g : A -> Z) l :
  (forall x, x ∈ l -> f x = g x) -> sumZ f l = sumZ g l.
Proof.
  intros H. apply Z.le_antisymm; apply sumZ_mono; intros x Hx; rewrite (H x Hx); lia.
Qed.

Lemma sumZ_elem_le {A} (f : A -> Z) l x :
  (forall y, y ∈ l -> 0 <= f y) -> x ∈ l -> f x <= sumZ f l.
Proof.
  induction l as [|y l IH]; intros Hn Hx; [set_solver|]. rewrite sumZ_cons.
  pose proof (sumZ_nonneg f l ltac:(set_solver)).
  pose proof (Hn y ltac:(set_solver)).
  apply elem_of_cons in Hx as [->|Hx]; [lia|].
  specialize (IH ltac:(set_solver) Hx). lia.
Qed.

Lemma u256_AddOverflow_ok a b :
  inU 256 a -> inU 256 b -> a + b < 2 ^ 256 -> u256_AddOverflow a b = (a + b, false).
Proof.
  unfold inU, u256_AddOverflow. intros Ha Hb Hab.
  rewrite Z.mod_small by lia. replace (a + b <? 2 ^ 256) with true; [done|].
  symmetry. by apply Z.ltb_lt.
Qed.

Lemma u256_AddOverflow_inv a b c :
  inU 256 a -> inU 256 b -> u256_AddOverflow a b = (c, false) -> c = a + b /\ inU 256 c.
Proof.
  unfold inU, u256_AddOverflow. intros Ha Hb [= <- Hlt]. bool_hyps.
  rewrite Z.mod_small by lia. lia.
Qed.

Lemma u256_MulOverflow_inv a b c :
  inU 256 a -> inU 256 b -> u256_MulOverflow a b = (c, false) -> c = a * b /\ inU 256 c.
Proof.
  unfold inU, u256_MulOverflow. intros Ha Hb [= <- Hlt]. bool_hyps.
  assert (0 <= a * b) by nia. rewrite Z.mod_small by lia. lia.
Qed.

Lemma u256_Sub_ok a b : inU 256 a -> 0 <= b <= a -> u256_Sub a b = a - b.
Proof. unfold inU, u256_Sub. intros. apply Z.mod_small. lia. Qed.

Lemma int64_wrap_id z : - 2 ^ 63 <= z < 2 ^ 63 -> int64_wrap z = z.
Proof. intros. unfold int64_wrap. rewrite Z.mod_small; lia. Qed.

Lemma int64_wrap_range z : - 2 ^ 63 <= int64_wrap z < 2 ^ 63.
Proof. unfold int64_wrap. pose proof (Z.mod_pos_bound (z + 2 ^ 63) (2 ^ 64)). lia. Qed.

Lemma int64_wrap_wrap_add a b : int64_wrap (int64_wrap a + b) = int64_wrap (a + b).
Proof.
  unfold int64_wrap. f_equal.
  replace ((a + 2 ^ 63) mod 2 ^ 64 - 2 ^ 63 + b + 2 ^ 63)
    with ((a + 2 ^ 63) mod 2 ^ 64 + b) by lia.
  rewrite Zplus_mod_idemp_l. f_equal. lia.
Qed.

Lemma int64_of_uint64_wrap z : int64_wrap (uint64_wrap z) = int64_wrap z.
Proof. unfold int64_wrap, uint64_wrap. f_equal. by rewrite Zplus_mod_idemp_l. Qed.

Lemma result_pair {A C} (p : A * C) c : snd p = c -> p = (fst p, c).
Proof. destruct p. by intros <-. Qed.

Arguments int64_wrap : simpl never.
Arguments uint64_wrap : simpl never.
Arguments inU : simpl never.
Arguments u256_AddOverflow : simpl never.
Arguments u256_MulOverflow : simpl never.
Arguments u256_Sub : simpl never.
Arguments sumZ : simpl never.
