(* ===== verification/GoTime.v ===== *)
(** * Go's [time.Time] and [time.Duration] as the program uses them

    A [time.Time] without its monotonic reading and location is an instant: a
    signed 64-bit count of seconds since 1 January of year 1 and a nanosecond
    in [0, 10^9).  It is modelled as the number of nanoseconds since that
    origin, so the zero value [time.Time{}] is [0] and comparisons are those of
    [Z].  [Round(0)] and [UTC()], which only drop the monotonic reading and the
    location, are the identity on instants. *)

From S2P Require Import Prelude.

Definition Time := Z.

(** A [time.Duration] is an [int64] number of nanoseconds. *)
Definition Duration := Z.

Definition Second : Duration := 1000000000.
Definition Minute : Duration := 60 * Second.
Definition Hour : Duration := 60 * Minute.

(** Seconds from year 1 to the Unix epoch ([unixToInternal] of package time). *)
Definition unixToInternal : Z := 62135596800.

Definition zeroTime : Time := 0.

Definition IsZero (t : Time) : bool := t =? 0.

(** [t.Unix()] and [t.Nanosecond()]; the seconds are [int64] arithmetic. *)
Definition Unix (t : Time) : Z := int64_wrap (t / Second - unixToInternal).
Definition Nanosecond (t : Time) : Z := t mod Second.

(** [time.Unix(sec, nsec)] for a nanosecond part in [0, 10^9). *)
Definition unixTime (sec nsec : Z) : Time := int64_wrap (sec + unixToInternal) * Second + nsec.

Definition After (t u : Time) : bool := u <? t.
Definition Before (t u : Time) : bool := t <? u.
Definition TimeEqual (t u : Time) : bool := t =? u.

(** [t.Add(d)]: the seconds saturate at the ends of the [int64] range. *)
Definition Add (t : Time) (d : Duration) : Time :=
  let sum := t + d in
  let sec := sum / Second in
  let sec' :=
    if sec <? - 2 ^ 63 then - (2 ^ 63 - 1)
    else if 2 ^ 63 <=? sec then 2 ^ 63 - 1 else sec in
  sec' * Second + sum mod Second.

(** [t.Sub(u)]: the difference saturates at the ends of the [int64] range. *)
Definition Sub (t u : Time) : Duration :=
  if t - u <? - 2 ^ 63 then - 2 ^ 63
  else if 2 ^ 63 <=? t - u then 2 ^ 63 - 1 else t - u.

(** The instants a [time.Time] can hold. *)
Definition time_ok (t : Time) : Prop := - 2 ^ 63 <= t / Second < 2 ^ 63.

(** The instant [time.Unix(0, 0)]. *)
Definition unixEpoch : Time := unixToInternal * Second.

Definition time_okb (t : Time) : bool := (- 2 ^ 63 <=? t / Second) && (t / Second <? 2 ^ 63).

Lemma time_okb_spec t : time_okb t = true <-> time_ok t.
Proof. unfold time_okb, time_ok. rewrite andb_true_iff, Z.leb_le, Z.ltb_lt. done. Qed.

Lemma time_split (t : Time) : t = t / Second * Second + t mod Second.
Proof. pose proof (Z.div_mod t Second ltac:(done)). lia. Qed.

Lemma Nanosecond_range t : 0 <= Nanosecond t < Second.
Proof. apply Z.mod_pos_bound. done. Qed.

Lemma unixTime_div s n : 0 <= n < Second -> unixTime s n / Second = int64_wrap (s + unixToInternal).
Proof.
  intros Hn. unfold unixTime. rewrite Z.div_add_l by done. rewrite Z.div_small; lia.
Qed.

Lemma unixTime_mod s n : 0 <= n < Second -> unixTime s n mod Second = n.
Proof.
  intros Hn. unfold unixTime. rewrite Z.add_comm, Z.mod_add by done. by apply Z.mod_small.
Qed.

Lemma unixTime_ok s n : 0 <= n < Second -> time_ok (unixTime s n).
Proof. intros Hn. unfold time_ok. rewrite unixTime_div by done. apply int64_wrap_range. Qed.

(** Splitting an instant into Unix seconds and nanoseconds loses nothing. *)
Lemma unixTime_Unix t : time_ok t -> unixTime (Unix t) (Nanosecond t) = t.
Proof.
  intros Ht. unfold unixTime, Unix, Nanosecond.
  rewrite int64_wrap_wrap_add.
  replace (t / Second - unixToInternal + unixToInternal) with (t / Second) by lia.
  rewrite int64_wrap_id by exact Ht. symmetry. apply time_split.
Qed.

Lemma Unix_unixTime s n : - 2 ^ 63 <= s < 2 ^ 63 -> 0 <= n < Second -> Unix (unixTime s n) = s.
Proof.
  intros Hs Hn. unfold Unix. rewrite unixTime_div by done.
  unfold Z.sub. rewrite int64_wrap_wrap_add.
  replace (s + unixToInternal + - unixToInternal) with s by lia. by apply int64_wrap_id.
Qed.

Lemma Unix_range t : - 2 ^ 63 <= Unix t < 2 ^ 63.
Proof. apply int64_wrap_range. Qed.

(** Only the epoch has Unix time (0, 0). *)
Lemma Unix_zero t : time_ok t -> Unix t = 0 -> Nanosecond t = 0 -> t = unixEpoch.
Proof. intros Ht H1 H2. rewrite <- (unixTime_Unix t Ht), H1, H2. done. Qed.

(** Away from the ends of the range [Add] is addition; it is then monotone. *)
Lemma Add_exact t d : time_ok (t + d) -> Add t d = t + d.
Proof.
  unfold time_ok, Add. intros [H1 H2].
  replace ((t + d) / Second <? - 2 ^ 63) with false by (symmetry; apply Z.ltb_ge; lia).
  replace (2 ^ 63 <=? (t + d) / Second) with false by (symmetry; apply Z.leb_gt; lia).
  symmetry. apply time_split.
Qed.

Lemma time_ok_between a b t : time_ok a -> time_ok b -> a <= t <= b -> time_ok t.
Proof.
  unfold time_ok. intros Ha Hb Ht.
  pose proof (Z.div_le_mono a t Second ltac:(done) ltac:(lia)).
  pose proof (Z.div_le_mono t b Second ltac:(done) ltac:(lia)). lia.
Qed.

(** Going back from a valid instant after the origin by at most that distance. *)
(** A sum is always an instant. *)
Lemma Add_ok t d : time_ok (Add t d).
Proof.
  unfold time_ok, Add. cbv zeta. pose proof (Z.mod_pos_bound (t + d) Second ltac:(done)) as Hm.
  rewrite Z.div_add_l, (Z.div_small (_ mod _)) by done. repeat case_match; bool_hyps; lia.
Qed.

Lemma Add_back t d : time_ok t -> 0 <= d <= t -> Add t (- d) = t - d.
Proof.
  intros Ht Hd. rewrite Add_exact; [lia|].
  apply (time_ok_between 0 t); [done|done|lia].
Qed.

Lemma Sub_exact t u : - 2 ^ 63 <= t - u < 2 ^ 63 -> Sub t u = t - u.
Proof.
  unfold Sub. intros.
  replace (t - u <? - 2 ^ 63) with false by (symmetry; apply Z.ltb_ge; lia).
  replace (2 ^ 63 <=? t - u) with false by (symmetry; apply Z.leb_gt; lia). done.
Qed.

Arguments Unix : simpl never.
Arguments Nanosecond : simpl never.
Arguments unixTime : simpl never.
Arguments Add : simpl never.
Arguments Sub : simpl never.
#[export] Hint Resolve Nanosecond_range unixTime_ok Unix_range : guard.
