(* ===== verification/Bytes.v ===== *)
(** * Byte strings and the binary codec primitives

    Byte slices and byte arrays are lists of bytes.  The append and read
    functions are those shared, line for line, by internal/budget/codec.go and
    internal/store/codec.go: big-endian integers of fixed width, fixed-size
    arrays, 256-bit integers and timestamps, written at the end of a buffer and
    read at a moving offset. *)

From S2P Require Import Prelude GoTime.
From Stdlib Require Import Strings.Byte.

Abbreviation byte := Byte.byte.

(** A byte slice. *)
Definition bytes := list byte.

#[export] Instance byte_eq_dec : EqDecision byte := Byte.byte_eq_dec.

#[export] Program Instance byte_countable : Countable byte :=
  inj_countable Byte.to_N Byte.of_N _.
Next Obligation. apply Byte.of_to_N. Qed.

#[export] Instance bytes_eq_dec : EqDecision bytes := _.

#[export] Instance bytes_countable : Countable bytes := _.

Definition byteZ (b : byte) : Z := Z.of_N (Byte.to_N b).

(** Conversion [byte(z)]: reduction modulo 256. *)
Definition Zbyte (z : Z) : byte :=
  match Byte.of_N (Z.to_N (z mod 256)) with Some b => b | None => x00 end.

(** [bytes.Equal] *)
Definition bytes_eqb (a b : bytes) : bool := bool_decide (a = b).

(** [bytes.Compare(a, b) < 0]: lexicographic order, a proper prefix first. *)
Fixpoint bytes_ltb (a b : bytes) : bool :=
  match a, b with
  | _, [] => false
  | [], _ :: _ => true
  | x :: a', y :: b' =>
      (byteZ x <? byteZ y) || (bool_decide (x = y) && bytes_ltb a' b')
  end.

Definition bytes_lt (a b : bytes) : Prop := bytes_ltb a b = true.

(** The zero value of a byte array type [[n]byte]. *)
Definition zero_bytes (n : nat) : bytes := replicate n x00.

Definition is_zero_bytes (b : bytes) : bool := bytes_eqb b (zero_bytes (length b)).

(** [len] as a Go [int]. *)
Definition len (b : bytes) : Z := Z.of_nat (length b).

(** The slice [data[lo : lo+n]], in range. *)
Definition slice (data : bytes) (lo : Z) (n : nat) : bytes := take n (drop (Z.to_nat lo) data).

(** ** Big-endian integers *)

(** [binary.BigEndian.PutUintN] on an [n]-byte buffer. *)
Fixpoint be_bytes (n : nat) (z : Z) : bytes :=
  match n with
  | O => []
  | S n' => be_bytes n' (z / 256) ++ [Zbyte z]
  end.

(** [binary.BigEndian.UintN] *)
Definition be_value (b : bytes) : Z := fold_left (fun acc x => acc * 256 + byteZ x) b 0.

Definition appendUint16 (target : bytes) (value : Z) : bytes := target ++ be_bytes 2 value.
Definition appendUint32 (target : bytes) (value : Z) : bytes := target ++ be_bytes 4 value.
Definition appendUint64 (target : bytes) (value : Z) : bytes := target ++ be_bytes 8 value.

(** [value.Bytes32()] appended. *)
Definition appendUint256 (target : bytes) (value : Z) : bytes := target ++ be_bytes 32 value.

(** An [n]-byte big-endian read at an offset: the value and the new offset. *)
Definition read_be (n : nat) (data : bytes) (offset : Z) : option (Z * Z) :=
  if (offset <? 0) || (len data - offset <? Z.of_nat n) then None
  else Some (be_value (slice data offset n), offset + Z.of_nat n).

Definition readUint16 (data : bytes) (offset : Z) : option (Z * Z) := read_be 2 data offset.
Definition readUint32 (data : bytes) (offset : Z) : option (Z * Z) := read_be 4 data offset.
Definition readUint64 (data : bytes) (offset : Z) : option (Z * Z) := read_be 8 data offset.
Definition readUint256 (data : bytes) (offset : Z) : option (Z * Z) := read_be 32 data offset.

(** [readFixed] into an [n]-byte array. *)
Definition readFixed (n : nat) (data : bytes) (offset : Z) : option (bytes * Z) :=
  if (offset <? 0) || (len data - offset <? Z.of_nat n) then None
  else Some (slice data offset n, offset + Z.of_nat n).

Definition encodeUint32 (value : Z) : bytes := appendUint32 [] value.
Definition encodeUint64 (value : Z) : bytes := appendUint64 [] value.

Definition decodeUint64 (value : bytes) : option Z :=
  if negb (len value =? 8) then None else Some (be_value value).

(** ** Timestamps *)

Definition appendTime (target : bytes) (value : Time) : bytes :=
  if IsZero value then target ++ zero_bytes 12
  else appendUint32 (appendUint64 target (uint64_wrap (Unix value))) (uint32_wrap (Nanosecond value)).

Definition readTime (data : bytes) (offset : Z) : option (Time * Z) :=
  match readUint64 data offset with
  | None => None
  | Some (seconds, offset) =>
      match readUint32 data offset with
      | None => None
      | Some (nanoseconds, offset) =>
          if Second <=? nanoseconds then None
          else if (seconds =? 0) && (nanoseconds =? 0) then Some (zeroTime, offset)
          else Some (unixTime (int64_wrap seconds) nanoseconds, offset)
      end
  end.

(** The instants whose encoding reads back unchanged: every instant but the
    Unix epoch, whose twelve zero bytes mean the zero time. *)
Definition time_storable (t : Time) : Prop := time_ok t /\ t <> unixEpoch.

Lemma zeroTime_storable : time_storable zeroTime.
Proof. split; done. Qed.

(** ** Lemmas: bytes *)

Lemma byteZ_range b : 0 <= byteZ b < 256.
Proof.
  unfold byteZ. pose proof (Byte.to_N_bounded b). lia.
Qed.

Lemma byteZ_Zbyte z : byteZ (Zbyte z) = z mod 256.
Proof.
  unfold byteZ, Zbyte. pose proof (Z.mod_pos_bound z 256 ltac:(lia)) as Hr.
  destruct (Byte.of_N (Z.to_N (z mod 256))) as [b|] eqn:E.
  - apply Byte.to_of_N in E. rewrite E. lia.
  - apply Byte.of_N_None_iff in E. lia.
Qed.

Lemma byteZ_inj b c : byteZ b = byteZ c -> b = c.
Proof.
  unfold byteZ. intros H. apply N2Z.inj in H.
  pose proof (Byte.of_to_N b) as Hb. rewrite H, Byte.of_to_N in Hb. congruence.
Qed.

Lemma Zbyte_byteZ b : Zbyte (byteZ b) = b.
Proof. apply byteZ_inj. rewrite byteZ_Zbyte. apply Z.mod_small, byteZ_range. Qed.

Lemma bytes_eqb_spec a b : bytes_eqb a b = true <-> a = b.
Proof. unfold bytes_eqb. by rewrite bool_decide_eq_true. Qed.

Lemma bytes_eqb_refl a : bytes_eqb a a = true.
Proof. by apply bytes_eqb_spec. Qed.

Lemma bytes_eqb_false a b : bytes_eqb a b = false <-> a <> b.
Proof. unfold bytes_eqb. by rewrite bool_decide_eq_false. Qed.

Lemma is_zero_bytes_spec b : is_zero_bytes b = true <-> b = zero_bytes (length b).
Proof. apply bytes_eqb_spec. Qed.

Lemma bytes_ltb_irrefl a : bytes_ltb a a = false.
Proof. induction a as [|x a IH]; cbn; [done|]. rewrite IH, andb_false_r, Z.ltb_irrefl. done. Qed.

Lemma bytes_ltb_cons x y a b :
  bytes_ltb (x :: a) (y :: b) = true <-> byteZ x < byteZ y \/ (x = y /\ bytes_ltb a b = true).
Proof. cbn. by rewrite orb_true_iff, andb_true_iff, Z.ltb_lt, bool_decide_eq_true. Qed.

#[export] Instance bytes_lt_trans : Transitive bytes_lt.
Proof.
  unfold bytes_lt. intros a. induction a as [|x a IH]; intros [|y b] [|z c]; try done.
  rewrite !bytes_ltb_cons. intros [?|[-> ?]] [?|[-> ?]]; [left; lia|left; lia|left; lia|].
  right. eauto.
Qed.

#[export] Instance bytes_lt_irreflexive : Irreflexive bytes_lt.
Proof. intros a H. unfold bytes_lt in H. rewrite bytes_ltb_irrefl in H. discriminate. Qed.

#[export] Instance bytes_lt_strict : StrictOrder bytes_lt := {}.

Lemma bytes_lt_trichotomy a b : bytes_lt a b \/ a = b \/ bytes_lt b a.
Proof.
  unfold bytes_lt. revert b. induction a as [|x a IH]; intros [|y b]; auto.
  rewrite !bytes_ltb_cons.
  destruct (Z.lt_trichotomy (byteZ x) (byteZ y)) as [?|[E|?]]; auto.
  apply byteZ_inj in E as ->. destruct (IH b) as [?|[->|?]]; auto.
Qed.

(** [bytes.Compare(b, a) >= 0] *)
Lemma bytes_ltb_false a b : bytes_ltb b a = false <-> bytes_lt a b \/ a = b.
Proof.
  split.
  - intros H. destruct (bytes_lt_trichotomy a b) as [?|[?|Hlt]]; auto.
    unfold bytes_lt in Hlt. congruence.
  - intros H. destruct (bytes_ltb b a) eqn:E; [|done]. exfalso. apply (irreflexivity bytes_lt b).
    destruct H as [H|H]; [by transitivity a|subst a; exact E].
Qed.

Lemma bytes_le_trans a b c :
  bytes_ltb b a = false -> bytes_ltb c b = false -> bytes_ltb c a = false.
Proof.
  rewrite !bytes_ltb_false. intros [H1| ->] [H2| ->]; auto. left. by transitivity b.
Qed.

(** ** Lemmas: big-endian integers *)

Lemma be_value_snoc b x : be_value (b ++ [x]) = be_value b * 256 + byteZ x.
Proof. unfold be_value. by rewrite fold_left_app. Qed.

Lemma length_be_bytes n z : length (be_bytes n z) = n.
Proof. revert z. induction n as [|n IH]; intros z; cbn; [done|]. rewrite length_app, IH. cbn. lia. Qed.

Lemma be_value_range b : 0 <= be_value b < 256 ^ Z.of_nat (length b).
Proof.
  induction b as [|x b IH] using rev_ind; [cbn; lia|].
  rewrite be_value_snoc, length_app, Nat2Z.inj_add, Z.pow_add_r by lia. cbn [length].
  pose proof (byteZ_range x). change (256 ^ Z.of_nat 1) with 256. nia.
Qed.

Lemma be_value_bytes n z : be_value (be_bytes n z) = z mod 256 ^ Z.of_nat n.
Proof.
  revert z. induction n as [|n IH]; intros z.
  - by rewrite Z.mod_1_r.
  - cbn [be_bytes]. rewrite be_value_snoc, IH, byteZ_Zbyte.
    rewrite Nat2Z.inj_succ, Z.pow_succ_r by lia.
    rewrite Z.rem_mul_r by lia. lia.
Qed.

Lemma be_bytes_value b : be_bytes (length b) (be_value b) = b.
Proof.
  induction b as [|x b IH] using rev_ind; [done|].
  rewrite be_value_snoc, length_app, Nat.add_1_r. cbn [be_bytes].
  pose proof (byteZ_range x).
  rewrite Z.div_add_l by lia. rewrite (Z.div_small (byteZ x)), Z.add_0_r, IH by lia.
  f_equal. f_equal. apply byteZ_inj.
  rewrite byteZ_Zbyte, Z.add_comm, Z.mod_add by lia. by apply Z.mod_small.
Qed.

Lemma be_bytes_inj n a b :
  inU (8 * Z.of_nat n) a -> inU (8 * Z.of_nat n) b -> be_bytes n a = be_bytes n b -> a = b.
Proof.
  unfold inU. rewrite Z.pow_mul_r by lia. change (2 ^ 8) with 256. intros Ha Hb E.
  apply (f_equal be_value) in E. rewrite !be_value_bytes, !Z.mod_small in E; lia.
Qed.

Lemma be_bytes_mod n z : be_bytes n (z mod 2 ^ (8 * Z.of_nat n)) = be_bytes n z.
Proof.
  rewrite <- (be_bytes_value (be_bytes n z)), length_be_bytes, be_value_bytes.
  by rewrite Z.pow_mul_r by lia.
Qed.

(** ** Lemmas: reading back what was appended *)

Lemma len_app a b : len (a ++ b) = len a + len b.
Proof. unfold len. rewrite length_app. lia. Qed.

Lemma len_nonneg a : 0 <= len a.
Proof. unfold len. lia. Qed.

Lemma slice_app pre x post : slice (pre ++ x ++ post) (len pre) (length x) = x.
Proof.
  unfold slice, len. rewrite Nat2Z.id, drop_app_length, take_app_length. done.
Qed.

Lemma readFixed_app n pre x post :
  length x = n -> readFixed n (pre ++ x ++ post) (len pre) = Some (x, len (pre ++ x)).
Proof.
  intros <-. unfold readFixed. rewrite slice_app, !len_app.
  pose proof (len_nonneg pre). pose proof (len_nonneg post).
  replace (len pre <? 0) with false by (symmetry; apply Z.ltb_ge; lia).
  replace (len pre + (len x + len post) - len pre <? Z.of_nat (length x)) with false
    by (symmetry; apply Z.ltb_ge; unfold len at 2; lia). done.
Qed.

Lemma read_be_app n z pre post :
  read_be n (pre ++ be_bytes n z ++ post) (len pre)
  = Some (z mod 2 ^ (8 * Z.of_nat n), len (pre ++ be_bytes n z)).
Proof.
  pose proof (readFixed_app n pre (be_bytes n z) post (length_be_bytes n z)) as H.
  unfold readFixed in H. unfold read_be. destruct (_ || _); [discriminate|].
  injection H as H1 H2. rewrite H1, H2, be_value_bytes.
  by rewrite Z.pow_mul_r by lia.
Qed.

Lemma readFixed_inv n data offset x offset' :
  readFixed n data offset = Some (x, offset') -> length x = n /\ offset' = offset + Z.of_nat n.
Proof.
  unfold readFixed. destruct (_ || _) eqn:E; [done|]. intros [= <- <-]. bool_hyps.
  split; [|done]. unfold slice. rewrite length_take, length_drop. unfold len in *. lia.
Qed.

Lemma read_be_inv n data offset z offset' :
  read_be n data offset = Some (z, offset') ->
  inU (8 * Z.of_nat n) z /\ offset' = offset + Z.of_nat n.
Proof.
  intros H. unfold read_be in H.
  destruct (readFixed n data offset) as [[x o]|] eqn:E; unfold readFixed in E;
    destruct (_ || _) eqn:E'; try discriminate.
  injection H as <- <-. split; [|done].
  pose proof (readFixed_inv n data offset x o) as Hx. unfold readFixed in Hx. rewrite E' in Hx.
  destruct (Hx E) as [Hl _]. injection E as <- <-.
  pose proof (be_value_range (slice data offset n)) as Hr. rewrite Hl in Hr.
  unfold inU. rewrite Z.pow_mul_r by lia. exact Hr.
Qed.

Definition time_bytes (t : Time) : bytes := appendTime [] t.

Lemma appendTime_app target t : appendTime target t = target ++ time_bytes t.
Proof.
  unfold time_bytes, appendTime, appendUint32, appendUint64.
  destruct (IsZero t); [done|]. cbn. by rewrite <- app_assoc.
Qed.

Lemma length_time_bytes t : length (time_bytes t) = 12%nat.
Proof.
  unfold time_bytes, appendTime, appendUint32, appendUint64.
  destruct (IsZero t); [done|]. cbn [app]. by rewrite length_app, !length_be_bytes.
Qed.

Lemma time_bytes_be t : exists s n, time_bytes t = be_bytes 8 s ++ be_bytes 4 n /\
  readTime (be_bytes 8 s ++ be_bytes 4 n) 0 = readTime (time_bytes t) 0 /\
  (if IsZero t then s = 0 /\ n = 0
   else s = uint64_wrap (Unix t) /\ n = uint32_wrap (Nanosecond t)).
Proof.
  unfold time_bytes, appendTime. destruct (IsZero t) eqn:E.
  - by exists 0, 0.
  - by eexists _, _.
Qed.

Lemma readTime_be s n pre post :
  readTime (pre ++ (be_bytes 8 s ++ be_bytes 4 n) ++ post) (len pre) =
    let s' := s mod 2 ^ 64 in let n' := n mod 2 ^ 32 in
    let o := len (pre ++ be_bytes 8 s ++ be_bytes 4 n) in
    if Second <=? n' then None
    else if (s' =? 0) && (n' =? 0) then Some (zeroTime, o)
    else Some (unixTime (int64_wrap s') n', o).
Proof.
  unfold readTime, readUint64, readUint32.
  rewrite <- (app_assoc (be_bytes 8 s)), read_be_app.
  rewrite app_assoc, read_be_app. cbn zeta. rewrite <- !app_assoc. done.
Qed.

Lemma readTime_app t pre post :
  time_storable t -> readTime (pre ++ time_bytes t ++ post) (len pre) = Some (t, len (pre ++ time_bytes t)).
Proof.
  intros [Hok Hep]. destruct (time_bytes_be t) as (s & n & -> & _ & Hsn).
  rewrite readTime_be. cbn zeta. destruct (IsZero t) eqn:E.
  - destruct Hsn as [-> ->]. apply Z.eqb_eq in E as ->. done.
  - destruct Hsn as [-> ->]. unfold uint64_wrap, uint32_wrap.
    rewrite !Zmod_mod. pose proof (Nanosecond_range t) as Hn. unfold Second in Hn.
    rewrite (Z.mod_small (Nanosecond t)) by lia.
    replace (Second <=? Nanosecond t) with false by (symmetry; apply Z.leb_gt; apply Nanosecond_range).
    destruct ((Unix t mod 2 ^ 64 =? 0) && (Nanosecond t =? 0)) eqn:Ez.
    + exfalso. bool_hyps. apply Hep, Unix_zero; [done| |done].
      pose proof (Unix_range t). rewrite <- (int64_wrap_id (Unix t)) by done.
      rewrite <- int64_of_uint64_wrap. unfold uint64_wrap. by rewrite H.
    + change (Unix t mod 2 ^ 64) with (uint64_wrap (Unix t)).
      rewrite int64_of_uint64_wrap, (int64_wrap_id (Unix t)) by apply Unix_range.
      by rewrite unixTime_Unix.
Qed.

(** Whatever is read back as a time is an instant other than the epoch. *)
Lemma readTime_inv data offset t offset' :
  readTime data offset = Some (t, offset') -> time_storable t /\ offset' = offset + 12.
Proof.
  unfold readTime. destruct (readUint64 data offset) as [[s o1]|] eqn:E1; [|done].
  destruct (readUint32 data o1) as [[n o2]|] eqn:E2; [|done].
  apply read_be_inv in E1 as [Hs ->]. apply read_be_inv in E2 as [Hn ->].
  destruct (Second <=? n) eqn:En; [done|]. apply Z.leb_gt in En. unfold inU in *.
  destruct ((s =? 0) && (n =? 0)) eqn:Ez; intros [= <- <-].
  - split; [|lia]. split; done.
  - split; [|lia]. split; [apply unixTime_ok; lia|]. intros Heq.
    assert (Hu : Unix (unixTime (int64_wrap s) n) = 0) by (rewrite Heq; done).
    assert (Hm : unixTime (int64_wrap s) n mod Second = 0) by (rewrite Heq; done).
    rewrite Unix_unixTime in Hu by (try apply int64_wrap_range; lia).
    rewrite unixTime_mod in Hm by lia. subst n. rewrite andb_true_r in Ez. bool_hyps.
    unfold int64_wrap in Hu.
    assert (Hms : (s + 2 ^ 63) mod 2 ^ 64 = 2 ^ 63) by lia.
    destruct (Z.lt_ge_cases (s + 2 ^ 63) (2 ^ 64)) as [Hlt|Hge].
    + rewrite Z.mod_small in Hms by lia. lia.
    + rewrite <- (Z.mod_add _ (-1)), Z.mod_small in Hms by lia. lia.
Qed.

Lemma be8_signed_inj a b :
  - 2 ^ 63 <= a < 2 ^ 63 -> - 2 ^ 63 <= b < 2 ^ 63 -> be_bytes 8 a = be_bytes 8 b -> a = b.
Proof.
  intros Ha Hb E. apply (f_equal be_value) in E. rewrite !be_value_bytes in E.
  change (256 ^ Z.of_nat 8) with (2 ^ 64) in E.
  rewrite <- (int64_wrap_id a), <- (int64_wrap_id b) by done.
  rewrite <- (int64_of_uint64_wrap a), <- (int64_of_uint64_wrap b).
  unfold uint64_wrap. by rewrite E.
Qed.

(** Cancel equal-length prefixes of two concatenations. *)
Ltac split_app H :=
  repeat match type of H with
  | _ ++ _ = _ ++ _ =>
      apply app_inj_1 in H as [? H];
        [|rewrite ?length_be_bytes, ?length_time_bytes; solve [done | congruence]]
  end.

(** Equal big-endian encodings of integers in range give equal integers. *)
Ltac be_inj :=
  repeat match goal with
  | E : be_bytes _ ?a = be_bytes _ ?b |- _ =>
      first [apply be_bytes_inj in E; [|assumption|assumption]
            |apply be8_signed_inj in E; [|assumption|assumption]]
  end.

(** ** Cursors

    [at_offset data offset rest]: the bytes of [data] from [offset] on are
    [rest].  Reading an item that was appended moves the cursor past it. *)
Definition at_offset (data : bytes) (offset : Z) (rest : bytes) : Prop :=
  exists pre, data = pre ++ rest /\ offset = len pre.

Lemma at_offset_start data pre rest :
  data = pre ++ rest -> at_offset data (len pre) rest.
Proof. intros ->. by exists pre. Qed.

Lemma at_offset_fixed data offset n x rest :
  at_offset data offset (x ++ rest) -> length x = n ->
  exists offset', readFixed n data offset = Some (x, offset') /\ at_offset data offset' rest.
Proof.
  intros (pre & -> & ->) Hx. rewrite readFixed_app by done. eexists. split; [done|].
  exists (pre ++ x). by rewrite <- app_assoc.
Qed.

Lemma at_offset_be data offset n z rest :
  at_offset data offset (be_bytes n z ++ rest) ->
  exists offset', read_be n data offset = Some (z mod 2 ^ (8 * Z.of_nat n), offset') /\
    at_offset data offset' rest.
Proof.
  intros (pre & -> & ->). rewrite read_be_app. eexists. split; [done|].
  exists (pre ++ be_bytes n z). by rewrite <- app_assoc.
Qed.

Lemma at_offset_be_id data offset n z rest :
  at_offset data offset (be_bytes n z ++ rest) -> inU (8 * Z.of_nat n) z ->
  exists offset', read_be n data offset = Some (z, offset') /\ at_offset data offset' rest.
Proof.
  intros H Hz. destruct (at_offset_be _ _ _ _ _ H) as (o & E & Ho).
  rewrite Z.mod_small in E by exact Hz. eauto.
Qed.

Lemma at_offset_time data offset t rest :
  at_offset data offset (time_bytes t ++ rest) -> time_storable t ->
  exists offset', readTime data offset = Some (t, offset') /\ at_offset data offset' rest.
Proof.
  intros (pre & -> & ->) Ht. rewrite readTime_app by done. eexists. split; [done|].
  exists (pre ++ time_bytes t). by rewrite <- app_assoc.
Qed.

Lemma at_offset_end data offset : at_offset data offset [] -> offset = len data.
Proof. intros (pre & -> & ->). by rewrite app_nil_r. Qed.

(** [data[offset]], in range. *)
Definition byte_at (data : bytes) (offset : Z) : byte := nth (Z.to_nat offset) data x00.

Lemma at_offset_byte data offset b rest :
  at_offset data offset (b :: rest) ->
  offset < len data /\ byte_at data offset = b /\ at_offset data (offset + 1) rest.
Proof.
  intros (pre & -> & ->). split; [rewrite len_app; unfold len; cbn; lia|]. split.
  - unfold byte_at, len. rewrite Nat2Z.id, app_nth2, Nat.sub_diag by lia. done.
  - exists (pre ++ [b]). rewrite <- app_assoc. split; [done|]. rewrite len_app. done.
Qed.

(** A length-prefixed field: the slice at the cursor, and room for it. *)
Lemma at_offset_slice data offset x rest :
  at_offset data offset (x ++ rest) ->
  slice data offset (length x) = x /\ len x <= len data - offset /\ at_offset data (offset + len x) rest.
Proof.
  intros (pre & -> & ->). rewrite !len_app. split; [|split].
  - unfold slice, len. rewrite Nat2Z.id, drop_app_length, take_app_length. done.
  - unfold len. lia.
  - exists (pre ++ x). by rewrite <- app_assoc, len_app.
Qed.

(** Advance the cursor [H] over the next read of the goal. *)
Ltac read_next H tac :=
  let o := fresh "o" in let E := fresh "E" in
  first
    [ eapply at_offset_fixed in H as (o & E & H); [rewrite E; clear E|tac]
    | eapply at_offset_be_id in H as (o & E & H); [rewrite E; clear E|tac]
    | eapply at_offset_time in H as (o & E & H); [rewrite E; clear E|tac] ].

Arguments be_bytes : simpl never.
Arguments be_value : simpl never.
Arguments read_be : simpl never.
Arguments readFixed : simpl never.
Arguments readTime : simpl never.
Arguments time_bytes : simpl never.
Arguments len : simpl never.
Arguments slice : simpl never.
Arguments byte_at : simpl never.

(** ** Eight-byte keys *)

Lemma encodeUint64_inj a b : inU 64 a -> inU 64 b -> encodeUint64 a = encodeUint64 b -> a = b.
Proof. unfold encodeUint64, appendUint64. cbn [app]. intros. by apply (be_bytes_inj 8). Qed.

(** The byte order of equally long strings is the order of their values. *)
Lemma be_value_cons x b : be_value (x :: b) = byteZ x * 256 ^ Z.of_nat (length b) + be_value b.
Proof.
  induction b as [|y b IH] using rev_ind.
  { change [x] with ([] ++ [x]). rewrite be_value_snoc. change (be_value []) with 0. cbn [length]. change (256 ^ Z.of_nat 0) with 1. lia. }
  rewrite app_comm_cons, !be_value_snoc, IH, length_app, Nat2Z.inj_add. cbn [length]. rewrite Z.pow_add_r by lia. lia.
Qed.

Lemma bytes_lt_value a b : length a = length b -> bytes_lt a b -> be_value a < be_value b.
Proof.
  unfold bytes_lt. revert b. induction a as [|x a IH]; intros [|y b] Hl; try done. injection Hl as Hl.
  rewrite bytes_ltb_cons, !be_value_cons, Hl. pose proof (be_value_range a) as Ha. pose proof (be_value_range b). rewrite Hl in Ha.
  intros [Hlt|[-> Hlt%IH]]; [nia|lia|done].
Qed.

Lemma length_encodeUint64 z : length (encodeUint64 z) = 8%nat.
Proof. unfold encodeUint64, appendUint64. cbn [app]. apply length_be_bytes. Qed.

Lemma decode_encodeUint64 z : inU 64 z -> decodeUint64 (encodeUint64 z) = Some z.
Proof.
  intros Hz. unfold decodeUint64. unfold len. rewrite length_encodeUint64. cbn [Z.of_nat Z.eqb Pos.eqb negb Pos.of_succ_nat Pos.succ].
  unfold encodeUint64, appendUint64. cbn [app]. rewrite be_value_bytes. by rewrite Z.mod_small.
Qed.
