(* ===== verification/Sha256.v ===== *)
(** * SHA-256 ([crypto/sha256] of the Go standard library)

    FIPS 180-4 as an executable function on byte lists.  The identifiers of
    candidates, incidents, reservations and claim plans are SHA-256 digests of
    domain-separated encodings.  The theorems of the library never assume that
    the function is injective: they use only that it is a function with 32-byte
    results. *)

From S2P Require Import Prelude Bytes.
From Stdlib Require Import Strings.Byte.

Definition w32 (z : Z) : Z := Z.land z 4294967295.
Definition rotr (n x : Z) : Z := w32 (Z.lor (Z.shiftr x n) (Z.shiftl x (32 - n))).
Definition add32 (a b : Z) : Z := w32 (a + b).

Definition Ch (x y z : Z) : Z := Z.lxor (Z.land x y) (Z.land (Z.lxor x 4294967295) z).
Definition Maj (x y z : Z) : Z := Z.lxor (Z.lxor (Z.land x y) (Z.land x z)) (Z.land y z).
Definition bigSigma0 (x : Z) : Z := Z.lxor (Z.lxor (rotr 2 x) (rotr 13 x)) (rotr 22 x).
Definition bigSigma1 (x : Z) : Z := Z.lxor (Z.lxor (rotr 6 x) (rotr 11 x)) (rotr 25 x).
Definition smallSigma0 (x : Z) : Z := Z.lxor (Z.lxor (rotr 7 x) (rotr 18 x)) (Z.shiftr x 3).
Definition smallSigma1 (x : Z) : Z := Z.lxor (Z.lxor (rotr 17 x) (rotr 19 x)) (Z.shiftr x 10).

(** The first primes, by trial division. *)
Definition is_prime (n : Z) : bool :=
  forallb (fun d => negb (n mod Z.of_nat d =? 0)) (seq 2 (Z.to_nat n - 2)).

Definition primes (count : nat) : list Z :=
  take count (List.filter is_prime (map Z.of_nat (seq 2 400))).

(** The integer cube root of a number below [2 ^ (3 * bits)], bit by bit. *)
Fixpoint cube_root (bits : nat) (root n : Z) : Z :=
  match bits with
  | O => root
  | S bits' =>
      let next := root + 2 ^ Z.of_nat bits' in
      cube_root bits' (if next * next * next <=? n then next else root) n
  end.

(** The round constants and the initial state: the first 32 bits of the
    fractional parts of the cube roots of the first 64 primes and of the square
    roots of the first eight. *)
Definition sha256_K : list Z :=
  Eval vm_compute in map (fun p => w32 (cube_root 36 0 (Z.shiftl p 96))) (primes 64).

Definition sha256_H0 : list Z :=
  Eval vm_compute in map (fun p => w32 (Z.sqrt (Z.shiftl p 64))) (primes 8).

(** Message padding: a 1 bit, zeros, and the 64-bit length in bits. *)
Definition sha256_pad (msg : bytes) : bytes :=
  let zeros := Z.to_nat ((55 - len msg) mod 64) in
  msg ++ x80 :: zero_bytes zeros ++ be_bytes 8 (8 * len msg).

(** Split into chunks of [n] elements, [fuel] chunks at most. *)
Fixpoint chunks {A} (fuel n : nat) (l : list A) : list (list A) :=
  match fuel with
  | O => []
  | S fuel' => match l with [] => [] | _ => take n l :: chunks fuel' n (drop n l) end
  end.

(** The message schedule, kept in reverse order so that the newest word is first. *)
Fixpoint schedule (n : nat) (rev_w : list Z) : list Z :=
  match n with
  | O => rev rev_w
  | S n' =>
      let at_back k := nth k rev_w 0 in
      let w := add32 (add32 (smallSigma1 (at_back 1%nat)) (at_back 6%nat))
                     (add32 (smallSigma0 (at_back 14%nat)) (at_back 15%nat)) in
      schedule n' (w :: rev_w)
  end.

Definition sha256_round (st : list Z) (kw : Z * Z) : list Z :=
  match st with
  | [a; b; c; d; e; f; g; h] =>
      let t1 := add32 (add32 h (bigSigma1 e)) (add32 (Ch e f g) (add32 (fst kw) (snd kw))) in
      let t2 := add32 (bigSigma0 a) (Maj a b c) in
      [add32 t1 t2; a; b; c; add32 d t1; e; f; g]
  | _ => st
  end.

Definition sha256_block (h : list Z) (block : bytes) : list Z :=
  let w := schedule 48 (rev (map be_value (chunks 16 4 block))) in
  let h' := fold_left sha256_round (zip sha256_K w) h in
  zip_with add32 h h'.

Definition sha256 (msg : bytes) : bytes :=
  let padded := sha256_pad msg in
  let blocks := chunks (length padded) 64 padded in
  flat_map (be_bytes 4) (fold_left sha256_block blocks sha256_H0).

Lemma sha256_round_length st kw : length st = 8%nat -> length (sha256_round st kw) = 8%nat.
Proof.
  intros H. do 9 (destruct st as [|? st]; try discriminate H). done.
Qed.

Lemma sha256_block_length h b : length h = 8%nat -> length (sha256_block h b) = 8%nat.
Proof.
  intros Hh. unfold sha256_block. rewrite length_zip_with.
  set (kws := zip _ _). clearbody kws.
  assert (Hf : forall l st, length st = 8%nat -> length (fold_left sha256_round l st) = 8%nat).
  { induction l as [|kw l IH]; intros st Hst; cbn; [done|]. by apply IH, sha256_round_length. }
  rewrite (Hf _ _ Hh), Hh. done.
Qed.

Lemma sha256_length msg : length (sha256 msg) = 32%nat.
Proof.
  unfold sha256. set (blocks := chunks _ _ _). clearbody blocks.
  assert (Hf : forall l h, length h = 8%nat -> length (fold_left sha256_block l h) = 8%nat).
  { induction l as [|b l IH]; intros h Hh; cbn; [done|]. by apply IH, sha256_block_length. }
  specialize (Hf blocks sha256_H0 eq_refl). revert Hf. generalize (fold_left sha256_block blocks sha256_H0).
  intros l Hl. do 9 (destruct l as [|? l]; try discriminate Hl). done.
Qed.

(** The FIPS 180-4 test vector for the message "abc". *)
Example sha256_abc : be_value (sha256 [x61; x62; x63]) =
  0xba7816bf8f01cfea414140de5dae2223b00361a396177a9cb410ff61f20015ad.
Proof. vm_compute. reflexivity. Qed.

(** The test vector for the two-block message
    "abcdbcdecdefdefgefghfghighijhijkijkljklmklmnlmnomnopnopq". *)
Example sha256_two_blocks :
  be_value (sha256 (be_bytes 56 0x6162636462636465636465666465666765666768666768696768696a68696a6b696a6b6c6a6b6c6d6b6c6d6e6c6d6e6f6d6e6f706e6f7071)) =
  0x248d6a61d20638b8e5c026930c3e6039a33ce45964ff2167f6ecedd419db06c1.
Proof. vm_compute. reflexivity. Qed.

Arguments sha256 : simpl never.
#[global] Opaque sha256.

(** The digest still computes. *)
Example sha256_empty : be_value (sha256 []) =
  0xe3b0c44298fc1c149afbf4c8996fb92427ae41e4649b934ca495991b7852b855.
Proof. vm_compute. reflexivity. Qed.
