(* ===== verification/Domain.v ===== *)
(** * internal/domain: candidates, incidents and claim plans

    The value types every other component exchanges, their constructors, the
    validation of deserialised candidates, and the identifiers: SHA-256 digests
    of a domain-separation tag followed by the identity fields.  The theorems
    show which fields an identifier binds (its preimage determines them) and
    which it leaves free, and that every constructor yields a candidate that
    validates. *)

From S2P Require Import Prelude GoTime Bytes Sha256.
From Stdlib Require Import Strings.Byte.
From Stdlib Require Strings.String.
Import Strings.String.StringSyntax.

(** The bytes of a Go string literal. *)
Definition str (s : String.string) : bytes := String.list_byte_of_string s.
Arguments str s%_string_scope.

Module Domain.

(** [NetworkID] is an [int64]; addresses, hashes and IDs are byte arrays. *)
Definition NetworkID := Z.
Definition Address := bytes.
Definition Hash := bytes.
Definition CandidateID := bytes.
Definition IncidentID := bytes.

Definition isAddress (a : Address) : Prop := length a = 20%nat.
Definition isHash (h : Hash) : Prop := length h = 32%nat.

Record Token := mkToken {
  Token_Address : Address;
  Token_Symbol : bytes;
  Token_Decimals : Z }.

(** A [CandidateKind] is a [uint8]; the named kinds are 1 to 5. *)
Inductive CandidateKind :=
| CandidateToken
| CandidateNative
| CandidatePeriodic
| CandidateClaim
| CandidateFastToken
| CandidateKindOther (b : byte).

#[export] Instance CandidateKind_eq_dec : EqDecision CandidateKind.
Proof. solve_decision. Defined.

Definition kind_byte (k : CandidateKind) : byte :=
  match k with
  | CandidateToken => x01
  | CandidateNative => x02
  | CandidatePeriodic => x03
  | CandidateClaim => x04
  | CandidateFastToken => x05
  | CandidateKindOther b => b
  end.

Definition kind_of_byte (b : byte) : CandidateKind :=
  match b with
  | x01 => CandidateToken
  | x02 => CandidateNative
  | x03 => CandidatePeriodic
  | x04 => CandidateClaim
  | x05 => CandidateFastToken
  | _ => CandidateKindOther b
  end.

Record RescueCandidate := mkCandidate {
  Candidate_ID : CandidateID;
  Candidate_Network : NetworkID;
  Candidate_Kind : CandidateKind;
  Candidate_Source : Address;
  Candidate_Token : Token;
  Candidate_BlockHash : Hash;
  Candidate_BlockNumber : Z;
  Candidate_TxHash : Hash;
  Candidate_LogIndex : Z;
  Candidate_Generation : Z;
  Candidate_Observation : Z }.

#[export] Instance Token_eq_dec : EqDecision Token.
Proof. solve_decision. Defined.

#[export] Instance RescueCandidate_eq_dec : EqDecision RescueCandidate.
Proof. solve_decision. Defined.

Definition zeroToken : Token := mkToken (zero_bytes 20) [] 0.
Definition zeroHash : Hash := zero_bytes 32.
Definition zeroAddress : Address := zero_bytes 20.

(** The bytes hashed by [candidateID], in the order of the [h.Write] calls. *)
Definition candidatePreimage (c : RescueCandidate) : bytes :=
  str "guard-daemon/candidate/v1" ++
  be_bytes 8 (Candidate_Network c) ++
  [kind_byte (Candidate_Kind c)] ++
  Candidate_Source c ++
  Token_Address (Candidate_Token c) ++
  Candidate_BlockHash c ++
  be_bytes 8 (Candidate_BlockNumber c) ++
  Candidate_TxHash c ++
  be_bytes 8 (Candidate_LogIndex c) ++
  be_bytes 8 (Candidate_Observation c).

Definition candidateID (c : RescueCandidate) : CandidateID := sha256 (candidatePreimage c).

Definition withID (c : RescueCandidate) : RescueCandidate :=
  mkCandidate (candidateID c) (Candidate_Network c) (Candidate_Kind c) (Candidate_Source c)
    (Candidate_Token c) (Candidate_BlockHash c) (Candidate_BlockNumber c) (Candidate_TxHash c)
    (Candidate_LogIndex c) (Candidate_Generation c) (Candidate_Observation c).

Definition zeroID : bytes := zero_bytes 32.

Definition NewLogCandidate (network : NetworkID) (source : Address) (token : Token)
    (blockHash txHash : Hash) (blockNumber logIndex : Z) : RescueCandidate :=
  withID (mkCandidate zeroID network CandidateToken source token blockHash blockNumber txHash logIndex 0 0).

Definition NewFastTokenCandidate (network : NetworkID) (source : Address) (token : Token)
    (blockHash txHash : Hash) (blockNumber logIndex : Z) (dryRun : bool) : RescueCandidate :=
  let c := NewLogCandidate network source token blockHash txHash blockNumber logIndex in
  withID (mkCandidate (Candidate_ID c) network CandidateFastToken source token blockHash blockNumber
            txHash logIndex 0 (if dryRun then 1 else 0)).

Definition NewBlockCandidate (network : NetworkID) (kind : CandidateKind) (source : Address)
    (blockHash : Hash) (blockNumber : Z) : RescueCandidate :=
  withID (mkCandidate zeroID network kind source zeroToken blockHash blockNumber zeroHash 0 0 0).

Definition NewPeriodicCandidate (network : NetworkID) (source : Address)
    (generation observation : Z) : RescueCandidate :=
  withID (mkCandidate zeroID network CandidatePeriodic source zeroToken zeroHash 0 zeroHash 0
            generation observation).

Definition NewTokenReconciliationCandidate (network : NetworkID) (source : Address) (token : Token)
    (generation observation : Z) : RescueCandidate :=
  withID (mkCandidate zeroID network CandidateToken source token zeroHash 0 zeroHash 0
            generation observation).

Inductive Error := ErrInvalidCandidate | ErrInvalidClaim.

Definition ValidateCandidate (c : RescueCandidate) : result Error unit :=
  reject (Candidate_Network c <=? 0) || is_zero_bytes (Candidate_Source c)
      || negb (bytes_eqb (Candidate_ID c) (candidateID c)) with ErrInvalidCandidate in
  let noToken := is_zero_bytes (Token_Address (Candidate_Token c)) in
  match Candidate_Kind c with
  | CandidateFastToken =>
      reject noToken || is_zero_bytes (Candidate_BlockHash c) || is_zero_bytes (Candidate_TxHash c)
          || (1 <? Candidate_Observation c) with ErrInvalidCandidate in Ok tt
  | CandidateClaim =>
      reject noToken || is_zero_bytes (Candidate_TxHash c) || negb (Candidate_BlockNumber c =? 0)
          || negb (is_zero_bytes (Candidate_BlockHash c)) with ErrInvalidCandidate in Ok tt
  | CandidateToken => reject noToken with ErrInvalidCandidate in Ok tt
  | CandidateNative | CandidatePeriodic => reject negb noToken with ErrInvalidCandidate in Ok tt
  | CandidateKindOther _ => Err ErrInvalidCandidate
  end.

Definition NewIncidentID (candidate : CandidateID) : IncidentID :=
  sha256 (str "guard-daemon/incident/v1" ++ candidate).

Definition NewAssetIncidentID (candidate : CandidateID) (kind : CandidateKind) (asset : Address) : IncidentID :=
  sha256 (str "guard-daemon/asset-incident/v1" ++ candidate ++ [kind_byte kind] ++ asset).

Record ClaimPlan := mkClaimPlan {
  Plan_Target : Address;
  Plan_Data : bytes;
  Plan_Value : Z;
  Plan_Token : Address;
  Plan_MinimumReceived : Z;
  Plan_GasLimit : Z;
  Plan_MaximumCost : Z;
  Plan_ValidUntil : Z }.

Definition ClaimPlan_Validate (plan : ClaimPlan) : result Error unit :=
  reject is_zero_bytes (Plan_Target plan) || is_zero_bytes (Plan_Token plan)
      || (len (Plan_Data plan) <? 4) || (16384 <? len (Plan_Data plan))
      || u256_IsZero (Plan_MinimumReceived plan) || (Plan_GasLimit plan =? 0)
      || u256_IsZero (Plan_MaximumCost plan) || u256_Gt (Plan_Value plan) (Plan_MaximumCost plan)
      || (Plan_ValidUntil plan =? 0) with ErrInvalidClaim in
  Ok tt.

(** The bytes hashed by [Digest]. *)
Definition claimPreimage (plan : ClaimPlan) : bytes :=
  str "guard-daemon/claim/v1" ++
  Plan_Target plan ++
  Plan_Token plan ++
  be_bytes 32 (Plan_Value plan) ++
  be_bytes 32 (Plan_MinimumReceived plan) ++
  be_bytes 32 (Plan_MaximumCost plan) ++
  be_bytes 8 (Plan_GasLimit plan) ++
  be_bytes 8 (Plan_ValidUntil plan) ++
  be_bytes 8 (len (Plan_Data plan)) ++
  Plan_Data plan.

Definition ClaimPlan_Digest (plan : ClaimPlan) : Hash := sha256 (claimPreimage plan).

Definition NewClaimCandidate (network : NetworkID) (source : Address) (plan : ClaimPlan) : RescueCandidate :=
  withID (mkCandidate zeroID network CandidateClaim source (mkToken (Plan_Token plan) [] 0)
            zeroHash 0 (ClaimPlan_Digest plan) 0 0 0).

(** ** Types: the ranges Go's types guarantee *)

Record candidate_typed (c : RescueCandidate) : Prop := {
  ct_network : - 2 ^ 63 <= Candidate_Network c < 2 ^ 63;
  ct_source : isAddress (Candidate_Source c);
  ct_token : isAddress (Token_Address (Candidate_Token c));
  ct_block_hash : isHash (Candidate_BlockHash c);
  ct_block_number : inU 64 (Candidate_BlockNumber c);
  ct_tx_hash : isHash (Candidate_TxHash c);
  ct_log_index : inU 64 (Candidate_LogIndex c);
  ct_observation : inU 64 (Candidate_Observation c);
  ct_kind : kind_of_byte (kind_byte (Candidate_Kind c)) = Candidate_Kind c }.

Record plan_typed (p : ClaimPlan) : Prop := {
  pt_target : isAddress (Plan_Target p);
  pt_token : isAddress (Plan_Token p);
  pt_value : inU 256 (Plan_Value p);
  pt_minimum : inU 256 (Plan_MinimumReceived p);
  pt_maximum : inU 256 (Plan_MaximumCost p);
  pt_gas : inU 64 (Plan_GasLimit p);
  pt_valid_until : inU 64 (Plan_ValidUntil p);
  pt_data : inU 63 (len (Plan_Data p)) }.

(** The identity of a candidate: what its ID is meant to bind. *)
Definition candidateIdentity (c : RescueCandidate) :=
  (Candidate_Network c, Candidate_Kind c, Candidate_Source c, Token_Address (Candidate_Token c),
   Candidate_BlockHash c, Candidate_BlockNumber c, Candidate_TxHash c, Candidate_LogIndex c,
   Candidate_Observation c).

(** ** Lemmas *)

Lemma kind_of_byte_byte b : kind_byte (kind_of_byte b) = b.
Proof. by destruct b. Qed.

Lemma is_zero_bytes_zero n : is_zero_bytes (zero_bytes n) = true.
Proof. apply is_zero_bytes_spec. unfold zero_bytes. by rewrite length_replicate. Qed.

Lemma candidatePreimage_identity c d :
  candidateIdentity c = candidateIdentity d -> candidatePreimage c = candidatePreimage d.
Proof. unfold candidateIdentity, candidatePreimage. intros [=]. congruence. Qed.

Lemma candidatePreimage_inj c d :
  candidate_typed c -> candidate_typed d ->
  candidatePreimage c = candidatePreimage d -> candidateIdentity c = candidateIdentity d.
Proof.
  intros [] [] H. unfold candidatePreimage in H. unfold isAddress, isHash in *. split_app H. be_inj.
  assert (Hk : Candidate_Kind c = Candidate_Kind d) by congruence.
  unfold candidateIdentity. congruence.
Qed.

Lemma claimPreimage_inj p q :
  plan_typed p -> plan_typed q -> claimPreimage p = claimPreimage q -> p = q.
Proof.
  intros [] [] H. unfold claimPreimage in H. unfold isAddress, isHash in *. split_app H. be_inj.
  destruct p, q; cbn in *. congruence.
Qed.

Lemma withID_valid_id c : Candidate_ID (withID c) = candidateID (withID c).
Proof. done. Qed.

Lemma candidateID_length c : length (candidateID c) = 32%nat.
Proof. apply sha256_length. Qed.

Lemma NewIncidentID_length c : length (NewIncidentID c) = 32%nat.
Proof. apply sha256_length. Qed.

Lemma ValidateCandidate_ok c :
  ValidateCandidate c = Ok tt ->
  0 < Candidate_Network c /\ is_zero_bytes (Candidate_Source c) = false /\
  Candidate_ID c = candidateID c /\
  (forall b, Candidate_Kind c <> CandidateKindOther b).
Proof.
  unfold ValidateCandidate. intros H. destruct (_ || _ || _) eqn:E; [done|]. bool_hyps.
  repeat split; [lia|done|by apply bytes_eqb_spec|].
  intros b Hb. by rewrite Hb in H.
Qed.

(** A fast-path job for a paid run and the one for a dry run of the same log
    have different preimages, and both differ from the finalized log's. *)
Lemma NewFastTokenCandidate_distinct n s t bh th bn li :
  candidate_typed (NewLogCandidate n s t bh th bn li) ->
  candidatePreimage (NewFastTokenCandidate n s t bh th bn li true)
    <> candidatePreimage (NewFastTokenCandidate n s t bh th bn li false) /\
  forall dry, candidatePreimage (NewFastTokenCandidate n s t bh th bn li dry)
    <> candidatePreimage (NewLogCandidate n s t bh th bn li).
Proof.
  intros Ht.
  assert (Hf : forall dry, candidate_typed (NewFastTokenCandidate n s t bh th bn li dry)).
  { intros dry. destruct Ht. constructor; try assumption; [|done]. by destruct dry. }
  split; [intros H | intros dry H]; apply candidatePreimage_inj in H; auto;
    unfold candidateIdentity in H; cbn in H; congruence.
Qed.

End Domain.
Export Domain.
