(* ===== verification/Bolt.v ===== *)
(** * The bbolt key-value store, as an interface

    The budget ledger and the handoff store keep their state in bbolt files
    (go.etcd.io/bbolt, a third-party package).  [Bolt] states the operations
    the program calls on a bucket and [BoltLaws] their documented behaviour:
    a bucket is a finite map from byte strings to byte strings whose iteration
    ([ForEach], [Cursor]) visits the keys in byte order; [Put] fails only on an
    empty or oversized key or an oversized value; a bucket also carries a
    sequence counter.  Every theorem about a client is proved against the
    interface; [MapBolt] is an instance, used by the witnesses.

    [db_update] is the transaction combinator [DB.Update]: the body runs on a
    private copy, and its writes become visible only if the body returns no
    error and the commit succeeds.  Whether the commit succeeds is an input. *)

From S2P Require Import Prelude Bytes.

(** The documented size limits of [Bucket.Put]. *)
Definition MaxKeySize : Z := 32768.
Definition MaxValueSize : Z := 2 ^ 31 - 2.

Definition put_fits (k v : bytes) : Prop := k <> [] /\ len k <= MaxKeySize /\ len v <= MaxValueSize.

Definition put_fitsb (k v : bytes) : bool :=
  negb (bytes_eqb k []) && (len k <=? MaxKeySize) && (len v <=? MaxValueSize).

Class Bolt := {
  bucket : Type;
  b_empty : bucket;
  b_get : bucket -> bytes -> option bytes;
  b_put : bucket -> bytes -> bytes -> option bucket;
  b_delete : bucket -> bytes -> bucket;
  b_entries : bucket -> list (bytes * bytes);
  b_sequence : bucket -> Z;
  b_nextSequence : bucket -> Z * bucket }.

Class BoltLaws (B : Bolt) : Prop := {
  bl_get_empty k : b_get b_empty k = None;
  bl_entries_get b k v : (k, v) ∈ b_entries b <-> b_get b k = Some v;
  bl_entries_sorted b : StronglySorted bytes_lt (map fst (b_entries b));
  bl_put_fits b k v : put_fits k v -> exists b', b_put b k v = Some b';
  bl_get_put b b' k v k' :
    b_put b k v = Some b' -> b_get b' k' = if decide (k = k') then Some v else b_get b k';
  bl_get_delete b k k' : b_get (b_delete b k) k' = if decide (k = k') then None else b_get b k';
  bl_sequence_empty : b_sequence b_empty = 0;
  bl_sequence_put b b' k v : b_put b k v = Some b' -> b_sequence b' = b_sequence b;
  bl_sequence_delete b k : b_sequence (b_delete b k) = b_sequence b;
  bl_next_get b k : b_get (snd (b_nextSequence b)) k = b_get b k;
  bl_next_value b : fst (b_nextSequence b) = (b_sequence b + 1) mod 2 ^ 64;
  bl_next_sequence b : b_sequence (snd (b_nextSequence b)) = fst (b_nextSequence b) }.

(** [Bucket.Stats().KeyN] *)
Definition b_keyN `{Bolt} (b : bucket) : Z := Z.of_nat (length (b_entries b)).

(** [DB.Update(fn)]: the value and the database after it; [commitErr] is what
    the commit returns. *)
Definition db_update {D E A} (commitErr : option E) (db : D) (fn : D -> result E (A * D)) : D * result E A :=
  match fn db with
  | Err e => (db, Err e)
  | Ok (a, db') => match commitErr with None => (db', Ok a) | Some e => (db, Err e) end
  end.

(** ** Contexts

    What [ctx.Err()] returns when an operation starts and again inside its
    transaction; a nil context is a caller error. *)
Inductive CtxErr := Canceled | DeadlineExceeded.

Inductive Context :=
| NilContext
| LiveContext (atBegin atTx : option CtxErr).

#[export] Instance CtxErr_eq_dec : EqDecision CtxErr.
Proof. solve_decision. Defined.

(** ** Derived facts *)

Section Facts.
Context `{BL : BoltLaws}.

Lemma b_entries_keys_nodup b : NoDup (map fst (b_entries b)).
Proof.
  pose proof (bl_entries_sorted b) as H. induction H as [|k l Hs IH Hall]; [constructor|].
  constructor; [|done]. intros Hin. rewrite Forall_forall in Hall. apply (irreflexivity bytes_lt k).
  by apply Hall.
Qed.

Lemma b_entries_nodup b : NoDup (b_entries b).
Proof. apply (NoDup_fmap_1 fst), b_entries_keys_nodup. Qed.

Lemma b_get_put_eq b b' k v : b_put b k v = Some b' -> b_get b' k = Some v.
Proof. intros H. rewrite (bl_get_put _ _ _ _ _ H). by rewrite decide_True. Qed.

Lemma b_get_put_ne b b' k v k' : k <> k' -> b_put b k v = Some b' -> b_get b' k' = b_get b k'.
Proof. intros Hn H. rewrite (bl_get_put _ _ _ _ _ H). by rewrite decide_False. Qed.

(** Overwriting or adding a key: the other entries are kept. *)
Lemma b_entries_put b b' k v :
  b_put b k v = Some b' ->
  b_entries b' ≡ₚ (k, v) :: filter (fun e => e.1 <> k) (b_entries b).
Proof.
  intros H. apply NoDup_Permutation; [apply b_entries_nodup| |].
  - constructor; [|apply NoDup_filter, b_entries_nodup].
    rewrite list_elem_of_filter. cbn. tauto.
  - intros [k' v']. rewrite bl_entries_get, (bl_get_put _ _ _ _ _ H).
    rewrite elem_of_cons, list_elem_of_filter, bl_entries_get. cbn.
    case_decide as Hk; [subst|]; split.
    + intros [= <-]. by left.
    + intros [[= <-]|[? _]]; [done|congruence].
    + intros Hg. right. split; congruence.
    + intros [[= <- <-]|[_ ?]]; [congruence|done].
Qed.

Lemma b_entries_delete b k :
  b_entries (b_delete b k) ≡ₚ filter (fun e => e.1 <> k) (b_entries b).
Proof.
  apply NoDup_Permutation; [apply b_entries_nodup|apply NoDup_filter, b_entries_nodup|].
  intros [k' v']. rewrite bl_entries_get, bl_get_delete, list_elem_of_filter, bl_entries_get. cbn.
  case_decide; split; [done| |split; congruence|tauto]. intros [? _]. congruence.
Qed.

(** The entry of a present key, and the rest. *)
Lemma b_entries_split b k v :
  b_get b k = Some v -> b_entries b ≡ₚ (k, v) :: filter (fun e => e.1 <> k) (b_entries b).
Proof.
  intros H. apply NoDup_Permutation; [apply b_entries_nodup| |].
  - constructor; [|apply NoDup_filter, b_entries_nodup].
    rewrite list_elem_of_filter. cbn. tauto.
  - intros [k' v']. rewrite elem_of_cons, list_elem_of_filter, !bl_entries_get. cbn. split.
    + intros Hg. destruct (decide (k' = k)) as [->|Hk]; [left; congruence|by right].
    + intros [[= -> ->]|[_ ?]]; done.
Qed.

Lemma b_entries_absent b k :
  b_get b k = None -> filter (fun e => e.1 <> k) (b_entries b) = b_entries b.
Proof.
  intros H. apply filter_all. intros [k' v'] Hin%bl_entries_get Hk. cbn in Hk. congruence.
Qed.

Lemma b_keyN_put_new b b' k v :
  b_get b k = None -> b_put b k v = Some b' -> b_keyN b' = b_keyN b + 1.
Proof.
  intros Hg Hp. unfold b_keyN. rewrite (b_entries_put _ _ _ _ Hp), b_entries_absent by done. cbn. lia.
Qed.

Lemma b_keyN_put_old b b' k v w :
  b_get b k = Some w -> b_put b k v = Some b' -> b_keyN b' = b_keyN b.
Proof.
  intros Hg Hp. unfold b_keyN. rewrite (b_entries_put _ _ _ _ Hp).
  pose proof (Permutation_length (b_entries_split _ _ _ Hg)) as ->. done.
Qed.

(** How many values satisfy [f]. *)
Definition b_count (f : bytes -> bool) (b : bucket) : Z := Z.of_nat (length (filter (fun e => f e.2 = true) (b_entries b))).

Definition b_contribution (f : bytes -> bool) (v : option bytes) : Z :=
  match v with Some v => Z.b2z (f v) | None => 0 end.

Lemma b_count_cons (f : bytes -> bool) (e : bytes * bytes) l :
  Z.of_nat (length (filter (fun e => f e.2 = true) (e :: l))) =
  Z.b2z (f e.2) + Z.of_nat (length (filter (fun e => f e.2 = true) l)).
Proof. rewrite filter_cons. destruct (f e.2); case_decide; cbn [length Z.b2z]; (lia || done). Qed.

Lemma b_count_rest f b k :
  Z.of_nat (length (filter (fun e => f e.2 = true) (filter (fun e => e.1 <> k) (b_entries b)))) =
  b_count f b - b_contribution f (b_get b k).
Proof.
  unfold b_count. destruct (b_get b k) as [w|] eqn:E; cbn [b_contribution].
  - rewrite (b_entries_split _ _ _ E) at 2. rewrite b_count_cons. cbn [snd]. lia.
  - rewrite b_entries_absent by done. lia.
Qed.

Lemma b_count_put f b k v b' :
  b_put b k v = Some b' -> b_count f b' = b_count f b - b_contribution f (b_get b k) + Z.b2z (f v).
Proof.
  intros H. unfold b_count at 1. rewrite (b_entries_put _ _ _ _ H), b_count_cons, b_count_rest. cbn [snd]. lia.
Qed.

Lemma b_count_delete f b k : b_count f (b_delete b k) = b_count f b - b_contribution f (b_get b k).
Proof. unfold b_count at 1. by rewrite b_entries_delete, b_count_rest. Qed.

Lemma b_keyN_delete b k : b_keyN (b_delete b k) = b_keyN b - match b_get b k with Some _ => 1 | None => 0 end.
Proof.
  unfold b_keyN. rewrite b_entries_delete. destruct (b_get b k) as [w|] eqn:E.
  - rewrite (b_entries_split _ _ _ E) at 2. cbn [length]. lia.
  - rewrite b_entries_absent by done. lia.
Qed.

(** Two buckets with the same content have the same entries. *)
Lemma b_entries_same b b' : (forall k, b_get b k = b_get b' k) -> b_entries b ≡ₚ b_entries b'.
Proof.
  intros H. apply NoDup_Permutation; [apply b_entries_nodup..|]. intros [k v]. by rewrite !bl_entries_get, H.
Qed.

Lemma b_keyN_next b : b_keyN (snd (b_nextSequence b)) = b_keyN b.
Proof. unfold b_keyN. rewrite (b_entries_same (snd (b_nextSequence b)) b); [done|]. intros k. apply bl_next_get. Qed.

Lemma b_entries_empty : b_entries b_empty = [].
Proof.
  destruct (b_entries b_empty) as [|[k v] l] eqn:E; [done|].
  assert (Hin : (k, v) ∈ b_entries b_empty) by (rewrite E; set_solver).
  apply bl_entries_get in Hin. by rewrite bl_get_empty in Hin.
Qed.

Lemma db_update_ok {D E A} (ce : option E) (db : D) (fn : D -> result E (A * D)) db' a :
  db_update ce db fn = (db', Ok a) <-> fn db = Ok (a, db') /\ ce = None.
Proof.
  unfold db_update. destruct (fn db) as [[a' d]|e]; destruct ce; split; intros; split_hyps; try congruence.
  split; congruence.
Qed.

Lemma db_update_err {D E A} (ce : option E) (db : D) (fn : D -> result E (A * D)) db' e :
  db_update ce db fn = (db', Err e) -> db' = db.
Proof. unfold db_update. destruct (fn db) as [[a' d]|e']; [destruct ce|]; congruence. Qed.

End Facts.

(** ** An instance: finite maps with sorted iteration *)

Module MapBolt.

Record mbucket := MBucket { mb_map : gmap bytes bytes; mb_seq : Z }.

Definition key_le (x y : bytes * bytes) : Prop := bytes_ltb y.1 x.1 = false.

#[export] Instance key_le_dec : RelDecision key_le.
Proof. intros x y. unfold key_le. apply _. Defined.

#[export] Instance key_le_total : Total key_le.
Proof.
  intros x y. unfold key_le. destruct (bytes_lt_trichotomy x.1 y.1) as [H|[->|H]].
  - left. destruct (bytes_ltb y.1 x.1) eqn:E; [|done].
    exfalso. apply (irreflexivity bytes_lt x.1). by etransitivity.
  - left. apply bytes_ltb_irrefl.
  - right. destruct (bytes_ltb x.1 y.1) eqn:E; [|done].
    exfalso. apply (irreflexivity bytes_lt x.1). by etransitivity.
Qed.

Lemma key_le_lt x y : key_le x y <-> bytes_lt x.1 y.1 \/ x.1 = y.1.
Proof. apply bytes_ltb_false. Qed.

#[export] Instance key_le_trans : Transitive key_le.
Proof. intros x y z. apply bytes_le_trans. Qed.

#[export] Instance map_bolt : Bolt := {
  bucket := mbucket;
  b_empty := MBucket ∅ 0;
  b_get b k := mb_map b !! k;
  b_put b k v := if put_fitsb k v then Some (MBucket (<[k := v]> (mb_map b)) (mb_seq b)) else None;
  b_delete b k := MBucket (delete k (mb_map b)) (mb_seq b);
  b_entries b := merge_sort key_le (map_to_list (mb_map b));
  b_sequence b := mb_seq b;
  b_nextSequence b :=
    ((mb_seq b + 1) mod 2 ^ 64, MBucket (mb_map b) ((mb_seq b + 1) mod 2 ^ 64)) }.

Lemma put_fitsb_spec k v : put_fitsb k v = true <-> put_fits k v.
Proof.
  unfold put_fitsb, put_fits. rewrite !andb_true_iff, negb_true_iff, bytes_eqb_false, !Z.leb_le. tauto.
Qed.

Lemma sorted_strict (l : list (bytes * bytes)) :
  StronglySorted key_le l -> NoDup l.*1 -> StronglySorted bytes_lt (map fst l).
Proof.
  induction 1 as [|x l Hs IH Hall]; intros Hnd; cbn; constructor; cbn in Hnd; inv Hnd; [auto|].
  apply Forall_forall. intros k Hk. apply list_elem_of_fmap in Hk as (y & -> & Hy).
  rewrite Forall_forall in Hall. specialize (Hall y Hy). apply key_le_lt in Hall as [?|E]; [done|].
  exfalso. apply H1. apply list_elem_of_fmap. by exists y.
Qed.

#[export] Instance map_bolt_laws : BoltLaws map_bolt.
Proof.
  split; cbn.
  - intros k. apply lookup_empty.
  - intros b k v. by rewrite merge_sort_Permutation, elem_of_map_to_list.
  - intros b. apply sorted_strict; [apply (StronglySorted_merge_sort key_le)|].
    assert (HP : (merge_sort key_le (map_to_list (mb_map b))).*1 ≡ₚ (map_to_list (mb_map b)).*1)
      by apply fmap_Permutation, merge_sort_Permutation.
    rewrite HP. apply NoDup_fst_map_to_list.
  - intros b k v H%put_fitsb_spec. rewrite H. eauto.
  - intros b b' k v k'. destruct (put_fitsb k v); intros [= <-]. cbn. by rewrite lookup_insert.
  - intros b k k'. by rewrite lookup_delete.
  - done.
  - intros b b' k v. destruct (put_fitsb k v); intros [= <-]. done.
  - done.
  - done.
  - done.
  - done.
Qed.

End MapBolt.
