(* ===== verification/BudgetModel.v ===== *)
(** * internal/budget/interfaces.go: the ledger's data and the cost of a quote

    Limits and policies, reservation requests and their attempts, the four
    reservation states, and [CostQuote.Maximum], the overflow-checked upper
    bound of a transaction's cost, with the exact reference it implements. *)

From S2P Require Import Prelude GoTime Bytes Sha256 Domain Bolt.
From Stdlib Require Import Strings.Byte.
From Stdlib Require Strings.String.
Import Strings.String.StringSyntax.

Module Budget.

(** The package's error values; [errInvalidRecord] and [errBolt] are internal. *)
Inductive LedgerError :=
| ErrInvalidOptions
| ErrOpenFailed
| ErrPolicyMismatch
| ErrCorrupt
| ErrClosed
| ErrInvalidRequest
| ErrArithmeticOverflow
| ErrBudgetExceeded
| ErrSponsorReserve
| ErrStateConflict
| ErrCapacity
| errInvalidRecord
| errBolt
| errContext (e : CtxErr).

Record Limits := mkLimits {
  PerTransaction : Z;
  PerHour : Z;
  PerDay : Z;
  Cumulative : Z }.

Record NetworkPolicy := mkNetworkPolicy {
  NP_Network : NetworkID;
  NP_Sponsor : Address;
  NP_Limits : Limits;
  NP_TransactionOverhead : Z;
  NP_EmergencySponsorReserve : Z;
  NP_AllowFeeOverrun : bool }.

Record Policy := mkPolicy {
  Policy_Global : Limits;
  Policy_Networks : list NetworkPolicy }.

Record CostQuote := mkQuote {
  Quote_GasLimit : Z;
  Quote_MaxFeePerGas : Z;
  Quote_MaximumCost : Z }.

Definition CostQuote_Maximum (quote : CostQuote) (overhead : Z) : result LedgerError Z :=
  reject (Quote_GasLimit quote =? 0) || u256_IsZero (Quote_MaxFeePerGas quote) with ErrInvalidRequest in
  let (maximum, overflow) := u256_MulOverflow (Quote_GasLimit quote) (Quote_MaxFeePerGas quote) in
  reject overflow with ErrArithmeticOverflow in
  let (maximum, overflow) := u256_AddOverflow maximum overhead in
  reject overflow || u256_IsZero maximum with ErrArithmeticOverflow in
  if negb (u256_IsZero (Quote_MaximumCost quote)) then
    reject u256_Lt (Quote_MaximumCost quote) maximum with ErrInvalidRequest in
    Ok (Quote_MaximumCost quote)
  else Ok maximum.

Record Attempt := mkAttempt {
  Attempt_Incident : IncidentID;
  Attempt_Number : Z }.

Definition ReservationID := bytes.

Definition NewReservationID (attempt : Attempt) : ReservationID :=
  sha256 (str "guard-daemon/budget-reservation/v1" ++ Attempt_Incident attempt ++
          be_bytes 4 (Attempt_Number attempt)).

Record ReservationRequest := mkRequest {
  Req_Network : NetworkID;
  Req_Sponsor : Address;
  Req_Candidate : CandidateID;
  Req_Attempt : Attempt;
  Req_Quote : CostQuote;
  Req_SponsorBalance : Z;
  Req_ObservedAt : Time }.

(** A [ReservationState] is a [uint8]; the named states are 1 to 4. *)
Inductive ReservationState :=
| ReservationHeld
| ReservationExposed
| ReservationCommitted
| ReservationReleased
| ReservationStateOther (b : byte).

Definition state_byte (s : ReservationState) : byte :=
  match s with
  | ReservationHeld => x01
  | ReservationExposed => x02
  | ReservationCommitted => x03
  | ReservationReleased => x04
  | ReservationStateOther b => b
  end.

Definition state_of_byte (b : byte) : ReservationState :=
  match b with
  | x01 => ReservationHeld
  | x02 => ReservationExposed
  | x03 => ReservationCommitted
  | x04 => ReservationReleased
  | _ => ReservationStateOther b
  end.

Record Reservation := mkReservation {
  Res_ID : ReservationID;
  Res_Request : ReservationRequest;
  Res_Maximum : Z;
  Res_State : ReservationState;
  Res_TxHash : Hash;
  Res_Actual : Z;
  Res_CreatedAt : Time;
  Res_ExposedAt : Time;
  Res_UpdatedAt : Time }.

Record FinalizedCharge := mkCharge {
  Charge_ReservationID : ReservationID;
  Charge_TxHash : Hash;
  Charge_Actual : Z;
  Charge_ObservedAt : Time }.

Record Totals := mkTotals {
  Totals_PerHour : Z;
  Totals_PerDay : Z;
  Totals_Cumulative : Z }.

Record ScopeSnapshot := mkScopeSnapshot {
  Scope_Spent : Totals;
  Scope_Reserved : Totals;
  Scope_Remaining : Totals }.

Definition ScopeSnapshot_Blocked (s : ScopeSnapshot) : bool :=
  u256_IsZero (Totals_PerHour (Scope_Remaining s)) || u256_IsZero (Totals_PerDay (Scope_Remaining s))
  || u256_IsZero (Totals_Cumulative (Scope_Remaining s)).

#[export] Instance LedgerError_eq_dec : EqDecision LedgerError.
Proof. solve_decision. Defined.

#[export] Instance ReservationState_eq_dec : EqDecision ReservationState.
Proof. solve_decision. Defined.

#[export] Instance Attempt_eq_dec : EqDecision Attempt.
Proof. solve_decision. Defined.

#[export] Instance CostQuote_eq_dec : EqDecision CostQuote.
Proof. solve_decision. Defined.

#[export] Instance ReservationRequest_eq_dec : EqDecision ReservationRequest.
Proof. solve_decision. Defined.

#[export] Instance Reservation_eq_dec : EqDecision Reservation.
Proof. solve_decision. Defined.

#[export] Instance Limits_eq_dec : EqDecision Limits.
Proof. solve_decision. Defined.

#[export] Instance NetworkPolicy_eq_dec : EqDecision NetworkPolicy.
Proof. solve_decision. Defined.

(** ** Types: the ranges Go's types guarantee *)

Record quote_typed (q : CostQuote) : Prop := {
  qt_gas : inU 64 (Quote_GasLimit q);
  qt_fee : inU 256 (Quote_MaxFeePerGas q);
  qt_cost : inU 256 (Quote_MaximumCost q) }.

Record limits_typed (l : Limits) : Prop := {
  lt_tx : inU 256 (PerTransaction l);
  lt_hour : inU 256 (PerHour l);
  lt_day : inU 256 (PerDay l);
  lt_all : inU 256 (Cumulative l) }.

Record network_typed (n : NetworkPolicy) : Prop := {
  nt_network : - 2 ^ 63 <= NP_Network n < 2 ^ 63;
  nt_sponsor : isAddress (NP_Sponsor n);
  nt_limits : limits_typed (NP_Limits n);
  nt_overhead : inU 256 (NP_TransactionOverhead n);
  nt_reserve : inU 256 (NP_EmergencySponsorReserve n) }.

Record request_typed (r : ReservationRequest) : Prop := {
  rt_network : - 2 ^ 63 <= Req_Network r < 2 ^ 63;
  rt_sponsor : isAddress (Req_Sponsor r);
  rt_candidate : isHash (Req_Candidate r);
  rt_incident : isHash (Attempt_Incident (Req_Attempt r));
  rt_number : inU 32 (Attempt_Number (Req_Attempt r));
  rt_quote : quote_typed (Req_Quote r);
  rt_balance : inU 256 (Req_SponsorBalance r);
  rt_observed : time_ok (Req_ObservedAt r) }.

(** ** Cost of a quote *)

(** The bound over unbounded integers that [Maximum] computes with overflow checks. *)
Definition quote_cost (q : CostQuote) (overhead : Z) : Z :=
  Quote_GasLimit q * Quote_MaxFeePerGas q + overhead.

Lemma Maximum_reference q overhead :
  quote_typed q -> inU 256 overhead ->
  CostQuote_Maximum q overhead =
    if decide (Quote_GasLimit q = 0 \/ Quote_MaxFeePerGas q = 0) then Err ErrInvalidRequest
    else if decide (2 ^ 256 <= quote_cost q overhead) then Err ErrArithmeticOverflow
    else if decide (Quote_MaximumCost q = 0) then Ok (quote_cost q overhead)
    else if decide (Quote_MaximumCost q < quote_cost q overhead) then Err ErrInvalidRequest
    else Ok (Quote_MaximumCost q).
Proof.
  intros [Hg Hf Hc] Ho. unfold inU in *. unfold CostQuote_Maximum, quote_cost, u256_IsZero, u256_Lt.
  destruct (_ || _) eqn:E0.
  { rewrite decide_True; [done|]. apply orb_true_iff in E0 as [?|?]; bool_hyps; auto. }
  bool_hyps. rewrite decide_False by tauto.
  assert (Hmul : 0 < Quote_GasLimit q * Quote_MaxFeePerGas q) by nia.
  unfold u256_MulOverflow. destruct (Quote_GasLimit q * Quote_MaxFeePerGas q <? 2 ^ 256) eqn:E1; cbn [negb];
    bool_hyps; [|by rewrite decide_True by lia].
  rewrite (Z.mod_small (_ * _)) by lia. unfold u256_AddOverflow.
  destruct (_ + overhead <? 2 ^ 256) eqn:E2; cbn [negb orb]; bool_hyps; [|by rewrite decide_True by lia].
  rewrite Z.mod_small by lia. rewrite decide_False by lia.
  replace (_ + overhead =? 0) with false by (symmetry; apply Z.eqb_neq; lia).
  destruct (Quote_MaximumCost q =? 0) eqn:E3; cbn [negb]; bool_hyps.
  - by rewrite decide_True.
  - rewrite decide_False by done. destruct (_ <? _) eqn:E4; bool_hyps;
      [rewrite decide_True by lia|rewrite decide_False by lia]; done.
Qed.

(** An accepted quote covers the gas at the fee cap plus the overhead. *)
Lemma Maximum_covers q overhead m :
  quote_typed q -> inU 256 overhead -> CostQuote_Maximum q overhead = Ok m ->
  0 < quote_cost q overhead <= m /\ inU 256 m.
Proof.
  intros Hq Ho. rewrite Maximum_reference by done. destruct Hq as [Hg Hf Hc].
  unfold inU, quote_cost in *. repeat case_decide; intros [= <-]; nia.
Qed.

Lemma NewReservationID_length a : length (NewReservationID a) = 32%nat.
Proof. apply sha256_length. Qed.

Lemma state_of_byte_byte b : state_byte (state_of_byte b) = b.
Proof. by destruct b. Qed.

End Budget.
Export Budget.
