(* ===== verification/BudgetCodec.v ===== *)
(** * internal/budget/codec.go: the ledger's binary records

    Encoding and decoding of reservations, attempt keys and policies.  A
    reservation record has a fixed length; the decoder accepts exactly what the
    encoder writes (round trip) and only values in the ranges of their types.
    The policy encoding is injective on normalised policies, so comparing it
    byte for byte, as [Open] does, compares the policies. *)

From S2P Require Import Prelude GoTime Bytes Sha256 Domain Bolt BudgetModel.
From Stdlib Require Import Strings.Byte.
From Stdlib Require Strings.String.
Import Strings.String.StringSyntax.

Module BudgetCodec.

Definition reservationRecordVersion : byte := x01.

(** Byte size of a reservation record ([recordSize]). *)
Definition recordSize : Z :=
  2 + 32 + 8 + 20 + 32 + 32 + 4 + 8 + 32 + 32 + 12 + 32 + 32 + 32 + 32 + 12 + 12 + 12.

Definition appendLimits (target : bytes) (limits : Limits) : bytes :=
  let target := appendUint256 target (PerTransaction limits) in
  let target := appendUint256 target (PerHour limits) in
  let target := appendUint256 target (PerDay limits) in
  appendUint256 target (Cumulative limits).

Definition network_le (a b : NetworkPolicy) : Prop := NP_Network a <= NP_Network b.

#[export] Instance network_le_dec : RelDecision network_le.
Proof. intros a b. unfold network_le. apply _. Defined.

(** [sort.Slice(networks, ... Network <)]; networks of a valid policy are distinct. *)
Definition sort_networks (networks : list NetworkPolicy) : list NetworkPolicy :=
  merge_sort network_le networks.

Definition encodePolicy (policy : Policy) : bytes :=
  let networks := sort_networks (Policy_Networks policy) in
  let result := [reservationRecordVersion] in
  let result := appendLimits result (Policy_Global policy) in
  let result := appendUint32 result (Z.of_nat (length networks)) in
  let result := fold_left (fun result network =>
      let result := appendUint64 result (NP_Network network) in
      let result := result ++ NP_Sponsor network in
      let result := appendLimits result (NP_Limits network) in
      let result := appendUint256 result (NP_TransactionOverhead network) in
      appendUint256 result (NP_EmergencySponsorReserve network)) networks result in
  fold_left (fun result network =>
      if NP_AllowFeeOverrun network
      then appendUint64 (result ++ str "estimated-fees/v1") (NP_Network network)
      else result) networks result.

Definition validPersistentTime (value : Time) : bool :=
  negb (IsZero value) && (0 <=? Unix value) && (negb (Unix value =? 0) || negb (Nanosecond value =? 0)).

Definition encodeReservation (r : Reservation) : result LedgerError bytes :=
  reject negb (validPersistentTime (Res_CreatedAt r)) || negb (validPersistentTime (Res_UpdatedAt r))
    with errInvalidRecord in
  let req := Res_Request r in
  let result := [reservationRecordVersion; state_byte (Res_State r)] in
  let result := result ++ Res_ID r in
  let result := appendUint64 result (uint64_wrap (Req_Network req)) in
  let result := result ++ Req_Sponsor req in
  let result := result ++ Req_Candidate req in
  let result := result ++ Attempt_Incident (Req_Attempt req) in
  let result := appendUint32 result (Attempt_Number (Req_Attempt req)) in
  let result := appendUint64 result (Quote_GasLimit (Req_Quote req)) in
  let result := appendUint256 result (Quote_MaxFeePerGas (Req_Quote req)) in
  let result := appendUint256 result (Quote_MaximumCost (Req_Quote req)) in
  let result := appendUint256 result (Req_SponsorBalance req) in
  let result := appendTime result (Req_ObservedAt req) in
  let result := appendUint256 result (Res_Maximum r) in
  let result := appendUint256 result (Res_Actual r) in
  let result := result ++ Res_TxHash r in
  let result := appendTime result (Res_CreatedAt r) in
  let result := appendTime result (Res_ExposedAt r) in
  let result := appendTime result (Res_UpdatedAt r) in
  Ok result.

Definition decodeReservation (data : bytes) : result LedgerError Reservation :=
  reject negb (len data =? recordSize) || negb (bool_decide (byte_at data 0 = reservationRecordVersion))
    with errInvalidRecord in
  let offset := 1 in
  let state := state_of_byte (byte_at data offset) in
  let offset := offset + 1 in
  let? (id, offset) := readFixed 32 data offset orelse errInvalidRecord in
  let? (network, offset) := readUint64 data offset orelse errInvalidRecord in
  reject 2 ^ 63 - 1 <? network with errInvalidRecord in
  let? (sponsor, offset) := readFixed 20 data offset orelse errInvalidRecord in
  let? (candidate, offset) := readFixed 32 data offset orelse errInvalidRecord in
  let? (incident, offset) := readFixed 32 data offset orelse errInvalidRecord in
  let? (number, offset) := readUint32 data offset orelse errInvalidRecord in
  let? (gasLimit, offset) := readUint64 data offset orelse errInvalidRecord in
  let? (maxFeePerGas, offset) := readUint256 data offset orelse errInvalidRecord in
  let? (maximumCost, offset) := readUint256 data offset orelse errInvalidRecord in
  let? (sponsorBalance, offset) := readUint256 data offset orelse errInvalidRecord in
  let? (observedAt, offset) := readTime data offset orelse errInvalidRecord in
  let? (maximum, offset) := readUint256 data offset orelse errInvalidRecord in
  let? (actual, offset) := readUint256 data offset orelse errInvalidRecord in
  let? (txHash, offset) := readFixed 32 data offset orelse errInvalidRecord in
  let? (createdAt, offset) := readTime data offset orelse errInvalidRecord in
  let? (exposedAt, offset) := readTime data offset orelse errInvalidRecord in
  let? (updatedAt, offset) := readTime data offset orelse errInvalidRecord in
  reject negb (offset =? len data) with errInvalidRecord in
  Ok (mkReservation id
        (mkRequest network sponsor candidate (mkAttempt incident number)
           (mkQuote gasLimit maxFeePerGas maximumCost) sponsorBalance observedAt)
        maximum state txHash actual createdAt exposedAt updatedAt).

Definition attemptKey (attempt : Attempt) : bytes :=
  appendUint32 (Attempt_Incident attempt) (Attempt_Number attempt).

Definition decodeAttemptKey (key : bytes) : option Attempt :=
  if negb (len key =? 32 + 4) then None
  else Some (mkAttempt (take 32 key) (be_value (drop 32 key))).

Definition clearRequest (r : ReservationRequest) : ReservationRequest :=
  mkRequest (Req_Network r) (Req_Sponsor r) (Req_Candidate r) (Req_Attempt r) (Req_Quote r) 0 zeroTime.

Definition sameReservationRequest (left right : ReservationRequest) : bool :=
  bool_decide (clearRequest left = clearRequest right).

Definition res_id_le (a b : Reservation) : Prop := bytes_ltb (Res_ID b) (Res_ID a) = false.

#[export] Instance res_id_le_dec : RelDecision res_id_le.
Proof. intros a b. unfold res_id_le. apply _. Defined.

(** [sort.Slice] by [bytes.Compare] of the IDs. *)
Definition sortedReservations (rs : list Reservation) : list Reservation := merge_sort res_id_le rs.

(** ** Types: what a stored reservation looks like *)

Record reservation_stored (r : Reservation) : Prop := {
  rs_id : isHash (Res_ID r);
  rs_network : inU 63 (Req_Network (Res_Request r));
  rs_sponsor : isAddress (Req_Sponsor (Res_Request r));
  rs_candidate : isHash (Req_Candidate (Res_Request r));
  rs_incident : isHash (Attempt_Incident (Req_Attempt (Res_Request r)));
  rs_number : inU 32 (Attempt_Number (Req_Attempt (Res_Request r)));
  rs_quote : quote_typed (Req_Quote (Res_Request r));
  rs_balance : inU 256 (Req_SponsorBalance (Res_Request r));
  rs_observed : time_storable (Req_ObservedAt (Res_Request r));
  rs_maximum : inU 256 (Res_Maximum r);
  rs_actual : inU 256 (Res_Actual r);
  rs_tx : isHash (Res_TxHash r);
  rs_created : time_storable (Res_CreatedAt r);
  rs_exposed : time_storable (Res_ExposedAt r);
  rs_updated : time_storable (Res_UpdatedAt r);
  rs_state : state_of_byte (state_byte (Res_State r)) = Res_State r }.

(** ** Lemmas *)

Lemma validPersistentTime_spec t :
  validPersistentTime t = true <-> t <> zeroTime /\ 0 <= Unix t /\ (Unix t <> 0 \/ Nanosecond t <> 0).
Proof.
  unfold validPersistentTime, IsZero, zeroTime.
  rewrite !andb_true_iff, orb_true_iff, !negb_true_iff, !Z.eqb_neq, Z.leb_le. tauto.
Qed.

Lemma validPersistentTime_storable t : time_ok t -> validPersistentTime t = true -> time_storable t.
Proof.
  intros Hok (Hz & Hu & Hn)%validPersistentTime_spec. split; [done|]. intros ->.
  destruct Hn as [H|H]; by vm_compute in H.
Qed.

(** The encoder's output as one concatenation. *)
Definition reservationLayout (r : Reservation) : bytes :=
  let req := Res_Request r in
  [reservationRecordVersion; state_byte (Res_State r)] ++ Res_ID r ++
  be_bytes 8 (uint64_wrap (Req_Network req)) ++ Req_Sponsor req ++ Req_Candidate req ++
  Attempt_Incident (Req_Attempt req) ++ be_bytes 4 (Attempt_Number (Req_Attempt req)) ++
  be_bytes 8 (Quote_GasLimit (Req_Quote req)) ++ be_bytes 32 (Quote_MaxFeePerGas (Req_Quote req)) ++
  be_bytes 32 (Quote_MaximumCost (Req_Quote req)) ++ be_bytes 32 (Req_SponsorBalance req) ++
  time_bytes (Req_ObservedAt req) ++ be_bytes 32 (Res_Maximum r) ++ be_bytes 32 (Res_Actual r) ++
  Res_TxHash r ++ time_bytes (Res_CreatedAt r) ++ time_bytes (Res_ExposedAt r) ++
  time_bytes (Res_UpdatedAt r) ++ [].

Lemma encodeReservation_layout r data :
  encodeReservation r = Ok data -> data = reservationLayout r.
Proof.
  unfold encodeReservation. destruct (_ || _); [done|]. intros <-%Ok_inj.
  unfold appendUint64, appendUint32, appendUint256. rewrite !appendTime_app.
  unfold reservationLayout. by rewrite <- !app_assoc, app_nil_r.
Qed.

Lemma reservationLayout_len r :
  reservation_stored r -> len (reservationLayout r) = recordSize.
Proof.
  intros []. unfold isHash, isAddress in *. unfold reservationLayout, len.
  repeat rewrite length_app. rewrite !length_be_bytes, !length_time_bytes.
  rewrite rs_id0, rs_sponsor0, rs_candidate0, rs_incident0, rs_tx0. done.
Qed.

Lemma decode_layout r : reservation_stored r -> decodeReservation (reservationLayout r) = Ok r.
Proof.
  intros Hr. pose proof (reservationLayout_len r Hr) as Hlen.
  assert (Hcur : at_offset (reservationLayout r) 2
                   (drop 2 (reservationLayout r))).
  { by exists (take 2 (reservationLayout r)). }
  unfold decodeReservation. rewrite Hlen.
  replace (byte_at (reservationLayout r) 0) with reservationRecordVersion by done.
  replace (byte_at (reservationLayout r) 1) with (state_byte (Res_State r)) by done.
  cbn [negb orb]. rewrite Z.eqb_refl, bool_decide_eq_true_2 by done. cbn [negb orb].
  change (1 + 1) with 2. rewrite <- Hlen.
  unfold reservationLayout in Hcur at 2. cbn [drop app] in Hcur. cbv zeta in Hcur.
  destruct Hr as [? Hnet ? ? ? ? [? ? ?] ? ? ? ? ? ? ? ? Hst].
  unfold isHash, isAddress, readUint64, readUint32, readUint256 in *.
  assert (Hw : uint64_wrap (Req_Network (Res_Request r)) = Req_Network (Res_Request r)).
  { unfold uint64_wrap. apply Z.mod_small. unfold inU in Hnet. lia. }
  assert (Hw64 : inU 64 (Req_Network (Res_Request r))) by (unfold inU in *; lia).
  rewrite Hw in Hcur.
  read_next Hcur assumption. read_next Hcur assumption.
  replace (2 ^ 63 - 1 <? _) with false by (symmetry; apply Z.ltb_ge; unfold inU in *; lia).
  do 15 (read_next Hcur assumption).
  apply at_offset_end in Hcur. rewrite Hcur, Z.eqb_refl. cbn [negb]. rewrite Hst.
  by destruct r as [? [? ? ? [] [] ? ?] ? ? ? ? ? ? ?].
Qed.

(** What is encoded decodes to itself. *)
Lemma decode_encodeReservation r data :
  reservation_stored r -> encodeReservation r = Ok data -> decodeReservation data = Ok r.
Proof. intros Hr ->%encodeReservation_layout. by apply decode_layout. Qed.

Lemma encodeReservation_len r data :
  reservation_stored r -> encodeReservation r = Ok data -> len data = recordSize.
Proof. intros Hr ->%encodeReservation_layout. by apply reservationLayout_len. Qed.

Lemma encodeReservation_ok r :
  validPersistentTime (Res_CreatedAt r) = true -> validPersistentTime (Res_UpdatedAt r) = true ->
  exists data, encodeReservation r = Ok data.
Proof. intros H1 H2. unfold encodeReservation. rewrite H1, H2. cbn. eauto. Qed.

(** Whatever decodes is in the ranges of its types. *)
Lemma decodeReservation_stored data r :
  decodeReservation data = Ok r -> reservation_stored r.
Proof.
  unfold decodeReservation. intros H.
  repeat match type of H with
  | context [match ?x with _ => _ end] => destruct x eqn:?; try discriminate H
  end.
  injection H as <-.
  repeat match goal with
  | E : readFixed _ _ _ = Some _ |- _ => apply readFixed_inv in E as [? _]
  | E : readTime _ _ = Some _ |- _ => apply readTime_inv in E as [? _]
  | E : readUint32 _ _ = Some _ |- _ => apply read_be_inv in E as [? _]
  | E : readUint64 _ _ = Some _ |- _ => apply read_be_inv in E as [? _]
  | E : readUint256 _ _ = Some _ |- _ => apply read_be_inv in E as [? _]
  end.
  constructor; cbn; try assumption; try done.
  - bool_hyps. unfold inU in *. lia.
  - by destruct (byte_at data 1).
Qed.

Lemma attemptKey_roundtrip a :
  isHash (Attempt_Incident a) -> inU 32 (Attempt_Number a) -> decodeAttemptKey (attemptKey a) = Some a.
Proof.
  intros Hi Hn. unfold decodeAttemptKey, attemptKey, appendUint32, len, isHash in *.
  rewrite length_app, length_be_bytes, Hi. cbn [negb Nat.add].
  rewrite <- Hi at 2 3. rewrite take_app_length, drop_app_length, be_value_bytes.
  rewrite Z.mod_small by exact Hn. by destruct a.
Qed.

Lemma attemptKey_inj a b :
  isHash (Attempt_Incident a) -> inU 32 (Attempt_Number a) ->
  isHash (Attempt_Incident b) -> inU 32 (Attempt_Number b) ->
  attemptKey a = attemptKey b -> a = b.
Proof.
  intros ? ? ? ? E. apply (f_equal decodeAttemptKey) in E.
  rewrite !attemptKey_roundtrip in E by done. congruence.
Qed.

Lemma attemptKey_len a : isHash (Attempt_Incident a) -> len (attemptKey a) = 36.
Proof.
  unfold isHash, attemptKey, appendUint32, len. intros H. rewrite length_app, length_be_bytes, H. done.
Qed.

Lemma sameReservationRequest_spec a b :
  sameReservationRequest a b = true <->
  Req_Network a = Req_Network b /\ Req_Sponsor a = Req_Sponsor b /\ Req_Candidate a = Req_Candidate b /\
  Req_Attempt a = Req_Attempt b /\ Req_Quote a = Req_Quote b.
Proof.
  unfold sameReservationRequest, clearRequest. rewrite bool_decide_eq_true. split.
  - intros [=]. tauto.
  - intros (-> & -> & -> & -> & ->). done.
Qed.

(** ** The policy encoding *)

Definition limits_bytes (l : Limits) : bytes :=
  be_bytes 32 (PerTransaction l) ++ be_bytes 32 (PerHour l) ++ be_bytes 32 (PerDay l) ++ be_bytes 32 (Cumulative l).

Definition network_bytes (n : NetworkPolicy) : bytes :=
  be_bytes 8 (NP_Network n) ++ NP_Sponsor n ++ limits_bytes (NP_Limits n) ++
  be_bytes 32 (NP_TransactionOverhead n) ++ be_bytes 32 (NP_EmergencySponsorReserve n).

Definition flag_bytes (n : NetworkPolicy) : bytes :=
  if NP_AllowFeeOverrun n then str "estimated-fees/v1" ++ be_bytes 8 (NP_Network n) else [].

Lemma appendLimits_app target l : appendLimits target l = target ++ limits_bytes l.
Proof. unfold appendLimits, appendUint256, limits_bytes. by rewrite <- !app_assoc. Qed.

Lemma fold_append {A} (f : bytes -> A -> bytes) (g : A -> bytes) l acc :
  (forall target a, f target a = target ++ g a) -> fold_left f l acc = acc ++ concat (map g l).
Proof.
  intros H. revert acc. induction l as [|a l IH]; intros acc; cbn; [by rewrite app_nil_r|].
  by rewrite IH, H, app_assoc.
Qed.

Lemma encodePolicy_layout p :
  encodePolicy p = [reservationRecordVersion] ++ limits_bytes (Policy_Global p) ++
    be_bytes 4 (Z.of_nat (length (sort_networks (Policy_Networks p)))) ++
    concat (map network_bytes (sort_networks (Policy_Networks p))) ++
    concat (map flag_bytes (sort_networks (Policy_Networks p))).
Proof.
  unfold encodePolicy. cbv zeta. rewrite (fold_append _ flag_bytes).
  2:{ intros target n. unfold flag_bytes, appendUint64. destruct (NP_AllowFeeOverrun n);
      [by rewrite <- app_assoc|by rewrite app_nil_r]. }
  rewrite (fold_append _ network_bytes).
  2:{ intros target n. unfold network_bytes. rewrite appendLimits_app. unfold appendUint64, appendUint256.
      by rewrite <- !app_assoc. }
  rewrite appendLimits_app. unfold appendUint32. by rewrite <- !app_assoc.
Qed.

Lemma length_limits_bytes l : length (limits_bytes l) = 128%nat.
Proof. unfold limits_bytes. by rewrite !length_app, !length_be_bytes. Qed.

Lemma length_network_bytes n : isAddress (NP_Sponsor n) -> length (network_bytes n) = 220%nat.
Proof.
  unfold isAddress, network_bytes. intros H. rewrite !length_app, !length_be_bytes, length_limits_bytes, H. done.
Qed.

Lemma limits_bytes_inj l k : limits_typed l -> limits_typed k -> limits_bytes l = limits_bytes k -> l = k.
Proof. intros [] [] H. unfold limits_bytes in H. split_app H. be_inj. destruct l, k; cbn in *. congruence. Qed.

(** Equal but for the flag. *)
Definition same_network (a b : NetworkPolicy) : Prop :=
  NP_Network a = NP_Network b /\ NP_Sponsor a = NP_Sponsor b /\ NP_Limits a = NP_Limits b /\
  NP_TransactionOverhead a = NP_TransactionOverhead b /\
  NP_EmergencySponsorReserve a = NP_EmergencySponsorReserve b.

Lemma network_bytes_inj a b :
  network_typed a -> network_typed b -> network_bytes a = network_bytes b -> same_network a b.
Proof.
  intros [] [] H. unfold network_bytes, isAddress in *.
  apply app_inj_1 in H as [? H]; [|by rewrite !length_be_bytes].
  apply app_inj_1 in H as [? H]; [|congruence].
  apply app_inj_1 in H as [Hl H]; [|by rewrite !length_limits_bytes].
  apply limits_bytes_inj in Hl; [|done|done]. split_app H. be_inj. by repeat split.
Qed.

Lemma networks_bytes_inj ns ms rest rest' :
  length ns = length ms -> Forall network_typed ns -> Forall network_typed ms ->
  concat (map network_bytes ns) ++ rest = concat (map network_bytes ms) ++ rest' ->
  Forall2 same_network ns ms /\ rest = rest'.
Proof.
  revert ms. induction ns as [|n ns IH]; intros [|m ms] Hlen Hn Hm H; try done.
  apply Forall_cons in Hn as [Hn0 Hn]. apply Forall_cons in Hm as [Hm0 Hm].
  cbn [map concat] in H. rewrite <- !app_assoc in H. apply app_inj_1 in H as [H1 H].
  2:{ rewrite !length_network_bytes; [done|apply Hm0|apply Hn0]. }
  apply network_bytes_inj in H1; [|done|done]. cbn in Hlen. destruct (IH ms) as [? ?]; auto.
Qed.

(** With distinct networks the trailing flags determine themselves: a flag
    entry names its network. *)
Lemma flags_inj ns ms :
  Forall2 same_network ns ms -> NoDup (map NP_Network ns) -> Forall network_typed ns ->
  concat (map flag_bytes ns) = concat (map flag_bytes ms) -> map NP_AllowFeeOverrun ns = map NP_AllowFeeOverrun ms.
Proof.
  assert (Hhead : forall (n : NetworkPolicy) ks rest, network_typed n -> Forall network_typed ks ->
    NP_Network n ∉ map NP_Network ks ->
    str "estimated-fees/v1" ++ be_bytes 8 (NP_Network n) ++ rest = concat (map flag_bytes ks) -> False).
  { intros n ks rest Hn. induction ks as [|k ks IH]; intros Hks Hin H; [done|]. cbn [map concat] in H, Hin.
    apply Forall_cons in Hks as [Hk Hks].
    unfold flag_bytes at 1 in H. destruct (NP_AllowFeeOverrun k).
    - rewrite <- app_assoc in H. apply app_inj_1 in H as [_ H]; [|done].
      apply app_inj_1 in H as [H _]; [|by rewrite !length_be_bytes].
      pose proof (nt_network _ Hn). pose proof (nt_network _ Hk).
      apply be8_signed_inj in H; [|done|done]. set_solver.
    - apply IH; [done|set_solver|done]. }
  assert (Htyped : forall ns ms, Forall2 same_network ns ms -> Forall network_typed ns -> Forall network_typed ms).
  { induction 1 as [|a b ? ? (E1 & E2 & E3 & E4 & E5) _ IH]; intros Hall; inv Hall; constructor; [|by apply IH].
    destruct H1. by constructor; rewrite <- ?E1, <- ?E2, <- ?E3, <- ?E4, <- ?E5. }
  assert (Hnets : forall ns ms, Forall2 same_network ns ms -> map NP_Network ns = map NP_Network ms).
  { induction 1 as [|a b ? ? (E1 & _) _ IH]; cbn; [done|]. by rewrite E1, IH. }
  induction 1 as [|n m ns ms Hs Hf IH]; intros Hnd Hty H; [done|]. cbn [map concat] in Hnd, H |- *.
  apply NoDup_cons in Hnd as [Hnin Hnd]. apply Forall_cons in Hty as [Hn Hty].
  pose proof (Htyped _ _ Hf ltac:(assumption)) as Hms. pose proof (Hnets _ _ Hf) as Hnm.
  unfold flag_bytes at 1 3 in H. destruct Hs as (Enm & _).
  destruct (NP_AllowFeeOverrun n), (NP_AllowFeeOverrun m); cbn [app] in H.
  - rewrite Enm in H. apply app_inv_head in H. f_equal. auto.
  - rewrite <- app_assoc in H. exfalso. apply (Hhead n ms _ ltac:(assumption) Hms ltac:(congruence) H).
  - rewrite <- app_assoc in H. symmetry in H. rewrite <- Enm in H. exfalso.
    apply (Hhead n ns _ ltac:(assumption) ltac:(assumption) ltac:(assumption) H).
  - f_equal. auto.
Qed.

Record policy_encodable (p : Policy) : Prop := {
  pe_global : limits_typed (Policy_Global p);
  pe_networks : Forall network_typed (Policy_Networks p);
  pe_distinct : NoDup (map NP_Network (Policy_Networks p));
  pe_count : Z.of_nat (length (Policy_Networks p)) < 2 ^ 32 }.

Lemma sort_networks_perm ns : sort_networks ns ≡ₚ ns.
Proof. apply merge_sort_Permutation. Qed.

(** Policies with the same encoding are the same up to the order of networks. *)
Lemma encodePolicy_inj p q :
  policy_encodable p -> policy_encodable q -> encodePolicy p = encodePolicy q ->
  Policy_Global p = Policy_Global q /\ sort_networks (Policy_Networks p) = sort_networks (Policy_Networks q).
Proof.
  intros [Hg Hn Hd Hc] [Hg' Hn' Hd' Hc'] H. rewrite !encodePolicy_layout in H.
  apply app_inj_1 in H as [_ H]; [|done]. apply app_inj_1 in H as [Hl H]; [|by rewrite !length_limits_bytes].
  apply limits_bytes_inj in Hl; [|done|done]. split; [done|].
  rewrite <- sort_networks_perm in Hn, Hd, Hc. rewrite <- sort_networks_perm in Hn', Hd', Hc'.
  apply app_inj_1 in H as [Hlen H]; [|by rewrite !length_be_bytes].
  apply be_bytes_inj in Hlen; [|unfold inU; cbn; lia..]. apply Nat2Z.inj in Hlen.
  apply networks_bytes_inj in H as [Hs Hf]; [|done..].
  apply flags_inj in Hf; [|done..].
  revert Hs Hf. clear. generalize (sort_networks (Policy_Networks p)) (sort_networks (Policy_Networks q)).
  intros ns ms. induction 1 as [|a b ns ms (? & ? & ? & ? & ?) _ IH]; intros Hf; [done|].
  cbn in Hf. injection Hf as ? ?. f_equal; [|auto]. destruct a, b; cbn in *. congruence.
Qed.

End BudgetCodec.
Export BudgetCodec.
