(* ===== verification/BudgetLedger.v ===== *)
(** * internal/budget/ledger.go: the durable budget ledger

    The ledger's operations on its bbolt file, one definition per Go function.
    [BudgetLedger] is the immutable part of the Go struct (policy, per-network
    policies, record capacity); [LedgerState] is what changes: the closed flag
    and the three buckets.  An operation receives a [Call]: the context, the
    reading of the ledger's clock and whether the bbolt commit fails.  It
    returns the next state and a value or an error.  The file lock, directory
    permissions and creation of the file by [Open] are operating-system effects
    and are not modelled; the initialisation and validation transaction of
    [Open] is ([initialize], [open_tx]). *)

From S2P Require Import Prelude GoTime Bytes Sha256 Domain Bolt BudgetModel BudgetCodec.
From Stdlib Require Import Strings.Byte.
From Stdlib Require Strings.String.
Import Strings.String.StringSyntax.

Module Ledger.

Definition ledgerSchemaVersion : Z := 1.
Definition defaultMaxRecords : Z := 100000.
Definition maximumObservedSkew : Duration := 2 * Minute.

Definition ledgerSchemaKey : bytes := str "schema".
Definition ledgerPolicyKey : bytes := str "policy".
Definition ledgerFingerprintKey : bytes := str "policy-fingerprint".
Definition ledgerLastSeenKey : bytes := str "last-seen".
Definition ledgerMaxRecordsKey : bytes := str "max-records".

Record scopeUsage := mkUsage {
  feeOverrun : bool;
  reserved : Z;
  hourSpent : Z;
  daySpent : Z;
  allSpent : Z }.

Definition zeroUsage : scopeUsage := mkUsage false 0 0 0 0.

Record aggregateUsage := mkAggregate {
  usage_global : scopeUsage;
  usage_networks : gmap Z scopeUsage;
  usage_sponsors : gmap (Z * bytes) Z }.

Record BudgetLedger := mkLedger {
  L_policy : Policy;
  L_networks : gmap Z NetworkPolicy;
  L_maxRecords : Z }.

(** The environment of one call. *)
Record Call := mkCall {
  call_ctx : Context;
  call_now : Time;
  call_commitFails : bool }.

(** The zero [NetworkPolicy], which a Go map lookup of an unknown network yields. *)
Definition zeroNetworkPolicy : NetworkPolicy :=
  mkNetworkPolicy 0 zeroAddress (mkLimits 0 0 0 0) 0 0 false.

Definition networkPolicy (L : BudgetLedger) (network : NetworkID) : NetworkPolicy :=
  default zeroNetworkPolicy (L_networks L !! network).

(** ** Pure checks *)

Definition validateLimits (limits : Limits) : bool :=
  negb (u256_IsZero (PerTransaction limits) || u256_IsZero (PerHour limits)
        || u256_IsZero (PerDay limits) || u256_IsZero (Cumulative limits)
        || u256_Gt (PerTransaction limits) (PerHour limits) || u256_Gt (PerHour limits) (PerDay limits)
        || u256_Gt (PerDay limits) (Cumulative limits)).

Definition validateAndNormalizePolicy (policy : Policy) : result LedgerError (Policy * gmap Z NetworkPolicy) :=
  reject negb (validateLimits (Policy_Global policy)) || bool_decide (Policy_Networks policy = [])
      || (2 ^ 32 - 1 <? Z.of_nat (length (Policy_Networks policy))) with ErrInvalidOptions in
  let networks := sort_networks (Policy_Networks policy) in
  let! table := foldM (fun (table : gmap Z NetworkPolicy) network =>
      reject (NP_Network network <=? 0) || is_zero_bytes (NP_Sponsor network)
          || u256_IsZero (NP_EmergencySponsorReserve network)
          || negb (validateLimits (NP_Limits network)) with ErrInvalidOptions in
      reject bool_decide (is_Some (table !! NP_Network network)) with ErrInvalidOptions in
      Ok (<[NP_Network network := network]> table)) networks ∅ in
  Ok (mkPolicy (Policy_Global policy) networks, table).

Definition addChecked (target value : Z) : result LedgerError Z :=
  let (sum, overflow) := u256_AddOverflow target value in
  reject overflow with ErrArithmeticOverflow in Ok sum.

Definition fitsExisting (limit spent reserved : Z) : bool :=
  if u256_Gt spent limit then false
  else negb (u256_Gt reserved (u256_Sub limit spent)).

Definition scopeWithinLimits (limits : Limits) (usage : scopeUsage) : bool :=
  if feeOverrun usage then true
  else fitsExisting (PerHour limits) (hourSpent usage) (reserved usage)
       && fitsExisting (PerDay limits) (daySpent usage) (reserved usage)
       && fitsExisting (Cumulative limits) (allSpent usage) (reserved usage).

Definition hasCapacity (limit spent reserved requested : Z) : bool :=
  if u256_Gt spent limit then false
  else
    let remaining := u256_Sub limit spent in
    if u256_Gt reserved remaining then false
    else negb (u256_Gt requested (u256_Sub remaining reserved)).

Definition checkScopeBudget (limits : Limits) (usage : scopeUsage) (maximum : Z) : result LedgerError unit :=
  reject feeOverrun usage || u256_Gt maximum (PerTransaction limits)
      || negb (hasCapacity (PerHour limits) (hourSpent usage) (reserved usage) maximum)
      || negb (hasCapacity (PerDay limits) (daySpent usage) (reserved usage) maximum)
      || negb (hasCapacity (Cumulative limits) (allSpent usage) (reserved usage) maximum)
    with ErrBudgetExceeded in
  Ok tt.

Definition sponsorHasCapacity (balance emergency reserved requested : Z) : bool :=
  if u256_Gt emergency balance then false
  else
    let remaining := u256_Sub balance emergency in
    if u256_Gt reserved remaining then false
    else negb (u256_Gt requested (u256_Sub remaining reserved)).

Definition remaining (limit spent reserved : Z) : option Z :=
  if u256_Gt spent limit then None
  else
    let result := u256_Sub limit spent in
    if u256_Gt reserved result then None else Some (u256_Sub result reserved).

Definition makeScopeSnapshot (limits : Limits) (usage : scopeUsage) : result LedgerError ScopeSnapshot :=
  let spent := mkTotals (hourSpent usage) (daySpent usage) (allSpent usage) in
  let held := mkTotals (reserved usage) (reserved usage) (reserved usage) in
  if feeOverrun usage then Ok (mkScopeSnapshot spent held (mkTotals 0 0 0))
  else
    let? remainingHour := remaining (PerHour limits) (hourSpent usage) (reserved usage) orelse ErrCorrupt in
    let? remainingDay := remaining (PerDay limits) (daySpent usage) (reserved usage) orelse ErrCorrupt in
    let? remainingAll := remaining (Cumulative limits) (allSpent usage) (reserved usage) orelse ErrCorrupt in
    Ok (mkScopeSnapshot spent held (mkTotals remainingHour remainingDay remainingAll)).

Definition normalizeTime (value : Time) : Time := value.

Definition withinObservedSkew (observed local : Time) : bool :=
  let delta := Sub observed local in
  (- maximumObservedSkew <=? delta) && (delta <=? maximumObservedSkew).

Definition validAttempt (attempt : Attempt) : bool :=
  negb (is_zero_bytes (Attempt_Incident attempt)) && (0 <? Attempt_Number attempt).

Definition validateRequest (L : BudgetLedger) (request : ReservationRequest) : result LedgerError unit :=
  let? network := L_networks L !! Req_Network request orelse ErrInvalidRequest in
  reject is_zero_bytes (Req_Sponsor request) || negb (bytes_eqb (Req_Sponsor request) (NP_Sponsor network))
      || is_zero_bytes (Req_Candidate request) || negb (validAttempt (Req_Attempt request))
      || (Quote_GasLimit (Req_Quote request) =? 0) || u256_IsZero (Quote_MaxFeePerGas (Req_Quote request))
      || u256_IsZero (Req_SponsorBalance request) with ErrInvalidRequest in
  let! _ := CostQuote_Maximum (Req_Quote request) (NP_TransactionOverhead network) in
  Ok tt.

Definition validateReservation (L : BudgetLedger) (r : Reservation) : result LedgerError unit :=
  reject is_zero_bytes (Res_ID r)
      || negb (bytes_eqb (Res_ID r) (NewReservationID (Req_Attempt (Res_Request r))))
      || negb (isOk (validateRequest L (Res_Request r)))
      || negb (validPersistentTime (Res_CreatedAt r)) || negb (validPersistentTime (Res_UpdatedAt r))
      || Before (Res_UpdatedAt r) (Res_CreatedAt r) with ErrCorrupt in
  let network := networkPolicy L (Req_Network (Res_Request r)) in
  let! maximum := errOr ErrCorrupt (CostQuote_Maximum (Req_Quote (Res_Request r)) (NP_TransactionOverhead network)) in
  reject negb (u256_Eq maximum (Res_Maximum r))
      || u256_Gt (Res_Maximum r) (PerTransaction (Policy_Global (L_policy L)))
      || u256_Gt (Res_Maximum r) (PerTransaction (NP_Limits network)) with ErrCorrupt in
  match Res_State r with
  | ReservationHeld | ReservationReleased =>
      reject negb (is_zero_bytes (Res_TxHash r)) || negb (u256_IsZero (Res_Actual r))
          || negb (IsZero (Res_ExposedAt r)) with ErrCorrupt in Ok tt
  | ReservationExposed =>
      reject is_zero_bytes (Res_TxHash r) || negb (u256_IsZero (Res_Actual r))
          || negb (validPersistentTime (Res_ExposedAt r)) || Before (Res_ExposedAt r) (Res_CreatedAt r)
          || Before (Res_UpdatedAt r) (Res_ExposedAt r) with ErrCorrupt in Ok tt
  | ReservationCommitted =>
      reject is_zero_bytes (Res_TxHash r) || u256_IsZero (Res_Actual r)
          || (u256_Gt (Res_Actual r) (Res_Maximum r) && negb (NP_AllowFeeOverrun network))
          || negb (validPersistentTime (Res_ExposedAt r)) || Before (Res_ExposedAt r) (Res_CreatedAt r)
          || Before (Res_UpdatedAt r) (Res_ExposedAt r) with ErrCorrupt in Ok tt
  | ReservationStateOther _ => Err ErrCorrupt
  end.

Definition decodeStoredTime (data : option bytes) : result LedgerError Time :=
  let data := default [] data in
  reject negb (len data =? 12) with ErrCorrupt in
  let? (value, offset) := readTime data 0 orelse ErrCorrupt in
  reject negb (offset =? len data) || negb (validPersistentTime value) with ErrCorrupt in
  Ok value.

Definition publicError (err : LedgerError) : LedgerError :=
  match err with
  | errContext e => errContext e
  | ErrClosed | ErrInvalidRequest | ErrArithmeticOverflow | ErrBudgetExceeded | ErrSponsorReserve
  | ErrStateConflict | ErrCapacity | ErrCorrupt => err
  | _ => ErrCorrupt
  end.

Section Operations.
Context {B : Bolt}.

Record LedgerDB := mkLedgerDB {
  db_meta : bucket;
  db_reservations : bucket;
  db_attempts : bucket }.

Record LedgerState := mkLedgerState {
  st_closed : bool;
  st_db : LedgerDB }.

Definition withMeta (db : LedgerDB) (m : bucket) : LedgerDB :=
  mkLedgerDB m (db_reservations db) (db_attempts db).
Definition withReservations (db : LedgerDB) (r : bucket) : LedgerDB :=
  mkLedgerDB (db_meta db) r (db_attempts db).
Definition withAttempts (db : LedgerDB) (a : bucket) : LedgerDB :=
  mkLedgerDB (db_meta db) (db_reservations db) a.

(** ** Calls and transactions *)

Definition contextError (ctx : Context) : result LedgerError unit :=
  match ctx with
  | NilContext => Err ErrInvalidRequest
  | LiveContext (Some e) _ => Err (errContext e)
  | LiveContext None _ => Ok tt
  end.

(** The second [contextError(ctx)], inside the transaction. *)
Definition contextErrorTx (ctx : Context) : result LedgerError unit :=
  match ctx with
  | NilContext => Err ErrInvalidRequest
  | LiveContext _ (Some e) => Err (errContext e)
  | LiveContext _ None => Ok tt
  end.

Definition begin (call : Call) (st : LedgerState) : result LedgerError unit :=
  let! _ := contextError (call_ctx call) in
  reject st_closed st with ErrClosed in Ok tt.

(** [err = db.Update(fn); if err != nil { return publicError(err) }] *)
Definition update {A} (call : Call) (st : LedgerState) (fn : LedgerDB -> result LedgerError (A * LedgerDB))
    : LedgerState * result LedgerError A :=
  let (db', r) := db_update (if call_commitFails call then Some errBolt else None) (st_db st) fn in
  (mkLedgerState (st_closed st) db', match r with Ok a => Ok a | Err e => Err (publicError e) end).

(** [db.View]: a read-only transaction. *)
Definition view {A} (st : LedgerState) (fn : LedgerDB -> result LedgerError A) : result LedgerError A :=
  match fn (st_db st) with Ok a => Ok a | Err e => Err (publicError e) end.

Definition put (b : bucket) (k v : bytes) : result LedgerError bucket :=
  match b_put b k v with Some b' => Ok b' | None => Err errBolt end.

Definition observedNow (call : Call) : result LedgerError Time :=
  let now := normalizeTime (call_now call) in
  reject negb (validPersistentTime now) with ErrInvalidRequest in Ok now.

Definition effectiveNow (db : LedgerDB) (observed : Time) : result LedgerError (Time * LedgerDB) :=
  let! lastSeen := errOr ErrCorrupt (decodeStoredTime (b_get (db_meta db) ledgerLastSeenKey)) in
  if negb (After observed lastSeen) then Ok (lastSeen, db)
  else
    let! meta := put (db_meta db) ledgerLastSeenKey (appendTime [] observed) in
    Ok (observed, withMeta db meta).

Definition reservationByID (L : BudgetLedger) (db : LedgerDB) (id : ReservationID) : result LedgerError Reservation :=
  let? data := b_get (db_reservations db) id orelse ErrStateConflict in
  let! r := errOr ErrCorrupt (decodeReservation data) in
  reject negb (bytes_eqb (Res_ID r) id) || negb (isOk (validateReservation L r)) with ErrCorrupt in
  Ok r.

(** One record of the first loop of [collectUsage]. *)
Definition addReservation (now : Time) (r : Reservation) (usage : aggregateUsage) : result LedgerError aggregateUsage :=
  let g := usage_global usage in
  let n := default zeroUsage (usage_networks usage !! Req_Network (Res_Request r)) in
  let store g' n' sponsors :=
    Ok (mkAggregate g' (<[Req_Network (Res_Request r) := n']> (usage_networks usage)) sponsors) in
  match Res_State r with
  | ReservationHeld | ReservationExposed =>
      let! gr := errOr ErrCorrupt (addChecked (reserved g) (Res_Maximum r)) in
      let! nr := errOr ErrCorrupt (addChecked (reserved n) (Res_Maximum r)) in
      let key := (Req_Network (Res_Request r), Req_Sponsor (Res_Request r)) in
      let! sr := errOr ErrCorrupt (addChecked (default 0 (usage_sponsors usage !! key)) (Res_Maximum r)) in
      store (mkUsage (feeOverrun g) gr (hourSpent g) (daySpent g) (allSpent g))
            (mkUsage (feeOverrun n) nr (hourSpent n) (daySpent n) (allSpent n))
            (<[key := sr]> (usage_sponsors usage))
  | ReservationCommitted =>
      let over := u256_Gt (Res_Actual r) (Res_Maximum r) in
      let! ga := errOr ErrCorrupt (addChecked (allSpent g) (Res_Actual r)) in
      let! na := errOr ErrCorrupt (addChecked (allSpent n) (Res_Actual r)) in
      let! (gd, nd) :=
        (if negb (Before (Res_UpdatedAt r) (Add now (- (24 * Hour)))) then
           let! gd := errOr ErrCorrupt (addChecked (daySpent g) (Res_Actual r)) in
           let! nd := errOr ErrCorrupt (addChecked (daySpent n) (Res_Actual r)) in
           Ok (gd, nd)
         else Ok (daySpent g, daySpent n)) in
      let! (gh, nh) :=
        (if negb (Before (Res_UpdatedAt r) (Add now (- Hour))) then
           let! gh := errOr ErrCorrupt (addChecked (hourSpent g) (Res_Actual r)) in
           let! nh := errOr ErrCorrupt (addChecked (hourSpent n) (Res_Actual r)) in
           Ok (gh, nh)
         else Ok (hourSpent g, hourSpent n)) in
      store (mkUsage (over || feeOverrun g) (reserved g) gh gd ga)
            (mkUsage (over || feeOverrun n) (reserved n) nh nd na)
            (usage_sponsors usage)
  | ReservationReleased => store g n (usage_sponsors usage)
  | ReservationStateOther _ => Err ErrCorrupt
  end.

(** The body of [reservations.ForEach] in [collectUsage]. *)
Definition collectEntry (L : BudgetLedger) (db : LedgerDB) (now : Time)
    (acc : aggregateUsage * Z) (entry : bytes * bytes) : result LedgerError (aggregateUsage * Z) :=
  let (usage, count) := acc in
  let (key, value) := entry in
  reject negb (len key =? 32) with ErrCorrupt in
  let! r := errOr ErrCorrupt (decodeReservation value) in
  reject negb (bytes_eqb key (Res_ID r)) || negb (isOk (validateReservation L r))
      || negb (bool_decide (b_get (db_attempts db) (attemptKey (Req_Attempt (Res_Request r))) = Some (Res_ID r)))
    with ErrCorrupt in
  let! usage := addReservation now r usage in
  Ok (usage, count + 1).

(** The body of [attempts.ForEach] in [collectUsage]. *)
Definition checkAttemptEntry (db : LedgerDB) (count : Z) (entry : bytes * bytes) : result LedgerError Z :=
  let (key, value) := entry in
  let? attempt := decodeAttemptKey key orelse ErrCorrupt in
  reject negb (validAttempt attempt) || negb (len value =? 32) with ErrCorrupt in
  let! r := errOr ErrCorrupt (decodeReservation (default [] (b_get (db_reservations db) value))) in
  reject negb (bool_decide (Req_Attempt (Res_Request r) = attempt)) || negb (bytes_eqb value (Res_ID r)) with ErrCorrupt in
  Ok (count + 1).

Definition collectUsage (L : BudgetLedger) (db : LedgerDB) (now : Time) : result LedgerError aggregateUsage :=
  let! (usage, reservationCount) :=
    foldM (collectEntry L db now) (b_entries (db_reservations db)) (mkAggregate zeroUsage ∅ ∅, 0) in
  let! attemptCount := errOr ErrCorrupt (foldM (checkAttemptEntry db) (b_entries (db_attempts db)) 0) in
  reject negb (attemptCount =? reservationCount) with ErrCorrupt in
  reject L_maxRecords L <? reservationCount with ErrCorrupt in
  reject negb (scopeWithinLimits (Policy_Global (L_policy L)) (usage_global usage)) with ErrCorrupt in
  reject negb (forallb (fun '(networkID, networkPolicy) =>
      scopeWithinLimits (NP_Limits networkPolicy) (default zeroUsage (usage_networks usage !! networkID)))
      (map_to_list (L_networks L))) with ErrCorrupt in
  Ok usage.

(** The body of the loop of [purgeOldestReleased]: keep the oldest released
    record, the smaller ID on a tie. *)
Definition selectReleased (L : BudgetLedger) (selected : option Reservation) (entry : bytes * bytes)
    : result LedgerError (option Reservation) :=
  let! r := errOr ErrCorrupt (decodeReservation (snd entry)) in
  reject negb (isOk (validateReservation L r)) with ErrCorrupt in
  if negb (bool_decide (Res_State r = ReservationReleased)) then Ok selected
  else
    match selected with
    | None => Ok (Some r)
    | Some s =>
        if Before (Res_UpdatedAt r) (Res_UpdatedAt s)
           || (TimeEqual (Res_UpdatedAt r) (Res_UpdatedAt s) && bytes_ltb (Res_ID r) (Res_ID s))
        then Ok (Some r) else Ok selected
    end.

Definition purgeOldestReleased (L : BudgetLedger) (db : LedgerDB) : result LedgerError (bool * LedgerDB) :=
  let! selected := foldM (selectReleased L) (b_entries (db_reservations db)) None in
  match selected with
  | None => Ok (false, db)
  | Some s =>
      let db := withReservations db (b_delete (db_reservations db) (Res_ID s)) in
      let db := withAttempts db (b_delete (db_attempts db) (attemptKey (Req_Attempt (Res_Request s)))) in
      Ok (true, db)
  end.

(** ** Reserve *)

(** The budget and sponsor checks of [Reserve], for a fresh attempt and for a
    released one alike. *)
Definition admitMaximum (L : BudgetLedger) (usage : aggregateUsage) (request : ReservationRequest)
    : result LedgerError Z :=
  let network := networkPolicy L (Req_Network request) in
  let! maximum := CostQuote_Maximum (Req_Quote request) (NP_TransactionOverhead network) in
  let! _ := checkScopeBudget (Policy_Global (L_policy L)) (usage_global usage) maximum in
  let! _ := checkScopeBudget (NP_Limits network)
              (default zeroUsage (usage_networks usage !! Req_Network request)) maximum in
  let held := default 0 (usage_sponsors usage !! (Req_Network request, Req_Sponsor request)) in
  reject negb (sponsorHasCapacity (Req_SponsorBalance request) (NP_EmergencySponsorReserve network) held maximum)
    with ErrSponsorReserve in
  Ok maximum.

Definition storeReservation (db : LedgerDB) (r : Reservation) : result LedgerError LedgerDB :=
  let! encoded := errOr ErrCorrupt (encodeReservation r) in
  let! b := put (db_reservations db) (Res_ID r) encoded in
  Ok (withReservations db b).

(** The branch of [Reserve] for an attempt that already has a reservation. *)
Definition reserveExisting (L : BudgetLedger) (request : ReservationRequest) (now : Time)
    (usage : aggregateUsage) (existingID : bytes) (db : LedgerDB) : result LedgerError (Reservation * LedgerDB) :=
  reject negb (len existingID =? 32) with ErrCorrupt in
  let! existing := errOr ErrCorrupt (reservationByID L db existingID) in
  reject negb (bool_decide (Req_Attempt (Res_Request existing) = Req_Attempt request)) with ErrCorrupt in
  reject negb (sameReservationRequest (Res_Request existing) request) with ErrStateConflict in
  if bool_decide (Res_State existing = ReservationReleased) then
    let! _ := admitMaximum L usage request in
    let existing := mkReservation (Res_ID existing) request (Res_Maximum existing) ReservationHeld
                      zeroHash 0 now zeroTime now in
    let! db := storeReservation db existing in
    Ok (existing, db)
  else Ok (existing, db).

(** The branch of [Reserve] for a new attempt. *)
Definition reserveNew (L : BudgetLedger) (request : ReservationRequest) (now : Time)
    (usage : aggregateUsage) (db : LedgerDB) : result LedgerError (Reservation * LedgerDB) :=
  let! db :=
    (if L_maxRecords L <=? b_keyN (db_reservations db) then
       let! (removed, db) := purgeOldestReleased L db in
       reject negb removed with ErrCapacity in Ok db
     else Ok db) in
  let! maximum := admitMaximum L usage request in
  let r := mkReservation (NewReservationID (Req_Attempt request)) request maximum ReservationHeld
             zeroHash 0 now zeroTime now in
  reject bool_decide (is_Some (b_get (db_reservations db) (Res_ID r))) with ErrCorrupt in
  let! db := storeReservation db r in
  let! attempts := put (db_attempts db) (attemptKey (Req_Attempt request)) (Res_ID r) in
  Ok (r, withAttempts db attempts).

Definition reserve_tx (L : BudgetLedger) (call : Call) (request : ReservationRequest) (observed : Time)
    (db : LedgerDB) : result LedgerError (Reservation * LedgerDB) :=
  let! _ := contextErrorTx (call_ctx call) in
  let! (now, db) := effectiveNow db observed in
  let! usage := collectUsage L db now in
  match b_get (db_attempts db) (attemptKey (Req_Attempt request)) with
  | Some existingID => reserveExisting L request now usage existingID db
  | None => reserveNew L request now usage db
  end.

(** The checks of [Reserve] before its transaction; the observed time. *)
Definition reserve_guard (L : BudgetLedger) (call : Call) (request : ReservationRequest) (st : LedgerState)
    : result LedgerError Time :=
  let! _ := validateRequest L request in
  let! _ := begin call st in
  let! observed := observedNow call in
  if negb (IsZero (Req_ObservedAt request)) then
    let chainObserved := normalizeTime (Req_ObservedAt request) in
    reject negb (validPersistentTime chainObserved) || negb (withinObservedSkew chainObserved observed)
      with ErrInvalidRequest in
    Ok observed
  else Ok observed.

Definition Reserve (L : BudgetLedger) (call : Call) (request : ReservationRequest) (st : LedgerState)
    : LedgerState * result LedgerError Reservation :=
  match reserve_guard L call request st with
  | Err e => (st, Err e)
  | Ok observed => update call st (reserve_tx L call request observed)
  end.

(** ** State transitions of a reservation *)

(** The time a transition is stamped with: the last seen time, or the
    effective time of a chain-observed call. *)
Definition transition_now (call : Call) (observed : Time) (db : LedgerDB) : result LedgerError (Time * LedgerDB) :=
  if IsZero observed then
    let! now := decodeStoredTime (b_get (db_meta db) ledgerLastSeenKey) in Ok (now, db)
  else
    let chainObserved := normalizeTime observed in
    let! localNow := errOr ErrInvalidRequest (observedNow call) in
    reject negb (validPersistentTime chainObserved) || negb (withinObservedSkew chainObserved localNow)
      with ErrInvalidRequest in
    effectiveNow db localNow.

Definition transition_tx (L : BudgetLedger) (call : Call) (id : ReservationID) (observed : Time)
    (change : Reservation -> Time -> result LedgerError Reservation) (db : LedgerDB)
    : result LedgerError (Reservation * LedgerDB) :=
  let! _ := contextErrorTx (call_ctx call) in
  let! (now, db) := transition_now call observed db in
  let! _ := collectUsage L db now in
  let! before := reservationByID L db id in
  let! r := change before now in
  if bool_decide (r = before) then Ok (r, db)
  else
    let! _ := errOr ErrCorrupt (validateReservation L r) in
    let! encoded := errOr ErrCorrupt (encodeReservation r) in
    let! b := put (db_reservations db) id encoded in
    Ok (r, withReservations db b).

Definition transition (L : BudgetLedger) (call : Call) (id : ReservationID) (observed : Time)
    (change : Reservation -> Time -> result LedgerError Reservation) (st : LedgerState)
    : LedgerState * result LedgerError Reservation :=
  match begin call st with
  | Err e => (st, Err e)
  | Ok _ => update call st (transition_tx L call id observed change)
  end.

Definition markExposed_change (txHash : Hash) (r : Reservation) (now : Time) : result LedgerError Reservation :=
  match Res_State r with
  | ReservationHeld =>
      Ok (mkReservation (Res_ID r) (Res_Request r) (Res_Maximum r) ReservationExposed txHash (Res_Actual r)
            (Res_CreatedAt r) now now)
  | ReservationExposed | ReservationCommitted =>
      reject negb (bytes_eqb (Res_TxHash r) txHash) with ErrStateConflict in Ok r
  | ReservationReleased => Err ErrStateConflict
  | ReservationStateOther _ => Err ErrCorrupt
  end.

Definition MarkExposed (L : BudgetLedger) (call : Call) (id : ReservationID) (txHash : Hash) (st : LedgerState)
    : LedgerState * result LedgerError Reservation :=
  if is_zero_bytes id || is_zero_bytes txHash then (st, Err ErrInvalidRequest)
  else transition L call id zeroTime (markExposed_change txHash) st.

Definition commitFinalized_change (L : BudgetLedger) (charge : FinalizedCharge) (r : Reservation) (now : Time)
    : result LedgerError Reservation :=
  match Res_State r with
  | ReservationExposed =>
      reject negb (bytes_eqb (Res_TxHash r) (Charge_TxHash charge))
          || (u256_Gt (Charge_Actual charge) (Res_Maximum r)
              && negb (NP_AllowFeeOverrun (networkPolicy L (Req_Network (Res_Request r)))))
        with ErrStateConflict in
      Ok (mkReservation (Res_ID r) (Res_Request r) (Res_Maximum r) ReservationCommitted (Res_TxHash r)
            (Charge_Actual charge) (Res_CreatedAt r) (Res_ExposedAt r) now)
  | ReservationCommitted =>
      reject negb (bytes_eqb (Res_TxHash r) (Charge_TxHash charge))
          || negb (u256_Eq (Res_Actual r) (Charge_Actual charge)) with ErrStateConflict in
      Ok r
  | ReservationHeld | ReservationReleased => Err ErrStateConflict
  | ReservationStateOther _ => Err ErrCorrupt
  end.

Definition CommitFinalized (L : BudgetLedger) (call : Call) (charge : FinalizedCharge) (st : LedgerState)
    : LedgerState * result LedgerError Reservation :=
  if is_zero_bytes (Charge_ReservationID charge) || is_zero_bytes (Charge_TxHash charge)
     || u256_IsZero (Charge_Actual charge)
  then (st, Err ErrInvalidRequest)
  else transition L call (Charge_ReservationID charge) (Charge_ObservedAt charge)
         (commitFinalized_change L charge) st.

Definition releaseProvenUnused_change (r : Reservation) (now : Time) : result LedgerError Reservation :=
  match Res_State r with
  | ReservationHeld =>
      Ok (mkReservation (Res_ID r) (Res_Request r) (Res_Maximum r) ReservationReleased (Res_TxHash r)
            (Res_Actual r) (Res_CreatedAt r) (Res_ExposedAt r) now)
  | ReservationReleased => Ok r
  | ReservationExposed | ReservationCommitted => Err ErrStateConflict
  | ReservationStateOther _ => Err ErrCorrupt
  end.

Definition ReleaseProvenUnused (L : BudgetLedger) (call : Call) (id : ReservationID) (st : LedgerState)
    : LedgerState * result LedgerError Reservation :=
  if is_zero_bytes id then (st, Err ErrInvalidRequest)
  else transition L call id zeroTime releaseProvenUnused_change st.

Definition withBalance (r : Reservation) (balance : Z) : Reservation :=
  let q := Res_Request r in
  mkReservation (Res_ID r)
    (mkRequest (Req_Network q) (Req_Sponsor q) (Req_Candidate q) (Req_Attempt q) (Req_Quote q) balance (Req_ObservedAt q))
    (Res_Maximum r) (Res_State r) (Res_TxHash r) (Res_Actual r) (Res_CreatedAt r) (Res_ExposedAt r) (Res_UpdatedAt r).

Definition checkSponsorCapacity_tx (L : BudgetLedger) (call : Call) (id : ReservationID) (balance : Z)
    (db : LedgerDB) : result LedgerError (unit * LedgerDB) :=
  let! _ := contextErrorTx (call_ctx call) in
  let! r := reservationByID L db id in
  reject negb (bool_decide (Res_State r = ReservationHeld)) && negb (bool_decide (Res_State r = ReservationExposed))
    with ErrStateConflict in
  let! lastSeen := errOr ErrCorrupt (decodeStoredTime (b_get (db_meta db) ledgerLastSeenKey)) in
  let! usage := collectUsage L db lastSeen in
  let policy := networkPolicy L (Req_Network (Res_Request r)) in
  reject feeOverrun (usage_global usage) with ErrBudgetExceeded in
  let held := default 0 (usage_sponsors usage !! (Req_Network (Res_Request r), Req_Sponsor (Res_Request r))) in
  reject negb (sponsorHasCapacity balance (NP_EmergencySponsorReserve policy) held 0) with ErrSponsorReserve in
  if bool_decide (Res_State r = ReservationHeld) then
    let! encoded := errOr ErrCorrupt (encodeReservation (withBalance r balance)) in
    let! b := put (db_reservations db) id encoded in
    Ok (tt, withReservations db b)
  else Ok (tt, db).

Definition CheckSponsorCapacity (L : BudgetLedger) (call : Call) (id : ReservationID) (balance : Z) (st : LedgerState)
    : LedgerState * result LedgerError unit :=
  if is_zero_bytes id || u256_IsZero balance then (st, Err ErrInvalidRequest)
  else
    match begin call st with
    | Err e => (st, Err e)
    | Ok _ => update call st (checkSponsorCapacity_tx L call id balance)
    end.

(** ** Reads *)

Definition ReservationByAttempt (L : BudgetLedger) (call : Call) (attempt : Attempt) (st : LedgerState)
    : result LedgerError (option Reservation) :=
  reject negb (validAttempt attempt) with ErrInvalidRequest in
  let! _ := begin call st in
  view st (fun db =>
    let! _ := contextErrorTx (call_ctx call) in
    match b_get (db_attempts db) (attemptKey attempt) with
    | None => Ok None
    | Some value =>
        reject negb (len value =? 32) with ErrCorrupt in
        let! r := errOr ErrCorrupt (reservationByID L db value) in
        reject negb (bool_decide (Req_Attempt (Res_Request r) = attempt)) with ErrCorrupt in
        Ok (Some r)
    end).

Definition isOpen (s : ReservationState) : bool :=
  match s with ReservationHeld | ReservationExposed => true | _ => false end.

Definition OpenReservations (L : BudgetLedger) (call : Call) (st : LedgerState)
    : result LedgerError (list Reservation) :=
  let! _ := begin call st in
  let! rs := view st (fun db =>
    let! _ := contextErrorTx (call_ctx call) in
    let! lastSeen := errOr ErrCorrupt (decodeStoredTime (b_get (db_meta db) ledgerLastSeenKey)) in
    let! _ := collectUsage L db lastSeen in
    foldM (fun rs entry =>
      let! r := errOr ErrCorrupt (decodeReservation (snd entry)) in
      Ok (if isOpen (Res_State r) then rs ++ [r] else rs)) (b_entries (db_reservations db)) []) in
  Ok (sortedReservations rs).

Record Snapshot := mkSnapshot {
  Snapshot_At : Time;
  Snapshot_Global : ScopeSnapshot;
  Snapshot_Networks : gmap Z ScopeSnapshot }.

Definition ledgerSnapshot (L : BudgetLedger) (call : Call) (st : LedgerState) : result LedgerError Snapshot :=
  let! _ := begin call st in
  let! observed := observedNow call in
  view st (fun db =>
    let! _ := contextErrorTx (call_ctx call) in
    let! lastSeen := decodeStoredTime (b_get (db_meta db) ledgerLastSeenKey) in
    let now := if After observed lastSeen then observed else lastSeen in
    let! usage := collectUsage L db now in
    let! global := makeScopeSnapshot (Policy_Global (L_policy L)) (usage_global usage) in
    let! networks := foldM (fun (acc : gmap Z ScopeSnapshot) '(networkID, policy) =>
        let! network := makeScopeSnapshot (NP_Limits policy) (default zeroUsage (usage_networks usage !! networkID)) in
        Ok (<[networkID := network]> acc)) (map_to_list (L_networks L)) ∅ in
    Ok (mkSnapshot now global networks)).

(** [Close] marks the ledger closed; a second call does nothing. *)
Definition Close (st : LedgerState) : LedgerState := mkLedgerState true (st_db st).

(** ** Opening *)

(** The root of the file: the three buckets, if present, and whether any other
    root bucket exists. *)
Record RawDB := mkRawDB {
  raw_meta : option bucket;
  raw_reservations : option bucket;
  raw_attempts : option bucket;
  raw_other : bool }.

Definition initialBindings (L : BudgetLedger) (fingerprint : bytes) : list (bytes * bytes) :=
  [ (ledgerSchemaKey, encodeUint32 ledgerSchemaVersion);
    (ledgerPolicyKey, encodePolicy (L_policy L));
    (ledgerFingerprintKey, fingerprint);
    (ledgerLastSeenKey, appendTime [] (unixTime 1 0));
    (ledgerMaxRecordsKey, encodeUint32 (L_maxRecords L)) ].

(** The policy whose Base network (chain 8453) is still bounded, and whether it differs. *)
Definition previousPolicy (policy : Policy) : Policy * bool :=
  let revert n := if (NP_Network n =? 8453) && NP_AllowFeeOverrun n
    then mkNetworkPolicy (NP_Network n) (NP_Sponsor n) (NP_Limits n) (NP_TransactionOverhead n)
           (NP_EmergencySponsorReserve n) false
    else n in
  (mkPolicy (Policy_Global policy) (map revert (Policy_Networks policy)),
   existsb (fun n => (NP_Network n =? 8453) && NP_AllowFeeOverrun n) (Policy_Networks policy)).

Definition initialize (L : BudgetLedger) (fingerprint : bytes) (allowInitialize : bool) (raw : RawDB)
    : result LedgerError (bool * LedgerDB) :=
  match raw_meta raw with
  | None =>
      reject negb allowInitialize with ErrCorrupt in
      reject bool_decide (is_Some (raw_reservations raw)) || bool_decide (is_Some (raw_attempts raw))
          || raw_other raw with ErrCorrupt in
      let! meta := foldM (fun m '(k, v) => put m k v) (initialBindings L fingerprint) b_empty in
      Ok (true, mkLedgerDB meta b_empty b_empty)
  | Some meta =>
      let? reservations := raw_reservations raw orelse ErrCorrupt in
      let? attempts := raw_attempts raw orelse ErrCorrupt in
      let schema := default [] (b_get meta ledgerSchemaKey) in
      reject negb (len schema =? 4) with ErrCorrupt in
      reject negb (bytes_eqb schema (encodeUint32 ledgerSchemaVersion)) with ErrPolicyMismatch in
      let storedFingerprint := default [] (b_get meta ledgerFingerprintKey) in
      reject negb (len storedFingerprint =? len fingerprint) with ErrCorrupt in
      let? storedPolicy := b_get meta ledgerPolicyKey orelse ErrCorrupt in
      reject negb (bytes_eqb storedFingerprint fingerprint) with ErrPolicyMismatch in
      let! meta :=
        (if bytes_eqb storedPolicy (encodePolicy (L_policy L)) then Ok meta
         else
           let (previous, changed) := previousPolicy (L_policy L) in
           reject negb changed || negb (bytes_eqb storedPolicy (encodePolicy previous)) with ErrPolicyMismatch in
           put meta ledgerPolicyKey (encodePolicy (L_policy L))) in
      reject negb (bytes_eqb (default [] (b_get meta ledgerMaxRecordsKey)) (encodeUint32 (L_maxRecords L)))
        with ErrPolicyMismatch in
      let! _ := errOr ErrCorrupt (decodeStoredTime (b_get meta ledgerLastSeenKey)) in
      Ok (false, mkLedgerDB meta reservations attempts)
  end.

(** The transaction of [Open]: initialise or bind, then validate every record.
    An inner error other than a policy mismatch is reported as corruption, and
    so is a file whose existence does not agree with its content. *)
Definition open_tx (L : BudgetLedger) (fingerprint : bytes) (created : bool) (raw : RawDB) : result LedgerError LedgerDB :=
  match (let! (initialized, db) := initialize L fingerprint created raw in
         let! lastSeen := decodeStoredTime (b_get (db_meta db) ledgerLastSeenKey) in
         let! _ := collectUsage L db lastSeen in
         Ok (initialized, db)) with
  | Ok (initialized, db) =>
      reject negb (Bool.eqb initialized created) with ErrCorrupt in Ok db
  | Err ErrPolicyMismatch => Err ErrPolicyMismatch
  | Err _ => Err ErrCorrupt
  end.

(** [Open], from a validated policy to the first state, on the file content [raw]. *)
Definition Open (policy : Policy) (fingerprint : bytes) (maxRecords : Z) (now : Time) (created : bool) (raw : RawDB)
    : result LedgerError (BudgetLedger * LedgerState) :=
  let! (policy, networks) := errOr ErrInvalidOptions (validateAndNormalizePolicy policy) in
  reject is_zero_bytes fingerprint || negb (validPersistentTime (normalizeTime now)) with ErrInvalidOptions in
  let maxRecords := if maxRecords =? 0 then defaultMaxRecords else maxRecords in
  let L := mkLedger policy networks maxRecords in
  let! db := open_tx L fingerprint created raw in
  Ok (L, mkLedgerState false db).

End Operations.

End Ledger.
Export Ledger.
