(* ===== verification/BudgetUsage.v ===== *)
(** * What [collectUsage] computes

    [collectUsage] folds over the raw bucket with overflow-checked additions
    into a global scope, one scope per network and one sum per sponsor.  Here
    it is related to a reference on the list of decoded reservations: plain
    sums over unbounded integers ([scope_of]).  [collectUsage_sound] reads a
    successful run; [collectUsage_complete] shows that a consistent database
    within its limits makes the run succeed. *)

From S2P Require Import Prelude GoTime Bytes Sha256 Domain Bolt BudgetModel BudgetCodec BudgetLedger.

Module BudgetUsage.

(** ** The reference *)

Definition open_amount (r : Reservation) : Z :=
  if isOpen (Res_State r) then Res_Maximum r else 0.

Definition isCommitted (r : Reservation) : bool := bool_decide (Res_State r = ReservationCommitted).

Definition spent_amount (r : Reservation) : Z := if isCommitted r then Res_Actual r else 0.

(** The part of a committed charge that falls at or after [cutoff]. *)
Definition spent_since (cutoff : Time) (r : Reservation) : Z :=
  if isCommitted r && negb (Before (Res_UpdatedAt r) cutoff) then Res_Actual r else 0.

Definition overrun (r : Reservation) : bool := isCommitted r && u256_Gt (Res_Actual r) (Res_Maximum r).

Definition dayCutoff (now : Time) : Time := Add now (- (24 * Hour)).
Definition hourCutoff (now : Time) : Time := Add now (- Hour).

Definition scope_of (now : Time) (rs : list Reservation) : scopeUsage :=
  mkUsage (existsb overrun rs) (sumZ open_amount rs) (sumZ (spent_since (hourCutoff now)) rs)
    (sumZ (spent_since (dayCutoff now)) rs) (sumZ spent_amount rs).

Definition on_network (n : Z) (rs : list Reservation) : list Reservation :=
  filter (fun r => Req_Network (Res_Request r) = n) rs.

Definition on_sponsor (k : Z * bytes) (rs : list Reservation) : list Reservation :=
  filter (fun r => (Req_Network (Res_Request r), Req_Sponsor (Res_Request r)) = k) rs.

(** The aggregate agrees with the reference, scope by scope. *)
Record agrees (now : Time) (rs : list Reservation) (u : aggregateUsage) : Prop := {
  ag_global : usage_global u = scope_of now rs;
  ag_network n : default zeroUsage (usage_networks u !! n) = scope_of now (on_network n rs);
  ag_sponsor k : default 0 (usage_sponsors u !! k) = sumZ open_amount (on_sponsor k rs) }.

Lemma isCommitted_state r :
  isCommitted r = match Res_State r with ReservationCommitted => true | _ => false end.
Proof. unfold isCommitted. by destruct (Res_State r). Qed.

(** The two grand totals stay below 2^256. *)
Definition fits (rs : list Reservation) : Prop :=
  sumZ open_amount rs < 2 ^ 256 /\ sumZ spent_amount rs < 2 ^ 256.

(** Limits hold in the global scope and on every configured network. *)
Definition within_limits (L : BudgetLedger) (now : Time) (rs : list Reservation) : Prop :=
  scopeWithinLimits (Policy_Global (L_policy L)) (scope_of now rs) = true /\
  forall n np, L_networks L !! n = Some np ->
    scopeWithinLimits (NP_Limits np) (scope_of now (on_network n rs)) = true.

Definition attempt_entry (r : Reservation) : bytes * bytes :=
  (attemptKey (Req_Attempt (Res_Request r)), Res_ID r).

Section Consistency.
Context {B : Bolt}.

(** One reservation entry of the bucket holds reservation [r]. *)
Definition holds (entry : bytes * bytes) (r : Reservation) : Prop :=
  entry.1 = Res_ID r /\ decodeReservation entry.2 = Ok r.

(** The buckets hold exactly the valid reservations [rs], indexed by attempt. *)
Record Consistent (L : BudgetLedger) (db : LedgerDB) (rs : list Reservation) : Prop := {
  c_entries : Forall2 holds (b_entries (db_reservations db)) rs;
  c_valid : Forall (fun r => validateReservation L r = Ok tt) rs;
  c_attempts : b_entries (db_attempts db) ≡ₚ map attempt_entry rs;
  c_count : Z.of_nat (length rs) <= L_maxRecords L }.

End Consistency.

(** ** Sums *)

#[export] Instance scope_of_perm now : Proper (Permutation ==> eq) (scope_of now).
Proof.
  intros l k H. unfold scope_of. f_equal; try (by rewrite H).
  induction H; cbn; try congruence.
  rewrite !orb_assoc. f_equal. apply orb_comm.
Qed.

#[export] Instance fits_perm : Proper (Permutation ==> iff) fits.
Proof. intros l k H. unfold fits. by rewrite H. Qed.

#[export] Instance within_limits_perm L now : Proper (Permutation ==> iff) (within_limits L now).
Proof.
  intros l k H. unfold within_limits, on_network.
  rewrite H. split; intros [H1 H2]; split; try done; intros n np Hn;
    specialize (H2 n np Hn); [by rewrite <- H | by rewrite H].
Qed.

Lemma scope_of_app now l k :
  scope_of now (l ++ k) =
    mkUsage (existsb overrun l || existsb overrun k) (sumZ open_amount l + sumZ open_amount k)
      (sumZ (spent_since (hourCutoff now)) l + sumZ (spent_since (hourCutoff now)) k)
      (sumZ (spent_since (dayCutoff now)) l + sumZ (spent_since (dayCutoff now)) k)
      (sumZ spent_amount l + sumZ spent_amount k).
Proof. unfold scope_of. by rewrite !sumZ_app, existsb_app. Qed.

Lemma open_amount_nonneg r : reservation_stored r -> 0 <= open_amount r.
Proof. intros []. unfold open_amount, inU in *. destruct (isOpen _); lia. Qed.

Lemma spent_amount_nonneg r : reservation_stored r -> 0 <= spent_amount r.
Proof. intros []. unfold spent_amount, inU in *. destruct (isCommitted _); lia. Qed.

Lemma spent_since_range c r : reservation_stored r -> 0 <= spent_since c r <= spent_amount r.
Proof.
  intros []. unfold spent_since, spent_amount, inU in *.
  destruct (isCommitted r); cbn; [|lia]. destruct (negb _); lia.
Qed.

Lemma spent_since_mono c c' r : reservation_stored r -> c <= c' -> spent_since c' r <= spent_since c r.
Proof.
  intros [] Hc. unfold spent_since, Before, inU in *. destruct (isCommitted r); cbn; [|lia].
  destruct (Res_UpdatedAt r <? c') eqn:E1, (Res_UpdatedAt r <? c) eqn:E2; bool_hyps; cbn; lia.
Qed.

(** A sub-list's sum is at most the whole's. *)
Lemma sum_filter_le (f : Reservation -> Z) (P : Reservation -> Prop) `{!forall r, Decision (P r)} rs :
  (forall r, r ∈ rs -> 0 <= f r) -> sumZ f (filter P rs) <= sumZ f rs.
Proof.
  induction rs as [|r rs IH]; intros Hn; [done|]. specialize (IH ltac:(set_solver)).
  pose proof (Hn r ltac:(left)).
  rewrite filter_cons. case_decide; rewrite !sumZ_cons; lia.
Qed.

Lemma sums_range now rs :
  Forall reservation_stored rs -> fits rs ->
  inU 256 (sumZ open_amount rs) /\ inU 256 (sumZ spent_amount rs) /\
  inU 256 (sumZ (spent_since (hourCutoff now)) rs) /\ inU 256 (sumZ (spent_since (dayCutoff now)) rs).
Proof.
  intros Hs [Hf1 Hf2]. rewrite Forall_forall in Hs. unfold inU.
  pose proof (sumZ_nonneg open_amount rs (fun r Hr => open_amount_nonneg r (Hs r Hr))).
  pose proof (sumZ_nonneg spent_amount rs (fun r Hr => spent_amount_nonneg r (Hs r Hr))).
  assert (Hw : forall c, 0 <= sumZ (spent_since c) rs <= sumZ spent_amount rs).
  { intros c. split.
    - apply sumZ_nonneg. intros r Hr. by apply spent_since_range, Hs.
    - apply sumZ_mono. intros r Hr. by apply spent_since_range, Hs. }
  pose proof (Hw (hourCutoff now)). pose proof (Hw (dayCutoff now)). lia.
Qed.

Lemma fits_sub (P : Reservation -> Prop) `{!forall r, Decision (P r)} rs :
  Forall reservation_stored rs -> fits rs -> fits (filter P rs).
Proof.
  intros Hs [H1 H2]. rewrite Forall_forall in Hs. split.
  - pose proof (sum_filter_le open_amount P rs (fun r Hr => open_amount_nonneg r (Hs r Hr))). lia.
  - pose proof (sum_filter_le spent_amount P rs (fun r Hr => spent_amount_nonneg r (Hs r Hr))). lia.
Qed.

Lemma Forall_filter_sub (Q P : Reservation -> Prop) `{!forall r, Decision (P r)} rs :
  Forall Q rs -> Forall Q (filter P rs).
Proof. rewrite !Forall_forall. intros HQ r [_ Hr]%list_elem_of_filter. by apply HQ. Qed.

(** ** One record *)

Lemma addChecked_eq a b :
  inU 256 a -> inU 256 b ->
  addChecked a b = if decide (a + b < 2 ^ 256) then Ok (a + b) else Err ErrArithmeticOverflow.
Proof.
  unfold inU. intros Ha Hb. unfold addChecked, u256_AddOverflow.
  destruct (a + b <? 2 ^ 256) eqn:E; bool_hyps; cbn [negb].
  - rewrite decide_True by done. by rewrite Z.mod_small by lia.
  - by rewrite decide_False by lia.
Qed.

Lemma addChecked_ok a b : inU 256 a -> inU 256 b -> a + b < 2 ^ 256 -> addChecked a b = Ok (a + b).
Proof. intros. rewrite addChecked_eq by done. by rewrite decide_True. Qed.

Lemma addChecked_lt e a b c :
  inU 256 a -> inU 256 b -> errOr (E:=LedgerError) (E':=LedgerError) e (addChecked a b) = Ok c -> a + b < 2 ^ 256.
Proof. intros Ha Hb. rewrite addChecked_eq by done. case_decide; done. Qed.

Lemma on_network_snoc n rs r :
  on_network n (rs ++ [r]) =
    on_network n rs ++ (if decide (Req_Network (Res_Request r) = n) then [r] else []).
Proof. unfold on_network. by rewrite filter_app. Qed.

Lemma on_sponsor_snoc k rs r :
  on_sponsor k (rs ++ [r]) =
    on_sponsor k rs ++
      (if decide ((Req_Network (Res_Request r), Req_Sponsor (Res_Request r)) = k) then [r] else []).
Proof. unfold on_sponsor. by rewrite filter_app. Qed.

(** The reference after one more record. *)
Lemma scope_of_snoc now rs r :
  scope_of now (rs ++ [r]) =
    let u := scope_of now rs in
    mkUsage (overrun r || feeOverrun u) (reserved u + open_amount r)
      (hourSpent u + spent_since (hourCutoff now) r) (daySpent u + spent_since (dayCutoff now) r)
      (allSpent u + spent_amount r).
Proof.
  rewrite scope_of_app. unfold scope_of. rewrite !sumZ_cons, !sumZ_nil. cbn.
  rewrite orb_false_r. f_equal; [apply orb_comm|lia..].
Qed.

Lemma scope_of_idle now rs r :
  isOpen (Res_State r) = false -> isCommitted r = false -> scope_of now (rs ++ [r]) = scope_of now rs.
Proof.
  intros Ho Hc. rewrite scope_of_snoc. cbn zeta.
  unfold overrun, open_amount, spent_since, spent_amount. rewrite Ho, Hc. cbn.
  unfold scope_of. cbn. f_equal; lia.
Qed.

(** Putting the new scope of [r]'s network and sponsor back keeps agreement. *)
Lemma agrees_store now rs u r sponsors :
  agrees now rs u ->
  (forall k, default 0 (sponsors !! k) = sumZ open_amount (on_sponsor k (rs ++ [r]))) ->
  agrees now (rs ++ [r])
    (mkAggregate (scope_of now (rs ++ [r]))
       (<[Req_Network (Res_Request r) := scope_of now (on_network (Req_Network (Res_Request r)) (rs ++ [r]))]>
          (usage_networks u)) sponsors).
Proof.
  intros [Hg Hn Hs] Hk. constructor; cbn; [done| |done].
  intros n. destruct (decide (Req_Network (Res_Request r) = n)) as [<-|Hne].
  - by rewrite lookup_insert_eq.
  - rewrite lookup_insert_ne by done. rewrite on_network_snoc, decide_False, app_nil_r by done. apply Hn.
Qed.

Lemma on_sponsor_idle k rs r :
  isOpen (Res_State r) = false ->
  sumZ open_amount (on_sponsor k (rs ++ [r])) = sumZ open_amount (on_sponsor k rs).
Proof.
  intros Ho. rewrite on_sponsor_snoc, sumZ_app. case_decide; rewrite ?sumZ_cons, ?sumZ_nil; [|lia].
  unfold open_amount at 2. rewrite Ho. lia.
Qed.

(** Every scope a record is added to fits if the grand totals fit. *)
Lemma snoc_fits (P : Reservation -> Prop) `{!forall r, Decision (P r)} rs r :
  Forall reservation_stored (rs ++ [r]) -> fits (rs ++ [r]) -> P r ->
  fits (filter P rs ++ [r]).
Proof.
  intros Hs Hf HP. pose proof (fits_sub P _ Hs Hf) as Hsub.
  by rewrite filter_app, filter_cons_True, filter_nil in Hsub by done.
Qed.

Lemma fits_prefix l k : Forall reservation_stored (l ++ k) -> fits (l ++ k) -> fits l.
Proof.
  intros [Hl Hk]%Forall_app [H1 H2]. rewrite sumZ_app in H1, H2. rewrite Forall_forall in Hk.
  pose proof (sumZ_nonneg open_amount k (fun r Hr => open_amount_nonneg r (Hk r Hr))).
  pose proof (sumZ_nonneg spent_amount k (fun r Hr => spent_amount_nonneg r (Hk r Hr))).
  split; lia.
Qed.

(** Adding an open record: all three checked additions succeed. *)
Lemma addReservation_open now r u rs :
  Forall reservation_stored (rs ++ [r]) -> agrees now rs u -> fits rs ->
  isOpen (Res_State r) = true -> fits (rs ++ [r]) ->
  exists u', addReservation now r u = Ok u' /\ agrees now (rs ++ [r]) u'.
Proof.
  intros Hs Hag Hf Ho Hf'.
  pose proof (proj1 (Forall_app _ _ _) Hs) as [Hrs Hr]. rewrite Forall_singleton in Hr.
  assert (Hnc : isCommitted r = false).
  { unfold isCommitted. apply bool_decide_eq_false. by destruct (Res_State r). }
  assert (Hadd : forall l, Forall reservation_stored l -> fits l -> fits (l ++ [r]) ->
    addChecked (sumZ open_amount l) (Res_Maximum r) = Ok (sumZ open_amount (l ++ [r]))).
  { intros l Hl Hfl [Hfl' _]. rewrite sumZ_app, sumZ_cons, sumZ_nil in Hfl' |- *.
    unfold open_amount at 2 in Hfl'. unfold open_amount at 3. rewrite Ho in *.
    rewrite addChecked_ok; [f_equal; lia| |apply Hr|lia]. by apply (sums_range now l Hl Hfl). }
  assert (Hupd : forall l, scope_of now (l ++ [r]) =
    let x := scope_of now l in
    mkUsage (feeOverrun x) (sumZ open_amount (l ++ [r])) (hourSpent x) (daySpent x) (allSpent x)).
  { intros l. rewrite scope_of_snoc. cbn zeta. unfold overrun, spent_since, spent_amount. rewrite Hnc.
    cbn. rewrite sumZ_app, sumZ_cons, sumZ_nil. f_equal; lia. }
  pose proof (Hadd rs Hrs Hf Hf') as Hg.
  pose proof (Hadd _ (Forall_filter_sub _ _ _ Hrs) (fits_sub _ _ Hrs Hf)
    (snoc_fits (fun x => Req_Network (Res_Request x) = Req_Network (Res_Request r)) rs r Hs Hf' eq_refl)) as Hn.
  pose proof (Hadd _ (Forall_filter_sub _ _ _ Hrs) (fits_sub _ _ Hrs Hf)
    (snoc_fits (fun x => (Req_Network (Res_Request x), Req_Sponsor (Res_Request x))
       = (Req_Network (Res_Request r), Req_Sponsor (Res_Request r))) rs r Hs Hf' eq_refl)) as Hk.
  fold (on_network (Req_Network (Res_Request r)) rs) in Hn.
  fold (on_sponsor (Req_Network (Res_Request r), Req_Sponsor (Res_Request r)) rs) in Hk.
  exists (mkAggregate (scope_of now (rs ++ [r]))
    (<[Req_Network (Res_Request r) := scope_of now (on_network (Req_Network (Res_Request r)) (rs ++ [r]))]>
          (usage_networks u))
    (<[(Req_Network (Res_Request r), Req_Sponsor (Res_Request r)) :=
        sumZ open_amount (on_sponsor (Req_Network (Res_Request r), Req_Sponsor (Res_Request r)) (rs ++ [r]))]>
       (usage_sponsors u))).
  rewrite on_network_snoc, on_sponsor_snoc, !decide_True by done. split.
  - unfold addReservation. cbv zeta.
    rewrite (ag_global _ _ _ Hag), (ag_network _ _ _ Hag), (ag_sponsor _ _ _ Hag). rewrite !Hupd.
    unfold scope_of. cbn [reserved feeOverrun hourSpent daySpent allSpent]. rewrite Hg, Hn, Hk. cbn [errOr].
    by destruct (Res_State r).
  - pose proof (agrees_store now rs u r (<[(Req_Network (Res_Request r), Req_Sponsor (Res_Request r)) :=
        sumZ open_amount (on_sponsor (Req_Network (Res_Request r), Req_Sponsor (Res_Request r)) rs ++ [r])]>
       (usage_sponsors u)) Hag) as H.
    rewrite on_network_snoc, decide_True in H by done. apply H.
    intros k'. rewrite on_sponsor_snoc. case_decide as Hd.
    + subst k'. by rewrite lookup_insert_eq.
    + rewrite lookup_insert_ne, app_nil_r by done. apply Hag.
Qed.

(** The three additions of a committed charge to one scope. *)
Lemma committed_adds now r l :
  reservation_stored r -> Res_State r = ReservationCommitted ->
  Forall reservation_stored l -> fits l -> fits (l ++ [r]) ->
  addChecked (sumZ spent_amount l) (Res_Actual r) = Ok (sumZ spent_amount (l ++ [r])) /\
  (forall c, c = hourCutoff now \/ c = dayCutoff now -> Before (Res_UpdatedAt r) c = false ->
    addChecked (sumZ (spent_since c) l) (Res_Actual r) = Ok (sumZ (spent_since c) (l ++ [r]))) /\
  (forall c, Before (Res_UpdatedAt r) c = true -> sumZ (spent_since c) (l ++ [r]) = sumZ (spent_since c) l) /\
  sumZ open_amount (l ++ [r]) = sumZ open_amount l.
Proof.
  intros Hr Hst Hl Hfl [_ Hfl'].
  pose proof (sums_range now l Hl Hfl) as (_ & Hsp & Hh & Hd).
  assert (Hc : isCommitted r = true) by (unfold isCommitted; by rewrite Hst, bool_decide_eq_true_2).
  assert (Ha : spent_amount r = Res_Actual r) by (unfold spent_amount; by rewrite Hc).
  pose proof (rs_actual r Hr) as Hact.
  rewrite !sumZ_app, !sumZ_cons, !sumZ_nil, Ha in *.
  repeat split.
  - rewrite addChecked_ok by (assumption || lia). f_equal. lia.
  - intros c Hcut Hb. rewrite sumZ_app, sumZ_cons, sumZ_nil.
    assert (Hs : spent_since c r = Res_Actual r) by (unfold spent_since; by rewrite Hc, Hb).
    assert (Hle : sumZ (spent_since c) l <= sumZ spent_amount l).
    { apply sumZ_mono. intros x Hx. rewrite Forall_forall in Hl. by apply spent_since_range, Hl. }
    rewrite Hs, addChecked_ok; [f_equal; lia| |done|lia]. by destruct Hcut as [->| ->].
  - intros c Hb. rewrite sumZ_app, sumZ_cons, sumZ_nil. unfold spent_since at 2. rewrite Hc, Hb. cbn. lia.
  - unfold open_amount at 2. rewrite Hst. cbn. lia.
Qed.

(** Adding a committed record: every checked addition succeeds. *)
Lemma addReservation_committed now r u rs :
  Forall reservation_stored (rs ++ [r]) -> agrees now rs u -> fits rs ->
  Res_State r = ReservationCommitted -> fits (rs ++ [r]) ->
  exists u', addReservation now r u = Ok u' /\ agrees now (rs ++ [r]) u'.
Proof.
  intros Hs Hag Hf Hst Hf'.
  pose proof (proj1 (Forall_app _ _ _) Hs) as [Hrs Hr]. rewrite Forall_singleton in Hr.
  destruct (committed_adds now r rs Hr Hst Hrs Hf Hf') as (Hga & Hgw & Hgs & Hgo).
  destruct (committed_adds now r (on_network (Req_Network (Res_Request r)) rs) Hr Hst
    (Forall_filter_sub _ _ _ Hrs) (fits_sub _ _ Hrs Hf)
    (snoc_fits (fun x => Req_Network (Res_Request x) = Req_Network (Res_Request r)) rs r Hs Hf' eq_refl))
    as (Hna & Hnw & Hns & Hno).
  assert (Hov : overrun r = u256_Gt (Res_Actual r) (Res_Maximum r)).
  { unfold overrun, isCommitted. by rewrite Hst, bool_decide_eq_true_2. }
  exists (mkAggregate (scope_of now (rs ++ [r]))
    (<[Req_Network (Res_Request r) := scope_of now (on_network (Req_Network (Res_Request r)) (rs ++ [r]))]>
          (usage_networks u)) (usage_sponsors u)).
  split.
  - rewrite on_network_snoc, decide_True by done. unfold addReservation. cbv zeta.
    rewrite (ag_global _ _ _ Hag), (ag_network _ _ _ Hag), Hst. unfold scope_of.
    cbn [reserved feeOverrun hourSpent daySpent allSpent].
    rewrite Hga, Hna, Hgo, Hno, !existsb_app. cbn [errOr existsb].
    fold (dayCutoff now) (hourCutoff now). rewrite Hov, !orb_false_r, !(orb_comm _ (u256_Gt _ _)).
    destruct (Before (Res_UpdatedAt r) (dayCutoff now)) eqn:Ed; cbn [negb].
    all: destruct (Before (Res_UpdatedAt r) (hourCutoff now)) eqn:Eh; cbn [negb].
    all: rewrite ?(Hgs _ Ed), ?(Hns _ Ed), ?(Hgs _ Eh), ?(Hns _ Eh).
    all: try rewrite (Hgw _ (or_intror eq_refl) Ed), (Hnw _ (or_intror eq_refl) Ed).
    all: try rewrite (Hgw _ (or_introl eq_refl) Eh), (Hnw _ (or_introl eq_refl) Eh).
    all: reflexivity.
  - apply agrees_store; [done|]. intros k. rewrite on_sponsor_idle by (by rewrite Hst). apply Hag.
Qed.

(** Adding a record, whatever its state. *)
Lemma addReservation_ok now r u rs :
  Forall reservation_stored (rs ++ [r]) -> agrees now rs u -> fits (rs ++ [r]) ->
  (forall b, Res_State r <> ReservationStateOther b) ->
  exists u', addReservation now r u = Ok u' /\ agrees now (rs ++ [r]) u'.
Proof.
  intros Hs Hag Hf' Hst. pose proof (fits_prefix _ _ Hs Hf') as Hf.
  destruct (Res_State r) eqn:E; try (by destruct (Hst b)).
  - apply addReservation_open; auto. by rewrite E.
  - apply addReservation_open; auto. by rewrite E.
  - by apply addReservation_committed.
  - exists (mkAggregate (scope_of now (rs ++ [r]))
      (<[Req_Network (Res_Request r) := scope_of now (on_network (Req_Network (Res_Request r)) (rs ++ [r]))]>
          (usage_networks u)) (usage_sponsors u)).
    assert (Hid : forall l, scope_of now (l ++ [r]) = scope_of now l).
    { intros l. apply scope_of_idle; [by rewrite E|]. unfold isCommitted. by rewrite E, bool_decide_eq_false_2. }
    split.
    + unfold addReservation. cbv zeta. rewrite E, (ag_global _ _ _ Hag), (ag_network _ _ _ Hag).
      by rewrite on_network_snoc, decide_True, !Hid by done.
    + apply agrees_store; [done|]. intros k. rewrite on_sponsor_idle by (by rewrite E). apply Hag.
Qed.

(** A successful addition keeps the totals below 2^256. *)
Lemma addReservation_fits now r u u' rs :
  Forall reservation_stored (rs ++ [r]) -> agrees now rs u -> fits rs ->
  addReservation now r u = Ok u' -> fits (rs ++ [r]).
Proof.
  intros Hs Hag Hf H. pose proof (proj1 (Forall_app _ _ _) Hs) as [Hrs Hr]. rewrite Forall_singleton in Hr.
  pose proof (sums_range now rs Hrs Hf) as (Ho & Hsp & _ & _). destruct Hf as [Hf1 Hf2].
  unfold addReservation in H. cbv zeta in H. rewrite (ag_global _ _ _ Hag) in H. unfold fits, scope_of in *.
  rewrite !sumZ_app, !sumZ_cons, !sumZ_nil. cbn [reserved allSpent hourSpent daySpent feeOverrun] in H.
  unfold open_amount at 2, spent_amount at 2, isCommitted.
  destruct (Res_State r) eqn:E; cbn [isOpen]; rewrite ?bool_decide_eq_true_2, ?bool_decide_eq_false_2 by done.
  - destruct (errOr _ (addChecked _ (Res_Maximum r))) eqn:E1 in H; [|done].
    apply addChecked_lt in E1; [lia|done|apply Hr].
  - destruct (errOr _ (addChecked _ (Res_Maximum r))) eqn:E1 in H; [|done].
    apply addChecked_lt in E1; [lia|done|apply Hr].
  - destruct (errOr _ (addChecked _ (Res_Actual r))) eqn:E1 in H; [|done].
    apply addChecked_lt in E1; [lia|done|apply Hr].
  - lia.
  - done.
Qed.

(** ** Validity of a record *)

Lemma isOk_unit {E} (r : result E unit) : isOk r = true <-> r = Ok tt.
Proof. destruct r as [[]|]; cbn; split; congruence. Qed.

Lemma validateReservation_state L r :
  validateReservation L r = Ok tt -> forall b, Res_State r <> ReservationStateOther b.
Proof.
  unfold validateReservation. intros H b Hb.
  destruct (_ || _); [done|]. destruct (errOr _ _); [|done]. destruct (_ || _); [done|].
  by rewrite Hb in H.
Qed.

Lemma validateReservation_request L r :
  validateReservation L r = Ok tt ->
  Res_ID r = NewReservationID (Req_Attempt (Res_Request r)) /\
  validateRequest L (Res_Request r) = Ok tt.
Proof.
  unfold validateReservation. intros H. destruct (_ || _) eqn:E; [done|]. clear H.
  bool_hyps. split; [by apply bytes_eqb_spec|by apply isOk_unit].
Qed.

Lemma validateRequest_attempt L q : validateRequest L q = Ok tt -> validAttempt (Req_Attempt q) = true.
Proof.
  unfold validateRequest. destruct (L_networks L !! _); [|done]. destruct (_ || _) eqn:E; [done|]. intros _.
  by bool_hyps.
Qed.

(** ** The loops of [collectUsage] *)

Section Loops.
Context `{BL : BoltLaws}.

Definition entry_valid (L : BudgetLedger) (db : LedgerDB) (entry : bytes * bytes) (r : Reservation) : Prop :=
  holds entry r /\ validateReservation L r = Ok tt /\
  b_get (db_attempts db) (attemptKey (Req_Attempt (Res_Request r))) = Some (Res_ID r).

Lemma holds_stored e r : holds e r -> reservation_stored r.
Proof. intros [_ H]. by apply decodeReservation_stored in H. Qed.

Lemma collectEntry_inv L db now u c e u' c' :
  collectEntry L db now (u, c) e = Ok (u', c') ->
  exists r, entry_valid L db e r /\ addReservation now r u = Ok u' /\ c' = c + 1.
Proof.
  destruct e as [k v]. unfold collectEntry. intros H.
  destruct (negb (len k =? 32)); [done|].
  destruct (decodeReservation v) as [r|] eqn:Ed; [|done]. cbn [errOr] in H.
  destruct (_ || _) eqn:Ev; [done|]. destruct (addReservation now r u) eqn:Ea; [|done].
  injection H as <- <-. bool_hyps. exists r. unfold entry_valid, holds. cbn.
  repeat split; try done; [by apply bytes_eqb_spec|by apply isOk_unit].
Qed.

Lemma collectEntry_ok L db now u c e r u' :
  entry_valid L db e r -> addReservation now r u = Ok u' ->
  collectEntry L db now (u, c) e = Ok (u', c + 1).
Proof.
  intros ([Hk Hd] & Hv & Ha) Hadd. destruct e as [k v]. cbn in Hk, Hd. subst k.
  pose proof (decodeReservation_stored _ _ Hd) as Hs. pose proof (rs_id r Hs) as Hid.
  unfold collectEntry. unfold len, isHash in *. rewrite Hid, Hd. cbn [errOr negb].
  rewrite bytes_eqb_refl, Hv, Ha, bool_decide_eq_true_2, Hadd by done. done.
Qed.

Lemma collect_sound L db now es u0 c0 u c rs0 :
  foldM (collectEntry L db now) es (u0, c0) = Ok (u, c) ->
  Forall reservation_stored rs0 -> agrees now rs0 u0 -> fits rs0 ->
  exists rs, Forall2 (entry_valid L db) es rs /\ agrees now (rs0 ++ rs) u /\ fits (rs0 ++ rs) /\
    c = c0 + Z.of_nat (length rs).
Proof.
  revert u0 c0 rs0. induction es as [|e es IH]; intros u0 c0 rs0 Hf Hs Hag Hfit; cbn [foldM] in Hf.
  - injection Hf as <- <-. exists []. rewrite app_nil_r. split; [constructor|].
    split; [exact Hag|]. split; [exact Hfit|]. cbn. lia.
  - destruct (collectEntry L db now (u0, c0) e) as [[u1 c1]|] eqn:E; [|done].
    apply collectEntry_inv in E as (r & Hv & Hadd & ->).
    assert (Hs' : Forall reservation_stored (rs0 ++ [r])).
    { apply Forall_app. split; [done|]. apply Forall_singleton. eapply holds_stored, Hv. }
    pose proof (addReservation_fits now r u0 u1 rs0 Hs' Hag Hfit Hadd) as Hfit'.
    destruct (addReservation_ok now r u0 rs0 Hs' Hag Hfit') as (u1' & E1 & Hag').
    { eapply validateReservation_state, Hv. }
    rewrite Hadd in E1. injection E1 as <-.
    destruct (IH u1 (c0 + 1) (rs0 ++ [r]) Hf Hs' Hag' Hfit') as (rs & H1 & H2 & H3 & ->).
    rewrite <- app_assoc in H2, H3. exists (r :: rs).
    split; [by constructor|]. split; [exact H2|]. split; [exact H3|]. cbn [length]. lia.
Qed.

Lemma collect_complete L db now es rs u0 c0 rs0 :
  Forall2 (entry_valid L db) es rs ->
  Forall reservation_stored rs0 -> agrees now rs0 u0 -> fits (rs0 ++ rs) ->
  exists u, foldM (collectEntry L db now) es (u0, c0) = Ok (u, c0 + Z.of_nat (length rs)) /\
    agrees now (rs0 ++ rs) u.
Proof.
  intros H. revert u0 c0 rs0. induction H as [|e r es rs Hv Hall IH]; intros u0 c0 rs0 Hs Hag Hf.
  - exists u0. cbn. rewrite app_nil_r, Z.add_0_r. done.
  - assert (Hs' : Forall reservation_stored (rs0 ++ [r])).
    { apply Forall_app. split; [done|]. apply Forall_singleton. eapply holds_stored, Hv. }
    assert (Hsr : Forall reservation_stored rs).
    { apply Forall_forall. intros x Hx. destruct (Forall2_in_r _ _ _ _ Hall Hx) as (e' & _ & He').
      eapply holds_stored, He'. }
    rewrite (cons_middle r rs0 rs), app_assoc in Hf |- *.
    assert (Hf1 : fits (rs0 ++ [r])) by (eapply fits_prefix; [|exact Hf]; by apply Forall_app).
    destruct (addReservation_ok now r u0 rs0 Hs' Hag Hf1) as (u1 & E1 & Hag1).
    { eapply validateReservation_state, Hv. }
    cbn [foldM]. rewrite (collectEntry_ok L db now u0 c0 e r u1 Hv E1).
    destruct (IH u1 (c0 + 1) (rs0 ++ [r]) Hs' Hag1 Hf) as (u & E & Hu).
    exists u. split; [|done]. rewrite E. do 2 f_equal. cbn [length]. lia.
Qed.

Lemma checkAttempts_count db es c0 c :
  foldM (checkAttemptEntry db) es c0 = Ok c -> c = c0 + Z.of_nat (length es).
Proof.
  revert c0. induction es as [|[k v] es IH]; intros c0 H; cbn [foldM] in H; [injection H as <-; cbn; lia|].
  destruct (checkAttemptEntry db c0 (k, v)) as [c1|] eqn:E; [|done]. apply IH in H as ->.
  unfold checkAttemptEntry in E. inv_result E. cbn [length]. lia.
Qed.

End Loops.

(** ** Consistent databases *)

Section Database.
Context `{BL : BoltLaws}.

Lemma consistent_stored L db rs : Consistent L db rs -> Forall reservation_stored rs.
Proof.
  intros [He _ _ _]. apply Forall_forall. intros r Hr.
  destruct (Forall2_in_r _ _ _ _ He Hr) as (e & _ & H). by eapply holds_stored.
Qed.

Lemma holds_keys es rs : Forall2 holds es rs -> map fst es = map Res_ID rs.
Proof.
  induction 1 as [|[k v] r es rs [Hk _] _ IH]; [done|]. cbn in Hk |- *. by rewrite Hk, IH.
Qed.

Lemma consistent_ids L db rs : Consistent L db rs -> NoDup (map Res_ID rs).
Proof. intros [He _ _ _]. rewrite <- (holds_keys _ _ He). apply b_entries_keys_nodup. Qed.

(** Records of the list are exactly what the bucket returns. *)
Lemma consistent_lookup L db rs r :
  Consistent L db rs -> r ∈ rs ->
  exists data, b_get (db_reservations db) (Res_ID r) = Some data /\ decodeReservation data = Ok r.
Proof.
  intros [He _ _ _] Hr. destruct (Forall2_in_r _ _ _ _ He Hr) as ([k v] & Hin & Hk & Hd).
  cbn in Hk, Hd. subst k. exists v. by rewrite <- bl_entries_get.
Qed.

Lemma consistent_get L db rs id data :
  Consistent L db rs -> b_get (db_reservations db) id = Some data ->
  exists r, r ∈ rs /\ Res_ID r = id /\ decodeReservation data = Ok r.
Proof.
  intros [He _ _ _] Hg%bl_entries_get. destruct (Forall2_in_l _ _ _ _ He Hg) as (r & Hr & Hk & Hd).
  cbn in Hk, Hd. by exists r.
Qed.

Lemma consistent_attempt L db rs r :
  Consistent L db rs -> r ∈ rs ->
  b_get (db_attempts db) (attemptKey (Req_Attempt (Res_Request r))) = Some (Res_ID r).
Proof.
  intros [_ _ Ha _] Hr. apply bl_entries_get. rewrite Ha. apply list_elem_of_fmap. by exists r.
Qed.

Lemma consistent_attempt_inv L db rs k id :
  Consistent L db rs -> b_get (db_attempts db) k = Some id ->
  exists r, r ∈ rs /\ k = attemptKey (Req_Attempt (Res_Request r)) /\ id = Res_ID r.
Proof.
  intros [_ _ Ha _] Hg%bl_entries_get. rewrite Ha in Hg. apply list_elem_of_fmap in Hg as (r & [= -> ->] & Hr).
  by exists r.
Qed.

Lemma consistent_attempts_nodup (rs : list Reservation) :
  NoDup (map Res_ID rs) -> NoDup (map attempt_entry rs).
Proof.
  intros H. apply (NoDup_fmap_1 snd). rewrite <- list_fmap_compose. exact H.
Qed.

Lemma agrees_nil now : agrees now [] (mkAggregate zeroUsage ∅ ∅).
Proof.
  constructor; cbn [usage_global usage_networks usage_sponsors]; [done| |];
    intros x; by rewrite lookup_empty.
Qed.

(** Every stored record is counted: a successful run reads a consistent
    database, its sums are the reference sums and the limits hold. *)
Lemma collectUsage_sound L db now u :
  collectUsage L db now = Ok u ->
  exists rs, Consistent L db rs /\ fits rs /\ agrees now rs u /\ within_limits L now rs.
Proof.
  unfold collectUsage. intros H.
  destruct (foldM _ (b_entries (db_reservations db)) _) as [[u1 c]|] eqn:E1; [|done].
  destruct (errOr _ (foldM _ (b_entries (db_attempts db)) 0)) as [ca|] eqn:E2; [|done].
  destruct (negb (ca =? c)) eqn:Ec; [done|]. destruct (L_maxRecords L <? c) eqn:Em; [done|].
  destruct (negb (scopeWithinLimits _ _)) eqn:Eg; [done|]. destruct (negb (forallb _ _)) eqn:En; [done|].
  injection H as ->. bool_hyps.
  destruct (collect_sound L db now _ _ _ _ _ [] E1) as (rs & Hf & Hag & Hfit & Hc);
    [constructor|apply agrees_nil|done|].
  cbn [app] in Hag, Hfit. exists rs.
  assert (Hh : Forall2 holds (b_entries (db_reservations db)) rs) by (eapply Forall2_impl; [exact Hf|]; by intros ?? []).
  split; [|split; [exact Hfit|split; [exact Hag|]]].
  - constructor; [done| | |lia].
    + apply Forall_forall. intros r Hr. destruct (Forall2_in_r _ _ _ _ Hf Hr) as (e & _ & _ & Hv & _). done.
    + symmetry. apply submseteq_length_Permutation.
      * apply NoDup_submseteq.
        { apply consistent_attempts_nodup. rewrite <- (holds_keys _ _ Hh). apply b_entries_keys_nodup. }
        intros e (r & -> & Hr)%list_elem_of_fmap. destruct (Forall2_in_r _ _ _ _ Hf Hr) as (e & _ & _ & _ & Ha).
        by apply bl_entries_get.
      * destruct (foldM _ (b_entries (db_attempts db)) 0) as [ca'|] eqn:E3; [|done]. injection E2 as ->.
        apply checkAttempts_count in E3. rewrite length_map. lia.
  - split; [by rewrite <- (ag_global _ _ _ Hag)|]. intros n np Hn.
    rewrite forallb_forall in En. specialize (En (n, np)). rewrite <- (ag_network _ _ _ Hag). apply En.
    apply list_elem_of_In. by apply elem_of_map_to_list.
Qed.

Lemma checkAttempts_ok db es c0 :
  (forall e, e ∈ es -> forall c, checkAttemptEntry db c e = Ok (c + 1)) ->
  foldM (checkAttemptEntry db) es c0 = Ok (c0 + Z.of_nat (length es)).
Proof.
  revert c0. induction es as [|e es IH]; intros c0 H; cbn [foldM length]; [f_equal; lia|].
  rewrite (H e) by left. rewrite IH by (intros; apply H; by right). f_equal. lia.
Qed.

(** A consistent database within its limits is accepted. *)
Lemma collectUsage_complete L db now rs :
  Consistent L db rs -> fits rs -> within_limits L now rs ->
  exists u, collectUsage L db now = Ok u /\ agrees now rs u.
Proof.
  intros Hc Hfit [Hg Hn]. pose proof (consistent_stored _ _ _ Hc) as Hs.
  destruct (collect_complete L db now (b_entries (db_reservations db)) rs (mkAggregate zeroUsage ∅ ∅) 0 [])
    as (u & E1 & Hag); [|constructor|apply agrees_nil|exact Hfit|].
  { apply Forall2_same_length_lookup_2; [by eapply Forall2_length, Hc|]. intros i e r He Hr.
    assert (Hin : r ∈ rs) by (by eapply list_elem_of_lookup_2).
    split; [by apply (Forall2_lookup_lr _ _ _ _ _ _ (c_entries _ _ _ Hc) He Hr)|].
    split; [|by eapply consistent_attempt]. pose proof (c_valid _ _ _ Hc) as Hv. rewrite Forall_forall in Hv. by apply Hv. }
  cbn [app] in Hag. exists u. split; [|done]. unfold collectUsage. rewrite E1.
  rewrite checkAttempts_ok.
  - rewrite (Permutation_length (c_attempts _ _ _ Hc)), length_map. cbn [errOr].
    rewrite Z.eqb_refl. cbn [negb].
    replace (L_maxRecords L <? _) with false by (symmetry; apply Z.ltb_ge; pose proof (c_count _ _ _ Hc); lia).
    rewrite (ag_global _ _ _ Hag), Hg. cbn [negb].
    replace (forallb _ _) with true; [done|]. symmetry. apply forallb_forall.
    intros [n np] Hin%list_elem_of_In%elem_of_map_to_list. rewrite (ag_network _ _ _ Hag). by apply Hn.
  - intros [k id] Hin c. rewrite (c_attempts _ _ _ Hc) in Hin.
    apply list_elem_of_fmap in Hin as (r & [= -> ->] & Hr).
    destruct (consistent_lookup _ _ _ _ Hc Hr) as (data & Hg' & Hd).
    rewrite Forall_forall in Hs. specialize (Hs r Hr). pose proof (c_valid _ _ _ Hc) as Hv.
    rewrite Forall_forall in Hv. specialize (Hv r Hr).
    unfold checkAttemptEntry. rewrite attemptKey_roundtrip by apply Hs.
    rewrite (validateRequest_attempt L) by (by apply validateReservation_request).
    unfold len. rewrite (rs_id r Hs), Hg'. change (default [] (Some data)) with data. rewrite Hd. cbn [errOr].
    rewrite bool_decide_eq_true_2, bytes_eqb_refl by done. done.
Qed.

End Database.

(** ** Limits over time *)

Lemma fitsExisting_spec limit spent held :
  inU 256 limit -> 0 <= spent -> (fitsExisting limit spent held = true <-> spent + held <= limit /\ spent <= limit).
Proof.
  intros Hl Hs. unfold fitsExisting, u256_Gt. destruct (limit <? spent) eqn:E; bool_hyps.
  - split; [done|lia].
  - rewrite u256_Sub_ok by (unfold inU in *; lia). rewrite negb_true_iff, Z.ltb_ge. lia.
Qed.

Lemma hasCapacity_spec limit spent held requested :
  inU 256 limit -> 0 <= spent -> 0 <= held -> 0 <= requested ->
  (hasCapacity limit spent held requested = true <-> spent + held + requested <= limit).
Proof.
  intros Hl Hs Hh Hr. unfold hasCapacity, u256_Gt. destruct (limit <? spent) eqn:E; bool_hyps.
  - split; [done|lia].
  - rewrite (u256_Sub_ok limit spent) by (unfold inU in *; lia).
    destruct (limit - spent <? held) eqn:E2; bool_hyps; [split; [done|lia]|].
    rewrite u256_Sub_ok by (unfold inU in *; lia). rewrite negb_true_iff, Z.ltb_ge. lia.
Qed.

Lemma hasCapacity_ok limit spent held requested :
  inU 256 limit -> 0 <= spent /\ 0 <= held /\ 0 <= requested -> spent + held + requested <= limit ->
  hasCapacity limit spent held requested = true.
Proof. intros ? (? & ? & ?) ?. by apply hasCapacity_spec. Qed.

Lemma remaining_spec limit spent held :
  inU 256 limit -> 0 <= spent -> 0 <= held ->
  remaining limit spent held = if decide (spent + held <= limit) then Some (limit - spent - held) else None.
Proof.
  intros Hl Hs Hh. unfold remaining, u256_Gt. destruct (limit <? spent) eqn:E; bool_hyps.
  - by rewrite decide_False by lia.
  - rewrite (u256_Sub_ok limit spent) by (unfold inU in *; lia).
    destruct (limit - spent <? held) eqn:E2; bool_hyps; [by rewrite decide_False by lia|].
    rewrite decide_True by lia. by rewrite u256_Sub_ok by (unfold inU in *; lia).
Qed.

(** The numeric content of [scopeWithinLimits]. *)
Definition scope_fits (limits : Limits) (u : scopeUsage) : Prop :=
  hourSpent u + reserved u <= PerHour limits /\
  daySpent u + reserved u <= PerDay limits /\
  allSpent u + reserved u <= Cumulative limits.

Lemma scopeWithinLimits_spec limits now rs :
  limits_typed limits -> Forall reservation_stored rs -> fits rs ->
  (scopeWithinLimits limits (scope_of now rs) = true <->
   existsb overrun rs = true \/ scope_fits limits (scope_of now rs)).
Proof.
  intros [] Hs Hf. pose proof (sums_range now rs Hs Hf) as (Ho & Ha & Hh & Hd).
  unfold scopeWithinLimits, scope_fits, scope_of, inU in *. cbn [feeOverrun hourSpent daySpent allSpent reserved].
  destruct (existsb overrun rs); [tauto|].
  rewrite !andb_true_iff, !fitsExisting_spec by (unfold inU; lia). split; [intros; right; lia|].
  intros [?|?]; [done|lia].
Qed.

(** Instants from one second after the epoch on: where cutoffs do not saturate. *)
Definition after_start (t : Time) : Prop := time_ok t /\ unixTime 1 0 <= t.

Lemma cutoff_mono t t' :
  after_start t -> after_start t' -> t <= t' -> hourCutoff t <= hourCutoff t' /\ dayCutoff t <= dayCutoff t'.
Proof.
  intros [Ht Hs] [Ht' Hs'] Hle. change (unixTime 1 0) with 62135596801000000000 in *.
  unfold hourCutoff, dayCutoff. rewrite !Add_back by (try done; unfold Hour, Minute, Second; lia). lia.
Qed.

(** Time only relaxes the limits: what fits now fits later. *)
Lemma within_limits_later L t t' rs :
  (forall n np, L_networks L !! n = Some np -> limits_typed (NP_Limits np)) ->
  limits_typed (Policy_Global (L_policy L)) ->
  Forall reservation_stored rs -> fits rs -> after_start t -> after_start t' -> t <= t' ->
  within_limits L t rs -> within_limits L t' rs.
Proof.
  intros HLn HLg Hs Hf Ht Ht' Hle [Hg Hn]. destruct (cutoff_mono t t' Ht Ht' Hle) as [Hh Hd].
  assert (Hone : forall limits l, limits_typed limits -> Forall reservation_stored l -> fits l ->
    scopeWithinLimits limits (scope_of t l) = true -> scopeWithinLimits limits (scope_of t' l) = true).
  { intros limits l Hty Hsl Hfl. rewrite !scopeWithinLimits_spec by done. intros [?|Hfit]; [by left|right].
    rewrite Forall_forall in Hsl.
    assert (Hm : forall c c', c <= c' -> sumZ (spent_since c') l <= sumZ (spent_since c) l).
    { intros c c' Hc. apply sumZ_mono. intros r Hr. apply spent_since_mono; [by apply Hsl|done]. }
    pose proof (Hm _ _ Hh). pose proof (Hm _ _ Hd). unfold scope_fits, scope_of in *. cbn in *. lia. }
  split; [by apply Hone|]. intros n np Hnp. apply Hone; [by eapply HLn|by apply Forall_filter_sub|by apply fits_sub|].
  by apply Hn.
Qed.

Arguments scope_of : simpl never.
Arguments on_network : simpl never.
Arguments on_sponsor : simpl never.

End BudgetUsage.
Export BudgetUsage.
