(* ===== verification/BudgetSpec.v ===== *)
(** * The budget ledger's contract and its invariant

    The abstract ledger is a collection of reservations and a clock that never
    goes back.  [budget_admits] says in plain arithmetic when a new maximum may
    be held; [spec_step] lists the moves of the abstract ledger.  [Inv] relates
    a bbolt database to an abstract ledger: the buckets hold exactly the valid
    reservations, the totals fit in 256 bits, no record is stamped later than
    the stored clock and every limit holds from that clock on. *)

From S2P Require Import Prelude GoTime Bytes Sha256 Domain Bolt BudgetModel BudgetCodec BudgetLedger BudgetUsage.

Module BudgetSpec.

(** ** Types *)

Record ledger_typed (L : BudgetLedger) : Prop := {
  lt_global : limits_typed (Policy_Global (L_policy L));
  lt_network n np : L_networks L !! n = Some np -> NP_Network np = n /\ 0 < n /\ network_typed np;
  lt_records : inU 32 (L_maxRecords L) }.

(** No network may charge more than its reservation. *)
Definition bounded (L : BudgetLedger) : Prop :=
  forall n np, L_networks L !! n = Some np -> NP_AllowFeeOverrun np = false.

(** ** The abstract ledger *)

(** A scope (global or one network) can take [m] more. *)
Definition scope_admits (limits : Limits) (u : scopeUsage) (m : Z) : Prop :=
  feeOverrun u = false /\ m <= PerTransaction limits /\
  hourSpent u + reserved u + m <= PerHour limits /\
  daySpent u + reserved u + m <= PerDay limits /\
  allSpent u + reserved u + m <= Cumulative limits.

(** The sponsor keeps its emergency reserve after all open reservations and [m]. *)
Definition sponsor_admits (L : BudgetLedger) (rs : list Reservation) (q : ReservationRequest) (balance m : Z) : Prop :=
  NP_EmergencySponsorReserve (networkPolicy L (Req_Network q))
    + sumZ open_amount (on_sponsor (Req_Network q, Req_Sponsor q) rs) + m <= balance.

Record budget_admits (L : BudgetLedger) (now : Time) (rs : list Reservation) (q : ReservationRequest) (m : Z) : Prop := {
  ba_global : scope_admits (Policy_Global (L_policy L)) (scope_of now rs) m;
  ba_network : scope_admits (NP_Limits (networkPolicy L (Req_Network q)))
                 (scope_of now (on_network (Req_Network q) rs)) m;
  ba_sponsor : sponsor_admits L rs q (Req_SponsorBalance q) m }.

Definition attempt_of (r : Reservation) : Attempt := Req_Attempt (Res_Request r).

Definition heldFrom (L : BudgetLedger) (q : ReservationRequest) (m : Z) (now : Time) : Reservation :=
  mkReservation (NewReservationID (Req_Attempt q)) q m ReservationHeld zeroHash 0 now zeroTime now.

(** The record purged to make room: released, and the oldest such. *)
Definition oldest_released (rs : list Reservation) (p : Reservation) : Prop :=
  p ∈ rs /\ Res_State p = ReservationReleased /\
  forall x, x ∈ rs -> Res_State x = ReservationReleased ->
    Res_UpdatedAt p < Res_UpdatedAt x \/
    (Res_UpdatedAt p = Res_UpdatedAt x /\ bytes_ltb (Res_ID x) (Res_ID p) = false).

(** [spec_reserve L rs now q r rs']: reserving for request [q] at time [now]
    answers [r] and leaves [rs']. *)
Inductive spec_reserve (L : BudgetLedger) (rs : list Reservation) (now : Time) (q : ReservationRequest)
    : Reservation -> list Reservation -> Prop :=
| spec_reserve_again r :
    r ∈ rs -> sameReservationRequest (Res_Request r) q = true -> Res_State r <> ReservationReleased ->
    spec_reserve L rs now q r rs
| spec_reserve_released old rest m :
    rs ≡ₚ old :: rest -> sameReservationRequest (Res_Request old) q = true ->
    Res_State old = ReservationReleased -> Res_Maximum old = m ->
    CostQuote_Maximum (Req_Quote q) (NP_TransactionOverhead (networkPolicy L (Req_Network q))) = Ok m ->
    budget_admits L now rs q m ->
    spec_reserve L rs now q (heldFrom L q m now) (heldFrom L q m now :: rest)
| spec_reserve_new purged kept m :
    (forall x, x ∈ rs -> attempt_of x <> Req_Attempt q) ->
    rs ≡ₚ purged ++ kept ->
    (Z.of_nat (length rs) < L_maxRecords L /\ purged = [] \/
     L_maxRecords L <= Z.of_nat (length rs) /\ exists p, purged = [p] /\ oldest_released rs p) ->
    CostQuote_Maximum (Req_Quote q) (NP_TransactionOverhead (networkPolicy L (Req_Network q))) = Ok m ->
    budget_admits L now rs q m ->
    spec_reserve L rs now q (heldFrom L q m now) (heldFrom L q m now :: kept).

(** The moves of one reservation: [spec_move L now r r']. *)
Inductive spec_move (L : BudgetLedger) (now : Time) : Reservation -> Reservation -> Prop :=
| spec_expose r tx :
    Res_State r = ReservationHeld -> is_zero_bytes tx = false ->
    spec_move L now r (mkReservation (Res_ID r) (Res_Request r) (Res_Maximum r) ReservationExposed tx
                         (Res_Actual r) (Res_CreatedAt r) now now)
| spec_commit r actual :
    Res_State r = ReservationExposed -> 0 < actual ->
    (actual <= Res_Maximum r \/ NP_AllowFeeOverrun (networkPolicy L (Req_Network (Res_Request r))) = true) ->
    spec_move L now r (mkReservation (Res_ID r) (Res_Request r) (Res_Maximum r) ReservationCommitted (Res_TxHash r)
                         actual (Res_CreatedAt r) (Res_ExposedAt r) now)
| spec_release r :
    Res_State r = ReservationHeld ->
    spec_move L now r (mkReservation (Res_ID r) (Res_Request r) (Res_Maximum r) ReservationReleased (Res_TxHash r)
                         (Res_Actual r) (Res_CreatedAt r) (Res_ExposedAt r) now)
| spec_balance r balance :
    Res_State r = ReservationHeld -> 0 < balance ->
    spec_move L now r (withBalance r balance).

(** One step of the abstract ledger, from clock [t] to clock [now]. *)
Inductive spec_step (L : BudgetLedger) : list Reservation -> Time -> list Reservation -> Time -> Prop :=
| spec_step_reserve rs t now q r rs' rs'' :
    t <= now -> spec_reserve L rs now q r rs' -> rs'' ≡ₚ rs' -> spec_step L rs t rs'' now
| spec_step_move rs t now r r' rest rs' :
    t <= now -> spec_move L now r r' -> rs ≡ₚ r :: rest -> rs' ≡ₚ r' :: rest -> spec_step L rs t rs' now
| spec_step_idle rs t now : t <= now -> spec_step L rs t rs now.

(** ** The invariant *)

Section Invariant.
Context {B : Bolt}.

Record Inv (L : BudgetLedger) (db : LedgerDB) (rs : list Reservation) (lastSeen : Time) : Prop := {
  i_cons : Consistent L db rs;
  i_fits : fits rs;
  i_last : decodeStoredTime (b_get (db_meta db) ledgerLastSeenKey) = Ok lastSeen;
  i_start : after_start lastSeen;
  i_limits : within_limits L lastSeen rs;
  i_times : Forall (fun r => Res_UpdatedAt r <= lastSeen) rs }.

Definition LedgerInv (L : BudgetLedger) (db : LedgerDB) : Prop := exists rs t, Inv L db rs t.

End Invariant.

(** ** Lemmas: admission *)

Lemma checkScopeBudget_spec limits now rs m :
  limits_typed limits -> Forall reservation_stored rs -> fits rs -> 0 <= m ->
  (checkScopeBudget limits (scope_of now rs) m = Ok tt <-> scope_admits limits (scope_of now rs) m).
Proof.
  intros [] Hs Hf Hm. pose proof (sums_range now rs Hs Hf) as (Ho & Ha & Hh & Hd).
  unfold checkScopeBudget, scope_admits, scope_of, inU, u256_Gt in *.
  cbn [feeOverrun hourSpent daySpent allSpent reserved].
  destruct (_ || _) eqn:E.
  - split; [done|]. intros (H1 & H2 & H3 & H4 & H5). exfalso. revert E.
    rewrite H1, !hasCapacity_ok by (unfold inU; lia). cbn.
    rewrite !orb_false_r. intros E. bool_hyps. lia.
  - split; [intros _|done]. bool_hyps.
    repeat match goal with H : hasCapacity _ _ _ _ = true |- _ => apply hasCapacity_spec in H; [|unfold inU; lia..] end.
    repeat split; try done; lia.
Qed.

Lemma sponsorHasCapacity_spec balance emergency held requested :
  inU 256 balance -> 0 <= emergency -> 0 <= held -> 0 <= requested ->
  (sponsorHasCapacity balance emergency held requested = true <-> emergency + held + requested <= balance).
Proof. apply hasCapacity_spec. Qed.

Lemma networkPolicy_lookup L n np : L_networks L !! n = Some np -> networkPolicy L n = np.
Proof. intros H. unfold networkPolicy. by rewrite H. Qed.

Lemma validateRequest_network L q :
  validateRequest L q = Ok tt -> exists np, L_networks L !! Req_Network q = Some np.
Proof. unfold validateRequest. destruct (L_networks L !! Req_Network q); [eauto|done]. Qed.

(** The checks of [Reserve] are the arithmetic of [budget_admits]. *)
Lemma admitMaximum_spec L now rs u q m :
  ledger_typed L -> validateRequest L q = Ok tt -> quote_typed (Req_Quote q) -> inU 256 (Req_SponsorBalance q) ->
  Forall reservation_stored rs -> fits rs -> agrees now rs u ->
  (admitMaximum L u q = Ok m <->
   CostQuote_Maximum (Req_Quote q) (NP_TransactionOverhead (networkPolicy L (Req_Network q))) = Ok m /\
   budget_admits L now rs q m).
Proof.
  intros HL Hv Hq Hbal Hs Hf Hag. destruct (validateRequest_network _ _ Hv) as (np & Hnp).
  destruct (lt_network L HL _ _ Hnp) as (_ & _ & Hnt). destruct Hnt as [_ _ Hlim Hov Hem].
  pose proof (networkPolicy_lookup _ _ _ Hnp) as Hpol.
  unfold admitMaximum. cbv zeta. rewrite Hpol, (ag_global _ _ _ Hag), (ag_network _ _ _ Hag), (ag_sponsor _ _ _ Hag).
  destruct (CostQuote_Maximum _ _) as [m'|e] eqn:Em; [|split; [done|by intros [? _]]].
  pose proof (Maximum_covers _ _ _ Hq Hov Em) as [Hpos Hrange].
  assert (Hsn : Forall reservation_stored (on_network (Req_Network q) rs)) by by apply Forall_filter_sub.
  assert (Hfn : fits (on_network (Req_Network q) rs)) by by apply fits_sub.
  pose proof (checkScopeBudget_spec (Policy_Global (L_policy L)) now rs m' (lt_global L HL) Hs Hf ltac:(lia)) as Hg.
  pose proof (checkScopeBudget_spec (NP_Limits np) now _ m' Hlim Hsn Hfn ltac:(lia)) as Hn.
  assert (Hsp0 : 0 <= sumZ open_amount (on_sponsor (Req_Network q, Req_Sponsor q) rs)).
  { apply sumZ_nonneg. intros r [_ Hr]%list_elem_of_filter. rewrite Forall_forall in Hs. by apply open_amount_nonneg, Hs. }
  pose proof (sponsorHasCapacity_spec (Req_SponsorBalance q) (NP_EmergencySponsorReserve np) _ m'
    Hbal ltac:(unfold inU in *; lia) Hsp0 ltac:(lia)) as Hsp.
  destruct (checkScopeBudget (Policy_Global _) _ m') as [[]|e1].
  2:{ split; [done|]. intros [[= <-] [H1 _ _]]. by apply Hg in H1. }
  destruct (checkScopeBudget (NP_Limits np) _ m') as [[]|e2].
  2:{ split; [done|]. intros [[= <-] [_ H1 _]]. rewrite Hpol in H1. by apply Hn in H1. }
  destruct (sponsorHasCapacity _ _ _ m'); cbn [negb].
  2:{ split; [done|]. intros [[= <-] [_ _ H1]]. unfold sponsor_admits in H1. rewrite Hpol in H1. by apply Hsp in H1. }
  split.
  - intros [= <-]. split; [done|]. constructor.
    + by apply Hg.
    + rewrite Hpol. by apply Hn.
    + unfold sponsor_admits. rewrite Hpol. by apply Hsp.
  - by intros [[= <-] _].
Qed.

(** ** Lemmas: limits after a change of one record *)

Lemma on_network_cons n r rs :
  on_network n (r :: rs) = if decide (Req_Network (Res_Request r) = n) then r :: on_network n rs else on_network n rs.
Proof. unfold on_network. by rewrite filter_cons. Qed.

Lemma scope_of_cons now r rs :
  scope_of now (r :: rs) =
    let u := scope_of now rs in
    mkUsage (overrun r || feeOverrun u) (open_amount r + reserved u)
      (spent_since (hourCutoff now) r + hourSpent u) (spent_since (dayCutoff now) r + daySpent u)
      (spent_amount r + allSpent u).
Proof. unfold scope_of. by rewrite !sumZ_cons. Qed.

(** Holding an admitted maximum keeps the limits. *)
Lemma admits_within limits now rs r m :
  limits_typed limits -> Forall reservation_stored (r :: rs) -> fits (r :: rs) ->
  Res_State r = ReservationHeld -> Res_Maximum r = m -> scope_admits limits (scope_of now rs) m ->
  scopeWithinLimits limits (scope_of now (r :: rs)) = true.
Proof.
  intros Hl Hs Hf Hst Hm Had. apply scopeWithinLimits_spec; [done..|]. right.
  rewrite scope_of_cons. unfold scope_fits, scope_admits in *.
  cbn [hourSpent daySpent allSpent reserved feeOverrun] in *.
  unfold open_amount, spent_since, spent_amount. rewrite !isCommitted_state, Hst. cbn. lia.
Qed.

(** A record may be replaced when its footprint does not grow, or when it overran. *)
Definition footprint_le (now : Time) (r' r : Reservation) : Prop :=
  overrun r = false /\
  open_amount r' + spent_since (hourCutoff now) r' <= open_amount r + spent_since (hourCutoff now) r /\
  open_amount r' + spent_since (dayCutoff now) r' <= open_amount r + spent_since (dayCutoff now) r /\
  open_amount r' + spent_amount r' <= open_amount r + spent_amount r.

Lemma replace_within limits now r r' rest :
  limits_typed limits -> Forall reservation_stored (r :: rest) -> Forall reservation_stored (r' :: rest) ->
  fits (r :: rest) -> fits (r' :: rest) ->
  (overrun r' = true \/ footprint_le now r' r) ->
  scopeWithinLimits limits (scope_of now (r :: rest)) = true ->
  scopeWithinLimits limits (scope_of now (r' :: rest)) = true.
Proof.
  intros Hl Hs Hs' Hf Hf' Hcase. rewrite !scopeWithinLimits_spec by done. cbn [existsb].
  destruct Hcase as [->|Hfp]; [by left|].
  destruct Hfp as (Hno & Hh & Hd & Ha). rewrite Hno. cbn [orb]. intros [Hov|Hfit]; [left; by rewrite Hov, orb_true_r|].
  right. rewrite scope_of_cons in Hfit |- *. unfold scope_fits in *.
  cbn [hourSpent daySpent allSpent reserved] in *. lia.
Qed.

Lemma within_limits_replace L now r r' rest :
  ledger_typed L -> Forall reservation_stored (r :: rest) -> Forall reservation_stored (r' :: rest) ->
  fits (r :: rest) -> fits (r' :: rest) ->
  Req_Network (Res_Request r') = Req_Network (Res_Request r) ->
  (overrun r' = true \/ footprint_le now r' r) ->
  within_limits L now (r :: rest) -> within_limits L now (r' :: rest).
Proof.
  intros HL Hs Hs' Hf Hf' Hnet Hcase [Hg Hn].
  split; [apply (replace_within _ now r r' rest); auto; apply HL|]. intros n np Hnp.
  specialize (Hn n np Hnp). rewrite on_network_cons in Hn |- *. rewrite Hnet.
  case_decide as Hd; [|done]. destruct (lt_network L HL _ _ Hnp) as (_ & _ & Hnt).
  assert (Hsub : forall x, Req_Network (Res_Request x) = n -> Forall reservation_stored (x :: rest) -> fits (x :: rest) ->
    Forall reservation_stored (x :: on_network n rest) /\ fits (x :: on_network n rest)).
  { intros x Hx Hsx Hfx.
    pose proof (Forall_filter_sub _ (fun y => Req_Network (Res_Request y) = n) _ Hsx) as H1.
    pose proof (fits_sub (fun y => Req_Network (Res_Request y) = n) _ Hsx Hfx) as H2.
    rewrite filter_cons_True in H1, H2 by done. done. }
  destruct (Hsub r Hd Hs Hf). destruct (Hsub r' ltac:(congruence) Hs' Hf').
  apply (replace_within _ now r r'); auto. apply Hnt.
Qed.

Lemma within_limits_hold L now rs q m t :
  ledger_typed L -> Forall reservation_stored (heldFrom L q m t :: rs) -> fits (heldFrom L q m t :: rs) ->
  scope_admits (Policy_Global (L_policy L)) (scope_of now rs) m ->
  scope_admits (NP_Limits (networkPolicy L (Req_Network q))) (scope_of now (on_network (Req_Network q) rs)) m ->
  within_limits L now rs -> within_limits L now (heldFrom L q m t :: rs).
Proof.
  intros HL Hs Hf Hag Han [Hg Hn]. split; [by apply (admits_within _ now rs _ m (lt_global L HL))|].
  intros n np Hnp. rewrite on_network_cons. cbn [heldFrom Res_Request]. case_decide as Hd; [|by apply Hn].
  subst n. destruct (lt_network L HL _ _ Hnp) as (_ & _ & Hnt). rewrite (networkPolicy_lookup _ _ _ Hnp) in Han.
  pose proof (Forall_filter_sub _ (fun y => Req_Network (Res_Request y) = Req_Network q) _ Hs) as H1.
  pose proof (fits_sub (fun y => Req_Network (Res_Request y) = Req_Network q) _ Hs Hf) as H2.
  rewrite filter_cons_True in H1, H2 by done.
  eapply admits_within; [apply Hnt|exact H1|exact H2|done|done|exact Han].
Qed.

(** Dropping a released record changes no sum. *)
Lemma scope_of_released now p rs :
  Res_State p = ReservationReleased -> scope_of now (p :: rs) = scope_of now rs.
Proof.
  intros Hst. rewrite scope_of_cons. unfold overrun, open_amount, spent_since, spent_amount.
  rewrite !isCommitted_state, Hst.
  cbn. by unfold scope_of.
Qed.

Lemma within_limits_drop L now p rs :
  Res_State p = ReservationReleased -> within_limits L now (p :: rs) -> within_limits L now rs.
Proof.
  intros Hst [Hg Hn]. split; [by rewrite scope_of_released in Hg|]. intros n np Hnp. specialize (Hn n np Hnp).
  rewrite on_network_cons in Hn. case_decide; [|done]. by rewrite scope_of_released in Hn.
Qed.

End BudgetSpec.
Export BudgetSpec.
