(* ===== verification/BudgetInvariant.v ===== *)
(** * The ledger's operations keep its invariant and implement its contract

    Each transaction that succeeds on a database representing an abstract
    ledger leaves a database representing the abstract ledger after a
    [spec_step]; a transaction that fails leaves the database unchanged.  From
    this follow the theorems of this file's last part: reachable ledgers never
    exceed a limit, spent and exposed money is never forgotten, and the
    functional behaviour of each operation. *)

From S2P Require Import Prelude GoTime Bytes Sha256 Domain Bolt BudgetModel BudgetCodec BudgetLedger BudgetUsage BudgetSpec.

Module BudgetInvariant.

(** ** Time *)

Lemma after_start_valid t : after_start t -> validPersistentTime t = true.
Proof.
  intros [Hok Hs]. change (unixTime 1 0) with 62135596801000000000 in Hs.
  assert (Hd : 62135596801 <= t / Second) by (apply Z.div_le_lower_bound; unfold Second; lia).
  unfold time_ok in Hok. apply validPersistentTime_spec. unfold zeroTime.
  assert (Hu : Unix t = t / Second - unixToInternal).
  { unfold Unix. apply int64_wrap_id. unfold unixToInternal. lia. }
  rewrite Hu. unfold unixToInternal. lia.
Qed.

Lemma decodeStoredTime_bytes t :
  time_ok t -> validPersistentTime t = true -> decodeStoredTime (Some (appendTime [] t)) = Ok t.
Proof.
  intros Hok Hv. rewrite appendTime_app. cbn [app].
  unfold decodeStoredTime. change (default [] (Some (time_bytes t))) with (time_bytes t).
  assert (Hlen : len (time_bytes t) = 12) by (unfold len; by rewrite length_time_bytes).
  pose proof (readTime_app t [] [] (validPersistentTime_storable t Hok Hv)) as H.
  cbn [app] in H. rewrite app_nil_r in H. change (len []) with 0 in H.
  rewrite H, Hlen, Hv. done.
Qed.

Lemma decodeStoredTime_ok data t : decodeStoredTime data = Ok t -> time_ok t /\ validPersistentTime t = true.
Proof.
  unfold decodeStoredTime. destruct (negb _); [done|].
  destruct (readTime _ 0) as [[v o]|] eqn:E; [|done]. destruct (_ || _) eqn:E2; [done|].
  intros [= <-]. bool_hyps. apply readTime_inv in E as [[? _] _]. done.
Qed.

Section Database.
Context `{BL : BoltLaws} (L : BudgetLedger) (HL : ledger_typed L).

Lemma limits_typed_networks n np : L_networks L !! n = Some np -> limits_typed (NP_Limits np).
Proof. intros H. apply (lt_network L HL _ _ H). Qed.

Lemma inv_stored db rs t : Inv L db rs t -> Forall reservation_stored rs.
Proof. intros H. eapply consistent_stored, H. Qed.

Lemma put_inv b k v b' : put b k v = Ok b' -> b_put b k v = Some b'.
Proof. unfold put. destruct (b_put b k v); congruence. Qed.

Lemma put_ok b k v : put_fits k v -> exists b', put b k v = Ok b' /\ b_put b k v = Some b'.
Proof. intros H. destruct (bl_put_fits b k v H) as (b' & E). exists b'. unfold put. by rewrite E. Qed.

(** Moving the clock forward keeps the invariant. *)
Lemma inv_later db rs t t' :
  Inv L db rs t -> after_start t' -> t <= t' ->
  decodeStoredTime (b_get (db_meta db) ledgerLastSeenKey) = Ok t' -> Inv L db rs t'.
Proof.
  intros Hi Hs Hle Hd. constructor; [apply Hi|apply Hi|done|done| |].
  - eapply within_limits_later; [exact limits_typed_networks|apply HL|by eapply inv_stored|apply Hi|apply Hi|done|done|apply Hi].
  - eapply Forall_impl; [exact (i_times _ _ _ _ Hi)|]. cbn. intros r Hr. lia.
Qed.

Lemma consistent_meta db rs m : Consistent L db rs -> Consistent L (withMeta db m) rs.
Proof. by intros []. Qed.

Lemma effectiveNow_inv db rs t obs now db' :
  Inv L db rs t -> time_ok obs -> effectiveNow db obs = Ok (now, db') ->
  Inv L db' rs now /\ t <= now /\ now = Z.max t obs /\
  db_reservations db' = db_reservations db /\ db_attempts db' = db_attempts db.
Proof.
  intros Hi Hobs. unfold effectiveNow. rewrite (i_last _ _ _ _ Hi). cbn [errOr]. unfold After.
  destruct (t <? obs) eqn:E; cbn [negb]; bool_hyps.
  - destruct (put _ _ _) as [m|] eqn:Ep; [|done]. intros [= <- <-]. apply put_inv in Ep.
    assert (Hst : after_start obs) by (split; [done|]; destruct (i_start _ _ _ _ Hi); lia).
    split; [|repeat split; lia].
    assert (Hd : decodeStoredTime (b_get m ledgerLastSeenKey) = Ok obs).
    { rewrite (b_get_put_eq _ _ _ _ Ep). apply decodeStoredTime_bytes; [done|by apply after_start_valid]. }
    constructor; [apply consistent_meta, Hi|apply Hi|exact Hd|exact Hst| |].
    + eapply within_limits_later; [exact limits_typed_networks|apply HL|by eapply inv_stored|apply Hi|apply Hi|done|lia|apply Hi].
    + eapply Forall_impl; [exact (i_times _ _ _ _ Hi)|]. cbn. intros r Hr. lia.
  - intros [= <- <-]. repeat split; try apply Hi; lia.
Qed.

Lemma effectiveNow_total db rs t obs :
  Inv L db rs t -> exists now db', effectiveNow db obs = Ok (now, db').
Proof.
  intros Hi. unfold effectiveNow. rewrite (i_last _ _ _ _ Hi). cbn [errOr].
  destruct (negb _); [eauto|].
  destruct (put_ok (db_meta db) ledgerLastSeenKey (appendTime [] obs)) as (b' & -> & _); [|eauto].
  rewrite appendTime_app. cbn [app]. split; [done|]. split; [done|]. unfold len. rewrite length_time_bytes. done.
Qed.

(** Under the invariant the usage can always be collected, now or later. *)
Lemma inv_collect db rs t now :
  Inv L db rs t -> after_start now -> t <= now ->
  exists u, collectUsage L db now = Ok u /\ agrees now rs u.
Proof.
  intros Hi Hn Hle. eapply collectUsage_complete; [apply Hi|apply Hi|].
  eapply within_limits_later; [exact limits_typed_networks|apply HL|by eapply inv_stored|apply Hi|apply Hi|done|done|apply Hi].
Qed.

Lemma inv_collect_agrees db rs t u :
  Inv L db rs t -> collectUsage L db t = Ok u -> agrees t rs u.
Proof.
  intros Hi Hu. destruct (inv_collect db rs t t Hi) as (u' & E & Hag); [apply Hi|lia|].
  rewrite Hu in E. by injection E as ->.
Qed.

(** ** Changing one record *)

Lemma consistent_unique db rs r r' :
  Consistent L db rs -> r ∈ rs -> r' ∈ rs -> Res_ID r = Res_ID r' -> r = r'.
Proof.
  intros Hc Hr Hr' E. destruct (consistent_lookup _ _ _ _ Hc Hr) as (d & H1 & H2).
  destruct (consistent_lookup _ _ _ _ Hc Hr') as (d' & H1' & H2'). rewrite E in H1. congruence.
Qed.

(** The entries other than the record's hold the other records. *)
Lemma consistent_split db rs r rest :
  Consistent L db rs -> rs ≡ₚ r :: rest ->
  exists rest', rest' ≡ₚ rest /\
    Forall2 holds (filter (fun e => e.1 <> Res_ID r) (b_entries (db_reservations db))) rest'.
Proof.
  intros Hc Hp. assert (Hr : r ∈ rs) by (rewrite Hp; left).
  destruct (consistent_lookup _ _ _ _ Hc Hr) as (d & Hg & Hd).
  destruct (Forall2_permute _ _ _ _ (b_entries_split _ _ _ Hg) (c_entries _ _ _ Hc)) as (k' & Hk & Hf).
  inv Hf. exists l'. split; [|done].
  assert (y = r) as ->; [|apply (Permutation_cons_inv (a := r)); by rewrite <- Hp].
  destruct H1 as [Hy _]. apply (consistent_unique db rs y r); [done|rewrite Hk; left|done|done].
Qed.

Lemma Forall_perm {A} (P : A -> Prop) l k : l ≡ₚ k -> Forall P l -> Forall P k.
Proof. intros H. by rewrite H. Qed.

Lemma consistent_replace db rs r r' rest d b' :
  Consistent L db rs -> rs ≡ₚ r :: rest -> Res_ID r' = Res_ID r -> attempt_of r' = attempt_of r ->
  validateReservation L r' = Ok tt -> decodeReservation d = Ok r' ->
  b_put (db_reservations db) (Res_ID r) d = Some b' ->
  exists rs', rs' ≡ₚ r' :: rest /\ Consistent L (withReservations db b') rs'.
Proof.
  intros Hc Hp Hid Hat Hv Hd Hput.
  destruct (consistent_split db rs r rest Hc Hp) as (rest' & Hrest & Hf).
  assert (Hf' : Forall2 holds ((Res_ID r, d) :: filter (fun e => e.1 <> Res_ID r) (b_entries (db_reservations db))) (r' :: rest')).
  { constructor; [|done]. by split. }
  destruct (Forall2_permute _ _ _ _ (symmetry (b_entries_put _ _ _ _ Hput)) Hf') as (rs' & Hrs' & Hf'').
  assert (Hperm : rs' ≡ₚ r' :: rest) by (by rewrite <- Hrs', Hrest).
  exists rs'. split; [done|]. constructor; cbn.
  - exact Hf''.
  - eapply Forall_perm; [symmetry; exact Hperm|]. constructor; [done|].
    pose proof (Forall_perm _ _ _ Hp (c_valid _ _ _ Hc)) as H. by inv H.
  - rewrite (c_attempts _ _ _ Hc), Hperm, Hp. cbn [map]. unfold attempt_entry.
    unfold attempt_of in Hat. by rewrite Hid, Hat.
  - rewrite Hperm. pose proof (c_count _ _ _ Hc) as H. rewrite Hp in H. exact H.
Qed.

Lemma inv_replace db rs t r r' rest d b' :
  Inv L db rs t -> rs ≡ₚ r :: rest -> Res_ID r' = Res_ID r -> attempt_of r' = attempt_of r ->
  Req_Network (Res_Request r') = Req_Network (Res_Request r) ->
  validateReservation L r' = Ok tt -> reservation_stored r' -> Res_UpdatedAt r' <= t ->
  fits (r' :: rest) -> (overrun r' = true \/ footprint_le t r' r) ->
  encodeReservation r' = Ok d -> b_put (db_reservations db) (Res_ID r) d = Some b' ->
  exists rs', rs' ≡ₚ r' :: rest /\ Inv L (withReservations db b') rs' t.
Proof.
  intros Hi Hp Hid Hat Hnet Hv Hst Hup Hfit Hcase Henc Hput.
  pose proof (decode_encodeReservation _ _ Hst Henc) as Hd.
  destruct (consistent_replace db rs r r' rest d b' (i_cons _ _ _ _ Hi) Hp Hid Hat Hv Hd Hput) as (rs' & Hrs' & Hc').
  pose proof (Forall_perm _ _ _ Hp (inv_stored _ _ _ Hi)) as Hs.
  pose proof (Forall_perm _ _ _ Hp (i_times _ _ _ _ Hi)) as Htimes.
  pose proof (i_fits _ _ _ _ Hi) as Hf. rewrite Hp in Hf.
  pose proof (i_limits _ _ _ _ Hi) as Hw. rewrite Hp in Hw.
  exists rs'. split; [done|]. constructor; [done|by rewrite Hrs'|apply Hi|apply Hi| |].
  - rewrite Hrs'. apply (within_limits_replace L t r r' rest); auto. inv Hs. by constructor.
  - eapply Forall_perm; [symmetry; exact Hrs'|]. inv Htimes. by constructor.
Qed.

(** ** Adding and purging a record *)

Lemma consistent_insert db rs r d b' a' :
  Consistent L db rs -> Z.of_nat (length rs) < L_maxRecords L ->
  b_get (db_reservations db) (Res_ID r) = None ->
  b_get (db_attempts db) (attemptKey (attempt_of r)) = None ->
  validateReservation L r = Ok tt -> decodeReservation d = Ok r ->
  b_put (db_reservations db) (Res_ID r) d = Some b' ->
  b_put (db_attempts db) (attemptKey (attempt_of r)) (Res_ID r) = Some a' ->
  exists rs', rs' ≡ₚ r :: rs /\ Consistent L (mkLedgerDB (db_meta db) b' a') rs'.
Proof.
  intros Hc Hlen Hg Hga Hv Hd Hput Hputa.
  pose proof (b_entries_put _ _ _ _ Hput) as He. rewrite (b_entries_absent _ _ Hg) in He.
  pose proof (b_entries_put _ _ _ _ Hputa) as Hea. rewrite (b_entries_absent _ _ Hga) in Hea.
  assert (Hf : Forall2 holds ((Res_ID r, d) :: b_entries (db_reservations db)) (r :: rs)).
  { constructor; [by split|apply Hc]. }
  destruct (Forall2_permute _ _ _ _ (symmetry He) Hf) as (rs' & Hrs' & Hf').
  exists rs'. split; [done|]. constructor; cbn.
  - done.
  - eapply Forall_perm; [exact Hrs'|]. constructor; [done|apply Hc].
  - rewrite Hea, (c_attempts _ _ _ Hc), <- Hrs'. done.
  - rewrite <- Hrs'. cbn. lia.
Qed.

Lemma attempt_distinct db rs r r' :
  Consistent L db rs -> r ∈ rs -> r' ∈ rs ->
  attemptKey (attempt_of r) = attemptKey (attempt_of r') -> r = r'.
Proof.
  intros Hc Hr Hr' E. pose proof (consistent_attempt _ _ _ _ Hc Hr) as H1.
  pose proof (consistent_attempt _ _ _ _ Hc Hr') as H2. unfold attempt_of in E. rewrite E in H1.
  apply (consistent_unique db rs); auto. congruence.
Qed.

Lemma consistent_purge db rs p kept :
  Consistent L db rs -> rs ≡ₚ p :: kept ->
  exists rs', rs' ≡ₚ kept /\
    Consistent L (mkLedgerDB (db_meta db) (b_delete (db_reservations db) (Res_ID p))
                    (b_delete (db_attempts db) (attemptKey (attempt_of p)))) rs'.
Proof.
  intros Hc Hp. destruct (consistent_split db rs p kept Hc Hp) as (rest' & Hrest & Hf).
  destruct (Forall2_permute _ _ _ _ (symmetry (b_entries_delete _ _)) Hf) as (rs' & Hrs' & Hf').
  assert (Hperm : rs' ≡ₚ kept) by (by rewrite <- Hrs'). exists rs'. split; [done|].
  pose proof (Forall_perm _ _ _ Hp (c_valid _ _ _ Hc)) as Hv. inv Hv.
  constructor; cbn; [done|by eapply Forall_perm; [symmetry; exact Hperm|]| |].
  - rewrite b_entries_delete, Hperm, (c_attempts _ _ _ Hc), Hp. cbn [map].
    rewrite filter_cons_False by (cbn; tauto). rewrite filter_all; [done|].
    intros e (x & -> & Hx)%list_elem_of_fmap. cbn. intros E.
    assert (Hxp : x = p).
    { apply (attempt_distinct db rs); [done|rewrite Hp; by right|rewrite Hp; left|done]. }
    subst x. pose proof (consistent_ids _ _ _ Hc) as Hnd. rewrite Hp in Hnd. cbn in Hnd. inv Hnd.
    apply H3. apply list_elem_of_fmap. by exists p.
  - rewrite Hperm. pose proof (c_count _ _ _ Hc) as H. rewrite Hp in H. cbn in H. lia.
Qed.

(** ** Looking a record up *)

Lemma reservationByID_inv db rs id r :
  Consistent L db rs -> reservationByID L db id = Ok r ->
  r ∈ rs /\ Res_ID r = id /\ validateReservation L r = Ok tt.
Proof.
  intros Hc. unfold reservationByID. destruct (b_get (db_reservations db) id) as [d|] eqn:Hg; [|done].
  destruct (consistent_get _ _ _ _ _ Hc Hg) as (x & Hx & Hid & ->). cbn [errOr].
  destruct (_ || _) eqn:E; [done|]. intros [= <-]. bool_hyps. repeat split; try done. by apply isOk_unit.
Qed.

Lemma reservationByID_ok db rs r :
  Consistent L db rs -> r ∈ rs -> reservationByID L db (Res_ID r) = Ok r.
Proof.
  intros Hc Hr. destruct (consistent_lookup _ _ _ _ Hc Hr) as (d & Hg & Hd).
  pose proof (c_valid _ _ _ Hc) as Hv. rewrite Forall_forall in Hv.
  unfold reservationByID. rewrite Hg, Hd. cbn [errOr]. by rewrite bytes_eqb_refl, (Hv r Hr).
Qed.

Lemma reservationByID_absent db rs id :
  Consistent L db rs -> (forall r, r ∈ rs -> Res_ID r <> id) -> reservationByID L db id = Err ErrStateConflict.
Proof.
  intros Hc Hn. unfold reservationByID. destruct (b_get (db_reservations db) id) as [d|] eqn:Hg; [|done].
  destruct (consistent_get _ _ _ _ _ Hc Hg) as (x & Hx & Hid & _). by destruct (Hn x Hx).
Qed.

Lemma elem_split (rs : list Reservation) r : r ∈ rs -> exists rest, rs ≡ₚ r :: rest.
Proof. intros (l1 & l2 & ->)%list_elem_of_split. exists (l1 ++ l2). by rewrite Permutation_middle. Qed.

(** ** Moves of one record *)

(** What Go's types guarantee of the new fields of a moved record. *)
Definition move_typed (r : Reservation) : Prop :=
  isHash (Res_TxHash r) /\ inU 256 (Res_Actual r) /\ inU 256 (Req_SponsorBalance (Res_Request r)).

Lemma spec_move_same now r r' :
  spec_move L now r r' ->
  Res_ID r' = Res_ID r /\ attempt_of r' = attempt_of r /\
  Req_Network (Res_Request r') = Req_Network (Res_Request r) /\ Res_CreatedAt r' = Res_CreatedAt r /\
  Res_Maximum r' = Res_Maximum r /\ (Res_UpdatedAt r' = now \/ Res_UpdatedAt r' = Res_UpdatedAt r).
Proof. destruct 1; repeat split; auto. Qed.

Lemma spec_move_stored now r r' :
  spec_move L now r r' -> reservation_stored r -> move_typed r' -> time_storable now -> reservation_stored r'.
Proof. destruct 1; intros [] (Ht & Ha & Hb) Hn; constructor; cbn in *; auto. Qed.

(** Only an overrun makes a record's footprint grow. *)
Lemma spec_move_footprint now r r' :
  spec_move L now r r' -> reservation_stored r -> overrun r' = true \/ footprint_le now r' r.
Proof.
  intros Hm Hs. pose proof (rs_maximum r Hs) as Hmax. unfold inU in Hmax.
  destruct Hm as [r tx Hst|r actual Hst Ha Hle|r Hst|r balance Hst];
    unfold footprint_le, overrun, open_amount, spent_since, spent_amount;
    rewrite !isCommitted_state; cbn; rewrite Hst; cbn; try (right; lia).
  unfold u256_Gt. destruct (Res_Maximum r <? actual) eqn:E; [by left|right]. bool_hyps.
  repeat split; repeat case_match; lia.
Qed.

Lemma spec_move_fits now r r' rest :
  spec_move L now r r' -> Forall reservation_stored (r :: rest) -> fits (r :: rest) ->
  (Res_State r' = ReservationCommitted -> sumZ spent_amount (r :: rest) + Res_Actual r' < 2 ^ 256) ->
  fits (r' :: rest).
Proof.
  intros Hm Hs [Hf1 Hf2] Hroom. inv Hs. pose proof (rs_maximum r H1) as Hmax. unfold inU in Hmax. unfold fits.
  rewrite !sumZ_cons in *.
  destruct Hm as [r tx Hst|r actual Hst Ha Hle|r Hst|r balance Hst];
    unfold open_amount, spent_amount in *; rewrite !isCommitted_state in *; cbn in *; rewrite Hst in *; cbn in *;
    try specialize (Hroom eq_refl); lia.
Qed.

(** A validated move of a stored record, written back, keeps the invariant. *)
Lemma inv_move db rs t r r' d b' :
  Inv L db rs t -> r ∈ rs -> spec_move L t r r' -> move_typed r' ->
  (Res_State r' = ReservationCommitted -> sumZ spent_amount rs + Res_Actual r' < 2 ^ 256) ->
  validateReservation L r' = Ok tt ->
  encodeReservation r' = Ok d -> b_put (db_reservations db) (Res_ID r) d = Some b' ->
  exists rest rs', rs ≡ₚ r :: rest /\ rs' ≡ₚ r' :: rest /\ Inv L (withReservations db b') rs' t.
Proof.
  intros Hi Hr Hm Hty Hroom Hv Henc Hput. destruct (elem_split rs r Hr) as (rest & Hp).
  pose proof (Forall_perm _ _ _ Hp (inv_stored _ _ _ Hi)) as Hs. inv Hs.
  pose proof (i_fits _ _ _ _ Hi) as Hf. rewrite Hp in Hf, Hroom.
  destruct (spec_move_same _ _ _ Hm) as (Hid & Hat & Hnet & _ & _ & Hup).
  assert (Hts : time_storable t).
  { destruct (i_start _ _ _ _ Hi) as [Hok ?]. apply validPersistentTime_storable; [done|]. by apply after_start_valid. }
  assert (Hut : Res_UpdatedAt r' <= t).
  { destruct Hup as [->| ->]; [lia|]. pose proof (i_times _ _ _ _ Hi) as Ht. rewrite Forall_forall in Ht. by apply Ht. }
  destruct (inv_replace db rs t r r' rest d b') as (rs' & Hrs' & Hi'); auto.
  - by eapply spec_move_stored.
  - eapply spec_move_fits; eauto.
  - by apply spec_move_footprint.
  - by exists rest, rs'.
Qed.

(** A transition writes either nothing or one move, stamped with the clock
    after it. *)
Lemma transition_tx_spec call id observed change db rs t r' db' :
  Inv L db rs t -> time_ok (call_now call) ->
  (forall r now x, reservation_stored r -> change r now = Ok x -> x = r \/ spec_move L now r x /\ move_typed x) ->
  (forall r now x, r ∈ rs -> change r now = Ok x -> Res_State x = ReservationCommitted -> x <> r ->
     sumZ spent_amount rs + Res_Actual x < 2 ^ 256) ->
  transition_tx L call id observed change db = Ok (r', db') ->
  exists r now rs', t <= now /\ r ∈ rs /\ Res_ID r = id /\ change r now = Ok r' /\ r' ∈ rs' /\
    Inv L db' rs' now /\
    (r' = r /\ rs' = rs \/
     spec_move L now r r' /\ exists rest, rs ≡ₚ r :: rest /\ rs' ≡ₚ r' :: rest).
Proof.
  intros Hi Hnow Hch Hroom. unfold transition_tx. destruct (contextErrorTx _) as [[]|]; [|done].
  destruct (transition_now call observed db) as [[now db1]|] eqn:Et; [|done].
  assert (Hi1 : Inv L db1 rs now /\ t <= now).
  { unfold transition_now in Et. destruct (IsZero observed).
    - rewrite (i_last _ _ _ _ Hi) in Et. injection Et as <- <-. split; [done|lia].
    - unfold observedNow, normalizeTime in Et. destruct (negb (validPersistentTime (call_now call))); [done|].
      cbn [errOr] in Et. destruct (_ || _); [done|].
      destruct (effectiveNow_inv db rs t _ _ _ Hi Hnow Et) as (? & ? & _). done. }
  destruct Hi1 as [Hi1 Hle]. destruct (collectUsage L db1 now); [|done].
  destruct (reservationByID L db1 id) as [r|] eqn:Er; [|done].
  destruct (reservationByID_inv _ _ _ _ (i_cons _ _ _ _ Hi1) Er) as (Hr & Hid & _).
  destruct (change r now) as [x|] eqn:Ec; [|done].
  destruct (bool_decide (x = r)) eqn:Eq; bool_hyps.
  { intros [= <- <-]. subst x. exists r, now, rs. repeat split; auto; apply Hi1. }
  destruct (validateReservation L x) as [[]|] eqn:Ev; [|done]. cbn [errOr].
  destruct (encodeReservation x) as [d|] eqn:Ee; [|done]. cbn [errOr].
  destruct (put (db_reservations db1) id d) as [b'|] eqn:Ep; [|done]. intros [= <- <-]. apply put_inv in Ep.
  pose proof (inv_stored _ _ _ Hi1) as Hs. rewrite Forall_forall in Hs.
  destruct (Hch _ _ _ (Hs r Hr) Ec) as [?|[Hm Hty]]; [done|].
  rewrite <- Hid in Ep. destruct (inv_move db1 rs now r x d b') as (rest & rs' & Hp & Hp' & Hi'); auto.
  { intros Hst. by apply (Hroom r now). }
  exists r, now, rs'. repeat (split; [done|]). split; [rewrite Hp'; left|]. split; [done|]. right. eauto.
Qed.

(** ** Purging *)

Definition is_oldest (rs : list Reservation) (sel : option Reservation) : Prop :=
  match sel with
  | None => forall x, x ∈ rs -> Res_State x <> ReservationReleased
  | Some p => oldest_released rs p
  end.

Lemma oldest_released_grow rs p x :
  oldest_released rs p ->
  (Res_State x = ReservationReleased ->
    Res_UpdatedAt p < Res_UpdatedAt x \/
    (Res_UpdatedAt p = Res_UpdatedAt x /\ bytes_ltb (Res_ID x) (Res_ID p) = false)) ->
  oldest_released (rs ++ [x]) p.
Proof.
  intros (Hp & Hst & Hmin) Hx. split; [by apply elem_of_app; left|]. split; [done|].
  intros y [Hy| ->%list_elem_of_singleton]%elem_of_app Hys; auto.
Qed.

Lemma selectReleased_step rs sel e x sel' :
  is_oldest rs sel -> holds e x -> selectReleased L sel e = Ok sel' -> is_oldest (rs ++ [x]) sel'.
Proof.
  intros Hsel [_ Hd]. unfold selectReleased. rewrite Hd. cbn [errOr].
  destruct (negb _); [done|]. destruct (bool_decide (Res_State x = ReservationReleased)) eqn:Es; cbn [negb]; bool_hyps.
  - assert (Hself : forall sel0, (forall y, y ∈ rs -> Res_State y = ReservationReleased ->
       Res_UpdatedAt x < Res_UpdatedAt y \/ (Res_UpdatedAt x = Res_UpdatedAt y /\ bytes_ltb (Res_ID y) (Res_ID x) = false)) ->
       Ok (Some x) = @Ok LedgerError _ sel0 -> is_oldest (rs ++ [x]) sel0).
    { intros sel0 Hy [= <-]. split; [apply elem_of_app; right; by apply list_elem_of_singleton|]. split; [done|].
      intros y [Hin| ->%list_elem_of_singleton]%elem_of_app Hys; [by apply Hy|].
      right. split; [done|]. apply bytes_ltb_irrefl. }
    destruct sel as [p|]; [|apply Hself; intros y Hy Hys; by destruct (Hsel y Hy)].
    destruct Hsel as (Hp & Hps & Hmin). unfold Before, TimeEqual.
    destruct (_ || _) eqn:Ec.
    + apply Hself. intros y Hy Hys. specialize (Hmin y Hy Hys).
      apply orb_true_iff in Ec as [Ec|Ec]; bool_hyps; [destruct Hmin; lia|].
      destruct Hmin as [?|[? Hle]]; [lia|]. right. split; [lia|].
      eapply bytes_le_trans; [|exact Hle]. apply bytes_ltb_false. left. done.
    + intros [= <-]. apply oldest_released_grow; [done|]. intros _. bool_hyps.
      destruct (Z.eq_dec (Res_UpdatedAt x) (Res_UpdatedAt p)) as [E|]; [|lia].
      right. split; [done|]. apply andb_false_iff in H0 as [H0|H0]; [|done]. bool_hyps. done.
  - intros [= <-]. destruct sel as [p|].
    + by apply oldest_released_grow.
    + intros y [Hy| ->%list_elem_of_singleton]%elem_of_app; [by apply Hsel|done].
Qed.

Lemma selectReleased_loop es rs rs0 sel sel' :
  Forall2 holds es rs -> is_oldest rs0 sel -> foldM (selectReleased L) es sel = Ok sel' -> is_oldest (rs0 ++ rs) sel'.
Proof.
  intros H. revert rs0 sel. induction H as [|e x es rs Hx _ IH]; intros rs0 sel Hsel Hf; cbn [foldM] in Hf.
  - injection Hf as <-. by rewrite app_nil_r.
  - destruct (selectReleased L sel e) as [sel1|] eqn:E; [|done].
    rewrite (cons_middle x rs0 rs), app_assoc. apply (IH _ sel1); [|done]. by eapply selectReleased_step.
Qed.

Lemma selectReleased_total es rs sel :
  Forall2 holds es rs -> Forall (fun r => validateReservation L r = Ok tt) rs ->
  exists sel', foldM (selectReleased L) es sel = Ok sel'.
Proof.
  intros H. revert sel. induction H as [|e x es rs [_ Hd] _ IH]; intros sel Hv; [by exists sel|]. inv Hv.
  assert (exists s, selectReleased L sel e = Ok s) as (s & E).
  { unfold selectReleased. rewrite Hd. cbn [errOr]. rewrite H1. cbn [isOk negb]. repeat case_match; eauto. }
  cbn [foldM]. rewrite E. by apply IH.
Qed.

(** Purging removes the oldest released record, or finds none. *)
Lemma purge_spec db rs :
  Consistent L db rs ->
  (exists p, oldest_released rs p /\
     purgeOldestReleased L db =
       Ok (true, mkLedgerDB (db_meta db) (b_delete (db_reservations db) (Res_ID p))
                   (b_delete (db_attempts db) (attemptKey (attempt_of p))))) \/
  ((forall x, x ∈ rs -> Res_State x <> ReservationReleased) /\ purgeOldestReleased L db = Ok (false, db)).
Proof.
  intros Hc. destruct (selectReleased_total _ _ None (c_entries _ _ _ Hc) (c_valid _ _ _ Hc)) as (sel & E).
  pose proof (selectReleased_loop _ _ [] None sel (c_entries _ _ _ Hc)) as Hs. cbn [app] in Hs.
  assert (Ho : is_oldest rs sel) by (apply Hs; [by intros x Hx%elem_of_nil|done]).
  unfold purgeOldestReleased. rewrite E. destruct sel as [p|]; [left; by exists p|by right].
Qed.

(** Purging keeps the invariant. *)
Lemma inv_purge db rs t p kept :
  Inv L db rs t -> rs ≡ₚ p :: kept -> Res_State p = ReservationReleased ->
  exists rs', rs' ≡ₚ kept /\
    Inv L (mkLedgerDB (db_meta db) (b_delete (db_reservations db) (Res_ID p))
             (b_delete (db_attempts db) (attemptKey (attempt_of p)))) rs' t.
Proof.
  intros Hi Hp Hst. destruct (consistent_purge db rs p kept (i_cons _ _ _ _ Hi) Hp) as (rs' & Hrs' & Hc').
  exists rs'. split; [done|].
  pose proof (Forall_perm _ _ _ Hp (inv_stored _ _ _ Hi)) as Hs.
  pose proof (Forall_perm _ _ _ Hp (i_times _ _ _ _ Hi)) as Ht. inv Ht.
  pose proof (i_fits _ _ _ _ Hi) as Hf. rewrite Hp in Hf.
  pose proof (i_limits _ _ _ _ Hi) as Hw. rewrite Hp in Hw.
  constructor; [done| |apply Hi|apply Hi| |].
  - rewrite Hrs'. apply (fits_prefix _ [p]); rewrite <- Permutation_cons_append; done.
  - rewrite Hrs'. by eapply within_limits_drop.
  - eapply Forall_perm; [symmetry; exact Hrs'|done].
Qed.

End Database.

End BudgetInvariant.
Export BudgetInvariant.
