(* ===== verification/BudgetReserve.v ===== *)
(** * Reserve and CheckSponsorCapacity implement the contract

    The transactions of [Reserve] and [CheckSponsorCapacity] on a database that
    satisfies [Inv]: holding a maximum, holding a released one again, purging
    to make room, and refreshing the sponsor balance of a held record. *)

From S2P Require Import Prelude GoTime Bytes Sha256 Domain Bolt BudgetModel BudgetCodec BudgetLedger BudgetUsage BudgetSpec BudgetInvariant.

Module BudgetReserve.

(** What Go's types and the checks before the transaction say of a request.
    [ro_id]: the reservation ID, a SHA-256 digest, is not the all-zero digest. *)
Record request_ok (L : BudgetLedger) (q : ReservationRequest) : Prop := {
  ro_typed : request_typed q;
  ro_valid : validateRequest L q = Ok tt;
  ro_observed : Req_ObservedAt q = zeroTime \/ validPersistentTime (Req_ObservedAt q) = true;
  ro_id : is_zero_bytes (NewReservationID (Req_Attempt q)) = false }.

Section Database.
Context `{BL : BoltLaws} (L : BudgetLedger) (HL : ledger_typed L).

Lemma start_storable t : after_start t -> time_storable t.
Proof. intros H. pose proof H as [? _]. apply validPersistentTime_storable; [done|]. by apply after_start_valid. Qed.

Lemma held_stored q m now :
  request_ok L q -> inU 256 m -> after_start now -> reservation_stored (heldFrom L q m now).
Proof.
  intros [[] Hv Ho _] Hm Hn. destruct (validateRequest_network _ _ Hv) as (np & Hnp).
  destruct (lt_network L HL _ _ Hnp) as (_ & Hpos & _). pose proof (start_storable _ Hn).
  constructor; cbn; try done.
  - apply NewReservationID_length.
  - unfold inU in *. lia.
  - destruct Ho as [->|Ho]; [apply zeroTime_storable|by apply validPersistentTime_storable].
Qed.

Lemma held_valid q m now :
  request_ok L q -> after_start now ->
  CostQuote_Maximum (Req_Quote q) (NP_TransactionOverhead (networkPolicy L (Req_Network q))) = Ok m ->
  m <= PerTransaction (Policy_Global (L_policy L)) ->
  m <= PerTransaction (NP_Limits (networkPolicy L (Req_Network q))) ->
  validateReservation L (heldFrom L q m now) = Ok tt.
Proof.
  intros [_ Hv _ Hz] Hn Hm H1 H2. pose proof (after_start_valid _ Hn) as Hnv.
  unfold validateReservation, heldFrom. cbn [Res_ID Res_Request Res_CreatedAt Res_UpdatedAt Res_Maximum Res_State Res_TxHash Res_Actual Res_ExposedAt].
  rewrite Hz, bytes_eqb_refl, Hv, Hnv, Hm. unfold Before. rewrite Z.ltb_irrefl.
  cbn [negb orb isOk errOr]. unfold u256_Eq, u256_Gt. rewrite Z.eqb_refl. rewrite (proj2 (Z.ltb_ge _ _) H1), (proj2 (Z.ltb_ge _ _) H2). done.
Qed.

(** Records that are all released weigh nothing. *)
Lemma scope_of_drop now purged kept :
  Forall (fun p => Res_State p = ReservationReleased) purged ->
  scope_of now (purged ++ kept) = scope_of now kept.
Proof. induction 1; [done|]. cbn [app]. by rewrite scope_of_released. Qed.

Lemma on_network_drop now n purged kept :
  Forall (fun p => Res_State p = ReservationReleased) purged ->
  scope_of now (on_network n (purged ++ kept)) = scope_of now (on_network n kept).
Proof.
  intros H. unfold on_network. rewrite filter_app. apply scope_of_drop. by apply Forall_filter_sub.
Qed.

Lemma within_limits_drop_all now purged kept :
  Forall (fun p => Res_State p = ReservationReleased) purged ->
  within_limits L now (purged ++ kept) -> within_limits L now kept.
Proof.
  intros H [Hg Hn]. split; [by rewrite scope_of_drop in Hg|]. intros n np Hnp. specialize (Hn n np Hnp).
  by rewrite on_network_drop in Hn.
Qed.

#[local] Instance scope_of_perm_overrun : Proper ((≡ₚ) ==> eq) (existsb overrun).
Proof.
  intros l k H. apply eq_true_iff_eq. rewrite !existsb_exists.
  split; intros (x & Hx & Ho); exists x; (split; [|done]); [by rewrite <- H|by rewrite H].
Qed.

(** A database that holds a newly admitted record in place of released ones
    satisfies the invariant. *)
Lemma inv_hold db rs now q m purged kept db' rs' :
  Inv L db rs now -> request_ok L q ->
  CostQuote_Maximum (Req_Quote q) (NP_TransactionOverhead (networkPolicy L (Req_Network q))) = Ok m ->
  budget_admits L now rs q m ->
  rs ≡ₚ purged ++ kept -> Forall (fun p => Res_State p = ReservationReleased) purged ->
  Consistent L db' rs' -> rs' ≡ₚ heldFrom L q m now :: kept -> db_meta db' = db_meta db ->
  Inv L db' rs' now.
Proof.
  intros Hi Hq Hm [Hg Hn Hsp] Hp Hrel Hc' Hrs' Hmeta.
  pose proof (inv_stored L _ _ _ Hi) as Hs. pose proof (consistent_stored _ _ _ Hc') as Hs'.
  pose proof (i_fits _ _ _ _ Hi) as Hf. pose proof (i_limits _ _ _ _ Hi) as Hw.
  pose proof (i_times _ _ _ _ Hi) as Ht.
  rewrite Hp in Hs, Hf, Hw, Ht. rewrite Hrs' in Hs'. apply Forall_app in Ht as [_ Ht].
  pose proof (within_limits_drop_all _ _ _ Hrel Hw) as Hwk.
  assert (Hgk : scope_admits (Policy_Global (L_policy L)) (scope_of now kept) m).
  { rewrite <- (scope_of_drop now purged kept Hrel). unfold scope_of in Hg |- *. by rewrite <- Hp. }
  assert (Hnk : scope_admits (NP_Limits (networkPolicy L (Req_Network q))) (scope_of now (on_network (Req_Network q) kept)) m).
  { rewrite <- (on_network_drop now _ purged kept Hrel). unfold scope_of, on_network in Hn |- *. by rewrite <- Hp. }
  assert (Hfk : fits (heldFrom L q m now :: kept)).
  { rewrite Permutation_app_comm in Hs, Hf. destruct (fits_prefix _ _ Hs Hf) as [_ Hspent].
    apply Forall_app in Hs as [Hsk _]. rewrite Forall_forall in Hsk.
    pose proof (sumZ_nonneg spent_amount kept (fun r Hr => spent_amount_nonneg r (Hsk r Hr))).
    destruct Hgk as (_ & _ & _ & _ & Hall). pose proof (lt_all _ (lt_global L HL)) as Hcum.
    unfold inU, scope_of in *. cbn [reserved allSpent] in Hall. unfold fits. rewrite !sumZ_cons.
    assert (open_amount (heldFrom L q m now) = m) as -> by done.
    assert (spent_amount (heldFrom L q m now) = 0) as -> by done. lia. }
  constructor; [done|by rewrite Hrs'|rewrite Hmeta; apply Hi|apply Hi| |].
  - rewrite Hrs'. by apply within_limits_hold.
  - eapply Forall_perm; [symmetry; exact Hrs'|]. constructor; [cbn; lia|done].
Qed.

Lemma validateReservation_maximum r :
  validateReservation L r = Ok tt ->
  CostQuote_Maximum (Req_Quote (Res_Request r))
    (NP_TransactionOverhead (networkPolicy L (Req_Network (Res_Request r)))) = Ok (Res_Maximum r).
Proof.
  unfold validateReservation. destruct (_ || _); [done|]. cbv zeta.
  destruct (CostQuote_Maximum _ _) as [m|]; [|done]. cbn [errOr]. destruct (_ || _) eqn:E; [done|]. intros _.
  unfold u256_Eq in E. bool_hyps. congruence.
Qed.

Lemma storeReservation_inv db r db' :
  storeReservation db r = Ok db' ->
  exists d b', encodeReservation r = Ok d /\ b_put (db_reservations db) (Res_ID r) d = Some b' /\
    db' = withReservations db b'.
Proof.
  unfold storeReservation. destruct (encodeReservation r) as [d|]; [|done]. cbn [errOr].
  destruct (put _ _ _) as [b'|] eqn:E; [|done]. intros [= <-]. apply put_inv in E. eauto.
Qed.

Lemma admitted db rs now u q m :
  Inv L db rs now -> request_ok L q -> agrees now rs u -> admitMaximum L u q = Ok m ->
  CostQuote_Maximum (Req_Quote q) (NP_TransactionOverhead (networkPolicy L (Req_Network q))) = Ok m /\
  budget_admits L now rs q m /\
  reservation_stored (heldFrom L q m now) /\ validateReservation L (heldFrom L q m now) = Ok tt.
Proof.
  intros Hi Hq Hag Ha. pose proof Hq as [[] Hv _ _].
  apply (admitMaximum_spec L now rs u q m HL Hv) in Ha as [Hm Hb]; auto;
    [|by eapply inv_stored|apply Hi].
  destruct (validateRequest_network _ _ Hv) as (np & Hnp).
  destruct (lt_network L HL _ _ Hnp) as (_ & _ & []). pose proof Hm as Hm'.
  rewrite (networkPolicy_lookup _ _ _ Hnp) in Hm'.
  destruct (Maximum_covers _ _ _ rt_quote0 nt_overhead0 Hm') as [_ Hrange].
  split; [done|]. split; [done|]. destruct Hb as [(_ & Hg & _) (_ & Hn & _) _].
  pose proof (i_start _ _ _ _ Hi).
  split; [by apply held_stored|by apply held_valid].
Qed.

(** The branch for an attempt that has a reservation. *)
Lemma reserveExisting_spec db rs now u q id r db' :
  Inv L db rs now -> request_ok L q -> agrees now rs u ->
  reserveExisting L q now u id db = Ok (r, db') ->
  exists rs' rs'', spec_reserve L rs now q r rs' /\ rs'' ≡ₚ rs' /\ Inv L db' rs'' now.
Proof.
  intros Hi Hq Hag. unfold reserveExisting. destruct (negb _); [done|].
  destruct (reservationByID L db id) as [x|] eqn:Ex; [|done]. cbn [errOr].
  destruct (reservationByID_inv L _ _ _ _ (i_cons _ _ _ _ Hi) Ex) as (Hx & _ & Hxv).
  destruct (negb _); [done|]. destruct (sameReservationRequest _ _) eqn:Es; cbn [negb]; [|done].
  destruct (bool_decide (Res_State x = ReservationReleased)) eqn:Est; bool_hyps.
  2:{ intros [= <- <-]. exists rs, rs. split; [|done]. by eapply spec_reserve_again. }
  destruct (admitMaximum L u q) as [m|] eqn:Em; [|done].
  destruct (admitted db rs now u q m Hi Hq Hag Em) as (Hm & Hb & Hst & Hv).
  pose proof Es as (En & _ & _ & Ea & Eq)%sameReservationRequest_spec.
  pose proof (validateReservation_maximum _ Hxv) as Hxm. rewrite En, Eq, Hm in Hxm. injection Hxm as Hxm.
  pose proof (validateReservation_request _ _ Hxv) as [Hid _].
  assert (Heq : mkReservation (Res_ID x) q (Res_Maximum x) ReservationHeld zeroHash 0 now zeroTime now = heldFrom L q m now).
  { unfold heldFrom. congruence. }
  rewrite Heq. destruct (storeReservation _ _) as [db1|] eqn:Esr; [|done]. intros [= <- <-].
  destruct (storeReservation_inv _ _ _ Esr) as (d & b' & Hd & Hput & ->).
  destruct (elem_split rs x Hx) as (rest & Hp).
  assert (Hid' : Res_ID (heldFrom L q m now) = Res_ID x) by (rewrite <- Heq; done). rewrite Hid' in Hput.
  destruct (consistent_replace L db rs x (heldFrom L q m now) rest d b') as (rs' & Hrs' & Hc');
    [apply Hi|done|done|symmetry; exact Ea|done|by apply decode_encodeReservation|done|].
  exists (heldFrom L q m now :: rest), rs'. split; [by eapply spec_reserve_released|]. split; [done|].
  eapply (inv_hold db rs now q m [x] rest); eauto.
Qed.

Lemma keyN_length db rs : Consistent L db rs -> b_keyN (db_reservations db) = Z.of_nat (length rs).
Proof. intros Hc. unfold b_keyN. by rewrite (Forall2_length _ _ _ (c_entries _ _ _ Hc)). Qed.

(** Making room: nothing below the capacity, the oldest released record at it. *)
Definition room_made (rs purged kept : list Reservation) : Prop :=
  rs ≡ₚ purged ++ kept /\
  (Z.of_nat (length rs) < L_maxRecords L /\ purged = [] \/
   L_maxRecords L <= Z.of_nat (length rs) /\ exists p, purged = [p] /\ oldest_released rs p).

Lemma room_made_released rs purged kept :
  room_made rs purged kept -> Forall (fun p => Res_State p = ReservationReleased) purged.
Proof.
  intros [_ [[_ ->]|(_ & p & -> & _ & Hst & _)]]; [constructor|by constructor].
Qed.

Lemma make_room_spec db rs db1 :
  Consistent L db rs ->
  (if L_maxRecords L <=? b_keyN (db_reservations db) then
     let! (removed, db) := purgeOldestReleased L db in
     reject negb removed with ErrCapacity in Ok db
   else Ok db) = Ok db1 ->
  exists purged kept rs1, room_made rs purged kept /\ rs1 ≡ₚ kept /\ Consistent L db1 rs1 /\
    Z.of_nat (length rs1) < L_maxRecords L /\ db_meta db1 = db_meta db /\
    forall k, b_get (db_attempts db) k = None -> b_get (db_attempts db1) k = None.
Proof.
  intros Hc. rewrite (keyN_length _ _ Hc). destruct (_ <=? _) eqn:E; bool_hyps.
  2:{ intros [= <-]. exists [], rs, rs. repeat split; auto; apply Hc. }
  destruct (purge_spec L db rs Hc) as [(p & Ho & ->)|[_ ->]]; [|done]. cbn [negb]. intros [= <-].
  destruct (elem_split rs p (proj1 Ho)) as (kept & Hp).
  destruct (consistent_purge L db rs p kept Hc Hp) as (rs1 & Hrs1 & Hc1).
  exists [p], kept, rs1. split; [split; [done|right; eauto]|]. split; [done|]. split; [done|].
  split; [|split; [done|]].
  - pose proof (c_count _ _ _ Hc) as Hlen. rewrite Hrs1. rewrite Hp in Hlen. cbn in Hlen. lia.
  - intros k Hk. cbn. rewrite bl_get_delete. by case_decide.
Qed.

(** The branch for a new attempt. *)
Lemma reserveNew_spec db rs now u q r db' :
  Inv L db rs now -> request_ok L q -> agrees now rs u ->
  b_get (db_attempts db) (attemptKey (Req_Attempt q)) = None ->
  reserveNew L q now u db = Ok (r, db') ->
  exists rs' rs'', spec_reserve L rs now q r rs' /\ rs'' ≡ₚ rs' /\ Inv L db' rs'' now.
Proof.
  intros Hi Hq Hag Hnone. unfold reserveNew. pose proof (i_cons _ _ _ _ Hi) as Hc.
  match goal with |- (let! _ := ?c in _) = _ -> _ => destruct c as [db1|] eqn:Er; [|done] end.
  destruct (make_room_spec db rs db1 Hc Er) as (purged & kept & rs1 & Hroom & Hrs1 & Hc1 & Hlt & Hmeta & Hatt).
  destruct (admitMaximum L u q) as [m|] eqn:Em; [|done].
  destruct (admitted db rs now u q m Hi Hq Hag Em) as (Hm & Hb & Hst & Hv).
  change (mkReservation (NewReservationID (Req_Attempt q)) q m ReservationHeld zeroHash 0 now zeroTime now)
    with (heldFrom L q m now).
  destruct (bool_decide _) eqn:Eabs; bool_hyps; [done|]. apply eq_None_not_Some in Eabs.
  destruct (storeReservation _ _) as [db2|] eqn:Es; [|done].
  destruct (put _ _ _) as [a'|] eqn:Ep; [|done]. intros [= <- <-]. apply put_inv in Ep.
  destruct (storeReservation_inv _ _ _ Es) as (d & b' & Hd & Hput & ->).
  destruct (consistent_insert L db1 rs1 (heldFrom L q m now) d b' a') as (rs2 & Hrs2 & Hc2); auto.
  { by apply decode_encodeReservation. }
  exists (heldFrom L q m now :: kept), rs2. split.
  { apply (spec_reserve_new L rs now q purged kept m); [|apply Hroom..|done|done].
    intros x Hx E. pose proof (consistent_attempt _ _ _ _ Hc Hx) as Ha. unfold attempt_of in E. congruence. }
  rewrite Hrs1 in Hrs2. split; [done|].
  eapply (inv_hold db rs now q m purged kept); eauto; [apply Hroom|by eapply room_made_released].
Qed.

(** [Reserve]'s transaction. *)
Lemma reserve_tx_spec call q observed db rs t r db' :
  Inv L db rs t -> request_ok L q -> time_ok observed ->
  reserve_tx L call q observed db = Ok (r, db') ->
  exists now rs' rs'', now = Z.max t observed /\ spec_reserve L rs now q r rs' /\ rs'' ≡ₚ rs' /\ Inv L db' rs'' now.
Proof.
  intros Hi Hq Hobs. unfold reserve_tx. destruct (contextErrorTx _); [|done].
  destruct (effectiveNow db observed) as [[now db1]|] eqn:Ee; [|done].
  destruct (effectiveNow_inv L HL db rs t observed now db1 Hi Hobs Ee) as (Hi1 & _ & Hnow & _).
  destruct (collectUsage L db1 now) as [u|] eqn:Eu; [|done].
  pose proof (inv_collect_agrees L HL _ _ _ _ Hi1 Eu) as Hag.
  destruct (b_get _ _) as [id|] eqn:Eg; intros Hr; exists now.
  - destruct (reserveExisting_spec _ _ _ _ _ _ _ _ Hi1 Hq Hag Hr) as (rs' & rs'' & H). eauto.
  - destruct (reserveNew_spec _ _ _ _ _ _ _ Hi1 Hq Hag Eg Hr) as (rs' & rs'' & H). eauto.
Qed.

(** ** CheckSponsorCapacity *)

Lemma withBalance_valid r balance :
  0 < balance -> validateReservation L r = Ok tt -> validateReservation L (withBalance r balance) = Ok tt.
Proof.
  intros Hb. unfold validateReservation, withBalance, validateRequest. cbv zeta.
  cbn [Res_ID Res_Request Res_CreatedAt Res_UpdatedAt Res_Maximum Res_State Res_TxHash Res_Actual Res_ExposedAt
       Req_Network Req_Sponsor Req_Candidate Req_Attempt Req_Quote Req_SponsorBalance Req_ObservedAt].
  assert (u256_IsZero balance = false) as -> by (unfold u256_IsZero; apply Z.eqb_neq; lia).
  destruct (L_networks L !! _); [|by rewrite !orb_true_r].
  rewrite orb_false_r. destruct (u256_IsZero (Req_SponsorBalance _)); [|by rewrite orb_false_r].
  by rewrite !orb_true_r.
Qed.

(** The sponsor keeps its emergency reserve after all open reservations. *)
Definition sponsor_covers (rs : list Reservation) (r : Reservation) (balance : Z) : Prop :=
  NP_EmergencySponsorReserve (networkPolicy L (Req_Network (Res_Request r)))
    + sumZ open_amount (on_sponsor (Req_Network (Res_Request r), Req_Sponsor (Res_Request r)) rs) <= balance.

Lemma sponsor_covers_spec db rs t u r balance :
  Inv L db rs t -> agrees t rs u -> r ∈ rs -> inU 256 balance ->
  let held := default 0 (usage_sponsors u !! (Req_Network (Res_Request r), Req_Sponsor (Res_Request r))) in
  sponsorHasCapacity balance (NP_EmergencySponsorReserve (networkPolicy L (Req_Network (Res_Request r)))) held 0 = true
  <-> sponsor_covers rs r balance.
Proof.
  intros Hi Hag Hr Hbal. cbv zeta. rewrite (ag_sponsor _ _ _ Hag).
  pose proof (c_valid _ _ _ (i_cons _ _ _ _ Hi)) as Hv. rewrite Forall_forall in Hv.
  destruct (validateReservation_request _ _ (Hv r Hr)) as [_ Hreq].
  destruct (validateRequest_network _ _ Hreq) as (np & Hnp). unfold sponsor_covers.
  rewrite (networkPolicy_lookup _ _ _ Hnp). destruct (lt_network L HL _ _ Hnp) as (_ & _ & []). unfold inU in *.
  rewrite sponsorHasCapacity_spec; [rewrite Z.add_0_r; done|unfold inU; lia|lia| |lia].
  apply sumZ_nonneg. intros x [_ Hx]%list_elem_of_filter. apply open_amount_nonneg.
  pose proof (inv_stored L _ _ _ Hi) as Hs. rewrite Forall_forall in Hs. by apply Hs.
Qed.

Lemma checkSponsorCapacity_tx_spec call id balance db rs t db' :
  Inv L db rs t -> 0 < balance -> inU 256 balance ->
  checkSponsorCapacity_tx L call id balance db = Ok (tt, db') ->
  exists r rs', r ∈ rs /\ Res_ID r = id /\ isOpen (Res_State r) = true /\
    existsb overrun rs = false /\ sponsor_covers rs r balance /\ Inv L db' rs' t /\
    (Res_State r = ReservationExposed /\ db' = db /\ rs' = rs \/
     spec_move L t r (withBalance r balance) /\
       exists rest, rs ≡ₚ r :: rest /\ rs' ≡ₚ withBalance r balance :: rest).
Proof.
  intros Hi Hpos Hbal. unfold checkSponsorCapacity_tx. destruct (contextErrorTx _); [|done].
  destruct (reservationByID L db id) as [r|] eqn:Er; [|done].
  destruct (reservationByID_inv L _ _ _ _ (i_cons _ _ _ _ Hi) Er) as (Hr & Hid & Hv).
  destruct (_ && _) eqn:Eo; [done|]. rewrite (i_last _ _ _ _ Hi). cbn [errOr].
  destruct (collectUsage L db t) as [u|] eqn:Eu; [|done].
  pose proof (inv_collect_agrees L HL _ _ _ _ Hi Eu) as Hag. cbv zeta.
  rewrite (ag_global _ _ _ Hag). change (feeOverrun (scope_of t rs)) with (existsb overrun rs).
  destruct (existsb overrun rs) eqn:Eov; [done|].
  destruct (sponsorHasCapacity _ _ _ _) eqn:Ec; cbn [negb]; [|done].
  apply (sponsor_covers_spec db rs t u r balance Hi Hag Hr Hbal) in Ec.
  destruct (bool_decide (Res_State r = ReservationHeld)) eqn:Eh; bool_hyps.
  - destruct (encodeReservation _) as [d|] eqn:Ed; [|done]. cbn [errOr].
    destruct (put _ _ _) as [b'|] eqn:Ep; [|done]. intros [= <-].
    apply put_inv in Ep. rewrite <- Hid in Ep.
    pose proof (inv_stored L _ _ _ Hi) as Hs. rewrite Forall_forall in Hs. destruct (Hs r Hr).
    destruct (inv_move L HL db rs t r (withBalance r balance) d b') as (rest & rs' & Hp & Hp' & Hi'); auto.
    + by constructor.
    + by split; [|split].
    + cbn. rewrite Eh. done.
    + by apply withBalance_valid.
    + exists r, rs'. rewrite Eh. repeat (split; [done|]). right. split; [by constructor|eauto].
  - intros [= <-]. apply andb_false_iff in Eo as [Eo|Eo]; bool_hyps; [done|].
    exists r, rs. rewrite Eo. repeat (split; [done|]). by left.
Qed.

End Database.

End BudgetReserve.
Export BudgetReserve.
