(* ===== verification/BudgetTheorems.v ===== *)
(** * The budget ledger: refinement and reachability

    Every operation of the ledger, from its guards to its commit, is a step of
    the abstract ledger or changes nothing.  [reachable] is the set of states
    that opening a fresh file, any sequence of operations and any number of
    restarts can produce; the claims about the ledger are stated over it. *)

From S2P Require Import Prelude GoTime Bytes Sha256 Domain Bolt BudgetModel BudgetCodec BudgetLedger BudgetUsage BudgetSpec BudgetInvariant BudgetReserve.

Module BudgetTheorems.

(** ** Operations *)

Inductive Op :=
| OpReserve (q : ReservationRequest)
| OpMarkExposed (id : ReservationID) (txHash : Hash)
| OpCommitFinalized (charge : FinalizedCharge)
| OpReleaseProvenUnused (id : ReservationID)
| OpCheckSponsorCapacity (id : ReservationID) (balance : Z)
| OpClose.

(** What Go's types guarantee of the arguments; for [Reserve] also that the
    digest of the attempt is not the zero digest. *)
Definition op_typed (op : Op) : Prop :=
  match op with
  | OpReserve q => request_typed q /\ is_zero_bytes (NewReservationID (Req_Attempt q)) = false
  | OpMarkExposed _ txHash => isHash txHash
  | OpCommitFinalized charge => isHash (Charge_TxHash charge) /\ inU 256 (Charge_Actual charge)
  | OpCheckSponsorCapacity _ balance => inU 256 balance
  | OpReleaseProvenUnused _ | OpClose => True
  end.

(** An overrun policy may charge any amount; the total must stay below 2^256. *)
Definition op_room (L : BudgetLedger) (rs : list Reservation) (op : Op) : Prop :=
  match op with
  | OpCommitFinalized charge => bounded L \/ sumZ spent_amount rs + Charge_Actual charge < 2 ^ 256
  | _ => True
  end.

Section Database.
Context `{BL : BoltLaws}.

Definition run_op (L : BudgetLedger) (call : Call) (op : Op) (st : LedgerState) : LedgerState :=
  match op with
  | OpReserve q => fst (Reserve L call q st)
  | OpMarkExposed id txHash => fst (MarkExposed L call id txHash st)
  | OpCommitFinalized charge => fst (CommitFinalized L call charge st)
  | OpReleaseProvenUnused id => fst (ReleaseProvenUnused L call id st)
  | OpCheckSponsorCapacity id balance => fst (CheckSponsorCapacity L call id balance st)
  | OpClose => Close st
  end.

Lemma update_cases {A} call st fn st' (r : result LedgerError A) :
  update call st fn = (st', r) ->
  (exists a, r = Ok a /\ fn (st_db st) = Ok (a, st_db st') /\ st_closed st' = st_closed st) \/
  (exists e, r = Err e /\ st' = st).
Proof.
  unfold update. destruct (db_update _ _ fn) as [db' [a|e]] eqn:E; intros [= <- <-].
  - apply db_update_ok in E as [E _]. left. exists a. done.
  - apply db_update_err in E as ->. right. exists (publicError e). by destruct st.
Qed.

Section Ledger.
Context (L : BudgetLedger) (HL : ledger_typed L).

(** ** The change functions are moves *)

Lemma markExposed_move tx r now x :
  isHash tx -> is_zero_bytes tx = false -> reservation_stored r ->
  markExposed_change tx r now = Ok x -> x = r \/ spec_move L now r x /\ move_typed x.
Proof.
  intros Htx Hz []. unfold markExposed_change. destruct (Res_State r) eqn:Hst; try done.
  - intros [= <-]. right. split; [by constructor|by split; [|split]].
  - destruct (negb _); [done|]. intros [= <-]. by left.
  - destruct (negb _); [done|]. intros [= <-]. by left.
Qed.

Lemma commitFinalized_move charge r now x :
  isHash (Charge_TxHash charge) -> inU 256 (Charge_Actual charge) -> 0 < Charge_Actual charge -> reservation_stored r ->
  commitFinalized_change L charge r now = Ok x -> x = r \/ spec_move L now r x /\ move_typed x.
Proof.
  intros Htx Ha Hpos []. unfold commitFinalized_change. destruct (Res_State r) eqn:Hst; try done.
  - destruct (_ || _) eqn:E; [done|]. intros [= <-]. right. split; [|by split; [|split]]. bool_hyps.
    constructor; [done|done|]. apply andb_false_iff in H0 as [H0|H0]; unfold u256_Gt in *; bool_hyps; auto.
  - destruct (_ || _); [done|]. intros [= <-]. by left.
Qed.

Lemma releaseProvenUnused_move r now x :
  reservation_stored r -> releaseProvenUnused_change r now = Ok x -> x = r \/ spec_move L now r x /\ move_typed x.
Proof.
  intros []. unfold releaseProvenUnused_change. destruct (Res_State r) eqn:Hst; try done.
  - intros [= <-]. right. split; [by constructor|by split; [|split]].
  - intros [= <-]. by left.
Qed.

(** Under a bounded policy no record overruns, so the limits bound the sums. *)
Lemma bounded_no_overrun db rs : bounded L -> Consistent L db rs -> existsb overrun rs = false.
Proof.
  intros Hb Hc. apply not_true_is_false. rewrite existsb_exists. intros (r & Hr & Ho).
  apply list_elem_of_In in Hr. pose proof (c_valid _ _ _ Hc) as Hv. rewrite Forall_forall in Hv. specialize (Hv r Hr).
  destruct (validateReservation_request _ _ Hv) as [_ Hq]. destruct (validateRequest_network _ _ Hq) as (np & Hnp).
  unfold overrun in Ho. rewrite isCommitted_state in Ho.
  revert Hv. unfold validateReservation. rewrite (networkPolicy_lookup _ _ _ Hnp), (Hb _ _ Hnp).
  destruct (_ || _); [done|]. cbv zeta. destruct (errOr _ _); [|done]. destruct (_ || _); [done|].
  destruct (Res_State r); try done. cbn in Ho. rewrite Ho. cbn. by rewrite !orb_true_r.
Qed.

Lemma inv_scope_fits db rs t :
  Inv L db rs t -> existsb overrun rs = false -> scope_fits (Policy_Global (L_policy L)) (scope_of t rs).
Proof.
  intros Hi Hno. destruct (i_limits _ _ _ _ Hi) as [Hg _].
  apply scopeWithinLimits_spec in Hg as [Ho|Hs]; [congruence|done|apply HL|by eapply inv_stored|apply Hi].
Qed.

Lemma commit_room db rs t charge r now x :
  Inv L db rs t -> op_room L rs (OpCommitFinalized charge) -> r ∈ rs ->
  commitFinalized_change L charge r now = Ok x -> Res_State x = ReservationCommitted -> x <> r ->
  sumZ spent_amount rs + Res_Actual x < 2 ^ 256.
Proof.
  intros Hi Hroom Hr Hch Hst Hne. pose proof (inv_stored L _ _ _ Hi) as Hs. rewrite Forall_forall in Hs.
  unfold commitFinalized_change in Hch. destruct (Res_State r) eqn:Er; try done.
  2:{ destruct (_ || _); [done|]. congruence. }
  destruct (_ || _) eqn:E; [done|]. injection Hch as <-. cbn [Res_Actual].
  destruct Hroom as [Hb|Hroom]; [|done]. bool_hyps.
  pose proof (c_valid _ _ _ (i_cons _ _ _ _ Hi)) as Hv. rewrite Forall_forall in Hv.
  destruct (validateReservation_request _ _ (Hv r Hr)) as [_ Hq]. destruct (validateRequest_network _ _ Hq) as (np & Hnp).
  rewrite (networkPolicy_lookup _ _ _ Hnp), (Hb _ _ Hnp), andb_true_r in H0. unfold u256_Gt in H0. bool_hyps.
  destruct (inv_scope_fits db rs t Hi (bounded_no_overrun db rs Hb (i_cons _ _ _ _ Hi))) as (_ & _ & Hall).
  cbn [allSpent reserved scope_of] in Hall. unfold scope_of in Hall. cbn [allSpent reserved] in Hall.
  pose proof (sumZ_elem_le open_amount rs r (fun x Hx => open_amount_nonneg x (Hs x Hx)) Hr) as Hle.
  unfold open_amount in Hle at 1. rewrite Er in Hle. cbn in Hle.
  pose proof (lt_all _ (lt_global L HL)). unfold inU in *. lia.
Qed.

(** ** Whole operations *)

(** A transition of reservation [id]: an error changes nothing; a success moves
    that one record, or confirms it as it is. *)
Inductive transition_result (change : Reservation -> Time -> result LedgerError Reservation)
    (id : ReservationID) (rs : list Reservation) (t : Time) (st st' : LedgerState)
    : result LedgerError Reservation -> Prop :=
| transition_err e : st' = st -> transition_result change id rs t st st' (Err e)
| transition_done r r' now rs' :
    t <= now -> r ∈ rs -> Res_ID r = id -> change r now = Ok r' -> r' ∈ rs' ->
    Inv L (st_db st') rs' now ->
    (r' = r /\ rs' = rs \/ spec_move L now r r' /\ exists rest, rs ≡ₚ r :: rest /\ rs' ≡ₚ r' :: rest) ->
    transition_result change id rs t st st' (Ok r').

Lemma transition_spec call id observed change st st' res rs t :
  Inv L (st_db st) rs t -> time_ok (call_now call) ->
  (forall r now x, reservation_stored r -> change r now = Ok x -> x = r \/ spec_move L now r x /\ move_typed x) ->
  (forall r now x, r ∈ rs -> change r now = Ok x -> Res_State x = ReservationCommitted -> x <> r ->
     sumZ spent_amount rs + Res_Actual x < 2 ^ 256) ->
  transition L call id observed change st = (st', res) ->
  transition_result change id rs t st st' res.
Proof.
  intros Hi Hnow Hmove Hroom. unfold transition. destruct (begin call st); [|intros [= <- <-]; by constructor].
  intros [(r' & -> & Htx & _)|(e & -> & ->)]%update_cases; [|by constructor].
  destruct (transition_tx_spec L HL _ _ _ _ _ _ _ _ _ Hi Hnow Hmove Hroom Htx)
    as (r & now & rs' & ? & ? & ? & ? & ? & ? & ?).
  by apply (transition_done change id rs t st st' r r' now rs').
Qed.

Lemma MarkExposed_spec call id tx st st' res rs t :
  Inv L (st_db st) rs t -> time_ok (call_now call) -> isHash tx ->
  MarkExposed L call id tx st = (st', res) ->
  transition_result (markExposed_change tx) id rs t st st' res.
Proof.
  intros Hi Hnow Htx. unfold MarkExposed. destruct (_ || _) eqn:E; [intros [= <- <-]; by constructor|]. bool_hyps.
  apply transition_spec; [done|done| |].
  - intros r now x. by apply markExposed_move.
  - intros r now x Hr. unfold markExposed_change. destruct (Res_State r) eqn:Hst; try done.
    + by intros [= <-].
    + destruct (negb _); [done|]. intros [= <-]. congruence.
    + destruct (negb _); [done|]. congruence.
Qed.

Lemma CommitFinalized_spec call charge st st' res rs t :
  Inv L (st_db st) rs t -> time_ok (call_now call) -> op_typed (OpCommitFinalized charge) ->
  op_room L rs (OpCommitFinalized charge) ->
  CommitFinalized L call charge st = (st', res) ->
  transition_result (commitFinalized_change L charge) (Charge_ReservationID charge) rs t st st' res.
Proof.
  intros Hi Hnow [Htx Ha] Hroom. unfold CommitFinalized. destruct (_ || _) eqn:E; [intros [= <- <-]; by constructor|].
  unfold u256_IsZero in E. bool_hyps. apply transition_spec; [done|done| |].
  - intros r now x. apply commitFinalized_move; auto. unfold inU in Ha. lia.
  - intros r now x Hr Hch Hst Hne. by eapply commit_room.
Qed.

Lemma ReleaseProvenUnused_spec call id st st' res rs t :
  Inv L (st_db st) rs t -> time_ok (call_now call) ->
  ReleaseProvenUnused L call id st = (st', res) ->
  transition_result releaseProvenUnused_change id rs t st st' res.
Proof.
  intros Hi Hnow. unfold ReleaseProvenUnused. destruct (is_zero_bytes id); [intros [= <- <-]; by constructor|].
  apply transition_spec; [done|done| |].
  - intros r now x. by apply releaseProvenUnused_move.
  - intros r now x Hr. unfold releaseProvenUnused_change. destruct (Res_State r) eqn:Hst; try done.
    + by intros [= <-].
    + intros [= <-]. congruence.
Qed.

Lemma reserve_guard_inv call q st observed :
  reserve_guard L call q st = Ok observed ->
  validateRequest L q = Ok tt /\ st_closed st = false /\ observed = call_now call /\
  validPersistentTime observed = true /\
  (Req_ObservedAt q = zeroTime \/ validPersistentTime (Req_ObservedAt q) = true).
Proof.
  unfold reserve_guard, begin, observedNow, normalizeTime. destruct (validateRequest L q) as [[]|]; [|done].
  destruct (contextError _); [|done]. destruct (st_closed st); [done|]. cbn [errOr].
  destruct (validPersistentTime (call_now call)) eqn:Ev; cbn [negb]; [|done].
  unfold IsZero. destruct (Req_ObservedAt q =? 0) eqn:Ez; cbn [negb]; bool_hyps.
  - intros [= <-]. repeat split; auto.
  - destruct (_ || _) eqn:E; [done|]. intros [= <-]. bool_hyps. repeat split; auto.
Qed.

Lemma Reserve_spec call q st st' res rs t :
  Inv L (st_db st) rs t -> time_ok (call_now call) -> op_typed (OpReserve q) ->
  Reserve L call q st = (st', res) ->
  match res with
  | Err _ => st' = st
  | Ok r => exists now rs' rs'', now = Z.max t (call_now call) /\ spec_reserve L rs now q r rs' /\
      rs'' ≡ₚ rs' /\ Inv L (st_db st') rs'' now
  end.
Proof.
  intros Hi Hnow [Hty Hz]. unfold Reserve. destruct (reserve_guard L call q st) as [observed|] eqn:Eg; [|by intros [= <- <-]].
  destruct (reserve_guard_inv _ _ _ _ Eg) as (Hv & _ & -> & _ & Ho).
  intros [(r & -> & Htx & _)|(e & -> & ->)]%update_cases; [|done].
  by apply (reserve_tx_spec L HL) with (2 := Build_request_ok _ _ Hty Hv Ho Hz) (rs := rs) (t := t) in Htx.
Qed.

Lemma CheckSponsorCapacity_spec call id balance st st' res rs t :
  Inv L (st_db st) rs t -> inU 256 balance ->
  CheckSponsorCapacity L call id balance st = (st', res) ->
  match res with
  | Err _ => st' = st
  | Ok _ => exists r rs', r ∈ rs /\ Res_ID r = id /\ isOpen (Res_State r) = true /\ existsb overrun rs = false /\
      sponsor_covers L rs r balance /\ Inv L (st_db st') rs' t /\
      (Res_State r = ReservationExposed /\ st_db st' = st_db st /\ rs' = rs \/
       spec_move L t r (withBalance r balance) /\
         exists rest, rs ≡ₚ r :: rest /\ rs' ≡ₚ withBalance r balance :: rest)
  end.
Proof.
  intros Hi Hb. unfold CheckSponsorCapacity. destruct (_ || _) eqn:E; [by intros [= <- <-]|].
  destruct (begin call st); [|by intros [= <- <-]]. unfold u256_IsZero in E. bool_hyps.
  intros [([] & -> & Htx & _)|(e & -> & ->)]%update_cases; [|done].
  eapply checkSponsorCapacity_tx_spec; eauto. unfold inU in Hb. lia.
Qed.

(** ** The refinement *)

Lemma transition_result_step change id rs t st st' res :
  Inv L (st_db st) rs t -> transition_result change id rs t st st' res ->
  exists rs' t', Inv L (st_db st') rs' t' /\ spec_step L rs t rs' t'.
Proof.
  intros Hi [e ->|r r' now rs' Hle Hr Hid Hch Hr' Hi' [[-> ->]|(Hm & rest & Hp & Hp')]].
  - exists rs, t. split; [done|]. constructor. lia.
  - exists rs, now. split; [done|]. by constructor.
  - exists rs', now. split; [done|]. by eapply spec_step_move.
Qed.

Lemma op_step call op st rs t :
  Inv L (st_db st) rs t -> time_ok (call_now call) -> op_typed op -> op_room L rs op ->
  exists rs' t', Inv L (st_db (run_op L call op st)) rs' t' /\ spec_step L rs t rs' t'.
Proof.
  intros Hi Hnow Hty Hroom.
  assert (Hidle : exists rs' t', Inv L (st_db st) rs' t' /\ spec_step L rs t rs' t').
  { exists rs, t. split; [done|]. constructor. lia. }
  destruct op as [q|id tx|charge|id|id balance|]; cbn [run_op]; [| | | | |exact Hidle].
  - destruct (Reserve L call q st) as [st' res] eqn:E. pose proof (Reserve_spec _ _ _ _ _ _ _ Hi Hnow Hty E) as H.
    destruct res as [r|e]; cbn [fst]; [|by subst st'].
    destruct H as (now & rs' & rs'' & Hn & Hs & Hp & Hi'). exists rs'', now. split; [done|].
    eapply spec_step_reserve; eauto. lia.
  - destruct (MarkExposed L call id tx st) as [st' res] eqn:E.
    eapply transition_result_step, MarkExposed_spec; eauto.
  - destruct (CommitFinalized L call charge st) as [st' res] eqn:E.
    eapply transition_result_step, CommitFinalized_spec; eauto.
  - destruct (ReleaseProvenUnused L call id st) as [st' res] eqn:E.
    eapply transition_result_step, ReleaseProvenUnused_spec; eauto.
  - destruct (CheckSponsorCapacity L call id balance st) as [st' res] eqn:E.
    pose proof (CheckSponsorCapacity_spec _ _ _ _ _ _ _ _ Hi Hty E) as H.
    destruct res as [[]|e]; cbn [fst]; [|by subst st'].
    destruct H as (r & rs' & _ & _ & _ & _ & _ & Hi' & [(_ & _ & ->)|(Hm & rest & Hp & Hp')]).
    + exists rs, t. split; [done|]. constructor. lia.
    + exists rs', t. split; [done|]. eapply spec_step_move; eauto. lia.
Qed.

End Ledger.

(** ** Opening a ledger *)

Definition policy_typed (p : Policy) : Prop :=
  limits_typed (Policy_Global p) /\ Forall network_typed (Policy_Networks p).

Lemma normalize_typed p p' table :
  policy_typed p -> validateAndNormalizePolicy p = Ok (p', table) ->
  Policy_Global p' = Policy_Global p /\ Policy_Networks p' = sort_networks (Policy_Networks p) /\
  forall n np, table !! n = Some np -> NP_Network np = n /\ 0 < n /\ np ∈ Policy_Networks p.
Proof.
  intros [Hg Hn]. unfold validateAndNormalizePolicy. destruct (_ || _); [done|].
  destruct (foldM _ _ _) as [tb|] eqn:E; [|done]. intros [= <- <-]. split; [done|]. split; [done|].
  intros n np Hnp. enough (NP_Network np = n /\ 0 < n /\ np ∈ sort_networks (Policy_Networks p)) as (? & ? & Hin).
  { repeat split; try done. unfold sort_networks in Hin. by rewrite merge_sort_Permutation in Hin. }
  revert n np Hnp. revert E. apply (foldM_invariant (fun seen (tb : gmap Z NetworkPolicy) => forall n np, tb !! n = Some np ->
    NP_Network np = n /\ 0 < n /\ np ∈ seen)); [by intros n np; rewrite lookup_empty|].
  intros seen tb0 np tb1 Htb. destruct (_ || _) eqn:E; [done|]. destruct (bool_decide _); [done|]. intros [= <-] n x.
  bool_hyps. rewrite lookup_insert_Some, elem_of_app, list_elem_of_singleton.
  intros [[<- <-]|[_ Hx]]; [repeat split; [lia|by right]|]. destruct (Htb n x Hx) as (? & ? & ?). auto.
Qed.

Lemma Open_typed policy fingerprint maxRecords now created raw L st :
  policy_typed policy -> inU 32 maxRecords ->
  Open policy fingerprint maxRecords now created raw = Ok (L, st) -> ledger_typed L.
Proof.
  intros Hp Hm. unfold Open. destruct (validateAndNormalizePolicy policy) as [[p' table]|] eqn:E; [|done]. cbn [errOr].
  destruct (_ || _); [done|]. destruct (open_tx _ _ _ _); [|done]. intros [= <- <-].
  destruct (normalize_typed _ _ _ Hp E) as (Hg & _ & Ht). destruct Hp as [Hpg Hpn]. rewrite Forall_forall in Hpn.
  constructor; cbn.
  - by rewrite Hg.
  - intros n np Hnp. destruct (Ht n np Hnp) as (? & ? & Hin). auto.
  - destruct (maxRecords =? 0); [|done]. unfold inU, defaultMaxRecords. lia.
Qed.

(** The file content a process finds after another one's [LedgerState]. *)
Definition raw_of (db : LedgerDB) : RawDB :=
  mkRawDB (Some (db_meta db)) (Some (db_reservations db)) (Some (db_attempts db)) false.

Lemma open_tx_inv L fingerprint created raw db :
  open_tx L fingerprint created raw = Ok db ->
  exists t u, initialize L fingerprint created raw = Ok (created, db) /\
    decodeStoredTime (b_get (db_meta db) ledgerLastSeenKey) = Ok t /\ collectUsage L db t = Ok u.
Proof.
  unfold open_tx. destruct (initialize _ _ _ _) as [[i db0]|e]; [|by destruct e].
  destruct (decodeStoredTime _) as [t|e] eqn:Et; [|by destruct e].
  destruct (collectUsage L db0 t) as [u|e] eqn:Eu; [|by destruct e].
  destruct (Bool.eqb i created) eqn:Eb; cbn [negb]; [|done]. intros [= <-]. apply Bool.eqb_prop in Eb as ->. eauto.
Qed.

Lemma initialize_fresh L fingerprint created raw i db :
  raw_meta raw = None -> initialize L fingerprint created raw = Ok (i, db) ->
  db_reservations db = b_empty /\ db_attempts db = b_empty /\
  b_get (db_meta db) ledgerLastSeenKey = Some (appendTime [] (unixTime 1 0)).
Proof.
  intros Hr. unfold initialize. rewrite Hr. destruct (negb created); [done|]. destruct (_ || _); [done|].
  unfold initialBindings. cbn [foldM].
  repeat match goal with |- context [put ?m ?k ?v] => destruct (put m k v) eqn:?; [|done] end.
  intros [= <- <-]. split; [done|]. split; [done|]. cbn [db_meta].
  repeat match goal with H : put _ _ _ = Ok _ |- _ => apply put_inv in H end.
  match goal with H : b_put ?b ledgerMaxRecordsKey ?v = Some ?b' |- _ =>
    rewrite (b_get_put_ne b b' ledgerMaxRecordsKey v ledgerLastSeenKey ltac:(done) H) end.
  by eapply b_get_put_eq.
Qed.

Lemma initialize_existing L fingerprint created db0 i db :
  initialize L fingerprint created (raw_of db0) = Ok (i, db) ->
  db_reservations db = db_reservations db0 /\ db_attempts db = db_attempts db0 /\
  b_get (db_meta db) ledgerLastSeenKey = b_get (db_meta db0) ledgerLastSeenKey.
Proof.
  unfold initialize, raw_of. cbn [raw_meta raw_reservations raw_attempts].
  destruct (negb _); [done|]. destruct (negb _); [done|]. destruct (negb _); [done|].
  destruct (b_get _ ledgerPolicyKey) as [sp|]; [|done]. destruct (negb _); [done|].
  destruct (bytes_eqb sp _).
  - destruct (negb _); [done|]. destruct (errOr _ _); [|done]. by intros [= <- <-].
  - destruct (previousPolicy _) as [prev changed]. destruct (_ || _); [done|].
    destruct (put _ _ _) as [m|] eqn:Ep; [|done]. apply put_inv in Ep.
    destruct (negb _); [done|]. destruct (errOr _ _); [|done]. intros [= <- <-].
    split; [done|]. split; [done|]. eapply (b_get_put_ne _ _ ledgerPolicyKey _ ledgerLastSeenKey); done.
Qed.

Lemma Open_inv policy fingerprint maxRecords now created raw L st :
  Open policy fingerprint maxRecords now created raw = Ok (L, st) ->
  st_closed st = false /\ open_tx L fingerprint created raw = Ok (st_db st).
Proof.
  unfold Open. destruct (errOr _ _) as [[p' table]|]; [|done]. destruct (_ || _); [done|].
  destruct (open_tx _ _ _ _) eqn:E; [|done]. by intros [= <- <-].
Qed.

Lemma start_after_start : after_start (unixTime 1 0).
Proof. split; [by vm_compute|lia]. Qed.

Lemma Open_fresh policy fingerprint maxRecords now created raw L st :
  raw_meta raw = None -> Open policy fingerprint maxRecords now created raw = Ok (L, st) ->
  Inv L (st_db st) [] (unixTime 1 0).
Proof.
  intros Hr H. destruct (Open_inv _ _ _ _ _ _ _ _ H) as [_ Ho].
  destruct (open_tx_inv _ _ _ _ _ Ho) as (t & u & Hinit & Ht & Hu).
  destruct (initialize_fresh _ _ _ _ _ _ Hr Hinit) as (Hres & Hatt & Hlast).
  rewrite Hlast, decodeStoredTime_bytes in Ht by by vm_compute. injection Ht as <-.
  destruct (collectUsage_sound _ _ _ _ Hu) as (rs & Hc & Hf & _ & Hw).
  assert (rs = []) as ->.
  { pose proof (c_entries _ _ _ Hc) as He. rewrite Hres, b_entries_empty in He. by inv He. }
  constructor; auto; [|apply start_after_start]. rewrite Hlast. by apply decodeStoredTime_bytes; vm_compute.
Qed.

(** Reopening, possibly under the policy that newly allows Base overruns,
    finds the same reservations. *)
Lemma Open_existing policy fingerprint maxRecords now created L db rs t L' st' :
  Inv L db rs t -> Open policy fingerprint maxRecords now created (raw_of db) = Ok (L', st') ->
  Inv L' (st_db st') rs t.
Proof.
  intros Hi H. destruct (Open_inv _ _ _ _ _ _ _ _ H) as [_ Ho].
  destruct (open_tx_inv _ _ _ _ _ Ho) as (t' & u & Hinit & Ht & Hu).
  destruct (initialize_existing _ _ _ _ _ _ Hinit) as (Hres & Hatt & Hlast).
  rewrite Hlast, (i_last _ _ _ _ Hi) in Ht. injection Ht as <-.
  destruct (collectUsage_sound _ _ _ _ Hu) as (rs' & Hc & Hf & _ & Hw).
  assert (rs' = rs) as ->.
  { pose proof (c_entries _ _ _ Hc) as He. rewrite Hres in He. pose proof (c_entries _ _ _ (i_cons _ _ _ _ Hi)) as He0.
    clear -He He0. revert rs He0. induction He as [|e x es xs [_ Hx] _ IH]; intros rs He0; inv He0; [done|].
    f_equal; [|by apply IH]. match goal with H : holds _ _ |- _ => destruct H as [_ H] end. congruence. }
  constructor; auto; try apply Hi. rewrite Hlast. apply Hi.
Qed.

(** ** Reachable states *)

(** One event in the life of a ledger file: an operation of the process that
    has it open, or a restart that opens it again. *)
Inductive ledger_step : BudgetLedger * LedgerState -> BudgetLedger * LedgerState -> Prop :=
| step_op L st call op :
    time_ok (call_now call) -> op_typed op ->
    (forall rs, Consistent L (st_db st) rs -> op_room L rs op) ->
    ledger_step (L, st) (L, run_op L call op st)
| step_reopen L st policy fingerprint maxRecords now L' st' :
    policy_typed policy -> inU 32 maxRecords ->
    Open policy fingerprint maxRecords now false (raw_of (st_db st)) = Ok (L', st') ->
    ledger_step (L, st) (L', st').

Inductive reachable : BudgetLedger * LedgerState -> Prop :=
| reach_open policy fingerprint maxRecords now raw L st :
    policy_typed policy -> inU 32 maxRecords -> raw_meta raw = None ->
    Open policy fingerprint maxRecords now true raw = Ok (L, st) -> reachable (L, st)
| reach_step x y : reachable x -> ledger_step x y -> reachable y.

(** A restart keeps the reservations and the clock; an operation is a step of
    the abstract ledger. *)
Lemma ledger_step_inv x y rs t :
  ledger_step x y -> ledger_typed x.1 -> Inv x.1 (st_db x.2) rs t ->
  ledger_typed y.1 /\ exists rs' t', Inv y.1 (st_db y.2) rs' t' /\ spec_step x.1 rs t rs' t'.
Proof.
  intros [L st call op Hnow Hty Hroom|L st policy fp mr now L' st' Hp Hm Ho] HL Hi; cbn in *.
  - split; [done|]. by apply op_step; auto; apply Hroom, Hi.
  - split; [by eapply Open_typed|]. exists rs, t. split; [by eapply Open_existing|]. constructor. lia.
Qed.

Lemma reachable_inv x : reachable x -> ledger_typed x.1 /\ LedgerInv x.1 (st_db x.2).
Proof.
  induction 1 as [policy fp mr now raw L st Hp Hm Hr Ho|x y _ [HL (rs & t & Hi)] Hs].
  - split; [by eapply Open_typed|]. exists [], (unixTime 1 0). by eapply Open_fresh.
  - destruct (ledger_step_inv x y rs t Hs HL Hi) as (? & rs' & t' & ? & _). split; [done|]. by exists rs', t'.
Qed.

Lemma reachable_steps x y : reachable x -> rtc ledger_step x y -> reachable y.
Proof. intros Hx. induction 1 as [|x y z Hs _ IH]; [done|]. apply IH. by eapply reach_step. Qed.

(** ** What a step keeps *)

(** The evidence of money that left: a committed record never changes, an
    exposed one stays exposed under the same hash or is committed. *)
Definition kept_in (r : Reservation) (rs : list Reservation) : Prop :=
  match Res_State r with
  | ReservationCommitted => r ∈ rs
  | ReservationExposed =>
      exists r', r' ∈ rs /\ Res_ID r' = Res_ID r /\ Res_TxHash r' = Res_TxHash r /\ Res_Maximum r' = Res_Maximum r /\
        (Res_State r' = ReservationExposed \/ Res_State r' = ReservationCommitted)
  | _ => True
  end.

Lemma kept_here r rs : r ∈ rs -> kept_in r rs.
Proof. intros Hr. unfold kept_in. destruct (Res_State r) eqn:E; auto. exists r. repeat split; auto. Qed.

Lemma kept_move L now x x' r : spec_move L now x x' -> r = x -> kept_in r [x'].
Proof.
  intros Hm ->. unfold kept_in. destruct Hm as [x tx Hst|x actual Hst|x Hst|x balance Hst]; rewrite Hst; try done.
  eexists. split; [by apply list_elem_of_singleton|]. cbn. repeat split; auto.
Qed.

Lemma kept_mono r rs rs' : (forall x, x ∈ rs -> x ∈ rs') -> kept_in r rs -> kept_in r rs'.
Proof. intros H. unfold kept_in. destruct (Res_State r); auto. intros (x & Hx & Hrest). eauto. Qed.

Lemma kept_reserve L rs now q x rs' r :
  spec_reserve L rs now q x rs' -> r ∈ rs -> kept_in r rs'.
Proof.
  intros Hs Hr. destruct Hs as [x Hx|old rest m Hp _ Hst|purged kept m _ Hp Hpur]; [by apply kept_here| |].
  - rewrite Hp in Hr. apply elem_of_cons in Hr as [->|Hr]; [|apply kept_here; by right].
    unfold kept_in. by rewrite Hst.
  - rewrite Hp in Hr. apply elem_of_app in Hr as [Hr|Hr]; [|apply kept_here; by right].
    destruct Hpur as [[_ ->]|(_ & p & -> & _ & Hst & _)]; [by apply elem_of_nil in Hr|].
    apply list_elem_of_singleton in Hr as ->. unfold kept_in. by rewrite Hst.
Qed.

Lemma kept_step L rs t rs' t' r : spec_step L rs t rs' t' -> r ∈ rs -> kept_in r rs'.
Proof.
  intros [rs0 t0 now q x rs1 rs2 _ Hs Hp|rs0 t0 now x x' rest rs1 _ Hm Hp Hp'|rs0 t0 now _] Hr.
  - eapply kept_mono; [|by eapply kept_reserve]. intros y Hy. by rewrite Hp.
  - rewrite Hp in Hr. apply elem_of_cons in Hr as [->|Hr].
    + eapply kept_mono; [|by eapply kept_move]. intros y ->%list_elem_of_singleton. rewrite Hp'. left.
    + apply kept_here. rewrite Hp'. by right.
  - by apply kept_here.
Qed.

Lemma kept_trans r rs rs' :
  kept_in r rs -> (forall x, x ∈ rs -> kept_in x rs') -> kept_in r rs'.
Proof.
  unfold kept_in at 1 3. intros Hr Hall. destruct (Res_State r) eqn:Est; try done.
  - destruct Hr as (x & Hx & Hid & Htx & Hm & [Hst|Hst]); specialize (Hall x Hx); unfold kept_in in Hall; rewrite Hst in Hall.
    + destruct Hall as (y & Hy & Hid' & Htx' & Hm' & Hs'). exists y. repeat split; congruence || auto.
    + exists x. repeat split; auto.
  - specialize (Hall r Hr). unfold kept_in in Hall. by rewrite Est in Hall.
Qed.

Lemma steps_keep x y rs t :
  rtc ledger_step x y -> ledger_typed x.1 -> Inv x.1 (st_db x.2) rs t ->
  exists rs' t', Inv y.1 (st_db y.2) rs' t' /\ t <= t' /\ forall r, r ∈ rs -> kept_in r rs'.
Proof.
  intros Hs. revert rs t. induction Hs as [x|x y z Hxy _ IH]; intros rs t HL Hi.
  - exists rs, t. split; [done|]. split; [lia|]. intros r. apply kept_here.
  - destruct (ledger_step_inv x y rs t Hxy HL Hi) as (HL' & rs1 & t1 & Hi1 & Hst).
    destruct (IH rs1 t1 HL' Hi1) as (rs2 & t2 & Hi2 & Hle & Hk). exists rs2, t2. split; [done|].
    assert (t <= t1) by (by destruct Hst). split; [lia|].
    intros r Hr. eapply kept_trans; [by eapply kept_step|done].
Qed.

(** ** The policy a file is bound to *)

Lemma effectiveNow_meta db obs now db' k :
  k <> ledgerLastSeenKey -> effectiveNow db obs = Ok (now, db') -> b_get (db_meta db') k = b_get (db_meta db) k.
Proof.
  intros Hk. unfold effectiveNow. destruct (errOr _ _); [|done]. destruct (negb _); [by intros [= <- <-]|].
  destruct (put _ _ _) as [m|] eqn:E; [|done]. apply put_inv in E. intros [= <- <-]. cbn [db_meta withMeta].
  by eapply b_get_put_ne.
Qed.

Lemma storeReservation_meta db r db' : storeReservation db r = Ok db' -> db_meta db' = db_meta db.
Proof. by intros (d & b' & _ & _ & ->)%storeReservation_inv. Qed.

Lemma reserve_tx_meta L call q obs db r db' k :
  k <> ledgerLastSeenKey -> reserve_tx L call q obs db = Ok (r, db') -> b_get (db_meta db') k = b_get (db_meta db) k.
Proof.
  intros Hk. unfold reserve_tx. destruct (contextErrorTx _); [|done].
  destruct (effectiveNow db obs) as [[now db1]|] eqn:Ee; [|done].
  rewrite <- (effectiveNow_meta _ _ _ _ _ Hk Ee). destruct (collectUsage _ _ _) as [u|]; [|done].
  enough (Hm : forall id, reserveExisting L q now u id db1 = Ok (r, db') \/ reserveNew L q now u db1 = Ok (r, db') ->
    db_meta db' = db_meta db1).
  { destruct (b_get (db_attempts db1) _) as [id|]; intros H; [rewrite (Hm id)|rewrite (Hm [])]; auto. }
  intros id [H|H]; revert H.
  - unfold reserveExisting. destruct (negb _); [done|]. destruct (errOr _ _) as [x|]; [|done].
    destruct (negb _); [done|]. destruct (negb _); [done|]. destruct (bool_decide _); [|by intros [= <- <-]].
    destruct (admitMaximum _ _ _); [|done]. destruct (storeReservation _ _) eqn:Es; [|done].
    intros [= <- <-]. by apply storeReservation_meta in Es.
  - unfold reserveNew.
    match goal with |- (let! _ := ?c in _) = _ -> _ => destruct c as [db2|] eqn:Er; [|done] end.
    assert (Hm2 : db_meta db2 = db_meta db1).
    { revert Er. destruct (_ <=? _); [|by intros [= <-]]. unfold purgeOldestReleased.
      destruct (foldM _ _ _) as [[s|]|]; [|done|done]. cbn. by intros [= <-]. }
    destruct (admitMaximum _ _ _); [|done]. destruct (bool_decide _); [done|].
    destruct (storeReservation _ _) eqn:Es; [|done]. destruct (put _ _ _); [|done]. intros [= <- <-].
    apply storeReservation_meta in Es. cbn. congruence.
Qed.

Lemma transition_tx_meta L call id observed change db r db' k :
  k <> ledgerLastSeenKey -> transition_tx L call id observed change db = Ok (r, db') ->
  b_get (db_meta db') k = b_get (db_meta db) k.
Proof.
  intros Hk. unfold transition_tx. destruct (contextErrorTx _); [|done].
  destruct (transition_now _ _ _) as [[now db1]|] eqn:Et; [|done].
  assert (Hm : b_get (db_meta db1) k = b_get (db_meta db) k).
  { revert Et. unfold transition_now. destruct (IsZero _).
    - destruct (decodeStoredTime _); [|done]. by intros [= <- <-].
    - destruct (errOr _ _); [|done]. destruct (_ || _); [done|]. by apply effectiveNow_meta. }
  rewrite <- Hm. destruct (collectUsage _ _ _); [|done]. destruct (reservationByID _ _ _); [|done].
  destruct (change _ _); [|done]. destruct (bool_decide _); [by intros [= <- <-]|].
  destruct (errOr _ _); [|done]. destruct (errOr _ _); [|done]. destruct (put _ _ _); [|done]. by intros [= <- <-].
Qed.

Lemma checkSponsorCapacity_tx_meta L call id balance db db' :
  checkSponsorCapacity_tx L call id balance db = Ok (tt, db') -> db_meta db' = db_meta db.
Proof.
  unfold checkSponsorCapacity_tx. destruct (contextErrorTx _); [|done]. destruct (reservationByID _ _ _); [|done].
  destruct (_ && _); [done|]. destruct (errOr _ _); [|done]. destruct (collectUsage _ _ _); [|done]. cbv zeta.
  destruct (feeOverrun _); [done|]. destruct (negb _); [done|]. destruct (bool_decide _); [|by intros [= <-]].
  destruct (errOr _ _); [|done]. destruct (put _ _ _); [|done]. by intros [= <-].
Qed.

Lemma update_meta {A} call st (fn : LedgerDB -> result LedgerError (A * LedgerDB)) k :
  (forall a db', fn (st_db st) = Ok (a, db') -> b_get (db_meta db') k = b_get (db_meta (st_db st)) k) ->
  b_get (db_meta (st_db (fst (update call st fn)))) k = b_get (db_meta (st_db st)) k.
Proof.
  intros H. destruct (update call st fn) as [st' r] eqn:E.
  destruct (update_cases _ _ _ _ _ E) as [(a & _ & Hf & _)|(e & _ & ->)]; [by apply (H a)|done].
Qed.

(** No operation touches the bindings of the file. *)
Lemma run_op_meta L call op st k :
  k <> ledgerLastSeenKey -> b_get (db_meta (st_db (run_op L call op st))) k = b_get (db_meta (st_db st)) k.
Proof.
  intros Hk. assert (Htr : forall id observed change,
    b_get (db_meta (st_db (fst (transition L call id observed change st)))) k = b_get (db_meta (st_db st)) k).
  { intros. unfold transition. destruct (begin call st); [|done]. apply update_meta. intros ? ?. by apply transition_tx_meta. }
  destruct op as [q|id tx|charge|id|id balance|]; cbn [run_op]; [| | | | |done].
  - unfold Reserve. destruct (reserve_guard _ _ _ _); [|done]. apply update_meta. intros ? ?. by apply reserve_tx_meta.
  - unfold MarkExposed. by destruct (_ || _).
  - unfold CommitFinalized. by destruct (_ || _).
  - unfold ReleaseProvenUnused. by destruct (is_zero_bytes id).
  - unfold CheckSponsorCapacity. destruct (_ || _); [done|]. destruct (begin call st); [|done]. apply update_meta.
    intros [] db' H. by rewrite (checkSponsorCapacity_tx_meta _ _ _ _ _ _ H).
Qed.

(** The file stores the encoding of the policy in force. *)
Definition policy_bound (x : BudgetLedger * LedgerState) : Prop :=
  b_get (db_meta (st_db x.2)) ledgerPolicyKey = Some (encodePolicy (L_policy x.1)).

Lemma initialize_bound L fingerprint created raw i db :
  initialize L fingerprint created raw = Ok (i, db) ->
  b_get (db_meta db) ledgerPolicyKey = Some (encodePolicy (L_policy L)).
Proof.
  unfold initialize. destruct (raw_meta raw) as [meta|].
  - destruct (raw_reservations raw), (raw_attempts raw); try done.
    destruct (negb _); [done|]. destruct (negb _); [done|]. destruct (negb _); [done|].
    destruct (b_get meta ledgerPolicyKey) as [sp|] eqn:Eg; [|done]. destruct (negb _); [done|].
    destruct (bytes_eqb sp _) eqn:Eb.
    + apply bytes_eqb_spec in Eb as ->. destruct (negb _); [done|]. destruct (errOr _ _); [|done]. by intros [= <- <-].
    + destruct (previousPolicy _). destruct (_ || _); [done|]. destruct (put _ _ _) as [m|] eqn:Ep; [|done].
      apply put_inv in Ep. destruct (negb _); [done|]. destruct (errOr _ _); [|done]. intros [= <- <-].
      by eapply b_get_put_eq.
  - destruct (negb created); [done|]. destruct (_ || _); [done|]. unfold initialBindings. cbn [foldM].
    repeat match goal with |- context [put ?m ?k ?v] => destruct (put m k v) eqn:?; [|done] end.
    intros [= <- <-]. cbn [db_meta].
    repeat match goal with H : put _ _ _ = Ok _ |- _ => apply put_inv in H end.
    repeat match goal with H : b_put ?b ?k ?v = Some ?b' |- context [b_get ?b' ledgerPolicyKey] =>
      rewrite (b_get_put_ne b b' k v ledgerPolicyKey ltac:(done) H) end.
    by eapply b_get_put_eq.
Qed.

Lemma Open_bound policy fingerprint maxRecords now created raw L st :
  Open policy fingerprint maxRecords now created raw = Ok (L, st) -> policy_bound (L, st).
Proof.
  intros [_ Ho]%Open_inv. destruct (open_tx_inv _ _ _ _ _ Ho) as (t & u & Hinit & _).
  by eapply initialize_bound.
Qed.

(** What may change in the policy of a file: Base overruns may become allowed. *)
Definition upgrades (old new : Policy) : Prop :=
  encodePolicy old = encodePolicy new \/
  snd (previousPolicy new) = true /\ encodePolicy old = encodePolicy (fst (previousPolicy new)).

Lemma Open_upgrades policy fingerprint maxRecords now created L st L' st' :
  policy_bound (L, st) -> Open policy fingerprint maxRecords now created (raw_of (st_db st)) = Ok (L', st') ->
  upgrades (L_policy L) (L_policy L').
Proof.
  intros Hb [_ Ho]%Open_inv. destruct (open_tx_inv _ _ _ _ _ Ho) as (t & u & Hinit & _). unfold policy_bound in Hb. cbn [fst snd] in Hb.
  revert Hinit. unfold initialize, raw_of, upgrades. cbn [raw_meta raw_reservations raw_attempts].
  destruct (negb _); [done|]. destruct (negb _); [done|]. destruct (negb _); [done|]. rewrite Hb.
  destruct (negb _); [done|]. destruct (bytes_eqb (encodePolicy (L_policy L)) _) eqn:Eb.
  { apply bytes_eqb_spec in Eb. by left. }
  destruct (previousPolicy (L_policy L')) as [prev changed]. destruct (_ || _) eqn:E; [done|]. bool_hyps. cbn [fst snd].
  intros _. right. split; [done|]. by apply bytes_eqb_spec.
Qed.

Lemma ledger_step_bound x y : ledger_step x y -> policy_bound x -> policy_bound y.
Proof.
  intros [L st call op _ _ _|L st policy fp mr now L' st' _ _ Ho] Hb; [|by eapply Open_bound].
  unfold policy_bound in *. cbn [fst snd] in *. by rewrite run_op_meta.
Qed.

Lemma reachable_bound x : reachable x -> policy_bound x.
Proof. induction 1; [by eapply Open_bound|by eapply ledger_step_bound]. Qed.

Lemma normalize_encodable p p' table :
  policy_typed p -> validateAndNormalizePolicy p = Ok (p', table) -> policy_encodable p'.
Proof.
  intros [Hg Hn]. unfold validateAndNormalizePolicy. destruct (_ || _) eqn:Ec; [done|].
  destruct (foldM _ _ _) as [tb|] eqn:E; [|done]. intros [= <- <-]. bool_hyps. constructor; cbn.
  - done.
  - eapply Forall_perm; [symmetry; apply sort_networks_perm|done].
  - enough (NoDup (map NP_Network (sort_networks (Policy_Networks p))) /\
            forall n, n ∈ map NP_Network (sort_networks (Policy_Networks p)) -> is_Some (tb !! n)) as [? _] by done.
    revert E. apply (foldM_invariant (fun seen (tb : gmap Z NetworkPolicy) =>
      NoDup (map NP_Network seen) /\ forall n, n ∈ map NP_Network seen -> is_Some (tb !! n))).
    { split; [constructor|]. by intros n Hn0%elem_of_nil. }
    intros seen tb0 np tb1 [Hnd Hseen]. destruct (_ || _); [done|]. destruct (bool_decide _) eqn:Eb; [done|].
    intros [= <-]. apply bool_decide_eq_false in Eb. rewrite map_app. cbn [map]. split.
    + apply NoDup_app. split; [done|]. split; [|apply NoDup_singleton].
      intros n Hn1 ->%list_elem_of_singleton. by apply Eb, Hseen.
    + intros n [Hn1| ->%list_elem_of_singleton]%elem_of_app.
      * destruct (decide (NP_Network np = n)) as [<-|]; [by rewrite lookup_insert_eq|].
        rewrite lookup_insert_ne by done. by apply Hseen.
      * by rewrite lookup_insert_eq.
  - rewrite sort_networks_perm. lia.
Qed.

Lemma Open_encodable policy fingerprint maxRecords now created raw L st :
  policy_typed policy -> Open policy fingerprint maxRecords now created raw = Ok (L, st) -> policy_encodable (L_policy L).
Proof.
  intros Hp. unfold Open. destruct (validateAndNormalizePolicy policy) as [[p' table]|] eqn:E; [|done]. cbn [errOr].
  destruct (_ || _); [done|]. destruct (open_tx _ _ _ _); [|done]. intros [= <- <-]. by eapply normalize_encodable.
Qed.

Lemma ledger_step_encodable x y : ledger_step x y -> policy_encodable (L_policy x.1) -> policy_encodable (L_policy y.1).
Proof. intros [|]; [done|]. intros _. by eapply Open_encodable. Qed.

Lemma reachable_encodable x : reachable x -> policy_encodable (L_policy x.1).
Proof. induction 1; [by eapply Open_encodable|by eapply ledger_step_encodable]. Qed.

(** Two policies agree on every amount, sponsor and network: neither has a
    network the other lacks. *)
Definition same_limits (p q : Policy) : Prop :=
  Policy_Global p = Policy_Global q /\
  (forall np, np ∈ Policy_Networks p -> exists np', np' ∈ Policy_Networks q /\ same_network np np') /\
  (forall np', np' ∈ Policy_Networks q -> exists np, np ∈ Policy_Networks p /\ same_network np np').

#[export] Instance same_limits_trans : Transitive same_limits.
Proof.
  intros p q r (Hg & Hn & Hb) (Hg' & Hn' & Hb'). split; [congruence|]. split.
  - intros np Hnp. destruct (Hn np Hnp) as (x & Hx & (? & ? & ? & ? & ?)). destruct (Hn' x Hx) as (y & Hy & (? & ? & ? & ? & ?)).
    exists y. split; [done|]. repeat split; congruence.
  - intros np Hnp. destruct (Hb' np Hnp) as (x & Hx & (? & ? & ? & ? & ?)). destruct (Hb x Hx) as (y & Hy & (? & ? & ? & ? & ?)).
    exists y. split; [done|]. repeat split; congruence.
Qed.

#[export] Instance same_limits_refl : Reflexive same_limits.
Proof. intros p. split; [done|]. split; intros np Hnp; (exists np; split; [done|]; by repeat split). Qed.

Lemma encode_same_limits p q :
  policy_encodable p -> policy_encodable q -> encodePolicy p = encodePolicy q -> same_limits p q.
Proof.
  intros Hp Hq [Hg Hs]%encodePolicy_inj; [|done|done]. split; [done|].
  split; intros np Hnp; (exists np; split; [|by repeat split]).
  - by rewrite <- sort_networks_perm, <- Hs, sort_networks_perm.
  - by rewrite <- sort_networks_perm, Hs, sort_networks_perm.
Qed.

(** Forbidding Base overruns again changes nothing but flags. *)
Lemma previousPolicy_same p : policy_encodable p -> policy_encodable (fst (previousPolicy p)) /\ same_limits (fst (previousPolicy p)) p.
Proof.
  intros [Hg Hn Hd Hc]. unfold previousPolicy. cbn [fst].
  set (revert n := if (NP_Network n =? 8453) && NP_AllowFeeOverrun n then _ else n).
  assert (Hsame : forall n, same_network (revert n) n) by (intros n; subst revert; cbv beta; case_match; by repeat split).
  split.
  - constructor; cbn; [done| | |by rewrite length_map].
    + rewrite Forall_map. eapply Forall_impl; [exact Hn|]. cbn. intros n [].
      destruct (Hsame n) as (E1 & E2 & E3 & E4 & E5). by constructor; rewrite ?E1, ?E2, ?E3, ?E4, ?E5.
    + rewrite map_map. erewrite map_ext; [exact Hd|]. intros n. apply Hsame.
  - split; [done|]. cbn. split; [intros np (n & -> & Hin)%list_elem_of_fmap; by exists n|].
    intros n Hin. exists (revert n). split; [|done]. apply list_elem_of_fmap. by exists n.
Qed.

Lemma upgrades_same_limits p q : policy_encodable p -> policy_encodable q -> upgrades p q -> same_limits p q.
Proof.
  intros Hp Hq [E|[_ E]]; [by apply encode_same_limits|].
  destruct (previousPolicy_same q Hq) as [He Hs]. etransitivity; [|exact Hs]. by apply encode_same_limits.
Qed.

Lemma ledger_step_limits x y :
  policy_bound x -> policy_encodable (L_policy x.1) -> ledger_step x y -> same_limits (L_policy x.1) (L_policy y.1).
Proof.
  intros Hb He Hs. revert Hb He. destruct Hs as [L st call op _ _ _|L st policy fp mr now L' st' Hp _ Ho]; [reflexivity|].
  intros Hb He.
  apply upgrades_same_limits; [done|by eapply Open_encodable|by eapply Open_upgrades].
Qed.

End Database.

End BudgetTheorems.
Export BudgetTheorems.
