(* ===== verification/BudgetClaims.v ===== *)
(** * What the budget ledger guarantees

    The claims about the ledger, each over every reachable state: it never
    overspends, it implements its contract, it keeps the evidence of spent
    money and the policy it was created with, it admits exactly what the policy
    admits, and its read operations report exactly what it holds. *)

From S2P Require Import Prelude GoTime Bytes Sha256 Domain Bolt BudgetModel BudgetCodec BudgetLedger BudgetUsage BudgetSpec BudgetInvariant BudgetReserve BudgetTheorems.

Module BudgetClaims.

Section Claims.
Context `{BL : BoltLaws}.

(** ** Helper lemmas: success of the steps of Reserve *)

Lemma inv_network_limits L n np : ledger_typed L -> L_networks L !! n = Some np -> limits_typed (NP_Limits np).
Proof. intros HL H. apply (lt_network L HL _ _ H). Qed.

Lemma storeReservation_ok db r :
  reservation_stored r -> validPersistentTime (Res_CreatedAt r) = true -> validPersistentTime (Res_UpdatedAt r) = true ->
  exists db', storeReservation db r = Ok db' /\ db_attempts db' = db_attempts db.
Proof.
  intros Hs H1 H2. unfold storeReservation. destruct (encodeReservation_ok r H1 H2) as (d & Hd). rewrite Hd. cbn [errOr].
  destruct (put_ok (db_reservations db) (Res_ID r) d) as (b' & -> & _); [|by eexists].
  pose proof (rs_id r Hs) as Hid. unfold isHash in Hid. split; [by intros E; rewrite E in Hid|].
  rewrite (encodeReservation_len r d Hs Hd). unfold len. rewrite Hid. done.
Qed.

Lemma make_room_ok L db rs :
  Consistent L db rs ->
  (Z.of_nat (length rs) < L_maxRecords L \/ exists x, x ∈ rs /\ Res_State x = ReservationReleased) ->
  exists db1,
  (if L_maxRecords L <=? b_keyN (db_reservations db) then
     let! (removed, db) := purgeOldestReleased L db in
     reject negb removed with ErrCapacity in Ok db
   else Ok db) = Ok db1.
Proof.
  intros Hc Hroom. rewrite (keyN_length L _ _ Hc). destruct (_ <=? _) eqn:E; bool_hyps; [|eauto].
  destruct (purge_spec L db rs Hc) as [(p & _ & ->)|[Hn _]]; [cbn; eauto|].
  destruct Hroom as [?|(x & Hx & Hst)]; [lia|]. by destruct (Hn x Hx).
Qed.

Lemma make_room_attempts L db db1 id :
  (if L_maxRecords L <=? b_keyN (db_reservations db) then
     let! (removed, db) := purgeOldestReleased L db in
     reject negb removed with ErrCapacity in Ok db
   else Ok db) = Ok db1 ->
  b_get (db_reservations db) id = None -> b_get (db_reservations db1) id = None.
Proof.
  destruct (_ <=? _); [|by intros [= <-]]. unfold purgeOldestReleased.
  destruct (foldM _ _ _) as [[s|]|]; [|done|done]. cbn. intros [= <-] H. cbn. rewrite bl_get_delete. by case_decide.
Qed.

Lemma reserveNew_ok L db rs now u q m :
  ledger_typed L -> Inv L db rs now -> request_ok L q -> agrees now rs u ->
  (Z.of_nat (length rs) < L_maxRecords L \/ exists x, x ∈ rs /\ Res_State x = ReservationReleased) ->
  (forall x, x ∈ rs -> Res_ID x <> NewReservationID (Req_Attempt q)) ->
  admitMaximum L u q = Ok m ->
  exists db', reserveNew L q now u db = Ok (heldFrom L q m now, db').
Proof.
  intros HL Hi Hq Hag Hroom Hfresh Hm. unfold reserveNew. pose proof (i_cons _ _ _ _ Hi) as Hc.
  destruct (make_room_ok L db rs Hc Hroom) as (db1 & E). rewrite E, Hm.
  change (mkReservation (NewReservationID (Req_Attempt q)) q m ReservationHeld zeroHash 0 now zeroTime now)
    with (heldFrom L q m now).
  assert (Hnone : b_get (db_reservations db) (Res_ID (heldFrom L q m now)) = None).
  { destruct (b_get _ _) as [d|] eqn:Eg; [|done]. destruct (consistent_get _ _ _ _ _ Hc Eg) as (x & Hx & Hid & _).
    by destruct (Hfresh x Hx). }
  rewrite (make_room_attempts L db db1 _ E Hnone). rewrite bool_decide_eq_false_2 by by intros [? ?].
  destruct (admitted L HL db rs now u q m Hi Hq Hag Hm) as (_ & _ & Hst & _).
  pose proof (after_start_valid _ (i_start _ _ _ _ Hi)) as Hv.
  destruct (storeReservation_ok db1 (heldFrom L q m now) Hst Hv Hv) as (db2 & -> & _).
  destruct (put_ok (db_attempts db2) (attemptKey (Req_Attempt q)) (Res_ID (heldFrom L q m now))) as (a & -> & _); [|eauto].
  pose proof (rt_incident q (ro_typed L q Hq)) as Hinc. pose proof (attemptKey_len _ Hinc) as Hlen.
  split; [by intros E0; rewrite E0 in Hlen|]. rewrite Hlen. unfold len. cbn [Res_ID heldFrom].
  rewrite NewReservationID_length. done.
Qed.

(** ** Helper lemmas: errors *)

Lemma publicError_idem e : publicError (publicError e) = publicError e.
Proof. by destruct e. Qed.

Definition atomic {A} (st : LedgerState) (res : LedgerState * result LedgerError A) : Prop :=
  forall e, snd res = Err e -> fst res = st /\ publicError e = e.

Lemma atomic_err {A} st e : publicError e = e -> atomic (A := A) st (st, Err e).
Proof. intros H e' [= <-]. done. Qed.

Lemma atomic_update {A} call st (fn : LedgerDB -> result LedgerError (A * LedgerDB)) : atomic st (update call st fn).
Proof.
  intros e. destruct (update call st fn) as [st' r] eqn:E. cbn. intros ->. split.
  - by destruct (update_cases _ _ _ _ _ E) as [(a & ? & _)|(e' & _ & ->)].
  - unfold update in E. destruct (db_update _ _ fn) as [db' [a|e']]; [done|].
    injection E as <- <-. apply publicError_idem.
Qed.

Lemma begin_public call st e : begin call st = Err e -> publicError e = e.
Proof.
  unfold begin, contextError. destruct (call_ctx call) as [|[c|] ?]; try (by intros [= <-]).
  destruct (st_closed st); by intros [= <-].
Qed.

Lemma atomic_transition L call id observed change st : atomic st (transition L call id observed change st).
Proof.
  unfold transition. destruct (begin call st) eqn:E; [apply atomic_update|]. by eapply atomic_err, begin_public.
Qed.

Lemma reserve_guard_public L call q st e : reserve_guard L call q st = Err e -> publicError e = e.
Proof.
  unfold reserve_guard, validateRequest. destruct (L_networks L !! _) as [np|]; [|by intros [= <-]].
  destruct (_ || _); [by intros [= <-]|]. destruct (CostQuote_Maximum _ _) as [m|e'] eqn:Em.
  - destruct (begin call st) eqn:Eb; [|intros [= <-]; by eapply begin_public].
    unfold observedNow. destruct (negb _); [by intros [= <-]|]. destruct (negb _); [|done].
    destruct (_ || _); by intros [= <-].
  - intros [= <-]. revert Em. unfold CostQuote_Maximum.
    destruct (_ || _); [by intros [= <-]|]. destruct (u256_MulOverflow _ _) as [a o].
    destruct o; [by intros [= <-]|]. destruct (u256_AddOverflow _ _) as [a' o'].
    repeat case_match; by intros [= <-].
Qed.

(** ** Helper lemmas: reads *)

(** What a scope's snapshot says: after an overrun nothing remains, else each
    limit less what is spent and reserved. *)
Definition scope_report (limits : Limits) (u : scopeUsage) : ScopeSnapshot :=
  mkScopeSnapshot (mkTotals (hourSpent u) (daySpent u) (allSpent u)) (mkTotals (reserved u) (reserved u) (reserved u))
    (if feeOverrun u then mkTotals 0 0 0
     else mkTotals (PerHour limits - hourSpent u - reserved u) (PerDay limits - daySpent u - reserved u)
            (Cumulative limits - allSpent u - reserved u)).

Lemma makeScopeSnapshot_spec limits now rs :
  limits_typed limits -> Forall reservation_stored rs -> fits rs ->
  scopeWithinLimits limits (scope_of now rs) = true ->
  makeScopeSnapshot limits (scope_of now rs) = Ok (scope_report limits (scope_of now rs)).
Proof.
  intros Hl Hs Hf Hw. pose proof (sums_range now rs Hs Hf) as (Ho & Ha & Hh & Hd).
  apply scopeWithinLimits_spec in Hw; [|done..]. unfold makeScopeSnapshot, scope_report, scope_fits in *.
  unfold scope_of in *. cbn [feeOverrun hourSpent daySpent allSpent reserved] in *.
  destruct (existsb overrun rs); [done|]. destruct Hw as [?|(H1 & H2 & H3)]; [done|]. destruct Hl. unfold inU in *.
  rewrite !remaining_spec by (unfold inU; lia). by rewrite !decide_True by lia.
Qed.

Lemma snapshot_networks {V W} (f : Z -> V -> result LedgerError W) (g : Z -> V -> W) (l : list (Z * V)) acc :
  (forall n v, (n, v) ∈ l -> f n v = Ok (g n v)) -> NoDup l.*1 ->
  exists out, foldM (fun (acc : gmap Z W) '(n, v) => let! w := f n v in Ok (<[n := w]> acc)) l acc = Ok out /\
    (forall n v, (n, v) ∈ l -> out !! n = Some (g n v)) /\ (forall n, n ∉ l.*1 -> out !! n = acc !! n).
Proof.
  revert acc. induction l as [|[n v] l IH]; intros acc Hf Hnd.
  - exists acc. repeat split; auto. by intros n v H%elem_of_nil.
  - cbn [fmap list_fmap fst] in Hnd. apply NoDup_cons in Hnd as [Hn Hnd]. cbn [foldM]. rewrite (Hf n v) by left.
    destruct (IH (<[n:=g n v]> acc)) as (out & E & Hin & Hout); [intros; apply Hf; by right|done|].
    exists out. split; [done|]. split.
    + intros n' v' [[= -> ->]|H]%elem_of_cons; [|auto]. rewrite Hout by done. apply lookup_insert_eq.
    + intros n' Hn'. cbn in Hn'. apply not_elem_of_cons in Hn' as [? ?]. rewrite Hout by done.
      by rewrite lookup_insert_ne.
Qed.

Lemma open_filter es rs (acc : list Reservation) :
  Forall2 holds es rs ->
  foldM (fun rs entry =>
      let! r := errOr ErrCorrupt (decodeReservation (snd entry)) in
      Ok (if isOpen (Res_State r) then rs ++ [r] else rs)) es acc
  = Ok (acc ++ filter (fun r => isOpen (Res_State r) = true) rs).
Proof.
  intros H. revert acc. induction H as [|e r es rs [_ Hd] _ IH]; intros acc; cbn [foldM]; [by rewrite app_nil_r|].
  rewrite Hd. cbn [errOr]. rewrite filter_cons. destruct (isOpen (Res_State r)) eqn:E.
  - rewrite decide_True by done. rewrite IH. by rewrite <- app_assoc.
  - rewrite decide_False by done. by rewrite IH.
Qed.

#[local] Instance res_id_le_total : Total res_id_le.
Proof.
  intros x y. unfold res_id_le. destruct (bytes_lt_trichotomy (Res_ID x) (Res_ID y)) as [H|[->|H]].
  - left. apply bytes_ltb_false. by left.
  - left. apply bytes_ltb_irrefl.
  - right. apply bytes_ltb_false. by left.
Qed.

#[local] Instance res_id_le_trans : Transitive res_id_le.
Proof. intros x y z. apply bytes_le_trans. Qed.

(** ** Claims *)

(** C1. Over every sequence of operations and restarts of a ledger whose
    networks forbid fee overruns, the money spent plus the money reserved stays
    within every limit: per hour, per day and in total, globally and on each
    network, at the ledger's clock and at any later time. *)
Theorem ledger_never_overspends x :
  reachable x -> bounded x.1 ->
  exists rs t, Inv x.1 (st_db x.2) rs t /\
    forall now, after_start now -> t <= now ->
      scope_fits (Policy_Global (L_policy x.1)) (scope_of now rs) /\
      forall n np, L_networks x.1 !! n = Some np -> scope_fits (NP_Limits np) (scope_of now (on_network n rs)).
Proof.
  intros Hr Hb. destruct (reachable_inv _ Hr) as (HL & rs & t & Hi). exists rs, t. split; [done|]. intros now Hn Hle.
  pose proof (bounded_no_overrun _ _ _ Hb (i_cons _ _ _ _ Hi)) as Hno.
  pose proof (inv_stored _ _ _ _ Hi) as Hs. pose proof (i_fits _ _ _ _ Hi) as Hf.
  destruct (within_limits_later _ _ _ _ (fun n np => inv_network_limits _ n np HL) (lt_global _ HL) Hs Hf
    (i_start _ _ _ _ Hi) Hn Hle (i_limits _ _ _ _ Hi)) as [Hg Hnet].
  split.
  - apply scopeWithinLimits_spec in Hg as [Ho|?]; [congruence|done|apply HL|done|done].
  - intros n np Hnp. specialize (Hnet n np Hnp).
    apply scopeWithinLimits_spec in Hnet as [Ho|?];
      [|done|by eapply inv_network_limits|by apply Forall_filter_sub|by apply fits_sub].
    exfalso. apply existsb_exists in Ho as (r & Hin & Ho). apply list_elem_of_In, list_elem_of_filter in Hin as [_ Hin].
    assert (existsb overrun rs = true); [|congruence]. apply existsb_exists. exists r.
    split; [by apply list_elem_of_In|done].
Qed.

(** C2. Every operation on a reachable ledger, whatever it returns, is a step
    of the abstract ledger: it reserves, moves one reservation along its life
    cycle, or changes no reservation, and the clock never goes back. *)
Theorem ledger_refines L st call op rs t :
  reachable (L, st) -> Inv L (st_db st) rs t -> time_ok (call_now call) -> op_typed op -> op_room L rs op ->
  exists rs' t', Inv L (st_db (run_op L call op st)) rs' t' /\ spec_step L rs t rs' t'.
Proof. intros Hr Hi. apply op_step; [apply (reachable_inv _ Hr)|done]. Qed.

(** C3. Evidence of spent money is never lost: across any operations and
    restarts a committed reservation stays as it is, and an exposed one stays
    exposed or is committed under the same transaction hash; it is never
    released, purged or replaced. *)
Theorem spent_money_is_kept x y rs t :
  reachable x -> rtc ledger_step x y -> Inv x.1 (st_db x.2) rs t ->
  exists rs' t', Inv y.1 (st_db y.2) rs' t' /\ t <= t' /\ forall r, r ∈ rs -> kept_in r rs'.
Proof. intros Hr Hs Hi. eapply steps_keep; eauto. apply (reachable_inv _ Hr). Qed.

(** C4. The limits of a ledger file are fixed when it is created: whatever
    policy later processes open it with, one that is accepted has the same
    global limits and the same networks, each with the same sponsor, limits,
    overhead and emergency reserve. *)
Theorem ledger_limits_are_fixed x y :
  reachable x -> rtc ledger_step x y -> same_limits (L_policy x.1) (L_policy y.1).
Proof.
  intros Hr Hs. pose proof (reachable_bound _ Hr) as Hb. pose proof (reachable_encodable _ Hr) as He.
  clear Hr. induction Hs as [x|x y z Hxy _ IH]; [reflexivity|].
  etransitivity; [by apply ledger_step_limits|]. apply IH; [by eapply ledger_step_bound|by eapply ledger_step_encodable].
Qed.

(** C5. A reservation is granted only as the budget policy admits it: [Reserve]
    returns the existing reservation of the attempt, or holds the quoted
    maximum for it after checking every limit and the sponsor's balance,
    purging at most the oldest released record. *)
Theorem Reserve_is_admitted L st call q st' r rs t :
  reachable (L, st) -> Inv L (st_db st) rs t -> time_ok (call_now call) -> op_typed (OpReserve q) ->
  Reserve L call q st = (st', Ok r) ->
  exists rs' rs'', spec_reserve L rs (Z.max t (call_now call)) q r rs' /\ rs'' ≡ₚ rs' /\
    Inv L (st_db st') rs'' (Z.max t (call_now call)).
Proof.
  intros Hr Hi Hnow Hty E. destruct (reachable_inv _ Hr) as [HL _].
  destruct (Reserve_spec L HL call q st st' (Ok r) rs t Hi Hnow Hty E) as (now & rs' & rs'' & -> & H). eauto.
Qed.

(** C6. A new request the policy admits is granted: with a live context and a
    working database, a request for an attempt that has no record in the
    ledger, neither under the attempt nor under the ID derived from it, and
    whose maximum fits every limit and the sponsor's balance gets its
    reservation as long as there is a free or a released record. *)
Theorem Reserve_grants_admitted L st call q m rs t :
  reachable (L, st) -> Inv L (st_db st) rs t -> time_ok (call_now call) -> op_typed (OpReserve q) ->
  reserve_guard L call q st = Ok (call_now call) -> contextErrorTx (call_ctx call) = Ok tt -> call_commitFails call = false ->
  (forall x, x ∈ rs -> attempt_of x <> Req_Attempt q /\ Res_ID x <> NewReservationID (Req_Attempt q)) ->
  (Z.of_nat (length rs) < L_maxRecords L \/ exists x, x ∈ rs /\ Res_State x = ReservationReleased) ->
  CostQuote_Maximum (Req_Quote q) (NP_TransactionOverhead (networkPolicy L (Req_Network q))) = Ok m ->
  budget_admits L (Z.max t (call_now call)) rs q m ->
  snd (Reserve L call q st) = Ok (heldFrom L q m (Z.max t (call_now call))).
Proof.
  intros Hr Hi Hnow [Hty Hz] Hg Hctx Hcf Hfresh Hroom Hm Hadm. destruct (reachable_inv _ Hr) as [HL _]. cbn [fst] in HL.
  destruct (reserve_guard_inv L _ _ _ _ Hg) as (Hv & _ & _ & _ & Ho).
  assert (Hq : request_ok L q) by by constructor.
  unfold Reserve, update, db_update. rewrite Hg, Hcf. unfold reserve_tx. rewrite Hctx.
  destruct (effectiveNow_total L (st_db st) rs t (call_now call) Hi) as (now & db1 & Ee). rewrite Ee.
  destruct (effectiveNow_inv L HL _ _ _ _ _ _ Hi Hnow Ee) as (Hi1 & _ & -> & _ & Hatt).
  destruct (inv_collect L HL db1 rs _ _ Hi1 (i_start _ _ _ _ Hi1) (Z.le_refl _)) as (u & -> & Hag).
  destruct (b_get (db_attempts db1) _) as [id|] eqn:Eg.
  - destruct (consistent_attempt_inv _ _ _ _ _ (i_cons _ _ _ _ Hi1) Eg) as (x & Hx & Hk & _).
    destruct (Hfresh x Hx) as [Hne _]. destruct Hne. unfold attempt_of.
    pose proof (inv_stored _ _ _ _ Hi1) as Hs. rewrite Forall_forall in Hs. destruct (Hs x Hx). destruct Hty.
    symmetry. by apply attemptKey_inj.
  - assert (Ha : admitMaximum L u q = Ok m).
    { apply (admitMaximum_spec L (Z.max t (call_now call)) rs u q m); auto; try apply Hty; [by eapply inv_stored|apply Hi1]. }
    destruct (reserveNew_ok L db1 rs _ u q m HL Hi1 Hq Hag Hroom (fun x Hx => proj2 (Hfresh x Hx)) Ha) as (db' & ->).
    done.
Qed.

(** A failed operation leaves the ledger untouched and reports one of the
    package's public errors. *)
Theorem failed_operations_change_nothing L call st q id txHash charge balance :
  atomic st (Reserve L call q st) /\ atomic st (MarkExposed L call id txHash st) /\
  atomic st (CommitFinalized L call charge st) /\ atomic st (ReleaseProvenUnused L call id st) /\
  atomic st (CheckSponsorCapacity L call id balance st).
Proof.
  split; [|split; [|split; [|split]]].
  - unfold Reserve. destruct (reserve_guard L call q st) eqn:E; [apply atomic_update|].
    by eapply atomic_err, reserve_guard_public.
  - unfold MarkExposed. destruct (_ || _); [by apply atomic_err|apply atomic_transition].
  - unfold CommitFinalized. destruct (_ || _); [by apply atomic_err|apply atomic_transition].
  - unfold ReleaseProvenUnused. destruct (is_zero_bytes id); [by apply atomic_err|apply atomic_transition].
  - unfold CheckSponsorCapacity. destruct (_ || _); [by apply atomic_err|].
    destruct (begin call st) eqn:E; [apply atomic_update|]. by eapply atomic_err, begin_public.
Qed.

(** A snapshot of an open reachable ledger always succeeds and reports, for
    the global scope and for every network, what is spent in each window, what
    is reserved, and exactly the difference to each limit as remaining. *)
Theorem Snapshot_reports_remaining L st call rs t :
  reachable (L, st) -> Inv L (st_db st) rs t -> time_ok (call_now call) ->
  begin call st = Ok tt -> contextErrorTx (call_ctx call) = Ok tt -> validPersistentTime (call_now call) = true ->
  exists nets, ledgerSnapshot L call st =
      Ok (mkSnapshot (Z.max t (call_now call))
            (scope_report (Policy_Global (L_policy L)) (scope_of (Z.max t (call_now call)) rs)) nets) /\
    forall n np, L_networks L !! n = Some np ->
      nets !! n = Some (scope_report (NP_Limits np) (scope_of (Z.max t (call_now call)) (on_network n rs))).
Proof.
  intros Hr Hi Hnow Hb Hctx Hv. destruct (reachable_inv _ Hr) as [HL _]. cbn [fst] in HL.
  unfold ledgerSnapshot, observedNow, normalizeTime, view. rewrite Hb, Hv, Hctx, (i_last _ _ _ _ Hi). cbn [negb].
  assert (E : (if After (call_now call) t then call_now call else t) = Z.max t (call_now call)).
  { unfold After. destruct (t <? call_now call) eqn:E; bool_hyps; lia. }
  rewrite E. set (now := Z.max t (call_now call)).
  assert (Hn : after_start now).
  { destruct (i_start _ _ _ _ Hi). unfold now. destruct (Z.max_spec t (call_now call)) as [[? ->]|[? ->]]; split; try done; lia. }
  destruct (inv_collect L HL (st_db st) rs t now Hi Hn (Z.le_max_l _ _)) as (u & -> & Hag).
  pose proof (inv_stored _ _ _ _ Hi) as Hs. pose proof (i_fits _ _ _ _ Hi) as Hf.
  destruct (within_limits_later _ _ _ _ (fun n np => inv_network_limits _ n np HL) (lt_global _ HL) Hs Hf
    (i_start _ _ _ _ Hi) Hn (Z.le_max_l _ _) (i_limits _ _ _ _ Hi)) as [Hg Hnet].
  rewrite (ag_global _ _ _ Hag), makeScopeSnapshot_spec by (done || apply HL).
  destruct (snapshot_networks
    (fun n np => makeScopeSnapshot (NP_Limits np) (default zeroUsage (usage_networks u !! n)))
    (fun n np => scope_report (NP_Limits np) (scope_of now (on_network n rs)))
    (map_to_list (L_networks L)) ∅) as (nets & -> & Hin & _).
  - intros n np Hnp%elem_of_map_to_list. rewrite (ag_network _ _ _ Hag).
    apply makeScopeSnapshot_spec; [by eapply inv_network_limits|by apply Forall_filter_sub|by apply fits_sub|by apply Hnet].
  - apply NoDup_fst_map_to_list.
  - exists nets. split; [done|]. intros n np Hnp. by apply Hin, elem_of_map_to_list.
Qed.

(** [OpenReservations] returns every held or exposed reservation of the
    ledger exactly once and nothing else, sorted by reservation ID. *)
Theorem OpenReservations_exact L st call rs t :
  reachable (L, st) -> Inv L (st_db st) rs t ->
  begin call st = Ok tt -> contextErrorTx (call_ctx call) = Ok tt ->
  exists out, OpenReservations L call st = Ok out /\ StronglySorted res_id_le out /\
    out ≡ₚ filter (fun r => isOpen (Res_State r) = true) rs /\ NoDup (map Res_ID out).
Proof.
  intros Hr Hi Hb Hctx. destruct (reachable_inv _ Hr) as [HL _]. cbn [fst] in HL.
  unfold OpenReservations, view. rewrite Hb, Hctx, (i_last _ _ _ _ Hi). cbn [errOr].
  destruct (inv_collect L HL (st_db st) rs t t Hi (i_start _ _ _ _ Hi) (Z.le_refl _)) as (u & -> & _).
  rewrite (open_filter _ _ [] (c_entries _ _ _ (i_cons _ _ _ _ Hi))). cbn [app].
  eexists. split; [done|]. unfold sortedReservations. split; [apply (StronglySorted_merge_sort res_id_le)|].
  split; [apply merge_sort_Permutation|]. rewrite merge_sort_Permutation.
  pose proof (consistent_ids _ _ _ (i_cons _ _ _ _ Hi)) as Hnd. revert Hnd. clear.
  induction rs as [|r rs IH]; [done|]. cbn [map]. intros Hnd. apply NoDup_cons in Hnd as [H1 H2]. rewrite filter_cons.
  case_decide; [|by apply IH]. cbn [map]. apply NoDup_cons. split; [|by apply IH].
  intros (x & Hx & Hin)%list_elem_of_fmap. apply list_elem_of_filter in Hin as [_ Hin]. apply H1.
  apply list_elem_of_fmap. by exists x.
Qed.

(** When [CheckSponsorCapacity] accepts a balance for an open reservation,
    no charge ever overran its reservation and the balance covers the emergency
    reserve of the network and every open reservation of that sponsor. *)
Theorem CheckSponsorCapacity_covers L st call id balance st' rs t :
  reachable (L, st) -> Inv L (st_db st) rs t -> inU 256 balance ->
  CheckSponsorCapacity L call id balance st = (st', Ok tt) ->
  existsb overrun rs = false /\
  exists r, r ∈ rs /\ Res_ID r = id /\ isOpen (Res_State r) = true /\ sponsor_covers L rs r balance.
Proof.
  intros Hr Hi Hb E. destruct (reachable_inv _ Hr) as [HL _].
  destruct (CheckSponsorCapacity_spec L HL call id balance st st' (Ok tt) rs t Hi Hb E)
    as (r & rs' & ? & ? & ? & ? & ? & _). split; [done|]. by exists r.
Qed.

(** Retrying is safe: reserving again for an attempt whose reservation is
    not released returns that reservation, whatever balance and time the retry
    carries, and adds nothing to the ledger. *)
Theorem Reserve_retry_is_idempotent L st call q st' r x rs t :
  reachable (L, st) -> Inv L (st_db st) rs t -> time_ok (call_now call) -> op_typed (OpReserve q) ->
  x ∈ rs -> attempt_of x = Req_Attempt q -> Res_State x <> ReservationReleased ->
  Reserve L call q st = (st', Ok r) ->
  r = x /\ sameReservationRequest (Res_Request x) q = true /\
  exists rs'', rs'' ≡ₚ rs /\ Inv L (st_db st') rs'' (Z.max t (call_now call)).
Proof.
  intros Hr Hi Hnow Hty Hx Hat Hst E. destruct (reachable_inv _ Hr) as [HL _].
  destruct (Reserve_spec L HL call q st st' (Ok r) rs t Hi Hnow Hty E) as (now & rs' & rs'' & -> & Hs & Hp & Hi').
  assert (Huniq : forall y, y ∈ rs -> sameReservationRequest (Res_Request y) q = true -> y = x).
  { intros y Hy (_ & _ & _ & Ha & _)%sameReservationRequest_spec.
    apply (attempt_distinct L (st_db st) rs); [apply Hi|done|done|]. unfold attempt_of in *. congruence. }
  destruct Hs as [r Hin Hsame _|old rest m Hold Hsame Hrel _ _ _|purged kept m Hnew _ _ _ _].
  - rewrite <- (Huniq r Hin Hsame). split; [done|]. split; [done|]. eauto.
  - exfalso. apply Hst. rewrite <- (Huniq old); [done| |done]. rewrite Hold. left.
  - by destruct (Hnew x Hx).
Qed.

End Claims.

(** ** A concrete ledger

    One network whose reservations may cost 100 each; a rescue that is reserved
    (21 = 2 gas at 10 plus overhead 1), exposed and committed at 20. *)

Import MapBolt.

Definition ex_limits : Limits := mkLimits 100 200 300 400.
Definition ex_sponsor : Address := repeat Byte.x11 20.
Definition ex_network : NetworkPolicy := mkNetworkPolicy 1 ex_sponsor ex_limits 1 10 false.
Definition ex_policy : Policy := mkPolicy ex_limits [ex_network].
Definition ex_fingerprint : bytes := repeat Byte.x07 32.
Definition ex_now : Time := unixTime 1700000000 0.
Definition ex_raw : RawDB := mkRawDB None None None false.
Definition ex_call : Call := mkCall (LiveContext None None) ex_now false.
Definition ex_request : ReservationRequest :=
  mkRequest 1 ex_sponsor (repeat Byte.x33 32) (mkAttempt (repeat Byte.x22 32) 1) (mkQuote 2 10 0) 1000 zeroTime.
Definition ex_id : ReservationID := NewReservationID (Req_Attempt ex_request).
Definition ex_tx : Hash := repeat Byte.x44 32.

Definition ex_closed : LedgerState := mkLedgerState true (mkLedgerDB b_empty b_empty b_empty).
Definition ex_open := Open ex_policy ex_fingerprint 4 ex_now true ex_raw.
Definition ex_L : BudgetLedger := match ex_open with Ok (L, _) => L | Err _ => mkLedger ex_policy ∅ 0 end.
Definition ex_S0 : LedgerState := match ex_open with Ok (_, st) => st | Err _ => ex_closed end.
Definition ex_S1 : LedgerState := run_op ex_L ex_call (OpReserve ex_request) ex_S0.
Definition ex_S2 : LedgerState := run_op ex_L ex_call (OpMarkExposed ex_id ex_tx) ex_S1.
Definition ex_charge : FinalizedCharge := mkCharge ex_id ex_tx 20 zeroTime.
Definition ex_S3 : LedgerState := run_op ex_L ex_call (OpCommitFinalized ex_charge) ex_S2.
Definition ex_held : Reservation := heldFrom ex_L ex_request 21 ex_now.
Definition ex_exposed : Reservation :=
  mkReservation ex_id ex_request 21 ReservationExposed ex_tx 0 ex_now ex_now ex_now.

Lemma ex_opened : ex_open = Ok (ex_L, ex_S0).
Proof.
  assert (H : isOk ex_open = true) by (vm_compute; reflexivity).
  unfold ex_L, ex_S0. by destruct ex_open as [[L st]|].
Qed.

Lemma ex_policy_typed : policy_typed ex_policy.
Proof.
  assert (Hl : limits_typed ex_limits) by (constructor; by vm_compute).
  split; [done|]. constructor; [|constructor]. constructor; try done; by vm_compute.
Qed.

Lemma ex_typed : ledger_typed ex_L.
Proof. eapply Open_typed; [apply ex_policy_typed| |exact ex_opened]. by vm_compute. Qed.

Lemma ex_reachable0 : reachable (ex_L, ex_S0).
Proof. apply (reach_open ex_policy ex_fingerprint 4 ex_now ex_raw); [apply ex_policy_typed|by vm_compute|done|exact ex_opened]. Qed.

Lemma ex_time : time_ok ex_now.
Proof. by vm_compute. Qed.

Lemma ex_bounded : bounded ex_L.
Proof.
  intros n np H%elem_of_map_to_list.
  assert (E : map_to_list (L_networks ex_L) = [(1, ex_network)]) by (vm_compute; reflexivity).
  rewrite E in H. apply list_elem_of_singleton in H. by injection H as -> ->.
Qed.

Lemma ex_request_typed : op_typed (OpReserve ex_request).
Proof. split; [|by vm_compute]. constructor; try done; by vm_compute. Qed.

Lemma ex_step1 : ledger_step (ex_L, ex_S0) (ex_L, ex_S1).
Proof. apply step_op; [exact ex_time|exact ex_request_typed|done]. Qed.

Lemma ex_step2 : ledger_step (ex_L, ex_S1) (ex_L, ex_S2).
Proof. apply step_op; [exact ex_time|by vm_compute|done]. Qed.

Lemma ex_step3 : ledger_step (ex_L, ex_S2) (ex_L, ex_S3).
Proof.
  apply step_op; [exact ex_time|by vm_compute|]. intros rs _. left. apply ex_bounded.
Qed.

Lemma ex_reachable1 : reachable (ex_L, ex_S1).
Proof. exact (reach_step _ _ ex_reachable0 ex_step1). Qed.

Lemma ex_reachable2 : reachable (ex_L, ex_S2).
Proof. exact (reach_step _ _ ex_reachable1 ex_step2). Qed.

(** The invariant of a concrete database, by evaluation. *)
Lemma inv_by_evaluation L db t rs :
  isOk (collectUsage L db t) = true ->
  decodeStoredTime (b_get (db_meta db) ledgerLastSeenKey) = Ok t -> time_ok t -> unixTime 1 0 <= t ->
  map (fun e => decodeReservation (snd e)) (b_entries (db_reservations db)) = map Ok rs ->
  forallb (fun r => Res_UpdatedAt r <=? t) rs = true -> Inv L db rs t.
Proof.
  intros Hok Ht H1 H2 Hdec Htimes. destruct (collectUsage L db t) as [u|] eqn:Hu; [|done].
  destruct (collectUsage_sound _ _ _ _ Hu) as (rs' & Hc & Hf & _ & Hw).
  assert (rs' = rs) as ->.
  { pose proof (c_entries _ _ _ Hc) as He. revert rs Hdec Htimes. clear -He.
    induction He as [|e x es xs [_ Hx] _ IH]; intros [|r rs] Hdec Htimes; try done.
    cbn in Hdec, Htimes. rewrite Hx in Hdec. injection Hdec as -> Hdec. bool_hyps. f_equal. by apply IH. }
  constructor; auto; [by split|]. apply Forall_forall. intros r Hr. rewrite forallb_forall in Htimes.
  apply Z.leb_le, Htimes. by apply list_elem_of_In.
Qed.

Lemma ex_inv0 : Inv ex_L (st_db ex_S0) [] (unixTime 1 0).
Proof. apply inv_by_evaluation; by vm_compute. Qed.

Lemma ex_inv1 : Inv ex_L (st_db ex_S1) [ex_held] ex_now.
Proof. apply inv_by_evaluation; by vm_compute. Qed.

Lemma ex_inv2 : Inv ex_L (st_db ex_S2) [ex_exposed] ex_now.
Proof. apply inv_by_evaluation; by vm_compute. Qed.

(** ** Witnesses *)

Lemma ledger_never_overspends_witness :
  exists rs t, Inv ex_L (st_db ex_S3) rs t /\
    forall now, after_start now -> t <= now ->
      scope_fits (Policy_Global (L_policy ex_L)) (scope_of now rs) /\
      forall n np, L_networks ex_L !! n = Some np -> scope_fits (NP_Limits np) (scope_of now (on_network n rs)).
Proof.
  apply (ledger_never_overspends (ex_L, ex_S3)); [exact (reach_step _ _ ex_reachable2 ex_step3)|exact ex_bounded].
Defined.

Lemma ledger_refines_witness :
  exists rs' t', Inv ex_L (st_db (run_op ex_L ex_call (OpMarkExposed ex_id ex_tx) ex_S1)) rs' t' /\
    spec_step ex_L [ex_held] ex_now rs' t'.
Proof.
  apply (ledger_refines ex_L ex_S1 ex_call (OpMarkExposed ex_id ex_tx) [ex_held] ex_now);
    [exact ex_reachable1|exact ex_inv1|exact ex_time|by vm_compute|done].
Defined.

Lemma spent_money_is_kept_witness :
  exists rs' t', Inv ex_L (st_db ex_S3) rs' t' /\ ex_now <= t' /\ forall r, r ∈ [ex_exposed] -> kept_in r rs'.
Proof.
  apply (spent_money_is_kept (ex_L, ex_S2) (ex_L, ex_S3) [ex_exposed] ex_now);
    [exact ex_reachable2|apply rtc_once; exact ex_step3|exact ex_inv2].
Defined.

(** A file created for two networks, Base without overruns; a reservation; then
    a process that opens it with the networks in the other order and Base
    overruns allowed.  A process with a larger limit is refused. *)
Definition ex_base (overrun : bool) : NetworkPolicy := mkNetworkPolicy 8453 ex_sponsor ex_limits 1 10 overrun.
Definition ex_old_policy : Policy := mkPolicy ex_limits [ex_network; ex_base false].
Definition ex_new_policy : Policy := mkPolicy ex_limits [ex_base true; ex_network].
Definition ex_wide_policy : Policy := mkPolicy (mkLimits 100 200 300 401) [ex_network; ex_base false].

Definition opened (r : result LedgerError (BudgetLedger * LedgerState)) : BudgetLedger * LedgerState :=
  match r with Ok x => x | Err _ => (ex_L, ex_closed) end.

Lemma opened_ok r : isOk r = true -> r = Ok (fst (opened r), snd (opened r)).
Proof. by destruct r as [[L st]|]. Qed.

Definition ex_old_open := Open ex_old_policy ex_fingerprint 4 ex_now true ex_raw.
Definition ex_old : BudgetLedger := fst (opened ex_old_open).
Definition ex_old_S0 : LedgerState := snd (opened ex_old_open).
Definition ex_old_S1 : LedgerState := run_op ex_old ex_call (OpReserve ex_request) ex_old_S0.
Definition ex_new_open := Open ex_new_policy ex_fingerprint 4 ex_now false (raw_of (st_db ex_old_S1)).
Definition ex_new : BudgetLedger := fst (opened ex_new_open).

Lemma ex_two_typed policy : policy ∈ [ex_old_policy; ex_new_policy] -> policy_typed policy.
Proof.
  assert (Hl : limits_typed ex_limits) by (constructor; by vm_compute).
  assert (Hn : network_typed ex_network) by (constructor; try done; by vm_compute).
  assert (Hb : forall b, network_typed (ex_base b)) by (intros b; constructor; try done; by vm_compute).
  rewrite !elem_of_cons. intros [->|[->|[]%elem_of_nil]]; split; try done; by repeat constructor.
Qed.

Lemma ex_old_reachable : reachable (ex_old, ex_old_S0).
Proof.
  apply (reach_open ex_old_policy ex_fingerprint 4 ex_now ex_raw); [apply ex_two_typed; set_solver|by vm_compute|done|].
  apply opened_ok. vm_compute. reflexivity.
Qed.

Lemma ex_old_history : rtc ledger_step (ex_old, ex_old_S0) (ex_new, snd (opened ex_new_open)).
Proof.
  eapply rtc_l; [apply (step_op ex_old ex_old_S0 ex_call (OpReserve ex_request)); [exact ex_time|exact ex_request_typed|done]|].
  apply rtc_once. apply (step_reopen ex_old ex_old_S1 ex_new_policy ex_fingerprint 4 ex_now);
    [apply ex_two_typed; set_solver|by vm_compute|]. apply opened_ok. vm_compute. reflexivity.
Qed.

Lemma ledger_limits_are_fixed_witness :
  same_limits (L_policy ex_old) (L_policy ex_new) /\ L_policy ex_old <> L_policy ex_new /\
  isOk (Open ex_wide_policy ex_fingerprint 4 ex_now false (raw_of (st_db ex_old_S1))) = false.
Proof.
  split; [exact (ledger_limits_are_fixed (ex_old, ex_old_S0) (ex_new, snd (opened ex_new_open)) ex_old_reachable ex_old_history)|].
  split; [|vm_compute; reflexivity].
  intros E. assert (H : map NP_AllowFeeOverrun (Policy_Networks (L_policy ex_old)) =
    map NP_AllowFeeOverrun (Policy_Networks (L_policy ex_new))) by by rewrite E.
  vm_compute in H. discriminate H.
Defined.

Lemma ex_reserved : Reserve ex_L ex_call ex_request ex_S0 = (ex_S1, Ok ex_held).
Proof.
  unfold ex_S1. cbn [run_op]. apply result_pair.
  assert (H : bool_decide (snd (Reserve ex_L ex_call ex_request ex_S0) = Ok ex_held) = true) by (vm_compute; reflexivity).
  by apply bool_decide_eq_true in H.
Qed.

Lemma Reserve_is_admitted_witness :
  exists rs' rs'', spec_reserve ex_L [] (Z.max (unixTime 1 0) ex_now) ex_request ex_held rs' /\ rs'' ≡ₚ rs' /\
    Inv ex_L (st_db ex_S1) rs'' (Z.max (unixTime 1 0) ex_now).
Proof.
  apply (Reserve_is_admitted ex_L ex_S0 ex_call ex_request ex_S1 ex_held [] (unixTime 1 0));
    [exact ex_reachable0|exact ex_inv0|exact ex_time|exact ex_request_typed|exact ex_reserved].
Defined.

Lemma Reserve_grants_admitted_witness :
  snd (Reserve ex_L ex_call ex_request ex_S0) = Ok (heldFrom ex_L ex_request 21 (Z.max (unixTime 1 0) ex_now)).
Proof.
  apply (Reserve_grants_admitted ex_L ex_S0 ex_call ex_request 21 [] (unixTime 1 0));
    [exact ex_reachable0|exact ex_inv0|exact ex_time|exact ex_request_typed|by vm_compute|done|done
    |by intros x Hx%elem_of_nil|left; by vm_compute|by vm_compute|].
  assert (H : networkPolicy ex_L (Req_Network ex_request) = ex_network) by (vm_compute; reflexivity).
  constructor; unfold sponsor_admits, scope_admits; rewrite ?H; repeat split; by vm_compute.
Defined.

Lemma CheckSponsorCapacity_covers_witness :
  existsb overrun [ex_held] = false /\
  exists r, r ∈ [ex_held] /\ Res_ID r = ex_id /\ isOpen (Res_State r) = true /\ sponsor_covers ex_L [ex_held] r 31.
Proof.
  apply (CheckSponsorCapacity_covers ex_L ex_S1 ex_call ex_id 31
           (fst (CheckSponsorCapacity ex_L ex_call ex_id 31 ex_S1)) [ex_held] ex_now);
    [exact ex_reachable1|exact ex_inv1|by vm_compute|].
  apply result_pair.
  assert (H : isOk (snd (CheckSponsorCapacity ex_L ex_call ex_id 31 ex_S1)) = true) by (vm_compute; reflexivity).
  by destruct (snd _) as [[]|].
Defined.

Definition ex_retry : ReservationRequest :=
  mkRequest 1 ex_sponsor (repeat Byte.x33 32) (mkAttempt (repeat Byte.x22 32) 1) (mkQuote 2 10 0) 5 zeroTime.

End BudgetClaims.
Export BudgetClaims.
