(* ===== verification/StoreModel.v ===== *)
(** * internal/store: the store's state, options and transactions

    The data types of model.go, the constants, buckets and keys of
    bolt_store.go, and what every operation shares: [begin], the read and write
    transactions, the public errors.  [BoltStore] is the immutable part of the
    Go struct; [StoreState] is what changes: the closed flag, the eleven buckets
    of the bbolt file and the lease-loss channels of this process.  A channel is
    a number; it is closed when it is in [ss_closedChans].  The wake channel of
    [notify]/[wakeSignal] is a counter of notifications. *)

From S2P Require Import Prelude GoTime Bytes Sha256 Domain Bolt.
From Stdlib Require Import Strings.Byte.
From Stdlib Require Strings.String.
Import Strings.String.StringSyntax.

Module Store.

Definition schemaVersionV1 : Z := 1.
Definition schemaVersionV2 : Z := 2.
Definition schemaVersion : Z := 3.
Definition maxConfiguredBound : Z := 1000000.
Definition minJournalCapacity : Z := 100000.
Definition journalCapacityFactor : Z := 128.
Definition maxJournalCapacity : Z := 100000000.
Definition maxDelayedWaitSlice : Duration := Second.
Definition tombstoneLimit : Z := 128.
Definition canonicalBlockLimit : Z := 256.
Definition unconfirmedBlockLimit : Z := 256.

Definition schemaKey : bytes := str "schema".
Definition networkKey : bytes := str "network".
Definition sourceKey : bytes := str "source".
Definition sponsorKey : bytes := str "sponsor".
Definition destinationKey : bytes := str "destination".
Definition rescuerKey : bytes := str "rescuer".
Definition policyKey : bytes := str "policy".
Definition maxPendingKey : bytes := str "max-pending".
Definition maxDiscoveredKey : bytes := str "max-discovered".
Definition baselineKey : bytes := str "baseline".
Definition scanCursorKey : bytes := str "scan-cursor".
Definition checkpointKey : bytes := str "checkpoint".
Definition discoveryOverflowKey : bytes := str "discovery-overflow".
Definition promotionTurnKey : bytes := str "promotion-turn".
Definition nonceFloorKey : bytes := str "nonce-floor".

(** The errors of the package; [errInvalidRecord] and [errBolt] (an error of
    bbolt itself) never leave it, [errContext] is [ctx.Err()]. *)
Inductive StoreError :=
| errInvalidOptions
| errOpenFailed
| errBinding
| errCorrupt
| errClosed
| errInvalidInput
| errConflict
| errJournalFull
| ErrObservationSaturated
| ErrLeaseHeld
| ErrLeaseLost
| errInvalidRecord
| errContext (e : CtxErr)
| errBolt.

#[export] Instance StoreError_eq_dec : EqDecision StoreError.
Proof. solve_decision. Defined.

Inductive PutResult := PutInserted | PutAlreadyPending | PutAlreadyAcknowledged.

(** [CandidateStatus] is a [uint8]; the named ones are 1 to 6. *)
Inductive CandidateStatus :=
| CandidateObserved
| CandidateStaged
| CandidateReady
| CandidateDelayed
| CandidateAcknowledged
| CandidateRemoved
| CandidateStatusOther (b : byte).

#[export] Instance CandidateStatus_eq_dec : EqDecision CandidateStatus.
Proof. solve_decision. Defined.

Definition status_byte (s : CandidateStatus) : byte :=
  match s with
  | CandidateObserved => x01 | CandidateStaged => x02 | CandidateReady => x03
  | CandidateDelayed => x04 | CandidateAcknowledged => x05 | CandidateRemoved => x06
  | CandidateStatusOther b => b
  end.

Definition status_of_byte (b : byte) : CandidateStatus :=
  match b with
  | x01 => CandidateObserved | x02 => CandidateStaged | x03 => CandidateReady
  | x04 => CandidateDelayed | x05 => CandidateAcknowledged | x06 => CandidateRemoved
  | _ => CandidateStatusOther b
  end.

Record Incident := mkIncident {
  Incident_ID : IncidentID;
  Incident_Candidate : CandidateID;
  Incident_Network : NetworkID;
  Incident_CreatedAt : Time }.

Record Checkpoint := mkCheckpoint {
  CP_Network : NetworkID;
  CP_BlockNumber : Z;
  CP_BlockHash : Hash }.

Record CanonicalBlock := mkCanonicalBlock {
  CB_Checkpoint : Checkpoint;
  CB_ParentHash : Hash;
  CB_Candidates : list RescueCandidate }.

Record LeaseKey := mkLeaseKey {
  LeaseKey_Network : NetworkID;
  LeaseKey_Sponsor : Address }.

Record Lease := mkLease {
  Lease_Key : LeaseKey;
  Lease_Owner : bytes;
  Lease_ExpiresAt : Time }.

#[export] Instance Incident_eq_dec : EqDecision Incident.
Proof. solve_decision. Defined.
#[export] Instance Checkpoint_eq_dec : EqDecision Checkpoint.
Proof. solve_decision. Defined.
#[export] Instance LeaseKey_eq_dec : EqDecision LeaseKey.
Proof. solve_decision. Defined.
#[export] Instance Lease_eq_dec : EqDecision Lease.
Proof. solve_decision. Defined.

(** The fields of [*BoltStore] that never change after [Open]. *)
Record BoltStore := mkStore {
  store_network : NetworkID;
  store_source : Address;
  store_sponsor : Address;
  store_destination : Address;
  store_rescuer : Address;
  store_maxPending : Z;
  store_journalCapacity : Z;
  store_maxDiscoveredTokens : Z;
  store_policyFingerprint : bytes }.

Definition deriveJournalCapacity (maxPending : Z) : Z :=
  let capacity := uint64_wrap (maxPending * journalCapacityFactor) in
  let capacity := if capacity <? minJournalCapacity then minJournalCapacity else capacity in
  let minimum := uint64_wrap (maxPending + 1) in
  let capacity := if capacity <? minimum then minimum else capacity in
  let capacity := if maxJournalCapacity <? capacity then maxJournalCapacity else capacity in
  uint32_wrap capacity.

(** ** Lease-loss channels *)

(** [leaseIdentity]: key, owner and expiry in seconds and nanoseconds. *)
Definition leaseIdentity : Type := Z * bytes * bytes * Z * Z.

Definition leaseSignalIdentity (lease : Lease) : leaseIdentity :=
  (LeaseKey_Network (Lease_Key lease), LeaseKey_Sponsor (Lease_Key lease), Lease_Owner lease,
   Unix (Lease_ExpiresAt lease), Nanosecond (Lease_ExpiresAt lease)).

Definition identity_key (id : leaseIdentity) : LeaseKey :=
  let '(network, sponsor, _, _, _) := id in mkLeaseKey network sponsor.

Section State.
Context {B : Bolt}.

Record StoreDB := mkStoreDB {
  s_meta : bucket;
  s_candidates : bucket;
  s_pending : bucket;
  s_readyOrder : bucket;
  s_blockIndex : bucket;
  s_incidents : bucket;
  s_blocks : bucket;
  s_discovered : bucket;
  s_tombstones : bucket;
  s_rescueState : bucket;
  s_leases : bucket }.

Definition set_meta (db : StoreDB) b := mkStoreDB b (s_candidates db) (s_pending db) (s_readyOrder db) (s_blockIndex db)
  (s_incidents db) (s_blocks db) (s_discovered db) (s_tombstones db) (s_rescueState db) (s_leases db).
Definition set_candidates (db : StoreDB) b := mkStoreDB (s_meta db) b (s_pending db) (s_readyOrder db) (s_blockIndex db)
  (s_incidents db) (s_blocks db) (s_discovered db) (s_tombstones db) (s_rescueState db) (s_leases db).
Definition set_pending (db : StoreDB) b := mkStoreDB (s_meta db) (s_candidates db) b (s_readyOrder db) (s_blockIndex db)
  (s_incidents db) (s_blocks db) (s_discovered db) (s_tombstones db) (s_rescueState db) (s_leases db).
Definition set_readyOrder (db : StoreDB) b := mkStoreDB (s_meta db) (s_candidates db) (s_pending db) b (s_blockIndex db)
  (s_incidents db) (s_blocks db) (s_discovered db) (s_tombstones db) (s_rescueState db) (s_leases db).
Definition set_blockIndex (db : StoreDB) b := mkStoreDB (s_meta db) (s_candidates db) (s_pending db) (s_readyOrder db) b
  (s_incidents db) (s_blocks db) (s_discovered db) (s_tombstones db) (s_rescueState db) (s_leases db).
Definition set_incidents (db : StoreDB) b := mkStoreDB (s_meta db) (s_candidates db) (s_pending db) (s_readyOrder db)
  (s_blockIndex db) b (s_blocks db) (s_discovered db) (s_tombstones db) (s_rescueState db) (s_leases db).
Definition set_blocks (db : StoreDB) b := mkStoreDB (s_meta db) (s_candidates db) (s_pending db) (s_readyOrder db)
  (s_blockIndex db) (s_incidents db) b (s_discovered db) (s_tombstones db) (s_rescueState db) (s_leases db).
Definition set_discovered (db : StoreDB) b := mkStoreDB (s_meta db) (s_candidates db) (s_pending db) (s_readyOrder db)
  (s_blockIndex db) (s_incidents db) (s_blocks db) b (s_tombstones db) (s_rescueState db) (s_leases db).
Definition set_tombstones (db : StoreDB) b := mkStoreDB (s_meta db) (s_candidates db) (s_pending db) (s_readyOrder db)
  (s_blockIndex db) (s_incidents db) (s_blocks db) (s_discovered db) b (s_rescueState db) (s_leases db).
Definition set_rescueState (db : StoreDB) b := mkStoreDB (s_meta db) (s_candidates db) (s_pending db) (s_readyOrder db)
  (s_blockIndex db) (s_incidents db) (s_blocks db) (s_discovered db) (s_tombstones db) b (s_leases db).
Definition set_leases (db : StoreDB) b := mkStoreDB (s_meta db) (s_candidates db) (s_pending db) (s_readyOrder db)
  (s_blockIndex db) (s_incidents db) (s_blocks db) (s_discovered db) (s_tombstones db) (s_rescueState db) b.

Record StoreState := mkStoreState {
  ss_closed : bool;
  ss_db : StoreDB;
  ss_notified : nat;
  ss_leaseLoss : gmap leaseIdentity nat;
  ss_closedChans : gset nat;
  ss_nextChan : nat }.

Definition withDB (st : StoreState) (db : StoreDB) : StoreState :=
  mkStoreState (ss_closed st) db (ss_notified st) (ss_leaseLoss st) (ss_closedChans st) (ss_nextChan st).

Definition withSignals (st : StoreState) (loss : gmap leaseIdentity nat) (chans : gset nat) (next : nat) : StoreState :=
  mkStoreState (ss_closed st) (ss_db st) (ss_notified st) loss chans next.

Definition notify (st : StoreState) : StoreState :=
  mkStoreState (ss_closed st) (ss_db st) (S (ss_notified st)) (ss_leaseLoss st) (ss_closedChans st) (ss_nextChan st).

(** ** Calls and transactions *)

(** The environment of one call: the context, what [store.clock.Now()] reads and
    whether bbolt fails to commit. *)
Record Call := mkCall {
  call_ctx : Context;
  call_now : Time;
  call_commitFails : bool }.

Definition contextError (ctx : Context) : result StoreError unit :=
  match ctx with
  | NilContext => Err errInvalidInput
  | LiveContext (Some e) _ => Err (errContext e)
  | LiveContext None _ => Ok tt
  end.

(** The second [contextError(ctx)], inside the transaction. *)
Definition contextErrorTx (ctx : Context) : result StoreError unit :=
  match ctx with
  | NilContext => Err errInvalidInput
  | LiveContext _ (Some e) => Err (errContext e)
  | LiveContext _ None => Ok tt
  end.

Definition begin (call : Call) (st : StoreState) : result StoreError unit :=
  let! _ := contextError (call_ctx call) in
  reject ss_closed st with errClosed in Ok tt.

Definition publicError (err : StoreError) : StoreError :=
  match err with
  | errContext e => errContext e
  | errClosed | errInvalidInput | errConflict | ErrObservationSaturated | ErrLeaseHeld | ErrLeaseLost | errCorrupt => err
  | _ => errCorrupt
  end.

Definition put (b : bucket) (k v : bytes) : result StoreError bucket :=
  match b_put b k v with Some b' => Ok b' | None => Err errBolt end.

(** [db.Update(fn)]: the state after it and the raw result; an error rolls
    back.  Callers map the error with [publicError]. *)
Definition updateRaw {A} (call : Call) (st : StoreState) (fn : StoreDB -> result StoreError (A * StoreDB))
    : StoreState * result StoreError A :=
  let (db', r) := db_update (if call_commitFails call then Some errBolt else None) (ss_db st) fn in
  (withDB st db', r).

Definition public {A} (r : result StoreError A) : result StoreError A :=
  match r with Ok a => Ok a | Err e => Err (publicError e) end.

Definition update {A} (call : Call) (st : StoreState) (fn : StoreDB -> result StoreError (A * StoreDB))
    : StoreState * result StoreError A :=
  let (st', r) := updateRaw call st fn in (st', public r).

Definition view {A} (st : StoreState) (fn : StoreDB -> result StoreError A) : result StoreError A :=
  public (fn (ss_db st)).

(** ** Lemmas *)

Lemma withDB_same st : withDB st (ss_db st) = st.
Proof. by destruct st. Qed.

Lemma updateRaw_cases {A} call st fn st' (r : result StoreError A) :
  updateRaw call st fn = (st', r) ->
  (exists a db', r = Ok a /\ fn (ss_db st) = Ok (a, db') /\ st' = withDB st db' /\ call_commitFails call = false) \/
  (exists e, r = Err e /\ st' = st).
Proof.
  unfold updateRaw. destruct (db_update _ _ fn) as [db' [a|e]] eqn:E; intros [= <- <-].
  - apply db_update_ok in E as [E Hc]. left. exists a, db'. by destruct (call_commitFails call).
  - apply db_update_err in E as ->. right. exists e. by rewrite withDB_same.
Qed.

Lemma store_update_cases {A} call st fn st' (r : result StoreError A) :
  update call st fn = (st', r) ->
  (exists a db', r = Ok a /\ fn (ss_db st) = Ok (a, db') /\ st' = withDB st db' /\ call_commitFails call = false) \/
  (exists e, r = Err e /\ st' = st).
Proof.
  unfold update. destruct (updateRaw call st fn) as [st1 r1] eqn:E. intros [= <- <-].
  destruct (updateRaw_cases _ _ _ _ _ E) as [(a & db' & -> & H)|(e & -> & ->)]; [left; eauto|right; eauto].
Qed.

Lemma store_update_run {A} call st (fn : StoreDB -> result StoreError (A * StoreDB)) a db' :
  fn (ss_db st) = Ok (a, db') -> call_commitFails call = false -> update call st fn = (withDB st db', Ok a).
Proof. intros H Hc. unfold update, updateRaw, db_update. by rewrite H, Hc. Qed.

Lemma store_put_inv b k v b' : put b k v = Ok b' -> b_put b k v = Some b'.
Proof. unfold put. destruct (b_put b k v); congruence. Qed.

Lemma store_put_ok `{!BoltLaws B} b k v : put_fits k v -> exists b', put b k v = Ok b' /\ b_put b k v = Some b'.
Proof. intros H. destruct (bl_put_fits b k v H) as (b' & E). exists b'. unfold put. by rewrite E. Qed.

End State.

(** A validated [MaxPending] never overflows the journal capacity, which always
    exceeds the number of ready candidates. *)
Lemma deriveJournalCapacity_spec maxPending :
  0 < maxPending <= maxConfiguredBound ->
  deriveJournalCapacity maxPending = Z.min maxJournalCapacity (Z.max (128 * maxPending) minJournalCapacity) /\
  maxPending < deriveJournalCapacity maxPending < 2 ^ 32.
Proof.
  unfold deriveJournalCapacity, uint64_wrap, uint32_wrap, maxConfiguredBound, minJournalCapacity, maxJournalCapacity,
    journalCapacityFactor.
  intros H. rewrite !(Z.mod_small _ (2 ^ 64)) by lia. rewrite Z.mod_small; repeat case_match; bool_hyps; lia.
Qed.

End Store.
Export Store.
