(* ===== verification/StoreLease.v ===== *)
(** * internal/store/lease.go: leases on a sponsor

    A lease gives one owner the exclusive use of a sponsor's nonce on a network
    until it expires.  The record codec, the four operations on the leases
    bucket and the loss channels are modelled as in the source; [spec_*] is the
    abstract lease table they implement. *)

From S2P Require Import Prelude GoTime Bytes Sha256 Domain Bolt StoreModel.
From Stdlib Require Import Strings.Byte.

Module StoreLease.

Definition leaseRecordVersion : byte := x01.
Definition maxLeaseOwnerBytes : Z := 128.

Definition normalizeStoreTime (value : Time) : Time := if IsZero value then zeroTime else value.

Definition validRescueTime (value : Time) : bool :=
  negb (IsZero value) && (0 <? Unix value) && (0 <=? Nanosecond value) && (Nanosecond value <? Second).

Definition normalizeLease (lease : Lease) : Lease :=
  mkLease (Lease_Key lease) (Lease_Owner lease) (normalizeStoreTime (Lease_ExpiresAt lease)).

Definition sameLease (left right : Lease) : bool :=
  bool_decide (Lease_Key left = Lease_Key right) && bytes_eqb (Lease_Owner left) (Lease_Owner right)
  && TimeEqual (Lease_ExpiresAt left) (Lease_ExpiresAt right).

Definition validateLease (lease : Lease) : result StoreError unit :=
  reject (LeaseKey_Network (Lease_Key lease) <=? 0) || is_zero_bytes (LeaseKey_Sponsor (Lease_Key lease))
      || (len (Lease_Owner lease) =? 0) || (maxLeaseOwnerBytes <? len (Lease_Owner lease))
      || negb (validRescueTime (Lease_ExpiresAt lease)) with errInvalidRecord in
  Ok tt.

Definition leaseExpiration (now : Time) (ttl : Duration) : Time * bool :=
  if (ttl <=? 0) || negb (validRescueTime now) then (zeroTime, false)
  else
    let expiresAt := normalizeStoreTime (Add now ttl) in
    (expiresAt, validRescueTime expiresAt && After expiresAt now).

Definition encodeLeaseKey (key : LeaseKey) : bytes :=
  appendUint64 [] (LeaseKey_Network key) ++ LeaseKey_Sponsor key.

Definition encodeLease (lease : Lease) : result StoreError bytes :=
  let lease := normalizeLease lease in
  let! _ := validateLease lease in
  let owner := Lease_Owner lease in
  let result := [leaseRecordVersion] in
  let result := appendUint64 result (LeaseKey_Network (Lease_Key lease)) in
  let result := result ++ LeaseKey_Sponsor (Lease_Key lease) in
  let result := appendUint16 result (len owner) in
  let result := result ++ owner in
  Ok (appendTime result (Lease_ExpiresAt lease)).

Definition decodeLease (data : bytes) : result StoreError Lease :=
  reject (len data <? 1 + 8 + 20 + 2 + 12) || negb (bool_decide (byte_at data 0 = leaseRecordVersion))
    with errInvalidRecord in
  let? (network, offset) := readUint64 data 1 orelse errInvalidRecord in
  reject 2 ^ 63 - 1 <? network with errInvalidRecord in
  let? (sponsor, offset) := readFixed 20 data offset orelse errInvalidRecord in
  let? (ownerLength, offset) := readUint16 data offset orelse errInvalidRecord in
  reject (ownerLength =? 0) || (maxLeaseOwnerBytes <? ownerLength) || (len data - offset <? ownerLength)
    with errInvalidRecord in
  let owner := slice data offset (Z.to_nat ownerLength) in
  let offset := offset + ownerLength in
  let? (expiresAt, offset) := readTime data offset orelse errInvalidRecord in
  reject negb (offset =? len data) with errInvalidRecord in
  let lease := mkLease (mkLeaseKey network sponsor) owner expiresAt in
  let! _ := validateLease lease in
  Ok lease.

Definition leaseLossDetected (r : result StoreError unit) : bool :=
  match r with Err ErrLeaseLost | Err errCorrupt => true | _ => false end.

(** ** Loss channels *)

Section Operations.
Context {B : Bolt}.

(** The channels whose identity satisfies [sel] are closed and forgotten. *)
Definition closeSignals (sel : leaseIdentity -> bool) (st : StoreState) : StoreState :=
  withSignals st (filter (fun e => sel e.1 = false) (ss_leaseLoss st))
    (list_to_set (map snd (map_to_list (filter (fun e => sel e.1 = true) (ss_leaseLoss st)))) ∪ ss_closedChans st)
    (ss_nextChan st).

Definition replaceLeaseSignal (lease : Lease) (st : StoreState) : StoreState :=
  let id := leaseSignalIdentity lease in
  let st := closeSignals (fun existing => bool_decide (identity_key existing = Lease_Key lease)) st in
  withSignals st (<[id := ss_nextChan st]> (ss_leaseLoss st)) (ss_closedChans st) (S (ss_nextChan st)).

Definition closeLeaseSignal (lease : Lease) (st : StoreState) : StoreState :=
  closeSignals (fun id => bool_decide (id = leaseSignalIdentity lease)) st.

Definition closeLeaseKeySignals (key : LeaseKey) (st : StoreState) : StoreState :=
  closeSignals (fun id => bool_decide (identity_key id = key)) st.

Definition closeAllLeaseSignals (st : StoreState) : StoreState := closeSignals (fun _ => true) st.

(** The channel [Lost] returns: [None] is the shared closed channel. *)
Definition Lost (store : BoltStore) (lease : Lease) (st : StoreState) : option nat :=
  let lease := normalizeLease lease in
  if negb (isOk (validateLease lease)) || negb (LeaseKey_Network (Lease_Key lease) =? store_network store) then None
  else ss_leaseLoss st !! leaseSignalIdentity lease.

(** ** Operations *)

(** The lease stored under a key: absent, or decoded and checked. *)
Definition currentLease (db : StoreDB) (key : LeaseKey) : result StoreError (option Lease) :=
  match b_get (s_leases db) (encodeLeaseKey key) with
  | None => Ok None
  | Some data =>
      let! current := errOr errCorrupt (decodeLease data) in
      reject negb (bool_decide (Lease_Key current = key)) with errCorrupt in
      Ok (Some current)
  end.

(** The caller's lease is the stored one and has not expired. *)
Definition checkCurrent (db : StoreDB) (lease : Lease) (now : Time) : result StoreError unit :=
  let! current := currentLease db (Lease_Key lease) in
  let? current := current orelse ErrLeaseLost in
  reject negb (sameLease current lease) || negb (After (Lease_ExpiresAt current) now) with ErrLeaseLost in
  Ok tt.

Definition acquire_tx (call : Call) (key : LeaseKey) (now : Time) (encoded : bytes) (db : StoreDB)
    : result StoreError (unit * StoreDB) :=
  let! _ := contextErrorTx (call_ctx call) in
  let! current := currentLease db key in
  reject match current with Some current => After (Lease_ExpiresAt current) now | None => false end with ErrLeaseHeld in
  let! b := put (s_leases db) (encodeLeaseKey key) encoded in
  Ok (tt, set_leases db b).

Definition Acquire (store : BoltStore) (call : Call) (key : LeaseKey) (owner : bytes) (ttl : Duration) (st : StoreState)
    : StoreState * result StoreError Lease :=
  let now := normalizeStoreTime (call_now call) in
  let (expiresAt, ok) := leaseExpiration now ttl in
  let requested := mkLease key owner expiresAt in
  match encodeLease requested with
  | Err _ => (st, Err errInvalidInput)
  | Ok encoded =>
      if negb ok || negb (LeaseKey_Network key =? store_network store) then (st, Err errInvalidInput)
      else
        match begin call st with
        | Err e => (st, Err e)
        | Ok _ =>
            match update call st (acquire_tx call key now encoded) with
            | (st, Err e) =>
                (if bool_decide (e = errCorrupt) then closeLeaseKeySignals key st else st, Err e)
            | (st, Ok _) => (replaceLeaseSignal requested st, Ok requested)
            end
        end
  end.

Definition renew_tx (call : Call) (lease : Lease) (now : Time) (encoded : bytes) (db : StoreDB)
    : result StoreError (unit * StoreDB) :=
  let! _ := contextErrorTx (call_ctx call) in
  let! _ := checkCurrent db lease now in
  let! b := put (s_leases db) (encodeLeaseKey (Lease_Key lease)) encoded in
  Ok (tt, set_leases db b).

Definition Renew (store : BoltStore) (call : Call) (lease : Lease) (ttl : Duration) (st : StoreState)
    : StoreState * result StoreError Lease :=
  let lease := normalizeLease lease in
  let now := normalizeStoreTime (call_now call) in
  let (expiresAt, ok) := leaseExpiration now ttl in
  let renewed := mkLease (Lease_Key lease) (Lease_Owner lease) expiresAt in
  match encodeLease renewed with
  | Err _ => (st, Err errInvalidInput)
  | Ok encoded =>
      if negb ok || negb (LeaseKey_Network (Lease_Key lease) =? store_network store) then (st, Err errInvalidInput)
      else
        match begin call st with
        | Err e => (st, Err e)
        | Ok _ =>
            match update call st (renew_tx call lease now encoded) with
            | (st, Err e) => (if leaseLossDetected (Err e) then closeLeaseSignal lease st else st, Err e)
            | (st, Ok _) =>
                if sameLease renewed lease then (st, Ok lease) else (replaceLeaseSignal renewed st, Ok renewed)
            end
        end
  end.

Definition Validate (store : BoltStore) (call : Call) (lease : Lease) (st : StoreState)
    : StoreState * result StoreError unit :=
  let lease := normalizeLease lease in
  if negb (isOk (validateLease lease)) || negb (LeaseKey_Network (Lease_Key lease) =? store_network store)
  then (st, Err errInvalidInput)
  else
    match begin call st with
    | Err e => (st, Err e)
    | Ok _ =>
        let now := normalizeStoreTime (call_now call) in
        let r := view st (fun db =>
          let! _ := contextErrorTx (call_ctx call) in
          checkCurrent db lease now) in
        (if leaseLossDetected r then closeLeaseSignal lease st else st, r)
    end.

Definition release_tx (call : Call) (lease : Lease) (now : Time) (db : StoreDB) : result StoreError (unit * StoreDB) :=
  let! _ := contextErrorTx (call_ctx call) in
  let! _ := checkCurrent db lease now in
  Ok (tt, set_leases db (b_delete (s_leases db) (encodeLeaseKey (Lease_Key lease)))).

Definition Release (store : BoltStore) (call : Call) (lease : Lease) (st : StoreState)
    : StoreState * result StoreError unit :=
  let lease := normalizeLease lease in
  if negb (isOk (validateLease lease)) || negb (LeaseKey_Network (Lease_Key lease) =? store_network store)
  then (st, Err errInvalidInput)
  else
    match begin call st with
    | Err e => (st, Err e)
    | Ok _ =>
        let now := normalizeStoreTime (call_now call) in
        let (st, r) := update call st (release_tx call lease now) in
        (if isOk r || leaseLossDetected r then closeLeaseSignal lease st else st, r)
    end.

Definition validateLeasesBucket (store : BoltStore) (db : StoreDB) : result StoreError unit :=
  reject negb (b_sequence (s_leases db) =? 0) with errCorrupt in
  foldM (fun _ entry =>
    let! lease := errOr errCorrupt (decodeLease (snd entry)) in
    reject negb (LeaseKey_Network (Lease_Key lease) =? store_network store)
        || negb (bytes_eqb (fst entry) (encodeLeaseKey (Lease_Key lease))) with errCorrupt in
    Ok tt) (b_entries (s_leases db)) tt.

(** [Close] closes every channel and the database; a second call does nothing. *)
Definition Close (st : StoreState) : StoreState :=
  if ss_closed st then st
  else
    let st := closeAllLeaseSignals st in
    mkStoreState true (ss_db st) (ss_notified st) (ss_leaseLoss st) (ss_closedChans st) (ss_nextChan st).

End Operations.

(** ** The record codec *)

Record key_typed (key : LeaseKey) : Prop := {
  kt_network : - 2 ^ 63 <= LeaseKey_Network key < 2 ^ 63;
  kt_sponsor : isAddress (LeaseKey_Sponsor key) }.

Record lease_typed (lease : Lease) : Prop := {
  lt_key : key_typed (Lease_Key lease);
  lt_expires : time_ok (Lease_ExpiresAt lease) }.

Lemma normalizeStoreTime_id t : normalizeStoreTime t = t.
Proof. unfold normalizeStoreTime, IsZero, zeroTime. destruct (t =? 0) eqn:E; [|done]. by apply Z.eqb_eq in E. Qed.

Lemma normalizeLease_id l : normalizeLease l = l.
Proof. unfold normalizeLease. rewrite normalizeStoreTime_id. by destruct l. Qed.

Lemma sameLease_spec a b : sameLease a b = true <-> a = b.
Proof.
  unfold sameLease, TimeEqual. rewrite !andb_true_iff, bool_decide_eq_true, bytes_eqb_spec, Z.eqb_eq.
  destruct a, b; cbn. split; [intros [[-> ->] ->]; done|by intros [= -> -> ->]].
Qed.

Lemma validateLease_inv l :
  validateLease l = Ok tt ->
  0 < LeaseKey_Network (Lease_Key l) /\ 0 < len (Lease_Owner l) <= maxLeaseOwnerBytes /\
  validRescueTime (Lease_ExpiresAt l) = true.
Proof.
  unfold validateLease. destruct (_ || _) eqn:E; [done|]. intros _. bool_hyps. unfold len in *. repeat split; try lia. done.
Qed.

Lemma validRescueTime_storable t : time_ok t -> validRescueTime t = true -> time_storable t.
Proof.
  intros Hok Hv. split; [done|]. intros ->. by vm_compute in Hv.
Qed.

Lemma encodeLease_inv l data :
  encodeLease l = Ok data ->
  validateLease l = Ok tt /\
  data = [leaseRecordVersion] ++ be_bytes 8 (LeaseKey_Network (Lease_Key l)) ++ LeaseKey_Sponsor (Lease_Key l) ++
    be_bytes 2 (len (Lease_Owner l)) ++ Lease_Owner l ++ time_bytes (Lease_ExpiresAt l).
Proof.
  unfold encodeLease. rewrite normalizeLease_id. destruct (validateLease l) as [[]|]; [|done].
  intros <-%Ok_inj. split; [done|]. rewrite appendTime_app. unfold appendUint64, appendUint16.
  rewrite <- !app_assoc. done.
Qed.

Lemma decode_encodeLease l data : lease_typed l -> encodeLease l = Ok data -> decodeLease data = Ok l.
Proof.
  intros [[Hnet Hsp] Hexp] [Hv ->]%encodeLease_inv. destruct (validateLease_inv _ Hv) as (Hpos & Hown & Ht).
  pose proof (validRescueTime_storable _ Hexp Ht) as Hst. unfold isAddress, maxLeaseOwnerBytes in *.
  set (data := [leaseRecordVersion] ++ _).
  assert (Hcur : at_offset data 1 (be_bytes 8 (LeaseKey_Network (Lease_Key l)) ++ LeaseKey_Sponsor (Lease_Key l) ++
    be_bytes 2 (len (Lease_Owner l)) ++ Lease_Owner l ++ time_bytes (Lease_ExpiresAt l) ++ [])).
  { exists [leaseRecordVersion]. rewrite app_nil_r. done. }
  assert (Hlen : len data = 43 + len (Lease_Owner l)).
  { subst data. rewrite !len_app. unfold len. rewrite !length_be_bytes, length_time_bytes, Hsp. cbn [length]. lia. }
  unfold decodeLease. rewrite (proj2 (Z.ltb_ge _ _)) by lia.
  replace (byte_at data 0) with leaseRecordVersion by done. rewrite bool_decide_eq_true_2 by done. cbn [negb orb].
  unfold readUint64, readUint16.
  read_next Hcur ltac:(unfold inU; cbn; lia). rewrite (proj2 (Z.ltb_ge _ _)) by lia.
  read_next Hcur ltac:(done). read_next Hcur ltac:(unfold inU; cbn; lia).
  destruct (at_offset_slice _ _ _ _ Hcur) as (Hsl & Hroom & Hnext).
  match goal with |- context [if ?c then _ else _] => assert (c = false) as -> end.
  { rewrite !orb_false_iff, Z.eqb_neq, !Z.ltb_ge. unfold maxLeaseOwnerBytes. lia. }
  replace (Z.to_nat (len (Lease_Owner l))) with (length (Lease_Owner l)) by (unfold len; lia). rewrite Hsl.
  clear Hcur. read_next Hnext ltac:(done). rewrite (at_offset_end _ _ Hnext), Z.eqb_refl. cbn [negb].
  assert (mkLease (mkLeaseKey (LeaseKey_Network (Lease_Key l)) (LeaseKey_Sponsor (Lease_Key l))) (Lease_Owner l)
            (Lease_ExpiresAt l) = l) as -> by (by destruct l as [[? ?] ? ?]).
  by rewrite Hv.
Qed.

(** What is decoded is well typed and valid. *)
Lemma decodeLease_typed data l : decodeLease data = Ok l -> lease_typed l /\ validateLease l = Ok tt.
Proof.
  unfold decodeLease. destruct (_ || _); [done|].
  destruct (readUint64 data 1) as [[n o1]|] eqn:E1; [|done]. apply read_be_inv in E1 as [Hn _].
  destruct (_ <? n) eqn:En; [done|]. destruct (readFixed 20 data o1) as [[sp o2]|] eqn:E2; [|done].
  destruct (readUint16 data o2) as [[ol o3]|]; [|done]. destruct (_ || _); [done|].
  destruct (readTime data _) as [[t o4]|] eqn:E4; [|done]. apply readTime_inv in E4 as [[Ht _] _].
  destruct (negb _); [done|]. destruct (validateLease _) as [[]|] eqn:Ev; [|done]. intros [= <-].
  split; [|done]. constructor; [|done]. bool_hyps. unfold inU in Hn. constructor; cbn; [lia|].
  by apply readFixed_inv in E2 as [? _].
Qed.

Lemma encodeLeaseKey_inj a b : key_typed a -> key_typed b -> encodeLeaseKey a = encodeLeaseKey b -> a = b.
Proof.
  intros [] [] H. unfold encodeLeaseKey, appendUint64 in H. cbn [app] in H.
  apply app_inj_1 in H as [H1 H2]; [|by rewrite !length_be_bytes]. apply be8_signed_inj in H1; [|done|done].
  destruct a, b; cbn in *. congruence.
Qed.

End StoreLease.
Export StoreLease.
