(* ===== verification/LeaseTheorems.v ===== *)
(** * Leases: mutual exclusion and loss signals

    [lease_at] reads the leases bucket as a table from keys to leases.  Each
    operation is characterised on that table; the claims follow: a lease
    excludes every other holder until it expires, is renewed or is released by
    its holder, and the process learns of its loss through its channel. *)

From S2P Require Import Prelude GoTime Bytes Sha256 Domain Bolt StoreModel StoreLease.

Module LeaseTheorems.

Inductive lease_op :=
| LAcquire (key : LeaseKey) (owner : bytes) (ttl : Duration)
| LRenew (lease : Lease) (ttl : Duration)
| LValidate (lease : Lease)
| LRelease (lease : Lease).

Definition lease_op_typed (op : lease_op) : Prop :=
  match op with
  | LAcquire key _ ttl => key_typed key /\ - 2 ^ 63 <= ttl < 2 ^ 63
  | LRenew lease ttl => lease_typed lease /\ - 2 ^ 63 <= ttl < 2 ^ 63
  | LValidate lease | LRelease lease => lease_typed lease
  end.

Section Leases.
Context `{BL : BoltLaws}.

Definition lease_at (db : StoreDB) (key : LeaseKey) : option Lease :=
  match currentLease db key with Ok o => o | Err _ => None end.

(** Every record decodes to a lease of this network stored under its own key
    (what [validateLeasesBucket] checks when the store is opened). *)
Definition LeaseInv (store : BoltStore) (db : StoreDB) : Prop :=
  forall k v, b_get (s_leases db) k = Some v ->
    exists l, decodeLease v = Ok l /\ k = encodeLeaseKey (Lease_Key l) /\
      LeaseKey_Network (Lease_Key l) = store_network store.

Definition run_lease (store : BoltStore) (st : StoreState) (event : Call * lease_op) : StoreState :=
  let (call, op) := event in
  match op with
  | LAcquire key owner ttl => fst (Acquire store call key owner ttl st)
  | LRenew lease ttl => fst (Renew store call lease ttl st)
  | LValidate lease => fst (Validate store call lease st)
  | LRelease lease => fst (Release store call lease st)
  end.

Section Store.
Context (store : BoltStore).

(** ** The table *)

Lemma currentLease_at db key :
  LeaseInv store db -> key_typed key -> currentLease db key = Ok (lease_at db key).
Proof.
  intros Hi Hk. unfold lease_at, currentLease. destruct (b_get _ _) as [v|] eqn:E; [|done].
  destruct (Hi _ _ E) as (l & Hd & Hkey & _). rewrite Hd. cbn [errOr].
  destruct (decodeLease_typed _ _ Hd) as [[Hkl _] _]. apply encodeLeaseKey_inj in Hkey as ->; [|done|done].
  by rewrite bool_decide_eq_true_2.
Qed.

Lemma lease_at_key db key l : lease_at db key = Some l -> Lease_Key l = key.
Proof.
  unfold lease_at, currentLease. destruct (b_get _ _); [|done]. destruct (errOr _ _); [|done].
  destruct (bool_decide _) eqn:E; cbn; [|done]. intros [= <-]. by bool_hyps.
Qed.

Lemma lease_put db l data b' :
  LeaseInv store db -> lease_typed l -> LeaseKey_Network (Lease_Key l) = store_network store ->
  encodeLease l = Ok data -> b_put (s_leases db) (encodeLeaseKey (Lease_Key l)) data = Some b' ->
  LeaseInv store (set_leases db b') /\ lease_at (set_leases db b') (Lease_Key l) = Some l /\
  forall key, key_typed key -> key <> Lease_Key l -> lease_at (set_leases db b') key = lease_at db key.
Proof.
  intros Hi Hty Hnet Henc Hput. pose proof (decode_encodeLease _ _ Hty Henc) as Hd. split; [|split].
  - intros k v. cbn [s_leases set_leases]. rewrite (bl_get_put _ _ _ _ _ Hput). case_decide as E; [|apply Hi].
    intros [= <-]. exists l. by subst k.
  - unfold lease_at, currentLease. cbn [s_leases set_leases]. rewrite (b_get_put_eq _ _ _ _ Hput), Hd. cbn. by rewrite bool_decide_eq_true_2.
  - intros key Hk Hne. unfold lease_at, currentLease. cbn [s_leases set_leases].
    rewrite (b_get_put_ne _ _ (encodeLeaseKey (Lease_Key l)) data (encodeLeaseKey key)) with (2 := Hput); [done|].
    intros E. apply encodeLeaseKey_inj in E; [congruence|apply Hty|done].
Qed.

Lemma lease_delete db l :
  LeaseInv store db -> lease_typed l ->
  let db' := set_leases db (b_delete (s_leases db) (encodeLeaseKey (Lease_Key l))) in
  LeaseInv store db' /\ lease_at db' (Lease_Key l) = None /\
  forall key, key_typed key -> key <> Lease_Key l -> lease_at db' key = lease_at db key.
Proof.
  intros Hi Hty. cbv zeta. split; [|split].
  - intros k v. cbn [s_leases set_leases]. rewrite bl_get_delete. case_decide; [done|apply Hi].
  - unfold lease_at, currentLease. cbn [s_leases set_leases]. rewrite bl_get_delete. by rewrite decide_True.
  - intros key Hk Hne. unfold lease_at, currentLease. cbn [s_leases set_leases]. rewrite bl_get_delete, decide_False; [done|].
    intros E. apply encodeLeaseKey_inj in E; [congruence|apply Hty|done].
Qed.

Lemma checkCurrent_spec db l now :
  LeaseInv store db -> key_typed (Lease_Key l) ->
  checkCurrent db l now =
    if decide (lease_at db (Lease_Key l) = Some l /\ now < Lease_ExpiresAt l) then Ok tt else Err ErrLeaseLost.
Proof.
  intros Hi Hk. unfold checkCurrent. rewrite (currentLease_at _ _ Hi Hk).
  destruct (lease_at db (Lease_Key l)) as [cur|]; [|by rewrite decide_False by (intros [? _]; done)].
  destruct (sameLease cur l) eqn:E; cbn [negb orb].
  - apply sameLease_spec in E as ->. unfold After. destruct (now <? Lease_ExpiresAt l) eqn:E; cbn; bool_hyps.
    + by rewrite decide_True.
    + rewrite decide_False; [done|]. intros [_ ?]. lia.
  - rewrite decide_False; [done|]. intros [[= ->] _]. assert (sameLease l l = true) by by apply sameLease_spec. congruence.
Qed.

Lemma leaseExpiration_spec now ttl e :
  time_ok now -> - 2 ^ 63 <= ttl < 2 ^ 63 -> leaseExpiration now ttl = (e, true) ->
  e = Add now ttl /\ 0 < ttl /\ now < e /\ time_ok e /\ validRescueTime e = true.
Proof.
  intros Hok Hr. unfold leaseExpiration. destruct (_ || _) eqn:E; [done|]. rewrite normalizeStoreTime_id.
  intros [= <- Hv]. apply andb_true_iff in Hv as [Hv Ha]. unfold After in Ha. bool_hyps.
  repeat split; try done; try lia; by apply Add_ok.
Qed.

(** ** The operations on the table *)

Lemma with_signals_db st loss chans next : ss_db (withSignals st loss chans next) = ss_db st.
Proof. done. Qed.

Lemma Acquire_table call key owner ttl st st' l :
  LeaseInv store (ss_db st) -> time_ok (call_now call) -> lease_op_typed (LAcquire key owner ttl) ->
  Acquire store call key owner ttl st = (st', Ok l) ->
  l = mkLease key owner (Add (call_now call) ttl) /\ call_now call < Lease_ExpiresAt l /\ lease_typed l /\
  (forall cur, lease_at (ss_db st) key = Some cur -> Lease_ExpiresAt cur <= call_now call) /\
  LeaseInv store (ss_db st') /\ lease_at (ss_db st') key = Some l /\
  forall key', key_typed key' -> key' <> key -> lease_at (ss_db st') key' = lease_at (ss_db st) key'.
Proof.
  intros Hi Hnow [Hk Hr]. unfold Acquire. rewrite normalizeStoreTime_id.
  destruct (leaseExpiration _ ttl) as [e ok] eqn:Ee. destruct (encodeLease _) as [data|] eqn:Ed; [|done].
  destruct ok; cbn [negb orb]; [|done]. destruct (leaseExpiration_spec _ _ _ Hnow Hr Ee) as (-> & _ & Hlt & Hok & _).
  destruct (_ =? _) eqn:En; cbn [negb]; [|done]. destruct (begin call st); [|done].
  destruct (update _ _ _) as [st1 [[]|e]] eqn:Eu; [|done]. intros [= <- <-].
  apply store_update_cases in Eu as [([] & db' & _ & Htx & -> & _)|(? & ? & _)]; [|done].
  revert Htx. unfold acquire_tx. destruct (contextErrorTx _); [|done]. rewrite (currentLease_at _ _ Hi Hk).
  destruct (match lease_at (ss_db st) key with Some c => _ | None => _ end) eqn:Eh; [done|].
  destruct (put _ _ _) as [b'|] eqn:Ep; [|done]. apply store_put_inv in Ep. intros [= <-]. bool_hyps.
  set (l := mkLease key owner (Add (call_now call) ttl)) in *.
  assert (Hty : lease_typed l) by by constructor.
  destruct (lease_put (ss_db st) l data b' Hi Hty ltac:(done) Ed Ep) as (H1 & H2 & H3).
  do 3 (split; [done|]). split; [|by split; [|split]].
  intros cur Hc. rewrite Hc in Eh. unfold After in Eh. bool_hyps. lia.
Qed.

Lemma Renew_table call lease ttl st st' l :
  LeaseInv store (ss_db st) -> time_ok (call_now call) -> lease_op_typed (LRenew lease ttl) ->
  Renew store call lease ttl st = (st', Ok l) ->
  l = mkLease (Lease_Key lease) (Lease_Owner lease) (Add (call_now call) ttl) /\ call_now call < Lease_ExpiresAt l /\
  lease_typed l /\ lease_at (ss_db st) (Lease_Key lease) = Some lease /\ call_now call < Lease_ExpiresAt lease /\
  LeaseInv store (ss_db st') /\ lease_at (ss_db st') (Lease_Key lease) = Some l /\
  forall key', key_typed key' -> key' <> Lease_Key lease -> lease_at (ss_db st') key' = lease_at (ss_db st) key'.
Proof.
  intros Hi Hnow [Hl Hr]. unfold Renew. rewrite normalizeLease_id, normalizeStoreTime_id.
  destruct (leaseExpiration _ ttl) as [e ok] eqn:Ee. destruct (encodeLease _) as [data|] eqn:Ed; [|done].
  destruct ok; cbn [negb orb]; [|done]. destruct (leaseExpiration_spec _ _ _ Hnow Hr Ee) as (-> & _ & Hlt & Hok & _).
  destruct (_ =? _) eqn:En; cbn [negb]; [|done]. destruct (begin call st); [|done].
  destruct (update _ _ _) as [st1 [[]|e]] eqn:Eu; [|done].
  set (l0 := mkLease (Lease_Key lease) (Lease_Owner lease) (Add (call_now call) ttl)) in *.
  intros Hres. assert (Hll : l = l0 /\ ss_db st' = ss_db st1).
  { destruct (sameLease l0 lease) eqn:Es; injection Hres as <- <-; [|done]. by apply sameLease_spec in Es as ->. }
  destruct Hll as [-> ->]. clear Hres.
  apply store_update_cases in Eu as [([] & db' & _ & Htx & -> & _)|(? & ? & _)]; [|done].
  revert Htx. unfold renew_tx. destruct (contextErrorTx _); [|done].
  rewrite checkCurrent_spec by (done || apply Hl). case_decide as Hc; [|done]. destruct Hc as [Hat Hexp].
  destruct (put _ _ _) as [b'|] eqn:Ep; [|done]. apply store_put_inv in Ep. intros [= <-]. bool_hyps.
  assert (Hty : lease_typed l0) by (constructor; [apply Hl|done]).
  destruct (lease_put (ss_db st) l0 data b' Hi Hty ltac:(done) Ed Ep) as (H1 & H2 & H3).
  do 5 (split; [done|]). by split; [|split].
Qed.

Lemma Release_table call lease st st' :
  LeaseInv store (ss_db st) -> lease_typed lease -> Release store call lease st = (st', Ok tt) ->
  lease_at (ss_db st) (Lease_Key lease) = Some lease /\ call_now call < Lease_ExpiresAt lease /\
  LeaseInv store (ss_db st') /\ lease_at (ss_db st') (Lease_Key lease) = None /\
  forall key', key_typed key' -> key' <> Lease_Key lease -> lease_at (ss_db st') key' = lease_at (ss_db st) key'.
Proof.
  intros Hi Hl. unfold Release. rewrite normalizeLease_id, normalizeStoreTime_id. destruct (_ || _); [done|].
  destruct (begin call st); [|done]. destruct (update _ _ _) as [st1 [[]|e]] eqn:Eu; [|done]. cbn [isOk orb].
  intros [= <-]. cbn [ss_db closeLeaseSignal closeSignals withSignals].
  apply store_update_cases in Eu as [([] & db' & _ & Htx & -> & _)|(? & ? & _)]; [|done].
  revert Htx. unfold release_tx. destruct (contextErrorTx _); [|done].
  rewrite checkCurrent_spec by (done || apply Hl). case_decide as Hc; [|done]. intros [= <-].
  destruct Hc. split; [done|]. split; [done|]. by apply lease_delete.
Qed.

Lemma Validate_table call lease st :
  LeaseInv store (ss_db st) -> lease_typed lease -> snd (Validate store call lease st) = Ok tt ->
  lease_at (ss_db st) (Lease_Key lease) = Some lease /\ call_now call < Lease_ExpiresAt lease.
Proof.
  intros Hi Hl. unfold Validate. rewrite normalizeLease_id, normalizeStoreTime_id. destruct (_ || _); [done|].
  destruct (begin call st); [|done]. cbn [snd]. unfold view. destruct (contextErrorTx _); [|done].
  rewrite checkCurrent_spec by (done || apply Hl). by case_decide.
Qed.

(** An operation that fails leaves the table as it was. *)
Lemma run_lease_err call op st :
  match op with
  | LAcquire key owner ttl => isOk (snd (Acquire store call key owner ttl st)) = false
  | LRenew lease ttl => isOk (snd (Renew store call lease ttl st)) = false
  | LValidate _ => True
  | LRelease lease => isOk (snd (Release store call lease st)) = false
  end -> ss_db (run_lease store st (call, op)) = ss_db st.
Proof.
  destruct op as [key owner ttl|lease ttl|lease|lease]; cbn [run_lease].
  - unfold Acquire. destruct (leaseExpiration _ _) as [e ok]. destruct (encodeLease _); [|done].
    destruct (_ || _); [done|]. destruct (begin call st); [|done].
    destruct (update _ _ _) as [st1 [[]|er]] eqn:Eu; [done|].
    apply store_update_cases in Eu as [(? & ? & ? & _)|(e' & _ & ->)]; [done|]. cbn. by destruct (bool_decide _).
  - unfold Renew. destruct (leaseExpiration _ _) as [e ok]. destruct (encodeLease _); [|done].
    destruct (_ || _); [done|]. destruct (begin call st); [|done].
    destruct (update _ _ _) as [st1 [[]|er]] eqn:Eu; [by destruct (sameLease _ _)|].
    apply store_update_cases in Eu as [(? & ? & ? & _)|(e' & _ & ->)]; [done|]. cbn [fst]. by destruct (leaseLossDetected _).
  - intros _. unfold Validate. destruct (_ || _); [done|]. destruct (begin call st); [|done]. cbn [fst].
    by destruct (leaseLossDetected _).
  - unfold Release. destruct (_ || _); [done|]. destruct (begin call st); [|done].
    destruct (update _ _ _) as [st1 [[]|er]] eqn:Eu; [done|].
    apply store_update_cases in Eu as [(? & ? & ? & _)|(e' & _ & ->)]; [done|]. cbn [fst]. by destruct (_ || _).
Qed.

(** ** Steps that cannot take a lease away *)

(** An event before the expiry of [l] that is not its holder giving it up. *)
Definition respects (l : Lease) (event : Call * lease_op) : Prop :=
  time_ok (call_now event.1) /\ call_now event.1 < Lease_ExpiresAt l /\ lease_op_typed event.2 /\
  event.2 <> LRelease l /\ forall ttl, event.2 <> LRenew l ttl.

Lemma lease_at_typed db key l : LeaseInv store db -> lease_at db key = Some l -> lease_typed l.
Proof.
  intros Hi. unfold lease_at, currentLease. destruct (b_get _ _) as [v|] eqn:E; [|done].
  destruct (Hi _ _ E) as (l0 & Hd & _). rewrite Hd. cbn [errOr]. destruct (negb _); [done|].
  intros [= <-]. by apply decodeLease_typed in Hd as [? _].
Qed.

(** The key of a lease in use is out of reach of an operation that changes the
    table at another key only. *)
Lemma keep_other db db' key' l :
  LeaseInv store db -> lease_at db (Lease_Key l) = Some l ->
  (forall key, key_typed key -> key <> key' -> lease_at db' key = lease_at db key) ->
  Lease_Key l <> key' -> lease_at db' (Lease_Key l) = Some l.
Proof. intros Hi Hat Hother Hne. rewrite Hother; [done| |done]. apply (lease_at_typed _ _ _ Hi Hat). Qed.

Lemma respects_step l st event :
  LeaseInv store (ss_db st) -> lease_at (ss_db st) (Lease_Key l) = Some l -> respects l event ->
  LeaseInv store (ss_db (run_lease store st event)) /\
  lease_at (ss_db (run_lease store st event)) (Lease_Key l) = Some l.
Proof.
  intros Hi Hat (Hok & Hlt & Hty & Hnrel & Hnren). destruct event as [call op]. cbn [fst snd] in *.
  destruct op as [key owner ttl|lease ttl|lease|lease].
  - destruct (Acquire store call key owner ttl st) as [st' [l'|e]] eqn:E.
    + destruct (Acquire_table _ _ _ _ _ _ _ Hi Hok Hty E) as (_ & _ & _ & Hfree & Hi' & _ & Hother).
      cbn [run_lease]. rewrite E. split; [done|]. apply (keep_other (ss_db st) _ key); auto.
      intros <-. specialize (Hfree l Hat). lia.
    + rewrite run_lease_err; [done|by rewrite E].
  - destruct (Renew store call lease ttl st) as [st' [l'|e]] eqn:E.
    + destruct (Renew_table _ _ _ _ _ _ Hi Hok Hty E) as (_ & _ & _ & Hcur & _ & Hi' & _ & Hother).
      cbn [run_lease]. rewrite E. split; [done|]. apply (keep_other (ss_db st) _ (Lease_Key lease)); auto.
      intros Hk. rewrite <- Hk, Hat in Hcur. injection Hcur as <-. by apply (Hnren ttl).
    + rewrite run_lease_err; [done|by rewrite E].
  - by rewrite run_lease_err.
  - destruct (Release store call lease st) as [st' [[]|e]] eqn:E.
    + destruct (Release_table _ _ _ _ Hi Hty E) as (Hcur & _ & Hi' & _ & Hother).
      cbn [run_lease]. rewrite E. split; [done|]. apply (keep_other (ss_db st) _ (Lease_Key lease)); auto.
      intros Hk. rewrite <- Hk, Hat in Hcur. by injection Hcur as <-.
    + rewrite run_lease_err; [done|by rewrite E].
Qed.

Lemma respects_run l events st :
  LeaseInv store (ss_db st) -> lease_at (ss_db st) (Lease_Key l) = Some l -> Forall (respects l) events ->
  LeaseInv store (ss_db (fold_left (run_lease store) events st)) /\
  lease_at (ss_db (fold_left (run_lease store) events st)) (Lease_Key l) = Some l.
Proof.
  intros Hi Hat H. revert st Hi Hat. induction H as [|ev events Hev _ IH]; intros st Hi Hat; [done|].
  cbn [fold_left]. destruct (respects_step l st ev Hi Hat Hev). by apply IH.
Qed.

(** ** Loss channels *)

(** The open channels: distinct, none closed, at most one per key. *)
Record SignalInv (st : StoreState) : Prop := {
  si_open id c : ss_leaseLoss st !! id = Some c -> (c ∉ ss_closedChans st) /\ (c < ss_nextChan st)%nat;
  si_closed c : c ∈ ss_closedChans st -> (c < ss_nextChan st)%nat;
  si_inj id id' c : ss_leaseLoss st !! id = Some c -> ss_leaseLoss st !! id' = Some c -> id = id';
  si_key id id' c c' : ss_leaseLoss st !! id = Some c -> ss_leaseLoss st !! id' = Some c' ->
    identity_key id = identity_key id' -> id = id' }.

(** What may happen to a channel: it stays open, or it is closed for good. *)
Definition signals_grow (st st' : StoreState) : Prop :=
  (forall id c, ss_leaseLoss st !! id = Some c -> ss_leaseLoss st' !! id = Some c \/ c ∈ ss_closedChans st') /\
  ss_closedChans st ⊆ ss_closedChans st'.

Lemma closeSignals_lookup sel st id :
  ss_leaseLoss (closeSignals sel st) !! id = if sel id then None else ss_leaseLoss st !! id.
Proof.
  cbn. rewrite map_lookup_filter. destruct (ss_leaseLoss st !! id); cbn; [|by destruct (sel id)].
  destruct (sel id) eqn:E; case_guard; cbn in *; congruence.
Qed.

Lemma closeSignals_closed sel st c :
  c ∈ ss_closedChans (closeSignals sel st) <->
  (exists id, ss_leaseLoss st !! id = Some c /\ sel id = true) \/ c ∈ ss_closedChans st.
Proof.
  cbn. rewrite elem_of_union, elem_of_list_to_set, list_elem_of_fmap. apply or_iff_compat_r. split.
  - intros ([id c'] & -> & H). apply elem_of_map_to_list, map_lookup_filter_Some in H as [H1 H2]. cbn in *. eauto.
  - intros (id & H1 & H2). exists (id, c). split; [done|]. apply elem_of_map_to_list, map_lookup_filter_Some. done.
Qed.

Lemma closeSignals_inv sel st :
  SignalInv st -> SignalInv (closeSignals sel st) /\ signals_grow st (closeSignals sel st).
Proof.
  intros [Ho Hc Hinj Hk].
  assert (Hsub : forall id c, ss_leaseLoss (closeSignals sel st) !! id = Some c ->
    sel id = false /\ ss_leaseLoss st !! id = Some c).
  { intros id c. rewrite closeSignals_lookup. by destruct (sel id). }
  split; [constructor|split].
  - intros id c [Hs H]%Hsub. destruct (Ho id c H) as [H1 H2]. split; [|done]. rewrite closeSignals_closed.
    intros [(id' & H' & Hs')|?]; [|done]. rewrite (Hinj id id' c H H') in Hs. congruence.
  - intros c. rewrite closeSignals_closed. intros [(id & H & _)|H]; [by apply (Ho id c H)|by apply Hc].
  - intros id id' c [_ H]%Hsub [_ H']%Hsub. eauto.
  - intros id id' c c' [_ H]%Hsub [_ H']%Hsub. eauto.
  - intros id c H. rewrite closeSignals_lookup. destruct (sel id) eqn:Es; [|by left].
    right. rewrite closeSignals_closed. eauto.
  - intros c H. rewrite closeSignals_closed. by right.
Qed.

Lemma signals_grow_refl st : signals_grow st st.
Proof. split; [by left|done]. Qed.

Lemma signals_grow_trans a b c : signals_grow a b -> signals_grow b c -> signals_grow a c.
Proof.
  intros [H1 H2] [H3 H4]. split; [|set_solver]. intros id ch H. destruct (H1 id ch H) as [H'|H']; [by apply H3|].
  right. by apply H4.
Qed.

Lemma identity_key_lease l : identity_key (leaseSignalIdentity l) = Lease_Key l.
Proof. by destruct l as [[? ?] ? ?]. Qed.

Lemma replaceLeaseSignal_inv l st :
  SignalInv st ->
  SignalInv (replaceLeaseSignal l st) /\ signals_grow st (replaceLeaseSignal l st) /\
  ss_leaseLoss (replaceLeaseSignal l st) !! leaseSignalIdentity l = Some (ss_nextChan st) /\
  (forall id, identity_key id = Lease_Key l -> id <> leaseSignalIdentity l ->
     ss_leaseLoss (replaceLeaseSignal l st) !! id = None).
Proof.
  intros Hi. unfold replaceLeaseSignal. set (sel := fun existing => bool_decide (identity_key existing = Lease_Key l)).
  destruct (closeSignals_inv sel st Hi) as [[Ho Hc Hinj Hk] Hg].
  assert (Hnone : forall id, identity_key id = Lease_Key l -> ss_leaseLoss (closeSignals sel st) !! id = None).
  { intros id H. rewrite closeSignals_lookup. subst sel. cbv beta. by rewrite bool_decide_eq_true_2. }
  set (st1 := closeSignals sel st) in *. change (ss_nextChan st) with (ss_nextChan st1). clearbody st1.
  split; [constructor; cbn|split; [split|split]]; cbn.
  - intros id c. rewrite lookup_insert_Some. intros [[<- <-]|[_ H]].
    + split; [|lia]. intros H%Hc. lia.
    + destruct (Ho id c H). split; [done|lia].
  - intros c H%Hc. lia.
  - intros id id' c. rewrite !lookup_insert_Some. intros [[<- <-]|[Hn H]] [[<- E]|[Hn' H']]; try done.
    + apply Ho in H' as [_ ?]. lia.
    + subst c. apply Ho in H as [_ ?]. lia.
    + eauto.
  - intros id id' c c'. rewrite !lookup_insert_Some. intros [[<- <-]|[Hn H]] [[<- E]|[Hn' H']] Hid; try done.
    + rewrite identity_key_lease in Hid. by rewrite Hnone in H'.
    + rewrite identity_key_lease in Hid. by rewrite Hnone in H.
    + eauto.
  - intros id c H. apply Hg in H as [H|H]; [|by right]. left. rewrite lookup_insert_ne; [done|].
    intros <-. rewrite Hnone in H; [done|]. apply identity_key_lease.
  - apply Hg.
  - apply lookup_insert_eq.
  - intros id H Hne. rewrite lookup_insert_ne by done. by apply Hnone.
Qed.

(** Changing the database alone keeps the channels. *)
Lemma withDB_signals st db : SignalInv st -> SignalInv (withDB st db) /\ signals_grow st (withDB st db).
Proof. intros []. split; [by constructor|split; [by left|done]]. Qed.

Lemma update_signals {A} call st fn st' (r : result StoreError A) :
  update call st fn = (st', r) -> SignalInv st ->
  SignalInv st' /\ signals_grow st st' /\ ss_leaseLoss st' = ss_leaseLoss st.
Proof.
  intros [(a & db' & _ & _ & -> & _)|(e & _ & ->)]%store_update_cases Hi.
  - destruct (withDB_signals st db' Hi). done.
  - split; [done|]. split; [apply signals_grow_refl|done].
Qed.

Lemma closeSignals_after {A} call st fn st' (r : result StoreError A) sel :
  update call st fn = (st', r) -> SignalInv st ->
  SignalInv (closeSignals sel st') /\ signals_grow st (closeSignals sel st').
Proof.
  intros Hu Hi. destruct (update_signals _ _ _ _ _ Hu Hi) as (Hi' & Hg & _).
  destruct (closeSignals_inv sel st' Hi'). split; [done|]. by eapply signals_grow_trans.
Qed.

Lemma replaceSignal_after {A} call st fn st' (r : result StoreError A) l :
  update call st fn = (st', r) -> SignalInv st ->
  SignalInv (replaceLeaseSignal l st') /\ signals_grow st (replaceLeaseSignal l st').
Proof.
  intros Hu Hi. destruct (update_signals _ _ _ _ _ Hu Hi) as (Hi' & Hg & _).
  destruct (replaceLeaseSignal_inv l st' Hi') as (? & ? & _). split; [done|]. by eapply signals_grow_trans.
Qed.

Lemma run_lease_signals st event :
  SignalInv st -> SignalInv (run_lease store st event) /\ signals_grow st (run_lease store st event).
Proof.
  intros Hi. assert (Hsame : SignalInv st /\ signals_grow st st) by (split; [done|apply signals_grow_refl]).
  destruct event as [call [key owner ttl|lease ttl|lease|lease]]; cbn [run_lease].
  - unfold Acquire. destruct (leaseExpiration _ _) as [e ok]. destruct (encodeLease _); [|done].
    destruct (_ || _); [done|]. destruct (begin call st); [|done].
    destruct (update _ _ _) as [st1 [[]|er]] eqn:Eu; cbn [fst]; [by eapply replaceSignal_after|].
    destruct (bool_decide _); [by eapply closeSignals_after|].
    destruct (update_signals _ _ _ _ _ Eu Hi) as (? & ? & _). done.
  - unfold Renew. destruct (leaseExpiration _ _) as [e ok]. destruct (encodeLease _); [|done].
    destruct (_ || _); [done|]. destruct (begin call st); [|done].
    destruct (update _ _ _) as [st1 [[]|er]] eqn:Eu; destruct (update_signals _ _ _ _ _ Eu Hi) as (? & ? & _).
    + destruct (sameLease _ _); cbn [fst]; [done|by eapply replaceSignal_after].
    + cbn [fst]. destruct (leaseLossDetected _); [by eapply closeSignals_after|done].
  - unfold Validate. destruct (_ || _); [done|]. destruct (begin call st); [|done]. cbn [fst].
    destruct (leaseLossDetected _); [|done]. by apply closeSignals_inv.
  - unfold Release. destruct (_ || _); [done|]. destruct (begin call st); [|done].
    destruct (update _ _ _) as [st1 r] eqn:Eu. destruct (update_signals _ _ _ _ _ Eu Hi) as (? & ? & _). cbn [fst].
    destruct (_ || _); [by eapply closeSignals_after|done].
Qed.

Lemma leaseSignalIdentity_inj l l' :
  lease_typed l -> lease_typed l' -> leaseSignalIdentity l = leaseSignalIdentity l' -> l = l'.
Proof.
  intros [_ Ht] [_ Ht'] H. injection H as E1 E2 E3 E4 E5.
  pose proof (unixTime_Unix _ Ht) as H1. pose proof (unixTime_Unix _ Ht') as H2. rewrite E4, E5, H2 in H1.
  destruct l as [[? ?] ? ?], l' as [[? ?] ? ?]; cbn in *. congruence.
Qed.

Lemma begin_not_lost call st : begin call st <> Err ErrLeaseLost.
Proof. unfold begin, contextError. destruct (call_ctx call) as [|[]]; [done|done|]. by destruct (ss_closed st). Qed.

(** ** Claims *)

(** C12. A lease excludes every other holder: whatever lease operations run
    before it expires, by whomever and in whatever order, short of its holder
    renewing or releasing it, the lease stays in force, and no [Acquire] of its
    key succeeds. *)
Theorem lease_mutual_exclusion l st events :
  LeaseInv store (ss_db st) -> lease_at (ss_db st) (Lease_Key l) = Some l -> Forall (respects l) events ->
  let st' := fold_left (run_lease store) events st in
  lease_at (ss_db st') (Lease_Key l) = Some l /\
  forall call owner ttl l', respects l (call, LAcquire (Lease_Key l) owner ttl) ->
    snd (Acquire store call (Lease_Key l) owner ttl st') <> Ok l'.
Proof.
  intros Hi Hat Hev st'. destruct (respects_run l events st Hi Hat Hev) as [Hi' Hat']. split; [done|].
  intros call owner ttl l' (Hok & Hlt & Hty & _) E.
  destruct (Acquire store call (Lease_Key l) owner ttl st') as [st'' r] eqn:Ea. cbn in E. subst r.
  destruct (Acquire_table _ _ _ _ _ _ _ Hi' Hok Hty Ea) as (_ & _ & _ & Hfree & _).
  specialize (Hfree l Hat'). cbn [fst] in Hlt, Hfree. lia.
Qed.

(** A granted lease is the only one of its key: when [Acquire] succeeds, no
    lease of the key was valid at that moment, and afterwards the returned lease,
    which expires after exactly the requested time, is the only lease of the key
    that [Validate] accepts, now or later. *)
Theorem acquired_lease_is_the_only_one call key owner ttl st st' l :
  LeaseInv store (ss_db st) -> time_ok (call_now call) -> lease_op_typed (LAcquire key owner ttl) ->
  Acquire store call key owner ttl st = (st', Ok l) ->
  Lease_Key l = key /\ Lease_Owner l = owner /\ Lease_ExpiresAt l = Add (call_now call) ttl /\
  (forall l0, lease_typed l0 -> Lease_Key l0 = key -> snd (Validate store call l0 st) <> Ok tt) /\
  (forall call' l0, lease_typed l0 -> Lease_Key l0 = key -> snd (Validate store call' l0 st') = Ok tt -> l0 = l).
Proof.
  intros Hi Hnow Hty E.
  destruct (Acquire_table _ _ _ _ _ _ _ Hi Hnow Hty E) as (-> & _ & _ & Hfree & Hi' & Hat & _).
  do 3 (split; [done|]). split.
  - intros l0 Hl <- Hv. destruct (Validate_table _ _ _ Hi Hl Hv) as [H1 H2]. specialize (Hfree l0 H1). lia.
  - intros call' l0 Hl Hk Hv. destruct (Validate_table _ _ _ Hi' Hl Hv) as [H1 _]. congruence.
Qed.

(** The owner is told when its lease is gone: channels once closed stay
    closed; a new lease gets a fresh open channel and the channels of the key's
    other leases are closed; a lease that [Validate] finds lost has its channel
    closed. *)
Theorem lease_loss_is_signalled call key owner ttl l st :
  SignalInv st -> lease_op_typed (LAcquire key owner ttl) -> lease_typed l ->
  (forall event, SignalInv (run_lease store st event) /\ signals_grow st (run_lease store st event)) /\
  (forall st' granted, LeaseInv store (ss_db st) -> time_ok (call_now call) ->
     Acquire store call key owner ttl st = (st', Ok granted) ->
     (exists c, Lost store granted st' = Some c /\ c ∉ ss_closedChans st') /\
     (Lease_Key l = key -> l <> granted -> Lost store l st' = None)) /\
  (snd (Validate store call l st) = Err ErrLeaseLost ->
     let st' := fst (Validate store call l st) in
     Lost store l st' = None /\ forall c, Lost store l st = Some c -> c ∈ ss_closedChans st').
Proof.
  intros Hs Hty Hl. split; [intros event; by apply run_lease_signals|]. split.
  - intros st' granted Hi Hnow E.
    destruct (Acquire_table _ _ _ _ _ _ _ Hi Hnow Hty E) as (Hg & _ & Hgt & _).
    assert (Hst : exists st1, SignalInv st1 /\ st' = replaceLeaseSignal granted st1 /\
      validateLease granted = Ok tt /\ LeaseKey_Network key = store_network store).
    { revert E. unfold Acquire. destruct (leaseExpiration _ _) as [e ok]. destruct (encodeLease _) eqn:Ed; [|done].
      apply encodeLease_inv in Ed as [Hv _]. destruct (_ || _) eqn:En; [done|]. bool_hyps. destruct (begin call st); [|done].
      destruct (update _ _ _) as [st1 [[]|er]] eqn:Eu; [|done]. intros [= <- <-].
      destruct (update_signals _ _ _ _ _ Eu Hs) as (? & _). eauto. }
    destruct Hst as (st1 & Hs1 & -> & Hv & Hn).
    destruct (replaceLeaseSignal_inv granted st1 Hs1) as (Hi' & _ & Hown & Hother).
    assert (Hkey : Lease_Key granted = key) by by subst granted.
    unfold Lost. rewrite !normalizeLease_id. split.
    + exists (ss_nextChan st1). rewrite Hv, Hkey, Hn, Z.eqb_refl. cbn [isOk negb orb]. split; [done|].
      by apply (si_open _ Hi' _ _ Hown).
    + intros Hk Hne. destruct (_ || _); [done|]. apply Hother; [by rewrite identity_key_lease, Hkey|].
      intros Hid. by apply Hne, leaseSignalIdentity_inj.
  - unfold Validate. rewrite normalizeLease_id. destruct (_ || _) eqn:Ev; [done|].
    destruct (begin call st) as [|e] eqn:Eb; [|intros [= ->]; by apply begin_not_lost in Eb].
    cbn [fst snd]. intros Hr. rewrite Hr. cbn [leaseLossDetected].
    unfold Lost. rewrite normalizeLease_id, Ev. split.
    + unfold closeLeaseSignal. rewrite closeSignals_lookup. by rewrite bool_decide_eq_true_2.
    + intros c Hc. apply closeSignals_closed. left. exists (leaseSignalIdentity l).
      split; [done|]. by apply bool_decide_eq_true_2.
Qed.

End Store.
End Leases.

(** ** Witnesses *)

Import MapBolt.

Definition ex_store : BoltStore :=
  mkStore 1 (repeat Byte.x01 20) (repeat Byte.x02 20) (repeat Byte.x03 20) (repeat Byte.x04 20) 2 100000 4 (repeat Byte.x05 32).
Definition ex_db : StoreDB :=
  mkStoreDB b_empty b_empty b_empty b_empty b_empty b_empty b_empty b_empty b_empty b_empty b_empty.
Definition ex_state : StoreState := mkStoreState false ex_db 0 ∅ ∅ 0.
Definition ex_at (seconds : Z) : Call := mkCall (LiveContext None None) (unixTime seconds 0) false.
Definition ex_key : LeaseKey := mkLeaseKey 1 (repeat Byte.x02 20).
Definition ex_lease : Lease := mkLease ex_key [Byte.x61] (unixTime 1060 0).
Definition ex_granted := Acquire ex_store (ex_at 1000) ex_key [Byte.x61] (60 * Second) ex_state.

Lemma ex_empty_inv : LeaseInv ex_store ex_db.
Proof. intros k v. cbn. by rewrite lookup_empty. Qed.

Lemma ex_acquire_typed owner : lease_op_typed (LAcquire ex_key owner (60 * Second)).
Proof. split; [constructor; by vm_compute|by vm_compute]. Qed.

Lemma ex_lease_typed : lease_typed ex_lease.
Proof. constructor; [constructor; by vm_compute|by vm_compute]. Qed.

Lemma ex_acquired : ex_granted = (fst ex_granted, Ok ex_lease).
Proof.
  assert (H : bool_decide (snd ex_granted = Ok ex_lease) = true) by (vm_compute; reflexivity).
  apply bool_decide_eq_true in H. rewrite <- H. by destruct ex_granted.
Qed.

Lemma ex_signals : SignalInv ex_state.
Proof. constructor; cbn; [intros id c; by rewrite lookup_empty|set_solver|intros id id' c; by rewrite lookup_empty|].
  intros id id' c c'. by rewrite lookup_empty. Qed.

Lemma lease_mutual_exclusion_witness :
  let events := [(ex_at 1010, LAcquire ex_key [Byte.x62] (60 * Second)); (ex_at 1059, LValidate ex_lease)] in
  let st' := fold_left (run_lease ex_store) events (fst ex_granted) in
  lease_at (ss_db st') (Lease_Key ex_lease) = Some ex_lease /\
  forall call owner ttl l', respects ex_lease (call, LAcquire (Lease_Key ex_lease) owner ttl) ->
    snd (Acquire ex_store call (Lease_Key ex_lease) owner ttl st') <> Ok l'.
Proof.
  pose proof (Acquire_table ex_store (ex_at 1000) ex_key [Byte.x61] (60 * Second) ex_state (fst ex_granted) ex_lease
    ex_empty_inv ltac:(by vm_compute) (ex_acquire_typed _) ex_acquired) as (_ & _ & _ & _ & Hi & Hat & _).
  apply (lease_mutual_exclusion ex_store ex_lease (fst ex_granted)); [exact Hi|exact Hat|].
  repeat constructor; cbn; try done; apply ex_acquire_typed || apply ex_lease_typed.
Defined.

Lemma acquired_lease_is_the_only_one_witness :
  Lease_Key ex_lease = ex_key /\ Lease_Owner ex_lease = [Byte.x61] /\
  Lease_ExpiresAt ex_lease = Add (call_now (ex_at 1000)) (60 * Second) /\
  (forall l0, lease_typed l0 -> Lease_Key l0 = ex_key -> snd (Validate ex_store (ex_at 1000) l0 ex_state) <> Ok tt) /\
  (forall call' l0, lease_typed l0 -> Lease_Key l0 = ex_key ->
     snd (Validate ex_store call' l0 (fst ex_granted)) = Ok tt -> l0 = ex_lease).
Proof.
  apply (acquired_lease_is_the_only_one ex_store (ex_at 1000) ex_key [Byte.x61] (60 * Second) ex_state (fst ex_granted));
    [exact ex_empty_inv|by vm_compute|apply ex_acquire_typed|exact ex_acquired].
Defined.

End LeaseTheorems.
Export LeaseTheorems.
