(* ===== verification/StoreCodec.v ===== *)
(** * internal/store/codec.go: records of the watcher's state

    Encoding and decoding of candidate records, incidents, canonical blocks and
    checkpoints, with the validation each performs.  The theorems are the round
    trips and what a decoded record guarantees. *)

From S2P Require Import Prelude GoTime Bytes Sha256 Domain Bolt StoreModel.
From Stdlib Require Import Strings.Byte.

Module StoreCodec.

Definition recordVersion : byte := x01.
Definition maxSymbolBytes : Z := 64.

Record candidateRecord := mkRecord {
  Rec_Status : CandidateStatus;
  Rec_RetryAt : Time;
  Rec_Candidate : RescueCandidate }.

#[export] Instance candidateRecord_eq_dec : EqDecision candidateRecord.
Proof. solve_decision. Defined.

Record blockRecord := mkBlockRecord {
  Block_Checkpoint : Checkpoint;
  Block_ParentHash : Hash;
  Block_Members : list CandidateID }.

Definition validPersistentTime (value : Time) : bool :=
  negb (IsZero value) && (negb (Unix value =? 0) || negb (Nanosecond value =? 0)).

Definition validateCandidate (candidate : RescueCandidate) : result StoreError unit :=
  reject maxSymbolBytes <? len (Token_Symbol (Candidate_Token candidate)) with errInvalidRecord in
  errOr errInvalidRecord (ValidateCandidate candidate).

Definition validateCandidateRecord (record : candidateRecord) : result StoreError unit :=
  let! _ := validateCandidate (Rec_Candidate record) in
  match Rec_Status record with
  | CandidateObserved | CandidateStaged | CandidateReady | CandidateAcknowledged | CandidateRemoved =>
      reject negb (IsZero (Rec_RetryAt record)) with errInvalidRecord in Ok tt
  | CandidateDelayed => reject IsZero (Rec_RetryAt record) with errInvalidRecord in Ok tt
  | CandidateStatusOther _ => Err errInvalidRecord
  end.

Definition encodeCandidateRecord (record : candidateRecord) : result StoreError bytes :=
  let! _ := validateCandidateRecord record in
  reject negb (IsZero (Rec_RetryAt record)) && negb (validPersistentTime (Rec_RetryAt record)) with errInvalidRecord in
  let candidate := Rec_Candidate record in
  let symbol := Token_Symbol (Candidate_Token candidate) in
  let result := [recordVersion; status_byte (Rec_Status record)] in
  let result := appendTime result (Rec_RetryAt record) in
  let result := result ++ Candidate_ID candidate in
  let result := appendUint64 result (Candidate_Network candidate) in
  let result := result ++ [kind_byte (Candidate_Kind candidate)] in
  let result := result ++ Candidate_Source candidate in
  let result := result ++ Token_Address (Candidate_Token candidate) in
  let result := result ++ [Zbyte (Token_Decimals (Candidate_Token candidate))] in
  let result := appendUint16 result (len symbol) in
  let result := result ++ symbol in
  let result := result ++ Candidate_BlockHash candidate in
  let result := appendUint64 result (Candidate_BlockNumber candidate) in
  let result := result ++ Candidate_TxHash candidate in
  let result := appendUint64 result (Candidate_LogIndex candidate) in
  let result := appendUint64 result (Candidate_Generation candidate) in
  Ok (appendUint64 result (Candidate_Observation candidate)).

Definition decodeCandidateRecord (data : bytes) : result StoreError candidateRecord :=
  reject (len data <? 2 + 12 + 32 + 8 + 1 + 20 + 20 + 1 + 2 + 32 + 8 + 32 + 8 + 8 + 8)
      || negb (bool_decide (byte_at data 0 = recordVersion)) with errInvalidRecord in
  let status := status_of_byte (byte_at data 1) in
  let? (retryAt, offset) := readTime data 2 orelse errInvalidRecord in
  let? (id, offset) := readFixed 32 data offset orelse errInvalidRecord in
  let? (network, offset) := readUint64 data offset orelse errInvalidRecord in
  reject 2 ^ 63 - 1 <? network with errInvalidRecord in
  reject len data <=? offset with errInvalidRecord in
  let kind := kind_of_byte (byte_at data offset) in
  let? (source, offset) := readFixed 20 data (offset + 1) orelse errInvalidRecord in
  let? (address, offset) := readFixed 20 data offset orelse errInvalidRecord in
  reject len data <=? offset with errInvalidRecord in
  let decimals := byteZ (byte_at data offset) in
  let? (symbolLength, offset) := readUint16 data (offset + 1) orelse errInvalidRecord in
  reject (maxSymbolBytes <? symbolLength) || (len data - offset <? symbolLength) with errInvalidRecord in
  let symbol := slice data offset (Z.to_nat symbolLength) in
  let offset := offset + symbolLength in
  let? (blockHash, offset) := readFixed 32 data offset orelse errInvalidRecord in
  let? (blockNumber, offset) := readUint64 data offset orelse errInvalidRecord in
  let? (txHash, offset) := readFixed 32 data offset orelse errInvalidRecord in
  let? (logIndex, offset) := readUint64 data offset orelse errInvalidRecord in
  let? (generation, offset) := readUint64 data offset orelse errInvalidRecord in
  let? (observation, offset) := readUint64 data offset orelse errInvalidRecord in
  reject negb (offset =? len data) with errInvalidRecord in
  let record := mkRecord status retryAt
    (mkCandidate id network kind source (mkToken address symbol decimals) blockHash blockNumber txHash logIndex
       generation observation) in
  let! _ := validateCandidateRecord record in
  Ok record.

(** A candidate without the metadata that observations may refine. *)
Definition clearMetadata (c : RescueCandidate) : RescueCandidate :=
  mkCandidate (Candidate_ID c) (Candidate_Network c) (Candidate_Kind c) (Candidate_Source c)
    (mkToken (Token_Address (Candidate_Token c)) [] 0) (Candidate_BlockHash c) (Candidate_BlockNumber c)
    (Candidate_TxHash c) (Candidate_LogIndex c) 0 (Candidate_Observation c).

Definition sameCandidateIdentity (left right : RescueCandidate) : bool :=
  bool_decide (clearMetadata left = clearMetadata right).

Definition updateCandidateMetadata (persisted canonical : RescueCandidate) : RescueCandidate :=
  mkCandidate (Candidate_ID persisted) (Candidate_Network persisted) (Candidate_Kind persisted) (Candidate_Source persisted)
    (mkToken (Token_Address (Candidate_Token persisted)) (Token_Symbol (Candidate_Token canonical))
       (Token_Decimals (Candidate_Token canonical)))
    (Candidate_BlockHash persisted) (Candidate_BlockNumber persisted) (Candidate_TxHash persisted)
    (Candidate_LogIndex persisted) (Candidate_Generation canonical) (Candidate_Observation persisted).

Definition encodeIncident (incident : Incident) : result StoreError bytes :=
  reject (Incident_Network incident <=? 0)
      || negb (bytes_eqb (Incident_ID incident) (NewIncidentID (Incident_Candidate incident)))
      || negb (validPersistentTime (Incident_CreatedAt incident)) with errInvalidRecord in
  let result := [recordVersion] in
  let result := result ++ Incident_ID incident in
  let result := result ++ Incident_Candidate incident in
  let result := appendUint64 result (Incident_Network incident) in
  Ok (appendTime result (Incident_CreatedAt incident)).

Definition decodeIncident (data : bytes) : result StoreError Incident :=
  reject negb (len data =? 1 + 32 + 32 + 8 + 12) || negb (bool_decide (byte_at data 0 = recordVersion))
    with errInvalidRecord in
  let? (id, offset) := readFixed 32 data 1 orelse errInvalidRecord in
  let? (candidate, offset) := readFixed 32 data offset orelse errInvalidRecord in
  let? (network, offset) := readUint64 data offset orelse errInvalidRecord in
  reject 2 ^ 63 - 1 <? network with errInvalidRecord in
  let? (createdAt, offset) := readTime data offset orelse errInvalidRecord in
  reject negb (offset =? len data) with errInvalidRecord in
  reject (network <=? 0) || negb (bytes_eqb id (NewIncidentID candidate)) || IsZero createdAt with errInvalidRecord in
  Ok (mkIncident id candidate network createdAt).

(** Neighbouring members must be strictly increasing. *)
Fixpoint membersIncrease (members : list CandidateID) : bool :=
  match members with
  | a :: (b :: _) as rest => bytes_ltb a b && membersIncrease rest
  | _ => true
  end.

Definition validateBlockRecord (record : blockRecord) (maxMembers : Z) : result StoreError unit :=
  reject (CP_Network (Block_Checkpoint record) <=? 0) || is_zero_bytes (CP_BlockHash (Block_Checkpoint record))
      || (maxMembers <? Z.of_nat (length (Block_Members record))) with errInvalidRecord in
  reject negb (Bool.eqb (CP_BlockNumber (Block_Checkpoint record) =? 0) (is_zero_bytes (Block_ParentHash record)))
    with errInvalidRecord in
  reject negb (membersIncrease (Block_Members record)) with errInvalidRecord in
  Ok tt.

Definition encodeBlock (record : blockRecord) (maxMembers : Z) : result StoreError bytes :=
  let! _ := validateBlockRecord record maxMembers in
  let result := [recordVersion] in
  let result := appendUint64 result (CP_Network (Block_Checkpoint record)) in
  let result := appendUint64 result (CP_BlockNumber (Block_Checkpoint record)) in
  let result := result ++ CP_BlockHash (Block_Checkpoint record) in
  let result := result ++ Block_ParentHash record in
  let result := appendUint32 result (Z.of_nat (length (Block_Members record))) in
  Ok (fold_left (fun result member => result ++ member) (Block_Members record) result).

(** Read [count] IDs of 32 bytes. *)
Fixpoint readMembers (count : nat) (data : bytes) (offset : Z) : option (list CandidateID * Z) :=
  match count with
  | O => Some ([], offset)
  | S count' =>
      match readFixed 32 data offset with
      | None => None
      | Some (member, offset) =>
          match readMembers count' data offset with
          | None => None
          | Some (members, offset) => Some (member :: members, offset)
          end
      end
  end.

Definition decodeBlock (data : bytes) (maxMembers : Z) : result StoreError blockRecord :=
  reject (len data <? 1 + 8 + 8 + 32 + 32 + 4) || negb (bool_decide (byte_at data 0 = recordVersion)) with errInvalidRecord in
  let? (network, offset) := readUint64 data 1 orelse errInvalidRecord in
  reject 2 ^ 63 - 1 <? network with errInvalidRecord in
  let? (number, offset) := readUint64 data offset orelse errInvalidRecord in
  let? (blockHash, offset) := readFixed 32 data offset orelse errInvalidRecord in
  let? (parentHash, offset) := readFixed 32 data offset orelse errInvalidRecord in
  let? (count, offset) := readUint32 data offset orelse errInvalidRecord in
  reject (maxMembers <? count) || negb (uint64_wrap (count * 32) =? uint64_wrap (len data - offset)) with errInvalidRecord in
  let? (members, offset) := readMembers (Z.to_nat count) data offset orelse errInvalidRecord in
  reject negb (offset =? len data) with errInvalidRecord in
  let record := mkBlockRecord (mkCheckpoint network number blockHash) parentHash members in
  let! _ := validateBlockRecord record maxMembers in
  Ok record.

Definition id_le (a b : CandidateID) : Prop := bytes_ltb b a = false.

#[export] Instance id_le_dec : RelDecision id_le.
Proof. intros a b. unfold id_le. apply _. Defined.

Fixpoint hasDuplicate (members : list CandidateID) : bool :=
  match members with
  | a :: (b :: _) as rest => bytes_eqb a b || hasDuplicate rest
  | _ => false
  end.

Definition sortedMemberIDs (candidates : list RescueCandidate) : result StoreError (list CandidateID) :=
  let members := merge_sort id_le (map Candidate_ID candidates) in
  reject hasDuplicate members with errInvalidRecord in
  Ok members.

Definition encodeCheckpoint (checkpoint : Checkpoint) : result StoreError bytes :=
  reject (CP_Network checkpoint <=? 0) || is_zero_bytes (CP_BlockHash checkpoint) with errInvalidRecord in
  let result := appendUint64 [] (CP_Network checkpoint) in
  let result := appendUint64 result (CP_BlockNumber checkpoint) in
  Ok (result ++ CP_BlockHash checkpoint).

Definition decodeCheckpoint (data : bytes) : result StoreError Checkpoint :=
  reject negb (len data =? 8 + 8 + 32) with errInvalidRecord in
  let? (network, offset) := readUint64 data 0 orelse errInvalidRecord in
  reject 2 ^ 63 - 1 <? network with errInvalidRecord in
  let? (number, offset) := readUint64 data offset orelse errInvalidRecord in
  let? (blockHash, offset) := readFixed 32 data offset orelse errInvalidRecord in
  reject negb (offset =? len data) || (network <=? 0) || is_zero_bytes blockHash with errInvalidRecord in
  Ok (mkCheckpoint network number blockHash).

(** ** Types *)

Record record_typed (r : candidateRecord) : Prop := {
  rt_candidate : candidate_typed (Rec_Candidate r);
  rt_decimals : inU 8 (Token_Decimals (Candidate_Token (Rec_Candidate r)));
  rt_generation : inU 64 (Candidate_Generation (Rec_Candidate r));
  rt_retry : time_ok (Rec_RetryAt r) }.

Record checkpoint_typed (c : Checkpoint) : Prop := {
  cp_network : - 2 ^ 63 <= CP_Network c < 2 ^ 63;
  cp_number : inU 64 (CP_BlockNumber c);
  cp_hash : isHash (CP_BlockHash c) }.

Record block_typed (b : blockRecord) : Prop := {
  bt_checkpoint : checkpoint_typed (Block_Checkpoint b);
  bt_parent : isHash (Block_ParentHash b);
  bt_members : Forall isHash (Block_Members b) }.

(** ** Candidate records *)

Lemma validPersistentTime_store t : time_ok t -> validPersistentTime t = true -> time_storable t.
Proof. intros Hok Hv. split; [done|]. intros ->. by vm_compute in Hv. Qed.

Lemma status_of_byte_byte s : (forall b, s <> CandidateStatusOther b) -> status_of_byte (status_byte s) = s.
Proof. intros H. destruct s; try done. by destruct (H b). Qed.

Lemma validateCandidate_inv c :
  validateCandidate c = Ok tt ->
  len (Token_Symbol (Candidate_Token c)) <= maxSymbolBytes /\ ValidateCandidate c = Ok tt.
Proof.
  unfold validateCandidate. destruct (_ <? _) eqn:E; [done|]. bool_hyps.
  destruct (ValidateCandidate c) as [[]|]; [|done]. done.
Qed.

Lemma validateCandidateRecord_inv r :
  validateCandidateRecord r = Ok tt ->
  validateCandidate (Rec_Candidate r) = Ok tt /\ (forall b, Rec_Status r <> CandidateStatusOther b) /\
  (Rec_Status r = CandidateDelayed <-> Rec_RetryAt r <> zeroTime).
Proof.
  unfold validateCandidateRecord. destruct (validateCandidate _) as [[]|]; [|done].
  destruct (Rec_Status r) eqn:Es; try done; unfold IsZero, zeroTime; destruct (Rec_RetryAt r =? 0) eqn:E; try done;
    intros _; bool_hyps; repeat split; (done || intros; congruence || lia).
Qed.

Definition recordLayout (r : candidateRecord) : bytes :=
  let c := Rec_Candidate r in
  [recordVersion; status_byte (Rec_Status r)] ++ time_bytes (Rec_RetryAt r) ++ Candidate_ID c ++
  be_bytes 8 (Candidate_Network c) ++ [kind_byte (Candidate_Kind c)] ++ Candidate_Source c ++
  Token_Address (Candidate_Token c) ++ [Zbyte (Token_Decimals (Candidate_Token c))] ++
  be_bytes 2 (len (Token_Symbol (Candidate_Token c))) ++ Token_Symbol (Candidate_Token c) ++
  Candidate_BlockHash c ++ be_bytes 8 (Candidate_BlockNumber c) ++ Candidate_TxHash c ++
  be_bytes 8 (Candidate_LogIndex c) ++ be_bytes 8 (Candidate_Generation c) ++ be_bytes 8 (Candidate_Observation c).

Lemma encodeCandidateRecord_inv r data :
  encodeCandidateRecord r = Ok data ->
  validateCandidateRecord r = Ok tt /\ data = recordLayout r /\
  (Rec_RetryAt r = zeroTime \/ validPersistentTime (Rec_RetryAt r) = true).
Proof.
  unfold encodeCandidateRecord. destruct (validateCandidateRecord r) as [[]|]; [|done].
  destruct (_ && _) eqn:E; [done|]. intros <-%Ok_inj. split; [done|]. split.
  - unfold recordLayout. rewrite appendTime_app. unfold appendUint64, appendUint16. by rewrite <- !app_assoc.
  - apply andb_false_iff in E as [E|E]; bool_hyps; [left|by right]. unfold IsZero in E. by apply Z.eqb_eq in E.
Qed.

Lemma recordLayout_len r :
  candidate_typed (Rec_Candidate r) -> isHash (Candidate_ID (Rec_Candidate r)) ->
  len (recordLayout r) = 194 + len (Token_Symbol (Candidate_Token (Rec_Candidate r))).
Proof.
  intros [] Hid. unfold recordLayout, isHash, isAddress in *. rewrite !len_app. unfold len.
  rewrite !length_be_bytes, length_time_bytes, Hid, ct_source0, ct_token0, ct_block_hash0, ct_tx_hash0. cbn [length]. lia.
Qed.

Lemma decode_encodeCandidateRecord r data :
  record_typed r -> encodeCandidateRecord r = Ok data -> decodeCandidateRecord data = Ok r.
Proof.
  intros [Hc Hdec Hgen Hret] (Hv & -> & Hretry)%encodeCandidateRecord_inv.
  destruct (validateCandidateRecord_inv _ Hv) as (Hvc & Hst & _).
  destruct (validateCandidate_inv _ Hvc) as [Hsym Hdom].
  destruct (ValidateCandidate_ok _ Hdom) as (Hpos & _ & Hid & _).
  assert (Hidl : isHash (Candidate_ID (Rec_Candidate r))) by (rewrite Hid; apply candidateID_length).
  assert (Hstore : time_storable (Rec_RetryAt r)).
  { destruct Hretry as [->|?]; [apply zeroTime_storable|by apply validPersistentTime_store]. }
  pose proof (recordLayout_len r Hc Hidl) as Hlen. pose proof (len_nonneg (Token_Symbol (Candidate_Token (Rec_Candidate r)))).
  assert (Hcur : at_offset (recordLayout r) 2 (drop 2 (recordLayout r))) by by exists (take 2 (recordLayout r)).
  unfold decodeCandidateRecord. rewrite (proj2 (Z.ltb_ge _ _)) by lia.
  replace (byte_at (recordLayout r) 0) with recordVersion by done.
  replace (byte_at (recordLayout r) 1) with (status_byte (Rec_Status r)) by done.
  rewrite bool_decide_eq_true_2 by done. cbn [negb orb]. rewrite (status_of_byte_byte _ Hst).
  unfold recordLayout in Hcur at 2. cbn [drop app] in Hcur. cbv zeta in Hcur.
  set (data := recordLayout r) in *. destruct r as [status retryAt c]. destruct c as [id net kind source [addr sym dec] bh bn tx li gen obs].
  cbn [Rec_Status Rec_RetryAt Rec_Candidate Candidate_ID Candidate_Network Candidate_Kind Candidate_Source Candidate_Token
    Token_Address Token_Symbol Token_Decimals Candidate_BlockHash Candidate_BlockNumber Candidate_TxHash Candidate_LogIndex
    Candidate_Generation Candidate_Observation] in *.
  destruct Hc as [Hn Hs Ha Hbh Hbn Htx Hli Hob Hk]. cbn in Hn, Hs, Ha, Hbh, Hbn, Htx, Hli, Hob, Hk, Hpos.
  unfold isHash, isAddress, readUint64, readUint16, maxSymbolBytes in *.
  read_next Hcur ltac:(done). read_next Hcur ltac:(done). read_next Hcur ltac:(unfold inU; cbn; lia).
  rewrite (proj2 (Z.ltb_ge _ _)) by lia.
  destruct (at_offset_byte _ _ _ _ Hcur) as (Hlt & -> & Hcur'). rewrite (proj2 (Z.leb_gt _ _) Hlt), Hk. clear Hcur Hlt.
  read_next Hcur' ltac:(done). read_next Hcur' ltac:(done).
  destruct (at_offset_byte _ _ _ _ Hcur') as (Hlt & -> & Hcur). rewrite (proj2 (Z.leb_gt _ _) Hlt). clear Hcur' Hlt.
  read_next Hcur ltac:(unfold inU; cbn; lia).
  destruct (at_offset_slice _ _ _ _ Hcur) as (Hsl & Hroom & Hcur').
  match goal with |- context [if ?c then _ else _] => assert (c = false) as -> end.
  { rewrite orb_false_iff, !Z.ltb_ge. unfold maxSymbolBytes. lia. }
  replace (Z.to_nat (len sym)) with (length sym) by (unfold len; lia). rewrite Hsl. clear Hcur.
  rewrite <- (app_nil_r (be_bytes 8 obs)) in Hcur'.
  do 6 (read_next Hcur' ltac:(done)). rewrite (at_offset_end _ _ Hcur'), Z.eqb_refl. cbn [negb].
  rewrite byteZ_Zbyte, Z.mod_small by exact Hdec. by rewrite Hv.
Qed.

Lemma decodeCandidateRecord_valid data r : decodeCandidateRecord data = Ok r -> validateCandidateRecord r = Ok tt.
Proof.
  unfold decodeCandidateRecord. intros H.
  repeat match type of H with
  | (if ?c then _ else _) = _ => destruct c; [done|]
  | match ?o with Some _ => _ | None => _ end = _ => destruct o as [[? ?]|]; [|done]
  end.
  destruct (validateCandidateRecord _) as [[]|] eqn:E; [|done]. by injection H as <-.
Qed.

Lemma decodeCandidateRecord_typed data r : decodeCandidateRecord data = Ok r -> record_typed r.
Proof.
  unfold decodeCandidateRecord. destruct (_ || _); [done|].
  destruct (readTime data 2) as [[t o1]|] eqn:E1; [|done]. apply readTime_inv in E1 as [Ht _].
  destruct (readFixed 32 data o1) as [[id o2]|] eqn:E2; [|done].
  destruct (readUint64 data o2) as [[net o3]|] eqn:E3; [|done]. apply read_be_inv in E3 as [Hn _].
  destruct (_ <? net) eqn:En; [done|]. destruct (_ <=? _); [done|].
  destruct (readFixed 20 data (o3 + 1)) as [[src o4]|] eqn:E4; [|done]. apply readFixed_inv in E4 as [Hs _].
  destruct (readFixed 20 data o4) as [[addr o5]|] eqn:E5; [|done]. apply readFixed_inv in E5 as [Ha _].
  destruct (_ <=? o5); [done|].
  destruct (readUint16 data (o5 + 1)) as [[sl o6]|] eqn:E6; [|done]. destruct (_ || _); [done|].
  destruct (readFixed 32 data (o6 + sl)) as [[bh o7]|] eqn:E7; [|done]. apply readFixed_inv in E7 as [Hbh _].
  destruct (readUint64 data o7) as [[bn o8]|] eqn:E8; [|done]. apply read_be_inv in E8 as [Hbn _].
  destruct (readFixed 32 data o8) as [[th o9]|] eqn:E9; [|done]. apply readFixed_inv in E9 as [Hth _].
  destruct (readUint64 data o9) as [[li o10]|] eqn:E10; [|done]. apply read_be_inv in E10 as [Hli _].
  destruct (readUint64 data o10) as [[gen o11]|] eqn:E11; [|done]. apply read_be_inv in E11 as [Hgen _].
  destruct (readUint64 data o11) as [[ob o12]|] eqn:E12; [|done]. apply read_be_inv in E12 as [Hob _].
  destruct (negb _); [done|]. destruct (validateCandidateRecord _) as [[]|]; [|done]. intros <-%Ok_inj. bool_hyps.
  change (8 * Z.of_nat 8) with 64 in *. constructor; cbn [Rec_Candidate Rec_RetryAt Candidate_Generation Candidate_Token Token_Decimals].
  - constructor; cbn [Candidate_Network Candidate_Source Candidate_Token Token_Address Candidate_BlockHash Candidate_BlockNumber
      Candidate_TxHash Candidate_LogIndex Candidate_Observation Candidate_Kind]; try done; [unfold inU in Hn; lia|].
    by rewrite kind_of_byte_byte.
  - unfold inU. pose proof (byteZ_range (byte_at data o5)). cbn. lia.
  - done.
  - apply Ht.
Qed.

(** ** Incidents *)

Lemma decode_encodeIncident i data :
  - 2 ^ 63 <= Incident_Network i < 2 ^ 63 -> isHash (Incident_Candidate i) -> time_ok (Incident_CreatedAt i) ->
  encodeIncident i = Ok data -> decodeIncident data = Ok i.
Proof.
  intros Hn Hc Ht. unfold encodeIncident. destruct (_ || _) eqn:E; [done|]. intros <-%Ok_inj. bool_hyps.
  rewrite appendTime_app. unfold appendUint64. rewrite <- !app_assoc.
  destruct i as [id cand net created]. cbn [Incident_ID Incident_Candidate Incident_Network Incident_CreatedAt] in *.
  apply bytes_eqb_spec in H1. assert (Hid : length id = 32%nat) by (rewrite H1; apply NewIncidentID_length).
  pose proof (validPersistentTime_store _ Ht H0) as Hst. unfold isHash in Hc.
  set (data := [recordVersion] ++ _).
  assert (Hcur : at_offset data 1 (id ++ cand ++ be_bytes 8 net ++ time_bytes created ++ [])).
  { exists [recordVersion]. by rewrite app_nil_r. }
  assert (Hlen : len data = 85).
  { subst data. rewrite !len_app. unfold len. rewrite !length_be_bytes, length_time_bytes, Hid, Hc. done. }
  unfold decodeIncident. rewrite Hlen. replace (byte_at data 0) with recordVersion by done. cbn [negb orb].
  rewrite bool_decide_eq_true_2 by done. cbn [Z.eqb negb orb Z.add Pos.add Pos.succ Pos.eqb].
  unfold readUint64. read_next Hcur ltac:(done). read_next Hcur ltac:(done). read_next Hcur ltac:(unfold inU; cbn; lia).
  rewrite (proj2 (Z.ltb_ge _ _)) by lia. read_next Hcur ltac:(done).
  rewrite (at_offset_end _ _ Hcur), Hlen. cbn [Z.eqb Pos.eqb negb].
  rewrite (proj2 (Z.leb_gt _ _)) by lia. rewrite <- H1, bytes_eqb_refl. cbn [negb orb].
  unfold validPersistentTime in H0. apply andb_true_iff in H0 as [H0 _]. bool_hyps. by rewrite H0.
Qed.

Lemma decodeIncident_inv data i :
  decodeIncident data = Ok i -> 0 < Incident_Network i /\ Incident_ID i = NewIncidentID (Incident_Candidate i).
Proof.
  unfold decodeIncident. intros H.
  repeat match type of H with
  | (if ?c then _ else _) = _ => destruct c eqn:?; [done|]
  | match ?o with Some _ => _ | None => _ end = _ => destruct o as [[? ?]|]; [|done]
  end.
  injection H as <-. cbn. bool_hyps. split; [lia|]. by apply bytes_eqb_spec.
Qed.

(** ** Checkpoints *)

Lemma decode_encodeCheckpoint c data :
  checkpoint_typed c -> encodeCheckpoint c = Ok data -> decodeCheckpoint data = Ok c.
Proof.
  intros [Hn Hb Hh]. unfold encodeCheckpoint. destruct (_ || _) eqn:E; [done|]. intros <-%Ok_inj. bool_hyps.
  unfold appendUint64. cbn [app]. rewrite <- app_assoc. destruct c as [net num hash].
  cbn [CP_Network CP_BlockNumber CP_BlockHash] in *. unfold isHash in Hh.
  set (data := be_bytes 8 net ++ _).
  assert (Hcur : at_offset data 0 (be_bytes 8 net ++ be_bytes 8 num ++ hash ++ [])) by (exists []; by rewrite app_nil_r).
  assert (Hlen : len data = 48) by (subst data; rewrite !len_app; unfold len; rewrite !length_be_bytes, Hh; done).
  unfold decodeCheckpoint. rewrite Hlen. cbn [Z.eqb negb Z.add Pos.add Pos.succ Pos.eqb Pos.add_carry].
  unfold readUint64. read_next Hcur ltac:(unfold inU; cbn; lia). rewrite (proj2 (Z.ltb_ge _ _)) by lia.
  read_next Hcur ltac:(done). read_next Hcur ltac:(done). rewrite (at_offset_end _ _ Hcur), Hlen.
  cbn [Z.eqb Pos.eqb negb orb]. rewrite (proj2 (Z.leb_gt _ _)) by lia. match goal with H : is_zero_bytes hash = false |- _ => rewrite H end. done.
Qed.

Lemma decodeCheckpoint_typed data c :
  decodeCheckpoint data = Ok c ->
  checkpoint_typed c /\ 0 < CP_Network c /\ is_zero_bytes (CP_BlockHash c) = false.
Proof.
  unfold decodeCheckpoint. destruct (negb _); [done|].
  destruct (readUint64 data 0) as [[n o1]|] eqn:E1; [|done]. apply read_be_inv in E1 as [Hn _].
  destruct (_ <? n) eqn:En; [done|]. destruct (readUint64 data o1) as [[m o2]|] eqn:E2; [|done]. apply read_be_inv in E2 as [Hm _].
  destruct (readFixed 32 data o2) as [[h o3]|] eqn:E3; [|done]. apply readFixed_inv in E3 as [Hh _].
  destruct (_ || _) eqn:E; [done|]. intros [= <-]. bool_hyps.
  split; [constructor; cbn; [unfold inU in Hn; lia|exact Hm|exact Hh]|cbn; split; [lia|done]].
Qed.

(** ** Canonical blocks *)

Lemma membersIncrease_spec l : membersIncrease l = true <-> StronglySorted bytes_lt l.
Proof.
  split.
  - induction l as [|a [|b l] IH]; cbn; [constructor|repeat constructor|]. intros [H1 H2]%andb_true_iff.
    specialize (IH H2). constructor; [done|]. constructor; [done|]. inv IH.
    eapply Forall_impl; [eassumption|]. intros x Hx. by etransitivity.
  - induction 1 as [|a l Hs IH Hall]; [done|]. destruct l as [|b l]; [done|]. cbn. apply andb_true_iff. inv Hall. done.
Qed.

Lemma readMembers_app (ms : list CandidateID) pre post :
  Forall isHash ms ->
  readMembers (length ms) (pre ++ concat ms ++ post) (len pre) = Some (ms, len (pre ++ concat ms)).
Proof.
  intros H. revert pre. induction H as [|m ms Hm _ IH]; intros pre; cbn [length readMembers concat].
  { by rewrite app_nil_r. }
  rewrite <- app_assoc. rewrite readFixed_app by exact Hm.
  rewrite (app_assoc pre m), IH. by rewrite <- app_assoc.
Qed.

Lemma fold_app_concat (ms : list bytes) acc : fold_left (fun result member => result ++ member) ms acc = acc ++ concat ms.
Proof. revert acc. induction ms as [|m ms IH]; intros acc; cbn; [by rewrite app_nil_r|]. by rewrite IH, app_assoc. Qed.

Lemma len_concat_members (ms : list CandidateID) : Forall isHash ms -> len (concat ms) = 32 * Z.of_nat (length ms).
Proof.
  induction 1 as [|m ms Hm _ IH]; [done|]. cbn [concat length]. rewrite len_app, IH. unfold len. rewrite Hm. lia.
Qed.

Lemma decode_encodeBlock b maxMembers data :
  block_typed b -> maxMembers < 2 ^ 32 -> encodeBlock b maxMembers = Ok data -> decodeBlock data maxMembers = Ok b.
Proof.
  intros [[Hn Hb Hh] Hp Hm] Hmax. unfold encodeBlock. destruct (validateBlockRecord b maxMembers) as [[]|] eqn:Hv; [|done].
  intros <-%Ok_inj. rewrite fold_app_concat. unfold appendUint64, appendUint32. rewrite <- !app_assoc.
  destruct b as [[net num hash] parent ms].
  cbn [Block_Checkpoint Block_ParentHash Block_Members CP_Network CP_BlockNumber CP_BlockHash] in *.
  assert (Hcount : 0 <= Z.of_nat (length ms) <= maxMembers /\ 0 < net).
  { unfold validateBlockRecord in Hv. destruct (_ || _) eqn:E; [done|]. cbn in E. bool_hyps. lia. }
  unfold isHash in Hh, Hp. set (data := [recordVersion] ++ _).
  assert (Hcur : at_offset data 1 (be_bytes 8 net ++ be_bytes 8 num ++ hash ++ parent ++
    be_bytes 4 (Z.of_nat (length ms)) ++ concat ms)) by by exists [recordVersion].
  assert (Hlen : len data = 85 + 32 * Z.of_nat (length ms)).
  { subst data. rewrite !len_app, len_concat_members by done. unfold len. rewrite !length_be_bytes, Hh, Hp. cbn [length]. lia. }
  unfold decodeBlock. rewrite (proj2 (Z.ltb_ge _ _)) by lia. replace (byte_at data 0) with recordVersion by done.
  rewrite bool_decide_eq_true_2 by done. cbn [negb orb]. unfold readUint64, readUint32.
  read_next Hcur ltac:(unfold inU; cbn; lia). rewrite (proj2 (Z.ltb_ge _ _)) by lia.
  read_next Hcur ltac:(done). read_next Hcur ltac:(done). read_next Hcur ltac:(done).
  read_next Hcur ltac:(unfold inU; cbn; lia).
  destruct Hcur as (pre & Hpre & ->).
  assert (Hrest : len data - len pre = 32 * Z.of_nat (length ms)).
  { rewrite Hpre, len_app, len_concat_members by done. lia. }
  rewrite Hrest, Z.mul_comm, Z.eqb_refl, (proj2 (Z.ltb_ge _ _)) by lia. cbn [negb orb].
  pose proof (readMembers_app ms pre [] Hm) as Hread. rewrite app_nil_r in Hread.
  rewrite Nat2Z.id. rewrite Hpre at 1. rewrite Hread, <- Hpre, Z.eqb_refl. cbn [negb]. by rewrite Hv.
Qed.

Lemma decodeBlock_valid data maxMembers b : decodeBlock data maxMembers = Ok b -> validateBlockRecord b maxMembers = Ok tt.
Proof.
  unfold decodeBlock. intros H.
  repeat match type of H with
  | (if ?c then _ else _) = _ => destruct c; [done|]
  | match ?o with Some _ => _ | None => _ end = _ => destruct o as [[? ?]|]; [|done]
  end.
  destruct (validateBlockRecord _ _) as [[]|] eqn:E; [|done]. by injection H as <-.
Qed.

Lemma readMembers_hash n data o ms o' : readMembers n data o = Some (ms, o') -> Forall isHash ms.
Proof.
  revert o ms. induction n as [|n IH]; intros o ms; cbn; [intros [= <- _]; constructor|].
  destruct (readFixed 32 data o) as [[m o1]|] eqn:E; [|done]. apply readFixed_inv in E as [Hm _].
  destruct (readMembers n data o1) as [[rest o2]|] eqn:Er; [|done]. intros [= <- <-]. constructor; [done|]. by eapply IH.
Qed.

Lemma decodeBlock_typed data maxMembers b : decodeBlock data maxMembers = Ok b -> block_typed b.
Proof.
  unfold decodeBlock. destruct (_ || _); [done|].
  destruct (readUint64 data 1) as [[net o1]|] eqn:E1; [|done]. apply read_be_inv in E1 as [Hn _].
  destruct (_ <? net) eqn:En; [done|].
  destruct (readUint64 data o1) as [[num o2]|] eqn:E2; [|done]. apply read_be_inv in E2 as [Hb _].
  destruct (readFixed 32 data o2) as [[bh o3]|] eqn:E3; [|done]. apply readFixed_inv in E3 as [Hh _].
  destruct (readFixed 32 data o3) as [[ph o4]|] eqn:E4; [|done]. apply readFixed_inv in E4 as [Hp _].
  destruct (readUint32 data o4) as [[count o5]|]; [|done]. destruct (_ || _); [done|].
  destruct (readMembers _ _ _) as [[ms o6]|] eqn:E6; [|done]. apply readMembers_hash in E6.
  destruct (negb _); [done|]. destruct (validateBlockRecord _ _) as [[]|]; [|done]. intros <-%Ok_inj. bool_hyps.
  change (8 * Z.of_nat 8) with 64 in *. constructor; [|done|done]. constructor; cbn; [unfold inU in Hn; lia|done|done].
Qed.

(** ** Sorted member lists *)

#[export] Instance id_le_total : Total id_le.
Proof.
  intros x y. unfold id_le. destruct (bytes_lt_trichotomy x y) as [H|[->|H]].
  - left. apply bytes_ltb_false. by left.
  - left. apply bytes_ltb_irrefl.
  - right. apply bytes_ltb_false. by left.
Qed.

#[export] Instance id_le_trans : Transitive id_le.
Proof. intros x y z. apply bytes_le_trans. Qed.

(** A sorted list without equal neighbours is strictly increasing. *)
Lemma sorted_no_duplicate l :
  StronglySorted id_le l -> hasDuplicate l = false -> membersIncrease l = true.
Proof.
  induction 1 as [|a l Hs IH Hall]; [done|]. destruct l as [|b l]; [done|]. cbn. intros [H1 H2]%orb_false_iff.
  apply andb_true_iff. split; [|by apply IH]. inv Hall. apply bytes_ltb_false in H3 as [?|E]; [done|].
  apply bytes_eqb_false in H1. congruence.
Qed.

Lemma sortedMemberIDs_spec cs ms :
  sortedMemberIDs cs = Ok ms -> ms ≡ₚ map Candidate_ID cs /\ StronglySorted bytes_lt ms /\ NoDup ms.
Proof.
  unfold sortedMemberIDs. destruct (hasDuplicate _) eqn:E; [done|]. intros [= <-].
  pose proof (StronglySorted_merge_sort id_le (map Candidate_ID cs)) as Hs.
  pose proof (sorted_no_duplicate _ Hs E) as Hinc. apply membersIncrease_spec in Hinc.
  split; [apply merge_sort_Permutation|]. split; [done|].
  revert Hinc. generalize (merge_sort id_le (map Candidate_ID cs)). clear. induction 1 as [|a l _ IH Hall]; constructor; [|done].
  intros Hin. rewrite Forall_forall in Hall. apply (irreflexivity bytes_lt a). by apply Hall.
Qed.

End StoreCodec.
Export StoreCodec.
