(* ===== verification/StoreQueue.v ===== *)
(** * internal/store/bolt_candidates.go, the queue inside a transaction

    What the operations of the candidate queue share: the checks of an input
    candidate, the counters of ready, observed and unfinished candidates, the
    promotion of staged and due delayed candidates into the ready queue, and the
    index of candidates by block. *)

From S2P Require Import Prelude GoTime Bytes Sha256 Domain Bolt StoreModel StoreCodec.
From Stdlib Require Import Strings.Byte.

Module StoreQueue.

(** What [Bucket.Get] returns, an absent key being a nil slice. *)
Definition getNil {B : Bolt} (b : bucket) (k : bytes) : bytes := default [] (b_get b k).

Definition blockNumberKey (number : Z) : bytes := encodeUint64 number.

Definition matchesCandidate (store : BoltStore) (c : RescueCandidate) : bool :=
  (Candidate_Network c =? store_network store) && bytes_eqb (Candidate_Source c) (store_source store).

Definition validateInputCandidate (store : BoltStore) (c : RescueCandidate) : result StoreError unit :=
  reject negb (isOk (validateCandidate c)) || negb (matchesCandidate store c) with errInvalidInput in
  Ok tt.

Definition isUnfinished (s : CandidateStatus) : bool :=
  match s with CandidateStaged | CandidateReady | CandidateDelayed => true | _ => false end.

Definition isObserved (s : CandidateStatus) : bool :=
  match s with CandidateObserved => true | _ => false end.

(** Observed or removed: not yet confirmed by the canonical chain. *)
Definition isPreliminary (s : CandidateStatus) : bool :=
  match s with CandidateObserved | CandidateRemoved => true | _ => false end.

Definition candidateBlockIndexKey (c : RescueCandidate) : option bytes :=
  if is_zero_bytes (Candidate_BlockHash c) || bool_decide (Candidate_Kind c = CandidateFastToken) then None
  else Some (appendUint64 [] (Candidate_BlockNumber c) ++ Candidate_BlockHash c ++ Candidate_ID c).

Section Queue.
Context {B : Bolt}.

(** ** Counters

    The counters are [uint32]; each stops at its configured bound before it
    could pass it. *)

Definition readyCount (store : BoltStore) (db : StoreDB) : result StoreError Z :=
  foldM (fun count '(key, value) =>
    reject negb (len key =? 32) || negb (len value =? 8) || negb (bytes_eqb (getNil (s_readyOrder db) value) key)
        || (count =? store_maxPending store) with errCorrupt in
    Ok (count + 1)) (b_entries (s_pending db)) 0.

(** Its argument, the status to count, is ignored: observed ones are counted. *)
Definition statusCount (store : BoltStore) (db : StoreDB) (_ : CandidateStatus) : result StoreError Z :=
  foldM (fun count '(_, value) =>
    let! record := errOr errCorrupt (decodeCandidateRecord value) in
    if isObserved (Rec_Status record) then
      reject count =? store_maxPending store with ErrObservationSaturated in
      Ok (count + 1)
    else Ok count) (b_entries (s_candidates db)) 0.

Definition journalCount (store : BoltStore) (db : StoreDB) : result StoreError Z :=
  foldM (fun count '(_, value) =>
    let! record := errOr errCorrupt (decodeCandidateRecord value) in
    if negb (isUnfinished (Rec_Status record)) then Ok count
    else
      reject count =? store_journalCapacity store with errJournalFull in
      Ok (count + 1)) (b_entries (s_candidates db)) 0.

Definition reserveJournal (store : BoltStore) (db : StoreDB) (additional : Z) : result StoreError unit :=
  let! count := journalCount store db in
  reject store_journalCapacity store <? count + additional with errJournalFull in
  Ok tt.

Definition additionalJournalEntries (store : BoltStore) (db : StoreDB) (candidates : list RescueCandidate)
    : result StoreError Z :=
  foldM (fun additional candidate =>
    match b_get (s_candidates db) (Candidate_ID candidate) with
    | None => Ok (additional + 1)
    | Some data =>
        let! record := errOr errCorrupt (decodeCandidateRecord data) in
        reject negb (matchesCandidate store (Rec_Candidate record))
            || negb (sameCandidateIdentity (Rec_Candidate record) candidate) with errCorrupt in
        Ok (if isPreliminary (Rec_Status record) then additional + 1 else additional)
    end) candidates 0.

(** ** Promotion *)

(** A candidate to promote: its key and its record. *)
Definition promotion : Type := CandidateID * candidateRecord.

Definition collect (db : StoreDB) (now : Time) (status : CandidateStatus) : result StoreError (list promotion) :=
  foldM (fun items '(key, value) =>
    let! record := errOr errCorrupt (decodeCandidateRecord value) in
    if negb (bool_decide (Rec_Status record = status))
       || (bool_decide (status = CandidateDelayed) && After (Rec_RetryAt record) now) then Ok items
    else
      reject bool_decide (is_Some (b_get (s_pending db) key)) with errCorrupt in
      Ok (items ++ [(key, record)])) (b_entries (s_candidates db)) [].

(** The loop that fills [n] free places, taking turns; the turn after it. *)
Fixpoint interleave (n : nat) (preferDelayed : bool) (staged delayed : list promotion) : list promotion * bool :=
  match n with
  | O => ([], preferDelayed)
  | S n' =>
      match staged, delayed with
      | [], [] => ([], preferDelayed)
      | s :: ss, [] => let (rest, turn) := interleave n' (negb preferDelayed) ss [] in (s :: rest, turn)
      | [], d :: ds => let (rest, turn) := interleave n' (negb preferDelayed) [] ds in (d :: rest, turn)
      | s :: ss, d :: ds =>
          if preferDelayed
          then let (rest, turn) := interleave n' (negb preferDelayed) (s :: ss) ds in (d :: rest, turn)
          else let (rest, turn) := interleave n' (negb preferDelayed) ss (d :: ds) in (s :: rest, turn)
      end
  end.

Definition promoteOne (db : StoreDB) (item : promotion) : result StoreError StoreDB :=
  let (key, record) := item in
  let! encoded := errOr errCorrupt (encodeCandidateRecord (mkRecord CandidateReady zeroTime (Rec_Candidate record))) in
  let! candidates := put (s_candidates db) key encoded in
  let (sequence, readyOrder) := b_nextSequence (s_readyOrder db) in
  reject sequence =? 0 with errCorrupt in
  let orderKey := encodeUint64 sequence in
  reject bool_decide (is_Some (b_get readyOrder orderKey)) with errCorrupt in
  let! readyOrder := put readyOrder orderKey key in
  let! pending := put (s_pending db) key orderKey in
  Ok (set_pending (set_readyOrder (set_candidates db candidates) readyOrder) pending).

Definition promotionTurn (db : StoreDB) : result StoreError bool :=
  match b_get (s_meta db) promotionTurnKey with
  | None => Ok false
  | Some value =>
      reject negb (len value =? 2) || negb (bool_decide (byte_at value 0 = recordVersion))
          || (1 <? byteZ (byte_at value 1)) with errCorrupt in
      Ok (bool_decide (byte_at value 1 = x01))
  end.

Definition promoteCandidates (store : BoltStore) (now : Time) (db : StoreDB) : result StoreError StoreDB :=
  let! ready := readyCount store db in
  let available := store_maxPending store - ready in
  if available =? 0 then Ok db
  else
    let! staged := collect db now CandidateStaged in
    let! delayed := collect db now CandidateDelayed in
    if bool_decide (staged = []) && bool_decide (delayed = []) then Ok db
    else
      let! preferDelayed := promotionTurn db in
      let (promotions, turn) := interleave (Z.to_nat available) preferDelayed staged delayed in
      let! db := foldM promoteOne promotions db in
      let! meta := put (s_meta db) promotionTurnKey [recordVersion; if turn : bool then x01 else x00] in
      Ok (set_meta db meta).

(** ** Late candidates and the block index *)

Definition rejectLateCandidate (store : BoltStore) (db : StoreDB) (c : RescueCandidate) : result StoreError unit :=
  if is_zero_bytes (Candidate_BlockHash c) then Ok tt
  else
    match b_get (s_meta db) scanCursorKey with
    | None => Ok tt
    | Some data =>
        let! cursor := errOr errCorrupt (decodeCheckpoint data) in
        reject negb (CP_Network cursor =? store_network store) with errCorrupt in
        reject Candidate_BlockNumber c <=? CP_BlockNumber cursor with errConflict in
        Ok tt
    end.

Definition candidateAlreadyScanned (store : BoltStore) (db : StoreDB) (c : RescueCandidate) : bool :=
  if is_zero_bytes (Candidate_BlockHash c) then false
  else
    match b_get (s_meta db) scanCursorKey with
    | None => false
    | Some data =>
        match decodeCheckpoint data with
        | Ok cursor =>
            (CP_Network cursor =? store_network store) && (Candidate_BlockNumber c <=? CP_BlockNumber cursor)
        | Err _ => false
        end
    end.

Definition indexCandidateBlock (db : StoreDB) (c : RescueCandidate) : result StoreError StoreDB :=
  match candidateBlockIndexKey c with
  | None => Ok db
  | Some key =>
      let! b := put (s_blockIndex db) key [recordVersion] in
      Ok (set_blockIndex db b)
  end.

End Queue.

End StoreQueue.
Export StoreQueue.
