(* ===== verification/StoreCanonical.v ===== *)
(** * internal/store/bolt_canonical.go: canonical blocks and checkpoints

    The scan cursor moves block by block along one chain; a block's candidates
    are staged when it is committed; the checkpoint follows the cursor as far as
    every candidate of every block is acknowledged; old complete blocks are
    trimmed and acknowledged candidates expire.  [CommitCanonicalBlock] waits
    while the journal is full: a [Round] is one attempt, how its wait ended and
    what the rest of the process did to the store meanwhile. *)

From S2P Require Import Prelude GoTime Bytes Sha256 Domain Bolt StoreModel StoreCodec StoreQueue.
From Stdlib Require Import Strings.Byte.

Module StoreCanonical.

(** [bytes.HasPrefix] *)
Definition hasPrefix (key prefix : bytes) : bool := bytes_eqb (take (length prefix) key) prefix.

(** [for key := cursor.Seek(prefix); key != nil && HasPrefix(key, prefix); key = cursor.Next()] *)
Fixpoint takeRun (prefix : bytes) (entries : list (bytes * bytes)) : list (bytes * bytes) :=
  match entries with
  | [] => []
  | e :: rest => if hasPrefix (fst e) prefix then e :: takeRun prefix rest else []
  end.

Fixpoint seekRun (prefix : bytes) (entries : list (bytes * bytes)) : list (bytes * bytes) :=
  match entries with
  | [] => []
  | e :: rest => if bytes_ltb (fst e) prefix then seekRun prefix rest else takeRun prefix entries
  end.

Definition isMember (id : CandidateID) (members : list CandidateID) : bool := bool_decide (id ∈ members).

(** How a wait ended: [ctx.Done()], [store.done], or the wake channel or timer. *)
Inductive WaitEnd := WaitContext (e : CtxErr) | WaitDone | WaitWoken.

Definition wait (w : WaitEnd) : result StoreError unit :=
  match w with WaitContext e => Err (errContext e) | WaitDone => Err errClosed | WaitWoken => Ok tt end.

Section Canonical.
Context {B : Bolt}.

Record Round := mkRound {
  round_call : Call;
  round_wait : WaitEnd;
  round_others : StoreState -> StoreState }.

Definition validateCanonicalBlock (store : BoltStore) (block : CanonicalBlock) : result StoreError unit :=
  reject negb (CP_Network (CB_Checkpoint block) =? store_network store) || is_zero_bytes (CP_BlockHash (CB_Checkpoint block))
      || (store_journalCapacity store <? Z.of_nat (length (CB_Candidates block))) with errInvalidInput in
  foldM (fun _ candidate =>
    reject negb (isOk (validateInputCandidate store candidate))
        || negb (Candidate_BlockNumber candidate =? CP_BlockNumber (CB_Checkpoint block))
        || negb (bytes_eqb (Candidate_BlockHash candidate) (CP_BlockHash (CB_Checkpoint block))) with errInvalidInput in
    Ok tt) (CB_Candidates block) tt.

(** ** Reconciling observations with the block *)

(** The candidate an index key names. *)
Definition indexedCandidate (key : bytes) : CandidateID := drop 40 key.

Definition reconcileEntry (number : Z) (members : list CandidateID) (db : StoreDB) (entry : bytes * bytes)
    : result StoreError StoreDB :=
  let (key, value) := entry in
  reject negb (len key =? 8 + 32 + 32) || negb (bytes_eqb value [recordVersion]) with errCorrupt in
  let id := indexedCandidate key in
  let! record := errOr errCorrupt (decodeCandidateRecord (getNil (s_candidates db) id)) in
  reject negb (bytes_eqb (Candidate_ID (Rec_Candidate record)) id)
      || negb (Candidate_BlockNumber (Rec_Candidate record) =? number) with errCorrupt in
  if isMember id members then Ok db
  else
    match Rec_Status record with
    | CandidateObserved | CandidateRemoved =>
        let db := set_candidates db (b_delete (s_candidates db) id) in
        let db := set_pending db (b_delete (s_pending db) id) in
        Ok (set_blockIndex db (b_delete (s_blockIndex db) key))
    | CandidateStaged | CandidateReady | CandidateDelayed | CandidateAcknowledged => Err errConflict
    | CandidateStatusOther _ => Err errCorrupt
    end.

Definition reconcileBlockObservations (number : Z) (members : list CandidateID) (db : StoreDB) : result StoreError StoreDB :=
  let prefix := encodeUint64 number in
  foldM (reconcileEntry number members) (seekRun prefix (b_entries (s_blockIndex db))) db.

Definition reserveUnconfirmedBlock (store : BoltStore) (db : StoreDB) (number : Z) : result StoreError unit :=
  match b_get (s_meta db) scanCursorKey with
  | None => Ok tt
  | Some _ =>
      match b_get (s_meta db) checkpointKey with
      | Some data =>
          let! checkpoint := errOr errCorrupt (decodeCheckpoint data) in
          reject negb (CP_Network checkpoint =? store_network store) || (number <=? CP_BlockNumber checkpoint) with errCorrupt in
          reject unconfirmedBlockLimit <? number - CP_BlockNumber checkpoint with errJournalFull in
          Ok tt
      | None =>
          let? baseline := decodeUint64 (getNil (s_meta db) baselineKey) orelse errCorrupt in
          reject number <? baseline with errCorrupt in
          reject unconfirmedBlockLimit <? uint64_wrap (number - baseline + 1) with errJournalFull in
          Ok tt
      end
  end.

Definition validateCommittedCandidates (store : BoltStore) (db : StoreDB) (candidates : list RescueCandidate)
    : result StoreError unit :=
  foldM (fun _ candidate =>
    let? data := b_get (s_candidates db) (Candidate_ID candidate) orelse errCorrupt in
    let! record := errOr errCorrupt (decodeCandidateRecord data) in
    reject negb (matchesCandidate store (Rec_Candidate record))
        || negb (sameCandidateIdentity (Rec_Candidate record) candidate) || isPreliminary (Rec_Status record) with errCorrupt in
    Ok tt) candidates tt.

Definition validateFullMembership (db : StoreDB) (checkpoint : Checkpoint) (members : list CandidateID) : result StoreError unit :=
  let prefix := encodeUint64 (CP_BlockNumber checkpoint) in
  foldM (fun _ '(key, value) =>
    reject negb (len key =? 8 + 32 + 32) || negb (bytes_eqb value [recordVersion]) with errCorrupt in
    reject negb (bytes_eqb (slice key 8 32) (CP_BlockHash checkpoint)) with errConflict in
    reject negb (isMember (indexedCandidate key) members) with errConflict in
    Ok tt) (seekRun prefix (b_entries (s_blockIndex db))) tt.

(** ** Discovered tokens *)

Definition discoveredCount (store : BoltStore) (db : StoreDB) : result StoreError Z :=
  foldM (fun count '(key, value) =>
    reject negb (len key =? 20) || negb (bytes_eqb value [recordVersion]) || (count =? store_maxDiscoveredTokens store)
      with errCorrupt in
    Ok (count + 1)) (b_entries (s_discovered db)) 0.

(** The addresses of tokens not yet known, each once, in byte order. *)
Definition newTokens (db : StoreDB) (candidates : list RescueCandidate) : list Address :=
  merge_sort id_le (remove_dups (map (fun c => Token_Address (Candidate_Token c))
    (filter (fun c => Candidate_Kind c = CandidateToken /\ b_get (s_discovered db) (Token_Address (Candidate_Token c)) = None)
       candidates))).

Definition confirmToken (store : BoltStore) (state : StoreDB * Z) (address : Address) : result StoreError (StoreDB * Z) :=
  let (db, count) := state in
  if bool_decide (is_Some (b_get (s_discovered db) address)) then Ok (db, count)
  else if count =? store_maxDiscoveredTokens store then
    let! meta := put (s_meta db) discoveryOverflowKey [recordVersion] in
    Ok (set_meta db meta, count)
  else
    let! b := put (s_discovered db) address [recordVersion] in
    Ok (set_discovered db b, count + 1).

Definition confirmDiscoveredTokens (store : BoltStore) (candidates : list RescueCandidate) (db : StoreDB)
    : result StoreError StoreDB :=
  let! count := discoveredCount store db in
  let! (db, _) := foldM (confirmToken store) (newTokens db candidates) (db, count) in
  Ok db.

(** ** Completeness, expiry and trimming *)

Fixpoint membersComplete (store : BoltStore) (db : StoreDB) (checkpoint : Checkpoint) (members : list CandidateID)
    : result StoreError bool :=
  match members with
  | [] => Ok true
  | member :: rest =>
      let? data := b_get (s_candidates db) member orelse errCorrupt in
      let! record := errOr errCorrupt (decodeCandidateRecord data) in
      let c := Rec_Candidate record in
      reject negb (bytes_eqb (Candidate_ID c) member) || negb (matchesCandidate store c)
          || negb (Candidate_BlockNumber c =? CP_BlockNumber checkpoint)
          || negb (bytes_eqb (Candidate_BlockHash c) (CP_BlockHash checkpoint)) with errCorrupt in
      reject isPreliminary (Rec_Status record) with errCorrupt in
      if negb (bool_decide (Rec_Status record = CandidateAcknowledged)) then Ok false
      else membersComplete store db checkpoint rest
  end.

Definition blockComplete (store : BoltStore) (db : StoreDB) (block : blockRecord) : result StoreError bool :=
  membersComplete store db (Block_Checkpoint block) (Block_Members block).

Definition removeCandidateTombstones (db : StoreDB) (id : CandidateID) : result StoreError StoreDB :=
  let! b := foldM (fun b '(key, value) =>
    reject negb (len key =? 8) || negb (len value =? 32) with errCorrupt in
    Ok (if bytes_eqb value id then b_delete b key else b)) (b_entries (s_tombstones db)) (s_tombstones db) in
  Ok (set_tombstones db b).

Definition deleteCompletedMember (db : StoreDB) (id : CandidateID) : result StoreError StoreDB :=
  let! record := errOr errCorrupt (decodeCandidateRecord (getNil (s_candidates db) id)) in
  reject negb (bytes_eqb (Candidate_ID (Rec_Candidate record)) id)
      || negb (bool_decide (Rec_Status record = CandidateAcknowledged)) with errCorrupt in
  let key := default [] (candidateBlockIndexKey (Rec_Candidate record)) in
  let db := set_blockIndex db (b_delete (s_blockIndex db) key) in
  let db := set_incidents db (b_delete (s_incidents db) id) in
  let db := set_candidates db (b_delete (s_candidates db) id) in
  removeCandidateTombstones db id.

Definition deleteCompletedBlockCandidates (block : blockRecord) (db : StoreDB) : result StoreError StoreDB :=
  foldM deleteCompletedMember (Block_Members block) db.

Definition trimBlock (store : BoltStore) (db : StoreDB) (number : Z) : result StoreError StoreDB :=
  let! block := errOr errCorrupt (decodeBlock (getNil (s_blocks db) (blockNumberKey number)) (store_journalCapacity store)) in
  reject negb (CP_BlockNumber (Block_Checkpoint block) =? number)
      || negb (CP_Network (Block_Checkpoint block) =? store_network store) with errCorrupt in
  let! complete := errOr errCorrupt (blockComplete store db block) in
  reject negb complete with errCorrupt in
  let! db := deleteCompletedBlockCandidates block db in
  Ok (set_blocks db (b_delete (s_blocks db) (blockNumberKey number))).

Definition trimCanonicalBlocks (store : BoltStore) (checkpoint : Z) (db : StoreDB) : result StoreError StoreDB :=
  let? baseline := decodeUint64 (getNil (s_meta db) baselineKey) orelse errCorrupt in
  reject checkpoint <? baseline with errCorrupt in
  if uint64_wrap (checkpoint - baseline + 1) <=? canonicalBlockLimit then Ok db
  else
    let retainedFrom := uint64_wrap (checkpoint - canonicalBlockLimit + 1) in
    let! db := foldM (trimBlock store) (seqZ baseline (retainedFrom - baseline)) db in
    let! meta := put (s_meta db) baselineKey (encodeUint64 retainedFrom) in
    Ok (set_meta db meta).

Definition deleteAcknowledgedCandidate (store : BoltStore) (id : CandidateID) (db : StoreDB) : result StoreError StoreDB :=
  let! record := errOr errCorrupt (decodeCandidateRecord (getNil (s_candidates db) id)) in
  let c := Rec_Candidate record in
  reject negb (bool_decide (Rec_Status record = CandidateAcknowledged)) || negb (bytes_eqb (Candidate_ID c) id) with errCorrupt in
  let forget db := Ok (set_candidates (set_incidents db (b_delete (s_incidents db) id)) (b_delete (s_candidates db) id)) in
  match candidateBlockIndexKey c with
  | None => forget db
  | Some key =>
      match b_get (s_blocks db) (blockNumberKey (Candidate_BlockNumber c)) with
      | Some blockData =>
          let! block := errOr errCorrupt (decodeBlock blockData (store_journalCapacity store)) in
          reject negb (bytes_eqb (CP_BlockHash (Block_Checkpoint block)) (Candidate_BlockHash c)) with errCorrupt in
          reject negb (isMember id (Block_Members block)) with errCorrupt in
          Ok db
      | None => forget (set_blockIndex db (b_delete (s_blockIndex db) key))
      end
  end.

(** The loop [for count > tombstoneLimit], [n] times. *)
Fixpoint expireTombstones (store : BoltStore) (n : nat) (db : StoreDB) : result StoreError StoreDB :=
  match n with
  | O => Ok db
  | S n' =>
      let (key, value) := default ([], []) (head (b_entries (s_tombstones db))) in
      reject negb (len key =? 8) || negb (len value =? 32) with errCorrupt in
      let! db := deleteAcknowledgedCandidate store value db in
      expireTombstones store n' (set_tombstones db (b_delete (s_tombstones db) key))
  end.

Definition addTombstone (store : BoltStore) (id : CandidateID) (db : StoreDB) : result StoreError StoreDB :=
  reject b_sequence (s_tombstones db) =? 2 ^ 64 - 1 with errCorrupt in
  let (sequence, b) := b_nextSequence (s_tombstones db) in
  reject sequence =? 0 with errCorrupt in
  let key := encodeUint64 sequence in
  reject bool_decide (is_Some (b_get b key)) with errCorrupt in
  let! b := put b key id in
  let count := Z.of_nat (length (b_entries b)) in
  expireTombstones store (Z.to_nat (count - tombstoneLimit)) (set_tombstones db b).

(** ** The checkpoint *)

(** The loop of [advanceCheckpoint] from block [next]; [None] when the fuel is
    out before the loop ends. *)
Fixpoint advanceLoop (store : BoltStore) (fuel : nat) (next : Z) (db : StoreDB) : option (result StoreError StoreDB) :=
  match fuel with
  | O => None
  | S fuel' =>
      match b_get (s_blocks db) (blockNumberKey next) with
      | None => Some (Ok db)
      | Some data =>
          match
            let! block := errOr errCorrupt (decodeBlock data (store_journalCapacity store)) in
            reject negb (CP_Network (Block_Checkpoint block) =? store_network store)
                || negb (CP_BlockNumber (Block_Checkpoint block) =? next) with errCorrupt in
            let! complete := blockComplete store db block in
            if negb complete then Ok (db, true)
            else
              let! checkpointData := errOr errCorrupt (encodeCheckpoint (Block_Checkpoint block)) in
              let! meta := put (s_meta db) checkpointKey checkpointData in
              let! db := trimCanonicalBlocks store next (set_meta db meta) in
              Ok (db, next =? 2 ^ 64 - 1)
          with
          | Err e => Some (Err e)
          | Ok (db, true) => Some (Ok db)
          | Ok (db, false) => advanceLoop store fuel' (next + 1) db
          end
      end
  end.

(** The first block the loop looks at, if there is a baseline. *)
Definition advanceFrom (store : BoltStore) (db : StoreDB) : result StoreError (option Z) :=
  match b_get (s_meta db) baselineKey with
  | None => Ok None
  | Some data =>
      let? baseline := decodeUint64 data orelse errCorrupt in
      match b_get (s_meta db) checkpointKey with
      | None => Ok (Some baseline)
      | Some data =>
          let! checkpoint := errOr errCorrupt (decodeCheckpoint data) in
          reject negb (CP_Network checkpoint =? store_network store) || (CP_BlockNumber checkpoint =? 2 ^ 64 - 1) with errCorrupt in
          Ok (Some (CP_BlockNumber checkpoint + 1))
      end
  end.

(** One more round than there are blocks: each round needs its own block. *)
Definition advanceFuel (db : StoreDB) : nat := S (length (b_entries (s_blocks db))).

Definition advanceCheckpoint (store : BoltStore) (db : StoreDB) : result StoreError StoreDB :=
  let! from := advanceFrom store db in
  match from with
  | None => Ok db
  | Some next => default (Ok db) (advanceLoop store (advanceFuel db) next db)
  end.

(** ** Committing a block *)

Definition stageCandidate (store : BoltStore) (db : StoreDB) (candidate : RescueCandidate) : result StoreError StoreDB :=
  match b_get (s_candidates db) (Candidate_ID candidate) with
  | None =>
      let! encoded := errOr errInvalidInput (encodeCandidateRecord (mkRecord CandidateStaged zeroTime candidate)) in
      let! b := put (s_candidates db) (Candidate_ID candidate) encoded in
      indexCandidateBlock (set_candidates db b) candidate
  | Some data =>
      let! record := errOr errCorrupt (decodeCandidateRecord data) in
      reject negb (matchesCandidate store (Rec_Candidate record))
          || negb (sameCandidateIdentity (Rec_Candidate record) candidate) with errCorrupt in
      if isPreliminary (Rec_Status record) then
        let! encoded := errOr errInvalidInput (encodeCandidateRecord
          (mkRecord CandidateStaged (Rec_RetryAt record) (updateCandidateMetadata (Rec_Candidate record) candidate))) in
        let! b := put (s_candidates db) (Candidate_ID candidate) encoded in
        Ok (set_candidates db b)
      else Ok db
  end.

(** The cursor before the block, checked to be its parent. *)
Definition checkCursor (store : BoltStore) (db : StoreDB) (block : CanonicalBlock) : result StoreError bool :=
  match b_get (s_meta db) scanCursorKey with
  | None =>
      reject bool_decide (is_Some (b_get (s_meta db) baselineKey)) with errCorrupt in
      Ok false
  | Some data =>
      let! cursor := errOr errCorrupt (decodeCheckpoint data) in
      reject negb (CP_Network cursor =? store_network store) || (CP_BlockNumber cursor =? 2 ^ 64 - 1) with errCorrupt in
      reject negb (CP_BlockNumber (CB_Checkpoint block) =? CP_BlockNumber cursor + 1)
          || negb (bytes_eqb (CB_ParentHash block) (CP_BlockHash cursor)) with errConflict in
      Ok true
  end.

Definition commitNew (store : BoltStore) (call : Call) (block : CanonicalBlock) (members : list CandidateID) (encodedBlock : bytes)
    (db : StoreDB) : result StoreError StoreDB :=
  let number := CP_BlockNumber (CB_Checkpoint block) in
  let! hasCursor := checkCursor store db block in
  let! db := reconcileBlockObservations number members db in
  let! _ := reserveUnconfirmedBlock store db number in
  let! additional := additionalJournalEntries store db (CB_Candidates block) in
  let! _ := reserveJournal store db additional in
  let! db := confirmDiscoveredTokens store (CB_Candidates block) db in
  let! db := foldM (stageCandidate store) (CB_Candidates block) db in
  let! blocks := put (s_blocks db) (blockNumberKey number) encodedBlock in
  let db := set_blocks db blocks in
  let! checkpointData := errOr errInvalidInput (encodeCheckpoint (CB_Checkpoint block)) in
  let! db := (if hasCursor : bool then Ok db
              else let! meta := put (s_meta db) baselineKey (blockNumberKey number) in Ok (set_meta db meta)) in
  let! meta := put (s_meta db) scanCursorKey checkpointData in
  let! db := promoteCandidates store (call_now call) (set_meta db meta) in
  advanceCheckpoint store db.

(** One transaction of [CommitCanonicalBlock]; whether it changed anything. *)
Definition commit_tx (store : BoltStore) (call : Call) (block : CanonicalBlock) (members : list CandidateID) (encodedBlock : bytes)
    (db : StoreDB) : result StoreError (bool * StoreDB) :=
  let! _ := contextErrorTx (call_ctx call) in
  match b_get (s_blocks db) (blockNumberKey (CP_BlockNumber (CB_Checkpoint block))) with
  | Some persisted =>
      reject negb (bytes_eqb persisted encodedBlock) with errConflict in
      let! _ := validateCommittedCandidates store db (CB_Candidates block) in
      Ok (false, db)
  | None =>
      let! db := commitNew store call block members encodedBlock db in
      Ok (true, db)
  end.

(** The rounds of an operation that waits while the journal is full: the state
    after them and the result, [None] while it still waits. *)
Fixpoint runRounds {A} (tx : Call -> StoreDB -> result StoreError (A * bool * StoreDB)) (rounds : list Round) (st : StoreState)
    : StoreState * option (result StoreError A) :=
  match rounds with
  | [] => (st, None)
  | round :: rest =>
      match updateRaw (round_call round) st (fun db => let! (a, changed, db) := tx (round_call round) db in Ok ((a, changed), db)) with
      | (st, Err errJournalFull) =>
          let st := round_others round st in
          match wait (round_wait round) with
          | Err e => (st, Some (Err e))
          | Ok _ => runRounds tx rest st
          end
      | (st, Err e) => (st, Some (Err (publicError e)))
      | (st, Ok (a, changed)) => (if changed : bool then notify st else st, Some (Ok a))
      end
  end.

Definition CommitCanonicalBlock (store : BoltStore) (call : Call) (rounds : list Round) (block : CanonicalBlock) (st : StoreState)
    : StoreState * option (result StoreError unit) :=
  match (let! _ := validateCanonicalBlock store block in
         let! _ := begin call st in
         let! members := errOr errInvalidInput (sortedMemberIDs (CB_Candidates block)) in
         let requested := mkBlockRecord (CB_Checkpoint block) (CB_ParentHash block) members in
         let! encodedBlock := errOr errInvalidInput (encodeBlock requested (store_journalCapacity store)) in
         Ok (members, encodedBlock)) with
  | Err e => (st, Some (Err e))
  | Ok (members, encodedBlock) =>
      runRounds (fun call db => let! (changed, db) := commit_tx store call block members encodedBlock db in Ok ((tt, changed), db))
        rounds st
  end.

(** ** Reads *)

Definition loadCheckpoint (store : BoltStore) (call : Call) (network : NetworkID) (key : bytes) (st : StoreState)
    : result StoreError (option Checkpoint) :=
  reject negb (network =? store_network store) with errInvalidInput in
  let! _ := begin call st in
  view st (fun db =>
    let! _ := contextErrorTx (call_ctx call) in
    match b_get (s_meta db) key with
    | None => Ok None
    | Some data =>
        let! checkpoint := errOr errCorrupt (decodeCheckpoint data) in
        reject negb (CP_Network checkpoint =? store_network store) with errCorrupt in
        Ok (Some checkpoint)
    end).

Definition LoadScanCursor (store : BoltStore) (call : Call) (network : NetworkID) (st : StoreState) :=
  loadCheckpoint store call network scanCursorKey st.

Definition LoadCheckpoint (store : BoltStore) (call : Call) (network : NetworkID) (st : StoreState) :=
  loadCheckpoint store call network checkpointKey st.

Definition DiscoveredTokens (store : BoltStore) (call : Call) (network : NetworkID) (st : StoreState)
    : result StoreError (list Address) :=
  reject negb (network =? store_network store) with errInvalidInput in
  let! _ := begin call st in
  let! tokens := view st (fun db =>
    let! _ := contextErrorTx (call_ctx call) in
    foldM (fun tokens '(key, value) =>
      reject negb (len key =? 20) || negb (bytes_eqb value [recordVersion])
          || (Z.of_nat (length tokens) =? store_maxDiscoveredTokens store) with errCorrupt in
      reject is_zero_bytes key with errCorrupt in
      Ok (tokens ++ [key])) (b_entries (s_discovered db)) []) in
  Ok (merge_sort id_le tokens).

Definition DiscoveryOverflowed (store : BoltStore) (call : Call) (network : NetworkID) (st : StoreState) : result StoreError bool :=
  reject negb (network =? store_network store) with errInvalidInput in
  let! _ := begin call st in
  view st (fun db =>
    let! _ := contextErrorTx (call_ctx call) in
    match b_get (s_meta db) discoveryOverflowKey with
    | None => Ok false
    | Some value => reject negb (bytes_eqb value [recordVersion]) with errCorrupt in Ok true
    end).

End Canonical.

End StoreCanonical.
Export StoreCanonical.
