(* ===== verification/StoreCandidates.v ===== *)
(** * internal/store/bolt_candidates.go: the operations of the candidate queue

    [Put], [PutObserved], [MarkRemoved], [Replay], [Next], incidents, [Nack] and
    [Ack].  [Put] and [Next] loop over [Round]s, as in StoreCanonical. *)

From S2P Require Import Prelude GoTime Bytes Sha256 Domain Bolt StoreModel StoreLease StoreCodec StoreQueue StoreCanonical.

Module StoreCandidates.

Section Candidates.
Context {B : Bolt}.

(** A persisted record of the candidate, checked against it. *)
Definition persistedRecord (store : BoltStore) (data : bytes) (candidate : RescueCandidate) : result StoreError candidateRecord :=
  let! record := errOr errCorrupt (decodeCandidateRecord data) in
  reject negb (sameCandidateIdentity (Rec_Candidate record) candidate)
      || negb (matchesCandidate store (Rec_Candidate record)) with errCorrupt in
  Ok record.

(** The record under an ID, checked to be that candidate's. *)
Definition recordByID (store : BoltStore) (data : bytes) (id : CandidateID) : result StoreError candidateRecord :=
  let! record := errOr errCorrupt (decodeCandidateRecord data) in
  reject negb (bytes_eqb (Candidate_ID (Rec_Candidate record)) id)
      || negb (matchesCandidate store (Rec_Candidate record)) with errCorrupt in
  Ok record.

(** ** Put *)

Definition put_tx (store : BoltStore) (candidate : RescueCandidate) (call : Call) (db : StoreDB)
    : result StoreError (PutResult * bool * StoreDB) :=
  let! _ := contextErrorTx (call_ctx call) in
  let id := Candidate_ID candidate in
  match b_get (s_candidates db) id with
  | Some persisted =>
      let! record := persistedRecord store persisted candidate in
      match Rec_Status record with
      | CandidateAcknowledged => Ok (PutAlreadyAcknowledged, false, db)
      | CandidateObserved | CandidateRemoved =>
          let! _ := reserveJournal store db 1 in
          let! encoded := errOr errCorrupt (encodeCandidateRecord
            (mkRecord CandidateStaged (Rec_RetryAt record) (updateCandidateMetadata (Rec_Candidate record) candidate))) in
          let! b := put (s_candidates db) id encoded in
          let! db := promoteCandidates store (call_now call) (set_candidates db b) in
          Ok (PutAlreadyPending, true, db)
      | _ => Ok (PutAlreadyPending, false, db)
      end
  | None =>
      if candidateAlreadyScanned store db candidate then Ok (PutAlreadyAcknowledged, false, db)
      else
        let! _ := rejectLateCandidate store db candidate in
        let! _ := reserveJournal store db 1 in
        let! encoded := errOr errInvalidInput (encodeCandidateRecord (mkRecord CandidateStaged zeroTime candidate)) in
        let! b := put (s_candidates db) id encoded in
        let! db := indexCandidateBlock (set_candidates db b) candidate in
        let! db := promoteCandidates store (call_now call) db in
        Ok (PutInserted, true, db)
  end.

Definition Put (store : BoltStore) (call : Call) (rounds : list Round) (candidate : RescueCandidate) (st : StoreState)
    : StoreState * option (result StoreError PutResult) :=
  match (let! _ := validateInputCandidate store candidate in begin call st) with
  | Err e => (st, Some (Err e))
  | Ok _ => runRounds (put_tx store candidate) rounds st
  end.

(** ** PutObserved *)

Definition putObserved_tx (store : BoltStore) (candidate : RescueCandidate) (call : Call) (db : StoreDB)
    : result StoreError (PutResult * bool * StoreDB) :=
  let! _ := contextErrorTx (call_ctx call) in
  let id := Candidate_ID candidate in
  match b_get (s_candidates db) id with
  | Some persisted =>
      let! record := persistedRecord store persisted candidate in
      Ok (if bool_decide (Rec_Status record = CandidateAcknowledged) then PutAlreadyAcknowledged else PutAlreadyPending, false, db)
  | None =>
      if candidateAlreadyScanned store db candidate then Ok (PutAlreadyAcknowledged, false, db)
      else
        let! _ := rejectLateCandidate store db candidate in
        let! count := statusCount store db CandidateObserved in
        reject store_maxPending store <=? count with ErrObservationSaturated in
        let! encoded := errOr errInvalidInput (encodeCandidateRecord (mkRecord CandidateObserved zeroTime candidate)) in
        let! b := put (s_candidates db) id encoded in
        let! db := indexCandidateBlock (set_candidates db b) candidate in
        Ok (PutInserted, true, db)
  end.

(** An operation of one transaction that notifies when it changed something. *)
Definition notifying {A} (call : Call) (tx : StoreDB -> result StoreError (A * bool * StoreDB)) (st : StoreState)
    : StoreState * result StoreError A :=
  match begin call st with
  | Err e => (st, Err e)
  | Ok _ =>
      match update call st (fun db => let! (a, changed, db) := tx db in Ok ((a, changed), db)) with
      | (st, Err e) => (st, Err e)
      | (st, Ok (a, changed)) => (if changed : bool then notify st else st, Ok a)
      end
  end.

Definition PutObserved (store : BoltStore) (call : Call) (candidate : RescueCandidate) (st : StoreState)
    : StoreState * result StoreError PutResult :=
  match validateInputCandidate store candidate with
  | Err _ => (st, Err errInvalidInput)
  | Ok _ => notifying call (putObserved_tx store candidate call) st
  end.

(** ** MarkRemoved *)

Definition markRemoved_tx (store : BoltStore) (id : CandidateID) (call : Call) (db : StoreDB)
    : result StoreError (unit * bool * StoreDB) :=
  let! _ := contextErrorTx (call_ctx call) in
  let? data := b_get (s_candidates db) id orelse errConflict in
  let! record := recordByID store data id in
  match Rec_Status record with
  | CandidateRemoved => Ok (tt, false, db)
  | CandidateObserved =>
      let db := set_candidates db (b_delete (s_candidates db) id) in
      let db := match candidateBlockIndexKey (Rec_Candidate record) with
                | Some key => set_blockIndex db (b_delete (s_blockIndex db) key)
                | None => db
                end in
      let db := set_pending db (b_delete (s_pending db) id) in
      let! db := advanceCheckpoint store db in
      Ok (tt, true, db)
  | CandidateStaged | CandidateReady | CandidateDelayed | CandidateAcknowledged => Err errConflict
  | CandidateStatusOther _ => Err errCorrupt
  end.

Definition MarkRemoved (store : BoltStore) (call : Call) (id : CandidateID) (st : StoreState) : StoreState * result StoreError unit :=
  notifying call (markRemoved_tx store id call) st.

(** ** Replay and Next *)

Definition Replay (store : BoltStore) (call : Call) (network : NetworkID) (st : StoreState)
    : result StoreError (list RescueCandidate) :=
  reject negb (network =? store_network store) with errInvalidInput in
  let! _ := begin call st in
  view st (fun db =>
    let! _ := contextErrorTx (call_ctx call) in
    foldM (fun result '(key, value) =>
      let! record := recordByID store value key in
      Ok (if isUnfinished (Rec_Status record) then result ++ [Rec_Candidate record] else result))
      (b_entries (s_candidates db)) []).

(** The head of the ready queue; every entry is checked. *)
Definition readyHead (store : BoltStore) (db : StoreDB) : result StoreError (option RescueCandidate) :=
  foldM (fun found '(key, value) =>
    reject negb (len key =? 8) || negb (len value =? 32) || negb (bytes_eqb (getNil (s_pending db) value) key) with errCorrupt in
    let! record := errOr errCorrupt (decodeCandidateRecord (getNil (s_candidates db) value)) in
    reject negb (bytes_eqb value (Candidate_ID (Rec_Candidate record))) || negb (matchesCandidate store (Rec_Candidate record))
        || negb (bool_decide (Rec_Status record = CandidateReady)) with errCorrupt in
    Ok (match found with Some c => Some c | None => Some (Rec_Candidate record) end)) (b_entries (s_readyOrder db)) None.

(** The earliest retry time after now; zero when there is none. *)
Definition nextRetryTime (now : Time) (db : StoreDB) : result StoreError Time :=
  foldM (fun nextRetry '(_, value) =>
    let! record := errOr errCorrupt (decodeCandidateRecord value) in
    Ok (if bool_decide (Rec_Status record = CandidateDelayed) && After (Rec_RetryAt record) now
           && (IsZero nextRetry || Before (Rec_RetryAt record) nextRetry)
        then Rec_RetryAt record else nextRetry)) (b_entries (s_candidates db)) zeroTime.

(** What one round of [Next] finds. *)
Record NextFound := mkNextFound {
  nf_candidate : option RescueCandidate;
  nf_promoted : bool;
  nf_nextRetry : Time }.

Definition next_tx (store : BoltStore) (call : Call) (db : StoreDB) : result StoreError (NextFound * StoreDB) :=
  let now := call_now call in
  let! _ := contextErrorTx (call_ctx call) in
  let! before := readyCount store db in
  let! db := promoteCandidates store now db in
  let! after := readyCount store db in
  let! found := readyHead store db in
  let! nextRetry := nextRetryTime now db in
  Ok (mkNextFound found (before <? after) nextRetry, db).

(** How long [Next] waits at most; zero waits for the wake channel alone. *)
Definition nextWait (now nextRetry : Time) : Duration :=
  if IsZero nextRetry then 0 else Z.min (Sub nextRetry now) maxDelayedWaitSlice.

Fixpoint nextRounds (store : BoltStore) (rounds : list Round) (st : StoreState)
    : StoreState * option (result StoreError RescueCandidate) :=
  match rounds with
  | [] => (st, None)
  | round :: rest =>
      match update (round_call round) st (next_tx store (round_call round)) with
      | (st, Err e) => (st, Some (Err e))
      | (st, Ok found) =>
          let st := if nf_promoted found then notify st else st in
          match nf_candidate found with
          | Some candidate => (st, Some (Ok candidate))
          | None =>
              let st := round_others round st in
              match wait (round_wait round) with
              | Err e => (st, Some (Err e))
              | Ok _ => nextRounds store rest st
              end
          end
      end
  end.

Definition Next (store : BoltStore) (call : Call) (rounds : list Round) (network : NetworkID) (st : StoreState)
    : StoreState * option (result StoreError RescueCandidate) :=
  if negb (network =? store_network store) then (st, Some (Err errInvalidInput))
  else
    match begin call st with
    | Err e => (st, Some (Err e))
    | Ok _ => nextRounds store rounds st
    end.

(** ** Incidents *)

Definition putIncident_tx (store : BoltStore) (incident : Incident) (encoded : bytes) (call : Call) (db : StoreDB)
    : result StoreError (unit * StoreDB) :=
  let! _ := contextErrorTx (call_ctx call) in
  let id := Incident_Candidate incident in
  let? candidateData := b_get (s_candidates db) id orelse errConflict in
  let! record := recordByID store candidateData id in
  match Rec_Status record with
  | CandidateReady | CandidateDelayed | CandidateAcknowledged =>
      match b_get (s_incidents db) id with
      | None =>
          let! b := put (s_incidents db) id encoded in
          Ok (tt, set_incidents db b)
      | Some persisted =>
          let! stored := errOr errCorrupt (decodeIncident persisted) in
          reject negb (bytes_eqb (Incident_Candidate stored) id) || negb (Incident_Network stored =? store_network store)
            with errCorrupt in
          reject negb (bytes_eqb (Incident_ID stored) (Incident_ID incident)) with errConflict in
          Ok (tt, db)
      end
  | _ => Err errConflict
  end.

Definition PutIncident (store : BoltStore) (call : Call) (incident : Incident) (st : StoreState) : StoreState * result StoreError unit :=
  match encodeIncident incident with
  | Err _ => (st, Err errInvalidInput)
  | Ok encoded =>
      if negb (Incident_Network incident =? store_network store) then (st, Err errInvalidInput)
      else
        match begin call st with
        | Err e => (st, Err e)
        | Ok _ => update call st (putIncident_tx store incident encoded call)
        end
  end.

Definition incidentEntry (store : BoltStore) (data : bytes) (id : CandidateID) : result StoreError Incident :=
  let! incident := errOr errCorrupt (decodeIncident data) in
  reject negb (bytes_eqb (Incident_Candidate incident) id) || negb (Incident_Network incident =? store_network store) with errCorrupt in
  Ok incident.

Definition IncidentByCandidate (store : BoltStore) (call : Call) (id : CandidateID) (st : StoreState)
    : result StoreError (option Incident) :=
  let! _ := begin call st in
  view st (fun db =>
    let! _ := contextErrorTx (call_ctx call) in
    match b_get (s_incidents db) id with
    | None => Ok None
    | Some data => let! incident := incidentEntry store data id in Ok (Some incident)
    end).

(** ** Ack and Nack *)

(** The ready candidate leaves the queue. *)
Definition dequeue (db : StoreDB) (id : CandidateID) : result StoreError StoreDB :=
  let orderKey := getNil (s_pending db) id in
  reject negb (len orderKey =? 8) || negb (bytes_eqb (getNil (s_readyOrder db) orderKey) id) with errCorrupt in
  let db := set_readyOrder db (b_delete (s_readyOrder db) orderKey) in
  Ok (set_pending db (b_delete (s_pending db) id)).

Definition resolve_tx (store : BoltStore) (id : CandidateID) (incidentID : IncidentID) (status : CandidateStatus) (retryAt : Time)
    (call : Call) (db : StoreDB) : result StoreError (unit * bool * StoreDB) :=
  let! _ := contextErrorTx (call_ctx call) in
  let? incidentData := b_get (s_incidents db) id orelse errConflict in
  let! incident := incidentEntry store incidentData id in
  reject negb (bytes_eqb (Incident_ID incident) incidentID) with errConflict in
  let? data := b_get (s_candidates db) id orelse errCorrupt in
  let! record := recordByID store data id in
  match Rec_Status record with
  | CandidateAcknowledged =>
      if bool_decide (status = CandidateAcknowledged) then Ok (tt, false, db) else Err errConflict
  | CandidateReady =>
      let! encoded := errOr errInvalidInput (encodeCandidateRecord
        (mkRecord status (normalizeStoreTime retryAt) (Rec_Candidate record))) in
      let! b := put (s_candidates db) id encoded in
      let! db := dequeue (set_candidates db b) id in
      let! db := (if bool_decide (status = CandidateAcknowledged)
                  then let! db := addTombstone store id db in advanceCheckpoint store db
                  else Ok db) in
      let! db := promoteCandidates store (call_now call) db in
      Ok (tt, true, db)
  | _ => Err errConflict
  end.

Definition resolve (store : BoltStore) (call : Call) (id : CandidateID) (incidentID : IncidentID) (status : CandidateStatus)
    (retryAt : Time) (st : StoreState) : StoreState * result StoreError unit :=
  notifying call (resolve_tx store id incidentID status retryAt call) st.

Definition Nack (store : BoltStore) (call : Call) (id : CandidateID) (incidentID : IncidentID) (retryAt : Time) (st : StoreState)
    : StoreState * result StoreError unit :=
  if IsZero retryAt then (st, Err errInvalidInput) else resolve store call id incidentID CandidateDelayed retryAt st.

Definition Ack (store : BoltStore) (call : Call) (id : CandidateID) (incidentID : IncidentID) (st : StoreState)
    : StoreState * result StoreError unit :=
  resolve store call id incidentID CandidateAcknowledged zeroTime st.

End Candidates.

End StoreCandidates.
Export StoreCandidates.
