(* ===== verification/QueueInv.v ===== *)
(** * The invariant of the candidate queue

    [RecordsInv]: every candidate record decodes to a candidate of this store
    under its own ID.  [ReadyInv]: the pending and ready-order buckets are
    inverse to each other and list exactly the ready candidates, at most
    [maxPending] of them.  [cand_step] is the life cycle of one candidate;
    [QStep] says what a piece of a transaction did: it kept the invariant, moved
    every candidate along its life cycle and let the journal grow by a known
    amount. *)

From S2P Require Import Prelude GoTime Bytes Sha256 Domain Bolt StoreModel StoreCodec StoreQueue.

Module QueueInv.

Section Inv.
Context `{BL : BoltLaws} (store : BoltStore).

(** ** The table of records *)

Definition decoded (v : bytes) : option candidateRecord :=
  match decodeCandidateRecord v with Ok r => Some r | Err _ => None end.

Definition rec_at (db : StoreDB) (id : CandidateID) : option candidateRecord := b_get (s_candidates db) id ≫= decoded.

Definition RecordsInv (db : StoreDB) : Prop :=
  forall k v, b_get (s_candidates db) k = Some v ->
    exists r, decodeCandidateRecord v = Ok r /\ Candidate_ID (Rec_Candidate r) = k /\
      matchesCandidate store (Rec_Candidate r) = true.

(** A record of the table. *)
Record stored_record (id : CandidateID) (r : candidateRecord) : Prop := {
  sr_id : Candidate_ID (Rec_Candidate r) = id;
  sr_matches : matchesCandidate store (Rec_Candidate r) = true;
  sr_typed : record_typed r;
  sr_valid : validateCandidateRecord r = Ok tt }.

Lemma records_get db id v :
  RecordsInv db -> b_get (s_candidates db) id = Some v ->
  exists r, decodeCandidateRecord v = Ok r /\ rec_at db id = Some r /\ stored_record id r.
Proof.
  intros Hi Hg. destruct (Hi _ _ Hg) as (r & Hd & Hid & Hm). exists r. split; [done|]. split.
  - unfold rec_at, decoded. rewrite Hg. cbn. by rewrite Hd.
  - constructor; try done; [by eapply decodeCandidateRecord_typed|by eapply decodeCandidateRecord_valid].
Qed.

Lemma rec_at_get db id r :
  RecordsInv db -> rec_at db id = Some r ->
  exists v, b_get (s_candidates db) id = Some v /\ decodeCandidateRecord v = Ok r /\ stored_record id r.
Proof.
  intros Hi Hr. unfold rec_at in Hr. destruct (b_get (s_candidates db) id) as [v|] eqn:E; [|done].
  destruct (records_get _ _ _ Hi E) as (r' & Hd & Hr' & Hs). exists v. split; [done|].
  unfold rec_at in Hr'. rewrite E in Hr'. cbn in Hr, Hr'. rewrite Hr in Hr'. by injection Hr' as <-.
Qed.

Lemma rec_at_none db id : RecordsInv db -> rec_at db id = None <-> b_get (s_candidates db) id = None.
Proof.
  intros Hi. split; [|unfold rec_at; by intros ->]. intros Hr. destruct (b_get (s_candidates db) id) as [v|] eqn:E; [|done].
  destruct (records_get _ _ _ Hi E) as (r & _ & Hr' & _). congruence.
Qed.

Lemma rec_at_same db db' id : s_candidates db' = s_candidates db -> rec_at db' id = rec_at db id.
Proof. unfold rec_at. by intros ->. Qed.

Lemma records_put db k r data b' :
  RecordsInv db -> stored_record k r -> encodeCandidateRecord r = Ok data -> b_put (s_candidates db) k data = Some b' ->
  RecordsInv (set_candidates db b') /\
  forall id, rec_at (set_candidates db b') id = if decide (k = id) then Some r else rec_at db id.
Proof.
  intros Hi [Hid Hm Hty _] He Hp. pose proof (decode_encodeCandidateRecord _ _ Hty He) as Hd. split.
  - intros k' v. cbn [s_candidates set_candidates]. rewrite (bl_get_put _ _ _ _ _ Hp).
    case_decide as E; [|apply Hi]. intros [= <-]. exists r. by rewrite <- E.
  - intros id. unfold rec_at. cbn [s_candidates set_candidates]. rewrite (bl_get_put _ _ _ _ _ Hp).
    destruct (decide (k = id)) as [E|E]; rewrite ?decide_True, ?decide_False by done; [|done].
    cbn. unfold decoded. by rewrite Hd.
Qed.

Lemma records_delete db (k : CandidateID) :
  RecordsInv db ->
  RecordsInv (set_candidates db (b_delete (s_candidates db) k)) /\
  forall id, rec_at (set_candidates db (b_delete (s_candidates db) k)) id = if decide (k = id) then None else rec_at db id.
Proof.
  intros Hi. split.
  - intros k' v. cbn [s_candidates set_candidates]. rewrite bl_get_delete. case_decide; [done|apply Hi].
  - intros id. unfold rec_at. cbn [s_candidates set_candidates]. rewrite bl_get_delete.
    by destruct (decide (k = id)) as [E|E]; rewrite ?decide_True, ?decide_False by done.
Qed.

(** ** Counting records by status *)

Definition counts (P : CandidateStatus -> bool) (v : bytes) : bool :=
  match decoded v with Some r => P (Rec_Status r) | None => false end.

Definition counted (P : CandidateStatus -> bool) (db : StoreDB) : Z := b_count (counts P) (s_candidates db).

Definition one (P : CandidateStatus -> bool) (r : option candidateRecord) : Z :=
  match r with Some r => Z.b2z (P (Rec_Status r)) | None => 0 end.

Lemma contribution_one P db k : b_contribution (counts P) (b_get (s_candidates db) k) = one P (rec_at db k).
Proof. unfold rec_at, counts. destruct (b_get (s_candidates db) k) as [v|]; [|done]. cbn. by destruct (decoded v). Qed.

Lemma counted_put P db k r data b' :
  stored_record k r -> encodeCandidateRecord r = Ok data -> b_put (s_candidates db) k data = Some b' ->
  counted P (set_candidates db b') = counted P db - one P (rec_at db k) + Z.b2z (P (Rec_Status r)).
Proof.
  intros Hs He Hp. unfold counted. cbn [s_candidates set_candidates]. rewrite (b_count_put _ _ _ _ _ Hp), contribution_one.
  unfold counts at 2, decoded. by rewrite (decode_encodeCandidateRecord _ _ (sr_typed _ _ Hs) He).
Qed.

Lemma counted_delete P db k :
  counted P (set_candidates db (b_delete (s_candidates db) k)) = counted P db - one P (rec_at db k).
Proof. unfold counted. cbn [s_candidates set_candidates]. by rewrite b_count_delete, contribution_one. Qed.

Lemma counted_same P db db' : s_candidates db' = s_candidates db -> counted P db' = counted P db.
Proof. unfold counted. by intros ->. Qed.

Lemma counted_nonneg P db : 0 <= counted P db.
Proof. unfold counted, b_count. lia. Qed.

Lemma one_range P r : 0 <= one P r <= 1.
Proof. destruct r as [r|]; cbn; [|lia]. destruct (P (Rec_Status r)); cbn; lia. Qed.

(** ** The ready queue *)

Definition is_ready (r : option candidateRecord) : Prop := exists r', r = Some r' /\ Rec_Status r' = CandidateReady.

Record ReadyInv (db : StoreDB) : Prop := {
  ri_pending id o : b_get (s_pending db) id = Some o -> b_get (s_readyOrder db) o = Some id;
  ri_order o id : b_get (s_readyOrder db) o = Some id ->
    b_get (s_pending db) id = Some o /\ exists n, 0 < n <= b_sequence (s_readyOrder db) /\ o = encodeUint64 n;
  ri_ready id : is_Some (b_get (s_pending db) id) <-> is_ready (rec_at db id);
  ri_sequence : 0 <= b_sequence (s_readyOrder db) < 2 ^ 64;
  ri_bound : b_keyN (s_pending db) <= store_maxPending store }.

(** Only the table of records and the two queue buckets matter. *)
Lemma ready_same db db' :
  s_pending db' = s_pending db -> s_readyOrder db' = s_readyOrder db ->
  (forall id, is_ready (rec_at db' id) <-> is_ready (rec_at db id)) -> ReadyInv db -> ReadyInv db'.
Proof. intros Hp Ho Hr []. constructor; rewrite ?Hp, ?Ho; try done. intros id. by rewrite Hr. Qed.

(** ** The life cycle of a candidate *)

Inductive cand_step (ack forget : Prop) : option candidateRecord -> option candidateRecord -> Prop :=
| cs_new c s : s = CandidateObserved \/ s = CandidateStaged -> cand_step ack forget None (Some (mkRecord s zeroTime c))
| cs_stage r t c : isPreliminary (Rec_Status r) = true -> sameCandidateIdentity (Rec_Candidate r) c = true ->
    cand_step ack forget (Some r) (Some (mkRecord CandidateStaged t c))
| cs_ready r : Rec_Status r = CandidateStaged \/ Rec_Status r = CandidateDelayed ->
    cand_step ack forget (Some r) (Some (mkRecord CandidateReady zeroTime (Rec_Candidate r)))
| cs_nack r t : Rec_Status r = CandidateReady ->
    cand_step ack forget (Some r) (Some (mkRecord CandidateDelayed t (Rec_Candidate r)))
| cs_ack r : ack -> Rec_Status r = CandidateReady ->
    cand_step ack forget (Some r) (Some (mkRecord CandidateAcknowledged zeroTime (Rec_Candidate r)))
| cs_drop r : isPreliminary (Rec_Status r) = true -> cand_step ack forget (Some r) None
| cs_forget r : forget -> Rec_Status r = CandidateAcknowledged -> cand_step ack forget (Some r) None.

(** An unfinished candidate that is not acknowledged stays unfinished. *)
Lemma unfinished_kept (ack forget : Prop) a b r :
  ~ ack -> rtc (cand_step ack forget) a b -> a = Some r -> isUnfinished (Rec_Status r) = true ->
  exists r', b = Some r' /\ isUnfinished (Rec_Status r') = true /\ Rec_Candidate r' = Rec_Candidate r.
Proof.
  intros Hna H. revert r. induction H as [a|a b c Hs _ IH]; intros r -> Hu; [by exists r|].
  assert (exists r', b = Some r' /\ isUnfinished (Rec_Status r') = true /\ Rec_Candidate r' = Rec_Candidate r)
    as (r' & -> & Hu' & Hc').
  { inversion Hs; subst; try (eexists; split; [reflexivity|split; reflexivity]);
      exfalso; (done || destruct (Rec_Status r); congruence || done). }
  destruct (IH r' eq_refl Hu') as (r'' & -> & ? & ?). exists r''. split; [done|]. split; [done|congruence].
Qed.

(** A candidate confirmed by the chain stays confirmed, unless it may be forgotten. *)
Definition kept (ack : Prop) (a b : option candidateRecord) : Prop :=
  forall r, a = Some r -> isPreliminary (Rec_Status r) = false ->
  exists r', b = Some r' /\ isPreliminary (Rec_Status r') = false /\ Rec_Candidate r' = Rec_Candidate r /\
    (Rec_Status r = CandidateAcknowledged -> Rec_Status r' = CandidateAcknowledged) /\
    (~ ack -> Rec_Status r' = CandidateAcknowledged -> Rec_Status r = CandidateAcknowledged).

Lemma confirmed_kept (ack forget : Prop) a b : ~ forget -> rtc (cand_step ack forget) a b -> kept ack a b.
Proof.
  intros Hnf H. induction H as [a|a b c Hs _ IH]; intros r -> Hp; [by exists r|].
  assert (exists r', b = Some r' /\ isPreliminary (Rec_Status r') = false /\ Rec_Candidate r' = Rec_Candidate r /\
    (Rec_Status r = CandidateAcknowledged -> Rec_Status r' = CandidateAcknowledged) /\
    (~ ack -> Rec_Status r' = CandidateAcknowledged -> Rec_Status r = CandidateAcknowledged)) as (r' & -> & Hp' & Hc' & H1 & H2).
  { inversion Hs as [|? ? ? Hpre|? Hst|? ? Hst|? Ha Hst|? Hpre|? Hf]; subst; try congruence; try done;
      eexists; repeat split; try done; cbn; try congruence; try tauto.
    destruct Hst as [Hst|Hst]; rewrite Hst; congruence. }
  destruct (IH r' eq_refl Hp') as (r'' & -> & ? & ? & ? & ?). exists r''. repeat split; try done; [congruence|auto..].
Qed.

(** ** What a piece of a transaction did *)

Record QStep (ack forget : CandidateID -> Prop) (grow : Z) (db db' : StoreDB) : Prop := {
  qs_records : RecordsInv db';
  qs_ready : ReadyInv db';
  qs_life id : rtc (cand_step (ack id) (forget id)) (rec_at db id) (rec_at db' id);
  qs_observed : counted isObserved db' <= counted isObserved db;
  qs_journal : counted isUnfinished db' <= counted isUnfinished db + grow }.

Definition QOK (db : StoreDB) : Prop := RecordsInv db /\ ReadyInv db.

Lemma qstep_ok ack forget g db db' : QStep ack forget g db db' -> QOK db'.
Proof. by intros []. Qed.

Lemma qstep_trans ack forget g1 g2 a b c :
  QStep ack forget g1 a b -> QStep ack forget g2 b c -> QStep ack forget (g1 + g2) a c.
Proof.
  intros [] []. constructor; try done; [intros id; etransitivity; eauto|lia..].
Qed.

Lemma qstep_le ack forget g g' a b : g <= g' -> QStep ack forget g a b -> QStep ack forget g' a b.
Proof. intros Hg []. constructor; try done. lia. Qed.

(** Fewer acknowledgements or deletions than allowed. *)
Lemma qstep_weaken (ack ack' forget forget' : CandidateID -> Prop) g a b :
  (forall id, ack id -> ack' id) -> (forall id, forget id -> forget' id) ->
  QStep ack forget g a b -> QStep ack' forget' g a b.
Proof.
  intros Ha Hf []. constructor; try done. intros id. eapply rtc_subrel; [|apply qs_life0].
  intros x y []; eauto using cs_new, cs_stage, cs_ready, cs_nack, cs_ack, cs_drop, cs_forget.
Qed.

(** Nothing of the queue changed. *)
Lemma qstep_same ack forget db db' :
  QOK db -> s_candidates db' = s_candidates db -> s_pending db' = s_pending db -> s_readyOrder db' = s_readyOrder db ->
  QStep ack forget 0 db db'.
Proof.
  intros [Hr Hq] Hc Hp Ho. constructor.
  - unfold RecordsInv. by rewrite Hc.
  - apply (ready_same db); try done. intros id. by rewrite (rec_at_same db db' id Hc).
  - intros id. by rewrite (rec_at_same db db' id Hc).
  - by rewrite (counted_same _ db db' Hc).
  - rewrite (counted_same _ db) by done. lia.
Qed.

Lemma qstep_refl ack forget db : QOK db -> QStep ack forget 0 db db.
Proof. intros H. by apply qstep_same. Qed.

(** One record is written, neither it nor its predecessor ready. *)
Lemma qstep_put ack forget db k r data b' :
  QOK db -> stored_record k r -> encodeCandidateRecord r = Ok data -> b_put (s_candidates db) k data = Some b' ->
  ~ is_ready (rec_at db k) -> Rec_Status r <> CandidateReady ->
  cand_step (ack k) (forget k) (rec_at db k) (Some r) -> isObserved (Rec_Status r) = false ->
  QStep ack forget (Z.b2z (isUnfinished (Rec_Status r)) - one isUnfinished (rec_at db k)) db (set_candidates db b').
Proof.
  intros [Hr Hq] Hs He Hp Hold Hnew Hstep Hobs. destruct (records_put _ _ _ _ _ Hr Hs He Hp) as [Hr' Hat]. constructor.
  - done.
  - apply (ready_same db); try done. intros id. rewrite Hat. destruct (decide (k = id)) as [<-|]; [|done].
    split; [|tauto]. intros (r' & [= <-] & ?). congruence.
  - intros id. rewrite Hat. destruct (decide (k = id)) as [<-|]; [by apply rtc_once|done].
  - rewrite (counted_put _ _ _ _ _ _ Hs He Hp), Hobs. pose proof (one_range isObserved (rec_at db k)). cbn. lia.
  - rewrite (counted_put _ _ _ _ _ _ Hs He Hp). lia.
Qed.

(** One record that is not ready is deleted. *)
Lemma qstep_delete ack forget db k :
  QOK db -> ~ is_ready (rec_at db k) -> rtc (cand_step (ack k) (forget k)) (rec_at db k) None ->
  QStep ack forget 0 db (set_candidates db (b_delete (s_candidates db) k)).
Proof.
  intros [Hr Hq] Hold Hstep. destruct (records_delete db k Hr) as [Hr' Hat]. constructor.
  - done.
  - apply (ready_same db); try done. intros id. rewrite Hat. destruct (decide (k = id)) as [<-|]; [|done].
    split; [|tauto]. by intros (r' & ? & ?).
  - intros id. rewrite Hat. by destruct (decide (k = id)) as [<-|].
  - rewrite counted_delete. pose proof (one_range isObserved (rec_at db k)). lia.
  - rewrite counted_delete. pose proof (one_range isUnfinished (rec_at db k)). lia.
Qed.

(** Deleting from the pending bucket an ID that is not in it. *)
Lemma qstep_unpend ack forget db id :
  QOK db -> ~ is_ready (rec_at db id) -> QStep ack forget 0 db (set_pending db (b_delete (s_pending db) id)).
Proof.
  intros [Hr Hq] Hn. assert (Hnone : b_get (s_pending db) id = None).
  { apply eq_None_not_Some. intros H. by apply Hn, (ri_ready _ Hq). }
  assert (Hsame : forall k, b_get (b_delete (s_pending db) id) k = b_get (s_pending db) k).
  { intros k. rewrite bl_get_delete. case_decide as E; [by rewrite <- E, Hnone|done]. }
  destruct Hq. constructor; [done| |intros k; constructor|apply Z.le_refl|rewrite Z.add_0_r; apply Z.le_refl].
  constructor; cbn [s_pending s_readyOrder set_pending]; try done.
  - intros k o. rewrite Hsame. apply ri_pending0.
  - intros o k Ho. rewrite Hsame. by apply ri_order0.
  - intros k. rewrite Hsame. apply ri_ready0.
  - rewrite b_keyN_delete, Hnone. lia.
Qed.

End Inv.
End QueueInv.
Export QueueInv.
