(* ===== verification/QueueSteps.v ===== *)
(** * Promotion into the ready queue and the steps of the queue's transactions

    [promoteCandidates] keeps the queue invariant, makes ready only staged and
    due delayed candidates, takes turns between the two kinds, and stops only
    when the queue is full or nothing is waiting ([QueuePromote]).  Then what each
    piece of a transaction of bolt_candidates.go and bolt_canonical.go does to the
    queue ([QStep]) and which buckets it leaves alone ([QueueSteps]). *)

From S2P Require Import Prelude GoTime Bytes Sha256 Domain Bolt StoreModel StoreLease StoreCodec StoreQueue StoreCanonical StoreCandidates QueueInv.
From Stdlib Require Import Strings.Byte.

Module QueuePromote.

(** ** Taking turns *)

(** What the turns take: a prefix of each list; as long as one kind waits, the
    other gets at most one place more. *)
Lemma interleave_spec n pref staged delayed ps turn :
  interleave n pref staged delayed = (ps, turn) ->
  exists s1 s2 d1 d2, staged = s1 ++ s2 /\ delayed = d1 ++ d2 /\ ps ≡ₚ s1 ++ d1 /\
    length ps = Nat.min n (length staged + length delayed) /\
    (s2 <> [] -> (length d1 <= length s1 + Nat.b2n pref)%nat) /\
    (d2 <> [] -> (length s1 <= length d1 + Nat.b2n (negb pref))%nat).
Proof.
  revert pref staged delayed ps turn.
  induction n as [|n IH]; intros pref staged delayed ps turn; cbn [interleave].
  { intros [= <- <-]. exists [], staged, [], delayed. split_and!; (done || cbn; lia). }
  assert (Htake_d : forall d ds rest t, delayed = d :: ds -> staged = [] \/ pref = true ->
    interleave n (negb pref) staged ds = (rest, t) -> ps = d :: rest ->
    exists s1 s2 d1 d2, staged = s1 ++ s2 /\ delayed = d1 ++ d2 /\ ps ≡ₚ s1 ++ d1 /\
      length ps = Nat.min (S n) (length staged + length delayed) /\
      (s2 <> [] -> (length d1 <= length s1 + Nat.b2n pref)%nat) /\
      (d2 <> [] -> (length s1 <= length d1 + Nat.b2n (negb pref))%nat)).
  { intros d ds rest t -> Hturn (s1 & s2 & d1 & d2 & -> & -> & Hp & Hl & H1 & H2)%IH ->.
    exists s1, s2, (d :: d1), d2. split; [done|]. split; [done|]. split; [rewrite Hp; apply Permutation_middle|].
    split; [cbn [length app]; lia|]. split.
    - intros Hn. specialize (H1 Hn). destruct Hturn as [[-> ->]%app_eq_nil| ->]; cbn in *; [done|lia].
    - intros Hn. specialize (H2 Hn). destruct pref; cbn in *; lia. }
  assert (Htake_s : forall s ss rest t, staged = s :: ss -> delayed = [] \/ pref = false ->
    interleave n (negb pref) ss delayed = (rest, t) -> ps = s :: rest ->
    exists s1 s2 d1 d2, staged = s1 ++ s2 /\ delayed = d1 ++ d2 /\ ps ≡ₚ s1 ++ d1 /\
      length ps = Nat.min (S n) (length staged + length delayed) /\
      (s2 <> [] -> (length d1 <= length s1 + Nat.b2n pref)%nat) /\
      (d2 <> [] -> (length s1 <= length d1 + Nat.b2n (negb pref))%nat)).
  { intros s ss rest t -> Hturn (s1 & s2 & d1 & d2 & -> & -> & Hp & Hl & H1 & H2)%IH ->.
    exists (s :: s1), s2, d1, d2. split; [done|]. split; [done|]. split; [by rewrite Hp|].
    split; [cbn [length app]; lia|]. split.
    - intros Hn. specialize (H1 Hn). destruct pref; cbn in *; lia.
    - intros Hn. specialize (H2 Hn). destruct Hturn as [[-> ->]%app_eq_nil| ->]; cbn in *; [done|lia]. }
  destruct staged as [|s ss], delayed as [|d ds].
  - intros [= <- <-]. exists [], [], [], []. done.
  - destruct (interleave n _ [] ds) as [rest t] eqn:E. intros [= <- <-]. eauto.
  - destruct (interleave n _ ss []) as [rest t] eqn:E. intros [= <- <-]. eauto.
  - destruct pref.
    + destruct (interleave n _ (s :: ss) ds) as [rest t] eqn:E. intros [= <- <-]. eauto.
    + destruct (interleave n _ ss (d :: ds)) as [rest t] eqn:E. intros [= <- <-]. eauto.
Qed.

Lemma interleave_length n pref staged delayed ps turn :
  interleave n pref staged delayed = (ps, turn) -> length ps = Nat.min n (length staged + length delayed).
Proof. intros H. by destruct (interleave_spec _ _ _ _ _ _ H) as (? & ? & ? & ? & _ & _ & _ & ? & _). Qed.

Section Promote.
Context `{BL : BoltLaws} (store : BoltStore).

Definition nobody : CandidateID -> Prop := fun _ => False.

(** What promotion leaves alone. *)
Record promote_frame (db db' : StoreDB) : Prop := {
  pf_blockIndex : s_blockIndex db' = s_blockIndex db;
  pf_incidents : s_incidents db' = s_incidents db;
  pf_blocks : s_blocks db' = s_blocks db;
  pf_discovered : s_discovered db' = s_discovered db;
  pf_tombstones : s_tombstones db' = s_tombstones db;
  pf_rescue : s_rescueState db' = s_rescueState db;
  pf_leases : s_leases db' = s_leases db;
  pf_meta k : k <> promotionTurnKey -> b_get (s_meta db') k = b_get (s_meta db) k }.

#[export] Instance promote_frame_refl : Reflexive promote_frame.
Proof. by constructor. Qed.

#[export] Instance promote_frame_trans : Transitive promote_frame.
Proof. intros a b c [] []. constructor; try congruence. intros k Hk. rewrite pf_meta1, pf_meta0; done. Qed.

(** ** Counters *)

Lemma readyCount_ok db n :
  readyCount store db = Ok n -> 0 <= store_maxPending store -> n = b_keyN (s_pending db) /\ n <= store_maxPending store.
Proof.
  intros H Hm. unfold b_keyN.
  apply (foldM_invariant (fun done count => count = Z.of_nat (length done) /\ count <= store_maxPending store)) in H; [done|done|].
  intros done count [k v] count' [-> Hle]. cbn. ok. intros [= <-]. bool_hyps. rewrite length_app. cbn. lia.
Qed.

(** What the scan of the candidates selects. *)
Definition waiting (now : Time) (status : CandidateStatus) (r : candidateRecord) : Prop :=
  Rec_Status r = status /\ (status = CandidateDelayed -> Rec_RetryAt r <= now).

#[export] Instance waiting_dec now status r : Decision (waiting now status r).
Proof. unfold waiting. apply _. Defined.

Definition selected (now : Time) (status : CandidateStatus) (e : bytes * bytes) : option promotion :=
  match decoded e.2 with
  | Some r => if decide (waiting now status r) then Some (e.1, r) else None
  | None => None
  end.

Lemma collect_selected db now status items :
  collect db now status = Ok items -> items = omap (selected now status) (b_entries (s_candidates db)).
Proof.
  unfold collect.
  apply (foldM_invariant (fun done items => items = omap (selected now status) done)); [done|].
  intros done items' [k v] items'' ->. rewrite omap_app. cbn [omap list_omap].
  assert (Hsel : forall r, decodeCandidateRecord v = Ok r ->
    selected now status (k, v) = if decide (waiting now status r) then Some (k, r) else None).
  { intros r Hr. unfold selected, decoded. cbn [fst snd]. by rewrite Hr. }
  destruct (decodeCandidateRecord v) as [r|]; [|done]. cbn [errOr]. rewrite (Hsel r eq_refl).
  destruct (negb _ || _) eqn:E.
  - intros [= <-]. rewrite decide_False; [by rewrite app_nil_r|]. intros [Hs Hd].
    apply orb_true_iff in E as [E|E]; bool_hyps; [congruence|]. unfold After in *. bool_hyps.
    match goal with H : status = CandidateDelayed |- _ => specialize (Hd H) end. lia.
  - ok. intros [= <-]. apply orb_false_iff in E as [E1 E2]. bool_hyps. rewrite decide_True; [done|]. split; [done|].
    intros Hd. unfold After in E2. apply andb_false_iff in E2 as [E2|E2]; bool_hyps; [done|lia].
Qed.

Lemma collect_in db now status items k r :
  RecordsInv store db -> collect db now status = Ok items ->
  (k, r) ∈ items <-> rec_at db k = Some r /\ waiting now status r.
Proof.
  intros Hi ->%collect_selected. rewrite list_elem_of_omap. unfold selected. split.
  - intros ([k' v] & Hin & Hs). cbn in Hs. destruct (decoded v) as [r'|] eqn:Ed; [|done]. case_decide; [|done].
    injection Hs as -> ->. apply bl_entries_get in Hin. split; [|done]. unfold rec_at. by rewrite Hin.
  - intros [Hr Hw]. destruct (rec_at_get _ _ _ _ Hi Hr) as (v & Hg & Hd & _). exists (k, v).
    split; [by apply bl_entries_get|]. cbn. unfold decoded. rewrite Hd. by rewrite decide_True.
Qed.

Lemma collect_nodup db now status items : collect db now status = Ok items -> NoDup (map fst items).
Proof.
  intros ->%collect_selected. eapply sublist_NoDup; [apply (b_entries_keys_nodup (s_candidates db))|].
  induction (b_entries (s_candidates db)) as [|[k v] l IH]; [done|]. cbn. unfold selected at 1. cbn.
  destruct (decoded v); [case_decide|]; cbn; by constructor.
Qed.

(** ** One promotion *)

Definition promoted (r : candidateRecord) : candidateRecord := mkRecord CandidateReady zeroTime (Rec_Candidate r).

Lemma promoted_stored k r : stored_record store k r -> stored_record store k (promoted r).
Proof.
  intros [Hid Hm [] Hv]. constructor; try done.
  unfold validateCandidateRecord in *. cbn. by destruct (validateCandidate (Rec_Candidate r)).
Qed.

(** A ready candidate's key joins the two queue buckets under a fresh number. *)
Lemma ready_enqueue db db' key (r : candidateRecord) sequence ro ro' pend :
  ReadyInv store db -> b_get (s_pending db) key = None -> b_keyN (s_pending db) < store_maxPending store ->
  b_nextSequence (s_readyOrder db) = (sequence, ro) -> sequence <> 0 -> b_get ro (encodeUint64 sequence) = None ->
  b_put ro (encodeUint64 sequence) key = Some ro' -> b_put (s_pending db) key (encodeUint64 sequence) = Some pend ->
  s_readyOrder db' = ro' -> s_pending db' = pend ->
  (forall id, rec_at db' id = if decide (key = id) then Some (promoted r) else rec_at db id) ->
  ReadyInv store db' /\ b_keyN (s_pending db') = b_keyN (s_pending db) + 1.
Proof.
  intros [Hp Ho Hr Hs Hb] Hnone Hroom Hnext Hz Hfree Hro Hpe Ero Epe Hat.
  assert (Hseq : sequence = b_sequence (s_readyOrder db) + 1 /\ b_sequence ro' = sequence /\ sequence < 2 ^ 64).
  { pose proof (bl_next_value (s_readyOrder db)) as H1. pose proof (bl_next_sequence (s_readyOrder db)) as H2.
    rewrite Hnext in H1, H2. cbn in H1, H2. rewrite (bl_sequence_put _ _ _ _ Hro).
    destruct (Z.eq_dec (b_sequence (s_readyOrder db) + 1) (2 ^ 64)) as [E|E]; [rewrite E, Z.mod_same in H1 by lia; done|].
    rewrite Z.mod_small in H1 by lia. lia. }
  destruct Hseq as (Hseq & Hseq' & Hlt).
  assert (Hget : forall k, b_get ro k = b_get (s_readyOrder db) k).
  { intros k. pose proof (bl_next_get (s_readyOrder db) k) as H. by rewrite Hnext in H. }
  split; [|by rewrite Epe, (b_keyN_put_new _ _ _ _ Hnone Hpe)]. constructor; rewrite ?Ero, ?Epe.
  - intros id o. rewrite (bl_get_put _ _ _ _ _ Hpe), (bl_get_put _ _ _ _ _ Hro). case_decide as E.
    + intros [= <-]. rewrite decide_True by done. by rewrite E.
    + intros Hid%Hp. rewrite decide_False; [by rewrite Hget|]. intros <-. rewrite Hget in Hfree. congruence.
  - intros o id. rewrite (bl_get_put _ _ _ _ _ Hpe), (bl_get_put _ _ _ _ _ Hro), Hseq'. case_decide as E.
    + intros [= <-]. rewrite decide_True by done. rewrite E. split; [done|]. exists sequence. split; [lia|done].
    + rewrite Hget. intros Hid. destruct (Ho _ _ Hid) as (Hpo & n & Hn & ->). rewrite decide_False by congruence.
      split; [done|]. exists n. split; [lia|done].
  - intros id. rewrite (bl_get_put _ _ _ _ _ Hpe), Hat. destruct (decide (key = id)) as [E|E]; rewrite ?decide_True, ?decide_False by done.
    + split; [intros _; by exists (promoted r)|done].
    + apply Hr.
  - lia.
  - rewrite (b_keyN_put_new _ _ _ _ Hnone Hpe). lia.
Qed.

Lemma promoteOne_step db key r db' :
  QOK store db -> rec_at db key = Some r -> Rec_Status r = CandidateStaged \/ Rec_Status r = CandidateDelayed ->
  b_keyN (s_pending db) < store_maxPending store -> promoteOne db (key, r) = Ok db' ->
  QStep store nobody nobody 0 db db' /\ promote_frame db db' /\ b_keyN (s_pending db') = b_keyN (s_pending db) + 1 /\
  (forall id, rec_at db' id = if decide (key = id) then Some (promoted r) else rec_at db id).
Proof.
  intros [Hrec Hready] Hr Hst Hroom. unfold promoteOne. ok Eenc.
  destruct (encodeCandidateRecord _) as [data|] eqn:Ee in Eenc; [|done]. injection Eenc as ->.
  ok Ec. destruct (b_nextSequence _) as [sequence ro] eqn:En. ok Ez. ok Ef. ok Ero. ok Ep. intros [= <-].
  apply store_put_inv in Ec, Ero, Ep. bool_hyps. apply eq_None_not_Some in Ef.
  destruct (rec_at_get _ _ _ _ Hrec Hr) as (v & Hg & Hd & Hs). apply promoted_stored in Hs as Hs'.
  destruct (records_put _ _ _ _ _ _ Hrec Hs' Ee Ec) as [Hrec' Hat].
  assert (Hnp : b_get (s_pending db) key = None).
  { apply eq_None_not_Some. intros H. apply (ri_ready _ _ Hready) in H as (r' & Hr' & Hst'). rewrite Hr in Hr'.
    injection Hr' as <-. destruct Hst; congruence. }
  match goal with |- QStep _ _ _ _ _ ?d /\ _ => set (dbn := d) end.
  assert (Hat' : forall id, rec_at dbn id = if decide (key = id) then Some (promoted r) else rec_at db id) by done.
  destruct (ready_enqueue db dbn key r _ _ _ _ Hready Hnp Hroom En Ez Ef Ero Ep eq_refl eq_refl Hat') as [Hready' Hn].
  split; [|by repeat split]. constructor; [done..| | |].
  - intros id. rewrite Hat'. destruct (decide (key = id)) as [<-|]; [|done]. rewrite Hr. by apply rtc_once, cs_ready.
  - rewrite (counted_same _ (set_candidates db _) dbn) by done. rewrite (counted_put _ _ _ _ _ _ _ Hs' Ee Ec).
    pose proof (one_range isObserved (rec_at db key)). cbn. lia.
  - rewrite (counted_same _ (set_candidates db _) dbn) by done. rewrite (counted_put _ _ _ _ _ _ _ Hs' Ee Ec), Hr. cbn.
    destruct Hst as [-> | ->]; cbn; lia.
Qed.

(** ** All promotions *)

Lemma promoteAll_step (ps : list promotion) db db' :
  QOK store db -> NoDup (map fst ps) ->
  (forall k r, (k, r) ∈ ps -> rec_at db k = Some r /\ (Rec_Status r = CandidateStaged \/ Rec_Status r = CandidateDelayed)) ->
  b_keyN (s_pending db) + Z.of_nat (length ps) <= store_maxPending store -> foldM promoteOne ps db = Ok db' ->
  QStep store nobody nobody 0 db db' /\ promote_frame db db' /\
  b_keyN (s_pending db') = b_keyN (s_pending db) + Z.of_nat (length ps) /\
  (forall id, (id ∉ map fst ps -> rec_at db' id = rec_at db id) /\
     (forall r, (id, r) ∈ ps -> rec_at db' id = Some (promoted r))).
Proof.
  revert db. induction ps as [|[k r] ps IH]; intros db Hok Hnd Hps Hroom; cbn [foldM].
  { intros <-%Ok_inj. split; [by apply qstep_refl|]. split; [done|]. split; [cbn; lia|]. intros id. split; [done|]. intros r []%elem_of_nil. }
  cbn in Hnd. inv Hnd. rename H1 into Hk, H2 into Hnd. destruct (promoteOne db (k, r)) as [db1|] eqn:E1; [|done]. intros E2.
  destruct (Hps k r) as [Hr Hst]; [by left|]. cbn [length] in Hroom.
  destruct (promoteOne_step _ _ _ _ Hok Hr Hst ltac:(lia) E1) as (Hs1 & Hf1 & Hn1 & Hat1).
  destruct (IH db1) as (Hs2 & Hf2 & Hn2 & Hat2); [by eapply qstep_ok|done| |lia|done|].
  { intros k' r' Hin. rewrite Hat1. destruct (decide (k = k')) as [<-|]; [|by apply Hps; right].
    exfalso. apply Hk. by apply (list_elem_of_fmap_2 fst) in Hin. }
  split; [by apply (qstep_trans _ _ _ 0 0 _ db1)|]. split; [by etransitivity|]. split; [cbn [length]; lia|].
  intros id. destruct (Hat2 id) as [Hout Hin]. split.
  - cbn. intros Hni. rewrite Hout by set_solver. rewrite Hat1, decide_False; [done|set_solver].
  - intros r' [[= -> ->]|Hin']%elem_of_cons; [|by apply Hin]. rewrite Hout by done. by rewrite Hat1, decide_True.
Qed.

(** Nothing that could be promoted is left, or the queue is full. *)
Definition work_conserving (now : Time) (db : StoreDB) : Prop :=
  b_keyN (s_pending db) = store_maxPending store \/
  forall id r, rec_at db id = Some r -> ~ waiting now CandidateStaged r /\ ~ waiting now CandidateDelayed r.

Lemma promoteCandidates_step now db db' :
  0 <= store_maxPending store -> QOK store db -> promoteCandidates store now db = Ok db' ->
  QStep store nobody nobody 0 db db' /\ promote_frame db db' /\ work_conserving now db' /\
  b_keyN (s_pending db) <= b_keyN (s_pending db').
Proof.
  intros Hm Hok. pose proof Hok as [Hrec Hready]. unfold promoteCandidates. ok Er. destruct (readyCount_ok _ _ Er Hm) as [-> Hle].
  destruct (_ =? 0) eqn:Ea.
  { intros <-%Ok_inj. bool_hyps. split; [by apply qstep_refl|]. split; [done|]. split; [left; lia|done]. }
  ok Es. ok Ed. bool_hyps. destruct (_ && _) eqn:Eempty.
  { intros <-%Ok_inj. bool_hyps. subst. split; [by apply qstep_refl|]. split; [done|]. split; [|done]. right. intros id r Hr.
    split; intros Hw; apply (elem_of_nil (A := promotion) (id, r)); [by apply (collect_in _ _ _ _ _ _ Hrec Es)|
      by apply (collect_in _ _ _ _ _ _ Hrec Ed)]. }
  ok Et. rename a into staged, a0 into delayed, a1 into pref.
  destruct (interleave _ _ _ _) as [ps turn] eqn:Ei. destruct (foldM promoteOne ps db) as [db1|] eqn:Ef; [|done].
  destruct (put _ _ _) as [meta|] eqn:Ep; [|done]. intros <-%Ok_inj. apply store_put_inv in Ep.
  destruct (interleave_spec _ _ _ _ _ _ Ei) as (s1 & s2 & d1 & d2 & Hse & Hde & Hperm & Hlen & _).
  assert (Hin : forall k r, (k, r) ∈ ps -> (k, r) ∈ staged \/ (k, r) ∈ delayed).
  { intros k r. rewrite Hperm, elem_of_app. subst. set_solver. }
  assert (Hnd : NoDup (map fst (s1 ++ d1))).
  { rewrite map_app. pose proof (collect_nodup _ _ _ _ Es) as H1. pose proof (collect_nodup _ _ _ _ Ed) as H2.
    rewrite Hse, map_app in H1. rewrite Hde, map_app in H2. apply NoDup_app in H1 as (? & _ & _). apply NoDup_app in H2 as (? & _ & _).
    apply NoDup_app. split; [done|]. split; [|done]. intros k Hk Hk'.
    apply list_elem_of_fmap in Hk as ([k1 r1] & -> & Hk). apply list_elem_of_fmap in Hk' as ([k2 r2] & E & Hk'). cbn in E. subst k2.
    assert (H3 : (k1, r1) ∈ staged) by (subst; set_solver). assert (H4 : (k1, r2) ∈ delayed) by (subst; set_solver).
    cbn in H3, H4. apply (collect_in _ _ _ _ _ _ Hrec Es) in H3 as [H3 [H3' _]].
    apply (collect_in _ _ _ _ _ _ Hrec Ed) in H4 as [H4 [H4' _]]. congruence. }
  rewrite <- Hperm in Hnd.
  destruct (promoteAll_step ps db db1 Hok Hnd) as (Hs1 & Hf1 & Hn1 & Hat1); [|rewrite Hlen; lia|done|].
  { intros k r [H|H]%Hin; [apply (collect_in _ _ _ _ _ _ Hrec Es) in H as [? [? _]]|
      apply (collect_in _ _ _ _ _ _ Hrec Ed) in H as [? [? _]]]; auto. }
  split; [|split; [|split]].
  - apply (qstep_trans _ _ _ 0 0 _ db1); [done|]. apply qstep_same; try done. by eapply qstep_ok.
  - destruct Hf1. constructor; try done. intros k Hk. cbn [s_meta set_meta]. rewrite (b_get_put_ne _ _ _ _ _ (not_eq_sym Hk) Ep). auto.
  - destruct (Nat.le_gt_cases (length staged + length delayed) (Z.to_nat (store_maxPending store - b_keyN (s_pending db)))) as [Hall|Hfull].
    + right. assert (s2 = [] /\ d2 = []) as [-> ->].
      { pose proof (Permutation_length Hperm) as Hpl. rewrite length_app in Hpl. subst staged delayed. rewrite !length_app in *.
        destruct s2, d2; cbn in *; try lia; done. }
      rewrite app_nil_r in Hse, Hde. subst s1 d1. intros id r Hr. change (rec_at db1 id = Some r) in Hr.
      destruct (decide (id ∈ map fst ps)) as [Hi|Hi].
      * apply list_elem_of_fmap in Hi as ([k r'] & -> & Hi). cbn in Hr. rewrite (proj2 (Hat1 k) r' Hi) in Hr. injection Hr as <-.
        split; intros [? _]; done.
      * rewrite (proj1 (Hat1 id) Hi) in Hr. split; intros Hw; apply Hi.
        -- apply (list_elem_of_fmap_2' fst _ (id, r)); [|done]. rewrite Hperm. apply elem_of_app. left.
           by apply (collect_in _ _ _ _ _ _ Hrec Es).
        -- apply (list_elem_of_fmap_2' fst _ (id, r)); [|done]. rewrite Hperm. apply elem_of_app. right.
           by apply (collect_in _ _ _ _ _ _ Hrec Ed).
    + left. cbn [s_pending set_meta]. rewrite Hn1, Hlen. lia.
  - cbn [s_pending set_meta]. lia.
Qed.

End Promote.
End QueuePromote.
Export QueuePromote.

Module QueueSteps.

(** What Go's types guarantee of an input candidate. *)
Definition input_typed (c : RescueCandidate) : Prop := record_typed (mkRecord CandidateStaged zeroTime c).

Section Steps.
Context `{BL : BoltLaws} (store : BoltStore).

(** The buckets and keys of the chain are as they were. *)
Record chain_same (db db' : StoreDB) : Prop := {
  cs_blocks : s_blocks db' = s_blocks db;
  cs_baseline : b_get (s_meta db') baselineKey = b_get (s_meta db) baselineKey;
  cs_cursor : b_get (s_meta db') scanCursorKey = b_get (s_meta db) scanCursorKey;
  cs_checkpoint : b_get (s_meta db') checkpointKey = b_get (s_meta db) checkpointKey }.

#[export] Instance chain_same_refl : Reflexive chain_same.
Proof. by constructor. Qed.

#[export] Instance chain_same_trans : Transitive chain_same.
Proof. intros a b c [] []. constructor; congruence. Qed.

Lemma promote_chain_same db db' : promote_frame db db' -> chain_same db db'.
Proof. intros []. constructor; [done|..]; by apply pf_meta. Qed.

Lemma validateInput_inv c :
  validateInputCandidate store c = Ok tt -> validateCandidate c = Ok tt /\ matchesCandidate store c = true.
Proof.
  unfold validateInputCandidate. destruct (_ || _) eqn:E; [done|]. intros _. bool_hyps. split; [|done].
  by destruct (validateCandidate c) as [[]|].
Qed.

Lemma sameIdentity_id a b : sameCandidateIdentity a b = true -> Candidate_ID a = Candidate_ID b.
Proof. unfold sameCandidateIdentity. intros H. bool_hyps. by injection H. Qed.

Lemma sameIdentity_block a b :
  sameCandidateIdentity a b = true ->
  Candidate_Kind a = Candidate_Kind b /\ Candidate_BlockHash a = Candidate_BlockHash b /\
  Candidate_BlockNumber a = Candidate_BlockNumber b.
Proof. unfold sameCandidateIdentity. intros H. bool_hyps. by injection H. Qed.

Lemma sameIdentity_refl c : sameCandidateIdentity c c = true.
Proof. unfold sameCandidateIdentity. by apply bool_decide_eq_true_2. Qed.

Lemma updateMetadata_same a b : sameCandidateIdentity a (updateCandidateMetadata a b) = true.
Proof. unfold sameCandidateIdentity. by apply bool_decide_eq_true_2. Qed.

Lemma not_ready r : Rec_Status r <> CandidateReady -> ~ is_ready (Some r).
Proof. by intros H (r' & [= <-] & ?). Qed.

Lemma none_not_ready : ~ is_ready None.
Proof. by intros (r & ? & _). Qed.

(** ** Staging a candidate *)

(** Whether staging it adds to the journal. *)
Definition need (db : StoreDB) (c : RescueCandidate) : Z :=
  match rec_at db (Candidate_ID c) with
  | None => 1
  | Some r => if isPreliminary (Rec_Status r) then 1 else 0
  end.

Lemma updated_stored k r c t :
  stored_record store k r -> input_typed c -> validateCandidateRecord (mkRecord CandidateStaged t (updateCandidateMetadata (Rec_Candidate r) c)) = Ok tt ->
  time_ok t -> stored_record store k (mkRecord CandidateStaged t (updateCandidateMetadata (Rec_Candidate r) c)).
Proof.
  intros [Hid Hm [[] ? ? ?] _] [[] Hdec Hgen _] Hv Ht. constructor; done.
Qed.

(** Writing the staged form of a new or preliminary candidate. *)
Lemma stage_new db c data b' :
  QOK store db -> input_typed c -> matchesCandidate store c = true -> rec_at db (Candidate_ID c) = None ->
  encodeCandidateRecord (mkRecord CandidateStaged zeroTime c) = Ok data -> b_put (s_candidates db) (Candidate_ID c) data = Some b' ->
  QStep store nobody nobody 1 db (set_candidates db b') /\
  forall id, rec_at (set_candidates db b') id =
    if decide (Candidate_ID c = id) then Some (mkRecord CandidateStaged zeroTime c) else rec_at db id.
Proof.
  intros Hok Hty Hm Hnone He Hp. apply encodeCandidateRecord_inv in He as Hv. destruct Hv as (Hv & _).
  assert (Hs : stored_record store (Candidate_ID c) (mkRecord CandidateStaged zeroTime c)) by by constructor.
  split; [|by apply (records_put store _ _ _ data); [apply Hok| | |]].
  eapply qstep_le; [|eapply (qstep_put _ _ _ _ _ _ _ _ Hok Hs He Hp)]; rewrite ?Hnone; cbn; try lia; try done.
  - apply none_not_ready.
  - apply cs_new. by right.
Qed.

Lemma stage_preliminary db c r data b' :
  QOK store db -> input_typed c -> rec_at db (Candidate_ID c) = Some r -> isPreliminary (Rec_Status r) = true ->
  encodeCandidateRecord (mkRecord CandidateStaged (Rec_RetryAt r) (updateCandidateMetadata (Rec_Candidate r) c)) = Ok data ->
  b_put (s_candidates db) (Candidate_ID c) data = Some b' ->
  QStep store nobody nobody 1 db (set_candidates db b') /\
  forall id, rec_at (set_candidates db b') id =
    if decide (Candidate_ID c = id)
    then Some (mkRecord CandidateStaged (Rec_RetryAt r) (updateCandidateMetadata (Rec_Candidate r) c)) else rec_at db id.
Proof.
  intros Hok Hty Hr Hpre He Hp. apply encodeCandidateRecord_inv in He as Hv. destruct Hv as (Hv & _).
  destruct (rec_at_get _ _ _ _ (proj1 Hok) Hr) as (v & _ & _ & Hs).
  assert (Hs' : stored_record store (Candidate_ID c) (mkRecord CandidateStaged (Rec_RetryAt r) (updateCandidateMetadata (Rec_Candidate r) c))).
  { apply updated_stored; try done. apply (sr_typed _ _ _ Hs). }
  split; [|by apply (records_put store _ _ _ data); [apply Hok| | |]].
  eapply qstep_le; [|eapply (qstep_put _ _ _ _ _ _ _ _ Hok Hs' He Hp)]; rewrite ?Hr; try done.
  - pose proof (one_range isUnfinished (Some r)). cbn [Rec_Status isUnfinished Z.b2z]. lia.
  - apply not_ready. by destruct (Rec_Status r).
  - apply cs_stage; [done|]. apply updateMetadata_same.
Qed.

Lemma index_same db c db' :
  indexCandidateBlock db c = Ok db' ->
  s_candidates db' = s_candidates db /\ s_pending db' = s_pending db /\ s_readyOrder db' = s_readyOrder db /\
  s_meta db' = s_meta db /\ s_blocks db' = s_blocks db /\ s_incidents db' = s_incidents db /\
  s_tombstones db' = s_tombstones db /\ s_discovered db' = s_discovered db.
Proof.
  unfold indexCandidateBlock. destruct (candidateBlockIndexKey c); [|by intros <-%Ok_inj].
  destruct (put _ _ _); [|done]. by intros <-%Ok_inj.
Qed.

(** The record of a candidate the chain has confirmed. *)
Definition confirmed_record (c : RescueCandidate) (r : option candidateRecord) : Prop :=
  exists r', r = Some r' /\ isPreliminary (Rec_Status r') = false /\ sameCandidateIdentity (Rec_Candidate r') c = true.

Lemma stageCandidate_step db c db' :
  QOK store db -> input_typed c -> matchesCandidate store c = true -> stageCandidate store db c = Ok db' ->
  QStep store nobody nobody (need db c) db db' /\ chain_same db db' /\ s_meta db' = s_meta db /\
  (forall id, id <> Candidate_ID c -> rec_at db' id = rec_at db id) /\ confirmed_record c (rec_at db' (Candidate_ID c)).
Proof.
  intros Hok Hty Hm. unfold stageCandidate, need. destruct (b_get (s_candidates db) (Candidate_ID c)) as [data|] eqn:Eg.
  - destruct (records_get _ _ _ _ (proj1 Hok) Eg) as (r & Hd & Hr & Hs). rewrite Hd, Hr. cbn [errOr]. ok Eid.
    apply orb_false_iff in Eid as [_ Eid]. apply negb_false_iff in Eid. destruct (isPreliminary (Rec_Status r)) eqn:Epre.
    + ok Ee. destruct (encodeCandidateRecord _) as [enc|] eqn:Eenc in Ee; [|done]. injection Ee as ->. ok Ep.
      intros <-%Ok_inj. apply store_put_inv in Ep.
      destruct (stage_preliminary db c r _ _ Hok Hty Hr Epre Eenc Ep) as [Hstep Hat].
      split; [done|]. split; [done|]. split; [done|]. split; [intros id Hid; by rewrite Hat, decide_False|].
      rewrite Hat, decide_True by done. eexists. split; [done|]. split; [done|]. cbn [Rec_Candidate].
      unfold sameCandidateIdentity in *. bool_hyps. apply bool_decide_eq_true_2. by rewrite <- Eid.
    + intros <-%Ok_inj. split; [by apply qstep_refl|]. split; [done|]. split; [done|]. split; [done|]. exists r. by rewrite Hr.
  - assert (Hnone : rec_at db (Candidate_ID c) = None) by by apply (rec_at_none store _ _ (proj1 Hok)). rewrite Hnone.
    ok Ee. destruct (encodeCandidateRecord _) as [enc|] eqn:Eenc in Ee; [|done]. injection Ee as ->.
    destruct (put _ _ _) as [b|] eqn:Ep; [|done]. intros Hix. apply store_put_inv in Ep. destruct (stage_new db c _ _ Hok Hty Hm Hnone Eenc Ep) as [Hstep Hat].
    destruct (index_same _ _ _ Hix) as (H1 & H2 & H3 & H4 & H5 & _).
    assert (Hat' : forall id, rec_at db' id = rec_at (set_candidates db b) id) by (intros id; by apply rec_at_same).
    split; [|split; [|split; [done|split]]].
    + apply (qstep_trans _ _ _ 1 0 _ (set_candidates db b)); [done|]. apply qstep_same; try done. by eapply qstep_ok.
    + constructor; try (by rewrite H4); done.
    + intros id Hid. by rewrite Hat', Hat, decide_False.
    + rewrite Hat', Hat, decide_True by done. eexists. split; [done|]. split; [done|]. apply sameIdentity_refl.
Qed.

Definition needs (db : StoreDB) (cs : list RescueCandidate) : Z := sumZ (need db) cs.

Lemma stageAll_step cs db db' :
  QOK store db -> NoDup (map Candidate_ID cs) -> Forall (fun c => input_typed c /\ matchesCandidate store c = true) cs ->
  foldM (stageCandidate store) cs db = Ok db' ->
  QStep store nobody nobody (needs db cs) db db' /\ chain_same db db' /\ s_meta db' = s_meta db /\
  (forall id, id ∉ map Candidate_ID cs -> rec_at db' id = rec_at db id) /\
  (forall c, c ∈ cs -> confirmed_record c (rec_at db' (Candidate_ID c))).
Proof.
  revert db. induction cs as [|c cs IH]; intros db Hok Hnd Hall; cbn [foldM].
  { intros <-%Ok_inj. split; [by apply qstep_refl|]. split; [done|]. split; [done|]. split; [done|]. by intros c []%elem_of_nil. }
  cbn in Hnd. inv Hnd. inv Hall. rename H1 into Hni, H2 into Hnd. destruct H3 as [Hty Hm]. rename H4 into Hall.
  destruct (stageCandidate store db c) as [db1|] eqn:E1; [|done]. intros E2.
  destruct (stageCandidate_step _ _ _ Hok Hty Hm E1) as (Hs1 & Hc1 & Hm1 & Hat1 & Hconf).
  destruct (IH db1 (qstep_ok _ _ _ _ _ _ Hs1) Hnd Hall E2) as (Hs2 & Hc2 & Hm2 & Hat2 & Hconf2).
  assert (Hneeds : needs db1 cs = needs db cs).
  { apply sumZ_ext. intros x Hx. unfold need. rewrite Hat1; [done|]. intros E. apply Hni. rewrite <- E. by apply list_elem_of_fmap_2. }
  split; [|split; [by etransitivity|split; [congruence|split]]].
  - unfold needs. rewrite sumZ_cons. fold (needs db cs). rewrite <- Hneeds. by eapply qstep_trans.
  - cbn. intros id Hid. rewrite Hat2 by set_solver. apply Hat1. set_solver.
  - intros x [->|Hx]%elem_of_cons; [|by apply Hconf2]. by rewrite Hat2.
Qed.

(** ** The journal *)

Lemma journalCount_ok db n :
  journalCount store db = Ok n -> n = counted isUnfinished db.
Proof.
  unfold journalCount, counted, b_count.
  apply (foldM_invariant (fun done n => n = Z.of_nat (length (filter (fun e => counts isUnfinished e.2 = true) done)))); [done|].
  intros done n' [k v] n'' ->. cbn. destruct (decodeCandidateRecord v) as [r|] eqn:E; [|done]. cbn [errOr].
  rewrite filter_app, length_app, Nat2Z.inj_add, b_count_cons. cbn [snd].
  assert (Hc : counts isUnfinished v = isUnfinished (Rec_Status r)) by (unfold counts, decoded; by rewrite E). rewrite Hc.
  destruct (isUnfinished (Rec_Status r)); cbn [negb].
  - ok. intros [= <-]. cbn. lia.
  - intros [= <-]. cbn. lia.
Qed.

Lemma reserveJournal_ok db additional :
  reserveJournal store db additional = Ok tt -> counted isUnfinished db + additional <= store_journalCapacity store.
Proof. unfold reserveJournal. ok E. apply journalCount_ok in E as ->. ok. bool_hyps. intros _. lia. Qed.

Lemma additional_ok db cs n :
  RecordsInv store db -> additionalJournalEntries store db cs = Ok n -> n = needs db cs.
Proof.
  intros Hi. unfold additionalJournalEntries, needs.
  apply (foldM_invariant (fun done n => n = sumZ (need db) done)); [done|].
  intros done n' c n'' ->. rewrite sumZ_app, sumZ_cons, sumZ_nil.
  destruct (b_get (s_candidates db) (Candidate_ID c)) as [data|] eqn:E.
  - destruct (records_get _ _ _ _ Hi E) as (r & -> & Hr & _). cbn [errOr]. ok. intros [= <-].
    assert (need db c = if isPreliminary (Rec_Status r) then 1 else 0) as -> by (unfold need; by rewrite Hr). destruct (isPreliminary _); lia.
  - assert (need db c = 1) as -> by (unfold need; by rewrite (proj2 (rec_at_none store _ _ Hi) E)). intros [= <-]. lia.
Qed.

(** ** Reconciling *)

Lemma reconcileEntry_step number members db entry db' :
  QOK store db -> reconcileEntry number members db entry = Ok db' ->
  QStep store nobody nobody 0 db db' /\ chain_same db db' /\ s_meta db' = s_meta db /\
  (forall id, rec_at db' id = rec_at db id \/
     exists r, rec_at db id = Some r /\ isPreliminary (Rec_Status r) = true /\ id ∉ members /\ rec_at db' id = None).
Proof.
  intros Hok. destruct entry as [key value]. unfold reconcileEntry. ok. ok Ed.
  destruct (decodeCandidateRecord _) as [r|] eqn:Edec in Ed; [|done]. injection Ed as ->. ok. bool_hyps.
  destruct (isMember _ _) eqn:Em.
  { intros <-%Ok_inj. split; [by apply qstep_refl|]. split; [done|]. split; [done|]. by left. }
  set (id := indexedCandidate key) in *. unfold isMember in Em. bool_hyps.
  assert (Hr : rec_at db id = Some a).
  { unfold getNil in Edec. unfold rec_at, decoded. destruct (b_get (s_candidates db) id); [cbn in *; by rewrite Edec|done]. }
  assert (Hgoal : isPreliminary (Rec_Status a) = true ->
    QStep store nobody nobody 0 db
      (set_blockIndex (set_pending (set_candidates db (b_delete (s_candidates db) id)) (b_delete (s_pending db) id))
         (b_delete (s_blockIndex db) key)) /\
    (forall i, rec_at (set_candidates db (b_delete (s_candidates db) id)) i = if decide (id = i) then None else rec_at db i)).
  { intros Hpre. assert (Hn : ~ is_ready (rec_at db id)) by (rewrite Hr; apply not_ready; by destruct (Rec_Status a)).
    destruct (records_delete store db id (proj1 Hok)) as [_ Hat]. split; [|done].
    eapply (qstep_trans _ _ _ 0 0).
    - apply (qstep_delete store nobody nobody db id Hok Hn). rewrite Hr. by apply rtc_once, cs_drop.
    - eapply (qstep_trans _ _ _ 0 0); [apply (qstep_unpend store nobody nobody _ id)|].
      + eapply qstep_ok. apply (qstep_delete store nobody nobody db id Hok Hn). rewrite Hr. by apply rtc_once, cs_drop.
      + rewrite Hat, decide_True by done. apply none_not_ready.
      + apply qstep_same; try done. eapply qstep_ok. apply (qstep_unpend store nobody nobody _ id).
        * eapply qstep_ok. apply (qstep_delete store nobody nobody db id Hok Hn). rewrite Hr. by apply rtc_once, cs_drop.
        * rewrite Hat, decide_True by done. apply none_not_ready. }
  destruct (Rec_Status a) eqn:Est; try done; intros <-%Ok_inj; (destruct Hgoal as [Hq Hat]; [done|]);
    (split; [done|]; split; [done|]; split; [done|]); intros i;
    (destruct (decide (id = i)) as [<-|Hne]; [right; exists a; rewrite Est; repeat split; try done;
       change (rec_at (set_candidates db (b_delete (s_candidates db) id)) id = None); by rewrite Hat, decide_True
     |left; change (rec_at (set_candidates db (b_delete (s_candidates db) id)) i = rec_at db i); by rewrite Hat, decide_False]).
Qed.

Lemma reconcile_step number members db db' :
  QOK store db -> reconcileBlockObservations number members db = Ok db' ->
  QStep store nobody nobody 0 db db' /\ chain_same db db' /\ s_meta db' = s_meta db.
Proof.
  intros Hok. unfold reconcileBlockObservations. generalize (seekRun (encodeUint64 number) (b_entries (s_blockIndex db))). intros run.
  apply (foldM_invariant (fun _ d => QStep store nobody nobody 0 db d /\ chain_same db d /\ s_meta d = s_meta db)).
  { split; [by apply qstep_refl|done]. }
  intros _ d e d' (Hq & Hc & Hm) E. destruct (reconcileEntry_step _ _ _ _ _ (qstep_ok _ _ _ _ _ _ Hq) E) as (Hq' & Hc' & Hm' & _).
  split; [by apply (qstep_trans _ _ _ 0 0 _ d)|]. split; [by etransitivity|congruence].
Qed.

(** ** Discovered tokens do not touch the queue *)

Record confirm_frame (db db' : StoreDB) : Prop := {
  cf_candidates : s_candidates db' = s_candidates db;
  cf_pending : s_pending db' = s_pending db;
  cf_readyOrder : s_readyOrder db' = s_readyOrder db;
  cf_blockIndex : s_blockIndex db' = s_blockIndex db;
  cf_blocks : s_blocks db' = s_blocks db;
  cf_incidents : s_incidents db' = s_incidents db;
  cf_tombstones : s_tombstones db' = s_tombstones db;
  cf_meta k : k <> discoveryOverflowKey -> b_get (s_meta db') k = b_get (s_meta db) k }.

Lemma confirmToken_frame db count address db' count' :
  confirmToken store (db, count) address = Ok (db', count') -> confirm_frame db db'.
Proof.
  unfold confirmToken. destruct (bool_decide _); [intros [= <- _]; by constructor|]. destruct (_ =? _).
  - ok E. apply store_put_inv in E. intros [= <- _]. constructor; try done. intros k Hk. cbn [s_meta set_meta].
    by rewrite (b_get_put_ne _ _ _ _ _ (not_eq_sym Hk) E).
  - ok E. intros [= <- _]. by constructor.
Qed.

Lemma confirm_frame_trans a b c : confirm_frame a b -> confirm_frame b c -> confirm_frame a c.
Proof. intros [] []. constructor; try congruence. intros k Hk. rewrite cf_meta1, cf_meta0; done. Qed.

Lemma confirmDiscovered_frame cs db db' : confirmDiscoveredTokens store cs db = Ok db' -> confirm_frame db db'.
Proof.
  unfold confirmDiscoveredTokens. ok Ec. destruct (foldM _ _ _) as [[d n]|] eqn:E; [|done]. intros [= <-]. revert E.
  apply (foldM_invariant (fun _ '(d, _) => confirm_frame db d)); [by constructor|].
  intros _ [d1 n1] x [d2 n2] H1 H2%confirmToken_frame. by eapply confirm_frame_trans.
Qed.

Lemma confirm_qstep db db' : QOK store db -> confirm_frame db db' -> QStep store nobody nobody 0 db db' /\ chain_same db db'.
Proof.
  intros Hok []. split; [by apply qstep_same|]. constructor; try done; by apply cf_meta0.
Qed.

End Steps.
End QueueSteps.
Export QueueSteps.
