(* ===== verification/ChainSteps.v ===== *)
(** * The invariant of the canonical chain, expiry, trimming and the checkpoint

    [ChainCore]: the stored blocks are exactly those from the baseline to the
    scan cursor, linked by their parent hashes; every member of a block has a
    confirmed record; every block up to the checkpoint is complete; the spans
    before and after the checkpoint are bounded.  [maximal]: the checkpoint
    stands where it must stop ([ChainInv]).  Acknowledged candidates are forgotten
    only when no stored block needs them ([ChainSteps]). *)

From S2P Require Import Prelude GoTime Bytes Sha256 Domain Bolt StoreModel StoreLease StoreCodec StoreQueue StoreCanonical StoreCandidates QueueInv QueueSteps.

Module ChainInv.

Section Chain.
Context `{BL : BoltLaws} (store : BoltStore).

Definition block_at (db : StoreDB) (n : Z) : option blockRecord :=
  b_get (s_blocks db) (blockNumberKey n) ≫=
    fun data => match decodeBlock data (store_journalCapacity store) with Ok b => Some b | Err _ => None end.

Record member_ok (db : StoreDB) (cp : Checkpoint) (m : CandidateID) : Prop := {
  mo_record : exists r, rec_at db m = Some r /\ isPreliminary (Rec_Status r) = false /\
    Candidate_BlockNumber (Rec_Candidate r) = CP_BlockNumber cp /\ Candidate_BlockHash (Rec_Candidate r) = CP_BlockHash cp /\
    Candidate_Kind (Rec_Candidate r) <> CandidateFastToken }.

Record block_ok (db : StoreDB) (n : Z) (b : blockRecord) : Prop := {
  bo_network : CP_Network (Block_Checkpoint b) = store_network store;
  bo_number : CP_BlockNumber (Block_Checkpoint b) = n;
  bo_members : Forall (member_ok db (Block_Checkpoint b)) (Block_Members b) }.

Definition acked (r : option candidateRecord) : Prop := exists r', r = Some r' /\ Rec_Status r' = CandidateAcknowledged.

Lemma acked_dec r : Decision (acked r).
Proof.
  destruct r as [r|]; [|right; by intros (? & ? & _)]. destruct (decide (Rec_Status r = CandidateAcknowledged)) as [H|H].
  - left. by exists r.
  - right. by intros (r' & [= <-] & ?).
Defined.

Definition complete (db : StoreDB) (b : blockRecord) : Prop := Forall (fun m => acked (rec_at db m)) (Block_Members b).

(** The last block the checkpoint covers, the one before the baseline if none. *)
Definition confirmed (base : Z) (chk : option Checkpoint) : Z :=
  match chk with Some c => CP_BlockNumber c | None => base - 1 end.

Record ChainCore (db : StoreDB) (base : Z) (cursor : Checkpoint) (chk : option Checkpoint) : Prop := {
  cc_base : b_get (s_meta db) baselineKey = Some (encodeUint64 base);
  cc_cursor : exists data, b_get (s_meta db) scanCursorKey = Some data /\ decodeCheckpoint data = Ok cursor;
  cc_chk : match chk with
           | None => b_get (s_meta db) checkpointKey = None
           | Some c => (exists data, b_get (s_meta db) checkpointKey = Some data /\ decodeCheckpoint data = Ok c) /\
               base <= CP_BlockNumber c /\ forall b, block_at db (CP_BlockNumber c) = Some b -> Block_Checkpoint b = c
           end;
  cc_range : 0 <= base <= CP_BlockNumber cursor /\ CP_BlockNumber cursor < 2 ^ 64;
  cc_keys k v : b_get (s_blocks db) k = Some v -> exists n, base <= n <= CP_BlockNumber cursor /\ k = blockNumberKey n;
  cc_block n : base <= n <= CP_BlockNumber cursor -> exists b, block_at db n = Some b /\ block_ok db n b;
  cc_link n a b : base <= n < CP_BlockNumber cursor -> block_at db n = Some a -> block_at db (n + 1) = Some b ->
    Block_ParentHash b = CP_BlockHash (Block_Checkpoint a);
  cc_tip b : block_at db (CP_BlockNumber cursor) = Some b -> Block_Checkpoint b = cursor;
  cc_confirmed : confirmed base chk <= CP_BlockNumber cursor /\ confirmed base chk - base + 1 <= canonicalBlockLimit;
  cc_complete n b : base <= n <= confirmed base chk -> block_at db n = Some b -> complete db b;
  cc_span : CP_BlockNumber cursor - confirmed base chk <= unconfirmedBlockLimit }.

Definition maximal (db : StoreDB) (base : Z) (cursor : Checkpoint) (chk : option Checkpoint) : Prop :=
  confirmed base chk < CP_BlockNumber cursor -> forall b, block_at db (confirmed base chk + 1) = Some b -> ~ complete db b.

Definition NoChain (db : StoreDB) : Prop :=
  b_get (s_meta db) baselineKey = None /\ b_get (s_meta db) scanCursorKey = None /\ b_get (s_meta db) checkpointKey = None /\
  forall k, b_get (s_blocks db) k = None.

(** The invariant with and without the checkpoint as far as it can be. *)
Definition CoreInv (db : StoreDB) : Prop := NoChain db \/ exists base cursor chk, ChainCore db base cursor chk.
Definition ChainInv (db : StoreDB) : Prop :=
  NoChain db \/ exists base cursor chk, ChainCore db base cursor chk /\ maximal db base cursor chk.

Lemma chain_core db : ChainInv db -> CoreInv db.
Proof. intros [H|(base & cursor & chk & H & _)]; [by left|right; eauto]. Qed.

(** ** Basic facts *)

Lemma blockNumberKey_inj a b : inU 64 a -> inU 64 b -> blockNumberKey a = blockNumberKey b -> a = b.
Proof. apply encodeUint64_inj. Qed.

Lemma block_at_same db db' n : s_blocks db' = s_blocks db -> block_at db' n = block_at db n.
Proof. unfold block_at. by intros ->. Qed.

Lemma block_at_range db base cursor chk n b :
  ChainCore db base cursor chk -> inU 64 n -> block_at db n = Some b -> base <= n <= CP_BlockNumber cursor.
Proof.
  intros H Hn Hb. unfold block_at in Hb. destruct (b_get (s_blocks db) (blockNumberKey n)) as [data|] eqn:E; [|done].
  destruct (cc_keys _ _ _ _ H _ _ E) as (m & Hm & Hk). apply blockNumberKey_inj in Hk as ->; [done|done|].
  pose proof (cc_range _ _ _ _ H). unfold inU. lia.
Qed.

Lemma confirmed_low base chk db cursor : ChainCore db base cursor chk -> base - 1 <= confirmed base chk.
Proof. intros H. pose proof (cc_chk _ _ _ _ H). destruct chk as [c|]; cbn in *; [lia|lia]. Qed.

(** What the chain's state is can be read off the store. *)
Lemma core_unique db base cursor chk base' cursor' chk' :
  ChainCore db base cursor chk -> ChainCore db base' cursor' chk' -> base' = base /\ cursor' = cursor /\ chk' = chk.
Proof.
  intros H H'. split; [|split].
  - pose proof (cc_range _ _ _ _ H). pose proof (cc_range _ _ _ _ H'). apply encodeUint64_inj; [unfold inU; lia..|].
    pose proof (cc_base _ _ _ _ H) as E. rewrite (cc_base _ _ _ _ H') in E. congruence.
  - destruct (cc_cursor _ _ _ _ H) as (d & E & Hd), (cc_cursor _ _ _ _ H') as (d' & E' & Hd'). congruence.
  - pose proof (cc_chk _ _ _ _ H) as Hc. pose proof (cc_chk _ _ _ _ H') as Hc'. destruct chk as [c|], chk' as [c'|]; try done.
    + destruct Hc as ((d & E & Hd) & _), Hc' as ((d' & E' & Hd') & _). congruence.
    + destruct Hc as ((d & E & Hd) & _). congruence.
    + destruct Hc' as ((d' & E' & Hd') & _). congruence.
Qed.

(** Who may be forgotten: the members of no stored block. *)
Definition outsider (db : StoreDB) (id : CandidateID) : Prop :=
  forall n b, inU 64 n -> block_at db n = Some b -> id ∉ Block_Members b.

Lemma outsider_same db db' id : s_blocks db' = s_blocks db -> outsider db id -> outsider db' id.
Proof. intros E H n b Hn. rewrite (block_at_same db db' n E). by apply H. Qed.

Lemma outsider_none db id : NoChain db -> outsider db id.
Proof. intros (_ & _ & _ & H) n b _. unfold block_at. by rewrite H. Qed.

(** A member of a stored block has a confirmed record of that block. *)
Lemma member_record db n b m :
  CoreInv db -> inU 64 n -> block_at db n = Some b -> m ∈ Block_Members b ->
  CP_BlockNumber (Block_Checkpoint b) = n /\ member_ok db (Block_Checkpoint b) m.
Proof.
  intros [(_ & _ & _ & H)|(base & cursor & chk & H)] Hn Hb Hm; [unfold block_at in Hb; by rewrite H in Hb|].
  pose proof (block_at_range _ _ _ _ _ _ H Hn Hb) as Hr. destruct (cc_block _ _ _ _ H _ Hr) as (b' & Hb' & []).
  rewrite Hb in Hb'. injection Hb' as <-. split; [done|]. rewrite Forall_forall in bo_members0. auto.
Qed.

(** ** The chain under steps of the queue *)

Lemma member_kept db db' cp m :
  kept False (rec_at db m) (rec_at db' m) \/ (exists ack, kept ack (rec_at db m) (rec_at db' m)) ->
  member_ok db cp m -> member_ok db' cp m /\ (acked (rec_at db m) -> acked (rec_at db' m)).
Proof.
  intros Hk [(r & Hr & Hp & Hn & Hh & Hkind)].
  assert (Hk' : exists r', rec_at db' m = Some r' /\ isPreliminary (Rec_Status r') = false /\ Rec_Candidate r' = Rec_Candidate r /\
    (Rec_Status r = CandidateAcknowledged -> Rec_Status r' = CandidateAcknowledged)).
  { destruct Hk as [Hk|[ack Hk]]; destruct (Hk r Hr Hp) as (r' & ? & ? & ? & ? & _); by exists r'. }
  destruct Hk' as (r' & Hr' & Hp' & Hc & Ha). split.
  - constructor. exists r'. rewrite Hc. done.
  - intros (x & Hx & Hs). rewrite Hr in Hx. injection Hx as <-. exists r'. auto.
Qed.

Lemma core_frame db db' base cursor chk :
  ChainCore db base cursor chk -> chain_same db db' ->
  (forall n b m, inU 64 n -> block_at db n = Some b -> m ∈ Block_Members b -> exists ack, kept ack (rec_at db m) (rec_at db' m)) ->
  ChainCore db' base cursor chk.
Proof.
  intros H [Hb H1 H2 H3] Hk. pose proof H as Hcore. destruct H.
  assert (Hat : forall n, block_at db' n = block_at db n) by (intros n; by apply block_at_same).
  constructor; rewrite ?Hb, ?H1, ?H2, ?H3; try done.
  - destruct chk as [c|]; [|done]. destruct cc_chk0 as (? & ? & ?). repeat split; try done. by setoid_rewrite Hat.
  - intros n Hn. rewrite Hat. destruct (cc_block0 n Hn) as (b & Hbn & [Hnet Hnum Hmem]). exists b. split; [done|]. constructor; try done.
    rewrite Forall_forall in *. intros m Hm. apply (member_kept db db'); [|by apply Hmem]. right. apply (Hk n b m); try done. unfold inU. lia.
  - intros n a b. rewrite !Hat. apply cc_link0.
  - intros b. rewrite Hat. apply cc_tip0.
  - intros n b Hn. rewrite Hat. intros Hbn. pose proof (cc_complete0 n b Hn Hbn) as Hc. unfold complete in *. rewrite Forall_forall in *.
    intros m Hm. assert (Hn64 : inU 64 n) by (unfold inU; lia).
    apply (member_kept db db' (Block_Checkpoint b)); [right; by apply (Hk n b m)| |by apply Hc].
    by apply (member_record db n b m); [right; eauto|..].
Qed.

(** Steps that forget only outsiders keep the core. *)
Definition life (ack forget : CandidateID -> Prop) (db db' : StoreDB) : Prop :=
  forall id, rtc (cand_step (ack id) (forget id)) (rec_at db id) (rec_at db' id).

Lemma core_life ack forget db db' base cursor chk :
  ChainCore db base cursor chk -> chain_same db db' -> life ack forget db db' ->
  (forall id, forget id -> outsider db id) -> ChainCore db' base cursor chk.
Proof.
  intros H Hc Hl Hf. apply (core_frame db); try done. intros n b m Hn Hb Hm. exists (ack m).
  apply (confirmed_kept (ack m) (forget m)); [|apply Hl]. intros Hfm. by apply (Hf m Hfm n b).
Qed.

Lemma core_qstep ack forget g db db' base cursor chk :
  ChainCore db base cursor chk -> chain_same db db' -> QStep store ack forget g db db' ->
  (forall id, forget id -> outsider db id) -> ChainCore db' base cursor chk.
Proof. intros H Hc Hq. by apply (core_life ack forget db); [| |intros id; apply Hq]. Qed.

Lemma nochain_same db db' : NoChain db -> chain_same db db' -> NoChain db'.
Proof. intros (H1 & H2 & H3 & H4) []. repeat split; try congruence. Qed.

Lemma coreinv_qstep ack forget g db db' :
  CoreInv db -> chain_same db db' -> QStep store ack forget g db db' -> (forall id, forget id -> outsider db id) -> CoreInv db'.
Proof.
  intros [H|(base & cursor & chk & H)] Hc Hq Hf; [left; by eapply nochain_same|right]. exists base, cursor, chk. by eapply core_qstep.
Qed.

(** Steps that acknowledge nothing keep the checkpoint maximal. *)
Lemma chain_life db db' : ChainInv db -> chain_same db db' -> life nobody nobody db db' -> ChainInv db'.
Proof.
  intros [H|(base & cursor & chk & H & Hmax)] Hc Hl; [left; by eapply nochain_same|right]. exists base, cursor, chk.
  split; [by eapply core_life|].
  intros Hlt b. rewrite (block_at_same db db') by apply Hc. intros Hb Hcomp. apply (Hmax Hlt b Hb). unfold complete in *.
  rewrite Forall_forall in *. intros m Hm. destruct (Hcomp m Hm) as (r' & Hr' & Ha).
  assert (Hn : inU 64 (confirmed base chk + 1)).
  { pose proof (confirmed_low _ _ _ _ H). pose proof (cc_range _ _ _ _ H). unfold inU. lia. }
  destruct (member_record db _ b m (or_intror (ex_intro _ base (ex_intro _ cursor (ex_intro _ chk H)))) Hn Hb Hm) as (_ & [(r & Hr & Hp & _)]).
  destruct (confirmed_kept (nobody m) (nobody m) _ _ (fun H => H) (Hl m) r Hr Hp) as (x & Hx & _ & _ & _ & Hback).
  rewrite Hx in Hr'. injection Hr' as ->. exists r. split; [done|]. apply Hback; [by intros []|done].
Qed.

Lemma chain_qstep g db db' :
  ChainInv db -> chain_same db db' -> QStep store nobody nobody g db db' -> ChainInv db'.
Proof. intros Hi Hc Hq. apply (chain_life db); [done|done|]. intros id. apply Hq. Qed.

End Chain.
End ChainInv.
Export ChainInv.

Module ChainSteps.

Section Steps.
Context `{BL : BoltLaws} (store : BoltStore).

Definition everybody : CandidateID -> Prop := fun _ => True.

(** ** Completeness *)

Lemma membersComplete_spec db cp members res :
  RecordsInv store db -> membersComplete store db cp members = Ok res ->
  if res then Forall (fun m => acked (rec_at db m)) members else ~ Forall (fun m => acked (rec_at db m)) members.
Proof.
  intros Hi. induction members as [|m members IH]; cbn [membersComplete]; [intros <-%Ok_inj; constructor|].
  destruct (b_get (s_candidates db) m) as [data|] eqn:E; [|done]. destruct (records_get _ _ _ _ Hi E) as (r & -> & Hr & _).
  cbn [errOr]. ok. ok. destruct (bool_decide (Rec_Status r = CandidateAcknowledged)) eqn:Ea; cbn [negb]; bool_hyps.
  - intros Hrest. specialize (IH Hrest). destruct res.
    + constructor; [|done]. by exists r.
    + by intros [_ Hall]%Forall_cons.
  - intros <-%Ok_inj Hall. apply Forall_cons in Hall as [(r' & Hr' & ?) _]. congruence.
Qed.

Lemma blockComplete_spec db b res :
  RecordsInv store db -> blockComplete store db b = Ok res -> if res then complete db b else ~ complete db b.
Proof. apply membersComplete_spec. Qed.

(** ** Forgetting acknowledged candidates *)

Lemma forget_one db id r :
  QOK store db -> rec_at db id = Some r -> Rec_Status r = CandidateAcknowledged ->
  QStep store nobody (fun i => i = id) 0 db (set_candidates db (b_delete (s_candidates db) id)) /\
  forall i, rec_at (set_candidates db (b_delete (s_candidates db) id)) i = if decide (id = i) then None else rec_at db i.
Proof.
  intros Hok Hr Hst. split; [|by apply (records_delete store), Hok]. apply qstep_delete; [done| |].
  - rewrite Hr. apply not_ready. congruence.
  - rewrite Hr. by apply rtc_once, cs_forget.
Qed.

(** The record a transaction reads by ID. *)
Lemma rec_getNil db id r :
  decodeCandidateRecord (getNil (s_candidates db) id) = Ok r -> rec_at db id = Some r.
Proof.
  unfold getNil, rec_at, decoded. destruct (b_get (s_candidates db) id) as [v|]; cbn; [by intros ->|done].
Qed.

Lemma removeTombstones_same db id db' :
  removeCandidateTombstones db id = Ok db' ->
  s_candidates db' = s_candidates db /\ s_pending db' = s_pending db /\ s_readyOrder db' = s_readyOrder db /\
  s_meta db' = s_meta db /\ s_blocks db' = s_blocks db.
Proof. unfold removeCandidateTombstones. ok. by intros <-%Ok_inj. Qed.

Lemma deleteCompletedMember_step db id db' :
  QOK store db -> deleteCompletedMember db id = Ok db' ->
  QStep store nobody (fun i => i = id) 0 db db' /\ s_meta db' = s_meta db /\ s_blocks db' = s_blocks db /\
  forall i, rec_at db' i = if decide (id = i) then None else rec_at db i.
Proof.
  intros Hok. unfold deleteCompletedMember. ok Ed. destruct (decodeCandidateRecord _) as [r|] eqn:E in Ed; [|done].
  injection Ed as ->. apply rec_getNil in E. ok Es. bool_hyps. cbv zeta.
  intros (H1 & H2 & H3 & H4 & H5)%removeTombstones_same.
  destruct (forget_one db id a Hok E) as [Hq Hat]; [done|].
  assert (Hat' : forall i, rec_at db' i = rec_at (set_candidates db (b_delete (s_candidates db) id)) i).
  { intros i. by apply rec_at_same. }
  split; [|split; [done|split; [done|intros i; by rewrite Hat', Hat]]].
  apply (qstep_trans _ _ _ 0 0 _ _ _ Hq). apply qstep_same; try done. by eapply qstep_ok.
Qed.

Lemma deleteCompleted_step b db db' :
  QOK store db -> deleteCompletedBlockCandidates b db = Ok db' ->
  QStep store nobody (fun i => i ∈ Block_Members b) 0 db db' /\ s_meta db' = s_meta db /\ s_blocks db' = s_blocks db /\
  forall i, i ∉ Block_Members b -> rec_at db' i = rec_at db i.
Proof.
  unfold deleteCompletedBlockCandidates. generalize (Block_Members b). intros ms Hok.
  apply (foldM_invariant (fun past d => QStep store nobody (fun i => i ∈ past) 0 db d /\ s_meta d = s_meta db /\
    s_blocks d = s_blocks db /\ forall i, i ∉ past -> rec_at d i = rec_at db i)).
  { split; [by apply qstep_refl|done]. }
  intros past d id d' (Hq & Hm & Hb & Hat) E.
  destruct (deleteCompletedMember_step _ _ _ (qstep_ok _ _ _ _ _ _ Hq) E) as (Hq' & Hm' & Hb' & Hat').
  split; [|split; [congruence|split; [congruence|]]].
  - apply (qstep_trans _ _ _ 0 0 _ d).
    + eapply qstep_weaken; [| |exact Hq]; [done|]. intros i Hi. apply elem_of_app. by left.
    + eapply qstep_weaken; [| |exact Hq']; [done|]. intros i ->. apply elem_of_app. right. by left.
  - intros i [Hi1 Hi2]%not_elem_of_app. rewrite Hat', decide_False, Hat; try done. intros ->. apply Hi2. by left.
Qed.

(** Expiry deletes an acknowledged candidate only when no stored block has it. *)
Lemma deleteAcknowledged_step db id db' :
  QOK store db -> CoreInv store db -> deleteAcknowledgedCandidate store id db = Ok db' ->
  QStep store nobody (outsider store db) 0 db db' /\ chain_same db db'.
Proof.
  intros Hok Hcore. unfold deleteAcknowledgedCandidate. ok Ed. destruct (decodeCandidateRecord _) as [r|] eqn:E in Ed; [|done].
  injection Ed as ->. apply rec_getNil in E. ok Es. bool_hyps. destruct (forget_one db id a Hok E) as [Hq Hat]; [done|].
  assert (Hgo : forall d, s_candidates d = b_delete (s_candidates db) id -> s_pending d = s_pending db -> s_readyOrder d = s_readyOrder db ->
    outsider store db id -> QStep store nobody (outsider store db) 0 db d).
  { intros d H1 H2 H3 Hout. apply (qstep_trans _ _ _ 0 0 _ (set_candidates db (b_delete (s_candidates db) id))).
    - eapply qstep_weaken; [| |exact Hq]; [done|]. by intros i ->.
    - apply qstep_same; try done. by eapply qstep_ok. }
  assert (Hmember : forall n b, inU 64 n -> block_at store db n = Some b -> id ∈ Block_Members b ->
    Candidate_BlockNumber (Rec_Candidate a) = n /\ Candidate_BlockHash (Rec_Candidate a) = CP_BlockHash (Block_Checkpoint b) /\
    Candidate_Kind (Rec_Candidate a) <> CandidateFastToken).
  { intros n b Hn Hb Hm. destruct (member_record store db n b id Hcore Hn Hb Hm) as (Hnum & [(x & Hx & _ & ? & ? & ?)]).
    rewrite E in Hx. injection Hx as <-. split; [congruence|done]. }
  unfold candidateBlockIndexKey. destruct (_ || _) eqn:Ek.
  - intros <-%Ok_inj. split; [|done]. apply Hgo; try done. intros n b Hn Hb Hm. destruct (Hmember n b Hn Hb Hm) as (_ & Hh & Hk).
    apply orb_true_iff in Ek as [Ek|Ek]; bool_hyps; [|done].
    destruct (block_at store db n) as [b'|] eqn:Eb; [|done]. injection Hb as ->. unfold block_at in Eb.
    destruct (b_get (s_blocks db) (blockNumberKey n)) as [data|]; [|done]. cbn in Eb.
    destruct (decodeBlock data _) as [x|] eqn:Edec; [|done]. injection Eb as ->. apply decodeBlock_valid in Edec.
    unfold validateBlockRecord in Edec. destruct (_ || _) eqn:Ev in Edec; [done|]. bool_hyps. congruence.
  - destruct (b_get (s_blocks db) _) as [data|] eqn:Eb.
    + ok. ok. ok. intros <-%Ok_inj. split; [by apply qstep_refl|done].
    + intros <-%Ok_inj. split; [|done]. apply Hgo; try done. intros n b Hn Hbn Hm. destruct (Hmember n b Hn Hbn Hm) as (Hnum & _).
      rewrite Hnum in Eb. unfold block_at in Hbn. by rewrite Eb in Hbn.
Qed.

Lemma expire_step n db db' :
  QOK store db -> CoreInv store db -> expireTombstones store n db = Ok db' ->
  QStep store nobody (outsider store db) 0 db db' /\ chain_same db db'.
Proof.
  revert db. induction n as [|n IH]; intros db Hok Hcore; cbn [expireTombstones].
  { intros <-%Ok_inj. split; [by apply qstep_refl|done]. }
  destruct (default _ _) as [key value]. ok. destruct (deleteAcknowledgedCandidate store value db) as [d|] eqn:Ed; [|done]. intros E2.
  destruct (deleteAcknowledged_step _ _ _ Hok Hcore Ed) as [Hq Hc].
  set (d' := set_tombstones d _) in *.
  assert (Hq' : QStep store nobody (outsider store db) 0 db d').
  { apply (qstep_trans _ _ _ 0 0 _ d); [done|]. apply qstep_same; try done. by eapply qstep_ok. }
  assert (Hc' : chain_same db d') by by destruct Hc.
  destruct (IH d' (qstep_ok _ _ _ _ _ _ Hq')) as [Hq2 Hc2]; [|done|].
  { eapply coreinv_qstep; [exact Hcore|exact Hc'|exact Hq'|done]. }
  split; [|by etransitivity]. apply (qstep_trans _ _ _ 0 0 _ d'); [done|].
  eapply qstep_weaken; [| |exact Hq2]; [done|]. intros i. apply outsider_same. by destruct Hc'.
Qed.

Lemma addTombstone_step id db db' :
  QOK store db -> CoreInv store db -> addTombstone store id db = Ok db' ->
  QStep store nobody (outsider store db) 0 db db' /\ chain_same db db'.
Proof.
  intros Hok Hcore. unfold addTombstone. ok. destruct (b_nextSequence _) as [sequence b]. ok. ok.
  destruct (put _ _ _) as [b'|]; [|done]. intros Hx.
  assert (Hq : QStep store nobody (outsider store db) 0 db (set_tombstones db b')) by by apply qstep_same.
  assert (Hc : chain_same db (set_tombstones db b')) by by constructor.
  destruct (expire_step _ _ _ (qstep_ok _ _ _ _ _ _ Hq) ltac:(eapply coreinv_qstep; [exact Hcore|exact Hc|exact Hq|done]) Hx) as [Hq2 Hc2].
  split; [|by etransitivity]. apply (qstep_trans _ _ _ 0 0 _ (set_tombstones db b')); [done|].
  eapply qstep_weaken; [| |exact Hq2]; [done|]. intros i. by apply outsider_same.
Qed.

(** ** The loop of the checkpoint ends *)

(** Deleting blocks is all that trimming does to them. *)
Definition blocks_shrink (db db' : StoreDB) : Prop :=
  forall k v, b_get (s_blocks db') k = Some v -> b_get (s_blocks db) k = Some v.

Lemma deleteCompleted_blocks b db db' : deleteCompletedBlockCandidates b db = Ok db' -> s_blocks db' = s_blocks db.
Proof.
  unfold deleteCompletedBlockCandidates. apply (foldM_invariant (fun _ d => s_blocks d = s_blocks db)); [done|].
  intros _ d id d' Hd. unfold deleteCompletedMember. ok. ok. intros H%removeTombstones_same. destruct H as (_ & _ & _ & _ & ->). done.
Qed.

#[export] Instance blocks_shrink_refl : Reflexive blocks_shrink.
Proof. by intros db k v. Qed.

Lemma trim_shrink checkpoint db db' : trimCanonicalBlocks store checkpoint db = Ok db' -> blocks_shrink db db'.
Proof.
  unfold trimCanonicalBlocks. ok. ok. destruct (_ <=? _); [by intros <-%Ok_inj|].
  destruct (foldM _ _ _) as [d|] eqn:Ef; [|done]. ok. intros <-%Ok_inj. intros k v. cbn [s_blocks set_meta]. revert k v.
  change (blocks_shrink db d). revert Ef. apply (foldM_invariant (fun _ x => blocks_shrink db x)); [done|].
  intros _ x n x' Hx. unfold trimBlock. ok. ok. ok. ok.
  destruct (deleteCompletedBlockCandidates _ _) as [y|] eqn:Ey; [|done]. apply deleteCompleted_blocks in Ey.
  intros <-%Ok_inj k v. cbn [s_blocks set_blocks]. rewrite bl_get_delete. case_decide; [done|]. rewrite Ey. apply Hx.
Qed.

(** The stored blocks from [next] on. *)
Definition blocks_from (next : Z) (db : StoreDB) : list bytes :=
  filter (fun k => next <= be_value k) (map fst (b_entries (s_blocks db))).

Lemma blocks_from_less next db db' data :
  inU 64 next -> b_get (s_blocks db) (blockNumberKey next) = Some data -> blocks_shrink db db' ->
  (length (blocks_from (next + 1) db') < length (blocks_from next db))%nat.
Proof.
  intros Hn Hg Hs. assert (Hkey : be_value (blockNumberKey next) = next).
  { unfold blockNumberKey, encodeUint64, appendUint64. cbn [app]. rewrite be_value_bytes. by rewrite Z.mod_small. }
  cut (length (blockNumberKey next :: blocks_from (next + 1) db') <= length (blocks_from next db))%nat; [cbn [length]; lia|].
  apply submseteq_length, NoDup_submseteq.
  - constructor; [|apply NoDup_filter, b_entries_keys_nodup]. unfold blocks_from. rewrite list_elem_of_filter, Hkey. lia.
  - intros k [->|Hk]%elem_of_cons; unfold blocks_from in *; rewrite list_elem_of_filter in *.
    + split; [lia|]. apply list_elem_of_fmap. exists (blockNumberKey next, data). split; [done|]. by apply bl_entries_get.
    + destruct Hk as [Hle Hk]. split; [lia|]. apply list_elem_of_fmap in Hk as ([k' v] & -> & Hk). apply bl_entries_get in Hk.
      apply Hs in Hk. apply list_elem_of_fmap. exists (k', v). split; [done|]. by apply bl_entries_get.
Qed.

Lemma advanceLoop_total fuel next db :
  inU 64 next -> (length (blocks_from next db) < fuel)%nat -> advanceLoop store fuel next db <> None.
Proof.
  revert next db. induction fuel as [|fuel IH]; intros next db Hn Hf; [lia|]. cbn [advanceLoop].
  destruct (b_get (s_blocks db) _) as [data|] eqn:Eg; [|done].
  destruct (errOr _ _) as [b|]; [|done]. destruct (_ || _); [done|]. destruct (blockComplete _ _ _) as [c|]; [|done].
  destruct (negb c); [done|]. destruct (errOr _ _) as [cp|]; [|done]. destruct (put _ _ _) as [meta|]; [|done].
  destruct (trimCanonicalBlocks _ _ _) as [d|] eqn:Et; [|done]. destruct (_ =? _) eqn:Emax; [done|]. bool_hyps.
  apply IH; [unfold inU in *; lia|].
  pose proof (blocks_from_less next db d data Hn Eg) as H. specialize (H ltac:(intros k v Hk; by apply (trim_shrink _ _ _ Et) in Hk)). lia.
Qed.

Lemma advance_fuel_enough db next : inU 64 next -> exists r, advanceLoop store (advanceFuel db) next db = Some r.
Proof.
  intros Hn. destruct (advanceLoop store (advanceFuel db) next db) as [r|] eqn:E; [by exists r|].
  exfalso. revert E. apply advanceLoop_total; [done|]. unfold advanceFuel, blocks_from.
  pose proof (length_filter (fun k => next <= be_value k) (map fst (b_entries (s_blocks db)))) as H. rewrite length_map in H. lia.
Qed.

End Steps.
End ChainSteps.
Export ChainSteps.
