(* ===== verification/ChainCommit.v ===== *)
(** * The checkpoint advances, and a committed block extends the chain

    One round of [advanceCheckpoint] moves the checkpoint to the next complete
    block and trims the block that falls out of the retained span; the loop ends
    with the checkpoint as far as it can be ([ChainAdvance]).  [commitNew] appends
    a block to the chain (or starts it), stages its candidates within the journal's
    capacity and advances the checkpoint ([ChainCommit]). *)

From S2P Require Import Prelude GoTime Bytes Sha256 Domain Bolt StoreModel StoreLease StoreCodec StoreQueue StoreCanonical StoreCandidates QueueInv QueueSteps ChainSteps.

Module ChainAdvance.

Section Advance.
Context `{BL : BoltLaws} (store : BoltStore).

Lemma block_at_get db n b :
  block_at store db n = Some b ->
  exists data, b_get (s_blocks db) (blockNumberKey n) = Some data /\ decodeBlock data (store_journalCapacity store) = Ok b.
Proof.
  unfold block_at. destruct (b_get (s_blocks db) (blockNumberKey n)) as [data|]; [|done]. cbn.
  destruct (decodeBlock data _) as [b'|] eqn:E; [|done]. intros [= <-]. by exists data.
Qed.

Lemma block_at_typed db n b : block_at store db n = Some b -> checkpoint_typed (Block_Checkpoint b).
Proof. intros (data & _ & H%decodeBlock_typed)%block_at_get. by destruct H. Qed.

(** Blocks share no members. *)
Lemma members_apart db base cursor chk n n' b b' m :
  ChainCore store db base cursor chk -> inU 64 n -> inU 64 n' -> block_at store db n = Some b -> block_at store db n' = Some b' ->
  m ∈ Block_Members b -> m ∈ Block_Members b' -> n = n'.
Proof.
  intros Hc Hn Hn' Hb Hb' Hm Hm'. assert (Hi : CoreInv store db) by (right; eauto).
  destruct (member_record store db n b m Hi Hn Hb Hm) as (H1 & [(r & Hr & _ & H2 & _)]).
  destruct (member_record store db n' b' m Hi Hn' Hb' Hm') as (H3 & [(r' & Hr' & _ & H4 & _)]). congruence.
Qed.

(** The chain after the checkpoint moved to [b] and the baseline to [base']. *)
Lemma core_move db db' base base' cursor chk b :
  ChainCore store db base cursor chk -> block_at store db (confirmed base chk + 1) = Some b -> complete db b ->
  confirmed base chk < CP_BlockNumber cursor -> base <= base' <= confirmed base chk + 1 ->
  confirmed base chk + 1 - base' + 1 <= canonicalBlockLimit ->
  b_get (s_meta db') baselineKey = Some (encodeUint64 base') ->
  b_get (s_meta db') scanCursorKey = b_get (s_meta db) scanCursorKey ->
  (exists data, b_get (s_meta db') checkpointKey = Some data /\ decodeCheckpoint data = Ok (Block_Checkpoint b)) ->
  (forall n, base' <= n <= CP_BlockNumber cursor -> b_get (s_blocks db') (blockNumberKey n) = b_get (s_blocks db) (blockNumberKey n)) ->
  (forall k v, b_get (s_blocks db') k = Some v -> b_get (s_blocks db) k = Some v /\ forall n, base <= n < base' -> k <> blockNumberKey n) ->
  (forall n a m, base' <= n <= CP_BlockNumber cursor -> block_at store db n = Some a -> m ∈ Block_Members a -> rec_at db' m = rec_at db m) ->
  ChainCore store db' base' cursor (Some (Block_Checkpoint b)).
Proof.
  intros H Hb Hcomp Hlt Hbase Hlim Hmb Hmc Hmk Hsame Hkeys Hrec. set (next := confirmed base chk + 1) in *.
  pose proof (cc_range _ _ _ _ _ H) as Hrange. pose proof (confirmed_low _ _ _ _ _ H) as Hlow.
  assert (Hat : forall n, base' <= n <= CP_BlockNumber cursor -> block_at store db' n = block_at store db n).
  { intros n Hn. unfold block_at. by rewrite Hsame. }
  assert (Hnum : CP_BlockNumber (Block_Checkpoint b) = next).
  { destruct (cc_block _ _ _ _ _ H next ltac:(unfold next; lia)) as (x & Hx & []). congruence. }
  assert (Hcomplete : forall n a, base' <= n <= next -> block_at store db n = Some a -> complete db' a).
  { intros n a Hn Ha. cut (complete db a).
    { unfold complete. rewrite !Forall_forall. intros Hall m Hm. rewrite (Hrec n a) by (done || lia). auto. }
    destruct (decide (n = next)) as [->|]; [congruence|]. apply (cc_complete _ _ _ _ _ H n); [unfold next in *; lia|done]. }
  constructor; cbn [confirmed]; rewrite ?Hnum.
  - done.
  - rewrite Hmc. apply (cc_cursor _ _ _ _ _ H).
  - split; [done|]. split; [lia|]. intros a. rewrite Hat by lia. congruence.
  - lia.
  - intros k v Hk. destruct (Hkeys k v Hk) as [Hk' Hno]. destruct (cc_keys _ _ _ _ _ H k v Hk') as (n & Hn & ->).
    exists n. split; [|done]. destruct (decide (base' <= n)); [lia|]. exfalso. apply (Hno n); [lia|done].
  - intros n Hn. rewrite Hat by done. destruct (cc_block _ _ _ _ _ H n ltac:(lia)) as (a & Ha & [H1 H2 H3]).
    exists a. split; [done|]. constructor; try done. rewrite Forall_forall in *. intros m Hm. destruct (H3 m Hm) as [Hr].
    constructor. by rewrite (Hrec n a).
  - intros n x y Hn. rewrite !Hat by lia. apply (cc_link _ _ _ _ _ H). lia.
  - intros x. rewrite Hat by lia. apply (cc_tip _ _ _ _ _ H).
  - lia.
  - intros n a Hn. rewrite Hat by lia. by apply Hcomplete.
  - pose proof (cc_span _ _ _ _ _ H). unfold next. lia.
Qed.

(** ** Trimming *)

Lemma trimBlock_step db n db' b :
  QOK store db -> block_at store db n = Some b -> trimBlock store db n = Ok db' ->
  QStep store nobody everybody 0 db db' /\ s_meta db' = s_meta db /\
  (forall k, b_get (s_blocks db') k = if decide (blockNumberKey n = k) then None else b_get (s_blocks db) k) /\
  (forall i, i ∉ Block_Members b -> rec_at db' i = rec_at db i).
Proof.
  intros Hok (data & Hg & Hd)%block_at_get. unfold trimBlock, getNil. rewrite Hg. cbn [default]. unfold id. rewrite Hd. cbn [errOr].
  ok. ok. ok. destruct (deleteCompletedBlockCandidates b db) as [d|] eqn:Ed; [|done]. intros <-%Ok_inj.
  destruct (deleteCompleted_step store b db d Hok Ed) as (Hq & Hm & Hb & Hat). split; [|split; [done|split]].
  - apply (qstep_trans _ _ _ 0 0 _ d); [by eapply qstep_weaken; [| |exact Hq]|]. apply qstep_same; try done. by eapply qstep_ok.
  - intros k. cbn [s_blocks set_blocks]. rewrite bl_get_delete, Hb. done.
  - intros i Hi. by rewrite <- (Hat i Hi).
Qed.

(** ** One round *)

Lemma round_core db base cursor chk b data meta db' :
  QOK store db -> ChainCore store db base cursor chk -> block_at store db (confirmed base chk + 1) = Some b -> complete db b ->
  confirmed base chk < CP_BlockNumber cursor ->
  encodeCheckpoint (Block_Checkpoint b) = Ok data -> b_put (s_meta db) checkpointKey data = Some meta ->
  trimCanonicalBlocks store (confirmed base chk + 1) (set_meta db meta) = Ok db' ->
  QStep store nobody everybody 0 db db' /\ exists base', base <= base' /\ ChainCore store db' base' cursor (Some (Block_Checkpoint b)).
Proof.
  intros Hok Hc Hb Hcomp Hlt He Hp. set (next := confirmed base chk + 1) in *.
  pose proof (cc_range _ _ _ _ _ Hc) as Hrange. pose proof (confirmed_low _ _ _ _ _ Hc) as Hlow.
  pose proof (cc_confirmed _ _ _ _ _ Hc) as Hconf.
  assert (Hdec : decodeCheckpoint data = Ok (Block_Checkpoint b)) by (eapply decode_encodeCheckpoint; [by eapply block_at_typed|done]).
  assert (Hq0 : QStep store nobody everybody 0 db (set_meta db meta)) by by apply qstep_same.
  assert (Hmeta : forall k, k <> checkpointKey -> b_get meta k = b_get (s_meta db) k).
  { intros k Hk. by rewrite (b_get_put_ne _ _ _ _ k (not_eq_sym Hk) Hp). }
  unfold trimCanonicalBlocks, getNil. cbn [s_meta set_meta]. rewrite Hmeta, (cc_base _ _ _ _ _ Hc) by done. cbn [default]. unfold id.
  rewrite decode_encodeUint64 by (unfold inU; lia). cbn beta iota. ok Elow.
  unfold canonicalBlockLimit in *. unfold uint64_wrap. rewrite (Z.mod_small (next - base + 1)) by (unfold next; lia).
  destruct (_ <=? 256) eqn:Elim; bool_hyps.
  - intros <-%Ok_inj. split; [done|]. exists base. split; [lia|]. apply (core_move db _ base base cursor chk b); try done.
    + cbn [s_meta set_meta]. rewrite Hmeta by done. apply (cc_base _ _ _ _ _ Hc).
    + cbn [s_meta set_meta]. by rewrite Hmeta.
    + exists data. split; [|done]. cbn [s_meta set_meta]. by eapply b_get_put_eq.
    + intros k v Hk. split; [done|]. intros n Hn. lia.
  - assert (Hnext : next = base + 256) by (unfold next in *; lia). rewrite Z.mod_small by lia.
    replace (next - 256 + 1 - base) with 1 by lia. change (seqZ base 1) with [Z.of_nat 0 + base]. rewrite Z.add_0_l. cbn [foldM].
    destruct (trimBlock store (set_meta db meta) base) as [d|] eqn:Et; [|done].
    destruct (put (s_meta d) baselineKey _) as [meta'|] eqn:Ep; [|done]. apply store_put_inv in Ep. intros <-%Ok_inj.
    replace (next - 256 + 1) with (base + 1) in Ep by lia.
    destruct (cc_block _ _ _ _ _ Hc base ltac:(lia)) as (a & Ha & _).
    destruct (trimBlock_step _ base d a (qstep_ok _ _ _ _ _ _ Hq0) Ha Et) as (Hq & Hm & Hbl & Hat).
    split.
    { apply (qstep_trans _ _ _ 0 0 _ (set_meta db meta)); [done|]. apply (qstep_trans _ _ _ 0 0 _ d); [done|].
      apply qstep_same; try done. by eapply qstep_ok. }
    assert (Hmeta' : forall k, k <> baselineKey -> b_get meta' k = b_get meta k).
    { intros k Hk. rewrite (b_get_put_ne _ _ _ _ k (not_eq_sym Hk) Ep). by rewrite Hm. }
    exists (base + 1). split; [lia|]. apply (core_move db _ base (base + 1) cursor chk b); try done.
    + fold next. lia.
    + unfold canonicalBlockLimit. fold next. lia.
    + cbn [s_meta set_meta]. by eapply b_get_put_eq.
    + cbn [s_meta set_meta]. rewrite Hmeta', Hmeta; done.
    + exists data. split; [|done]. cbn [s_meta set_meta]. rewrite Hmeta' by done. by eapply b_get_put_eq.
    + intros n Hn. cbn [s_blocks set_meta]. rewrite Hbl. case_decide as Ek; [|done].
      apply blockNumberKey_inj in Ek; unfold inU; lia.
    + intros k v. cbn [s_blocks set_meta]. rewrite Hbl. case_decide as Ek; [done|]. intros Hk. split; [done|].
      intros n Hn ->. apply Ek. f_equal. lia.
    + intros n x m Hn Hx Hm'. change (rec_at d m = rec_at db m). apply Hat. intros Hma.
      assert (n = base); [|lia]. apply (members_apart db base cursor chk n base x a m); try done; unfold inU; lia.
Qed.

(** What an advance did to the chain. *)
Record advanced (db : StoreDB) (base : Z) (cursor : Checkpoint) (chk : option Checkpoint) (db' : StoreDB) (base' : Z) (chk' : option Checkpoint)
    : Prop := {
  ad_step : QStep store nobody everybody 0 db db';
  ad_core : ChainCore store db' base' cursor chk';
  ad_maximal : maximal store db' base' cursor chk';
  ad_base : base <= base';
  ad_confirmed : confirmed base chk <= confirmed base' chk' }.

Lemma advanceLoop_step fuel db base cursor chk db' :
  QOK store db -> ChainCore store db base cursor chk ->
  advanceLoop store fuel (confirmed base chk + 1) db = Some (Ok db') -> exists base' chk', advanced db base cursor chk db' base' chk'.
Proof.
  revert db base chk. induction fuel as [|fuel IH]; intros db base chk Hok Hc; cbn [advanceLoop]; [done|].
  pose proof (cc_range _ _ _ _ _ Hc) as Hrange. pose proof (confirmed_low _ _ _ _ _ Hc) as Hlow. pose proof (cc_confirmed _ _ _ _ _ Hc) as Hconf.
  destruct (b_get (s_blocks db) _) as [data|] eqn:Eg.
  2:{ intros [= <-]. exists base, chk. constructor; try done; [by apply qstep_refl|].
      intros Hlt b Hb. unfold block_at in Hb. by rewrite Eg in Hb. }
  assert (Hlt : confirmed base chk < CP_BlockNumber cursor).
  { destruct (decide (confirmed base chk < CP_BlockNumber cursor)) as [|Hge]; [done|]. exfalso.
    destruct (cc_keys _ _ _ _ _ Hc _ _ Eg) as (n & Hn & Hk). destruct (decide (CP_BlockNumber cursor = 2 ^ 64 - 1)) as [Ec|].
    - assert (Hz : blockNumberKey (confirmed base chk + 1) = blockNumberKey 0) by (replace (confirmed base chk + 1) with (2 ^ 64) by lia; vm_compute; reflexivity).
      rewrite Hz in Hk. apply blockNumberKey_inj in Hk; unfold inU in *; [|lia|lia]. subst n.
      assert (confirmed base chk - base + 1 <= canonicalBlockLimit) by lia. unfold canonicalBlockLimit in *. lia.
    - apply blockNumberKey_inj in Hk; unfold inU; lia. }
  assert (Hb : exists b, block_at store db (confirmed base chk + 1) = Some b /\ block_ok store db (confirmed base chk + 1) b)
    by (apply (cc_block _ _ _ _ _ Hc); lia).
  destruct Hb as (b & Hb & [_ Hnum _]). pose proof Hb as Hb'. apply block_at_get in Hb' as (data' & Eg' & Ed).
  rewrite Eg in Eg'. injection Eg' as <-. rewrite Ed. cbn [errOr].
  destruct (_ || _); [done|]. destruct (blockComplete store db b) as [c|] eqn:Ecomp; [|done].
  apply (blockComplete_spec _ _ _ _ (proj1 Hok)) in Ecomp. destruct c; cbn [negb].
  - destruct (encodeCheckpoint (Block_Checkpoint b)) as [cd|] eqn:Ee; [|done]. cbn [errOr].
    destruct (put (s_meta db) checkpointKey cd) as [meta|] eqn:Ep; [|done]. apply store_put_inv in Ep.
    destruct (trimCanonicalBlocks _ _ _) as [d|] eqn:Et; [|done].
    destruct (round_core db base cursor chk b cd meta d Hok Hc Hb Ecomp Hlt Ee Ep Et) as (Hq & base1 & Hbase1 & Hc1).
    destruct (_ =? 2 ^ 64 - 1) eqn:Emax; bool_hyps.
    + intros [= <-]. exists base1, (Some (Block_Checkpoint b)). constructor; try done; cbn [confirmed].
      * unfold maximal. cbn [confirmed]. lia.
      * lia.
    + intros Hrest. assert (Hn1 : confirmed base1 (Some (Block_Checkpoint b)) + 1 = confirmed base chk + 1 + 1) by (cbn [confirmed]; lia).
      rewrite <- Hn1 in Hrest. destruct (IH d base1 (Some (Block_Checkpoint b)) (qstep_ok _ _ _ _ _ _ Hq) Hc1 Hrest) as (base2 & chk2 & []).
      exists base2, chk2. constructor; try done; [by apply (qstep_trans _ _ _ 0 0 _ d)|lia|]. cbn [confirmed] in *. lia.
  - intros [= <-]. exists base, chk. constructor; try done; [by apply qstep_refl|]. intros _ b'. rewrite Hb. by intros [= <-].
Qed.

(** The first block the loop looks at. *)
Lemma advanceFrom_core db base cursor chk from :
  ChainCore store db base cursor chk -> advanceFrom store db = Ok from -> from = Some (confirmed base chk + 1).
Proof.
  intros Hc. pose proof (cc_range _ _ _ _ _ Hc). unfold advanceFrom. rewrite (cc_base _ _ _ _ _ Hc), decode_encodeUint64 by (unfold inU; lia).
  pose proof (cc_chk _ _ _ _ _ Hc) as Hchk. destruct chk as [c|]; cbn [confirmed].
  - destruct Hchk as ((data & -> & ->) & _). cbn [errOr]. ok. by intros [= <-].
  - rewrite Hchk. intros [= <-]. f_equal. lia.
Qed.

Lemma advanceCheckpoint_core db base cursor chk db' :
  QOK store db -> ChainCore store db base cursor chk -> advanceCheckpoint store db = Ok db' ->
  exists base' chk', advanced db base cursor chk db' base' chk'.
Proof.
  intros Hok Hc. unfold advanceCheckpoint. destruct (advanceFrom store db) as [from|] eqn:Ef; [|done].
  rewrite (advanceFrom_core _ _ _ _ _ Hc Ef).
  destruct (advanceLoop store (advanceFuel db) (confirmed base chk + 1) db) as [r|] eqn:El; cbn [default]. unfold id.
  - intros ->. by eapply advanceLoop_step.
  - exfalso. revert El. pose proof (cc_range _ _ _ _ _ Hc). pose proof (confirmed_low _ _ _ _ _ Hc). pose proof (cc_confirmed _ _ _ _ _ Hc).
    destruct (decide (confirmed base chk + 1 < 2 ^ 64)).
    + destruct (advance_fuel_enough store db (confirmed base chk + 1)) as [r ->]; [unfold inU; lia|done].
    + unfold advanceFuel. cbn [advanceLoop]. destruct (b_get _ _); [|done].
      exfalso. revert Ef. unfold advanceFrom. rewrite (cc_base _ _ _ _ _ Hc), decode_encodeUint64 by (unfold inU; lia).
      pose proof (cc_chk _ _ _ _ _ Hc) as Hchk. destruct chk as [c|]; cbn [confirmed] in *; [|lia].
      destruct Hchk as ((data & -> & ->) & _). cbn [errOr]. ok Ex. bool_hyps. lia.
Qed.

Lemma advanceCheckpoint_none db db' : NoChain db -> advanceCheckpoint store db = Ok db' -> db' = db.
Proof. intros (H & _). unfold advanceCheckpoint, advanceFrom. rewrite H. by intros [= <-]. Qed.

End Advance.
End ChainAdvance.
Export ChainAdvance.

Module ChainCommit.

(** What Go's types guarantee of a block, and that the scanner puts no
    fast-path observation into it. *)
Record block_input (block : CanonicalBlock) : Prop := {
  bi_checkpoint : checkpoint_typed (CB_Checkpoint block);
  bi_parent : isHash (CB_ParentHash block);
  bi_candidates : Forall (fun c => input_typed c /\ Candidate_Kind c <> CandidateFastToken) (CB_Candidates block) }.

Section Commit.
Context `{BL : BoltLaws} (store : BoltStore).

(** Where the chain went. *)
Definition forward (db db' : StoreDB) : Prop :=
  ChainInv store db' /\
  forall base cursor chk, ChainCore store db base cursor chk ->
    exists base' cursor' chk', ChainCore store db' base' cursor' chk' /\
      base <= base' /\ CP_BlockNumber cursor <= CP_BlockNumber cursor' /\ confirmed base chk <= confirmed base' chk'.

Lemma forward_refl db : ChainInv store db -> forward db db.
Proof. intros H. split; [done|]. intros base cursor chk Hc. exists base, cursor, chk. split; [done|lia]. Qed.

(** A step of the queue after which the checkpoint was advanced. *)
Lemma advance_forward ack forget g db mid db' :
  CoreInv store db -> chain_same db mid -> QStep store ack forget g db mid -> (forall id, forget id -> outsider store db id) ->
  advanceCheckpoint store mid = Ok db' -> QStep store nobody everybody 0 mid db' /\ forward db db'.
Proof.
  intros Hi Hsame Hq Hf Ha. pose proof (qstep_ok _ _ _ _ _ _ Hq) as Hok. destruct Hi as [Hn|(base & cursor & chk & Hc)].
  - pose proof (nochain_same _ _ Hn Hsame) as Hn'. apply advanceCheckpoint_none in Ha as ->; [|done].
    split; [by apply qstep_refl|]. split; [by left|]. intros base cursor chk Hc. destruct Hn as (Hb & _). pose proof (cc_base _ _ _ _ _ Hc). congruence.
  - assert (Hc' : ChainCore store mid base cursor chk) by by eapply core_qstep.
    destruct (advanceCheckpoint_core _ _ _ _ _ _ Hok Hc' Ha) as (base' & chk' & []). split; [done|]. split; [right; eauto|].
    intros b0 c0 k0 Hc0.
    assert (b0 = base /\ c0 = cursor /\ k0 = chk) as (-> & -> & ->) by by apply (core_unique store db).
    exists base', cursor, chk'. split; [done|lia].
Qed.

Lemma promote_forward now db db' :
  0 <= store_maxPending store -> QOK store db -> ChainInv store db -> promoteCandidates store now db = Ok db' ->
  QStep store nobody nobody 0 db db' /\ forward db db'.
Proof.
  intros Hm Hok Hi Hp. destruct (promoteCandidates_step store now db db' Hm Hok Hp) as (Hq & Hf & _). apply promote_chain_same in Hf.
  split; [done|]. split; [by eapply chain_qstep|]. intros base cursor chk Hc. exists base, cursor, chk. split; [|lia].
  eapply core_qstep; [done..|]. by intros id [].
Qed.

(** ** Appending a block *)

Lemma stored_block db n data b :
  b_get (s_blocks db) (blockNumberKey n) = Some data -> decodeBlock data (store_journalCapacity store) = Ok b ->
  block_at store db n = Some b.
Proof. intros Hg Hd. unfold block_at. rewrite Hg. cbn. by rewrite Hd. Qed.

Lemma block_ok_same db db' n b : s_candidates db' = s_candidates db -> block_ok store db n b -> block_ok store db' n b.
Proof.
  intros E [H1 H2 H3]. constructor; try done. rewrite Forall_forall in *. intros m Hm. destruct (H3 m Hm) as [Hr].
  constructor. by rewrite (rec_at_same db db').
Qed.

Section Append.
Variables (db : StoreDB) (b : blockRecord) (data cdata : bytes) (blocks : bucket).
Let cp := Block_Checkpoint b.
Let number := CP_BlockNumber cp.
Hypothesis (Hnumber : inU 64 number) (Hblock : decodeBlock data (store_journalCapacity store) = Ok b)
  (Hcp : decodeCheckpoint cdata = Ok cp) (Hok : block_ok store db number b)
  (Hblocks : b_put (s_blocks db) (blockNumberKey number) data = Some blocks).

Lemma appended_at n : inU 64 n -> block_at store (set_blocks db blocks) n = if decide (n = number) then Some b else block_at store db n.
Proof.
  intros Hn. unfold block_at. cbn [s_blocks set_blocks]. rewrite (bl_get_put _ _ _ _ _ Hblocks).
  destruct (decide (n = number)) as [->|Hne]; [rewrite decide_True by done; cbn; by rewrite Hblock|].
  rewrite decide_False; [done|]. intros E. apply Hne. symmetry. by apply blockNumberKey_inj.
Qed.

Lemma core_append base cursor chk meta :
  ChainCore store db base cursor chk -> number = CP_BlockNumber cursor + 1 -> Block_ParentHash b = CP_BlockHash cursor ->
  number - confirmed base chk <= unconfirmedBlockLimit -> b_put (s_meta db) scanCursorKey cdata = Some meta ->
  ChainCore store (set_meta (set_blocks db blocks) meta) base cp chk.
Proof.
  intros H Hnum Hpar Hspan Hmeta. pose proof (cc_range _ _ _ _ _ H) as Hrange. pose proof (cc_confirmed _ _ _ _ _ H) as Hconf.
  assert (Hat : forall n, inU 64 n -> block_at store (set_meta (set_blocks db blocks) meta) n = if decide (n = number) then Some b else block_at store db n)
    by exact appended_at.
  assert (Hold : forall n, base <= n <= CP_BlockNumber cursor -> block_at store (set_meta (set_blocks db blocks) meta) n = block_at store db n).
  { intros n Hn. rewrite Hat by (unfold inU in *; lia). rewrite decide_False; [done|lia]. }
  assert (Hnew : block_at store (set_meta (set_blocks db blocks) meta) number = Some b) by (rewrite Hat, decide_True; done).
  constructor; fold number; cbn [s_meta set_meta].
  - rewrite (b_get_put_ne _ _ scanCursorKey _ baselineKey ltac:(done) Hmeta). apply (cc_base _ _ _ _ _ H).
  - exists cdata. split; [by eapply b_get_put_eq|done].
  - rewrite (b_get_put_ne _ _ scanCursorKey _ checkpointKey ltac:(done) Hmeta). pose proof (cc_chk _ _ _ _ _ H) as Hchk. destruct chk as [c|]; [|done].
    cbn [confirmed] in Hconf. destruct Hchk as (? & ? & Ht). split; [done|]. split; [done|]. intros x. rewrite Hold by lia. apply Ht.
  - unfold inU in *. lia.
  - intros k v. cbn [s_blocks set_meta set_blocks]. rewrite (bl_get_put _ _ _ _ _ Hblocks). case_decide as Ek.
    + intros _. exists number. split; [unfold inU in *; lia|exact (eq_sym Ek)].
    + intros Hk. destruct (cc_keys _ _ _ _ _ H k v Hk) as (n & Hn & ->). exists n. split; [lia|done].
  - intros n Hn. destruct (decide (n = number)) as [->|Hne].
    + exists b. split; [done|]. by apply (block_ok_same db).
    + rewrite Hold by lia. destruct (cc_block _ _ _ _ _ H n ltac:(lia)) as (x & Hx & Hxok). exists x. split; [done|]. by apply (block_ok_same db).
  - intros n x y Hn. rewrite Hold by lia. intros Hx. destruct (decide (n + 1 = number)) as [E|Hne].
    + rewrite E, Hnew. intros [= <-]. rewrite Hpar. replace n with (CP_BlockNumber cursor) in Hx by lia.
      by rewrite (cc_tip _ _ _ _ _ H x Hx).
    + rewrite Hold by lia. apply (cc_link _ _ _ _ _ H); [lia|done].
  - intros x. rewrite Hnew. by intros [= <-].
  - lia.
  - intros n x Hn. rewrite Hold by lia. apply (cc_complete _ _ _ _ _ H). done.
  - done.
Qed.

Lemma core_start meta meta' :
  NoChain db -> b_put (s_meta db) baselineKey (blockNumberKey number) = Some meta -> b_put meta scanCursorKey cdata = Some meta' ->
  ChainCore store (set_meta (set_blocks db blocks) meta') number cp None.
Proof.
  intros (H1 & H2 & H3 & H4) Hm Hm'.
  assert (Hnew : block_at store (set_meta (set_blocks db blocks) meta') number = Some b).
  { transitivity (block_at store (set_blocks db blocks) number); [done|]. rewrite appended_at, decide_True; done. }
  constructor; fold number; cbn [confirmed s_meta set_meta]; fold number.
  - rewrite (b_get_put_ne _ _ scanCursorKey _ baselineKey ltac:(done) Hm'). by eapply b_get_put_eq.
  - exists cdata. split; [by eapply b_get_put_eq|done].
  - rewrite (b_get_put_ne _ _ scanCursorKey _ checkpointKey ltac:(done) Hm'), (b_get_put_ne _ _ baselineKey _ checkpointKey ltac:(done) Hm). done.
  - unfold inU in *. lia.
  - intros k v. cbn [s_blocks set_meta set_blocks]. rewrite (bl_get_put _ _ _ _ _ Hblocks). case_decide as Ek.
    + intros _. exists number. split; [lia|exact (eq_sym Ek)].
    + by rewrite H4.
  - intros n Hn. replace n with number by lia. exists b. split; [done|]. by apply (block_ok_same db).
  - intros n x y Hn. lia.
  - intros x. rewrite Hnew. by intros [= <-].
  - unfold canonicalBlockLimit. lia.
  - intros n x Hn. lia.
  - unfold unconfirmedBlockLimit. lia.
Qed.

End Append.

(** ** The transaction of a new block *)

Lemma validateCanonicalBlock_inv block :
  validateCanonicalBlock store block = Ok tt ->
  CP_Network (CB_Checkpoint block) = store_network store /\
  Forall (fun c => matchesCandidate store c = true /\ Candidate_BlockNumber c = CP_BlockNumber (CB_Checkpoint block) /\
                   Candidate_BlockHash c = CP_BlockHash (CB_Checkpoint block) /\ isHash (Candidate_ID c)) (CB_Candidates block).
Proof.
  unfold validateCanonicalBlock. ok E. bool_hyps. intros Hall. split; [done|]. revert Hall.
  apply (foldM_invariant (fun past _ => Forall _ past)); [constructor|]. intros past u c u' Hpast. ok Ec. intros _.
  apply Forall_app. split; [done|]. constructor; [|constructor]. bool_hyps. destruct (validateInputCandidate store c) as [[]|] eqn:Ev in *; [|done].
  apply validateInput_inv in Ev as [Hc Hm]. apply validateCandidate_inv in Hc as [_ Hc%ValidateCandidate_ok].
  rewrite bytes_eqb_spec in *. repeat split; try done. destruct Hc as (_ & _ & -> & _). apply candidateID_length.
Qed.

Lemma checkCursor_inv db block has :
  CoreInv store db -> checkCursor store db block = Ok has ->
  if has then exists base cursor chk, ChainCore store db base cursor chk /\
    CP_BlockNumber (CB_Checkpoint block) = CP_BlockNumber cursor + 1 /\ CB_ParentHash block = CP_BlockHash cursor
  else NoChain db.
Proof.
  unfold checkCursor. intros [Hn|(base & cursor & chk & Hc)].
  - pose proof Hn as (_ & -> & _). ok. by intros [= <-].
  - destruct (cc_cursor _ _ _ _ _ Hc) as (data & -> & ->). cbn [errOr]. ok. ok. bool_hyps. rewrite bytes_eqb_spec in *. intros [= <-]. by exists base, cursor, chk.
Qed.

Lemma reserveUnconfirmed_inv db base cursor chk number :
  ChainCore store db base cursor chk -> number = CP_BlockNumber cursor + 1 -> reserveUnconfirmedBlock store db number = Ok tt ->
  number - confirmed base chk <= unconfirmedBlockLimit.
Proof.
  intros Hc Hn. pose proof (cc_range _ _ _ _ _ Hc). pose proof (cc_confirmed _ _ _ _ _ Hc). unfold reserveUnconfirmedBlock.
  destruct (cc_cursor _ _ _ _ _ Hc) as (data & -> & _). pose proof (cc_chk _ _ _ _ _ Hc) as Hchk.
  destruct chk as [c|]; cbn [confirmed] in *.
  - destruct Hchk as ((cd & -> & ->) & _). cbn [errOr]. ok. ok. intros _. bool_hyps. done.
  - rewrite Hchk. unfold getNil. rewrite (cc_base _ _ _ _ _ Hc). cbn [default]. unfold id. rewrite decode_encodeUint64 by (unfold inU; lia).
    ok. ok Ex. intros _. bool_hyps. unfold canonicalBlockLimit, unconfirmedBlockLimit, uint64_wrap in *.
    pose proof (cc_span _ _ _ _ _ Hc) as Hs. cbn [confirmed] in Hs. unfold unconfirmedBlockLimit in Hs. rewrite Z.mod_small in Ex; lia.
Qed.

(** The candidates of the block are staged within the journal's capacity. *)
Lemma commit_stage block db db1 additional db2 db3 members :
  QOK store db -> block_input block -> validateCanonicalBlock store block = Ok tt -> sortedMemberIDs (CB_Candidates block) = Ok members ->
  reconcileBlockObservations (CP_BlockNumber (CB_Checkpoint block)) members db = Ok db1 ->
  additionalJournalEntries store db1 (CB_Candidates block) = Ok additional -> reserveJournal store db1 additional = Ok tt ->
  confirmDiscoveredTokens store (CB_Candidates block) db1 = Ok db2 -> foldM (stageCandidate store) (CB_Candidates block) db2 = Ok db3 ->
  QStep store nobody nobody (Z.max 0 (store_journalCapacity store - counted isUnfinished db)) db db3 /\ chain_same db db3 /\
  Forall (member_ok db3 (CB_Checkpoint block)) members.
Proof.
  intros Hok [_ _ Hty] Hv Hms Hr Ha Hj Hd Hst. destruct (validateCanonicalBlock_inv _ Hv) as [_ Hblock].
  destruct (reconcile_step store _ _ _ _ Hok Hr) as (Hq1 & Hc1 & _). apply reserveJournal_ok in Hj.
  apply (additional_ok store _ _ _ (qs_records _ _ _ _ _ _ Hq1)) in Ha as ->.
  pose proof (confirmDiscovered_frame _ _ _ _ Hd) as Hf. destruct (confirm_qstep store _ _ (qstep_ok _ _ _ _ _ _ Hq1) Hf) as [Hq2 Hc2].
  destruct (sortedMemberIDs_spec _ _ Hms) as (Hperm & _ & Hnd). rewrite Hperm in Hnd.
  destruct (stageAll_step store (CB_Candidates block) db2 db3 (qstep_ok _ _ _ _ _ _ Hq2) Hnd) as (Hq3 & Hc3 & _ & _ & Hconf); [|done|].
  { rewrite Forall_forall in *. intros c Hin. destruct (Hty c Hin), (Hblock c Hin). done. }
  assert (Hneeds : needs db2 (CB_Candidates block) = needs db1 (CB_Candidates block)).
  { apply sumZ_ext. intros c _. unfold need. by rewrite (rec_at_same db1 db2) by apply Hf. }
  split; [|split; [by do 2 (etransitivity; [eassumption|])|]].
  - pose proof (qstep_trans _ _ _ _ _ _ _ _ (qstep_trans _ _ _ _ _ _ _ _ Hq1 Hq2) Hq3) as Hq. pose proof (qs_journal _ _ _ _ _ _ Hq3) as Hgrow.
    destruct Hq. constructor; try done. rewrite (counted_same _ db1 db2) in Hgrow by apply Hf. lia.
  - apply Forall_forall. intros m Hm. assert (Hm' : m ∈ map Candidate_ID (CB_Candidates block)) by by rewrite <- Hperm.
    apply list_elem_of_fmap in Hm' as (c & -> & Hin). rewrite !Forall_forall in *. destruct (Hty c Hin) as [_ Hkind].
    destruct (Hblock c Hin) as (_ & Hnum & Hhash & _). destruct (Hconf c Hin) as (r & Hr' & Hp & (H1 & H2 & H3)%sameIdentity_block).
    constructor. exists r. repeat split; try done; congruence.
Qed.

(** The meta entries of a new block: its cursor, and the baseline of the first. *)
Definition appended (has : bool) (db : StoreDB) (b : blockRecord) (cdata : bytes) (blocks : bucket) (e : StoreDB) : Prop :=
  if has then exists meta, b_put (s_meta db) scanCursorKey cdata = Some meta /\ e = set_meta (set_blocks db blocks) meta
  else exists meta meta', b_put (s_meta db) baselineKey (blockNumberKey (CP_BlockNumber (Block_Checkpoint b))) = Some meta /\
    b_put meta scanCursorKey cdata = Some meta' /\ e = set_meta (set_blocks db blocks) meta'.

Lemma appended_same has db b cdata blocks e :
  QOK store db -> appended has db b cdata blocks e -> QStep store nobody nobody 0 db e.
Proof.
  intros Hok. unfold appended. destruct has; [intros (m & _ & ->)|intros (m & m' & _ & _ & ->)]; by apply qstep_same.
Qed.

(** The chain with the block appended; the cursor is the block. *)
Lemma appended_core has db0 db1 db b data cdata blocks e block :
  CoreInv store db0 -> checkCursor store db0 block = Ok has -> reserveUnconfirmedBlock store db1 (CP_BlockNumber (CB_Checkpoint block)) = Ok tt ->
  QStep store nobody nobody 0 db0 db1 -> chain_same db0 db1 -> (exists g, QStep store nobody nobody g db0 db) -> chain_same db0 db ->
  Block_Checkpoint b = CB_Checkpoint block -> Block_ParentHash b = CB_ParentHash block -> inU 64 (CP_BlockNumber (CB_Checkpoint block)) ->
  decodeBlock data (store_journalCapacity store) = Ok b -> decodeCheckpoint cdata = Ok (CB_Checkpoint block) ->
  block_ok store db (CP_BlockNumber (CB_Checkpoint block)) b ->
  b_put (s_blocks db) (blockNumberKey (CP_BlockNumber (CB_Checkpoint block))) data = Some blocks -> appended has db b cdata blocks e ->
  CoreInv store e /\ forall base cursor chk, ChainCore store db0 base cursor chk ->
    exists cursor', ChainCore store e base cursor' chk /\ CP_BlockNumber cursor <= CP_BlockNumber cursor'.
Proof.
  intros Hi Ecur Eu Hq1 Hs1 [g Hq] Hs Ecp Epar Hn Hbd Hcd Hbok Ep Ha. pose proof (checkCursor_inv _ _ _ Hi Ecur) as Hcur.
  rewrite <- Ecp in *. destruct has.
  - destruct Ha as (meta & Hm & ->). destruct Hcur as (base & cursor & chk & Hc & Hnum & Hph).
    assert (Hkeep : forall g' d, QStep store nobody nobody g' db0 d -> chain_same db0 d -> ChainCore store d base cursor chk)
      by (intros g' d Hqd Hsd; eapply core_qstep; [done..|by intros id []]).
    pose proof (reserveUnconfirmed_inv _ _ _ _ _ (Hkeep _ _ Hq1 Hs1) Hnum Eu) as Hspan. rewrite <- Epar in Hph.
    pose proof (core_append db b data cdata blocks Hn Hbd Hcd Hbok Ep base cursor chk meta (Hkeep _ _ Hq Hs) Hnum Hph Hspan Hm) as Hnew.
    split; [right; eauto|]. intros base0 cursor0 chk0 Hc0. destruct (core_unique _ _ _ _ _ _ _ _ Hc Hc0) as (-> & -> & ->).
    exists (Block_Checkpoint b). split; [done|lia].
  - destruct Ha as (meta & meta' & Hm & Hm' & ->).
    pose proof (core_start db b data cdata blocks Hn Hbd Hcd Hbok Ep meta meta' (nochain_same _ _ Hcur Hs) Hm Hm') as Hnew.
    split; [right; eauto|]. intros base0 cursor0 chk0 Hc0. destruct Hcur as (Hb & _). pose proof (cc_base _ _ _ _ _ Hc0). congruence.
Qed.

(** The block as it is stored. *)
Lemma stored_form block members data :
  store_journalCapacity store < 2 ^ 32 -> block_input block -> validateCanonicalBlock store block = Ok tt ->
  sortedMemberIDs (CB_Candidates block) = Ok members ->
  encodeBlock (mkBlockRecord (CB_Checkpoint block) (CB_ParentHash block) members) (store_journalCapacity store) = Ok data ->
  decodeBlock data (store_journalCapacity store) = Ok (mkBlockRecord (CB_Checkpoint block) (CB_ParentHash block) members).
Proof.
  intros Hcap [Hcp Hpar _] Hv Hms He. destruct (validateCanonicalBlock_inv _ Hv) as [_ Hcs]. eapply decode_encodeBlock; [|done|done]. constructor; [done|done|]. cbn [Block_Members].
  destruct (sortedMemberIDs_spec _ _ Hms) as (Hperm & _ & _). rewrite Hperm. apply Forall_map. eapply Forall_impl; [exact Hcs|].
  by intros c (_ & _ & _ & ?).
Qed.

(** Promotion and the advance of the checkpoint end the transaction. *)
Lemma commit_end now g db e e' r :
  0 <= store_maxPending store -> QStep store nobody nobody g db e -> CoreInv store e ->
  (forall base cursor chk, ChainCore store db base cursor chk ->
    exists cursor', ChainCore store e base cursor' chk /\ CP_BlockNumber cursor <= CP_BlockNumber cursor') ->
  promoteCandidates store now e = Ok e' -> advanceCheckpoint store e' = Ok r ->
  QStep store nobody everybody g db r /\ forward db r.
Proof.
  intros Hmp Hqe Hie Hfw Hpr Had.
  destruct (promoteCandidates_step store _ e e' Hmp (qstep_ok _ _ _ _ _ _ Hqe) Hpr) as (Hqp & Hpf & _).
  destruct (advance_forward nobody nobody 0 e e' r Hie (promote_chain_same _ _ Hpf) Hqp ltac:(by intros id []) Had) as (Hqa & Hinv & Hf).
  pose proof (qstep_trans _ _ _ _ _ _ _ _ Hqe Hqp) as Hq. rewrite Z.add_0_r in Hq. split.
  - rewrite <- (Z.add_0_r g). eapply qstep_trans; [|exact Hqa]. by eapply qstep_weaken; [| |exact Hq].
  - split; [done|]. intros base cursor chk Hc. destruct (Hfw _ _ _ Hc) as (cursor' & Hc' & Hle).
    destruct (Hf _ _ _ Hc') as (base2 & cursor2 & chk2 & Hc2 & ? & ? & ?). exists base2, cursor2, chk2. split; [done|lia].
Qed.

Lemma commitNew_step call block members data db db' :
  0 <= store_maxPending store -> store_journalCapacity store < 2 ^ 32 -> QOK store db -> CoreInv store db ->
  block_input block -> validateCanonicalBlock store block = Ok tt -> sortedMemberIDs (CB_Candidates block) = Ok members ->
  encodeBlock (mkBlockRecord (CB_Checkpoint block) (CB_ParentHash block) members) (store_journalCapacity store) = Ok data ->
  commitNew store call block members data db = Ok db' ->
  QStep store nobody everybody (Z.max 0 (store_journalCapacity store - counted isUnfinished db)) db db' /\ forward db db'.
Proof.
  intros Hmp Hcap Hok Hi Hin Hv Hms He. pose proof (stored_form _ _ _ Hcap Hin Hv Hms He) as Hbd.
  unfold commitNew. ok Ecur. rename a into has.
  destruct (reconcileBlockObservations _ _ _) as [db1|] eqn:Er; [|done]. ok Eu. ok Ea. ok Ej. destruct a, a1.
  destruct (confirmDiscoveredTokens _ _ _) as [db2|] eqn:Ed; [|done]. destruct (foldM _ _ _) as [db3|] eqn:Es; [|done].
  destruct (put (s_blocks db3) _ data) as [blocks|] eqn:Ep; [|done]. apply store_put_inv in Ep.
  destruct (encodeCheckpoint (CB_Checkpoint block)) as [cdata|] eqn:Ecp; [|done]. cbn [errOr].
  set (b := mkBlockRecord (CB_Checkpoint block) (CB_ParentHash block) members) in *.
  destruct (commit_stage block db db1 _ db2 db3 members Hok Hin Hv Hms Er Ea Ej Ed Es) as (Hq & Hsame & Hmem).
  destruct (reconcile_step store _ _ _ _ Hok Er) as (Hq1 & Hc1 & _). pose proof (bi_checkpoint _ Hin) as Hcpty.
  assert (Hcd : decodeCheckpoint cdata = Ok (CB_Checkpoint block)) by by eapply decode_encodeCheckpoint.
  assert (Hbok : block_ok store db3 (CP_BlockNumber (CB_Checkpoint block)) b).
  { destruct (validateCanonicalBlock_inv _ Hv) as [Hnet _]. by constructor. }
  assert (Hend : forall e e', appended has db3 b cdata blocks e -> promoteCandidates store (call_now call) e = Ok e' ->
    advanceCheckpoint store e' = Ok db' ->
    QStep store nobody everybody (Z.max 0 (store_journalCapacity store - counted isUnfinished db)) db db' /\ forward db db').
  { intros e e' Happ Hpr Had. pose proof (appended_same _ _ _ _ _ _ (qstep_ok _ _ _ _ _ _ Hq) Happ) as Hqe.
    destruct (appended_core has db db1 db3 b data cdata blocks e block Hi Ecur Eu Hq1 Hc1 (ex_intro _ _ Hq) Hsame eq_refl eq_refl
      (cp_number _ Hcpty) Hbd Hcd Hbok Ep Happ) as [Hie Hfw].
    eapply commit_end; [done| |done..]. rewrite <- (Z.add_0_r (Z.max _ _)). by eapply qstep_trans. }
  destruct has.
  - destruct (put (s_meta _) scanCursorKey cdata) as [meta|] eqn:Em; [|done]. apply store_put_inv in Em.
    destruct (promoteCandidates _ _ _) as [e'|] eqn:Epr; [|done]. intros Had. eapply Hend; [|done|done]. by exists meta.
  - destruct (put (s_meta (set_blocks db3 blocks)) baselineKey _) as [meta|] eqn:Em; [|done]. apply store_put_inv in Em.
    destruct (put _ scanCursorKey cdata) as [meta'|] eqn:Em'; [|done]. apply store_put_inv in Em'.
    destruct (promoteCandidates _ _ _) as [e'|] eqn:Epr; [|done]. intros Had. eapply Hend; [|done|done]. by exists meta, meta'.
Qed.

End Commit.
End ChainCommit.
Export ChainCommit.
