(* ===== verification/QueueOps.v ===== *)
(** * The transactions of the store's queue and chain, and the public operations

    [StoreInv]: the queue's invariant, its bounds and the chain's invariant.
    Every transaction of bolt_candidates.go and bolt_canonical.go that writes
    keeps it, moves every candidate along its life cycle and never moves the
    chain back ([TxStep]); [tx_step] is the transition relation they form
    ([QueueTx]).  [Operation] lists the writing operations, [perform] is the state
    after one: whatever the other goroutines do between the rounds of one that
    waits, it is a sequence of those transactions ([QueueOps]). *)

From S2P Require Import Prelude GoTime Bytes Sha256 Domain Bolt StoreModel StoreLease StoreCodec StoreQueue StoreCanonical StoreCandidates QueueInv QueueSteps ChainSteps ChainCommit.

Module QueueTx.

(** The bounds a validated configuration has. *)
Record configured (store : BoltStore) : Prop := {
  cf_pending : 0 < store_maxPending store;
  cf_capacity : store_maxPending store <= store_journalCapacity store < 2 ^ 32 }.

Section Tx.
Context `{BL : BoltLaws} (store : BoltStore) (Hstore : configured store).

Record StoreInv (db : StoreDB) : Prop := {
  si_queue : QOK store db;
  si_journal : counted isUnfinished db <= store_journalCapacity store;
  si_observed : counted isObserved db <= store_maxPending store;
  si_chain : ChainInv store db }.

(** What a transaction did; only the candidates of [ack] were acknowledged. *)
Record TxStep (ack : CandidateID -> Prop) (db db' : StoreDB) : Prop := {
  ts_inv : StoreInv db';
  ts_life id : rtc (cand_step (ack id) True) (rec_at db id) (rec_at db' id);
  ts_forward : forward store db db' }.

Lemma tx_refl db : StoreInv db -> TxStep nobody db db.
Proof. intros H. constructor; [done|done|]. by apply forward_refl, si_chain. Qed.

Lemma tx_qstep ack forget g db db' :
  StoreInv db -> QStep store ack forget g db db' -> counted isUnfinished db + g <= store_journalCapacity store ->
  forward store db db' -> TxStep ack db db'.
Proof.
  intros [Hq Hj Ho Hc] Hs Hg Hf. constructor; [|intros id|done].
  - constructor; [by eapply qstep_ok| | |apply Hf].
    + pose proof (qs_journal _ _ _ _ _ _ Hs). lia.
    + pose proof (qs_observed _ _ _ _ _ _ Hs). lia.
  - eapply rtc_subrel; [|apply (qs_life _ _ _ _ _ _ Hs)].
    intros x y []; eauto using cs_new, cs_stage, cs_ready, cs_nack, cs_ack, cs_drop, cs_forget.
Qed.

Lemma life_forward db db' :
  ChainInv store db -> life nobody nobody db db' -> chain_same db db' -> forward store db db'.
Proof.
  intros Hi Hl Hc. split; [by eapply chain_life|]. intros base cursor chk Hcore. exists base, cursor, chk. split; [|lia].
  eapply core_life; [done..|]. by intros id [].
Qed.

Lemma same_forward g db db' :
  ChainInv store db -> QStep store nobody nobody g db db' -> chain_same db db' -> forward store db db'.
Proof. intros Hi Hq. apply life_forward; [done|]. intros id. apply Hq. Qed.

Lemma forward_trans a b c : forward store a b -> forward store b c -> forward store a c.
Proof.
  intros [_ H1] [Hi H2]. split; [done|]. intros base cursor chk (b1 & c1 & k1 & Hc & ? & ? & ?)%H1.
  destruct (H2 _ _ _ Hc) as (b2 & c2 & k2 & Hc' & ? & ? & ?). exists b2, c2, k2. split; [done|lia].
Qed.

(** A step of the queue that ends with a promotion. *)
Lemma tx_promote now g db mid db' :
  StoreInv db -> QStep store nobody nobody g db mid -> chain_same db mid -> counted isUnfinished db + g <= store_journalCapacity store ->
  promoteCandidates store now mid = Ok db' -> TxStep nobody db db'.
Proof.
  intros Hi Hq Hc Hg Hp. pose proof (same_forward _ _ _ (si_chain _ Hi) Hq Hc) as Hf.
  destruct (promote_forward store now mid db') as [Hqp Hfp]; [pose proof (cf_pending _ Hstore); lia|by eapply qstep_ok|apply Hf|done|].
  eapply (tx_qstep _ _ (g + 0)); [done|by eapply qstep_trans|lia|by eapply forward_trans].
Qed.

(** The record a transaction read. *)
Lemma persistedRecord_inv data c r :
  persistedRecord store data c = Ok r -> decodeCandidateRecord data = Ok r /\ sameCandidateIdentity (Rec_Candidate r) c = true.
Proof.
  unfold persistedRecord. ok Ed. destruct (decodeCandidateRecord data) as [x|]; [|done]. injection Ed as ->. ok. bool_hyps. by intros [= <-].
Qed.

Lemma recordByID_inv data id r : recordByID store data id = Ok r -> decodeCandidateRecord data = Ok r.
Proof.
  unfold recordByID. ok Ed. destruct (decodeCandidateRecord data) as [x|]; [|done]. injection Ed as ->. ok. by intros [= <-].
Qed.

Lemma read_record db id data r :
  QOK store db -> b_get (s_candidates db) id = Some data -> decodeCandidateRecord data = Ok r -> rec_at db id = Some r /\ stored_record store id r.
Proof.
  intros [Hi _] Hg Hd. destruct (records_get _ _ _ _ Hi Hg) as (r' & Hd' & Hr & Hs). rewrite Hd in Hd'. by injection Hd' as <-.
Qed.

(** ** Put, PutObserved *)

Lemma put_tx_step c call db a changed db' :
  StoreInv db -> input_typed c -> validateInputCandidate store c = Ok tt -> put_tx store c call db = Ok (a, changed, db') -> TxStep nobody db db'.
Proof.
  intros Hi Hty [_ Hm]%validateInput_inv. pose proof (si_queue _ Hi) as Hok. unfold put_tx. ok.
  destruct (b_get (s_candidates db) (Candidate_ID c)) as [data|] eqn:Eg.
  - ok Ep. apply persistedRecord_inv in Ep as [Ed _]. destruct (read_record _ _ _ _ Hok Eg Ed) as [Hr Hs].
    assert (Hgo : isPreliminary (Rec_Status a1) = true ->
      (let! _ := reserveJournal store db 1 in
       let! encoded := errOr errCorrupt (encodeCandidateRecord
         (mkRecord CandidateStaged (Rec_RetryAt a1) (updateCandidateMetadata (Rec_Candidate a1) c))) in
       let! b := put (s_candidates db) (Candidate_ID c) encoded in
       let! db := promoteCandidates store (call_now call) (set_candidates db b) in
       Ok (PutAlreadyPending, true, db)) = Ok (a, changed, db') -> TxStep nobody db db').
    { intros Hpre. ok Ej. destruct a2. apply reserveJournal_ok in Ej.
      destruct (encodeCandidateRecord _) as [enc|] eqn:Ee; [|done]. cbn [errOr]. destruct (put _ _ _) as [b|] eqn:Ep; [|done].
      apply store_put_inv in Ep. destruct (promoteCandidates _ _ _) as [d|] eqn:Epr; [|done]. intros [= _ _ <-].
      destruct (stage_preliminary store db c a1 enc b Hok Hty Hr Hpre Ee Ep) as [Hq _]. by eapply (tx_promote _ 1). }
    destruct (Rec_Status a1) eqn:Es; try (intros [= _ _ <-]; by apply tx_refl); by apply Hgo.
  - destruct (candidateAlreadyScanned _ _ _); [intros [= _ _ <-]; by apply tx_refl|]. ok. ok Ej. destruct a2. apply reserveJournal_ok in Ej.
    destruct (encodeCandidateRecord _) as [enc|] eqn:Ee; [|done]. cbn [errOr]. destruct (put _ _ _) as [b|] eqn:Ep; [|done].
    apply store_put_inv in Ep. destruct (indexCandidateBlock _ _) as [d1|] eqn:Ei; [|done].
    destruct (promoteCandidates _ _ _) as [d|] eqn:Epr; [|done]. intros [= _ _ <-].
    destruct (stage_new store db c enc b Hok Hty Hm) as [Hq _]; [by apply (rec_at_none store _ _ (proj1 Hok))|done|done|].
    destruct (index_same _ _ _ Ei) as (H1 & H2 & H3 & H4 & H5 & _).
    eapply (tx_promote _ (1 + 0) _ d1); [done| | |done|done].
    + eapply qstep_trans; [exact Hq|]. apply qstep_same; try done. by eapply qstep_ok.
    + constructor; rewrite ?H4; done.
Qed.

Lemma statusCount_ok db s n : statusCount store db s = Ok n -> n = counted isObserved db.
Proof.
  unfold statusCount, counted, b_count.
  apply (foldM_invariant (fun past n => n = Z.of_nat (length (filter (fun e => counts isObserved e.2 = true) past)))); [done|].
  intros past n' [k v] n'' ->. destruct (decodeCandidateRecord v) as [r|] eqn:E; [|done]. cbn [errOr].
  rewrite filter_app, length_app, Nat2Z.inj_add, b_count_cons. cbn [snd].
  assert (counts isObserved v = isObserved (Rec_Status r)) as -> by (unfold counts, decoded; by rewrite E).
  destruct (isObserved (Rec_Status r)); [ok|]; intros [= <-]; cbn; lia.
Qed.

(** A new observation is recorded. *)
Lemma observe_step db c data b :
  QOK store db -> input_typed c -> matchesCandidate store c = true -> rec_at db (Candidate_ID c) = None ->
  encodeCandidateRecord (mkRecord CandidateObserved zeroTime c) = Ok data -> b_put (s_candidates db) (Candidate_ID c) data = Some b ->
  QOK store (set_candidates db b) /\
  (forall id, rec_at (set_candidates db b) id = if decide (Candidate_ID c = id) then Some (mkRecord CandidateObserved zeroTime c) else rec_at db id) /\
  counted isUnfinished (set_candidates db b) = counted isUnfinished db /\
  counted isObserved (set_candidates db b) = counted isObserved db + 1.
Proof.
  intros [Hr Hq] Hty Hm Hnone He Hp. apply encodeCandidateRecord_inv in He as Hv. destruct Hv as (Hv & _).
  assert (Hs : stored_record store (Candidate_ID c) (mkRecord CandidateObserved zeroTime c))
    by (destruct Hty; constructor; try done; by constructor).
  destruct (records_put _ _ _ _ _ _ Hr Hs He Hp) as [Hr' Hat]. split; [split; [done|]|split; [done|]].
  - apply (ready_same store db); try done. intros id. rewrite Hat. destruct (decide (_ = id)) as [<-|]; [|done]. rewrite Hnone.
    split; [intros []%not_ready; done|intros []%none_not_ready].
  - rewrite !(counted_put _ _ _ _ _ _ _ Hs He Hp), Hnone. cbn. lia.
Qed.

Lemma putObserved_tx_step c call db a changed db' :
  StoreInv db -> input_typed c -> validateInputCandidate store c = Ok tt -> putObserved_tx store c call db = Ok (a, changed, db') ->
  TxStep nobody db db'.
Proof.
  intros Hi Hty [_ Hm]%validateInput_inv. pose proof (si_queue _ Hi) as Hok. unfold putObserved_tx. ok.
  destruct (b_get (s_candidates db) (Candidate_ID c)) as [data|] eqn:Eg; [ok; intros [= _ _ <-]; by apply tx_refl|].
  destruct (candidateAlreadyScanned _ _ _); [intros [= _ _ <-]; by apply tx_refl|]. ok. ok Ec. apply statusCount_ok in Ec as ->. ok Eroom. bool_hyps.
  destruct (encodeCandidateRecord _) as [enc|] eqn:Ee; [|done]. cbn [errOr]. destruct (put _ _ _) as [b|] eqn:Ep; [|done].
  apply store_put_inv in Ep. destruct (indexCandidateBlock _ _) as [d1|] eqn:Ei; [|done]. intros [= _ _ <-].
  assert (Hnone : rec_at db (Candidate_ID c) = None) by by apply (rec_at_none store _ _ (proj1 Hok)).
  destruct (observe_step db c enc b Hok Hty Hm Hnone Ee Ep) as (Hok' & Hat & Hu & Ho).
  destruct (index_same _ _ _ Ei) as (H1 & H2 & H3 & H4 & H5 & _).
  pose proof (qstep_same store nobody nobody _ d1 Hok' H1 H2 H3) as Hq.
  assert (Hat' : forall id, rec_at d1 id = if decide (Candidate_ID c = id) then Some (mkRecord CandidateObserved zeroTime c) else rec_at db id).
  { intros id. rewrite <- Hat. by apply rec_at_same. }
  assert (Hlife : life nobody nobody db d1).
  { intros id. rewrite Hat'. destruct (decide (_ = id)) as [<-|]; [|done]. rewrite Hnone. apply rtc_once, cs_new. by left. }
  assert (Hf : forward store db d1) by (apply life_forward; [apply Hi|done|constructor; rewrite ?H4; done]).
  constructor; [|intros id; eapply rtc_subrel; [|apply Hlife]|done].
  - constructor; [by eapply qstep_ok| | |apply Hf]; rewrite (counted_same _ (set_candidates db b) d1) by done; pose proof (si_journal _ Hi); lia.
  - intros x y []; eauto using cs_new, cs_stage, cs_ready, cs_nack, cs_ack, cs_drop, cs_forget.
Qed.

(** ** MarkRemoved, Next, PutIncident *)

Lemma drop_observed db id r :
  QOK store db -> rec_at db id = Some r -> isPreliminary (Rec_Status r) = true ->
  forall d, s_candidates d = b_delete (s_candidates db) id -> s_pending d = b_delete (s_pending db) id -> s_readyOrder d = s_readyOrder db ->
  QStep store nobody nobody 0 db d.
Proof.
  intros Hok Hr Hpre d H1 H2 H3. assert (Hn : ~ is_ready (rec_at db id)) by (rewrite Hr; apply not_ready; by destruct (Rec_Status r)).
  assert (Hq1 : QStep store nobody nobody 0 db (set_candidates db (b_delete (s_candidates db) id))).
  { apply qstep_delete; [done|done|]. rewrite Hr. by apply rtc_once, cs_drop. }
  apply (qstep_trans _ _ _ 0 0 _ _ _ Hq1). pose proof (qstep_ok _ _ _ _ _ _ Hq1) as Hok1.
  assert (Hn1 : ~ is_ready (rec_at (set_candidates db (b_delete (s_candidates db) id)) id)).
  { rewrite (proj2 (records_delete store db id (proj1 Hok))), decide_True by done. apply none_not_ready. }
  apply (qstep_trans _ _ _ 0 0 _ _ _ (qstep_unpend store nobody nobody _ id Hok1 Hn1)).
  apply qstep_same; try done. eapply qstep_ok. by apply (qstep_unpend store nobody nobody).
Qed.

Lemma markRemoved_tx_step id call db a changed db' :
  StoreInv db -> markRemoved_tx store id call db = Ok (a, changed, db') -> TxStep nobody db db'.
Proof.
  intros Hi. pose proof (si_queue _ Hi) as Hok. unfold markRemoved_tx. ok.
  destruct (b_get (s_candidates db) id) as [data|] eqn:Eg; [|done]. ok Er. apply recordByID_inv in Er.
  destruct (read_record _ _ _ _ Hok Eg Er) as [Hr Hs].
  destruct (Rec_Status a1) eqn:Es; try done; [|intros [= _ _ <-]; by apply tx_refl].
  cbv zeta. destruct (advanceCheckpoint _ _) as [d|] eqn:Ea; [|done]. intros [= _ _ <-].
  match type of Ea with advanceCheckpoint _ ?m = _ => set (mid := m) in * end.
  assert (Hq : QStep store nobody nobody 0 db mid).
  { apply (drop_observed db id a1 Hok Hr); [by rewrite Es|..]; unfold mid; by destruct (candidateBlockIndexKey _). }
  assert (Hc : chain_same db mid) by (unfold mid; by destruct (candidateBlockIndexKey _)).
  destruct (advance_forward store nobody nobody 0 db mid d (chain_core _ _ (si_chain _ Hi)) Hc Hq ltac:(by intros i []) Ea) as [Hqa Hf].
  eapply (tx_qstep _ _ (0 + 0)); [done| |pose proof (si_journal _ Hi); lia|done].
  eapply qstep_trans; [|exact Hqa]. by eapply qstep_weaken; [| |exact Hq].
Qed.

Lemma next_tx_step call db found db' : StoreInv db -> next_tx store call db = Ok (found, db') -> TxStep nobody db db'.
Proof.
  intros Hi. unfold next_tx. ok. ok. destruct (promoteCandidates _ _ _) as [d|] eqn:Ep; [|done]. ok. ok. ok. intros [= _ <-].
  eapply (tx_promote _ 0 _ db); [done|by apply qstep_refl, si_queue|done|pose proof (si_journal _ Hi); lia|done].
Qed.

Lemma putIncident_tx_step incident encoded call db a db' :
  StoreInv db -> putIncident_tx store incident encoded call db = Ok (a, db') -> TxStep nobody db db'.
Proof.
  intros Hi. unfold putIncident_tx. ok. destruct (b_get (s_candidates db) _); [|done]. ok.
  assert (Hgo : match b_get (s_incidents db) (Incident_Candidate incident) with
    | None => let! b := put (s_incidents db) (Incident_Candidate incident) encoded in Ok (tt, set_incidents db b)
    | Some persisted =>
        let! stored := errOr errCorrupt (decodeIncident persisted) in
        reject negb (bytes_eqb (Incident_Candidate stored) (Incident_Candidate incident)) || negb (Incident_Network stored =? store_network store)
          with errCorrupt in
        reject negb (bytes_eqb (Incident_ID stored) (Incident_ID incident)) with errConflict in
        Ok (tt, db)
    end = Ok (a, db') -> TxStep nobody db db').
  { destruct (b_get (s_incidents db) _).
    - ok. ok. ok. intros [= _ <-]. by apply tx_refl.
    - ok. intros [= _ <-]. assert (Hq : QStep store nobody nobody 0 db (set_incidents db a2)) by (apply qstep_same; [apply Hi|done..]).
      eapply tx_qstep; [done|exact Hq|pose proof (si_journal _ Hi); lia|]. by eapply same_forward; [apply Hi|exact Hq|]. }
  destruct (Rec_Status _); done.
Qed.

(** ** Ack, Nack *)

(** A candidate leaves the ready queue. *)
Lemma ready_dequeue db d id o (r' : candidateRecord) :
  ReadyInv store db -> b_get (s_pending db) id = Some o -> Rec_Status r' <> CandidateReady ->
  s_pending d = b_delete (s_pending db) id -> s_readyOrder d = b_delete (s_readyOrder db) o ->
  (forall i, rec_at d i = if decide (id = i) then Some r' else rec_at db i) -> ReadyInv store d.
Proof.
  intros [Hp Ho Hr Hs Hb] Hid Hst Ep Er Hat. constructor; rewrite ?Ep, ?Er, ?bl_sequence_delete; try done.
  - intros i o'. rewrite !bl_get_delete. case_decide as E; [done|]. intros Hi. rewrite decide_False; [by apply Hp|].
    intros <-. apply Hp in Hi, Hid. congruence.
  - intros o' i. rewrite !bl_get_delete. case_decide as E; [done|]. intros Hi. destruct (Ho _ _ Hi) as [Hpi Hn].
    rewrite decide_False; [done|]. intros <-. congruence.
  - intros i. rewrite bl_get_delete, Hat. destruct (decide (id = i)) as [<-|E]; rewrite ?decide_True, ?decide_False by done; [|apply Hr].
    split; [by intros []|]. intros H. by apply not_ready in H.
  - rewrite b_keyN_delete, Hid. lia.
Qed.

Lemma resolve_step (ack : CandidateID -> Prop) db id r status t data b d :
  QOK store db -> rec_at db id = Some r -> Rec_Status r = CandidateReady -> time_ok t ->
  encodeCandidateRecord (mkRecord status t (Rec_Candidate r)) = Ok data -> b_put (s_candidates db) id data = Some b ->
  dequeue (set_candidates db b) id = Ok d ->
  (status = CandidateAcknowledged /\ t = zeroTime /\ ack id) \/ status = CandidateDelayed ->
  QStep store ack nobody 0 db d /\ chain_same db d.
Proof.
  intros [Hrec Hready] Hr Hst Ht He Hp Hd Hcase. destruct (rec_at_get _ _ _ _ Hrec Hr) as (v & Hg & Hdec & Hs).
  apply encodeCandidateRecord_inv in He as Hv. destruct Hv as (Hv & _).
  assert (Hs' : stored_record store id (mkRecord status t (Rec_Candidate r))).
  { destruct Hs as [Hid Hm [Hc Hde Hge _] _]. constructor; done. }
  destruct (records_put _ _ _ _ _ _ Hrec Hs' He Hp) as [Hrec' Hat].
  destruct (proj2 (ri_ready _ _ Hready id)) as [o Ho]; [by exists r|].
  revert Hd. unfold dequeue, getNil. cbn [s_pending s_readyOrder set_candidates]. rewrite Ho. change (default [] (Some o)) with o.
  ok. intros <-%Ok_inj. split; [|done]. constructor.
  - exact Hrec'.
  - apply (ready_dequeue db _ id o (mkRecord status t (Rec_Candidate r)) Hready Ho); try done.
    destruct Hcase as [(-> & _)| ->]; done.
  - intros i. change (rtc (cand_step (ack i) (nobody i)) (rec_at db i) (rec_at (set_candidates db b) i)). rewrite Hat.
    destruct (decide (id = i)) as [<-|]; [|done]. rewrite Hr. apply rtc_once.
    destruct Hcase as [(-> & -> & Ha)| ->]; [by apply cs_ack|by apply cs_nack].
  - change (counted isObserved (set_candidates db b) <= counted isObserved db). rewrite (counted_put _ _ _ _ _ _ _ Hs' He Hp), Hr. cbn.
    rewrite Hst. destruct Hcase as [(-> & _)| ->]; cbn; lia.
  - change (counted isUnfinished (set_candidates db b) <= counted isUnfinished db + 0). rewrite (counted_put _ _ _ _ _ _ _ Hs' He Hp), Hr. cbn.
    rewrite Hst. destruct Hcase as [(-> & _)| ->]; cbn; lia.
Qed.

(** Who the transaction acknowledges. *)
Definition acks (id : CandidateID) (status : CandidateStatus) : CandidateID -> Prop :=
  fun i => i = id /\ status = CandidateAcknowledged.

Lemma resolve_tx_step id incidentID status retryAt call db a changed db' :
  StoreInv db -> (status = CandidateAcknowledged /\ retryAt = zeroTime) \/ status = CandidateDelayed -> time_ok (normalizeStoreTime retryAt) ->
  resolve_tx store id incidentID status retryAt call db = Ok (a, changed, db') -> TxStep (acks id status) db db'.
Proof.
  intros Hi Hcase Ht. pose proof (si_queue _ Hi) as Hok. pose proof (si_journal _ Hi) as Hj.
  assert (Hrefl : forall d, Ok (tt, false, db) = Ok (a, changed, d) :> result StoreError _ -> TxStep (acks id status) db d).
  { intros d [= _ _ <-]. destruct (tx_refl db Hi) as [H1 _ H3]. constructor; [done|done|done]. }
  unfold resolve_tx. ok. destruct (b_get (s_incidents db) id); [|done]. ok. ok.
  destruct (b_get (s_candidates db) id) as [data|] eqn:Eg; [|done]. ok Er. apply recordByID_inv in Er.
  destruct (read_record _ _ _ _ Hok Eg Er) as [Hr Hs]. rename a2 into r.
  destruct (Rec_Status r) eqn:Es; try done; [|destruct (bool_decide _); [apply Hrefl|done]].
  destruct (encodeCandidateRecord _) as [enc|] eqn:Ee; [|done]. cbn [errOr]. destruct (put _ _ _) as [cs|] eqn:Ep; [|done].
  apply store_put_inv in Ep. destruct (dequeue _ _) as [d|] eqn:Ed; [|done].
  destruct (resolve_step (acks id status) db id r status _ enc cs d Hok Hr Es Ht Ee Ep Ed) as [Hq Hc].
  { destruct Hcase as [[-> ->]| ->]; [left|by right]. split; [done|]. split; [by vm_compute|done]. }
  destruct Hcase as [[-> ->]| ->]; cbn [bool_decide].
  - rewrite bool_decide_true by done. destruct (addTombstone _ _ _) as [d1|] eqn:Et; [|done].
    destruct (advanceCheckpoint _ _) as [d2|] eqn:Ea; [|done]. destruct (promoteCandidates _ _ _) as [d3|] eqn:Epr; [|done]. intros [= _ _ <-].
    pose proof (chain_core _ _ (si_chain _ Hi)) as Hcore.
    destruct (addTombstone_step store id d d1 (qstep_ok _ _ _ _ _ _ Hq)) as [Hqt Hct]; [by eapply coreinv_qstep|done|].
    assert (Hq1 : QStep store (acks id CandidateAcknowledged) (outsider store db) (0 + 0) db d1).
    { eapply qstep_trans; [by eapply qstep_weaken; [| |exact Hq]|]. eapply qstep_weaken; [| |exact Hqt]; [done|].
      intros i. apply outsider_same. symmetry. apply Hc. }
    destruct (advance_forward store _ _ _ db d1 d2 Hcore ltac:(by etransitivity) Hq1 ltac:(done) Ea) as [Hqa Hf].
    destruct (promote_forward store (call_now call) d2 d3) as [Hqp Hfp]; [pose proof (cf_pending _ Hstore); lia|by eapply qstep_ok|apply Hf|done|].
    eapply (tx_qstep _ everybody (0 + 0 + (0 + 0))); [done| |lia|by eapply forward_trans].
    eapply qstep_trans; [by eapply qstep_weaken; [| |exact Hq1]|].
    eapply qstep_trans; [by eapply qstep_weaken; [| |exact Hqa]|by eapply qstep_weaken; [| |exact Hqp]].
  - rewrite bool_decide_false by done. destruct (promoteCandidates _ _ _) as [d3|] eqn:Epr; [|done]. intros [= _ _ <-].
    assert (Hno : forall i, acks id CandidateDelayed i -> nobody i) by by intros i [].
    assert (Hq' : QStep store nobody nobody 0 db d) by (by eapply qstep_weaken; [| |exact Hq]).
    pose proof (tx_promote (call_now call) 0 db d d3 Hi Hq' Hc ltac:(lia) Epr) as [H1 H2 H3]. constructor; [done| |done].
    intros i. eapply rtc_subrel; [|apply H2]. intros x y []; eauto using cs_new, cs_stage, cs_ready, cs_nack, cs_ack, cs_drop, cs_forget. done.
Qed.

(** ** CommitCanonicalBlock *)

Lemma commit_tx_step call block members data db changed db' :
  StoreInv db -> block_input block -> validateCanonicalBlock store block = Ok tt -> sortedMemberIDs (CB_Candidates block) = Ok members ->
  encodeBlock (mkBlockRecord (CB_Checkpoint block) (CB_ParentHash block) members) (store_journalCapacity store) = Ok data ->
  commit_tx store call block members data db = Ok (changed, db') -> TxStep nobody db db'.
Proof.
  intros Hi Hin Hv Hms He. unfold commit_tx. ok. destruct (b_get (s_blocks db) _).
  - ok. ok. intros [= _ <-]. by apply tx_refl.
  - destruct (commitNew _ _ _ _ _ _) as [d|] eqn:Ec; [|done]. intros [= _ <-]. pose proof Hstore as [Hp Hcap].
    destruct (commitNew_step store call block members data db d) as [Hq Hf]; try done; [lia|lia|apply Hi|apply chain_core, Hi|].
    eapply tx_qstep; [done|exact Hq|pose proof (si_journal _ Hi); lia|done].
Qed.

(** ** The transition relation *)

Inductive tx_step : (CandidateID -> Prop) -> StoreDB -> StoreDB -> Prop :=
| tx_put c call a changed db db' :
    input_typed c -> validateInputCandidate store c = Ok tt -> put_tx store c call db = Ok (a, changed, db') -> tx_step nobody db db'
| tx_observe c call a changed db db' :
    input_typed c -> validateInputCandidate store c = Ok tt -> putObserved_tx store c call db = Ok (a, changed, db') ->
    tx_step nobody db db'
| tx_remove id call a changed db db' : markRemoved_tx store id call db = Ok (a, changed, db') -> tx_step nobody db db'
| tx_next call found db db' : next_tx store call db = Ok (found, db') -> tx_step nobody db db'
| tx_incident incident encoded call a db db' : putIncident_tx store incident encoded call db = Ok (a, db') -> tx_step nobody db db'
| tx_nack id incidentID retryAt call a changed db db' :
    time_ok (normalizeStoreTime retryAt) -> resolve_tx store id incidentID CandidateDelayed retryAt call db = Ok (a, changed, db') ->
    tx_step (acks id CandidateDelayed) db db'
| tx_ack id incidentID call a changed db db' :
    resolve_tx store id incidentID CandidateAcknowledged zeroTime call db = Ok (a, changed, db') ->
    tx_step (acks id CandidateAcknowledged) db db'
| tx_commit call block members data changed db db' :
    block_input block -> validateCanonicalBlock store block = Ok tt -> sortedMemberIDs (CB_Candidates block) = Ok members ->
    encodeBlock (mkBlockRecord (CB_Checkpoint block) (CB_ParentHash block) members) (store_journalCapacity store) = Ok data ->
    commit_tx store call block members data db = Ok (changed, db') -> tx_step nobody db db'.

Lemma tx_step_sound ack db db' : StoreInv db -> tx_step ack db db' -> TxStep ack db db'.
Proof.
  intros Hi Hs. revert Hi. destruct Hs; intros Hi; [by eapply put_tx_step|by eapply putObserved_tx_step|by eapply markRemoved_tx_step|by eapply next_tx_step|
    by eapply putIncident_tx_step| | |by eapply commit_tx_step].
  - eapply resolve_tx_step; [done|by right|done|done].
  - eapply resolve_tx_step; [done|by left| |done]. by vm_compute.
Qed.

(** A run of the store: transactions in sequence, with what they acknowledged. *)
Inductive tx_run : list (CandidateID -> Prop) -> StoreDB -> StoreDB -> Prop :=
| run_nil db : tx_run [] db db
| run_cons ack acks db mid db' : tx_step ack db mid -> tx_run acks mid db' -> tx_run (ack :: acks) db db'.

Lemma run_inv acked db db' : StoreInv db -> tx_run acked db db' -> StoreInv db'.
Proof. intros Hi Hr. induction Hr as [|? ? ? ? ? Hs _ IH]; [done|]. apply IH. by eapply ts_inv, tx_step_sound. Qed.

Lemma run_forward acked db db' : StoreInv db -> tx_run acked db db' -> forward store db db'.
Proof.
  intros Hi Hr. induction Hr as [db|? ? ? ? ? Hs _ IH]; [by apply forward_refl, si_chain|].
  destruct (tx_step_sound _ _ _ Hi Hs). eapply forward_trans; [done|]. by apply IH.
Qed.

(** The store when it is created. *)
Lemma empty_inv db :
  s_candidates db = b_empty -> s_pending db = b_empty -> s_readyOrder db = b_empty -> s_blocks db = b_empty ->
  b_get (s_meta db) baselineKey = None -> b_get (s_meta db) scanCursorKey = None -> b_get (s_meta db) checkpointKey = None -> StoreInv db.
Proof.
  intros H1 H2 H3 H4 H5 H6 H7. pose proof Hstore as [Hp Hcap].
  assert (Hcount : forall P, counted P db = 0) by (intros P; unfold counted, b_count; by rewrite H1, b_entries_empty).
  assert (Hrec : forall id, rec_at db id = None) by (intros id; unfold rec_at; by rewrite H1, bl_get_empty).
  constructor; rewrite ?Hcount; [|lia|lia|].
  - split; [intros k v; by rewrite H1, bl_get_empty|]. constructor; rewrite ?H2, ?H3.
    + intros id o. by rewrite bl_get_empty.
    + intros o id. by rewrite bl_get_empty.
    + intros id. rewrite Hrec, bl_get_empty. split; [by intros []|intros []%none_not_ready].
    + rewrite bl_sequence_empty. lia.
    + unfold b_keyN. rewrite b_entries_empty. cbn. lia.
  - left. repeat split; try done. intros k. by rewrite H4, bl_get_empty.
Qed.

End Tx.
End QueueTx.
Export QueueTx.

Module QueueOps.

Section Ops.
Context `{BL : BoltLaws} (store : BoltStore).

Inductive Operation :=
| OpPut (call : Call) (rounds : list Round) (candidate : RescueCandidate)
| OpPutObserved (call : Call) (candidate : RescueCandidate)
| OpMarkRemoved (call : Call) (id : CandidateID)
| OpNext (call : Call) (rounds : list Round) (network : NetworkID)
| OpPutIncident (call : Call) (incident : Incident)
| OpNack (call : Call) (id : CandidateID) (incidentID : IncidentID) (retryAt : Time)
| OpAck (call : Call) (id : CandidateID) (incidentID : IncidentID)
| OpCommit (call : Call) (rounds : list Round) (block : CanonicalBlock).

Definition perform (op : Operation) (st : StoreState) : StoreState :=
  match op with
  | OpPut call rounds candidate => fst (Put store call rounds candidate st)
  | OpPutObserved call candidate => fst (PutObserved store call candidate st)
  | OpMarkRemoved call id => fst (MarkRemoved store call id st)
  | OpNext call rounds network => fst (Next store call rounds network st)
  | OpPutIncident call incident => fst (PutIncident store call incident st)
  | OpNack call id incidentID retryAt => fst (Nack store call id incidentID retryAt st)
  | OpAck call id incidentID => fst (Ack store call id incidentID st)
  | OpCommit call rounds block => fst (CommitCanonicalBlock store call rounds block st)
  end.

(** The store went from [db] to [db'] by some transactions. *)
Definition runs (db db' : StoreDB) : Prop := exists acked, tx_run store acked db db'.

(** Between two rounds the rest of the process runs transactions of its own. *)
Definition rounds_run (rounds : list Round) : Prop :=
  Forall (fun round => forall st, runs (ss_db st) (ss_db (round_others round st))) rounds.

Definition op_typed (op : Operation) : Prop :=
  match op with
  | OpPut _ rounds candidate => rounds_run rounds /\ input_typed candidate
  | OpPutObserved _ candidate => input_typed candidate
  | OpNext _ rounds _ => rounds_run rounds
  | OpNack _ _ _ retryAt => time_ok (normalizeStoreTime retryAt)
  | OpCommit _ rounds block => rounds_run rounds /\ block_input block
  | OpMarkRemoved _ _ | OpPutIncident _ _ | OpAck _ _ _ => True
  end.

#[export] Instance runs_refl : Reflexive runs.
Proof. intros db. exists []. constructor. Qed.

#[export] Instance runs_trans : Transitive runs.
Proof.
  intros a b c [l Hl] [k Hk]. exists (l ++ k). induction Hl as [|ack acks x y z Hs _ IH]; [done|]. cbn. by eapply run_cons, IH.
Qed.

Lemma runs_one ack db db' : tx_step store ack db db' -> runs db db'.
Proof. intros H. exists [ack]. eapply run_cons; [done|constructor]. Qed.

Lemma runRounds_runs {A} (tx : Call -> StoreDB -> result StoreError (A * bool * StoreDB)) rounds st :
  (forall call db a changed db', tx call db = Ok (a, changed, db') -> runs db db') -> rounds_run rounds ->
  runs (ss_db st) (ss_db (fst (runRounds tx rounds st))).
Proof.
  intros Htx Hr. revert st. induction Hr as [|round rounds Ho _ IH]; intros st; cbn [runRounds]; [done|].
  destruct (updateRaw _ _ _) as [st1 [[a changed]|e]] eqn:E;
    apply updateRaw_cases in E as [([a' ch] & db' & Hok & Hfn & -> & _)|(e' & He & ->)]; try done.
  - injection Hok as -> ->. destruct (tx (round_call round) (ss_db st)) as [[[x y] d]|] eqn:Et; [|done]. injection Hfn as -> -> ->.
    cbn [fst]. apply Htx in Et. by destruct ch.
  - injection He as ->. destruct e'; try done. specialize (Ho st).
    destruct (wait _); [|done]. cbn [fst]. etransitivity; [exact Ho|apply IH].
Qed.

Lemma nextRounds_runs rounds st : rounds_run rounds -> runs (ss_db st) (ss_db (fst (nextRounds store rounds st))).
Proof.
  intros Hr. revert st. induction Hr as [|round rounds Ho _ IH]; intros st; cbn [nextRounds]; [done|].
  destruct (update _ _ _) as [st1 [found|e]] eqn:E;
    apply store_update_cases in E as [(f & db' & Hok & Hfn & -> & _)|(e' & He & ->)]; try done.
  apply tx_next, runs_one in Hfn.
  assert (Hst : runs (ss_db st) (ss_db (if nf_promoted found then notify (withDB st db') else withDB st db'))) by by destruct (nf_promoted found).
  destruct (nf_candidate found); [done|]. destruct (wait _); cbn [fst]; etransitivity; try exact Hst; [|apply Ho].
  etransitivity; [apply Ho|apply IH].
Qed.

Lemma notifying_runs {A} call (tx : StoreDB -> result StoreError (A * bool * StoreDB)) st :
  (forall db a changed db', tx db = Ok (a, changed, db') -> runs db db') -> runs (ss_db st) (ss_db (fst (notifying call tx st))).
Proof.
  intros Htx. unfold notifying. destruct (begin call st) as [[]|]; [|done]. destruct (update _ _ _) as [st1 [[x ch]|e]] eqn:E;
    apply store_update_cases in E as [([a' ch'] & db' & Hok & Hfn & -> & _)|(e' & He & ->)]; try done.
  injection Hok as -> ->. destruct (tx (ss_db st)) as [[[x y] d]|] eqn:Et; [|done]. injection Hfn as -> -> ->. apply Htx in Et. by destruct ch'.
Qed.

Lemma commit_runs call rounds block st :
  rounds_run rounds -> block_input block -> runs (ss_db st) (ss_db (fst (CommitCanonicalBlock store call rounds block st))).
Proof.
  intros Hr Hin. unfold CommitCanonicalBlock. destruct (validateCanonicalBlock store block) as [[]|] eqn:Ev; [|done].
  destruct (begin call st) as [[]|]; [|done]. destruct (sortedMemberIDs _) as [members|] eqn:Em; [|done]. cbn [errOr].
  destruct (encodeBlock _ _) as [data|] eqn:Ee; [|done]. cbn [errOr]. apply runRounds_runs; [|done].
  intros call' db a changed db' H. destruct (commit_tx _ _ _ _ _ _) as [[ch d]|] eqn:Ec; [|done]. injection H as _ _ <-.
  by eapply runs_one, tx_commit.
Qed.

Lemma perform_runs op st : op_typed op -> runs (ss_db st) (ss_db (perform op st)).
Proof.
  destruct op as [call rounds c|call c|call id|call rounds network|call i|call id iid t|call id iid|call rounds block]; cbn [op_typed perform].
  - intros [Hr Hty]. unfold Put. destruct (validateInputCandidate store c) as [[]|] eqn:Ev; [|done]. destruct (begin call st) as [[]|]; [|done].
    apply runRounds_runs; [|done]. intros call' db a changed db' H. by eapply runs_one, tx_put.
  - intros Hty. unfold PutObserved. destruct (validateInputCandidate store c) as [[]|] eqn:Ev; [|done].
    apply notifying_runs. intros db a changed db' H. by eapply runs_one, tx_observe.
  - intros _. apply notifying_runs. intros db a changed db' H. by eapply runs_one, tx_remove.
  - intros Hr. unfold Next. destruct (negb _); [done|]. destruct (begin call st) as [[]|]; [|done]. by apply nextRounds_runs.
  - intros _. unfold PutIncident. destruct (encodeIncident i) as [enc|]; [|done]. destruct (negb _); [done|]. destruct (begin call st) as [[]|]; [|done].
    destruct (update _ _ _) as [st1 r] eqn:E. apply store_update_cases in E as [(a & db' & _ & Hfn & -> & _)|(e & _ & ->)]; [|done].
    by eapply runs_one, tx_incident.
  - intros Ht. unfold Nack. destruct (IsZero t); [done|]. apply notifying_runs. intros db a changed db' H. by eapply runs_one, tx_nack.
  - intros _. apply notifying_runs. intros db a changed db' H. by eapply runs_one, tx_ack.
  - intros [Hr Hin]. by apply commit_runs.
Qed.

End Ops.
End QueueOps.
Export QueueOps.
