(* ===== verification/QueueClaims.v ===== *)
(** * The queue and the chain: theorems

    Over every run of the store's transactions from an empty store: the queue
    stays within its bounds, unfinished work is never lost, [Next] returns the
    oldest ready candidate, promotion is fair, and the checkpoint covers exactly
    the acknowledged prefix of one linked chain. *)

From S2P Require Import Prelude GoTime Bytes Sha256 Domain Bolt StoreModel StoreLease StoreCodec StoreQueue StoreCanonical StoreCandidates QueueInv QueueSteps ChainSteps ChainCommit QueueOps.

Module QueueClaims.

Section Claims.
Context `{BL : BoltLaws} (store : BoltStore).

(** A store with no candidate, no block and no cursor. *)
Record fresh (db : StoreDB) : Prop := {
  fr_candidates : s_candidates db = b_empty;
  fr_pending : s_pending db = b_empty;
  fr_readyOrder : s_readyOrder db = b_empty;
  fr_blocks : s_blocks db = b_empty;
  fr_baseline : b_get (s_meta db) baselineKey = None;
  fr_cursor : b_get (s_meta db) scanCursorKey = None;
  fr_checkpoint : b_get (s_meta db) checkpointKey = None }.

(** What the operations can make of it. *)
Definition reachable (db : StoreDB) : Prop :=
  exists st0 ops, fresh (ss_db st0) /\ Forall (op_typed store) ops /\ db = ss_db (fold_left (fun st op => perform store op st) ops st0).

Lemma fold_runs ops st :
  Forall (op_typed store) ops -> runs store (ss_db st) (ss_db (fold_left (fun st op => perform store op st) ops st)).
Proof.
  intros Hty. revert st. induction Hty as [|op ops Ho _ IH]; intros st; cbn [fold_left]; [done|].
  etransitivity; [by apply perform_runs|apply IH].
Qed.

Lemma store_reachable_inv db : configured store -> reachable db -> StoreInv store db.
Proof.
  intros Hs (st0 & ops & [] & Hty & ->). destruct (fold_runs ops st0 Hty) as [acked Hr].
  eapply run_inv; [done| |exact Hr]. by apply empty_inv.
Qed.

(** C21. Whatever the operations and their interleaving, at most [MaxPending]
    candidates are ready, at most [MaxPending] are observed, and the unfinished
    ones fit the journal. *)
Theorem queue_stays_bounded db :
  configured store -> reachable db ->
  b_keyN (s_pending db) <= store_maxPending store /\ counted isObserved db <= store_maxPending store /\
  counted isUnfinished db <= store_journalCapacity store.
Proof. intros Hs Hr. destruct (store_reachable_inv db Hs Hr) as [[_ []] ? ? _]. done. Qed.

(** ** No work is lost *)

Lemma run_life acked db db' id r :
  configured store -> StoreInv store db -> tx_run store acked db db' -> Forall (fun ack : CandidateID -> Prop => ~ ack id) acked ->
  rec_at db id = Some r -> isUnfinished (Rec_Status r) = true ->
  exists r', rec_at db' id = Some r' /\ isUnfinished (Rec_Status r') = true /\ Rec_Candidate r' = Rec_Candidate r.
Proof.
  intros Hs Hi Hrun. revert r. induction Hrun as [|ack acks a b c Hstep _ IH]; intros r Hno Hr Hu; [by exists r|].
  apply Forall_cons in Hno as [Hn Hno]. destruct (tx_step_sound store Hs ack a b Hi Hstep) as [Hb Hl _].
  destruct (unfinished_kept _ _ _ _ r Hn (Hl id) Hr Hu) as (r1 & Hr1 & Hu1 & Hc1).
  destruct (IH Hb r1 Hno Hr1 Hu1) as (r2 & ? & ? & ?). exists r2. repeat split; try done. congruence.
Qed.

(** C22. A staged, ready or delayed candidate stays one of these, with the same
    data, through any run of transactions that does not acknowledge it. *)
Theorem unfinished_work_is_never_lost db acked db' id r :
  configured store -> reachable db -> tx_run store acked db db' -> Forall (fun ack : CandidateID -> Prop => ~ ack id) acked ->
  rec_at db id = Some r -> isUnfinished (Rec_Status r) = true ->
  exists r', rec_at db' id = Some r' /\ isUnfinished (Rec_Status r') = true /\ Rec_Candidate r' = Rec_Candidate r.
Proof. intros Hs Hr. by apply run_life, store_reachable_inv. Qed.

(** ** Next *)

Lemma readyHead_spec db found :
  readyHead store db = Ok found ->
  match b_entries (s_readyOrder db) with
  | [] => found = None
  | (_, v) :: _ => exists r, rec_at db v = Some r /\ Rec_Status r = CandidateReady /\ Candidate_ID (Rec_Candidate r) = v /\
      found = Some (Rec_Candidate r)
  end.
Proof.
  unfold readyHead.
  apply (foldM_invariant (fun past found => match past with
    | [] => found = None
    | (_, v) :: _ => exists r, rec_at db v = Some r /\ Rec_Status r = CandidateReady /\ Candidate_ID (Rec_Candidate r) = v /\
        found = Some (Rec_Candidate r) end)); [done|].
  intros past f [k v] f' Hpast. ok. ok Ed. destruct (decodeCandidateRecord _) as [r|] eqn:E' in Ed; [|done]. injection Ed as ->.
  apply rec_getNil in E'. ok. bool_hyps. intros [= <-]. destruct past as [|[k0 v0] past]; cbn.
  - subst f. exists a. rewrite bytes_eqb_spec in *. by repeat split.
  - destruct Hpast as (r0 & ? & ? & ? & ->). by exists r0.
Qed.

Lemma ready_order_least db o v rest :
  ReadyInv store db -> b_entries (s_readyOrder db) = (o, v) :: rest ->
  exists n, o = encodeUint64 n /\ b_get (s_readyOrder db) (encodeUint64 n) = Some v /\
    forall o' v', b_get (s_readyOrder db) o' = Some v' -> exists n', o' = encodeUint64 n' /\ n <= n'.
Proof.
  intros Hq Hent. pose proof (ri_sequence _ _ Hq) as Hseq.
  assert (Ho : b_get (s_readyOrder db) o = Some v) by (apply bl_entries_get; rewrite Hent; by left).
  destruct (ri_order _ _ Hq _ _ Ho) as (_ & n & Hn & ->). exists n. split; [done|]. split; [done|]. intros o' v' Ho'.
  destruct (ri_order _ _ Hq _ _ Ho') as (_ & n' & Hn' & ->). exists n'. split; [done|].
  pose proof (bl_entries_sorted (s_readyOrder db)) as Hs. rewrite Hent in Hs. cbn in Hs. inv Hs.
  apply bl_entries_get in Ho'. rewrite Hent in Ho'. apply elem_of_cons in Ho' as [E|Hin].
  - pose proof (f_equal fst E) as E1. cbn [fst] in E1. apply encodeUint64_inj in E1; unfold inU; lia.
  - rewrite Forall_forall in H2. specialize (H2 _ (list_elem_of_fmap_2 fst _ _ Hin)). cbn [fst] in H2.
    apply bytes_lt_value in H2; [|by rewrite !length_encodeUint64]. unfold encodeUint64, appendUint64 in H2. cbn [app] in H2.
    rewrite !be_value_bytes, !Z.mod_small in H2 by (cbn; lia). lia.
Qed.

(** A ready record has no retry time. *)
Lemma ready_record db id r :
  RecordsInv store db -> rec_at db id = Some r -> Rec_Status r = CandidateReady -> r = mkRecord CandidateReady zeroTime (Rec_Candidate r).
Proof.
  intros Hi Hr Hst. destruct (rec_at_get _ _ _ _ Hi Hr) as (w & _ & _ & Hsr).
  destruct (validateCandidateRecord_inv _ (sr_valid _ _ _ Hsr)) as (_ & _ & Hz). destruct r as [s t c]. cbn in *. subst s. f_equal.
  destruct (decide (t = zeroTime)) as [|Hne]; [done|]. by apply Hz in Hne.
Qed.

Lemma in_order db id r :
  ReadyInv store db -> rec_at db id = Some r -> Rec_Status r = CandidateReady -> exists o, b_get (s_readyOrder db) o = Some id.
Proof.
  intros Hq Hid Hst. destruct (proj2 (ri_ready _ _ Hq id)) as [o Ho]; [by exists r|]. exists o. by apply (ri_pending _ _ Hq).
Qed.

(** An empty order: nothing is ready, and after a promotion nothing waits. *)
Lemma nothing_waits now db :
  0 < store_maxPending store -> ReadyInv store db -> work_conserving store now db -> b_entries (s_readyOrder db) = [] ->
  forall id r, rec_at db id = Some r ->
    Rec_Status r <> CandidateReady /\ Rec_Status r <> CandidateStaged /\ (Rec_Status r = CandidateDelayed -> now < Rec_RetryAt r).
Proof.
  intros Hp Hq Hwork Hent. assert (Hnone : forall id r, rec_at db id = Some r -> Rec_Status r <> CandidateReady).
  { intros id r Hid Hst. destruct (in_order _ id r Hq Hid Hst) as [o Ho]. apply bl_entries_get in Ho. rewrite Hent in Ho. by apply elem_of_nil in Ho. }
  intros id r Hid. split; [by eapply Hnone|]. destruct Hwork as [Hfull|Hw].
  - exfalso. assert (Hlen : b_entries (s_pending db) = []).
    { destruct (b_entries (s_pending db)) as [|[k w] l] eqn:E'; [done|]. exfalso.
      assert (Hk : b_get (s_pending db) k = Some w) by (apply bl_entries_get; rewrite E'; by left).
      destruct (proj1 (ri_ready _ _ Hq k)) as (r' & Hr' & Hst'); [by exists w|]. by apply (Hnone k r'). }
    unfold b_keyN in Hfull. rewrite Hlen in Hfull. cbn in Hfull. lia.
  - destruct (Hw id r Hid) as [H1 H2]. split.
    + intros Hst. apply H1. done.
    + intros Hst. destruct (decide (Rec_RetryAt r <= now)) as [Hle|]; [|lia]. exfalso. by apply H2.
Qed.

(** C23. A candidate [Next] finds is ready and has waited longest: no ready
    candidate has a smaller place in the order.  When [Next] finds none, no
    candidate is ready, staged, or delayed and due. *)
Theorem next_is_first_in_first_out db call found db' :
  configured store -> reachable db -> next_tx store call db = Ok (found, db') ->
  match nf_candidate found with
  | Some c => exists n, b_get (s_readyOrder db') (encodeUint64 n) = Some (Candidate_ID c) /\
      rec_at db' (Candidate_ID c) = Some (mkRecord CandidateReady zeroTime c) /\
      forall id r, rec_at db' id = Some r -> Rec_Status r = CandidateReady ->
        exists n', b_get (s_readyOrder db') (encodeUint64 n') = Some id /\ n <= n'
  | None => forall id r, rec_at db' id = Some r ->
      Rec_Status r <> CandidateReady /\ Rec_Status r <> CandidateStaged /\
      (Rec_Status r = CandidateDelayed -> call_now call < Rec_RetryAt r)
  end.
Proof.
  intros Hs Hr. pose proof (store_reachable_inv db Hs Hr) as Hi. pose proof Hs as [Hp _]. unfold next_tx. ok. ok.
  destruct (promoteCandidates store _ db) as [d|] eqn:Ep; [|done]. ok. ok Eh. ok. intros [= <- <-]. cbn [nf_candidate].
  destruct (promoteCandidates_step store _ db d ltac:(lia) (si_queue _ _ Hi) Ep) as ([Hrec Hready _ _ _] & _ & Hwork & _).
  apply readyHead_spec in Eh. destruct (b_entries (s_readyOrder d)) as [|[o v] rest] eqn:Hent.
  - subst. by apply (nothing_waits (call_now call)).
  - destruct Eh as (r & Hr' & Hst & Hid & ->). rewrite Hid. destruct (ready_order_least _ _ _ _ Hready Hent) as (n & -> & Hn & Hleast).
    exists n. split; [done|]. split; [rewrite Hr'; f_equal; by eapply ready_record|].
    intros id x Hx Hxs. destruct (in_order _ id x Hready Hx Hxs) as [o' Ho']. destruct (Hleast o' id Ho') as (n' & -> & Hle). by exists n'.
Qed.

(** ** Promotion *)

(** One promotion fills the free places of the queue with a prefix of the
    staged and a prefix of the delayed candidates, in turns: while one kind is
    left waiting, the other got at most one place more. *)
Theorem promotion_is_fair n preferDelayed staged delayed ps turn :
  interleave n preferDelayed staged delayed = (ps, turn) ->
  exists s1 s2 d1 d2, staged = s1 ++ s2 /\ delayed = d1 ++ d2 /\ ps ≡ₚ s1 ++ d1 /\
    length ps = Nat.min n (length staged + length delayed) /\
    (s2 <> [] -> (length d1 <= length s1 + Nat.b2n preferDelayed)%nat) /\
    (d2 <> [] -> (length s1 <= length d1 + Nat.b2n (negb preferDelayed))%nat).
Proof. apply interleave_spec. Qed.

(** ** The chain *)

(** The baseline, the scan cursor and the checkpoint as the store has them. *)
Record chain_reads (db : StoreDB) (base : Z) (cursor : Checkpoint) (chk : option Checkpoint) : Prop := {
  cr_base : b_get (s_meta db) baselineKey = Some (encodeUint64 base);
  cr_range : inU 64 base;
  cr_cursor : exists data, b_get (s_meta db) scanCursorKey = Some data /\ decodeCheckpoint data = Ok cursor;
  cr_chk : match chk with
           | None => b_get (s_meta db) checkpointKey = None
           | Some c => exists data, b_get (s_meta db) checkpointKey = Some data /\ decodeCheckpoint data = Ok c
           end }.

Lemma core_reads db base cursor chk : ChainCore store db base cursor chk -> chain_reads db base cursor chk.
Proof.
  intros H. pose proof (cc_range _ _ _ _ _ H). constructor; [apply H|unfold inU; lia|apply H|].
  pose proof (cc_chk _ _ _ _ _ H) as Hc. destruct chk; [apply Hc|done].
Qed.

Lemma reads_unique db base cursor chk base' cursor' chk' :
  chain_reads db base cursor chk -> chain_reads db base' cursor' chk' -> base' = base /\ cursor' = cursor /\ chk' = chk.
Proof.
  intros [H1 Hr (d & Hd & Hc) H3] [H1' Hr' (d' & Hd' & Hc') H3']. split; [|split].
  - apply encodeUint64_inj; [done|done|congruence].
  - congruence.
  - destruct chk as [c|], chk' as [c'|]; try done; try destruct H3 as (? & ? & ?); try destruct H3' as (? & ? & ?); congruence.
Qed.

Lemma reads_core db base cursor chk :
  ChainInv store db -> chain_reads db base cursor chk -> ChainCore store db base cursor chk /\ maximal store db base cursor chk.
Proof.
  intros [(H & _)|(base' & cursor' & chk' & Hc & Hmax)] Hr; [rewrite (cr_base _ _ _ _ Hr) in H; done|].
  by destruct (reads_unique _ _ _ _ _ _ _ Hr (core_reads _ _ _ _ Hc)) as (-> & -> & ->).
Qed.

(** C25. The checkpoint is exact: every block up to it has only acknowledged
    candidates, and the block after it, if the cursor has passed it, has one that
    is not. *)
Theorem checkpoint_covers_exactly_the_acknowledged db base cursor chk :
  configured store -> reachable db -> chain_reads db base cursor chk ->
  (forall n b, base <= n <= confirmed base chk -> block_at store db n = Some b ->
     Forall (fun m => acked (rec_at db m)) (Block_Members b)) /\
  (confirmed base chk < CP_BlockNumber cursor ->
     exists b m, block_at store db (confirmed base chk + 1) = Some b /\ m ∈ Block_Members b /\ ~ acked (rec_at db m)).
Proof.
  intros Hs Hr Hreads. destruct (reads_core _ _ _ _ (si_chain _ _ (store_reachable_inv db Hs Hr)) Hreads) as [Hc Hmax].
  split; [intros n b; apply (cc_complete _ _ _ _ _ Hc)|]. intros Hlt.
  destruct (cc_block _ _ _ _ _ Hc (confirmed base chk + 1)) as (b & Hb & _);
    [pose proof (confirmed_low _ _ _ _ _ Hc); lia|]. exists b.
  specialize (Hmax Hlt b Hb). unfold complete in Hmax. apply not_Forall_Exists in Hmax; [|intros m; apply acked_dec].
  apply Exists_exists in Hmax as (m & Hm & Hna). by exists m.
Qed.

(** C26. The stored blocks are one chain: either the store has none, or, with
    the baseline, the cursor and the checkpoint the store has, exactly the
    blocks from the baseline to the cursor are stored, each under its own
    number, each names its parent by hash, the last is the cursor and the one of
    the checkpoint is the checkpoint, and the span up to the checkpoint and the
    span after it are both bounded. *)
Theorem chain_is_contiguous_and_linked db :
  configured store -> reachable db ->
  NoChain db \/ exists base cursor chk, chain_reads db base cursor chk /\
    (forall k, is_Some (b_get (s_blocks db) k) <-> exists n, base <= n <= CP_BlockNumber cursor /\ k = blockNumberKey n) /\
    (forall n, base <= n <= CP_BlockNumber cursor -> exists b, block_at store db n = Some b /\
       CP_BlockNumber (Block_Checkpoint b) = n /\
       (n = CP_BlockNumber cursor -> Block_Checkpoint b = cursor) /\
       (forall c, chk = Some c -> n = CP_BlockNumber c -> Block_Checkpoint b = c)) /\
    (forall n a b, base <= n < CP_BlockNumber cursor -> block_at store db n = Some a -> block_at store db (n + 1) = Some b ->
       Block_ParentHash b = CP_BlockHash (Block_Checkpoint a)) /\
    base - 1 <= confirmed base chk <= CP_BlockNumber cursor /\
    confirmed base chk - base + 1 <= canonicalBlockLimit /\ CP_BlockNumber cursor - confirmed base chk <= unconfirmedBlockLimit.
Proof.
  intros Hs Hr. destruct (chain_core _ _ (si_chain _ _ (store_reachable_inv db Hs Hr))) as [H|(base & cursor & chk & Hc)]; [by left|right].
  exists base, cursor, chk. pose proof (cc_confirmed _ _ _ _ _ Hc) as [? ?]. pose proof (confirmed_low _ _ _ _ _ Hc).
  split; [by apply core_reads|]. split; [|split; [|split; [apply Hc|split; [lia|split; [done|apply Hc]]]]].
  - intros k. split; [intros [v Hv]; exact (cc_keys _ _ _ _ _ Hc _ _ Hv)|]. intros (n & Hin & ->).
    destruct (cc_block _ _ _ _ _ Hc n Hin) as (b & (data & Hg & _)%block_at_get & _). by exists data.
  - intros n Hin. destruct (cc_block _ _ _ _ _ Hc n Hin) as (b & Hb & Hok). exists b. split; [done|].
    split; [apply Hok|]. split; [intros ->; by apply (cc_tip _ _ _ _ _ Hc)|].
    intros c -> ->. pose proof (cc_chk _ _ _ _ _ Hc) as (_ & _ & Hblk). by apply Hblk.
Qed.

(** No run of transactions moves the baseline, the scan cursor or the
    checkpoint back. *)
Theorem cursor_and_checkpoint_never_go_back db acked db' base cursor chk :
  configured store -> reachable db -> tx_run store acked db db' -> chain_reads db base cursor chk ->
  exists base' cursor' chk', chain_reads db' base' cursor' chk' /\
    base <= base' /\ CP_BlockNumber cursor <= CP_BlockNumber cursor' /\ confirmed base chk <= confirmed base' chk'.
Proof.
  intros Hs Hr Hrun Hreads. pose proof (store_reachable_inv db Hs Hr) as Hi.
  destruct (reads_core _ _ _ _ (si_chain _ _ Hi) Hreads) as [Hc _].
  destruct (proj2 (run_forward store Hs acked db db' Hi Hrun) _ _ _ Hc) as (b' & c' & k' & Hc' & ? & ? & ?).
  exists b', c', k'. split; [by apply core_reads|done].
Qed.

Lemma advanceLoop_mono fuel fuel' next db r :
  (fuel <= fuel')%nat -> advanceLoop store fuel next db = Some r -> advanceLoop store fuel' next db = Some r.
Proof.
  revert fuel' next db. induction fuel as [|fuel IH]; intros [|fuel'] next db Hle; try done; [lia|]. cbn [advanceLoop].
  destruct (b_get _ _); [|done]. match goal with |- match ?x with Ok _ => _ | Err _ => _ end = _ -> _ => destruct x as [[d stop]|] end; [|done].
  destruct stop; [done|]. apply IH. lia.
Qed.

(** The loop of [advanceCheckpoint] ends in every store, sound or not: it
    passes each stored block at most once, and more rounds change nothing. *)
Theorem advance_terminates next db :
  inU 64 next ->
  exists r, forall fuel, (length (b_entries (s_blocks db)) < fuel)%nat -> advanceLoop store fuel next db = Some r.
Proof.
  intros Hn. destruct (advance_fuel_enough store db next Hn) as [r Hr]. exists r. intros fuel Hf.
  eapply advanceLoop_mono; [|exact Hr]. unfold advanceFuel. lia.
Qed.

(** ** Discovered tokens *)

Definition overflowed (db : StoreDB) : Prop := b_get (s_meta db) discoveryOverflowKey = Some [recordVersion].

Lemma discoveredCount_ok db n :
  0 <= store_maxDiscoveredTokens store -> discoveredCount store db = Ok n ->
  n = b_keyN (s_discovered db) /\ n <= store_maxDiscoveredTokens store.
Proof.
  intros Hm. unfold discoveredCount, b_keyN.
  apply (foldM_invariant (fun past n => n = Z.of_nat (length past) /\ n <= store_maxDiscoveredTokens store)); [done|].
  intros past n' [k v] n'' [-> Hle]. ok. bool_hyps. intros [= <-]. rewrite length_app. cbn. lia.
Qed.

Record confirmed_tokens (db : StoreDB) (past : list Address) (d : StoreDB) (count : Z) : Prop := {
  ct_count : count = b_keyN (s_discovered d);
  ct_bound : count <= store_maxDiscoveredTokens store;
  ct_past a : a ∈ past -> is_Some (b_get (s_discovered d) a) \/ overflowed d;
  ct_old a : is_Some (b_get (s_discovered db) a) -> is_Some (b_get (s_discovered d) a) }.

Lemma confirmToken_tokens db past d count a d' count' :
  confirmed_tokens db past d count -> confirmToken store (d, count) a = Ok (d', count') -> confirmed_tokens db (past ++ [a]) d' count'.
Proof.
  intros [Hn Hb Hpast Hold]. unfold confirmToken. destruct (bool_decide _) eqn:Ek; bool_hyps.
  { intros [= <- <-]. constructor; try done. intros x [Hx| ->%list_elem_of_singleton]%elem_of_app; [by apply Hpast|by left]. }
  destruct (_ =? _) eqn:Em; bool_hyps.
  - destruct (put _ _ _) as [meta|] eqn:Ep; [|done]. apply store_put_inv in Ep. intros [= <- <-].
    constructor; try done. intros x _. right. unfold overflowed. cbn [s_meta set_meta]. by eapply b_get_put_eq.
  - destruct (put _ _ _) as [b|] eqn:Ep; [|done]. apply store_put_inv in Ep. intros [= <- <-]. apply eq_None_not_Some in Ek.
    assert (Hget : forall x, is_Some (b_get b x) <-> x = a \/ is_Some (b_get (s_discovered d) x)).
    { intros x. rewrite (bl_get_put _ _ _ _ _ Ep). case_decide as E; [split; [by left|by eexists]|]. split; [by right|].
      intros [->|?]; [by destruct E|done]. }
    constructor; cbn [s_discovered set_discovered].
    + rewrite (b_keyN_put_new _ _ _ _ Ek Ep). lia.
    + lia.
    + intros x [Hx| ->%list_elem_of_singleton]%elem_of_app; [|left; apply Hget; by left].
      destruct (Hpast x Hx) as [?|?]; [left; apply Hget; by right|by right].
    + intros x Hx. apply Hget. right. by apply Hold.
Qed.

(** Confirming a block's tokens keeps the table within its bound and
    forgets none; each token of the block is in the table afterwards, or the
    overflow is flagged. *)
Theorem discovered_tokens_bounded_or_flagged db cs db' :
  0 <= store_maxDiscoveredTokens store -> confirmDiscoveredTokens store cs db = Ok db' ->
  b_keyN (s_discovered db') <= store_maxDiscoveredTokens store /\
  (forall a, is_Some (b_get (s_discovered db) a) -> is_Some (b_get (s_discovered db') a)) /\
  forall c, c ∈ cs -> Candidate_Kind c = CandidateToken ->
    is_Some (b_get (s_discovered db') (Token_Address (Candidate_Token c))) \/ overflowed db'.
Proof.
  intros Hm. unfold confirmDiscoveredTokens. ok Ec. apply (discoveredCount_ok _ _ Hm) in Ec as [-> Hle].
  destruct (foldM _ _ _) as [[d n]|] eqn:Ef; [|done]. intros [= <-].
  assert (Ht : confirmed_tokens db (newTokens db cs) d n).
  { revert Ef. apply (foldM_invariant (fun past '(x, count) => confirmed_tokens db past x count)).
    - constructor; try done. by intros a ?%elem_of_nil.
    - intros past [x k] a [x' k']. apply confirmToken_tokens. }
  destruct Ht as [-> Hb Hpast Hold]. split; [done|]. split; [done|]. intros c Hin Hkind.
  destruct (b_get (s_discovered db) (Token_Address (Candidate_Token c))) as [v|] eqn:Eg; [left; apply Hold; by exists v|].
  apply Hpast. unfold newTokens. rewrite merge_sort_Permutation. apply elem_of_remove_dups, list_elem_of_fmap. exists c. split; [done|].
  by apply list_elem_of_filter.
Qed.

End Claims.
(** ** Witnesses *)

Module QueueExamples.
Import MapBolt.

Definition q_source : Address := repeat Byte.x01 20.
Definition q_store : BoltStore :=
  mkStore 1 q_source (repeat Byte.x02 20) (repeat Byte.x03 20) (repeat Byte.x04 20) 2 100000 4 (repeat Byte.x05 32).
Definition q_call : Call := mkCall (LiveContext None None) (unixTime 1000 0) false.

(** One log candidate in each of two blocks, the second block on the first. *)
Definition q_token : Token := mkToken (repeat Byte.x08 20) [] 18.
Definition q_first : RescueCandidate := NewLogCandidate 1 q_source q_token (repeat Byte.x0a 32) (repeat Byte.x0b 32) 10 0.
Definition q_second : RescueCandidate := NewLogCandidate 1 q_source q_token (repeat Byte.x0c 32) (repeat Byte.x0b 32) 11 0.
Definition q_block10 : CanonicalBlock := mkCanonicalBlock (mkCheckpoint 1 10 (repeat Byte.x0a 32)) (repeat Byte.x0d 32) [q_first].
Definition q_block11 : CanonicalBlock := mkCanonicalBlock (mkCheckpoint 1 11 (repeat Byte.x0c 32)) (repeat Byte.x0a 32) [q_second].
Definition q_incident : Incident := mkIncident (NewIncidentID (Candidate_ID q_first)) (Candidate_ID q_first) 1 (unixTime 900 0).

(** A round nobody interferes with. *)
Definition q_rounds : list Round := [mkRound q_call WaitWoken (fun st => st)].

Definition q_ops : list Operation :=
  [OpCommit q_call q_rounds q_block10; OpNext q_call q_rounds 1; OpPutIncident q_call q_incident;
   OpAck q_call (Candidate_ID q_first) (Incident_ID q_incident); OpCommit q_call q_rounds q_block11].

Definition q_empty : StoreState :=
  mkStoreState false (mkStoreDB b_empty b_empty b_empty b_empty b_empty b_empty b_empty b_empty b_empty b_empty b_empty) 0 ∅ ∅ 0.
Definition q_state : StoreState := fold_left (fun st op => perform q_store op st) q_ops q_empty.
Definition q_db : StoreDB := ss_db q_state.

Lemma q_configured : configured q_store.
Proof. constructor; cbn; lia. Qed.

Lemma q_typed (bh : Hash) n : isHash bh -> inU 64 n -> input_typed (NewLogCandidate 1 q_source q_token bh (repeat Byte.x0b 32) n 0).
Proof. intros Hh Hn. constructor; [constructor; try done|done|done|by vm_compute]. Qed.

Lemma q_rounds_run : rounds_run q_store q_rounds.
Proof. constructor; [|constructor]. intros st. cbn. apply runs_refl. Qed.

Lemma q_block_input n (bh parent : Hash) :
  isHash bh -> isHash parent -> inU 64 n ->
  block_input (mkCanonicalBlock (mkCheckpoint 1 n bh) parent [NewLogCandidate 1 q_source q_token bh (repeat Byte.x0b 32) n 0]).
Proof.
  intros Hb Hp Hn. constructor; cbn; [by constructor|done|]. constructor; [|constructor]. split; [by apply q_typed|done].
Qed.

Lemma q_ops_typed : Forall (op_typed q_store) q_ops.
Proof.
  constructor; [split; [apply q_rounds_run|by apply (q_block_input 10)]|]. constructor; [apply q_rounds_run|]. constructor; [done|].
  constructor; [done|]. constructor; [|constructor]. split; [apply q_rounds_run|by apply (q_block_input 11)].
Qed.

Lemma q_reachable : reachable q_store q_db.
Proof. exists q_empty, q_ops. split; [by constructor|]. split; [apply q_ops_typed|done]. Qed.

Lemma queue_stays_bounded_witness :
  b_keyN (s_pending q_db) <= 2 /\ counted isObserved q_db <= 2 /\ counted isUnfinished q_db <= 100000.
Proof. exact (queue_stays_bounded q_store q_db q_configured q_reachable). Defined.

Lemma q_second_ready : rec_at q_db (Candidate_ID q_second) = Some (mkRecord CandidateReady zeroTime q_second).
Proof. apply (bool_decide_eq_true_1 (_ = _)). vm_compute. reflexivity. Qed.

Lemma q_next : exists found db', next_tx q_store q_call q_db = Ok (found, db') /\ nf_candidate found = Some q_second.
Proof.
  assert (H : match next_tx q_store q_call q_db with Ok (f, _) => bool_decide (nf_candidate f = Some q_second) | Err _ => false end = true)
    by (vm_compute; reflexivity).
  destruct (next_tx q_store q_call q_db) as [[f d]|]; [|discriminate H]. exists f, d. split; [reflexivity|]. exact (bool_decide_eq_true_1 _ H).
Qed.

Lemma unfinished_work_is_never_lost_witness :
  exists db' r', rec_at db' (Candidate_ID q_second) = Some r' /\ isUnfinished (Rec_Status r') = true /\ Rec_Candidate r' = q_second.
Proof.
  destruct q_next as (f & d & E & _).
  destruct (unfinished_work_is_never_lost q_store q_db [nobody] d (Candidate_ID q_second) _ q_configured q_reachable
    (run_cons q_store _ _ _ _ _ (tx_next q_store q_call f q_db d E) (run_nil q_store d))
    (Forall_cons_2 _ _ _ (fun H => H) (Forall_nil_2 _)) q_second_ready eq_refl) as (r' & H1 & H2 & H3).
  exists d, r'. exact (conj H1 (conj H2 H3)).
Defined.

Lemma next_is_first_in_first_out_witness :
  exists db' n, b_get (s_readyOrder db') (encodeUint64 n) = Some (Candidate_ID q_second).
Proof.
  destruct q_next as (f & d & E & Hc). pose proof (next_is_first_in_first_out q_store q_db q_call f d q_configured q_reachable E) as H.
  rewrite Hc in H. destruct H as (n & Hn & _). exists d, n. exact Hn.
Defined.

Lemma q_reads : chain_reads q_db 10 (mkCheckpoint 1 11 (repeat Byte.x0c 32)) (Some (mkCheckpoint 1 10 (repeat Byte.x0a 32))).
Proof.
  constructor.
  - apply (bool_decide_eq_true_1 (_ = _)). vm_compute. reflexivity.
  - by vm_compute.
  - exists (default [] (b_get (s_meta q_db) scanCursorKey)).
    split; apply (bool_decide_eq_true_1 (_ = _)); vm_compute; reflexivity.
  - exists (default [] (b_get (s_meta q_db) checkpointKey)).
    split; apply (bool_decide_eq_true_1 (_ = _)); vm_compute; reflexivity.
Qed.

Lemma checkpoint_covers_exactly_the_acknowledged_witness :
  exists b m, block_at q_store q_db 11 = Some b /\ m ∈ Block_Members b /\ ~ acked (rec_at q_db m).
Proof.
  destruct (checkpoint_covers_exactly_the_acknowledged q_store q_db _ _ _ q_configured q_reachable q_reads) as [_ H].
  apply H. cbn. lia.
Defined.

Lemma absent {A} (o : option A) (P : Prop) : (is_Some o <-> P) -> ~ P -> o = None.
Proof. destruct o as [x|]; [|done]. intros H Hn. destruct Hn. apply H. by exists x. Qed.

(** The two committed blocks: both stored, the second on the first, the cursor
    on the second and the checkpoint on the first. *)
Lemma chain_is_contiguous_and_linked_witness :
  exists a b, block_at q_store q_db 10 = Some a /\ block_at q_store q_db 11 = Some b /\
    Block_Checkpoint a = mkCheckpoint 1 10 (repeat Byte.x0a 32) /\ Block_Checkpoint b = mkCheckpoint 1 11 (repeat Byte.x0c 32) /\
    Block_ParentHash b = CP_BlockHash (Block_Checkpoint a) /\ b_get (s_blocks q_db) (blockNumberKey 12) = None.
Proof.
  destruct (chain_is_contiguous_and_linked q_store q_db q_configured q_reachable) as [(H & _)|(base & c & k & H & Hk & Hb & Hl & _)].
  { exfalso. rewrite (cr_base _ _ _ _ q_reads) in H. discriminate H. }
  destruct (reads_unique _ _ _ _ _ _ _ q_reads H) as (-> & -> & ->). cbn [CP_BlockNumber] in *.
  destruct (Hb 10) as (a & Ha & _ & _ & Hchk); [lia|]. destruct (Hb 11) as (b & Hb' & _ & Htip & _); [lia|].
  exists a, b. split; [exact Ha|]. split; [exact Hb'|]. split; [exact (Hchk _ eq_refl eq_refl)|]. split; [exact (Htip eq_refl)|].
  split; [apply (Hl 10); [lia|exact Ha|exact Hb']|].
  refine (absent _ _ (Hk (blockNumberKey 12)) _). intros (n & Hn & Hkey).
  clear -Hn Hkey. apply blockNumberKey_inj in Hkey; unfold inU; lia.
Defined.

Lemma cursor_and_checkpoint_never_go_back_witness :
  exists db' base' cursor' chk', chain_reads db' base' cursor' chk' /\ 11 <= CP_BlockNumber cursor' /\ 10 <= confirmed base' chk'.
Proof.
  destruct q_next as (f & d & E & _).
  destruct (cursor_and_checkpoint_never_go_back q_store q_db [nobody] d _ _ _ q_configured q_reachable
    (run_cons q_store _ _ _ _ _ (tx_next q_store q_call f q_db d E) (run_nil q_store d)) q_reads) as (b & c & k & H1 & _ & H2 & H3).
  exists d, b, c, k. exact (conj H1 (conj H2 H3)).
Defined.

End QueueExamples.

End QueueClaims.
Export QueueClaims.
