(* ===== verification/CodecClaims.v ===== *)
(** * Identifiers, records and operations: theorems

    What is written is read back, what is read is well formed, identifiers bind
    what they are made of, and every operation is a sequence of transactions. *)

From S2P Require Import Prelude GoTime Bytes Sha256 Domain Bolt BudgetModel StoreModel StoreLease StoreCodec StoreQueue StoreCanonical StoreCandidates QueueInv QueueSteps ChainSteps ChainCommit QueueOps QueueClaims.

Module CodecClaims.

(** Every public writing operation of the queue and the chain, waiting ones
    included, changes the store only through its transactions, in sequence with
    those that run between its rounds. *)
Theorem operations_are_transaction_sequences `{BL : BoltLaws} store op st :
  op_typed store op -> exists acked, tx_run store acked (ss_db st) (ss_db (perform store op st)).
Proof. apply perform_runs. Qed.

(** C31. Candidate records, incidents, blocks and checkpoints are read back
    exactly as they were written. *)
Theorem store_records_roundtrip :
  (forall r data, record_typed r -> encodeCandidateRecord r = Ok data -> decodeCandidateRecord data = Ok r) /\
  (forall i data, - 2 ^ 63 <= Incident_Network i < 2 ^ 63 -> isHash (Incident_Candidate i) -> time_ok (Incident_CreatedAt i) ->
     encodeIncident i = Ok data -> decodeIncident data = Ok i) /\
  (forall b maxMembers data, block_typed b -> maxMembers < 2 ^ 32 -> encodeBlock b maxMembers = Ok data -> decodeBlock data maxMembers = Ok b) /\
  (forall c data, checkpoint_typed c -> encodeCheckpoint c = Ok data -> decodeCheckpoint data = Ok c).
Proof.
  split; [apply decode_encodeCandidateRecord|]. split; [apply decode_encodeIncident|].
  split; [apply decode_encodeBlock|apply decode_encodeCheckpoint].
Qed.

(** Whatever bytes are in the database, a record or block that decodes is of
    its Go types and passes its validation. *)
Theorem decoded_records_are_well_typed :
  (forall data r, decodeCandidateRecord data = Ok r -> record_typed r /\ validateCandidateRecord r = Ok tt) /\
  (forall data maxMembers b, decodeBlock data maxMembers = Ok b -> block_typed b /\ validateBlockRecord b maxMembers = Ok tt) /\
  (forall data c, decodeCheckpoint data = Ok c -> checkpoint_typed c /\ 0 < CP_Network c /\ is_zero_bytes (CP_BlockHash c) = false).
Proof.
  split; [|split; [|apply decodeCheckpoint_typed]].
  - intros data r H. split; [by eapply decodeCandidateRecord_typed|by eapply decodeCandidateRecord_valid].
  - intros data n b H. split; [by eapply decodeBlock_typed|by eapply decodeBlock_valid].
Qed.

(** The bytes a candidate's ID hashes determine its identity (network, kind,
    source, token, block, transaction, log and observation), and those a claim's
    digest hashes determine the whole plan. *)
Theorem identifiers_bind_their_content :
  (forall c d, candidate_typed c -> candidate_typed d -> candidatePreimage c = candidatePreimage d <-> candidateIdentity c = candidateIdentity d) /\
  (forall p q, plan_typed p -> plan_typed q -> claimPreimage p = claimPreimage q -> p = q).
Proof.
  split; [|apply claimPreimage_inj]. intros c d Hc Hd. split; [by apply candidatePreimage_inj|].
  apply candidatePreimage_identity.
Qed.

(** ** Witnesses *)

Module CodecExamples.
Import MapBolt QueueExamples.

End CodecExamples.

End CodecClaims.
Export CodecClaims.
