(* ===== verification/StoreRescue.v ===== *)
(** * internal/store/rescue_state.go: the life of a rescue operation

    One [RescueIncident] per rescue of one asset: its record codec, the state
    machine of its status and the operations on the rescue-incidents bucket,
    with the nonce floor of the sponsor.  Parsing of the signed transaction is
    go-ethereum's [types.Transaction.UnmarshalBinary], a parameter
    ([TxCodec]). *)

From S2P Require Import Prelude GoTime Bytes Sha256 Domain Bolt StoreModel StoreLease.
From Stdlib Require Import Strings.Byte.

Module StoreRescue.

Definition rescueRecordVersion : byte := x02.
Definition latestRescueRecordVersion : byte := x03.
Definition maxErrorCodeBytes : Z := 128.
Definition maxSignedTransactionLen : Z := 131072.

(** [RescueStatus] is a [uint8]; the named ones are 1 to 11. *)
Inductive RescueStatus :=
| RescuePending
| RescuePrepared
| RescueSigned
| RescueBroadcast
| RescueRetryable
| RescueAmbiguous
| RescueExhausted
| RescueFailed
| RescueTrustedSuccess
| RescueTokenReported
| RescueLostRace
| RescueStatusOther (b : byte).

#[export] Instance RescueStatus_eq_dec : EqDecision RescueStatus.
Proof. solve_decision. Defined.

Definition rescue_byte (s : RescueStatus) : byte :=
  match s with
  | RescuePending => x01 | RescuePrepared => x02 | RescueSigned => x03 | RescueBroadcast => x04
  | RescueRetryable => x05 | RescueAmbiguous => x06 | RescueExhausted => x07 | RescueFailed => x08
  | RescueTrustedSuccess => x09 | RescueTokenReported => x0a | RescueLostRace => x0b
  | RescueStatusOther b => b
  end.

Definition rescue_of_byte (b : byte) : RescueStatus :=
  match b with
  | x01 => RescuePending | x02 => RescuePrepared | x03 => RescueSigned | x04 => RescueBroadcast
  | x05 => RescueRetryable | x06 => RescueAmbiguous | x07 => RescueExhausted | x08 => RescueFailed
  | x09 => RescueTrustedSuccess | x0a => RescueTokenReported | x0b => RescueLostRace
  | _ => RescueStatusOther b
  end.

Record RescuePolicySnapshot := mkPolicySnapshot {
  Pol_LatestState : bool;
  Pol_MaxAttempts : Z;
  Pol_RetryDelay : Duration;
  Pol_FinalityTimeout : Duration }.

#[export] Instance RescuePolicySnapshot_eq_dec : EqDecision RescuePolicySnapshot.
Proof. solve_decision. Defined.

Record RescueIncident := mkRescue {
  R_ID : IncidentID;
  R_Parent : IncidentID;
  R_Candidate : CandidateID;
  R_Network : NetworkID;
  R_Kind : CandidateKind;
  R_Asset : Address;
  R_Generation : Z;
  R_Trusted : bool;
  R_Policy : RescuePolicySnapshot;
  R_Status : RescueStatus;
  R_Attempts : Z;
  R_SponsorNonce : Z;
  R_SourceNonce : Z;
  R_TxHash : Hash;
  R_SignedTransaction : bytes;
  R_SnapshotBlockNumber : Z;
  R_SnapshotBlockHash : Hash;
  R_SourceBefore : bytes;
  R_DestinationBefore : bytes;
  R_RetryAt : Time;
  R_ReconcileUntil : Time;
  R_LastCode : bytes;
  R_CreatedAt : Time;
  R_UpdatedAt : Time }.

#[export] Instance RescueIncident_eq_dec : EqDecision RescueIncident.
Proof. solve_decision. Defined.

Definition withStatus (i : RescueIncident) (s : RescueStatus) : RescueIncident :=
  mkRescue (R_ID i) (R_Parent i) (R_Candidate i) (R_Network i) (R_Kind i) (R_Asset i) (R_Generation i) (R_Trusted i)
    (R_Policy i) s (R_Attempts i) (R_SponsorNonce i) (R_SourceNonce i) (R_TxHash i) (R_SignedTransaction i)
    (R_SnapshotBlockNumber i) (R_SnapshotBlockHash i) (R_SourceBefore i) (R_DestinationBefore i) (R_RetryAt i)
    (R_ReconcileUntil i) (R_LastCode i) (R_CreatedAt i) (R_UpdatedAt i).

Definition withSourceNonce (i : RescueIncident) (n : Z) : RescueIncident :=
  mkRescue (R_ID i) (R_Parent i) (R_Candidate i) (R_Network i) (R_Kind i) (R_Asset i) (R_Generation i) (R_Trusted i)
    (R_Policy i) (R_Status i) (R_Attempts i) (R_SponsorNonce i) n (R_TxHash i) (R_SignedTransaction i)
    (R_SnapshotBlockNumber i) (R_SnapshotBlockHash i) (R_SourceBefore i) (R_DestinationBefore i) (R_RetryAt i)
    (R_ReconcileUntil i) (R_LastCode i) (R_CreatedAt i) (R_UpdatedAt i).

(** What [validateSignedRescueTransaction] reads of a decoded transaction. *)
Record Transaction := mkTransaction {
  Tx_IsSetCode : bool;
  Tx_Hash : Hash;
  Tx_Nonce : Z;
  Tx_Data : bytes;
  Tx_AuthorizationNonces : list Z }.

Class TxCodec := { UnmarshalBinary : bytes -> option Transaction }.

Definition normalizeRescueIncident (i : RescueIncident) : RescueIncident :=
  mkRescue (R_ID i) (R_Parent i) (R_Candidate i) (R_Network i) (R_Kind i) (R_Asset i) (R_Generation i) (R_Trusted i)
    (R_Policy i) (R_Status i) (R_Attempts i) (R_SponsorNonce i) (R_SourceNonce i) (R_TxHash i) (R_SignedTransaction i)
    (R_SnapshotBlockNumber i) (R_SnapshotBlockHash i) (R_SourceBefore i) (R_DestinationBefore i)
    (normalizeStoreTime (R_RetryAt i)) (normalizeStoreTime (R_ReconcileUntil i)) (R_LastCode i)
    (normalizeStoreTime (R_CreatedAt i)) (normalizeStoreTime (R_UpdatedAt i)).

(** ** Predicates on incidents *)

Definition validRescueStatus (s : RescueStatus) : bool :=
  match s with RescueStatusOther _ => false | _ => true end.

Definition isTerminalRescueStatus (s : RescueStatus) : bool :=
  match s with
  | RescueExhausted | RescueFailed | RescueTrustedSuccess | RescueTokenReported | RescueLostRace => true
  | _ => false
  end.

Definition isReceiptTerminalStatus (s : RescueStatus) : bool :=
  match s with
  | RescueFailed | RescueTrustedSuccess | RescueTokenReported | RescueLostRace => true
  | _ => false
  end.

Definition hasNoSignedTransaction (i : RescueIncident) : bool :=
  is_zero_bytes (R_TxHash i) && (len (R_SignedTransaction i) =? 0) && IsZero (R_ReconcileUntil i).

Definition sameRescueIdentity (l r : RescueIncident) : bool :=
  bytes_eqb (R_ID l) (R_ID r) && bytes_eqb (R_Parent l) (R_Parent r) && bytes_eqb (R_Candidate l) (R_Candidate r)
  && (R_Network l =? R_Network r) && bool_decide (R_Kind l = R_Kind r) && bytes_eqb (R_Asset l) (R_Asset r)
  && (R_Generation l =? R_Generation r) && Bool.eqb (R_Trusted l) (R_Trusted r) && bool_decide (R_Policy l = R_Policy r).

Definition sameRescuePreparation (l r : RescueIncident) : bool :=
  (R_SponsorNonce l =? R_SponsorNonce r) && (R_SourceNonce l =? R_SourceNonce r)
  && (R_SnapshotBlockNumber l =? R_SnapshotBlockNumber r) && bytes_eqb (R_SnapshotBlockHash l) (R_SnapshotBlockHash r)
  && bytes_eqb (R_SourceBefore l) (R_SourceBefore r) && bytes_eqb (R_DestinationBefore l) (R_DestinationBefore r).

Definition sameSignedRescueOperation (l r : RescueIncident) : bool :=
  (R_Attempts l =? R_Attempts r) && sameRescuePreparation l r && bytes_eqb (R_TxHash l) (R_TxHash r)
  && bytes_eqb (R_SignedTransaction l) (R_SignedTransaction r).

Definition sameRescueIncident (l r : RescueIncident) : bool :=
  let l := normalizeRescueIncident l in
  let r := normalizeRescueIncident r in
  sameRescueIdentity l r && bool_decide (R_Status l = R_Status r) && (R_Attempts l =? R_Attempts r)
  && (R_SponsorNonce l =? R_SponsorNonce r) && (R_SourceNonce l =? R_SourceNonce r) && bytes_eqb (R_TxHash l) (R_TxHash r)
  && bytes_eqb (R_SignedTransaction l) (R_SignedTransaction r) && (R_SnapshotBlockNumber l =? R_SnapshotBlockNumber r)
  && bytes_eqb (R_SnapshotBlockHash l) (R_SnapshotBlockHash r) && bytes_eqb (R_SourceBefore l) (R_SourceBefore r)
  && bytes_eqb (R_DestinationBefore l) (R_DestinationBefore r) && TimeEqual (R_RetryAt l) (R_RetryAt r)
  && TimeEqual (R_ReconcileUntil l) (R_ReconcileUntil r) && bytes_eqb (R_LastCode l) (R_LastCode r)
  && TimeEqual (R_CreatedAt l) (R_CreatedAt r) && TimeEqual (R_UpdatedAt l) (R_UpdatedAt r).

Definition validReceiptTerminalTransition (current next : RescueIncident) : bool :=
  if negb (R_Attempts next =? R_Attempts current) || negb (sameRescuePreparation current next)
     || negb (bytes_eqb (R_TxHash next) (R_TxHash current)) then false
  else if len (R_SignedTransaction next) =? 0 then IsZero (R_ReconcileUntil next)
  else bytes_eqb (R_SignedTransaction next) (R_SignedTransaction current)
       && (IsZero (R_ReconcileUntil next) || TimeEqual (R_ReconcileUntil next) (R_ReconcileUntil current)).

Definition isStatus (i : RescueIncident) (s : RescueStatus) : bool := bool_decide (R_Status i = s).

Definition validRescueTransition (current next : RescueIncident) : bool :=
  if negb (sameRescueIdentity current next) || negb (TimeEqual (R_CreatedAt current) (R_CreatedAt next))
     || Before (R_UpdatedAt next) (R_UpdatedAt current) then false
  else
  match R_Status current with
  | RescuePending => (isStatus next RescuePrepared || isStatus next RescueRetryable) && (R_Attempts next =? 1)
  | RescuePrepared =>
      let prepared := if isStatus next RescueSigned then withSourceNonce current (R_SourceNonce next) else current in
      if negb (R_Attempts next =? R_Attempts current) || negb (sameRescuePreparation prepared next) then false
      else (isStatus next RescueSigned
            && (Pol_FinalityTimeout (R_Policy next) <=? Sub (R_ReconcileUntil next) (R_UpdatedAt next)))
           || isStatus next RescueRetryable || isStatus next RescueExhausted
           || (isStatus next RescueFailed && is_zero_bytes (R_TxHash next))
  | RescueSigned =>
      (isStatus next RescueBroadcast || isStatus next RescueAmbiguous) && sameSignedRescueOperation current next
      && TimeEqual (R_ReconcileUntil next) (R_ReconcileUntil current)
  | RescueBroadcast =>
      if isStatus next RescueAmbiguous
      then sameSignedRescueOperation current next && TimeEqual (R_ReconcileUntil next) (R_ReconcileUntil current)
      else isReceiptTerminalStatus (R_Status next) && validReceiptTerminalTransition current next
  | RescueRetryable =>
      if IsZero (R_RetryAt current) || Before (R_UpdatedAt next) (R_RetryAt current) then false
      else
      match R_Status next with
      | RescuePrepared | RescueRetryable => (R_Attempts current <? 2 ^ 32 - 1) && (R_Attempts next =? R_Attempts current + 1)
      | RescueExhausted => (R_Attempts next =? R_Attempts current) && sameRescuePreparation current next
      | RescueFailed =>
          (R_Attempts next =? R_Attempts current) && is_zero_bytes (R_TxHash next) && sameRescuePreparation current next
      | _ => false
      end
  | RescueAmbiguous =>
      match R_Status next with
      | RescueBroadcast =>
          sameSignedRescueOperation current next && TimeEqual (R_ReconcileUntil next) (R_ReconcileUntil current)
      | RescueAmbiguous =>
          sameSignedRescueOperation current next && negb (Before (R_ReconcileUntil next) (R_ReconcileUntil current))
          && (Sub (R_ReconcileUntil next) (R_ReconcileUntil current) <=? Pol_FinalityTimeout (R_Policy current))
      | _ => isReceiptTerminalStatus (R_Status next) && validReceiptTerminalTransition current next
      end
  | _ => false
  end.

Section Rescue.
Context {T : TxCodec}.

Definition validateSignedRescueTransaction (i : RescueIncident) : result StoreError unit :=
  reject (len (R_SignedTransaction i) =? 0) || (maxSignedTransactionLen <? len (R_SignedTransaction i))
      || is_zero_bytes (R_TxHash i) with errInvalidRecord in
  let? tx := UnmarshalBinary (R_SignedTransaction i) orelse errInvalidRecord in
  reject negb (Tx_IsSetCode tx) || negb (bytes_eqb (Tx_Hash tx) (R_TxHash i)) || negb (Tx_Nonce tx =? R_SponsorNonce i)
      || (len (Tx_Data tx) =? 0) with errInvalidRecord in
  match Tx_AuthorizationNonces tx with
  | [nonce] => reject negb (nonce =? R_SourceNonce i) with errInvalidRecord in Ok tt
  | _ => Err errInvalidRecord
  end.

Definition validTerminalSignedState (i : RescueIncident) : bool :=
  if is_zero_bytes (R_TxHash i) then (len (R_SignedTransaction i) =? 0) && IsZero (R_ReconcileUntil i)
  else if len (R_SignedTransaction i) =? 0 then IsZero (R_ReconcileUntil i)
  else isOk (validateSignedRescueTransaction i).

(** The checks before those of the status. *)
Definition validateRescueCommon (i : RescueIncident) : result StoreError unit :=
  reject (R_Network i <=? 0) || is_zero_bytes (R_Candidate i) || (R_Generation i =? 0)
      || negb (bytes_eqb (R_ID i) (NewAssetIncidentID (R_Candidate i) (R_Kind i) (R_Asset i)))
      || negb (bytes_eqb (R_Parent i) (NewIncidentID (R_Candidate i))) with errInvalidRecord in
  let! _ := match R_Kind i with
            | CandidateNative => reject negb (is_zero_bytes (R_Asset i)) with errInvalidRecord in Ok tt
            | CandidateToken | CandidateClaim => reject is_zero_bytes (R_Asset i) with errInvalidRecord in Ok tt
            | _ => Err errInvalidRecord
            end in
  reject (Pol_MaxAttempts (R_Policy i) =? 0) || (maxConfiguredBound <? Pol_MaxAttempts (R_Policy i))
      || (Pol_RetryDelay (R_Policy i) <=? 0) || (Pol_FinalityTimeout (R_Policy i) <=? 0)
      || (Pol_MaxAttempts (R_Policy i) <? R_Attempts i) || (maxErrorCodeBytes <? len (R_LastCode i))
      || (maxSignedTransactionLen <? len (R_SignedTransaction i)) with errInvalidRecord in
  reject negb (validRescueTime (R_CreatedAt i)) || negb (validRescueTime (R_UpdatedAt i))
      || Before (R_UpdatedAt i) (R_CreatedAt i) with errInvalidRecord in
  reject (negb (IsZero (R_RetryAt i)) && negb (validRescueTime (R_RetryAt i)))
      || (negb (IsZero (R_ReconcileUntil i)) && negb (validRescueTime (R_ReconcileUntil i)))
      || negb (validRescueStatus (R_Status i)) with errInvalidRecord in
  Ok tt.

(** The checks of a status other than pending. *)
Definition validateRescueStatus (i : RescueIncident) : result StoreError unit :=
  reject (R_Attempts i =? 0) || is_zero_bytes (R_SnapshotBlockHash i) with errInvalidRecord in
  let! _ := match R_Status i with
    | RescuePrepared | RescueExhausted =>
        reject negb (hasNoSignedTransaction i) || negb (IsZero (R_RetryAt i)) with errInvalidRecord in Ok tt
    | RescueRetryable =>
        reject negb (hasNoSignedTransaction i) || (len (R_LastCode i) =? 0) || IsZero (R_RetryAt i)
            || Before (R_RetryAt i) (R_UpdatedAt i)
            || (Sub (R_RetryAt i) (R_UpdatedAt i) <? Pol_RetryDelay (R_Policy i)) with errInvalidRecord in Ok tt
    | RescueSigned | RescueBroadcast =>
        reject negb (isOk (validateSignedRescueTransaction i)) || negb (IsZero (R_RetryAt i))
            || IsZero (R_ReconcileUntil i) || negb (After (R_ReconcileUntil i) (R_UpdatedAt i)) with errInvalidRecord in Ok tt
    | RescueAmbiguous =>
        reject negb (isOk (validateSignedRescueTransaction i)) || (len (R_LastCode i) =? 0) || IsZero (R_ReconcileUntil i)
            || negb (After (R_ReconcileUntil i) (R_UpdatedAt i))
            || (negb (IsZero (R_RetryAt i))
                && (Before (R_RetryAt i) (R_UpdatedAt i) || After (R_RetryAt i) (R_ReconcileUntil i)))
          with errInvalidRecord in Ok tt
    | RescueFailed =>
        reject negb (IsZero (R_RetryAt i)) || negb (validTerminalSignedState i) with errInvalidRecord in Ok tt
    | RescueTrustedSuccess | RescueTokenReported | RescueLostRace =>
        reject is_zero_bytes (R_TxHash i) || negb (IsZero (R_RetryAt i)) || negb (validTerminalSignedState i)
          with errInvalidRecord in Ok tt
    | _ => Err errInvalidRecord
    end in
  reject isStatus i RescueTrustedSuccess
      && (negb (R_Trusted i) || bool_decide (R_Kind i = CandidateToken) || bool_decide (R_Kind i = CandidateClaim))
    with errInvalidRecord in
  reject isStatus i RescueTokenReported
      && negb (bool_decide (R_Kind i = CandidateToken)) && negb (bool_decide (R_Kind i = CandidateClaim))
    with errInvalidRecord in
  Ok tt.

Definition validateRescueIncident (i : RescueIncident) : result StoreError unit :=
  let! _ := validateRescueCommon i in
  if isStatus i RescuePending then
    reject negb (R_Attempts i =? 0) || negb (R_SponsorNonce i =? 0) || negb (R_SourceNonce i =? 0)
        || negb (is_zero_bytes (R_TxHash i)) || negb (len (R_SignedTransaction i) =? 0)
        || negb (R_SnapshotBlockNumber i =? 0) || negb (is_zero_bytes (R_SnapshotBlockHash i))
        || negb (is_zero_bytes (R_SourceBefore i)) || negb (is_zero_bytes (R_DestinationBefore i))
        || negb (IsZero (R_RetryAt i)) || negb (IsZero (R_ReconcileUntil i)) || negb (len (R_LastCode i) =? 0)
      with errInvalidRecord in
    Ok tt
  else validateRescueStatus i.

(** ** The record codec *)

Definition encodeRescueIncident (i : RescueIncident) : result StoreError bytes :=
  let i := normalizeRescueIncident i in
  let! _ := validateRescueIncident i in
  let code := R_LastCode i in
  let result := [if Pol_LatestState (R_Policy i) then latestRescueRecordVersion else rescueRecordVersion] in
  let result := result ++ R_ID i in
  let result := result ++ R_Parent i in
  let result := result ++ R_Candidate i in
  let result := appendUint64 result (R_Network i) in
  let result := result ++ [kind_byte (R_Kind i)] in
  let result := result ++ R_Asset i in
  let result := appendUint64 result (R_Generation i) in
  let result := result ++ [if R_Trusted i then x01 else x00] in
  let result := appendUint32 result (Pol_MaxAttempts (R_Policy i)) in
  let result := appendUint64 result (Pol_RetryDelay (R_Policy i)) in
  let result := appendUint64 result (Pol_FinalityTimeout (R_Policy i)) in
  let result := result ++ [rescue_byte (R_Status i)] in
  let result := appendUint32 result (R_Attempts i) in
  let result := appendUint64 result (R_SponsorNonce i) in
  let result := appendUint64 result (R_SourceNonce i) in
  let result := result ++ R_TxHash i in
  let result := appendUint32 result (len (R_SignedTransaction i)) in
  let result := result ++ R_SignedTransaction i in
  let result := appendUint64 result (R_SnapshotBlockNumber i) in
  let result := result ++ R_SnapshotBlockHash i in
  let result := result ++ R_SourceBefore i in
  let result := result ++ R_DestinationBefore i in
  let result := appendTime result (R_RetryAt i) in
  let result := appendTime result (R_ReconcileUntil i) in
  let result := appendUint16 result (len code) in
  let result := result ++ code in
  let result := appendTime result (R_CreatedAt i) in
  let result := appendTime result (R_UpdatedAt i) in
  Ok (if Pol_LatestState (R_Policy i) then result ++ [x01] else result).

Definition decodeRescueIncidentForSchema (data : bytes) (allowLegacyTokenSuccess : bool) : result StoreError RescueIncident :=
  let isLatest := bool_decide (byte_at data 0 = latestRescueRecordVersion) in
  reject (len data <? 1 + 32 + 32 + 32 + 8 + 1 + 20 + 8 + 1 + 4 + 8 + 8 + 1 + 4 + 8 + 8 + 32 + 4 + 8 + 32 + 32 + 32 + 12 + 12 + 2 + 12 + 12)
      || (negb (bool_decide (byte_at data 0 = rescueRecordVersion)) && (negb isLatest || allowLegacyTokenSuccess))
    with errInvalidRecord in
  let? (id, offset) := readFixed 32 data 1 orelse errInvalidRecord in
  let? (parent, offset) := readFixed 32 data offset orelse errInvalidRecord in
  let? (candidate, offset) := readFixed 32 data offset orelse errInvalidRecord in
  let? (network, offset) := readUint64 data offset orelse errInvalidRecord in
  reject 2 ^ 63 - 1 <? network with errInvalidRecord in
  reject len data <=? offset with errInvalidRecord in
  let kind := kind_of_byte (byte_at data offset) in
  let? (asset, offset) := readFixed 20 data (offset + 1) orelse errInvalidRecord in
  let? (generation, offset) := readUint64 data offset orelse errInvalidRecord in
  reject len data <=? offset with errInvalidRecord in
  reject 1 <? byteZ (byte_at data offset) with errInvalidRecord in
  let trusted := bool_decide (byte_at data offset = x01) in
  let? (maxAttempts, offset) := readUint32 data (offset + 1) orelse errInvalidRecord in
  let? (retryDelay, offset) := readUint64 data offset orelse errInvalidRecord in
  reject 2 ^ 63 - 1 <? retryDelay with errInvalidRecord in
  let? (finalityTimeout, offset) := readUint64 data offset orelse errInvalidRecord in
  reject (2 ^ 63 - 1 <? finalityTimeout) || (len data <=? offset) with errInvalidRecord in
  let status := rescue_of_byte (byte_at data offset) in
  let? (attempts, offset) := readUint32 data (offset + 1) orelse errInvalidRecord in
  let? (sponsorNonce, offset) := readUint64 data offset orelse errInvalidRecord in
  let? (sourceNonce, offset) := readUint64 data offset orelse errInvalidRecord in
  let? (txHash, offset) := readFixed 32 data offset orelse errInvalidRecord in
  let? (signedLength, offset) := readUint32 data offset orelse errInvalidRecord in
  reject (maxSignedTransactionLen <? signedLength) || (len data - offset <? signedLength) with errInvalidRecord in
  let signedTransaction := slice data offset (Z.to_nat signedLength) in
  let offset := offset + signedLength in
  let? (blockNumber, offset) := readUint64 data offset orelse errInvalidRecord in
  let? (blockHash, offset) := readFixed 32 data offset orelse errInvalidRecord in
  let? (sourceBefore, offset) := readFixed 32 data offset orelse errInvalidRecord in
  let? (destinationBefore, offset) := readFixed 32 data offset orelse errInvalidRecord in
  let? (retryAt, offset) := readTime data offset orelse errInvalidRecord in
  let? (reconcileUntil, offset) := readTime data offset orelse errInvalidRecord in
  let? (codeLength, offset) := readUint16 data offset orelse errInvalidRecord in
  reject (maxErrorCodeBytes <? codeLength) || (len data - offset <? codeLength) with errInvalidRecord in
  let lastCode := slice data offset (Z.to_nat codeLength) in
  let offset := offset + codeLength in
  let? (createdAt, offset) := readTime data offset orelse errInvalidRecord in
  let? (updatedAt, offset) := readTime data offset orelse errInvalidRecord in
  reject isLatest && ((len data <=? offset) || negb (bool_decide (byte_at data offset = x01))) with errInvalidRecord in
  let offset := if isLatest then offset + 1 else offset in
  reject negb (offset =? len data) with errInvalidRecord in
  let incident := mkRescue id parent candidate network kind asset generation trusted
    (mkPolicySnapshot isLatest maxAttempts retryDelay finalityTimeout) status attempts sponsorNonce sourceNonce txHash
    signedTransaction blockNumber blockHash sourceBefore destinationBefore retryAt reconcileUntil lastCode createdAt updatedAt in
  reject allowLegacyTokenSuccess && isStatus incident RescueTokenReported && R_Trusted incident with errInvalidRecord in
  let validated :=
    if allowLegacyTokenSuccess && bool_decide (R_Kind incident = CandidateToken) && R_Trusted incident
       && isStatus incident RescueTrustedSuccess
    then withStatus incident RescueTokenReported else incident in
  let! _ := validateRescueIncident validated in
  Ok incident.

Definition decodeRescueIncident (data : bytes) : result StoreError RescueIncident := decodeRescueIncidentForSchema data false.
Definition decodeRescueIncidentV2 (data : bytes) : result StoreError RescueIncident := decodeRescueIncidentForSchema data true.

(** ** Operations *)

Section Operations.
Context {B : Bolt}.

Definition putRescue_tx (store : BoltStore) (call : Call) (incident : RescueIncident) (encoded : bytes) (db : StoreDB)
    : result StoreError (RescueIncident * StoreDB) :=
  let! _ := contextErrorTx (call_ctx call) in
  match b_get (s_rescueState db) (R_ID incident) with
  | None =>
      let! b := put (s_rescueState db) (R_ID incident) encoded in
      Ok (incident, set_rescueState db b)
  | Some persisted =>
      let! stored := errOr errCorrupt (decodeRescueIncident persisted) in
      reject negb (R_Network stored =? store_network store) || negb (bytes_eqb (R_ID stored) (R_ID incident)) with errCorrupt in
      reject negb (sameRescueIdentity stored incident) with errConflict in
      Ok (stored, db)
  end.

Definition PutRescueIncident (store : BoltStore) (call : Call) (incident : RescueIncident) (st : StoreState)
    : StoreState * result StoreError RescueIncident :=
  let incident := normalizeRescueIncident incident in
  match encodeRescueIncident incident with
  | Err _ => (st, Err errInvalidInput)
  | Ok encoded =>
      if negb (R_Network incident =? store_network store) || negb (isStatus incident RescuePending)
      then (st, Err errInvalidInput)
      else
        match begin call st with
        | Err e => (st, Err e)
        | Ok _ => update call st (putRescue_tx store call incident encoded)
        end
  end.

Definition updateRescue_tx (store : BoltStore) (call : Call) (incident : RescueIncident) (encoded : bytes) (db : StoreDB)
    : result StoreError (unit * StoreDB) :=
  let! _ := contextErrorTx (call_ctx call) in
  let? persisted := b_get (s_rescueState db) (R_ID incident) orelse errConflict in
  let! current := errOr errCorrupt (decodeRescueIncident persisted) in
  reject negb (R_Network current =? store_network store) || negb (bytes_eqb (R_ID current) (R_ID incident)) with errCorrupt in
  if sameRescueIncident current incident then Ok (tt, db)
  else
    reject negb (validRescueTransition current incident) with errConflict in
    let! b := put (s_rescueState db) (R_ID incident) encoded in
    Ok (tt, set_rescueState db b).

Definition UpdateRescueIncident (store : BoltStore) (call : Call) (incident : RescueIncident) (st : StoreState)
    : StoreState * result StoreError unit :=
  let incident := normalizeRescueIncident incident in
  match encodeRescueIncident incident with
  | Err _ => (st, Err errInvalidInput)
  | Ok encoded =>
      if negb (R_Network incident =? store_network store) then (st, Err errInvalidInput)
      else
        match begin call st with
        | Err e => (st, Err e)
        | Ok _ => update call st (updateRescue_tx store call incident encoded)
        end
  end.

Definition getRescueIncident (store : BoltStore) (call : Call) (id : IncidentID) (st : StoreState)
    : result StoreError (option RescueIncident) :=
  let! _ := begin call st in
  view st (fun db =>
    let! _ := contextErrorTx (call_ctx call) in
    match b_get (s_rescueState db) id with
    | None => Ok None
    | Some data =>
        let! incident := errOr errCorrupt (decodeRescueIncident data) in
        reject negb (bytes_eqb (R_ID incident) id) || negb (R_Network incident =? store_network store) with errCorrupt in
        Ok (Some incident)
    end).

(** One entry of the bucket, checked against its key and the network. *)
Definition rescueEntry (store : BoltStore) (entry : bytes * bytes) : result StoreError RescueIncident :=
  let! incident := errOr errCorrupt (decodeRescueIncident (snd entry)) in
  reject negb (len (fst entry) =? 32) || negb (bytes_eqb (fst entry) (R_ID incident))
      || negb (R_Network incident =? store_network store) with errCorrupt in
  Ok incident.

Definition rescue_id_le (a b : RescueIncident) : Prop := bytes_ltb (R_ID b) (R_ID a) = false.

#[export] Instance rescue_id_le_dec : RelDecision rescue_id_le.
Proof. intros a b. unfold rescue_id_le. apply _. Defined.

Definition RescueIncidents (store : BoltStore) (call : Call) (network : NetworkID) (st : StoreState)
    : result StoreError (list RescueIncident) :=
  reject negb (network =? store_network store) with errInvalidInput in
  let! _ := begin call st in
  let! incidents := view st (fun db =>
    let! _ := contextErrorTx (call_ctx call) in
    foldM (fun incidents entry => let! i := rescueEntry store entry in Ok (incidents ++ [i])) (b_entries (s_rescueState db)) []) in
  Ok (merge_sort rescue_id_le incidents).

Definition NonceFloor (call : Call) (st : StoreState) : result StoreError Z :=
  let! _ := begin call st in
  view st (fun db =>
    let! _ := contextErrorTx (call_ctx call) in
    let? floor := decodeUint64 (default [] (b_get (s_meta db) nonceFloorKey)) orelse errCorrupt in
    Ok floor).

Definition raiseNonceFloor_tx (call : Call) (floor : Z) (db : StoreDB) : result StoreError (unit * StoreDB) :=
  let! _ := contextErrorTx (call_ctx call) in
  let? current := decodeUint64 (default [] (b_get (s_meta db) nonceFloorKey)) orelse errCorrupt in
  if floor <=? current then Ok (tt, db)
  else
    let! b := put (s_meta db) nonceFloorKey (encodeUint64 floor) in
    Ok (tt, set_meta db b).

Definition RaiseNonceFloor (call : Call) (floor : Z) (st : StoreState) : StoreState * result StoreError unit :=
  match begin call st with
  | Err e => (st, Err e)
  | Ok _ => update call st (raiseNonceFloor_tx call floor)
  end.

(** The order of pruning: oldest update first, smaller ID on a tie. *)
Definition prune_le (a b : RescueIncident) : Prop :=
  R_UpdatedAt a < R_UpdatedAt b \/ (R_UpdatedAt a = R_UpdatedAt b /\ bytes_ltb (R_ID b) (R_ID a) = false).

#[export] Instance prune_le_dec : RelDecision prune_le.
Proof. intros a b. unfold prune_le. apply _. Defined.

(** What [contextError] returns on its [n]-th call inside the loops. *)
Definition loopCheck (loopErr : nat -> option CtxErr) (n : nat) : result StoreError unit :=
  match loopErr n with None => Ok tt | Some e => Err (errContext e) end.

Definition prunable (i : RescueIncident) : bool :=
  isTerminalRescueStatus (R_Status i) && negb (bool_decide (R_Kind i = CandidateClaim)).

Definition prune_tx (store : BoltStore) (call : Call) (loopErr : nat -> option CtxErr) (retain : Z) (db : StoreDB)
    : result StoreError (unit * StoreDB) :=
  let! _ := contextErrorTx (call_ctx call) in
  let! (terminals, n) := foldM (fun '(terminals, n) entry =>
      let! _ := loopCheck loopErr n in
      let! i := rescueEntry store entry in
      Ok (if prunable i then terminals ++ [i] else terminals, S n)) (b_entries (s_rescueState db)) ([], 0%nat) in
  let sorted := merge_sort prune_le terminals in
  let excess := Z.to_nat (Z.max 0 (Z.of_nat (length sorted) - retain)) in
  let! (b, _) := foldM (fun '(b, n) i =>
      let! _ := loopCheck loopErr n in
      Ok (b_delete b (R_ID i), S n)) (take excess sorted) (s_rescueState db, n) in
  Ok (tt, set_rescueState db b).

Definition PruneRescueIncidents (store : BoltStore) (call : Call) (loopErr : nat -> option CtxErr) (retain : Z) (st : StoreState)
    : StoreState * result StoreError unit :=
  if (retain <? 0) || (maxConfiguredBound <? retain) then (st, Err errInvalidInput)
  else
    match begin call st with
    | Err e => (st, Err e)
    | Ok _ => update call st (prune_tx store call loopErr retain)
    end.

Definition validateRescueStateBucket (store : BoltStore) (schema : Z) (db : StoreDB) : result StoreError unit :=
  reject negb (b_sequence (s_rescueState db) =? 0) with errCorrupt in
  foldM (fun _ entry =>
    let! i := errOr errCorrupt (if schema =? schemaVersionV2 then decodeRescueIncidentV2 (snd entry)
                                else decodeRescueIncident (snd entry)) in
    reject negb (len (fst entry) =? 32) || negb (bytes_eqb (fst entry) (R_ID i)) || negb (R_Network i =? store_network store)
      with errCorrupt in
    Ok tt) (b_entries (s_rescueState db)) tt.

(** Schema 2 recorded a reported token outcome as a trusted success. *)
Definition migrateV2TokenOutcomes (db : StoreDB) : result StoreError StoreDB :=
  let! updates := foldM (fun updates entry =>
      let! i := errOr errCorrupt (decodeRescueIncidentV2 (snd entry)) in
      reject negb (len (fst entry) =? 32) || negb (bytes_eqb (fst entry) (R_ID i)) with errCorrupt in
      if negb (bool_decide (R_Kind i = CandidateToken)) || negb (isStatus i RescueTrustedSuccess) then Ok updates
      else
        let! encoded := errOr errCorrupt (encodeRescueIncident (withStatus i RescueTokenReported)) in
        Ok (updates ++ [(fst entry, encoded)])) (b_entries (s_rescueState db)) [] in
  let! b := foldM (fun b '(k, v) => put b k v) updates (s_rescueState db) in
  Ok (set_rescueState db b).

End Operations.
End Rescue.

End StoreRescue.
Export StoreRescue.
