(* ===== verification/StoreValidation.v ===== *)
(** * internal/store/bolt_validation.go and opening a store

    [StoreFile] is the bbolt file as [Open] finds it: the names of its root
    buckets and their contents (a bucket that is absent is empty).  The file
    system, bbolt's own opening and its commit are arguments of [Open]. *)

From S2P Require Import Prelude GoTime Bytes Sha256 Domain Bolt StoreModel StoreLease StoreCodec StoreQueue StoreCanonical StoreRescue.
From Stdlib Require Import Strings.Byte.
From Stdlib Require Strings.String.
Import Strings.String.StringSyntax.

Module StoreValidation.

Definition metaBucket : bytes := str "meta".
Definition candidatesBucket : bytes := str "candidates".
Definition pendingBucket : bytes := str "pending".
Definition readyOrderBucket : bytes := str "ready-order".
Definition blockIndexBucket : bytes := str "candidate-blocks".
Definition incidentsBucket : bytes := str "incidents".
Definition blocksBucket : bytes := str "blocks".
Definition discoveredBucket : bytes := str "discovered".
Definition tombstonesBucket : bytes := str "tombstones".
Definition rescueStateBucket : bytes := str "rescue-incidents".
Definition leasesBucket : bytes := str "leases".

(** The buckets of schema 1, without [metaBucket]. *)
Definition dataBuckets : list bytes :=
  [candidatesBucket; pendingBucket; readyOrderBucket; blockIndexBucket; incidentsBucket; blocksBucket; discoveredBucket; tombstonesBucket].

Record OpenOptions := mkOptions {
  Opt_Network : NetworkID;
  Opt_Source : Address;
  Opt_Sponsor : Address;
  Opt_Destination : Address;
  Opt_Rescuer : Address;
  Opt_MaxPending : Z;
  Opt_MaxDiscoveredTokens : Z;
  Opt_PolicyFingerprint : bytes }.

Section Validation.
Context {B : Bolt} {T : TxCodec}.

Record StoreFile := mkFile {
  file_names : list bytes;
  file_db : StoreDB }.

Definition with_db (f : StoreFile) (db : StoreDB) : StoreFile := mkFile (file_names f) db.

Definition hasBucket (f : StoreFile) (name : bytes) : bool := bool_decide (name ∈ file_names f).

(** ** Candidates and their indexes *)

Definition validateCandidateEntry (store : BoltStore) (db : StoreDB) (entry : bytes * bytes) : result StoreError unit :=
  let (key, value) := entry in
  let! record := errOr errCorrupt (decodeCandidateRecord value) in
  let candidate := Rec_Candidate record in
  reject negb (len key =? len (Candidate_ID candidate)) || negb (bytes_eqb key (Candidate_ID candidate))
      || negb (matchesCandidate store candidate) with errCorrupt in
  let! _ := (if bool_decide (Rec_Status record = CandidateReady) then
               let pendingValue := getNil (s_pending db) key in
               reject negb (len pendingValue =? 8) || negb (bytes_eqb (getNil (s_readyOrder db) pendingValue) key) with errCorrupt in
               Ok tt
             else
               reject bool_decide (is_Some (b_get (s_pending db) key)) with errCorrupt in
               Ok tt) in
  match candidateBlockIndexKey candidate with
  | Some blockKey => reject negb (bytes_eqb (getNil (s_blockIndex db) blockKey) [recordVersion]) with errCorrupt in Ok tt
  | None => Ok tt
  end.

(** The record of a ready candidate, named by one of the queue's buckets. *)
Definition readyRecord (db : StoreDB) (id : bytes) : result StoreError unit :=
  let! record := errOr errCorrupt (decodeCandidateRecord (getNil (s_candidates db) id)) in
  reject negb (bool_decide (Rec_Status record = CandidateReady)) || negb (bytes_eqb id (Candidate_ID (Rec_Candidate record)))
    with errCorrupt in
  Ok tt.

Definition validatePendingEntry (db : StoreDB) (entry : bytes * bytes) : result StoreError unit :=
  let (key, value) := entry in
  reject negb (len key =? 32) || negb (len value =? 8) || negb (bytes_eqb (getNil (s_readyOrder db) value) key) with errCorrupt in
  readyRecord db key.

(** The largest place so far. *)
Definition validateOrderEntry (db : StoreDB) (maximumOrder : Z) (entry : bytes * bytes) : result StoreError Z :=
  let (key, value) := entry in
  reject negb (len key =? 8) || negb (len value =? 32) || negb (bytes_eqb (getNil (s_pending db) value) key) with errCorrupt in
  let? sequence := decodeUint64 key orelse errCorrupt in
  reject (sequence =? 0) || (sequence <=? maximumOrder) with errCorrupt in
  let! _ := readyRecord db value in
  Ok sequence.

Definition validateIndexEntry (db : StoreDB) (entry : bytes * bytes) : result StoreError unit :=
  let (key, value) := entry in
  reject negb (len key =? 8 + 32 + 32) || negb (bytes_eqb value [recordVersion]) with errCorrupt in
  let! record := errOr errCorrupt (decodeCandidateRecord (getNil (s_candidates db) (indexedCandidate key))) in
  reject negb (bytes_eqb key (default [] (candidateBlockIndexKey (Rec_Candidate record)))) with errCorrupt in
  Ok tt.

Definition retainedCanonicalMember (store : BoltStore) (db : StoreDB) (candidate : RescueCandidate) : result StoreError bool :=
  match candidateBlockIndexKey candidate with
  | None => Ok false
  | Some _ =>
      match b_get (s_blocks db) (blockNumberKey (Candidate_BlockNumber candidate)) with
      | None => Ok false
      | Some data =>
          let! block := errOr errCorrupt (decodeBlock data (store_journalCapacity store)) in
          let cp := Block_Checkpoint block in
          reject negb (CP_Network cp =? store_network store) || negb (CP_BlockNumber cp =? Candidate_BlockNumber candidate)
              || negb (bytes_eqb (CP_BlockHash cp) (Candidate_BlockHash candidate)) with errCorrupt in
          Ok (isMember (Candidate_ID candidate) (Block_Members block))
      end
  end.

(** The candidates with a tombstone so far and the largest sequence. *)
Definition validateTombstoneEntry (db : StoreDB) (state : list CandidateID * Z) (entry : bytes * bytes)
    : result StoreError (list CandidateID * Z) :=
  let (seen, maximumSequence) := state in
  let (key, value) := entry in
  reject negb (len key =? 8) || negb (len value =? 32) with errCorrupt in
  let? sequence := decodeUint64 key orelse errCorrupt in
  reject (sequence =? 0) || (sequence <=? maximumSequence) with errCorrupt in
  reject isMember value seen with errCorrupt in
  let! record := errOr errCorrupt (decodeCandidateRecord (getNil (s_candidates db) value)) in
  reject negb (bool_decide (Rec_Status record = CandidateAcknowledged)) || negb (bytes_eqb (Candidate_ID (Rec_Candidate record)) value)
    with errCorrupt in
  Ok (value :: seen, sequence).

Definition validateTombstones (store : BoltStore) (db : StoreDB) : result StoreError unit :=
  reject tombstoneLimit <? b_keyN (s_tombstones db) with errCorrupt in
  let! (seen, maximumSequence) := foldM (validateTombstoneEntry db) (b_entries (s_tombstones db)) ([], 0) in
  reject (b_sequence (s_tombstones db) <? maximumSequence) || (b_sequence (s_tombstones db) =? 2 ^ 64 - 1) with errCorrupt in
  foldM (fun _ '(_, value) =>
    let! record := decodeCandidateRecord value in
    if negb (bool_decide (Rec_Status record = CandidateAcknowledged)) || isMember (Candidate_ID (Rec_Candidate record)) seen then Ok tt
    else
      let! retained := errOr errCorrupt (retainedCanonicalMember store db (Rec_Candidate record)) in
      reject negb retained with errCorrupt in Ok tt) (b_entries (s_candidates db)) tt.

Definition validateCandidateIndexes (store : BoltStore) (db : StoreDB) : result StoreError unit :=
  let! _ := readyCount store db in
  let! _ := journalCount store db in
  let! observed := statusCount store db CandidateObserved in
  if store_maxPending store <? observed then Ok tt
  else
    let! _ := foldM (fun _ => validateCandidateEntry store db) (b_entries (s_candidates db)) tt in
    let! _ := foldM (fun _ => validatePendingEntry db) (b_entries (s_pending db)) tt in
    let! maximumOrder := foldM (validateOrderEntry db) (b_entries (s_readyOrder db)) 0 in
    reject (b_sequence (s_readyOrder db) <? maximumOrder) || (b_sequence (s_readyOrder db) =? 2 ^ 64 - 1) with errCorrupt in
    let! _ := foldM (fun _ => validateIndexEntry db) (b_entries (s_blockIndex db)) tt in
    validateTombstones store db.

Definition validateCandidateIncidentStates (store : BoltStore) (db : StoreDB) : result StoreError unit :=
  foldM (fun _ '(_, value) =>
    let! record := errOr errCorrupt (decodeCandidateRecord value) in
    match Rec_Status record with
    | CandidateAcknowledged | CandidateDelayed =>
        let id := Candidate_ID (Rec_Candidate record) in
        let! incident := errOr errCorrupt (decodeIncident (getNil (s_incidents db) id)) in
        reject negb (bytes_eqb (Incident_Candidate incident) id) || negb (Incident_Network incident =? store_network store)
          with errCorrupt in
        Ok tt
    | _ => Ok tt
    end) (b_entries (s_candidates db)) tt.

(** ** Incidents and discovered tokens *)

Definition validateIncidentEntry (store : BoltStore) (db : StoreDB) (entry : bytes * bytes) : result StoreError unit :=
  let (key, value) := entry in
  let! incident := errOr errCorrupt (decodeIncident value) in
  reject negb (len key =? len (Incident_Candidate incident)) || negb (bytes_eqb key (Incident_Candidate incident))
      || negb (Incident_Network incident =? store_network store) with errCorrupt in
  let? candidateData := b_get (s_candidates db) (Incident_Candidate incident) orelse errCorrupt in
  let! record := errOr errCorrupt (decodeCandidateRecord candidateData) in
  reject negb (bytes_eqb (Candidate_ID (Rec_Candidate record)) (Incident_Candidate incident)) with errCorrupt in
  Ok tt.

Definition validateDiscovered (store : BoltStore) (db : StoreDB) : result StoreError Z :=
  foldM (fun count '(key, value) =>
    reject negb (len key =? 20) || negb (bytes_eqb value [recordVersion]) || is_zero_bytes key
        || (count =? store_maxDiscoveredTokens store) with errCorrupt in
    Ok (count + 1)) (b_entries (s_discovered db)) 0.

(** ** The chain *)

(** What the loop over the blocks carries. *)
Record ChainScan := mkScan {
  scan_previous : Hash;
  scan_expected : option Checkpoint;
  scan_blocked : bool }.

Definition scanBlock (store : BoltStore) (db : StoreDB) (baseline number : Z) (data : bytes) (scan : ChainScan) : result StoreError ChainScan :=
  let! block := errOr errCorrupt (decodeBlock data (store_journalCapacity store)) in
  let cp := Block_Checkpoint block in
  reject negb (CP_Network cp =? store_network store) || negb (CP_BlockNumber cp =? number) with errCorrupt in
  reject negb (number =? baseline) && negb (bytes_eqb (Block_ParentHash block) (scan_previous scan)) with errCorrupt in
  let! _ := errOr errCorrupt (validateFullMembership db cp (Block_Members block)) in
  let! complete := blockComplete store db block in
  Ok (mkScan (CP_BlockHash cp)
        (if negb (scan_blocked scan) && complete then Some cp else scan_expected scan)
        (scan_blocked scan || negb complete)).

(** The loop from [number] to the cursor; [None] when the fuel is out. *)
Fixpoint validateBlocks (store : BoltStore) (db : StoreDB) (baseline : Z) (cursor : Checkpoint) (fuel : nat) (number : Z) (scan : ChainScan)
    : option (result StoreError (option Checkpoint)) :=
  match fuel with
  | O => None
  | S fuel' =>
      match b_get (s_blocks db) (blockNumberKey number) with
      | None => Some (Err errCorrupt)
      | Some data =>
          match scanBlock store db baseline number data scan with
          | Err e => Some (Err e)
          | Ok scan =>
              if number =? CP_BlockNumber cursor then
                Some (reject negb (bytes_eqb (scan_previous scan) (CP_BlockHash cursor)) with errCorrupt in Ok (scan_expected scan))
              else if number =? 2 ^ 64 - 1 then Some (Err errCorrupt)
              else validateBlocks store db baseline cursor fuel' (number + 1) scan
          end
      end
  end.

Definition validateSpans (baseline : Z) (cursor : Checkpoint) (expected : option Checkpoint) (checkpointData : option bytes)
    : result StoreError unit :=
  match expected with
  | None =>
      reject bool_decide (is_Some checkpointData) with errCorrupt in
      reject unconfirmedBlockLimit <? uint64_wrap (CP_BlockNumber cursor - baseline + 1) with errCorrupt in
      Ok tt
  | Some expected =>
      let? data := checkpointData orelse errCorrupt in
      let! checkpoint := errOr errCorrupt (decodeCheckpoint data) in
      reject negb (bool_decide (checkpoint = expected)) with errCorrupt in
      reject (CP_BlockNumber checkpoint <? baseline)
          || (canonicalBlockLimit <? uint64_wrap (CP_BlockNumber checkpoint - baseline + 1)) with errCorrupt in
      reject unconfirmedBlockLimit <? uint64_wrap (CP_BlockNumber cursor - CP_BlockNumber checkpoint) with errCorrupt in
      Ok tt
  end.

Definition validateChain (store : BoltStore) (db : StoreDB) : result StoreError unit :=
  let meta := s_meta db in
  match b_get meta baselineKey, b_get meta scanCursorKey with
  | Some baselineData, Some cursorData =>
      let? baseline := decodeUint64 baselineData orelse errCorrupt in
      let! cursor := errOr errCorrupt (decodeCheckpoint cursorData) in
      reject negb (CP_Network cursor =? store_network store) || (CP_BlockNumber cursor <? baseline) with errCorrupt in
      let! expected := default (Err errCorrupt)
        (validateBlocks store db baseline cursor (S (length (b_entries (s_blocks db)))) baseline (mkScan zeroHash None false)) in
      let span := CP_BlockNumber cursor - baseline in
      reject (span =? 2 ^ 64 - 1) || negb (b_keyN (s_blocks db) =? span + 1) with errCorrupt in
      validateSpans baseline cursor expected (b_get meta checkpointKey)
  | baselineData, cursorData =>
      reject bool_decide (is_Some baselineData) || bool_decide (is_Some cursorData) || bool_decide (is_Some (b_get meta checkpointKey))
          || negb (b_keyN (s_blocks db) =? 0) with errCorrupt in
      Ok tt
  end.

(** ** The database *)

Definition commonBindings (store : BoltStore) : list (bytes * bytes) :=
  [(networkKey, encodeUint64 (store_network store)); (sourceKey, store_source store); (policyKey, store_policyFingerprint store);
   (maxPendingKey, encodeUint32 (store_maxPending store)); (maxDiscoveredKey, encodeUint32 (store_maxDiscoveredTokens store))].

Definition sponsorBindings (store : BoltStore) : list (bytes * bytes) :=
  [(sponsorKey, store_sponsor store); (destinationKey, store_destination store); (rescuerKey, store_rescuer store)].

Definition checkBindings (meta : bucket) (err : StoreError) (bindings : list (bytes * bytes)) : result StoreError unit :=
  foldM (fun _ '(key, value) => reject negb (bytes_eqb (getNil meta key) value) with err in Ok tt) bindings tt.

Definition allowedMeta (version : Z) : list bytes :=
  [schemaKey; networkKey; sourceKey; policyKey; maxPendingKey; maxDiscoveredKey; baselineKey; scanCursorKey; checkpointKey;
   discoveryOverflowKey; promotionTurnKey] ++
  (if schemaVersionV2 <=? version then [sponsorKey; destinationKey; rescuerKey; nonceFloorKey] else []).

Definition validateMetaEntry (version : Z) (entry : bytes * bytes) : result StoreError unit :=
  let (key, value) := entry in
  reject negb (bool_decide (key ∈ allowedMeta version)) with errCorrupt in
  reject bytes_eqb key discoveryOverflowKey && negb (bytes_eqb value [recordVersion]) with errCorrupt in
  reject bytes_eqb key promotionTurnKey
      && (negb (len value =? 2) || negb (bool_decide (byte_at value 0 = recordVersion)) || (1 <? byteZ (byte_at value 1)))
    with errCorrupt in
  Ok tt.

Definition expectedBuckets (version : Z) : list bytes :=
  [metaBucket] ++ dataBuckets ++ (if schemaVersionV2 <=? version then [rescueStateBucket; leasesBucket] else []).

Definition validateDatabaseVersion (store : BoltStore) (version : Z) (f : StoreFile) : result StoreError unit :=
  let db := file_db f in
  let meta := s_meta db in
  reject negb (version =? schemaVersionV1) && negb (version =? schemaVersionV2) && negb (version =? schemaVersion) with errCorrupt in
  reject negb (hasBucket f metaBucket) with errCorrupt in
  reject negb (forallb (fun name => bool_decide (name ∈ expectedBuckets version)) (file_names f))
      || negb (Nat.eqb (length (file_names f)) (length (expectedBuckets version))) with errCorrupt in
  let! _ := checkBindings meta errCorrupt ((schemaKey, encodeUint32 version) :: commonBindings store) in
  let! _ := (if schemaVersionV2 <=? version then checkBindings meta errCorrupt (sponsorBindings store) else Ok tt) in
  let! _ := (if schemaVersionV2 <=? version then
               let? _ := decodeUint64 (getNil meta nonceFloorKey) orelse errCorrupt in Ok tt else Ok tt) in
  let! _ := foldM (fun _ => validateMetaEntry version) (b_entries meta) tt in
  let! _ := errOr errCorrupt (validateCandidateIndexes store db) in
  let! _ := foldM (fun _ => validateIncidentEntry store db) (b_entries (s_incidents db)) tt in
  let! discovered := validateDiscovered store db in
  reject bool_decide (is_Some (b_get meta discoveryOverflowKey)) && negb (discovered =? store_maxDiscoveredTokens store) with errCorrupt in
  let! _ := (if schemaVersionV2 <=? version then
               let! _ := errOr errCorrupt (validateRescueStateBucket store version db) in
               errOr errCorrupt (validateLeasesBucket store db)
             else Ok tt) in
  let! _ := validateChain store db in
  validateCandidateIncidentStates store db.

Definition validateDatabase (store : BoltStore) (f : StoreFile) : result StoreError unit := validateDatabaseVersion store schemaVersion f.

(** ** Initialization and migration *)

Definition putAll (b : bucket) (bindings : list (bytes * bytes)) : result StoreError bucket :=
  foldM (fun b '(key, value) => put b key value) bindings b.

(** [tx.CreateBucket]: an error when it exists. *)
Definition createBuckets (names : list bytes) (f : StoreFile) : result StoreError StoreFile :=
  foldM (fun f name => reject hasBucket f name with errBolt in Ok (mkFile (file_names f ++ [name]) (file_db f))) names f.

Definition emptyDB : StoreDB :=
  mkStoreDB b_empty b_empty b_empty b_empty b_empty b_empty b_empty b_empty b_empty b_empty b_empty.

Definition initializeOrMigrate (store : BoltStore) (allowInitialize : bool) (f : StoreFile) : result StoreError (bool * StoreFile) :=
  if negb (hasBucket f metaBucket) then
    reject negb allowInitialize with errCorrupt in
    reject negb (bool_decide (file_names f = [])) with errCorrupt in
    let! f := createBuckets (metaBucket :: dataBuckets ++ [rescueStateBucket; leasesBucket]) (mkFile [] emptyDB) in
    let! meta := putAll (s_meta (file_db f)) ([(schemaKey, encodeUint32 schemaVersion)] ++
      [(networkKey, encodeUint64 (store_network store)); (sourceKey, store_source store)] ++ sponsorBindings store ++
      [(policyKey, store_policyFingerprint store); (maxPendingKey, encodeUint32 (store_maxPending store));
       (maxDiscoveredKey, encodeUint32 (store_maxDiscoveredTokens store)); (nonceFloorKey, encodeUint64 0)]) in
    Ok (true, with_db f (set_meta (file_db f) meta))
  else
    let schema := getNil (s_meta (file_db f)) schemaKey in
    reject negb (bytes_eqb schema (encodeUint32 schemaVersionV1)) && negb (bytes_eqb schema (encodeUint32 schemaVersionV2))
        && negb (bytes_eqb schema (encodeUint32 schemaVersion)) with errBinding in
    let! _ := checkBindings (s_meta (file_db f)) errBinding (commonBindings store) in
    reject negb (forallb (hasBucket f) dataBuckets) with errCorrupt in
    if bytes_eqb schema (encodeUint32 schemaVersionV1) then
      let! _ := validateDatabaseVersion store schemaVersionV1 f in
      let! f := createBuckets [rescueStateBucket; leasesBucket] f in
      let db := set_leases (set_rescueState (file_db f) b_empty) b_empty in
      let! meta := putAll (s_meta db) (sponsorBindings store ++ [(nonceFloorKey, encodeUint64 0); (schemaKey, encodeUint32 schemaVersion)]) in
      Ok (false, with_db f (set_meta db meta))
    else
      let! f := (if bytes_eqb schema (encodeUint32 schemaVersionV2) then
                   let! _ := validateDatabaseVersion store schemaVersionV2 f in
                   let! db := migrateV2TokenOutcomes (file_db f) in
                   let! meta := put (s_meta db) schemaKey (encodeUint32 schemaVersion) in
                   Ok (with_db f (set_meta db meta))
                 else Ok f) in
      reject negb (forallb (hasBucket f) [rescueStateBucket; leasesBucket]) with errCorrupt in
      let! _ := checkBindings (s_meta (file_db f)) errBinding (sponsorBindings store) in
      Ok (false, f).

(** ** Open *)

(** What creating the file met. *)
Inductive PathState := PathCreated (closeOK : bool) | PathExists (regular empty : bool) | PathFailed.

(** The answers of the file system and of bbolt during one [Open]. *)
Record OpenEnv := mkOpenEnv {
  env_pathEmpty : bool;
  env_parentOK : bool;
  env_path : PathState;
  env_open : option StoreFile;
  env_chmodOK : bool;
  env_commitFails : bool }.

Definition validOptions (o : OpenOptions) : bool :=
  (0 <? Opt_Network o) && negb (is_zero_bytes (Opt_Source o)) && negb (is_zero_bytes (Opt_Sponsor o))
  && negb (is_zero_bytes (Opt_Destination o)) && negb (is_zero_bytes (Opt_Rescuer o))
  && negb (bytes_eqb (Opt_Source o) (Opt_Sponsor o)) && negb (bytes_eqb (Opt_Source o) (Opt_Destination o))
  && negb (bytes_eqb (Opt_Sponsor o) (Opt_Destination o))
  && negb (Opt_MaxPending o =? 0) && (Opt_MaxPending o <=? maxConfiguredBound)
  && negb (Opt_MaxDiscoveredTokens o =? 0) && (Opt_MaxDiscoveredTokens o <=? maxConfiguredBound).

Definition newStore (o : OpenOptions) : BoltStore :=
  mkStore (Opt_Network o) (Opt_Source o) (Opt_Sponsor o) (Opt_Destination o) (Opt_Rescuer o) (Opt_MaxPending o)
    (deriveJournalCapacity (Opt_MaxPending o)) (Opt_MaxDiscoveredTokens o) (Opt_PolicyFingerprint o).

(** The file after the initializing transaction and the store, or the error. *)
Definition openDatabase (o : OpenOptions) (created commitFails : bool) (f : StoreFile) : StoreFile * result StoreError BoltStore :=
  let store := newStore o in
  let (f', r) := db_update (if commitFails then Some errBolt else None) f (initializeOrMigrate store created) in
  match r with
  | Err errBinding => (f', Err errBinding)
  | Err _ => (f', Err errCorrupt)
  | Ok initialized =>
      if negb (Bool.eqb initialized created) then (f', Err errCorrupt)
      else if isOk (validateDatabase store f') then (f', Ok store)
      else (f', Err errCorrupt)
  end.

(** The file left behind ([None]: none or removed) and the result. *)
Definition Open (env : OpenEnv) (o : OpenOptions) : option StoreFile * result StoreError BoltStore :=
  if env_pathEmpty env || negb (validOptions o) then (env_open env, Err errInvalidOptions)
  else if negb (env_parentOK env) then (env_open env, Err errOpenFailed)
  else
    match env_path env with
    | PathCreated false => (None, Err errOpenFailed)
    | PathFailed => (env_open env, Err errOpenFailed)
    | PathExists regular empty =>
        if negb regular then (env_open env, Err errOpenFailed)
        else if empty then (env_open env, Err errCorrupt)
        else
          match env_open env with
          | None => (None, Err errOpenFailed)
          | Some f =>
              if negb (env_chmodOK env) then (Some f, Err errOpenFailed)
              else let (f', r) := openDatabase o false (env_commitFails env) f in (Some f', r)
          end
    | PathCreated true =>
        match env_open env with
        | None => (None, Err errOpenFailed)
        | Some f =>
            if negb (env_chmodOK env) then (None, Err errOpenFailed)
            else
              match openDatabase o true (env_commitFails env) f with
              | (f', Ok store) => (Some f', Ok store)
              | (_, Err e) => (None, Err e)
              end
        end
    end.

End Validation.

End StoreValidation.
Export StoreValidation.
