(* ===== verification/ValidationTheorems.v ===== *)
(** * Validation at open: theorems

    A database that passes [validateDatabase] has the invariant of the queue and
    a chain of blocks of the right shape ([ChainShape]).  What the validation does
    not look at is [members_stored]: the members of a stored block have confirmed
    records of that block that are no fast-path candidates.  The whole invariant
    holds exactly when they have, and then everything proved of the transactions
    holds after a restart. *)

From S2P Require Import Prelude GoTime Bytes Sha256 Domain Bolt StoreModel StoreLease StoreCodec StoreQueue StoreCanonical StoreCandidates QueueInv QueueSteps ChainSteps ChainCommit QueueOps QueueClaims StoreRescue StoreValidation.

Module ValidationTheorems.

(** A loop that only checks: every entry passed. *)
Lemma foldM_all {E A} (f : A -> result E unit) l :
  foldM (fun _ x => f x) l tt = Ok tt -> forall x, x ∈ l -> f x = Ok tt.
Proof.
  induction l as [|y l IH]; cbn [foldM]; intros H x Hx; [by apply elem_of_nil in Hx|].
  destruct (f y) as [[]|] eqn:E'; [|done]. apply elem_of_cons in Hx as [->|Hx]; [done|by apply IH].
Qed.

Section Sound.
Context `{BL : BoltLaws} {T : TxCodec} (store : BoltStore) (Hstore : configured store).

Lemma all_entries (f : bytes * bytes -> result StoreError unit) b :
  foldM (fun _ => f) (b_entries b) tt = Ok tt -> forall k v, b_get b k = Some v -> f (k, v) = Ok tt.
Proof. intros H k v Hk. apply (foldM_all f _ H). by apply bl_entries_get. Qed.

(** ** The queue *)

Lemma journalCount_le db n : journalCount store db = Ok n -> n <= store_journalCapacity store.
Proof.
  unfold journalCount. apply (foldM_invariant (fun _ n => n <= store_journalCapacity store)); [pose proof (cf_capacity _ Hstore); pose proof (cf_pending _ Hstore); lia|].
  intros _ n' [k v] n'' Hn. destruct (errOr _ _) as [r|]; [|done]. destruct (negb _); [by intros [= <-]|]. ok. bool_hyps. intros [= <-]. lia.
Qed.

Lemma statusCount_le db s n : statusCount store db s = Ok n -> n <= store_maxPending store.
Proof.
  unfold statusCount. apply (foldM_invariant (fun _ n => n <= store_maxPending store)); [pose proof (cf_pending _ Hstore); lia|].
  intros _ n' [k v] n'' Hn. destruct (errOr _ _) as [r|]; [|done]. destruct (isObserved _); [|by intros [= <-]]. ok. bool_hyps. intros [= <-]. lia.
Qed.

Lemma candidateEntry_inv db key value :
  validateCandidateEntry store db (key, value) = Ok tt ->
  exists r, decodeCandidateRecord value = Ok r /\ Candidate_ID (Rec_Candidate r) = key /\ matchesCandidate store (Rec_Candidate r) = true /\
    (Rec_Status r = CandidateReady <-> is_Some (b_get (s_pending db) key)).
Proof.
  unfold validateCandidateEntry. destruct (decodeCandidateRecord value) as [r|]; [|done]. cbn [errOr]. ok Ek. bool_hyps. rewrite bytes_eqb_spec in *.
  intros Hrest. exists r. split; [done|]. split; [done|]. split; [done|]. revert Hrest. case_bool_decide as Es.
  - destruct (_ || _) eqn:Ep; [done|]. intros _. split; [|done]. intros _. unfold getNil in Ep.
    destruct (b_get (s_pending db) key); [by eexists|done].
  - case_bool_decide as Ep; [done|]. intros _. split; [done|]. by intros ?%Ep.
Qed.

Lemma decodeUint64_inv k n : decodeUint64 k = Some n -> inU 64 n /\ k = encodeUint64 n /\ length k = 8%nat.
Proof.
  unfold decodeUint64, len. destruct (negb _) eqn:El; [done|]. intros [= <-]. bool_hyps. assert (Hl : length k = 8%nat) by lia.
  pose proof (be_value_range k) as Hv. rewrite Hl in Hv. split; [exact Hv|]. split; [|done]. unfold encodeUint64, appendUint64. cbn [app].
  by rewrite <- (be_bytes_value k), Hl at 1.
Qed.

Lemma orderEntries_inv db m :
  foldM (validateOrderEntry db) (b_entries (s_readyOrder db)) 0 = Ok m ->
  forall k v, b_get (s_readyOrder db) k = Some v ->
    getNil (s_pending db) v = k /\ exists n, decodeUint64 k = Some n /\ 0 < n <= m /\ n < 2 ^ 64 /\ length k = 8%nat.
Proof.
  intros H.
  cut (0 <= m /\ forall e, e ∈ b_entries (s_readyOrder db) -> getNil (s_pending db) e.2 = e.1 /\
    exists n, decodeUint64 e.1 = Some n /\ 0 < n <= m /\ n < 2 ^ 64 /\ length e.1 = 8%nat).
  { intros [_ Hall] k v Hk. apply (Hall (k, v)). by apply bl_entries_get. }
  revert H. apply (foldM_invariant (fun past m => 0 <= m /\ forall e, e ∈ past -> getNil (s_pending db) e.2 = e.1 /\
    exists n, decodeUint64 e.1 = Some n /\ 0 < n <= m /\ n < 2 ^ 64 /\ length e.1 = 8%nat)).
  { split; [lia|]. by intros e ?%elem_of_nil. }
  intros past m0 [k v] m1 [Hm Hpast]. unfold validateOrderEntry. ok Ek. destruct (decodeUint64 k) as [n|] eqn:Ed; [|done]. ok En. ok. intros [= <-].
  bool_hyps. rewrite bytes_eqb_spec in *. assert (Hr : 0 <= n < 2 ^ 64 /\ length k = 8%nat).
  { destruct (decodeUint64_inv _ _ Ed) as (Hu & _ & ?). unfold inU in Hu. split; [lia|done]. }
  split; [lia|]. intros e [He| ->%list_elem_of_singleton]%elem_of_app.
  - destruct (Hpast e He) as (? & n0 & ? & ? & ? & ?). split; [done|]. exists n0. repeat split; try done; lia.
  - cbn. split; [done|]. exists n. repeat split; try done; lia.
Qed.

Lemma validated_queue db :
  0 <= b_sequence (s_readyOrder db) < 2 ^ 64 -> validateCandidateIndexes store db = Ok tt ->
  QOK store db /\ counted isUnfinished db <= store_journalCapacity store /\ counted isObserved db <= store_maxPending store.
Proof.
  intros Hseq. unfold validateCandidateIndexes. ok Er. ok Ej. ok Es. pose proof (cf_pending _ Hstore) as Hp.
  destruct (readyCount_ok store _ _ Er ltac:(lia)) as [-> Hready]. pose proof (journalCount_le _ _ Ej). apply journalCount_ok in Ej as ->.
  pose proof (statusCount_le _ _ _ Es) as Ho. apply statusCount_ok in Es as ->. destruct (_ <? _) eqn:El; bool_hyps; [lia|].
  destruct (foldM _ (b_entries (s_candidates db)) _) as [[]|] eqn:Ec; [|done].
  destruct (foldM _ (b_entries (s_pending db)) _) as [[]|] eqn:Ep; [|done].
  destruct (foldM _ (b_entries (s_readyOrder db)) _) as [m|] eqn:Eo; [|done]. ok Em. bool_hyps. intros _.
  pose proof (all_entries _ _ Ec) as Hc. pose proof (all_entries _ _ Ep) as Hpend. pose proof (orderEntries_inv _ _ Eo) as Hord.
  assert (Hrec : RecordsInv store db).
  { intros k v Hk. destruct (candidateEntry_inv _ _ _ (Hc k v Hk)) as (r & ? & ? & ? & _). by exists r. }
  assert (Hpo : forall id o, b_get (s_pending db) id = Some o -> b_get (s_readyOrder db) o = Some id /\ is_ready (rec_at db id)).
  { intros id o Hid. specialize (Hpend id o Hid). unfold validatePendingEntry in Hpend. destruct (_ || _) eqn:E1 in Hpend; [done|].
    apply orb_false_iff in E1 as [E1 Eget]. apply negb_false_iff, bytes_eqb_spec in Eget.
    assert (Hne : id <> []) by (intros ->; discriminate E1). unfold readyRecord in Hpend. destruct (decodeCandidateRecord _) as [r|] eqn:Ed in Hpend; [|done].
    cbn [errOr] in Hpend. destruct (_ || _) eqn:E2 in Hpend; [done|]. bool_hyps. apply rec_getNil in Ed. split; [|by exists r].
    unfold getNil in Eget. destruct (b_get (s_readyOrder db) o) as [x|]; [cbn in Eget; by subst|]. cbn in Eget. by subst id. }
  split; [|done]. split; [done|]. constructor; [by intros id o (? & _)%Hpo| | |done|done].
  - intros o id Ho'. destruct (Hord o id Ho') as (Hpv & n & Hd & Hn & _ & Hl). split.
    + unfold getNil in Hpv. destruct (b_get (s_pending db) id) as [x|]; [cbn in Hpv; by subst|]. cbn in Hpv. by subst o.
    + exists n. split; [lia|]. by apply decodeUint64_inv.
  - intros id. split; [intros [o Ho']; by apply (Hpo id o)|]. intros (r & Hr & Hst).
    destruct (rec_at_get _ _ _ _ Hrec Hr) as (v & Hg & Hd & _). destruct (candidateEntry_inv _ _ _ (Hc id v Hg)) as (r' & Hd' & _ & _ & Hiff).
    rewrite Hd in Hd'. injection Hd' as <-. by apply Hiff.
Qed.

(** ** The chain *)

(** A block the loop accepted. *)
Record scanned (db : StoreDB) (n : Z) (b : blockRecord) : Prop := {
  sc_at : block_at store db n = Some b;
  sc_network : CP_Network (Block_Checkpoint b) = store_network store;
  sc_number : CP_BlockNumber (Block_Checkpoint b) = n }.

Lemma scanBlock_inv db base n data scan scan' :
  RecordsInv store db -> b_get (s_blocks db) (blockNumberKey n) = Some data -> scanBlock store db base n data scan = Ok scan' ->
  exists b, scanned db n b /\ (n <> base -> Block_ParentHash b = scan_previous scan) /\ scan_previous scan' = CP_BlockHash (Block_Checkpoint b) /\
    (complete db b /\ scan_blocked scan' = scan_blocked scan /\
       scan_expected scan' = (if scan_blocked scan then scan_expected scan else Some (Block_Checkpoint b)) \/
     ~ complete db b /\ scan_blocked scan' = true /\ scan_expected scan' = scan_expected scan).
Proof.
  intros Hr Hg. unfold scanBlock. destruct (decodeBlock data _) as [b|] eqn:Ed; [|done]. cbn [errOr]. ok En. ok Ep. ok. ok Ec. intros [= <-].
  cbn [scan_previous scan_expected scan_blocked]. exists b. apply orb_false_iff in En as [En1 En2].
  apply negb_false_iff, Z.eqb_eq in En1. apply negb_false_iff, Z.eqb_eq in En2. split; [constructor; [by eapply stored_block|done|done]|].
  split; [|split; [done|]].
  - intros Hne. apply andb_false_iff in Ep as [Ep|Ep]; apply negb_false_iff in Ep; [apply Z.eqb_eq in Ep; congruence|by apply bytes_eqb_spec].
  - apply (blockComplete_spec _ _ _ _ Hr) in Ec. destruct a0; [left|right]; (split; [done|]); destruct (scan_blocked scan); done.
Qed.

(** The blocks from [number] on, as the loop saw them; [k] is the last block of
    the complete run that starts at [number]. *)
Record scanned_from (db : StoreDB) (base number : Z) (cursor : Checkpoint) (scan : ChainScan) (expected : option Checkpoint) : Prop := {
  sf_block n : number <= n <= CP_BlockNumber cursor -> exists b, scanned db n b;
  sf_first b : number <> base -> block_at store db number = Some b -> Block_ParentHash b = scan_previous scan;
  sf_link n a b : number <= n < CP_BlockNumber cursor -> block_at store db n = Some a -> block_at store db (n + 1) = Some b ->
    Block_ParentHash b = CP_BlockHash (Block_Checkpoint a);
  sf_tip b : block_at store db (CP_BlockNumber cursor) = Some b -> CP_BlockHash (Block_Checkpoint b) = CP_BlockHash cursor;
  sf_expected : if scan_blocked scan then expected = scan_expected scan
    else exists k, number - 1 <= k <= CP_BlockNumber cursor /\
      (forall n b, number <= n <= k -> block_at store db n = Some b -> complete db b) /\
      (k < CP_BlockNumber cursor -> forall b, block_at store db (k + 1) = Some b -> ~ complete db b) /\
      (if decide (k = number - 1) then expected = scan_expected scan
       else exists b, block_at store db k = Some b /\ expected = Some (Block_Checkpoint b)) }.

Lemma validateBlocks_spec db base cursor fuel number scan expected :
  RecordsInv store db -> base <= number <= CP_BlockNumber cursor ->
  validateBlocks store db base cursor fuel number scan = Some (Ok expected) -> scanned_from db base number cursor scan expected.
Proof.
  intros Hr. revert number scan. induction fuel as [|fuel IH]; intros number scan Hn; cbn [validateBlocks]; [done|].
  destruct (b_get (s_blocks db) _) as [data|] eqn:Eg; [|done]. destruct (scanBlock _ _ _ _ _ _) as [scan'|] eqn:Es; [|done].
  destruct (scanBlock_inv _ _ _ _ _ _ Hr Eg Es) as (b & Hb & Hpar & Hprev & Hcase). pose proof (sc_at _ _ _ Hb) as Hat.
  assert (Hsome : forall x, block_at store db number = Some x -> x = b) by (intros x; rewrite Hat; by intros [= <-]).
  destruct (number =? CP_BlockNumber cursor) eqn:Ec; bool_hyps.
  - destruct (negb _) eqn:Eh; [done|]. intros [= <-]. apply negb_false_iff, bytes_eqb_spec in Eh. constructor.
    + intros n Hnn. exists b. by replace n with number by lia.
    + intros x Hne Hx. rewrite (Hsome x Hx). auto.
    + intros n x y Hnn. lia.
    + intros x. rewrite <- Ec. intros Hx%Hsome. subst x. congruence.
    + destruct Hcase as [(Hc & Hbl & He)|(Hc & Hbl & He)]; destruct (scan_blocked scan); [done| |done|].
      * exists number. split; [lia|]. split; [intros n x Hnn Hx; replace n with number in Hx by lia; by rewrite (Hsome x Hx)|].
        split; [lia|]. rewrite decide_False by lia. by exists b.
      * exists (number - 1). split; [lia|]. split; [intros; lia|]. split; [|by rewrite decide_True].
        intros _ x. replace (number - 1 + 1) with number by lia. intros Hx. by rewrite (Hsome x Hx).
  - destruct (number =? 2 ^ 64 - 1); [done|]. intros Hrest. destruct (IH (number + 1) scan' ltac:(lia) Hrest) as [H1 H2 H3 H4 H5].
    constructor; [| | |done|].
    + intros n Hnn. destruct (decide (n = number)) as [->|]; [by exists b|]. apply H1. lia.
    + intros x Hne Hx. rewrite (Hsome x Hx). auto.
    + intros n x y Hnn Hx Hy. destruct (decide (n = number)) as [->|]; [|by apply (H3 n); [lia|..]].
      rewrite (H2 y ltac:(lia) Hy), (Hsome x Hx). done.
    + destruct Hcase as [(Hc & Hbl & He)|(Hc & Hbl & He)]; rewrite Hbl in H5; destruct (scan_blocked scan); try congruence.
      * destruct H5 as (k & Hk & Hall & Hmax & Hexp). exists k. split; [lia|]. split; [|split; [done|]].
        -- intros n x Hnn Hx. destruct (decide (n = number)) as [->|]; [by rewrite (Hsome x Hx)|]. apply (Hall n); [lia|done].
        -- rewrite (decide_False (P := k = number - 1)) by lia. destruct (decide (k = number + 1 - 1)) as [->|]; [|done].
           exists b. replace (number + 1 - 1) with number by lia. split; [done|congruence].
      * exists (number - 1). split; [lia|]. split; [intros; lia|]. split; [|by rewrite decide_True; [congruence|]].
        intros _ x. replace (number - 1 + 1) with number by lia. intros Hx. by rewrite (Hsome x Hx).
Qed.

(** As many entries as blocks of the range: there are no others. *)
Lemma only_range db lo hi :
  0 <= lo <= hi -> hi < 2 ^ 64 -> b_keyN (s_blocks db) = hi - lo + 1 ->
  (forall n, lo <= n <= hi -> is_Some (b_get (s_blocks db) (blockNumberKey n))) ->
  forall k v, b_get (s_blocks db) k = Some v -> exists n, lo <= n <= hi /\ k = blockNumberKey n.
Proof.
  intros Hlo Hhi Hcount Hall k v Hk. set (range := map blockNumberKey (seqZ lo (hi - lo + 1))).
  assert (Hnd : NoDup range).
  { apply NoDup_fmap_2_strong; [|apply NoDup_seqZ]. intros x y Hx Hy. rewrite elem_of_seqZ in Hx, Hy. apply blockNumberKey_inj; unfold inU; lia. }
  assert (Hsub : range ⊆+ map fst (b_entries (s_blocks db))).
  { apply NoDup_submseteq; [done|]. intros x (n & -> & Hn)%list_elem_of_fmap. rewrite elem_of_seqZ in Hn.
    destruct (Hall n ltac:(lia)) as [w Hw]. apply list_elem_of_fmap. exists (blockNumberKey n, w). split; [done|]. by apply bl_entries_get. }
  assert (Hperm : range ≡ₚ map fst (b_entries (s_blocks db))).
  { apply submseteq_length_Permutation; [done|]. unfold range. rewrite !length_map, length_seqZ. unfold b_keyN in Hcount. lia. }
  assert (Hin : k ∈ range). { rewrite Hperm. apply list_elem_of_fmap. exists (k, v). split; [done|]. by apply bl_entries_get. }
  apply list_elem_of_fmap in Hin as (n & -> & Hn). rewrite elem_of_seqZ in Hn. exists n. split; [lia|done].
Qed.

(** The chain as the validation knows it: [ChainCore] without what it says of
    the members of the blocks. *)
Record ChainShape (db : StoreDB) (base : Z) (cursor : Checkpoint) (chk : option Checkpoint) : Prop := {
  sh_base : b_get (s_meta db) baselineKey = Some (encodeUint64 base);
  sh_cursor : exists data, b_get (s_meta db) scanCursorKey = Some data /\ decodeCheckpoint data = Ok cursor;
  sh_chk : match chk with
           | None => b_get (s_meta db) checkpointKey = None
           | Some c => (exists data, b_get (s_meta db) checkpointKey = Some data /\ decodeCheckpoint data = Ok c) /\
               base <= CP_BlockNumber c /\ forall b, block_at store db (CP_BlockNumber c) = Some b -> Block_Checkpoint b = c
           end;
  sh_range : 0 <= base <= CP_BlockNumber cursor /\ CP_BlockNumber cursor < 2 ^ 64;
  sh_keys k v : b_get (s_blocks db) k = Some v -> exists n, base <= n <= CP_BlockNumber cursor /\ k = blockNumberKey n;
  sh_block n : base <= n <= CP_BlockNumber cursor -> exists b, scanned db n b;
  sh_link n a b : base <= n < CP_BlockNumber cursor -> block_at store db n = Some a -> block_at store db (n + 1) = Some b ->
    Block_ParentHash b = CP_BlockHash (Block_Checkpoint a);
  sh_tip b : block_at store db (CP_BlockNumber cursor) = Some b -> Block_Checkpoint b = cursor;
  sh_confirmed : confirmed base chk <= CP_BlockNumber cursor /\ confirmed base chk - base + 1 <= canonicalBlockLimit;
  sh_complete n b : base <= n <= confirmed base chk -> block_at store db n = Some b -> complete db b;
  sh_span : CP_BlockNumber cursor - confirmed base chk <= unconfirmedBlockLimit;
  sh_maximal : maximal store db base cursor chk }.

(** What the validation leaves unchecked: every member of a stored block has a
    record that is confirmed (not observed, preliminary or removed), carries
    that block's number and hash, and is not a fast-path candidate. *)
Definition members_stored (db : StoreDB) : Prop :=
  forall n b, inU 64 n -> block_at store db n = Some b -> Forall (member_ok db (Block_Checkpoint b)) (Block_Members b).

Lemma scanned_core db base cursor expected :
  RecordsInv store db -> inU 64 base -> b_get (s_meta db) baselineKey = Some (encodeUint64 base) ->
  (exists data, b_get (s_meta db) scanCursorKey = Some data /\ decodeCheckpoint data = Ok cursor) ->
  CP_Network cursor = store_network store -> base <= CP_BlockNumber cursor -> CP_BlockNumber cursor < 2 ^ 64 ->
  CP_BlockNumber cursor - base + 1 < 2 ^ 64 -> b_keyN (s_blocks db) = CP_BlockNumber cursor - base + 1 ->
  scanned_from db base base cursor (mkScan zeroHash None false) expected ->
  validateSpans base cursor expected (b_get (s_meta db) checkpointKey) = Ok tt ->
  exists chk, ChainShape db base cursor chk.
Proof.
  intros Hr Hb Hbase Hcur Hnet Hle Hlt Hwrap Hcount [H1 _ H3 H4 H5] Hspan. cbn [scan_blocked scan_expected] in H5.
  destruct H5 as (k & Hk & Hall & Hmax & Hexp). unfold inU in Hb.
  assert (Hconf : confirmed base expected = k /\ (forall c, expected = Some c -> exists b, block_at store db k = Some b /\ c = Block_Checkpoint b /\ CP_BlockNumber c = k)).
  { destruct (decide (k = base - 1)) as [->|]; [subst expected; by split|]. destruct Hexp as (b & Hkb & ->).
    destruct (H1 k ltac:(lia)) as (b' & [Hkb' _ Hnum]). rewrite Hkb in Hkb'. injection Hkb' as <-. split; [done|]. intros c [= <-]. by exists b. }
  destruct Hconf as [Hconf Hcp]. exists expected.
  assert (Hlims : k - base + 1 <= canonicalBlockLimit /\ CP_BlockNumber cursor - k <= unconfirmedBlockLimit /\
    match expected with None => b_get (s_meta db) checkpointKey = None
      | Some c => exists data, b_get (s_meta db) checkpointKey = Some data /\ decodeCheckpoint data = Ok c end).
  { revert Hspan. unfold validateSpans. destruct expected as [c|].
    - destruct (b_get (s_meta db) checkpointKey) as [data|]; [|done]. destruct (decodeCheckpoint data) as [c'|] eqn:Ed; [|done]. cbn [errOr].
      ok Ec. ok El. ok Eu. intros _. apply negb_false_iff, bool_decide_eq_true in Ec as ->. destruct (Hcp c eq_refl) as (b & _ & _ & Hn).
      apply orb_false_iff in El as [El1 El2]. rewrite Hn in El1, El2, Eu. bool_hyps. unfold uint64_wrap in *. rewrite Z.mod_small in El2, Eu by lia.
      repeat split; try lia. by exists data.
    - ok Ec. ok Eu. intros _. bool_hyps. apply eq_None_not_Some in Ec. cbn [confirmed] in Hconf. subst k. unfold uint64_wrap, canonicalBlockLimit in *.
      rewrite Z.mod_small in Eu by lia. split; [lia|]. split; [lia|done]. }
  destruct Hlims as (Hl1 & Hl2 & Hchk). constructor; unfold maximal; rewrite ?Hconf; try done.
  - destruct expected as [c|]; [|done]. destruct (Hcp c eq_refl) as (b & Hkb & -> & Hn). split; [done|]. rewrite Hn. split.
    + destruct (decide (k = base - 1)); [done|lia].
    + intros x. rewrite Hkb. by intros [= <-].
  - lia.
  - apply only_range; [lia|done|lia|]. intros n Hn. destruct (H1 n Hn) as (b & [(data & Hg & _)%block_at_get _ _]). by exists data.
  - intros b Hb'. destruct (H1 (CP_BlockNumber cursor) ltac:(lia)) as (x & [Hx Hnw Hnum]). rewrite Hb' in Hx. injection Hx as <-.
    pose proof (H4 b Hb') as Hh. destruct (Block_Checkpoint b) as [n0 m0 h0], cursor as [n1 m1 h1]. cbn in *. congruence.
  - split; [lia|done].
Qed.

Lemma shape_core db base cursor chk :
  ChainShape db base cursor chk -> members_stored db -> ChainCore store db base cursor chk /\ maximal store db base cursor chk.
Proof.
  intros [H1 H2 H3 H4 H5 H6 H7 H8 H9 H10 H11 H12] Hms. split; [constructor; try done|done].
  intros n Hn. destruct (H6 n Hn) as (b & [Hat Hnw Hnum]). exists b. split; [done|]. constructor; [done|done|]. apply (Hms n); [unfold inU; lia|done].
Qed.

(** A decision procedure for the hypothesis. *)
Definition member_okb (db : StoreDB) (cp : Checkpoint) (m : CandidateID) : bool :=
  match rec_at db m with
  | Some r => negb (isPreliminary (Rec_Status r)) && (Candidate_BlockNumber (Rec_Candidate r) =? CP_BlockNumber cp)
      && bytes_eqb (Candidate_BlockHash (Rec_Candidate r)) (CP_BlockHash cp) && negb (bool_decide (Candidate_Kind (Rec_Candidate r) = CandidateFastToken))
  | None => false
  end.

Definition members_storedb (db : StoreDB) : bool :=
  forallb (fun e => match decodeBlock (snd e) (store_journalCapacity store) with
    | Ok b => forallb (member_okb db (Block_Checkpoint b)) (Block_Members b)
    | Err _ => true end) (b_entries (s_blocks db)).

Lemma members_storedb_sound db : members_storedb db = true -> members_stored db.
Proof.
  intros H n b _ Hb. unfold block_at in Hb. destruct (b_get (s_blocks db) _) as [data|] eqn:Eg; [|done]. cbn in Hb.
  apply bl_entries_get, list_elem_of_In in Eg. unfold members_storedb in H. rewrite forallb_forall in H. specialize (H _ Eg). cbn [snd] in H.
  destruct (decodeBlock _ _) as [b'|]; [|done]. injection Hb as <-. rewrite forallb_forall in H. apply Forall_forall. intros m Hm%list_elem_of_In.
  specialize (H m Hm). unfold member_okb in H. destruct (rec_at db m) as [r|] eqn:Er; [|done]. bool_hyps. rewrite bytes_eqb_spec in *.
  constructor. by exists r.
Qed.

Lemma chain_members db : ChainInv store db -> members_stored db.
Proof.
  intros [(_ & _ & _ & Hnone)|(base & cursor & chk & Hc & _)] n b Hn Hb.
  - apply block_at_get in Hb as (data & Hg & _). by rewrite Hnone in Hg.
  - pose proof (block_at_range _ _ _ _ _ _ _ Hc Hn Hb) as Hin. destruct (cc_block _ _ _ _ _ Hc n Hin) as (b' & Hb' & Hok).
    rewrite Hb in Hb'. injection Hb' as <-. apply Hok.
Qed.

(** The loop over the blocks does not run out of fuel. *)
Lemma validateBlocks_total db base cursor fuel number scan :
  inU 64 number -> (length (blocks_from number db) < fuel)%nat -> validateBlocks store db base cursor fuel number scan <> None.
Proof.
  revert number scan. induction fuel as [|fuel IH]; intros number scan Hn Hf; [lia|]. cbn [validateBlocks].
  destruct (b_get (s_blocks db) _) as [data|] eqn:Eg; [|done]. destruct (scanBlock _ _ _ _ _ _) as [scan'|]; [|done].
  destruct (_ =? CP_BlockNumber cursor); [done|]. destruct (_ =? 2 ^ 64 - 1) eqn:Emax; [done|]. bool_hyps.
  apply IH; [unfold inU in *; lia|]. pose proof (blocks_from_less number db db data Hn Eg) as H. specialize (H ltac:(by intros k v)). lia.
Qed.

Lemma validateBlocks_fuel db base cursor number scan :
  inU 64 number -> exists r, validateBlocks store db base cursor (S (length (b_entries (s_blocks db)))) number scan = Some r.
Proof.
  intros Hn. destruct (validateBlocks _ _ _ _ _ _ _) as [r|] eqn:E; [by exists r|]. exfalso. revert E. apply validateBlocks_total; [done|].
  unfold blocks_from. pose proof (length_filter (fun k => number <= be_value k) (map fst (b_entries (s_blocks db)))) as H. rewrite length_map in H. lia.
Qed.

(** The store has no chain, or one of the shape the validation checked. *)
Definition chain_checked (db : StoreDB) : Prop := NoChain db \/ exists base cursor chk, ChainShape db base cursor chk.

Lemma validated_chain db : RecordsInv store db -> validateChain store db = Ok tt -> chain_checked db.
Proof.
  intros Hr. unfold validateChain.
  assert (Hnone : forall x y, match b_get (s_meta db) baselineKey, b_get (s_meta db) scanCursorKey with Some _, Some _ => False | _, _ => True end ->
    x = b_get (s_meta db) baselineKey -> y = b_get (s_meta db) scanCursorKey ->
    (reject bool_decide (is_Some x) || bool_decide (is_Some y) || bool_decide (is_Some (b_get (s_meta db) checkpointKey))
       || negb (b_keyN (s_blocks db) =? 0) with errCorrupt in Ok tt) = Ok tt -> chain_checked db).
  { intros x y _ -> ->. ok E. intros _. bool_hyps. left. repeat split; try by apply eq_None_not_Some.
    intros k. destruct (b_get (s_blocks db) k) as [v|] eqn:Ek; [|done]. exfalso. apply bl_entries_get in Ek. unfold b_keyN in *.
    destruct (b_entries (s_blocks db)); [by apply elem_of_nil in Ek|cbn in *; lia]. }
  destruct (b_get (s_meta db) baselineKey) as [bd|] eqn:Eb; [|by apply Hnone].
  destruct (b_get (s_meta db) scanCursorKey) as [cd|] eqn:Ec; [|by apply Hnone].
  destruct (decodeUint64 bd) as [base|] eqn:Ed; [|done]. destruct (decodeCheckpoint cd) as [cursor|] eqn:Ecur; [|done]. cbn [errOr].
  destruct (_ || _) eqn:Enet; [done|]. bool_hyps.
  destruct (default _ _) as [expected|] eqn:Ev; [|done]. destruct (_ || _) eqn:Espan; [done|]. apply orb_false_iff in Espan as [Es1 Es2].
  apply Z.eqb_neq in Es1. apply negb_false_iff, Z.eqb_eq in Es2. intros Hspan. right.
  destruct (decodeUint64_inv _ _ Ed) as (Hb & -> & _). pose proof (decodeCheckpoint_typed _ _ Ecur) as ([_ Hcn _] & _).
  destruct (validateBlocks_fuel db base cursor base (mkScan zeroHash None false) Hb) as [r Hfuel]. rewrite Hfuel in Ev. cbn [default] in Ev.
  unfold id in Ev. subst r. unfold inU in *. apply validateBlocks_spec in Hfuel; [|done|lia].
  destruct (scanned_core db base cursor expected) as (chk & ?); try done; try lia; [by eexists|]. by exists base, cursor, chk.
Qed.

Lemma checked_chain db : chain_checked db -> members_stored db -> ChainInv store db.
Proof.
  intros [H|(base & cursor & chk & H)] Hms; [by left|right]. exists base, cursor, chk. by apply shape_core.
Qed.

(** What a validated database has whatever its members: the queue with its
    bounds and the shape of the chain. *)
Record Checked (db : StoreDB) : Prop := {
  ck_queue : QOK store db;
  ck_journal : counted isUnfinished db <= store_journalCapacity store;
  ck_observed : counted isObserved db <= store_maxPending store;
  ck_chain : chain_checked db }.

Lemma validated_checked f :
  0 <= b_sequence (s_readyOrder (file_db f)) < 2 ^ 64 -> validateDatabase store f = Ok tt -> Checked (file_db f).
Proof.
  intros Hseq. unfold validateDatabase, validateDatabaseVersion. do 3 ok. ok. ok. ok. ok. ok Ei. ok. ok. ok. ok. ok Ec.
  intros _. destruct (validateCandidateIndexes store (file_db f)) as [[]|] eqn:Ev; [|done].
  destruct (validated_queue _ Hseq Ev) as (Hq & Hj & Ho). constructor; try done. apply validated_chain; [apply Hq|].
  match type of Ec with _ = Ok ?u => by destruct u end.
Qed.

Lemma checked_inv db : Checked db -> StoreInv store db <-> members_stored db.
Proof.
  intros [Hq Hj Ho Hc]. split; [intros Hi; apply chain_members, Hi|]. intros Hms. constructor; try done. by apply checked_chain.
Qed.

End Sound.
(** ** Opening *)

Section Opening.
Context `{BL : BoltLaws} {T : TxCodec}.

(** The ranges of the options' Go types. *)
Record options_typed (o : OpenOptions) : Prop := {
  ot_network : - 2 ^ 63 <= Opt_Network o < 2 ^ 63;
  ot_pending : inU 32 (Opt_MaxPending o);
  ot_discovered : inU 32 (Opt_MaxDiscoveredTokens o) }.

Lemma validOptions_configured o : options_typed o -> validOptions o = true -> configured (newStore o).
Proof.
  intros [_ [Hp _] _]. unfold validOptions. intros H. bool_hyps.
  destruct (deriveJournalCapacity_spec (Opt_MaxPending o)) as [_ Hd]; [lia|]. constructor; cbn; lia.
Qed.

Lemma openDatabase_ok o created fails f f' store :
  openDatabase o created fails f = (f', Ok store) ->
  store = newStore o /\ initializeOrMigrate (newStore o) created f = Ok (created, f') /\ validateDatabase (newStore o) f' = Ok tt.
Proof.
  unfold openDatabase. destruct (db_update _ _ _) as [g [i|e]] eqn:E; [|by destruct e].
  apply db_update_ok in E as [E _]. destruct (negb _) eqn:Ei; [done|]. apply negb_false_iff, eqb_prop in Ei as ->.
  destruct (validateDatabase (newStore o) g) as [[]|] eqn:Ev; [|done]. by intros [= <- <-].
Qed.

Lemma Open_ok env o r store :
  Open env o = (r, Ok store) ->
  validOptions o = true /\ store = newStore o /\ exists created f f', env_open env = Some f /\ r = Some f' /\
    initializeOrMigrate (newStore o) created f = Ok (created, f') /\ validateDatabase (newStore o) f' = Ok tt.
Proof.
  unfold Open. destruct (_ || _) eqn:Eo; [done|]. apply orb_false_iff in Eo as [_ Eo%negb_false_iff]. destruct (negb _); [done|].
  destruct (env_path env) as [[]|regular empty|]; [|done| |done].
  - destruct (env_open env) as [f|]; [|done]. destruct (negb _); [done|].
    destruct (openDatabase o true _ f) as [f' [s|]] eqn:E; [|done]. intros [= <- <-].
    destruct (openDatabase_ok _ _ _ _ _ _ E) as (-> & Hi & Hv). split; [done|]. split; [done|]. by exists true, f, f'.
  - destruct (negb regular); [done|]. destruct empty; [done|]. destruct (env_open env) as [f|]; [|done]. destruct (negb _); [done|].
    destruct (openDatabase o false _ f) as [f' r'] eqn:E. intros [= <- ->].
    destruct (openDatabase_ok _ _ _ _ _ _ E) as (-> & Hi & Hv). split; [done|]. split; [done|]. by exists false, f, f'.
Qed.

(** C35. Of a store that [Open] returns, whatever its file held before: the
    options are the validated ones, the queue has its invariant and its bounds,
    and the stored blocks are one chain, contiguous, linked, with bounded spans
    and a checkpoint that covers exactly the complete blocks.  The file has the
    whole invariant of the transactions exactly when every member of a stored
    block has a confirmed record of that block that is not a fast-path
    candidate; the validation does not check that.  (The sequence of a bucket is
    a [uint64].) *)
Theorem opened_store_has_the_invariants env o r store :
  options_typed o -> Open env o = (r, Ok store) ->
  store = newStore o /\ configured store /\ exists f, r = Some f /\
    (0 <= b_sequence (s_readyOrder (file_db f)) < 2 ^ 64 ->
       Checked store (file_db f) /\ (StoreInv store (file_db f) <-> members_stored store (file_db f))).
Proof.
  intros Ho Hopen. destruct (Open_ok _ _ _ _ Hopen) as (Hval & -> & created & f & f' & _ & -> & _ & Hv).
  pose proof (validOptions_configured o Ho Hval) as Hc. split; [done|]. split; [done|]. exists f'. split; [done|].
  intros Hseq. pose proof (validated_checked _ Hc _ Hseq Hv) as Hk. split; [done|]. by apply checked_inv.
Qed.

Lemma checkBindings_inv meta err bindings k v :
  checkBindings meta err bindings = Ok tt -> (k, v) ∈ bindings -> getNil meta k = v.
Proof.
  unfold checkBindings. intros H Hin. pose proof (foldM_all (fun '(key, value) => reject negb (bytes_eqb (getNil meta key) value) with err in Ok tt) bindings) as Hall.
  specialize (Hall H (k, v) Hin). cbn in Hall. destruct (negb _) eqn:E; [done|]. by apply negb_false_iff, bytes_eqb_spec in E.
Qed.

Lemma checkBindings_tail meta err b bindings : checkBindings meta err (b :: bindings) = Ok tt -> checkBindings meta err bindings = Ok tt.
Proof. destruct b as [k v]. unfold checkBindings. cbn [foldM]. by destruct (negb _). Qed.

Lemma validated_bindings store f :
  validateDatabase store f = Ok tt ->
  getNil (s_meta (file_db f)) schemaKey = encodeUint32 schemaVersion /\ hasBucket f metaBucket = true /\
  checkBindings (s_meta (file_db f)) errBinding (commonBindings store) = Ok tt /\
  checkBindings (s_meta (file_db f)) errBinding (sponsorBindings store) = Ok tt.
Proof.
  assert (Hany : forall meta bs e e', checkBindings meta e bs = Ok tt -> checkBindings meta e' bs = Ok tt).
  { intros meta bs e e'. unfold checkBindings. induction bs as [|[k v] bs IH]; cbn [foldM]; [done|]. destruct (negb _); [done|]. apply IH. }
  unfold validateDatabase, validateDatabaseVersion. ok. ok Em. ok. ok Eb. ok Es. intros _. destruct a, a0. apply negb_false_iff in Em.
  split; [eapply checkBindings_inv; [exact Eb|by left]|]. split; [done|]. split; [|eapply Hany; exact Es].
  eapply Hany, checkBindings_tail, Eb.
Qed.

(** A pair of the two lists of bindings. *)
Ltac bound := apply list_elem_of_In; cbn; tauto.

Lemma newStore_inj o o' :
  options_typed o -> options_typed o' ->
  (forall k v v', (k, v) ∈ commonBindings (newStore o) ++ sponsorBindings (newStore o) ->
     (k, v') ∈ commonBindings (newStore o') ++ sponsorBindings (newStore o') -> v = v') -> newStore o = newStore o'.
Proof.
  intros [Hn Hp Hd] [Hn' Hp' Hd'] H.
  assert (E1 : encodeUint64 (Opt_Network o) = encodeUint64 (Opt_Network o')) by (apply (H networkKey); bound).
  assert (E2 : Opt_Source o = Opt_Source o') by (apply (H sourceKey); bound).
  assert (E3 : Opt_PolicyFingerprint o = Opt_PolicyFingerprint o') by (apply (H policyKey); bound).
  assert (E4 : encodeUint32 (Opt_MaxPending o) = encodeUint32 (Opt_MaxPending o')) by (apply (H maxPendingKey); bound).
  assert (E5 : encodeUint32 (Opt_MaxDiscoveredTokens o) = encodeUint32 (Opt_MaxDiscoveredTokens o')) by (apply (H maxDiscoveredKey); bound).
  assert (E6 : Opt_Sponsor o = Opt_Sponsor o') by (apply (H sponsorKey); bound).
  assert (E7 : Opt_Destination o = Opt_Destination o') by (apply (H destinationKey); bound).
  assert (E8 : Opt_Rescuer o = Opt_Rescuer o') by (apply (H rescuerKey); bound).
  unfold encodeUint64, encodeUint32, appendUint64, appendUint32 in E1, E4, E5. cbn [app] in E1, E4, E5.
  apply be8_signed_inj in E1; [|done|done]. apply be_bytes_inj in E4; [|done|done]. apply be_bytes_inj in E5; [|done|done].
  unfold newStore. congruence.
Qed.

(** A store file belongs to the options it was opened with: a later [Open]
    of what an [Open] left succeeds only with the same network, accounts, policy
    and bounds. *)
Theorem store_file_is_bound_to_its_options env o f store env' o' r store' :
  options_typed o -> options_typed o' -> Open env o = (Some f, Ok store) -> env_open env' = Some f ->
  Open env' o' = (r, Ok store') -> store' = store.
Proof.
  intros Ho Ho' Hopen Henv Hopen'. destruct (Open_ok _ _ _ _ Hopen) as (_ & -> & c & f0 & f1 & _ & [= <-] & _ & Hv).
  destruct (Open_ok _ _ _ _ Hopen') as (_ & -> & c' & f2 & f3 & Hf & _ & Hi & _). rewrite Henv in Hf. injection Hf as <-.
  destruct (validated_bindings _ _ Hv) as (Hschema & Hmeta & Hc & Hs). revert Hi. unfold initializeOrMigrate. rewrite Hmeta. cbn [negb].
  rewrite Hschema. change (bytes_eqb (encodeUint32 schemaVersion) (encodeUint32 schemaVersionV1)) with false.
  change (bytes_eqb (encodeUint32 schemaVersion) (encodeUint32 schemaVersionV2)) with false.
  change (bytes_eqb (encodeUint32 schemaVersion) (encodeUint32 schemaVersion)) with true. cbn [negb andb].
  ok Ec. ok. ok. ok Es. intros _. destruct a, a0. symmetry. apply newStore_inj; [done|done|].
  intros k v v' Hk Hk'. transitivity (getNil (s_meta (file_db f)) k); [symmetry|].
  - apply elem_of_app in Hk as [Hk|Hk]; [exact (checkBindings_inv _ _ _ _ _ Hc Hk)|exact (checkBindings_inv _ _ _ _ _ Hs Hk)].
  - apply elem_of_app in Hk' as [Hk'|Hk']; [exact (checkBindings_inv _ _ _ _ _ Ec Hk')|exact (checkBindings_inv _ _ _ _ _ Es Hk')].
Qed.

End Opening.

(** ** Witnesses *)

Module ValidationExamples.
Import MapBolt QueueExamples.

#[local] Instance v_tx : TxCodec := {| UnmarshalBinary _ := None |}.

Definition v_options : OpenOptions :=
  mkOptions 1 q_source (repeat Byte.x02 20) (repeat Byte.x03 20) (repeat Byte.x04 20) 2 4 (repeat Byte.x05 32).
Definition v_create : OpenEnv := mkOpenEnv false true (PathCreated true) (Some (mkFile [] emptyDB)) true false.
Definition v_file : StoreFile := default (mkFile [] emptyDB) (fst (Open v_create v_options)).
Definition v_again : OpenEnv := mkOpenEnv false true (PathExists true false) (Some v_file) true false.

Lemma v_typed : options_typed v_options.
Proof. by constructor. Qed.

Lemma v_created : Open v_create v_options = (Some v_file, Ok (newStore v_options)).
Proof.
  assert (H : isOk (snd (Open v_create v_options)) = true) by (vm_compute; reflexivity). unfold v_file.
  destruct (Open v_create v_options) as [r [s|]] eqn:E; [|discriminate H].
  destruct (Open_ok _ _ _ _ E) as (_ & -> & _ & _ & f & _ & -> & _). reflexivity.
Qed.

Lemma v_reopened : exists r s, Open v_again v_options = (r, Ok s).
Proof.
  assert (H : isOk (snd (Open v_again v_options)) = true) by (vm_compute; reflexivity).
  destruct (Open v_again v_options) as [r [s|]]; [by exists r, s|discriminate H].
Qed.

(** A block with two unacknowledged members is committed, and the file opened
    again. *)
Definition v_other : RescueCandidate := NewLogCandidate 1 q_source q_token (repeat Byte.x0a 32) (repeat Byte.x0b 32) 10 1.
Definition v_block : CanonicalBlock :=
  mkCanonicalBlock (mkCheckpoint 1 10 (repeat Byte.x0a 32)) (repeat Byte.x0d 32) [q_first; v_other].
Definition v_committed : StoreDB :=
  ss_db (perform (newStore v_options) (OpCommit q_call q_rounds v_block) (mkStoreState false (file_db v_file) 0 ∅ ∅ 0)).
Definition v_reopen : OpenEnv := mkOpenEnv false true (PathExists true false) (Some (with_db v_file v_committed)) true false.

(** ** A gap of the validation *)

(** Every trace of the second of the two members is removed from the file. *)
Definition v_lost : RescueCandidate := if bytes_ltb (Candidate_ID q_first) (Candidate_ID v_other) then v_other else q_first.
Definition v_damaged : StoreFile :=
  let db := v_committed in
  let id := Candidate_ID v_lost in
  let db := set_candidates db (b_delete (s_candidates db) id) in
  let db := set_blockIndex db (b_delete (s_blockIndex db) (default [] (candidateBlockIndexKey v_lost))) in
  let db := set_readyOrder db (b_delete (s_readyOrder db) (getNil (s_pending db) id)) in
  with_db v_file (set_pending db (b_delete (s_pending db) id)).

(** The validation stops at the first unacknowledged member of a block: a later
    member may have no record at all. *)
Theorem validation_misses_lost_members :
  validateDatabase (newStore v_options) v_damaged = Ok tt /\
  exists b, block_at (newStore v_options) (file_db v_damaged) 10 = Some b /\ Candidate_ID v_lost ∈ Block_Members b /\
    rec_at (file_db v_damaged) (Candidate_ID v_lost) = None.
Proof.
  split; [apply (bool_decide_eq_true_1 (_ = _)); vm_compute; reflexivity|].
  assert (H : match block_at (newStore v_options) (file_db v_damaged) 10 with
    | Some b => bool_decide (Candidate_ID v_lost ∈ Block_Members b) && bool_decide (rec_at (file_db v_damaged) (Candidate_ID v_lost) = None)
    | None => false end = true) by (vm_compute; reflexivity).
  destruct (block_at _ _ _) as [b|]; [|discriminate H]. apply andb_true_iff in H as [H1 H2]. exists b. split; [reflexivity|].
  split; [exact (bool_decide_eq_true_1 _ H1)|exact (bool_decide_eq_true_1 _ H2)].
Qed.

Definition v_opened : StoreFile := default v_file (fst (Open v_reopen v_options)).
Definition v_reopen_damaged : OpenEnv := mkOpenEnv false true (PathExists true false) (Some v_damaged) true false.
Definition v_opened_damaged : StoreFile := default v_file (fst (Open v_reopen_damaged v_options)).

Lemma v_opens : Open v_reopen v_options = (Some v_opened, Ok (newStore v_options)) /\
  Open v_reopen_damaged v_options = (Some v_opened_damaged, Ok (newStore v_options)).
Proof.
  assert (Hany : forall env, isOk (snd (Open env v_options)) = true ->
    Open env v_options = (Some (default v_file (fst (Open env v_options))), Ok (newStore v_options))).
  { intros env H. destruct (Open env v_options) as [r [s|]] eqn:E; [|discriminate H].
    destruct (Open_ok _ _ _ _ E) as (_ & -> & _ & _ & f & _ & -> & _). reflexivity. }
  split; apply Hany; vm_compute; reflexivity.
Qed.

Definition v_facts : bool :=
  let db := file_db v_opened in
  let bad := file_db v_opened_damaged in
  match block_at (newStore v_options) db 10, block_at (newStore v_options) bad 10 with
  | Some b, Some b' => Nat.eqb (length (Block_Members b)) 2 && members_storedb (newStore v_options) db
      && bool_decide (Candidate_ID v_lost ∈ Block_Members b') && bool_decide (rec_at bad (Candidate_ID v_lost) = None)
      && (b_sequence (s_readyOrder db) =? 2) && (b_sequence (s_readyOrder bad) =? 2)
  | _, _ => false end.

Lemma v_facts_hold : v_facts = true.
Proof. vm_compute. reflexivity. Qed.

(** The file with its two members has the whole invariant; the damaged one is
    opened too, has the rest of it, and not the whole. *)
Lemma opened_store_has_the_invariants_witness :
  (exists b, block_at (newStore v_options) (file_db v_opened) 10 = Some b /\ length (Block_Members b) = 2%nat) /\
  StoreInv (newStore v_options) (file_db v_opened) /\
  Checked (newStore v_options) (file_db v_opened_damaged) /\ ~ StoreInv (newStore v_options) (file_db v_opened_damaged).
Proof.
  pose proof v_facts_hold as F. unfold v_facts in F. destruct v_opens as [O1 O2].
  destruct (opened_store_has_the_invariants v_reopen v_options _ _ v_typed O1) as (_ & _ & f1 & E1 & H1).
  destruct (opened_store_has_the_invariants v_reopen_damaged v_options _ _ v_typed O2) as (_ & _ & f2 & E2 & H2).
  rewrite <- (inj Some _ _ E1) in H1. rewrite <- (inj Some _ _ E2) in H2. clear O1 O2 E1 E2 f1 f2.
  destruct (block_at (newStore v_options) (file_db v_opened) 10) as [b|]; [|discriminate F].
  destruct (block_at (newStore v_options) (file_db v_opened_damaged) 10) as [b'|] eqn:B'; [|discriminate F].
  repeat (apply andb_true_iff in F as [F ?F]). apply Z.eqb_eq in F0, F1. rewrite F1 in H1. rewrite F0 in H2.
  destruct (H1 ltac:(lia)) as [_ I1]. destruct (H2 ltac:(lia)) as [C2 I2].
  split; [exists b; split; [reflexivity|apply Nat.eqb_eq, F]|]. split; [apply I1, members_storedb_sound, F4|]. split; [exact C2|].
  intros Hms%I2. specialize (Hms 10 b' ltac:(unfold inU; lia) B'). rewrite Forall_forall in Hms.
  destruct (Hms _ (bool_decide_eq_true_1 _ F3)) as [(r & Hr & _)]. rewrite (bool_decide_eq_true_1 _ F2) in Hr. discriminate Hr.
Defined.

Lemma store_file_is_bound_to_its_options_witness : exists r s, Open v_again v_options = (r, Ok s) /\ s = newStore v_options.
Proof.
  destruct v_reopened as (r & s & E). exists r, s. split; [exact E|].
  exact (store_file_is_bound_to_its_options v_create v_options v_file _ v_again v_options r s v_typed v_typed v_created eq_refl E).
Defined.

End ValidationExamples.

End ValidationTheorems.
Export ValidationTheorems.
