(* ===== verification/RescueCodec.v ===== *)
(** * The rescue record codec round-trips

    What [encodeRescueIncident] writes, [decodeRescueIncident] reads back
    unchanged, for both record versions; what is decoded is well typed and
    valid. *)

From S2P Require Import Prelude GoTime Bytes Sha256 Domain Bolt StoreModel StoreLease StoreRescue.
From Stdlib Require Import Strings.Byte.

Module RescueCodec.

(** The ranges Go's types guarantee of an incident. *)
Record rescue_typed (i : RescueIncident) : Prop := {
  ty_candidate : isHash (R_Candidate i);
  ty_network : - 2 ^ 63 <= R_Network i < 2 ^ 63;
  ty_kind : kind_of_byte (kind_byte (R_Kind i)) = R_Kind i;
  ty_asset : isAddress (R_Asset i);
  ty_generation : inU 64 (R_Generation i);
  ty_max : inU 32 (Pol_MaxAttempts (R_Policy i));
  ty_delay : - 2 ^ 63 <= Pol_RetryDelay (R_Policy i) < 2 ^ 63;
  ty_finality : - 2 ^ 63 <= Pol_FinalityTimeout (R_Policy i) < 2 ^ 63;
  ty_attempts : inU 32 (R_Attempts i);
  ty_sponsor : inU 64 (R_SponsorNonce i);
  ty_source : inU 64 (R_SourceNonce i);
  ty_tx : isHash (R_TxHash i);
  ty_block : inU 64 (R_SnapshotBlockNumber i);
  ty_blockhash : isHash (R_SnapshotBlockHash i);
  ty_before : isHash (R_SourceBefore i);
  ty_dest : isHash (R_DestinationBefore i);
  ty_retry : time_ok (R_RetryAt i);
  ty_reconcile : time_ok (R_ReconcileUntil i);
  ty_created : time_ok (R_CreatedAt i);
  ty_updated : time_ok (R_UpdatedAt i) }.

Lemma rescue_of_byte_byte s : validRescueStatus s = true -> rescue_of_byte (rescue_byte s) = s.
Proof. by destruct s. Qed.

Lemma normalizeRescueIncident_id i : normalizeRescueIncident i = i.
Proof. unfold normalizeRescueIncident. rewrite !normalizeStoreTime_id. by destruct i. Qed.

Section Codec.
Context {T : TxCodec}.

Lemma validateRescueCommon_inv i :
  validateRescueCommon i = Ok tt ->
  0 < R_Network i /\ R_ID i = NewAssetIncidentID (R_Candidate i) (R_Kind i) (R_Asset i) /\
  R_Parent i = NewIncidentID (R_Candidate i) /\ 0 < Pol_RetryDelay (R_Policy i) /\ 0 < Pol_FinalityTimeout (R_Policy i) /\
  R_Attempts i <= Pol_MaxAttempts (R_Policy i) /\ len (R_LastCode i) <= maxErrorCodeBytes /\
  len (R_SignedTransaction i) <= maxSignedTransactionLen /\
  validRescueTime (R_CreatedAt i) = true /\ validRescueTime (R_UpdatedAt i) = true /\ R_CreatedAt i <= R_UpdatedAt i /\
  (R_RetryAt i = zeroTime \/ validRescueTime (R_RetryAt i) = true) /\
  (R_ReconcileUntil i = zeroTime \/ validRescueTime (R_ReconcileUntil i) = true) /\
  validRescueStatus (R_Status i) = true.
Proof.
  unfold validateRescueCommon.
  match goal with |- (if ?c then _ else _) = _ -> _ => destruct c eqn:E1; [done|] end.
  match goal with |- (let! _ := ?c in _) = _ -> _ => destruct c; [|done] end.
  match goal with |- (if ?c then _ else _) = _ -> _ => destruct c eqn:E2; [done|] end.
  match goal with |- (if ?c then _ else _) = _ -> _ => destruct c eqn:E3; [done|] end.
  match goal with |- (if ?c then _ else _) = _ -> _ => destruct c eqn:E4; [done|] end. intros _.
  unfold Before, IsZero in *. bool_hyps.
  assert (Hz : forall x v, negb (x =? 0) && negb v = false -> x = zeroTime \/ v = true).
  { clear. intros x v [H|H]%andb_false_iff; bool_hyps; auto. }
  repeat match goal with H : bytes_eqb _ _ = true |- _ => apply bytes_eqb_spec in H end.
  repeat split; try done; try lia; by apply Hz.
Qed.

Lemma validateRescueIncident_common i : validateRescueIncident i = Ok tt -> validateRescueCommon i = Ok tt.
Proof. unfold validateRescueIncident. by destruct (validateRescueCommon i) as [[]|]. Qed.

Definition rescueLayout (i : RescueIncident) : bytes :=
  R_ID i ++ R_Parent i ++ R_Candidate i ++ be_bytes 8 (R_Network i) ++ [kind_byte (R_Kind i)] ++ R_Asset i ++
  be_bytes 8 (R_Generation i) ++ [if R_Trusted i then x01 else x00] ++ be_bytes 4 (Pol_MaxAttempts (R_Policy i)) ++
  be_bytes 8 (Pol_RetryDelay (R_Policy i)) ++ be_bytes 8 (Pol_FinalityTimeout (R_Policy i)) ++ [rescue_byte (R_Status i)] ++
  be_bytes 4 (R_Attempts i) ++ be_bytes 8 (R_SponsorNonce i) ++ be_bytes 8 (R_SourceNonce i) ++ R_TxHash i ++
  be_bytes 4 (len (R_SignedTransaction i)) ++ R_SignedTransaction i ++ be_bytes 8 (R_SnapshotBlockNumber i) ++
  R_SnapshotBlockHash i ++ R_SourceBefore i ++ R_DestinationBefore i ++ time_bytes (R_RetryAt i) ++
  time_bytes (R_ReconcileUntil i) ++ be_bytes 2 (len (R_LastCode i)) ++ R_LastCode i ++ time_bytes (R_CreatedAt i) ++
  time_bytes (R_UpdatedAt i) ++ (if Pol_LatestState (R_Policy i) then [x01] else []).

Definition rescueVersion (i : RescueIncident) : byte :=
  if Pol_LatestState (R_Policy i) then latestRescueRecordVersion else rescueRecordVersion.

Lemma encodeRescueIncident_inv i data :
  encodeRescueIncident i = Ok data -> validateRescueIncident i = Ok tt /\ data = rescueVersion i :: rescueLayout i.
Proof.
  unfold encodeRescueIncident. rewrite normalizeRescueIncident_id. destruct (validateRescueIncident i) as [[]|]; [|done].
  intros <-%Ok_inj. split; [done|]. unfold rescueLayout, rescueVersion. rewrite !appendTime_app.
  unfold appendUint64, appendUint32, appendUint16.
  destruct (Pol_LatestState (R_Policy i)); rewrite <- !app_assoc; [done|]. by rewrite app_nil_r.
Qed.

Lemma rescueLayout_len i :
  rescue_typed i -> isHash (R_ID i) -> isHash (R_Parent i) ->
  365 <= len (rescueLayout i).
Proof.
  intros [] H1 H2. unfold rescueLayout, isHash, isAddress in *. rewrite !len_app. unfold len.
  rewrite !length_be_bytes, !length_time_bytes, H1, H2, ty_candidate0, ty_asset0, ty_tx0, ty_blockhash0, ty_before0, ty_dest0.
  cbn [length]. lia.
Qed.

(** A length-prefixed field at the cursor. *)
Lemma read_field data offset x rest bound :
  at_offset data offset (x ++ rest) -> len x <= bound ->
  (bound <? len x) || (len data - offset <? len x) = false /\ slice data offset (Z.to_nat (len x)) = x /\
  at_offset data (offset + len x) rest.
Proof.
  intros (Hsl & Hroom & Hnext)%at_offset_slice Hb. rewrite orb_false_iff, !Z.ltb_ge. unfold len at 4. rewrite Nat2Z.id.
  repeat split; done || lia.
Qed.

Lemma decode_encodeRescueIncident i data :
  rescue_typed i -> encodeRescueIncident i = Ok data -> decodeRescueIncident data = Ok i.
Proof.
  intros Hty [Hv ->]%encodeRescueIncident_inv.
  destruct (validateRescueCommon_inv _ (validateRescueIncident_common _ Hv))
    as (Hpos & Hid & Hpar & Hdel & Hfin & _ & Hcode & Hsig & Hcr & Hup & _ & Hre & Hrec & Hst).
  assert (Hidl : length (R_ID i) = 32%nat) by (rewrite Hid; apply sha256_length).
  assert (Hparl : length (R_Parent i) = 32%nat) by (rewrite Hpar; apply NewIncidentID_length).
  pose proof (rescueLayout_len i Hty Hidl Hparl) as Hlen.
  set (data := rescueVersion i :: rescueLayout i).
  assert (Hcur : at_offset data 1 (rescueLayout i)) by by exists [rescueVersion i].
  assert (Hdl : len data = 1 + len (rescueLayout i)) by (subst data; unfold len; cbn [length]; lia).
  unfold decodeRescueIncident, decodeRescueIncidentForSchema.
  replace (byte_at data 0) with (rescueVersion i) by done.
  rewrite (proj2 (Z.ltb_ge _ _)) by lia. cbn [orb].
  assert (Hver : negb (bool_decide (rescueVersion i = rescueRecordVersion)) &&
     (negb (bool_decide (rescueVersion i = latestRescueRecordVersion)) || false) = false).
  { unfold rescueVersion. by destruct (Pol_LatestState (R_Policy i)). }
  rewrite Hver. clear Hver.
  assert (Hlat : bool_decide (rescueVersion i = latestRescueRecordVersion) = Pol_LatestState (R_Policy i)).
  { unfold rescueVersion. by destruct (Pol_LatestState (R_Policy i)). }
  rewrite Hlat. clear Hlat Hlen Hdl Hid Hpar.
  unfold rescueLayout in Hcur. clearbody data.
  destruct Hty as [Hc Hn Hk Ha Hg Hmx Hrd Hft Hat Hsn Hso Htx Hbn Hbh Hsb Hdb Ht1 Ht2 Ht3 Ht4].
  assert (Hs1 : time_storable (R_RetryAt i)) by (destruct Hre as [->|?]; [apply zeroTime_storable|by apply validRescueTime_storable]).
  assert (Hs2 : time_storable (R_ReconcileUntil i)) by (destruct Hrec as [->|?]; [apply zeroTime_storable|by apply validRescueTime_storable]).
  assert (Hs3 : time_storable (R_CreatedAt i)) by by apply validRescueTime_storable.
  assert (Hs4 : time_storable (R_UpdatedAt i)) by by apply validRescueTime_storable.
  unfold isHash, isAddress, readUint64, readUint32, readUint16, maxSignedTransactionLen, maxErrorCodeBytes in *.
  do 3 (read_next Hcur ltac:(done)). read_next Hcur ltac:(unfold inU; cbn; lia). rewrite (proj2 (Z.ltb_ge _ _)) by lia.
  destruct (at_offset_byte _ _ _ _ Hcur) as (Hlt & -> & Hcur'). rewrite (proj2 (Z.leb_gt _ _) Hlt), Hk. clear Hcur Hlt.
  read_next Hcur' ltac:(done). read_next Hcur' ltac:(done).
  destruct (at_offset_byte _ _ _ _ Hcur') as (Hlt & -> & Hcur). rewrite (proj2 (Z.leb_gt _ _) Hlt). clear Hcur' Hlt.
  assert ((1 <? byteZ (if R_Trusted i then x01 else x00)) = false) as -> by by destruct (R_Trusted i).
  assert (bool_decide ((if R_Trusted i then x01 else x00) = x01) = R_Trusted i) as -> by by destruct (R_Trusted i).
  read_next Hcur ltac:(done). read_next Hcur ltac:(unfold inU; cbn; lia). rewrite (proj2 (Z.ltb_ge _ _)) by lia.
  read_next Hcur ltac:(unfold inU; cbn; lia). rewrite (proj2 (Z.ltb_ge _ _)) by lia. cbn [orb].
  destruct (at_offset_byte _ _ _ _ Hcur) as (Hlt & -> & Hcur'). rewrite (proj2 (Z.leb_gt _ _) Hlt). clear Hcur Hlt.
  rewrite (rescue_of_byte_byte _ Hst). do 4 (read_next Hcur' ltac:(done)).
  read_next Hcur' ltac:(unfold inU; pose proof (len_nonneg (R_SignedTransaction i)); cbn; lia).
  destruct (read_field _ _ _ _ _ Hcur' Hsig) as (-> & -> & Hcur). clear Hcur'.
  do 6 (read_next Hcur ltac:(done)).
  read_next Hcur ltac:(unfold inU; pose proof (len_nonneg (R_LastCode i)); cbn; lia).
  destruct (read_field _ _ _ _ _ Hcur Hcode) as (-> & -> & Hcur'). clear Hcur.
  do 2 (read_next Hcur' ltac:(done)).
  match type of Hcur' with at_offset _ ?o _ =>
    assert (Hend : Pol_LatestState (R_Policy i) && ((len data <=? o) || negb (bool_decide (byte_at data o = x01))) = false /\
      (if Pol_LatestState (R_Policy i) then o + 1 else o) = len data) end.
  { destruct (Pol_LatestState (R_Policy i)); cbn [andb].
    - destruct (at_offset_byte _ _ _ _ Hcur') as (Hlt & -> & Hcur). rewrite (proj2 (Z.leb_gt _ _) Hlt). split; [done|].
      by apply at_offset_end.
    - split; [done|]. by apply at_offset_end. }
  destruct Hend as [-> ->]. rewrite Z.eqb_refl. cbn [negb andb].
  match goal with |- (let! _ := validateRescueIncident ?x in _) = _ => assert (x = i) as -> end.
  { by destruct i as [? ? ? ? ? ? ? ? [] ? ? ? ? ? ? ? ? ? ? ? ? ? ? ?]. }
  by rewrite Hv.
Qed.

Lemma decodeRescueIncident_valid data i : decodeRescueIncident data = Ok i -> validateRescueIncident i = Ok tt.
Proof.
  unfold decodeRescueIncident, decodeRescueIncidentForSchema. intros H.
  repeat match type of H with
  | (if ?c then _ else _) = _ => destruct c; [done|]
  | match ?o with Some _ => _ | None => _ end = _ => destruct o as [[? ?]|]; [|done]
  end.
  cbn [andb] in H. destruct (validateRescueIncident _) as [[]|] eqn:E; [|done]. by injection H as <-.
Qed.

End Codec.

End RescueCodec.
Export RescueCodec.
