(* ===== verification/RescueTheorems.v ===== *)
(** * Rescue operations: their life cycle in the store

    [rescue_step] is one accepted transition.  The pure part proves what a
    sequence of transitions can and cannot do to an incident; the second part
    proves that the store's operations let a stored incident change by such
    transitions only, and prune finished ones only. *)

From S2P Require Import Prelude GoTime Bytes Sha256 Domain Bolt StoreModel StoreLease StoreRescue RescueCodec.

Module RescueTheorems.

Section Rescue.
Context {T : TxCodec}.

Definition rescue_step (current next : RescueIncident) : Prop :=
  validateRescueIncident next = Ok tt /\ validRescueTransition current next = true.

(** A signed transaction is out: its outcome is being awaited. *)
Definition inFlight (s : RescueStatus) : bool :=
  match s with RescueSigned | RescueBroadcast | RescueAmbiguous => true | _ => false end.

(** The operation a signed incident stands for. *)
Definition same_operation (a b : RescueIncident) : Prop :=
  R_TxHash b = R_TxHash a /\ R_SponsorNonce b = R_SponsorNonce a /\ R_SourceNonce b = R_SourceNonce a /\
  R_Attempts b = R_Attempts a /\ R_SourceBefore b = R_SourceBefore a /\ R_DestinationBefore b = R_DestinationBefore a.

#[export] Instance same_operation_trans : Transitive same_operation.
Proof. intros a b c (? & ? & ? & ? & ? & ?) (? & ? & ? & ? & ? & ?). repeat split; congruence. Qed.

#[export] Instance same_operation_refl : Reflexive same_operation.
Proof. by intros a. Qed.

(** ** Pure facts *)

Lemma sameRescueIdentity_spec a b :
  sameRescueIdentity a b = true <->
  R_ID a = R_ID b /\ R_Parent a = R_Parent b /\ R_Candidate a = R_Candidate b /\ R_Network a = R_Network b /\
  R_Kind a = R_Kind b /\ R_Asset a = R_Asset b /\ R_Generation a = R_Generation b /\ R_Trusted a = R_Trusted b /\
  R_Policy a = R_Policy b.
Proof.
  unfold sameRescueIdentity. rewrite !andb_true_iff, !bytes_eqb_spec, !Z.eqb_eq, !bool_decide_eq_true, eqb_true_iff. tauto.
Qed.

Lemma sameRescueIncident_spec a b : sameRescueIncident a b = true <-> a = b.
Proof.
  unfold sameRescueIncident. rewrite !normalizeRescueIncident_id. unfold TimeEqual.
  rewrite !andb_true_iff, sameRescueIdentity_spec, !bytes_eqb_spec, !Z.eqb_eq, bool_decide_eq_true.
  split; [|intros ->; repeat split]. intros. split_hyps. destruct a, b. cbn in *. subst. done.
Qed.

Lemma sameRescuePreparation_spec a b :
  sameRescuePreparation a b = true ->
  R_SponsorNonce b = R_SponsorNonce a /\ R_SourceNonce b = R_SourceNonce a /\
  R_SourceBefore b = R_SourceBefore a /\ R_DestinationBefore b = R_DestinationBefore a.
Proof.
  unfold sameRescuePreparation. rewrite !andb_true_iff, !bytes_eqb_spec, !Z.eqb_eq. intros. split_hyps. done.
Qed.

Lemma sameSigned_spec a b :
  sameSignedRescueOperation a b = true -> same_operation a b /\ R_SignedTransaction b = R_SignedTransaction a.
Proof.
  unfold sameSignedRescueOperation. rewrite !andb_true_iff, !bytes_eqb_spec, Z.eqb_eq. intros [[[Ha Hp] Ht] Hs].
  apply sameRescuePreparation_spec in Hp as (? & ? & ? & ?). repeat split; congruence.
Qed.

Lemma validReceipt_spec a b :
  validReceiptTerminalTransition a b = true ->
  same_operation a b /\ (R_SignedTransaction b = [] \/ R_SignedTransaction b = R_SignedTransaction a).
Proof.
  unfold validReceiptTerminalTransition. destruct (_ || _ || _) eqn:E; [done|]. bool_hyps.
  match goal with H : bytes_eqb _ _ = true |- _ => apply bytes_eqb_spec in H as Htx end.
  match goal with H : sameRescuePreparation _ _ = true |- _ => apply sameRescuePreparation_spec in H as (? & ? & ? & ?) end.
  intros Hr. split; [by repeat split|]. destruct (len (R_SignedTransaction b) =? 0) eqn:El.
  - left. bool_hyps. unfold len in El. destruct (R_SignedTransaction b); [done|]. cbn in El. lia.
  - right. apply andb_true_iff in Hr as [Hr _]. by apply bytes_eqb_spec.
Qed.

(** The guard shared by every transition. *)
Lemma transition_common a b :
  validRescueTransition a b = true ->
  sameRescueIdentity a b = true /\ R_CreatedAt a = R_CreatedAt b /\ R_UpdatedAt a <= R_UpdatedAt b.
Proof.
  unfold validRescueTransition. destruct (_ || _) eqn:E; [done|]. intros _. unfold TimeEqual, Before in E. bool_hyps. done.
Qed.

Lemma terminal_no_transition a b : isTerminalRescueStatus (R_Status a) = true -> validRescueTransition a b = false.
Proof. unfold validRescueTransition. destruct (_ || _); [done|]. by destruct (R_Status a). Qed.

(** A transaction in flight stays the operation it is, to its end. *)
Lemma inFlight_step a b :
  inFlight (R_Status a) = true -> validRescueTransition a b = true ->
  same_operation a b /\
  (inFlight (R_Status b) = true /\ R_SignedTransaction b = R_SignedTransaction a \/
   isReceiptTerminalStatus (R_Status b) = true /\
     (R_SignedTransaction b = [] \/ R_SignedTransaction b = R_SignedTransaction a)).
Proof.
  intros Hf. unfold validRescueTransition. destruct (_ || _); [done|]. unfold isStatus.
  destruct (R_Status a) eqn:Ea; try done.
  - rewrite !andb_true_iff. intros [[Hs Hop] _]. apply sameSigned_spec in Hop as [Hop Htx]. split; [done|]. left.
    split; [|done]. apply orb_true_iff in Hs as [Hs|Hs]; bool_hyps; by rewrite Hs.
  - destruct (bool_decide (R_Status b = RescueAmbiguous)) eqn:Eb; bool_hyps; rewrite andb_true_iff; intros [H1 H2].
    + apply sameSigned_spec in H1 as [Hop Htx]. split; [done|]. left. by rewrite Eb.
    + apply validReceipt_spec in H2 as [Hop Htx]. split; [done|]. by right.
  - assert (Hrec : isReceiptTerminalStatus (R_Status b) && validReceiptTerminalTransition a b = true ->
      same_operation a b /\ (inFlight (R_Status b) = true /\ R_SignedTransaction b = R_SignedTransaction a \/
        isReceiptTerminalStatus (R_Status b) = true /\
        (R_SignedTransaction b = [] \/ R_SignedTransaction b = R_SignedTransaction a))).
    { intros [H1 H2]%andb_true_iff. apply validReceipt_spec in H2 as [Hop Htx]. split; [done|]. by right. }
    destruct (R_Status b) eqn:Eb; try apply Hrec; rewrite !andb_true_iff; intros.
    + split_hyps. match goal with H : sameSignedRescueOperation _ _ = true |- _ => apply sameSigned_spec in H as [? ?] end. auto.
    + split_hyps. match goal with H : sameSignedRescueOperation _ _ = true |- _ => apply sameSigned_spec in H as [? ?] end. auto.
Qed.

Lemma attempts_step a b :
  validRescueTransition a b = true -> validateRescueIncident a = Ok tt -> R_Attempts a <= R_Attempts b.
Proof.
  intros Ht Hv. destruct (inFlight (R_Status a)) eqn:Ef.
  { destruct (inFlight_step a b Ef Ht) as [(_ & _ & _ & -> & _) _]. lia. }
  revert Ht. unfold validRescueTransition. destruct (_ || _); [done|]. unfold isStatus.
  destruct (R_Status a) eqn:Ea; try done.
  - rewrite andb_true_iff, Z.eqb_eq. intros [_ ->]. unfold validateRescueIncident, isStatus in Hv.
    destruct (validateRescueCommon a); [|done]. rewrite Ea, bool_decide_eq_true_2 in Hv by done.
    destruct (_ || _) eqn:E; [done|]. bool_hyps. lia.
  - destruct (_ || _) eqn:E; [done|]. bool_hyps. lia.
  - destruct (_ || _); [done|]. destruct (R_Status b); try done; rewrite ?andb_true_iff; intros; split_hyps; bool_hyps; lia.
Qed.

(** ** Histories *)

Lemma history_identity a b :
  rtc rescue_step a b ->
  sameRescueIdentity a b = true /\ R_CreatedAt a = R_CreatedAt b /\ R_UpdatedAt a <= R_UpdatedAt b.
Proof.
  induction 1 as [a|a b c [_ Hs] _ (Hid & Hc & Hu)].
  - split; [by apply sameRescueIdentity_spec|done].
  - apply transition_common in Hs as (Hid' & Hc' & Hu'). rewrite sameRescueIdentity_spec in *. split_hyps.
    repeat split; congruence || lia.
Qed.

Lemma history_terminal a b : isTerminalRescueStatus (R_Status a) = true -> rtc rescue_step a b -> b = a.
Proof.
  intros Ht H. inversion H as [|? y ? [_ Hs] _]; [done|]. by rewrite terminal_no_transition in Hs.
Qed.

Lemma receipt_terminal s : isReceiptTerminalStatus s = true -> isTerminalRescueStatus s = true.
Proof. by destruct s. Qed.

Lemma history_inFlight a b :
  inFlight (R_Status a) = true -> rtc rescue_step a b ->
  same_operation a b /\
  (inFlight (R_Status b) = true /\ R_SignedTransaction b = R_SignedTransaction a \/
   isReceiptTerminalStatus (R_Status b) = true /\
     (R_SignedTransaction b = [] \/ R_SignedTransaction b = R_SignedTransaction a)).
Proof.
  intros Hf H. induction H as [a|a b c [_ Hs] Hrest IH]; [split; [done|]; by left|].
  destruct (inFlight_step a b Hf Hs) as [Hop [[Hb Htx]|[Hb Htx]]].
  - destruct (IH Hb) as [Hop' Hc]. split; [by etransitivity|]. rewrite Htx in Hc. done.
  - apply receipt_terminal in Hb as Hb'. rewrite (history_terminal _ _ Hb' Hrest). split; [done|]. by right.
Qed.

Lemma history_attempts a b :
  validateRescueIncident a = Ok tt -> rtc rescue_step a b ->
  R_Attempts a <= R_Attempts b <= Pol_MaxAttempts (R_Policy a).
Proof.
  intros Hv H. induction H as [a|a b c [Hvb Hs] _ IH].
  - apply validateRescueIncident_common, validateRescueCommon_inv in Hv. split_hyps. lia.
  - specialize (IH Hvb). pose proof (attempts_step a b Hs Hv). apply transition_common in Hs as (Hid & _).
    assert (R_Policy a = R_Policy b) as -> by (apply sameRescueIdentity_spec in Hid; tauto). lia.
Qed.

(** ** Histories in the store *)

Section Store.
Context `{BL : BoltLaws} (store : BoltStore).

Inductive rescue_op :=
| RPut (i : RescueIncident)
| RUpdate (i : RescueIncident)
| RPrune (loopErr : nat -> option CtxErr) (retain : Z)
| RRaise (floor : Z).

Definition rescue_op_typed (op : rescue_op) : Prop :=
  match op with
  | RPut i | RUpdate i => rescue_typed i
  | RPrune _ _ => True
  | RRaise floor => inU 64 floor
  end.

Definition run_rescue (st : StoreState) (event : Call * rescue_op) : StoreState :=
  let (call, op) := event in
  match op with
  | RPut i => fst (PutRescueIncident store call i st)
  | RUpdate i => fst (UpdateRescueIncident store call i st)
  | RPrune loopErr retain => fst (PruneRescueIncidents store call loopErr retain st)
  | RRaise floor => fst (RaiseNonceFloor call floor st)
  end.

(** Every record decodes to an incident of this network under its own ID. *)
Definition RescueInv (db : StoreDB) : Prop :=
  forall k v, b_get (s_rescueState db) k = Some v ->
    exists i, decodeRescueIncident v = Ok i /\ k = R_ID i /\ R_Network i = store_network store.

Definition rescue_at (db : StoreDB) (id : IncidentID) : option RescueIncident :=
  match b_get (s_rescueState db) id with
  | Some v => match decodeRescueIncident v with Ok i => Some i | Err _ => None end
  | None => None
  end.

Lemma rescue_at_spec db id :
  RescueInv db ->
  match rescue_at db id with
  | Some i => exists v, b_get (s_rescueState db) id = Some v /\ decodeRescueIncident v = Ok i /\ R_ID i = id /\
      R_Network i = store_network store /\ validateRescueIncident i = Ok tt
  | None => b_get (s_rescueState db) id = None
  end.
Proof.
  intros Hi. unfold rescue_at. destruct (b_get _ id) as [v|] eqn:E; [|done].
  destruct (Hi _ _ E) as (i & Hd & Hk & Hn). rewrite Hd. exists v. repeat split; auto. by eapply decodeRescueIncident_valid.
Qed.

Lemma rescue_put db i data b' :
  RescueInv db -> rescue_typed i -> R_Network i = store_network store -> encodeRescueIncident i = Ok data ->
  b_put (s_rescueState db) (R_ID i) data = Some b' ->
  RescueInv (set_rescueState db b') /\
  forall id, rescue_at (set_rescueState db b') id = if decide (R_ID i = id) then Some i else rescue_at db id.
Proof.
  intros Hi Hty Hn Henc Hput. pose proof (decode_encodeRescueIncident _ _ Hty Henc) as Hd. split.
  - intros k v. cbn [s_rescueState set_rescueState]. rewrite (bl_get_put _ _ _ _ _ Hput). case_decide as E; [|apply Hi]. intros [= <-]. exists i. by subst k.
  - intros id. unfold rescue_at. cbn [s_rescueState set_rescueState]. rewrite (bl_get_put _ _ _ _ _ Hput).
    destruct (decide (R_ID i = id)) as [E|E]; [rewrite !decide_True by done; by rewrite Hd|by rewrite !decide_False by done].
Qed.

Definition is_prune (op : rescue_op) : bool := match op with RPrune _ _ => true | _ => false end.

(** What one operation did to the table of incidents; only a pruning one
    removes any. *)
Inductive rescue_change (pruning : bool) (db db' : StoreDB) : Prop :=
| rescue_same : (forall id, rescue_at db' id = rescue_at db id) -> rescue_change pruning db db'
| rescue_new i : R_Status i = RescuePending -> rescue_at db (R_ID i) = None ->
    (forall id, rescue_at db' id = if decide (R_ID i = id) then Some i else rescue_at db id) -> rescue_change pruning db db'
| rescue_moved i i' : rescue_at db (R_ID i) = Some i -> rescue_step i i' -> R_ID i' = R_ID i ->
    (forall id, rescue_at db' id = if decide (R_ID i' = id) then Some i' else rescue_at db id) -> rescue_change pruning db db'
| rescue_pruned (gone : list RescueIncident) : pruning = true ->
    (forall i, i ∈ gone -> prunable i = true /\ rescue_at db (R_ID i) = Some i) ->
    (forall id, rescue_at db' id = if decide (id ∈ map R_ID gone) then None else rescue_at db id) -> rescue_change pruning db db'.

Lemma same_bucket pruning db db' :
  s_rescueState db' = s_rescueState db -> RescueInv db -> RescueInv db' /\ rescue_change pruning db db'.
Proof.
  intros E Hi. split; [unfold RescueInv; by rewrite E|]. apply rescue_same. intros id. unfold rescue_at. by rewrite E.
Qed.

Lemma putRescue_change call i data r db db' :
  RescueInv db -> rescue_typed i -> R_Network i = store_network store -> encodeRescueIncident i = Ok data ->
  R_Status i = RescuePending -> putRescue_tx store call i data db = Ok (r, db') ->
  RescueInv db' /\ rescue_change false db db' /\ rescue_at db' (R_ID i) = Some r /\
  sameRescueIdentity r i = true /\ (rescue_at db (R_ID i) = None /\ r = i \/ rescue_at db (R_ID i) = Some r /\ db' = db).
Proof.
  intros Hi Hty Hn Henc Hst. unfold putRescue_tx. destruct (contextErrorTx _); [|done].
  pose proof (rescue_at_spec db (R_ID i) Hi) as Hat. destruct (b_get (s_rescueState db) (R_ID i)) as [v|] eqn:Eg.
  - destruct (rescue_at db (R_ID i)) as [cur|] eqn:Ec; [|done]. destruct Hat as (v' & [= <-] & Hd & Hid & Hnet & Hval).
    rewrite Hd. cbn [errOr]. destruct (_ || _); [done|]. destruct (sameRescueIdentity cur i) eqn:Es; cbn [negb]; [|done].
    intros [= <- <-]. split; [done|]. split; [by apply rescue_same|]. repeat split; auto.
  - destruct (rescue_at db (R_ID i)) eqn:Ec; [by destruct Hat as (? & ? & _)|].
    destruct (put _ _ _) as [b'|] eqn:Ep; [|done]. apply store_put_inv in Ep. intros [= <- <-].
    destruct (rescue_put db i data b' Hi Hty Hn Henc Ep) as [Hi' Hat']. split; [done|].
    split; [by apply (rescue_new _ _ _ i)|]. split; [by rewrite Hat', decide_True|]. split; [by apply sameRescueIdentity_spec|]. by left.
Qed.

Lemma updateRescue_change call i data db db' :
  RescueInv db -> rescue_typed i -> R_Network i = store_network store -> encodeRescueIncident i = Ok data ->
  updateRescue_tx store call i data db = Ok (tt, db') ->
  RescueInv db' /\ rescue_change false db db' /\ rescue_at db' (R_ID i) = Some i /\
  exists cur, rescue_at db (R_ID i) = Some cur /\ (cur = i \/ rescue_step cur i).
Proof.
  intros Hi Hty Hn Henc. unfold updateRescue_tx. destruct (contextErrorTx _); [|done].
  pose proof (rescue_at_spec db (R_ID i) Hi) as Hat. destruct (b_get (s_rescueState db) (R_ID i)) as [v|] eqn:Eg; [|done].
  destruct (rescue_at db (R_ID i)) as [cur|] eqn:Ec; [|done]. destruct Hat as (v' & [= <-] & Hd & Hid & Hnet & Hval).
  rewrite Hd. cbn [errOr]. destruct (_ || _); [done|]. destruct (sameRescueIncident cur i) eqn:Es.
  - apply sameRescueIncident_spec in Es as ->. intros [= <-]. split; [done|]. split; [by apply rescue_same|]. eauto.
  - destruct (validRescueTransition cur i) eqn:Et; cbn [negb]; [|done].
    destruct (put _ _ _) as [b'|] eqn:Ep; [|done]. apply store_put_inv in Ep. intros [= <-].
    destruct (rescue_put db i data b' Hi Hty Hn Henc Ep) as [Hi' Hat'].
    assert (Hstep : rescue_step cur i) by (split; [by apply encodeRescueIncident_inv in Henc as [? _]|done]).
    split; [done|]. split; [apply (rescue_moved _ _ _ cur i); [by rewrite Hid|done|done|exact Hat']|]. split; [by rewrite Hat', decide_True|]. eauto.
Qed.

(** ** Pruning *)

Definition prune_step (loopErr : nat -> option CtxErr)
    : list RescueIncident * nat -> bytes * bytes -> result StoreError (list RescueIncident * nat) := fun '(terminals, n) entry =>
  let! _ := loopCheck loopErr n in
  let! i := rescueEntry store entry in
  Ok (if prunable i then terminals ++ [i] else terminals, S n).

(** The prunable incidents among the decoded entries. *)
Definition entry_incident (entry : bytes * bytes) : option RescueIncident :=
  match decodeRescueIncident (snd entry) with Ok i => Some i | Err _ => None end.

Lemma rescueEntry_inv entry i :
  rescueEntry store entry = Ok i ->
  decodeRescueIncident (snd entry) = Ok i /\ fst entry = R_ID i /\ R_Network i = store_network store.
Proof.
  unfold rescueEntry. destruct (decodeRescueIncident _) as [x|]; [|done]. cbn [errOr]. destruct (_ || _) eqn:E; [done|].
  intros [= <-]. bool_hyps. split; [done|]. split; [by apply bytes_eqb_spec|done].
Qed.

Lemma prune_collect loopErr es acc n out m :
  foldM (prune_step loopErr) es (acc, n) = Ok (out, m) ->
  out = acc ++ filter (fun i => prunable i = true) (omap entry_incident es) /\
  Forall (fun e => exists i, entry_incident e = Some i /\ fst e = R_ID i) es.
Proof.
  revert acc n. induction es as [|e es IH]; intros acc n H; cbn [foldM] in H.
  - injection H as <- _. split; [by rewrite app_nil_r|constructor].
  - unfold prune_step at 1 in H. destruct (loopCheck loopErr n); [|done].
    destruct (rescueEntry store e) as [i|] eqn:Ee; [|done]. apply rescueEntry_inv in Ee as (Hd & Hk & _).
    apply IH in H as [-> Hall].
    assert (Hent : entry_incident e = Some i) by (unfold entry_incident; by rewrite Hd).
    split; [|constructor; [eauto|done]]. cbn [omap list_omap]. rewrite Hent, filter_cons.
    destruct (prunable i) eqn:Ep; [rewrite decide_True by done|rewrite decide_False by done].
    + by rewrite <- app_assoc.
    + done.
Qed.

Lemma prune_delete loopErr (gone : list RescueIncident) b n b' m :
  foldM (fun '(b, n) i => let! _ := loopCheck loopErr n in Ok (b_delete b (R_ID i), S n)) gone (b, n) = Ok (b', m) ->
  forall id, b_get b' id = if decide (id ∈ map R_ID gone) then None else b_get b id.
Proof.
  revert b n. induction gone as [|i gone IH]; intros b n H id; cbn [foldM] in H.
  - injection H as <- _. by rewrite decide_False by by intros ?%elem_of_nil.
  - destruct (loopCheck loopErr n); [|done]. rewrite (IH _ _ H id), bl_get_delete. cbn [map].
    destruct (decide (R_ID i = id)) as [E|E].
    + rewrite (decide_True (P := id ∈ _ :: _)) by (subst id; left). by case_decide; rewrite ?decide_True by done.
    + rewrite (decide_False (P := R_ID i = id)) by done. destruct (decide (id ∈ map R_ID gone)) as [Hin|Hin].
      * by rewrite decide_True by by right.
      * rewrite decide_False; [done|]. intros [?|?]%elem_of_cons; [by apply E|by apply Hin].
Qed.

(** The incidents of a consistent bucket, in key order. *)
Definition rescues (db : StoreDB) : list RescueIncident := omap entry_incident (b_entries (s_rescueState db)).

Lemma rescues_spec db i : RescueInv db -> i ∈ rescues db <-> rescue_at db (R_ID i) = Some i.
Proof.
  intros Hi. unfold rescues. rewrite list_elem_of_omap. unfold rescue_at, entry_incident. split.
  - intros ([k v] & Hin & He). apply bl_entries_get in Hin. cbn in He. destruct (Hi _ _ Hin) as (j & Hd & -> & _).
    rewrite Hd in He. injection He as ->. by rewrite Hin, Hd.
  - destruct (b_get _ _) as [v|] eqn:E; [|done]. destruct (decodeRescueIncident v) as [j|] eqn:Hd; [|done].
    intros [= ->]. exists (R_ID i, v). split; [by apply bl_entries_get|]. cbn. by rewrite Hd.
Qed.

(** The incidents a prune removes: the oldest beyond the retained number. *)
Definition pruned_incidents (db : StoreDB) (retain : Z) : list RescueIncident :=
  let sorted := merge_sort prune_le (filter (fun i => prunable i = true) (rescues db)) in
  take (Z.to_nat (Z.max 0 (Z.of_nat (length sorted) - retain))) sorted.

Lemma prune_change call loopErr retain db db' :
  RescueInv db -> prune_tx store call loopErr retain db = Ok (tt, db') ->
  RescueInv db' /\
  (forall i, i ∈ pruned_incidents db retain -> prunable i = true /\ rescue_at db (R_ID i) = Some i) /\
  (forall id, rescue_at db' id = if decide (id ∈ map R_ID (pruned_incidents db retain)) then None else rescue_at db id).
Proof.
  intros Hi. unfold prune_tx. destruct (contextErrorTx _); [|done].
  change (foldM _ (b_entries (s_rescueState db)) ([], 0%nat)) with (foldM (prune_step loopErr) (b_entries (s_rescueState db)) ([], 0%nat)).
  destruct (foldM (prune_step loopErr) _ _) as [[terminals n]|] eqn:E1; [|done].
  apply prune_collect in E1 as [-> _]. cbn [app]. fold (rescues db).
  destruct (foldM _ _ _) as [[b' m]|] eqn:E2; [|done]. intros [= <-].
  pose proof (prune_delete _ _ _ _ _ _ E2) as Hget. fold (pruned_incidents db retain) in Hget.
  assert (Hprun : forall i, i ∈ pruned_incidents db retain -> prunable i = true /\ rescue_at db (R_ID i) = Some i).
  { intros i Hin. unfold pruned_incidents in Hin. apply (subseteq_take _ _) in Hin. rewrite merge_sort_Permutation in Hin.
    apply list_elem_of_filter in Hin as [Hp Hin]. split; [done|]. by apply rescues_spec. }
  split; [|split; [done|]].
  - intros k v. cbn [s_rescueState set_rescueState]. rewrite Hget. case_decide; [done|apply Hi].
  - intros id. unfold rescue_at at 1. cbn [s_rescueState set_rescueState]. rewrite Hget.
    destruct (decide (id ∈ map R_ID (pruned_incidents db retain))); [by rewrite decide_True|by rewrite decide_False].
Qed.

(** ** Every operation *)

Lemma update_change {A} pruning call st fn st' (r : result StoreError A) :
  RescueInv (ss_db st) -> update call st fn = (st', r) ->
  (forall a db', fn (ss_db st) = Ok (a, db') -> RescueInv db' /\ rescue_change pruning (ss_db st) db') ->
  RescueInv (ss_db st') /\ rescue_change pruning (ss_db st) (ss_db st').
Proof.
  intros Hi [(a & db' & _ & H & -> & _)|(e & _ & ->)]%store_update_cases Hfn; [by eapply Hfn|].
  split; [done|]. by apply rescue_same.
Qed.

Lemma run_rescue_change st event :
  RescueInv (ss_db st) -> rescue_op_typed event.2 ->
  RescueInv (ss_db (run_rescue st event)) /\ rescue_change (is_prune event.2) (ss_db st) (ss_db (run_rescue st event)).
Proof.
  intros Hi Hty. assert (Hsame : forall pruning, RescueInv (ss_db st) /\ rescue_change pruning (ss_db st) (ss_db st)).
  { split; [done|]. by apply rescue_same. }
  destruct event as [call [i|i|loopErr retain|floor]]; cbn [run_rescue snd is_prune] in *.
  - unfold PutRescueIncident. rewrite normalizeRescueIncident_id. destruct (encodeRescueIncident i) as [d|] eqn:Ed; [|done].
    destruct (_ || _) eqn:E; [done|]. destruct (begin call st); [|done]. destruct (update _ _ _) as [st' r] eqn:Eu.
    unfold isStatus in E. bool_hyps. eapply update_change; [done|exact Eu|].
    intros stored db' Htx. destruct (putRescue_change call i d stored (ss_db st) db') as (? & ? & _); auto.
  - unfold UpdateRescueIncident. rewrite normalizeRescueIncident_id. destruct (encodeRescueIncident i) as [d|] eqn:Ed; [|done].
    destruct (negb _) eqn:E; [done|]. destruct (begin call st); [|done]. destruct (update _ _ _) as [st' r] eqn:Eu.
    bool_hyps. eapply update_change; [done|exact Eu|].
    intros [] db' H. destruct (updateRescue_change call i d (ss_db st) db') as (? & ? & _); auto.
  - unfold PruneRescueIncidents. destruct (_ || _); [done|]. destruct (begin call st); [|done].
    destruct (update _ _ _) as [st' r] eqn:Eu. eapply update_change; [done|exact Eu|].
    intros [] db' H. destruct (prune_change _ _ _ _ _ Hi H) as (? & ? & ?). split; [done|]. by eapply rescue_pruned.
  - unfold RaiseNonceFloor. destruct (begin call st); [|done].
    destruct (update _ _ _) as [st' r] eqn:Eu. eapply update_change; [done|exact Eu|].
    intros [] db'. unfold raiseNonceFloor_tx. destruct (contextErrorTx _); [|done]. destruct (decodeUint64 _); [|done].
    destruct (_ <=? _); [by intros [= <-]|]. destruct (put _ _ _); [|done]. intros [= <-]. by apply same_bucket.
Qed.

(** What one change leaves of an incident. *)
Lemma change_incident pruning db db' id a :
  rescue_change pruning db db' -> rescue_at db id = Some a -> R_ID a = id ->
  (exists b, rescue_at db' id = Some b /\ rtc rescue_step a b /\ R_ID b = id) \/
  pruning = true /\ prunable a = true /\ rescue_at db' id = None.
Proof.
  intros [Hs|i _ Hnone Hs|i i' Hi Hstep Hid Hs|gone Hpr Hgone Hs] Ha Hida; rewrite Hs.
  - left. exists a. split; [done|]. by split.
  - left. rewrite decide_False by (intros <-; congruence). exists a. split; [done|]. by split.
  - left. destruct (decide (R_ID i' = id)) as [E|E].
    + exists i'. split; [done|]. split; [|done]. apply rtc_once. rewrite <- E, Hid, Hi in Ha. by injection Ha as <-.
    + exists a. split; [done|]. by split.
  - destruct (decide (id ∈ map R_ID gone)) as [Hin|Hin].
    + right. apply list_elem_of_fmap in Hin as (i & -> & Hin). destruct (Hgone i Hin) as [Hp Hat].
      split; [done|]. split; [congruence|done].
    + left. exists a. split; [done|]. by split.
Qed.

(** The store after a sequence of operations. *)
Definition after (events : list (Call * rescue_op)) (st : StoreState) : StoreDB := ss_db (fold_left run_rescue events st).

(** [b] is what the store held of the incident when one of the operations, a
    pruning one, removed it. *)
Definition pruned_in (events : list (Call * rescue_op)) (st : StoreState) (id : IncidentID) (b : RescueIncident) : Prop :=
  exists before prune later, events = before ++ prune :: later /\ is_prune prune.2 = true /\
    rescue_at (after before st) id = Some b /\ prunable b = true /\ rescue_at (after (before ++ [prune]) st) id = None.

(** [b] is where the operations took the incident: what the store holds of it
    at their end, or held of it when it was pruned. *)
Definition ends_as (events : list (Call * rescue_op)) (st : StoreState) (id : IncidentID) (b : RescueIncident) : Prop :=
  rescue_at (after events st) id = Some b \/ pruned_in events st id b.

Lemma ends_as_cons e events st id b : ends_as events (run_rescue st e) id b -> ends_as (e :: events) st id b.
Proof.
  intros [H|(before & prune & later & -> & H)]; [by left|]. right. by exists (e :: before), prune, later.
Qed.

Lemma run_history events st id a :
  RescueInv (ss_db st) -> Forall (fun e => rescue_op_typed e.2) events -> rescue_at (ss_db st) id = Some a ->
  exists b, ends_as events st id b /\ rtc rescue_step a b.
Proof.
  intros Hi Hty Ha. assert (Hida : R_ID a = id).
  { pose proof (rescue_at_spec (ss_db st) id Hi) as H. rewrite Ha in H. by destruct H as (? & _ & _ & ? & _). }
  revert st a Hi Ha Hida. induction Hty as [|e events He _ IH]; intros st a Hi Ha Hida; [exists a; split; [by left|done]|].
  destruct (run_rescue_change st e Hi He) as [Hi' Hch].
  destruct (change_incident _ _ _ _ _ Hch Ha Hida) as [(b & Hb & Hab & Hidb)|(Hpr & Hp & Hnone)].
  - destruct (IH _ b Hi' Hb Hidb) as (c & Hc & Hbc). exists c. split; [by apply ends_as_cons|by etransitivity].
  - exists a. split; [|done]. right. by exists [], e, events.
Qed.

(** Operations that do not prune leave the incident in the store. *)
Lemma ends_as_stored events st id b :
  forallb (fun e => negb (is_prune e.2)) events = true -> ends_as events st id b -> rescue_at (after events st) id = Some b.
Proof.
  intros Hall [?|(before & prune & later & -> & Hp & _)]; [done|]. rewrite forallb_app in Hall. cbn in Hall.
  rewrite Hp, andb_false_r in Hall. done.
Qed.

(** ** The nonce floor *)

Definition floor_of (db : StoreDB) : option Z := decodeUint64 (default [] (b_get (s_meta db) nonceFloorKey)).

Lemma raise_floor call floor db db' :
  inU 64 floor -> raiseNonceFloor_tx call floor db = Ok (tt, db') ->
  exists old, floor_of db = Some old /\ floor_of db' = Some (Z.max old floor).
Proof.
  intros Hf. unfold raiseNonceFloor_tx, floor_of. destruct (contextErrorTx _); [|done].
  destruct (decodeUint64 _) as [old|] eqn:Eo; [|done]. exists old. destruct (floor <=? old) eqn:E; bool_hyps.
  - match goal with H : Ok _ = Ok _ |- _ => injection H as <- end. rewrite Eo. split; [done|]. f_equal. lia.
  - destruct (put _ _ _) as [b|] eqn:Ep; [|done]. match goal with H : Ok _ = Ok _ |- _ => injection H as <- end.
    apply store_put_inv in Ep. cbn [s_meta set_meta]. rewrite (b_get_put_eq _ _ _ _ Ep).
    change (default [] (Some (encodeUint64 floor))) with (encodeUint64 floor).
    rewrite decode_encodeUint64 by done. split; [done|]. f_equal. lia.
Qed.

#[local] Instance prune_le_total : Total prune_le.
Proof.
  intros a b. unfold prune_le. destruct (Z.lt_trichotomy (R_UpdatedAt a) (R_UpdatedAt b)) as [?|[E|?]]; [left; by left| |right; by left].
  destruct (bytes_lt_trichotomy (R_ID a) (R_ID b)) as [H|[H|H]].
  - left. right. split; [done|]. apply bytes_ltb_false. by left.
  - left. right. split; [done|]. rewrite H. apply bytes_ltb_irrefl.
  - right. right. split; [done|]. apply bytes_ltb_false. by left.
Qed.

#[local] Instance prune_le_trans : Transitive prune_le.
Proof.
  intros a b c [?|[? H1]] [?|[? H2]]; unfold prune_le; try (left; lia). right. split; [lia|]. by eapply bytes_le_trans.
Qed.

Lemma sorted_split {A} (R : A -> A -> Prop) l k x y : StronglySorted R (l ++ k) -> x ∈ l -> y ∈ k -> R x y.
Proof.
  induction l as [|a l IH]; intros Hs Hx Hy; [by apply elem_of_nil in Hx|]. cbn in Hs. inv Hs.
  apply elem_of_cons in Hx as [->|Hx]; [|by apply IH]. rewrite Forall_forall in H2. apply H2, elem_of_app. by right.
Qed.

Lemma pruned_oldest db retain i j :
  0 <= retain ->
  i ∈ pruned_incidents db retain -> j ∈ rescues db -> prunable j = true -> j ∉ pruned_incidents db retain -> prune_le i j.
Proof.
  intros Hr Hi Hj Hp Hn. unfold pruned_incidents in *.
  set (sorted := merge_sort prune_le (filter (fun i => prunable i = true) (rescues db))) in *.
  set (n := Z.to_nat _) in *.
  pose proof (StronglySorted_merge_sort prune_le (filter (fun i => prunable i = true) (rescues db))) as Hs. fold sorted in Hs.
  rewrite <- (take_drop n sorted) in Hs. eapply sorted_split; [exact Hs|done|].
  assert (Hin : j ∈ sorted) by (subst sorted; rewrite merge_sort_Permutation; by apply list_elem_of_filter).
  rewrite <- (take_drop n sorted) in Hin. apply elem_of_app in Hin as [?|?]; done.
Qed.

Lemma floor_event st event old :
  rescue_op_typed event.2 -> floor_of (ss_db st) = Some old ->
  exists new, floor_of (ss_db (run_rescue st event)) = Some new /\ old <= new.
Proof.
  intros Hty Hold. assert (Hsame : exists new, floor_of (ss_db st) = Some new /\ old <= new) by (exists old; split; [done|lia]).
  assert (Hupd : forall A call (fn : StoreDB -> result StoreError (A * StoreDB)),
    (forall a db', fn (ss_db st) = Ok (a, db') -> exists new, floor_of db' = Some new /\ old <= new) ->
    exists new, floor_of (ss_db (fst (update call st fn))) = Some new /\ old <= new).
  { intros A call fn Hfn. destruct (update call st fn) as [st' r] eqn:E.
    apply store_update_cases in E as [(a & db' & _ & H & -> & _)|(e & _ & ->)]; [by eapply Hfn|done]. }
  destruct event as [call [i|i|loopErr retain|floor]]; cbn [run_rescue snd] in *.
  - unfold PutRescueIncident. destruct (encodeRescueIncident _); [|done]. destruct (_ || _); [done|].
    destruct (begin call st); [|done]. apply Hupd. intros r db'. unfold putRescue_tx. destruct (contextErrorTx _); [|done].
    destruct (b_get _ _).
    + destruct (errOr _ _); [|done]. destruct (_ || _); [done|]. destruct (negb _); [done|]. by intros [= <- <-].
    + destruct (put _ _ _); [|done]. by intros [= <- <-].
  - unfold UpdateRescueIncident. destruct (encodeRescueIncident _); [|done]. destruct (negb _); [done|].
    destruct (begin call st); [|done]. apply Hupd. intros r db'. unfold updateRescue_tx. destruct (contextErrorTx _); [|done].
    destruct (b_get _ _); [|done]. destruct (errOr _ _); [|done]. destruct (_ || _); [done|].
    destruct (sameRescueIncident _ _); [by intros [= <- <-]|]. destruct (negb _); [done|]. destruct (put _ _ _); [|done].
    by intros [= <- <-].
  - unfold PruneRescueIncidents. destruct (_ || _); [done|]. destruct (begin call st); [|done]. apply Hupd. intros r db'.
    unfold prune_tx. destruct (contextErrorTx _); [|done]. destruct (foldM _ _ _) as [[ts n]|]; [|done].
    destruct (foldM _ _ _) as [[b m]|]; [|done]. by intros [= <- <-].
  - unfold RaiseNonceFloor. destruct (begin call st); [|done]. apply Hupd. intros [] db' H.
    apply raise_floor in H as (old' & E & Hnew); [|done]. rewrite Hold in E. injection E as <-. exists (Z.max old floor).
    split; [done|lia].
Qed.

(** ** Claims *)

(** C15. Whatever sequence of operations runs on the store, a stored rescue
    incident changes only along valid transitions into valid states, and it
    disappears only by a pruning operation that finds it in a finished state
    that may be pruned: the store at the end holds a state of it that valid
    transitions lead to, or one of the operations is a pruning, the store held
    such a state right before it, prunable, and none right after. *)
Theorem rescue_changes_only_by_transitions events st id a :
  RescueInv (ss_db st) -> Forall (fun e => rescue_op_typed e.2) events -> rescue_at (ss_db st) id = Some a ->
  exists b, rtc rescue_step a b /\
    (rescue_at (after events st) id = Some b \/
     exists before prune later, events = before ++ prune :: later /\ is_prune prune.2 = true /\
       rescue_at (after before st) id = Some b /\ prunable b = true /\ rescue_at (after (before ++ [prune]) st) id = None).
Proof. intros Hi Hty Ha. destruct (run_history events st id a Hi Hty Ha) as (b & ? & ?). by exists b. Qed.

(** C16. One signed transaction per incident: once an incident is signed, every
    later state the store holds of it, up to its end or to its pruning, is
    about the same transaction hash, the same sponsor and source nonces, the
    same attempt and the same balances before; its signed bytes are kept until
    it finishes, when they may be erased, and are never replaced. *)
Theorem signed_operation_is_never_replaced events st id a :
  RescueInv (ss_db st) -> Forall (fun e => rescue_op_typed e.2) events -> rescue_at (ss_db st) id = Some a ->
  inFlight (R_Status a) = true ->
  exists b, ends_as events st id b /\ same_operation a b /\
    (inFlight (R_Status b) = true /\ R_SignedTransaction b = R_SignedTransaction a \/
     isReceiptTerminalStatus (R_Status b) = true /\
       (R_SignedTransaction b = [] \/ R_SignedTransaction b = R_SignedTransaction a)).
Proof.
  intros Hi Hty Ha Hf. destruct (run_history events st id a Hi Hty Ha) as (b & Hb & Hab).
  exists b. split; [done|by apply history_inFlight].
Qed.

(** C17. Attempts are bounded and finished incidents are final: through any
    operations the state the store holds of an incident at their end, or held
    when it was pruned, has the same identity, policy and creation time, an
    attempt count that has not decreased nor exceeds the policy's maximum and an
    update time that has not gone back; a finished incident is unchanged. *)
Theorem rescue_attempts_bounded_and_final events st id a :
  RescueInv (ss_db st) -> Forall (fun e => rescue_op_typed e.2) events -> rescue_at (ss_db st) id = Some a ->
  exists b, ends_as events st id b /\
    sameRescueIdentity a b = true /\ R_CreatedAt a = R_CreatedAt b /\ R_UpdatedAt a <= R_UpdatedAt b /\
    R_Attempts a <= R_Attempts b <= Pol_MaxAttempts (R_Policy a) /\
    (isTerminalRescueStatus (R_Status a) = true -> b = a).
Proof.
  intros Hi Hty Ha. pose proof (rescue_at_spec (ss_db st) id Hi) as Hat. rewrite Ha in Hat.
  destruct Hat as (_ & _ & _ & _ & _ & Hv). destruct (run_history events st id a Hi Hty Ha) as (b & Hb & Hab).
  exists b. destruct (history_identity a b Hab) as (? & ? & ?). pose proof (history_attempts a b Hv Hab).
  do 5 (split; [done|]). intros Ht. by apply history_terminal.
Qed.

(** Pruning removes exactly the oldest finished incidents beyond the
    retained number: nothing unfinished, no claim, and no incident updated later
    than one that is kept; every other incident is untouched. *)
Theorem prune_removes_oldest_finished call loopErr retain st st' :
  RescueInv (ss_db st) -> PruneRescueIncidents store call loopErr retain st = (st', Ok tt) ->
  let finished := filter (fun i => prunable i = true) (rescues (ss_db st)) in
  let gone := pruned_incidents (ss_db st) retain in
  (forall id, rescue_at (ss_db st') id = if decide (id ∈ map R_ID gone) then None else rescue_at (ss_db st) id) /\
  (forall i, i ∈ gone -> isTerminalRescueStatus (R_Status i) = true /\ R_Kind i <> CandidateClaim) /\
  (forall i j, i ∈ gone -> j ∈ finished -> j ∉ gone -> prune_le i j) /\
  Z.of_nat (length gone) = Z.max 0 (Z.of_nat (length finished) - retain).
Proof.
  intros Hi. unfold PruneRescueIncidents. destruct (_ || _) eqn:Er; [done|]. destruct (begin call st); [|done].
  intros [([] & db' & _ & Htx & -> & _)|(e & ? & _)]%store_update_cases; [|done]. bool_hyps.
  destruct (prune_change _ _ _ _ _ Hi Htx) as (_ & Hgone & Hat). cbv zeta. split; [exact Hat|]. split; [|split].
  - intros i Hin. destruct (Hgone i Hin) as [Hp _]. unfold prunable in Hp. bool_hyps. done.
  - intros i j Hgi Hfj Hnj. apply list_elem_of_filter in Hfj as [Hp Hj]. by eapply pruned_oldest.
  - unfold pruned_incidents. rewrite length_take, !merge_sort_Permutation. lia.
Qed.

(** The sponsor's nonce floor never goes down: no operation lowers it, and
    a successful [RaiseNonceFloor] leaves exactly the larger of the old floor
    and the requested one, which [NonceFloor] then reports. *)
Theorem nonce_floor_never_decreases events st old call floor st' :
  Forall (fun e => rescue_op_typed e.2) events -> inU 64 floor -> floor_of (ss_db st) = Some old ->
  (exists new, floor_of (ss_db (fold_left run_rescue events st)) = Some new /\ old <= new) /\
  (RaiseNonceFloor call floor st = (st', Ok tt) ->
     forall call', begin call' st' = Ok tt -> contextErrorTx (call_ctx call') = Ok tt ->
       NonceFloor call' st' = Ok (Z.max old floor)).
Proof.
  intros Hty Hf Hold. split.
  - revert st old Hold. induction Hty as [|e events He _ IH]; intros st old Hold; cbn [fold_left]; [exists old; split; [done|lia]|].
    destruct (floor_event st e old He Hold) as (new & Hnew & Hle). destruct (IH _ new Hnew) as (new' & ? & ?).
    exists new'. split; [done|lia].
  - unfold RaiseNonceFloor. destruct (begin call st); [|done].
    intros [([] & db' & _ & Htx & -> & _)|(e & ? & _)]%store_update_cases; [|done].
    destruct (raise_floor _ _ _ _ Hf Htx) as (old' & E & Hnew). rewrite Hold in E. injection E as <-.
    intros call' Hb Hc. unfold NonceFloor, view. rewrite Hb, Hc. cbn [ss_db withDB]. unfold floor_of in Hnew. by rewrite Hnew.
Qed.

End Store.

(** The rescue record is read back exactly as written, in both record
    versions. *)
Theorem rescue_record_roundtrip i data :
  rescue_typed i -> encodeRescueIncident i = Ok data -> decodeRescueIncident data = Ok i.
Proof. apply decode_encodeRescueIncident. Qed.

End Rescue.

(** ** Witnesses *)

Module RescueExamples.
Import MapBolt.

(** A codec that knows one transaction: sponsor nonce 5, authorization nonce 3. *)
#[local] Instance ex_tx : TxCodec :=
  {| UnmarshalBinary data :=
       if bytes_eqb data [Byte.x04; Byte.x01] then Some (mkTransaction true (repeat Byte.x09 32) 5 [Byte.x01] [3]) else None |}.

Definition ex_rescue (status : RescueStatus) (attempts sponsor source : Z) (tx : Hash) (signed : bytes) (block : Hash)
    (reconcile updated : Time) : RescueIncident :=
  mkRescue (NewAssetIncidentID (repeat Byte.x07 32) CandidateToken (repeat Byte.x08 20)) (NewIncidentID (repeat Byte.x07 32))
    (repeat Byte.x07 32) 1 CandidateToken (repeat Byte.x08 20) 1 true (mkPolicySnapshot true 3 Second (600 * Second))
    status attempts sponsor source tx signed (if is_zero_bytes block then 0 else 77) block (zero_bytes 32) (zero_bytes 32)
    zeroTime reconcile [] (unixTime 1000 0) updated.

Definition ex_pending := ex_rescue RescuePending 0 0 0 (zero_bytes 32) [] (zero_bytes 32) zeroTime (unixTime 1000 0).
Definition ex_prepared := ex_rescue RescuePrepared 1 5 0 (zero_bytes 32) [] (repeat Byte.x0a 32) zeroTime (unixTime 1001 0).
Definition ex_signed := ex_rescue RescueSigned 1 5 3 (repeat Byte.x09 32) [Byte.x04; Byte.x01] (repeat Byte.x0a 32)
  (unixTime 1602 0) (unixTime 1002 0).
Definition ex_broadcast := ex_rescue RescueBroadcast 1 5 3 (repeat Byte.x09 32) [Byte.x04; Byte.x01] (repeat Byte.x0a 32)
  (unixTime 1602 0) (unixTime 1003 0).
Definition ex_lost := ex_rescue RescueLostRace 1 5 3 (repeat Byte.x09 32) [] (repeat Byte.x0a 32) zeroTime (unixTime 1004 0).

Definition rescue_call : Call := mkCall (LiveContext None None) (unixTime 1000 0) false.
Definition rescue_store : BoltStore :=
  mkStore 1 (repeat Byte.x01 20) (repeat Byte.x02 20) (repeat Byte.x03 20) (repeat Byte.x04 20) 2 100000 4 (repeat Byte.x05 32).
Definition rescue_db : StoreDB :=
  mkStoreDB (default b_empty (b_put b_empty nonceFloorKey (encodeUint64 7))) b_empty b_empty b_empty b_empty b_empty b_empty
    b_empty b_empty b_empty b_empty.
Definition rescue_empty : StoreState := mkStoreState false rescue_db 0 ∅ ∅ 0.

(** The life of one rescue, up to its signing and after it. *)
Definition ex_opening := [(rescue_call, RPut ex_pending); (rescue_call, RUpdate ex_prepared); (rescue_call, RUpdate ex_signed)].
Definition ex_closing := [(rescue_call, RUpdate ex_broadcast); (rescue_call, RRaise 9); (rescue_call, RUpdate ex_lost)].
Definition ex_open_state := fold_left (run_rescue rescue_store) ex_opening rescue_empty.
Definition ex_closed_state := fold_left (run_rescue rescue_store) ex_closing ex_open_state.

Lemma ex_rescue_typed status attempts sponsor source tx signed block reconcile updated :
  inU 32 attempts -> inU 64 sponsor -> inU 64 source -> isHash tx -> isHash block -> time_ok reconcile -> time_ok updated ->
  rescue_typed (ex_rescue status attempts sponsor source tx signed block reconcile updated).
Proof.
  intros. constructor; cbn [ex_rescue R_Candidate R_Network R_Kind R_Asset R_Generation R_Policy R_Attempts R_SponsorNonce
    R_SourceNonce R_TxHash R_SnapshotBlockNumber R_SnapshotBlockHash R_SourceBefore R_DestinationBefore R_RetryAt
    R_ReconcileUntil R_CreatedAt R_UpdatedAt]; try done.
  by destruct (is_zero_bytes block).
Qed.

Ltac ex_typed := apply ex_rescue_typed; by vm_compute.

Lemma ex_opening_typed : Forall (fun e => rescue_op_typed e.2) ex_opening.
Proof. repeat constructor; ex_typed. Qed.

Lemma ex_closing_typed : Forall (fun e => rescue_op_typed e.2) ex_closing.
Proof. constructor; [ex_typed|]. constructor; [by vm_compute|]. constructor; [ex_typed|]. constructor. Qed.

Lemma run_rescue_inv events st :
  RescueInv rescue_store (ss_db st) -> Forall (fun e => rescue_op_typed e.2) events ->
  RescueInv rescue_store (ss_db (fold_left (run_rescue rescue_store) events st)).
Proof.
  intros Hi Hty. revert st Hi. induction Hty as [|e events He _ IH]; intros st Hi; [done|]. cbn [fold_left].
  apply IH. by apply run_rescue_change.
Qed.

Lemma ex_open_inv : RescueInv rescue_store (ss_db ex_open_state).
Proof. apply run_rescue_inv; [|apply ex_opening_typed]. intros k v. cbn. by rewrite lookup_empty. Qed.

Lemma ex_closed_inv : RescueInv rescue_store (ss_db ex_closed_state).
Proof. apply run_rescue_inv; [apply ex_open_inv|apply ex_closing_typed]. Qed.

Lemma ex_open_signed : rescue_at (ss_db ex_open_state) (R_ID ex_signed) = Some ex_signed.
Proof. apply (bool_decide_eq_true_1 (_ = _)). vm_compute. reflexivity. Qed.

Lemma ex_closed_lost : rescue_at (ss_db ex_closed_state) (R_ID ex_signed) = Some ex_lost.
Proof. apply (bool_decide_eq_true_1 (_ = _)). vm_compute. reflexivity. Qed.

(** The whole closing of the rescue, then its pruning and its observation anew. *)
Definition ex_pruning := ex_closing ++ [(rescue_call, RPrune (fun _ => None) 0); (rescue_call, RPut ex_pending)].

Lemma ex_pruning_typed : Forall (fun e => rescue_op_typed e.2) ex_pruning.
Proof. apply Forall_app. split; [apply ex_closing_typed|]. constructor; [done|]. constructor; [ex_typed|constructor]. Qed.

Lemma ex_closing_end b : ends_as rescue_store ex_closing ex_open_state (R_ID ex_signed) b -> b = ex_lost.
Proof.
  intros H%ends_as_stored; [|reflexivity]. change (after _ _ _) with (ss_db ex_closed_state) in H.
  rewrite ex_closed_lost in H. by injection H.
Qed.

(** The closing took the signed incident to the lost race by valid
    transitions; with the pruning, and a new incident in its place, the store
    still held that end right before. *)
Lemma rescue_changes_only_by_transitions_witness :
  rtc rescue_step ex_signed ex_lost /\
  exists b, rtc rescue_step ex_signed b /\
    (rescue_at (after rescue_store ex_pruning ex_open_state) (R_ID ex_signed) = Some b \/
     exists before prune later, ex_pruning = before ++ prune :: later /\ is_prune prune.2 = true /\
       rescue_at (after rescue_store before ex_open_state) (R_ID ex_signed) = Some b /\ prunable b = true /\
       rescue_at (after rescue_store (before ++ [prune]) ex_open_state) (R_ID ex_signed) = None).
Proof.
  split.
  - destruct (rescue_changes_only_by_transitions rescue_store ex_closing ex_open_state _ ex_signed ex_open_inv
      ex_closing_typed ex_open_signed) as (b & Hab & Hb).
    rewrite <- (ex_closing_end b Hb). exact Hab.
  - exact (rescue_changes_only_by_transitions rescue_store ex_pruning ex_open_state _ ex_signed ex_open_inv ex_pruning_typed
      ex_open_signed).
Defined.

Lemma signed_operation_is_never_replaced_witness :
  rescue_at (after rescue_store ex_closing ex_open_state) (R_ID ex_signed) = Some ex_lost /\
  same_operation ex_signed ex_lost /\
  (inFlight (R_Status ex_lost) = true /\ R_SignedTransaction ex_lost = R_SignedTransaction ex_signed \/
   isReceiptTerminalStatus (R_Status ex_lost) = true /\
     (R_SignedTransaction ex_lost = [] \/ R_SignedTransaction ex_lost = R_SignedTransaction ex_signed)).
Proof.
  split; [exact ex_closed_lost|].
  destruct (signed_operation_is_never_replaced rescue_store ex_closing ex_open_state _ ex_signed ex_open_inv ex_closing_typed
    ex_open_signed eq_refl) as (b & Hb & H). rewrite <- (ex_closing_end b Hb). exact H.
Defined.

Lemma rescue_attempts_bounded_and_final_witness :
  rescue_at (after rescue_store ex_closing ex_open_state) (R_ID ex_signed) = Some ex_lost /\
  sameRescueIdentity ex_signed ex_lost = true /\ R_CreatedAt ex_signed = R_CreatedAt ex_lost /\
  R_UpdatedAt ex_signed <= R_UpdatedAt ex_lost /\
  R_Attempts ex_signed <= R_Attempts ex_lost <= Pol_MaxAttempts (R_Policy ex_signed) /\
  (isTerminalRescueStatus (R_Status ex_signed) = true -> ex_lost = ex_signed).
Proof.
  split; [exact ex_closed_lost|].
  destruct (rescue_attempts_bounded_and_final rescue_store ex_closing ex_open_state _ ex_signed ex_open_inv ex_closing_typed
    ex_open_signed) as (b & Hb & H). rewrite <- (ex_closing_end b Hb). exact H.
Defined.

Definition ex_prune := PruneRescueIncidents rescue_store rescue_call (fun _ => None) 0 ex_closed_state.

Lemma ex_pruned_ok : ex_prune = (fst ex_prune, Ok tt).
Proof. apply result_pair. vm_compute. reflexivity. Qed.

Lemma nonce_floor_never_decreases_witness :
  (exists new, floor_of (ss_db (fold_left (run_rescue rescue_store) ex_closing rescue_empty)) = Some new /\ 7 <= new) /\
  (RaiseNonceFloor rescue_call 8 rescue_empty = (fst (RaiseNonceFloor rescue_call 8 rescue_empty), Ok tt) ->
     forall call', begin call' (fst (RaiseNonceFloor rescue_call 8 rescue_empty)) = Ok tt ->
       contextErrorTx (call_ctx call') = Ok tt ->
       NonceFloor call' (fst (RaiseNonceFloor rescue_call 8 rescue_empty)) = Ok (Z.max 7 8)).
Proof.
  apply (nonce_floor_never_decreases rescue_store ex_closing rescue_empty 7 rescue_call 8);
    [apply ex_closing_typed|by vm_compute|apply (bool_decide_eq_true_1 (_ = _)); vm_compute; reflexivity].
Defined.

Lemma ex_signed_typed : rescue_typed ex_signed.
Proof. ex_typed. Qed.

Lemma ex_signed_encodes : exists data, encodeRescueIncident ex_signed = Ok data.
Proof.
  assert (H : isOk (encodeRescueIncident ex_signed) = true) by (vm_compute; reflexivity).
  destruct (encodeRescueIncident ex_signed) as [data|]; [by exists data|discriminate H].
Qed.

End RescueExamples.

End RescueTheorems.
Export RescueTheorems.
