(* ===== verification/RescueFees.v ===== *)
(** * internal/rescue/fees.go: fee quotes and the minimum value of a rescue

    A [*big.Int] is an [option Z] ([None] is nil), a [uint256.Int] a [Z] below
    [2 ^ 256].  The reference quote is written with unbounded integers; the code
    computes it with 256-bit arithmetic and overflow flags. *)

From S2P Require Import Prelude Bytes Domain.

Module RescueFees.

Inductive FeeError :=
| ErrInvalidFeePolicy | ErrInvalidFeeInput | ErrFeeUnderpriced | ErrFeeCostOverflow
| ErrInvalidMinimumValue | ErrMinimumValueOverflow | ErrTrustedTokenValueNeeded.

(** A [uint8]; other values than the named ones are [FeeAssetOther]. *)
Inductive FeeAsset := FeeAssetNative | FeeAssetToken | FeeAssetUnknownToken | FeeAssetOther.

Record FeePolicy := mkFeePolicy {
  Fee_Network : NetworkID;
  Fee_MaxFeePerGas : Z;
  Fee_MaxPriorityFeePerGas : Z;
  Fee_MinPriorityFeePerGas : Z;
  Fee_TokenGasLimit : Z;
  Fee_NativeGasLimit : Z;
  Fee_Overhead : Z;
  Fee_UnknownTokenCostCap : Z;
  Fee_TransactionCostCap : Z;
  Fee_UnboundedAdditionalFees : bool;
  Fee_EstimatedBaseFees : bool }.

Record FeeQuote := mkFeeQuote {
  Quote_Network : NetworkID;
  Quote_Asset : FeeAsset;
  Quote_TipCap : Z;
  Quote_FeeCap : Z;
  Quote_GasLimit : Z;
  Quote_MaximumCost : Z }.

Definition validFeePolicy (policy : FeePolicy) : bool :=
  (0 <? Fee_Network policy) && negb (u256_IsZero (Fee_MaxFeePerGas policy)) && negb (u256_IsZero (Fee_MaxPriorityFeePerGas policy))
  && negb (u256_Gt (Fee_MinPriorityFeePerGas policy) (Fee_MaxPriorityFeePerGas policy))
  && negb (u256_IsZero (Fee_TransactionCostCap policy))
  && negb (u256_Gt (Fee_MaxPriorityFeePerGas policy) (Fee_MaxFeePerGas policy))
  && (0 <? Fee_TokenGasLimit policy) && (0 <? Fee_NativeGasLimit policy).

Definition gasLimit (policy : FeePolicy) (asset : FeeAsset) : option Z :=
  match asset with
  | FeeAssetNative => Some (Fee_NativeGasLimit policy)
  | FeeAssetToken | FeeAssetUnknownToken => Some (Fee_TokenGasLimit policy)
  | FeeAssetOther => None
  end.

(** [uint256.FromBig] of a value that is not negative; [None] on overflow. *)
Definition u256_FromBig (value : Z) : option Z := if value <? 2 ^ 256 then Some value else None.

Definition positiveUint256 (value : option Z) : option Z :=
  match value with
  | None => None
  | Some value => if value <=? 0 then None else u256_FromBig value
  end.

Definition maximumFeeCost (gas feeCap overhead : Z) : result FeeError Z :=
  let (maximum, overflow) := u256_MulOverflow gas feeCap in
  reject overflow with ErrFeeCostOverflow in
  let (maximum, overflow) := u256_AddOverflow maximum overhead in
  reject overflow || u256_IsZero maximum with ErrFeeCostOverflow in
  Ok maximum.

(** The priority fee: what the suggestion leaves above the base fee, within the
    policy's bounds. *)
Definition priorityFee (policy : FeePolicy) (base suggested : Z) : Z :=
  let tip := if u256_Gt suggested base then u256_Sub suggested base else 0 in
  let tip := if u256_Lt tip (Fee_MinPriorityFeePerGas policy) then Fee_MinPriorityFeePerGas policy else tip in
  if u256_Gt tip (Fee_MaxPriorityFeePerGas policy) then Fee_MaxPriorityFeePerGas policy else tip.

(** The fee cap: twice the base fee and the tip, if that is below the maximum. *)
Definition feeCapFor (policy : FeePolicy) (base tip : Z) : Z :=
  let feeCap := Fee_MaxFeePerGas policy in
  let (doubledBase, overflow) := u256_AddOverflow base base in
  if overflow then feeCap
  else
    let (target, overflow) := u256_AddOverflow doubledBase tip in
    if negb overflow && u256_Lt target feeCap then target else feeCap.

Definition BuildFeeQuote (policy : FeePolicy) (asset : FeeAsset) (baseFee suggestedPrice : option Z) : result FeeError FeeQuote :=
  reject negb (validFeePolicy policy) with ErrInvalidFeePolicy in
  let? gas := gasLimit policy asset orelse ErrInvalidFeeInput in
  let? base := positiveUint256 baseFee orelse ErrInvalidFeeInput in
  let? suggested := positiveUint256 suggestedPrice orelse ErrInvalidFeeInput in
  reject negb (u256_Gt suggested base) && u256_IsZero (Fee_MinPriorityFeePerGas policy) with ErrInvalidFeeInput in
  let tip := priorityFee policy base suggested in
  let (inclusionFloor, overflow) := u256_AddOverflow base tip in
  reject overflow with ErrFeeCostOverflow in
  let feeCap := feeCapFor policy base tip in
  reject u256_Lt feeCap inclusionFloor with ErrFeeUnderpriced in
  let! maximum := maximumFeeCost gas feeCap (Fee_Overhead policy) in
  Ok (mkFeeQuote (Fee_Network policy) asset tip feeCap gas maximum).

Record MinimumValueDecision := mkDecision {
  MV_Allowed : bool;
  MV_Trusted : bool;
  MV_Required : Z }.

Definition EvaluateMinimumValue (policy : FeePolicy) (asset : FeeAsset) (sourceValue : option Z) (minimumNativeNetValue maximumCost : Z)
    : result FeeError MinimumValueDecision :=
  reject negb (validFeePolicy policy) || u256_IsZero maximumCost with ErrInvalidMinimumValue in
  match asset with
  | FeeAssetNative =>
      match sourceValue with
      | None => Err ErrInvalidMinimumValue
      | Some value =>
          reject value <? 0 with ErrInvalidMinimumValue in
          let? source := u256_FromBig value orelse ErrInvalidMinimumValue in
          let (required, overflow) := u256_AddOverflow maximumCost minimumNativeNetValue in
          reject overflow with ErrMinimumValueOverflow in
          Ok (mkDecision (negb (u256_Lt source required)) true required)
      end
  | FeeAssetUnknownToken => Ok (mkDecision (negb (u256_Gt maximumCost (Fee_UnknownTokenCostCap policy))) false 0)
  | FeeAssetToken => Err ErrTrustedTokenValueNeeded
  | FeeAssetOther => Err ErrInvalidMinimumValue
  end.

(** ** Types *)

Record policy_typed (policy : FeePolicy) : Prop := {
  pt_fee : inU 256 (Fee_MaxFeePerGas policy);
  pt_maxTip : inU 256 (Fee_MaxPriorityFeePerGas policy);
  pt_minTip : inU 256 (Fee_MinPriorityFeePerGas policy);
  pt_tokenGas : inU 64 (Fee_TokenGasLimit policy);
  pt_nativeGas : inU 64 (Fee_NativeGasLimit policy);
  pt_overhead : inU 256 (Fee_Overhead policy);
  pt_cap : inU 256 (Fee_UnknownTokenCostCap policy) }.

(** ** The reference quote, over unbounded integers *)

Definition referenceTip (policy : FeePolicy) (base suggested : Z) : Z :=
  Z.min (Fee_MaxPriorityFeePerGas policy) (Z.max (Fee_MinPriorityFeePerGas policy) (suggested - base)).

Definition referenceCap (policy : FeePolicy) (base tip : Z) : Z := Z.min (Fee_MaxFeePerGas policy) (2 * base + tip).

(** A fee per gas or a price that a [uint256] holds. *)
Definition is_price (value : option Z) (price : Z) : Prop := value = Some price /\ 0 < price < 2 ^ 256.

Definition referenceQuote (policy : FeePolicy) (asset : FeeAsset) (gas base suggested : Z) : result FeeError FeeQuote :=
  let tip := referenceTip policy base suggested in
  let cap := referenceCap policy base tip in
  let cost := gas * cap + Fee_Overhead policy in
  if 2 ^ 256 <=? base + tip then Err ErrFeeCostOverflow
  else if cap <? base + tip then Err ErrFeeUnderpriced
  else if 2 ^ 256 <=? cost then Err ErrFeeCostOverflow
  else Ok (mkFeeQuote (Fee_Network policy) asset tip cap gas cost).

(** ** Lemmas *)

Lemma positiveUint256_price value price : positiveUint256 value = Some price <-> is_price value price.
Proof.
  unfold positiveUint256, u256_FromBig, is_price. destruct value as [v|]; [|split; [done|by intros [? _]]].
  split.
  - destruct (v <=? 0) eqn:E1; [done|]. destruct (v <? 2 ^ 256) eqn:E2; [|done]. intros [= <-]. bool_hyps. split; [done|lia].
  - intros [[= ->] [H1 H2]]. replace (price <=? 0) with false by (symmetry; apply Z.leb_gt; lia).
    by replace (price <? 2 ^ 256) with true by (symmetry; apply Z.ltb_lt; lia).
Qed.

Lemma validFeePolicy_bounds policy :
  policy_typed policy -> validFeePolicy policy = true ->
  0 < Fee_MaxPriorityFeePerGas policy /\ Fee_MinPriorityFeePerGas policy <= Fee_MaxPriorityFeePerGas policy <= Fee_MaxFeePerGas policy /\
  0 < Fee_TokenGasLimit policy /\ 0 < Fee_NativeGasLimit policy.
Proof.
  intros [[? ?] [? ?] [? ?] _ _ _ _]. unfold validFeePolicy, u256_IsZero, u256_Gt. intros Hv. bool_hyps. lia.
Qed.

Lemma gasLimit_bounds policy asset gas :
  policy_typed policy -> validFeePolicy policy = true -> gasLimit policy asset = Some gas -> 0 < gas < 2 ^ 64.
Proof.
  intros Ht Hv. destruct (validFeePolicy_bounds _ Ht Hv) as (_ & _ & ? & ?). destruct Ht as [_ _ _ [_ ?] [_ ?] _ _].
  destruct asset; intros [= <-]; lia.
Qed.

Lemma priorityFee_reference policy base suggested :
  policy_typed policy -> 0 < base < 2 ^ 256 -> 0 < suggested < 2 ^ 256 ->
  priorityFee policy base suggested = referenceTip policy base suggested.
Proof.
  intros [_ [? ?] [? ?] _ _ _ _] Hb Hs. unfold priorityFee, referenceTip, u256_Gt, u256_Lt.
  destruct (base <? suggested) eqn:E; bool_hyps; [rewrite u256_Sub_ok by (unfold inU; lia)|];
    repeat case_match; bool_hyps; lia.
Qed.

Lemma feeCapFor_reference policy base tip :
  policy_typed policy -> 0 < base < 2 ^ 256 -> inU 256 tip -> feeCapFor policy base tip = referenceCap policy base tip.
Proof.
  intros [[Hf0 Hf] _ _ _ _ _ _] Hb Ht. unfold feeCapFor, referenceCap, u256_Lt.
  destruct (Z.lt_ge_cases (base + base) (2 ^ 256)).
  - rewrite u256_AddOverflow_ok by (unfold inU; lia). destruct (Z.lt_ge_cases (base + base + tip) (2 ^ 256)).
    + rewrite u256_AddOverflow_ok by (unfold inU in *; lia). cbn [negb andb]. case_match; bool_hyps; lia.
    + unfold u256_AddOverflow. replace (base + base + tip <? 2 ^ 256) with false by (symmetry; apply Z.ltb_ge; lia).
      cbn [negb andb]. lia.
  - unfold u256_AddOverflow at 1. replace (base + base <? 2 ^ 256) with false by (symmetry; apply Z.ltb_ge; lia).
    cbn [negb]. destruct Ht. lia.
Qed.

Lemma maximumFeeCost_reference gas cap overhead :
  0 < gas < 2 ^ 64 -> 0 < cap < 2 ^ 256 -> inU 256 overhead ->
  maximumFeeCost gas cap overhead = if 2 ^ 256 <=? gas * cap + overhead then Err ErrFeeCostOverflow else Ok (gas * cap + overhead).
Proof.
  intros Hg Hc [Ho0 Ho]. unfold maximumFeeCost, u256_MulOverflow, u256_IsZero.
  assert (0 < gas * cap) by lia. destruct (gas * cap <? 2 ^ 256) eqn:E; cbn [negb]; bool_hyps.
  - rewrite (Z.mod_small (gas * cap)) by lia. unfold u256_AddOverflow. rewrite <- Z.leb_antisym.
    destruct (2 ^ 256 <=? gas * cap + overhead) eqn:E2; cbn [orb]; [done|]. bool_hyps. rewrite Z.mod_small by lia.
    by replace (gas * cap + overhead =? 0) with false by (symmetry; apply Z.eqb_neq; lia).
  - by replace (2 ^ 256 <=? gas * cap + overhead) with true by (symmetry; apply Z.leb_le; lia).
Qed.

Lemma referenceTip_bounds policy base suggested :
  policy_typed policy -> validFeePolicy policy = true ->
  Fee_MinPriorityFeePerGas policy <= referenceTip policy base suggested <= Fee_MaxPriorityFeePerGas policy.
Proof. intros Ht Hv. destruct (validFeePolicy_bounds _ Ht Hv) as (? & ? & _). unfold referenceTip. lia. Qed.

(** The inputs that reach the arithmetic of a quote. *)
Definition quotable (policy : FeePolicy) (asset : FeeAsset) (baseFee suggestedPrice : option Z) (gas base suggested : Z) : Prop :=
  validFeePolicy policy = true /\ gasLimit policy asset = Some gas /\ is_price baseFee base /\ is_price suggestedPrice suggested /\
  (base < suggested \/ 0 < Fee_MinPriorityFeePerGas policy).

Lemma BuildFeeQuote_reference policy asset baseFee suggestedPrice gas base suggested :
  policy_typed policy -> quotable policy asset baseFee suggestedPrice gas base suggested ->
  BuildFeeQuote policy asset baseFee suggestedPrice = referenceQuote policy asset gas base suggested.
Proof.
  intros Ht (Hv & Hg & Hb & Hs & Hmin). pose proof (gasLimit_bounds _ _ _ Ht Hv Hg) as Hgas.
  pose proof (referenceTip_bounds policy base suggested Ht Hv) as Htip. destruct (validFeePolicy_bounds _ Ht Hv) as (Hm & Hmm & _).
  pose proof Ht as [[Hf0 Hf] _ [Hn0 Hn] _ _ Ho _].
  unfold BuildFeeQuote. rewrite Hv, Hg, (proj2 (positiveUint256_price _ _) Hb), (proj2 (positiveUint256_price _ _) Hs). cbn [negb].
  destruct Hb as [_ Hb], Hs as [_ Hs]. unfold u256_Gt, u256_IsZero.
  replace (negb (base <? suggested) && (Fee_MinPriorityFeePerGas policy =? 0)) with false
    by (symmetry; destruct (base <? suggested) eqn:?; cbn [negb andb]; [done|]; bool_hyps; apply Z.eqb_neq; lia).
  rewrite priorityFee_reference by done. unfold referenceQuote. set (tip := referenceTip policy base suggested) in *.
  rewrite feeCapFor_reference by (done || unfold inU; lia). assert (Hcap : 0 < referenceCap policy base tip < 2 ^ 256) by (unfold referenceCap; lia).
  set (cap := referenceCap policy base tip) in *. unfold u256_AddOverflow. rewrite <- Z.leb_antisym.
  destruct (2 ^ 256 <=? base + tip) eqn:E; [done|]. bool_hyps. rewrite Z.mod_small by lia. unfold u256_Lt.
  destruct (cap <? base + tip); [done|]. rewrite maximumFeeCost_reference by done. by destruct (2 ^ 256 <=? gas * cap + Fee_Overhead policy).
Qed.

Lemma BuildFeeQuote_quotable policy asset baseFee suggestedPrice q :
  policy_typed policy -> BuildFeeQuote policy asset baseFee suggestedPrice = Ok q ->
  exists base suggested, quotable policy asset baseFee suggestedPrice (Quote_GasLimit q) base suggested.
Proof.
  intros [_ _ [Hn _] _ _ _ _]. unfold BuildFeeQuote. ok Ev. ok Eg. ok Eb. ok Es. ok Em.
  apply negb_false_iff in Ev. apply positiveUint256_price in Eb, Es. destruct (u256_AddOverflow _ _). ok. ok. ok. intros [= <-].
  exists z0, z1. split; [done|]. split; [done|]. split; [done|]. split; [done|]. unfold u256_Gt, u256_IsZero in Em.
  destruct (z0 <? z1) eqn:Elt; cbn in Em; bool_hyps; [by left|right; lia].
Qed.

(** C37. [BuildFeeQuote] succeeds only on a valid policy, a known asset and
    positive prices, and there its 256-bit arithmetic computes exactly the quote,
    or reports exactly the overflow or underpricing, of the reference written
    with unbounded integers: the tip clamped to the policy, the cap at most twice
    the base fee and the tip, the cost of the whole gas limit and the overhead. *)
Theorem fee_quote_is_exact policy asset baseFee suggestedPrice :
  policy_typed policy ->
  (forall gas base suggested, quotable policy asset baseFee suggestedPrice gas base suggested ->
    BuildFeeQuote policy asset baseFee suggestedPrice = referenceQuote policy asset gas base suggested) /\
  (forall q, BuildFeeQuote policy asset baseFee suggestedPrice = Ok q ->
    exists base suggested, quotable policy asset baseFee suggestedPrice (Quote_GasLimit q) base suggested).
Proof.
  intros Ht. split; [intros; by apply BuildFeeQuote_reference|intros; by apply BuildFeeQuote_quotable].
Qed.

(** A quote's parts, from the reference. *)
Lemma quote_parts policy asset baseFee suggestedPrice q :
  policy_typed policy -> BuildFeeQuote policy asset baseFee suggestedPrice = Ok q ->
  0 <= Quote_FeeCap q /\ 0 < Quote_GasLimit q /\ Quote_MaximumCost q = Quote_GasLimit q * Quote_FeeCap q + Fee_Overhead policy /\
  inU 256 (Quote_MaximumCost q) /\ Quote_MaximumCost q <> 0.
Proof.
  intros Ht Hq. destruct (BuildFeeQuote_quotable _ _ _ _ _ Ht Hq) as (base & suggested & Hquot).
  rewrite (BuildFeeQuote_reference _ _ _ _ _ _ _ Ht Hquot) in Hq. destruct Hquot as (Hv & Hg & [_ Hb] & _).
  pose proof (gasLimit_bounds _ _ _ Ht Hv Hg) as Hgas. pose proof (referenceTip_bounds policy base suggested Ht Hv).
  destruct (validFeePolicy_bounds _ Ht Hv) as (? & ? & _). destruct Ht as [_ _ [? _] _ _ [? _] _].
  revert Hq. unfold referenceQuote. set (tip := referenceTip policy base suggested) in *.
  assert (0 < referenceCap policy base tip) by (unfold referenceCap; lia). set (cap := referenceCap policy base tip) in *.
  ok. ok. ok. intros [= <-]. cbn in *. bool_hyps. unfold inU. nia.
Qed.

(** C38. When the minimum value of a native rescue is allowed under a quote, then
    whatever gas within the limit, at whatever price within the fee cap, and
    whatever additional fee within the overhead the transaction is charged, the
    rescue nets at least the configured minimum. *)
Theorem allowed_native_rescue_pays_off policy baseFee suggestedPrice q value minimum d :
  policy_typed policy -> inU 256 minimum -> BuildFeeQuote policy FeeAssetNative baseFee suggestedPrice = Ok q ->
  EvaluateMinimumValue policy FeeAssetNative (Some value) minimum (Quote_MaximumCost q) = Ok d -> MV_Allowed d = true ->
  forall gasUsed price additional, 0 <= gasUsed <= Quote_GasLimit q -> 0 <= price <= Quote_FeeCap q -> 0 <= additional <= Fee_Overhead policy ->
  minimum <= value - (gasUsed * price + additional).
Proof.
  intros Ht Hmin Hq. destruct (quote_parts _ _ _ _ _ Ht Hq) as (Hcap & Hgas & Hcost & Hu & _). unfold EvaluateMinimumValue, u256_FromBig, u256_Lt.
  ok. ok. destruct (value <? 2 ^ 256); [|done]. destruct (u256_AddOverflow _ _) as [required []] eqn:Eo; [done|].
  apply u256_AddOverflow_inv in Eo as [-> _]; [|done|done]. intros [= <-]. cbn [MV_Allowed]. intros Ha. bool_hyps.
  intros gasUsed price additional Hgu Hp Had. assert (gasUsed * price <= Quote_GasLimit q * Quote_FeeCap q) by nia. lia.
Qed.

(** ** Witnesses *)

Module FeeExamples.

Definition f_policy : FeePolicy := mkFeePolicy 1 100 10 2 60000 30000 500 1000000 2000000 false false.
Definition f_quote : FeeQuote := mkFeeQuote 1 FeeAssetNative 3 43 30000 1290500.

Lemma f_typed : policy_typed f_policy.
Proof. by constructor. Qed.

Lemma fee_quote_is_exact_witness : BuildFeeQuote f_policy FeeAssetNative (Some 20) (Some 23) = Ok f_quote.
Proof.
  destruct (fee_quote_is_exact f_policy FeeAssetNative (Some 20) (Some 23) f_typed) as [H _].
  rewrite (H 30000 20 23); [vm_compute; reflexivity|]. split; [reflexivity|]. split; [reflexivity|].
  split; [split; [reflexivity|lia]|]. split; [split; [reflexivity|lia]|]. left. lia.
Defined.

Lemma allowed_native_rescue_pays_off_witness : 500000 <= 2000000 - (21000 * 40 + 7).
Proof.
  apply (allowed_native_rescue_pays_off f_policy (Some 20) (Some 23) f_quote 2000000 500000 (mkDecision true true 1790500) f_typed);
    [split; [lia|reflexivity]|vm_compute; reflexivity|vm_compute; reflexivity|reflexivity|cbn; lia|cbn; lia|cbn; lia].
Defined.

End FeeExamples.

End RescueFees.
Export RescueFees.
