(* ===== verification/Admission.v ===== *)
(** * internal/rescue/policy.go and policy_persistence.go: admission of attempts

    [AdmissionController] limits how often rescues are attempted, over sliding
    windows.  Its linked list is a list of [Element]s, each with an identity (its
    address); a Go map is a [gmap] whose missing keys read as the zero value.
    [ctl_persistence] is the attached bbolt file with its contents, [None] without
    one.  Reading the clock, the failures of the commits and the answers of the
    file system are arguments. *)

From S2P Require Import Prelude GoTime Bytes Domain Bolt.
From Stdlib Require Import Strings.Byte.
From Stdlib Require Strings.String.
Import Strings.String.StringSyntax.

Module Admission.

(** [ErrStorage] stands for bbolt's own errors, which the callers replace. *)
Inductive AdmissionCause :=
| ErrInvalidAdmissionConfig | ErrInvalidAdmissionRequest | ErrAdmissionDenied | ErrAdmissionPersistence | ErrStorage.

Inductive AdmissionReason :=
| AdmissionAllowed | AdmissionGlobalRateLimited | AdmissionTokenAttemptsLimited | AdmissionSourceEventLimited
| AdmissionUnknownTokenRateLimited | AdmissionCapacityLimited | AdmissionInvalidRequest | AdmissionAttemptIdentityConflict.

Record AdmissionConfig := mkConfig {
  Window : Duration;
  RateWindow : Duration;
  RateLimit : Z;
  MaxAttemptsPerToken : Z;
  MaxAttemptsPerSourceEvent : Z;
  MaxNewUnknownTokens : Z;
  Capacity : Z }.

Record AdmissionRequest := mkAdmissionRequest {
  Req_Network : NetworkID;
  Req_Incident : IncidentID;
  Req_Attempt : Z;
  Req_Token : Address;
  Req_Parent : IncidentID;
  Req_SourceEvent : CandidateID;
  Req_Unknown : bool;
  Req_ObservedAt : Time }.

Record AdmissionDecision := mkAdmissionDecision {
  Dec_Allowed : bool;
  Dec_Reason : AdmissionReason;
  Dec_RetryAt : Time }.

Record AdmissionError := mkAdmissionError {
  AErr_Reason : AdmissionReason;
  AErr_RetryAt : Time;
  AErr_Retryable : bool;
  AErr_cause : AdmissionCause }.

Definition admissionAttemptKey : Type := NetworkID * IncidentID * Z.
Definition admissionTokenKey : Type := NetworkID * Address.
Definition admissionSourceEventKey : Type := NetworkID * CandidateID.

Record admissionRecord := mkAdmissionRecord {
  rec_request : AdmissionRequest;
  rec_admittedAt : Time }.

(** [*list.Element]: its address and its value. *)
Record Element := mkElement {
  el_address : nat;
  el_Value : admissionRecord }.

#[export] Instance AdmissionReason_eq_dec : EqDecision AdmissionReason.
Proof. solve_decision. Defined.

#[export] Instance AdmissionRequest_eq_dec : EqDecision AdmissionRequest.
Proof. solve_decision. Defined.

#[export] Instance admissionRecord_eq_dec : EqDecision admissionRecord.
Proof. solve_decision. Defined.

Definition attemptKey (request : AdmissionRequest) : admissionAttemptKey := (Req_Network request, Req_Incident request, Req_Attempt request).
Definition tokenKey (request : AdmissionRequest) : admissionTokenKey := (Req_Network request, Req_Token request).
Definition eventKey (request : AdmissionRequest) : admissionSourceEventKey := (Req_Network request, Req_SourceEvent request).

Definition maximumAdmissionObservedSkew : Duration := 2 * Minute.

Definition admissionMetaBucket : bytes := str "meta".
Definition admissionRecordsBucket : bytes := str "records".
Definition admissionConfigKey : bytes := str "config-v1".

(** ** The counters *)

Definition count_of {K} `{Countable K} (counts : gmap K Z) (key : K) : Z := default 0 (counts !! key).

(** [counts[key]++] *)
Definition incrementAdmissionCount {K} `{Countable K} (counts : gmap K Z) (key : K) : gmap K Z :=
  <[key := uint32_wrap (count_of counts key + 1)]> counts.

Definition decrementAdmissionCount {K} `{Countable K} (counts : gmap K Z) (key : K) : gmap K Z :=
  if count_of counts key <=? 1 then delete key counts else <[key := count_of counts key - 1]> counts.

(** ** Encoding *)

Definition encodeAdmissionConfig (config : AdmissionConfig) : bytes :=
  be_bytes 8 (Window config) ++ be_bytes 8 (RateWindow config) ++ be_bytes 4 (RateLimit config) ++ be_bytes 4 (MaxAttemptsPerToken config) ++
  be_bytes 4 (MaxAttemptsPerSourceEvent config) ++ be_bytes 4 (MaxNewUnknownTokens config) ++ be_bytes 8 (Capacity config).

Definition encodeAdmissionAttemptKey (request : AdmissionRequest) : bytes :=
  be_bytes 8 (Req_Network request) ++ Req_Incident request ++ be_bytes 4 (Req_Attempt request).

(** The last 8 of the 149 bytes stay zero. *)
Definition encodeAdmissionRecord (record : admissionRecord) : bytes :=
  let request := rec_request record in
  be_bytes 8 (Req_Network request) ++ Req_Incident request ++ be_bytes 4 (Req_Attempt request) ++ Req_Token request ++
  Req_Parent request ++ Req_SourceEvent request ++ [if Req_Unknown request then x01 else x00] ++
  be_bytes 8 (Unix (rec_admittedAt record)) ++ be_bytes 4 (Nanosecond (rec_admittedAt record)) ++ zero_bytes 8.

Definition decodeAdmissionRecord (value : bytes) : result AdmissionCause admissionRecord :=
  reject negb (len value =? 149) with ErrAdmissionPersistence in
  let network := int64_wrap (be_value (slice value 0 8)) in
  let incident := slice value 8 32 in
  let attempt := be_value (slice value 40 4) in
  let token := slice value 44 20 in
  let parent := slice value 64 32 in
  let sourceEvent := slice value 96 32 in
  reject 1 <? byteZ (byte_at value 128) with ErrAdmissionPersistence in
  let unknown := byteZ (byte_at value 128) =? 1 in
  let seconds := be_value (slice value 129 8) in
  let nanoseconds := be_value (slice value 137 4) in
  reject (seconds =? 0) || (Second <=? nanoseconds) with ErrAdmissionPersistence in
  Ok (mkAdmissionRecord (mkAdmissionRequest network incident attempt token parent sourceEvent unknown zeroTime)
        (unixTime (int64_wrap seconds) nanoseconds)).

(** ** Requests *)

Definition validAdmissionRequest (request : AdmissionRequest) : bool :=
  (0 <? Req_Network request) && negb (is_zero_bytes (Req_Incident request)) && (0 <? Req_Attempt request)
  && negb (is_zero_bytes (Req_Parent request)) && negb (is_zero_bytes (Req_SourceEvent request))
  && (negb (Req_Unknown request) || negb (is_zero_bytes (Req_Token request))).

Definition clear_observed (request : AdmissionRequest) : AdmissionRequest :=
  mkAdmissionRequest (Req_Network request) (Req_Incident request) (Req_Attempt request) (Req_Token request) (Req_Parent request)
    (Req_SourceEvent request) (Req_Unknown request) zeroTime.

Definition admissionFailure (reason : AdmissionReason) (retryAt : Time) (retryable : bool) (cause : AdmissionCause)
    : AdmissionDecision * option AdmissionError :=
  (mkAdmissionDecision false reason retryAt, Some (mkAdmissionError reason retryAt retryable cause)).

Definition admissionAllowed : AdmissionDecision * option AdmissionError := (mkAdmissionDecision true AdmissionAllowed zeroTime, None).

Section Controller.
Context {B : Bolt}.

(** The root buckets of the file; [None] where one is missing. *)
Record AdmissionFile := mkAdmissionFile {
  af_meta : option bucket;
  af_records : option bucket }.

Record AdmissionController := mkController {
  ctl_config : AdmissionConfig;
  ctl_lastNow : Time;
  ctl_records : list Element;
  ctl_attempts : gmap admissionAttemptKey Element;
  ctl_tokens : gmap admissionTokenKey Z;
  ctl_events : gmap admissionSourceEventKey Z;
  ctl_unknown : gmap admissionTokenKey Z;
  ctl_latest : gmap admissionTokenKey Time;
  ctl_persistence : option AdmissionFile;
  ctl_allocated : nat }.

Definition set_lastNow (c : AdmissionController) (now : Time) : AdmissionController :=
  mkController (ctl_config c) now (ctl_records c) (ctl_attempts c) (ctl_tokens c) (ctl_events c) (ctl_unknown c) (ctl_latest c)
    (ctl_persistence c) (ctl_allocated c).

Definition set_latest (c : AdmissionController) (latest : gmap admissionTokenKey Time) : AdmissionController :=
  mkController (ctl_config c) (ctl_lastNow c) (ctl_records c) (ctl_attempts c) (ctl_tokens c) (ctl_events c) (ctl_unknown c) latest
    (ctl_persistence c) (ctl_allocated c).

Definition set_persistence (c : AdmissionController) (persistence : option AdmissionFile) : AdmissionController :=
  mkController (ctl_config c) (ctl_lastNow c) (ctl_records c) (ctl_attempts c) (ctl_tokens c) (ctl_events c) (ctl_unknown c) (ctl_latest c)
    persistence (ctl_allocated c).

Definition NewAdmissionController (config : AdmissionConfig) (clockNil : bool) : result AdmissionCause AdmissionController :=
  let config := if RateWindow config =? 0
    then mkConfig (Window config) (Window config) (RateLimit config) (MaxAttemptsPerToken config) (MaxAttemptsPerSourceEvent config)
           (MaxNewUnknownTokens config) (Capacity config)
    else config in
  reject clockNil || (Window config <=? 0) || (RateLimit config =? 0) || (MaxAttemptsPerToken config =? 0)
      || (RateWindow config <=? 0) || (Window config <? RateWindow config) || (MaxAttemptsPerSourceEvent config =? 0)
      || (MaxNewUnknownTokens config =? 0) || (Capacity config <=? 0) with ErrInvalidAdmissionConfig in
  Ok (mkController config zeroTime [] ∅ ∅ ∅ ∅ ∅ None 0).

(** ** Removing records *)

Definition unknownOf (key : admissionTokenKey) (record : admissionRecord) : bool :=
  Req_Unknown (rec_request record) && bool_decide (tokenKey (rec_request record) = key).

Definition recomputeLatest (c : AdmissionController) (key : admissionTokenKey) : AdmissionController :=
  let latest := foldl (fun latest element =>
    if unknownOf key (el_Value element) && After (rec_admittedAt (el_Value element)) latest then rec_admittedAt (el_Value element) else latest)
    zeroTime (ctl_records c) in
  set_latest c (<[key := latest]> (ctl_latest c)).

Definition remove (c : AdmissionController) (element : Element) (record : admissionRecord) : AdmissionController :=
  let request := rec_request record in
  let c := mkController (ctl_config c) (ctl_lastNow c) (ctl_records c) (delete (attemptKey request) (ctl_attempts c))
    (decrementAdmissionCount (ctl_tokens c) (tokenKey request)) (decrementAdmissionCount (ctl_events c) (eventKey request))
    (if Req_Unknown request then decrementAdmissionCount (ctl_unknown c) (tokenKey request) else ctl_unknown c) (ctl_latest c)
    (ctl_persistence c) (ctl_allocated c) in
  let c :=
    if Req_Unknown request then
      let key := tokenKey request in
      if count_of (ctl_unknown c) key =? 0 then set_latest c (delete key (ctl_latest c))
      else if TimeEqual (default zeroTime (ctl_latest c !! key)) (rec_admittedAt record) then recomputeLatest c key
      else c
    else c in
  mkController (ctl_config c) (ctl_lastNow c) (filter (fun e => el_address e <> el_address element) (ctl_records c)) (ctl_attempts c)
    (ctl_tokens c) (ctl_events c) (ctl_unknown c) (ctl_latest c) (ctl_persistence c) (ctl_allocated c).

(** The loop over the front of the list; it ends within as many rounds as there
    are elements. *)
Fixpoint pruneLoop (fuel : nat) (c : AdmissionController) (now : Time) : AdmissionController :=
  match fuel, ctl_records c with
  | S fuel', element :: _ =>
      if Before now (Add (rec_admittedAt (el_Value element)) (Window (ctl_config c))) then c
      else pruneLoop fuel' (remove c element (el_Value element)) now
  | _, _ => c
  end.

Definition prune (c : AdmissionController) (now : Time) : AdmissionController := pruneLoop (length (ctl_records c)) c now.

(** ** Counting and retry times *)

(** The backward loop of [rateCount], on the reversed list. *)
Fixpoint countAfter (elements : list Element) (cutoff : Time) : Z :=
  match elements with
  | [] => 0
  | element :: rest => if negb (After (rec_admittedAt (el_Value element)) cutoff) then 0 else 1 + countAfter rest cutoff
  end.

Definition rateCount (c : AdmissionController) (now : Time) : Z :=
  countAfter (rev (ctl_records c)) (Add now (- RateWindow (ctl_config c))).

Definition rateRetryAt (c : AdmissionController) (now : Time) : Time :=
  let cutoff := Add now (- RateWindow (ctl_config c)) in
  match find (fun e => After (rec_admittedAt (el_Value e)) cutoff) (ctl_records c) with
  | Some e => Add (rec_admittedAt (el_Value e)) (RateWindow (ctl_config c))
  | None => Add now (RateWindow (ctl_config c))
  end.

Definition tokenRetryAt (c : AdmissionController) (key : admissionTokenKey) : Time :=
  match find (fun e => bool_decide (tokenKey (rec_request (el_Value e)) = key)) (ctl_records c) with
  | Some e => Add (rec_admittedAt (el_Value e)) (Window (ctl_config c))
  | None => zeroTime
  end.

Definition sourceEventRetryAt (c : AdmissionController) (key : admissionSourceEventKey) : Time :=
  match find (fun e => bool_decide (eventKey (rec_request (el_Value e)) = key)) (ctl_records c) with
  | Some e => Add (rec_admittedAt (el_Value e)) (Window (ctl_config c))
  | None => zeroTime
  end.

(** The smallest expiry; Go's order over the map does not matter to it. *)
Definition unknownRetryAt (c : AdmissionController) : Time :=
  foldl (fun retryAt '(_, latest) =>
    let expires := Add latest (Window (ctl_config c)) in
    if IsZero retryAt || Before expires retryAt then expires else retryAt) zeroTime (map_to_list (ctl_latest c)).

(** [Admit] calls it on a list that is not empty. *)
Definition firstExpiry (c : AdmissionController) : Time :=
  match ctl_records c with
  | [] => zeroTime
  | e :: _ => Add (rec_admittedAt (el_Value e)) (Window (ctl_config c))
  end.

(** ** Persistence *)

Definition storeRecord (records : bucket) (element : Element) : result AdmissionCause bucket :=
  let? records := b_put records (encodeAdmissionAttemptKey (rec_request (el_Value element))) (encodeAdmissionRecord (el_Value element))
    orelse ErrStorage in
  Ok records.

(** [boltAdmissionPersistence.Store]: the file afterwards and whether it succeeded. *)
Definition Store (commitFails : bool) (elements : list Element) (file : AdmissionFile) : AdmissionFile * result AdmissionCause unit :=
  db_update (if commitFails then Some ErrStorage else None) file (fun file =>
    let! records := foldM storeRecord elements b_empty in
    Ok (tt, mkAdmissionFile (af_meta file) (Some records))).

(** [controller.persistence.Store(&controller.records)], where there is one. *)
Definition persist (c : AdmissionController) (commitFails : bool) : AdmissionController * bool :=
  match ctl_persistence c with
  | None => (c, true)
  | Some file => let (file, r) := Store commitFails (ctl_records c) file in (set_persistence c (Some file), isOk r)
  end.

Definition Close (c : AdmissionController) (closeFails : bool) : AdmissionController * result AdmissionCause unit :=
  match ctl_persistence c with
  | None => (c, Ok tt)
  | Some _ => (set_persistence c None, if closeFails then Err ErrAdmissionPersistence else Ok tt)
  end.

(** ** Admit *)

(** The effective time of a call: the clock, but never back. *)
Definition advance (c : AdmissionController) (now : Time) : Time * AdmissionController :=
  if Before now (ctl_lastNow c) then (ctl_lastNow c, c) else (now, set_lastNow c now).

Definition TrackedAttempts (c : AdmissionController) (now : Time) : AdmissionController * Z :=
  let (now, c) := advance c now in
  let c := prune c now in
  (c, Z.of_nat (length (ctl_records c))).

(** The checks of a new attempt against the limits. *)
Definition limitCheck (c : AdmissionController) (request : AdmissionRequest) (now : Time) : option (AdmissionDecision * option AdmissionError) :=
  let config := ctl_config c in
  if RateLimit config <=? rateCount c now then
    Some (admissionFailure AdmissionGlobalRateLimited (rateRetryAt c now) true ErrAdmissionDenied)
  else if MaxAttemptsPerToken config <=? count_of (ctl_tokens c) (tokenKey request) then
    Some (admissionFailure AdmissionTokenAttemptsLimited (tokenRetryAt c (tokenKey request)) true ErrAdmissionDenied)
  else if MaxAttemptsPerSourceEvent config <=? count_of (ctl_events c) (eventKey request) then
    Some (admissionFailure AdmissionSourceEventLimited (sourceEventRetryAt c (eventKey request)) true ErrAdmissionDenied)
  else if Req_Unknown request && (count_of (ctl_unknown c) (tokenKey request) =? 0)
      && (MaxNewUnknownTokens config <=? Z.of_nat (size (ctl_unknown c))) then
    Some (admissionFailure AdmissionUnknownTokenRateLimited (unknownRetryAt c) true ErrAdmissionDenied)
  else if Capacity config <=? Z.of_nat (length (ctl_records c)) then
    Some (admissionFailure AdmissionCapacityLimited (firstExpiry c) true ErrAdmissionDenied)
  else None.

(** Appending a record: the controller and the new element. *)
Definition addRecord (c : AdmissionController) (record : admissionRecord) : AdmissionController * Element :=
  let request := rec_request record in
  let element := mkElement (ctl_allocated c) record in
  (mkController (ctl_config c) (ctl_lastNow c) (ctl_records c ++ [element]) (<[attemptKey request := element]> (ctl_attempts c))
     (incrementAdmissionCount (ctl_tokens c) (tokenKey request)) (incrementAdmissionCount (ctl_events c) (eventKey request))
     (if Req_Unknown request then incrementAdmissionCount (ctl_unknown c) (tokenKey request) else ctl_unknown c) (ctl_latest c)
     (ctl_persistence c) (S (ctl_allocated c)), element).

(** A call's inputs: what the clock says and whether the two commits fail. *)
Record AdmitCall := mkAdmitCall {
  ac_now : Time;
  ac_firstFails : bool;
  ac_secondFails : bool }.

(** The skew between the observation and the clock is refused. *)
Definition skewed (observed now : Time) : bool :=
  negb (IsZero observed) && ((Sub observed now <? - maximumAdmissionObservedSkew) || (maximumAdmissionObservedSkew <? Sub observed now)).

Definition admitNew (c : AdmissionController) (request : AdmissionRequest) (now : Time) (secondFails : bool)
    : AdmissionController * (AdmissionDecision * option AdmissionError) :=
  match limitCheck c request now with
  | Some denied => (c, denied)
  | None =>
      let (c, element) := addRecord c (mkAdmissionRecord request now) in
      let c := if Req_Unknown request then set_latest c (<[tokenKey request := now]> (ctl_latest c)) else c in
      let (c, stored) := persist c secondFails in
      if stored then (c, admissionAllowed)
      else (remove c element (mkAdmissionRecord request now),
            admissionFailure AdmissionCapacityLimited zeroTime false ErrAdmissionPersistence)
  end.

Definition Admit (c : AdmissionController) (request : AdmissionRequest) (call : AdmitCall)
    : AdmissionController * (AdmissionDecision * option AdmissionError) :=
  if skewed (Req_ObservedAt request) (ac_now call) then
    (c, admissionFailure AdmissionInvalidRequest zeroTime false ErrInvalidAdmissionRequest)
  else
    let request := clear_observed request in
    let (now, c) := advance c (ac_now call) in
    let (c, stored) := persist (prune c now) (ac_firstFails call) in
    if negb stored then (c, admissionFailure AdmissionCapacityLimited zeroTime false ErrAdmissionPersistence)
    else if negb (validAdmissionRequest request) then (c, admissionFailure AdmissionInvalidRequest zeroTime false ErrInvalidAdmissionRequest)
    else
      match ctl_attempts c !! attemptKey request with
      | Some existing =>
          if bool_decide (rec_request (el_Value existing) = request) then (c, admissionAllowed)
          else (c, admissionFailure AdmissionAttemptIdentityConflict zeroTime false ErrInvalidAdmissionRequest)
      | None => admitNew c request now (ac_secondFails call)
      end.

(** ** Opening *)

(** [sort.Slice] by [admittedAt]: sorted, in whatever order for equal times. *)
Class RecordSort := {
  sortRecords : list admissionRecord -> list admissionRecord;
  sortRecords_perm l : sortRecords l ≡ₚ l;
  sortRecords_sorted l : StronglySorted (fun r r' => rec_admittedAt r <= rec_admittedAt r') (sortRecords l) }.

(** What the file system and bbolt answer: [Some created] for a usable path, and
    the file's contents. *)
Record AdmissionOpenEnv := mkAdmissionEnv {
  ae_pathEmpty : bool;
  ae_directoryOK : bool;
  ae_path : option bool;
  ae_open : option AdmissionFile;
  ae_commitFails : bool }.

Definition createFile (config : AdmissionConfig) (file : AdmissionFile) : result AdmissionCause (list admissionRecord * AdmissionFile) :=
  match af_meta file, af_records file with
  | None, None =>
      let? meta := b_put b_empty admissionConfigKey (encodeAdmissionConfig config) orelse ErrStorage in
      Ok ([], mkAdmissionFile (Some meta) (Some b_empty))
  | _, _ => Err ErrStorage
  end.

Definition loadRecords (config : AdmissionConfig) (file : AdmissionFile) : result AdmissionCause (list admissionRecord) :=
  match af_meta file, af_records file with
  | Some meta, Some records =>
      match b_get meta admissionConfigKey with
      | Some stored =>
          reject negb (bytes_eqb stored (encodeAdmissionConfig config)) with ErrInvalidAdmissionConfig in
          foldM (fun records '(_, value) => let! record := decodeAdmissionRecord value in Ok (records ++ [record])) (b_entries records) []
      | None => Err ErrInvalidAdmissionConfig
      end
  | _, _ => Err ErrAdmissionPersistence
  end.

Definition restoreRecord (c : AdmissionController) (record : admissionRecord) : result AdmissionCause AdmissionController :=
  let request := rec_request record in
  reject negb (validAdmissionRequest request) with ErrAdmissionPersistence in
  reject bool_decide (is_Some (ctl_attempts c !! attemptKey request)) with ErrAdmissionPersistence in
  let c := fst (addRecord c record) in
  let c := if Req_Unknown request && After (rec_admittedAt record) (default zeroTime (ctl_latest c !! tokenKey request))
    then set_latest c (<[tokenKey request := rec_admittedAt record]> (ctl_latest c)) else c in
  Ok (if After (rec_admittedAt record) (ctl_lastNow c) then set_lastNow c (rec_admittedAt record) else c).

Definition OpenAdmissionController {S : RecordSort} (env : AdmissionOpenEnv) (config : AdmissionConfig) (clockNil : bool)
    : result AdmissionCause AdmissionController :=
  let! controller := errOr ErrInvalidAdmissionConfig (NewAdmissionController config clockNil) in
  reject ae_pathEmpty env with ErrInvalidAdmissionConfig in
  reject negb (ae_directoryOK env) with ErrAdmissionPersistence in
  let? created := ae_path env orelse ErrAdmissionPersistence in
  let? file := ae_open env orelse ErrAdmissionPersistence in
  let! (file, records) := errOr ErrAdmissionPersistence (
    if created : bool then
      match db_update (if ae_commitFails env then Some ErrStorage else None) file (createFile (ctl_config controller)) with
      | (file, Ok records) => Ok (file, records)
      | (_, Err e) => Err e
      end
    else let! records := loadRecords (ctl_config controller) file in Ok (file, records)) in
  reject Capacity (ctl_config controller) <? Z.of_nat (length records) with ErrAdmissionPersistence in
  let! controller := foldM restoreRecord (sortRecords records) controller in
  Ok (set_persistence controller (Some file)).

End Controller.
End Admission.
Export Admission.
