(* ===== verification/AdmissionInv.v ===== *)
(** * The invariant of the admission controller

    The records of the controller satisfy the limits ([RecsInv]); the maps count
    them ([rep]); the operations keep this ([CtlInv]).  The file of the controller
    holds such records too. *)

From S2P Require Import Prelude GoTime Bytes Domain Bolt Admission.
From Stdlib Require Import Strings.Byte.

Module AdmissionInv.

Abbreviation time_of := rec_admittedAt.

Definition rkey (r : admissionRecord) : admissionAttemptKey := attemptKey (rec_request r).
Definition tkey (r : admissionRecord) : option admissionTokenKey := Some (tokenKey (rec_request r)).
Definition ekey (r : admissionRecord) : option admissionSourceEventKey := Some (eventKey (rec_request r)).
Definition ukey (r : admissionRecord) : option admissionTokenKey :=
  if Req_Unknown (rec_request r) then Some (tokenKey (rec_request r)) else None.

(** How often a key occurs, and the set of unknown tokens. *)
Definition occ {K} `{EqDecision K} (f : admissionRecord -> option K) (l : list admissionRecord) (k : K) : nat :=
  length (filter (fun r => f r = Some k) l).
Definition unknownTokens (l : list admissionRecord) : gset admissionTokenKey := list_to_set (omap ukey l).

(** ** Good configurations, times and records *)

Record config_ok (cfg : AdmissionConfig) : Prop := {
  co_window : 0 < Window cfg < 2 ^ 63;
  co_rate : 0 < RateWindow cfg <= Window cfg;
  co_limit : 0 < RateLimit cfg < 2 ^ 32;
  co_token : 0 < MaxAttemptsPerToken cfg < 2 ^ 32;
  co_event : 0 < MaxAttemptsPerSourceEvent cfg < 2 ^ 32;
  co_unknown : 0 < MaxNewUnknownTokens cfg < 2 ^ 32;
  co_capacity : 0 < Capacity cfg < 2 ^ 63 }.

(** A clock reading after year 1 that leaves room for a window and is not within
    the first second of 1970, which the file cannot hold. *)
Definition good_time (cfg : AdmissionConfig) (t : Time) : Prop := 0 <= t /\ time_ok (t + Window cfg) /\ Unix t <> 0.

Record request_typed (q : AdmissionRequest) : Prop := {
  qt_network : - 2 ^ 63 <= Req_Network q < 2 ^ 63;
  qt_incident : length (Req_Incident q) = 32%nat;
  qt_attempt : inU 32 (Req_Attempt q);
  qt_token : length (Req_Token q) = 20%nat;
  qt_parent : length (Req_Parent q) = 32%nat;
  qt_event : length (Req_SourceEvent q) = 32%nat }.

Record good_record (cfg : AdmissionConfig) (r : admissionRecord) : Prop := {
  gr_time : good_time cfg (time_of r);
  gr_typed : request_typed (rec_request r);
  gr_valid : validAdmissionRequest (rec_request r) = true;
  gr_observed : Req_ObservedAt (rec_request r) = zeroTime }.

(** Records within every limit of the window. *)
Record RecsInv (cfg : AdmissionConfig) (l : list admissionRecord) : Prop := {
  ri_good : Forall (good_record cfg) l;
  ri_keys : NoDup (map rkey l);
  ri_tokens k : Z.of_nat (occ tkey l k) <= MaxAttemptsPerToken cfg;
  ri_events k : Z.of_nat (occ ekey l k) <= MaxAttemptsPerSourceEvent cfg;
  ri_unknown : Z.of_nat (size (unknownTokens l)) <= MaxNewUnknownTokens cfg;
  ri_capacity : Z.of_nat (length l) <= Capacity cfg }.

(** ** Counting *)

Section Counting.
Context {K} `{Countable K}.
Implicit Types (f : admissionRecord -> option K) (m : gmap K Z) (l : list admissionRecord).

Definition rep m f l : Prop := forall k, m !! k = if decide (occ f l k = 0%nat) then None else Some (Z.of_nat (occ f l k)).

Lemma occ_app f l1 l2 k : occ f (l1 ++ l2) k = (occ f l1 k + occ f l2 k)%nat.
Proof. unfold occ. by rewrite filter_app, length_app. Qed.

Lemma occ_cons f r l k : occ f (r :: l) k = ((if decide (f r = Some k) then 1 else 0) + occ f l k)%nat.
Proof. unfold occ. rewrite filter_cons. by case_decide. Qed.

Lemma occ_nil f k : occ f [] k = 0%nat.
Proof. reflexivity. Qed.

Lemma occ_perm f l l' k : l ≡ₚ l' -> occ f l k = occ f l' k.
Proof. intros Hp. unfold occ. by rewrite Hp. Qed.

Lemma occ_sublist f l l' k : sublist l l' -> (occ f l k <= occ f l' k)%nat.
Proof. induction 1; rewrite ?occ_cons; lia. Qed.

Lemma count_of_rep m f l k : rep m f l -> count_of m k = Z.of_nat (occ f l k).
Proof. intros Hr. unfold count_of. rewrite Hr. case_decide as E; [by rewrite E|done]. Qed.

Lemma rep_nil f : rep ∅ f [].
Proof. intros k. rewrite lookup_empty, occ_nil. by rewrite decide_True. Qed.

Lemma rep_perm m f l l' : l ≡ₚ l' -> rep m f l -> rep m f l'.
Proof. intros Hp Hr k. rewrite <- (occ_perm f _ _ k Hp). apply Hr. Qed.

Definition incrementFor f r m : gmap K Z := match f r with Some k => incrementAdmissionCount m k | None => m end.
Definition decrementFor f r m : gmap K Z := match f r with Some k => decrementAdmissionCount m k | None => m end.

Lemma rep_increment m f l r :
  (forall k, f r = Some k -> Z.of_nat (occ f l k) + 1 < 2 ^ 32) -> rep m f l -> rep (incrementFor f r m) f (l ++ [r]).
Proof.
  intros Hlt Hr k. unfold incrementFor. rewrite occ_app, occ_cons, occ_nil. destruct (f r) as [k'|] eqn:E.
  - unfold incrementAdmissionCount. rewrite (count_of_rep _ _ _ _ Hr). unfold uint32_wrap. specialize (Hlt k' eq_refl).
    rewrite Z.mod_small by lia. destruct (decide (k' = k)) as [->|Hn].
    + rewrite lookup_insert_eq. destruct (decide (Some k = Some k)); [|done]. rewrite decide_False by lia. f_equal. lia.
    + rewrite lookup_insert_ne by done. destruct (decide (Some k' = Some k)); [congruence|]. rewrite !Nat.add_0_r. apply Hr.
  - destruct (decide (None = Some k)); [done|]. rewrite !Nat.add_0_r. apply Hr.
Qed.

Lemma rep_increment_below m f l r M :
  M < 2 ^ 32 -> (forall k, Z.of_nat (occ f (l ++ [r]) k) <= M) -> rep m f l -> rep (incrementFor f r m) f (l ++ [r]).
Proof.
  intros HM Ho. apply rep_increment. intros k E. specialize (Ho k). rewrite occ_app, occ_cons, decide_True in Ho by done. lia.
Qed.

Lemma occ_other f l1 r l2 k : f r <> Some k -> occ f (l1 ++ r :: l2) k = occ f (l1 ++ l2) k.
Proof. intros Hn. rewrite !occ_app, occ_cons, decide_False by done. reflexivity. Qed.

Lemma occ_mine f l1 r l2 k : f r = Some k -> occ f (l1 ++ r :: l2) k = S (occ f (l1 ++ l2) k).
Proof. intros Hn. rewrite !occ_app, occ_cons, decide_True by done. lia. Qed.

Lemma rep_decrement m f l1 r l2 : rep m f (l1 ++ r :: l2) -> rep (decrementFor f r m) f (l1 ++ l2).
Proof.
  intros Hr k. unfold decrementFor. destruct (f r) as [k'|] eqn:E.
  - unfold decrementAdmissionCount. rewrite (count_of_rep _ _ _ _ Hr), (occ_mine _ _ _ _ _ E).
    destruct (decide (k' = k)) as [->|Hn].
    + case_match eqn:Ele; bool_hyps.
      * rewrite lookup_delete_eq, decide_True by lia. done.
      * rewrite lookup_insert_eq, decide_False by lia. f_equal. lia.
    + rewrite <- (occ_other f l1 r l2 k) by congruence.
      case_match; [rewrite lookup_delete_ne by done|rewrite lookup_insert_ne by done]; apply Hr.
  - rewrite <- (occ_other f l1 r l2 k) by congruence. apply Hr.
Qed.

End Counting.

Lemma unknownTokens_app l l' : unknownTokens (l ++ l') = unknownTokens l ∪ unknownTokens l'.
Proof. unfold unknownTokens. rewrite omap_app. apply leibniz_equiv, list_to_set_app. Qed.

Lemma unknownTokens_perm l l' : l ≡ₚ l' -> unknownTokens l = unknownTokens l'.
Proof. intros Hp. unfold unknownTokens. apply leibniz_equiv. by rewrite Hp. Qed.

Lemma unknownTokens_in l k : k ∈ unknownTokens l <-> occ ukey l k <> 0%nat.
Proof.
  unfold unknownTokens, occ. rewrite elem_of_list_to_set, list_elem_of_omap. split.
  - intros (r & Hin & Hu) Hz. apply nil_length_inv in Hz.
    assert (Hf : r ∈ filter (fun r => ukey r = Some k) l) by (by apply list_elem_of_filter). rewrite Hz in Hf. by apply elem_of_nil in Hf.
  - intros Hn. destruct (filter (fun r => ukey r = Some k) l) as [|r rest] eqn:E; [done|].
    assert (Hf : r ∈ filter (fun r => ukey r = Some k) l) by (rewrite E; by left). apply list_elem_of_filter in Hf as [Hu Hin]. by exists r.
Qed.

Lemma unknownTokens_sublist l l' : sublist l l' -> unknownTokens l ⊆ unknownTokens l'.
Proof. intros Hs k. rewrite !unknownTokens_in. pose proof (occ_sublist ukey _ _ k Hs). lia. Qed.

(** The map of the unknown tokens has one key per token. *)
Lemma rep_size m l : rep m ukey l -> size m = size (unknownTokens l).
Proof.
  intros Hr. rewrite <- size_dom. f_equal. apply leibniz_equiv. intros k. rewrite elem_of_dom, unknownTokens_in, Hr.
  case_decide; [split; [by intros [? [=]]|done]|split; [done|by eexists]].
Qed.

(** Unknown attempts of a token are attempts of it. *)
Lemma occ_unknown l k : (occ ukey l k <= occ tkey l k)%nat.
Proof.
  induction l as [|r l IH]; [done|]. rewrite !occ_cons. unfold ukey at 1, tkey at 1.
  repeat case_decide; destruct (Req_Unknown _); try congruence; lia.
Qed.

Lemma RecsInv_perm cfg l l' : l ≡ₚ l' -> RecsInv cfg l -> RecsInv cfg l'.
Proof.
  intros Hp [Hg Hk Ht He Hu Hc]. constructor.
  - by rewrite <- Hp.
  - by rewrite <- Hp.
  - intros k. by rewrite <- (occ_perm _ _ _ _ Hp).
  - intros k. by rewrite <- (occ_perm _ _ _ _ Hp).
  - by rewrite <- (unknownTokens_perm _ _ Hp).
  - by rewrite <- Hp.
Qed.

Lemma RecsInv_sublist cfg l l' : sublist l l' -> RecsInv cfg l' -> RecsInv cfg l.
Proof.
  intros Hs [Hg Hk Ht He Hu Hc]. constructor.
  - apply Forall_forall. intros r Hr. rewrite Forall_forall in Hg. apply Hg. by eapply elem_of_sublist.
  - eapply sublist_NoDup; [exact Hk|]. by apply (fmap_sublist rkey).
  - intros k. pose proof (occ_sublist tkey _ _ k Hs). specialize (Ht k). lia.
  - intros k. pose proof (occ_sublist ekey _ _ k Hs). specialize (He k). lia.
  - pose proof (subseteq_size _ _ (unknownTokens_sublist _ _ Hs)). lia.
  - pose proof (sublist_length _ _ Hs). lia.
Qed.

(** ** The controller *)

Section Controller.
Context {B : Bolt}.

Definition vals (c : AdmissionController) : list admissionRecord := map el_Value (ctl_records c).

Definition time_le (r r' : admissionRecord) : Prop := time_of r <= time_of r'.

Record CtlInv (c : AdmissionController) : Prop := {
  ci_config : config_ok (ctl_config c);
  ci_recs : RecsInv (ctl_config c) (vals c);
  ci_sorted : StronglySorted time_le (vals c);
  ci_last : Forall (fun r => time_of r <= ctl_lastNow c) (vals c);
  ci_now : good_time (ctl_config c) (ctl_lastNow c);
  ci_addr : NoDup (map el_address (ctl_records c));
  ci_alloc : Forall (fun e => (el_address e < ctl_allocated c)%nat) (ctl_records c);
  ci_attempts k e : ctl_attempts c !! k = Some e <-> e ∈ ctl_records c /\ rkey (el_Value e) = k;
  ci_tokens : rep (ctl_tokens c) tkey (vals c);
  ci_events : rep (ctl_events c) ekey (vals c);
  ci_unknown : rep (ctl_unknown c) ukey (vals c) }.

(** Controllers that differ in the file and the latest times only. *)
Record same_records (c c' : AdmissionController) : Prop := {
  sr_config : ctl_config c' = ctl_config c;
  sr_last : ctl_lastNow c' = ctl_lastNow c;
  sr_records : ctl_records c' = ctl_records c;
  sr_attempts : ctl_attempts c' = ctl_attempts c;
  sr_tokens : ctl_tokens c' = ctl_tokens c;
  sr_events : ctl_events c' = ctl_events c;
  sr_unknown : ctl_unknown c' = ctl_unknown c;
  sr_alloc : ctl_allocated c' = ctl_allocated c }.

Lemma CtlInv_same c c' : same_records c c' -> CtlInv c -> CtlInv c'.
Proof.
  intros [E1 E2 E3 E4 E5 E6 E7 E8] [H1 H2 H3 H4 H5 H6 H7 H8 H9 H10 H11].
  assert (Ev : vals c' = vals c) by (unfold vals; by rewrite E3).
  constructor; rewrite ?E1, ?E2, ?Ev, ?E3, ?E4, ?E5, ?E6, ?E7, ?E8; assumption.
Qed.

Lemma persist_same c fails : same_records c (fst (persist c fails)).
Proof. unfold persist. destruct (ctl_persistence c) as [f|]; [|done]. by destruct (Store _ _ _). Qed.

(** Removing an element, field by field. *)
Definition without (c : AdmissionController) (e : Element) (l : list Element) (latest : gmap admissionTokenKey Time) : AdmissionController :=
  mkController (ctl_config c) (ctl_lastNow c) l (delete (rkey (el_Value e)) (ctl_attempts c)) (decrementFor tkey (el_Value e) (ctl_tokens c))
    (decrementFor ekey (el_Value e) (ctl_events c)) (decrementFor ukey (el_Value e) (ctl_unknown c)) latest (ctl_persistence c) (ctl_allocated c).

Lemma remove_without c e l1 l2 :
  NoDup (map el_address (ctl_records c)) -> ctl_records c = l1 ++ e :: l2 -> exists latest, remove c e (el_Value e) = without c e (l1 ++ l2) latest.
Proof.
  intros Hn Hl. assert (Hf : filter (fun e' => el_address e' <> el_address e) (ctl_records c) = l1 ++ l2).
  { rewrite Hl in Hn |- *. rewrite map_app in Hn. apply NoDup_app in Hn as (_ & Hd & Hn2). apply NoDup_cons in Hn2 as [Hn2 _].
    rewrite filter_app, filter_cons_False by (intros Hx; by apply Hx). f_equal; apply filter_all; intros x Hx Heq.
    - apply (Hd (el_address x)); [by apply (list_elem_of_fmap_2 el_address)|rewrite Heq; by left].
    - apply Hn2. rewrite <- Heq. by apply (list_elem_of_fmap_2 el_address). }
  unfold remove, without, decrementFor, tkey, ekey, ukey, rkey. destruct (Req_Unknown _); cbn [ctl_unknown ctl_latest].
  - destruct (_ =? 0); [|destruct (TimeEqual _ _)]; cbn; rewrite Hf; by eexists.
  - cbn. rewrite Hf. by eexists.
Qed.

Lemma without_inv c e l1 l2 latest : ctl_records c = l1 ++ e :: l2 -> CtlInv c -> CtlInv (without c e (l1 ++ l2) latest).
Proof.
  intros Hl [H1 H2 H3 H4 H5 H6 H7 H8 H9 H10 H11].
  assert (Hs : sublist (l1 ++ l2) (ctl_records c)) by (rewrite Hl; apply sublist_app, sublist_cons; done).
  assert (Ev : vals c = map el_Value l1 ++ el_Value e :: map el_Value l2) by (unfold vals; by rewrite Hl, map_app).
  assert (Ev' : vals (without c e (l1 ++ l2) latest) = map el_Value l1 ++ map el_Value l2) by (unfold vals; cbn; by rewrite map_app).
  assert (Hsv : sublist (vals (without c e (l1 ++ l2) latest)) (vals c)) by (unfold vals; by apply (fmap_sublist el_Value)).
  constructor; try done.
  - by eapply RecsInv_sublist.
  - rewrite Ev'. rewrite Ev in H3. clear -H3. induction (map el_Value l1) as [|x l IH]; cbn in *; [by inversion H3|].
    inversion H3 as [|? ? Hs Hall]; subst. constructor; [by apply IH|]. apply Forall_app in Hall as [Ha Hb]. inversion Hb. by apply Forall_app.
  - apply Forall_forall. intros r Hr. rewrite Forall_forall in H4. by apply H4, (elem_of_sublist _ _ _ Hr).
  - eapply sublist_NoDup; [exact H6|]. by apply (fmap_sublist el_address).
  - apply Forall_forall. intros r Hr. rewrite Forall_forall in H7. by apply H7, (elem_of_sublist _ _ _ Hr).
  - pose proof (ri_keys _ _ H2) as Hk. rewrite Ev, map_app in Hk. apply NoDup_app in Hk as (_ & Hd & Hk). apply NoDup_cons in Hk as [Hk _].
    intros k e'. cbn [without ctl_attempts ctl_records]. rewrite lookup_delete_Some, H8, Hl.
    assert (Hin : e' ∈ l1 ++ l2 -> rkey (el_Value e) <> rkey (el_Value e')).
    { intros Hin Heq. apply elem_of_app in Hin as [Hin|Hin].
      - apply (Hd (rkey (el_Value e'))); [|rewrite <- Heq; by left]. by apply (list_elem_of_fmap_2 rkey), (list_elem_of_fmap_2 el_Value).
      - apply Hk. rewrite Heq. by apply (list_elem_of_fmap_2 rkey), (list_elem_of_fmap_2 el_Value). }
    split.
    + intros (Hne & Hin' & <-). split; [|done]. apply elem_of_app. apply elem_of_app in Hin' as [?|[->|?]%elem_of_cons]; [by left|done|by right].
    + intros [Hin' <-]. split; [by apply Hin|]. split; [|done]. apply elem_of_app in Hin' as [?|?]; apply elem_of_app; [by left|right; by right].
  - rewrite Ev'. rewrite Ev in H9. by apply rep_decrement.
  - rewrite Ev'. rewrite Ev in H10. by apply rep_decrement.
  - rewrite Ev'. rewrite Ev in H11. by apply rep_decrement.
Qed.

(** ** Pruning *)

Lemma good_time_add cfg t : good_time cfg t -> Add t (Window cfg) = t + Window cfg.
Proof. intros (_ & Hok & _). by apply Add_exact. Qed.

Lemma good_time_ok cfg t : config_ok cfg -> good_time cfg t -> time_ok t.
Proof. intros Hc (H0 & Hok & _). pose proof (co_window _ Hc). apply (time_ok_between 0 (t + Window cfg)); [done|done|lia]. Qed.

(** What pruning at [now] leaves of a list sorted by time. *)
Record Pruned (now : Time) (c c' : AdmissionController) : Prop := {
  pr_inv : CtlInv c';
  pr_config : ctl_config c' = ctl_config c;
  pr_last : ctl_lastNow c' = ctl_lastNow c;
  pr_file : ctl_persistence c' = ctl_persistence c;
  pr_split : exists dropped, vals c = dropped ++ vals c' /\ Forall (fun r => time_of r + Window (ctl_config c) <= now) dropped;
  pr_kept : Forall (fun r => now < time_of r + Window (ctl_config c)) (vals c') }.

Lemma pruneLoop_spec fuel c now : (length (ctl_records c) <= fuel)%nat -> CtlInv c -> Pruned now c (pruneLoop fuel c now).
Proof.
  revert c. induction fuel as [|fuel IH]; intros c Hlen Hc.
  { assert (E : vals c = []) by (unfold vals; by destruct (ctl_records c); [|cbn in Hlen; lia]).
    constructor; try done; cbn; rewrite E; [by exists []|constructor]. }
  cbn [pruneLoop]. destruct (ctl_records c) as [|e l] eqn:El.
  { assert (E : vals c = []) by (unfold vals; by rewrite El). constructor; try done; rewrite E; [by exists []|constructor]. }
  assert (Ev : vals c = el_Value e :: map el_Value l) by (unfold vals; by rewrite El).
  pose proof (ri_good _ _ (ci_recs _ Hc)) as Hg. rewrite Ev in Hg. apply Forall_cons in Hg as [Hg _].
  rewrite (good_time_add _ _ (gr_time _ _ Hg)). unfold Before. destruct (now <? _) eqn:E; bool_hyps.
  - constructor; try done; [by exists []|]. pose proof (ci_sorted _ Hc) as Hs. rewrite Ev in Hs |- *. inversion Hs as [|? ? _ Hall]; subst.
    constructor; [done|]. eapply Forall_impl; [exact Hall|]. unfold time_le. intros; cbn in *; lia.
  - destruct (remove_without c e [] l (ci_addr _ Hc) El) as [latest Hr]. rewrite Hr. cbn [app].
    assert (Hw : CtlInv (without c e l latest)) by (by apply (without_inv c e [] l)).
    destruct (IH (without c e l latest)) as [Hi H1 H2 H3 (d & H4 & H5) H6]; [cbn in *; lia|done|].
    constructor; [done|done|done|done| |done]. exists (el_Value e :: d). split; [|by constructor].
    rewrite Ev. cbn [app]. f_equal. exact H4.
Qed.

Lemma prune_spec c now : CtlInv c -> Pruned now c (prune c now).
Proof. intros. by apply pruneLoop_spec. Qed.

(** ** Adding a record *)

Definition added (c : AdmissionController) (r : admissionRecord) (last : Time) (latest : gmap admissionTokenKey Time) : AdmissionController :=
  let e := mkElement (ctl_allocated c) r in
  mkController (ctl_config c) last (ctl_records c ++ [e]) (<[rkey r := e]> (ctl_attempts c)) (incrementFor tkey r (ctl_tokens c))
    (incrementFor ekey r (ctl_events c)) (incrementFor ukey r (ctl_unknown c)) latest (ctl_persistence c) (S (ctl_allocated c)).

Lemma added_vals c r last latest : vals (added c r last latest) = vals c ++ [r].
Proof. unfold vals. cbn. by rewrite map_app. Qed.

Lemma addRecord_added c r : addRecord c r = (added c r (ctl_lastNow c) (ctl_latest c), mkElement (ctl_allocated c) r).
Proof. unfold addRecord, added, incrementFor, tkey, ekey, ukey, rkey. by destruct (Req_Unknown _). Qed.

Lemma attempts_fresh c k : CtlInv c -> ctl_attempts c !! k = None <-> k ∉ map rkey (vals c).
Proof.
  intros Hc. split.
  - intros Hn Hin. apply list_elem_of_fmap in Hin as (r & -> & Hin). apply list_elem_of_fmap in Hin as (e & -> & Hin).
    assert (Hs : ctl_attempts c !! rkey (el_Value e) = Some e) by (by apply (ci_attempts _ Hc)). congruence.
  - intros Hn. destruct (ctl_attempts c !! k) as [e|] eqn:E; [|done]. apply (ci_attempts _ Hc) in E as [Hin <-].
    destruct Hn. by apply (list_elem_of_fmap_2 rkey), (list_elem_of_fmap_2 el_Value).
Qed.

Lemma sorted_snoc l r : StronglySorted time_le l -> Forall (fun x => time_of x <= time_of r) l -> StronglySorted time_le (l ++ [r]).
Proof.
  induction 1 as [|x l Hs IH Hall]; intros Hl; cbn; [repeat constructor|]. apply Forall_cons in Hl as [Hx Hl].
  constructor; [by apply IH|]. apply Forall_app. split; [done|]. by constructor.
Qed.

Lemma added_inv c r last latest :
  CtlInv c -> RecsInv (ctl_config c) (vals c ++ [r]) -> good_time (ctl_config c) last -> ctl_lastNow c <= last -> time_of r <= last ->
  Forall (fun x => time_of x <= time_of r) (vals c) -> CtlInv (added c r last latest).
Proof.
  intros Hc Hr Hg Hl Ht Hle. pose proof Hc as [H1 H2 H3 H4 H5 H6 H7 H8 H9 H10 H11].
  assert (Hkey : rkey r ∉ map rkey (vals c)).
  { pose proof (ri_keys _ _ Hr) as Hk. rewrite map_app in Hk. apply NoDup_app in Hk as (_ & Hd & _). intros Hin. apply (Hd _ Hin). by left. }
  constructor; rewrite ?added_vals; try done.
  - by apply sorted_snoc.
  - apply Forall_app. split; [|by constructor]. eapply Forall_impl; [exact H4|]. cbn. intros; lia.
  - cbn. rewrite map_app. apply NoDup_app. split; [done|]. split; [|apply NoDup_singleton]. intros a Ha Hs. apply list_elem_of_singleton in Hs as ->.
    apply list_elem_of_fmap in Ha as (e & Ea & Ha). rewrite Forall_forall in H7. specialize (H7 e Ha). cbn in Ea. lia.
  - cbn. apply Forall_app. split; [|constructor; [cbn; lia|constructor]]. eapply Forall_impl; [exact H7|]. cbn. intros; lia.
  - intros k e. cbn [added ctl_attempts ctl_records]. rewrite elem_of_app, list_elem_of_singleton. split.
    + intros [[<- <-]|[Hne Hin]]%lookup_insert_Some; [by split; [right|]|]. apply H8 in Hin as [Hin <-]. by split; [left|].
    + intros [[Hin| ->] <-]; [|apply lookup_insert_eq]. rewrite lookup_insert_ne; [by apply H8|]. intros Heq. apply Hkey. rewrite Heq.
      by apply (list_elem_of_fmap_2 rkey), (list_elem_of_fmap_2 el_Value).
  - eapply rep_increment_below; [apply (co_token _ H1)|apply (ri_tokens _ _ Hr)|done].
  - eapply rep_increment_below; [apply (co_event _ H1)|apply (ri_events _ _ Hr)|done].
  - eapply rep_increment_below; [apply (co_token _ H1)| |done]. intros k. pose proof (occ_unknown (vals c ++ [r]) k). pose proof (ri_tokens _ _ Hr k). lia.
Qed.

End Controller.
End AdmissionInv.
Export AdmissionInv.
