(* ===== verification/AdmissionFile.v ===== *)
(** * The file of the admission controller

    Records are read back as written; a store of good records succeeds unless the
    commit fails; the file a controller wrote opens again, with the same
    configuration only, to a controller with the same records. *)

From S2P Require Import Prelude GoTime Bytes Domain Bolt Admission AdmissionInv.
From Stdlib Require Import Strings.Byte.

Module AdmissionFiles.

Lemma slice_at data offset offset' n x rest :
  at_offset data offset (x ++ rest) -> length x = n -> offset' = offset + Z.of_nat n -> slice data offset n = x /\ at_offset data offset' rest.
Proof. intros H <- ->. destruct (at_offset_slice _ _ _ _ H) as (E & _ & H'). by split. Qed.

Lemma be_value_signed z : - 2 ^ 63 <= z < 2 ^ 63 -> int64_wrap (be_value (be_bytes 8 z)) = z.
Proof.
  intros Hz. rewrite be_value_bytes. change (256 ^ Z.of_nat 8) with (2 ^ 64). change (z mod 2 ^ 64) with (uint64_wrap z).
  rewrite int64_of_uint64_wrap. by apply int64_wrap_id.
Qed.

Lemma be_value_small n z : 0 <= z < 256 ^ Z.of_nat n -> be_value (be_bytes n z) = z.
Proof. intros Hz. rewrite be_value_bytes. by apply Z.mod_small. Qed.

(** Take the next field [E] off the cursor [H]. *)
Ltac next_field H E o n :=
  eapply (slice_at _ _ o n) in H as [E H]; [rewrite E; clear E|rewrite ?length_be_bytes; (done || assumption)|reflexivity].

Lemma decode_encode_record cfg r : config_ok cfg -> good_record cfg r -> decodeAdmissionRecord (encodeAdmissionRecord r) = Ok r.
Proof.
  intros Hc [Ht [Hn Hi Ha Htk Hp He] Hv Ho]. pose proof (good_time_ok _ _ Hc Ht) as Hok. destruct r as [[network incident attempt token parent event unknown observed] t].
  cbn in *. subst observed. assert (Hu : be_value (be_bytes 8 (Unix t)) <> 0).
  { intros Hz. apply (proj2 (proj2 Ht)). rewrite <- (be_value_signed (Unix t)) by apply Unix_range. by rewrite Hz. }
  pose proof (Nanosecond_range t) as Hns. unfold Second in Hns.
  assert (Hs : be_value (be_bytes 4 (Nanosecond t)) = Nanosecond t) by (apply be_value_small; change (256 ^ Z.of_nat 4) with (2 ^ 32); lia).
  unfold decodeAdmissionRecord. set (data := encodeAdmissionRecord _).
  assert (Hlen : len data = 149).
  { unfold len, data, encodeAdmissionRecord. cbn [rec_request rec_admittedAt Req_Network Req_Incident Req_Attempt Req_Token Req_Parent Req_SourceEvent Req_Unknown].
    rewrite !length_app, !length_be_bytes, Hi, Htk, Hp, He. reflexivity. }
  rewrite Hlen. cbn [negb Z.eqb Pos.eqb].
  assert (H : at_offset data 0 data) by (by exists []). revert H. unfold data at 2, encodeAdmissionRecord. cbn [rec_request rec_admittedAt Req_Network Req_Incident Req_Attempt Req_Token Req_Parent Req_SourceEvent Req_Unknown].
  intros H. next_field H E 8 8%nat. next_field H E 40 32%nat. next_field H E 44 4%nat. next_field H E 64 20%nat. next_field H E 96 32%nat.
  next_field H E 128 32%nat. cbn [app] in H. apply at_offset_byte in H as (_ & Eb & H). rewrite Eb. change (128 + 1) with 129 in H.
  next_field H E 137 8%nat.  next_field H E 141 4%nat.
  rewrite be_value_signed by done. rewrite (be_value_small 4 attempt) by exact Ha. rewrite Hs, be_value_signed by apply Unix_range.
  replace (be_value (be_bytes 8 (Unix t)) =? 0) with false by (symmetry; by apply Z.eqb_neq).
  replace (Second <=? Nanosecond t) with false by (symmetry; apply Z.leb_gt; unfold Second; lia).
  rewrite unixTime_Unix by done. by destruct unknown.
Qed.

Lemma encode_key_inj q q' : request_typed q -> request_typed q' -> encodeAdmissionAttemptKey q = encodeAdmissionAttemptKey q' -> attemptKey q = attemptKey q'.
Proof.
  intros [Hn Hi Ha _ _ _] [Hn' Hi' Ha' _ _ _] E. unfold encodeAdmissionAttemptKey in E. split_app E. be_inj.
  unfold attemptKey. congruence.
Qed.

Lemma encode_config_inj cfg cfg' : config_ok cfg -> config_ok cfg' -> encodeAdmissionConfig cfg = encodeAdmissionConfig cfg' -> cfg = cfg'.
Proof.
  intros [? ? ? ? ? ? ?] [? ? ? ? ? ? ?] E. unfold encodeAdmissionConfig in E. split_app E.
  repeat match goal with H : be_bytes _ _ = be_bytes _ _ |- _ =>
    apply be_bytes_inj in H; [|unfold inU; change (8 * Z.of_nat 8) with 64; change (8 * Z.of_nat 4) with 32; lia
                              |unfold inU; change (8 * Z.of_nat 8) with 64; change (8 * Z.of_nat 4) with 32; lia] end.
  destruct cfg, cfg'. cbn in *. congruence.
Qed.

Section File.
Context `{BL : BoltLaws} {SR : RecordSort}.

Definition entry_of (r : admissionRecord) : bytes * bytes := (encodeAdmissionAttemptKey (rec_request r), encodeAdmissionRecord r).

(** The file is bound to the configuration and holds exactly these records. *)
Definition file_holds (cfg : AdmissionConfig) (f : AdmissionFile) (l : list admissionRecord) : Prop :=
  exists meta records, af_meta f = Some meta /\ af_records f = Some records /\
    b_get meta admissionConfigKey = Some (encodeAdmissionConfig cfg) /\ b_entries records ≡ₚ map entry_of l.

Lemma entry_fits cfg r : good_record cfg r -> put_fits (encodeAdmissionAttemptKey (rec_request r)) (encodeAdmissionRecord r).
Proof.
  intros [_ [Hn Hi Ha Htk Hp He] _ _].
  assert (Hl : len (encodeAdmissionAttemptKey (rec_request r)) = 44) by (unfold len, encodeAdmissionAttemptKey; by rewrite !length_app, !length_be_bytes, Hi).
  split; [intros E; rewrite E in Hl; done|]. split; [rewrite Hl; done|].
  assert (Hv : len (encodeAdmissionRecord r) = 149) by (unfold len, encodeAdmissionRecord; cbv zeta; by rewrite !length_app, !length_be_bytes, Hi, Htk, Hp, He).
  by rewrite Hv.
Qed.

Lemma storeRecords_ok cfg es b l :
  RecsInv cfg (l ++ map el_Value es) -> b_entries b ≡ₚ map entry_of l ->
  exists b', foldM storeRecord es b = Ok b' /\ b_entries b' ≡ₚ map entry_of (l ++ map el_Value es).
Proof.
  revert b l. induction es as [|e es IH]; intros b l Hr Hb; cbn [foldM map].
  { exists b. split; [done|]. by rewrite app_nil_r. }
  pose proof (ri_good _ _ Hr) as Hg. apply Forall_app in Hg as [Hgl Hg]. cbn [map] in Hg. apply Forall_cons in Hg as [Hg _].
  destruct (bl_put_fits b _ _ (entry_fits _ _ Hg)) as [b' Hp]. unfold storeRecord. rewrite Hp.
  assert (Eapp : l ++ map el_Value (e :: es) = (l ++ [el_Value e]) ++ map el_Value es) by (by rewrite <- app_assoc).
  destruct (IH b' (l ++ [el_Value e])) as (b'' & E & Hb''); [by rewrite <- Eapp| |exists b''; split; [exact E|]; change (el_Value e :: map el_Value es) with (map el_Value (e :: es)); by rewrite Eapp].
  rewrite (b_entries_put _ _ _ _ Hp), b_entries_absent.
  - rewrite map_app. cbn [map]. rewrite Hb, <- Permutation_cons_append. done.
  - destruct (b_get b (encodeAdmissionAttemptKey (rec_request (el_Value e)))) as [v|] eqn:E; [|done]. exfalso.
    apply bl_entries_get in E. rewrite Hb in E. apply list_elem_of_fmap in E as (r & Er & Hin). apply (f_equal fst) in Er.
    pose proof (ri_keys _ _ Hr) as Hk. rewrite map_app in Hk. apply NoDup_app in Hk as (_ & Hd & _).
    apply (Hd (rkey r)); [by apply (list_elem_of_fmap_2 rkey)|]. cbn [map]. apply elem_of_cons. left.
    rewrite Forall_forall in Hgl. symmetry. apply encode_key_inj; [apply Hg|apply (Hgl _ Hin)|exact Er].
Qed.

Lemma Store_spec cfg fails es f l0 :
  RecsInv cfg (map el_Value es) -> file_holds cfg f l0 ->
  exists f', Store fails es f = (f', if fails then Err ErrStorage else Ok tt) /\ file_holds cfg f' (if fails then l0 else map el_Value es).
Proof.
  intros Hr (meta & records & Hm & Hrs & Hcfg & He). unfold Store, db_update.
  destruct (storeRecords_ok cfg es b_empty []) as (b' & E & Hb'); [done|by rewrite b_entries_empty|]. rewrite E.
  destruct fails; eexists; (split; [reflexivity|]); [by exists meta, records|by exists meta, b'].
Qed.

Lemma empty_controller_inv cfg f : config_ok cfg -> time_ok (Window cfg) -> CtlInv (mkController cfg zeroTime [] ∅ ∅ ∅ ∅ ∅ f 0).
Proof.
  intros Hc Hw. pose proof Hc as [? ? ? ? ? ? ?]. constructor; [done| | | | | | | |apply rep_nil..]; cbn; try constructor.
  - constructor.
  - constructor.
  - cbn. lia.
  - cbn. lia.
  - change (unknownTokens []) with (∅ : gset admissionTokenKey). rewrite size_empty. lia.
  - cbn. lia.
  - done.
  - split; [by rewrite Z.add_0_l|]. by vm_compute.
  - by rewrite lookup_empty.
  - intros [Hin _]. by apply elem_of_nil in Hin.
Qed.

Lemma decode_entries cfg entries l acc :
  config_ok cfg -> Forall (good_record cfg) l -> entries = map entry_of l ->
  foldM (fun records '(_, value) => let! record := decodeAdmissionRecord value in Ok (records ++ [record])) entries acc = Ok (acc ++ l).
Proof.
  intros Hc Hg ->. revert acc. induction Hg as [|r l Hr Hg IH]; intros acc; cbn [map foldM entry_of]; [by rewrite app_nil_r|].
  rewrite (decode_encode_record _ _ Hc Hr), IH, <- app_assoc. done.
Qed.

Lemma loadRecords_ok cfg cfg' f l :
  config_ok cfg -> Forall (good_record cfg) l -> file_holds cfg f l ->
  (forall r, loadRecords cfg' f = Ok r -> encodeAdmissionConfig cfg = encodeAdmissionConfig cfg') /\
  exists l', loadRecords cfg f = Ok l' /\ l' ≡ₚ l.
Proof.
  intros Hc Hg (meta & records & Hm & Hrs & Hcfg & He). unfold loadRecords. rewrite Hm, Hrs, Hcfg. split.
  - intros r. destruct (negb _) eqn:E; [done|]. intros _. by apply negb_false_iff, bytes_eqb_spec in E.
  - rewrite bytes_eqb_refl. cbn [negb]. destruct (Permutation_map_inv _ _ He) as (l' & El' & Hp). exists l'.
    split; [|by symmetry]. rewrite (decode_entries cfg _ l'); [done|done|by rewrite <- Hp|done].
Qed.

Lemma sorted_before l1 r l2 : StronglySorted time_le (l1 ++ r :: l2) -> Forall (fun x => time_of x <= time_of r) l1.
Proof.
  induction l1 as [|x l1 IH]; cbn; [constructor|]. intros Hs. inversion Hs as [|? ? Hs' Hall]; subst. constructor; [|by apply IH].
  apply Forall_app in Hall as [_ Hall]. by apply Forall_cons in Hall as [? _].
Qed.

(** One record restored: the record is added, and the time moves up to it. *)
Lemma restoreRecord_ok c r :
  CtlInv c -> RecsInv (ctl_config c) (vals c ++ [r]) -> Forall (fun x => time_of x <= time_of r) (vals c) ->
  exists latest, restoreRecord c r = Ok (added c r (Z.max (ctl_lastNow c) (time_of r)) latest).
Proof.
  intros Hc Hr Hle. pose proof (ri_good _ _ Hr) as Hg. apply Forall_app in Hg as [_ Hg]. apply Forall_cons in Hg as [[_ _ Hv _] _].
  unfold restoreRecord. rewrite Hv. cbn [negb]. rewrite bool_decide_eq_false_2.
  2:{ change (attemptKey (rec_request r)) with (rkey r). apply eq_None_not_Some, attempts_fresh; [done|]. pose proof (ri_keys _ _ Hr) as Hk.
      rewrite map_app in Hk. apply NoDup_app in Hk as (_ & Hd & _). intros Hin. apply (Hd _ Hin). by left. }
  rewrite addRecord_added. cbn [fst]. unfold After. destruct (_ && _); cbn [ctl_lastNow added set_latest set_lastNow];
    (destruct (ctl_lastNow c <? time_of r) eqn:E; bool_hyps; [rewrite Z.max_r by lia|rewrite Z.max_l by lia]; eexists; reflexivity).
Qed.

Lemma restore_ok l c :
  CtlInv c -> RecsInv (ctl_config c) (vals c ++ l) -> StronglySorted time_le (vals c ++ l) ->
  exists c', foldM restoreRecord l c = Ok c' /\ CtlInv c' /\ vals c' = vals c ++ l /\ ctl_config c' = ctl_config c /\
    forall t, ctl_lastNow c <= t -> Forall (fun r => time_of r <= t) l -> ctl_lastNow c' <= t.
Proof.
  revert c. induction l as [|r l IH]; intros c Hc Hr Hs; cbn [foldM].
  { exists c. rewrite app_nil_r. by split_and!. }
  assert (Eapp : vals c ++ r :: l = (vals c ++ [r]) ++ l) by (by rewrite <- app_assoc).
  assert (Hr1 : RecsInv (ctl_config c) (vals c ++ [r])) by (eapply RecsInv_sublist; [|exact Hr]; rewrite Eapp; apply sublist_inserts_r; done).
  pose proof (sorted_before _ _ _ Hs) as Hle. destruct (restoreRecord_ok c r Hc Hr1 Hle) as [latest E]. rewrite E.
  set (c1 := added c r (Z.max (ctl_lastNow c) (time_of r)) latest).
  assert (Hg : good_record (ctl_config c) r) by (pose proof (ri_good _ _ Hr1) as Hg; apply Forall_app in Hg as [_ Hg]; by apply Forall_cons in Hg as [? _]).
  assert (Hc1 : CtlInv c1).
  { apply added_inv; [done|done| |lia|lia|done].
    destruct (Z.max_spec (ctl_lastNow c) (time_of r)) as [[_ ->]|[_ ->]]; [apply Hg|apply (ci_now _ Hc)]. }
  assert (Ev : vals c1 = vals c ++ [r]) by apply added_vals.
  destruct (IH c1) as (c' & E' & Hc' & Ev' & Ecfg & Ht); [done|by rewrite Ev, <- Eapp|by rewrite Ev, <- Eapp|].
  exists c'. split; [done|]. split; [done|]. split; [by rewrite Ev', Ev, Eapp|]. split; [done|].
  intros t Hl Hall. apply Forall_cons in Hall as [Hrt Hall]. apply Ht; [cbn; lia|done].
Qed.

(** Options as the Go types hold them. *)
Record config_typed (config : AdmissionConfig) : Prop := {
  ct_window : Window config < 2 ^ 63;
  ct_limit : inU 32 (RateLimit config);
  ct_token : inU 32 (MaxAttemptsPerToken config);
  ct_event : inU 32 (MaxAttemptsPerSourceEvent config);
  ct_unknown : inU 32 (MaxNewUnknownTokens config);
  ct_capacity : Capacity config < 2 ^ 63 }.

Lemma NewAdmissionController_config config nil c :
  config_typed config -> NewAdmissionController config nil = Ok c ->
  config_ok (ctl_config c) /\ c = mkController (ctl_config c) zeroTime [] ∅ ∅ ∅ ∅ ∅ None 0.
Proof.
  intros [? ? ? ? ? ?]. unfold NewAdmissionController. cbv zeta. ok E. intros [= <-]. split; [|reflexivity]. bool_hyps. cbn [ctl_config].
  unfold inU in *. destruct (RateWindow config =? 0) eqn:Er; constructor; cbn in *; bool_hyps; lia.
Qed.

(** ** Opening *)

(** A new file: an empty controller bound to it. *)
Lemma open_created env config nil c :
  config_typed config -> ae_path env = Some true -> OpenAdmissionController env config nil = Ok c ->
  exists f, c = mkController (ctl_config c) zeroTime [] ∅ ∅ ∅ ∅ ∅ (Some f) 0 /\ config_ok (ctl_config c) /\ file_holds (ctl_config c) f [].
Proof.
  intros Ht Hp. unfold OpenAdmissionController. destruct (NewAdmissionController config nil) as [c0|] eqn:En; [|done]. cbn [errOr].
  destruct (NewAdmissionController_config _ _ _ Ht En) as [Hcfg Hc0]. set (cfg := ctl_config c0) in *.
  ok. ok. rewrite Hp. ok Ef. ok Ec. destruct a0 as [f records]. ok. ok Er. intros [= <-].
  revert Ec. unfold db_update, createFile. destruct (af_meta a) eqn:?, (af_records a) eqn:?; try done.
  destruct (b_put b_empty _ _) as [meta|] eqn:Em; [|done]. destruct (ae_commitFails env); [done|]. intros [= <- <-].
  assert (Es : sortRecords ([] : list admissionRecord) = []) by (apply Permutation_nil; symmetry; apply sortRecords_perm).
  rewrite Es in Er. injection Er as <-. exists (mkAdmissionFile (Some meta) (Some b_empty)). rewrite Hc0. cbn. split; [done|]. split; [done|].
  exists meta, b_empty. split; [done|]. split; [done|]. split; [by apply b_get_put_eq in Em|]. by rewrite b_entries_empty.
Qed.

(** A file a controller left: only the same configuration opens it, and the
    records are the same, up to the order of equal times. *)
Lemma open_existing env config nil c cfg f l :
  config_typed config -> config_ok cfg -> time_ok (Window cfg) -> RecsInv cfg l -> file_holds cfg f l ->
  ae_path env = Some false -> ae_open env = Some f -> OpenAdmissionController env config nil = Ok c ->
  CtlInv c /\ ctl_config c = cfg /\ vals c ≡ₚ l /\ ctl_persistence c = Some f /\
  (forall t, 0 <= t -> Forall (fun r => time_of r <= t) l -> ctl_lastNow c <= t).
Proof.
  intros Ht Hok Hw Hr Hf Hp Ho. unfold OpenAdmissionController. destruct (NewAdmissionController config nil) as [c0|] eqn:En; [|done]. cbn [errOr].
  destruct (NewAdmissionController_config _ _ _ Ht En) as [Hcfg Hc0].
  ok. ok. rewrite Hp, Ho. ok Ec. destruct a as [f' records]. ok. ok Er. intros [= <-].
  destruct (loadRecords_ok cfg (ctl_config c0) f l Hok (ri_good _ _ Hr) Hf) as [Hsame (l' & El & Hl')].
  destruct (loadRecords (ctl_config c0) f) as [records'|] eqn:Eload; [|done]. injection Ec as <- <-.
  assert (Eq : ctl_config c0 = cfg) by (symmetry; apply encode_config_inj; [done|done|by eapply Hsame]). rewrite Eq in *.
  rewrite Eload in El. injection El as <-. assert (Hp' : sortRecords records' ≡ₚ l) by (by rewrite sortRecords_perm).
  assert (Hv0 : vals c0 = []) by (by rewrite Hc0). assert (Hi0 : CtlInv c0) by (rewrite Hc0; by apply empty_controller_inv).
  destruct (restore_ok (sortRecords records') c0) as (c' & Ec' & Hi' & Ev & Ecfg & Hlast);
    [done|rewrite Eq, Hv0; by eapply RecsInv_perm|rewrite Hv0; apply sortRecords_sorted|].
  rewrite Ec' in Er. injection Er as <-. split; [eapply CtlInv_same; [|exact Hi']; done|]. split; [by rewrite <- Eq, <- Ecfg|].
  split; [unfold vals in *; cbn; rewrite Ev; by rewrite Hc0|]. split; [done|].
  intros t H0 Hall. cbn. apply Hlast; [by rewrite Hc0|]. by rewrite Hp'.
Qed.

End File.
End AdmissionFiles.
Export AdmissionFiles.
