(* ===== verification/AdmissionTheorems.v ===== *)
(** * What the admission controller guarantees

    A system state is a controller, the history of the attempts it admitted over
    its whole life, restarts included, the latest time it used and the file a
    closed controller left.  The history obeys every limit in every window, and
    every decision is the one a limiter that kept the whole history would make,
    as long as the first call after a restart does not use a time before the
    latest its predecessor used: the file does not hold that time, and a clock set
    back across a restart escapes the limits ([clock_set_back_across_a_restart]). *)

From S2P Require Import Prelude GoTime Bytes Domain Bolt Admission AdmissionInv AdmissionFile.
From Stdlib Require Import Strings.Byte.

Module AdmissionTheorems.

(** ** Windows of the history *)

Definition within (w : Duration) (t : Time) (h : list admissionRecord) : list admissionRecord :=
  filter (fun r => t - w < time_of r <= t) h.

(** The limits, in every window. *)
Record Limits (cfg : AdmissionConfig) (h : list admissionRecord) : Prop := {
  lim_rate t : Z.of_nat (length (within (RateWindow cfg) t h)) <= RateLimit cfg;
  lim_tokens t k : Z.of_nat (occ tkey (within (Window cfg) t h) k) <= MaxAttemptsPerToken cfg;
  lim_events t k : Z.of_nat (occ ekey (within (Window cfg) t h) k) <= MaxAttemptsPerSourceEvent cfg;
  lim_unknown t : Z.of_nat (size (unknownTokens (within (Window cfg) t h))) <= MaxNewUnknownTokens cfg }.

Lemma filter_sublist (P Q : admissionRecord -> Prop) `{!forall x, Decision (P x), !forall x, Decision (Q x)} l :
  (forall x, x ∈ l -> P x -> Q x) -> sublist (filter P l) (filter Q l).
Proof.
  induction l as [|x l IH]; intros Hpq; [done|]. rewrite !filter_cons. assert (IH' : sublist (filter P l) (filter Q l)) by (apply IH; intros; apply Hpq; [by right|done]).
  destruct (decide (P x)) as [Hp|]; [rewrite decide_True by (apply Hpq; [by left|done]); by constructor|]. case_decide; [by constructor|done].
Qed.

Lemma filter_same (P Q : admissionRecord -> Prop) `{!forall x, Decision (P x), !forall x, Decision (Q x)} l :
  Forall (fun x => P x <-> Q x) l -> filter P l = filter Q l.
Proof.
  induction 1 as [|x l Hx Hl IH]; [done|]. rewrite !filter_cons, IH.
  destruct (decide (P x)), (decide (Q x)); tauto || done.
Qed.

Lemma filter_none (P : admissionRecord -> Prop) `{!forall x, Decision (P x)} l : Forall (fun x => ~ P x) l -> filter P l = [].
Proof. induction 1 as [|x l Hx Hl IH]; [done|]. by rewrite filter_cons_False. Qed.

Lemma within_snoc w t h r :
  Forall (fun x => time_of x <= time_of r) h ->
  within w t (h ++ [r]) = within w t h \/ sublist (within w t (h ++ [r])) (within w (time_of r) (h ++ [r])).
Proof.
  intros Hle. destruct (Z.lt_ge_cases t (time_of r)).
  - left. unfold within. rewrite filter_app, filter_cons_False, app_nil_r by lia. done.
  - right. apply filter_sublist. intros x [Hx| ->%list_elem_of_singleton]%elem_of_app Ht; [|lia].
    rewrite Forall_forall in Hle. specialize (Hle x Hx). lia.
Qed.

Lemma Limits_snoc cfg h r :
  Limits cfg h -> Forall (fun x => time_of x <= time_of r) h -> RecsInv cfg (within (Window cfg) (time_of r) (h ++ [r])) ->
  Z.of_nat (length (within (RateWindow cfg) (time_of r) (h ++ [r]))) <= RateLimit cfg -> Limits cfg (h ++ [r]).
Proof.
  intros [H1 H2 H3 H4] Hle [_ _ Ht He Hu _] Hr. constructor.
  - intros t. destruct (within_snoc (RateWindow cfg) t h r Hle) as [->|Hs]; [done|]. pose proof (sublist_length _ _ Hs). lia.
  - intros t k. destruct (within_snoc (Window cfg) t h r Hle) as [->|Hs]; [done|]. pose proof (occ_sublist tkey _ _ k Hs). specialize (Ht k). lia.
  - intros t k. destruct (within_snoc (Window cfg) t h r Hle) as [->|Hs]; [done|]. pose proof (occ_sublist ekey _ _ k Hs). specialize (He k). lia.
  - intros t. destruct (within_snoc (Window cfg) t h r Hle) as [->|Hs]; [done|].
    pose proof (subseteq_size _ _ (unknownTokens_sublist _ _ Hs)). lia.
Qed.

Lemma Limits_nil cfg : config_ok cfg -> Limits cfg [].
Proof. intros [? ? ? ? ? ? ?]. constructor; intros; cbn; try lia. change (unknownTokens _) with (∅ : gset admissionTokenKey). rewrite size_empty. lia. Qed.

(** ** Records that cover the history

    Some records are those of the history that were not expired at a moment up to
    [mark]. *)
Definition live (cfg : AdmissionConfig) (t : Time) (h : list admissionRecord) : list admissionRecord :=
  filter (fun r => t < time_of r + Window cfg) h.

Definition covers (cfg : AdmissionConfig) (mark : Time) (h l : list admissionRecord) : Prop :=
  exists m, m <= mark /\ l ≡ₚ live cfg m h.

Lemma covers_mono cfg mark mark' h l : mark <= mark' -> covers cfg mark h l -> covers cfg mark' h l.
Proof. intros Hm (m & Hle & Hp). exists m. split; [lia|done]. Qed.

Lemma live_live cfg m t h : m <= t -> live cfg t (live cfg m h) = live cfg t h.
Proof.
  intros Hm. unfold live. induction h as [|x h IH]; [done|]. rewrite !(filter_cons _ x). destruct (decide (m < _)).
  - rewrite filter_cons. case_decide; by rewrite IH.
  - rewrite IH, decide_False by lia. done.
Qed.

(** After pruning at [now] the records are the live ones. *)
Lemma covers_live cfg mark now h l : mark <= now -> covers cfg mark h l -> live cfg now l ≡ₚ live cfg now h.
Proof. intros Hm (m & Hle & Hp). unfold live at 1. rewrite Hp. by rewrite <- (live_live cfg m now h) by lia. Qed.

Lemma live_within cfg now h : Forall (fun x => time_of x <= now) h -> within (Window cfg) now h = live cfg now h.
Proof.
  intros Hle. unfold within, live. apply filter_same. eapply Forall_impl; [exact Hle|]. cbn. lia.
Qed.

Lemma live_snoc cfg now h r : 0 < Window cfg -> time_of r = now -> live cfg now (h ++ [r]) = live cfg now h ++ [r].
Proof. intros Hw Hr. unfold live. rewrite filter_app, filter_cons_True by lia. done. Qed.

(** ** The system *)

Section System.
Context `{BL : BoltLaws} {SR : RecordSort}.

Record Sys := mkSys {
  sys_ctl : AdmissionController;
  sys_history : list admissionRecord;
  sys_mark : Time;
  sys_closed : option AdmissionFile }.

(** The time a call uses, and the controller it works on after pruning. *)
Definition effective (c : AdmissionController) (now : Time) : Time := fst (advance c now).
Definition pruned (c : AdmissionController) (now : Time) : AdmissionController := prune (snd (advance c now)) (effective c now).

(** The record of an attempt that is allowed and is not one admitted before. *)
Definition newlyAdmitted (c : AdmissionController) (request : AdmissionRequest) (call : AdmitCall) : list admissionRecord :=
  if Dec_Allowed (fst (snd (Admit c request call))) && bool_decide (ctl_attempts (pruned c (ac_now call)) !! attemptKey request = None)
  then [mkAdmissionRecord (clear_observed request) (effective c (ac_now call))] else [].

(** A call of [Admit] uses a time, and moves the latest time the controller
    knows, unless the request is refused for its skew. *)
Definition usesTime (request : AdmissionRequest) (call : AdmitCall) : bool := negb (skewed (Req_ObservedAt request) (ac_now call)).

(** The file a new process opens: the one attached, or the one [Close] left
    while no attempt has been admitted without it. *)
Definition onDisk (s : Sys) : option AdmissionFile :=
  match ctl_persistence (sys_ctl s) with Some f => Some f | None => sys_closed s end.
Definition keepClosed (closed : option AdmissionFile) (admitted : list admissionRecord) : option AdmissionFile :=
  match admitted with [] => closed | _ => None end.

(** While a process runs its clock may go back: the effective time is never
    before the latest one it used.  After a restart the latest time is only known
    from the records of the file, so the calls there need a clock that has
    reached the mark again. *)
Inductive admission_step : Sys -> Sys -> Prop :=
| step_admit c h mark closed request call :
    request_typed request -> good_time (ctl_config c) (ac_now call) ->
    (usesTime request call = true -> mark <= effective c (ac_now call)) ->
    admission_step (mkSys c h mark closed)
      (mkSys (fst (Admit c request call)) (h ++ newlyAdmitted c request call)
         (if usesTime request call then effective c (ac_now call) else mark) (keepClosed closed (newlyAdmitted c request call)))
| step_tracked c h mark closed now :
    good_time (ctl_config c) now -> mark <= effective c now ->
    admission_step (mkSys c h mark closed) (mkSys (fst (TrackedAttempts c now)) h (effective c now) closed)
| step_close c h mark closed fails :
    admission_step (mkSys c h mark closed) (mkSys (fst (Close c fails)) h mark (onDisk (mkSys c h mark closed)))
| step_restart c h mark closed f env config nil c' :
    onDisk (mkSys c h mark closed) = Some f -> config_typed config -> ae_path env = Some false -> ae_open env = Some f ->
    OpenAdmissionController env config nil = Ok c' -> admission_step (mkSys c h mark closed) (mkSys c' h mark None).

Inductive admission_reachable : Sys -> Prop :=
| reach_memory config nil c :
    config_typed config -> NewAdmissionController config nil = Ok c -> admission_reachable (mkSys c [] zeroTime None)
| reach_created config nil env c :
    config_typed config -> ae_path env = Some true -> OpenAdmissionController env config nil = Ok c ->
    admission_reachable (mkSys c [] zeroTime None)
| reach_step s s' : admission_reachable s -> admission_step s s' -> admission_reachable s'.

(** ** The invariant *)

Definition FileInv (cfg : AdmissionConfig) (mark : Time) (h : list admissionRecord) (p : option AdmissionFile) : Prop :=
  match p with None => True | Some f => exists l, file_holds cfg f l /\ RecsInv cfg l /\ covers cfg mark h l end.

Record SysInv (s : Sys) : Prop := {
  si_ctl : CtlInv (sys_ctl s);
  si_room : time_ok (Window (ctl_config (sys_ctl s)));
  si_mark : 0 <= sys_mark s;
  si_last : ctl_lastNow (sys_ctl s) <= sys_mark s;
  si_past : Forall (fun r => time_of r <= sys_mark s) (sys_history s);
  si_covers : covers (ctl_config (sys_ctl s)) (sys_mark s) (sys_history s) (vals (sys_ctl s));
  si_file : FileInv (ctl_config (sys_ctl s)) (sys_mark s) (sys_history s) (ctl_persistence (sys_ctl s));
  si_closed : FileInv (ctl_config (sys_ctl s)) (sys_mark s) (sys_history s) (sys_closed s);
  si_limits : Limits (ctl_config (sys_ctl s)) (sys_history s) }.

Lemma FileInv_mono cfg mark mark' h p : mark <= mark' -> FileInv cfg mark h p -> FileInv cfg mark' h p.
Proof. intros Hm. destruct p as [f|]; [|done]. intros (l & ? & ? & ?). exists l. split; [done|]. split; [done|]. by eapply covers_mono. Qed.

(** The records of the file, where there is one. *)
Lemma FileInv_list cfg mark h p :
  FileInv cfg mark h p -> exists l0, (forall f, p = Some f -> file_holds cfg f l0) /\ (p <> None -> RecsInv cfg l0 /\ covers cfg mark h l0).
Proof.
  destruct p as [f|]; [|by exists []]. intros (l & Hl & Hr & Hcv). exists l. split; [by intros ? [= <-]|done].
Qed.

Lemma advance_eq c now : advance c now = (Z.max (ctl_lastNow c) now, set_lastNow c (Z.max (ctl_lastNow c) now)).
Proof.
  unfold advance, Before. destruct (now <? ctl_lastNow c) eqn:E; bool_hyps; [rewrite Z.max_l by lia; by destruct c|by rewrite Z.max_r by lia].
Qed.

Lemma set_lastNow_inv c now : CtlInv c -> good_time (ctl_config c) now -> ctl_lastNow c <= now -> CtlInv (set_lastNow c now).
Proof.
  intros [H1 H2 H3 H4 H5 H6 H7 H8 H9 H10 H11] Hg Hle. constructor; try done.
  eapply Forall_impl; [exact H4|]. cbn. intros; lia.
Qed.

(** Advancing and pruning leave exactly the live part of the history. *)
Record PrunedAt (now : Time) (h : list admissionRecord) (c c' : AdmissionController) : Prop := {
  pa_inv : CtlInv c';
  pa_config : ctl_config c' = ctl_config c;
  pa_last : ctl_lastNow c' = now;
  pa_file : ctl_persistence c' = ctl_persistence c;
  pa_live : vals c' ≡ₚ live (ctl_config c) now h }.

Lemma pruned_spec c h mark now :
  CtlInv c -> good_time (ctl_config c) now -> mark <= effective c now -> covers (ctl_config c) mark h (vals c) ->
  PrunedAt (effective c now) h c (pruned c now).
Proof.
  intros Hc Hg Hm Hcov. unfold pruned, effective in *. rewrite advance_eq in *. cbn [fst snd] in *. set (t := Z.max (ctl_lastNow c) now) in *.
  assert (Ht : good_time (ctl_config c) t) by (subst t; destruct (Z.max_spec (ctl_lastNow c) now) as [[_ ->]|[_ ->]]; [done|apply (ci_now _ Hc)]).
  destruct (prune_spec (set_lastNow c t) t) as [H1 H2 H3 H4 (d & H5 & H6) H7]; [apply set_lastNow_inv; [done|done|subst t; lia]|].
  constructor; [done|done|done|done|]. rewrite <- (covers_live _ mark t h _ Hm Hcov). change (vals c) with (vals (set_lastNow c t)).
  unfold live. rewrite H5, filter_app. replace (filter _ d) with ([] : list admissionRecord).
  - cbn [app]. rewrite filter_all; [done|]. by apply Forall_forall.
  - symmetry. apply filter_none. eapply Forall_impl; [exact H6|]. cbn. intros; lia.
Qed.

Lemma persist_spec c fails l0 :
  CtlInv c -> (forall f, ctl_persistence c = Some f -> file_holds (ctl_config c) f l0) ->
  exists c' stored, persist c fails = (c', stored) /\ same_records c c' /\
    match ctl_persistence c' with
    | None => ctl_persistence c = None /\ stored = true
    | Some f' => file_holds (ctl_config c) f' (if stored then vals c else l0)
    end /\ (fails = false -> stored = true).
Proof.
  intros Hc Hf. unfold persist. destruct (ctl_persistence c) as [f|] eqn:Ep; [|by exists c, true; rewrite Ep].
  destruct (Store_spec (ctl_config c) fails (ctl_records c) f l0 (ci_recs _ Hc) (Hf f eq_refl)) as (f' & E & Hh).
  rewrite E. exists (set_persistence c (Some f')), (negb fails). cbn. destruct fails; by split_and!.
Qed.

(** ** The limit checks *)

Lemma rateCutoff cfg t : config_ok cfg -> good_time cfg t -> Add t (- RateWindow cfg) = t - RateWindow cfg.
Proof.
  intros Hc Ht. rewrite Add_exact; [lia|]. pose proof (co_rate _ Hc). pose proof (co_window _ Hc). pose proof (proj1 Ht).
  apply (time_ok_between (- 2 ^ 63) t); [by vm_compute|by eapply good_time_ok|lia].
Qed.

Lemma sorted_prefix l1 l2 : StronglySorted time_le (l1 ++ l2) -> StronglySorted time_le l1.
Proof.
  induction l1 as [|x l1 IH]; cbn; [constructor|]. intros Hs. inversion Hs as [|y l Hs' Ha]; subst.
  constructor; [by apply IH|by apply Forall_app in Ha as [? _]].
Qed.

Lemma countAfter_rev es cutoff :
  StronglySorted time_le (map el_Value es) ->
  countAfter (rev es) cutoff = Z.of_nat (length (filter (fun r => cutoff < time_of r) (map el_Value es))).
Proof.
  induction es as [|e es IH] using rev_ind; [done|]. intros Hs. rewrite rev_app_distr, map_app. cbn [rev app map countAfter].
  rewrite map_app in Hs. pose proof (sorted_before _ _ _ Hs) as Hb. unfold After. rewrite filter_app, length_app.
  destruct (cutoff <? time_of (el_Value e)) eqn:E; cbn [negb]; bool_hyps.
  - rewrite IH, filter_cons_True by (done || by eapply sorted_prefix). cbn. lia.
  - rewrite filter_cons_False by lia. rewrite filter_none; [done|]. eapply Forall_impl; [exact Hb|]. cbn. intros; lia.
Qed.

(** The controller counts what the history has in the rate window. *)
Lemma rateCount_within c h now :
  CtlInv c -> ctl_lastNow c = now -> vals c ≡ₚ live (ctl_config c) now h -> Forall (fun r => time_of r <= now) h ->
  rateCount c now = Z.of_nat (length (within (RateWindow (ctl_config c)) now h)).
Proof.
  intros Hc Hn Hl Hp. unfold rateCount. rewrite rateCutoff; [|apply Hc|rewrite <- Hn; apply Hc]. rewrite countAfter_rev by apply Hc. f_equal.
  change (map el_Value (ctl_records c)) with (vals c). rewrite Hl. f_equal. unfold within, live.
  pose proof (co_rate _ (ci_config _ Hc)). clear Hl. induction Hp as [|x h Hx Hp IH]; [done|]. rewrite !(filter_cons _ x).
  destruct (decide (now < _)); [rewrite filter_cons|]; repeat case_decide; rewrite ?IH; try done; lia.
Qed.

Lemma limitCheck_none c q now :
  CtlInv c -> ctl_lastNow c = now -> limitCheck c q now = None -> request_typed q -> validAdmissionRequest q = true ->
  Req_ObservedAt q = zeroTime -> ctl_attempts c !! attemptKey q = None ->
  RecsInv (ctl_config c) (vals c ++ [mkAdmissionRecord q now]) /\ rateCount c now < RateLimit (ctl_config c).
Proof.
  intros Hc Hn Hl Hq Hv Ho Hk. pose proof (ci_recs _ Hc) as [Hg Hkeys Ht He Hu Hcap]. revert Hl. unfold limitCheck.
  rewrite (count_of_rep _ _ _ _ (ci_tokens _ Hc)), (count_of_rep _ _ _ _ (ci_events _ Hc)), (count_of_rep _ _ _ _ (ci_unknown _ Hc)), (rep_size _ _ (ci_unknown _ Hc)).
  destruct (_ <=? rateCount c now) eqn:E1; [done|]. destruct (_ <=? Z.of_nat (occ tkey _ _)) eqn:E2; [done|].
  destruct (_ <=? Z.of_nat (occ ekey _ _)) eqn:E3; [done|]. destruct (Req_Unknown q && _ && _) eqn:E4; [done|].
  destruct (_ <=? Z.of_nat (length _)) eqn:E5; [done|]. intros _. bool_hyps. split; [|done]. constructor.
  - apply Forall_app. split; [done|]. constructor; [|constructor]. constructor; [rewrite <- Hn; apply Hc|done|done|done].
  - rewrite map_app. apply NoDup_app. split; [done|]. split; [|apply NoDup_singleton]. intros k Hin ->%list_elem_of_singleton.
    by apply (attempts_fresh c _ Hc) in Hk.
  - intros k. rewrite occ_app, occ_cons, occ_nil. specialize (Ht k). case_decide as Ek; [|lia]. injection Ek as <-. cbn [rec_request]. lia.
  - intros k. rewrite occ_app, occ_cons, occ_nil. specialize (He k). case_decide as Ek; [|lia]. injection Ek as <-. cbn [rec_request]. lia.
  - rewrite unknownTokens_app. set (X := unknownTokens (vals c)) in *. unfold unknownTokens at 1, ukey. cbn [omap list_omap rec_request].
    destruct (Req_Unknown q); cbn [andb list_to_set] in *; [|rewrite union_empty_r_L; exact Hu]. rewrite union_empty_r_L.
    destruct (decide (occ ukey (vals c) (tokenKey q) = 0%nat)) as [Ez|Ez].
    + rewrite Ez in E4. cbn in E4. apply Z.leb_gt in E4. pose proof (size_union_alt X {[tokenKey q]}) as Hs. rewrite Hs.
      pose proof (subseteq_size ({[tokenKey q]} ∖ X) {[tokenKey q]} ltac:(set_solver)) as Hs2. rewrite size_singleton in Hs2. lia.
    + apply unknownTokens_in in Ez. replace (X ∪ {[tokenKey q]}) with X; [exact Hu|]. apply leibniz_equiv. set_solver.
  - rewrite length_app. cbn. unfold vals. rewrite length_map. lia.
Qed.

(** ** Admitting *)

(** A controller pruned at [now], with its file, as part of the system. *)
Record Ready (cfg : AdmissionConfig) (h : list admissionRecord) (now : Time) (c : AdmissionController) : Prop := {
  rd_inv : CtlInv c;
  rd_config : ctl_config c = cfg;
  rd_last : ctl_lastNow c = now;
  rd_live : vals c ≡ₚ live cfg now h;
  rd_file : FileInv cfg now h (ctl_persistence c) }.

Lemma Ready_sys cfg h now c closed :
  time_ok (Window cfg) -> Forall (fun r => time_of r <= now) h -> Limits cfg h -> FileInv cfg now h closed -> Ready cfg h now c ->
  SysInv (mkSys c h now closed).
Proof.
  intros Hw Hp Hl Hcl [Hi <- Hn Hlive Hf]. constructor; cbn; try done.
  - rewrite <- Hn. apply (ci_now _ Hi).
  - lia.
  - exists now. split; [lia|done].
Qed.

(** The first store after pruning. *)
Lemma prune_ready c h mark closed now fails :
  SysInv (mkSys c h mark closed) -> good_time (ctl_config c) now -> mark <= effective c now ->
  exists c' stored, persist (pruned c now) fails = (c', stored) /\ Ready (ctl_config c) h (effective c now) c' /\
    same_records (pruned c now) c' /\ (fails = false -> stored = true).
Proof.
  intros [Hc Hw H0 Hlast Hp Hcov Hf _ _] Hg Hm. cbn in *. destruct (pruned_spec c h mark now Hc Hg Hm Hcov) as [H1 H2 H3 H4 H5].
  apply (FileInv_mono _ _ _ _ _ Hm) in Hf.
  destruct (FileInv_list _ _ _ _ Hf) as (l0 & Hl0 & Hinv0). rewrite <- H4 in Hl0. rewrite <- H2 in Hl0.
  destruct (persist_spec _ fails l0 H1 Hl0) as (c' & stored & E & Hs & Hfile & Hok).
  exists c', stored. split; [done|]. split; [|done]. pose proof Hs as [S1 S2 S3 S4 S5 S6 S7 S8].
  assert (Ev : vals c' = vals (pruned c now)) by (unfold vals; by rewrite S3).
  constructor; [by eapply CtlInv_same|congruence|congruence|by rewrite Ev|]. unfold FileInv.
  destruct (ctl_persistence c') as [f'|] eqn:Ef'; [|done]. rewrite H2 in Hfile. destruct stored.
  - exists (vals (pruned c now)). split; [done|]. split; [rewrite <- H2; apply H1|]. exists (effective c now). split; [lia|done].
  - exists l0. split; [done|]. apply Hinv0. intros Hnone. revert E. unfold persist. rewrite H4, Hnone. discriminate.
Qed.

(** A new record within the limits keeps them, and the records stay the live ones. *)
Lemma admitted_limits cfg h now c r :
  Ready cfg h now c -> Forall (fun x => time_of x <= now) h -> Limits cfg h -> time_of r = now -> RecsInv cfg (vals c ++ [r]) ->
  rateCount c now < RateLimit cfg -> Limits cfg (h ++ [r]) /\ vals c ++ [r] ≡ₚ live cfg now (h ++ [r]).
Proof.
  intros [Hc Hcfg Hn Hlive _] Hp Hlim Hr Hrecs Hrate. pose proof (co_window _ (ci_config _ Hc)) as Hwp. rewrite Hcfg in Hwp.
  assert (Hl : vals c ++ [r] ≡ₚ live cfg now (h ++ [r])) by (rewrite live_snoc by (done || lia); by rewrite Hlive). split; [|done].
  apply Limits_snoc; [done|by rewrite Hr| |].
  - rewrite Hr, live_within; [by eapply RecsInv_perm|]. apply Forall_app. split; [done|]. constructor; [lia|constructor].
  - rewrite Hr. unfold within. rewrite filter_app, length_app. rewrite (rateCount_within c h now Hc Hn), Hcfg in Hrate by (rewrite ?Hcfg; done).
    unfold within in Hrate. pose proof (length_filter (fun x : admissionRecord => now - RateWindow cfg < time_of x <= now) [r]) as Hone.
    cbn [length] in Hone. lia.
Qed.

(** Removing the record added last. *)
Lemma rollback_inv c c2 r now latest :
  CtlInv c2 -> same_records (added c r now latest) c2 ->
  exists c3, remove c2 (mkElement (ctl_allocated c) r) r = c3 /\ CtlInv c3 /\ ctl_config c3 = ctl_config c /\ ctl_lastNow c3 = now /\
    vals c3 = vals c /\ ctl_persistence c3 = ctl_persistence c2.
Proof.
  intros Hi [S1 S2 S3 _ _ _ _ _]. set (e := mkElement (ctl_allocated c) r). assert (Hrec : ctl_records c2 = ctl_records c ++ e :: []) by (by rewrite S3).
  destruct (remove_without c2 e (ctl_records c) [] (ci_addr _ Hi) Hrec) as [latest' Erem].
  pose proof (without_inv c2 e (ctl_records c) [] latest' Hrec Hi) as Hi3. rewrite app_nil_r in Hi3, Erem.
  exists (without c2 e (ctl_records c) latest'). split; [exact Erem|]. by split_and!.
Qed.

Lemma limitCheck_denies c q now d : limitCheck c q now = Some d -> Dec_Allowed (fst d) = false.
Proof. unfold limitCheck. repeat case_match; intros [= <-]; done. Qed.

(** Within the limits: the record is added and stored, or removed again. *)
Lemma admitNew_eq cfg h now c q fails :
  Ready cfg h now c -> limitCheck c q now = None -> RecsInv cfg (vals c ++ [mkAdmissionRecord q now]) ->
  exists latest, CtlInv (added c (mkAdmissionRecord q now) now latest) /\
    admitNew c q now fails =
      let (c2, stored) := persist (added c (mkAdmissionRecord q now) now latest) fails in
      if stored then (c2, admissionAllowed)
      else (remove c2 (mkElement (ctl_allocated c) (mkAdmissionRecord q now)) (mkAdmissionRecord q now),
            admissionFailure AdmissionCapacityLimited zeroTime false ErrAdmissionPersistence).
Proof.
  intros [Hc Hcfg Hn _ _] El Hr. exists (if Req_Unknown q then <[tokenKey q := now]> (ctl_latest c) else ctl_latest c). split.
  - apply added_inv; [done|by rewrite Hcfg|rewrite <- Hn; apply Hc|lia|cbn; lia|cbn; rewrite <- Hn; apply Hc].
  - unfold admitNew. rewrite El, addRecord_added, Hn. by destruct (Req_Unknown q).
Qed.

Lemma admitNew_spec cfg h now c q fails closed c' d :
  Ready cfg h now c -> time_ok (Window cfg) -> Forall (fun r => time_of r <= now) h -> Limits cfg h -> FileInv cfg now h closed -> request_typed q ->
  validAdmissionRequest q = true -> Req_ObservedAt q = zeroTime -> ctl_attempts c !! attemptKey q = None -> admitNew c q now fails = (c', d) ->
  let new := if Dec_Allowed (fst d) then [mkAdmissionRecord q now] else [] in
  SysInv (mkSys c' (h ++ new) now (keepClosed closed new)).
Proof.
  intros Hrd Hw Hp Hlim Hcl Hq Hv Ho Hk. pose proof Hrd as [Hc Hcfg Hn Hlive Hf]. destruct (limitCheck c q now) as [denied|] eqn:El.
  { unfold admitNew. rewrite El. intros [= <- <-]. cbv zeta. rewrite (limitCheck_denies _ _ _ _ El), app_nil_r. by eapply Ready_sys. }
  destruct (limitCheck_none c q now Hc Hn El Hq Hv Ho Hk) as [Hr Hrate]. rewrite Hcfg in Hr, Hrate.
  destruct (admitNew_eq cfg h now c q fails Hrd El Hr) as (latest & Hadd & Eq). rewrite Eq. clear Eq. set (r := mkAdmissionRecord q now) in *.
  destruct (FileInv_list _ _ _ _ Hf) as (l0 & Hl0 & Hinv0).
  destruct (persist_spec (added c r now latest) fails l0 Hadd) as (c2 & stored & E & Hs & Hfile & _); [cbn; rewrite Hcfg; exact Hl0|].
  rewrite E. cbn [ctl_config added] in Hfile. rewrite Hcfg in Hfile. assert (Hi2 : CtlInv c2) by (by eapply CtlInv_same).
  destruct (admitted_limits cfg h now c r Hrd Hp Hlim eq_refl Hr Hrate) as [Hlim2 Hlive2].
  destruct stored; intros [= <- <-]; cbn [fst admissionAllowed admissionFailure Dec_Allowed keepClosed].
  - apply (Ready_sys cfg); [done|apply Forall_app; split; [done|by constructor; [cbn; lia|]]|done|done|]. destruct Hs as [S1 S2 S3 _ _ _ _ _].
    assert (Ev2 : vals c2 = vals c ++ [r]) by (unfold vals; rewrite S3; cbn; by rewrite map_app).
    constructor; [done|by rewrite S1|done|by rewrite Ev2|]. unfold FileInv. destruct (ctl_persistence c2) as [f'|]; [|done].
    exists (vals c ++ [r]). rewrite added_vals in Hfile. split; [done|]. split; [done|]. exists now. split; [lia|done].
  - rewrite app_nil_r. apply (Ready_sys cfg); [done|done|done|done|].
    destruct (rollback_inv c c2 r now latest Hi2 Hs) as (c3 & Erem & Hi3 & Hcfg3 & Hn3 & Ev3 & Hp3). fold r. rewrite Erem.
    constructor; [done|congruence|done|by rewrite Ev3|]. rewrite Hp3. unfold FileInv. destruct (ctl_persistence c2) as [f'|]; [|done].
    exists l0. split; [done|]. apply Hinv0. intros Hnone. revert E. unfold persist. cbn [ctl_persistence added]. rewrite Hnone. discriminate.
Qed.

(** ** The steps keep the invariant *)

(** [Admit] after the clock, the pruning and the first store. *)
Lemma Admit_eq c request call c3 stored :
  skewed (Req_ObservedAt request) (ac_now call) = false -> persist (pruned c (ac_now call)) (ac_firstFails call) = (c3, stored) ->
  Admit c request call =
    if negb stored then (c3, admissionFailure AdmissionCapacityLimited zeroTime false ErrAdmissionPersistence)
    else if negb (validAdmissionRequest (clear_observed request)) then (c3, admissionFailure AdmissionInvalidRequest zeroTime false ErrInvalidAdmissionRequest)
    else
      match ctl_attempts c3 !! attemptKey request with
      | Some existing =>
          if bool_decide (rec_request (el_Value existing) = clear_observed request) then (c3, admissionAllowed)
          else (c3, admissionFailure AdmissionAttemptIdentityConflict zeroTime false ErrInvalidAdmissionRequest)
      | None => admitNew c3 (clear_observed request) (effective c (ac_now call)) (ac_secondFails call)
      end.
Proof. intros Hs. unfold Admit, pruned, effective. rewrite Hs. destruct (advance c (ac_now call)). cbn [fst snd]. by intros ->. Qed.

Lemma past_later (mark mark' : Time) h : mark <= mark' -> Forall (fun r => time_of r <= mark) h -> Forall (fun r => time_of r <= mark') h.
Proof. intros Hm Hp. eapply Forall_impl; [exact Hp|]. cbn. intros; lia. Qed.

Lemma admit_step_inv c h mark closed request call :
  SysInv (mkSys c h mark closed) -> request_typed request -> good_time (ctl_config c) (ac_now call) ->
  (usesTime request call = true -> mark <= effective c (ac_now call)) ->
  SysInv (mkSys (fst (Admit c request call)) (h ++ newlyAdmitted c request call)
    (if usesTime request call then effective c (ac_now call) else mark) (keepClosed closed (newlyAdmitted c request call))).
Proof.
  intros Hs Hq Hg Hm. unfold newlyAdmitted, usesTime in *. destruct (skewed (Req_ObservedAt request) (ac_now call)) eqn:Esk; cbn [negb] in *.
  { unfold Admit. rewrite Esk. cbn. by rewrite app_nil_r. }
  specialize (Hm eq_refl).
  destruct (prune_ready c h mark closed (ac_now call) (ac_firstFails call) Hs Hg Hm) as (c3 & stored & E & Hrd & Hsame & _).
  pose proof Hs as [_ Hw _ _ Hp _ _ Hcl Hlim]. cbn in Hw, Hp, Hcl, Hlim. apply (past_later _ _ _ Hm) in Hp. apply (FileInv_mono _ _ _ _ _ Hm) in Hcl.
  pose proof (Ready_sys _ _ _ _ _ Hw Hp Hlim Hcl Hrd) as Hquiet. rewrite (Admit_eq _ _ _ _ _ Esk E). rewrite <- (sr_attempts _ _ Hsame).
  destruct stored; cbn [negb]; [|cbn; by rewrite app_nil_r]. destruct (validAdmissionRequest (clear_observed request)) eqn:Ev; cbn [negb]; [|cbn; by rewrite app_nil_r].
  destruct (ctl_attempts c3 !! attemptKey request) as [existing|] eqn:Ea.
  - rewrite (bool_decide_eq_false_2 (Some existing = None)), andb_false_r by done. rewrite app_nil_r. by case_bool_decide.
  - rewrite (bool_decide_eq_true_2 (None = None)), andb_true_r by done.
    destruct (admitNew c3 (clear_observed request) (effective c (ac_now call)) (ac_secondFails call)) as [c' d] eqn:En. cbn [fst snd].
    eapply (admitNew_spec _ _ _ c3); [exact Hrd|done|done|done|done| |done|done|exact Ea|exact En]. by destruct Hq.
Qed.

Lemma onDisk_inv s : SysInv s -> FileInv (ctl_config (sys_ctl s)) (sys_mark s) (sys_history s) (onDisk s).
Proof. intros Hs. pose proof (si_file _ Hs) as H. pose proof (si_closed _ Hs). unfold onDisk. by destruct (ctl_persistence _). Qed.

Lemma admission_step_inv s s' : SysInv s -> admission_step s s' -> SysInv s'.
Proof.
  intros Hs Hstep. destruct Hstep as [c h mark closed request call Hq Hg Hm|c h mark closed now Hg Hm|c h mark closed fails|c h mark closed f env config nil c' Hf Ht Hp Ho E].
  - by apply admit_step_inv.
  - pose proof Hs as [Hc Hw H0 Hl Hp Hcov Hfile Hcl Hlim]. cbn in *. destruct (pruned_spec c h mark now Hc Hg Hm Hcov) as [H1 H2 H3 H4 H5].
    assert (E : fst (TrackedAttempts c now) = pruned c now) by (unfold TrackedAttempts, pruned, effective; by destruct (advance c now)). rewrite E.
    apply (Ready_sys (ctl_config c)); [done|by eapply past_later|done|by eapply FileInv_mono|]. constructor; [done|done|done|done|]. rewrite H4. by eapply FileInv_mono.
  - pose proof (onDisk_inv _ Hs) as Hd. destruct Hs as [Hc Hw H0 Hl Hp Hcov Hfile Hcl Hlim]. cbn in *. unfold Close.
    destruct (ctl_persistence c) eqn:Ep; constructor; cbn; rewrite ?Ep; try done. eapply CtlInv_same; [|exact Hc]. done.
  - pose proof (onDisk_inv _ Hs) as Hfile. destruct Hs as [Hc Hw H0 Hl Hpast Hcov _ _ Hlim]. rewrite Hf in Hfile. cbn in *. destruct Hfile as (l & Hh & Hr & Hcv).
    destruct (open_existing env config nil c' (ctl_config c) f l Ht (ci_config _ Hc) Hw Hr Hh Hp Ho E) as (Hc' & Hcfg & Hv & Hf' & Hlast).
    constructor; cbn; rewrite ?Hcfg; try done.
    + apply Hlast; [done|]. destruct Hcv as (m & _ & Hlv). rewrite Hlv. rewrite Forall_forall in Hpast |- *.
      intros x [_ Hx]%list_elem_of_filter. by apply Hpast.
    + destruct Hcv as (m & Hm & Hlv). exists m. split; [done|]. by rewrite Hv.
    + rewrite Hf'. by exists l.
Qed.

Lemma window_ok cfg : config_ok cfg -> time_ok (Window cfg).
Proof. intros Hc. pose proof (co_window _ Hc). apply (time_ok_between 0 (2 ^ 63)); [by vm_compute|by vm_compute|lia]. Qed.

Lemma empty_sys cfg p :
  config_ok cfg -> (forall f, p = Some f -> file_holds cfg f []) ->
  SysInv (mkSys (mkController cfg zeroTime [] ∅ ∅ ∅ ∅ ∅ p 0) [] zeroTime None).
Proof.
  intros Hok Hf. pose proof (window_ok cfg Hok) as Hw. pose proof (empty_controller_inv cfg p Hok Hw) as Hi. constructor; cbn; try done.
  - exists 0. split; [done|]. done.
  - destruct p as [f|]; [|done]. exists []. split; [by apply Hf|]. split; [apply (ci_recs _ Hi)|]. by exists 0.
  - by apply Limits_nil.
Qed.

Lemma admission_inv s : admission_reachable s -> SysInv s.
Proof.
  induction 1 as [config nil c Ht E|config nil env c Ht Hp E|s s' _ IH Hstep]; [| |by eapply admission_step_inv].
  - destruct (NewAdmissionController_config _ _ _ Ht E) as [Hok ->]. by apply empty_sys.
  - destruct (open_created _ _ _ _ Ht Hp E) as (f & -> & Hok & Hh). apply empty_sys; [done|by intros ? [= <-]].
Qed.

(** C39. Over the whole life of the admission controller, whatever requests come,
    whichever commits fail, with the clock going back while a process runs and
    with restarts from the file, after a [Close] or without one: in every window
    of the configured length the attempts admitted are within the rate limit, those
    of one token and of one source event within their limits, and the distinct
    unknown tokens within theirs; and the records kept stay within the capacity.
    The one condition on the clock is that after a restart it has reached the
    latest time the earlier processes used; attempts admitted after a [Close] end
    the restarts covered, since they are in no file. *)
Theorem admission_limits_hold s :
  admission_reachable s ->
  Limits (ctl_config (sys_ctl s)) (sys_history s) /\ Z.of_nat (length (ctl_records (sys_ctl s))) <= Capacity (ctl_config (sys_ctl s)).
Proof.
  intros [Hc _ _ _ _ _ _ _ Hl]%admission_inv. split; [done|]. pose proof (ri_capacity _ _ (ci_recs _ Hc)) as H. unfold vals in H. by rewrite length_map in H.
Qed.

(** ** The reference limiter

    It keeps the whole history and looks at its windows. *)

Definition referenceLimit (cfg : AdmissionConfig) (h : list admissionRecord) (q : AdmissionRequest) (now : Time) : AdmissionReason :=
  let window := within (Window cfg) now h in
  if RateLimit cfg <=? Z.of_nat (length (within (RateWindow cfg) now h)) then AdmissionGlobalRateLimited
  else if MaxAttemptsPerToken cfg <=? Z.of_nat (occ tkey window (tokenKey q)) then AdmissionTokenAttemptsLimited
  else if MaxAttemptsPerSourceEvent cfg <=? Z.of_nat (occ ekey window (eventKey q)) then AdmissionSourceEventLimited
  else if Req_Unknown q && bool_decide (tokenKey q ∉ unknownTokens window) && (MaxNewUnknownTokens cfg <=? Z.of_nat (size (unknownTokens window)))
    then AdmissionUnknownTokenRateLimited
  else if Capacity cfg <=? Z.of_nat (length window) then AdmissionCapacityLimited
  else AdmissionAllowed.

(** The decision on a request: the reason, and what the error is of.  A commit
    can only fail where there is a file. *)
Definition referenceDecision (cfg : AdmissionConfig) (attached : bool) (h : list admissionRecord) (request : AdmissionRequest)
    (call : AdmitCall) (now : Time) : AdmissionReason * option AdmissionCause :=
  let window := within (Window cfg) now h in
  let q := clear_observed request in
  if skewed (Req_ObservedAt request) (ac_now call) then (AdmissionInvalidRequest, Some ErrInvalidAdmissionRequest)
  else if attached && ac_firstFails call then (AdmissionCapacityLimited, Some ErrAdmissionPersistence)
  else if negb (validAdmissionRequest q) then (AdmissionInvalidRequest, Some ErrInvalidAdmissionRequest)
  else if existsb (fun r => bool_decide (rkey r = attemptKey q)) window then
    if existsb (fun r => bool_decide (rec_request r = q)) window then (AdmissionAllowed, None)
    else (AdmissionAttemptIdentityConflict, Some ErrInvalidAdmissionRequest)
  else if bool_decide (referenceLimit cfg h q now = AdmissionAllowed) then
    if attached && ac_secondFails call then (AdmissionCapacityLimited, Some ErrAdmissionPersistence) else (AdmissionAllowed, None)
  else (referenceLimit cfg h q now, Some ErrAdmissionDenied).

(** An answer of [Admit] that says so: the decision and the error agree, and only
    a denial by a limit may be retried. *)
Definition answers (answer : AdmissionDecision * option AdmissionError) (reference : AdmissionReason * option AdmissionCause) : Prop :=
  let (decision, error) := answer in
  let (reason, cause) := reference in
  Dec_Reason decision = reason /\ Dec_Allowed decision = bool_decide (reason = AdmissionAllowed) /\
  match cause with
  | None => error = None
  | Some cause => exists e, error = Some e /\ AErr_cause e = cause /\ AErr_Reason e = reason /\ AErr_RetryAt e = Dec_RetryAt decision /\
      AErr_Retryable e = match cause with ErrAdmissionDenied => true | _ => false end
  end.

Lemma failure_answers reason retryAt cause :
  reason <> AdmissionAllowed ->
  answers (admissionFailure reason retryAt (match cause with ErrAdmissionDenied => true | _ => false end) cause) (reason, Some cause).
Proof. intros Hr. cbn. rewrite bool_decide_eq_false_2 by done. split_and!; [done|done|]. by eexists. Qed.

Lemma allowed_answers : answers admissionAllowed (AdmissionAllowed, None).
Proof. by split_and!. Qed.

Lemma limitCheck_reference cfg h now c q :
  Ready cfg h now c -> Forall (fun r => time_of r <= now) h ->
  match limitCheck c q now with
  | Some d => answers d (referenceLimit cfg h q now, Some ErrAdmissionDenied) /\ referenceLimit cfg h q now <> AdmissionAllowed
  | None => referenceLimit cfg h q now = AdmissionAllowed
  end.
Proof.
  intros [Hc Hcfg Hn Hlive _] Hp. unfold limitCheck, referenceLimit.
  rewrite (count_of_rep _ _ _ _ (ci_tokens _ Hc)), (count_of_rep _ _ _ _ (ci_events _ Hc)), (count_of_rep _ _ _ _ (ci_unknown _ Hc)), (rep_size _ _ (ci_unknown _ Hc)).
  rewrite (rateCount_within c h now Hc Hn), Hcfg by (rewrite ?Hcfg; done). rewrite live_within by done.
  rewrite (occ_perm tkey _ _ _ Hlive), (occ_perm ekey _ _ _ Hlive), (occ_perm ukey _ _ _ Hlive), (unknownTokens_perm _ _ Hlive).
  assert (Elen : length (ctl_records c) = length (live cfg now h)) by (rewrite <- Hlive; unfold vals; by rewrite length_map). rewrite Elen.
  assert (Ez : (Z.of_nat (occ ukey (live cfg now h) (tokenKey q)) =? 0) = bool_decide (tokenKey q ∉ unknownTokens (live cfg now h))).
  { destruct (decide (occ ukey (live cfg now h) (tokenKey q) = 0%nat)) as [E|E].
    - rewrite E, bool_decide_eq_true_2; [done|]. rewrite unknownTokens_in. tauto.
    - rewrite bool_decide_eq_false_2; [apply Z.eqb_neq; lia|]. rewrite unknownTokens_in. tauto. }
  rewrite Ez. repeat match goal with |- context [if ?b then Some _ else _] => destruct b; [split; [by apply (failure_answers _ _ ErrAdmissionDenied)|done]|] end. done.
Qed.

Lemma keys_unique l r r' : NoDup (map rkey l) -> r ∈ l -> r' ∈ l -> rkey r = rkey r' -> r = r'.
Proof.
  induction l as [|x l IH]; cbn; [by intros _ ?%elem_of_nil|]. intros [Hx Hn]%NoDup_cons [->|H1]%elem_of_cons [->|H2]%elem_of_cons E; [done| | |by apply IH].
  - destruct Hx. rewrite E. by apply (list_elem_of_fmap_2 rkey).
  - destruct Hx. rewrite <- E. by apply (list_elem_of_fmap_2 rkey).
Qed.

Lemma attempts_window cfg h now c q :
  Ready cfg h now c -> Forall (fun r => time_of r <= now) h ->
  match ctl_attempts c !! attemptKey q with
  | Some e => existsb (fun r => bool_decide (rkey r = attemptKey q)) (within (Window cfg) now h) = true /\
      existsb (fun r => bool_decide (rec_request r = q)) (within (Window cfg) now h) = bool_decide (rec_request (el_Value e) = q)
  | None => existsb (fun r => bool_decide (rkey r = attemptKey q)) (within (Window cfg) now h) = false
  end.
Proof.
  intros [Hc Hcfg Hn Hlive _] Hp. rewrite live_within by done. destruct (ctl_attempts c !! attemptKey q) as [e|] eqn:E.
  - apply (ci_attempts _ Hc) in E as [Hin Hk]. assert (Hv : el_Value e ∈ vals c) by (by apply (list_elem_of_fmap_2 el_Value)).
    assert (Hw : el_Value e ∈ live cfg now h) by (by rewrite <- Hlive). split.
    + apply existsb_exists. exists (el_Value e). split; [by apply list_elem_of_In|by apply bool_decide_eq_true_2].
    + case_bool_decide as Eq.
      * apply existsb_exists. exists (el_Value e). split; [by apply list_elem_of_In|by apply bool_decide_eq_true_2].
      * apply not_true_iff_false. intros (r & Hr & Hreq)%existsb_exists. apply bool_decide_eq_true in Hreq.
        apply list_elem_of_In in Hr. rewrite <- Hlive in Hr. apply Eq. rewrite <- Hreq. f_equal. symmetry.
        eapply (keys_unique (vals c)); [apply (ri_keys _ _ (ci_recs _ Hc))|done|done|]. rewrite Hk. unfold rkey. by rewrite Hreq.
  - apply not_true_iff_false. intros (r & Hr & Hk)%existsb_exists. apply bool_decide_eq_true in Hk. apply list_elem_of_In in Hr.
    rewrite <- Hlive in Hr. apply (attempts_fresh _ _ Hc) in E. apply E. rewrite <- Hk. by apply (list_elem_of_fmap_2 rkey).
Qed.

(** Where there is no file no store fails; where there is one it fails exactly
    when its commit does. *)
Lemma persist_stored c fails l0 :
  CtlInv c -> (forall f, ctl_persistence c = Some f -> file_holds (ctl_config c) f l0) ->
  snd (persist c fails) = negb (bool_decide (is_Some (ctl_persistence c)) && fails).
Proof.
  intros Hc Hf. unfold persist. destruct (ctl_persistence c) as [f|] eqn:Ep; [|by rewrite bool_decide_eq_false_2 by (by intros [? ?])].
  destruct (Store_spec (ctl_config c) fails (ctl_records c) f l0 (ci_recs _ Hc) (Hf f eq_refl)) as (f' & E & _). rewrite E.
  rewrite bool_decide_eq_true_2 by done. by destruct fails.
Qed.

(** Where the first store leaves the controller. *)
Lemma first_store c h mark closed now fails :
  SysInv (mkSys c h mark closed) -> good_time (ctl_config c) now -> mark <= effective c now ->
  exists c', persist (pruned c now) fails = (c', negb (bool_decide (is_Some (ctl_persistence c)) && fails)) /\
    Ready (ctl_config c) h (effective c now) c' /\ bool_decide (is_Some (ctl_persistence c')) = bool_decide (is_Some (ctl_persistence c)).
Proof.
  intros Hs Hg Hm. destruct (prune_ready c h mark closed now fails Hs Hg Hm) as (c' & stored & E & Hrd & _ & _).
  destruct Hs as [Hc _ _ _ _ Hcov Hf _ _]. cbn in *. destruct (pruned_spec c h mark now Hc Hg Hm Hcov) as [H1 H2 _ H4 _].
  destruct (FileInv_list _ _ _ _ Hf) as (l0 & Hl0 & _). pose proof (persist_stored (pruned c now) fails l0 H1) as Hst.
  rewrite H2, H4, E in Hst. specialize (Hst Hl0). cbn [snd] in Hst. exists c'. rewrite E, Hst. split; [done|]. split; [done|].
  revert E. unfold persist. rewrite H4. destruct (ctl_persistence c) as [f|]; [|by intros [= <- _]; rewrite H4].
  destruct (Store _ _ _). intros [= <- _]. cbn [ctl_persistence set_persistence]. by rewrite !(bool_decide_eq_true_2 (is_Some _)) by done.
Qed.

(** C40. Every decision is the one of the reference limiter, which keeps the
    whole history: a request is refused first for its skew, then when the store of
    the pruned records fails, then as invalid; a repeated attempt of the window is
    allowed when its request is the same and a conflict otherwise; a new one is
    allowed when the windows of the history leave room for it and its record is
    stored, and otherwise the first limit that does not is named.  The error agrees
    with the decision.  The time it says to retry at is not part of this; the clock
    is as in C39. *)
Theorem admission_decides_by_history c h mark closed request call :
  admission_reachable (mkSys c h mark closed) -> request_typed request -> good_time (ctl_config c) (ac_now call) ->
  (usesTime request call = true -> mark <= effective c (ac_now call)) ->
  answers (snd (Admit c request call))
    (referenceDecision (ctl_config c) (bool_decide (is_Some (ctl_persistence c))) h request call (effective c (ac_now call))).
Proof.
  intros Hs%admission_inv Hq Hg Hm. unfold referenceDecision, usesTime in *.
  destruct (skewed (Req_ObservedAt request) (ac_now call)) eqn:Esk.
  { unfold Admit. rewrite Esk. by apply (failure_answers _ _ ErrInvalidAdmissionRequest). }
  specialize (Hm eq_refl). destruct (first_store c h mark closed (ac_now call) (ac_firstFails call) Hs Hg Hm) as (c3 & E & Hrd & Hatt).
  rewrite (Admit_eq _ _ _ _ _ Esk E), negb_involutive. destruct (_ && ac_firstFails call); [by apply (failure_answers _ _ ErrAdmissionPersistence)|].
  destruct (validAdmissionRequest (clear_observed request)) eqn:Hv; cbn [negb]; [|by apply (failure_answers _ _ ErrInvalidAdmissionRequest)].
  pose proof (past_later _ _ _ Hm (si_past _ Hs)) as Hp. cbn in Hp. set (t := effective c (ac_now call)) in *.
  pose proof (attempts_window _ _ _ _ (clear_observed request) Hrd Hp) as Hw. change (attemptKey (clear_observed request)) with (attemptKey request) in *.
  destruct (ctl_attempts c3 !! attemptKey request) as [e|] eqn:Ea.
  { destruct Hw as [-> ->]. destruct (bool_decide (rec_request _ = _)); [exact allowed_answers|by apply (failure_answers _ _ ErrInvalidAdmissionRequest)]. }
  rewrite Hw. pose proof (limitCheck_reference _ _ _ _ (clear_observed request) Hrd Hp) as Hl.
  destruct (limitCheck c3 (clear_observed request) t) as [d|] eqn:El.
  { unfold admitNew. rewrite El. destruct Hl as [Hr Hne]. by rewrite bool_decide_eq_false_2. }
  destruct (limitCheck_none c3 (clear_observed request) t) as [Hr _]; [apply Hrd|apply Hrd|exact El|by destruct Hq|done|done|exact Ea|].
  rewrite (rd_config _ _ _ _ Hrd) in Hr. destruct (admitNew_eq _ _ _ _ _ (ac_secondFails call) Hrd El Hr) as (latest & Hi & Eq).
  destruct (FileInv_list _ _ _ _ (rd_file _ _ _ _ Hrd)) as (l0 & Hl0 & _). rewrite <- (rd_config _ _ _ _ Hrd) in Hl0.
  pose proof (persist_stored _ (ac_secondFails call) l0 Hi Hl0) as Hst. cbn [ctl_persistence added] in Hst. rewrite Hatt in Hst.
  rewrite Eq, Hl, bool_decide_eq_true_2 by done. destruct (persist _ (ac_secondFails call)) as [c6 st]. cbn [snd] in Hst. subst st.
  destruct (_ && ac_secondFails call); [by apply (failure_answers _ _ ErrAdmissionPersistence)|exact allowed_answers].
Qed.

End System.

(** ** Witnesses *)

Module AdmissionExamples.
Import MapBolt.

#[export] Instance time_le_dec : RelDecision time_le.
Proof. intros r r'. unfold time_le. apply _. Defined.

#[export] Instance time_le_total : Total time_le.
Proof. intros r r'. unfold time_le. lia. Qed.

#[export] Instance time_le_trans : Transitive time_le.
Proof. intros r r' r''. unfold time_le. lia. Qed.

#[export] Instance mergeSort : RecordSort := {|
  sortRecords l := merge_sort time_le l;
  sortRecords_perm l := merge_sort_Permutation time_le l;
  sortRecords_sorted l := StronglySorted_merge_sort time_le l |}.

Definition a_config : AdmissionConfig := mkConfig (10 * Minute) 0 3 2 2 1 4.
Definition a_env : AdmissionOpenEnv := mkAdmissionEnv false true (Some true) (Some (mkAdmissionFile None None)) false.
Definition a_empty : AdmissionController := mkController a_config 0 [] ∅ ∅ ∅ ∅ ∅ None 0.
Definition a_controller : AdmissionController := match OpenAdmissionController a_env a_config false with Ok c => c | Err _ => a_empty end.

(** An attempt at an unknown token, at a time after 2001. *)
Definition a_token (b : byte) (attempt : Z) : AdmissionRequest :=
  mkAdmissionRequest 1 (repeat b 32) attempt (repeat b 20) (repeat x03 32) (repeat x04 32) true zeroTime.
Definition a_now : Time := unixTime 1000000000 0.
Definition a_call (d : Duration) (fails : bool) : AdmitCall := mkAdmitCall (a_now + d) false fails.
Definition a_first : AdmissionController := fst (Admit a_controller (a_token x01 1) (a_call 0 false)).

Lemma a_opened : OpenAdmissionController a_env a_config false = Ok a_controller.
Proof.
  unfold a_controller. destruct (OpenAdmissionController a_env a_config false) as [c|] eqn:E; [reflexivity|].
  assert (H : isOk (OpenAdmissionController a_env a_config false) = true) by (vm_compute; reflexivity). rewrite E in H. discriminate H.
Qed.

Lemma a_typed : config_typed a_config.
Proof. by constructor. Qed.

Lemma a_request_typed b attempt : inU 32 attempt -> request_typed (a_token b attempt).
Proof. intros. by constructor. Qed.

(** The configuration with its rate window. *)
Definition a_full : AdmissionConfig := mkConfig (10 * Minute) (10 * Minute) 3 2 2 1 4.

Definition good_timeb (t : Time) : bool := (0 <=? t) && time_okb (t + Window a_full) && negb (Unix t =? 0).

Lemma good_timeb_spec t : good_timeb t = true -> good_time a_full t.
Proof.
  unfold good_timeb. intros [[H1 H2]%andb_true_iff H3]%andb_true_iff. split; [by apply Z.leb_le|].
  split; [by apply time_okb_spec|by apply Z.eqb_neq, negb_true_iff].
Qed.

Lemma a_reachable : admission_reachable (mkSys a_controller [] zeroTime None).
Proof. eapply (reach_created a_config false a_env); [exact a_typed|reflexivity|exact a_opened]. Qed.

(** A call of [Admit] as a step of the system, and what it needs. *)
Definition a_admit (s : Sys) (request : AdmissionRequest) (call : AdmitCall) : Sys :=
  let c := sys_ctl s in
  mkSys (fst (Admit c request call)) (sys_history s ++ newlyAdmitted c request call)
    (if usesTime request call then effective c (ac_now call) else sys_mark s) (keepClosed (sys_closed s) (newlyAdmitted c request call)).

Definition a_allowed (s : Sys) (request : AdmissionRequest) (call : AdmitCall) : Prop :=
  ctl_config (sys_ctl s) = a_full /\ good_timeb (ac_now call) = true /\
  negb (usesTime request call) || (sys_mark s <=? effective (sys_ctl s) (ac_now call)) = true.

Lemma a_allowed_time s request call :
  a_allowed s request call -> good_time (ctl_config (sys_ctl s)) (ac_now call) /\
    (usesTime request call = true -> sys_mark s <= effective (sys_ctl s) (ac_now call)).
Proof.
  intros (Hc & Hg & Hm). rewrite Hc. split; [by apply good_timeb_spec|]. intros Hu. rewrite Hu in Hm. by apply Z.leb_le.
Qed.

Lemma a_admit_step s request call :
  admission_reachable s -> request_typed request -> a_allowed s request call -> admission_reachable (a_admit s request call).
Proof. intros Hr Hq [Hg Hm]%a_allowed_time. eapply reach_step; [exact Hr|]. destruct s. by apply step_admit. Qed.

(** One attempt at a token is admitted; the commit of the second fails; the
    clock goes back half a minute and the second is admitted; the clock jumps
    ahead an hour for a request whose observation is an hour old, which is refused;
    the controller is closed and the file opened again. *)
Definition a_old : AdmissionRequest :=
  mkAdmissionRequest 1 (repeat x01 32) 9 (repeat x01 20) (repeat x03 32) (repeat x04 32) true a_now.
Definition a_s0 : Sys := mkSys a_controller [] zeroTime None.
Definition a_s1 : Sys := a_admit a_s0 (a_token x01 1) (a_call 0 false).
Definition a_s2 : Sys := a_admit a_s1 (a_token x01 2) (a_call Minute true).
Definition a_s3 : Sys := a_admit a_s2 (a_token x01 2) (a_call (30 * Second) false).
Definition a_s4 : Sys := a_admit a_s3 a_old (a_call (60 * Minute) false).
Definition a_s5 : Sys := mkSys (fst (Close (sys_ctl a_s4) false)) (sys_history a_s4) (sys_mark a_s4) (onDisk a_s4).
Definition a_disk : AdmissionFile := default (mkAdmissionFile None None) (onDisk a_s5).
Definition a_again (f : AdmissionFile) : AdmissionOpenEnv := mkAdmissionEnv false true (Some false) (Some f) false.
Definition a_restarted : AdmissionController :=
  match OpenAdmissionController (a_again a_disk) a_config false with Ok c => c | Err _ => a_empty end.
Definition a_s6 : Sys := mkSys a_restarted (sys_history a_s5) (sys_mark a_s5) None.
Definition a_s7 : Sys := a_admit a_s6 (a_token x01 3) (a_call (2 * Minute) false).

Lemma a_close_step s : admission_reachable s -> admission_reachable (mkSys (fst (Close (sys_ctl s) false)) (sys_history s) (sys_mark s) (onDisk s)).
Proof. intros Hr. eapply reach_step; [exact Hr|]. destruct s. apply step_close. Qed.

Lemma a_restart_step s f c :
  admission_reachable s -> onDisk s = Some f -> OpenAdmissionController (a_again f) a_config false = Ok c ->
  admission_reachable (mkSys c (sys_history s) (sys_mark s) None).
Proof.
  intros Hr Hd Ho. eapply reach_step; [exact Hr|]. destruct s as [c0 h mark closed].
  by apply (step_restart c0 h mark closed f (a_again f) a_config false c Hd a_typed).
Qed.

Lemma a_reopened : onDisk a_s5 = Some a_disk /\ OpenAdmissionController (a_again a_disk) a_config false = Ok a_restarted.
Proof.
  assert (H1 : bool_decide (is_Some (onDisk a_s5)) = true) by (vm_compute; reflexivity).
  assert (H2 : isOk (OpenAdmissionController (a_again a_disk) a_config false) = true) by (vm_compute; reflexivity).
  split.
  - unfold a_disk. destruct (onDisk a_s5); [reflexivity|discriminate H1].
  - unfold a_restarted. destruct (OpenAdmissionController (a_again a_disk) a_config false); [reflexivity|discriminate H2].
Qed.

Lemma a_calls : a_allowed a_s0 (a_token x01 1) (a_call 0 false) /\ a_allowed a_s1 (a_token x01 2) (a_call Minute true) /\
  a_allowed a_s2 (a_token x01 2) (a_call (30 * Second) false) /\ a_allowed a_s3 a_old (a_call (60 * Minute) false) /\
  a_allowed a_s6 (a_token x01 3) (a_call (2 * Minute) false).
Proof. repeat split; vm_compute; reflexivity. Qed.

Lemma a_old_typed : request_typed a_old.
Proof. by constructor. Qed.

Lemma a_attempt_typed b : request_typed (a_token b 1) /\ request_typed (a_token b 2) /\ request_typed (a_token b 3).
Proof. by split_and!; apply a_request_typed. Qed.

Lemma a_run : admission_reachable a_s6.
Proof.
  destruct (a_attempt_typed x01) as (T1 & T2 & _). destruct a_calls as (C1 & C2 & C3 & C4 & _). destruct a_reopened as [Hd Ho].
  pose proof (a_admit_step a_s0 _ _ a_reachable T1 C1) as R1. pose proof (a_admit_step a_s1 _ _ R1 T2 C2) as R2.
  pose proof (a_admit_step a_s2 _ _ R2 T2 C3) as R3. pose proof (a_admit_step a_s3 _ _ R3 a_old_typed C4) as R4.
  exact (a_restart_step a_s5 a_disk _ (a_close_step a_s4 R4) Hd Ho).
Qed.

Definition a_history : list admissionRecord :=
  [mkAdmissionRecord (a_token x01 1) a_now; mkAdmissionRecord (a_token x01 2) (a_now + Minute)].

Lemma a_facts : sys_history a_s6 = a_history /\ sys_mark a_s6 = a_now + Minute /\ sys_history a_s7 = a_history /\
  ctl_config (sys_ctl a_s7) = a_full /\ ctl_config a_restarted = a_full /\ bool_decide (is_Some (ctl_persistence a_restarted)) = true.
Proof. split_and!; (apply (bool_decide_eq_true_1 (_ = _)) || idtac); vm_compute; reflexivity. Qed.

(** A third attempt at the token is refused after the restart. *)
Lemma admission_limits_hold_witness : sys_mark a_s6 = a_now + Minute /\ Limits a_full a_history /\ Z.of_nat (length (ctl_records (sys_ctl a_s7))) <= 4.
Proof.
  destruct a_calls as (_ & _ & _ & _ & C). destruct a_facts as (_ & Em & Eh & Ec & _).
  pose proof (a_admit_step a_s6 _ _ a_run (proj2 (proj2 (a_attempt_typed x01))) C) as R. change (admission_reachable a_s7) in R.
  pose proof (admission_limits_hold _ R) as [H1 H2]. rewrite Ec in H1, H2. rewrite Eh in H1. split; [exact Em|]. split; [exact H1|exact H2].
Defined.

(** After the restart: a third attempt at the token and another of the event are
    denied by their limits, the second attempt is allowed again, and nothing is
    admitted when a commit fails. *)
Lemma admission_decides_by_history_witness :
  answers (snd (Admit a_restarted (a_token x01 3) (a_call (2 * Minute) false))) (AdmissionTokenAttemptsLimited, Some ErrAdmissionDenied) /\
  answers (snd (Admit a_restarted (a_token x02 1) (a_call (2 * Minute) false))) (AdmissionSourceEventLimited, Some ErrAdmissionDenied) /\
  answers (snd (Admit a_restarted (a_token x01 2) (a_call (2 * Minute) true))) (AdmissionAllowed, None) /\
  answers (snd (Admit a_restarted (a_token x02 1) (a_call (12 * Minute) true))) (AdmissionCapacityLimited, Some ErrAdmissionPersistence) /\
  answers (snd (Admit a_restarted (a_token x02 1) (a_call (12 * Minute) false))) (AdmissionAllowed, None).
Proof.
  assert (G : forall s request call verdict, admission_reachable s -> request_typed request -> a_allowed s request call ->
    referenceDecision (ctl_config (sys_ctl s)) (bool_decide (is_Some (ctl_persistence (sys_ctl s)))) (sys_history s) request call
      (effective (sys_ctl s) (ac_now call)) = verdict -> answers (snd (Admit (sys_ctl s) request call)) verdict).
  { intros [c h mark closed] request call verdict Hr Hq [Hg Hm]%a_allowed_time <-. exact (admission_decides_by_history c h mark closed request call Hr Hq Hg Hm). }
  destruct (a_attempt_typed x01) as (_ & T2 & T3). destruct (a_attempt_typed x02) as (O1 & _ & _).
  assert (A : a_allowed a_s6 (a_token x01 3) (a_call (2 * Minute) false) /\ a_allowed a_s6 (a_token x02 1) (a_call (2 * Minute) false) /\
    a_allowed a_s6 (a_token x01 2) (a_call (2 * Minute) true) /\ a_allowed a_s6 (a_token x02 1) (a_call (12 * Minute) true) /\
    a_allowed a_s6 (a_token x02 1) (a_call (12 * Minute) false)) by (clear; repeat split; vm_compute; reflexivity).
  destruct A as (A1 & A2 & A3 & A4 & A5).
  split; [refine (G a_s6 _ _ _ a_run T3 A1 _); clear; vm_compute; reflexivity|].
  split; [refine (G a_s6 _ _ _ a_run O1 A2 _); clear; vm_compute; reflexivity|].
  split; [refine (G a_s6 _ _ _ a_run T2 A3 _); clear; vm_compute; reflexivity|].
  split; [refine (G a_s6 _ _ _ a_run O1 A4 _); clear; vm_compute; reflexivity|].
  refine (G a_s6 _ _ _ a_run O1 A5 _); clear; vm_compute; reflexivity.
Defined.

(** ** A clock set back across a restart

    Two attempts at a token are admitted; twenty minutes later a call prunes them
    from the file; a new process whose clock is back at the second minute admits
    a third one: the window that ends there has three of them. *)
Definition a_b2 : Sys := a_admit a_s1 (a_token x01 2) (a_call 0 false).
Definition a_b3 : Sys := a_admit a_b2 (a_token x02 0) (a_call (20 * Minute) false).
Definition a_b4 : Sys :=
  mkSys (match OpenAdmissionController (a_again (default (mkAdmissionFile None None) (onDisk a_b3))) a_config false with Ok c => c | Err _ => a_empty end)
    (sys_history a_b3) (sys_mark a_b3) None.
Definition a_b5 : Sys := a_admit a_b4 (a_token x01 3) (a_call Minute false).

Theorem clock_set_back_across_a_restart :
  ctl_config (sys_ctl a_b5) = a_full /\ length (sys_history a_b5) = 3%nat /\ effective (sys_ctl a_b4) (a_now + Minute) < sys_mark a_b4 /\
  occ tkey (within (Window a_full) (a_now + Minute) (sys_history a_b5)) (tokenKey (a_token x01 3)) = 3%nat /\ MaxAttemptsPerToken a_full = 2.
Proof. split_and!; [vm_compute; reflexivity|vm_compute; reflexivity|by vm_compute|vm_compute; reflexivity|reflexivity]. Qed.

(** ** A late retry time *)

(** A second attempt at the token whose store fails is removed again, but the
    token's latest time is recomputed before the removal and stays that of the
    failed attempt: an attempt at another unknown token is told to wait a minute
    longer than it has to. *)
Definition a_second : AdmissionController := fst (Admit a_first (a_token x01 2) (a_call Minute true)).
Definition a_denied : AdmissionDecision := fst (snd (Admit a_second (a_token x02 1) (a_call Minute false))).

Theorem rollback_delays_retries :
  Dec_Reason a_denied = AdmissionUnknownTokenRateLimited /\ Dec_RetryAt a_denied = a_now + 11 * Minute /\
  map el_Value (ctl_records a_second) = [mkAdmissionRecord (a_token x01 1) a_now] /\
  Dec_Allowed (fst (snd (Admit a_second (a_token x02 1) (a_call (10 * Minute) false)))) = true.
Proof. split_and!; apply (bool_decide_eq_true_1 (_ = _)); vm_compute; reflexivity. Qed.

End AdmissionExamples.
End AdmissionTheorems.
Export AdmissionTheorems.
