(* ===== verification/RpcQuorum.v ===== *)
(** * internal/rpc/quorum.go, pinned_state.go and base_fees.go: reads by quorum

    A [QuorumReader] asks every provider and returns only what all of them say.
    A provider's answers may change over time: a [HistoricalReader] answers a
    call made in a given phase, and the phases of an operation are numbered from
    its start.  [select] chooses among results, the context and the phase timer
    in an order that is an argument ([SelectEvent]); the reader's timeout only
    bounds when the timer fires.  Hashing and checking a header, the JSON of a
    receipt and its bloom filter are go-ethereum's: the class [Geth].  Lower case
    and white space of Unicode strings are parameters as well. *)

From S2P Require Import Prelude GoTime Bytes Domain Bolt.
From Stdlib Require Import Strings.Byte.

Module RpcQuorum.

Definition maxLogsPerResponse : Z := 20000.
Definition maxTopicsPerLog : Z := 4.
Definition maxLogDataBytes : Z := 2 ^ 20.

(** [ErrQuorumUnavailable], with the context error it wraps. *)
Inductive RpcError :=
| ErrInvalidProviders | ErrInvalidTimeout | ErrQuorumUnavailable (cause : option CtxErr) | ErrQuorumMismatch
| ErrMalformedResponse | ErrInvalidBlockRef | ErrInvalidFilterQuery | ErrUnfinalizedReceipt.

#[export] Instance RpcError_eq_dec : EqDecision RpcError.
Proof. solve_decision. Defined.

Record BlockRef := mkBlockRef {
  Ref_Number : Z;
  Ref_Hash : Hash;
  Ref_ParentHash : Hash;
  Ref_Timestamp : Z }.

#[export] Instance BlockRef_eq_dec : EqDecision BlockRef.
Proof. solve_decision. Defined.

Definition zeroRef : BlockRef := mkBlockRef 0 zeroHash zeroHash 0.

(** ** Types of go-ethereum, as far as they are read; [None] is nil *)

Record Header := mkHeader {
  Hdr_Number : option Z;
  Hdr_Difficulty : option Z;
  Hdr_Extra : option bytes;
  Hdr_GasUsed : Z;
  Hdr_GasLimit : Z;
  Hdr_BaseFee : option Z;
  Hdr_ParentHash : Hash;
  Hdr_Time : Z;
  Hdr_rest : bytes }.

Record Log := mkLog {
  Log_Address : Address;
  Log_Topics : option (list Hash);
  Log_Data : option bytes;
  Log_BlockNumber : Z;
  Log_TxHash : Hash;
  Log_TxIndex : Z;
  Log_BlockHash : Hash;
  Log_BlockTimestamp : Z;
  Log_Index : Z;
  Log_Removed : bool }.

Record Receipt := mkReceipt {
  Rcpt_TxHash : Hash;
  Rcpt_BlockHash : Hash;
  Rcpt_BlockNumber : option Z;
  Rcpt_Logs : option (list (option Log));
  Rcpt_Status : Z;
  Rcpt_PostState : bytes;
  Rcpt_CumulativeGasUsed : Z;
  Rcpt_GasUsed : Z;
  Rcpt_EffectiveGasPrice : option Z;
  Rcpt_BlobGasPrice : option Z;
  Rcpt_TransactionIndex : Z;
  Rcpt_Bloom : bytes;
  Rcpt_rest : bytes }.

Record FilterQuery := mkFilterQuery {
  Query_BlockHash : option Hash;
  Query_FromBlock : option Z;
  Query_ToBlock : option Z;
  Query_Addresses : list Address;
  Query_Topics : list (list Hash) }.

Record CallMsg := mkCallMsg {
  Msg_To : option Address;
  Msg_Gas : Z;
  Msg_Data : bytes;
  Msg_rest : bytes }.

Record BaseReceiptFee := mkBaseReceiptFee {
  BF_TransactionHash : Hash;
  BF_BlockHash : Hash;
  BF_L1Fee : option Z }.

Class Geth := {
  headerHash : Header -> Hash;
  headerSane : Header -> bool;
  createBloom : Receipt -> bytes;
  receiptJSON : Receipt -> option bytes }.

(** A block number of the finalized block ([gethrpc.FinalizedBlockNumber]). *)
Definition FinalizedBlockNumber : Z := -3.

(** [big.Int.IsUint64] *)
Definition isUint64 (z : Z) : bool := inUb 64 z.

(** ** Providers *)

(** What one provider answered in a phase: the value, its error, and the error of
    the call's context afterwards. *)
Inductive BackendErr := BackendOther | BackendContext (e : CtxErr).

Record Outcome (T : Type) := mkOutcome {
  out_value : T;
  out_err : option BackendErr;
  out_contextErr : option CtxErr }.
Arguments mkOutcome {T} _ _ _.
Arguments out_value {T} _.
Arguments out_err {T} _.
Arguments out_contextErr {T} _.

Record HistoricalReader := mkReader {
  HeaderByNumber : nat -> option Z -> Outcome (option Header);
  BalanceAtHash : nat -> Address -> Hash -> Outcome (option Z);
  CodeAtHash : nat -> Address -> Hash -> Outcome (option bytes);
  CallContractAtHash : nat -> CallMsg -> Hash -> Outcome (option bytes);
  ReceiptByHash : nat -> Hash -> Outcome (option Receipt);
  LogsByQuery : nat -> FilterQuery -> Outcome (option (list Log));
  baseReceiptFee : option (nat -> Hash -> Outcome (option BaseReceiptFee)) }.

Record ProviderIdentity := mkIdentity {
  Prov_ID : bytes;
  Prov_Fingerprint : bytes;
  Prov_TrustDomain : bytes }.

(** [prov_instance] is the type and address behind the reader's interface value,
    [None] when it is nil or not a pointer. *)
Record Provider := mkProvider {
  prov_Identity : ProviderIdentity;
  prov_instance : option (Z * Z);
  prov_hasClose : bool;
  prov_Reader : HistoricalReader }.

Record QuorumReader := mkQuorumReader {
  quorum_providers : list Provider;
  quorum_timeout : Duration }.

(** [closeOnce]: the flag afterwards and the providers that are closed. *)
Definition CloseReader (closed : bool) (reader : QuorumReader) : bool * list Provider := (true, if closed then [] else quorum_providers reader).

Section Identities.
Variables (ToLower TrimSpace : bytes -> bytes).

Definition normalizedIdentity (value : bytes) : bytes := ToLower (TrimSpace value).

(** The identities seen so far, field by field. *)
Definition checkIdentity (seen : list bytes * list bytes * list bytes) (identity : ProviderIdentity)
    : result RpcError (list bytes * list bytes * list bytes) :=
  let '(ids, fingerprints, trustDomains) := seen in
  let id := normalizedIdentity (Prov_ID identity) in
  let fingerprint := normalizedIdentity (Prov_Fingerprint identity) in
  let trustDomain := normalizedIdentity (Prov_TrustDomain identity) in
  reject bytes_eqb id [] || bytes_eqb fingerprint [] || bytes_eqb trustDomain [] with ErrInvalidProviders in
  reject bool_decide (id ∈ ids) || bool_decide (fingerprint ∈ fingerprints) || bool_decide (trustDomain ∈ trustDomains)
    with ErrInvalidProviders in
  Ok (id :: ids, fingerprint :: fingerprints, trustDomain :: trustDomains).

Definition validateProviderIdentities (identities : list ProviderIdentity) : result RpcError unit :=
  reject Z.of_nat (length identities) <? 2 with ErrInvalidProviders in
  let! _ := foldM checkIdentity identities ([], [], []) in
  Ok tt.

Definition checkReader (readers : list (Z * Z)) (provider : Provider) : result RpcError (list (Z * Z)) :=
  let? readerID := prov_instance provider orelse ErrInvalidProviders in
  reject negb (prov_hasClose provider) || bool_decide (readerID ∈ readers) with ErrInvalidProviders in
  Ok (readerID :: readers).

Definition validateProviders (providers : list Provider) : result RpcError unit :=
  reject Z.of_nat (length providers) <? 2 with ErrInvalidProviders in
  let! _ := foldM checkReader providers [] in
  validateProviderIdentities (map prov_Identity providers).

Definition NewQuorumReader (providers : list Provider) (timeout : Duration) : result RpcError QuorumReader :=
  reject timeout <=? 0 with ErrInvalidTimeout in
  let! _ := validateProviders providers in
  Ok (mkQuorumReader providers timeout).

End Identities.

(** ** Collecting the answers *)

Definition redactedProviderError (parentErr : option CtxErr) (backendErr : option BackendErr) (callContextErr : option CtxErr) : RpcError :=
  match parentErr with
  | Some e => ErrQuorumUnavailable (Some e)
  | None =>
      if bool_decide (callContextErr = Some DeadlineExceeded) || match backendErr with Some (BackendContext DeadlineExceeded) => true | _ => false end
      then ErrQuorumUnavailable (Some DeadlineExceeded)
      else if bool_decide (callContextErr = Some Canceled) || match backendErr with Some (BackendContext Canceled) => true | _ => false end
      then ErrQuorumUnavailable (Some Canceled)
      else ErrQuorumUnavailable None
  end.

(** One choice of [select]: the result of one of the providers still out, with
    the parent context's error at that moment, or the context, or the timer. *)
Inductive SelectEvent :=
| ResultReady (k : nat) (parentErr : option CtxErr)
| ContextDone (e : CtxErr)
| PhaseTimeout (parentErr : option CtxErr).

(** [pending] are the providers still out, by index.  The timer fires at last. *)
Fixpoint collectLoop {T} (n : nat) (pending : list (nat * Outcome T)) (values : list T) (events : list SelectEvent) : result RpcError (list T) :=
  match n with
  | O => Ok values
  | S n' =>
      match events with
      | [] => Err (redactedProviderError None None (Some DeadlineExceeded))
      | ContextDone e :: _ => Err (redactedProviderError (Some e) None (Some e))
      | PhaseTimeout parentErr :: _ => Err (redactedProviderError parentErr None (Some DeadlineExceeded))
      | ResultReady k parentErr :: rest =>
          let k := (k mod length pending)%nat in
          match pending !! k with
          | None => Err (redactedProviderError parentErr None None)
          | Some (index, result) =>
              if bool_decide (is_Some (out_contextErr result)) || match out_err result with Some _ => true | None => false end
              then Err (redactedProviderError parentErr (out_err result) (out_contextErr result))
              else collectLoop n' (delete k pending) (<[index := out_value result]> values) rest
          end
      end
  end.

Definition collectProviders {T} (reader : QuorumReader) (events : list SelectEvent) (zero : T) (call : HistoricalReader -> Outcome T)
    : result RpcError (list T) :=
  let outcomes := map (fun provider => call (prov_Reader provider)) (quorum_providers reader) in
  collectLoop (length outcomes) (imap (fun index outcome => (index, outcome)) outcomes) (map (fun _ => zero) outcomes) events.

(** ** Blocks *)

Section Reads.
Context {G : Geth}.

(** How [select] goes in each phase. *)
Definition Schedule := nat -> list SelectEvent.

Definition blockRefFromHeader (header : option Header) (expected : option Z) : result RpcError BlockRef :=
  match header with
  | None => Err ErrMalformedResponse
  | Some header =>
      match Hdr_Number header, Hdr_Difficulty header with
      | Some number, Some difficulty =>
          reject negb (isUint64 number) || (difficulty <? 0) || negb (bool_decide (is_Some (Hdr_Extra header)))
              || (Hdr_GasLimit header <? Hdr_GasUsed header) || match Hdr_BaseFee header with Some fee => fee <? 0 | None => false end
              || negb (headerSane header) with ErrMalformedResponse in
          reject match expected with Some expected => negb (number =? expected) | None => false end with ErrMalformedResponse in
          Ok (mkBlockRef number (headerHash header) (Hdr_ParentHash header) (Hdr_Time header))
      | _, _ => Err ErrMalformedResponse
      end
  end.

(** [index == 0]: the first answer; the others are compared with it. *)
Definition agreeRef (number : Z) (agreed : option BlockRef) (header : option Header) : result RpcError (option BlockRef) :=
  let! ref := blockRefFromHeader header (Some number) in
  match agreed with
  | None => Ok (Some ref)
  | Some agreed => reject negb (bool_decide (ref = agreed)) with ErrQuorumMismatch in Ok (Some agreed)
  end.

Definition QuorumHeader (reader : QuorumReader) (s : Schedule) (t : nat) (number : Z) : result RpcError BlockRef :=
  let! headers := collectProviders reader (s t) None (fun p => HeaderByNumber p t (Some number)) in
  let! agreed := foldM (agreeRef number) headers None in
  Ok (default zeroRef agreed).

(** The lowest height, the first reference and whether all agree so far. *)
Definition headStep (state : Z * BlockRef * bool) (header : option Header) : result RpcError (Z * BlockRef * bool) :=
  let '(minimum, first, agree) := state in
  let! ref := blockRefFromHeader header None in
  let minimum := if Ref_Number ref <? minimum then Ref_Number ref else minimum in
  Ok (if bytes_eqb (Ref_Hash first) zeroHash then (minimum, ref, agree)
      else (minimum, first, agree && bool_decide (first = ref))).

Definition commonHead (reader : QuorumReader) (s : Schedule) (t : nat) (tag : option Z) : result RpcError BlockRef :=
  let! headers := collectProviders reader (s t) None (fun p => HeaderByNumber p t tag) in
  let! (minimum, first, agree) := foldM headStep headers (2 ^ 64 - 1, zeroRef, true) in
  if agree : bool then Ok first else QuorumHeader reader s (S t) minimum.

Definition Finalized (reader : QuorumReader) (s : Schedule) (t : nat) : result RpcError BlockRef :=
  commonHead reader s t (Some FinalizedBlockNumber).

Definition Latest (reader : QuorumReader) (s : Schedule) (t : nat) : result RpcError BlockRef := commonHead reader s t None.

Definition requireCanonicalBlock (reader : QuorumReader) (s : Schedule) (t : nat) (block : BlockRef) : result RpcError unit :=
  reject bytes_eqb (Ref_Hash block) zeroHash with ErrInvalidBlockRef in
  let! canonical := QuorumHeader reader s t (Ref_Number block) in
  reject negb (bool_decide (canonical = block)) with ErrInvalidBlockRef in
  Ok tt.

(** ** Balances, code and calls *)

Definition agreeBalance (agreed : option Z) (balance : option Z) : result RpcError (option Z) :=
  let? balance := balance orelse ErrMalformedResponse in
  reject balance <? 0 with ErrMalformedResponse in
  match agreed with
  | None => Ok (Some balance)
  | Some agreed => reject negb (agreed =? balance) with ErrQuorumMismatch in Ok (Some agreed)
  end.

Definition balanceAtHash (reader : QuorumReader) (s : Schedule) (t : nat) (block : BlockRef) (account : Address) : result RpcError (option Z) :=
  let! balances := collectProviders reader (s t) None (fun p => BalanceAtHash p t account (Ref_Hash block)) in
  foldM agreeBalance balances None.

Definition BalanceAt (reader : QuorumReader) (s : Schedule) (t : nat) (block : BlockRef) (account : Address) : result RpcError (option Z) :=
  let! _ := requireCanonicalBlock reader s t block in
  balanceAtHash reader s (S t) block account.

Definition agreeBytes (agreed : option bytes) (response : option bytes) : result RpcError (option bytes) :=
  let? response := response orelse ErrMalformedResponse in
  match agreed with
  | None => Ok (Some response)
  | Some agreed => reject negb (bytes_eqb agreed response) with ErrQuorumMismatch in Ok (Some agreed)
  end.

Definition unanimousBytes (responses : result RpcError (list (option bytes))) : result RpcError (option bytes) :=
  let! responses := responses in
  foldM agreeBytes responses None.

Definition CodeAt (reader : QuorumReader) (s : Schedule) (t : nat) (block : BlockRef) (account : Address) : result RpcError (option bytes) :=
  let! _ := requireCanonicalBlock reader s t block in
  unanimousBytes (collectProviders reader (s (S t)) None (fun p => CodeAtHash p (S t) account (Ref_Hash block))).

Definition callAtHash (reader : QuorumReader) (s : Schedule) (t : nat) (block : BlockRef) (call : CallMsg) : result RpcError (option bytes) :=
  unanimousBytes (collectProviders reader (s t) None (fun p => CallContractAtHash p t call (Ref_Hash block))).

Definition CallContract (reader : QuorumReader) (s : Schedule) (t : nat) (block : BlockRef) (call : CallMsg) : result RpcError (option bytes) :=
  let! _ := requireCanonicalBlock reader s t block in
  callAtHash reader s (S t) block call.

(** [PinnedState]: reads at one block that was agreed on before. *)
Record PinnedState := mkPinned {
  pinned_reader : QuorumReader;
  pinned_block : BlockRef }.

Definition Pin (reader : QuorumReader) (block : BlockRef) : PinnedState := mkPinned reader block.

Definition PinnedBalanceAt (state : PinnedState) (s : Schedule) (t : nat) (block : BlockRef) (account : Address) : result RpcError (option Z) :=
  reject negb (bool_decide (block = pinned_block state)) || bytes_eqb (Ref_Hash block) zeroHash with ErrInvalidBlockRef in
  balanceAtHash (pinned_reader state) s t block account.

Definition PinnedCallContract (state : PinnedState) (s : Schedule) (t : nat) (block : BlockRef) (call : CallMsg) : result RpcError (option bytes) :=
  reject negb (bool_decide (block = pinned_block state)) || bytes_eqb (Ref_Hash block) zeroHash with ErrInvalidBlockRef in
  callAtHash (pinned_reader state) s t block call.

(** ** Logs *)

Record logFilterAnchor := mkAnchor {
  anchor_from : Z;
  anchor_to : Z;
  anchor_blockHash : option Hash }.

Definition explicitFilterAnchor (query : FilterQuery) : result RpcError logFilterAnchor :=
  match Query_BlockHash query with
  | Some hash =>
      reject bool_decide (is_Some (Query_FromBlock query)) || bool_decide (is_Some (Query_ToBlock query)) || bytes_eqb hash zeroHash
        with ErrInvalidFilterQuery in
      Ok (mkAnchor 0 0 (Some hash))
  | None =>
      let? from := Query_FromBlock query orelse ErrInvalidFilterQuery in
      let? to := Query_ToBlock query orelse ErrInvalidFilterQuery in
      reject negb (isUint64 from) || negb (isUint64 to) with ErrInvalidFilterQuery in
      reject to <? from with ErrInvalidFilterQuery in
      Ok (mkAnchor from to None)
  end.

Definition validateLog (log : Log) (anchor : logFilterAnchor) : result RpcError unit :=
  reject Log_Removed log || bytes_eqb (Log_BlockHash log) zeroHash || bytes_eqb (Log_TxHash log) zeroHash
      || match Log_Topics log with None => true | Some topics => maxTopicsPerLog <? Z.of_nat (length topics) end
      || match Log_Data log with None => true | Some data => maxLogDataBytes <? len data end with ErrMalformedResponse in
  reject match anchor_blockHash anchor with
         | Some hash => negb (bytes_eqb (Log_BlockHash log) hash)
         | None => (Log_BlockNumber log <? anchor_from anchor) || (anchor_to anchor <? Log_BlockNumber log)
         end with ErrMalformedResponse in
  Ok tt.

Definition encodeLog (log : Log) : bytes :=
  let topics := default [] (Log_Topics log) in
  let data := default [] (Log_Data log) in
  let encoded := Log_Address log in
  let encoded := appendUint64 encoded (Z.of_nat (length topics)) in
  let encoded := encoded ++ concat topics in
  let encoded := appendUint64 encoded (len data) in
  let encoded := encoded ++ data in
  let encoded := appendUint64 encoded (Log_BlockNumber log) in
  let encoded := encoded ++ Log_TxHash log in
  let encoded := appendUint64 encoded (Log_TxIndex log) in
  let encoded := encoded ++ Log_BlockHash log in
  let encoded := appendUint64 encoded (Log_BlockTimestamp log) in
  let encoded := appendUint64 encoded (Log_Index log) in
  encoded ++ [x00].

Definition logIdentity (log : Log) : Hash * Hash * Z := (Log_BlockHash log, Log_TxHash log, Log_Index log).

(** The order of [sort.Slice]; two logs it does not order have one encoding. *)
Definition log_lt (left right : Log) : bool :=
  if negb (Log_BlockNumber left =? Log_BlockNumber right) then Log_BlockNumber left <? Log_BlockNumber right
  else if negb (Log_TxIndex left =? Log_TxIndex right) then Log_TxIndex left <? Log_TxIndex right
  else if negb (Log_Index left =? Log_Index right) then Log_Index left <? Log_Index right
  else bytes_ltb (encodeLog left) (encodeLog right).

Definition log_le (left right : Log) : Prop := log_lt right left = false.

#[export] Instance log_le_dec : RelDecision log_le.
Proof. intros left right. unfold log_le. apply _. Defined.

(** The encodings seen by identity, and the logs kept. *)
Definition normalizeStep (anchor : logFilterAnchor) (state : gmap (Hash * Hash * Z) bytes * list Log) (log : Log)
    : result RpcError (gmap (Hash * Hash * Z) bytes * list Log) :=
  let (seen, normalized) := state in
  let! _ := validateLog log anchor in
  let encoded := encodeLog log in
  match seen !! logIdentity log with
  | Some previous => reject negb (bytes_eqb previous encoded) with ErrMalformedResponse in Ok (seen, normalized)
  | None => Ok (<[logIdentity log := encoded]> seen, normalized ++ [log])
  end.

(** The sorted logs without repetitions; their encodings are [map encodeLog]. *)
Definition normalizeLogs (logs : option (list Log)) (anchor : logFilterAnchor) : result RpcError (list Log * list bytes) :=
  let? logs := logs orelse ErrMalformedResponse in
  reject maxLogsPerResponse <? Z.of_nat (length logs) with ErrMalformedResponse in
  let! (_, normalized) := foldM (normalizeStep anchor) logs (∅, []) in
  let normalized := merge_sort log_le normalized in
  Ok (normalized, map encodeLog normalized).

Definition agreeLogs (anchor : logFilterAnchor) (agreed : option (list Log * list bytes)) (response : option (list Log))
    : result RpcError (option (list Log * list bytes)) :=
  let! (normalized, encoding) := normalizeLogs response anchor in
  match agreed with
  | None => Ok (Some (normalized, encoding))
  | Some (agreed, agreedEncoding) => reject negb (bool_decide (agreedEncoding = encoding)) with ErrQuorumMismatch in Ok (Some (agreed, agreedEncoding))
  end.

Definition FilterLogs (reader : QuorumReader) (s : Schedule) (t : nat) (query : FilterQuery) : result RpcError (list Log) :=
  let! anchor := explicitFilterAnchor query in
  let! responses := collectProviders reader (s t) None (fun p => LogsByQuery p t query) in
  let! agreed := foldM (agreeLogs anchor) responses None in
  Ok (match agreed with Some (logs, _) => logs | None => [] end).

(** ** Receipts *)

Definition validateReceiptLog (receipt : Receipt) (transaction : Hash) (number : Z) (log : option Log) : result RpcError unit :=
  let? log := log orelse ErrMalformedResponse in
  reject negb (Log_BlockNumber log =? number) || negb (bytes_eqb (Log_BlockHash log) (Rcpt_BlockHash receipt))
      || negb (bytes_eqb (Log_TxHash log) transaction) || negb (Log_TxIndex log =? Rcpt_TransactionIndex receipt) with ErrMalformedResponse in
  validateLog log (mkAnchor number number None).

(** [ReceiptStatusSuccessful] is 1 and [ReceiptStatusFailed] is 0. *)
Definition validateReceipt (receipt : option Receipt) (transaction : Hash) : result RpcError unit :=
  let? receipt := receipt orelse ErrMalformedResponse in
  reject negb (bytes_eqb (Rcpt_TxHash receipt) transaction) || bytes_eqb (Rcpt_BlockHash receipt) zeroHash with ErrMalformedResponse in
  let? number := Rcpt_BlockNumber receipt orelse ErrMalformedResponse in
  let? logs := Rcpt_Logs receipt orelse ErrMalformedResponse in
  reject negb (isUint64 number) || (maxLogsPerResponse <? Z.of_nat (length logs)) || (1 <? Rcpt_Status receipt)
      || (negb (len (Rcpt_PostState receipt) =? 0) && negb (len (Rcpt_PostState receipt) =? 32))
      || (negb (len (Rcpt_PostState receipt) =? 0) && negb (Rcpt_Status receipt =? 0))
      || (Rcpt_CumulativeGasUsed receipt <? Rcpt_GasUsed receipt)
      || match Rcpt_EffectiveGasPrice receipt with Some price => price <? 0 | None => false end
      || match Rcpt_BlobGasPrice receipt with Some price => price <? 0 | None => false end with ErrMalformedResponse in
  let! _ := foldM (fun _ => validateReceiptLog receipt transaction number) logs tt in
  reject negb (bytes_eqb (Rcpt_Bloom receipt) (createBloom receipt)) with ErrMalformedResponse in
  Ok tt.

Definition agreeReceipt (transaction : Hash) (agreed : option (Receipt * bytes)) (receipt : option Receipt)
    : result RpcError (option (Receipt * bytes)) :=
  let! _ := validateReceipt receipt transaction in
  let? receipt := receipt orelse ErrMalformedResponse in
  let? encoded := receiptJSON receipt orelse ErrMalformedResponse in
  match agreed with
  | None => Ok (Some (receipt, encoded))
  | Some (agreed, agreedJSON) => reject negb (bytes_eqb agreedJSON encoded) with ErrQuorumMismatch in Ok (Some (agreed, agreedJSON))
  end.

(** A quorum has two providers at least, so there is an agreed receipt. *)
Definition receiptBelow (reader : QuorumReader) (s : Schedule) (t : nat) (transaction : Hash) (ceiling : Z) : result RpcError Receipt :=
  let! receipts := collectProviders reader (s t) None (fun p => ReceiptByHash p t transaction) in
  let! agreed := foldM (agreeReceipt transaction) receipts None in
  let? (agreed, _) := agreed orelse ErrMalformedResponse in
  let? number := Rcpt_BlockNumber agreed orelse ErrMalformedResponse in
  reject ceiling <? number with ErrUnfinalizedReceipt in
  let! canonical := QuorumHeader reader s (S t) number in
  reject negb (bytes_eqb (Rcpt_BlockHash agreed) (Ref_Hash canonical)) with ErrQuorumMismatch in
  Ok agreed.

Definition QuorumReceipt (reader : QuorumReader) (s : Schedule) (t : nat) (transaction : Hash) : result RpcError Receipt :=
  reject bytes_eqb transaction zeroHash with ErrMalformedResponse in
  let! finalized := Finalized reader s t in
  receiptBelow reader s (S (S t)) transaction (Ref_Number finalized).

Definition MinedReceipt (reader : QuorumReader) (s : Schedule) (t : nat) (transaction : Hash) : result RpcError Receipt :=
  reject bytes_eqb transaction zeroHash with ErrMalformedResponse in
  receiptBelow reader s t transaction (2 ^ 64 - 1).

(** ** Additional fees of Base *)

Definition baseGasOracle : Address := [x42] ++ zero_bytes 18 ++ [x0f].

(** [big.Int.FillBytes] of the last 32 of 36 bytes. *)
Definition oracleData (selector : bytes) (value : Z) : bytes := selector ++ be_bytes 32 value.

(** [call] is the reader's CallContract at the block. *)
Definition baseOracleFee (call : CallMsg -> result RpcError (option bytes)) (selector : bytes) (value : Z) : result RpcError Z :=
  let! result := call (mkCallMsg (Some baseGasOracle) 200000 (oracleData selector value) []) in
  let result := default [] result in
  reject negb (len result =? 32) with ErrMalformedResponse in
  Ok (be_value result).

Definition l1FeeSelector : bytes := [xf1; xc7; xa5; x8b].
Definition operatorFeeSelector : bytes := [x27; x5a; xed; xd2].

(** The two calls run concurrently; the error of the one that ends first counts. *)
Definition EstimateBaseAdditionalFee (nilArguments : bool) (l1Call operatorCall : CallMsg -> result RpcError (option bytes))
    (operatorFirst : bool) (calldataBytes gas : Z) : result RpcError Z :=
  reject nilArguments || (calldataBytes <? 0) || (2 ^ 16 <? calldataBytes) || (gas =? 0) with ErrMalformedResponse in
  let l1 := baseOracleFee l1Call l1FeeSelector (calldataBytes + 1024) in
  let operator := baseOracleFee operatorCall operatorFeeSelector gas in
  let! first := (if operatorFirst then operator else l1) in
  let! second := (if operatorFirst then l1 else operator) in
  reject 2 ^ 256 <=? first + second with ErrMalformedResponse in
  Ok (first + second).

Definition addBaseFees (left right : Z) : result RpcError Z :=
  let result := left + right in
  reject (result <? 0) || (2 ^ 256 <=? result) with ErrMalformedResponse in
  Ok result.

Definition agreeBaseFee (receipt : Receipt) (agreed : option Z) (fee : option BaseReceiptFee) : result RpcError (option Z) :=
  let? fee := fee orelse ErrMalformedResponse in
  let? value := BF_L1Fee fee orelse ErrMalformedResponse in
  reject negb (bytes_eqb (BF_TransactionHash fee) (Rcpt_TxHash receipt)) || negb (bytes_eqb (BF_BlockHash fee) (Rcpt_BlockHash receipt))
    with ErrMalformedResponse in
  reject (value <? 0) || (2 ^ 256 <=? value) with ErrMalformedResponse in
  match agreed with
  | Some agreed => reject negb (agreed =? value) with ErrQuorumMismatch in Ok (Some value)
  | None => Ok (Some value)
  end.

(** A provider without the Base receipts answers with an error. *)
Definition baseFeeCall (transaction : Hash) (t : nat) (p : HistoricalReader) : Outcome (option BaseReceiptFee) :=
  match baseReceiptFee p with
  | Some call => call t transaction
  | None => mkOutcome None (Some BackendOther) None
  end.

Definition BaseAdditionalFee (reader : QuorumReader) (s : Schedule) (t : nat) (receipt : option Receipt) : result RpcError Z :=
  let? receipt := receipt orelse ErrMalformedResponse in
  let? number := Rcpt_BlockNumber receipt orelse ErrMalformedResponse in
  reject negb (isUint64 number) || bytes_eqb (Rcpt_TxHash receipt) zeroHash with ErrMalformedResponse in
  let! block := errOr ErrQuorumMismatch (QuorumHeader reader s t number) in
  reject negb (bytes_eqb (Ref_Hash block) (Rcpt_BlockHash receipt)) with ErrQuorumMismatch in
  let! fees := collectProviders reader (s (S t)) None (baseFeeCall (Rcpt_TxHash receipt) (S t)) in
  let! agreed := foldM (agreeBaseFee receipt) fees None in
  let? agreed := agreed orelse ErrMalformedResponse in
  let! operator := baseOracleFee (CallContract reader s (S (S t)) block) operatorFeeSelector (Rcpt_GasUsed receipt) in
  addBaseFees agreed operator.

End Reads.
End RpcQuorum.
Export RpcQuorum.
