(* ===== verification/RpcTheorems.v ===== *)
(** * Reads by quorum: unanimity

    Whatever the order of the answers, the deadlines and the other providers'
    behaviour, a read that succeeds returns what every provider answered without
    an error: one provider that tells the truth is enough for a true answer.  If
    all answer alike in time, the read succeeds. *)

From S2P Require Import Prelude GoTime Bytes Domain Bolt RpcQuorum.
From Stdlib Require Import Strings.Byte.

Module RpcTheorems.

(** ** Collecting *)

(** The answer came without an error. *)
Definition answered {T} (o : Outcome T) (v : T) : Prop := o = mkOutcome v None None.

(** Every answer is still out, or has arrived and is in its place. *)
Definition collected {T} (outs : list (Outcome T)) (pending : list (nat * Outcome T)) (values : list T) : Prop :=
  length values = length outs /\ (forall i o, (i, o) ∈ pending -> outs !! i = Some o) /\
  forall i o, outs !! i = Some o -> (i, o) ∈ pending \/ exists v, answered o v /\ values !! i = Some v.

Lemma collected_step {T} outs (pending : list (nat * Outcome T)) values k i o :
  collected outs pending values -> pending !! k = Some (i, o) -> out_err o = None -> out_contextErr o = None ->
  collected outs (delete k pending) (<[i := out_value o]> values).
Proof.
  intros (Hl & Hp & Hv) Hk He Hc. assert (Ho : outs !! i = Some o) by (apply Hp; by eapply list_elem_of_lookup_2).
  assert (Hperm : pending ≡ₚ (i, o) :: delete k pending) by (by apply delete_Permutation).
  assert (Hans : answered o (out_value o)) by (destruct o; cbn in *; by subst).
  assert (Hi : (i < length values)%nat) by (rewrite Hl; by eapply lookup_lt_Some).
  split; [by rewrite length_insert|]. split.
  - intros j o' Hin. apply Hp. rewrite Hperm. by right.
  - intros j o' Hj. destruct (decide (j = i)) as [->|Hne].
    + right. exists (out_value o). rewrite Hj in Ho. injection Ho as ->. split; [done|]. by rewrite list_lookup_insert_eq.
    + destruct (Hv j o' Hj) as [Hin|(v & Ha & Hval)]; [|right; exists v; by rewrite list_lookup_insert_ne].
      rewrite Hperm in Hin. apply elem_of_cons in Hin as [[= -> _]|Hin]; [done|by left].
Qed.

Lemma collectLoop_ok {T} n outs (pending : list (nat * Outcome T)) values events vs :
  length pending = n -> collected outs pending values -> collectLoop n pending values events = Ok vs -> Forall2 answered outs vs.
Proof.
  revert pending values events. induction n as [|n IH]; intros pending values events Hn Hc; cbn [collectLoop].
  - intros [= <-]. destruct Hc as (Hl & _ & Hv). destruct pending; [|done]. apply Forall2_same_length_lookup_2; [done|].
    intros i o v Ho Hval. destruct (Hv i o Ho) as [Hin|(v' & Ha & Hv')]; [by apply elem_of_nil in Hin|]. congruence.
  - destruct events as [|[k p|e|p] events]; try done. destruct (pending !! _) as [[i o]|] eqn:Ek; [|done].
    destruct (_ || _) eqn:Eb; [done|]. apply orb_false_iff in Eb as [Ec Ee]. apply bool_decide_eq_false in Ec.
    apply IH.
    + rewrite length_delete; [lia|]. rewrite Ek. by eexists.
    + eapply collected_step; [done|exact Ek|by destruct (out_err o)|by destruct (out_contextErr o); [destruct Ec; eexists|]].
Qed.

Lemma collected_start {T} (outs : list (Outcome T)) zero : collected outs (imap (fun index outcome => (index, outcome)) outs) (map (fun _ => zero) outs).
Proof.
  split; [by rewrite length_map|]. split.
  - intros i o (j & Hj)%list_elem_of_lookup_1. rewrite list_lookup_imap in Hj. destruct (outs !! j) eqn:E; [|done]. cbn in Hj. injection Hj as <- <-. done.
  - intros i o Ho. left. apply (list_elem_of_lookup_2 _ i). by rewrite list_lookup_imap, Ho.
Qed.

(** A successful phase has every provider's answer, in the providers' order. *)
Lemma collectProviders_ok {T} reader events zero (call : HistoricalReader -> Outcome T) vs :
  collectProviders reader events zero call = Ok vs ->
  Forall2 (fun p v => answered (call (prov_Reader p)) v) (quorum_providers reader) vs.
Proof.
  unfold collectProviders. intros H%(collectLoop_ok _ (map (fun p => call (prov_Reader p)) (quorum_providers reader))); [|by rewrite length_imap|apply collected_start].
  exact (proj1 (Forall2_fmap_l (fun p => call (prov_Reader p)) answered _ _) H).
Qed.

(** ** Agreeing

    Each loop reads a value from every answer and compares it with the first. *)

Definition agreeStep {A V} (read : A -> result RpcError V) (same : V -> V -> bool) (agreed : option V) (x : A) : result RpcError (option V) :=
  let! v := read x in
  match agreed with
  | None => Ok (Some v)
  | Some a => reject negb (same a v) with ErrQuorumMismatch in Ok (Some a)
  end.

Lemma agree_from {A V} read (same : V -> V -> bool) (xs : list A) a r :
  foldM (agreeStep read same) xs (Some a) = Ok r -> r = Some a /\ forall x, x ∈ xs -> exists v, read x = Ok v /\ same a v = true.
Proof.
  revert r. induction xs as [|x xs IH]; intros r; cbn [foldM]; [intros [= <-]; split; [done|]; by intros x ?%elem_of_nil|].
  unfold agreeStep at 1. destruct (read x) as [v|] eqn:E; [|done]. destruct (same a v) eqn:Es; cbn [negb]; [|done].
  intros [-> H]%IH. split; [done|]. intros y [->|Hy]%elem_of_cons; [by exists v|by apply H].
Qed.

Lemma agree_ok {A V} read (same : V -> V -> bool) (xs : list A) r :
  (forall v, same v v = true) -> xs <> [] -> foldM (agreeStep read same) xs None = Ok r ->
  exists a, r = Some a /\ (exists x, x ∈ xs /\ read x = Ok a) /\ forall x, x ∈ xs -> exists v, read x = Ok v /\ same a v = true.
Proof.
  intros Hrefl Hne. destruct xs as [|x xs]; [done|]. cbn [foldM]. unfold agreeStep at 1. destruct (read x) as [a|] eqn:E; [|done].
  intros [-> H]%agree_from. exists a. split; [done|]. split; [exists x; split; [by left|done]|]. intros y [->|Hy]%elem_of_cons; [by exists a|by apply H].
Qed.

(** The same from the answers of the providers. *)
Lemma quorum_agrees {A V} reader events zero (call : HistoricalReader -> Outcome A) read (same : V -> V -> bool) xs r :
  (forall v, same v v = true) -> quorum_providers reader <> [] -> collectProviders reader events zero call = Ok xs ->
  foldM (agreeStep read same) xs None = Ok r ->
  exists a, r = Some a /\ (exists x, read x = Ok a) /\
    forall p, p ∈ quorum_providers reader -> exists x v, answered (call (prov_Reader p)) x /\ read x = Ok v /\ same a v = true.
Proof.
  intros Hrefl Hne Hc Hf. apply collectProviders_ok in Hc. pose proof (Forall2_length _ _ _ Hc) as Hl.
  destruct (agree_ok read same xs r Hrefl) as (a & -> & (x0 & _ & Hx0) & H); [intros ->; by destruct (quorum_providers reader)|done|].
  exists a. split; [done|]. split; [by exists x0|]. intros p Hp. destruct (Forall2_in_l _ _ _ _ Hc Hp) as (x & Hx & Ha). destruct (H x Hx) as (v & Hr & Hs). by exists x, v.
Qed.

Section Reads.
Context {G : Geth}.

Definition eqb_ref (a b : BlockRef) : bool := bool_decide (b = a).

Lemma agreeRef_step number agreed header : agreeRef number agreed header = agreeStep (fun h => blockRefFromHeader h (Some number)) eqb_ref agreed header.
Proof. reflexivity. Qed.

(** Every provider answered a header of that number that makes this reference. *)
Definition all_report (reader : QuorumReader) (t : nat) (tag : option Z) (expected : option Z) (ref : BlockRef) : Prop :=
  forall p, p ∈ quorum_providers reader ->
    exists h, answered (HeaderByNumber (prov_Reader p) t tag) h /\ blockRefFromHeader h expected = Ok ref.

Lemma QuorumHeader_unanimous reader s t number ref :
  quorum_providers reader <> [] -> QuorumHeader reader s t number = Ok ref -> all_report reader t (Some number) (Some number) ref.
Proof.
  intros Hne. unfold QuorumHeader. ok Ec. ok Ef. intros [= <-].
  destruct (quorum_agrees _ _ _ _ (fun h => blockRefFromHeader h (Some number)) eqb_ref _ _ ltac:(intros; by apply bool_decide_eq_true_2) Hne Ec Ef) as (a' & -> & _ & H).
  intros p Hp. destruct (H p Hp) as (h & v & Ha & Hr & Hs). exists h. split; [done|]. apply bool_decide_eq_true in Hs. by subst.
Qed.

Lemma requireCanonical_unanimous reader s t block :
  quorum_providers reader <> [] -> requireCanonicalBlock reader s t block = Ok tt ->
  all_report reader t (Some (Ref_Number block)) (Some (Ref_Number block)) block.
Proof.
  intros Hne. unfold requireCanonicalBlock. ok. ok Eh. ok Eb. intros _. apply negb_false_iff, bool_decide_eq_true in Eb as ->.
  by eapply QuorumHeader_unanimous.
Qed.

(** ** Heads *)

(** Go's hashes of headers are Keccak digests; none is the zero hash. *)
Definition hashes_nonzero : Prop := forall h, headerHash h <> zeroHash.

Lemma blockRef_hash header expected ref : hashes_nonzero -> blockRefFromHeader header expected = Ok ref -> bytes_eqb (Ref_Hash ref) zeroHash = false.
Proof.
  intros Hz. unfold blockRefFromHeader. destruct header as [h|]; [|done]. destruct (Hdr_Number h), (Hdr_Difficulty h); try done.
  ok. ok. intros [= <-]. cbn. apply bytes_eqb_false, Hz.
Qed.

Definition heads_inv (l : list (option Header)) (state : Z * BlockRef * bool) : Prop :=
  let '(minimum, first, agree) := state in
  match l with
  | [] => state = (2 ^ 64 - 1, zeroRef, true)
  | _ => bytes_eqb (Ref_Hash first) zeroHash = false /\
      forall h, h ∈ l -> exists r, blockRefFromHeader h None = Ok r /\ minimum <= Ref_Number r /\ (agree = true -> r = first)
  end.

Lemma headStep_inv l state h state' : hashes_nonzero -> heads_inv l state -> headStep state h = Ok state' -> heads_inv (l ++ [h]) state'.
Proof.
  intros Hz. destruct state as [[minimum first] agree]. unfold headStep. intros Hi. ok Er. intros [= <-].
  pose proof (blockRef_hash _ _ _ Hz Er) as Hh. set (m' := if Ref_Number a <? minimum then Ref_Number a else minimum).
  assert (Hm : m' <= minimum /\ m' <= Ref_Number a) by (subst m'; case_match; bool_hyps; lia).
  destruct l as [|x l]; unfold heads_inv in Hi; cbn [app heads_inv].
  - injection Hi as -> -> ->. rewrite (bytes_eqb_refl zeroHash : bytes_eqb (Ref_Hash zeroRef) zeroHash = true). split; [done|]. intros y ->%list_elem_of_singleton. exists a. split; [done|]. split; [lia|done].
  - destruct Hi as [Hf Hi]. rewrite Hf. split; [done|]. intros y Hy. change (y ∈ (x :: l) ++ [h]) in Hy. apply elem_of_app in Hy as [Hy| ->%list_elem_of_singleton].
    + destruct (Hi y Hy) as (r & E & Hle & Ha). exists r. split; [done|]. split; [lia|]. intros [H _]%andb_true_iff. by apply Ha.
    + exists a. split; [done|]. split; [lia|]. intros [_ H]%andb_true_iff. symmetry. by apply bool_decide_eq_true in H.
Qed.

(** Every provider's head is at least as high as the common one, and every
    provider reports it, as its head or as the block of its height. *)
Lemma commonHead_unanimous reader s t tag ref :
  hashes_nonzero -> quorum_providers reader <> [] -> commonHead reader s t tag = Ok ref ->
  (forall p, p ∈ quorum_providers reader -> exists h r, answered (HeaderByNumber (prov_Reader p) t tag) h /\ blockRefFromHeader h None = Ok r /\
     Ref_Number ref <= Ref_Number r) /\
  (all_report reader t tag None ref \/ all_report reader (S t) (Some (Ref_Number ref)) (Some (Ref_Number ref)) ref).
Proof.
  intros Hz Hne. unfold commonHead. ok Ec. ok Ef. destruct a0 as [[minimum first] agree]. apply collectProviders_ok in Ec.
  assert (Hi : heads_inv a (minimum, first, agree)).
  { apply (foldM_invariant heads_inv headStep a (2 ^ 64 - 1, zeroRef, true)); [done| |done]. intros. by eapply headStep_inv. }
  assert (Ha : a <> []) by (intros ->; apply Forall2_length in Ec; by destruct (quorum_providers reader)).
  assert (Hall : forall p, p ∈ quorum_providers reader -> exists h r, answered (HeaderByNumber (prov_Reader p) t tag) h /\
    blockRefFromHeader h None = Ok r /\ minimum <= Ref_Number r /\ (agree = true -> r = first)).
  { intros p Hp. destruct (Forall2_in_l _ _ _ _ Ec Hp) as (h & Hh & Hans). unfold heads_inv in Hi. destruct a; [done|].
    destruct (proj2 Hi h Hh) as (r & ? & ? & ?). by exists h, r. }
  destruct agree.
  - intros [= <-]. split; [|left]; intros p Hp; destruct (Hall p Hp) as (h & r & Hans & Hr & Hle & Hr2); specialize (Hr2 eq_refl); subst; [exists h, first|exists h]; done.
  - intros Hh. pose proof (QuorumHeader_unanimous _ _ _ _ _ Hne Hh) as Hu. destruct (quorum_providers reader) as [|p0 ps] eqn:Ep; [done|].
    assert (Hn : Ref_Number ref = minimum).
    { unfold all_report in Hu. rewrite Ep in Hu. destruct (Hu p0 ltac:(by left)) as (h & _ & Hr). revert Hr. unfold blockRefFromHeader. destruct h as [h|]; [|done].
      destruct (Hdr_Number h), (Hdr_Difficulty h); try done. ok. ok Ex. intros [= <-]. cbn. by apply negb_false_iff, Z.eqb_eq in Ex. }
    rewrite Hn. split; [|by right]. intros p Hp. destruct (Hall p Hp) as (h & r & ? & ? & ? & _). by exists h, r.
Qed.

(** ** Balances, bytes, logs and receipts *)

Definition readBalance (x : option Z) : result RpcError Z :=
  let? balance := x orelse ErrMalformedResponse in reject balance <? 0 with ErrMalformedResponse in Ok balance.

Lemma balance_unanimous reader s t block account v :
  quorum_providers reader <> [] -> balanceAtHash reader s t block account = Ok v ->
  exists z, v = Some z /\ 0 <= z /\ forall p, p ∈ quorum_providers reader -> answered (BalanceAtHash (prov_Reader p) t account (Ref_Hash block)) (Some z).
Proof.
  intros Hne. unfold balanceAtHash. ok Ec. rewrite (foldM_ext _ (agreeStep readBalance Z.eqb)).
  2:{ intros acc x _. unfold agreeBalance, agreeStep, readBalance. destruct x as [z|]; [|done]. by destruct (z <? 0). }
  intros Hf. destruct (quorum_agrees _ _ _ _ _ _ _ _ Z.eqb_refl Hne Ec Hf) as (z & -> & _ & H).
  assert (Hp : forall p, p ∈ quorum_providers reader -> 0 <= z /\ answered (BalanceAtHash (prov_Reader p) t account (Ref_Hash block)) (Some z)).
  { intros p Hp. destruct (H p Hp) as (x & v' & Ha & Hr & ->%Z.eqb_eq). revert Hr. unfold readBalance. destruct x as [y|]; [|done]. ok Ey. intros [= ->].
    bool_hyps. by split. }
  exists z. split; [done|]. split; [|intros p Hin; by apply Hp]. destruct (quorum_providers reader) as [|p ps]; [done|]. apply (Hp p). by left.
Qed.

Definition readBytes (x : option bytes) : result RpcError bytes := let? response := x orelse ErrMalformedResponse in Ok response.

Lemma bytes_unanimous reader events (call : HistoricalReader -> Outcome (option bytes)) v :
  quorum_providers reader <> [] -> unanimousBytes (collectProviders reader events None call) = Ok v ->
  exists data, v = Some data /\ forall p, p ∈ quorum_providers reader -> answered (call (prov_Reader p)) (Some data).
Proof.
  intros Hne. unfold unanimousBytes. ok Ec. rewrite (foldM_ext _ (agreeStep readBytes bytes_eqb)).
  2:{ intros acc x _. unfold agreeBytes, agreeStep, readBytes. by destruct x. }
  intros Hf. destruct (quorum_agrees _ _ _ _ _ _ _ _ bytes_eqb_refl Hne Ec Hf) as (data & -> & _ & H). exists data. split; [done|].
  intros p Hp. destruct (H p Hp) as (x & v' & Ha & Hr & ->%bytes_eqb_spec). destruct x as [y|]; [|done]. by injection Hr as ->.
Qed.

(** The logs are those of one answer, sorted and without repetitions, and every
    provider's logs have the same encodings. *)
Lemma FilterLogs_unanimous reader s t query logs :
  quorum_providers reader <> [] -> FilterLogs reader s t query = Ok logs ->
  exists anchor, explicitFilterAnchor query = Ok anchor /\ forall p, p ∈ quorum_providers reader ->
    exists response mine, answered (LogsByQuery (prov_Reader p) t query) response /\
      normalizeLogs response anchor = Ok (mine, map encodeLog mine) /\ map encodeLog mine = map encodeLog logs.
Proof.
  intros Hne. unfold FilterLogs. ok Ea. ok Ec. ok Ef. intros [= <-]. exists a. split; [done|].
  rewrite (foldM_ext _ (agreeStep (fun r => normalizeLogs r a) (fun x y => bool_decide (x.2 = y.2)))) in Ef.
  2:{ intros acc x _. unfold agreeLogs, agreeStep. destruct (normalizeLogs x a) as [[n e]|]; [|done]. by destruct acc as [[? ?]|]. }
  assert (Hform : forall r n e, normalizeLogs r a = Ok (n, e) -> e = map encodeLog n).
  { intros r n e. unfold normalizeLogs. destruct r as [l|]; [|done]. destruct (_ <? _); [done|]. destruct (foldM _ l _) as [[? ?]|]; [|done]. by intros [= <- <-]. }
  destruct (quorum_agrees _ _ _ _ _ (fun x y : list Log * list bytes => bool_decide (x.2 = y.2)) _ _ ltac:(intros; by apply bool_decide_eq_true_2) Hne Ec Ef) as ([logs enc] & -> & (x0 & Hx0) & H).
  pose proof (Hform _ _ _ Hx0) as Henc.
  intros p Hp. destruct (H p Hp) as (x & [n e] & Hans & Hr & Hs). apply bool_decide_eq_true in Hs. cbn in Hs. subst e.
  pose proof (Hform _ _ _ Hr) as He. exists x, n. rewrite He in Hr. split; [done|]. split; [done|]. by rewrite <- He, Henc.
Qed.

Definition readReceipt (transaction : Hash) (x : option Receipt) : result RpcError (Receipt * bytes) :=
  let! _ := validateReceipt x transaction in
  let? receipt := x orelse ErrMalformedResponse in
  let? encoded := receiptJSON receipt orelse ErrMalformedResponse in
  Ok (receipt, encoded).

(** Every provider answered a valid receipt with the same JSON, and reports its
    block at its height; the height is within the ceiling. *)
Lemma receipt_unanimous reader s t transaction ceiling receipt :
  quorum_providers reader <> [] -> receiptBelow reader s t transaction ceiling = Ok receipt ->
  exists number canonical, Rcpt_BlockNumber receipt = Some number /\ number <= ceiling /\ Ref_Hash canonical = Rcpt_BlockHash receipt /\
    all_report reader (S t) (Some number) (Some number) canonical /\
    forall p, p ∈ quorum_providers reader -> exists mine, answered (ReceiptByHash (prov_Reader p) t transaction) (Some mine) /\
      validateReceipt (Some mine) transaction = Ok tt /\ receiptJSON mine = receiptJSON receipt.
Proof.
  intros Hne. unfold receiptBelow. ok Ec. ok Ef. ok. destruct p as [agreed json]. ok En. ok Eceil. ok Eh. ok Eb. intros [= <-]. subst a0.
  rewrite (foldM_ext _ (agreeStep (readReceipt transaction) (fun x y => bytes_eqb x.2 y.2))) in Ef.
  2:{ intros acc x _. unfold agreeReceipt, agreeStep, readReceipt. destruct (validateReceipt x transaction); [|done]. destruct x as [r|]; [|done].
      destruct (receiptJSON r); [|done]. by destruct acc as [[? ?]|]. }
  assert (Hform : forall x r e, readReceipt transaction x = Ok (r, e) -> x = Some r /\ receiptJSON r = Some e /\ validateReceipt (Some r) transaction = Ok tt).
  { intros x r e. unfold readReceipt. destruct (validateReceipt x transaction) as [[]|] eqn:Ev; [|done]. destruct x as [r'|]; [|done].
    destruct (receiptJSON r') eqn:Ej; [|done]. intros [= <- <-]. by split_and!. }
  destruct (quorum_agrees _ _ _ _ _ (fun x y : Receipt * bytes => bytes_eqb x.2 y.2) _ _ ltac:(intros; apply bytes_eqb_refl) Hne Ec Ef) as ([r e] & [= <- <-] & (x0 & Hx0) & H).
  destruct (Hform _ _ _ Hx0) as (_ & Hj & _). apply negb_false_iff, bytes_eqb_spec in Eb. apply Z.ltb_ge in Eceil.
  exists z, a1. split; [done|]. split; [done|]. split; [done|]. split; [by eapply QuorumHeader_unanimous|].
  intros p Hp. destruct (H p Hp) as (x & [r' e'] & Hans & Hr & Hs). destruct (Hform _ _ _ Hr) as (-> & Hj' & Hv). apply bytes_eqb_spec in Hs. cbn in Hs.
  exists r'. split; [done|]. split; [done|]. congruence.
Qed.

(** ** Agreement in time succeeds *)

Definition is_result (e : SelectEvent) : Prop := match e with ResultReady _ _ => True | _ => False end.

Lemma collectLoop_complete {T} n (pending : list (nat * Outcome T)) values events :
  length pending = n -> (n <= length events)%nat -> Forall is_result events -> Forall (fun x => exists v, answered x.2 v) pending ->
  exists vs, collectLoop n pending values events = Ok vs.
Proof.
  revert pending values events. induction n as [|n IH]; intros pending values events Hn He Hr Hp; cbn [collectLoop]; [by eexists|].
  destruct events as [|e events]; [cbn in He; lia|]. apply Forall_cons in Hr as [Hr Hrs]. destruct e as [k parent| |]; try done.
  assert (Hk : (k mod length pending < length pending)%nat) by (apply Nat.mod_upper_bound; lia).
  destruct (lookup_lt_is_Some_2 _ _ Hk) as [[i o] Ek]. rewrite Ek.
  assert (Ho : exists v, answered o v) by (rewrite Forall_forall in Hp; apply (Hp (i, o)); by eapply list_elem_of_lookup_2). destruct Ho as [v Ho]. unfold answered in Ho. subst o. cbn.
  apply IH; [rewrite length_delete; [lia|by rewrite Ek; eexists]|cbn in He; lia|done|].
  rewrite (delete_Permutation _ _ _ Ek) in Hp. by apply Forall_cons in Hp as [_ ?].
Qed.

(** Results in any order, of providers that all report [ref]. *)
Lemma QuorumHeader_complete reader s t number ref :
  quorum_providers reader <> [] -> (length (quorum_providers reader) <= length (s t))%nat -> Forall is_result (s t) ->
  all_report reader t (Some number) (Some number) ref -> QuorumHeader reader s t number = Ok ref.
Proof.
  intros Hne Hlen Hr Hall. unfold QuorumHeader.
  assert (Hc : exists vs, collectProviders reader (s t) None (fun p => HeaderByNumber p t (Some number)) = Ok vs).
  { unfold collectProviders. apply collectLoop_complete; [by rewrite length_imap|by rewrite length_map|done|].
    apply Forall_forall. intros [i o] Hin. cbn. destruct (collected_start (map (fun p => HeaderByNumber (prov_Reader p) t (Some number)) (quorum_providers reader)) None) as (_ & H & _).
    apply H, list_elem_of_lookup_2 in Hin. apply list_elem_of_fmap in Hin as (p & -> & Hp). destruct (Hall p Hp) as (h & Ha & _). by exists h. }
  destruct Hc as [vs Ec]. rewrite Ec. apply collectProviders_ok in Ec.
  assert (Hv : Forall (fun h => blockRefFromHeader h (Some number) = Ok ref) vs).
  { apply Forall_forall. intros h Hh. destruct (Forall2_in_r _ _ _ _ Ec Hh) as (p & Hp & Ha). destruct (Hall p Hp) as (h' & Ha' & Hr').
    unfold answered in *. rewrite Ha in Ha'. by injection Ha' as ->. }
  assert (Hf : forall agreed, agreed = None \/ agreed = Some ref -> vs <> [] \/ agreed = Some ref -> foldM (agreeRef number) vs agreed = Ok (Some ref)).
  { clear -Hv. induction Hv as [|h vs Hh Hv IH]; intros agreed Ho Hs; cbn [foldM]; [by destruct Hs as [?| ->]|].
    unfold agreeRef at 1. rewrite Hh. destruct Ho as [->| ->]; [apply IH; by right|]. rewrite bool_decide_eq_true_2 by done. apply IH; by right. }
  rewrite Hf; [done|by left|]. left. intros ->. apply Forall2_length in Ec. by destruct (quorum_providers reader).
Qed.

(** ** Independent providers *)

Lemma foldM_checkIdentity ToLower TrimSpace l ids fps tds r :
  foldM (checkIdentity ToLower TrimSpace) l (ids, fps, tds) = Ok r ->
  let norm := fun f : ProviderIdentity -> bytes => map (fun i => normalizedIdentity ToLower TrimSpace (f i)) l in
  (NoDup ids -> NoDup (norm Prov_ID ++ ids)) /\ (NoDup fps -> NoDup (norm Prov_Fingerprint ++ fps)) /\ (NoDup tds -> NoDup (norm Prov_TrustDomain ++ tds)).
Proof.
  revert ids fps tds. induction l as [|i l IH]; intros ids fps tds; cbn [foldM map app]; [by intros _|]. unfold checkIdentity at 1.
  destruct (_ || _ || _); [done|]. destruct (_ || _) eqn:E; [done|]. intros (H1 & H2 & H3)%IH. bool_hyps.
  assert (Hmid : forall (a : bytes) k k', NoDup (k ++ a :: k') -> NoDup ((a :: k) ++ k')) by (intros a k k' Hn; cbn [app]; by rewrite (Permutation_middle k k' a)).
  split_and!; intros Hn; apply Hmid; [apply H1|apply H2|apply H3]; by constructor.
Qed.

Lemma NewQuorumReader_independent ToLower TrimSpace providers timeout reader :
  NewQuorumReader ToLower TrimSpace providers timeout = Ok reader ->
  reader = mkQuorumReader providers timeout /\ (2 <= length providers)%nat /\
  NoDup (map (fun p => normalizedIdentity ToLower TrimSpace (Prov_TrustDomain (prov_Identity p))) providers).
Proof.
  unfold NewQuorumReader. ok. ok Ev. intros [= <-]. split; [done|]. revert Ev. unfold validateProviders, validateProviderIdentities. ok El. ok. ok. ok Ef.
  intros _. bool_hyps. apply foldM_checkIdentity in Ef as (_ & _ & H). split; [lia|]. specialize (H (NoDup_nil_2)). rewrite app_nil_r, map_map in H. exact H.
Qed.

(** C34. A quorum reader has at least two providers of different trust domains,
    and whatever the timing and whatever the providers answer, a read that
    succeeds returns what every one of them said: the block of a height, a head no
    provider is behind, balances, code and call results at a block that every
    provider has at its height, the sorted logs, and receipts whose block is
    canonical for every provider and not above the ceiling.  If all report the
    same block in time, in any order, it is returned. *)
Theorem quorum_reads_are_unanimous ToLower TrimSpace providers timeout reader :
  hashes_nonzero -> NewQuorumReader ToLower TrimSpace providers timeout = Ok reader ->
  ((2 <= length providers)%nat /\ NoDup (map (fun p => normalizedIdentity ToLower TrimSpace (Prov_TrustDomain (prov_Identity p))) providers)) /\
  (forall s t number ref, QuorumHeader reader s t number = Ok ref -> all_report reader t (Some number) (Some number) ref) /\
  (forall s t tag ref, commonHead reader s t tag = Ok ref ->
    (forall p, p ∈ providers -> exists h r, answered (HeaderByNumber (prov_Reader p) t tag) h /\ blockRefFromHeader h None = Ok r /\
       Ref_Number ref <= Ref_Number r) /\
    (all_report reader t tag None ref \/ all_report reader (S t) (Some (Ref_Number ref)) (Some (Ref_Number ref)) ref)) /\
  (forall s t block account v, BalanceAt reader s t block account = Ok v ->
    all_report reader t (Some (Ref_Number block)) (Some (Ref_Number block)) block /\
    exists z, v = Some z /\ 0 <= z /\ forall p, p ∈ providers -> answered (BalanceAtHash (prov_Reader p) (S t) account (Ref_Hash block)) (Some z)) /\
  (forall s t block account v, CodeAt reader s t block account = Ok v ->
    all_report reader t (Some (Ref_Number block)) (Some (Ref_Number block)) block /\
    exists code, v = Some code /\ forall p, p ∈ providers -> answered (CodeAtHash (prov_Reader p) (S t) account (Ref_Hash block)) (Some code)) /\
  (forall s t block call v, CallContract reader s t block call = Ok v ->
    all_report reader t (Some (Ref_Number block)) (Some (Ref_Number block)) block /\
    exists data, v = Some data /\ forall p, p ∈ providers -> answered (CallContractAtHash (prov_Reader p) (S t) call (Ref_Hash block)) (Some data)) /\
  (forall s t query logs, FilterLogs reader s t query = Ok logs ->
    exists anchor, explicitFilterAnchor query = Ok anchor /\ forall p, p ∈ providers ->
      exists response mine, answered (LogsByQuery (prov_Reader p) t query) response /\
        normalizeLogs response anchor = Ok (mine, map encodeLog mine) /\ map encodeLog mine = map encodeLog logs) /\
  (forall s t transaction ceiling receipt, receiptBelow reader s t transaction ceiling = Ok receipt ->
    exists number canonical, Rcpt_BlockNumber receipt = Some number /\ number <= ceiling /\ Ref_Hash canonical = Rcpt_BlockHash receipt /\
      all_report reader (S t) (Some number) (Some number) canonical /\
      forall p, p ∈ providers -> exists mine, answered (ReceiptByHash (prov_Reader p) t transaction) (Some mine) /\
        validateReceipt (Some mine) transaction = Ok tt /\ receiptJSON mine = receiptJSON receipt) /\
  (forall s t number ref, (length providers <= length (s t))%nat -> Forall is_result (s t) ->
    all_report reader t (Some number) (Some number) ref -> QuorumHeader reader s t number = Ok ref).
Proof.
  intros Hz Hnew. destruct (NewQuorumReader_independent _ _ _ _ _ Hnew) as (-> & Hlen & Hnd).
  assert (Hne : quorum_providers (mkQuorumReader providers timeout) <> []) by (cbn; intros ->; cbn in Hlen; lia).
  set (R := mkQuorumReader providers timeout) in *. split; [done|]. split; [intros; by eapply QuorumHeader_unanimous|].
  split; [intros s t tag ref; exact (commonHead_unanimous R s t tag ref Hz Hne)|].
  split; [intros s t block account v; unfold BalanceAt; ok Er; destruct a; intros H; split;
          [by eapply requireCanonical_unanimous|exact (balance_unanimous R _ _ _ _ _ Hne H)]|].
  split; [intros s t block account v; unfold CodeAt; ok Er; destruct a; intros H; split;
          [by eapply requireCanonical_unanimous|exact (bytes_unanimous R _ _ _ Hne H)]|].
  split; [intros s t block call v; unfold CallContract; ok Er; destruct a; intros H; split;
          [by eapply requireCanonical_unanimous|exact (bytes_unanimous R _ _ _ Hne H)]|].
  split; [intros s t query logs; exact (FilterLogs_unanimous R s t query logs Hne)|].
  split; [intros s t tx ceiling r; exact (receipt_unanimous R s t tx ceiling r Hne)|intros s t number ref; exact (QuorumHeader_complete R s t number ref Hne)].
Qed.
End Reads.

(** ** Witnesses *)

Module RpcExamples.

#[local] Instance r_geth : Geth := {|
  headerHash h := repeat x01 32;
  headerSane _ := true;
  createBloom _ := [];
  receiptJSON r := Some (Rcpt_TxHash r) |}.

Definition r_header : Header := mkHeader (Some 7) (Some 0) (Some []) 0 0 None (repeat x02 32) 9 [].
Definition r_ref : BlockRef := mkBlockRef 7 (repeat x01 32) (repeat x02 32) 9.

(** A provider that always answers that header and a balance of 5. *)
Definition r_reader : HistoricalReader :=
  mkReader (fun _ _ => mkOutcome (Some r_header) None None) (fun _ _ _ => mkOutcome (Some 5) None None) (fun _ _ _ => mkOutcome None None None)
    (fun _ _ _ => mkOutcome None None None) (fun _ _ => mkOutcome None None None) (fun _ _ => mkOutcome (Some []) None None) None.

Definition r_provider (b : byte) (address : Z) : Provider := mkProvider (mkIdentity [b] [b] [b]) (Some (1, address)) true r_reader.
Definition r_providers : list Provider := [r_provider x41 1; r_provider x42 2].

(** The second result first. *)
Definition r_schedule : Schedule := fun _ => [ResultReady 1 None; ResultReady 0 None].

Lemma r_hashes : hashes_nonzero.
Proof. intros h E. apply (f_equal (fun l => byteZ (nth 0 l x00))) in E. vm_compute in E. discriminate E. Qed.

Lemma quorum_reads_are_unanimous_witness :
  QuorumHeader (mkQuorumReader r_providers 1) r_schedule 0 7 = Ok r_ref /\ BalanceAt (mkQuorumReader r_providers 1) r_schedule 0 r_ref zeroAddress = Ok (Some 5).
Proof.
  destruct (quorum_reads_are_unanimous id id r_providers 1 (mkQuorumReader r_providers 1) r_hashes) as (_ & _ & _ & _ & _ & _ & _ & _ & H);
    [vm_compute; reflexivity|]. split; [|vm_compute; reflexivity].
  apply H; [cbn; lia|by repeat constructor|]. intros p Hp. exists (Some r_header). split; [|vm_compute; reflexivity].
  apply elem_of_cons in Hp as [->|[->|Hp%elem_of_nil]%elem_of_cons]; [reflexivity|reflexivity|destruct Hp].
Defined.

End RpcExamples.

End RpcTheorems.
Export RpcTheorems.
