(* ===== verification/Programs.v ===== *)
(** * Programs that call other components

    A component that acts through interfaces is a program: a tree of calls whose
    branches are the possible answers, so that nothing is assumed about what the
    callees answer.  A signature is a type of calls with the type of each call's
    answer.  [wp] is the weakest precondition of a program in an environment that
    relates a world, a call, its answer and the next world, together with a
    condition every call must meet; [exec] is its step relation and [run] executes
    a program against a handler.  [SM] adds a state and an error to a program. *)

From S2P Require Import Prelude.

Module Programs.

Section Programs.
Context {E : Type} {ans : E -> Type}.

(** [Panic] is a failed type assertion, [Diverge] a loop out of fuel. *)
Inductive prog (A : Type) : Type :=
| Ret (a : A)
| Vis (c : E) (k : ans c -> prog A)
| Panic
| Diverge.

Record event := Event { ev_call : E; ev_answer : ans ev_call }.

End Programs.

Arguments prog {E} ans A.
Arguments Ret {E ans A} _.
Arguments Vis {E ans A} _ _.
Arguments Panic {E ans A}.
Arguments Diverge {E ans A}.
Arguments event {E} ans.
Arguments Event {E ans} _ _.
Arguments ev_call {E ans} _.
Arguments ev_answer {E ans} _.

Fixpoint bind {E} {ans : E -> Type} {A B} (p : prog ans A) (f : A -> prog ans B) : prog ans B :=
  match p with
  | Ret a => f a
  | Vis c k => Vis c (fun x => bind (k x) f)
  | Panic => Panic
  | Diverge => Diverge
  end.

(** ** Executions *)

Inductive outcome (A : Type) := Returned (a : A) | Panicked | OutOfFuel.
Arguments Returned {A} _.
Arguments Panicked {A}.
Arguments OutOfFuel {A}.

(** One run against a handler, which answers a call in a state. *)
Fixpoint run {E} {ans : E -> Type} {W A} (h : forall c, W -> ans c * W) (p : prog ans A) (w : W) : list (event ans) * outcome A * W :=
  match p with
  | Ret a => ([], Returned a, w)
  | Vis c k =>
      let (x, w) := h c w in
      let '(tr, out, w) := run h (k x) w in
      (Event c x :: tr, out, w)
  | Panic => ([], Panicked, w)
  | Diverge => ([], OutOfFuel, w)
  end.

Section Semantics.
Context {E : Type} {ans : E -> Type}.
Context {W : Type} (env : W -> forall c, ans c -> W -> Prop).

(** The calls made, oldest first, each with its answer and the world it met. *)
Inductive exec {A} : prog ans A -> W -> list (W * event ans) -> outcome A -> W -> Prop :=
| exec_ret a w : exec (Ret a) w [] (Returned a) w
| exec_panic w : exec Panic w [] Panicked w
| exec_diverge w : exec Diverge w [] OutOfFuel w
| exec_vis c k x w w' tr out w'' :
    env w c x w' -> exec (k x) w' tr out w'' -> exec (Vis c k) w ((w, Event c x) :: tr) out w''.

(** [panics] says whether a panic is allowed. *)
Context (guar : W -> E -> Prop) (panics : Prop).

Fixpoint wp {A} (p : prog ans A) (Q : A -> W -> Prop) (w : W) : Prop :=
  match p with
  | Ret a => Q a w
  | Vis c k => guar w c /\ forall x w', env w c x w' -> wp (k x) Q w'
  | Panic => panics
  | Diverge => True
  end.

Lemma wp_mono {A} (p : prog ans A) (Q Q' : A -> W -> Prop) w :
  wp p Q w -> (forall a w', Q a w' -> Q' a w') -> wp p Q' w.
Proof.
  revert w. induction p as [a|c k IH| |]; cbn; intros w H HQ; auto.
  destruct H as [Hg H]. split; [done|]. intros x w' Hx. exact (IH x w' (H x w' Hx) HQ).
Qed.

Lemma wp_bind {A B} (p : prog ans A) (f : A -> prog ans B) Q w :
  wp p (fun a => wp (f a) Q) w -> wp (bind p f) Q w.
Proof.
  revert w. induction p as [a|c k IH| |]; cbn; intros w H; auto.
  destruct H as [Hg H]. split; [done|]. intros x w' Hx. exact (IH x w' (H x w' Hx)).
Qed.

(** Soundness: a program meets the condition at each of its calls, panics only
    where that is allowed, and ends in the postcondition. *)
Lemma wp_sound {A} (p : prog ans A) Q w tr out w' :
  wp p Q w -> exec p w tr out w' ->
  Forall (fun '(v, e) => guar v (ev_call e)) tr /\
  match out with Returned a => Q a w' | Panicked => panics | OutOfFuel => True end.
Proof.
  intros Hwp He. induction He as [a w|w|w|c k x w w1 tr out w2 Hx He IH]; cbn in Hwp; auto.
  destruct Hwp as [Hg Hwp]. destruct (IH (Hwp x w1 Hx)) as [Htr Hout]. split; [|done]. by constructor.
Qed.

End Semantics.

(** The plain environment: any answer, and the world is the trace, newest first. *)
Definition traced {E} {ans : E -> Type} (w : list (event ans)) (c : E) (x : ans c) (w' : list (event ans)) : Prop := w' = Event c x :: w.

Lemma run_exec {E} {ans : E -> Type} {W A} (h : forall c, W -> ans c * W) (p : prog ans A) w past :
  let '(tr, out, w') := run h p w in
  exists steps, exec traced p past steps out (rev tr ++ past) /\ map snd steps = tr.
Proof.
  revert w past. induction p as [a|c k IH| |]; cbn; intros w past.
  - exists []. split; [constructor|done].
  - destruct (h c w) as [x w1]. specialize (IH x w1 (Event c x :: past)).
    destruct (run h (k x) w1) as [[tr out] w2]. destruct IH as (steps & He & Hm).
    exists ((past, Event c x) :: steps). split; [|cbn; by rewrite Hm].
    econstructor; [done|]. cbn [rev]. rewrite <- app_assoc. exact He.
  - exists []. split; [constructor|done].
  - exists []. split; [constructor|done].
Qed.

(** The [n]-th call of a run is a step of an execution. *)
Lemma run_step {E} {ans : E -> Type} {W A} (h : forall c, W -> ans c * W) (p : prog ans A) w n e :
  (run h p w).1.1 !! n = Some e -> exists steps out tr past, exec traced p [] steps out tr /\ (past, e) ∈ steps.
Proof.
  pose proof (run_exec h p w []) as H. destruct (run h p w) as [[tr out] w']. destruct H as (steps & He & Hm). cbn. intros Hn.
  subst tr. apply list_elem_of_lookup_2, list_elem_of_In, in_map_iff in Hn as ([past e'] & <- & Hin).
  eexists _, _, _, past. split; [exact He|]. by apply list_elem_of_In.
Qed.

(** ** Total correctness *)

(** When every answer satisfies [ok] the program returns, in the postcondition. *)
Fixpoint twp {E} {ans : E -> Type} {A} (ok : forall c, ans c -> Prop) (p : prog ans A) (Q : A -> list (event ans) -> Prop) (w : list (event ans)) : Prop :=
  match p with
  | Ret a => Q a w
  | Vis c k => forall x, ok c x -> twp ok (k x) Q (Event c x :: w)
  | Panic | Diverge => False
  end.

Section Total.
Context {E : Type} {ans : E -> Type} (ok : forall c : E, ans c -> Prop).

Lemma twp_mono {A} (p : prog ans A) (Q Q' : A -> list (event ans) -> Prop) w : twp ok p Q w -> (forall a w', Q a w' -> Q' a w') -> twp ok p Q' w.
Proof. revert w. induction p as [a|c k IH| |]; cbn; intros w H HQ; eauto. Qed.

Lemma twp_bind {A B} (p : prog ans A) (f : A -> prog ans B) Q w : twp ok p (fun a => twp ok (f a) Q) w -> twp ok (bind p f) Q w.
Proof. revert w. induction p as [a|c k IH| |]; cbn; intros w H; auto. Qed.

Lemma twp_sound {A} (p : prog ans A) Q past steps out tr :
  twp ok p Q past -> exec traced p past steps out tr -> Forall (fun '(_, e) => ok (ev_call e) (ev_answer e)) steps ->
  exists a, out = Returned a /\ Q a tr.
Proof.
  intros Hp He. induction He as [a w|w|w|c k x w w1 tr out w2 Hx He IH]; cbn in Hp; intros Hok; [by exists a|done..|].
  apply Forall_cons in Hok as [Hc Hok]. unfold traced in Hx. subst w1. by apply IH; [apply Hp|done].
Qed.

End Total.

(** ** Two goroutines and the first result *)

(** [choose] asks the scheduler which of the two moves.  The one that ends first
    gives the result, and the other is waited for. *)
Fixpoint race {E} {ans : E -> Type} {A B} (choose : (bool -> prog ans (A + B)) -> prog ans (A + B)) (p : prog ans A) : prog ans B -> prog ans (A + B) :=
  fix inner q :=
    choose (fun left : bool =>
      if left then
        match p with
        | Ret a => bind q (fun _ => Ret (inl a))
        | Vis c k => Vis c (fun x => race choose (k x) q)
        | Panic => Panic
        | Diverge => Diverge
        end
      else
        match q with
        | Ret b => bind p (fun _ => Ret (inr b))
        | Vis d l => Vis d (fun y => inner (l y))
        | Panic => Panic
        | Diverge => Diverge
        end).

(** ** Every call and every result *)

Fixpoint sat {E} {ans : E -> Type} {A} (P : E -> Prop) (R : A -> Prop) (p : prog ans A) : Prop :=
  match p with
  | Ret a => R a
  | Vis c k => P c /\ forall x, sat P R (k x)
  | Panic | Diverge => True
  end.

Lemma sat_mono {E} {ans : E -> Type} {A} P (R R' : A -> Prop) (p : prog ans A) : sat P R p -> (forall a, R a -> R' a) -> sat P R' p.
Proof. induction p as [a|c k IH| |]; cbn; intros H HR; auto. destruct H as [Hc H]. split; [done|]. auto. Qed.

Lemma sat_weaken {E} {ans : E -> Type} {A} (P P' : E -> Prop) (R : A -> Prop) (p : prog ans A) : (forall c, P c -> P' c) -> sat P R p -> sat P' R p.
Proof. intros HP. induction p as [a|c k IH| |]; cbn; auto. intros [Hc H]. split; auto. Qed.

Lemma sat_always {E} {ans : E -> Type} {A} (P : E -> Prop) (p : prog ans A) : (forall c, P c) -> sat P (fun _ => True) p.
Proof. intros HP. induction p as [a|c k IH| |]; cbn; auto. Qed.

Lemma sat_bind {E} {ans : E -> Type} {A B} P (R : B -> Prop) (p : prog ans A) f : sat P (fun a => sat P R (f a)) p -> sat P R (bind p f).
Proof. induction p as [a|c k IH| |]; cbn; intros H; auto. destruct H as [Hc H]. split; [done|]. auto. Qed.

(** ** Programs that end *)

(** A program without a loop out of fuel. *)
Fixpoint finite {E} {ans : E -> Type} {A} (p : prog ans A) : Prop :=
  match p with
  | Ret _ | Panic => True
  | Vis c k => forall x, finite (k x)
  | Diverge => False
  end.

Lemma finite_bind {E} {ans : E -> Type} {A B} (p : prog ans A) (f : A -> prog ans B) : finite p -> (forall a, finite (f a)) -> finite (bind p f).
Proof. intros Hp Hf. induction p as [a|c k IH| |]; cbn in *; auto. Qed.

Lemma finite_exec {E} {ans : E -> Type} {W A} (env : W -> forall c, ans c -> W -> Prop) (p : prog ans A) w steps out w' :
  finite p -> exec env p w steps out w' -> out <> OutOfFuel.
Proof. intros Hp He. induction He; cbn in *; try done. apply IHHe, Hp. Qed.

(** ** State and errors *)

(** A function of a component: its state, its calls, a result or an error. *)
Definition SM {E} (ans : E -> Type) (S X A : Type) : Type := S -> prog ans (S * result X A).

Section StateError.
Context {E : Type} {ans : E -> Type} {S X : Type}.
Local Abbreviation M := (SM ans S X).

Definition mret {A} (a : A) : M A := fun s => Ret (s, Ok a).
Definition fail {A} (e : X) : M A := fun s => Ret (s, Err e).
Definition panic {A} : M A := fun _ => Panic.
Definition diverge {A} : M A := fun _ => Diverge.
Definition call (c : E) : M (ans c) := fun s => Vis c (fun x => Ret (s, Ok x)).
Definition gets {A} (f : S -> A) : M A := fun s => Ret (s, Ok (f s)).
Definition modify (f : S -> S) : M unit := fun s => Ret (f s, Ok tt).

Definition mbind {A B} (m : M A) (f : A -> M B) : M B :=
  fun s => bind (m s) (fun sr => match sr.2 with Ok a => f a sr.1 | Err e => Ret (sr.1, Err e) end).

(** The result of [m] as a value: an error is not passed on. *)
Definition try {A} (m : M A) : M (result X A) := fun s => bind (m s) (fun sr => Ret (sr.1, Ok sr.2)).

Definition lift {A} (r : result X A) : M A := fun s => Ret (s, r).

Definition when (b : bool) (m : M unit) : M unit := if b then m else mret tt.

Fixpoint forEach {A} (l : list A) (body : A -> M unit) : M unit :=
  match l with
  | [] => mret tt
  | x :: l => mbind (body x) (fun _ => forEach l body)
  end.

Lemma sat_mbind {A B} P (R : S * result X B -> Prop) (m : M A) (f : A -> M B) s :
  sat P (fun sr => match sr.2 with Ok a => sat P R (f a sr.1) | Err e => R (sr.1, Err e) end) (m s) -> sat P R (mbind m f s).
Proof. intros H. apply sat_bind. eapply sat_mono; [exact H|]. intros [s' [a|e]]; cbn; auto. Qed.

Lemma sat_try {A} P (R : S * result X (result X A) -> Prop) (m : M A) s :
  sat P (fun sr => R (sr.1, Ok sr.2)) (m s) -> sat P R (try m s).
Proof. intros H. apply sat_bind. eapply sat_mono; [exact H|]. done. Qed.

Local Abbreviation ends m := (forall s : S, finite (m s)).

Lemma finite_mbind {A B} (m : SM ans S X A) (f : A -> SM ans S X B) : ends m -> (forall a, ends (f a)) -> ends (mbind m f).
Proof. intros Hm Hf s. apply finite_bind; [apply Hm|]. intros [s' [a|e]]; cbn; [apply Hf|done]. Qed.

Lemma finite_try {A} (m : SM ans S X A) : ends m -> ends (try m).
Proof. intros Hm s. apply finite_bind; [apply Hm|]. by intros [s' r]. Qed.

Lemma finite_call c : ends (call c : M _).
Proof. intros s x. done. Qed.

Lemma finite_forEach {A} (l : list A) (body : A -> SM ans S X unit) : (forall x, ends (body x)) -> ends (forEach l body).
Proof. intros Hb. induction l as [|x l IH]; [done|]. cbn [forEach]. apply finite_mbind; [apply Hb|]. intros _. exact IH. Qed.

End StateError.

Declare Scope program_scope.
Delimit Scope program_scope with program.
Open Scope program_scope.

Notation "'let*' p := m 'in' k" := (mbind m (fun p => k))
  (at level 10, p pattern, m at level 200, k at level 200) : program_scope.

(** [if err := m; err != nil { return h err }; k] *)
Notation "'let*' p := m 'orelse' h 'in' k" :=
  (mbind (try m) (fun r => match r with Ok p => k | Err e => h e end))
  (at level 10, p pattern, m at level 200, h at level 200, k at level 200) : program_scope.

(** [if b { return ...m }; k] *)
Notation "'stop' b 'with' m 'in' k" := (if b then m else k)
  (at level 10, b at level 200, m at level 200, k at level 200) : program_scope.

End Programs.
Export Programs.
