(* ===== verification/RescueErrors.v ===== *)
(** * internal/domain/errors.go and the error values of internal/rescue

    A Go [error] is a tree: a [*domain.ClassifiedError] wraps its cause, a
    [fastPendingError] the error it delays, [errors.Join] joins two; the leaves
    are the sentinel errors of the packages the coordinator calls.
    [errors_As_Classified] and [errors_Is] walk the tree in the order of package
    errors. *)

From S2P Require Import Prelude GoTime Bytes Domain Bolt BudgetModel StoreModel RescueFees Admission RpcQuorum.
From Stdlib Require Strings.String.
Import Strings.String.StringSyntax.

Module RescueErrors.
Bind Scope string_scope with String.string.

Inductive ErrorClass :=
| ErrorConfiguration | ErrorRPCTransient | ErrorRPCInvalidResponse | ErrorBudget
| ErrorSigning | ErrorBroadcast | ErrorPostcondition | ErrorInternal.

#[export] Instance ErrorClass_eq_dec : EqDecision ErrorClass.
Proof. solve_decision. Defined.

(** The error values of the packages rescue, contracts and watcher and of observability/gate.go. *)
Inductive Sentinel :=
| ErrPaidActionsStopped | ErrNilPaidAction | ErrLeaseLost | ErrLeaseReleaseFailed | ErrFenceLost
| ErrInvalidSimulationRequest | ErrEstimateGasFailed | ErrInvalidGasEstimate | ErrQuorumSimulationFailed
| errNilPrivateKey | ErrInvalidReturnData
| ErrInvalidDependencies | errPollingFallback.

#[export] Instance Sentinel_eq_dec : EqDecision Sentinel.
Proof. solve_decision. Defined.

(** [Foreign message] is any error of a component outside the program (an RPC
    client, a signer), known by its text. *)
Inductive GoError :=
| Classified (operation : String.string) (class : ErrorClass) (code : bytes) (retryable ambiguous : bool) (cause : option GoError)
| FastPending (inner : GoError) (next : Time)
| Joined (e1 e2 : GoError)
| IsSentinel (s : Sentinel)
| OfStore (e : StoreError)
| OfLedger (e : LedgerError)
| OfFee (e : FeeError)
| OfRpc (e : RpcError)
| OfAdmission (e : AdmissionError)
| OfContext (e : CtxErr)
| Foreign (message : bytes).

Definition NewError (operation : String.string) (class : ErrorClass) (code : bytes) (retryable ambiguous : bool) (cause : option GoError) : GoError :=
  Classified operation class code retryable ambiguous cause.

(** What a [*domain.ClassifiedError] carries beside its cause. *)
Record Classification := mkClassification {
  Cls_Class : ErrorClass;
  Cls_Code : bytes;
  Cls_Retryable : bool;
  Cls_Ambiguous : bool }.

(** [errors.As(err, &classified)]: the first classified error of the tree. *)
Fixpoint errors_As_Classified (err : GoError) : option Classification :=
  match err with
  | Classified _ class code retryable ambiguous _ => Some (mkClassification class code retryable ambiguous)
  | FastPending inner _ => errors_As_Classified inner
  | Joined e1 e2 =>
      match errors_As_Classified e1 with Some c => Some c | None => errors_As_Classified e2 end
  | _ => None
  end.

(** [errors.As(err, &pending)] for a [fastPendingError]: its [NextRetryAt]. *)
Fixpoint errors_As_FastPending (err : GoError) : option Time :=
  match err with
  | FastPending _ next => Some next
  | Classified _ _ _ _ _ (Some cause) => errors_As_FastPending cause
  | Joined e1 e2 =>
      match errors_As_FastPending e1 with Some t => Some t | None => errors_As_FastPending e2 end
  | _ => None
  end.

(** [errors.Is(err, target)] with [target] given by a test. *)
Fixpoint errors_Is (target : GoError -> bool) (err : GoError) : bool :=
  target err ||
  match err with
  | Classified _ _ _ _ _ (Some cause) => errors_Is target cause
  | FastPending inner _ => errors_Is target inner
  | Joined e1 e2 => errors_Is target e1 || errors_Is target e2
  | _ => false
  end.

Definition isSentinel (s : Sentinel) (err : GoError) : bool :=
  match err with IsSentinel s' => bool_decide (s' = s) | _ => false end.

Definition isSponsorReserve (err : GoError) : bool :=
  match err with OfLedger ErrSponsorReserve => true | _ => false end.

Definition isUnfinalizedReceipt (err : GoError) : bool :=
  match err with OfRpc ErrUnfinalizedReceipt => true | _ => false end.

(** ** Codes of coordinator.go *)

Definition codeInvalidConfig : bytes := str "rescue_invalid_config".
Definition codeCandidateMismatch : bytes := str "rescue_candidate_mismatch".
Definition codeUnsupportedCandidate : bytes := str "rescue_candidate_unsupported".
Definition codeChainIDRead : bytes := str "rescue_chain_id_read_failed".
Definition codeChainIDMismatch : bytes := str "rescue_chain_id_mismatch".
Definition codeDestinationRead : bytes := str "rescue_destination_read_failed".
Definition codeDestinationDecode : bytes := str "rescue_destination_decode_failed".
Definition codeDestinationMismatch : bytes := str "rescue_destination_mismatch".
Definition codeFinalityRead : bytes := str "rescue_finality_read_failed".
Definition codeCodeRead : bytes := str "rescue_code_read_failed".
Definition codeBalanceRead : bytes := str "rescue_balance_read_failed".
Definition codeBalanceDecode : bytes := str "rescue_balance_decode_failed".
Definition codeNonceRead : bytes := str "rescue_nonce_read_failed".
Definition codeFeeRead : bytes := str "rescue_fee_read_failed".
Definition codeFeeInvalid : bytes := str "rescue_fee_invalid".
Definition codeSigning : bytes := str "rescue_signing_failed".
Definition codeSignerMismatch : bytes := str "rescue_signer_mismatch".
Definition codeBroadcast : bytes := str "rescue_broadcast_failed".
Definition codeReceiptTimeout : bytes := str "rescue_receipt_timeout".
Definition codeReceiptInvalid : bytes := str "rescue_receipt_invalid".
Definition codeSignedPayloadInvalid : bytes := str "rescue_signed_payload_invalid".
Definition codeReverted : bytes := str "rescue_transaction_reverted".
Definition codePostcondition : bytes := str "rescue_postcondition_failed".
Definition codeLostRace : bytes := str "rescue_authorization_lost_race".
Definition codeContextCanceled : bytes := str "rescue_context_canceled".
Definition codeEncoding : bytes := str "rescue_encoding_failed".
Definition codeStateRead : bytes := str "rescue_state_read_failed".
Definition codeStateWrite : bytes := str "rescue_state_write_failed".
Definition codeRetryPending : bytes := str "rescue_retry_pending".
Definition codeNoPaidAction : bytes := str "rescue_no_paid_action".
Definition codeUnknownToken : bytes := str "rescue_unknown_token_forbidden".
Definition codeAdmissionLimited : bytes := str "rescue_admission_limited".
Definition codeBudgetExceeded : bytes := str "rescue_budget_exceeded".
Definition codeSponsorReserve : bytes := str "rescue_sponsor_reserve".
Definition codeSimulation : bytes := str "rescue_simulation_failed".
Definition codeMinimumValue : bytes := str "rescue_minimum_value".
Definition codePaidActionsStopped : bytes := str "rescue_paid_actions_stopped".
Definition CodeLeaseLost : bytes := str "rescue_lease_lost".
Definition CodeLeaseReleaseFailed : bytes := str "rescue_lease_release_failed".
Definition codeInternalFailure : bytes := str "rescue_internal_failure".

Definition errorCode (err : GoError) : bytes :=
  match errors_As_Classified err with Some c => Cls_Code c | None => codeInternalFailure end.

Definition IsLeaseLost (err : GoError) : bool := errors_Is (isSentinel ErrLeaseLost) err.

Definition leaseError (operation : String.string) : GoError :=
  NewError operation ErrorSigning CodeLeaseLost false true (Some (IsSentinel ErrLeaseLost)).

Definition processFenceError (operation : String.string) : GoError :=
  NewError operation ErrorSigning CodeLeaseLost false true (Some (Joined (IsSentinel ErrLeaseLost) (IsSentinel ErrFenceLost))).

Definition retryPendingError (ambiguous : bool) : GoError :=
  NewError "rescue.retry" ErrorRPCTransient codeRetryPending true ambiguous None.

Definition budgetError (operation : String.string) (cause : GoError) : GoError :=
  NewError operation ErrorBudget codeBudgetExceeded true true (Some cause).

Definition fatalReconciliationError (err : GoError) : bool :=
  match errors_As_Classified err with
  | None => true
  | Some c =>
      bytes_eqb (Cls_Code c) codeContextCanceled || bool_decide (Cls_Class c = ErrorInternal)
      || bool_decide (Cls_Class c = ErrorSigning)
  end.

Definition nonceBlockingCode (code : bytes) : bool :=
  bytes_eqb code codeBroadcast || bytes_eqb code CodeLeaseLost || bytes_eqb code codeSignerMismatch
  || bytes_eqb code codeContextCanceled || bytes_eqb code codeSignedPayloadInvalid.

(** ** Errors of the public log: [safeError] *)

Inductive SafeErrorCode :=
| ErrorInvalidConfiguration | ErrorRPCUnavailable | ErrorRPCResponseInvalid | ErrorBudgetExhausted | ErrorSponsorReserve
| ErrorSigningFailed | ErrorBroadcastFailed | ErrorPostconditionFailed | ErrorAmbiguousOutcome | ErrorPaidActionsStopped
| ErrorInternalFailure.

Record SafeError := mkSafeError {
  Safe_Class : ErrorClass;
  Safe_Code : SafeErrorCode;
  Safe_Retryable : bool;
  Safe_Ambiguous : bool }.

Definition code_in (code : bytes) (codes : list bytes) : bool := existsb (bytes_eqb code) codes.

Definition safeCode (code : bytes) : SafeErrorCode :=
  if code_in code [codeBudgetExceeded; codeAdmissionLimited] then ErrorBudgetExhausted
  else if code_in code [codeSponsorReserve] then ErrorSponsorReserve
  else if code_in code [codeSigning; codeSignerMismatch] then ErrorSigningFailed
  else if code_in code [codeBroadcast] then ErrorBroadcastFailed
  else if code_in code [codePostcondition; codeLostRace; codeMinimumValue] then ErrorPostconditionFailed
  else if code_in code [codePaidActionsStopped] then ErrorPaidActionsStopped
  else if code_in code [codeFinalityRead; codeBalanceRead; codeNonceRead; codeFeeRead] then ErrorRPCUnavailable
  else if code_in code [codeReceiptInvalid; codeBalanceDecode; codeFeeInvalid] then ErrorRPCResponseInvalid
  else ErrorInternalFailure.

(** The classes of the two packages correspond one to one, and every class and
    code is a named one, so [NewSafeError] does not fail. *)
Definition safeError (class : ErrorClass) (code : bytes) (retryable ambiguous : bool) : option SafeError :=
  Some (mkSafeError class (safeCode code) retryable ambiguous).

End RescueErrors.
Export RescueErrors.
