(* ===== verification/Contracts.v ===== *)
(** * internal/contracts: call data, return data and delegation designators

    [codec.go], [erc20.go], [rescuer.go] and [delegation.go].  Packing and
    unpacking by an ABI is go-ethereum's package abi, a parameter ([Abi]): a
    method is named, an output list is the list of its types.  What the package
    adds is modelled: return data must unpack to one value of the expected type
    and be the canonical packing of it. *)

From S2P Require Import Prelude Bytes Domain RescueErrors.
From Stdlib Require Import Strings.Byte.
From Stdlib Require Strings.String.
Import Strings.String.StringSyntax.

Module Contracts.

Inductive AbiType := TyAddress | TyUint256 | TyUint8 | TyString.

(** The values [Unpack] makes: an address, a big integer, a uint8, a string. *)
Inductive AbiValue :=
| VAddress (a : Address)
| VUint256 (z : Z)
| VUint8 (z : Z)
| VString (s : bytes)
| VBytes (b : bytes)
| VAddresses (l : list Address).

#[export] Instance AbiValue_eq_dec : EqDecision AbiValue.
Proof. solve_decision. Defined.

Class Abi := {
  abi_Pack : String.string -> list AbiValue -> option bytes;
  abi_PackOutputs : list AbiType -> list AbiValue -> option bytes;
  abi_UnpackOutputs : list AbiType -> bytes -> option (list AbiValue) }.

Section Codecs.
Context {A : Abi}.

(** *** codec.go *)

Definition decodeSingle (outputs : list AbiType) (data : bytes) : result Sentinel AbiValue :=
  let? values := abi_UnpackOutputs outputs data orelse ErrInvalidReturnData in
  match values with
  | [value] =>
      let? canonical := abi_PackOutputs outputs values orelse ErrInvalidReturnData in
      reject negb (bytes_eqb data canonical) with ErrInvalidReturnData in
      Ok value
  | _ => Err ErrInvalidReturnData
  end.

(** *** erc20.go *)

Definition PackBalanceOf (account : Address) : option bytes := abi_Pack "balanceOf" [VAddress account].

Definition DecodeBalanceOf (data : bytes) : result Sentinel Z :=
  let! value := decodeSingle [TyUint256] data in
  match value with VUint256 balance => Ok balance | _ => Err ErrInvalidReturnData end.

Definition PackSymbol : option bytes := abi_Pack "symbol" [].

Definition DecodeSymbol (data : bytes) : result Sentinel bytes :=
  let! value := decodeSingle [TyString] data in
  match value with VString symbol => Ok symbol | _ => Err ErrInvalidReturnData end.

Definition PackDecimals : option bytes := abi_Pack "decimals" [].

Definition DecodeDecimals (data : bytes) : result Sentinel Z :=
  let! value := decodeSingle [TyUint8] data in
  match value with VUint8 decimals => Ok decimals | _ => Err ErrInvalidReturnData end.

(** *** rescuer.go *)

Definition PackSweepAll (tokens : list Address) : option bytes := abi_Pack "sweepAll" [VAddresses tokens].

Definition PackSweepEth : option bytes := abi_Pack "sweepEth" [].

Definition PackExecuteAndSweep (target : Address) (data : bytes) (tokens : list Address) : option bytes :=
  abi_Pack "executeAndSweep" [VAddress target; VBytes data; VAddresses tokens].

Definition PackDestination : option bytes := abi_Pack "destination" [].

Definition DecodeDestination (data : bytes) : result Sentinel Address :=
  let! value := decodeSingle [TyAddress] data in
  match value with VAddress destination => Ok destination | _ => Err ErrInvalidReturnData end.

(** Return data is accepted only when it is the canonical encoding of the value. *)
Lemma decodeSingle_canonical outputs data value :
  decodeSingle outputs data = Ok value -> abi_PackOutputs outputs [value] = Some data.
Proof.
  unfold decodeSingle. destruct (abi_UnpackOutputs outputs data) as [[|v [|? ?]]|]; try discriminate. ok. ok. intros [= <-]. bool_hyps.
  unfold bytes_eqb in *. bool_hyps. by subst.
Qed.

(** Two answers that decode to the same balance are the same bytes. *)
Lemma DecodeBalanceOf_inj data data' balance :
  DecodeBalanceOf data = Ok balance -> DecodeBalanceOf data' = Ok balance -> data = data'.
Proof.
  unfold DecodeBalanceOf. destruct (decodeSingle _ data) as [[]|] eqn:E; try discriminate. intros [= <-].
  destruct (decodeSingle _ data') as [[]|] eqn:E'; try discriminate. intros [= ->].
  apply decodeSingle_canonical in E, E'. congruence.
Qed.

End Codecs.

(** *** delegation.go *)

Definition DelegationCodeLength : Z := 23.

(** [code[3:]] of a 23-byte code is exactly the 20 bytes of an address. *)
Definition ParseDelegation (code : bytes) : option Address :=
  if negb (len code =? DelegationCodeLength) || negb (bool_decide (byte_at code 0 = xef))
     || negb (bool_decide (byte_at code 1 = x01)) || negb (bool_decide (byte_at code 2 = x00)) then None
  else
    let target := drop 3 code in
    if is_zero_bytes target then None else Some target.

(** The designator EIP-7702 writes for a delegation to [target]. *)
Definition designator (target : Address) : bytes := [xef; x01; x00] ++ target.

Lemma ParseDelegation_spec code target :
  ParseDelegation code = Some target <-> code = designator target /\ isAddress target /\ is_zero_bytes target = false.
Proof.
  unfold ParseDelegation, designator, isAddress, DelegationCodeLength, len, byte_at. split.
  - destruct code as [|b0 [|b1 [|b2 rest]]]; [done..|].
    destruct (negb _ || _ || _ || _) eqn:E; [done|]. change (drop 3 (b0 :: b1 :: b2 :: rest)) with (drop 0 rest). rewrite drop_0. destruct (is_zero_bytes rest) eqn:Ez; [done|]. intros [= <-].
    bool_hyps. change (b0 = xef) in H2. change (b1 = x01) in H1. change (b2 = x00) in H0. subst. cbn in H. split; [done|].
    split; [lia|done].
  - intros (-> & Hl & Hz). change (drop 3 ([xef; x01; x00] ++ target)) with (drop 0 target). rewrite drop_0, Hz.
    cbn [app length nth]. by rewrite Hl.
Qed.

End Contracts.
Export Contracts.
