(* ===== verification/RescueEffects.v ===== *)
(** * The calls a rescue makes

    The coordinator of internal/rescue acts through interfaces: the clock, the
    paid-action gate, the process fence and the lease, the two signers, the
    broadcaster, the rescue-state store, the budget ledger, the admission
    controller, the RPC readers and the observers.  [Eff] has one constructor per
    call the package makes through them and [answer] is the type of what comes
    back.  A function of the package is a program over them
    (Programs.v).

    The Ethereum transaction is go-ethereum's [types.Transaction] of the SetCode
    type; its codec, hash and signature recovery are parameters ([GethTx]). *)

From S2P Require Import Prelude Programs GoTime Bytes Domain Bolt BudgetModel BudgetLedger StoreModel StoreLease StoreRescue RescueFees Admission RpcQuorum RescueErrors.
From Stdlib Require Strings.String.
Import Strings.String.StringSyntax.

Module Effects.

(** ** Transactions *)

Definition SetCodeTxType : Z := 4.

(** [types.SetCodeAuthorization]; the signature values are [V], [R] and [S]. *)
Record Authorization := mkAuthorization {
  Auth_ChainID : Z;
  Auth_Address : Address;
  Auth_Nonce : Z;
  Auth_V : Z;
  Auth_R : Z;
  Auth_S : Z }.

#[export] Instance Authorization_eq_dec : EqDecision Authorization.
Proof. solve_decision. Defined.

(** [*types.Transaction]; [Txn_signature] stands for its signature values. *)
Record Txn := mkTxn {
  Txn_Type : Z;
  Txn_ChainID : Z;
  Txn_Nonce : Z;
  Txn_To : option Address;
  Txn_Gas : Z;
  Txn_GasTipCap : Z;
  Txn_GasFeeCap : Z;
  Txn_Data : bytes;
  Txn_Value : Z;
  Txn_AccessList : list bytes;
  Txn_Authorizations : list Authorization;
  Txn_signature : bytes }.

Class GethTx := {
  txn_UnmarshalBinary : bytes -> option Txn;
  txn_MarshalBinary : Txn -> option bytes;
  txn_Hash : Txn -> Hash;
  txn_Sender : Z -> Txn -> option Address;
  auth_Authority : Authorization -> option Address }.

(** What the store reads of a transaction ([validateSignedRescueTransaction]). *)
#[export] Instance GethTx_TxCodec {T : GethTx} : TxCodec := {
  UnmarshalBinary data :=
    match txn_UnmarshalBinary data with
    | Some t => Some (mkTransaction (Txn_Type t =? SetCodeTxType) (txn_Hash t) (Txn_Nonce t) (Txn_Data t)
                        (map Auth_Nonce (Txn_Authorizations t)))
    | None => None
    end }.

(** [ethereum.CallMsg] as the package fills it. *)
Record EthMsg := mkEthMsg {
  EM_From : Address;
  EM_To : option Address;
  EM_Gas : Z;
  EM_GasFeeCap : option Z;
  EM_GasTipCap : option Z;
  EM_Value : option Z;
  EM_Data : bytes;
  EM_Authorizations : list Authorization }.

Definition callMsg (to : Address) (gas : Z) (data : bytes) : EthMsg :=
  mkEthMsg zeroAddress (Some to) gas None None None data [].

(** ** Observability *)

Inductive AlertCode := AlertBudgetBlocked | AlertAmbiguousRescue | AlertReconciliationStale | AlertRPCDegraded | AlertDelegationUnexpected.
Inductive HealthCondition := ConditionBudgetBlocked | ConditionAmbiguousRescue | ConditionRPCDegraded.
Inductive DelegationState := DelegationUnknown | DelegationUnexpected | DelegationExpected.
Inductive Level := LevelInfo | LevelWarning | LevelError.
Inductive LogCode := LogAttemptStarted | LogBudgetBlocked | LogBroadcastAccepted | LogStateTransition.
Inductive DurableState :=
| DurablePending | DurableProcessing | DurableRetryPending | DurableBroadcast | DurableAmbiguous | DurableConfirmed | DurableFailed.
Inductive EventResult :=
| ResultAccepted | ResultSkipped | ResultFailed | ResultBroadcast | ResultConfirmed | ResultTokenReported | ResultLostRace | ResultAmbiguous.

(** [None] is a field left at its zero value. *)
Record SafeEvent := mkSafeEvent {
  SE_Level : Level;
  SE_Code : LogCode;
  SE_Incident : option IncidentID;
  SE_State : option DurableState;
  SE_Result : EventResult;
  SE_TxHash : option Hash;
  SE_Error : option SafeError }.

(** Reports whose result the package ignores. *)
Inductive Notice :=
| NoticeEvent (code : bytes) (level : Level) (candidate : CandidateID) (hash : Hash) (error : bytes)
| NoticeSafe (event : SafeEvent)
| NoticeHealth (condition : HealthCondition) (active : bool)
| NoticeAttempt
| NoticeRPCError
| NoticeLostRace
| NoticeOpenAmbiguous
| NoticeDelegation (state : DelegationState)
| NoticeGlobalBudget (snapshot : ScopeSnapshot)
| NoticeReconciled (at_ : Time).

(** ** Calls *)

(** Why the [select] of [MaintainLease] woke up. *)
Inductive LeaseWake := WakeDone | WakeLeaseLost | WakeStoreLost | WakeTick.

(** Why the [select] of [RunReconciliation] woke up. *)
Inductive TickWake := TickDone | TickFired.

(** A finality reader pinned to a block, or the session's own ([None]). *)
Definition Reader := option BlockRef.

Inductive Eff :=
| Clock_Now
| Clock_Sleep (d : Duration)
| Clock_NewTicker (d : Duration)
| Ctx_Err
| Parallel_First (n : nat)
| Gate_Stopped
| Gate_Enter
| Gate_Leave
| Fence_Validate
| Lease_IsLost
| Lease_Current
| Lease_SetCurrent (lease : Lease)
| Lease_MarkLost
| Lease_Select (lease : Lease)
| Tick_Select
| LeaseManager_Validate (lease : Lease)
| LeaseManager_Renew (lease : Lease) (ttl : Duration)
| LeaseManager_Release (lease : Lease)
| Authorizer_Address
| Authorizer_SignAuthorization (authorization : Authorization)
| Transactioner_Address
| Transactioner_SignTransaction (transaction : Txn) (chainID : Z)
| Broadcaster_SendTransaction (transaction : Txn)
| State_PutRescueIncident (incident : RescueIncident)
| State_UpdateRescueIncident (incident : RescueIncident)
| State_RescueIncident (id : IncidentID)
| State_RescueIncidents (network : NetworkID)
| State_NonceFloor
| State_RaiseNonceFloor (floor : Z)
| State_PruneRescueIncidents (retain : Z)
| Ledger_Reserve (request : ReservationRequest)
| Ledger_MarkExposed (id : ReservationID) (hash : Hash)
| Ledger_CommitFinalized (charge : FinalizedCharge)
| Ledger_ReleaseProvenUnused (id : ReservationID)
| Ledger_CheckSponsorCapacity (id : ReservationID) (balance : Z)
| Ledger_ReservationByAttempt (attempt : Attempt)
| Ledger_Snapshot
| Admission_Admit (request : AdmissionRequest)
| RPC_ChainID
| RPC_PendingNonceAt (address : Address)
| RPC_LatestHeader
| RPC_SuggestGasPrice
| RPC_EstimateGas (msg : EthMsg)
| Finality_Finalized
| Finality_Latest
| Finality_Header (number : Z)
| Finality_BalanceAt (reader : Reader) (block : BlockRef) (account : Address)
| Finality_CodeAt (block : BlockRef) (account : Address)
| Finality_CallContract (reader : Reader) (block : BlockRef) (msg : EthMsg)
| Finality_Receipt (hash : Hash)
| Finality_MinedReceipt (hash : Hash)
| Finality_BaseAdditionalFee (receipt : Receipt)
| Alerts_Raise (code : AlertCode)
| Alerts_Resolve (code : AlertCode)
| Metrics_SetBudget (snapshot : ScopeSnapshot)
| Metrics_SetActiveAmbiguous (active : Z)
| Notify (notice : Notice).

Definition answer (c : Eff) : Type :=
  match c with
  | Clock_Now => Time
  | Clock_Sleep _ => option GoError
  | Clock_NewTicker _ => bool
  | Ctx_Err => option CtxErr
  | Parallel_First _ => nat
  | Gate_Stopped | Gate_Enter | Fence_Validate | Lease_IsLost => bool
  | Gate_Leave | Lease_SetCurrent _ | Lease_MarkLost | Notify _ => unit
  | Lease_Current => Lease
  | Lease_Select _ => LeaseWake
  | Tick_Select => TickWake
  | LeaseManager_Validate _ | LeaseManager_Release _ => result StoreError unit
  | LeaseManager_Renew _ _ => result StoreError Lease
  | Authorizer_Address | Transactioner_Address => Address
  | Authorizer_SignAuthorization _ => result GoError Authorization
  | Transactioner_SignTransaction _ _ => result GoError (option Txn)
  | Broadcaster_SendTransaction _ => option GoError
  | State_PutRescueIncident _ => result StoreError RescueIncident
  | State_UpdateRescueIncident _ | State_RaiseNonceFloor _ | State_PruneRescueIncidents _ => result StoreError unit
  | State_RescueIncident _ => result StoreError (option RescueIncident)
  | State_RescueIncidents _ => result StoreError (list RescueIncident)
  | State_NonceFloor => result StoreError Z
  | Ledger_Reserve _ | Ledger_MarkExposed _ _ | Ledger_CommitFinalized _ | Ledger_ReleaseProvenUnused _ => result LedgerError Reservation
  | Ledger_CheckSponsorCapacity _ _ => result LedgerError unit
  | Ledger_ReservationByAttempt _ => result LedgerError (option Reservation)
  | Ledger_Snapshot => result LedgerError Snapshot
  | Admission_Admit _ => AdmissionDecision * option AdmissionError
  | RPC_ChainID | RPC_SuggestGasPrice => result GoError (option Z)
  | RPC_PendingNonceAt _ | RPC_EstimateGas _ => result GoError Z
  | RPC_LatestHeader => result GoError (option Header)
  | Finality_Finalized | Finality_Latest | Finality_Header _ => result RpcError BlockRef
  | Finality_BalanceAt _ _ _ => result RpcError (option Z)
  | Finality_CodeAt _ _ | Finality_CallContract _ _ _ => result RpcError bytes
  | Finality_Receipt _ | Finality_MinedReceipt _ => result RpcError (option Receipt)
  | Finality_BaseAdditionalFee _ => result RpcError (option Z)
  | Alerts_Raise _ | Alerts_Resolve _ | Metrics_SetBudget _ | Metrics_SetActiveAmbiguous _ => option GoError
  end.

(** ** Programs *)

Abbreviation prog := (Programs.prog answer).
Abbreviation event := (Programs.event answer).
Definition trace := list event.

End Effects.
Export Effects.
