(* ===== verification/RescueSession.v ===== *)
(** * internal/rescue: the coordinator, its session and what they share

    [Coordinator] is the immutable part of the Go struct, [Session] adds what one
    session fixes: its generation, which optional interfaces the finality reader
    implements, and the fuel of the receipt-polling loop.  [SessionState] is what
    changes in memory, including the incident the current operation works on (the
    target of the [*store.RescueIncident] the functions pass around).  State that
    another goroutine may change, the lease and its loss channel, is read through
    calls.

    [M] is the monad of the package's functions: state, calls and Go errors; an
    error leaves the assignments made before it in place.  This file holds the
    monad and the helpers of coordinator.go, claim.go, operation_outcome.go and
    operation_reconciliation.go that every operation uses. *)

From S2P Require Import Prelude Programs GoTime Bytes Sha256 Domain Bolt BudgetModel BudgetLedger StoreModel StoreLease StoreRescue RescueFees Admission RpcQuorum RescueErrors Contracts RescueEffects.
From Stdlib Require Strings.String.
Import Strings.String.StringSyntax.

Module RescueSession.

(** ** Assignments to an incident *)

Definition set_R_Attempts (i : RescueIncident) (v : Z) : RescueIncident :=
  mkRescue (R_ID i) (R_Parent i) (R_Candidate i) (R_Network i) (R_Kind i) (R_Asset i) (R_Generation i) (R_Trusted i)
    (R_Policy i) (R_Status i) v (R_SponsorNonce i) (R_SourceNonce i) (R_TxHash i) (R_SignedTransaction i)
    (R_SnapshotBlockNumber i) (R_SnapshotBlockHash i) (R_SourceBefore i) (R_DestinationBefore i) (R_RetryAt i)
    (R_ReconcileUntil i) (R_LastCode i) (R_CreatedAt i) (R_UpdatedAt i).
Definition set_R_SponsorNonce (i : RescueIncident) (v : Z) : RescueIncident :=
  mkRescue (R_ID i) (R_Parent i) (R_Candidate i) (R_Network i) (R_Kind i) (R_Asset i) (R_Generation i) (R_Trusted i)
    (R_Policy i) (R_Status i) (R_Attempts i) v (R_SourceNonce i) (R_TxHash i) (R_SignedTransaction i)
    (R_SnapshotBlockNumber i) (R_SnapshotBlockHash i) (R_SourceBefore i) (R_DestinationBefore i) (R_RetryAt i)
    (R_ReconcileUntil i) (R_LastCode i) (R_CreatedAt i) (R_UpdatedAt i).
Definition set_R_TxHash (i : RescueIncident) (v : Hash) : RescueIncident :=
  mkRescue (R_ID i) (R_Parent i) (R_Candidate i) (R_Network i) (R_Kind i) (R_Asset i) (R_Generation i) (R_Trusted i)
    (R_Policy i) (R_Status i) (R_Attempts i) (R_SponsorNonce i) (R_SourceNonce i) v (R_SignedTransaction i)
    (R_SnapshotBlockNumber i) (R_SnapshotBlockHash i) (R_SourceBefore i) (R_DestinationBefore i) (R_RetryAt i)
    (R_ReconcileUntil i) (R_LastCode i) (R_CreatedAt i) (R_UpdatedAt i).
Definition set_R_SignedTransaction (i : RescueIncident) (v : bytes) : RescueIncident :=
  mkRescue (R_ID i) (R_Parent i) (R_Candidate i) (R_Network i) (R_Kind i) (R_Asset i) (R_Generation i) (R_Trusted i)
    (R_Policy i) (R_Status i) (R_Attempts i) (R_SponsorNonce i) (R_SourceNonce i) (R_TxHash i) v
    (R_SnapshotBlockNumber i) (R_SnapshotBlockHash i) (R_SourceBefore i) (R_DestinationBefore i) (R_RetryAt i)
    (R_ReconcileUntil i) (R_LastCode i) (R_CreatedAt i) (R_UpdatedAt i).
Definition set_R_SnapshotBlockNumber (i : RescueIncident) (v : Z) : RescueIncident :=
  mkRescue (R_ID i) (R_Parent i) (R_Candidate i) (R_Network i) (R_Kind i) (R_Asset i) (R_Generation i) (R_Trusted i)
    (R_Policy i) (R_Status i) (R_Attempts i) (R_SponsorNonce i) (R_SourceNonce i) (R_TxHash i) (R_SignedTransaction i)
    v (R_SnapshotBlockHash i) (R_SourceBefore i) (R_DestinationBefore i) (R_RetryAt i) (R_ReconcileUntil i)
    (R_LastCode i) (R_CreatedAt i) (R_UpdatedAt i).
Definition set_R_SnapshotBlockHash (i : RescueIncident) (v : Hash) : RescueIncident :=
  mkRescue (R_ID i) (R_Parent i) (R_Candidate i) (R_Network i) (R_Kind i) (R_Asset i) (R_Generation i) (R_Trusted i)
    (R_Policy i) (R_Status i) (R_Attempts i) (R_SponsorNonce i) (R_SourceNonce i) (R_TxHash i) (R_SignedTransaction i)
    (R_SnapshotBlockNumber i) v (R_SourceBefore i) (R_DestinationBefore i) (R_RetryAt i) (R_ReconcileUntil i)
    (R_LastCode i) (R_CreatedAt i) (R_UpdatedAt i).
Definition set_R_SourceBefore (i : RescueIncident) (v : bytes) : RescueIncident :=
  mkRescue (R_ID i) (R_Parent i) (R_Candidate i) (R_Network i) (R_Kind i) (R_Asset i) (R_Generation i) (R_Trusted i)
    (R_Policy i) (R_Status i) (R_Attempts i) (R_SponsorNonce i) (R_SourceNonce i) (R_TxHash i) (R_SignedTransaction i)
    (R_SnapshotBlockNumber i) (R_SnapshotBlockHash i) v (R_DestinationBefore i) (R_RetryAt i) (R_ReconcileUntil i)
    (R_LastCode i) (R_CreatedAt i) (R_UpdatedAt i).
Definition set_R_DestinationBefore (i : RescueIncident) (v : bytes) : RescueIncident :=
  mkRescue (R_ID i) (R_Parent i) (R_Candidate i) (R_Network i) (R_Kind i) (R_Asset i) (R_Generation i) (R_Trusted i)
    (R_Policy i) (R_Status i) (R_Attempts i) (R_SponsorNonce i) (R_SourceNonce i) (R_TxHash i) (R_SignedTransaction i)
    (R_SnapshotBlockNumber i) (R_SnapshotBlockHash i) (R_SourceBefore i) v (R_RetryAt i) (R_ReconcileUntil i)
    (R_LastCode i) (R_CreatedAt i) (R_UpdatedAt i).
Definition set_R_RetryAt (i : RescueIncident) (v : Time) : RescueIncident :=
  mkRescue (R_ID i) (R_Parent i) (R_Candidate i) (R_Network i) (R_Kind i) (R_Asset i) (R_Generation i) (R_Trusted i)
    (R_Policy i) (R_Status i) (R_Attempts i) (R_SponsorNonce i) (R_SourceNonce i) (R_TxHash i) (R_SignedTransaction i)
    (R_SnapshotBlockNumber i) (R_SnapshotBlockHash i) (R_SourceBefore i) (R_DestinationBefore i) v
    (R_ReconcileUntil i) (R_LastCode i) (R_CreatedAt i) (R_UpdatedAt i).
Definition set_R_ReconcileUntil (i : RescueIncident) (v : Time) : RescueIncident :=
  mkRescue (R_ID i) (R_Parent i) (R_Candidate i) (R_Network i) (R_Kind i) (R_Asset i) (R_Generation i) (R_Trusted i)
    (R_Policy i) (R_Status i) (R_Attempts i) (R_SponsorNonce i) (R_SourceNonce i) (R_TxHash i) (R_SignedTransaction i)
    (R_SnapshotBlockNumber i) (R_SnapshotBlockHash i) (R_SourceBefore i) (R_DestinationBefore i) (R_RetryAt i) v
    (R_LastCode i) (R_CreatedAt i) (R_UpdatedAt i).
Definition set_R_LastCode (i : RescueIncident) (v : bytes) : RescueIncident :=
  mkRescue (R_ID i) (R_Parent i) (R_Candidate i) (R_Network i) (R_Kind i) (R_Asset i) (R_Generation i) (R_Trusted i)
    (R_Policy i) (R_Status i) (R_Attempts i) (R_SponsorNonce i) (R_SourceNonce i) (R_TxHash i) (R_SignedTransaction i)
    (R_SnapshotBlockNumber i) (R_SnapshotBlockHash i) (R_SourceBefore i) (R_DestinationBefore i) (R_RetryAt i)
    (R_ReconcileUntil i) v (R_CreatedAt i) (R_UpdatedAt i).
Definition set_R_UpdatedAt (i : RescueIncident) (v : Time) : RescueIncident :=
  mkRescue (R_ID i) (R_Parent i) (R_Candidate i) (R_Network i) (R_Kind i) (R_Asset i) (R_Generation i) (R_Trusted i)
    (R_Policy i) (R_Status i) (R_Attempts i) (R_SponsorNonce i) (R_SourceNonce i) (R_TxHash i) (R_SignedTransaction i)
    (R_SnapshotBlockNumber i) (R_SnapshotBlockHash i) (R_SourceBefore i) (R_DestinationBefore i) (R_RetryAt i)
    (R_ReconcileUntil i) (R_LastCode i) (R_CreatedAt i) v.

(** ** Data *)

Record TrustedTokenValuePolicy := mkTokenValue {
  TV_MinimumBalance : Z;
  TV_MaximumCost : Z }.

(** The immutable fields of [Coordinator]; [Co_has*] say which optional
    observers are not nil. *)
Record Coordinator := mkCoordinator {
  Co_claim : option ClaimPlan;
  Co_latestState : bool;
  Co_network : NetworkID;
  Co_tokens : list Address;
  Co_allowUnknownTokens : bool;
  Co_source : Address;
  Co_sponsor : Address;
  Co_destination : Address;
  Co_rescuer : Address;
  Co_nativeThreshold : Z;
  Co_startupTimeout : Duration;
  Co_feeReadTimeout : Duration;
  Co_leaseTTL : Duration;
  Co_maxAttempts : Z;
  Co_retryDelay : Duration;
  Co_receiptTimeout : Duration;
  Co_finalityTimeout : Duration;
  Co_trustedTokens : gset Address;
  Co_trustedTokenValues : gmap Address TrustedTokenValuePolicy;
  Co_allowedUntrustedTokens : gset Address;
  Co_feePolicy : FeePolicy;
  Co_nativeMinimum : Z;
  Co_hasMetrics : bool;
  Co_hasAlerts : bool;
  Co_hasHealth : bool;
  Co_hasStructured : bool }.

(** [finality_latest]: the finality reader implements [latestReader];
    [finality_pins] and [finality_baseFees]: it has [Pin] and [BaseAdditionalFee]. *)
Class Session := mkSession {
  coordinator : Coordinator;
  generation : Z;
  finality_latest : bool;
  finality_pins : bool;
  finality_baseFees : bool;
  poll_fuel : nat }.

(** [attemptSnapshot] of prefetch.go. *)
Record attemptSnapshot := mkSnapshot {
  Snap_incident : IncidentID;
  Snap_attempt : Z;
  Snap_started : Time;
  Snap_block : BlockRef;
  Snap_reader : Reader;
  Snap_source : Z;
  Snap_destination : Z;
  Snap_sponsor : Z;
  Snap_sponsorNonce : Z;
  Snap_fees : FeeQuote }.

Record SessionState := mkSessionState {
  s_attempt : option attemptSnapshot;
  s_lastReceiptScan : BlockRef;
  s_lastPendingProbe : Time;
  s_recoverLatest : bool;
  s_lastFinalized : BlockRef;
  s_rpcSucceeded : bool;
  s_nonceFloor : Z;
  s_nonceBlocked : bool;
  s_incident : RescueIncident }.

Definition set_attempt (s : SessionState) v := mkSessionState v (s_lastReceiptScan s) (s_lastPendingProbe s) (s_recoverLatest s)
  (s_lastFinalized s) (s_rpcSucceeded s) (s_nonceFloor s) (s_nonceBlocked s) (s_incident s).
Definition set_lastReceiptScan (s : SessionState) v := mkSessionState (s_attempt s) v (s_lastPendingProbe s) (s_recoverLatest s)
  (s_lastFinalized s) (s_rpcSucceeded s) (s_nonceFloor s) (s_nonceBlocked s) (s_incident s).
Definition set_lastPendingProbe (s : SessionState) v := mkSessionState (s_attempt s) (s_lastReceiptScan s) v (s_recoverLatest s)
  (s_lastFinalized s) (s_rpcSucceeded s) (s_nonceFloor s) (s_nonceBlocked s) (s_incident s).
Definition set_recoverLatest (s : SessionState) v := mkSessionState (s_attempt s) (s_lastReceiptScan s) (s_lastPendingProbe s) v
  (s_lastFinalized s) (s_rpcSucceeded s) (s_nonceFloor s) (s_nonceBlocked s) (s_incident s).
Definition set_lastFinalized (s : SessionState) v := mkSessionState (s_attempt s) (s_lastReceiptScan s) (s_lastPendingProbe s) (s_recoverLatest s)
  v (s_rpcSucceeded s) (s_nonceFloor s) (s_nonceBlocked s) (s_incident s).
Definition set_rpcSucceeded (s : SessionState) v := mkSessionState (s_attempt s) (s_lastReceiptScan s) (s_lastPendingProbe s) (s_recoverLatest s)
  (s_lastFinalized s) v (s_nonceFloor s) (s_nonceBlocked s) (s_incident s).
Definition set_nonceFloor (s : SessionState) v := mkSessionState (s_attempt s) (s_lastReceiptScan s) (s_lastPendingProbe s) (s_recoverLatest s)
  (s_lastFinalized s) (s_rpcSucceeded s) v (s_nonceBlocked s) (s_incident s).
Definition set_nonceBlocked (s : SessionState) v := mkSessionState (s_attempt s) (s_lastReceiptScan s) (s_lastPendingProbe s) (s_recoverLatest s)
  (s_lastFinalized s) (s_rpcSucceeded s) (s_nonceFloor s) v (s_incident s).
Definition set_incident (s : SessionState) v := mkSessionState (s_attempt s) (s_lastReceiptScan s) (s_lastPendingProbe s) (s_recoverLatest s)
  (s_lastFinalized s) (s_rpcSucceeded s) (s_nonceFloor s) (s_nonceBlocked s) v.

(** ** The monad *)

Abbreviation M := (SM answer SessionState GoError).
Abbreviation call := (Programs.call (ans := answer)).

Definition getIncident : M RescueIncident := gets s_incident.
Definition setIncident (f : RescueIncident -> RescueIncident) : M unit := modify (fun s => set_incident s (f (s_incident s))).

(** An answer of a component, its error as a Go error. *)
Definition fromStore {A} (r : result StoreError A) : result GoError A := match r with Ok a => Ok a | Err e => Err (OfStore e) end.
Definition fromLedger {A} (r : result LedgerError A) : result GoError A := match r with Ok a => Ok a | Err e => Err (OfLedger e) end.
Definition fromRpc {A} (r : result RpcError A) : result GoError A := match r with Ok a => Ok a | Err e => Err (OfRpc e) end.
Definition fromFee {A} (r : result FeeError A) : result GoError A := match r with Ok a => Ok a | Err e => Err (OfFee e) end.
Definition fromSentinel {A} (r : result Sentinel A) : result GoError A := match r with Ok a => Ok a | Err e => Err (IsSentinel e) end.
Definition errOf {A} (r : result GoError A) : option GoError := match r with Ok _ => None | Err e => Some e end.

(** [parallelReads]: the reads run to their end; the first failure to arrive, whichever it is, is returned. *)
Definition firstFailure (failures : list (option GoError)) : M unit :=
  match omap id failures with
  | [] => mret tt
  | e :: es => let* n := call (Parallel_First (length (e :: es))) in fail (nth n (e :: es) e)
  end.

Section Helpers.
Context {G : GethTx} {AB : Abi} {SE : Session}.
Local Abbreviation co := coordinator.

Definition now : M Time := call Clock_Now.

Definition contextOrError (operation : String.string) (class : ErrorClass) (code : bytes) (retryable ambiguous : bool) (cause : option GoError)
    : M GoError :=
  let* e := call Ctx_Err in
  mret match e with
       | Some ctxErr => NewError operation ErrorRPCTransient codeContextCanceled true true (Some (OfContext ctxErr))
       | None => NewError operation class code retryable ambiguous cause
       end.

(** [return contextOrError(...)] *)
Definition failContext {A} operation class code retryable ambiguous cause : M A :=
  let* e := contextOrError operation class code retryable ambiguous cause in fail e.

(** ** Reports *)

Definition record (code : bytes) (level : Level) (candidate : CandidateID) (hash : Hash) (error : bytes) : M unit :=
  call (Notify (NoticeEvent code level candidate hash error)).

Definition recordSafe (event : SafeEvent) : M unit := when (Co_hasStructured co) (call (Notify (NoticeSafe event))).

Definition setCondition (condition : HealthCondition) (active : bool) : M unit :=
  when (Co_hasHealth co) (call (Notify (NoticeHealth condition active))).

Definition metric (notice : Notice) : M unit := when (Co_hasMetrics co) (call (Notify notice)).

Definition eventStartupVerified : bytes := str "rescue_startup_verified".
Definition eventOperationPrepared : bytes := str "rescue_operation_prepared".
Definition eventBroadcastAccepted : bytes := str "rescue_broadcast_accepted".
Definition eventOperationConfirmed : bytes := str "rescue_operation_confirmed".
Definition eventOperationFailed : bytes := str "rescue_operation_failed".

Definition safeErrorOf (err : GoError) : option SafeError :=
  match errors_As_Classified err with
  | Some c => safeError (Cls_Class c) (Cls_Code c) (Cls_Retryable c) (Cls_Ambiguous c)
  | None => None
  end.

Definition recordFailure (candidate : CandidateID) (hash : Hash) (err : GoError) : M unit :=
  let* _ := record eventOperationFailed LevelError candidate hash (errorCode err) in
  match errors_As_Classified err with
  | None => mret tt
  | Some c =>
      let* _ := when (bool_decide (Cls_Class c = ErrorRPCTransient) || bool_decide (Cls_Class c = ErrorRPCInvalidResponse))
        (let* _ := metric NoticeRPCError in
         let* _ := setCondition ConditionRPCDegraded true in
         when (Co_hasAlerts co)
           (let* alertErr := call (Alerts_Raise AlertRPCDegraded) in
            match alertErr with Some _ => setCondition ConditionRPCDegraded true | None => mret tt end)) in
      recordSafe (mkSafeEvent LevelError LogStateTransition None None ResultFailed None (safeErrorOf err))
  end.

Definition incidentFailureState (status : RescueStatus) : DurableState * EventResult :=
  match status with
  | RescuePending => (DurablePending, ResultFailed)
  | RescuePrepared => (DurableProcessing, ResultFailed)
  | RescueSigned | RescueRetryable => (DurableRetryPending, ResultFailed)
  | RescueBroadcast => (DurableBroadcast, ResultBroadcast)
  | RescueAmbiguous => (DurableAmbiguous, ResultAmbiguous)
  | RescueTrustedSuccess => (DurableConfirmed, ResultConfirmed)
  | RescueTokenReported => (DurableConfirmed, ResultTokenReported)
  | RescueLostRace => (DurableFailed, ResultLostRace)
  | _ => (DurableFailed, ResultFailed)
  end.

(** [observability.NewPublicTxHashAfterBroadcast] *)
Definition publicTxHash (hash : Hash) : option Hash := if is_zero_bytes hash then None else Some hash.

Definition publicTransactionHash (i : RescueIncident) : Hash :=
  if isStatus i RescueBroadcast || isStatus i RescueTrustedSuccess || isStatus i RescueTokenReported || isStatus i RescueLostRace
     || (isStatus i RescueAmbiguous && negb (bytes_eqb (R_LastCode i) codeBroadcast))
  then R_TxHash i else zeroHash.

Definition recordIncidentFailure (i : RescueIncident) (failure : GoError) : M unit :=
  let (state, result) := incidentFailureState (R_Status i) in
  recordSafe (mkSafeEvent LevelError LogStateTransition (Some (R_ID i)) (Some state) result
                (publicTxHash (publicTransactionHash i)) (safeErrorOf failure)).

Definition recordCandidateFailure (candidate : CandidateID) (failure : GoError) : M unit :=
  let* incidents := call (State_RescueIncidents (Co_network co)) in
  match incidents with
  | Err _ => mret tt
  | Ok incidents =>
      forEach incidents (fun i => when (bytes_eqb (R_Candidate i) candidate) (recordIncidentFailure i failure))
  end.

Definition recordRPCHealthy : M unit :=
  let* failed := (if Co_hasAlerts co then
                    let* err := call (Alerts_Resolve AlertRPCDegraded) in mret (match err with Some _ => true | None => false end)
                  else mret false) in
  setCondition ConditionRPCDegraded failed.

Definition recordTerminal (status : RescueStatus) : M unit :=
  let* i := getIncident in
  let (result, state) :=
    match status with
    | RescueTrustedSuccess => (ResultConfirmed, DurableConfirmed)
    | RescueTokenReported => (ResultTokenReported, DurableConfirmed)
    | RescueLostRace => (ResultLostRace, DurableFailed)
    | _ => (ResultFailed, DurableFailed)
    end in
  recordSafe (mkSafeEvent LevelInfo LogStateTransition (Some (R_ID i)) (Some state) result (publicTxHash (R_TxHash i)) None).

Definition recordBroadcast : M unit :=
  let* i := getIncident in
  match publicTxHash (R_TxHash i) with
  | None => mret tt
  | Some hash =>
      recordSafe (mkSafeEvent LevelInfo LogBroadcastAccepted (Some (R_ID i)) (Some DurableBroadcast) ResultBroadcast (Some hash) None)
  end.

(** [Raise] or [Resolve] of an alert, if there is an alert manager. *)
Definition setAlert (code : AlertCode) (raised : bool) : M (option GoError) :=
  if Co_hasAlerts co then (if raised then call (Alerts_Raise code) else call (Alerts_Resolve code)) else mret None.

(** ** claim.go *)

Definition claimFor (i : RescueIncident) : result GoError ClaimPlan :=
  let mismatch := NewError "rescue.claim_identity" ErrorConfiguration codeCandidateMismatch false true None in
  match Co_claim co with
  | None => Err mismatch
  | Some plan =>
      reject negb (bool_decide (R_Kind i = CandidateClaim)) || negb (bytes_eqb (R_Asset i) (Plan_Token plan))
          || negb (bytes_eqb (R_Candidate i) (Candidate_ID (NewClaimCandidate (Co_network co) (Co_source co) plan))) with mismatch in
      Ok plan
  end.

Definition operationValue (i : RescueIncident) : result GoError Z :=
  if negb (bool_decide (R_Kind i = CandidateClaim)) then Ok 0
  else let! plan := claimFor i in Ok (Plan_Value plan).

Definition claimExpired : M bool :=
  let* i := getIncident in
  if negb (bool_decide (R_Kind i = CandidateClaim)) then mret false
  else
    match claimFor i with
    | Err _ => mret true
    | Ok plan =>
        let* first := now in
        if Unix first <? 0 then mret true
        else let* second := now in mret (Plan_ValidUntil plan <=? uint64_wrap (Unix second))
    end.

Definition isTokenOperation (kind : CandidateKind) : bool := bool_decide (kind = CandidateToken) || bool_decide (kind = CandidateClaim).

Definition requiredDestinationDelta (i : RescueIncident) : result GoError Z :=
  let required := be_value (R_SourceBefore i) in
  if bool_decide (R_Kind i = CandidateClaim) then
    let! plan := claimFor i in Ok (required + Plan_MinimumReceived plan)
  else Ok required.

(** ** Incident updates *)

Definition updateIncidentAt (at_ : Time) : M unit :=
  let* _ := setIncident (fun i => set_R_UpdatedAt i at_) in
  let* _ := setIncident (fun i => if isStatus i RescueRetryable then set_R_RetryAt i (Add at_ (Pol_RetryDelay (R_Policy i))) else i) in
  let* i := getIncident in
  let* r := call (State_UpdateRescueIncident i) in
  match r with
  | Err e => fail (NewError "rescue.state_update" ErrorInternal codeStateWrite true true (Some (OfStore e)))
  | Ok _ => mret tt
  end.

Definition updateIncident : M unit := let* t := now in updateIncidentAt t.

Definition rescueIncidentRetain : Z := 1024.

Definition pruneTerminal : M unit :=
  let* r := call (State_PruneRescueIncidents rescueIncidentRetain) in
  match r with
  | Err e => fail (NewError "rescue.state_prune" ErrorInternal codeStateWrite true true (Some (OfStore e)))
  | Ok _ => mret tt
  end.

(** An incident that keeps the sponsor's nonce blocked. *)
Definition blocksNonce (at_ : Time) (i : RescueIncident) : bool :=
  match R_Status i with
  | RescueSigned => true
  | RescueAmbiguous => negb (Before at_ (R_ReconcileUntil i)) || nonceBlockingCode (R_LastCode i)
  | _ => false
  end.

Definition refreshNonceBlock : M unit :=
  let* r := call (State_RescueIncidents (Co_network co)) in
  match r with
  | Err e =>
      let* _ := modify (fun s => set_nonceBlocked s true) in
      fail (NewError "rescue.nonce_block" ErrorInternal codeStateRead true true (Some (OfStore e)))
  | Ok incidents =>
      let* t := now in
      modify (fun s => set_nonceBlocked s (existsb (blocksNonce t) incidents))
  end.

Definition refreshAmbiguousTelemetry : M unit :=
  let* r := call (State_RescueIncidents (Co_network co)) in
  match r with
  | Err e => fail (NewError "rescue.ambiguity_state" ErrorInternal codeStateRead true true (Some (OfStore e)))
  | Ok incidents =>
      let active := Z.of_nat (length (filter (fun i => isStatus i RescueAmbiguous = true) incidents)) in
      let* metricErr := (if Co_hasMetrics co then call (Metrics_SetActiveAmbiguous active) else mret None) in
      match metricErr with
      | Some e => fail (NewError "rescue.ambiguity_metrics" ErrorInternal codeStateWrite true true (Some e))
      | None =>
          let* _ := setCondition ConditionAmbiguousRescue (0 <? active) in
          let* alertErr := setAlert AlertAmbiguousRescue (0 <? active) in
          match alertErr with
          | Some e => fail (NewError "rescue.ambiguity_alert" ErrorInternal codeStateWrite true true (Some e))
          | None => mret tt
          end
      end
  end.

Definition setTerminal (status : RescueStatus) (code : bytes) : M unit :=
  let* previous := gets (fun s => R_Status (s_incident s)) in
  let* _ := setIncident (fun i => set_R_LastCode (set_R_ReconcileUntil (set_R_RetryAt
                (set_R_SignedTransaction (withStatus i status) []) zeroTime) zeroTime) code) in
  let* _ := updateIncident in
  let* _ := refreshNonceBlock in
  let* _ := when (bool_decide (previous = RescueAmbiguous)) refreshAmbiguousTelemetry in
  let* _ := when (bool_decide (status = RescueLostRace)) (metric NoticeLostRace) in
  let* _ := recordTerminal status in
  pruneTerminal.

Definition persistExpiredAmbiguous : M unit :=
  let* i := getIncident in
  if isStatus i RescueAmbiguous && bytes_eqb (R_LastCode i) codeReceiptTimeout && IsZero (R_RetryAt i) then mret tt
  else
    let updatedAt := Add (R_ReconcileUntil i) (- 1) in
    let updatedAt := if Before updatedAt (R_UpdatedAt i) then R_UpdatedAt i else updatedAt in
    let* _ := setIncident (fun i => set_R_RetryAt (set_R_LastCode (withStatus i RescueAmbiguous) codeReceiptTimeout) zeroTime) in
    updateIncidentAt updatedAt.

Definition persistAmbiguousCode (code : bytes) : M unit :=
  let* t := now in
  let* i := getIncident in
  let wasAmbiguous := isStatus i RescueAmbiguous in
  if negb (Before t (R_ReconcileUntil i)) then persistExpiredAmbiguous
  else
    let code := if nonceBlockingCode (R_LastCode i) && negb (nonceBlockingCode code) then R_LastCode i else code in
    let retryAt := Add t (Pol_RetryDelay (R_Policy i)) in
    let retryAt := if After retryAt (R_ReconcileUntil i) then R_ReconcileUntil i else retryAt in
    let* _ := setIncident (fun i => set_R_RetryAt (set_R_LastCode (withStatus i RescueAmbiguous) code) retryAt) in
    let* _ := updateIncidentAt t in
    let* _ := when (negb wasAmbiguous) (metric NoticeOpenAmbiguous) in
    refreshAmbiguousTelemetry.

Definition persistAmbiguous (failure : GoError) : M unit := persistAmbiguousCode (errorCode failure).

(** [postconditionAmbiguous]: persist, then return the failure. *)
Definition postconditionAmbiguous {A} (failure : GoError) : M A :=
  let* _ := persistAmbiguous failure in fail failure.

Definition incidentHasSignedTransaction (i : RescueIncident) : bool :=
  if is_zero_bytes (R_TxHash i) then false
  else
    match R_Status i with
    | RescueSigned | RescueBroadcast | RescueAmbiguous | RescueRetryable | RescueExhausted | RescueFailed
    | RescueTrustedSuccess | RescueTokenReported | RescueLostRace => true
    | _ => false
    end.

Definition statusNeedsReceipt (status : RescueStatus) : bool :=
  match status with RescueSigned | RescueBroadcast | RescueAmbiguous => true | _ => false end.

(** ** The fence, the lease and the signers *)

Definition markLeaseLost : M unit := call Lease_MarkLost.

Definition validateLease : M unit :=
  let* lost := call Lease_IsLost in
  stop lost with fail (leaseError "rescue.lease") in
  let* lost := call Lease_IsLost in
  stop lost with fail (leaseError "rescue.lease") in
  let* lease := call Lease_Current in
  let* r := call (LeaseManager_Validate lease) in
  match r with
  | Ok _ => mret tt
  | Err _ =>
      let* ctxErr := call Ctx_Err in
      match ctxErr with
      | Some e => failContext "rescue.lease_validate" ErrorInternal codeContextCanceled false false (Some (OfContext e))
      | None => let* _ := markLeaseLost in fail (leaseError "rescue.lease_validate")
      end
  end.

Definition validateProcessFence : M unit :=
  let* valid := call Fence_Validate in
  if valid then mret tt else fail (processFenceError "rescue.process_fence").

Definition checkSignerAddresses : M unit :=
  let* authorizer := call Authorizer_Address in
  let mismatch := fail (NewError "rescue.signer" ErrorSigning codeSignerMismatch false false None) in
  if negb (bytes_eqb authorizer (Co_source co)) then mismatch
  else
    let* transactioner := call Transactioner_Address in
    if negb (bytes_eqb transactioner (Co_sponsor co)) then mismatch else mret tt.

Definition guardSigning : M unit :=
  let* _ := validateProcessFence in
  let* _ := validateLease in
  checkSignerAddresses.

(** [gate.Do(action)] *)
Definition gateDo {A} (action : M A) : M A :=
  let* entered := call Gate_Enter in
  if negb entered then fail (IsSentinel ErrPaidActionsStopped)
  else
    let* r := try action in
    let* _ := call Gate_Leave in
    lift r.

Definition raiseNonceFloor (floor : Z) : M unit :=
  modify (fun s => if s_nonceFloor s <? floor then set_nonceFloor s floor else s).

Definition ensureDurableNonceFloor (nonce : Z) : M unit :=
  stop nonce =? 2 ^ 64 - 1 with fail (NewError "rescue.nonce_floor" ErrorInternal codeNonceRead false true None) in
  let floor := uint64_wrap (nonce + 1) in
  let* r := call (State_RaiseNonceFloor floor) in
  match r with
  | Err e => fail (NewError "rescue.nonce_floor" ErrorInternal codeStateWrite true true (Some (OfStore e)))
  | Ok _ => raiseNonceFloor floor
  end.

(** ** Reads *)

Definition amountBytes (amount : option Z) : result GoError bytes :=
  match amount with
  | None => Err (NewError "rescue.amount" ErrorRPCInvalidResponse codeBalanceDecode true true None)
  | Some z =>
      reject (z <? 0) || (2 ^ 256 <=? z) with NewError "rescue.amount" ErrorRPCInvalidResponse codeBalanceDecode true true None in
      Ok (be_bytes 32 z)
  end.

Definition knownAmountBytes (amount : option Z) : bytes :=
  match amount with
  | None => zero_bytes 32
  | Some z => match amountBytes (Some z) with Ok encoded => encoded | Err _ => zero_bytes 32 end
  end.

Definition tokenBalanceAt (block : BlockRef) (token account : Address) : M Z :=
  match PackBalanceOf account with
  | None => fail (NewError "rescue.token_balance" ErrorInternal codeEncoding false false (Some (Foreign (str "abi"))))
  | Some data =>
      let* r := call (Finality_CallContract None block (callMsg token 0 data)) in
      match r with
      | Err e => failContext "rescue.token_balance" ErrorRPCTransient codeBalanceRead true true (Some (OfRpc e))
      | Ok result =>
          match fromSentinel (DecodeBalanceOf result) with
          | Err e => fail (NewError "rescue.token_balance" ErrorRPCInvalidResponse codeBalanceDecode true true (Some e))
          | Ok balance =>
              match amountBytes (Some balance) with
              | Err e => fail (NewError "rescue.token_balance" ErrorRPCInvalidResponse codeBalanceDecode true true (Some e))
              | Ok _ => mret balance
              end
          end
      end
  end.

Definition nativeBalanceAt (block : BlockRef) (account : Address) : M Z :=
  let* r := call (Finality_BalanceAt None block account) in
  match r with
  | Err e => failContext "rescue.native_balance" ErrorRPCTransient codeBalanceRead true true (Some (OfRpc e))
  | Ok balance =>
      match amountBytes balance with
      | Err e => fail (NewError "rescue.native_balance" ErrorRPCInvalidResponse codeBalanceDecode true true (Some e))
      | Ok _ => mret (default 0 balance)
      end
  end.

Definition blockTime (block : BlockRef) : M Time :=
  if Ref_Timestamp block =? 0 then now else mret (unixTime (int64_wrap (Ref_Timestamp block)) 0).

(** [session.finality.(latestReader)] without a check: a panic if it is not one. *)
Definition asLatestReader (c : Eff) : M (answer c) := if finality_latest then call c else panic.

Definition preflightBlock : M BlockRef :=
  let* r := (if Co_latestState co then asLatestReader Finality_Latest else call Finality_Finalized) in
  lift (fromRpc r).

Definition requireCanonicalHeader (number : Z) (hash : Hash) : M unit :=
  let* r := call (Finality_Header number) in
  match r with
  | Err e => failContext "rescue.canonical_header" ErrorRPCTransient codeFinalityRead true true (Some (OfRpc e))
  | Ok header =>
      if negb (Ref_Number header =? number) || negb (bytes_eqb (Ref_Hash header) hash)
      then failContext "rescue.canonical_header" ErrorRPCTransient codeFinalityRead true true None
      else mret tt
  end.

(** [rpc.EstimateBaseAdditionalFee] over the reader's [CallContract]; its two calls run concurrently. *)
Definition oracleMsg (selector : bytes) (value : Z) : EthMsg := callMsg baseGasOracle 200000 (oracleData selector value).

Definition estimateBaseAdditionalFee (reader : Reader) (block : BlockRef) (calldataBytes gas : Z) : M Z :=
  if (calldataBytes <? 0) || (2 ^ 16 <? calldataBytes) || (gas =? 0) then fail (OfRpc ErrMalformedResponse)
  else
    let* l1 := call (Finality_CallContract reader block (oracleMsg l1FeeSelector (calldataBytes + 1024))) in
    let* operator := call (Finality_CallContract reader block (oracleMsg operatorFeeSelector gas)) in
    let* first := call (Parallel_First 2) in
    let some r := match r with Ok b => Ok (Some b) | Err e => Err e end in
    lift (fromRpc (EstimateBaseAdditionalFee false (fun _ => some l1) (fun _ => some operator) (Nat.eqb first 1) calldataBytes gas)).

(** ** Budget reports *)

Definition updateBudgetMetrics : M unit :=
  let* r := call Ledger_Snapshot in
  match r with
  | Err e => fail (budgetError "rescue.budget_snapshot" (OfLedger e))
  | Ok snapshot =>
      match Snapshot_Networks snapshot !! Co_network co with
      | None => fail (budgetError "rescue.budget_snapshot" (OfLedger ErrCorrupt))
      | Some network =>
          let* metricErr := (if Co_hasMetrics co then
                               let* _ := call (Notify (NoticeGlobalBudget (Snapshot_Global snapshot))) in
                               call (Metrics_SetBudget network)
                             else mret None) in
          match metricErr with
          | Some e => fail (NewError "rescue.metrics" ErrorInternal codeStateWrite true true (Some e))
          | None =>
              let blocked := ScopeSnapshot_Blocked (Snapshot_Global snapshot) || ScopeSnapshot_Blocked network in
              let* _ := setCondition ConditionBudgetBlocked blocked in
              let* alertErr := setAlert AlertBudgetBlocked blocked in
              match alertErr with
              | Some e => fail (NewError "rescue.budget_alert" ErrorInternal codeStateWrite true true (Some e))
              | None => mret tt
              end
          end
      end
  end.

Definition budgetBlocked {A} (cause : GoError) : M A :=
  let* i := getIncident in
  let code := if errors_Is isSponsorReserve cause then codeSponsorReserve else codeBudgetExceeded in
  let* _ := setCondition ConditionBudgetBlocked true in
  let* alertErr := setAlert AlertBudgetBlocked true in
  let cause := match alertErr with Some e => Joined cause e | None => cause end in
  let* _ := recordSafe (mkSafeEvent LevelWarning LogBudgetBlocked (Some (R_ID i)) (Some DurableProcessing) ResultSkipped None
                          (safeError ErrorBudget code true false)) in
  fail (NewError "rescue.budget" ErrorBudget code true false (Some cause)).

Definition admissionBlocked {A} (cause : option GoError) : M A :=
  fail (NewError "rescue.admission" ErrorBudget codeAdmissionLimited true false cause).

Definition beforeSignedFailure {A} (failure : GoError) : M A :=
  let* _ := setIncident (fun i => set_R_ReconcileUntil (set_R_SignedTransaction (set_R_TxHash
                (withStatus (set_R_LastCode i (errorCode failure)) RescueRetryable) zeroHash) []) zeroTime) in
  let* _ := updateIncident in
  fail failure.

(** The error left after the reservation was given back. *)
Definition releaseReservation (id : ReservationID) (original : GoError) : M GoError :=
  let* r := call (Ledger_ReleaseProvenUnused id) in
  match r with
  | Err e => mret (budgetError "rescue.budget_release" (Joined original (OfLedger e)))
  | Ok _ =>
      let* r := try updateBudgetMetrics in
      mret (match r with Err e => e | Ok _ => original end)
  end.

Definition releaseBeforeSigned {A} (id : ReservationID) (failure : GoError) : M A :=
  let* failure := releaseReservation id failure in
  if bytes_eqb (errorCode failure) codePaidActionsStopped then fail failure else beforeSignedFailure failure.

End Helpers.

End RescueSession.
Export RescueSession.
