(* ===== verification/RescueOperations.v ===== *)
(** * internal/rescue: what one rescue operation is made of

    The pure checks of operation_signing.go and simulation.go, the nonce and fee
    reads, the snapshot of prefetch.go, the reservation and the send of
    operation_reconciliation.go, and the receipt of operation_outcome.go: proof
    that it is canonical, commitment of its cost and the terminal outcome. *)

From S2P Require Import Prelude Programs GoTime Bytes Sha256 Domain Bolt BudgetModel BudgetLedger StoreModel StoreLease StoreRescue RescueFees Admission RpcQuorum RescueErrors Contracts RescueEffects RescueSession.
From Stdlib Require Strings.String.
Import Strings.String.StringSyntax.

Module RescueOperations.

(** ** simulation.go *)

Record EIP7702SimulationRequest := mkSimulation {
  Sim_Sponsor : Address;
  Sim_Source : Address;
  Sim_GasLimit : Z;
  Sim_GasTipCap : option Z;
  Sim_GasFeeCap : option Z;
  Sim_Data : bytes;
  Sim_Value : option Z;
  Sim_AuthorizationList : list Authorization }.

Definition validSimulationFee (value : option Z) : bool :=
  match value with Some z => (0 <? z) && (z <? 2 ^ 256) | None => false end.

Definition validSimulationRequest (request : EIP7702SimulationRequest) : bool :=
  negb (is_zero_bytes (Sim_Sponsor request)) && negb (is_zero_bytes (Sim_Source request))
  && negb (bytes_eqb (Sim_Sponsor request) (Sim_Source request)) && (0 <? Sim_GasLimit request)
  && (0 <? len (Sim_Data request)) && negb (Nat.eqb (length (Sim_AuthorizationList request)) 0)
  && match Sim_Value request with Some z => (0 <=? z) && (z <? 2 ^ 256) | None => true end
  && validSimulationFee (Sim_GasTipCap request) && validSimulationFee (Sim_GasFeeCap request)
  && (default 0 (Sim_GasTipCap request) <=? default 0 (Sim_GasFeeCap request)).

Definition simulationCall (request : EIP7702SimulationRequest) : EthMsg :=
  mkEthMsg (Sim_Sponsor request) (Some (Sim_Source request)) (Sim_GasLimit request) (Sim_GasFeeCap request) (Sim_GasTipCap request)
    match Sim_Value request with Some z => if z =? 0 then None else Some z | None => None end
    (Sim_Data request) (Sim_AuthorizationList request).

Definition EstimateEIP7702Gas (request : EIP7702SimulationRequest) : M Z :=
  if negb (validSimulationRequest request) then fail (IsSentinel ErrInvalidSimulationRequest)
  else
    let* r := call (RPC_EstimateGas (simulationCall request)) in
    match r with
    | Err e => fail (Joined (IsSentinel ErrEstimateGasFailed) e)
    | Ok estimate =>
        if (estimate =? 0) || (Sim_GasLimit request <? estimate) then fail (IsSentinel ErrInvalidGasEstimate) else mret estimate
    end.

Definition SimulateEIP7702At (reader : Reader) (block : BlockRef) (request : EIP7702SimulationRequest) : M unit :=
  if bytes_eqb (Ref_Hash block) zeroHash || negb (validSimulationRequest request) then fail (IsSentinel ErrInvalidSimulationRequest)
  else
    let* r := call (Finality_CallContract reader block (simulationCall request)) in
    match r with
    | Err e => fail (Joined (IsSentinel ErrQuorumSimulationFailed) (OfRpc e))
    | Ok _ => mret tt
    end.

Section Operations.
Context {G : GethTx} {AB : Abi} {SE : Session}.
Local Abbreviation co := coordinator.

(** ** Call data and the signed transaction *)

Definition operationData (i : RescueIncident) : result GoError (bytes * FeeAsset) :=
  let encoding := NewError "rescue.operation_data" ErrorInternal codeEncoding false false None in
  match R_Kind i with
  | CandidateClaim =>
      let! plan := claimFor i in
      let? data := PackExecuteAndSweep (Plan_Target plan) (Plan_Data plan) [Plan_Token plan] orelse Foreign (str "abi") in
      Ok (data, FeeAssetToken)
  | CandidateToken =>
      let? data := PackSweepAll [R_Asset i] orelse encoding in
      reject len data =? 0 with encoding in
      Ok (data, if R_Trusted i then FeeAssetToken else FeeAssetUnknownToken)
  | _ =>
      let? data := PackSweepEth orelse encoding in
      reject len data =? 0 with encoding in
      Ok (data, FeeAssetNative)
  end.

Definition validSignedOperation (signed : option Txn) (unsigned : Txn) : bool :=
  match signed with
  | None => false
  | Some signed =>
      (Txn_Type signed =? SetCodeTxType) && (Txn_Nonce signed =? Txn_Nonce unsigned)
      && match Txn_To signed, Txn_To unsigned with Some a, Some b => bytes_eqb a b | _, _ => false end
      && bytes_eqb (Txn_Data signed) (Txn_Data unsigned) && (Txn_Gas signed =? Txn_Gas unsigned)
      && (Txn_ChainID signed =? Txn_ChainID unsigned) && (Txn_GasTipCap signed =? Txn_GasTipCap unsigned)
      && (Txn_GasFeeCap signed =? Txn_GasFeeCap unsigned) && (Txn_Value signed =? Txn_Value unsigned)
      && Nat.eqb (length (Txn_AccessList signed)) 0
      && match Txn_Authorizations signed, Txn_Authorizations unsigned with
         | [a], [b] => bool_decide (a = b)
         | _, _ => false
         end
  end.

Definition payloadInvalid : GoError := NewError "rescue.signed_payload" ErrorInternal codeSignedPayloadInvalid false true None.

(** The envelope: decodes, re-encodes to the same bytes, and is the incident's transaction to the source. *)
Definition decodePersisted (i : RescueIncident) : result GoError Txn :=
  reject (len (R_SignedTransaction i) =? 0) || bytes_eqb (R_TxHash i) zeroHash with payloadInvalid in
  let? transaction := txn_UnmarshalBinary (R_SignedTransaction i) orelse payloadInvalid in
  let? reencoded := txn_MarshalBinary transaction orelse payloadInvalid in
  reject negb (bytes_eqb reencoded (R_SignedTransaction i)) || negb (bytes_eqb (txn_Hash transaction) (R_TxHash i))
      || negb (Txn_Type transaction =? SetCodeTxType) || negb (Txn_Nonce transaction =? R_SponsorNonce i)
      || match Txn_To transaction with Some to => negb (bytes_eqb to (Co_source co)) | None => true end with payloadInvalid in
  Ok transaction.

(** The authorization and the two signatures. *)
Definition checkAuthorization (i : RescueIncident) (transaction : Txn) : result GoError unit :=
  match Txn_Authorizations transaction with
  | [authorization] =>
      reject negb (bytes_eqb (Auth_Address authorization) (Co_rescuer co)) || negb (Auth_Nonce authorization =? R_SourceNonce i)
          || negb (Auth_ChainID authorization =? Co_network co) with payloadInvalid in
      let mismatch := NewError "rescue.signed_payload" ErrorSigning codeSignerMismatch false true None in
      let? authority := auth_Authority authorization orelse mismatch in
      reject negb (bytes_eqb authority (Co_source co)) with mismatch in
      let? sender := txn_Sender (Txn_ChainID transaction) transaction orelse mismatch in
      reject negb (bytes_eqb sender (Co_sponsor co)) with mismatch in
      Ok tt
  | _ => Err payloadInvalid
  end.

Definition validatePersistedTransaction (i : RescueIncident) : result GoError Txn :=
  let! transaction := decodePersisted i in
  let! value := errOr payloadInvalid (operationValue i) in
  reject negb (Txn_Value transaction =? value) with payloadInvalid in
  let! claimGas := (if bool_decide (R_Kind i = CandidateClaim) then let! plan := claimFor i in Ok (Some (Plan_GasLimit plan)) else Ok None) in
  let! (data, asset) := errOr payloadInvalid (operationData i) in
  let? gas := gasLimit (Co_feePolicy co) asset orelse payloadInvalid in
  let gas := default gas claimGas in
  reject negb (bytes_eqb (Txn_Data transaction) data) || negb (Txn_Gas transaction =? gas)
      || (Txn_GasTipCap transaction <=? 0) || (Txn_GasFeeCap transaction <=? 0)
      || negb (Txn_ChainID transaction =? Co_network co) || negb (Nat.eqb (length (Txn_AccessList transaction)) 0) with payloadInvalid in
  let! _ := checkAuthorization i transaction in
  Ok transaction.

(** ** Nonces and fees *)

Fixpoint hasPrefix (sub message : bytes) : bool :=
  match sub, message with
  | [], _ => true
  | x :: sub, y :: message => bool_decide (x = y) && hasPrefix sub message
  | _ :: _, [] => false
  end.

(** [strings.Contains] *)
Fixpoint contains (message sub : bytes) : bool :=
  hasPrefix sub message || match message with [] => false | _ :: message => contains message sub end.

(** The text of an error of the RPC client; the program's own errors name no status. *)
Definition isRateLimitError (err : GoError) : bool :=
  match err with
  | Foreign message => contains message (str "429") || contains message (str "Too Many Requests")
  | _ => false
  end.

Definition nonceFailed (cause : GoError) : GoError := NewError "rescue.nonce" ErrorRPCTransient codeNonceRead true false (Some cause).

Fixpoint pendingNonceLoop (delays : list Duration) (lastError : GoError) (address : Address) : M Z :=
  match delays with
  | [] => fail (nonceFailed lastError)
  | delay :: delays =>
      let* slept := (if 0 <? delay then call (Clock_Sleep delay) else mret None) in
      match slept with
      | Some e => failContext "rescue.nonce" ErrorRPCTransient codeContextCanceled true true (Some e)
      | None =>
          let* r := call (RPC_PendingNonceAt address) in
          match r with
          | Ok nonce => mret nonce
          | Err e =>
              let* ctxErr := call Ctx_Err in
              match ctxErr with
              | Some _ => failContext "rescue.nonce" ErrorRPCTransient codeContextCanceled true true (Some e)
              | None => if negb (isRateLimitError e) then fail (nonceFailed e) else pendingNonceLoop delays e address
              end
          end
      end
  end.

Definition Millisecond : Duration := 1000000.

Definition pendingNonce (address : Address) : M Z :=
  pendingNonceLoop [0; 300 * Millisecond; 800 * Millisecond] (Foreign []) address.

Definition checkedPendingNonce (address : Address) : M Z :=
  let* nonce := pendingNonce address in
  stop nonce =? 2 ^ 64 - 1 with fail (NewError "rescue.nonce" ErrorRPCInvalidResponse codeNonceRead false true None) in
  mret nonce.

Definition sponsorNonce : M Z :=
  let* pending := checkedPendingNonce (Co_sponsor co) in
  let* _ := raiseNonceFloor pending in
  let* floor := gets s_nonceFloor in
  stop floor =? 2 ^ 64 - 1 with fail (NewError "rescue.sponsor_nonce" ErrorRPCInvalidResponse codeNonceRead false true None) in
  mret floor.

Definition readFees (asset : FeeAsset) : M FeeQuote :=
  let* head := call RPC_LatestHeader in
  let* gasPrice := call RPC_SuggestGasPrice in
  let* failed := try (firstFailure [errOf head; errOf gasPrice]) in
  match failed with
  | Err e => failContext "rescue.fees_header" ErrorRPCTransient codeFeeRead true true (Some e)
  | Ok _ =>
      let* head := lift head in
      let* gasPrice := lift gasPrice in
      let baseFee := match head with Some head => Hdr_BaseFee head | None => None end in
      stop default 0 baseFee <=? 0 with fail (NewError "rescue.fees_header" ErrorRPCInvalidResponse codeFeeInvalid true true None) in
      stop default 0 gasPrice <=? 0 with fail (NewError "rescue.fees_gas_price" ErrorRPCInvalidResponse codeFeeInvalid true true None) in
      match BuildFeeQuote (Co_feePolicy co) asset baseFee gasPrice with
      | Err e => fail (NewError "rescue.fees_policy" ErrorRPCInvalidResponse codeFeeInvalid true false (Some (OfFee e)))
      | Ok quote => mret quote
      end
  end.

(** ** prefetch.go *)

Definition maxAttemptSnapshotAge : Duration := 5 * Second.
Definition maxUnfinalizedOperations : nat := 16.

Definition cachedAttempt : M (option attemptSnapshot) :=
  let* i := getIncident in
  let* snapshot := gets s_attempt in
  match snapshot with
  | None => mret None
  | Some snapshot =>
      if negb (bytes_eqb (Snap_incident snapshot) (R_ID i)) || negb (Snap_attempt snapshot =? R_Attempts i) then mret None
      else
        let* t := now in
        let age := Sub t (Snap_started snapshot) in
        mret (if (age <? 0) || (maxAttemptSnapshotAge <? age) then None else Some snapshot)
  end.

Definition restartPreparedAttempt {A} : M A :=
  let* i := getIncident in
  let* r := call (Ledger_ReservationByAttempt (mkAttempt (R_ID i) (R_Attempts i))) in
  match r with
  | Err e => fail (OfLedger e)
  | Ok found =>
      let* _ := match found with
                | None => mret tt
                | Some reservation =>
                    let* r := call (Ledger_ReleaseProvenUnused (Res_ID reservation)) in
                    match r with Err e => fail (OfLedger e) | Ok _ => mret tt end
                end in
      beforeSignedFailure (NewError "rescue.snapshot_expired" ErrorRPCTransient codeRetryPending true false None)
  end.

Definition fastPending {A} : M A :=
  let* t := now in fail (FastPending (retryPendingError true) (Add t Second)).

(** The incidents waiting for a receipt and, of those, the first with the highest sponsor nonce. *)
Definition highestNonce (incidents : list RescueIncident) : option RescueIncident :=
  fold_left (fun highest i =>
    match highest with
    | None => Some i
    | Some h => if R_SponsorNonce h <? R_SponsorNonce i then Some i else Some h
    end) incidents None.

Definition waiting (incidents : list RescueIncident) : list RescueIncident :=
  filter (fun i => statusNeedsReceipt (R_Status i) = true) incidents.

Definition minedFor (hash : Hash) (r : result RpcError (option Receipt)) : bool :=
  match r with Ok (Some receipt) => bytes_eqb (Rcpt_TxHash receipt) hash | _ => false end.

Definition checkFastInFlight : M unit :=
  let* current := getIncident in
  let* r := call (State_RescueIncidents (Co_network co)) in
  match r with
  | Err e => fail (OfStore e)
  | Ok incidents =>
      let inFlight := waiting incidents in
      if existsb (fun i => bytes_eqb (R_Asset i) (R_Asset current)) inFlight then fastPending
      else if Nat.leb maxUnfinalizedOperations (length inFlight) then fastPending
      else
        match highestNonce inFlight with
        | None => mret tt
        | Some highest =>
            let* receipt := asLatestReader (Finality_MinedReceipt (R_TxHash highest)) in
            if minedFor (R_TxHash highest) receipt then mret tt else fastPending
        end
  end.

(** A balance read through the attempt's reader, its error as it comes. *)
Definition readBalance (i : RescueIncident) (reader : Reader) (block : BlockRef) (account : Address) : M (option Z) :=
  if negb (isTokenOperation (R_Kind i)) then
    let* r := call (Finality_BalanceAt reader block account) in lift (fromRpc r)
  else
    match PackBalanceOf account with
    | None => fail (Foreign (str "abi"))
    | Some data =>
        let* r := call (Finality_CallContract reader block (callMsg (R_Asset i) 0 data)) in
        let* result := lift (fromRpc r) in
        let* balance := lift (fromSentinel (DecodeBalanceOf result)) in
        mret (Some balance)
    end.

Definition overheadError (ambiguous : bool) : GoError := NewError "rescue.l2_fee_estimate" ErrorBudget codeBudgetExceeded true ambiguous None.

(** The second round of reads, at the block of the first. *)
Definition prefetchBalances (i : RescueIncident) (data : bytes) (block : BlockRef) (reader : Reader) (fees : FeeQuote)
    : M (option Z * option Z * option Z) :=
  let* source := try (readBalance i reader block (Co_source co)) in
  let* destination := try (readBalance i reader block (Co_destination co)) in
  let* sponsor := try (let* r := call (Finality_BalanceAt reader block (Co_sponsor co)) in lift (fromRpc r)) in
  let* extra := try (when (Fee_EstimatedBaseFees (Co_feePolicy co))
      (let gas := if bool_decide (R_Kind i = CandidateClaim)
                  then match Co_claim co with Some plan => Plan_GasLimit plan | None => 0 end
                  else RescueFees.Quote_GasLimit fees in
       let* extra := estimateBaseAdditionalFee reader block (len data) gas in
       when (Fee_Overhead (Co_feePolicy co) <? extra) (fail (overheadError false)))) in
  let* _ := firstFailure [errOf source; errOf destination; errOf sponsor; errOf extra] in
  let* source := lift source in
  let* destination := lift destination in
  let* sponsor := lift sponsor in
  mret (source, destination, sponsor).

Definition prefetchAttempt (attempt : Z) : M attemptSnapshot :=
  let* i := getIncident in
  let* (data, asset) := lift (operationData i) in
  let* started := now in
  let* block := try (if finality_latest then let* r := call Finality_Latest in lift (fromRpc r) else fail (OfRpc ErrInvalidProviders)) in
  let* fees := try (readFees asset) in
  let* nonce := try sponsorNonce in
  let* flight := try checkFastInFlight in
  let* _ := firstFailure [errOf block; errOf fees; errOf nonce; errOf flight] in
  let* block := lift block in
  let* fees := lift fees in
  let* nonce := lift nonce in
  stop bytes_eqb (Ref_Hash block) zeroHash with fail (OfRpc ErrInvalidBlockRef) in
  let reader := if finality_pins then Some block else None in
  let* (source, destination, sponsor) := prefetchBalances i data block reader fees in
  let* _ := lift (let! _ := amountBytes source in let! _ := amountBytes destination in let! _ := amountBytes sponsor in Ok tt) in
  mret (mkSnapshot (R_ID i) attempt started block reader (default 0 source) (default 0 destination) (default 0 sponsor) nonce fees).

(** ** Reservations and the send *)

(** The largest cost the operation may be charged, from the fee policy or the claim plan. *)
Definition restoredMaximum (i : RescueIncident) : result GoError Z :=
  match R_Kind i with
  | CandidateClaim => let! plan := claimFor i in Ok (Plan_MaximumCost plan)
  | CandidateToken =>
      if negb (R_Trusted i) then Ok (Fee_UnknownTokenCostCap (Co_feePolicy co))
      else
        let? value := Co_trustedTokenValues co !! R_Asset i
          orelse NewError "rescue.budget_restore" ErrorConfiguration codeMinimumValue false true None in
        Ok (TV_MaximumCost value)
  | _ => Ok (Fee_TransactionCostCap (Co_feePolicy co))
  end.

Definition attemptOf (i : RescueIncident) : Attempt := mkAttempt (R_ID i) (R_Attempts i).

Definition ensureReservation (transaction : Txn) : M Reservation :=
  let* i := getIncident in
  let* r := call (Ledger_ReservationByAttempt (attemptOf i)) in
  match r with
  | Err e => fail (budgetError "rescue.budget_lookup" (OfLedger e))
  | Ok (Some reservation) => mret reservation
  | Ok None =>
      let* r := call Finality_Finalized in
      match r with
      | Err e => failContext "rescue.budget_finalized" ErrorRPCTransient codeFinalityRead true true (Some (OfRpc e))
      | Ok block =>
          if bytes_eqb (Ref_Hash block) zeroHash
          then failContext "rescue.budget_finalized" ErrorRPCTransient codeFinalityRead true true None
          else
            let* balance := nativeBalanceAt block (Co_sponsor co) in
            match u256_FromBig balance, u256_FromBig (Txn_GasFeeCap transaction) with
            | Some balance, Some fee =>
                let* maximum := lift (restoredMaximum i) in
                let* observed := blockTime block in
                let* r := call (Ledger_Reserve (mkRequest (Co_network co) (Co_sponsor co) (R_Candidate i) (attemptOf i)
                                  (mkQuote (Txn_Gas transaction) fee maximum) balance observed)) in
                match r with
                | Err e => fail (budgetError "rescue.budget_restore" (OfLedger e))
                | Ok reservation => let* _ := updateBudgetMetrics in mret reservation
                end
            | _, _ => fail (NewError "rescue.budget_restore" ErrorRPCInvalidResponse codeBalanceDecode true true None)
            end
      end
  end.

Definition balanceInvalid : GoError := NewError "rescue.sponsor_balance" ErrorRPCInvalidResponse codeBalanceDecode true true None.

(** The sponsor's balance of the attempt's snapshot, while it is fresh. *)
Definition freshBalance (id : ReservationID) : M (option Z) :=
  let* snapshot := gets s_attempt in
  match snapshot with
  | None => mret None
  | Some snapshot =>
      if negb (bytes_eqb (NewReservationID (mkAttempt (Snap_incident snapshot) (Snap_attempt snapshot))) id) then mret None
      else
        let* t := now in
        let age := Sub t (Snap_started snapshot) in
        mret (if (0 <=? age) && (age <=? maxAttemptSnapshotAge) then Some (Snap_sponsor snapshot) else None)
  end.

Definition recheckSponsorReserve (id : ReservationID) : M unit :=
  let* fresh := freshBalance id in
  match fresh with
  | Some balance =>
      match u256_FromBig balance with
      | None => fail balanceInvalid
      | Some balance =>
          let* r := call (Ledger_CheckSponsorCapacity id balance) in
          match r with Err e => fail (budgetError "rescue.sponsor_capacity" (OfLedger e)) | Ok _ => mret tt end
      end
  | None =>
      let* block := try preflightBlock in
      match block with
      | Err e => failContext "rescue.sponsor_finalized" ErrorRPCTransient codeFinalityRead true true (Some e)
      | Ok block =>
          if bytes_eqb (Ref_Hash block) zeroHash
          then failContext "rescue.sponsor_finalized" ErrorRPCTransient codeFinalityRead true true None
          else
            let* balance := nativeBalanceAt block (Co_sponsor co) in
            match u256_FromBig balance with
            | None => fail balanceInvalid
            | Some balance =>
                let* r := call (Ledger_CheckSponsorCapacity id balance) in
                match r with
                | Err e =>
                    fail (if isSponsorReserve (OfLedger e)
                          then NewError "rescue.sponsor_reserve" ErrorBudget codeSponsorReserve true false (Some (OfLedger e))
                          else budgetError "rescue.sponsor_capacity" (OfLedger e))
                | Ok _ => mret tt
                end
            end
      end
  end.

(** The additional fee of the transaction is within the policy, when it is estimated. *)
Definition checkEstimatedFee (transaction : Txn) : M unit :=
  if negb (Fee_EstimatedBaseFees (Co_feePolicy co)) then mret tt
  else
    let* cached := cachedAttempt in
    match cached with
    | Some _ => mret tt
    | None =>
        let* block := preflightBlock in
        let* extra := estimateBaseAdditionalFee None block (len (Txn_Data transaction)) (Txn_Gas transaction) in
        when (Fee_Overhead (Co_feePolicy co) <? extra) (fail (overheadError true))
    end.

(** The action inside the gate: the last checks, the exposure of the reservation, the send. *)
Definition sendAction (id : ReservationID) (transaction : Txn) : M (option GoError) :=
  let* _ := guardSigning in
  let* _ := recheckSponsorReserve id in
  let* i := getIncident in
  let* r := call (Ledger_MarkExposed id (R_TxHash i)) in
  let* _ := match r with Err e => fail (budgetError "rescue.budget_expose" (OfLedger e)) | Ok _ => mret tt end in
  let* _ := updateBudgetMetrics in
  call (Broadcaster_SendTransaction transaction).

(** Whether the transaction was handed to the broadcaster, and the error. *)
Definition sendPersisted (transaction : Txn) : M (bool * option GoError) :=
  let* expired := claimExpired in
  if expired then mret (false, Some (NewError "rescue.claim_expired" ErrorConfiguration codeNoPaidAction false true None))
  else
    let* checked := try (checkEstimatedFee transaction) in
    match checked with
    | Err e => mret (false, Some e)
    | Ok _ =>
        let* reservation := try (ensureReservation transaction) in
        match reservation with
        | Err e => mret (false, Some e)
        | Ok reservation =>
            let* r := try (gateDo (sendAction (Res_ID reservation) transaction)) in
            mret match r with
                 | Ok sendErr => (true, sendErr)
                 | Err e =>
                     (false, Some (if errors_Is (isSentinel ErrPaidActionsStopped) e
                                   then NewError "rescue.broadcast_gate" ErrorSigning codePaidActionsStopped true false (Some e)
                                   else e))
                 end
        end
    end.

(** ** The receipt *)

Definition receiptBlockNumber (receipt : Receipt) : Z := default 0 (Rcpt_BlockNumber receipt).

Definition validRescueReceipt (i : RescueIncident) (receipt : Receipt) : bool :=
  bytes_eqb (Rcpt_TxHash receipt) (R_TxHash i) && negb (bytes_eqb (Rcpt_BlockHash receipt) zeroHash)
  && match Rcpt_BlockNumber receipt with Some n => isUint64 n | None => false end
  && (Rcpt_Status receipt <=? 1) && negb (Rcpt_GasUsed receipt =? 0)
  && match Rcpt_EffectiveGasPrice receipt with Some p => (0 <? p) && (p <? 2 ^ 256) | None => false end.

Definition canonicalProofStart (receipt : Receipt) : M BlockRef :=
  let* i := getIncident in
  let latest := Pol_LatestState (R_Policy i) in
  let* r := call Finality_Finalized in
  match r with
  | Err e => failContext "rescue.post_finalized" ErrorRPCTransient codeFinalityRead true true (Some (OfRpc e))
  | Ok postBlock =>
      if bytes_eqb (Ref_Hash postBlock) zeroHash || (negb latest && (Ref_Number postBlock <? R_SnapshotBlockNumber i))
         || (Ref_Number postBlock <? receiptBlockNumber receipt)
      then failContext "rescue.post_finalized" ErrorRPCTransient codeFinalityRead true true None
      else
        let* _ := when (negb latest) (requireCanonicalHeader (R_SnapshotBlockNumber i) (R_SnapshotBlockHash i)) in
        let* _ := requireCanonicalHeader (receiptBlockNumber receipt) (Rcpt_BlockHash receipt) in
        mret postBlock
  end.

Definition canonicalProofEnd (receipt : Receipt) (expectedFinalized : BlockRef) : M unit :=
  let* i := getIncident in
  let* _ := when (negb (Pol_LatestState (R_Policy i))) (requireCanonicalHeader (R_SnapshotBlockNumber i) (R_SnapshotBlockHash i)) in
  let* _ := requireCanonicalHeader (receiptBlockNumber receipt) (Rcpt_BlockHash receipt) in
  let* r := call Finality_Finalized in
  match r with
  | Err e => failContext "rescue.post_finalized_recheck" ErrorRPCTransient codeFinalityRead true true (Some (OfRpc e))
  | Ok finalized =>
      if negb (bool_decide (finalized = expectedFinalized))
      then failContext "rescue.post_finalized_recheck" ErrorRPCTransient codeFinalityRead true true None
      else mret tt
  end.

Definition actualInvalid : GoError := NewError "rescue.budget_actual" ErrorRPCInvalidResponse codeReceiptInvalid true true None.

Definition addCost (cost extra : Z) : result GoError Z :=
  let (sum, overflow) := u256_AddOverflow cost extra in
  reject overflow with budgetError "rescue.budget_actual" (OfFee ErrFeeCostOverflow) in Ok sum.

(** The additional fee of the receipt, when fees are estimated. *)
Definition receiptAdditionalFee (receipt : Receipt) : M Z :=
  if negb finality_baseFees then fail (NewError "rescue.budget_l2_fee" ErrorConfiguration codeInvalidConfig false true None)
  else
    let* r := call (Finality_BaseAdditionalFee receipt) in
    match r with
    | Err e => fail (NewError "rescue.budget_l2_fee" ErrorRPCTransient codeFeeRead true true (Some (OfRpc e)))
    | Ok extra =>
        if (match extra with Some z => z <? 0 | None => true end)
        then fail (NewError "rescue.budget_l2_fee" ErrorRPCTransient codeFeeRead true true None)
        else
          match u256_FromBig (default 0 extra) with
          | None => fail (NewError "rescue.budget_l2_fee" ErrorRPCInvalidResponse codeFeeInvalid false true None)
          | Some extraCost => mret extraCost
          end
    end.

(** What the transaction really cost. *)
Definition executionCostOf (receipt : Receipt) (transaction : Txn) : M Z :=
  let* i := getIncident in
  let price := default 0 (Rcpt_EffectiveGasPrice receipt) in
  stop (Txn_Gas transaction <? Rcpt_GasUsed receipt) || (Txn_GasFeeCap transaction <? price) with fail actualInvalid in
  match u256_FromBig price with
  | None => fail actualInvalid
  | Some fee =>
      match maximumFeeCost (Rcpt_GasUsed receipt) fee 0 with
      | Err e => fail (budgetError "rescue.budget_actual" (OfFee e))
      | Ok cost =>
          let* cost := (if Fee_EstimatedBaseFees (Co_feePolicy co)
                        then let* extra := receiptAdditionalFee receipt in lift (addCost cost extra)
                        else mret cost) in
          if Rcpt_Status receipt =? 1 then let* value := lift (operationValue i) in lift (addCost cost value) else mret cost
      end
  end.

Definition commitReceiptCost (receipt : Receipt) (postBlock : BlockRef) : M unit :=
  let* i := getIncident in
  stop Fee_UnboundedAdditionalFees (Co_feePolicy co) && negb (Fee_EstimatedBaseFees (Co_feePolicy co))
    with fail (NewError "rescue.budget_actual" ErrorConfiguration codeInvalidConfig false true None) in
  let* transaction := lift (validatePersistedTransaction i) in
  let* executionCost := executionCostOf receipt transaction in
  let* reservation := ensureReservation transaction in
  let* reservation := (if bool_decide (Res_State reservation = ReservationHeld) then
                         let* r := call (Ledger_MarkExposed (Res_ID reservation) (R_TxHash i)) in
                         match r with Err e => fail (budgetError "rescue.budget_receipt_expose" (OfLedger e)) | Ok r => mret r end
                       else mret reservation) in
  let* observed := blockTime postBlock in
  let* r := call (Ledger_CommitFinalized (mkCharge (Res_ID reservation) (R_TxHash i) executionCost observed)) in
  match r with
  | Err e => fail (budgetError "rescue.budget_commit" (OfLedger e))
  | Ok _ => updateBudgetMetrics
  end.

(** The prestate snapshot of a latest-state attempt is not on the canonical chain below the receipt. *)
Definition snapshotOrphaned (receipt : Receipt) : M bool :=
  let* i := getIncident in
  if receiptBlockNumber receipt <=? R_SnapshotBlockNumber i then mret true
  else
    let* r := call (Finality_Header (R_SnapshotBlockNumber i)) in
    match r with
    | Err e => postconditionAmbiguous (OfRpc e)
    | Ok header => mret (negb (bytes_eqb (Ref_Hash header) (R_SnapshotBlockHash i)))
    end.

Definition alertFailed (e : GoError) : GoError := NewError "rescue.delegation_alert" ErrorInternal codeStateWrite true true (Some e).

(** The source delegates to the rescuer after the transaction; otherwise the race was lost. *)
Definition checkDelegation (receipt : Receipt) (postBlock : BlockRef) : M unit :=
  let* r := call (Finality_CodeAt postBlock (Co_source co)) in
  match r with
  | Err e =>
      let* _ := metric (NoticeDelegation DelegationUnknown) in
      let* failure := contextOrError "rescue.post_code" ErrorRPCTransient codeCodeRead true true (Some (OfRpc e)) in
      postconditionAmbiguous failure
  | Ok code =>
      if negb (bool_decide (ParseDelegation code = Some (Co_rescuer co))) then
        let* _ := metric (NoticeDelegation DelegationUnexpected) in
        let* alertErr := setAlert AlertDelegationUnexpected true in
        match alertErr with
        | Some e => postconditionAmbiguous (alertFailed e)
        | None =>
            let* _ := canonicalProofEnd receipt postBlock orelse postconditionAmbiguous in
            let* _ := setTerminal RescueLostRace codeLostRace in
            fail (NewError "rescue.post_code" ErrorPostcondition codeLostRace false false None)
        end
      else
        let* _ := metric (NoticeDelegation DelegationExpected) in
        let* alertErr := setAlert AlertDelegationUnexpected false in
        match alertErr with
        | Some e => postconditionAmbiguous (alertFailed e)
        | None => mret tt
        end
  end.

(** The balances of source and destination of the incident's asset at a block. *)
Definition assetBalances (block : BlockRef) : M (Z * Z) :=
  let* i := getIncident in
  if isTokenOperation (R_Kind i) then
    let* source := tokenBalanceAt block (R_Asset i) (Co_source co) in
    let* destination := tokenBalanceAt block (R_Asset i) (Co_destination co) in
    mret (source, destination)
  else
    let* source := nativeBalanceAt block (Co_source co) in
    let* destination := nativeBalanceAt block (Co_destination co) in
    mret (source, destination).

(** The last part of [applyReceipt]: balances, canonical proof, terminal outcome. *)
Definition concludeReceipt (receipt : Receipt) (postBlock : BlockRef) : M unit :=
  let* (sourceAfter, destinationAfter) := assetBalances postBlock orelse postconditionAmbiguous in
  let* _ := canonicalProofEnd receipt postBlock orelse postconditionAmbiguous in
  let* i := getIncident in
  let* sourceBefore := lift (requiredDestinationDelta i) orelse postconditionAmbiguous in
  let destinationBefore := be_value (R_DestinationBefore i) in
  let deltaValid := (destinationBefore <=? destinationAfter) && (sourceBefore <=? destinationAfter - destinationBefore) in
  if negb (sourceAfter =? 0) || negb deltaValid then
    let* _ := setTerminal RescueLostRace codePostcondition in
    fail (NewError "rescue.post_balance" ErrorPostcondition codePostcondition false false None)
  else
    let status := if isTokenOperation (R_Kind i) then RescueTokenReported else RescueTrustedSuccess in
    let* _ := setTerminal status [] in
    record eventOperationConfirmed LevelInfo (R_Candidate i) (R_TxHash i) [].

Definition applyReceipt (receipt : option Receipt) : M unit :=
  let* i := getIncident in
  match receipt with
  | Some receipt =>
      if negb (validRescueReceipt i receipt)
      then postconditionAmbiguous (NewError "rescue.receipt" ErrorRPCInvalidResponse codeReceiptInvalid true true None)
      else
        let* postBlock := canonicalProofStart receipt orelse postconditionAmbiguous in
        let* _ := canonicalProofEnd receipt postBlock orelse postconditionAmbiguous in
        let* _ := modify (fun s => set_rpcSucceeded s true) in
        let* _ := commitReceiptCost receipt postBlock orelse postconditionAmbiguous in
        if Rcpt_Status receipt =? 0 then
          let* _ := setTerminal RescueFailed codeReverted in
          fail (NewError "rescue.receipt" ErrorPostcondition codeReverted false false None)
        else
          let* orphaned := (if Pol_LatestState (R_Policy i) then snapshotOrphaned receipt else mret false) in
          if orphaned then
            let* _ := setTerminal RescueFailed (str "rescue_prestate_reorg") in
            fail (NewError "rescue.prestate_reorg" ErrorPostcondition codePostcondition false false None)
          else
            let* _ := checkDelegation receipt postBlock in
            concludeReceipt receipt postBlock
  | None => postconditionAmbiguous (NewError "rescue.receipt" ErrorRPCInvalidResponse codeReceiptInvalid true true None)
  end.

End Operations.

End RescueOperations.
Export RescueOperations.
