(* ===== verification/RescueFlow.v ===== *)
(** * internal/rescue: signing, submission and reconciliation of one incident

    [signSubmitAndConfirm] of operation_signing.go in its steps, the broadcast and
    the reconciliation of operation_reconciliation.go and fast_reconciliation.go,
    and the preparation and resumption of operations.go. *)

From S2P Require Import Prelude Programs GoTime Bytes Sha256 Domain Bolt BudgetModel BudgetLedger StoreModel StoreLease StoreRescue RescueFees Admission RpcQuorum RescueErrors Contracts RescueEffects RescueSession RescueOperations.
From Stdlib Require Strings.String.
Import Strings.String.StringSyntax.

Module RescueFlow.

Section Flow.
Context {G : GethTx} {AB : Abi} {SE : Session}.
Local Abbreviation co := coordinator.

(** ** Waiting for a receipt *)

Definition receiptPollingInterval : Duration := 400 * Millisecond.

Fixpoint pollReceipt (fuel : nat) (hash : Hash) (deadline : Time) : M Receipt :=
  match fuel with
  | O => diverge
  | S fuel =>
      let* r := call (Finality_Receipt hash) in
      match r with
      | Ok None => fail (NewError "rescue.receipt" ErrorRPCInvalidResponse codeReceiptInvalid true true None)
      | Ok (Some receipt) => mret receipt
      | Err e =>
          let* ctxErr := call Ctx_Err in
          match ctxErr with
          | Some _ => failContext "rescue.receipt" ErrorRPCTransient codeContextCanceled true true (Some (OfRpc e))
          | None =>
              let* t := now in
              stop negb (Before t deadline) with fail (NewError "rescue.receipt" ErrorRPCTransient codeReceiptTimeout true true None) in
              let remaining := Sub deadline t in
              let* slept := call (Clock_Sleep (if remaining <? receiptPollingInterval then remaining else receiptPollingInterval)) in
              match slept with
              | Some e => failContext "rescue.receipt" ErrorRPCTransient codeContextCanceled true true (Some e)
              | None => pollReceipt fuel hash deadline
              end
          end
      end
  end.

Definition waitReceipt (hash : Hash) (reconcileUntil : Time) : M Receipt :=
  let* t := now in
  let deadline := Add t (Co_receiptTimeout co) in
  let deadline := if negb (IsZero reconcileUntil) && Before reconcileUntil deadline then reconcileUntil else deadline in
  pollReceipt poll_fuel hash deadline.

(** Wait for the receipt and apply it; without one the incident is ambiguous,
    unless the failed send already said so. *)
Definition awaitOutcome (sendFailure : option GoError) : M unit :=
  let* i := getIncident in
  let* receipt := try (waitReceipt (R_TxHash i) (R_ReconcileUntil i)) in
  match receipt with
  | Ok receipt => applyReceipt (Some receipt)
  | Err e =>
      match sendFailure with
      | Some failure => fail failure
      | None => let* _ := persistAmbiguous e in fail e
      end
  end.

(** What follows a send: the incident is broadcast, or ambiguous with the failure returned. *)
Definition afterSend (operation : String.string) (sendErr : option GoError) : M (option GoError) :=
  match sendErr with
  | None =>
      let* _ := setIncident (fun i => set_R_RetryAt (set_R_LastCode (withStatus i RescueBroadcast) []) zeroTime) in
      let* _ := updateIncident in
      let* _ := refreshNonceBlock in
      let* _ := recordBroadcast in
      let* i := getIncident in
      let* _ := record eventBroadcastAccepted LevelInfo (R_Candidate i) (R_TxHash i) [] in
      mret None
  | Some sendErr =>
      let* failure := contextOrError operation ErrorBroadcast codeBroadcast true true (Some sendErr) in
      let* _ := persistAmbiguousCode codeBroadcast in
      let* _ := refreshNonceBlock in
      mret (Some failure)
  end.

Definition failOption {A} (e : option GoError) (a : A) : M A := match e with Some e => fail e | None => mret a end.

Definition broadcastAndWait (transaction : Txn) : M unit :=
  let* (sent, sendErr) := sendPersisted transaction in
  if negb sent then failOption sendErr tt
  else
    let* sendFailure := afterSend "rescue.broadcast" sendErr in
    let* i := getIncident in
    if Co_latestState co || Pol_LatestState (R_Policy i) then failOption sendFailure tt
    else awaitOutcome sendFailure.

(** ** Reconciliation *)

Definition guardPersistedSend : M unit :=
  let* r := try guardSigning in
  match r with
  | Ok _ => mret tt
  | Err e =>
      let* _ := persistAmbiguousCode (errorCode e) in
      let* _ := refreshNonceBlock in
      fail e
  end.

Definition reconcileUnfinalized (transaction : Txn) : M unit :=
  let* i := getIncident in
  if isStatus i RescueBroadcast then mret tt
  else
    let* r := asLatestReader (Finality_MinedReceipt (R_TxHash i)) in
    if minedFor (R_TxHash i) r then
      let* _ := setIncident (fun i => set_R_RetryAt (set_R_LastCode (withStatus i RescueBroadcast) []) zeroTime) in
      let* _ := updateIncident in
      let* _ := recordBroadcast in
      refreshNonceBlock
    else broadcastAndWait transaction.

(** The send of a signed or ambiguous incident again, from its durable bytes. *)
Definition rebroadcast (transaction : Txn) : M unit :=
  let* (sent, sendErr) := sendPersisted transaction in
  if negb sent then
    let* i := getIncident in
    let* _ := when (isStatus i RescueAmbiguous) (match sendErr with Some e => persistAmbiguous e | None => mret tt end) in
    failOption sendErr tt
  else
    let* sendFailure := afterSend "rescue.rebroadcast" sendErr in
    awaitOutcome sendFailure.

Definition reconcileOnce : M unit :=
  let* i := getIncident in
  match validatePersistedTransaction i with
  | Err e => let* _ := persistAmbiguous e in fail e
  | Ok transaction =>
      let* receipt := call (Finality_Receipt (R_TxHash i)) in
      match receipt with
      | Ok (Some receipt) =>
          let* _ := when (isStatus i RescueSigned)
            (let* _ := setIncident (fun i => set_R_LastCode (withStatus i RescueAmbiguous) codeBroadcast) in updateIncident) in
          applyReceipt (Some receipt)
      | _ =>
          let* t := now in
          if negb (Before t (R_ReconcileUntil i)) then
            let* _ := persistExpiredAmbiguous in
            refreshNonceBlock
          else
            let* _ := ensureDurableNonceFloor (R_SponsorNonce i) in
            if Co_latestState co || Pol_LatestState (R_Policy i) then reconcileUnfinalized transaction
            else if isStatus i RescueSigned || isStatus i RescueAmbiguous then rebroadcast transaction
            else awaitOutcome None
      end
  end.

Definition reconcileExpiredIncident : M unit :=
  let* i := getIncident in
  match validatePersistedTransaction i with
  | Err e => let* _ := persistAmbiguous e in fail e
  | Ok _ =>
      let* receipt := call (Finality_Receipt (R_TxHash i)) in
      let* ctxErr := call Ctx_Err in
      match ctxErr with
      | Some _ => failContext "rescue.receipt" ErrorRPCTransient codeContextCanceled true true (errOf (fromRpc receipt))
      | None =>
          match receipt with
          | Err e =>
              let* failure := contextOrError "rescue.expired_receipt" ErrorRPCTransient codeReceiptTimeout true true (Some (OfRpc e)) in
              let* _ := persistExpiredAmbiguous in
              fail failure
          | Ok None => let* _ := persistExpiredAmbiguous in refreshNonceBlock
          | Ok (Some receipt) => applyReceipt (Some receipt)
          end
      end
  end.

(** ** Signing *)

Definition paidActionError (operation : String.string) (err : GoError) : M GoError :=
  if errors_Is (isSentinel ErrPaidActionsStopped) err then mret (NewError operation ErrorSigning codePaidActionsStopped true false (Some err))
  else contextOrError operation ErrorSigning codeSigning true false (Some err).

Definition withMaximumCost (q : FeeQuote) (cost : Z) : FeeQuote :=
  mkFeeQuote (Quote_Network q) (Quote_Asset q) (Quote_TipCap q) (Quote_FeeCap q) (RescueFees.Quote_GasLimit q) cost.

(** The sponsor nonce is still the prepared one; skipped when a snapshot holds it. *)
Definition recheckSponsorNonce (snapshot : option attemptSnapshot) : M unit :=
  match snapshot with
  | Some _ => mret tt
  | None =>
      let* i := getIncident in
      let* nonce := sponsorNonce orelse beforeSignedFailure in
      if negb (nonce =? R_SponsorNonce i)
      then beforeSignedFailure (NewError "rescue.sponsor_nonce" ErrorRPCTransient codeNonceRead true false None)
      else mret tt
  end.

(** The call data, the gas limit and the fees with the largest cost, the value included. *)
Definition quoteOperation (snapshot : option attemptSnapshot) (value : Z) : M (bytes * Z * FeeQuote) :=
  let* i := getIncident in
  let* (data, asset) := lift (operationData i) orelse beforeSignedFailure in
  let* fees := (match snapshot with Some snapshot => mret (Snap_fees snapshot) | None => readFees asset end) orelse beforeSignedFailure in
  let* (gas, fees) := (if bool_decide (R_Kind i = CandidateClaim) then
       let* plan := lift (claimFor i) in
       match maximumFeeCost (Plan_GasLimit plan) (Quote_FeeCap fees mod 2 ^ 256) (Fee_Overhead (Co_feePolicy co)) with
       | Err e => beforeSignedFailure (OfFee e)
       | Ok cost => mret (Plan_GasLimit plan, withMaximumCost fees cost)
       end
     else mret (RescueFees.Quote_GasLimit fees, fees)) in
  let (total, overflow) := u256_AddOverflow (RescueFees.Quote_MaximumCost fees) value in
  if overflow then beforeSignedFailure (OfFee ErrFeeCostOverflow) else mret (data, gas, withMaximumCost fees total).

(** The block of the budget decision. *)
Definition budgetBlockFor (snapshot : option attemptSnapshot) : M BlockRef :=
  let* r := match snapshot with Some snapshot => mret (Ok (Snap_block snapshot)) | None => call Finality_Finalized end in
  match r with
  | Err e =>
      let* failure := contextOrError "rescue.budget_finalized" ErrorRPCTransient codeFinalityRead true true (Some (OfRpc e)) in
      beforeSignedFailure failure
  | Ok block =>
      if bytes_eqb (Ref_Hash block) zeroHash then
        let* failure := contextOrError "rescue.budget_finalized" ErrorRPCTransient codeFinalityRead true true None in
        beforeSignedFailure failure
      else mret block
  end.

Definition isSome {A} (o : option A) : bool := match o with Some _ => true | None => false end.

(** The block and the sponsor's balance there; the estimated additional fee is within the policy. *)
Definition readBudget (snapshot : option attemptSnapshot) (data : bytes) (gas : Z) : M (BlockRef * Z) :=
  let* block := budgetBlockFor snapshot in
  let estimateFailed cause := NewError "rescue.l2_fee_estimate" ErrorBudget codeBudgetExceeded true false cause in
  let* _ := when (Fee_EstimatedBaseFees (Co_feePolicy co) && negb (isSome snapshot))
    (let* extra := try (estimateBaseAdditionalFee None block (len data) gas) in
     match extra with
     | Err e => beforeSignedFailure (estimateFailed (Some e))
     | Ok extra => when (Fee_Overhead (Co_feePolicy co) <? extra) (beforeSignedFailure (estimateFailed None))
     end) in
  let* balance := (match snapshot with
                   | Some snapshot => mret (Snap_sponsor snapshot)
                   | None => nativeBalanceAt block (Co_sponsor co)
                   end) orelse beforeSignedFailure in
  mret (block, balance).

Definition unknownToken (i : RescueIncident) : bool := isTokenOperation (R_Kind i) && negb (R_Trusted i).

Definition admitAttempt (block : BlockRef) : M unit :=
  let* i := getIncident in
  let* observed := blockTime block in
  let* (decision, err) := call (Admission_Admit (mkAdmissionRequest (Co_network co) (R_ID i) (R_Attempts i) (R_Asset i) (R_Parent i)
                                  (R_Candidate i) (unknownToken i) observed)) in
  match err with
  | Some e => admissionBlocked (Some (OfAdmission e))
  | None => if Dec_Allowed decision then mret tt else admissionBlocked None
  end.

Definition minimumValueError (cause : option GoError) : GoError :=
  NewError "rescue.minimum_value" ErrorPostcondition codeMinimumValue false false cause.

(** The cost to reserve; the asset is worth it and the quote fits. *)
Definition reservationMaximumFor (fees : FeeQuote) : M Z :=
  let* i := getIncident in
  let policy := Co_feePolicy co in
  let cost := RescueFees.Quote_MaximumCost fees in
  let* maximum :=
    match R_Kind i with
    | CandidateClaim => let* plan := lift (claimFor i) in mret (Plan_MaximumCost plan)
    | CandidateNative =>
        let maximum := Fee_TransactionCostCap policy in
        match EvaluateMinimumValue policy FeeAssetNative (Some (be_value (R_SourceBefore i))) (Co_nativeMinimum co) maximum with
        | Err e => beforeSignedFailure (minimumValueError (Some (OfFee e)))
        | Ok value => if MV_Allowed value then mret maximum else beforeSignedFailure (minimumValueError None)
        end
    | _ =>
        if unknownToken i then
          match EvaluateMinimumValue policy FeeAssetUnknownToken None 0 cost with
          | Err e => beforeSignedFailure (minimumValueError (Some (OfFee e)))
          | Ok value =>
              if MV_Allowed value && negb (MV_Trusted value) then mret (Fee_UnknownTokenCostCap policy)
              else beforeSignedFailure (minimumValueError None)
          end
        else
          match Co_trustedTokenValues co !! R_Asset i with
          | None => beforeSignedFailure (minimumValueError None)
          | Some value =>
              if (be_value (R_SourceBefore i) <? TV_MinimumBalance value) || (TV_MaximumCost value <? cost)
              then beforeSignedFailure (minimumValueError None)
              else mret (TV_MaximumCost value)
          end
    end in
  if u256_Lt maximum cost then beforeSignedFailure (NewError "rescue.maximum_cost" ErrorBudget codeBudgetExceeded true false None)
  else mret maximum.

Definition feesInvalid : GoError := NewError "rescue.fees" ErrorRPCInvalidResponse codeFeeInvalid true true None.

Definition reserveAttempt (block : BlockRef) (balance gas maximum : Z) (fees : FeeQuote) : M Reservation :=
  let* i := getIncident in
  match u256_FromBig balance, u256_FromBig (Quote_FeeCap fees) with
  | None, _ => beforeSignedFailure balanceInvalid
  | _, None => beforeSignedFailure feesInvalid
  | Some balance, Some maximumFee =>
      let* observed := blockTime block in
      let* r := call (Ledger_Reserve (mkRequest (Co_network co) (Co_sponsor co) (R_Candidate i) (attemptOf i)
                        (mkQuote gas maximumFee maximum) balance observed)) in
      match r with
      | Err e => budgetBlocked (OfLedger e)
      | Ok reservation =>
          let* _ := updateBudgetMetrics orelse releaseBeforeSigned (Res_ID reservation) in
          mret reservation
      end
  end.

Definition claimExpiredError : GoError := NewError "rescue.claim_expired" ErrorConfiguration codeNoPaidAction false false None.

(** The source's authorization, signed inside the gate and checked. *)
Definition authorize (id : ReservationID) : M Authorization :=
  let* i := getIncident in
  let* sourceNonce := checkedPendingNonce (Co_source co) orelse releaseBeforeSigned id in
  if negb (Pol_LatestState (R_Policy i)) && negb (sourceNonce =? R_SourceNonce i)
  then releaseBeforeSigned id (NewError "rescue.source_nonce" ErrorRPCTransient codeNonceRead true false None)
  else
    let request := mkAuthorization (Co_network co) (Co_rescuer co) sourceNonce 0 0 0 in
    let* r := try (gateDo
      (let* _ := guardSigning in
       let* expired := claimExpired in
       stop expired with fail claimExpiredError in
       let* _ := recheckSponsorReserve id in
       let* r := call (Authorizer_SignAuthorization request) in
       lift r)) in
    match r with
    | Err e => let* failure := paidActionError "rescue.sign_authorization" e in releaseBeforeSigned id failure
    | Ok authorization =>
        if negb (bool_decide (auth_Authority authorization = Some (Co_source co)))
           || negb (Auth_ChainID authorization =? Auth_ChainID request)
           || negb (bytes_eqb (Auth_Address authorization) (Auth_Address request)) || negb (Auth_Nonce authorization =? Auth_Nonce request)
        then releaseBeforeSigned id (NewError "rescue.sign_authorization" ErrorSigning codeSignerMismatch true true None)
        else mret authorization
    end.

(** The simulation at a finalized or pinned block, and the gas estimate. *)
Definition simulateOperation (snapshot : option attemptSnapshot) (budgetBlock : BlockRef) (request : EIP7702SimulationRequest) (id : ReservationID)
    : M unit :=
  let* r := match snapshot with Some _ => mret (Ok budgetBlock) | None => call Finality_Finalized end in
  let unavailable cause :=
    let* failure := contextOrError "rescue.simulation_finalized" ErrorRPCTransient codeFinalityRead true true cause in
    releaseBeforeSigned id failure in
  match r with
  | Err e => unavailable (Some (OfRpc e))
  | Ok block =>
      if bytes_eqb (Ref_Hash block) zeroHash then unavailable None
      else
        let* simulated := try match snapshot with
          | Some snapshot =>
              let* simulation := try (SimulateEIP7702At (Snap_reader snapshot) block request) in
              let* estimate := try (EstimateEIP7702Gas request) in
              let* canonical := try (requireCanonicalHeader (Ref_Number (Snap_block snapshot)) (Ref_Hash (Snap_block snapshot))) in
              firstFailure [errOf simulation; errOf estimate; errOf canonical]
          | None =>
              let* _ := SimulateEIP7702At None block request in
              let* _ := EstimateEIP7702Gas request in
              mret tt
          end in
        match simulated with
        | Err e =>
            let* failure := contextOrError "rescue.simulation" ErrorRPCTransient codeSimulation true false (Some e) in
            releaseBeforeSigned id failure
        | Ok _ => mret tt
        end
  end.

(** The sponsor's signature, made inside the gate, checked and encoded. *)
Definition signTransaction (id : ReservationID) (transaction : Txn) : M (Txn * bytes) :=
  let* i := getIncident in
  let* r := try (gateDo
    (let* _ := guardSigning in
     let* _ := recheckSponsorReserve id in
     let* expiredSnapshot := (if Pol_LatestState (R_Policy i) then let* cached := cachedAttempt in mret (negb (isSome cached)) else mret false) in
     stop expiredSnapshot with fail (NewError "rescue.snapshot_expired" ErrorRPCTransient codeRetryPending true false None) in
     let* expired := claimExpired in
     stop expired with fail claimExpiredError in
     let* r := call (Transactioner_SignTransaction transaction (Co_network co)) in
     lift r)) in
  let failed code := NewError "rescue.sign_transaction" ErrorSigning code true true None in
  match r with
  | Err e => let* failure := paidActionError "rescue.sign_transaction" e in releaseBeforeSigned id failure
  | Ok signed =>
      match signed with
      | None => releaseBeforeSigned id (failed codeSigning)
      | Some tx =>
          if negb (validSignedOperation signed transaction) then releaseBeforeSigned id (failed codeSigning)
          else if negb (bool_decide (txn_Sender (Co_network co) tx = Some (Co_sponsor co)))
          then releaseBeforeSigned id (failed codeSignerMismatch)
          else
            match txn_MarshalBinary tx with
            | None => releaseBeforeSigned id (failed codeSigning)
            | Some encoded => mret (tx, encoded)
            end
      end
  end.

(** The signed operation becomes durable, the nonce floor rises, and only then it is sent. *)
Definition persistAndBroadcast (id : ReservationID) (sourceNonce : Z) (signed : Txn) (encoded : bytes) : M unit :=
  let* _ := guardSigning orelse releaseBeforeSigned id in
  let* t := now in
  let* _ := setIncident (fun i => set_R_LastCode (set_R_RetryAt (set_R_ReconcileUntil (set_R_SignedTransaction (set_R_TxHash
                (withSourceNonce (withStatus i RescueSigned) sourceNonce) (txn_Hash signed)) encoded)
                (Add t (Pol_FinalityTimeout (R_Policy i)))) zeroTime) []) in
  let* _ := updateIncidentAt t orelse (fun e => let* failure := releaseReservation id e in fail failure) in
  let* _ := modify (fun s => set_nonceBlocked s true) in
  let* i := getIncident in
  let floor := uint64_wrap (R_SponsorNonce i + 1) in
  let* r := call (State_RaiseNonceFloor floor) in
  match r with
  | Err e => fail (NewError "rescue.nonce_floor" ErrorInternal codeStateWrite true true (Some (OfStore e)))
  | Ok _ =>
      let* _ := raiseNonceFloor floor in
      broadcastAndWait signed
  end.

(** From a reservation to the broadcast. *)
Definition signReserved (snapshot : option attemptSnapshot) (block : BlockRef) (value : Z) (data : bytes) (gas : Z) (fees : FeeQuote) (id : ReservationID)
    : M unit :=
  match u256_FromBig (Quote_TipCap fees), u256_FromBig (Quote_FeeCap fees) with
  | Some tip, Some feeCap =>
      let* authorization := authorize id in
      let* _ := simulateOperation snapshot block
        (mkSimulation (Co_sponsor co) (Co_source co) gas (Some (Quote_TipCap fees)) (Some (Quote_FeeCap fees)) data (Some value) [authorization]) id in
      let* i := getIncident in
      let* (signed, encoded) := signTransaction id
        (mkTxn SetCodeTxType (Co_network co) (R_SponsorNonce i) (Some (Co_source co)) gas tip feeCap data value [] [authorization] []) in
      persistAndBroadcast id (Auth_Nonce authorization) signed encoded
  | _, _ => releaseBeforeSigned id feesInvalid
  end.

Definition signSubmitAndConfirm : M unit :=
  let* i := getIncident in
  let* snapshot := cachedAttempt in
  if Pol_LatestState (R_Policy i) && negb (isSome snapshot) then restartPreparedAttempt
  else
    let* expired := claimExpired in
    if expired then setTerminal RescueFailed codeNoPaidAction
    else
      let* value := lift (operationValue i) in
      let* _ := recheckSponsorNonce snapshot in
      let* (data, gas, fees) := quoteOperation snapshot value in
      let* (block, balance) := readBudget snapshot data gas in
      let* _ := admitAttempt block in
      let* maximum := reservationMaximumFor fees in
      let* reservation := reserveAttempt block balance gas maximum fees in
      signReserved snapshot block value data gas fees (Res_ID reservation).

(** ** Preparation *)

Definition preparationFailure {A} (attempt : Z) (block : BlockRef) (source destination : option Z) (failure : GoError) : M A :=
  let* _ := setIncident (fun i =>
    set_R_LastCode (set_R_ReconcileUntil (set_R_DestinationBefore (set_R_SourceBefore (set_R_SnapshotBlockHash (set_R_SnapshotBlockNumber
      (set_R_SignedTransaction (set_R_TxHash (withSourceNonce (set_R_SponsorNonce (withStatus (set_R_Attempts i attempt) RescueRetryable) 0) 0)
      zeroHash) []) (Ref_Number block)) (Ref_Hash block)) (knownAmountBytes source)) (knownAmountBytes destination)) zeroTime)
      (errorCode failure)) in
  let* _ := updateIncident in
  fail failure.

Definition setPreparedAttempt (i : RescueIncident) (attempt : Z) (block : BlockRef) (source destination : bytes) : RescueIncident :=
  set_R_LastCode (set_R_ReconcileUntil (set_R_RetryAt (set_R_DestinationBefore (set_R_SourceBefore (set_R_SnapshotBlockHash
    (set_R_SnapshotBlockNumber (set_R_SignedTransaction (set_R_TxHash (withSourceNonce (set_R_SponsorNonce
    (withStatus (set_R_Attempts i attempt) RescuePrepared) 0) 0) zeroHash) []) (Ref_Number block)) (Ref_Hash block)) source) destination)
    zeroTime) zeroTime) [].

(** Nothing worth a transaction: the source is empty, or below the native threshold. *)
Definition nothingToRescue (i : RescueIncident) (sourceBefore : Z) : bool :=
  negb (bool_decide (R_Kind i = CandidateClaim))
  && ((sourceBefore =? 0) || (bool_decide (R_Kind i = CandidateNative) && (sourceBefore <=? Co_nativeThreshold co))).

Definition forbiddenToken (i : RescueIncident) : bool :=
  isTokenOperation (R_Kind i) && negb (R_Trusted i) && negb (Co_allowUnknownTokens co)
  && negb (bool_decide (R_Asset i ∈ Co_allowedUntrustedTokens co)).

Definition tokenForbidden : GoError := NewError "rescue.token_policy" ErrorConfiguration codeUnknownToken false false None.

(** The block and the balances an attempt starts from, with the snapshot of a latest-state one. *)
Definition readPrestate (attempt : Z) : M (BlockRef * Z * Z * option attemptSnapshot) :=
  let* i := getIncident in
  let* last := gets s_lastFinalized in
  let* r := try (if Pol_LatestState (R_Policy i) then
                   let* snapshot := prefetchAttempt attempt in
                   let* _ := modify (fun s => set_attempt s (Some snapshot)) in
                   mret (Snap_block snapshot, Some snapshot)
                 else
                   let* r := call Finality_Finalized in
                   let* block := lift (fromRpc r) in
                   mret (block, None)) in
  let unavailable cause :=
    let* failure := contextOrError "rescue.prestate_finalized" ErrorRPCTransient codeFinalityRead true true cause in
    preparationFailure attempt last None None failure in
  match r with
  | Err e => if isSome (errors_As_FastPending e) then fail e else unavailable (Some e)
  | Ok (block, snapshot) =>
      if bytes_eqb (Ref_Hash block) zeroHash then unavailable None
      else
        let* _ := modify (fun s => set_lastFinalized s block) in
        match snapshot with
        | Some snapshot => mret (block, Snap_source snapshot, Snap_destination snapshot, Some snapshot)
        | None =>
            let* source := try (if isTokenOperation (R_Kind i) then tokenBalanceAt block (R_Asset i) (Co_source co)
                                else nativeBalanceAt block (Co_source co)) in
            match source with
            | Err e => preparationFailure attempt block None None e
            | Ok source =>
                let* destination := try (if isTokenOperation (R_Kind i) then tokenBalanceAt block (R_Asset i) (Co_destination co)
                                         else nativeBalanceAt block (Co_destination co)) in
                match destination with
                | Err e => preparationFailure attempt block (Some source) None e
                | Ok destination => mret (block, source, destination, None)
                end
            end
        end
  end.

(** The nonces of the attempt, stored before anything is signed. *)
Definition prepareNonces (attempt : Z) (block : BlockRef) (source destination : Z) (snapshot : option attemptSnapshot) : M unit :=
  let* i := getIncident in
  let failed := preparationFailure attempt block (Some source) (Some destination) in
  let* sponsor := (match snapshot with Some snapshot => mret (Snap_sponsorNonce snapshot) | None => sponsorNonce end) orelse failed in
  let* sourceNonce := (if negb (Pol_LatestState (R_Policy i)) then checkedPendingNonce (Co_source co) else mret 0) orelse failed in
  let* _ := setIncident (fun i => withSourceNonce (set_R_SponsorNonce i sponsor) sourceNonce) in
  updateIncident.

(** Store the attempt as prepared and close it: there is nothing to pay for. *)
Definition closePrepared (code : bytes) : M unit :=
  let* _ := updateIncident in
  setTerminal RescueFailed code.

Definition prepareAndSubmit : M unit :=
  let* attempt := gets (fun s => uint32_wrap (R_Attempts (s_incident s) + 1)) in
  let* (block, source, destination, snapshot) := readPrestate attempt in
  let* _ := modify (fun s => set_rpcSucceeded s true) in
  match amountBytes (Some source), amountBytes (Some destination) with
  | Err e, _ =>
      preparationFailure attempt block None (Some destination)
        (NewError "rescue.prestate_source" ErrorRPCInvalidResponse codeBalanceDecode true true (Some e))
  | Ok _, Err e =>
      preparationFailure attempt block (Some source) None
        (NewError "rescue.prestate_destination" ErrorRPCInvalidResponse codeBalanceDecode true true (Some e))
  | Ok sourceBytes, Ok destinationBytes =>
      let* _ := setIncident (fun i => setPreparedAttempt i attempt block sourceBytes destinationBytes) in
      let* i := getIncident in
      if nothingToRescue i source then closePrepared codeNoPaidAction
      else if forbiddenToken i then let* _ := closePrepared codeUnknownToken in fail tokenForbidden
      else
        let* _ := prepareNonces attempt block source destination snapshot in
        let* _ := metric NoticeAttempt in
        let* i := getIncident in
        let* _ := recordSafe (mkSafeEvent LevelInfo LogAttemptStarted (Some (R_ID i)) (Some DurableProcessing) ResultAccepted None None) in
        let* _ := record eventOperationPrepared LevelInfo (R_Candidate i) zeroHash [] in
        signSubmitAndConfirm
  end.

(** ** Resumption *)

Definition isOpenStatus (status : RescueStatus) : bool :=
  match status with RescuePending | RescuePrepared | RescueRetryable => true | _ => false end.

Definition resumeIncident : M unit :=
  let* i := getIncident in
  let* _ := when (Co_latestState co && negb (Pol_LatestState (R_Policy i)) && isOpenStatus (R_Status i)) checkFastInFlight in
  let* blocked := gets s_nonceBlocked in
  match R_Status i with
  | RescueTrustedSuccess | RescueTokenReported | RescueLostRace | RescueExhausted | RescueFailed => pruneTerminal
  | RescueSigned | RescueBroadcast | RescueAmbiguous =>
      let* early := (if isStatus i RescueAmbiguous && negb (IsZero (R_RetryAt i))
                     then let* t := now in mret (Before t (R_RetryAt i)) else mret false) in
      if early then fail (retryPendingError true) else reconcileOnce
  | RescuePrepared =>
      if blocked && negb (Co_latestState co) then fail (retryPendingError true)
      else if nothingToRescue i (be_value (R_SourceBefore i)) then setTerminal RescueFailed codeNoPaidAction
      else if forbiddenToken i then let* _ := setTerminal RescueFailed codeUnknownToken in fail tokenForbidden
      else signSubmitAndConfirm
  | RescuePending | RescueRetryable =>
      if blocked && negb (Co_latestState co) then fail (retryPendingError true)
      else
        let* t := now in
        let early := negb (IsZero (R_RetryAt i)) && Before t (R_RetryAt i) in
        if Pol_MaxAttempts (R_Policy i) <=? R_Attempts i then
          if early then fail (retryPendingError false) else setTerminal RescueExhausted (R_LastCode i)
        else if early then fail (retryPendingError false)
        else prepareAndSubmit
  | RescueStatusOther _ => fail (NewError "rescue.state_status" ErrorInternal codeStateRead false true None)
  end.

End Flow.

End RescueFlow.
Export RescueFlow.
