(* ===== verification/RescueCoordinator.v ===== *)
(** * internal/rescue: the coordinator's entry points

    [Handle] and the handling of one asset (operations.go), the passes of
    [RunReconciliation] (coordinator.go and fast_reconciliation.go), the start of
    a session, the lease loop, and the checks of [NewCoordinator].  A Go function
    that holds [operationMu] is one program: its calls are not interleaved with
    those of another.  Contexts and the interfaces a caller passes are not nil. *)

From S2P Require Import Prelude Programs GoTime Bytes Sha256 Domain Bolt BudgetModel BudgetLedger StoreModel StoreLease StoreRescue RescueFees Admission RpcQuorum RescueErrors Contracts RescueEffects RescueSession RescueOperations RescueFlow.
From Stdlib Require Strings.String.
Import Strings.String.StringSyntax.

Module RescueCoordinator.

(** ** NewCoordinator *)

(** The values of [Config]; [Cfg_*Set] say which interface values are not nil. *)
Record Config := mkConfig {
  Cfg_Claim : option ClaimPlan;
  Cfg_LatestState : bool;
  Cfg_Network : NetworkID;
  Cfg_HasRescuer : bool;
  Cfg_Rescuer : Address;
  Cfg_Tokens : list Address;
  Cfg_AllowUnknownTokens : bool;
  Cfg_Source : Address;
  Cfg_Sponsor : Address;
  Cfg_Destination : Address;
  Cfg_NativeThreshold : option Z;
  Cfg_StartupTimeout : Duration;
  Cfg_FeeReadTimeout : Duration;
  Cfg_Lease : Lease;
  Cfg_LeaseTTL : Duration;
  Cfg_MaxAttempts : Z;
  Cfg_RetryDelay : Duration;
  Cfg_ReceiptTimeout : Duration;
  Cfg_FinalityTimeout : Duration;
  Cfg_FeePolicy : FeePolicy;
  Cfg_NativeMinimum : Z;
  Cfg_TrustedTokens : list Address;
  Cfg_TrustedTokenValues : gmap Address TrustedTokenValuePolicy;
  Cfg_ServicesSet : bool;
  Cfg_HasMetrics : bool;
  Cfg_HasAlerts : bool;
  Cfg_HasHealth : bool;
  Cfg_HasStructured : bool }.

Definition defaultNativeThresholdWei : Z := 100000000000000.
Definition defaultStartupTimeout : Duration := 10 * Second.
Definition defaultFeeReadTimeout : Duration := 5 * Second.
Definition defaultLeaseTTL : Duration := 30 * Second.
Definition defaultRetryDelay : Duration := 5 * Second.
Definition defaultReceiptTimeout : Duration := 60 * Second.
Definition defaultFinalityTimeout : Duration := 30 * Minute.
Definition defaultMaxAttempts : Z := 3.

Definition invalidConfig (operation : String.string) : GoError := NewError operation ErrorConfiguration codeInvalidConfig false false None.

Definition durationDefault (value fallback : Duration) : Duration := if value =? 0 then fallback else value.

Definition checkIdentities (config : Config) : result GoError unit :=
  reject (Cfg_Network config <=? 0) || negb (Cfg_HasRescuer config) || is_zero_bytes (Cfg_Rescuer config)
      || is_zero_bytes (Cfg_Source config) || is_zero_bytes (Cfg_Sponsor config) || is_zero_bytes (Cfg_Destination config)
      || bytes_eqb (Cfg_Source config) (Cfg_Sponsor config) || bytes_eqb (Cfg_Source config) (Cfg_Destination config)
      || bytes_eqb (Cfg_Sponsor config) (Cfg_Destination config) || negb (Cfg_ServicesSet config)
      || negb (validFeePolicy (Cfg_FeePolicy config)) || negb (Fee_Network (Cfg_FeePolicy config) =? Cfg_Network config)
      || negb (LeaseKey_Network (Lease_Key (Cfg_Lease config)) =? Cfg_Network config)
      || negb (bytes_eqb (LeaseKey_Sponsor (Lease_Key (Cfg_Lease config))) (Cfg_Sponsor config))
      || (len (Lease_Owner (Cfg_Lease config)) =? 0) with invalidConfig "rescue.coordinator" in
  Ok tt.

(** The configured tokens, the trusted ones and their value policies. *)
Definition checkTokens (config : Config) (gateStopped : bool) : result GoError (gset Address * gset Address) :=
  reject existsb is_zero_bytes (Cfg_Tokens config) with invalidConfig "rescue.tokens" in
  let configured : gset Address := list_to_set (Cfg_Tokens config) in
  reject existsb (fun a => is_zero_bytes a || negb (bool_decide (a ∈ configured))) (Cfg_TrustedTokens config)
    with invalidConfig "rescue.trusted_tokens" in
  let trusted : gset Address := list_to_set (Cfg_TrustedTokens config) in
  reject existsb (fun '(a, policy) => negb (bool_decide (a ∈ trusted)) || u256_IsZero (TV_MinimumBalance policy) || u256_IsZero (TV_MaximumCost policy))
      (map_to_list (Cfg_TrustedTokenValues config)) with invalidConfig "rescue.token_values" in
  reject negb gateStopped && negb (Nat.eqb (size (Cfg_TrustedTokenValues config)) (size trusted))
    with invalidConfig "rescue.token_values" in
  Ok (configured, trusted).

Definition checkFeeModel (config : Config) (gateStopped : bool) : result GoError unit :=
  let policy := Cfg_FeePolicy config in
  reject Fee_EstimatedBaseFees policy && negb (Cfg_Network config =? 8453) with invalidConfig "rescue.fee_model" in
  reject negb gateStopped && Fee_UnboundedAdditionalFees policy && negb (Fee_EstimatedBaseFees policy)
    with invalidConfig "rescue.fee_model" in
  Ok tt.

Definition checkClaim (config : Config) (configured trusted : gset Address) (plan : ClaimPlan) : result GoError unit :=
  let policy := Cfg_FeePolicy config in
  reject negb (isOk (ClaimPlan_Validate plan))
      || (negb (bool_decide (Plan_Token plan ∈ configured)) && negb (Cfg_AllowUnknownTokens config))
      || bytes_eqb (Plan_Target plan) (Cfg_Source config) || bytes_eqb (Plan_Target plan) (Cfg_Sponsor config)
      || bytes_eqb (Plan_Target plan) (Cfg_Destination config) || bytes_eqb (Plan_Target plan) (Cfg_Rescuer config)
      || u256_Gt (Plan_MaximumCost plan) (Fee_TransactionCostCap policy) with invalidConfig "rescue.claim_config" in
  reject negb (bool_decide (Plan_Token plan ∈ trusted)) && u256_Gt (Plan_MaximumCost plan) (Fee_UnknownTokenCostCap policy)
    with invalidConfig "rescue.claim_config" in
  match Cfg_TrustedTokenValues config !! Plan_Token plan with
  | Some value =>
      reject u256_Gt (Plan_MaximumCost plan) (TV_MaximumCost value) || u256_Lt (Plan_MinimumReceived plan) (TV_MinimumBalance value)
        with NewError "rescue.claim_config" ErrorConfiguration codeMinimumValue false false None in Ok tt
  | None => Ok tt
  end.

(** The answers of the process fence and of the two ABI parsers, and the two
    readings of [config.Gate.Stopped()]. *)
Definition NewCoordinator (config : Config) (fenceValid erc20Valid rescuerValid gateStopped gateStoppedLater : bool) : result GoError Coordinator :=
  let! _ := checkIdentities config in
  reject negb fenceValid with processFenceError "rescue.process_fence" in
  reject negb erc20Valid with NewError "rescue.erc20_codec" ErrorInternal codeEncoding false false None in
  reject negb rescuerValid with NewError "rescue.rescuer_codec" ErrorInternal codeEncoding false false None in
  let! (configured, trusted) := checkTokens config gateStopped in
  let! _ := checkFeeModel config gateStoppedLater in
  let! threshold := match Cfg_NativeThreshold config with
                    | None => Ok defaultNativeThresholdWei
                    | Some z => reject z <? 0 with invalidConfig "rescue.native_threshold" in Ok z
                    end in
  let startupTimeout := durationDefault (Cfg_StartupTimeout config) defaultStartupTimeout in
  let feeReadTimeout := durationDefault (Cfg_FeeReadTimeout config) defaultFeeReadTimeout in
  let leaseTTL := durationDefault (Cfg_LeaseTTL config) defaultLeaseTTL in
  let retryDelay := durationDefault (Cfg_RetryDelay config) defaultRetryDelay in
  let receiptTimeout := durationDefault (Cfg_ReceiptTimeout config) defaultReceiptTimeout in
  let finalityTimeout := durationDefault (Cfg_FinalityTimeout config) defaultFinalityTimeout in
  let maxAttempts := if Cfg_MaxAttempts config =? 0 then defaultMaxAttempts else Cfg_MaxAttempts config in
  reject (startupTimeout <=? 0) || (feeReadTimeout <=? 0) || (leaseTTL <? 3) || (retryDelay <=? 0) || (receiptTimeout <=? 0)
      || (finalityTimeout <? defaultFinalityTimeout) with invalidConfig "rescue.timeouts" in
  let! _ := match Cfg_Claim config with Some plan => checkClaim config configured trusted plan | None => Ok tt end in
  Ok (mkCoordinator (Cfg_Claim config) (Cfg_LatestState config) (Cfg_Network config) (Cfg_Tokens config) (Cfg_AllowUnknownTokens config)
        (Cfg_Source config) (Cfg_Sponsor config) (Cfg_Destination config) (Cfg_Rescuer config) threshold startupTimeout feeReadTimeout
        leaseTTL maxAttempts retryDelay receiptTimeout finalityTimeout trusted (Cfg_TrustedTokenValues config) (configured ∖ trusted)
        (Cfg_FeePolicy config) (Cfg_NativeMinimum config) (Cfg_HasMetrics config) (Cfg_HasAlerts config) (Cfg_HasHealth config)
        (Cfg_HasStructured config)).

Section Coordinate.
Context {G : GethTx} {AB : Abi} {SE : Session}.
Local Abbreviation co := coordinator.

(** ** The lease *)

(** One turn of the loop of [MaintainLease]; [true] asks for the next one. *)
Definition leaseTurn : M bool :=
  let canceled e := failContext (A := bool) "rescue.lease" ErrorInternal codeContextCanceled false false (Some (OfContext e)) in
  let lostUnlessCanceled mark :=
    let* ctxErr := call Ctx_Err in
    match ctxErr with
    | Some e => canceled e
    | None => let* _ := when mark markLeaseLost in fail (leaseError "rescue.lease")
    end in
  let* lease := call Lease_Current in
  let* wake := call (Lease_Select lease) in
  match wake with
  | WakeDone => let* ctxErr := call Ctx_Err in canceled (default Canceled ctxErr)
  | WakeLeaseLost => lostUnlessCanceled false
  | WakeStoreLost => lostUnlessCanceled true
  | WakeTick =>
      let* lost := call Lease_IsLost in
      if lost then mret true
      else
        let* lease := call Lease_Current in
        let* renewed := call (LeaseManager_Renew lease (Co_leaseTTL co)) in
        match renewed with
        | Ok renewed => let* _ := call (Lease_SetCurrent renewed) in mret true
        | Err _ =>
            let* ctxErr := call Ctx_Err in
            match ctxErr with
            | Some e => failContext "rescue.lease_renew" ErrorInternal codeContextCanceled false false (Some (OfContext e))
            | None => let* _ := markLeaseLost in fail (leaseError "rescue.lease_renew")
            end
        end
  end.

Fixpoint leaseLoop (fuel : nat) : M unit :=
  match fuel with
  | O => diverge
  | S fuel => let* again := leaseTurn in if again then leaseLoop fuel else mret tt
  end.

Definition MaintainLease (fuel : nat) : M unit :=
  let* _ := validateLease in
  let* ctxErr := call Ctx_Err in
  match ctxErr with
  | Some e => failContext "rescue.lease" ErrorInternal codeContextCanceled false false (Some (OfContext e))
  | None =>
      let* ticker := call (Clock_NewTicker (Co_leaseTTL co / 3)) in
      if negb ticker then let* _ := markLeaseLost in fail (leaseError "rescue.lease_ticker")
      else leaseLoop fuel
  end.

Definition ReleaseLease : M unit :=
  let* _ := markLeaseLost in
  let* lease := call Lease_Current in
  let* r := call (LeaseManager_Release lease) in
  match r with
  | Ok _ => mret tt
  | Err _ =>
      let* ctxErr := call Ctx_Err in
      match ctxErr with
      | Some e => failContext "rescue.lease_release" ErrorInternal codeContextCanceled false true (Some (OfContext e))
      | None =>
          fail (NewError "rescue.lease_release" ErrorInternal CodeLeaseReleaseFailed true true (Some (IsSentinel ErrLeaseReleaseFailed)))
      end
  end.

(** ** Starting a session *)

Definition verifyStartup : M unit :=
  let* r := call RPC_ChainID in
  match r with
  | Err e => failContext "rescue.chain_id" ErrorRPCTransient codeChainIDRead true false (Some e)
  | Ok chainID =>
      if negb (bool_decide (chainID = Some (Co_network co)))
      then fail (NewError "rescue.chain_id" ErrorConfiguration codeChainIDMismatch false false None)
      else
        let* r := call Finality_Finalized in
        let unavailable cause := failContext "rescue.finalized" ErrorRPCTransient codeFinalityRead true true cause in
        match r with
        | Err e => unavailable (Some (OfRpc e))
        | Ok block =>
            if bytes_eqb (Ref_Hash block) zeroHash then unavailable None
            else
              match PackDestination with
              | None => fail (NewError "rescue.destination" ErrorInternal codeEncoding false false (Some (Foreign (str "abi"))))
              | Some data =>
                  let* r := call (Finality_CallContract None block (callMsg (Co_rescuer co) 0 data)) in
                  match r with
                  | Err e => failContext "rescue.destination" ErrorRPCTransient codeDestinationRead true true (Some (OfRpc e))
                  | Ok result =>
                      match fromSentinel (DecodeDestination result) with
                      | Err e => fail (NewError "rescue.destination" ErrorRPCInvalidResponse codeDestinationDecode true true (Some e))
                      | Ok destination =>
                          if negb (bytes_eqb destination (Co_destination co))
                          then fail (NewError "rescue.destination" ErrorConfiguration codeDestinationMismatch false false None)
                          else modify (fun s => set_lastFinalized s block)
                      end
                  end
              end
        end
  end.

(** A claim's incident that is not finished belongs to the configured claim. *)
Definition checkClaimIncident (i : RescueIncident) : M unit :=
  when (bool_decide (R_Kind i = CandidateClaim) && (statusNeedsReceipt (R_Status i) || isOpenStatus (R_Status i)))
    (let* _ := lift (claimFor i) in mret tt).

(** The first loop of [recoverPersisted], for one incident. *)
Definition recoverFloor (i : RescueIncident) : M unit :=
  let* _ := checkClaimIncident i in
  let* _ := when (negb (R_Network i =? Co_network co)) (fail (NewError "rescue.state" ErrorInternal codeStateRead false true None)) in
  let* _ := when (Pol_LatestState (R_Policy i) && (statusNeedsReceipt (R_Status i) || isOpenStatus (R_Status i)))
    (if negb finality_latest then fail (NewError "rescue.latest_reader" ErrorConfiguration codeInvalidConfig false false None)
     else modify (fun s => set_recoverLatest s true)) in
  when (incidentHasSignedTransaction i)
    (if R_SponsorNonce i =? 2 ^ 64 - 1 then fail (NewError "rescue.nonce_floor" ErrorInternal codeStateRead false true None)
     else
       let floor := uint64_wrap (R_SponsorNonce i + 1) in
       let* r := call (State_RaiseNonceFloor floor) in
       match r with
       | Err e => fail (NewError "rescue.nonce_floor" ErrorInternal codeStateWrite true true (Some (OfStore e)))
       | Ok _ => raiseNonceFloor floor
       end).

(** The second loop, for one incident: reconcile it; only a lost context or store stops the recovery. *)
Definition recoverIncident (i : RescueIncident) : M unit :=
  when (statusNeedsReceipt (R_Status i))
    (let* _ := setIncident (fun _ => i) in
     let* r := try reconcileOnce in
     match r with
     | Ok _ => mret tt
     | Err e =>
         let* ctxErr := call Ctx_Err in
         if isSome ctxErr || bytes_eqb (errorCode e) codeStateRead || bytes_eqb (errorCode e) codeStateWrite then fail e
         else
           let* i := getIncident in
           let* _ := recordFailure (R_Candidate i) (publicTransactionHash i) e in
           recordIncidentFailure i e
     end).

Definition recoverPersisted : M unit :=
  let* r := call State_NonceFloor in
  match r with
  | Err e => fail (NewError "rescue.nonce_floor" ErrorInternal codeStateRead true true (Some (OfStore e)))
  | Ok durableFloor =>
      let* _ := raiseNonceFloor durableFloor in
      let* r := call (State_RescueIncidents (Co_network co)) in
      match r with
      | Err e => fail (NewError "rescue.state" ErrorInternal codeStateRead true true (Some (OfStore e)))
      | Ok incidents =>
          let* _ := forEach incidents recoverFloor in
          let* _ := forEach incidents recoverIncident in
          let* _ := refreshNonceBlock in
          let* _ := refreshAmbiguousTelemetry in
          if Co_hasMetrics co then let* t := now in call (Notify (NoticeReconciled t)) else mret tt
      end
  end.

(** Report a failure of the session itself and pass it on. *)
Definition reported {A} (m : M A) : M A :=
  let* r := try m in
  match r with
  | Ok a => mret a
  | Err e => let* _ := recordFailure zeroID zeroHash e in fail e
  end.

Definition NewSession : M unit :=
  if Co_latestState co && negb finality_latest
  then fail (NewError "rescue.latest_reader" ErrorConfiguration codeInvalidConfig false false None)
  else
    let* _ := reported validateProcessFence in
    let* _ := reported validateLease in
    let* _ := reported verifyStartup in
    let* _ := reported recoverPersisted in
    record eventStartupVerified LevelInfo zeroID zeroHash [].

(** ** Handling a candidate *)

Definition sameIncidentIdentity (i : RescueIncident) (candidate : RescueCandidate) (kind : CandidateKind) (asset : Address) : bool :=
  bytes_eqb (R_ID i) (NewAssetIncidentID (Candidate_ID candidate) kind asset) && bytes_eqb (R_Candidate i) (Candidate_ID candidate)
  && (R_Network i =? Candidate_Network candidate) && bool_decide (R_Kind i = kind) && bytes_eqb (R_Asset i) asset.

Definition newIncident (candidate : RescueCandidate) (kind : CandidateKind) (asset : Address) (parent : IncidentID) (trusted : bool) (at_ : Time) : RescueIncident :=
  mkRescue (NewAssetIncidentID (Candidate_ID candidate) kind asset) parent (Candidate_ID candidate) (Co_network co) kind asset
    (if Candidate_Generation candidate =? 0 then generation else Candidate_Generation candidate) trusted
    (mkPolicySnapshot (Co_latestState co) (Co_maxAttempts co) (Co_retryDelay co) (Co_finalityTimeout co))
    RescuePending 0 0 0 zeroHash [] 0 zeroHash (zero_bytes 32) (zero_bytes 32) zeroTime zeroTime [] at_ at_.

Definition handleAsset (candidate : RescueCandidate) (kind : CandidateKind) (asset : Address) : M unit :=
  let parent := NewIncidentID (Candidate_ID candidate) in
  let trusted := if isTokenOperation kind then bool_decide (asset ∈ Co_trustedTokens co) else bool_decide (kind = CandidateNative) in
  let* t := now in
  let* r := call (State_RescueIncident (NewAssetIncidentID (Candidate_ID candidate) kind asset)) in
  match r with
  | Err e => fail (NewError "rescue.state_get" ErrorInternal codeStateRead true true (Some (OfStore e)))
  | Ok found =>
      let* stored := match found with
        | Some stored => mret stored
        | None =>
            let* r := call (State_PutRescueIncident (newIncident candidate kind asset parent trusted t)) in
            match r with
            | Err e => fail (NewError "rescue.state_put" ErrorInternal codeStateWrite true true (Some (OfStore e)))
            | Ok stored => mret stored
            end
        end in
      let* _ := setIncident (fun _ => stored) in
      if negb (sameIncidentIdentity stored candidate kind asset)
      then fail (NewError "rescue.state_identity" ErrorInternal codeStateRead false true None)
      else if negb (Bool.eqb (R_Trusted stored) trusted)
      then fail (NewError "rescue.state_trust" ErrorInternal codeStateRead false true None)
      else resumeIncident
  end.

Definition recordAssetFailure (candidate : RescueCandidate) (kind : CandidateKind) (asset : Address) (failure : option GoError) : M unit :=
  match failure with
  | None => mret tt
  | Some failure =>
      let* r := call (State_RescueIncident (NewAssetIncidentID (Candidate_ID candidate) kind asset)) in
      match r with
      | Ok (Some i) =>
          let* _ := recordFailure (Candidate_ID candidate) (publicTransactionHash i) failure in
          recordIncidentFailure i failure
      | _ => recordFailure (Candidate_ID candidate) zeroHash failure
      end
  end.

(** Every asset is tried; the first error is returned. *)
Fixpoint handleAssets (candidate : RescueCandidate) (assets : list (CandidateKind * Address)) (firstError : option GoError) : M unit :=
  match assets with
  | [] => failOption firstError tt
  | (kind, asset) :: assets =>
      let* r := try (handleAsset candidate kind asset) in
      let* _ := recordAssetFailure candidate kind asset (errOf r) in
      handleAssets candidate assets (match firstError with Some e => Some e | None => errOf r end)
  end.

Definition handlePeriodic (candidate : RescueCandidate) : M unit :=
  handleAssets candidate ((CandidateNative, zeroAddress) :: map (fun token => (CandidateToken, token)) (Co_tokens co)) None.

Definition unsupported (operation : String.string) : GoError := NewError operation ErrorConfiguration codeUnsupportedCandidate false false None.

(** A fast candidate outside latest-state mode must continue a latest-state incident. *)
Definition checkFastMode (candidate : RescueCandidate) : M unit :=
  if Co_latestState co then mret tt
  else
    let asset := Token_Address (Candidate_Token candidate) in
    let* r := call (State_RescueIncident (NewAssetIncidentID (Candidate_ID candidate) CandidateToken asset)) in
    match r with
    | Err e => fail (NewError "rescue.state_get" ErrorInternal codeStateRead true true (Some (OfStore e)))
    | Ok (Some stored) =>
        if negb (Pol_LatestState (R_Policy stored)) || negb (sameIncidentIdentity stored candidate CandidateToken asset)
        then fail (unsupported "rescue.fast_mode") else mret tt
    | Ok None => fail (unsupported "rescue.fast_mode")
    end.

Definition dispatch (candidate : RescueCandidate) : M unit :=
  let asset := Token_Address (Candidate_Token candidate) in
  match Candidate_Kind candidate with
  | CandidateFastToken =>
      let* _ := checkFastMode candidate in
      handleAsset candidate CandidateToken asset
  | CandidateClaim =>
      let identified := match Co_claim co with
        | Some plan => bytes_eqb (Candidate_ID candidate) (Candidate_ID (NewClaimCandidate (Co_network co) (Co_source co) plan))
        | None => false
        end in
      if negb identified then fail (NewError "rescue.claim_identity" ErrorConfiguration codeCandidateMismatch false false None)
      else handleAsset candidate CandidateClaim asset
  | CandidateToken => handleAsset candidate CandidateToken asset
  | CandidateNative => handleAsset candidate CandidateNative zeroAddress
  | CandidatePeriodic => handlePeriodic candidate
  | _ => fail (unsupported "rescue.handle")
  end.

(** A finalized candidate in latest-state mode without an incident: only history. *)
Definition onlyHistory (candidate : RescueCandidate) : M bool :=
  if Co_latestState co && negb (bytes_eqb (Candidate_BlockHash candidate) zeroHash)
     && (bool_decide (Candidate_Kind candidate = CandidateToken) || bool_decide (Candidate_Kind candidate = CandidateNative)) then
    let* r := call (State_RescueIncident
        (NewAssetIncidentID (Candidate_ID candidate) (Candidate_Kind candidate) (Token_Address (Candidate_Token candidate)))) in
    let* found := lift (fromStore r) in
    mret (negb (isSome found))
  else mret false.

Definition handleLocked (candidate : RescueCandidate) : M unit :=
  let* _ := modify (fun s => set_rpcSucceeded s false) in
  let* stopped := call Gate_Stopped in
  if stopped then
    let err := NewError "rescue.emergency_stop" ErrorSigning codePaidActionsStopped true false (Some (IsSentinel ErrPaidActionsStopped)) in
    let* _ := recordFailure (Candidate_ID candidate) zeroHash err in
    fail err
  else
    let* history := onlyHistory candidate in
    if history || (bool_decide (Candidate_Kind candidate = CandidateFastToken) && (Candidate_Observation candidate =? 1)) then mret tt
    else
      let* r := try (dispatch candidate) in
      match r with
      | Err e =>
          let* _ := when (negb (bool_decide (Candidate_Kind candidate = CandidatePeriodic)))
            (let* _ := recordFailure (Candidate_ID candidate) zeroHash e in
             recordCandidateFailure (Candidate_ID candidate) e) in
          fail e
      | Ok _ =>
          let* succeeded := gets s_rpcSucceeded in
          when succeeded recordRPCHealthy
      end.

Definition Handle (candidate : RescueCandidate) : M unit :=
  if negb (isOk (ValidateCandidate candidate)) || negb (Candidate_Network candidate =? Co_network co)
     || negb (bytes_eqb (Candidate_Source candidate) (Co_source co))
     || (negb (Candidate_Generation candidate =? 0) && negb (Candidate_Generation candidate =? generation)) then
    let err := NewError "rescue.handle" ErrorConfiguration codeCandidateMismatch false false None in
    let* _ := recordFailure (Candidate_ID candidate) zeroHash err in
    fail err
  else
    let* r := try (handleLocked candidate) in
    let* _ := modify (fun s => set_attempt s None) in
    lift r.

(** ** Reconciliation passes *)

Definition minReconciliationInterval : Duration := 30 * Second.
Definition maxReconciliationInterval : Duration := 5 * Minute.

Definition reconciliationInterval (retryDelay : Duration) : Duration :=
  if retryDelay <? minReconciliationInterval then minReconciliationInterval
  else if maxReconciliationInterval <? retryDelay then maxReconciliationInterval
  else retryDelay.

Definition recordReconciliation (complete : bool) : M unit :=
  let* alertErr := setAlert AlertReconciliationStale (negb complete) in
  match alertErr with
  | Some e => fail (NewError "rescue.reconciliation_alert" ErrorInternal codeStateWrite true true (Some e))
  | None =>
      if complete && Co_hasMetrics co then let* t := now in call (Notify (NoticeReconciled t)) else mret tt
  end.

(** One incident of [reconcileExpired]: whether the pass is still complete. *)
Definition expireIncident (at_ : Time) (i : RescueIncident) : M bool :=
  let* _ := checkClaimIncident i in
  if negb (R_Network i =? Co_network co) then
    let err := NewError "rescue.reconciliation_state" ErrorInternal codeStateRead false true None in
    let* _ := recordFailure (R_Candidate i) zeroHash err in
    fail err
  else if negb (isStatus i RescueAmbiguous) || IsZero (R_ReconcileUntil i) || Before at_ (R_ReconcileUntil i) then mret true
  else
    let* _ := setIncident (fun _ => i) in
    let* r := try reconcileExpiredIncident in
    match r with
    | Ok _ => mret true
    | Err e =>
        let* i := getIncident in
        let* _ := recordFailure (R_Candidate i) (publicTransactionHash i) e in
        let* _ := recordIncidentFailure i e in
        if fatalReconciliationError e then fail e else mret false
    end.

(** The pass over a list of items: whether every item was complete. *)
Fixpoint allComplete {A} (l : list A) (body : A -> M bool) : M bool :=
  match l with
  | [] => mret true
  | x :: l => let* done := body x in let* rest := allComplete l body in mret (done && rest)
  end.

Definition reconcileExpired : M unit :=
  let* _ := reported validateProcessFence in
  let* _ := reported validateLease in
  let* r := call (State_RescueIncidents (Co_network co)) in
  match r with
  | Err e => reported (fail (NewError "rescue.reconciliation_state" ErrorInternal codeStateRead true true (Some (OfStore e))))
  | Ok incidents =>
      let* t := now in
      let* complete := allComplete incidents (expireIncident t) in
      let* _ := refreshAmbiguousTelemetry in
      recordReconciliation complete
  end.

(** The receipts of incidents, read outside the mutex: [Some] receipt, and whether to look again. *)
Definition readReceipt (i : RescueIncident) : M (option Receipt * bool) :=
  let* r := call (Finality_Receipt (R_TxHash i)) in
  mret match r with
       | Ok receipt => (receipt, negb (isSome receipt))
       | Err e => (None, negb (isUnfinalizedReceipt (OfRpc e)))
       end.

Fixpoint mapM {A B} (f : A -> M B) (l : list A) : M (list B) :=
  match l with
  | [] => mret []
  | x :: l => let* y := f x in let* ys := mapM f l in mret (y :: ys)
  end.

(** The stored incident, if it is still the one that was read and waits for a receipt. *)
Definition currentIncident (original : RescueIncident) : M (option RescueIncident) :=
  let* r := call (State_RescueIncident (R_ID original)) in
  let* found := lift (fromStore r) in
  mret match found with
       | Some i => if statusNeedsReceipt (R_Status i) && bytes_eqb (R_TxHash i) (R_TxHash original) then Some i else None
       | None => None
       end.

(** One finalized receipt of [reconcileFast]: whether the pass is still complete. *)
Definition settleIncident (item : RescueIncident * (option Receipt * bool)) : M bool :=
  let '(original, (receipt, _)) := item in
  match receipt with
  | None => mret true
  | Some receipt =>
      let* current := currentIncident original in
      match current with
      | None => mret true
      | Some i =>
          let* _ := setIncident (fun _ => i) in
          let* _ := when (isStatus i RescueSigned)
            (let* t := now in
             if negb (Before t (R_ReconcileUntil i)) then persistExpiredAmbiguous
             else
               let* _ := setIncident (fun i => set_R_LastCode (withStatus i RescueAmbiguous) codeBroadcast) in
               updateIncident) in
          let* r := try (applyReceipt (Some receipt)) in
          match r with
          | Ok _ => mret true
          | Err e =>
              let* i := getIncident in
              let* _ := recordIncidentFailure i e in
              if fatalReconciliationError e then fail e else mret false
          end
      end
  end.

(** One incident of [reconcileFastPending], with whether it was seen mined. *)
Definition probeIncident (at_ : Time) (item : RescueIncident * bool) : M unit :=
  let (original, mined) := item in
  let* _ := validateProcessFence in
  let* _ := validateLease in
  if (mined : bool) then mret tt
  else
    let* current := currentIncident original in
    match current with
    | None => mret tt
    | Some i =>
        let* _ := setIncident (fun _ => i) in
        if negb (Before at_ (R_ReconcileUntil i)) then persistExpiredAmbiguous
        else
          let* _ := when (isStatus i RescueBroadcast) (persistAmbiguousCode codeReceiptTimeout) in
          let* r := try reconcileOnce in
          match r with
          | Ok _ => mret tt
          | Err e =>
              let* i := getIncident in
              let* _ := recordIncidentFailure i e in
              if fatalReconciliationError e then fail e else mret tt
          end
    end.

(** [if ctx.Err() != nil { return ctx.Err() }] *)
Definition checkContext : M unit :=
  let* ctxErr := call Ctx_Err in
  match ctxErr with Some e => fail (OfContext e) | None => mret tt end.

Definition reconcileFastPending (incidents : list RescueIncident) : M unit :=
  let* t := now in
  let* last := gets s_lastPendingProbe in
  if negb (IsZero last) && (Sub t last <? Co_receiptTimeout co) then mret tt
  else
    let* _ := modify (fun s => set_lastPendingProbe s t) in
    let pending := take maxUnfinalizedOperations
      (filter (fun i => statusNeedsReceipt (R_Status i) && (negb (isStatus i RescueBroadcast) || (Co_receiptTimeout co <=? Sub t (R_UpdatedAt i))) = true)
         incidents) in
    let* mined := mapM (fun i => let* r := asLatestReader (Finality_MinedReceipt (R_TxHash i)) in mret (minedFor (R_TxHash i) r)) pending in
    let* _ := checkContext in
    forEach (combine pending mined) (probeIncident t).

(** The part of [reconcileFast] that holds the mutex. *)
Definition settleReceipts (finalized : BlockRef) (active : list RescueIncident) (limited : bool) (receipts : list (option Receipt * bool)) : M unit :=
  let* _ := validateProcessFence in
  let* _ := validateLease in
  let* settled := allComplete (combine active receipts) settleIncident in
  let complete := negb limited && negb (existsb snd receipts) && settled in
  let* _ := when complete (modify (fun s => set_lastReceiptScan s finalized)) in
  let* _ := refreshNonceBlock in
  let* _ := refreshAmbiguousTelemetry in
  recordReconciliation complete.

Definition reconcileFast : M unit :=
  let* r := call (State_RescueIncidents (Co_network co)) in
  match r with
  | Err e => fail (NewError "rescue.reconciliation_state" ErrorInternal codeStateRead true true (Some (OfStore e)))
  | Ok incidents =>
      let* _ := reconcileFastPending incidents in
      let* r := call Finality_Finalized in
      match r with
      | Err _ => recordReconciliation false
      | Ok finalized =>
          let* last := gets s_lastReceiptScan in
          if bool_decide (finalized = last) then recordReconciliation true
          else
            let all := waiting incidents in
            let active := take maxUnfinalizedOperations all in
            let* receipts := mapM readReceipt active in
            let* _ := checkContext in
            settleReceipts finalized active (Nat.ltb maxUnfinalizedOperations (length all)) receipts
      end
  end.

Fixpoint reconciliationLoop (fuel : nat) : M unit :=
  match fuel with
  | O => diverge
  | S fuel =>
      let* wake := call Tick_Select in
      match wake with
      | TickDone =>
          let* ctxErr := call Ctx_Err in
          failContext "rescue.reconciliation" ErrorInternal codeContextCanceled false false (option_map OfContext ctxErr)
      | TickFired =>
          let* latest := gets s_recoverLatest in
          let* _ := (if Co_latestState co || latest then reconcileFast else reconcileExpired) in
          reconciliationLoop fuel
      end
  end.

Definition RunReconciliation (fuel : nat) : M unit :=
  let* latest := gets s_recoverLatest in
  let interval := if Co_latestState co || latest then Second else reconciliationInterval (Co_retryDelay co) in
  let* ticker := call (Clock_NewTicker interval) in
  if negb ticker then fail (NewError "rescue.reconciliation" ErrorInternal codeInvalidConfig false false None)
  else reconciliationLoop fuel.

End Coordinate.

End RescueCoordinator.
Export RescueCoordinator.
