(* ===== verification/RescueLogic.v ===== *)
(** * Reasoning about the coordinator's programs

    What happened before a call is the trace, newest event first.  [guards] folds
    it into what the gate section in progress has established; the predicates
    [stored], [floored], ... say that an event of the past showed something, and
    stay true as the trace grows.  [sat] is the part of [wp] that does not look at
    the trace: every call satisfies a predicate and every result another; a
    program whose calls are all [neutral] leaves the guards alone ([wp_neutral]).
    The lemmas of the database [keeps] say this of the functions that only read
    and report. *)

From S2P Require Import Prelude Programs GoTime Bytes Sha256 Domain Bolt BudgetModel BudgetLedger StoreModel StoreLease StoreRescue RescueFees Admission RpcQuorum RescueErrors Contracts RescueEffects RescueSession RescueOperations RescueFlow RescueCoordinator.

Module RescueLogic.

(** ** What a gate section has established *)

Record Guards := mkGuards {
  g_inGate : bool;
  g_fence : bool;
  g_notLost : bool;
  g_lease : bool;
  g_source : bool;
  g_sponsor : bool;
  g_capacity : option ReservationID;
  g_exposed : option (ReservationID * Hash) }.

Definition noGuards : Guards := mkGuards false false false false false false None None.
Definition gateOpened : Guards := mkGuards true false false false false false None None.

Section Guards.
Context {SE : Session}.
Local Abbreviation co := coordinator.

Definition observe (e : event) (g : Guards) : Guards :=
  match e with
  | Event Gate_Enter entered => if entered then gateOpened else noGuards
  | Event Gate_Leave _ => noGuards
  | Event Fence_Validate valid =>
      mkGuards (g_inGate g) valid (g_notLost g) (g_lease g) (g_source g) (g_sponsor g) (g_capacity g) (g_exposed g)
  | Event Lease_IsLost lost =>
      mkGuards (g_inGate g) (g_fence g) (negb lost) (g_lease g) (g_source g) (g_sponsor g) (g_capacity g) (g_exposed g)
  | Event (LeaseManager_Validate _) r =>
      mkGuards (g_inGate g) (g_fence g) (g_notLost g) (isOk r) (g_source g) (g_sponsor g) (g_capacity g) (g_exposed g)
  | Event Authorizer_Address a =>
      mkGuards (g_inGate g) (g_fence g) (g_notLost g) (g_lease g) (bytes_eqb a (Co_source co)) (g_sponsor g) (g_capacity g) (g_exposed g)
  | Event Transactioner_Address a =>
      mkGuards (g_inGate g) (g_fence g) (g_notLost g) (g_lease g) (g_source g) (bytes_eqb a (Co_sponsor co)) (g_capacity g) (g_exposed g)
  | Event (Ledger_CheckSponsorCapacity id _) r =>
      mkGuards (g_inGate g) (g_fence g) (g_notLost g) (g_lease g) (g_source g) (g_sponsor g) (if isOk r then Some id else None) (g_exposed g)
  | Event (Ledger_MarkExposed id hash) r =>
      mkGuards (g_inGate g) (g_fence g) (g_notLost g) (g_lease g) (g_source g) (g_sponsor g) (g_capacity g)
        (if isOk r then Some (id, hash) else None)
  | _ => g
  end.

Definition guards (tr : trace) : Guards := foldr observe noGuards tr.

(** The gate is held; in this section the process fence, the lease and both
    signers were checked and the sponsor can pay for the reservation. *)
Definition armed (g : Guards) (id : ReservationID) : Prop :=
  g_inGate g = true /\ g_fence g = true /\ g_notLost g = true /\ g_lease g = true /\ g_source g = true /\ g_sponsor g = true /\
  g_capacity g = Some id.

(** ** What the past showed *)

(** The store confirmed or returned the incident's signed operation. *)
Definition showsSigned (i : RescueIncident) (e : event) : Prop :=
  let same j := R_ID j = R_ID i /\ R_TxHash j = R_TxHash i /\ R_SignedTransaction j = R_SignedTransaction i in
  match e with
  | Event (State_UpdateRescueIncident j) r => r = Ok tt /\ R_Status j = RescueSigned /\ same j
  | Event (State_RescueIncident _) r => exists j, r = Ok (Some j) /\ same j
  | Event (State_RescueIncidents _) r => exists l j, r = Ok l /\ j ∈ l /\ same j
  | Event (State_PutRescueIncident _) r => exists j, r = Ok j /\ same j
  | _ => False
  end.

Definition stored (tr : trace) (i : RescueIncident) : Prop := Exists (showsSigned i) tr.

(** The durable nonce floor was raised above a nonce. *)
Definition showsFloor (nonce : Z) (e : event) : Prop :=
  match e with
  | Event (State_RaiseNonceFloor floor) r => r = Ok tt /\ floor = uint64_wrap (nonce + 1)
  | _ => False
  end.

Definition floored (tr : trace) (nonce : Z) : Prop := Exists (showsFloor nonce) tr.

(** The ledger holds a reservation for an attempt. *)
Definition showsReservation (attempt : Attempt) (id : ReservationID) (e : event) : Prop :=
  match e with
  | Event (Ledger_Reserve request) r => exists res, r = Ok res /\ Res_ID res = id /\ Budget.Req_Attempt request = attempt
  | Event (Ledger_ReservationByAttempt a) r => exists res, r = Ok (Some res) /\ Res_ID res = id /\ a = attempt
  | _ => False
  end.

Definition reserved_for (tr : trace) (attempt : Attempt) (id : ReservationID) : Prop := Exists (showsReservation attempt id) tr.

(** The finality reader returned the receipt of a transaction. *)
Definition showsReceipt (hash : Hash) (receipt : Receipt) (e : event) : Prop :=
  match e with
  | Event (Finality_Receipt h) r => h = hash /\ r = Ok (Some receipt)
  | _ => False
  end.

Definition received (tr : trace) (hash : Hash) (receipt : Receipt) : Prop := Exists (showsReceipt hash receipt) tr.

Lemma guards_cons e tr : guards (e :: tr) = observe e (guards tr).
Proof. done. Qed.

End Guards.

Lemma Exists_suffix {A} (P : A -> Prop) (l l' : list A) : l `suffix_of` l' -> Exists P l -> Exists P l'.
Proof. intros [k ->] H. apply Exists_app. by right. Qed.

#[export] Hint Resolve Exists_suffix : guard.

(** ** Calls that leave the guards alone *)

Definition successStatus (s : RescueStatus) : bool :=
  match s with RescueTrustedSuccess | RescueTokenReported => true | _ => false end.

(** Not a signature, a send, a charge, a success, nor anything [observe] looks at. *)
Definition neutral (c : Eff) : Prop :=
  match c with
  | Gate_Enter | Gate_Leave | Fence_Validate | Lease_IsLost | LeaseManager_Validate _ | Authorizer_Address | Transactioner_Address
  | Ledger_CheckSponsorCapacity _ _ | Ledger_MarkExposed _ _ | Ledger_CommitFinalized _
  | Authorizer_SignAuthorization _ | Transactioner_SignTransaction _ _ | Broadcaster_SendTransaction _ => False
  | State_UpdateRescueIncident i => successStatus (R_Status i) = false
  | _ => True
  end.

Lemma guards_neutral {SE : Session} c x tr : neutral c -> guards (Event c x :: tr) = guards tr.
Proof. destruct c; done. Qed.

(** A function with neutral calls that does not touch the incident. *)
Definition keeps {A} (m : M A) : Prop := forall s, sat neutral (fun sr => s_incident sr.1 = s_incident s) (m s).

Create HintDb keeps.

Lemma sat_keeps {A} (m : M A) s (R : SessionState * result GoError A -> Prop) :
  keeps m -> (forall s' r, s_incident s' = s_incident s -> R (s', r)) -> sat neutral R (m s).
Proof. intros H HR. eapply sat_mono; [apply H|]. intros [s' r] Hs. by apply HR. Qed.

Lemma keeps_ret {A} (a : A) : keeps (mret a).
Proof. done. Qed.
Lemma keeps_fail {A} e : keeps (fail (A := A) e).
Proof. done. Qed.
Lemma keeps_lift {A} (r : result GoError A) : keeps (lift r).
Proof. done. Qed.
Lemma keeps_gets {A} (f : SessionState -> A) : keeps (gets f).
Proof. done. Qed.
Lemma keeps_panic {A} : keeps (panic (A := A)).
Proof. done. Qed.
Lemma keeps_diverge {A} : keeps (diverge (A := A)).
Proof. done. Qed.
Lemma keeps_call c : neutral c -> keeps (call c).
Proof. intros H s. by split. Qed.
Lemma keeps_modify f : (forall s, s_incident (f s) = s_incident s) -> keeps (modify f).
Proof. intros H s. apply H. Qed.
Lemma keeps_mbind {A B} (m : M A) (f : A -> M B) : keeps m -> (forall a, keeps (f a)) -> keeps (mbind m f).
Proof.
  intros Hm Hf s. apply sat_mbind. apply sat_keeps; [done|]. intros s' [a|e] Hs; cbn; [|done].
  eapply sat_mono; [apply Hf|]. intros sr Hr. congruence.
Qed.
Lemma keeps_try {A} (m : M A) : keeps m -> keeps (try m).
Proof. intros Hm s. apply sat_try. eapply sat_mono; [apply Hm|]. done. Qed.
Lemma keeps_when b m : keeps m -> keeps (when b m).
Proof. by destruct b. Qed.

#[export] Hint Resolve keeps_ret keeps_fail keeps_lift keeps_gets keeps_panic keeps_diverge : keeps.

(** Walk through a function of the monad. *)
Ltac keeps_step :=
  match goal with
  | |- keeps (mbind _ _) => apply keeps_mbind; [|intros ?]
  | |- keeps (try _) => apply keeps_try
  | |- keeps (when _ _) => apply keeps_when
  | |- @keeps _ (call ?c) => apply (keeps_call c); exact I
  | |- keeps (modify _) => apply keeps_modify; intros ?; try reflexivity; case_match; reflexivity
  | |- keeps (match ?x with _ => _ end) => destruct x
  | |- keeps (let _ := _ in _) => cbv zeta
  | |- keeps ?m => solve [eauto with keeps]
  end.
Ltac solve_keeps := repeat keeps_step.

Lemma keeps_forEach {A} (l : list A) body : (forall x, keeps (body x)) -> keeps (forEach l body).
Proof. intros H. induction l as [|x l IH]; cbn; solve_keeps; auto. Qed.

Section Keeps.
Context {G : GethTx} {AB : Abi} {SE : Session}.

Lemma keeps_now : keeps now.
Proof. unfold now. solve_keeps. Qed.
Lemma keeps_getIncident : keeps getIncident.
Proof. unfold getIncident. solve_keeps. Qed.
#[local] Hint Resolve keeps_now keeps_getIncident : keeps.
Lemma keeps_contextOrError o c d r a e : keeps (contextOrError o c d r a e).
Proof. unfold contextOrError. solve_keeps. Qed.
#[local] Hint Resolve keeps_contextOrError : keeps.
Lemma keeps_failContext {A} o c d r a e : keeps (failContext (A := A) o c d r a e).
Proof. unfold failContext. solve_keeps. Qed.
#[local] Hint Resolve keeps_failContext : keeps.
Lemma keeps_firstFailure l : keeps (firstFailure l).
Proof. unfold firstFailure. solve_keeps. Qed.
Lemma keeps_record c l d h e : keeps (record c l d h e).
Proof. unfold record. solve_keeps. Qed.
Lemma keeps_recordSafe e : keeps (recordSafe e).
Proof. unfold recordSafe. solve_keeps. Qed.
Lemma keeps_setCondition c b : keeps (setCondition c b).
Proof. unfold setCondition. solve_keeps. Qed.
Lemma keeps_metric n : keeps (metric n).
Proof. unfold metric. solve_keeps. Qed.
Lemma keeps_setAlert c b : keeps (setAlert c b).
Proof. unfold setAlert. solve_keeps. Qed.
#[local] Hint Resolve keeps_firstFailure keeps_record keeps_recordSafe keeps_setCondition keeps_metric keeps_setAlert : keeps.
Lemma keeps_recordFailure c h e : keeps (recordFailure c h e).
Proof. unfold recordFailure. solve_keeps. Qed.
Lemma keeps_recordIncidentFailure i e : keeps (recordIncidentFailure i e).
Proof. unfold recordIncidentFailure. solve_keeps. Qed.
#[local] Hint Resolve keeps_recordFailure keeps_recordIncidentFailure : keeps.
Lemma keeps_recordCandidateFailure c e : keeps (recordCandidateFailure c e).
Proof. unfold recordCandidateFailure. solve_keeps. apply keeps_forEach. intros. solve_keeps. Qed.
Lemma keeps_recordRPCHealthy : keeps recordRPCHealthy.
Proof. unfold recordRPCHealthy. solve_keeps. Qed.
Lemma keeps_recordTerminal st : keeps (recordTerminal st).
Proof. unfold recordTerminal. solve_keeps. Qed.
Lemma keeps_recordBroadcast : keeps recordBroadcast.
Proof. unfold recordBroadcast. solve_keeps. Qed.
Lemma keeps_claimExpired : keeps claimExpired.
Proof. unfold claimExpired. solve_keeps. Qed.
Lemma keeps_pruneTerminal : keeps pruneTerminal.
Proof. unfold pruneTerminal. solve_keeps. Qed.
Lemma keeps_refreshNonceBlock : keeps refreshNonceBlock.
Proof. unfold refreshNonceBlock. solve_keeps. Qed.
Lemma keeps_refreshAmbiguousTelemetry : keeps refreshAmbiguousTelemetry.
Proof. unfold refreshAmbiguousTelemetry. solve_keeps. Qed.
Lemma keeps_raiseNonceFloor f : keeps (raiseNonceFloor f).
Proof. unfold raiseNonceFloor. solve_keeps. Qed.
#[local] Hint Resolve keeps_raiseNonceFloor : keeps.
Lemma keeps_ensureDurableNonceFloor n : keeps (ensureDurableNonceFloor n).
Proof. unfold ensureDurableNonceFloor. solve_keeps. Qed.
Lemma keeps_tokenBalanceAt b t a : keeps (tokenBalanceAt b t a).
Proof. unfold tokenBalanceAt. solve_keeps. Qed.
Lemma keeps_nativeBalanceAt b a : keeps (nativeBalanceAt b a).
Proof. unfold nativeBalanceAt. solve_keeps. Qed.
Lemma keeps_blockTime b : keeps (blockTime b).
Proof. unfold blockTime. solve_keeps. Qed.
Lemma keeps_asLatestReader c : neutral c -> keeps (asLatestReader c).
Proof. intros Hc. unfold asLatestReader. destruct finality_latest; [by apply keeps_call|apply keeps_panic]. Qed.
#[local] Hint Extern 1 (keeps (asLatestReader _)) => apply keeps_asLatestReader; exact I : keeps.
Lemma keeps_preflightBlock : keeps preflightBlock.
Proof. unfold preflightBlock. solve_keeps. Qed.
Lemma keeps_requireCanonicalHeader n h : keeps (requireCanonicalHeader n h).
Proof. unfold requireCanonicalHeader. solve_keeps. Qed.
Lemma keeps_estimateBaseAdditionalFee r b n g : keeps (estimateBaseAdditionalFee r b n g).
Proof. unfold estimateBaseAdditionalFee. solve_keeps. Qed.
Lemma keeps_updateBudgetMetrics : keeps updateBudgetMetrics.
Proof. unfold updateBudgetMetrics. solve_keeps. Qed.
#[local] Hint Resolve keeps_updateBudgetMetrics keeps_preflightBlock keeps_estimateBaseAdditionalFee : keeps.
Lemma keeps_budgetBlocked {A} e : keeps (budgetBlocked (A := A) e).
Proof. unfold budgetBlocked. solve_keeps. Qed.
Lemma keeps_admissionBlocked {A} e : keeps (admissionBlocked (A := A) e).
Proof. unfold admissionBlocked. solve_keeps. Qed.
Lemma keeps_releaseReservation id e : keeps (releaseReservation id e).
Proof. unfold releaseReservation. solve_keeps. Qed.
#[local] Hint Resolve keeps_recordCandidateFailure keeps_recordRPCHealthy keeps_recordTerminal keeps_recordBroadcast keeps_claimExpired
  keeps_pruneTerminal keeps_refreshNonceBlock keeps_refreshAmbiguousTelemetry keeps_ensureDurableNonceFloor keeps_tokenBalanceAt
  keeps_nativeBalanceAt keeps_blockTime keeps_requireCanonicalHeader keeps_budgetBlocked keeps_admissionBlocked
  keeps_releaseReservation : keeps.

Lemma keeps_EstimateEIP7702Gas r : keeps (EstimateEIP7702Gas r).
Proof. unfold EstimateEIP7702Gas. solve_keeps. Qed.
Lemma keeps_SimulateEIP7702At r b q : keeps (SimulateEIP7702At r b q).
Proof. unfold SimulateEIP7702At. solve_keeps. Qed.
Lemma keeps_pendingNonceLoop l e a : keeps (pendingNonceLoop l e a).
Proof. revert e. induction l as [|d l IH]; intros e; cbn; solve_keeps. Qed.
#[local] Hint Resolve keeps_pendingNonceLoop : keeps.
Lemma keeps_checkedPendingNonce a : keeps (checkedPendingNonce a).
Proof. unfold checkedPendingNonce, pendingNonce. solve_keeps. Qed.
#[local] Hint Resolve keeps_checkedPendingNonce : keeps.
Lemma keeps_sponsorNonce : keeps sponsorNonce.
Proof. unfold sponsorNonce. solve_keeps. Qed.
Lemma keeps_readFees a : keeps (readFees a).
Proof. unfold readFees. solve_keeps. Qed.
Lemma keeps_cachedAttempt : keeps cachedAttempt.
Proof. unfold cachedAttempt. solve_keeps. Qed.
Lemma keeps_fastPending {A} : keeps (fastPending (A := A)).
Proof. unfold fastPending. solve_keeps. Qed.
#[local] Hint Resolve keeps_sponsorNonce keeps_readFees keeps_cachedAttempt keeps_fastPending : keeps.
Lemma keeps_checkFastInFlight : keeps checkFastInFlight.
Proof. unfold checkFastInFlight. solve_keeps. Qed.
Lemma keeps_readBalance i r b a : keeps (readBalance i r b a).
Proof. unfold readBalance. solve_keeps. Qed.
#[local] Hint Resolve keeps_checkFastInFlight keeps_readBalance : keeps.
Lemma keeps_prefetchBalances i d b r f : keeps (prefetchBalances i d b r f).
Proof. unfold prefetchBalances. solve_keeps. Qed.
#[local] Hint Resolve keeps_prefetchBalances : keeps.
Lemma keeps_prefetchAttempt a : keeps (prefetchAttempt a).
Proof. unfold prefetchAttempt. solve_keeps. Qed.
Lemma keeps_ensureReservation t : keeps (ensureReservation t).
Proof. unfold ensureReservation. solve_keeps. Qed.
Lemma keeps_freshBalance id : keeps (freshBalance id).
Proof. unfold freshBalance. solve_keeps. Qed.
Lemma keeps_checkEstimatedFee t : keeps (checkEstimatedFee t).
Proof. unfold checkEstimatedFee. solve_keeps. Qed.
Lemma keeps_canonicalProofStart r : keeps (canonicalProofStart r).
Proof. unfold canonicalProofStart. solve_keeps. Qed.
Lemma keeps_canonicalProofEnd r b : keeps (canonicalProofEnd r b).
Proof. unfold canonicalProofEnd. solve_keeps. Qed.
Lemma keeps_receiptAdditionalFee r : keeps (receiptAdditionalFee r).
Proof. unfold receiptAdditionalFee. solve_keeps. Qed.
#[local] Hint Resolve keeps_receiptAdditionalFee : keeps.
Lemma keeps_executionCostOf r t : keeps (executionCostOf r t).
Proof. unfold executionCostOf. solve_keeps. Qed.
Lemma keeps_assetBalances b : keeps (assetBalances b).
Proof. unfold assetBalances. solve_keeps. Qed.
Lemma keeps_pollReceipt n h d : keeps (pollReceipt n h d).
Proof. induction n as [|n IH]; cbn; solve_keeps. Qed.
#[local] Hint Resolve keeps_pollReceipt : keeps.
Lemma keeps_waitReceipt h t : keeps (waitReceipt h t).
Proof. unfold waitReceipt. solve_keeps. Qed.
Lemma keeps_paidActionError o e : keeps (paidActionError o e).
Proof. unfold paidActionError. solve_keeps. Qed.
Lemma keeps_admitAttempt b : keeps (admitAttempt b).
Proof. unfold admitAttempt. solve_keeps. Qed.
Lemma keeps_failOption {A} e (a : A) : keeps (failOption e a).
Proof. unfold failOption. solve_keeps. Qed.

End Keeps.

#[export] Hint Resolve keeps_now keeps_getIncident keeps_contextOrError keeps_failContext keeps_firstFailure keeps_record keeps_recordSafe
  keeps_setCondition keeps_metric keeps_setAlert keeps_recordFailure keeps_recordIncidentFailure keeps_recordCandidateFailure
  keeps_recordRPCHealthy keeps_recordTerminal keeps_recordBroadcast keeps_claimExpired keeps_pruneTerminal keeps_refreshNonceBlock
  keeps_refreshAmbiguousTelemetry keeps_raiseNonceFloor keeps_ensureDurableNonceFloor keeps_tokenBalanceAt keeps_nativeBalanceAt
  keeps_blockTime keeps_preflightBlock keeps_requireCanonicalHeader keeps_estimateBaseAdditionalFee keeps_updateBudgetMetrics
  keeps_budgetBlocked keeps_admissionBlocked keeps_releaseReservation keeps_EstimateEIP7702Gas keeps_SimulateEIP7702At
  keeps_checkedPendingNonce keeps_sponsorNonce keeps_readFees keeps_cachedAttempt keeps_fastPending keeps_checkFastInFlight
  keeps_readBalance keeps_prefetchAttempt keeps_ensureReservation keeps_freshBalance keeps_checkEstimatedFee keeps_canonicalProofStart
  keeps_canonicalProofEnd keeps_executionCostOf keeps_assetBalances keeps_waitReceipt keeps_paidActionError keeps_admitAttempt
  keeps_failOption : keeps.
#[export] Hint Extern 1 (keeps (asLatestReader _)) => apply keeps_asLatestReader; exact I : keeps.

End RescueLogic.
Export RescueLogic.
