(* ===== verification/RescueGuards.v ===== *)
(** * What the coordinator has established before it acts

    [allowed] is the condition on every call of the coordinator: a signature or a
    send only under the guards of its gate section and for a reserved attempt, a
    send only of the durable bytes of an exposed operation, a charge only of what
    a canonical receipt of that operation shows, a success only with the proof of
    the post-state.  Each function of the package meets it; the lemmas follow the
    call graph upwards. *)

From S2P Require Import Prelude Programs GoTime Bytes Sha256 Domain Bolt BudgetModel BudgetLedger StoreModel StoreLease StoreRescue RescueFees Admission RpcQuorum RescueErrors Contracts RescueEffects RescueSession RescueOperations RescueFlow RescueCoordinator RescueLogic.

Module RescueGuards.

Section Guards.
Context {G : GethTx} {AB : Abi} {SE : Session}.
Local Abbreviation co := coordinator.

(** ** Evidence for a charge and for a success *)

Definition showsFinalized (block : BlockRef) (e : event) : Prop :=
  match e with Event Finality_Finalized r => r = Ok block | _ => False end.

Definition showsHeader (number : Z) (hash : Hash) (e : event) : Prop :=
  match e with Event (Finality_Header n) r => n = number /\ exists ref, r = Ok ref /\ Ref_Number ref = number /\ Ref_Hash ref = hash | _ => False end.

(** The receipt lies at or below a finalized block and its block is on the canonical chain, and so is the prestate's block. *)
Definition canonical (tr : trace) (i : RescueIncident) (receipt : Receipt) (postBlock : BlockRef) : Prop :=
  Exists (showsFinalized postBlock) tr /\ Ref_Hash postBlock <> zeroHash /\ receiptBlockNumber receipt <= Ref_Number postBlock /\
  Exists (showsHeader (receiptBlockNumber receipt) (Rcpt_BlockHash receipt)) tr /\
  (Pol_LatestState (R_Policy i) = false -> Exists (showsHeader (R_SnapshotBlockNumber i) (R_SnapshotBlockHash i)) tr).

Definition showsBaseFee (receipt : Receipt) (extra : Z) (e : event) : Prop :=
  match e with Event (Finality_BaseAdditionalFee r) x => r = receipt /\ x = Ok (Some extra) | _ => False end.

(** What the transaction of a receipt cost: execution, the estimated network's
    additional fee, the value it moved.  [GasUsed] and the value are unsigned in Go. *)
Definition costs (tr : trace) (i : RescueIncident) (receipt : Receipt) (cost : Z) : Prop :=
  exists price extra value,
    Rcpt_EffectiveGasPrice receipt = Some price /\
    (if Fee_EstimatedBaseFees (Co_feePolicy co) then Exists (showsBaseFee receipt extra) tr else extra = 0) /\
    (if Rcpt_Status receipt =? 1 then operationValue i = Ok value else value = 0) /\
    (0 <= Rcpt_GasUsed receipt -> 0 <= value -> cost = Rcpt_GasUsed receipt * price + extra + value).

Definition showsCode (block : BlockRef) (account target : Address) (e : event) : Prop :=
  match e with
  | Event (Finality_CodeAt b a) r => b = block /\ a = account /\ exists code, r = Ok code /\ ParseDelegation code = Some target
  | _ => False
  end.

(** A read of the incident's asset held by an account at a block. *)
Definition showsBalance (i : RescueIncident) (block : BlockRef) (account : Address) (balance : Z) (e : event) : Prop :=
  match e with
  | Event (Finality_BalanceAt None b a) r => isTokenOperation (R_Kind i) = false /\ b = block /\ a = account /\ r = Ok (Some balance)
  | Event (Finality_CallContract None b msg) r =>
      isTokenOperation (R_Kind i) = true /\ b = block /\
      exists data out, PackBalanceOf account = Some data /\ msg = callMsg (R_Asset i) 0 data /\ r = Ok out /\ DecodeBalanceOf out = Ok balance
  | _ => False
  end.

Definition showsCommit (hash : Hash) (e : event) : Prop :=
  match e with Event (Ledger_CommitFinalized charge) r => Charge_TxHash charge = hash /\ isOk r = true | _ => False end.

(** The ledger marked a reservation exposed and returned it as [id']. *)
Definition showsExposed (id : ReservationID) (hash : Hash) (id' : ReservationID) (e : event) : Prop :=
  match e with
  | Event (Ledger_MarkExposed i h) r => i = id /\ h = hash /\ exists res, r = Ok res /\ Res_ID res = id'
  | _ => False
  end.

(** The durable operation of an incident, and its receipt. *)
Definition settled (tr : trace) (i : RescueIncident) (receipt : Receipt) (postBlock : BlockRef) : Prop :=
  stored tr i /\ received tr (R_TxHash i) receipt /\ validRescueReceipt i receipt = true /\ canonical tr i receipt postBlock.

(** The post-state at a finalized block above a successful receipt: the source
    delegates to the rescuer and is empty, the destination has gained at least
    what the source held (and a claim had to yield).  [Status] is unsigned in Go. *)
Definition proven (tr : trace) (i : RescueIncident) : Prop :=
  exists receipt postBlock before required after,
    received tr (R_TxHash i) receipt /\ (0 <= Rcpt_Status receipt -> Rcpt_Status receipt = 1) /\ canonical tr i receipt postBlock /\ Exists (showsCommit (R_TxHash i)) tr /\
    Exists (showsCode postBlock (Co_source co) (Co_rescuer co)) tr /\
    Exists (showsBalance i postBlock (Co_source co) 0) tr /\ Exists (showsBalance i postBlock (Co_destination co) after) tr /\
    before = be_value (R_DestinationBefore i) /\ requiredDestinationDelta i = Ok required /\ before <= after /\ before + required <= after.

(** ** The condition on every call *)

Definition allowed (tr : trace) (c : Eff) : Prop :=
  match c with
  | Authorizer_SignAuthorization a =>
      Auth_ChainID a = Co_network co /\ Auth_Address a = Co_rescuer co /\
      exists attempt id, armed (guards tr) id /\ reserved_for tr attempt id
  | Transactioner_SignTransaction tx chainID =>
      Txn_ChainID tx = Co_network co /\ chainID = Co_network co /\ Txn_To tx = Some (Co_source co) /\
      exists attempt id, armed (guards tr) id /\ reserved_for tr attempt id
  | Broadcaster_SendTransaction tx =>
      exists i id, armed (guards tr) id /\ reserved_for tr (attemptOf i) id /\ g_exposed (guards tr) = Some (id, txn_Hash tx) /\
        stored tr i /\ R_TxHash i = txn_Hash tx /\ txn_MarshalBinary tx = Some (R_SignedTransaction i) /\ floored tr (Txn_Nonce tx)
  | Ledger_CommitFinalized charge =>
      exists i receipt postBlock tx, settled tr i receipt postBlock /\ Charge_TxHash charge = R_TxHash i /\
        validatePersistedTransaction i = Ok tx /\ Rcpt_GasUsed receipt <= Txn_Gas tx /\ costs tr i receipt (Charge_Actual charge) /\
        exists id, reserved_for tr (attemptOf i) id /\
          (Charge_ReservationID charge = id \/ Exists (showsExposed id (R_TxHash i) (Charge_ReservationID charge)) tr)
  | State_UpdateRescueIncident i => successStatus (R_Status i) = true -> proven tr i
  | _ => True
  end.

(** ** Rules *)

Definition WP {A} (m : M A) (s : SessionState) (Q : SessionState -> result GoError A -> trace -> Prop) (tr : trace) : Prop :=
  wp traced allowed True (m s) (fun sr => Q sr.1 sr.2) tr.

Lemma allowed_neutral tr c : neutral c -> allowed tr c.
Proof. destruct c; try done. cbn. congruence. Qed.

Lemma WP_mono {A} (m : M A) s (Q Q' : SessionState -> result GoError A -> trace -> Prop) tr :
  WP m s Q tr -> (forall s' r tr', Q s' r tr' -> Q' s' r tr') -> WP m s Q' tr.
Proof. intros H HQ. eapply wp_mono; [exact H|]. intros [s' r] tr'. apply HQ. Qed.

Lemma WP_mbind {A B} (m : M A) (f : A -> M B) s Q tr :
  WP m s (fun s' r tr' => match r with Ok a => WP (f a) s' Q tr' | Err e => Q s' (Err e) tr' end) tr -> WP (mbind m f) s Q tr.
Proof. intros H. apply wp_bind. eapply wp_mono; [exact H|]. by intros [s' [a|e]] tr'. Qed.

Lemma WP_try {A} (m : M A) s Q tr : WP m s (fun s' r => Q s' (Ok r)) tr -> WP (try m) s Q tr.
Proof. intros H. apply wp_bind. eapply wp_mono; [exact H|]. by intros [s' r] tr'. Qed.

Lemma WP_call c s (Q : SessionState -> result GoError (answer c) -> trace -> Prop) tr :
  allowed tr c -> (forall x, Q s (Ok x) (Event c x :: tr)) -> WP (call c) s Q tr.
Proof. intros Ha HQ. split; [done|]. intros x tr' ->. apply HQ. Qed.

Lemma WP_getIncident s (Q : SessionState -> result GoError RescueIncident -> trace -> Prop) tr :
  Q s (Ok (s_incident s)) tr -> WP getIncident s Q tr.
Proof. done. Qed.

Lemma wp_sat {A} (p : prog A) (R : A -> Prop) (Q : A -> trace -> Prop) tr :
  sat neutral R p -> (forall a tr', R a -> tr `suffix_of` tr' -> guards tr' = guards tr -> Q a tr') -> wp traced allowed True p Q tr.
Proof.
  revert tr. induction p as [a|c k IH| |]; cbn; intros tr H HQ; auto.
  destruct H as [Hc H]. split; [by apply allowed_neutral|]. intros x tr' ->. apply IH; [done|].
  intros a tr' Ha Hs Hg. apply HQ; [done| |by rewrite Hg, guards_neutral].
  etrans; [|exact Hs]. by apply suffix_cons_r.
Qed.

(** A function of the [keeps] database. *)
Lemma WP_keeps {A} (m : M A) s Q tr :
  keeps m -> (forall s' r tr', s_incident s' = s_incident s -> tr `suffix_of` tr' -> guards tr' = guards tr -> Q s' r tr') -> WP m s Q tr.
Proof. intros H HQ. eapply wp_sat; [apply H|]. intros [s' r] tr' Hs. by apply HQ. Qed.

Lemma WP_gateDo {A} (m : M A) s Q tr :
  (forall e, Q s (Err e) (Event Gate_Enter false :: tr)) ->
  WP m s (fun s' r tr' => Q s' r (Event Gate_Leave tt :: tr')) (Event Gate_Enter true :: tr) -> WP (gateDo m) s Q tr.
Proof.
  intros Hstop Hm. apply WP_mbind, WP_call; [done|]. intros [|]; [|apply Hstop]. cbn [negb].
  apply WP_mbind, WP_try. eapply WP_mono; [exact Hm|]. intros s' r tr' HQ. apply WP_mbind, WP_call; [done|]. intros []. exact HQ.
Qed.

End Guards.

(** Chains of growing traces. *)
Ltac sfx :=
  repeat first
    [ assumption | reflexivity
    | match goal with
      | |- _ `suffix_of` (_ :: _) => apply suffix_cons_r
      | H : ?x `suffix_of` ?b |- _ `suffix_of` ?b => transitivity x; [|exact H]
      end ].

End RescueGuards.
Export RescueGuards.
