(* ===== verification/RescueSafety.v ===== *)
(** * Every call of the coordinator is allowed

    The functions that sign, send, charge or conclude, from the innermost guard
    to the entry points, each against the condition [allowed] of RescueGuards.v.
    A lemma [WP_f] has two continuations: what holds when [f] succeeds, and that
    the trace only grew when it fails. *)

From S2P Require Import Prelude Programs GoTime Bytes Sha256 Domain Bolt BudgetModel BudgetLedger StoreModel StoreLease StoreRescue RescueFees Admission RpcQuorum RescueErrors Contracts RescueEffects RescueSession RescueOperations RescueFlow RescueCoordinator RescueLogic RescueGuards.
From Stdlib Require Strings.String.
Import Strings.String.StringSyntax.

Module RescueSafety.

Ltac wcall x := apply WP_call; [exact I|]; intros x.
Ltac wbind := apply WP_mbind.
(** A step by a function of the [keeps] database: new state, result and trace. *)
Ltac wkeep s r tr := apply WP_keeps; [solve [solve_keeps]|]; intros s r tr ? ? ?.
Ltac wget := apply WP_mbind, WP_getIncident.

(** The incident did not change along a chain of steps. *)
Ltac inc := cbn [fst snd]; repeat match goal with H : s_incident ?a = _ |- context [s_incident ?a] => rewrite H end; reflexivity.
(** The guards along a chain of steps. *)
Ltac gds :=
  repeat first
    [ rewrite guards_cons; cbn [observe isOk]
    | match goal with H : guards ?t = _ |- context [guards ?t] => rewrite H end ];
  try reflexivity.

(** ** Functions that only fail *)

Definition fails {A} (m : M A) : Prop := forall s, sat neutral (fun sr => exists e, sr.2 = Err e) (m s).

Lemma fails_fail {A} e : fails (fail (A := A) e).
Proof. intros s. by exists e. Qed.
Lemma fails_panic {A} : fails (panic (A := A)).
Proof. done. Qed.

(** A neutral step before a failure. *)
Lemma fails_after {A B} (m : M A) (f : A -> M B) :
  (forall s, sat neutral (fun _ => True) (m s)) -> (forall a, fails (f a)) -> fails (mbind m f).
Proof.
  intros Hm Hf s. apply sat_mbind. eapply sat_mono; [apply Hm|]. intros [s' [a|e]] _; [apply Hf|by exists e].
Qed.

Lemma neutral_keeps {A} (m : M A) : keeps m -> forall s, sat neutral (fun _ => True) (m s).
Proof. intros H s. eapply sat_mono; [apply H|]. done. Qed.

Section Safety.
Context {G : GethTx} {AB : Abi} {SE : Session}.
Local Abbreviation co := coordinator.

Lemma fails_failContext {A} o c d r a e : fails (failContext (A := A) o c d r a e).
Proof. unfold failContext. apply fails_after; [apply neutral_keeps, keeps_contextOrError|]. intros ?. apply fails_fail. Qed.
Lemma fails_fastPending {A} : fails (fastPending (A := A)).
Proof. unfold fastPending. apply fails_after; [apply neutral_keeps; solve_keeps|]. intros ?. apply fails_fail. Qed.
Lemma fails_admissionBlocked {A} e : fails (admissionBlocked (A := A) e).
Proof. apply fails_fail. Qed.
Lemma fails_budgetBlocked {A} e : fails (budgetBlocked (A := A) e).
Proof. unfold budgetBlocked. repeat (apply fails_after; [apply neutral_keeps; solve_keeps|intros ?]). apply fails_fail. Qed.

Lemma WP_fails {A} (m : M A) s Q tr :
  fails m -> (forall s' e tr', tr `suffix_of` tr' -> Q s' (Err e) tr') -> WP m s Q tr.
Proof. intros H HQ. eapply wp_sat; [apply H|]. intros [s' r] tr' [e ->] Hs _. by apply HQ. Qed.

(** A function with neutral calls. *)
Lemma WP_quiet {A} (m : M A) s Q tr :
  (forall s, sat neutral (fun _ => True) (m s)) -> (forall s' r tr', tr `suffix_of` tr' -> Q s' r tr') -> WP m s Q tr.
Proof. intros H HQ. eapply wp_sat; [apply H|]. intros [s' r] tr' _ Hs _. by apply HQ. Qed.

Lemma WP_lift {A} (r : result GoError A) s (Q : SessionState -> result GoError A -> trace -> Prop) tr :
  (forall a, r = Ok a -> Q s (Ok a) tr) -> (forall e, Q s (Err e) tr) -> WP (lift r) s Q tr.
Proof. intros HQ HE. destruct r; [by apply HQ|apply HE]. Qed.

(** ** The guards of a gate section *)

Definition checked (g : Guards) : Guards := mkGuards (g_inGate g) true true true true true (g_capacity g) (g_exposed g).

Definition withCapacity (g : Guards) (id : ReservationID) : Guards :=
  mkGuards (g_inGate g) (g_fence g) (g_notLost g) (g_lease g) (g_source g) (g_sponsor g) (Some id) (g_exposed g).

Definition leaseChecked (g : Guards) : Guards :=
  mkGuards (g_inGate g) (g_fence g) true true (g_source g) (g_sponsor g) (g_capacity g) (g_exposed g).

Lemma WP_validateLease s Q tr :
  (forall tr', tr `suffix_of` tr' -> guards tr' = leaseChecked (guards tr) -> Q s (Ok tt) tr') ->
  (forall s' e tr', tr `suffix_of` tr' -> Q s' (Err e) tr') -> WP validateLease s Q tr.
Proof.
  intros HQ HE. unfold validateLease, markLeaseLost.
  wbind. wcall lost. destruct lost; [apply HE; sfx|].
  wbind. wcall lost. destruct lost; [apply HE; sfx|].
  wbind. wcall lease. wbind. wcall r. destruct r as [[]|e]; [apply HQ; [sfx|done]|].
  wbind. wcall c. destruct c as [c|].
  - apply WP_fails; [apply fails_failContext|]. intros. apply HE. sfx.
  - wbind. wcall u. apply HE. sfx.
Qed.

Lemma WP_guardSigning s Q tr :
  (forall tr', tr `suffix_of` tr' -> guards tr' = checked (guards tr) -> Q s (Ok tt) tr') ->
  (forall s' e tr', tr `suffix_of` tr' -> Q s' (Err e) tr') -> WP guardSigning s Q tr.
Proof.
  intros HQ HE. unfold guardSigning, validateProcessFence, checkSignerAddresses.
  wbind. wbind. wcall fence. destruct fence; [|apply HE; sfx].
  wbind. apply WP_validateLease; [intros tr1 Hs1 Hg1|intros; apply HE; sfx].
  wbind. wcall a. destruct (bytes_eqb a _) eqn:Ea; cbn [negb]; [|apply HE; sfx].
  wbind. wcall t. destruct (bytes_eqb t _) eqn:Et; cbn [negb]; [|apply HE; sfx].
  apply HQ; [sfx|]. rewrite !guards_cons. cbn [observe]. rewrite Hg1, Ea, Et. done.
Qed.

Lemma WP_recheckSponsorReserve id s Q tr :
  (forall s' tr', s_incident s' = s_incident s -> tr `suffix_of` tr' -> guards tr' = withCapacity (guards tr) id -> Q s' (Ok tt) tr') ->
  (forall s' e tr', tr `suffix_of` tr' -> Q s' (Err e) tr') -> WP (recheckSponsorReserve id) s Q tr.
Proof.
  intros HQ HE. unfold recheckSponsorReserve. wbind. wkeep s1 r1 tr1. destruct r1 as [[balance|]|e]; [| |apply HE; sfx].
  - destruct (u256_FromBig balance); [|apply HE; sfx].
    wbind. wcall r. destruct r as [[]|e]; [|apply HE; sfx].
    apply HQ; [inc|sfx|gds].
  - wbind. wkeep s2 r2 tr2. destruct r2 as [[block|e]|e]; [| |apply HE; sfx].
    + destruct (bytes_eqb _ _); [apply WP_fails; [apply fails_failContext|]; intros; apply HE; sfx|].
      wbind. wkeep s3 r3 tr3. destruct r3 as [balance|e]; [|apply HE; sfx].
      destruct (u256_FromBig balance); [|apply HE; sfx].
      wbind. wcall r. destruct r as [[]|e]; [|apply HE; sfx].
      apply HQ; [inc|sfx|gds].
    + apply WP_fails; [apply fails_failContext|]. intros; apply HE; sfx.
Qed.

(** ** Reservations and the send *)

Lemma WP_ensureReservation tx s Q tr :
  (forall s' res tr', s_incident s' = s_incident s -> tr `suffix_of` tr' -> guards tr' = guards tr ->
     reserved_for tr' (attemptOf (s_incident s)) (Res_ID res) -> Q s' (Ok res) tr') ->
  (forall s' e tr', tr `suffix_of` tr' -> Q s' (Err e) tr') -> WP (ensureReservation tx) s Q tr.
Proof.
  intros HQ HE. unfold ensureReservation. wget. wbind. wcall r. destruct r as [[res|]|e]; [| |apply HE; sfx].
  { apply HQ; [done|sfx|done|]. left. cbn. eauto. }
  wbind. wcall r. destruct r as [block|e]; [|apply WP_fails; [apply fails_failContext|]; intros; apply HE; sfx].
  destruct (bytes_eqb _ _); [apply WP_fails; [apply fails_failContext|]; intros; apply HE; sfx|].
  wbind. wkeep s1 r1 tr1. destruct r1 as [balance|e]; [|apply HE; sfx].
  destruct (u256_FromBig balance); [|apply HE; sfx]. destruct (u256_FromBig (Txn_GasFeeCap tx)); [|apply HE; sfx].
  wbind. wkeep s2 r2 tr2. destruct r2 as [maximum|e]; [|apply HE; sfx].
  wbind. wkeep s3 r3 tr3. destruct r3 as [observed|e]; [|apply HE; sfx].
  wbind. wcall r. destruct r as [res|e]; [|apply HE; sfx].
  wbind. wkeep s4 r4 tr4. destruct r4 as [[]|e]; [|apply HE; sfx].
  apply HQ; [inc|sfx|gds|].
  eapply Exists_suffix; [exact H9|]. left. cbn. eauto.
Qed.

(** The transaction is the durable one of the incident, and its nonce is below the durable floor. *)
Definition sendable (tr : trace) (i : RescueIncident) (tx : Txn) : Prop :=
  stored tr i /\ R_TxHash i = txn_Hash tx /\ txn_MarshalBinary tx = Some (R_SignedTransaction i) /\ floored tr (Txn_Nonce tx).

Lemma sendable_suffix tr tr' i tx : tr `suffix_of` tr' -> sendable tr i tx -> sendable tr' i tx.
Proof. intros Hs (H1 & H2 & H3 & H4). repeat split; [|done..|]; by eapply Exists_suffix. Qed.

Lemma WP_sendAction id tx s Q tr :
  g_inGate (guards tr) = true -> reserved_for tr (attemptOf (s_incident s)) id -> sendable tr (s_incident s) tx ->
  (forall s' r tr', tr `suffix_of` tr' -> Q s' r tr') -> WP (sendAction id tx) s Q tr.
Proof.
  intros Hin Hres Hsend HQ. unfold sendAction. wbind.
  apply WP_guardSigning; [intros tr1 Hs1 Hg1|intros; apply HQ; sfx].
  wbind. apply WP_recheckSponsorReserve; [intros s2 tr2 Hi2 Hs2 Hg2|intros; apply HQ; sfx].
  wget. wbind. wcall r. wbind. destruct r as [res|e]; [|apply HQ; sfx]. cbn [mret]. 
  wbind. wkeep s3 r3 tr3. destruct r3 as [[]|e]; [|apply HQ; sfx].
  apply WP_call; [|intros x; apply HQ; sfx].
  exists (s_incident s), id.
  assert (Hg : guards tr3 = mkGuards true true true true true true (Some id) (Some (id, R_TxHash (s_incident s)))).
  { gds. unfold checked, withCapacity. cbn. by rewrite Hin, Hi2. }
  assert (Hall : tr `suffix_of` tr3) by sfx.
  destruct (sendable_suffix _ _ _ _ Hall Hsend) as (Hst & Hh & Hm & Hf). rewrite Hg.
  repeat split; [by eapply Exists_suffix|cbn; by rewrite Hh|done..].
Qed.

(** ** Updates that record no success *)

Definition quiet {A} (m : M A) : Prop := forall s, sat neutral (fun _ => True) (m s).

Definition sameOp (i j : RescueIncident) : Prop :=
  R_ID j = R_ID i /\ R_TxHash j = R_TxHash i /\ R_SignedTransaction j = R_SignedTransaction i.

Lemma stored_sameOp tr i j : sameOp i j -> stored tr i -> stored tr j.
Proof.
  intros (H1 & H2 & H3) H. eapply Exists_impl; [exact H|]. intros e. unfold showsSigned. by rewrite H1, H2, H3.
Qed.

Lemma stored_suffix tr tr' i : tr `suffix_of` tr' -> stored tr i -> stored tr' i.
Proof. apply Exists_suffix. Qed.

Lemma received_suffix tr tr' h r : tr `suffix_of` tr' -> received tr h r -> received tr' h r.
Proof. apply Exists_suffix. Qed.

(** A function that may change the incident, but not its signed operation. *)
Definition settles {A} (m : M A) : Prop := forall s, sat neutral (fun sr => sameOp (s_incident s) (s_incident sr.1)) (m s).

Lemma settles_quiet {A} (m : M A) : settles m -> quiet m.
Proof. intros H s. eapply sat_mono; [apply H|]. done. Qed.

Lemma sameOp_refl i : sameOp i i.
Proof. done. Qed.

Lemma sameOp_trans i j k : sameOp i j -> sameOp j k -> sameOp i k.
Proof. intros (H1 & H2 & H3) (H4 & H5 & H6). unfold sameOp. by rewrite H4, H5, H6. Qed.

Lemma settles_keeps {A} (m : M A) : keeps m -> settles m.
Proof. intros H s. eapply sat_mono; [apply H|]. intros sr Hi. by rewrite Hi. Qed.

Lemma settles_mbind {A B} (m : M A) (f : A -> M B) : settles m -> (forall a, settles (f a)) -> settles (mbind m f).
Proof.
  intros Hm Hf s. apply sat_mbind. eapply sat_mono; [apply Hm|]. intros [s' [a|e]] Hs; cbn in *; [|done].
  eapply sat_mono; [apply Hf|]. intros sr Hr. by eapply sameOp_trans.
Qed.

Lemma quiet_keeps {A} (m : M A) : keeps m -> quiet m.
Proof. exact (neutral_keeps m). Qed.

Lemma quiet_mbind {A B} (m : M A) (f : A -> M B) : quiet m -> (forall a, quiet (f a)) -> quiet (mbind m f).
Proof. intros Hm Hf s. apply sat_mbind. eapply sat_mono; [apply Hm|]. intros [s' [a|e]] _; [apply Hf|done]. Qed.

Lemma fails_quiet {A} (m : M A) : fails m -> quiet m.
Proof. intros H s. eapply sat_mono; [apply H|]. done. Qed.

(** The incident as [updateIncidentAt] stores it. *)
Definition updated (at_ : Time) (i : RescueIncident) : RescueIncident :=
  let i := set_R_UpdatedAt i at_ in if isStatus i RescueRetryable then set_R_RetryAt i (Add at_ (Pol_RetryDelay (R_Policy i))) else i.

Lemma updated_status at_ i : R_Status (updated at_ i) = R_Status i.
Proof. unfold updated. by case_match. Qed.

Lemma updated_sameOp at_ i : sameOp i (updated at_ i).
Proof. unfold updated. by case_match. Qed.

Lemma sat_updateIncidentAt at_ s R :
  successStatus (R_Status (s_incident s)) = false ->
  (forall s' r, s_incident s' = updated at_ (s_incident s) -> R (s', r)) -> sat neutral R (updateIncidentAt at_ s).
Proof.
  intros Hn HR. unfold updateIncidentAt. apply sat_mbind. cbn [setIncident modify sat fst snd]. apply sat_mbind.
  cbn [setIncident modify sat fst snd]. apply sat_mbind. cbn [getIncident gets sat fst snd]. apply sat_mbind.
  cbn [call sat]. split.
  - change (successStatus (R_Status (updated at_ (s_incident s))) = false). by rewrite updated_status.
  - intros [[]|e]; apply HR; done.
Qed.

Lemma sat_updateIncident s R :
  successStatus (R_Status (s_incident s)) = false ->
  (forall s' at_ r, s_incident s' = updated at_ (s_incident s) -> R (s', r)) -> sat neutral R (updateIncident s).
Proof.
  intros Hn HR. unfold updateIncident. apply sat_mbind. split; [done|]. intros t. cbn. apply sat_updateIncidentAt; [done|].
  intros. by eapply HR.
Qed.

(** An assignment that leaves no success status, then an update. *)
Lemma settles_assign (f : RescueIncident -> RescueIncident) (m : M unit) :
  (forall i, sameOp i (f i)) -> (forall i, successStatus (R_Status (f i)) = false) -> (m = updateIncident \/ exists t, m = updateIncidentAt t) ->
  settles (let* _ := setIncident f in m).
Proof.
  intros Hf Hn Hm s. apply sat_mbind. cbn [setIncident modify sat fst snd].
  assert (Hpost : forall s' at_ (r : result GoError unit), s_incident s' = updated at_ (f (s_incident s)) -> sameOp (s_incident s) (s_incident (s', r).1)).
  { intros s' at_ r Hs. cbn. rewrite Hs. eapply sameOp_trans; [apply Hf|apply updated_sameOp]. }
  destruct Hm as [->|[t ->]].
  - apply sat_updateIncident; [apply Hn|]. intros. by eapply Hpost.
  - apply sat_updateIncidentAt; [apply Hn|]. intros. by eapply Hpost.
Qed.

Lemma quiet_assign (f : RescueIncident -> RescueIncident) :
  (forall i, successStatus (R_Status (f i)) = false) -> quiet (let* _ := setIncident f in updateIncident).
Proof.
  intros Hn s. apply sat_mbind. cbn [setIncident modify sat fst snd]. by apply sat_updateIncident; [apply Hn|].
Qed.

(** [m; k] after an assignment and its update. *)
Lemma quiet_assign_then {A} (f : RescueIncident -> RescueIncident) (k : M A) :
  (forall i, successStatus (R_Status (f i)) = false) -> quiet k -> quiet (let* _ := setIncident f in let* _ := updateIncident in k).
Proof.
  intros Hn Hk s. apply sat_mbind. cbn [setIncident modify sat fst snd]. apply sat_mbind.
  apply sat_updateIncident; [apply Hn|]. intros s' at_ [[]|e] _; [apply Hk|done].
Qed.

Lemma fails_assign_then {A} (f : RescueIncident -> RescueIncident) e :
  (forall i, successStatus (R_Status (f i)) = false) -> fails (A := A) (let* _ := setIncident f in let* _ := updateIncident in fail e).
Proof.
  intros Hn s. apply sat_mbind. cbn [setIncident modify sat fst snd]. apply sat_mbind.
  apply sat_updateIncident; [apply Hn|]. intros s' at_ [[]|e'] _; cbn; eauto.
Qed.

Lemma settles_persistExpiredAmbiguous : settles persistExpiredAmbiguous.
Proof.
  unfold persistExpiredAmbiguous. apply settles_mbind; [apply settles_keeps, keeps_getIncident|]. intros i.
  destruct (_ && _); [apply settles_keeps, keeps_ret|]. apply settles_assign; [done|done|right; eauto].
Qed.

Lemma settles_persistAmbiguousCode code : settles (persistAmbiguousCode code).
Proof.
  unfold persistAmbiguousCode. apply settles_mbind; [apply settles_keeps, keeps_now|]. intros t.
  apply settles_mbind; [apply settles_keeps, keeps_getIncident|]. intros i.
  destruct (negb _); [apply settles_persistExpiredAmbiguous|].
  intros s. apply sat_mbind. cbn [setIncident modify sat fst snd]. apply sat_mbind. apply sat_updateIncidentAt; [done|].
  intros s' r Hs. set (i' := set_R_RetryAt _ _) in *.
  assert (Ho : sameOp (s_incident s) (s_incident s')).
  { rewrite Hs. apply (sameOp_trans _ i'); [done|]. unfold i'. apply updated_sameOp. }
  destruct r as [[]|e]; [|done]. cbn [fst snd].
  apply (sat_keeps (let* _ := when (negb (isStatus i RescueAmbiguous)) (metric NoticeOpenAmbiguous) in refreshAmbiguousTelemetry));
    [solve_keeps|]. intros s'' r'' Hs''. cbn. by rewrite Hs''.
Qed.

Lemma settles_persistAmbiguous e : settles (persistAmbiguous e).
Proof. apply settles_persistAmbiguousCode. Qed.

Lemma fails_postconditionAmbiguous {A} e : fails (postconditionAmbiguous (A := A) e).
Proof. apply fails_after; [apply settles_quiet, settles_persistAmbiguous|]. intros ?. apply fails_fail. Qed.

Lemma quiet_setTerminal status code : successStatus status = false -> quiet (setTerminal status code).
Proof.
  intros Hn. unfold setTerminal. apply quiet_mbind; [apply quiet_keeps, keeps_gets|]. intros previous.
  apply quiet_assign_then; [done|]. apply quiet_keeps. solve_keeps.
Qed.

Lemma fails_beforeSignedFailure {A} e : fails (beforeSignedFailure (A := A) e).
Proof. apply fails_assign_then. done. Qed.

Lemma fails_releaseBeforeSigned {A} id e : fails (releaseBeforeSigned (A := A) id e).
Proof.
  apply fails_after; [apply quiet_keeps; solve_keeps|]. intros failure. destruct (bytes_eqb _ _); [apply fails_fail|].
  apply fails_beforeSignedFailure.
Qed.

Lemma fails_preparationFailure {A} a b x y e : fails (preparationFailure (A := A) a b x y e).
Proof. apply fails_assign_then. done. Qed.

Lemma fails_restartPreparedAttempt {A} : fails (restartPreparedAttempt (A := A)).
Proof.
  unfold restartPreparedAttempt. apply fails_after; [apply quiet_keeps; solve_keeps|]. intros i.
  apply fails_after; [apply quiet_keeps; solve_keeps|]. intros [found|e]; [|apply fails_fail].
  apply fails_after; [|intros ?; apply fails_beforeSignedFailure]. apply quiet_keeps. solve_keeps.
Qed.

Lemma quiet_afterSend o e : quiet (afterSend o e).
Proof.
  destruct e as [e|]; cbn [afterSend].
  - apply quiet_mbind; [apply quiet_keeps; solve_keeps|]. intros failure.
    apply quiet_mbind; [apply settles_quiet, settles_persistAmbiguousCode|]. intros _. apply quiet_keeps. solve_keeps.
  - apply quiet_assign_then; [done|]. apply quiet_keeps. solve_keeps.
Qed.

Lemma WP_sendPersisted tx s Q tr :
  sendable tr (s_incident s) tx -> (forall s' r tr', tr `suffix_of` tr' -> Q s' r tr') -> WP (sendPersisted tx) s Q tr.
Proof.
  intros Hsend HQ. unfold sendPersisted. wbind. wkeep s1 r1 tr1. destruct r1 as [expired|e]; [|apply HQ; sfx].
  destruct expired; [apply HQ; sfx|]. wbind. wkeep s2 r2 tr2. destruct r2 as [[[]|e]|e]; [|apply HQ; sfx..].
  wbind. apply WP_try, WP_ensureReservation; [intros s3 res tr3 Hi3 Hs3 Hg3 Hres|intros; apply HQ; sfx].
  wbind. apply WP_try, WP_gateDo; [intros e; apply HQ; sfx|].
  assert (Hi : s_incident s3 = s_incident s) by inc.
  apply WP_sendAction; [done| | |].
  - replace (s_incident s3) with (s_incident s2) by inc. eapply Exists_suffix; [|exact Hres]. sfx.
  - rewrite Hi. eapply sendable_suffix; [|exact Hsend]. sfx.
  - intros s4 [[e|]|e] tr4 Hs4; apply HQ; sfx.
Qed.

(** ** The receipt *)

Lemma WP_pollReceipt n h d s Q tr :
  (forall s' receipt tr', s_incident s' = s_incident s -> tr `suffix_of` tr' -> received tr' h receipt -> Q s' (Ok receipt) tr') ->
  (forall s' e tr', tr `suffix_of` tr' -> Q s' (Err e) tr') -> WP (pollReceipt n h d) s Q tr.
Proof.
  revert s tr. induction n as [|n IH]; intros s tr HQ HE; [done|]. cbn [pollReceipt].
  wbind. wcall r. destruct r as [[receipt|]|e]; [|apply HE; sfx|].
  { apply HQ; [done|sfx|]. by left. }
  wbind. wcall c. destruct c as [c|]; [apply WP_fails; [apply fails_failContext|]; intros; apply HE; sfx|].
  wbind. wcall t. destruct (negb (Before t d)); [apply HE; sfx|].
  wbind. wcall sl. destruct sl as [e'|]; [apply WP_fails; [apply fails_failContext|]; intros; apply HE; sfx|].
  apply IH; [intros; apply HQ; [done|sfx|done]|intros; apply HE; sfx].
Qed.

Lemma WP_waitReceipt h t s Q tr :
  (forall s' receipt tr', s_incident s' = s_incident s -> tr `suffix_of` tr' -> received tr' h receipt -> Q s' (Ok receipt) tr') ->
  (forall s' e tr', tr `suffix_of` tr' -> Q s' (Err e) tr') -> WP (waitReceipt h t) s Q tr.
Proof.
  intros HQ HE. unfold waitReceipt. wbind. wcall t0. apply WP_pollReceipt; [intros; apply HQ; [done|sfx|done]|intros; apply HE; sfx].
Qed.

Lemma WP_requireCanonicalHeader n h s Q tr :
  (forall s' tr', s_incident s' = s_incident s -> tr `suffix_of` tr' -> Exists (showsHeader n h) tr' -> Q s' (Ok tt) tr') ->
  (forall s' e tr', tr `suffix_of` tr' -> Q s' (Err e) tr') -> WP (requireCanonicalHeader n h) s Q tr.
Proof.
  intros HQ HE. unfold requireCanonicalHeader. wbind. wcall r.
  destruct r as [ref|e]; [|apply WP_fails; [apply fails_failContext|]; intros; apply HE; sfx].
  destruct (negb (Ref_Number ref =? n) || _) eqn:E; [apply WP_fails; [apply fails_failContext|]; intros; apply HE; sfx|].
  bool_hyps. unfold bytes_eqb in *. bool_hyps. apply HQ; [done|sfx|]. left. cbn. eauto.
Qed.

(** The header of the prestate, required unless the attempt reads the latest state. *)
Lemma WP_whenCanonical b n h s Q tr :
  (forall s' tr', s_incident s' = s_incident s -> tr `suffix_of` tr' -> (b = true -> Exists (showsHeader n h) tr') -> Q s' (Ok tt) tr') ->
  (forall s' e tr', tr `suffix_of` tr' -> Q s' (Err e) tr') -> WP (when b (requireCanonicalHeader n h)) s Q tr.
Proof.
  intros HQ HE. destruct b; cbn [when].
  - apply WP_requireCanonicalHeader; [|done]. intros. by apply HQ.
  - by apply HQ.
Qed.

Lemma WP_canonicalProofStart receipt s Q tr :
  (forall s' b tr', s_incident s' = s_incident s -> tr `suffix_of` tr' -> canonical tr' (s_incident s) receipt b -> Q s' (Ok b) tr') ->
  (forall s' e tr', tr `suffix_of` tr' -> Q s' (Err e) tr') -> WP (canonicalProofStart receipt) s Q tr.
Proof.
  intros HQ HE. unfold canonicalProofStart. wget. wbind. wcall r.
  destruct r as [b|e]; [|apply WP_fails; [apply fails_failContext|]; intros; apply HE; sfx].
  destruct (_ || _ || _) eqn:E; [apply WP_fails; [apply fails_failContext|]; intros; apply HE; sfx|]. bool_hyps.
  wbind. apply WP_whenCanonical; [intros s1 tr1 Hi1 Hs1 Hh1|intros; apply HE; sfx].
  wbind. apply WP_requireCanonicalHeader; [intros s2 tr2 Hi2 Hs2 Hh2|intros; apply HE; sfx].
  unfold bytes_eqb in *. bool_hyps. apply HQ; [inc|sfx|]. split; [|split; [done|]].
  - apply (Exists_suffix _ (Event Finality_Finalized (Ok b) :: tr)); [sfx|by left].
  - split; [lia|]. split; [done|]. intros Hl. eapply Exists_suffix; [exact Hs2|]. apply Hh1. by rewrite Hl.
Qed.

Lemma WP_keeps_ok {A} (m : M A) s Q tr :
  keeps m -> (forall s' a tr', s_incident s' = s_incident s -> tr `suffix_of` tr' -> Q s' (Ok a) tr') ->
  (forall s' e tr', tr `suffix_of` tr' -> Q s' (Err e) tr') -> WP m s Q tr.
Proof. intros Hm HQ HE. apply WP_keeps; [done|]. intros s' [a|e] tr' ? ? _; auto. Qed.

Lemma maximumFeeCost_exact gas price cost : 0 <= gas -> 0 <= price -> maximumFeeCost gas price 0 = Ok cost -> cost = gas * price.
Proof.
  intros Hg Hp. unfold maximumFeeCost, u256_MulOverflow, u256_AddOverflow, u256_IsZero.
  destruct (negb (gas * price <? 2 ^ 256)) eqn:E1; [done|]. bool_hyps.
  rewrite (Z.mod_small (gas * price)) by lia. rewrite Z.add_0_r, Z.mod_small by lia. case_match; [done|]. by intros [= <-].
Qed.

Lemma addCost_exact a b cost : 0 <= a -> 0 <= b -> addCost a b = Ok cost -> cost = a + b.
Proof.
  intros Ha Hb. unfold addCost, u256_AddOverflow. destruct (negb _) eqn:E; [done|]. bool_hyps. intros [= <-]. apply Z.mod_small. lia.
Qed.

Lemma WP_receiptAdditionalFee receipt s Q tr :
  (forall extra tr', tr `suffix_of` tr' -> 0 <= extra -> Exists (showsBaseFee receipt extra) tr' -> Q s (Ok extra) tr') ->
  (forall s' e tr', tr `suffix_of` tr' -> Q s' (Err e) tr') -> WP (receiptAdditionalFee receipt) s Q tr.
Proof.
  intros HQ HE. unfold receiptAdditionalFee. destruct (negb finality_baseFees); [apply HE; sfx|]. wbind. wcall r.
  destruct r as [[extra|]|e]; [|apply HE; sfx..]. destruct (extra <? 0) eqn:E; [apply HE; sfx|]. bool_hyps.
  cbn [from_option id]. unfold u256_FromBig. destruct (extra <? 2 ^ 256); [|apply HE; sfx]. apply HQ; [sfx|done|]. by left.
Qed.

Lemma WP_executionCostOf receipt tx s Q tr :
  validRescueReceipt (s_incident s) receipt = true ->
  (forall s' cost tr', s_incident s' = s_incident s -> tr `suffix_of` tr' -> Rcpt_GasUsed receipt <= Txn_Gas tx ->
     costs tr' (s_incident s) receipt cost -> Q s' (Ok cost) tr') ->
  (forall s' e tr', tr `suffix_of` tr' -> Q s' (Err e) tr') -> WP (executionCostOf receipt tx) s Q tr.
Proof.
  intros Hv HQ HE. unfold executionCostOf. wget. destruct (_ || _) eqn:E; [apply HE; sfx|]. bool_hyps.
  unfold validRescueReceipt in Hv. bool_hyps. destruct (Rcpt_EffectiveGasPrice receipt) as [price|] eqn:Ep; [|done]. bool_hyps.
  cbn [from_option id] in *. unfold u256_FromBig. replace (price <? 2 ^ 256) with true by (symmetry; apply Z.ltb_lt; lia).
  destruct (maximumFeeCost (Rcpt_GasUsed receipt) price 0) as [cost|e] eqn:Ec; [|apply HE; sfx].
  assert (Hmid : forall s1 extra cost1 tr1, s_incident s1 = s_incident s -> tr `suffix_of` tr1 ->
    (if Fee_EstimatedBaseFees (Co_feePolicy co) then Exists (showsBaseFee receipt extra) tr1 else extra = 0) ->
    (0 <= Rcpt_GasUsed receipt -> 0 <= cost1 /\ cost1 = Rcpt_GasUsed receipt * price + extra) ->
    WP (if Rcpt_Status receipt =? 1 then let* value := lift (operationValue (s_incident s)) in lift (addCost cost1 value) else mret cost1) s1 Q tr1).
  { intros s1 extra cost1 tr1 Hi Hs Hextra Hcost. destruct (Rcpt_Status receipt =? 1) eqn:Est.
    - wbind. destruct (operationValue (s_incident s)) as [value|e] eqn:Eo; [|apply HE; sfx].
      change (WP (lift (addCost cost1 value)) s1 Q tr1). destruct (addCost cost1 value) as [total|e] eqn:Ea; [|apply HE; sfx].
      apply HQ; [inc|sfx|done|]. exists price, extra, value.
      split; [done|]. split; [done|]. rewrite Est. split; [done|]. intros Hg Hval. destruct (Hcost Hg) as [Hc0 Hc].
      apply addCost_exact in Ea; [lia|done..].
    - apply HQ; [inc|sfx|done|]. exists price, extra, 0. split; [done|]. split; [done|]. rewrite Est. split; [done|].
      intros Hg _. destruct (Hcost Hg). lia. }
  wbind. destruct (Fee_EstimatedBaseFees (Co_feePolicy co)) eqn:Ef.
  - wbind. apply WP_receiptAdditionalFee; [intros extra tr1 Hs1 He1 Hx|intros; apply HE; sfx].
    destruct (addCost cost extra) as [cost1|e] eqn:Ea; [|apply HE; sfx].
    eapply Hmid; [done|sfx|done|]. intros Hg.
    apply maximumFeeCost_exact in Ec; [|lia..]. apply addCost_exact in Ea; [nia|nia|done].
  - eapply (Hmid _ 0); [done|sfx|done|]. intros Hg. apply maximumFeeCost_exact in Ec; [nia|lia..].
Qed.

Lemma canonical_suffix tr tr' i receipt b : tr `suffix_of` tr' -> canonical tr i receipt b -> canonical tr' i receipt b.
Proof.
  intros Hs (H1 & H2 & H3 & H4 & H5). split; [by eapply Exists_suffix|]. split; [done|]. split; [done|].
  split; [by eapply Exists_suffix|]. intros Hl. eapply Exists_suffix; [exact Hs|auto].
Qed.

Lemma settled_suffix tr tr' i receipt b : tr `suffix_of` tr' -> settled tr i receipt b -> settled tr' i receipt b.
Proof.
  intros Hs (H1 & H2 & H3 & H4). split; [by eapply stored_suffix|]. split; [by eapply received_suffix|]. split; [done|].
  by eapply canonical_suffix.
Qed.

Lemma costs_suffix tr tr' i receipt cost : tr `suffix_of` tr' -> costs tr i receipt cost -> costs tr' i receipt cost.
Proof.
  intros Hs (price & extra & value & H1 & H2 & H3 & H4). exists price, extra, value. split; [done|]. split; [|done].
  revert H2. destruct (Fee_EstimatedBaseFees _); [|done]. by apply Exists_suffix.
Qed.

(** The reservation a charge is taken from: the attempt's, exposed if it was only held. *)
Lemma WP_exposedReservation res hash s (Q : SessionState -> result GoError Reservation -> trace -> Prop) tr :
  (forall s' res' tr', s_incident s' = s_incident s -> tr `suffix_of` tr' ->
     (res' = res \/ Exists (showsExposed (Res_ID res) hash (Res_ID res')) tr') -> Q s' (Ok res') tr') ->
  (forall s' e tr', tr `suffix_of` tr' -> Q s' (Err e) tr') ->
  WP (if bool_decide (Res_State res = ReservationHeld) then
        let* r := call (Ledger_MarkExposed (Res_ID res) hash) in
        match r with Err e => fail (budgetError "rescue.budget_receipt_expose" (OfLedger e)) | Ok r => mret r end
      else mret res) s Q tr.
Proof.
  intros HQ HE. destruct (bool_decide _); [|apply HQ; [done|sfx|by left]].
  wbind. wcall r. destruct r as [res'|e]; [|apply HE; sfx]. apply HQ; [done|sfx|]. right. left. cbn. eauto.
Qed.

Lemma WP_commitReceiptCost receipt b s Q tr :
  settled tr (s_incident s) receipt b ->
  (forall s' tr', s_incident s' = s_incident s -> tr `suffix_of` tr' -> Exists (showsCommit (R_TxHash (s_incident s))) tr' -> Q s' (Ok tt) tr') ->
  (forall s' e tr', tr `suffix_of` tr' -> Q s' (Err e) tr') -> WP (commitReceiptCost receipt b) s Q tr.
Proof.
  intros Hset HQ HE. unfold commitReceiptCost. wget. destruct (_ && _); [apply HE; sfx|].
  wbind. apply WP_lift; [intros tx Etx|intros; apply HE; sfx].
  wbind. apply WP_executionCostOf; [apply Hset|intros s1 cost tr1 Hi1 Hs1 Hgas Hcost|intros; apply HE; sfx].
  wbind. apply WP_ensureReservation; [intros s2 res tr2 Hi2 Hs2 _ Hres|intros; apply HE; sfx].
  wbind. apply WP_exposedReservation; [intros s3 res' tr3 Hi3 Hs3 Hexp|intros; apply HE; sfx].
  wbind. apply WP_keeps_ok; [solve_keeps|intros s4 observed tr4 Hi4 Hs4|intros; apply HE; sfx].
  wbind. apply WP_call.
  { exists (s_incident s), receipt, b, tx. split; [by eapply settled_suffix; [|exact Hset]; sfx|]. split; [done|]. split; [done|].
    split; [done|]. split; [by eapply costs_suffix; [|exact Hcost]; sfx|]. exists (Res_ID res).
    split; [rewrite <- Hi1; eapply Exists_suffix; [|exact Hres]; sfx|].
    destruct Hexp as [->|Hexp]; [by left|right]. eapply Exists_suffix; [exact Hs4|exact Hexp]. }
  intros [res''|e]; [|apply HE; sfx].
  apply WP_keeps_ok; [solve_keeps|intros s5 [] tr5 Hi5 Hs5|intros; apply HE; sfx].
  apply HQ; [inc|sfx|]. eapply Exists_suffix; [exact Hs5|]. by left.
Qed.

Lemma WP_orelse {A B} (m : M A) (k : A -> M B) (h : GoError -> M B) s Q tr :
  WP m s (fun s' r tr' => match r with Ok a => WP (k a) s' Q tr' | Err e => WP (h e) s' Q tr' end) tr ->
  WP (let* r := try m in match r with Ok a => k a | Err e => h e end) s Q tr.
Proof. intros H. wbind. apply WP_try. eapply WP_mono; [exact H|]. by intros s' [a|e] tr'. Qed.

Lemma WP_checkDelegation receipt b s Q tr :
  (forall s' tr', s_incident s' = s_incident s -> tr `suffix_of` tr' -> Exists (showsCode b (Co_source co) (Co_rescuer co)) tr' -> Q s' (Ok tt) tr') ->
  (forall s' e tr', tr `suffix_of` tr' -> Q s' (Err e) tr') -> WP (checkDelegation receipt b) s Q tr.
Proof.
  intros HQ HE. unfold checkDelegation.
  assert (Hpost : forall s1 e tr1, tr `suffix_of` tr1 -> WP (postconditionAmbiguous e) s1 Q tr1)
    by (intros; apply WP_fails; [apply fails_postconditionAmbiguous|]; intros; apply HE; sfx).
  wbind. wcall r. destruct r as [code|e].
  2:{ wbind. wkeep s1 r1 tr1. destruct r1 as [[]|e1]; [|apply HE; sfx]. wbind. wkeep s2 r2 tr2. destruct r2; [|apply HE; sfx]. apply Hpost. sfx. }
  destruct (bool_decide (ParseDelegation code = Some (Co_rescuer co))) eqn:Ed; cbn [negb]; bool_hyps.
  - wbind. wkeep s1 r1 tr1. destruct r1 as [[]|e1]; [|apply HE; sfx]. wbind. wkeep s2 r2 tr2. destruct r2 as [[e|]|e2]; [apply Hpost; sfx| |apply HE; sfx].
    apply HQ; [inc|sfx|]. apply (Exists_suffix _ (Event (Finality_CodeAt b (Co_source co)) (Ok code) :: tr)); [sfx|].
    left. cbn. eauto.
  - wbind. wkeep s1 r1 tr1. destruct r1 as [[]|e1]; [|apply HE; sfx]. wbind. wkeep s2 r2 tr2. destruct r2 as [[e|]|e2]; [apply Hpost; sfx| |apply HE; sfx].
    apply WP_orelse. wkeep s3 r3 tr3. destruct r3 as [[]|e3]; [|apply Hpost; sfx].
    wbind. apply WP_quiet; [by apply quiet_setTerminal|]. intros s4 [[]|e4] tr4 Hs4; apply HE; sfx.
Qed.

Lemma WP_tokenBalanceAt i b account s Q tr :
  isTokenOperation (R_Kind i) = true ->
  (forall s' z tr', s_incident s' = s_incident s -> tr `suffix_of` tr' -> Exists (showsBalance i b account z) tr' -> Q s' (Ok z) tr') ->
  (forall s' e tr', tr `suffix_of` tr' -> Q s' (Err e) tr') -> WP (tokenBalanceAt b (R_Asset i) account) s Q tr.
Proof.
  intros Hk HQ HE. unfold tokenBalanceAt. destruct (PackBalanceOf account) as [data|] eqn:Ep; [|apply HE; sfx].
  wbind. wcall r. destruct r as [out|e]; [|apply WP_fails; [apply fails_failContext|]; intros; apply HE; sfx].
  destruct (DecodeBalanceOf out) as [z|e] eqn:Ed; cbn [fromSentinel]; [|apply HE; sfx].
  destruct (amountBytes (Some z)); [|apply HE; sfx]. apply HQ; [done|sfx|]. left. cbn. split; [done|]. split; [done|]. eauto 10.
Qed.

Lemma WP_nativeBalanceAt i b account s Q tr :
  isTokenOperation (R_Kind i) = false ->
  (forall s' z tr', s_incident s' = s_incident s -> tr `suffix_of` tr' -> Exists (showsBalance i b account z) tr' -> Q s' (Ok z) tr') ->
  (forall s' e tr', tr `suffix_of` tr' -> Q s' (Err e) tr') -> WP (nativeBalanceAt b account) s Q tr.
Proof.
  intros Hk HQ HE. unfold nativeBalanceAt. wbind. wcall r.
  destruct r as [[z|]|e]; [| |apply WP_fails; [apply fails_failContext|]; intros; apply HE; sfx].
  - destruct (amountBytes (Some z)); [|apply HE; sfx]. apply HQ; [done|sfx|]. left. cbn. auto.
  - apply HE. sfx.
Qed.

Lemma WP_assetBalances b s Q tr :
  (forall s' source destination tr', s_incident s' = s_incident s -> tr `suffix_of` tr' ->
     Exists (showsBalance (s_incident s) b (Co_source co) source) tr' -> Exists (showsBalance (s_incident s) b (Co_destination co) destination) tr' ->
     Q s' (Ok (source, destination)) tr') ->
  (forall s' e tr', tr `suffix_of` tr' -> Q s' (Err e) tr') -> WP (assetBalances b) s Q tr.
Proof.
  intros HQ HE. unfold assetBalances. wget. destruct (isTokenOperation (R_Kind (s_incident s))) eqn:Ek.
  - wbind. apply WP_tokenBalanceAt; [done|intros s1 z1 tr1 Hi1 Hs1 H1|intros; apply HE; sfx].
    wbind. apply WP_tokenBalanceAt; [done|intros s2 z2 tr2 Hi2 Hs2 H2|intros; apply HE; sfx].
    apply HQ; [inc|sfx|by eapply Exists_suffix|done].
  - wbind. apply (WP_nativeBalanceAt (s_incident s)); [done|intros s1 z1 tr1 Hi1 Hs1 H1|intros; apply HE; sfx].
    wbind. apply (WP_nativeBalanceAt (s_incident s)); [done|intros s2 z2 tr2 Hi2 Hs2 H2|intros; apply HE; sfx].
    apply HQ; [inc|sfx|by eapply Exists_suffix|done].
Qed.

Lemma proven_suffix tr tr' i : tr `suffix_of` tr' -> proven tr i -> proven tr' i.
Proof.
  intros Hs (receipt & b & before & required & after & H1 & H2 & H3 & H4 & H5 & H6 & H7 & H8).
  exists receipt, b, before, required, after. split; [by eapply received_suffix|]. split; [done|]. split; [by eapply canonical_suffix|].
  repeat (split; [by eapply Exists_suffix|]). done.
Qed.

Lemma proven_updated tr t i : proven tr i -> proven tr (updated t i).
Proof. unfold updated. by case_match. Qed.

Lemma WP_setIncident f s (Q : SessionState -> result GoError unit -> trace -> Prop) tr :
  Q (set_incident s (f (s_incident s))) (Ok tt) tr -> WP (setIncident f) s Q tr.
Proof. done. Qed.

Lemma WP_updateIncidentAt t s Q tr :
  (successStatus (R_Status (s_incident s)) = true -> proven tr (s_incident s)) ->
  (forall s' tr', s_incident s' = updated t (s_incident s) -> tr' = Event (State_UpdateRescueIncident (s_incident s')) (Ok tt) :: tr -> Q s' (Ok tt) tr') ->
  (forall s' e tr', tr `suffix_of` tr' -> Q s' (Err e) tr') -> WP (updateIncidentAt t) s Q tr.
Proof.
  intros Hp HQ HE. unfold updateIncidentAt. wbind. apply WP_setIncident. wbind. apply WP_setIncident. wget. wbind.
  match goal with |- WP _ ?s' _ _ => change (s_incident s') with (updated t (s_incident s)); set (s1 := s') end.
  apply WP_call; [intros Hs; rewrite updated_status in Hs; by apply proven_updated, Hp|]. intros [[]|e]; [by apply HQ|apply HE; sfx].
Qed.

(** The only update that records a success. *)
Lemma WP_setSuccess status s Q tr :
  proven tr (s_incident s) -> (forall s' r tr', tr `suffix_of` tr' -> Q s' r tr') -> WP (setTerminal status []) s Q tr.
Proof.
  intros Hp HQ. unfold setTerminal. wbind. wkeep s1 r1 tr1. destruct r1 as [previous|e]; [|apply HQ; sfx].
  wbind. apply WP_setIncident. wbind. wbind. wcall t. apply WP_updateIncidentAt.
  - intros _. eapply (proven_suffix tr); [sfx|]. cbn [s_incident set_incident]. rewrite H. exact Hp.
  - intros s2 tr2 Hi2 ->. match goal with |- WP ?m ?s' ?Q' ?tr' => apply (WP_keeps_ok m); [solve_keeps| |] end; intros; apply HQ; sfx.
  - intros. apply HQ. sfx.
Qed.
End Safety.
End RescueSafety.
Export RescueSafety.
