(* ===== verification/RescueOutcomes.v ===== *)
(** * Outcomes, submission and resumption keep to the allowed calls

    The upper half of the call graph of one incident: applying a receipt, waiting
    for one, the first and the repeated broadcast, reconciliation, signing and
    resumption.  What these functions owe their callers is only that the trace
    grows; what they need is that the incident's signed operation is durable. *)

From S2P Require Import Prelude Programs GoTime Bytes Sha256 Domain Bolt BudgetModel BudgetLedger StoreModel StoreLease StoreRescue RescueFees Admission RpcQuorum RescueErrors Contracts RescueEffects RescueSession RescueOperations RescueFlow RescueCoordinator RescueLogic RescueGuards RescueSafety.

Module RescueOutcomes.

(** What an event showed, it still shows in a longer trace. *)
Ltac past := match goal with H : Exists ?P ?t |- Exists ?P _ => apply (Exists_suffix P t); [sfx|exact H] end.

Section Outcomes.
Context {G : GethTx} {AB : Abi} {SE : Session}.
Local Abbreviation co := coordinator.

(** [m] makes only allowed calls from here, and the trace grows. *)
Definition safe {A} (m : M A) (s : SessionState) (tr : trace) : Prop := WP m s (fun _ _ tr' => tr `suffix_of` tr') tr.

Lemma safe_WP {A} (m : M A) s Q tr : safe m s tr -> (forall s' r tr', tr `suffix_of` tr' -> Q s' r tr') -> WP m s Q tr.
Proof. intros H HQ. eapply WP_mono; [exact H|]. intros. by apply HQ. Qed.

Lemma WP_safe {A} (m : M A) s tr : (forall Q : SessionState -> result GoError A -> trace -> Prop, (forall s' r tr', tr `suffix_of` tr' -> Q s' r tr') -> WP m s Q tr) -> safe m s tr.
Proof. intros H. by apply H. Qed.

Lemma safe_quiet {A} (m : M A) s tr : quiet m -> safe m s tr.
Proof. intros H. by apply WP_quiet. Qed.

Lemma safe_fails {A} (m : M A) s tr : fails m -> safe m s tr.
Proof. intros H. by apply WP_fails. Qed.

Lemma safe_suffix {A} (m : M A) s tr tr0 : tr0 `suffix_of` tr -> safe m s tr -> WP m s (fun _ _ tr' => tr0 `suffix_of` tr') tr.
Proof. intros Hs H. eapply WP_mono; [exact H|]. intros. by etrans. Qed.

(** A step, then a function that is safe wherever the step leads. *)
Lemma safe_mbind {A B} (m : M A) (f : A -> M B) s tr :
  WP m s (fun s' r tr' => tr `suffix_of` tr' /\ forall a, r = Ok a -> safe (f a) s' tr') tr -> safe (mbind m f) s tr.
Proof.
  intros H. apply WP_mbind. eapply WP_mono; [exact H|]. intros s' [a|e] tr' [Hs Hf]; [|done]. by apply safe_suffix; [|apply Hf].
Qed.

Lemma safe_try {A B} (m : M A) (f : result GoError A -> M B) s tr :
  WP m s (fun s' r tr' => tr `suffix_of` tr' /\ safe (f r) s' tr') tr -> safe (let* r := try m in f r) s tr.
Proof.
  intros H. apply WP_mbind, WP_try. eapply WP_mono; [exact H|]. intros s' r tr' [Hs Hf]. by apply safe_suffix.
Qed.

Lemma safe_call {A} c (f : answer c -> M A) s tr :
  allowed tr c -> (forall x, safe (f x) s (Event c x :: tr)) -> safe (let* x := call c in f x) s tr.
Proof. intros Ha Hf. apply safe_mbind, WP_call; [done|]. intros x. split; [sfx|]. by intros ? [= <-]. Qed.

Lemma safe_keeps {A B} (m : M A) (f : A -> M B) s tr :
  keeps m -> (forall s' a tr', s_incident s' = s_incident s -> tr `suffix_of` tr' -> safe (f a) s' tr') -> safe (mbind m f) s tr.
Proof. intros Hm Hf. apply safe_mbind, WP_keeps; [done|]. intros s' r tr' Hi Hs _. split; [done|]. intros a ->. by apply Hf. Qed.

(** A quiet step, then a safe function. *)
Lemma safe_after {A B} (m : M A) (f : A -> M B) s tr :
  quiet m -> (forall s' a tr', tr `suffix_of` tr' -> safe (f a) s' tr') -> safe (mbind m f) s tr.
Proof. intros Hm Hf. apply safe_mbind, WP_quiet; [done|]. intros s' r tr' Hs. split; [done|]. intros a ->. by apply Hf. Qed.

Lemma safe_get {A} (f : RescueIncident -> M A) s tr : safe (f (s_incident s)) s tr -> safe (let* i := getIncident in f i) s tr.
Proof. intros H. apply WP_mbind, WP_getIncident, H. Qed.

(** [r orelse h]: the handler only fails. *)
Lemma safe_orelse {A B} (m : M A) (k : A -> M B) (h : GoError -> M B) s tr :
  (forall e, fails (h e)) ->
  WP m s (fun s' r tr' => tr `suffix_of` tr' /\ forall a, r = Ok a -> safe (k a) s' tr') tr ->
  safe (let* r := try m in match r with Ok a => k a | Err e => h e end) s tr.
Proof.
  intros Hh H. apply safe_try. eapply WP_mono; [exact H|]. intros s' [a|e] tr' [Hs Hk]; (split; [done|]); [by apply Hk|by apply safe_fails].
Qed.

(** ** Receipts *)

Lemma stored_eq tr i j : i = j -> stored tr i -> stored tr j.
Proof. by intros ->. Qed.

(** A successful receipt whose charge is committed and whose block delegates to the rescuer. *)
Definition concludable (tr : trace) (i : RescueIncident) (receipt : Receipt) (b : BlockRef) : Prop :=
  received tr (R_TxHash i) receipt /\ (0 <= Rcpt_Status receipt -> Rcpt_Status receipt = 1) /\ canonical tr i receipt b /\ Exists (showsCommit (R_TxHash i)) tr /\
  Exists (showsCode b (Co_source co) (Co_rescuer co)) tr.

Lemma safe_concludeReceipt receipt b s tr : concludable tr (s_incident s) receipt b -> safe (concludeReceipt receipt b) s tr.
Proof.
  intros (Hr & Hst & Hc & Hcom & Hcode). unfold concludeReceipt.
  apply safe_orelse; [intros; apply fails_postconditionAmbiguous|].
  apply WP_assetBalances; [intros s1 source destination tr1 Hi1 Hs1 Hsrc Hdst|intros; split; [sfx|done]].
  split; [done|]. intros ? [= <-].
  apply safe_orelse; [intros; apply fails_postconditionAmbiguous|].
  apply WP_keeps_ok; [solve_keeps|intros s2 [] tr2 Hi2 Hs2|intros; split; [sfx|done]]. split; [done|]. intros ? _.
  apply safe_get. apply safe_orelse; [intros; apply fails_postconditionAmbiguous|].
  apply WP_lift; [intros required Ereq|intros; split; [sfx|done]]. split; [sfx|]. intros ? [= <-].
  assert (Hall : tr `suffix_of` tr2) by sfx.
  destruct (negb (source =? 0) || _) eqn:E.
  { apply safe_after; [by apply quiet_setTerminal|]. intros. apply safe_fails, fails_fail. }
  bool_hyps. subst source. apply safe_mbind, WP_setSuccess.
  - replace (s_incident s2) with (s_incident s) in * by congruence. exists receipt, b, (be_value (R_DestinationBefore (s_incident s))), required, destination.
    split; [by eapply received_suffix|]. split; [done|]. split; [by eapply canonical_suffix|].
    repeat (split; [past|]). split; [done|]. split; [done|]. lia.
  - intros s3 r tr3 Hs3. split; [done|]. intros. apply safe_quiet, quiet_keeps. solve_keeps.
Qed.

Lemma WP_snapshotCheck receipt (latest : bool) s Q tr :
  (forall s' orphaned tr', s_incident s' = s_incident s -> tr `suffix_of` tr' -> Q s' (Ok orphaned) tr') ->
  (forall s' e tr', tr `suffix_of` tr' -> Q s' (Err e) tr') -> WP (if latest then snapshotOrphaned receipt else mret false) s Q tr.
Proof.
  intros HQ HE. destruct latest; [|by apply HQ]. unfold snapshotOrphaned. wget. destruct (_ <=? _); [by apply HQ|].
  wbind. wcall r. destruct r as [header|e]; [apply HQ; [done|sfx]|].
  apply WP_fails; [apply fails_postconditionAmbiguous|]. intros. apply HE. sfx.
Qed.

Lemma safe_applyReceipt receipt s tr :
  stored tr (s_incident s) -> received tr (R_TxHash (s_incident s)) receipt -> safe (applyReceipt (Some receipt)) s tr.
Proof.
  intros Hst Hr. unfold applyReceipt. apply safe_get.
  destruct (negb (validRescueReceipt (s_incident s) receipt)) eqn:Ev; [apply safe_fails, fails_postconditionAmbiguous|]. bool_hyps.
  apply safe_orelse; [intros; apply fails_postconditionAmbiguous|].
  apply WP_canonicalProofStart; [intros s1 b tr1 Hi1 Hs1 Hc|intros; split; [sfx|done]]. split; [done|]. intros ? [= <-].
  apply safe_orelse; [intros; apply fails_postconditionAmbiguous|].
  apply WP_keeps_ok; [solve_keeps|intros s2 [] tr2 Hi2 Hs2|intros; split; [sfx|done]]. split; [done|]. intros ? _.
  apply safe_keeps; [solve_keeps|]. intros s3 [] tr3 Hi3 Hs3.
  assert (Hi : s_incident s3 = s_incident s) by inc.
  assert (Hset : settled tr3 (s_incident s3) receipt b).
  { rewrite Hi. split; [eapply stored_suffix; [|exact Hst]; sfx|]. split; [eapply received_suffix; [|exact Hr]; sfx|]. split; [done|].
    eapply canonical_suffix; [|exact Hc]. sfx. }
  apply safe_orelse; [intros; apply fails_postconditionAmbiguous|].
  apply (WP_commitReceiptCost _ _ _ _ _ Hset); [intros s4 tr4 Hi4 Hs4 Hcom|intros; split; [sfx|done]]. split; [done|]. intros ? _.
  destruct (Rcpt_Status receipt =? 0) eqn:E0.
  { apply safe_after; [by apply quiet_setTerminal|]. intros. apply safe_fails, fails_fail. }
  apply safe_mbind. eapply (WP_snapshotCheck receipt); [|intros; split; [sfx|done]]. intros s5 orphaned tr5 Hi5 Hs5. split; [done|]. intros ? [= <-].
  destruct orphaned; [apply safe_after; [by apply quiet_setTerminal|]; intros; apply safe_fails, fails_fail|].
  apply safe_mbind, WP_checkDelegation; [intros s6 tr6 Hi6 Hs6 Hcode|intros; split; [sfx|done]]. split; [done|]. intros ? _.
  apply safe_concludeReceipt. replace (s_incident s6) with (s_incident s) by inc. rewrite Hi in Hcom.
  split; [eapply received_suffix; [|exact Hr]; sfx|]. split; [unfold validRescueReceipt in Ev; bool_hyps; lia|].
  split; [eapply canonical_suffix; [|exact Hc]; sfx|]. split; [past|done].
Qed.

(** ** The send and what follows *)

Lemma safe_awaitOutcome failure s tr : stored tr (s_incident s) -> safe (awaitOutcome failure) s tr.
Proof.
  intros Hst. unfold awaitOutcome. apply safe_get, safe_try, WP_waitReceipt.
  - intros s1 receipt tr1 Hi1 Hs1 Hr. split; [done|]. apply safe_applyReceipt; rewrite Hi1; [by eapply stored_suffix|done].
  - intros s1 e tr1 Hs1. split; [done|]. destruct failure as [f|]; [apply safe_fails, fails_fail|].
    apply safe_after; [apply settles_quiet, settles_persistAmbiguous|]. intros. apply safe_fails, fails_fail.
Qed.

(** Functions that leave the incident alone, whatever they call. *)
Definition stays {A} (m : M A) : Prop := forall s, sat (fun _ => True) (fun sr => s_incident sr.1 = s_incident s) (m s).

Lemma stays_keeps {A} (m : M A) : keeps m -> stays m.
Proof. intros H s. eapply sat_weaken; [|apply H]. done. Qed.

Lemma stays_call c : stays (call c).
Proof. done. Qed.

Lemma stays_mbind {A B} (m : M A) (f : A -> M B) : stays m -> (forall a, stays (f a)) -> stays (mbind m f).
Proof.
  intros Hm Hf s. apply sat_mbind. eapply sat_mono; [apply Hm|]. intros [s' [a|e]] Hs; cbn in *; [|done].
  eapply sat_mono; [apply Hf|]. intros sr Hr. congruence.
Qed.

Lemma stays_try {A} (m : M A) : stays m -> stays (try m).
Proof. intros Hm s. apply sat_try. eapply sat_mono; [apply Hm|]. done. Qed.

Lemma WP_stays {A} (m : M A) s Q tr :
  stays m -> WP m s (fun s' r tr' => s_incident s' = s_incident s -> Q s' r tr') tr -> WP m s Q tr.
Proof.
  intros Hm. specialize (Hm s). unfold WP. revert Hm. generalize (m s) as p. intros p. revert tr.
  induction p as [[s' r]|c k IH| |]; cbn; intros tr Hm H; auto. destruct H as [Ha H]. split; [done|].
  intros x tr' Htr. apply IH; [apply Hm|]. by apply H.
Qed.

Ltac stays_step :=
  match goal with
  | |- @stays _ (call ?c) => apply (stays_call c)
  | |- stays _ => solve [apply stays_keeps; solve_keeps]
  | |- stays (mbind _ _) => apply stays_mbind; [|intros ?]
  | |- stays (try _) => apply stays_try
  | |- stays (match ?x with _ => _ end) => destruct x
  end.

Lemma stays_sendPersisted tx : stays (sendPersisted tx).
Proof.
  unfold sendPersisted, sendAction, gateDo, guardSigning, validateProcessFence, validateLease, markLeaseLost, checkSignerAddresses,
    recheckSponsorReserve. repeat stays_step.
Qed.

Lemma settles_afterSend o e : settles (afterSend o e).
Proof.
  destruct e as [e|]; cbn [afterSend].
  - apply settles_mbind; [apply settles_keeps; solve_keeps|]. intros failure.
    apply settles_mbind; [apply settles_persistAmbiguousCode|]. intros _. apply settles_keeps. solve_keeps.
  - intros s. apply sat_mbind. cbn [setIncident modify sat fst snd]. apply sat_mbind. apply sat_updateIncident; [done|].
    intros s' at_ r Hs. cbn [fst snd]. assert (Ho : sameOp (s_incident s) (s_incident s')) by (rewrite Hs; eapply sameOp_trans; [|apply updated_sameOp]; done).
    destruct r as [[]|e]; [|done].
    match goal with |- sat _ _ (?m s') => apply (sat_keeps m); [solve_keeps|] end. intros s'' r'' Hs''. cbn. by rewrite Hs''.
Qed.

Lemma WP_settles {A} (m : M A) s Q tr :
  settles m -> (forall s' r tr', sameOp (s_incident s) (s_incident s') -> tr `suffix_of` tr' -> Q s' r tr') -> WP m s Q tr.
Proof. intros H HQ. eapply wp_sat; [apply H|]. intros [s' r] tr' Ho Hs _. by apply HQ. Qed.

(** The send, then the rest with the incident's operation as it was. *)
Lemma safe_sendPersisted {A} tx (f : bool * option GoError -> M A) s tr :
  sendable tr (s_incident s) tx -> (forall s' r tr', s_incident s' = s_incident s -> tr `suffix_of` tr' -> safe (f r) s' tr') ->
  safe (let* r := sendPersisted tx in f r) s tr.
Proof.
  intros Hsend Hf. apply safe_mbind, WP_stays; [apply stays_sendPersisted|]. apply WP_sendPersisted; [done|].
  intros s' r tr' Hs Hi. split; [done|]. intros a ->. by apply Hf.
Qed.

Lemma safe_settles {A B} (m : M A) (f : A -> M B) s tr :
  settles m -> (forall s' a tr', sameOp (s_incident s) (s_incident s') -> tr `suffix_of` tr' -> safe (f a) s' tr') -> safe (mbind m f) s tr.
Proof. intros Hm Hf. apply safe_mbind, WP_settles; [done|]. intros s' r tr' Ho Hs. split; [done|]. intros a ->. by apply Hf. Qed.

Lemma safe_broadcastAndWait tx s tr : sendable tr (s_incident s) tx -> safe (broadcastAndWait tx) s tr.
Proof.
  intros Hsend. unfold broadcastAndWait. apply safe_sendPersisted; [done|]. intros s1 [sent err] tr1 Hi1 Hs1.
  destruct (negb sent); [apply safe_quiet, quiet_keeps; solve_keeps|].
  apply safe_settles; [apply settles_afterSend|]. intros s2 failure tr2 Ho Hs2. apply safe_get.
  destruct (_ || _); [apply safe_quiet, quiet_keeps; solve_keeps|]. apply safe_awaitOutcome.
  eapply stored_sameOp; [exact Ho|]. rewrite Hi1. eapply stored_suffix; [|apply Hsend]. sfx.
Qed.

Lemma safe_rebroadcast tx s tr : sendable tr (s_incident s) tx -> safe (rebroadcast tx) s tr.
Proof.
  intros Hsend. unfold rebroadcast. apply safe_sendPersisted; [done|]. intros s1 [sent err] tr1 Hi1 Hs1.
  destruct (negb sent).
  - apply safe_get, safe_after; [|intros; apply safe_quiet, quiet_keeps; solve_keeps].
    destruct (isStatus _ _); cbn [when]; [|apply quiet_keeps; solve_keeps].
    destruct err; [apply settles_quiet, settles_persistAmbiguous|apply quiet_keeps; solve_keeps].
  - apply safe_settles; [apply settles_afterSend|]. intros s2 failure tr2 Ho Hs2. apply safe_awaitOutcome.
    eapply stored_sameOp; [exact Ho|]. rewrite Hi1. eapply stored_suffix; [|apply Hsend]. sfx.
Qed.

Lemma safe_reconcileUnfinalized tx s tr : sendable tr (s_incident s) tx -> safe (reconcileUnfinalized tx) s tr.
Proof.
  intros Hsend. unfold reconcileUnfinalized. apply safe_get. destruct (isStatus _ _); [apply safe_quiet, quiet_keeps; solve_keeps|].
  apply safe_keeps; [solve_keeps|]. intros s1 r tr1 Hi1 Hs1. destruct (minedFor _ _).
  - apply safe_quiet, quiet_assign_then; [done|]. apply quiet_keeps. solve_keeps.
  - apply safe_broadcastAndWait. rewrite Hi1. by eapply sendable_suffix.
Qed.

(** ** Reconciliation *)

(** What [validatePersistedTransaction] establishes of the durable bytes. *)
Lemma validatePersisted_facts i tx : validatePersistedTransaction i = Ok tx ->
  R_TxHash i = txn_Hash tx /\ txn_MarshalBinary tx = Some (R_SignedTransaction i) /\ Txn_Nonce tx = R_SponsorNonce i.
Proof.
  unfold validatePersistedTransaction. destruct (decodePersisted i) as [t|e] eqn:E; [|done]. intros H.
  assert (t = tx) as -> by (cbn in H; repeat (case_match; try done); congruence).
  unfold decodePersisted in E. destruct (_ || _); [done|]. destruct (txn_UnmarshalBinary _); [|done]. 
  destruct (txn_MarshalBinary t) as [enc|] eqn:Em; [|done]. destruct (_ || _) eqn:Eb; [done|]. injection E as ->.
  bool_hyps. unfold bytes_eqb in *. bool_hyps. subst. auto.
Qed.

Lemma WP_ensureDurableNonceFloor nonce s Q tr :
  (forall s' tr', s_incident s' = s_incident s -> tr `suffix_of` tr' -> floored tr' nonce -> Q s' (Ok tt) tr') ->
  (forall s' e tr', tr `suffix_of` tr' -> Q s' (Err e) tr') -> WP (ensureDurableNonceFloor nonce) s Q tr.
Proof.
  intros HQ HE. unfold ensureDurableNonceFloor. destruct (nonce =? _); [apply HE; sfx|]. wbind. wcall r. destruct r as [[]|e]; [|apply HE; sfx].
  apply WP_keeps_ok; [solve_keeps|intros s1 [] tr1 Hi1 Hs1|intros; apply HE; sfx].
  apply HQ; [done|sfx|]. eapply Exists_suffix; [exact Hs1|]. by left.
Qed.

Lemma settles_signedToAmbiguous b code :
  settles (when b (let* _ := setIncident (fun i => set_R_LastCode (withStatus i RescueAmbiguous) code) in updateIncident)).
Proof. destruct b; cbn [when]; [apply settles_assign; [done|done|by left]|apply settles_keeps, keeps_ret]. Qed.

(** A receipt for the incident's own hash, applied after the incident changed only around its operation. *)
Lemma safe_applyAfter receipt i s tr tr0 :
  stored tr0 i -> received tr0 (R_TxHash i) receipt -> sameOp i (s_incident s) -> tr0 `suffix_of` tr -> safe (applyReceipt (Some receipt)) s tr.
Proof.
  intros Hst Hr Ho Hs. apply safe_applyReceipt; [eapply stored_suffix; [exact Hs|by eapply stored_sameOp]|].
  destruct Ho as (_ & -> & _). by eapply received_suffix.
Qed.

Lemma safe_failsAfterAmbiguous {A} e s tr : safe (A := A) (let* _ := persistAmbiguous e in fail e) s tr.
Proof. apply safe_after; [apply settles_quiet, settles_persistAmbiguous|]. intros. apply safe_fails, fails_fail. Qed.

Lemma safe_reconcileOnce s tr : stored tr (s_incident s) -> safe reconcileOnce s tr.
Proof.
  intros Hst. unfold reconcileOnce. apply safe_get.
  destruct (validatePersistedTransaction (s_incident s)) as [tx|e] eqn:Etx; [|apply safe_failsAfterAmbiguous].
  apply validatePersisted_facts in Etx as (Hh & Hm & Hn).
  apply safe_call; [exact I|]. intros r.
  assert (Hrest : safe (let* t := now in
      if negb (Before t (R_ReconcileUntil (s_incident s))) then let* _ := persistExpiredAmbiguous in refreshNonceBlock
      else
        let* _ := ensureDurableNonceFloor (R_SponsorNonce (s_incident s)) in
        if Co_latestState co || Pol_LatestState (R_Policy (s_incident s)) then reconcileUnfinalized tx
        else if isStatus (s_incident s) RescueSigned || isStatus (s_incident s) RescueAmbiguous then rebroadcast tx
        else awaitOutcome None) s (Event (Finality_Receipt (R_TxHash (s_incident s))) r :: tr)).
  { apply safe_keeps; [solve_keeps|]. intros s1 t tr1 Hi1 Hs1. destruct (negb _).
    { apply safe_after; [apply settles_quiet, settles_persistExpiredAmbiguous|]. intros. apply safe_quiet, quiet_keeps. solve_keeps. }
    apply safe_mbind, WP_ensureDurableNonceFloor; [intros s2 tr2 Hi2 Hs2 Hf|intros; split; [sfx|done]]. split; [done|]. intros ? _.
    assert (Hsend : sendable tr2 (s_incident s2) tx).
    { replace (s_incident s2) with (s_incident s) by inc. split; [eapply stored_suffix; [|exact Hst]; sfx|]. by rewrite Hn. }
    destruct (_ || _); [by apply safe_reconcileUnfinalized|]. destruct (_ || _); [by apply safe_rebroadcast|].
    apply safe_awaitOutcome, Hsend. }
  destruct r as [[receipt|]|e]; [|exact Hrest..].
  apply safe_settles; [apply settles_signedToAmbiguous|]. intros s1 [] tr1 Ho Hs1.
  eapply (safe_applyAfter _ (s_incident s)); [| |done|exact Hs1]; [eapply stored_suffix; [|exact Hst]; sfx|by left].
Qed.

Lemma safe_reconcileExpiredIncident s tr : stored tr (s_incident s) -> safe reconcileExpiredIncident s tr.
Proof.
  intros Hst. unfold reconcileExpiredIncident. apply safe_get.
  destruct (validatePersistedTransaction (s_incident s)) as [tx|e]; [|apply safe_failsAfterAmbiguous].
  apply safe_call; [exact I|]. intros r. apply safe_call; [exact I|]. intros [c|]; [apply safe_fails, fails_failContext|].
  destruct r as [[receipt|]|e].
  - eapply (safe_applyAfter _ (s_incident s) _ _ (Event (Finality_Receipt _) _ :: tr)); [|by left|done|sfx].
    eapply stored_suffix; [|exact Hst]. sfx.
  - apply safe_after; [apply settles_quiet, settles_persistExpiredAmbiguous|]. intros. apply safe_quiet, quiet_keeps. solve_keeps.
  - apply safe_keeps; [solve_keeps|]. intros s1 failure tr1 _ _.
    apply safe_after; [apply settles_quiet, settles_persistExpiredAmbiguous|]. intros. apply safe_fails, fails_fail.
Qed.

End Outcomes.

End RescueOutcomes.
Export RescueOutcomes.
