(* ===== verification/RescueSigning.v ===== *)
(** * Signing and resumption keep to the allowed calls

    From the budget of an attempt to its first broadcast: both signatures are made
    inside the gate with everything checked and the cost reserved, and what is
    sent is the transaction just stored below the raised nonce floor. *)

From S2P Require Import Prelude Programs GoTime Bytes Sha256 Domain Bolt BudgetModel BudgetLedger StoreModel StoreLease StoreRescue RescueFees Admission RpcQuorum RescueErrors Contracts RescueEffects RescueSession RescueOperations RescueFlow RescueCoordinator RescueLogic RescueGuards RescueSafety RescueOutcomes.

Module RescueSigning.

Create HintDb quiet.

Section Signing.
Context {G : GethTx} {AB : Abi} {SE : Session}.
Local Abbreviation co := coordinator.

#[local] Hint Resolve fails_fail fails_failContext fails_beforeSignedFailure fails_releaseBeforeSigned fails_preparationFailure
  fails_restartPreparedAttempt fails_budgetBlocked fails_admissionBlocked fails_postconditionAmbiguous : quiet.

Lemma quiet_try {A} (m : M A) : quiet m -> quiet (try m).
Proof. intros Hm s. apply sat_try. eapply sat_mono; [apply Hm|]. done. Qed.

Lemma quiet_when b m : quiet m -> quiet (when b m).
Proof. intros Hm. destruct b; [done|]. apply quiet_keeps, keeps_ret. Qed.

(** Walk through a function that makes only neutral calls. *)
Ltac quiet_step :=
  match goal with
  | |- quiet _ => solve [apply quiet_keeps; solve_keeps]
  | |- quiet _ => solve [apply fails_quiet; auto with quiet]
  | |- quiet _ => solve [apply settles_quiet; auto using settles_persistAmbiguous, settles_persistExpiredAmbiguous]
  | |- quiet (setTerminal _ _) => apply quiet_setTerminal; reflexivity
  | |- quiet (let* _ := setIncident ?f in let* _ := updateIncident in _) => apply quiet_assign_then; [intros ?; reflexivity|]
  | |- quiet (let* _ := setIncident ?f in updateIncident) => apply quiet_assign; intros ?; reflexivity
  | |- quiet (mbind _ _) => apply quiet_mbind; [|intros ?]
  | |- quiet (try _) => apply quiet_try
  | |- quiet (when _ _) => apply quiet_when
  | |- quiet (let _ := _ in _) => cbv zeta
  | |- quiet (match ?x with _ => _ end) => destruct x
  end.
Ltac solve_quiet := repeat quiet_step.

Lemma quiet_recheckSponsorNonce snapshot : quiet (recheckSponsorNonce snapshot).
Proof. unfold recheckSponsorNonce. solve_quiet. Qed.
Lemma quiet_quoteOperation snapshot value : quiet (quoteOperation snapshot value).
Proof. unfold quoteOperation. solve_quiet. Qed.
Lemma quiet_budgetBlockFor snapshot : quiet (budgetBlockFor snapshot).
Proof. unfold budgetBlockFor. solve_quiet. Qed.
Lemma quiet_readBudget snapshot data gas : quiet (readBudget snapshot data gas).
Proof. unfold readBudget. apply quiet_mbind; [apply quiet_budgetBlockFor|]. intros block. solve_quiet. Qed.
Lemma quiet_reservationMaximumFor fees : quiet (reservationMaximumFor fees).
Proof. unfold reservationMaximumFor. solve_quiet. Qed.
Lemma quiet_simulateOperation snapshot b request id : quiet (simulateOperation snapshot b request id).
Proof. unfold simulateOperation. solve_quiet. Qed.
Lemma quiet_readPrestate attempt : quiet (readPrestate attempt).
Proof. unfold readPrestate. solve_quiet. Qed.

(** ** Reservation and signatures *)

Definition reservedSome (tr : trace) (id : ReservationID) : Prop := exists attempt, reserved_for tr attempt id.

Lemma reservedSome_suffix tr tr' id : tr `suffix_of` tr' -> reservedSome tr id -> reservedSome tr' id.
Proof. intros Hs [a H]. exists a. by eapply Exists_suffix. Qed.

Lemma WP_reserveAttempt block balance gas maximum fees s Q tr :
  (forall s' res tr', tr `suffix_of` tr' -> reservedSome tr' (Res_ID res) -> Q s' (Ok res) tr') ->
  (forall s' e tr', tr `suffix_of` tr' -> Q s' (Err e) tr') -> WP (reserveAttempt block balance gas maximum fees) s Q tr.
Proof.
  intros HQ HE. unfold reserveAttempt. wget.
  assert (Hfail : forall A (m : M A) (Q' : SessionState -> result GoError A -> trace -> Prop) s1 tr1, fails m ->
    (forall s' e tr', tr1 `suffix_of` tr' -> Q' s' (Err e) tr') -> WP m s1 Q' tr1) by (intros; by apply WP_fails).
  destruct (u256_FromBig balance); [|apply Hfail; [auto with quiet|intros; apply HE; sfx]].
  destruct (u256_FromBig (Quote_FeeCap fees)); [|apply Hfail; [auto with quiet|intros; apply HE; sfx]].
  wbind. wkeep s1 r1 tr1. destruct r1 as [observed|e]; [|apply HE; sfx].
  wbind. wcall r. destruct r as [res|e]; [|apply Hfail; [auto with quiet|intros; apply HE; sfx]].
  apply WP_orelse. wkeep s2 r2 tr2. destruct r2 as [[]|e]; [|apply Hfail; [auto with quiet|intros; apply HE; sfx]].
  apply HQ; [sfx|]. eexists. eapply Exists_suffix; [eassumption|]. left. cbn. eauto.
Qed.

(** The checks at the head of a paid action: the gate section is armed for the reservation. *)
Lemma armed_checked tr id : g_inGate (guards tr) = true -> armed (withCapacity (checked (guards tr)) id) id.
Proof. intros H. unfold armed. cbn. auto 10. Qed.

Lemma safe_authorize id s tr : reservedSome tr id -> safe (authorize id) s tr.
Proof.
  intros Hres. unfold authorize. apply safe_get, safe_orelse; [auto with quiet|].
  apply WP_keeps_ok; [solve_keeps|intros s1 nonce tr1 Hi1 Hs1|intros; split; [sfx|done]]. split; [done|]. intros ? [= <-].
  destruct (_ && _); [apply safe_fails; auto with quiet|].
  apply safe_try, WP_gateDo; [intros; split; [sfx|]; apply safe_quiet; solve_quiet|].
  wbind. apply WP_guardSigning; [intros tr2 Hs2 Hg2|intros; split; [sfx|]; apply safe_quiet; solve_quiet].
  wbind. wkeep s3 r3 tr3. destruct r3 as [[|]|e]; [split; [sfx|]; apply safe_quiet; solve_quiet| |split; [sfx|]; apply safe_quiet; solve_quiet].
  wbind. apply WP_recheckSponsorReserve; [intros s4 tr4 Hi4 Hs4 Hg4|intros; split; [sfx|]; apply safe_quiet; solve_quiet].
  wbind. apply WP_call.
  - split; [done|]. split; [done|]. destruct Hres as [attempt Hres]. exists attempt, id. split; [|eapply Exists_suffix; [|exact Hres]; sfx].
    rewrite Hg4, H1, Hg2. by apply armed_checked.
  - intros r. apply WP_lift; intros; (split; [sfx|]); apply safe_quiet; solve_quiet.
Qed.

Lemma validSigned_nonce signed unsigned : validSignedOperation (Some signed) unsigned = true -> Txn_Nonce signed = Txn_Nonce unsigned.
Proof. unfold validSignedOperation. intros H. bool_hyps. done. Qed.

Lemma WP_fail {A} e s (Q : SessionState -> result GoError A -> trace -> Prop) tr : Q s (Err e) tr -> WP (fail e) s Q tr.
Proof. done. Qed.

Lemma fails_paidAction {A} o e id : fails (A := A) (let* failure := paidActionError o e in releaseBeforeSigned id failure).
Proof. apply fails_after; [apply neutral_keeps; solve_keeps|]. auto with quiet. Qed.

Lemma WP_signTransaction id tx s Q tr :
  reservedSome tr id -> Txn_ChainID tx = Co_network co -> Txn_To tx = Some (Co_source co) ->
  (forall s' signed encoded tr', s_incident s' = s_incident s -> tr `suffix_of` tr' -> txn_MarshalBinary signed = Some encoded ->
     Txn_Nonce signed = Txn_Nonce tx -> Q s' (Ok (signed, encoded)) tr') ->
  (forall s' e tr', tr `suffix_of` tr' -> Q s' (Err e) tr') -> WP (signTransaction id tx) s Q tr.
Proof.
  intros Hres Hc Ht HQ HE. unfold signTransaction. wget. wbind. apply WP_try, WP_gateDo.
  { intros e. apply WP_fails; [apply fails_paidAction|]. intros. apply HE. sfx. }
  wbind. apply WP_guardSigning; [intros tr2 Hs2 Hg2|intros; apply WP_fails; [apply fails_paidAction|]; intros; apply HE; sfx].
  wbind. apply WP_recheckSponsorReserve; [intros s3 tr3 Hi3 Hs3 Hg3|intros; apply WP_fails; [apply fails_paidAction|]; intros; apply HE; sfx].
  wbind. wkeep s4 r4 tr4. destruct r4 as [[|]|e]; [apply WP_fail, WP_fails; [apply fails_paidAction|]; intros; apply HE; sfx| |
    apply WP_fails; [apply fails_paidAction|]; intros; apply HE; sfx].
  wbind. wkeep s5 r5 tr5. destruct r5 as [[|]|e]; [apply WP_fail, WP_fails; [apply fails_paidAction|]; intros; apply HE; sfx| |
    apply WP_fails; [apply fails_paidAction|]; intros; apply HE; sfx].
  wbind. apply WP_call.
  { split; [done|]. split; [done|]. split; [done|]. destruct Hres as [attempt Hres]. exists attempt, id.
    split; [|eapply Exists_suffix; [|exact Hres]; sfx]. replace (guards tr5) with (withCapacity (checked (guards (Event Gate_Enter true :: tr))) id) by congruence.
    by apply armed_checked. }
  intros r. apply WP_lift; [|intros; apply WP_fails; [apply fails_paidAction|]; intros; apply HE; sfx]. intros signed _.
  destruct signed as [signed|]; [|apply WP_fails; [auto with quiet|]; intros; apply HE; sfx].
  destruct (validSignedOperation (Some signed) tx) eqn:Ev; cbn [negb]; [|apply WP_fails; [auto with quiet|]; intros; apply HE; sfx].
  destruct (negb _); [apply WP_fails; [auto with quiet|]; intros; apply HE; sfx|].
  destruct (txn_MarshalBinary signed) as [encoded|] eqn:Em; [|apply WP_fails; [auto with quiet|]; intros; apply HE; sfx].
  apply HQ; [inc|sfx|done|by apply validSigned_nonce].
Qed.

Lemma safe_persistAndBroadcast id nonce signed encoded s tr :
  txn_MarshalBinary signed = Some encoded -> Txn_Nonce signed = R_SponsorNonce (s_incident s) ->
  safe (persistAndBroadcast id nonce signed encoded) s tr.
Proof.
  intros Hm Hn. unfold persistAndBroadcast. apply safe_orelse; [auto with quiet|].
  apply WP_guardSigning; [intros tr1 Hs1 _|intros; split; [sfx|done]]. split; [done|]. intros ? _.
  apply safe_keeps; [solve_keeps|]. intros s2 t tr2 Hi2 Hs2.
  apply safe_mbind, WP_setIncident. split; [sfx|]. intros ? _. set (s3 := set_incident _ _).
  apply safe_orelse; [intros e; apply fails_after; [apply neutral_keeps; solve_keeps|]; intros; apply fails_fail|].
  apply WP_updateIncidentAt; [done|intros s4 tr4 Hi4 ->|intros; split; [sfx|done]]. split; [sfx|]. intros ? _.
  apply safe_keeps; [solve_keeps|]. intros s5 [] tr5 Hi5 Hs5. apply safe_get. apply safe_call; [exact I|].
  intros [[]|e]; [|apply safe_fails, fails_fail]. apply safe_keeps; [solve_keeps|]. intros s6 [] tr6 Hi6 Hs6.
  apply safe_broadcastAndWait. replace (s_incident s6) with (updated t (s_incident s3)) by (rewrite Hi6, Hi5, Hi4; done).
  destruct (updated_sameOp t (s_incident s3)) as (E1 & E2 & E3).
  split; [|split; [by rewrite E2|split; [by rewrite E3|]]].
  - eapply (Exists_suffix _ (Event (State_UpdateRescueIncident (s_incident s4)) (Ok tt) :: tr2)); [sfx|]. left. rewrite Hi4.
    split; [reflexivity|]. split; [by rewrite updated_status|]. split; [|split]; reflexivity.
  - eapply Exists_suffix; [exact Hs6|]. left. cbn. split; [done|]. rewrite Hn, Hi5, Hi4. f_equal. unfold updated, s3. case_match; by rewrite <- Hi2.
Qed.

Lemma safe_signReserved snapshot block value data gas fees id s tr :
  reservedSome tr id -> safe (signReserved snapshot block value data gas fees id) s tr.
Proof.
  intros Hres. unfold signReserved. destruct (u256_FromBig _) as [tip|]; [|apply safe_fails; auto with quiet].
  destruct (u256_FromBig _) as [feeCap|]; [|apply safe_fails; auto with quiet].
  apply safe_mbind. eapply WP_mono; [by apply safe_authorize|]. intros s1 r1 tr1 Hs1. split; [done|]. intros authorization _.
  apply safe_after; [apply quiet_simulateOperation|]. intros s2 [] tr2 Hs2. apply safe_get.
  apply safe_mbind, WP_signTransaction; [eapply reservedSome_suffix; [|exact Hres]; sfx|done|done| |intros; split; [sfx|done]].
  intros s3 signed encoded tr3 Hi3 Hs3 Hm Hn. split; [done|]. intros ? [= <-].
  apply safe_persistAndBroadcast; [done|]. by rewrite Hn, Hi3.
Qed.

Lemma safe_signSubmitAndConfirm s tr : safe signSubmitAndConfirm s tr.
Proof.
  unfold signSubmitAndConfirm. apply safe_get, safe_keeps; [solve_keeps|]. intros s1 snapshot tr1 _ _.
  destruct (_ && _); [apply safe_fails; auto with quiet|]. apply safe_keeps; [solve_keeps|]. intros s2 [|] tr2 _ _; [apply safe_quiet; solve_quiet|].
  apply safe_keeps; [solve_keeps|]. intros s3 value tr3 _ _. apply safe_after; [apply quiet_recheckSponsorNonce|]. intros s4 [] tr4 _.
  apply safe_after; [apply quiet_quoteOperation|]. intros s5 [[data gas] fees] tr5 _.
  apply safe_after; [apply quiet_readBudget|]. intros s6 [block balance] tr6 _.
  apply safe_keeps; [solve_keeps|]. intros s7 [] tr7 _ _. apply safe_after; [apply quiet_reservationMaximumFor|]. intros s8 maximum tr8 _.
  apply safe_mbind, WP_reserveAttempt; [|intros; split; [sfx|done]]. intros s9 res tr9 Hs9 Hres. split; [done|]. intros ? [= <-].
  by apply safe_signReserved.
Qed.

(** ** Preparation and resumption *)

(** An update of an incident that is no success. *)
Lemma safe_updateIncident s tr : successStatus (R_Status (s_incident s)) = false -> safe updateIncident s tr.
Proof.
  intros Hn. unfold updateIncident. apply safe_keeps; [solve_keeps|]. intros s1 t tr1 Hi1 Hs1.
  apply WP_updateIncidentAt; [rewrite Hi1; congruence|intros; subst; sfx|intros; sfx].
Qed.

Lemma safe_closePrepared code s tr : successStatus (R_Status (s_incident s)) = false -> safe (closePrepared code) s tr.
Proof.
  intros Hn. unfold closePrepared. apply safe_mbind. eapply WP_mono; [by apply safe_updateIncident|]. intros s1 r tr1 Hs1.
  split; [done|]. intros. apply safe_quiet. solve_quiet.
Qed.

Lemma safe_prepareNonces attempt block source destination snapshot s tr :
  successStatus (R_Status (s_incident s)) = false -> safe (prepareNonces attempt block source destination snapshot) s tr.
Proof.
  intros Hn. unfold prepareNonces. apply safe_get, safe_orelse; [auto with quiet|].
  apply WP_keeps_ok; [solve_keeps|intros s1 sponsor tr1 Hi1 Hs1|intros; split; [sfx|done]]. split; [done|]. intros ? [= <-].
  apply safe_orelse; [auto with quiet|].
  apply WP_keeps_ok; [solve_keeps|intros s2 nonce tr2 Hi2 Hs2|intros; split; [sfx|done]]. split; [done|]. intros ? [= <-].
  apply safe_mbind, WP_setIncident. split; [sfx|]. intros ? _. apply safe_updateIncident. cbn [s_incident set_incident].
  change (successStatus (R_Status (s_incident s2)) = false). by rewrite Hi2, Hi1.
Qed.

Lemma safe_prepareAndSubmit s tr : safe prepareAndSubmit s tr.
Proof.
  unfold prepareAndSubmit. apply safe_keeps; [solve_keeps|]. intros s1 attempt tr1 _ _.
  apply safe_after; [apply quiet_readPrestate|]. intros s2 [[[block source] destination] snapshot] tr2 _.
  apply safe_keeps; [solve_keeps|]. intros s3 [] tr3 _ _.
  destruct (amountBytes (Some source)); [|apply safe_fails; auto with quiet]. destruct (amountBytes (Some destination)); [|apply safe_fails; auto with quiet].
  apply safe_mbind, WP_setIncident. split; [sfx|]. intros ? _. set (s4 := set_incident _ _).
  assert (Hn : successStatus (R_Status (s_incident s4)) = false) by reflexivity. apply safe_get.
  destruct (nothingToRescue _ _); [by apply safe_closePrepared|]. destruct (forbiddenToken _).
  { apply safe_mbind. eapply WP_mono; [by apply safe_closePrepared|]. intros s5 r tr5 Hs5. split; [done|]. intros. apply safe_fails, fails_fail. }
  apply safe_mbind. eapply WP_mono; [by apply safe_prepareNonces|]. intros s5 r tr5 Hs5. split; [done|]. intros ? _.
  apply safe_keeps; [solve_keeps|]. intros s6 [] tr6 _ _. apply safe_get. apply safe_keeps; [solve_keeps|]. intros s7 [] tr7 _ _.
  apply safe_keeps; [solve_keeps|]. intros s8 [] tr8 _ _. apply safe_signSubmitAndConfirm.
Qed.

(** An incident that waits for a receipt is durable. *)
Definition tracked (tr : trace) (i : RescueIncident) : Prop :=
  match R_Status i with RescueSigned | RescueBroadcast | RescueAmbiguous => stored tr i | _ => True end.

Lemma tracked_stored tr i : stored tr i -> tracked tr i.
Proof. intros H. unfold tracked. by case_match. Qed.

Lemma safe_resumeIncident s tr : tracked tr (s_incident s) -> safe resumeIncident s tr.
Proof.
  intros Ht. unfold resumeIncident. apply safe_get. apply safe_keeps; [solve_keeps|]. intros s1 [] tr1 Hi1 Hs1.
  apply safe_keeps; [solve_keeps|]. intros s2 blocked tr2 Hi2 Hs2. unfold tracked in Ht.
  assert (Hwait : stored tr (s_incident s) -> safe (let* early := (if isStatus (s_incident s) RescueAmbiguous && negb (IsZero (R_RetryAt (s_incident s)))
                     then let* t := now in mret (Before t (R_RetryAt (s_incident s))) else mret false) in
      if early then fail (retryPendingError true) else reconcileOnce) s2 tr2).
  { intros Hst. apply safe_keeps; [solve_keeps|]. intros s3 [|] tr3 Hi3 Hs3; [apply safe_fails, fails_fail|].
    apply safe_reconcileOnce. replace (s_incident s3) with (s_incident s) by inc. eapply stored_suffix; [|exact Hst]. sfx. }
  assert (Hopen : safe (if blocked && negb (Co_latestState co) then fail (retryPendingError true)
      else
        let* t := now in
        let early := negb (IsZero (R_RetryAt (s_incident s))) && Before t (R_RetryAt (s_incident s)) in
        if Pol_MaxAttempts (R_Policy (s_incident s)) <=? R_Attempts (s_incident s) then
          if early then fail (retryPendingError false) else setTerminal RescueExhausted (R_LastCode (s_incident s))
        else if early then fail (retryPendingError false)
        else prepareAndSubmit) s2 tr2).
  { destruct (blocked && _); [apply safe_fails, fails_fail|]. apply safe_keeps; [solve_keeps|]. intros s3 t tr3 _ _. cbv zeta.
    destruct (_ <=? _); [apply safe_quiet; solve_quiet|]. destruct (_ && Before t _); [apply safe_fails, fails_fail|]. apply safe_prepareAndSubmit. }
  destruct (R_Status (s_incident s)); auto; try solve [apply safe_quiet; solve_quiet].
  clear Hwait Hopen. destruct (_ && _); [apply safe_fails, fails_fail|]. destruct (nothingToRescue _ _); [apply safe_quiet; solve_quiet|].
  destruct (forbiddenToken _); [apply safe_quiet; solve_quiet|]. apply safe_signSubmitAndConfirm.
Qed.

End Signing.

End RescueSigning.
Export RescueSigning.
