(* ===== verification/RescueEntry.v ===== *)
(** * The entry points keep to the allowed calls

    [Handle], [NewSession], the passes of the reconciliation loop and the lease
    loop, and a session that serves any sequence of them: what is stored, reserved
    or received earlier in a session stays in its trace. *)

From S2P Require Import Prelude Programs GoTime Bytes Sha256 Domain Bolt BudgetModel BudgetLedger StoreModel StoreLease StoreRescue RescueFees Admission RpcQuorum RescueErrors Contracts RescueEffects RescueSession RescueOperations RescueFlow RescueCoordinator RescueLogic RescueGuards RescueSafety RescueOutcomes RescueSigning.

Module RescueEntry.

Section Entry.
Context {G : GethTx} {AB : Abi} {SE : Session}.
Local Abbreviation co := coordinator.

(** A safe step, then a function that is safe wherever it leads. *)
Lemma safe_then {A B} (m : M A) (f : A -> M B) s tr :
  safe m s tr -> (forall s' a tr', tr `suffix_of` tr' -> safe (f a) s' tr') -> safe (mbind m f) s tr.
Proof.
  intros Hm Hf. apply safe_mbind. eapply WP_mono; [exact Hm|]. intros s' r tr' Hs. split; [done|]. intros a ->. by apply Hf.
Qed.

Lemma safe_attempt {A B} (m : M A) (f : result GoError A -> M B) s tr :
  safe m s tr -> (forall s' r tr', tr `suffix_of` tr' -> safe (f r) s' tr') -> safe (let* r := try m in f r) s tr.
Proof. intros Hm Hf. apply safe_try. eapply WP_mono; [exact Hm|]. intros s' r tr' Hs. split; [done|]. by apply Hf. Qed.

Lemma safe_setIncident {A} f (k : M A) s tr :
  safe k (set_incident s (f (s_incident s))) tr -> safe (let* _ := setIncident f in k) s tr.
Proof. intros H. apply safe_mbind, WP_setIncident. split; [done|]. by intros ? _. Qed.

Lemma safe_of_keeps {A} (m : M A) s tr : keeps m -> safe m s tr.
Proof. intros H. by apply safe_quiet, quiet_keeps. Qed.

Lemma safe_when (b : bool) m s tr : (b = true -> safe m s tr) -> safe (when b m) s tr.
Proof. intros H. destruct b; [by apply H|apply safe_of_keeps, keeps_ret]. Qed.

(** ** Handling a candidate *)

(** A step whose results satisfy [R], then a function that is safe under [R]. *)
Lemma safe_mbind_ok {A B} (R : A -> trace -> Prop) (m : M A) (f : A -> M B) s tr :
  WP m s (fun s' r tr' => tr `suffix_of` tr' /\ forall a, r = Ok a -> R a tr') tr ->
  (forall s' a tr', tr `suffix_of` tr' -> R a tr' -> safe (f a) s' tr') -> safe (mbind m f) s tr.
Proof.
  intros Hm Hf. apply safe_mbind. eapply WP_mono; [exact Hm|]. intros s' r tr' [Hs HR]. split; [done|]. intros a ->. by apply Hf, HR.
Qed.

Lemma safe_handleAsset candidate kind asset s tr : safe (handleAsset candidate kind asset) s tr.
Proof.
  unfold handleAsset. apply safe_keeps; [solve_keeps|]. intros s1 t tr1 _ _. apply safe_call; [exact I|].
  intros [found|e]; [|apply safe_fails, fails_fail]. apply (safe_mbind_ok (fun j tr => stored tr j)).
  - destruct found as [j|]; [split; [sfx|]; intros ? [= <-]; left; cbn; eauto|].
    wbind. wcall r. destruct r as [j|e]; (split; [sfx|]); [|done]. intros ? [= <-]. left. cbn. eauto.
  - intros s2 j tr2 _ Hst. apply safe_setIncident. destruct (negb _); [apply safe_fails, fails_fail|].
    destruct (negb _); [apply safe_fails, fails_fail|]. by apply safe_resumeIncident, tracked_stored.
Qed.

Lemma keeps_recordAssetFailure candidate kind asset e : keeps (recordAssetFailure candidate kind asset e).
Proof. unfold recordAssetFailure. solve_keeps. Qed.

Lemma safe_handleAssets candidate assets first s tr : safe (handleAssets candidate assets first) s tr.
Proof.
  revert first s tr. induction assets as [|[kind asset] assets IH]; intros first s tr; cbn [handleAssets]; [apply safe_of_keeps; solve_keeps|].
  apply safe_attempt; [apply safe_handleAsset|]. intros s1 r tr1 _. apply safe_keeps; [apply keeps_recordAssetFailure|]. auto.
Qed.

Lemma safe_dispatch candidate s tr : safe (dispatch candidate) s tr.
Proof.
  unfold dispatch. destruct (Candidate_Kind candidate); try apply safe_handleAsset; try apply safe_handleAssets; try apply safe_fails, fails_fail.
  - destruct (negb _); [apply safe_fails, fails_fail|apply safe_handleAsset].
  - apply safe_keeps; [unfold checkFastMode; solve_keeps|]. intros. apply safe_handleAsset.
Qed.

Lemma safe_handleLocked candidate s tr : safe (handleLocked candidate) s tr.
Proof.
  unfold handleLocked. apply safe_keeps; [solve_keeps|]. intros s1 [] tr1 _ _. apply safe_call; [exact I|].
  intros [|]; [apply safe_of_keeps; solve_keeps|]. apply safe_keeps; [unfold onlyHistory; solve_keeps|]. intros s2 history tr2 _ _.
  destruct (_ || _); [apply safe_of_keeps; solve_keeps|]. apply safe_attempt; [apply safe_dispatch|]. intros s3 r tr3 _.
  destruct r; apply safe_of_keeps; solve_keeps.
Qed.

Lemma safe_Handle candidate s tr : safe (Handle candidate) s tr.
Proof.
  unfold Handle. destruct (_ || _); [apply safe_of_keeps; solve_keeps|]. apply safe_attempt; [apply safe_handleLocked|].
  intros. apply safe_of_keeps. solve_keeps.
Qed.

(** ** Starting a session *)

Lemma safe_validateProcessFence s tr : safe validateProcessFence s tr.
Proof. unfold validateProcessFence. apply safe_call; [exact I|]. intros [|]; [apply safe_of_keeps; solve_keeps|apply safe_fails, fails_fail]. Qed.

Lemma safe_validateLease s tr : safe validateLease s tr.
Proof. by apply WP_validateLease. Qed.

Lemma safe_reported {A} (m : M A) s tr : safe m s tr -> safe (reported m) s tr.
Proof. intros Hm. unfold reported. apply safe_attempt; [done|]. intros s1 [a|e] tr1 _; apply safe_of_keeps; solve_keeps. Qed.

Lemma safe_forEach {A} (l : list A) body s tr :
  (forall x s' tr', x ∈ l -> tr `suffix_of` tr' -> safe (body x) s' tr') -> safe (forEach l body) s tr.
Proof.
  revert s tr. induction l as [|x l IH]; intros s tr H; cbn [forEach]; [apply safe_of_keeps; solve_keeps|].
  apply safe_then; [apply H; [left|done]|]. intros s1 a tr1 Hs1. apply IH. intros y s2 tr2 Hy Hs2. apply H; [by right|by etrans].
Qed.

Lemma safe_allComplete {A} (l : list A) body s tr :
  (forall x s' tr', x ∈ l -> tr `suffix_of` tr' -> safe (body x) s' tr') -> safe (allComplete l body) s tr.
Proof.
  revert s tr. induction l as [|x l IH]; intros s tr H; cbn [allComplete]; [apply safe_of_keeps; solve_keeps|].
  apply safe_then; [apply H; [left|done]|]. intros s1 a tr1 Hs1. apply safe_then; [|intros; apply safe_of_keeps; solve_keeps].
  apply IH. intros y s2 tr2 Hy Hs2. apply H; [by right|by etrans].
Qed.

Lemma keeps_checkClaimIncident i : keeps (checkClaimIncident i).
Proof. unfold checkClaimIncident. solve_keeps. Qed.
#[local] Hint Resolve keeps_checkClaimIncident : keeps.

Lemma safe_recoverIncident i s tr : stored tr i -> safe (recoverIncident i) s tr.
Proof.
  intros Hst. unfold recoverIncident. apply safe_when. intros _. apply safe_setIncident, safe_attempt; [by apply safe_reconcileOnce|].
  intros s1 [[]|e] tr1 _; apply safe_of_keeps; solve_keeps.
Qed.

(** An incident of a list the store returned. *)
Lemma stored_listed tr n l i : i ∈ l -> stored (Event (State_RescueIncidents n) (Ok l) :: tr) i.
Proof. intros H. left. cbn. eauto 10. Qed.

Lemma safe_recoverPersisted s tr : safe recoverPersisted s tr.
Proof.
  unfold recoverPersisted. apply safe_call; [exact I|]. intros [floor|e]; [|apply safe_fails, fails_fail].
  apply safe_keeps; [solve_keeps|]. intros s1 [] tr1 _ _. apply safe_call; [exact I|]. intros [incidents|e]; [|apply safe_fails, fails_fail].
  apply safe_keeps; [apply keeps_forEach; intros; unfold recoverFloor; solve_keeps|]. intros s2 [] tr2 _ Hs2.
  apply safe_then; [|intros; apply safe_of_keeps; solve_keeps]. apply safe_forEach. intros i s3 tr3 Hi Hs3. apply safe_recoverIncident.
  apply (stored_suffix (Event (State_RescueIncidents (Co_network co)) (Ok incidents) :: tr1)); [by etrans|by apply stored_listed].
Qed.

Lemma safe_NewSession s tr : safe NewSession s tr.
Proof.
  unfold NewSession. destruct (_ && _); [apply safe_fails, fails_fail|].
  apply safe_then; [apply safe_reported, safe_validateProcessFence|]. intros s1 _ tr1 _.
  apply safe_then; [apply safe_reported, safe_validateLease|]. intros s2 _ tr2 _.
  apply safe_then; [apply safe_reported, safe_of_keeps; unfold verifyStartup; solve_keeps|]. intros s3 _ tr3 _.
  apply safe_then; [apply safe_reported, safe_recoverPersisted|]. intros. apply safe_of_keeps. solve_keeps.
Qed.

(** ** Reconciliation passes *)

Lemma keeps_recordReconciliation complete : keeps (recordReconciliation complete).
Proof. unfold recordReconciliation. solve_keeps. Qed.
#[local] Hint Resolve keeps_recordReconciliation : keeps.

Lemma safe_expireIncident t i s tr : stored tr i -> safe (expireIncident t i) s tr.
Proof.
  intros Hst. unfold expireIncident. apply safe_keeps; [solve_keeps|]. intros s1 [] tr1 _ Hs1.
  destruct (negb _); [apply safe_of_keeps; solve_keeps|]. destruct (_ || _); [apply safe_of_keeps; solve_keeps|].
  apply safe_setIncident, safe_attempt; [apply safe_reconcileExpiredIncident; by eapply stored_suffix|].
  intros s2 [[]|e] tr2 _; apply safe_of_keeps; solve_keeps.
Qed.

Lemma safe_reconcileExpired s tr : safe reconcileExpired s tr.
Proof.
  unfold reconcileExpired. apply safe_then; [apply safe_reported, safe_validateProcessFence|]. intros s1 _ tr1 _.
  apply safe_then; [apply safe_reported, safe_validateLease|]. intros s2 _ tr2 _. apply safe_call; [exact I|].
  intros [incidents|e]; [|apply safe_reported, safe_fails, fails_fail]. apply safe_keeps; [solve_keeps|]. intros s3 t tr3 _ Hs3.
  apply safe_then; [|intros; apply safe_of_keeps; solve_keeps]. apply safe_allComplete. intros i s4 tr4 Hi Hs4. apply safe_expireIncident.
  apply (stored_suffix (Event (State_RescueIncidents (Co_network co)) (Ok incidents) :: tr2)); [by etrans|by apply stored_listed].
Qed.

(** The incident as the store has it now: durable, and still the transaction that was read. *)
Lemma safe_currentIncident {A} original (f : option RescueIncident -> M A) s tr :
  (forall s' i tr', tr `suffix_of` tr' -> stored tr' i -> R_TxHash i = R_TxHash original -> safe (f (Some i)) s' tr') ->
  (forall s' tr', tr `suffix_of` tr' -> safe (f None) s' tr') -> safe (let* i := currentIncident original in f i) s tr.
Proof.
  intros Hsome Hnone. apply (safe_mbind_ok (fun o tr' => match o with Some i => stored tr' i /\ R_TxHash i = R_TxHash original | None => True end)).
  - unfold currentIncident. wbind. wcall r. destruct r as [[i|]|e]; [| |split; [sfx|done]].
    + split; [sfx|]. intros o [= <-]. destruct (_ && _) eqn:E; [|done]. bool_hyps. unfold bytes_eqb in *. bool_hyps. split; [|done]. left. cbn. eauto.
    + split; [sfx|]. by intros o [= <-].
  - intros s' [i|] tr' Hs HR; [destruct HR; by apply Hsome|by apply Hnone].
Qed.

Lemma safe_settleIncident item s tr :
  (forall receipt, item.2.1 = Some receipt -> received tr (R_TxHash item.1) receipt) -> safe (settleIncident item) s tr.
Proof.
  destruct item as [original [[receipt|] again]]; unfold settleIncident; cbn [fst snd]; intros Hr; [|apply safe_of_keeps; solve_keeps]. specialize (Hr _ eq_refl).
  apply safe_currentIncident; [|intros; apply safe_of_keeps; solve_keeps]. intros s1 i tr1 Hs1 Hst Hh. apply safe_setIncident.
  apply safe_settles.
  { destruct (isStatus i RescueSigned); cbn [when]; [|apply settles_keeps, keeps_ret]. apply settles_mbind; [apply settles_keeps; solve_keeps|]. intros t.
    destruct (negb _); [apply settles_persistExpiredAmbiguous|]. apply settles_assign; [done|done|by left]. }
  intros s2 [] tr2 Ho Hs2. apply safe_attempt.
  - eapply (safe_applyAfter _ i _ _ tr1); [done| |exact Ho|exact Hs2]. rewrite Hh. by eapply received_suffix.
  - intros s3 [[]|e] tr3 _; apply safe_of_keeps; solve_keeps.
Qed.

Lemma safe_probeIncident t item s tr : safe (probeIncident t item) s tr.
Proof.
  destruct item as [original mined]. unfold probeIncident. apply safe_then; [apply safe_validateProcessFence|]. intros s1 _ tr1 _.
  apply safe_then; [apply safe_validateLease|]. intros s2 _ tr2 _. destruct mined; [apply safe_of_keeps; solve_keeps|].
  apply safe_currentIncident; [|intros; apply safe_of_keeps; solve_keeps]. intros s3 i tr3 _ Hst _. apply safe_setIncident.
  destruct (negb _); [apply safe_quiet, settles_quiet, settles_persistExpiredAmbiguous|].
  apply safe_settles; [destruct (isStatus _ _); cbn [when]; [apply settles_persistAmbiguousCode|apply settles_keeps, keeps_ret]|].
  intros s4 [] tr4 Ho Hs4. apply safe_attempt; [apply safe_reconcileOnce; eapply stored_suffix; [exact Hs4|by eapply stored_sameOp]|].
  intros s5 [[]|e] tr5 _; apply safe_of_keeps; solve_keeps.
Qed.

Lemma keeps_mapM {A B} (f : A -> M B) l : (forall x, keeps (f x)) -> keeps (mapM f l).
Proof. intros H. induction l as [|x l IH]; cbn; solve_keeps; auto. Qed.

Lemma safe_reconcileFastPending incidents s tr : safe (reconcileFastPending incidents) s tr.
Proof.
  unfold reconcileFastPending. apply safe_keeps; [solve_keeps|]. intros s1 t tr1 _ _. apply safe_keeps; [solve_keeps|]. intros s2 last tr2 _ _.
  destruct (_ && _); [apply safe_of_keeps; solve_keeps|]. apply safe_keeps; [solve_keeps|]. intros s3 [] tr3 _ _.
  apply safe_keeps; [apply keeps_mapM; intros; solve_keeps|]. intros s4 mined tr4 _ _.
  apply safe_keeps; [unfold checkContext; solve_keeps|]. intros s5 [] tr5 _ _. apply safe_forEach. intros. apply safe_probeIncident.
Qed.

(** Every receipt read belongs to its incident's transaction. *)
Definition receiptsOf (tr : trace) (active : list RescueIncident) (receipts : list (option Receipt * bool)) : Prop :=
  Forall2 (fun i x => forall receipt, x.1 = Some receipt -> received tr (R_TxHash i) receipt) active receipts.

Lemma WP_readReceipts active s tr :
  WP (mapM readReceipt active) s (fun _ r tr' => tr `suffix_of` tr' /\ forall receipts, r = Ok receipts -> receiptsOf tr' active receipts) tr.
Proof.
  revert s tr. induction active as [|i active IH]; intros s tr; cbn [mapM].
  { split; [done|]. intros ? [= <-]. constructor. }
  wbind. unfold readReceipt at 1. wbind. wcall r. cbn [mret]. wbind. eapply WP_mono; [apply IH|]. cbn. intros s1 [ys|e] tr1 [Hs1 H1]; [|split; [sfx|done]].
  split; [sfx|]. intros ? [= <-]. constructor; [|by apply H1]. intros receipt Hx. eapply received_suffix; [exact Hs1|]. left.
  destruct r as [o|e]; cbn in Hx; [by subst|done].
Qed.

Lemma safe_settleReceipts finalized active limited receipts s tr :
  receiptsOf tr active receipts -> safe (settleReceipts finalized active limited receipts) s tr.
Proof.
  intros Hr. unfold settleReceipts. apply safe_then; [apply safe_validateProcessFence|]. intros s1 _ tr1 Hs1.
  apply safe_then; [apply safe_validateLease|]. intros s2 _ tr2 Hs2. apply safe_then; [|intros; apply safe_of_keeps; solve_keeps].
  apply safe_allComplete. intros item s3 tr3 Hitem Hs3. apply safe_settleIncident. intros receipt Hx.
  apply (received_suffix tr); [by etrans; [exact Hs1|]; etrans|].
  clear -Hr Hitem Hx. induction Hr as [|i x active receipts Hi _ IH]; [by apply elem_of_nil in Hitem|].
  cbn in Hitem. apply elem_of_cons in Hitem as [->|Hitem]; [by apply Hi|by apply IH].
Qed.

Lemma safe_reconcileFast s tr : safe reconcileFast s tr.
Proof.
  unfold reconcileFast. apply safe_call; [exact I|]. intros [incidents|e]; [|apply safe_fails, fails_fail].
  apply safe_then; [apply safe_reconcileFastPending|]. intros s1 _ tr1 _. apply safe_call; [exact I|].
  intros [finalized|e]; [|apply safe_of_keeps; solve_keeps]. apply safe_keeps; [solve_keeps|]. intros s2 last tr2 _ _.
  destruct (bool_decide _); [apply safe_of_keeps; solve_keeps|]. cbv zeta. set (active := take _ _).
  apply (safe_mbind_ok (fun receipts tr => receiptsOf tr active receipts)); [apply WP_readReceipts|].
  intros s3 receipts tr3 _ Hr. apply safe_keeps; [unfold checkContext; solve_keeps|]. intros s4 [] tr4 _ Hs4. apply safe_settleReceipts.
  eapply Forall2_impl; [exact Hr|]. cbn. intros i x H receipt Hx. eapply received_suffix; [exact Hs4|by apply H].
Qed.

Lemma safe_reconciliationLoop fuel s tr : safe (reconciliationLoop fuel) s tr.
Proof.
  revert s tr. induction fuel as [|fuel IH]; intros s tr; cbn [reconciliationLoop]; [apply safe_of_keeps; solve_keeps|].
  apply safe_call; [exact I|]. intros [|]; [apply safe_of_keeps; solve_keeps|]. apply safe_keeps; [solve_keeps|]. intros s1 latest tr1 _ _.
  apply safe_then; [destruct (_ || _); [apply safe_reconcileFast|apply safe_reconcileExpired]|]. auto.
Qed.

Lemma safe_RunReconciliation fuel s tr : safe (RunReconciliation fuel) s tr.
Proof.
  unfold RunReconciliation. apply safe_keeps; [solve_keeps|]. intros s1 latest tr1 _ _. apply safe_call; [exact I|].
  intros [|]; cbn [negb]; [apply safe_reconciliationLoop|apply safe_fails, fails_fail].
Qed.

(** ** The lease *)

(** A function whose calls are allowed at any time. *)
Lemma safe_harmless {A} (m : M A) s tr : sat (fun c => forall tr, allowed tr c) (fun _ => True) (m s) -> safe m s tr.
Proof.
  unfold safe, WP. generalize (m s) as p. intros p. revert tr.
  assert (H : forall tr0 tr, tr0 `suffix_of` tr -> sat (fun c => forall tr, allowed tr c) (fun _ => True) p ->
    wp traced allowed True p (fun (_ : SessionState * result GoError A) tr' => tr0 `suffix_of` tr') tr); [|by intros; apply H].
  intros tr0. induction p as [a|c k IH| |]; cbn; intros tr Hs Hp; auto.
  destruct Hp as [Hc Hp]. split; [apply Hc|]. intros x tr' ->. apply IH; [by apply suffix_cons_r|apply Hp].
Qed.

Lemma safe_leaseTurn s tr : safe leaseTurn s tr.
Proof.
  apply safe_harmless. unfold leaseTurn, markLeaseLost, failContext, contextOrError. 
  cbn. repeat first [split; [done|intros ?]|case_match|done|progress cbn].
Qed.

Lemma safe_MaintainLease fuel s tr : safe (MaintainLease fuel) s tr.
Proof.
  unfold MaintainLease. apply safe_then; [apply safe_validateLease|]. intros s1 _ tr1 _. apply safe_call; [exact I|].
  intros [e|]; [apply safe_fails, fails_failContext|]. apply safe_call; [exact I|]. intros ticker. destruct (negb ticker).
  { unfold markLeaseLost. apply safe_call; [exact I|]. intros. apply safe_fails, fails_fail. }
  generalize (Event (Clock_NewTicker (Co_leaseTTL co / 3)) ticker :: Event Ctx_Err None :: tr1) as tr2. revert s1.
  induction fuel as [|fuel IH]; intros s1 tr2; cbn [leaseLoop]; [apply safe_of_keeps; solve_keeps|].
  apply safe_then; [apply safe_leaseTurn|]. intros s2 [|] tr3 _; [apply IH|apply safe_of_keeps; solve_keeps].
Qed.

Lemma safe_ReleaseLease s tr : safe ReleaseLease s tr.
Proof. apply safe_of_keeps. unfold ReleaseLease, markLeaseLost. solve_keeps. Qed.

(** ** A session *)

(** What the daemon asks of a session.  [Handle] and the reconciliation passes
    hold the coordinator's mutex, so a session is a sequence of them. *)
Inductive Request :=
| AskHandle (candidate : RescueCandidate)
| AskReconcileFast
| AskReconcileExpired
| AskMaintainLease (turns : nat)
| AskReleaseLease.

Definition perform (request : Request) : M unit :=
  match request with
  | AskHandle candidate => Handle candidate
  | AskReconcileFast => reconcileFast
  | AskReconcileExpired => reconcileExpired
  | AskMaintainLease turns => MaintainLease turns
  | AskReleaseLease => ReleaseLease
  end.

(** A failed request does not end the session; a failed start does. *)
Definition serve (requests : list Request) : M unit :=
  let* _ := NewSession in forEach requests (fun request => let* _ := try (perform request) in mret tt).

Lemma safe_perform request s tr : safe (perform request) s tr.
Proof.
  destruct request; [apply safe_Handle|apply safe_reconcileFast|apply safe_reconcileExpired|apply safe_MaintainLease|apply safe_ReleaseLease].
Qed.

Lemma safe_serve requests s tr : safe (serve requests) s tr.
Proof.
  unfold serve. apply safe_then; [apply safe_NewSession|]. intros s1 _ tr1 _. apply safe_forEach. intros request s2 tr2 _ _.
  apply safe_attempt; [apply safe_perform|]. intros. apply safe_of_keeps. solve_keeps.
Qed.

(** Every call of a session, with the trace before it, is allowed. *)
Lemma serve_allowed requests s steps out tr past c x :
  exec traced (serve requests s) [] steps out tr -> (past, Event c x) ∈ steps -> allowed past c.
Proof.
  intros He Hin. destruct (wp_sound _ _ _ _ _ _ _ _ _ (safe_serve requests s []) He) as [Hall _].
  rewrite Forall_forall in Hall. exact (Hall _ Hin).
Qed.

End Entry.
End RescueEntry.
Export RescueEntry.
