(* ===== verification/RescueClaims.v ===== *)
(** * What the coordinator guarantees, and a concrete world for it

    [RescueWorld]: go-ethereum's codecs, the ABI and the answers of every component
    as small executable functions, and one session in which a native rescue is
    prepared, signed, sent, found in a finalized block and proven.  [RescueClaims]:
    for every session, every sequence of requests and every behaviour of the other
    components, what must have happened before each signature, each broadcast, each
    charge and each recorded success.  A step of an execution carries the trace of
    the calls before it, newest first. *)

From S2P Require Import Prelude GoTime Bytes Sha256 Domain Bolt BudgetModel BudgetLedger StoreModel StoreLease StoreRescue RescueFees Admission RpcQuorum Programs RescueErrors Contracts RescueEffects RescueSession RescueOperations RescueFlow RescueCoordinator RescueLogic RescueGuards RescueSafety RescueOutcomes RescueSigning RescueEntry.
From Stdlib Require Import Strings.Byte.
From Stdlib Require Strings.String.
Import Strings.String.StringSyntax.

Module RescueWorld.

Definition account (b : byte) : Address := repeat b 20.
Definition source : Address := account x01.
Definition sponsor : Address := account x02.
Definition destination : Address := account x03.
Definition rescuer : Address := account x04.

Definition hashOf (b : byte) : Hash := repeat b 32.

#[local] Instance world_abi : Abi := {
  abi_Pack name _ := Some (str name);
  abi_PackOutputs _ values := match values with [VAddress a] => Some a | [VUint256 z] => Some (be_bytes 32 z) | _ => None end;
  abi_UnpackOutputs outputs data :=
    match outputs with [TyAddress] => Some [VAddress data] | [TyUint256] => Some [VUint256 (be_value data)] | _ => None end }.

Definition authorization : Authorization := mkAuthorization 1 rescuer 0 0 0 0.

Definition rescueTx : Txn :=
  mkTxn SetCodeTxType 1 7 (Some source) 100000 5 45 (str "sweepEth") 0 [] [authorization] [].

(** The codec knows the nonce of a transaction; the rest is [rescueTx]. *)
#[local] Instance world_geth : GethTx := {
  txn_UnmarshalBinary data := match data with [n] => if bool_decide (n = x07) then Some rescueTx else None | _ => None end;
  txn_MarshalBinary t := if Txn_Nonce t =? 7 then Some [x07] else None;
  txn_Hash t := be_bytes 32 (Txn_Nonce t);
  txn_Sender _ _ := Some sponsor;
  auth_Authority _ := Some source }.

Definition fees : FeePolicy := mkFeePolicy 1 100 10 1 200000 100000 0 10000000 10000000 false false.

Definition coordinator0 : Coordinator :=
  mkCoordinator None false 1 [] false source sponsor destination rescuer 0 Second Second (30 * Second) 3 Second Minute Hour
    ∅ ∅ ∅ fees 1 false false false false.

#[local] Instance world_session : Session := mkSession coordinator0 1 false false false 10.

Definition block (n : Z) : BlockRef := mkBlockRef n (be_bytes 32 n) zeroHash 0.

Definition receipt : Receipt :=
  mkReceipt (be_bytes 32 7) (be_bytes 32 10) (Some 10) None 1 [] 21000 21000 (Some 20) None 0 [] [].

Definition reservation : Reservation :=
  mkReservation (zero_bytes 32) (mkRequest 1 sponsor zeroID (mkAttempt zeroID 1) (mkQuote 100000 45 10000000) 0 zeroTime)
    10000000 ReservationHeld zeroHash 0 zeroTime zeroTime zeroTime.

Definition scope : ScopeSnapshot := mkScopeSnapshot (mkTotals 0 0 0) (mkTotals 0 0 0) (mkTotals 1 1 1).

(** The balances: what was sent has moved the source's funds. *)
Definition balance (sent : bool) (a : Address) : Z :=
  if bytes_eqb a source then (if sent then 0 else 20000000)
  else if bytes_eqb a destination then (if sent then 20000050 else 50)
  else 10 ^ 18.

Definition start : Time := 10 ^ 18.

(** Whether the transaction was sent is all the world remembers. *)
Definition world (c : Eff) (sent : bool) : answer c * bool :=
  match c return answer c * bool with
  | Clock_Now => (start, sent)
  | Clock_Sleep _ => (None, sent)
  | Clock_NewTicker _ => (true, sent)
  | Ctx_Err => (None, sent)
  | Parallel_First _ => (0%nat, sent)
  | Gate_Stopped => (false, sent)
  | Gate_Enter => (true, sent)
  | Gate_Leave => (tt, sent)
  | Fence_Validate => (true, sent)
  | Lease_IsLost => (false, sent)
  | Lease_Current => (mkLease (mkLeaseKey 1 sponsor) [] start, sent)
  | Lease_SetCurrent _ => (tt, sent)
  | Lease_MarkLost => (tt, sent)
  | Lease_Select _ => (WakeDone, sent)
  | Tick_Select => (TickDone, sent)
  | LeaseManager_Validate _ => (Ok tt, sent)
  | LeaseManager_Renew lease _ => (Ok lease, sent)
  | LeaseManager_Release _ => (Ok tt, sent)
  | Authorizer_Address => (source, sent)
  | Authorizer_SignAuthorization a => (Ok a, sent)
  | Transactioner_Address => (sponsor, sent)
  | Transactioner_SignTransaction tx _ => (Ok (Some tx), sent)
  | Broadcaster_SendTransaction _ => (None, true)
  | State_PutRescueIncident i => (Ok i, sent)
  | State_UpdateRescueIncident _ => (Ok tt, sent)
  | State_RescueIncident _ => (Ok None, sent)
  | State_RescueIncidents _ => (Ok [], sent)
  | State_NonceFloor => (Ok 7, sent)
  | State_RaiseNonceFloor _ => (Ok tt, sent)
  | State_PruneRescueIncidents _ => (Ok tt, sent)
  | Ledger_Reserve _ => (Ok reservation, sent)
  | Ledger_MarkExposed _ _ => (Ok reservation, sent)
  | Ledger_CommitFinalized _ => (Ok reservation, sent)
  | Ledger_ReleaseProvenUnused _ => (Ok reservation, sent)
  | Ledger_CheckSponsorCapacity _ _ => (Ok tt, sent)
  | Ledger_ReservationByAttempt _ => (Ok (Some reservation), sent)
  | Ledger_Snapshot => (Ok (Ledger.mkSnapshot start scope {[1 := scope]}), sent)
  | Admission_Admit _ => ((mkAdmissionDecision true AdmissionAllowed zeroTime, None), sent)
  | RPC_ChainID => (Ok (Some 1), sent)
  | RPC_PendingNonceAt a => (Ok (if bytes_eqb a sponsor then 7 else 0), sent)
  | RPC_LatestHeader => (Ok (Some (mkHeader (Some 10) (Some 0) (Some []) 0 0 (Some 20) zeroHash 0 [])), sent)
  | RPC_SuggestGasPrice => (Ok (Some 25), sent)
  | RPC_EstimateGas _ => (Ok 50000, sent)
  | Finality_Finalized => (Ok (block (if sent then 12 else 9)), sent)
  | Finality_Latest => (Ok (block 12), sent)
  | Finality_Header n => (Ok (block n), sent)
  | Finality_BalanceAt _ _ a => (Ok (Some (balance sent a)), sent)
  | Finality_CodeAt _ _ => (Ok (designator rescuer), sent)
  | Finality_CallContract _ _ _ => (Ok destination, sent)
  | Finality_Receipt _ => (Ok (Some receipt), sent)
  | Finality_MinedReceipt _ => (Ok (Some receipt), sent)
  | Finality_BaseAdditionalFee _ => (Ok None, sent)
  | Alerts_Raise _ => (None, sent)
  | Alerts_Resolve _ => (None, sent)
  | Metrics_SetBudget _ => (None, sent)
  | Metrics_SetActiveAmbiguous _ => (None, sent)
  | Notify _ => (tt, sent)
  end.

Definition candidate : RescueCandidate :=
  withID (mkCandidate zeroID 1 CandidateNative source zeroToken zeroHash 0 zeroHash 0 0 0).

Definition idle : RescueIncident := newIncident candidate CandidateNative zeroAddress zeroID true start.

Definition state0 : SessionState := mkSessionState None zeroRef zeroTime false zeroRef false 0 false idle.

Definition history : trace * outcome (SessionState * result GoError unit) * bool := run world (serve [AskHandle candidate] state0) false.

End RescueWorld.
Export RescueWorld.

Module RescueClaims.

Section Claims.
Context {G : GethTx} {AB : Abi} {SE : Session}.
Local Abbreviation co := coordinator.

(** C9. Nothing is signed outside the paid-action gate.  At each signature, of the
    source's authorization or of the sponsor's transaction, the gate is held and
    since it was entered the process fence, the lease and the addresses of both
    signers have been checked and the ledger has confirmed that the sponsor can
    pay for a reservation, which the ledger holds for an attempt.  The
    authorization delegates to the configured rescuer, the transaction goes to the
    source, both on the configured network. *)
Theorem signatures_are_guarded requests s steps out tr past :
  exec traced (serve requests s) [] steps out tr ->
  (forall a x, (past, Event (Authorizer_SignAuthorization a) x) ∈ steps ->
     Auth_ChainID a = Co_network co /\ Auth_Address a = Co_rescuer co /\
     exists attempt id, armed (guards past) id /\ reserved_for past attempt id) /\
  (forall tx chainID x, (past, Event (Transactioner_SignTransaction tx chainID) x) ∈ steps ->
     Txn_ChainID tx = Co_network co /\ chainID = Co_network co /\ Txn_To tx = Some (Co_source co) /\
     exists attempt id, armed (guards past) id /\ reserved_for past attempt id).
Proof.
  intros He. split.
  - intros a x Hin. exact (serve_allowed _ _ _ _ _ _ _ _ He Hin).
  - intros tx chainID x Hin. exact (serve_allowed _ _ _ _ _ _ _ _ He Hin).
Qed.

(** C11. What is broadcast is the durable transaction of an incident: the store
    has confirmed or returned an incident with exactly these bytes and this hash,
    the durable nonce floor was raised above the nonce, the attempt's cost is
    reserved, and in the same gate section, with the fence, the lease and the
    signers checked and the sponsor able to pay, the ledger marked this
    reservation exposed under this hash. *)
Theorem only_durable_exposed_transactions_are_sent requests s steps out tr past tx x :
  exec traced (serve requests s) [] steps out tr -> (past, Event (Broadcaster_SendTransaction tx) x) ∈ steps ->
  exists i id,
    armed (guards past) id /\ g_exposed (guards past) = Some (id, txn_Hash tx) /\ reserved_for past (attemptOf i) id /\
    stored past i /\ R_TxHash i = txn_Hash tx /\ txn_MarshalBinary tx = Some (R_SignedTransaction i) /\ floored past (Txn_Nonce tx).
Proof.
  intros He Hin. destruct (serve_allowed _ _ _ _ _ _ _ _ He Hin) as (i & id & H1 & H2 & H3 & H4 & H5 & H6 & H7).
  exists i, id. auto 10.
Qed.

(** C18. What is charged is what a receipt shows.  The receipt was read for the
    hash of a durable incident, is well formed, lies on the canonical chain at or
    below a finalized block and uses no more gas than the durable transaction
    allows; the charge is its gas times its price, plus the network's additional
    fee where fees are estimated, plus the value moved if it succeeded, and goes
    to the reservation of the incident's attempt. *)
Theorem charges_match_canonical_receipts requests s steps out tr past charge x :
  exec traced (serve requests s) [] steps out tr -> (past, Event (Ledger_CommitFinalized charge) x) ∈ steps ->
  exists i receipt postBlock tx,
    settled past i receipt postBlock /\ Charge_TxHash charge = R_TxHash i /\ validatePersistedTransaction i = Ok tx /\
    Rcpt_GasUsed receipt <= Txn_Gas tx /\ costs past i receipt (Charge_Actual charge) /\
    exists id, reserved_for past (attemptOf i) id /\
      (Charge_ReservationID charge = id \/ Exists (showsExposed id (R_TxHash i) (Charge_ReservationID charge)) past).
Proof. intros He Hin. exact (serve_allowed _ _ _ _ _ _ _ _ He Hin). Qed.

(** C20. A rescue is recorded as successful only with proof: a successful receipt
    of the incident's transaction on the canonical chain at or below a finalized
    block, its cost charged, and at that block the source delegating to the
    rescuer, the source's balance of the asset zero and the destination's grown by
    at least what the rescue had to move. *)
Theorem success_is_proven requests s steps out tr past i x :
  exec traced (serve requests s) [] steps out tr -> (past, Event (State_UpdateRescueIncident i) x) ∈ steps ->
  successStatus (R_Status i) = true ->
  exists receipt postBlock required after,
    received past (R_TxHash i) receipt /\ (0 <= Rcpt_Status receipt -> Rcpt_Status receipt = 1) /\ canonical past i receipt postBlock /\
    Exists (showsCommit (R_TxHash i)) past /\ Exists (showsCode postBlock (Co_source co) (Co_rescuer co)) past /\
    Exists (showsBalance i postBlock (Co_source co) 0) past /\ Exists (showsBalance i postBlock (Co_destination co) after) past /\
    requiredDestinationDelta i = Ok required /\ be_value (R_DestinationBefore i) + required <= after.
Proof.
  intros He Hin Hs. destruct (serve_allowed _ _ _ _ _ _ _ _ He Hin Hs) as (receipt & b & before & required & after & H1 & H2 & H3 & H4 & H5 & H6 & H7 & -> & H9 & _ & H10).
  exists receipt, b, required, after. auto 20.
Qed.

End Claims.

(** ** The session of RescueWorld.v *)

#[local] Existing Instances world_abi world_geth world_session.

Lemma signatures_are_guarded_witness : exists past attempt id, armed (guards past) id /\ reserved_for past attempt id.
Proof.
  destruct (run_step world (serve [AskHandle candidate] state0) false 65 (Event (Transactioner_SignTransaction rescueTx 1) (Ok (Some rescueTx))))
    as (steps & out & tr & past & He & Hin); [vm_compute; reflexivity|].
  destruct (signatures_are_guarded _ _ _ _ _ past He) as [_ H]. destruct (H _ _ _ Hin) as (_ & _ & _ & H'). exists past. exact H'.
Defined.

Lemma only_durable_exposed_transactions_are_sent_witness : exists past i id, g_exposed (guards past) = Some (id, txn_Hash rescueTx) /\ stored past i.
Proof.
  destruct (run_step world (serve [AskHandle candidate] state0) false 91 (Event (Broadcaster_SendTransaction rescueTx) None))
    as (steps & out & tr & past & He & Hin); [vm_compute; reflexivity|].
  destruct (only_durable_exposed_transactions_are_sent _ _ _ _ _ past _ _ He Hin) as (i & id & _ & H & _ & H' & _).
  exists past, i, id. exact (conj H H').
Defined.

Lemma charges_match_canonical_receipts_witness : exists past i receipt postBlock, settled past i receipt postBlock /\ costs past i receipt 420000.
Proof.
  destruct (run_step world (serve [AskHandle candidate] state0) false 109
      (Event (Ledger_CommitFinalized (mkCharge (zero_bytes 32) (be_bytes 32 7) 420000 start)) (Ok reservation)))
    as (steps & out & tr & past & He & Hin); [vm_compute; reflexivity|].
  destruct (charges_match_canonical_receipts _ _ _ _ _ past _ _ He Hin) as (i & receipt & b & tx & H & _ & _ & _ & H' & _).
  exists past, i, receipt, b. exact (conj H H').
Defined.

(** The incident as the session stored it last. *)
Definition rescued : RescueIncident :=
  match history.1.1 !! 118%nat with Some (Event (State_UpdateRescueIncident i) _) => i | _ => idle end.

Lemma success_is_proven_witness :
  R_Status rescued = RescueTrustedSuccess /\ exists past receipt, received past (R_TxHash rescued) receipt /\ Exists (showsCommit (R_TxHash rescued)) past.
Proof.
  split; [vm_compute; reflexivity|].
  destruct (run_step world (serve [AskHandle candidate] state0) false 118 (Event (State_UpdateRescueIncident rescued) (Ok tt)))
    as (steps & out & tr & past & He & Hin); [vm_compute; reflexivity|].
  destruct (success_is_proven _ _ _ _ _ past _ _ He Hin) as (receipt & b & required & after & H & _ & _ & H' & _); [vm_compute; reflexivity|].
  exists past, receipt. exact (conj H H').
Defined.

End RescueClaims.
