(* ===== verification/Watcher.v ===== *)
(** * internal/watcher: finding candidates on the chain

    [service.go] and [fast.go]: the finalized scan that commits block by block, the
    fast scan of the latest blocks, observed logs, the periodic reconciliation,
    token metadata and the loops that drive them.  The service acts through its
    interfaces, so it is a program over [WEff] (Programs.v); what is in [Service]
    does not change, what does is [WatcherState].  The topic of the Transfer event
    and the hexadecimal form of an address are go-ethereum's ([WatchCodec]). *)

From S2P Require Import Prelude Programs GoTime Bytes Sha256 Domain Bolt BudgetModel StoreModel RpcQuorum RescueErrors Contracts.
From Stdlib Require Import Strings.Byte.
From Stdlib Require Strings.String.
Import Strings.String.StringSyntax.

Module Watcher.

Definition pollInterval : Duration := 3 * Second.
Definition reconciliationInterval : Duration := Minute.
Definition metadataReturnLimit : Z := 4 * 1024.
Definition metadataCacheLimit : nat := 256.
Definition maximumLookbackBlocks : Z := 10000.
Definition maximumDiscoveredTokens : Z := 1024.

Definition eventCandidateInserted : bytes := str "watcher_candidate_inserted".
Definition eventCandidatePending : bytes := str "watcher_candidate_pending".
Definition eventCandidateAcknowledged : bytes := str "watcher_candidate_acknowledged".
Definition eventSubscriptionFallback : bytes := str "watcher_subscription_fallback".
Definition eventHeadUnavailable : bytes := str "watcher_head_unavailable".
Definition eventReadFailed : bytes := str "watcher_read_failed".
Definition eventMetadataFallback : bytes := str "watcher_metadata_fallback".
Definition eventLogRejected : bytes := str "watcher_log_rejected".
Definition eventCandidatePutFailed : bytes := str "watcher_candidate_put_failed".
Definition eventObservationSaturated : bytes := str "watcher_observation_saturated".
Definition eventDiscoveryOverflow : bytes := str "watcher_discovery_overflow".

Definition errorLogSubscription : bytes := str "watcher_log_subscription_failed".
Definition errorHeadSubscription : bytes := str "watcher_head_subscription_failed".
Definition errorFinalizedRead : bytes := str "watcher_finalized_read_failed".
Definition errorFinalizedReorg : bytes := str "watcher_finalized_reorg".
Definition errorLogRead : bytes := str "watcher_log_read_failed".
Definition errorInvalidHead : bytes := str "watcher_invalid_head".
Definition errorInvalidLog : bytes := str "watcher_invalid_log".
Definition errorMetadata : bytes := str "watcher_metadata_unavailable".
Definition errorCandidatePut : bytes := str "watcher_candidate_put_failed".
Definition errorCandidateResult : bytes := str "watcher_candidate_result_invalid".
Definition errorStateRead : bytes := str "watcher_state_read_failed".
Definition errorStateCommit : bytes := str "watcher_state_commit_failed".
Definition errorTickerClosed : bytes := str "watcher_ticker_closed".
Definition errorObservationLimit : bytes := str "watcher_observation_limit".
Definition errorDiscoveryLimit : bytes := str "watcher_discovery_limit".

(** ** Construction *)

(** [Dep_present]: no interface is nil; [Dep_hasLatest]: the finalized reader has [Latest]. *)
Record Dependencies := mkDependencies {
  Dep_Fast : bool;
  Dep_DryRun : bool;
  Dep_present : bool;
  Dep_hasLatest : bool;
  Dep_hasReady : bool;
  Dep_Source : Address;
  Dep_ChainID : NetworkID;
  Dep_Tokens : list Token;
  Dep_AllowUnknownTokens : bool;
  Dep_Generation : Z;
  Dep_LookbackBlocks : Z;
  Dep_ReadTimeout : Duration }.

Record Service := mkService {
  Svc_fast : bool;
  Svc_dryRun : bool;
  Svc_hasLatest : bool;
  Svc_hasReady : bool;
  Svc_source : Address;
  Svc_networkID : NetworkID;
  Svc_generation : Z;
  Svc_lookbackBlocks : Z;
  Svc_readTimeout : Duration;
  Svc_knownTokens : gmap Address Token;
  Svc_allowedTokens : gset Address;
  Svc_allowUnknown : bool }.

Record WatcherState := mkWatcherState {
  w_fastSeen : gmap Z Hash;
  w_metadata : gmap Address Token;
  w_metadataOrder : list Address;
  w_overflowReported : bool }.

Definition initialState : WatcherState := mkWatcherState ∅ ∅ [] false.

(** One token of the loop over [Network.Tokens]. *)
Definition addToken (maps : gmap Address Token * gset Address) (token : Token) : result Sentinel (gmap Address Token * gset Address) :=
  let (known, allowed) := maps in
  reject bytes_eqb (Token_Address token) zeroAddress with ErrInvalidDependencies in
  Ok (if negb (bytes_eqb (Token_Symbol token) []) then <[Token_Address token := token]> known else known, {[Token_Address token]} ∪ allowed).

Definition NewService (d : Dependencies) : result Sentinel Service :=
  reject negb (Dep_present d) || bytes_eqb (Dep_Source d) zeroAddress || (Dep_ChainID d <=? 0) || (Dep_LookbackBlocks d =? 0)
      || (maximumLookbackBlocks <? Dep_LookbackBlocks d) || (Dep_ReadTimeout d <=? 0) with ErrInvalidDependencies in
  reject Dep_Fast d && negb (Dep_hasLatest d) with ErrInvalidDependencies in
  let! (known, allowed) := foldM addToken (Dep_Tokens d) (∅, ∅) in
  Ok (mkService (Dep_Fast d) (Dep_DryRun d) (Dep_hasLatest d) (Dep_hasReady d) (Dep_Source d) (Dep_ChainID d) (Dep_Generation d)
        (Dep_LookbackBlocks d) (Dep_ReadTimeout d) known allowed (Dep_AllowUnknownTokens d)).

(** ** The order of addresses *)

Definition address_le (a b : Address) : Prop := bytes_ltb b a = false.

#[export] Instance address_le_dec : RelDecision address_le.
Proof. intros a b. unfold address_le. apply _. Defined.

(** [sort.Slice(addresses, bytes.Compare < 0)]; equal addresses cannot be told apart. *)
Definition sortAddresses (l : list Address) : list Address := merge_sort address_le l.

Definition PolicyFingerprint (chainID : NetworkID) (tokens : list Token) (allowUnknown : bool) (lookbackBlocks : Z) : bytes :=
  sha256 (str "guard-daemon/watcher-policy/v1" ++ be_bytes 8 chainID ++ be_bytes 8 lookbackBlocks ++ [if allowUnknown then x01 else x00]
          ++ concat (sortAddresses (map Token_Address tokens))).

(** ** Symbols *)

(** A byte below 0x80 is the rune it encodes and no other rune contains such a
    byte, so filtering runes is filtering bytes. *)
Definition printable (b : byte) : bool := (32 <=? byteZ b) && (byteZ b <=? 126).

Fixpoint trimLeft (s : bytes) : bytes :=
  match s with
  | b :: s' => if bool_decide (b = x20) then trimLeft s' else s
  | [] => []
  end.

(** [strings.TrimSpace] of printable ASCII: the only space there is 0x20. *)
Definition trimSpace (s : bytes) : bytes := rev (trimLeft (rev (trimLeft s))).

Definition sanitizeSymbol (symbol : bytes) : bytes :=
  let result := trimSpace (List.filter printable symbol) in
  if 16 <? len result then take 16 result ++ str "..." else result.

(** ** Calls *)

Inductive LiveWake :=
| LiveDone
| LiveLogError (open : bool)
| LiveLog (entry : option Log)
| LiveScanTick (open : bool)
| LiveReconcileTick (open : bool).

(** A head, or that the channel or its error channel fired. *)
Inductive HeadWake :=
| HeadClosed
| HeadReceived (header : option Header)
| HeadError.

Inductive PollWake := PollDone | PollScanTick (open : bool) | PollReconcileTick (open : bool).
Inductive BackfillWake := BackfillDone | BackfillTick (open : bool).

Inductive WatchNotice :=
| NoticeWatchFailure (event error : bytes)
| NoticeCandidate (event : bytes) (candidate : CandidateID) (symbol : bytes).

(** [W_Schedule] is the scheduler's choice between the two goroutines of [Run]. *)
Inductive WEff :=
| W_Now
| W_NewTicker (d : Duration)
| W_CtxErr
| W_Ready
| W_Schedule
| W_CallContract (to : Address) (data : bytes)
| W_Finalized
| W_Latest
| W_Header (number : Z)
| W_FilterLogs (query : FilterQuery)
| W_SubscribeFilterLogs (query : FilterQuery)
| W_SubscribeNewHead
| W_LiveSelect (heads : bool)
| W_PollSelect
| W_BackfillSelect
| W_Put (candidate : RescueCandidate)
| W_PutObserved (candidate : RescueCandidate)
| W_MarkRemoved (id : CandidateID)
| W_LoadScanCursor (network : NetworkID)
| W_CommitCanonicalBlock (block : CanonicalBlock)
| W_DiscoveredTokens (network : NetworkID)
| W_DiscoveryOverflowed (network : NetworkID)
| W_Record (notice : WatchNotice).

(** A put may answer a value outside the named ones ([None]).  A subscription
    answers whether it can be used.  A nil channel is never ready, so without
    heads the live select has no head events. *)
Definition wanswer (c : WEff) : Type :=
  match c with
  | W_Now => Time
  | W_NewTicker _ => bool
  | W_CtxErr => option CtxErr
  | W_Ready => option GoError
  | W_Schedule => bool
  | W_CallContract _ _ => result GoError (option bytes)
  | W_Finalized | W_Latest | W_Header _ => result RpcError BlockRef
  | W_FilterLogs _ => result RpcError (list Log)
  | W_SubscribeFilterLogs _ | W_SubscribeNewHead => bool
  | W_LiveSelect heads => if heads then LiveWake + HeadWake else LiveWake
  | W_PollSelect => PollWake
  | W_BackfillSelect => BackfillWake
  | W_Put _ | W_PutObserved _ => result StoreError (option PutResult)
  | W_MarkRemoved _ | W_CommitCanonicalBlock _ => result StoreError unit
  | W_LoadScanCursor _ => result StoreError (option Checkpoint)
  | W_DiscoveredTokens _ => result StoreError (list Address)
  | W_DiscoveryOverflowed _ => result StoreError bool
  | W_Record _ => unit
  end.

Abbreviation WM := (SM wanswer WatcherState GoError).
Abbreviation wcall := (Programs.call (ans := wanswer)).

Class WatchCodec := {
  transferTopic : Hash;
  address_Hex : Address -> bytes }.

Class Watch := { service : Service }.

Section Operations.
Context {AB : Abi} {WC : WatchCodec} {WA : Watch}.
Local Abbreviation svc := service.

(** ** Failures and reports *)

Definition recordFailure (event error : bytes) : WM unit := wcall (W_Record (NoticeWatchFailure event error)).

Definition failure (operation : String.string) (class : ErrorClass) (code : bytes) (retryable : bool) (cause : option GoError) : GoError :=
  NewError operation class code retryable false cause.

(** [errors.Is(cause, context.Canceled)]; a quorum error may wrap the context's. *)
Definition isCanceled (err : GoError) : bool :=
  match err with OfContext Canceled | OfRpc (ErrQuorumUnavailable (Some Canceled)) => true | _ => false end.

Definition readFailure {A} (operation : String.string) (code : bytes) (cause : GoError) : WM A :=
  if errors_Is isCanceled cause then fail cause
  else
    let* _ := recordFailure eventReadFailed code in
    fail (failure operation ErrorRPCTransient code true (Some cause)).

(** An answer of the finality reader, or the failure of reading it. *)
Definition reading {A} (operation : String.string) (code : bytes) (r : result RpcError A) : WM A :=
  match r with
  | Ok a => mret a
  | Err e => readFailure operation code (OfRpc e)
  end.

Definition addressFallback (address : Address) : bytes := take 10 (address_Hex address) ++ str "...".

(** ** Tokens *)

Definition fallbackToken (address : Address) : Token :=
  match Svc_knownTokens svc !! address with
  | Some token => token
  | None => mkToken address (addressFallback address) 18
  end.

Definition metadataCall (address : Address) (data : bytes) : WM (option bytes) :=
  let* r := wcall (W_CallContract address data) in
  mret match r with
       | Ok (Some result) => if metadataReturnLimit <? len result then None else Some result
       | _ => None
       end.

Definition cacheMetadata (address : Address) (token : Token) : WM unit :=
  modify (fun s =>
    match w_metadata s !! address with
    | Some _ => mkWatcherState (w_fastSeen s) (<[address := token]> (w_metadata s)) (w_metadataOrder s) (w_overflowReported s)
    | None =>
        let (metadata, order) :=
          match w_metadataOrder s with
          | oldest :: rest =>
              if Nat.eqb (length (w_metadataOrder s)) metadataCacheLimit then (delete oldest (w_metadata s), rest)
              else (w_metadata s, w_metadataOrder s)
          | [] => (w_metadata s, [])
          end in
        mkWatcherState (w_fastSeen s) (<[address := token]> metadata) (order ++ [address]) (w_overflowReported s)
    end).

(** The symbol the contract reports, if it is usable. *)
Definition readSymbol (address : Address) : WM (option bytes) :=
  match PackSymbol with
  | None => mret None
  | Some data =>
      let* r := metadataCall address data in
      mret match r with
           | None => None
           | Some result =>
               match DecodeSymbol result with
               | Err _ => None
               | Ok symbol => let symbol := sanitizeSymbol symbol in if bytes_eqb symbol [] then None else Some symbol
               end
           end
  end.

Definition readDecimals (address : Address) : WM (option Z) :=
  match PackDecimals with
  | None => mret None
  | Some data =>
      let* r := metadataCall address data in
      mret match r with
           | None => None
           | Some result => match DecodeDecimals result with Err _ => None | Ok decimals => Some decimals end
           end
  end.

Definition isSome {A} (o : option A) : bool := match o with Some _ => true | None => false end.

(** The metadata of a token that is neither configured nor cached. *)
Definition readMetadata (address : Address) : WM Token :=
  let token := fallbackToken address in
  let* symbol := readSymbol address in
  let* ctxErr := wcall W_CtxErr in
  let* decimals := (if isSome ctxErr then mret None else let* d := readDecimals address in mret (Some d)) in
  let unusable := negb (isSome symbol) || match decimals with Some None => true | _ => false end in
  let* ctxErr := (if unusable then wcall W_CtxErr else mret None) in
  let* _ := when (unusable && negb (isSome ctxErr)) (recordFailure eventMetadataFallback errorMetadata) in
  let token := mkToken (Token_Address token) (default (Token_Symbol token) symbol) (default (Token_Decimals token) (default None decimals)) in
  let* _ := cacheMetadata address token in
  mret token.

Definition resolveToken (address : Address) : WM Token :=
  match Svc_knownTokens svc !! address with
  | Some token => mret token
  | None =>
      let* cached := gets (fun s => w_metadata s !! address) in
      match cached with
      | Some token => mret token
      | None => readMetadata address
      end
  end.

(** ** Logs *)

Definition sourceTopic : Hash := zero_bytes 12 ++ Svc_source svc.

Definition transferQuery : FilterQuery :=
  let addresses :=
    if Svc_allowUnknown svc then []
    else
      let sorted := sortAddresses (elements (Svc_allowedTokens svc)) in
      if Nat.eqb (length sorted) 0 then [zeroAddress] else sorted in
  mkFilterQuery None None None addresses [[transferTopic]; []; [sourceTopic]].

Definition queryAt (hash : Hash) : FilterQuery :=
  mkFilterQuery (Some hash) None None (Query_Addresses transferQuery) (Query_Topics transferQuery).

(** A Transfer to the source, of a token that may be rescued. *)
Definition acceptableLog (entry : Log) : bool :=
  match default [] (Log_Topics entry) with
  | [event; _; recipient] =>
      (len (default [] (Log_Data entry)) =? 32) && bytes_eqb event transferTopic && bytes_eqb recipient sourceTopic
      && negb (bytes_eqb (Log_Address entry) zeroAddress) && negb (bytes_eqb (Log_BlockHash entry) zeroHash)
      && negb (bytes_eqb (Log_TxHash entry) zeroHash)
      && (Svc_allowUnknown svc || bool_decide (Log_Address entry ∈ Svc_allowedTokens svc))
  | _ => false
  end.

Definition candidateOf (entry : Log) (token : Token) : RescueCandidate :=
  NewLogCandidate (Svc_networkID svc) (Svc_source svc) token (Log_BlockHash entry) (Log_TxHash entry) (Log_BlockNumber entry) (Log_Index entry).

Definition logCandidate (entry : Log) (resolveMetadata : bool) : WM (option RescueCandidate) :=
  if negb (acceptableLog entry) then mret None
  else
    let* token := (if resolveMetadata then resolveToken (Log_Address entry) else mret (fallbackToken (Log_Address entry))) in
    mret (Some (candidateOf entry token)).

Definition recordCandidate (candidate : RescueCandidate) (result : option PutResult) : WM unit :=
  let symbol := sanitizeSymbol (Token_Symbol (Candidate_Token candidate)) in
  let address := Token_Address (Candidate_Token candidate) in
  let symbol := if bytes_eqb symbol [] && negb (bytes_eqb address zeroAddress) then addressFallback address else symbol in
  let report code := wcall (W_Record (NoticeCandidate code (Candidate_ID candidate) symbol)) in
  match result with
  | Some PutInserted => report eventCandidateInserted
  | Some PutAlreadyPending => report eventCandidatePending
  | Some PutAlreadyAcknowledged => report eventCandidateAcknowledged
  | None =>
      let* _ := recordFailure eventCandidatePutFailed errorCandidateResult in
      fail (failure "watcher.candidate.result" ErrorInternal errorCandidateResult false None)
  end.

Definition putCandidate (candidate : RescueCandidate) : WM unit :=
  let* r := wcall (W_Put candidate) in
  match r with
  | Err e => fail (failure "watcher.candidate.put" ErrorInternal errorCandidatePut true (Some (OfStore e)))
  | Ok result => recordCandidate candidate result
  end.

(** ** The finalized scan *)

Definition invalidLog (operation : String.string) : GoError := failure operation ErrorRPCInvalidResponse errorInvalidLog false None.

(** The candidates of a block's logs, a repeated one once. *)
Fixpoint blockLogs (number : Z) (hash : Hash) (logs : list Log) (seen : list CandidateID) : WM (list RescueCandidate) :=
  match logs with
  | [] => mret []
  | entry :: logs =>
      stop negb (Log_BlockNumber entry =? number) || negb (bytes_eqb (Log_BlockHash entry) hash) || Log_Removed entry
        with fail (invalidLog "watcher.block.log") in
      let* candidate := logCandidate entry true in
      let* ctxErr := wcall W_CtxErr in
      match ctxErr, candidate with
      | Some e, _ => fail (OfContext e)
      | None, None => fail (invalidLog "watcher.block.log")
      | None, Some candidate =>
          if bool_decide (Candidate_ID candidate ∈ seen) then blockLogs number hash logs seen
          else let* rest := blockLogs number hash logs (Candidate_ID candidate :: seen) in mret (candidate :: rest)
      end
  end.

(** The discovery overflow is reported once. *)
Definition reportOverflow : WM unit :=
  let* reported := gets w_overflowReported in
  when (negb reported)
    (let* r := wcall (W_DiscoveryOverflowed (Svc_networkID svc)) in
     match r with
     | Err e => fail (failure "watcher.discovery.state" ErrorInternal errorStateRead true (Some (OfStore e)))
     | Ok overflowed =>
         when overflowed
           (let* _ := recordFailure eventDiscoveryOverflow errorDiscoveryLimit in
            modify (fun s => mkWatcherState (w_fastSeen s) (w_metadata s) (w_metadataOrder s) true))
     end).

(** One block of the scan: its header, its logs, its commit.  Returns its hash. *)
Definition scanBlock (number : Z) (previousHash : Hash) : WM Hash :=
  let* r := wcall (W_Header number) in
  let* block := reading "watcher.block.header" errorFinalizedRead r in
  stop negb (bytes_eqb previousHash zeroHash) && negb (bytes_eqb (Ref_ParentHash block) previousHash)
    with fail (failure "watcher.block.parent" ErrorRPCInvalidResponse errorFinalizedReorg false None) in
  let* r := wcall (W_FilterLogs (queryAt (Ref_Hash block))) in
  let* logs := reading "watcher.block.logs" errorLogRead r in
  let* found := blockLogs number (Ref_Hash block) logs [] in
  let native := NewBlockCandidate (Svc_networkID svc) CandidateNative (Svc_source svc) (Ref_Hash block) number in
  let candidates := if Svc_fast svc then found else native :: found in
  let* r := wcall (W_CommitCanonicalBlock (mkCanonicalBlock (mkCheckpoint (Svc_networkID svc) number (Ref_Hash block)) (Ref_ParentHash block) candidates)) in
  match r with
  | Err e => fail (failure "watcher.state.commit" ErrorInternal errorStateCommit true (Some (OfStore e)))
  | Ok _ =>
      let* _ := reportOverflow in
      let* _ := forEach candidates (fun c => recordCandidate c (Some PutInserted)) in
      mret (Ref_Hash block)
  end.

Fixpoint scanLoop (fuel : nat) (number finalized : Z) (previousHash : Hash) : WM unit :=
  match fuel with
  | O => diverge
  | S fuel =>
      stop finalized <? number with mret tt in
      let* hash := scanBlock number previousHash in
      if (number =? finalized) || (number =? 2 ^ 64 - 1) then mret tt
      else scanLoop fuel (uint64_wrap (number + 1)) finalized hash
  end.

(** The first block to scan and the hash it must link to, unless nothing is new. *)
Definition scanStart (finalized : BlockRef) : WM (option (Z * Hash)) :=
  let* r := wcall (W_LoadScanCursor (Svc_networkID svc)) in
  match r with
  | Err e => fail (failure "watcher.state.load" ErrorInternal errorStateRead true (Some (OfStore e)))
  | Ok (Some cursor) =>
      let* r := wcall (W_Header (CP_BlockNumber cursor)) in
      let* persisted := reading "watcher.cursor.verify" errorFinalizedRead r in
      stop negb (bytes_eqb (Ref_Hash persisted) (CP_BlockHash cursor)) || (Ref_Number finalized <? CP_BlockNumber cursor)
        with fail (failure "watcher.cursor.reorg" ErrorRPCInvalidResponse errorFinalizedReorg false None) in
      stop Ref_Number finalized =? CP_BlockNumber cursor with mret None in
      mret (Some (uint64_wrap (CP_BlockNumber cursor + 1), CP_BlockHash cursor))
  | Ok None =>
      mret (Some (if Svc_lookbackBlocks svc - 1 <=? Ref_Number finalized then Ref_Number finalized - Svc_lookbackBlocks svc + 1 else 0, zeroHash))
  end.

(** As many rounds as there are blocks from the first one to the finalized one. *)
Definition scan : WM unit :=
  let* r := wcall W_Finalized in
  let* finalized := reading "watcher.finalized" errorFinalizedRead r in
  let* start := scanStart finalized in
  match start with
  | None => mret tt
  | Some (next, previousHash) => scanLoop (S (Z.to_nat (Ref_Number finalized - next))) next (Ref_Number finalized) previousHash
  end.

(** ** The fast scan *)

Fixpoint fastLogs (number : Z) (hash : Hash) (logs : list Log) : WM unit :=
  match logs with
  | [] => mret tt
  | entry :: logs =>
      let* candidate := logCandidate entry false in
      match candidate with
      | Some c =>
          stop Log_Removed entry || negb (bytes_eqb (Log_BlockHash entry) hash) || negb (Log_BlockNumber entry =? number)
            with fail (invalidLog "watcher.latest_log") in
          let* _ := putCandidate (NewFastTokenCandidate (Candidate_Network c) (Candidate_Source c) (Candidate_Token c) (Candidate_BlockHash c)
                                    (Candidate_TxHash c) (Candidate_BlockNumber c) (Candidate_LogIndex c) (Svc_dryRun svc)) in
          fastLogs number hash logs
      | None => fail (invalidLog "watcher.latest_log")
      end
  end.

Definition setFastSeen (f : gmap Z Hash -> gmap Z Hash) : WM unit :=
  modify (fun s => mkWatcherState (f (w_fastSeen s)) (w_metadata s) (w_metadataOrder s) (w_overflowReported s)).

(** The head itself, or the block of a number below it. *)
Definition fastBlock (head : BlockRef) (number : Z) : WM BlockRef :=
  if negb (number =? Ref_Number head)
  then let* r := wcall (W_Header number) in reading "watcher.latest_header" errorFinalizedRead r
  else mret head.

(** From the head down to the first block that was seen or is too old. *)
Fixpoint fastLoop (fuel : nat) (head : BlockRef) (number first : Z) (expectedHash : Hash) : WM unit :=
  match fuel with
  | O => diverge
  | S fuel =>
      let* block := fastBlock head number in
      if negb (bytes_eqb (Ref_Hash block) expectedHash) then readFailure "watcher.latest_branch" errorFinalizedReorg (OfRpc ErrQuorumMismatch)
      else
        let* seen := gets w_fastSeen in
        if bytes_eqb (default zeroHash (seen !! number)) (Ref_Hash block) then mret tt
        else
          let* r := wcall (W_FilterLogs (queryAt (Ref_Hash block))) in
          let* logs := reading "watcher.latest_logs" errorLogRead r in
          let* _ := fastLogs number (Ref_Hash block) logs in
          let* _ := setFastSeen (<[number := Ref_Hash block]>) in
          if number =? first then mret tt
          else fastLoop fuel head (uint64_wrap (number - 1)) first (Ref_ParentHash block)
  end.

Definition firstFast (head : BlockRef) : Z :=
  if Svc_lookbackBlocks svc - 1 <=? Ref_Number head then Ref_Number head - Svc_lookbackBlocks svc + 1 else 0.

Definition scanFast : WM unit :=
  if negb (Svc_hasLatest svc) then panic
  else
    let* r := wcall W_Latest in
    let* head := reading "watcher.latest" errorFinalizedRead r in
    stop bytes_eqb (Ref_Hash head) zeroHash with fail (IsSentinel ErrInvalidDependencies) in
    let* seen := gets w_fastSeen in
    if bytes_eqb (default zeroHash (seen !! Ref_Number head)) (Ref_Hash head) then mret tt
    else
      let first := firstFast head in
      let* _ := fastLoop (S (Z.to_nat (Ref_Number head - first))) head (Ref_Number head) first (Ref_Hash head) in
      setFastSeen (filter (fun '(number, _) => first <= number <= Ref_Number head)).

Definition scanLive : WM unit := if Svc_fast svc then scanFast else scan.

(** ** Observed logs and reconciliation *)

Definition isSaturated (e : StoreError) : bool := match e with ErrObservationSaturated => true | _ => false end.

Definition observeLog (entry : Log) : WM unit :=
  let* candidate := logCandidate entry false in
  match candidate with
  | None => recordFailure eventLogRejected errorInvalidLog
  | Some candidate =>
      let* r := wcall (W_PutObserved candidate) in
      match r with
      | Err e =>
          if isSaturated e then recordFailure eventObservationSaturated errorObservationLimit
          else fail (failure "watcher.observation.put" ErrorInternal errorCandidatePut true (Some (OfStore e)))
      | Ok result =>
          let* _ := try (recordCandidate candidate result) in
          if negb (Log_Removed entry) then (if Svc_fast svc then scanFast else mret tt)
          else
            let* r := wcall (W_MarkRemoved (Candidate_ID candidate)) in
            match r with
            | Err e => fail (failure "watcher.observation.remove" ErrorInternal errorStateCommit true (Some (OfStore e)))
            | Ok _ => mret tt
            end
      end
  end.

Definition observationSlot (interval : Duration) : WM Z :=
  let* t := wcall W_Now in
  mret (Z.quot (Z.max (Unix t) 0) (Z.quot interval Second)).

Definition reconcile : WM unit :=
  let* observation := observationSlot reconciliationInterval in
  let* _ := putCandidate (NewPeriodicCandidate (Svc_networkID svc) (Svc_source svc) (Svc_generation svc) observation) in
  let* r := wcall (W_DiscoveredTokens (Svc_networkID svc)) in
  match r with
  | Err e => fail (failure "watcher.reconcile.load" ErrorInternal errorStateRead true (Some (OfStore e)))
  | Ok discovered =>
      stop maximumDiscoveredTokens <? Z.of_nat (length discovered) with fail (failure "watcher.reconcile.limit" ErrorInternal errorStateRead false None) in
      forEach discovered (fun address =>
        if bool_decide (address ∈ Svc_allowedTokens svc) then mret tt
        else
          let* token := (if Svc_fast svc then mret (fallbackToken address) else resolveToken address) in
          putCandidate (NewTokenReconciliationCandidate (Svc_networkID svc) (Svc_source svc) token (Svc_generation svc) observation))
  end.

(** ** The loops *)

Definition checkCtx : WM unit :=
  let* ctxErr := wcall W_CtxErr in
  match ctxErr with Some e => fail (OfContext e) | None => mret tt end.

Definition tickerClosed : GoError := failure "watcher.ticker" ErrorInternal errorTickerClosed false None.
Definition subscriptionLost : GoError := failure "watcher.subscription" ErrorRPCTransient errorLogSubscription true None.

(** [return ctx.Err()] after the context is done. *)
Definition contextDone {A} : WM A :=
  let* ctxErr := wcall W_CtxErr in fail (OfContext (default Canceled ctxErr)).

Definition newTickers : WM unit :=
  let* scanTicker := wcall (W_NewTicker pollInterval) in
  let* reconcileTicker := wcall (W_NewTicker reconciliationInterval) in
  when (negb scanTicker || negb reconcileTicker) (fail tickerClosed).

(** One turn of the live select: whether heads are still watched. *)
Definition liveTurn (heads : bool) (wake : LiveWake + HeadWake) : WM bool :=
  match wake with
  | inl LiveDone => contextDone
  | inl (LiveLogError open) =>
      let* _ := checkCtx in
      let* _ := when (negb open) (recordFailure eventSubscriptionFallback errorLogSubscription) in
      fail subscriptionLost
  | inl (LiveLog None) => fail subscriptionLost
  | inl (LiveLog (Some entry)) => let* _ := observeLog entry in mret heads
  | inr HeadClosed => let* _ := recordFailure eventHeadUnavailable errorHeadSubscription in mret false
  | inr (HeadReceived header) =>
      if (match header with Some h => match Hdr_Number h with Some n => isUint64 n | None => false end | None => false end)
      then let* _ := scanLive in mret heads
      else let* _ := recordFailure eventReadFailed errorInvalidHead in mret heads
  | inr HeadError =>
      let* _ := checkCtx in
      let* _ := recordFailure eventHeadUnavailable errorHeadSubscription in
      mret false
  | inl (LiveScanTick open) => if negb open then fail tickerClosed else let* _ := scanLive in mret heads
  | inl (LiveReconcileTick open) => if negb open then fail tickerClosed else let* _ := reconcile in mret heads
  end.

Definition liveSelect (heads : bool) : WM (LiveWake + HeadWake) :=
  if heads then wcall (W_LiveSelect true) else let* wake := wcall (W_LiveSelect false) in mret (inl wake).

Fixpoint liveLoop (fuel : nat) (heads : bool) : WM unit :=
  match fuel with
  | O => diverge
  | S fuel =>
      let* wake := liveSelect heads in
      let* heads := liveTurn heads wake in
      liveLoop fuel heads
  end.

Definition watchSubscriptions (fuel : nat) : WM unit :=
  let* subscribed := wcall (W_SubscribeFilterLogs transferQuery) in
  if negb subscribed then
    let* _ := checkCtx in
    let* _ := recordFailure eventSubscriptionFallback errorLogSubscription in
    fail (IsSentinel errPollingFallback)
  else
    let* heads := wcall W_SubscribeNewHead in
    let* _ := when (negb heads) (let* _ := checkCtx in recordFailure eventHeadUnavailable errorHeadSubscription) in
    let* _ := scanLive in
    let* _ := newTickers in
    liveLoop fuel heads.

Definition pollTurn (wake : PollWake) : WM unit :=
  match wake with
  | PollDone => contextDone
  | PollScanTick open => if negb open then fail tickerClosed else scanLive
  | PollReconcileTick open => if negb open then fail tickerClosed else reconcile
  end.

Fixpoint pollLoop (fuel : nat) : WM unit :=
  match fuel with
  | O => diverge
  | S fuel => let* wake := wcall W_PollSelect in let* _ := pollTurn wake in pollLoop fuel
  end.

Definition poll (fuel : nat) : WM unit := let* _ := newTickers in pollLoop fuel.

Definition runLive (fuel : nat) : WM unit :=
  let* _ := checkCtx in
  let* _ := scanLive in
  let* _ := (if Svc_hasReady svc then let* e := wcall W_Ready in match e with Some e => fail e | None => mret tt end else mret tt) in
  let* r := try (watchSubscriptions fuel) in
  match r with
  | Ok _ => mret tt
  | Err e =>
      if negb (errors_Is (isSentinel errPollingFallback) e) then fail e
      else let* _ := checkCtx in poll fuel
  end.

Definition backfillTurn (wake : BackfillWake) : WM unit :=
  match wake with
  | BackfillDone => contextDone
  | BackfillTick open => if negb open then fail (IsSentinel ErrInvalidDependencies) else scan
  end.

Fixpoint backfillLoop (fuel : nat) : WM unit :=
  match fuel with
  | O => diverge
  | S fuel => let* wake := wcall W_BackfillSelect in let* _ := backfillTurn wake in backfillLoop fuel
  end.

Definition runFinalizedBackfill (fuel : nat) : WM unit :=
  let* _ := scan in
  let* ticker := wcall (W_NewTicker pollInterval) in
  stop negb ticker with fail (IsSentinel ErrInvalidDependencies) in
  backfillLoop fuel.

(** In fast mode the live watch and the finalized scan run side by side.  The
    former changes only [w_fastSeen], the latter the rest, so each has its copy of
    the state; of the error of the second to end nothing is kept. *)
Definition Run (fuel : nat) (s : WatcherState) : prog wanswer (result GoError unit) :=
  if negb (Svc_fast svc) then bind (runLive fuel s) (fun sr => Ret sr.2)
  else
    bind (race (fun k => Vis W_Schedule k) (runLive fuel s) (runFinalizedBackfill fuel s))
      (fun first => Ret (match first with inl sr => sr.2 | inr sr => sr.2 end)).

End Operations.

End Watcher.
Export Watcher.
