(* ===== verification/WatcherLogic.v ===== *)
(** * Reasoning about the watcher

    The two goroutines of the fast mode share the trace, so a function of the
    watcher is judged amid the calls of the other one: [amid N] lets events of [N]
    happen after every call.  [WWP] is the weakest precondition of a function in
    that environment, [wp_race] puts the two halves together. *)

From S2P Require Import Prelude Programs GoTime Bytes Sha256 Domain Bolt BudgetModel StoreModel RpcQuorum RescueErrors Contracts Watcher.

Module WatcherLogic.

Abbreviation wevent := (Programs.event wanswer).
Abbreviation WEvent := (@Event WEff wanswer).
Definition wtrace := list wevent.

(** After a call, events of the other goroutine. *)
Definition amid (N : wevent -> Prop) (w : wtrace) (c : WEff) (x : wanswer c) (w' : wtrace) : Prop :=
  exists others, Forall N others /\ w' = others ++ Event c x :: w.

Lemma wp_env_mono {W A} (env env' : W -> forall c : WEff, wanswer c -> W -> Prop) guar panics (p : prog wanswer A) Q w :
  (forall w c x w', env' w c x w' -> env w c x w') -> wp env guar panics p Q w -> wp env' guar panics p Q w.
Proof.
  intros He. revert w. induction p as [a|c k IH| |]; cbn; intros w H; auto. destruct H as [Hg H]. split; [done|]. intros x w' Hx. apply IH, H, He, Hx.
Qed.

(** A program whose calls make only events of [N]. *)
Abbreviation within N p := (sat (fun c => forall x, N (Event c x)) (fun _ => True) p).

Section Race.
Context (guar : wtrace -> WEff -> Prop) (Np Nq : wevent -> Prop).
Hypothesis guar_schedule : forall w, guar w W_Schedule.
Hypothesis Np_schedule : forall b, Np (Event W_Schedule b).
Hypothesis Nq_schedule : forall b, Nq (Event W_Schedule b).

Abbreviation anyhow := (fun _ _ => True).

(** Good from here and after any events of the other side. *)
Definition held {A} (N : wevent -> Prop) (p : prog wanswer A) (w : wtrace) : Prop :=
  forall others, Forall N others -> wp (amid N) guar True p anyhow (others ++ w).

Lemma held_here {A} N (p : prog wanswer A) w : held N p w -> wp traced guar True p anyhow w.
Proof. intros H. eapply wp_env_mono; [|exact (H [] (List.Forall_nil _))]. intros w0 c x w' ->. by exists []. Qed.

Lemma held_event {A} N (p : prog wanswer A) w e : N e -> held N p w -> held N p (e :: w).
Proof. intros He H others Ho. specialize (H (others ++ [e])). rewrite <- app_assoc in H. apply H. apply Forall_app. auto. Qed.

(** The program moves; after its call it is still good. *)
Lemma held_step {A} (N : wevent -> Prop) c k w : held (A := A) N (Vis c k) w -> guar w c /\ forall x, held N (k x) (Event c x :: w).
Proof.
  intros H. destruct (H [] (List.Forall_nil _)) as [Hg Hk]. split; [done|]. intros x others Ho. apply Hk. by exists others.
Qed.

Lemma held_then {A B} N (p : prog wanswer A) (b : B) w : held N p w -> wp traced guar True (bind p (fun _ => Ret b)) anyhow w.
Proof. intros H. apply wp_bind. eapply wp_mono; [by eapply held_here|]. done. Qed.

Lemma wp_race {A B} (p : prog wanswer A) (q : prog wanswer B) w :
  held Nq p w -> held Np q w -> within Np p -> within Nq q -> wp traced guar True (race (fun k => Vis W_Schedule k) p q) anyhow w.
Proof.
  revert q w. induction p as [a|c k IHp| |]; intros q; induction q as [b|d l IHq| |]; intros w Hp Hq Wp Wq;
    (split; [apply guar_schedule|]); intros left w' ->;
    pose proof (held_event _ _ _ _ (Nq_schedule left) Hp) as Hp'; pose proof (held_event _ _ _ _ (Np_schedule left) Hq) as Hq'.
  all: destruct left; try exact I.
  1: exact (held_then Np _ _ _ Hq').
  3: exact (held_then Nq _ _ _ Hp').
  all: first [destruct (held_step _ _ _ _ Hp') as [Hg Hk]; destruct Wp as [Wc Wk]; split; [done|]; intros x w' ->;
                apply IHp; [apply Hk|by apply held_event|apply Wk|done]
             |destruct (held_step _ _ _ _ Hq') as [Hg Hk]; destruct Wq as [Wc Wk]; split; [done|]; intros y w' ->;
                apply IHq; [by apply held_event|apply Hk|done|apply Wk]].
Qed.

End Race.

(** ** The state *)

(** The token cache: each token under its address, as many as there are entries in
    the order of their arrival, at most [metadataCacheLimit]. *)
Record wellCached (s : WatcherState) : Prop := {
  wc_keyed : map_Forall (fun address token => Token_Address token = address) (w_metadata s);
  wc_order : NoDup (w_metadataOrder s);
  wc_dom : dom (w_metadata s) = (list_to_set (w_metadataOrder s) : gset Address);
  wc_bound : (length (w_metadataOrder s) <= metadataCacheLimit)%nat }.

(** What [NewService] establishes. *)
Record soundService (svc : Service) : Prop := {
  ss_source : Svc_source svc <> zeroAddress;
  ss_network : 0 < Svc_networkID svc;
  ss_lookback : 1 <= Svc_lookbackBlocks svc <= maximumLookbackBlocks;
  ss_known : map_Forall (fun address token => Token_Address token = address) (Svc_knownTokens svc);
  ss_allowed : zeroAddress ∉ Svc_allowedTokens svc;
  ss_latest : Svc_fast svc = true -> Svc_hasLatest svc = true }.

Lemma addTokens_sound tokens known allowed known' allowed' :
  foldM addToken tokens (known, allowed) = Ok (known', allowed') ->
  map_Forall (fun address token => Token_Address token = address) known -> zeroAddress ∉ allowed ->
  map_Forall (fun address token => Token_Address token = address) known' /\ zeroAddress ∉ allowed'.
Proof.
  revert known allowed. induction tokens as [|t tokens IH]; intros known allowed; cbn [foldM addToken]; [intros [= <- <-]; auto|].
  destruct (bytes_eqb (Token_Address t) zeroAddress) eqn:E; [done|]. intros H Hk Ha. unfold bytes_eqb in E. bool_hyps.
  eapply IH; [exact H| |set_solver]. destruct (negb _); [|done]. by apply map_Forall_insert_2.
Qed.

Lemma NewService_sound d svc : 0 <= Dep_LookbackBlocks d -> NewService d = Ok svc -> soundService svc.
Proof.
  intros Hl. unfold NewService. ok E. ok E2. destruct (foldM addToken (Dep_Tokens d) (∅, ∅)) as [[known allowed]|e] eqn:Ef; [|done]. intros [= <-].
  unfold bytes_eqb in *. bool_hyps. apply addTokens_sound in Ef as [Hk Ha]; [|apply map_Forall_empty|set_solver].
  split; cbn; try done; try lia. intros Hf. rewrite Hf in E2. cbn in E2. by bool_hyps.
Qed.

(** ** What the past showed *)

(** Where the scan stands: the answer of the last load of the cursor, moved by each
    commit since; unknown before the first load and after a failed call. *)
Definition progress (e : wevent) (at_ : option (option Checkpoint)) : option (option Checkpoint) :=
  match e with
  | Event (W_LoadScanCursor _) r => match r with Ok cursor => Some cursor | Err _ => None end
  | Event (W_CommitCanonicalBlock b) r => match r with Ok _ => Some (Some (CB_Checkpoint b)) | Err _ => None end
  | _ => at_
  end.

Definition cursorOf (past : wtrace) : option (option Checkpoint) := foldr progress None past.

(** A block the fast scan reached from a latest one, parent by parent. *)
Inductive onBranch (past : wtrace) : Z -> BlockRef -> Prop :=
| branch_head ref : WEvent W_Latest (Ok ref) ∈ past -> onBranch past (Ref_Number ref) ref
| branch_parent n child ref :
    onBranch past n child -> WEvent (W_Header (uint64_wrap (n - 1))) (Ok ref) ∈ past -> Ref_Hash ref = Ref_ParentHash child ->
    onBranch past (uint64_wrap (n - 1)) ref.

Definition heard (past : wtrace) (entry : Log) : Prop :=
  WEvent (W_LiveSelect true) (inl (LiveLog (Some entry))) ∈ past \/ WEvent (W_LiveSelect false) (LiveLog (Some entry)) ∈ past.

Section Guarantee.
Context {AB : Abi} {WC : WatchCodec} {WA : Watch}.
Local Abbreviation svc := service.

Definition represents (entry : Log) (c : RescueCandidate) : Prop :=
  exists token, Token_Address token = Log_Address entry /\ c = candidateOf entry token.

(** Every log is a Transfer to the source in this block and has its candidate,
    every candidate has its log, and none is repeated. *)
Record extracts (number : Z) (hash : Hash) (logs : list Log) (found : list RescueCandidate) : Prop := {
  ex_logs : Forall (fun entry => Log_BlockNumber entry = number /\ Log_BlockHash entry = hash /\ Log_Removed entry = false /\ acceptableLog entry = true) logs;
  ex_sound : Forall (fun c => exists entry, entry ∈ logs /\ represents entry c) found;
  ex_complete : Forall (fun entry => exists c c', c ∈ found /\ represents entry c' /\ Candidate_ID c = Candidate_ID c') logs;
  ex_once : NoDup (map Candidate_ID found) }.

(** The block follows the cursor, or starts the scan [lookbackBlocks] below a
    finalized block. *)
Definition follows (past : wtrace) (number : Z) (parent : Hash) (finalized : BlockRef) : Prop :=
  match cursorOf past with
  | None => False
  | Some None => number = if Svc_lookbackBlocks svc - 1 <=? Ref_Number finalized then Ref_Number finalized - Svc_lookbackBlocks svc + 1 else 0
  | Some (Some cursor) => number = uint64_wrap (CP_BlockNumber cursor + 1) /\ (CP_BlockHash cursor = zeroHash \/ parent = CP_BlockHash cursor)
  end.

Definition committable (past : wtrace) (b : CanonicalBlock) : Prop :=
  exists finalized block logs found,
    let number := CP_BlockNumber (CB_Checkpoint b) in
    WEvent W_Finalized (Ok finalized) ∈ past /\ number <= Ref_Number finalized /\
    WEvent (W_Header number) (Ok block) ∈ past /\ CB_Checkpoint b = mkCheckpoint (Svc_networkID svc) number (Ref_Hash block) /\
    CB_ParentHash b = Ref_ParentHash block /\ follows past number (Ref_ParentHash block) finalized /\
    WEvent (W_FilterLogs (queryAt (Ref_Hash block))) (Ok logs) ∈ past /\ extracts number (Ref_Hash block) logs found /\
    CB_Candidates b = if Svc_fast svc then found else NewBlockCandidate (Svc_networkID svc) CandidateNative (Svc_source svc) (Ref_Hash block) number :: found.

(** The slot of the periodic reconciliation. *)
Definition slotOf (t : Time) : Z := Z.quot (Z.max (Unix t) 0) (Z.quot reconciliationInterval Second).

(** A fast candidate of a log of the latest blocks. *)
Definition fastCandidate (past : wtrace) (c : RescueCandidate) : Prop :=
  exists number block logs entry,
    Svc_fast svc = true /\ onBranch past number block /\ WEvent (W_FilterLogs (queryAt (Ref_Hash block))) (Ok logs) ∈ past /\ entry ∈ logs /\
    acceptableLog entry = true /\ Log_Removed entry = false /\ Log_BlockHash entry = Ref_Hash block /\ Log_BlockNumber entry = number /\
    c = NewFastTokenCandidate (Svc_networkID svc) (Svc_source svc) (fallbackToken (Log_Address entry)) (Ref_Hash block) (Log_TxHash entry)
          number (Log_Index entry) (Svc_dryRun svc).

(** The periodic check of the native balance. *)
Definition periodicCandidate (past : wtrace) (c : RescueCandidate) : Prop :=
  exists t, WEvent W_Now t ∈ past /\ c = NewPeriodicCandidate (Svc_networkID svc) (Svc_source svc) (Svc_generation svc) (slotOf t).

(** The periodic check of a discovered token that is not configured. *)
Definition discoveredCandidate (past : wtrace) (c : RescueCandidate) : Prop :=
  exists t discovered token,
    WEvent W_Now t ∈ past /\ WEvent (W_DiscoveredTokens (Svc_networkID svc)) (Ok discovered) ∈ past /\
    Z.of_nat (length discovered) <= maximumDiscoveredTokens /\ Token_Address token ∈ discovered /\ Token_Address token ∉ Svc_allowedTokens svc /\
    c = NewTokenReconciliationCandidate (Svc_networkID svc) (Svc_source svc) token (Svc_generation svc) (slotOf t).

Definition observedCandidate (past : wtrace) (entry : Log) (c : RescueCandidate) : Prop :=
  heard past entry /\ acceptableLog entry = true /\ c = candidateOf entry (fallbackToken (Log_Address entry)).

Definition wallowed (past : wtrace) (c : WEff) : Prop :=
  match c with
  | W_CommitCanonicalBlock b => committable past b
  | W_Put c => fastCandidate past c \/ periodicCandidate past c \/ discoveredCandidate past c
  | W_PutObserved c => exists entry, observedCandidate past entry c
  | W_MarkRemoved id =>
      exists entry c r, observedCandidate past entry c /\ Log_Removed entry = true /\ WEvent (W_PutObserved c) (Ok r) ∈ past /\ id = Candidate_ID c
  | _ => True
  end.

End Guarantee.

(** ** The past grows *)

Lemma shown_suffix (e : wevent) (past past' : wtrace) : past `suffix_of` past' -> e ∈ past -> e ∈ past'.
Proof. intros [k ->] H. apply elem_of_app. by right. Qed.

Create HintDb shown.
#[export] Hint Resolve shown_suffix : shown.

Lemma onBranch_suffix past past' n ref : past `suffix_of` past' -> onBranch past n ref -> onBranch past' n ref.
Proof. intros Hs H. induction H; [apply branch_head|eapply branch_parent]; eauto with shown. Qed.

Lemma heard_suffix past past' entry : past `suffix_of` past' -> heard past entry -> heard past' entry.
Proof. intros Hs [H|H]; [left|right]; eauto with shown. Qed.

#[export] Hint Resolve onBranch_suffix heard_suffix : shown.

(** Not a call the guarantee or the cursor speaks of. *)
Definition calm (c : WEff) : Prop :=
  match c with
  | W_Put _ | W_PutObserved _ | W_MarkRemoved _ | W_LoadScanCursor _ | W_CommitCanonicalBlock _ => False
  | _ => True
  end.

(** An event that leaves the cursor where it is. *)
Definition stationary (e : wevent) : Prop :=
  match ev_call e with W_LoadScanCursor _ | W_CommitCanonicalBlock _ => False | _ => True end.

Lemma cursorOf_stationary e past : stationary e -> cursorOf (e :: past) = cursorOf past.
Proof. destruct e as [[] x]; done. Qed.

Lemma cursorOf_others others past : Forall stationary others -> cursorOf (others ++ past) = cursorOf past.
Proof. induction 1 as [|e others He _ IH]; [done|]. cbn [app]. by rewrite cursorOf_stationary. Qed.

(** ** Functions that only read and report *)

Section Steady.
Context {AB : Abi} {WC : WatchCodec} {WA : Watch}.

(** Calm calls; the cache stays well formed and a result satisfies [R]. *)
Definition steady {A} (m : WM A) (R : A -> Prop) : Prop :=
  forall s, wellCached s -> sat calm (fun sr => wellCached sr.1 /\ forall a, sr.2 = Ok a -> R a) (m s).

Lemma steady_ret {A} (a : A) (R : A -> Prop) : R a -> steady (mret a) R.
Proof. intros Ha s Hs. split; [done|]. by intros ? [= <-]. Qed.

Lemma steady_fail {A} e (R : A -> Prop) : steady (fail e) R.
Proof. intros s Hs. split; [done|]. by intros. Qed.

Lemma steady_call c (R : wanswer c -> Prop) : calm c -> (forall x, R x) -> steady (wcall c) R.
Proof. intros Hc HR s Hs. split; [done|]. intros x. split; [done|]. by intros ? [= <-]. Qed.

Lemma steady_mbind {A B} (m : WM A) (f : A -> WM B) P R : steady m P -> (forall a, P a -> steady (f a) R) -> steady (mbind m f) R.
Proof.
  intros Hm Hf s Hs. apply sat_mbind. eapply sat_mono; [by apply Hm|]. intros [s' [a|e]] [Hs' Ha]; cbn in *.
  - apply Hf; auto.
  - split; [done|]. by intros.
Qed.

(** The usual case: nothing is known of the first result. *)
Lemma steady_then {A B} (m : WM A) (f : A -> WM B) R : steady m (fun _ => True) -> (forall a, steady (f a) R) -> steady (mbind m f) R.
Proof. intros Hm Hf. eapply steady_mbind; [done|]. auto. Qed.

Lemma steady_weaken {A} (m : WM A) (P R : A -> Prop) : steady m P -> (forall a, P a -> R a) -> steady m R.
Proof. intros Hm HR s Hs. eapply sat_mono; [by apply Hm|]. intros sr [H1 H2]. auto. Qed.

Lemma steady_try {A} (m : WM A) : steady m (fun _ => True) -> steady (try m) (fun _ => True).
Proof. intros Hm s Hs. apply sat_try. eapply sat_mono; [by apply Hm|]. intros sr [H _]. auto. Qed.

Lemma steady_gets {A} (f : WatcherState -> A) (R : A -> Prop) : (forall s, wellCached s -> R (f s)) -> steady (gets f) R.
Proof. intros H s Hs. split; [done|]. intros a [= <-]. auto. Qed.

Lemma steady_modify f : (forall s, wellCached s -> wellCached (f s)) -> steady (modify f) (fun _ => True).
Proof. intros H s Hs. split; [by apply H|]. auto. Qed.

Lemma steady_when b m : steady m (fun _ => True) -> steady (when b m) (fun _ => True).
Proof. destruct b; [done|]. intros _. by apply steady_ret. Qed.

Lemma steady_forEach {A} (l : list A) body : (forall a, steady (body a) (fun _ => True)) -> steady (forEach l body) (fun _ => True).
Proof. intros H. induction l as [|a l IH]; [by apply steady_ret|]. apply steady_then; auto. Qed.

End Steady.

Create HintDb steady.
#[export] Hint Resolve steady_ret steady_fail : steady.

Ltac steady_step :=
  match goal with
  | |- steady (mret _) _ => apply steady_ret
  | |- steady (fail _) _ => apply steady_fail
  | |- steady (wcall _) _ => apply steady_call; [exact I|]
  | |- steady _ _ => solve [auto with steady]
  | |- steady (mbind _ _) _ => apply steady_then; [|intros ?]
  | |- steady (try _) _ => apply steady_try
  | |- steady (when _ _) _ => apply steady_when
  | |- steady (forEach _ _) _ => apply steady_forEach; intros ?
  | |- steady (gets _) _ => apply steady_gets
  | |- steady (match ?x with _ => _ end) _ => destruct x
  | |- steady (let _ := _ in _) _ => cbv zeta
  end.
Ltac solve_steady := repeat steady_step; auto.

End WatcherLogic.
Export WatcherLogic.
