(* ===== verification/WatcherScan.v ===== *)
(** * The watcher keeps its guarantee

    Every call of the watcher satisfies [wallowed] and the token cache stays well
    formed, whatever the other components answer and, in the fast mode, however the
    two goroutines interleave.  [steady] functions only read and report; [good]
    ones may also store candidates, for reasons the past shows; the finalized scan
    follows the cursor. *)

From S2P Require Import Prelude Programs GoTime Bytes Sha256 Domain Bolt BudgetModel StoreModel RpcQuorum RescueErrors Contracts Watcher WatcherLogic.

Module WatcherScan.

Section Scan.
Context {AB : Abi} {WC : WatchCodec} {WA : Watch}.
Local Abbreviation svc := service.
Local Abbreviation quietly m := (steady m (fun _ => True)).

(** ** Reports and reads *)

Lemma steady_recordFailure event error : quietly (recordFailure event error).
Proof. unfold recordFailure. solve_steady. Qed.
Hint Resolve steady_recordFailure : steady.

Lemma steady_readFailure {A} operation code cause (R : A -> Prop) : steady (readFailure operation code cause) R.
Proof. unfold readFailure. solve_steady. Qed.

Lemma steady_reading {A} operation code (r : result RpcError A) : steady (reading operation code r) (fun a => r = Ok a).
Proof. destruct r; cbn; [by apply steady_ret|apply steady_readFailure]. Qed.
Hint Resolve steady_readFailure : steady.

Lemma steady_metadataCall address data : quietly (metadataCall address data).
Proof. unfold metadataCall. solve_steady. Qed.
Hint Resolve steady_metadataCall : steady.

Lemma steady_readSymbol address : quietly (readSymbol address).
Proof. unfold readSymbol. solve_steady. Qed.
Lemma steady_readDecimals address : quietly (readDecimals address).
Proof. unfold readDecimals. solve_steady. Qed.
Hint Resolve steady_readSymbol steady_readDecimals : steady.

Lemma steady_recordCandidate c r : quietly (recordCandidate c r).
Proof. unfold recordCandidate. solve_steady. Qed.
Lemma steady_reportOverflow : quietly reportOverflow.
Proof.
  unfold reportOverflow. apply steady_then; [by apply steady_gets|]. intros reported. apply steady_when. apply steady_then; [by apply steady_call|].
  intros [over|e]; [|apply steady_fail]. apply steady_when, steady_then; [apply steady_recordFailure|]. intros _. apply steady_modify. by intros ? [].
Qed.
Lemma steady_checkCtx : quietly checkCtx.
Proof. unfold checkCtx. solve_steady. Qed.
Lemma steady_contextDone {A} : quietly (contextDone (A := A)).
Proof. unfold contextDone. solve_steady. Qed.
Lemma steady_newTickers : quietly newTickers.
Proof. unfold newTickers. solve_steady. Qed.
Lemma steady_observationSlot : quietly (observationSlot reconciliationInterval).
Proof. unfold observationSlot. solve_steady. Qed.
Lemma steady_setFastSeen f : quietly (setFastSeen f).
Proof. apply steady_modify. by intros ? []. Qed.
Hint Resolve steady_recordCandidate steady_reportOverflow steady_checkCtx steady_contextDone steady_newTickers steady_setFastSeen : steady.

(** ** The token cache *)

(** The oldest token makes room for a new one. *)
Lemma steady_cacheMetadata address token : Token_Address token = address -> quietly (cacheMetadata address token).
Proof.
  intros Ht. apply steady_modify. intros s [Hk Ho Hd Hb]. destruct (w_metadata s !! address) eqn:E.
  - split; cbn; [by apply map_Forall_insert_2|done| |done]. rewrite dom_insert_L, Hd. apply elem_of_dom_2 in E. rewrite Hd in E. set_solver.
  - apply not_elem_of_dom in E. rewrite Hd in E.
    assert (Hnew : address ∉ w_metadataOrder s) by set_solver.
    destruct (w_metadataOrder s) as [|oldest rest] eqn:Eo.
    + split; cbn; [by apply map_Forall_insert_2|apply NoDup_singleton|rewrite dom_insert_L, Hd; set_solver|unfold metadataCacheLimit; lia].
    + destruct (Nat.eqb_spec (length (oldest :: rest)) metadataCacheLimit) as [El|El].
      * apply NoDup_cons in Ho as [Hold Ho]. split; cbn.
        -- apply map_Forall_insert_2; [done|]. by apply map_Forall_delete.
        -- apply NoDup_app. split; [done|]. split; [|apply NoDup_singleton]. set_solver.
        -- rewrite dom_insert_L, dom_delete_L, Hd. set_solver.
        -- rewrite length_app. cbn in *. lia.
      * split; cbn.
        -- by apply map_Forall_insert_2.
        -- rewrite app_comm_cons. apply NoDup_app. split; [done|]. split; [|apply NoDup_singleton]. set_solver.
        -- rewrite dom_insert_L, Hd. set_solver.
        -- rewrite length_app. cbn in *. lia.
Qed.

Hypothesis sound : soundService svc.

Lemma fallbackToken_address address : Token_Address (fallbackToken address) = address.
Proof. unfold fallbackToken. destruct (Svc_knownTokens svc !! address) eqn:E; [|done]. exact (ss_known _ sound _ _ E). Qed.

Lemma steady_readMetadata address : steady (readMetadata address) (fun token => Token_Address token = address).
Proof.
  unfold readMetadata. cbv zeta. apply steady_then; [apply steady_readSymbol|]. intros symbol.
  apply steady_then; [by apply steady_call|]. intros ctx. apply steady_then; [solve_steady|]. intros decimals.
  apply steady_then; [solve_steady|]. intros ctx2. apply steady_then; [solve_steady|]. intros _.
  apply steady_then; [apply steady_cacheMetadata; apply fallbackToken_address|]. intros _. apply steady_ret, fallbackToken_address.
Qed.

Lemma steady_resolveToken address : steady (resolveToken address) (fun token => Token_Address token = address).
Proof.
  unfold resolveToken. destruct (Svc_knownTokens svc !! address) eqn:E; [apply steady_ret; exact (ss_known _ sound _ _ E)|].
  eapply (steady_mbind _ _ (fun cached => forall t, cached = Some t -> Token_Address t = address)).
  - apply steady_gets. intros s Hs t Ht. exact (wc_keyed _ Hs _ _ Ht).
  - intros [t|] Ht; [apply steady_ret; auto|apply steady_readMetadata].
Qed.

Lemma steady_logCandidate entry b :
  steady (logCandidate entry b) (fun o => if acceptableLog entry then exists c, o = Some c /\ represents entry c else o = None).
Proof.
  unfold logCandidate. destruct (acceptableLog entry); cbn; [|by apply steady_ret].
  eapply (steady_mbind _ _ (fun token => Token_Address token = Log_Address entry)).
  - destruct b; [apply steady_resolveToken|]. apply steady_ret, fallbackToken_address.
  - intros token Ht. apply steady_ret. eexists. split; [done|]. by exists token.
Qed.

(** ** The candidates of a block *)

(** [extracts], with some candidates found before. *)
Lemma steady_blockLogs number hash logs seen :
  steady (blockLogs number hash logs seen)
    (fun found =>
       Forall (fun entry => Log_BlockNumber entry = number /\ Log_BlockHash entry = hash /\ Log_Removed entry = false /\ acceptableLog entry = true) logs /\
       Forall (fun c => exists entry, entry ∈ logs /\ represents entry c) found /\
       Forall (fun entry => exists c, represents entry c /\ Candidate_ID c ∈ seen ++ map Candidate_ID found) logs /\
       NoDup (map Candidate_ID found) /\ (forall id, id ∈ seen -> id ∉ map Candidate_ID found)).
Proof.
  revert seen. induction logs as [|entry logs IH]; intros seen; cbn.
  { apply steady_ret. repeat split; auto using NoDup_nil_2. set_solver. }
  destruct (negb (Log_BlockNumber entry =? number) || _ || _) eqn:Eb; [apply steady_fail|].
  unfold bytes_eqb in Eb. bool_hyps.
  eapply steady_mbind; [apply steady_logCandidate|]. intros o Ho.
  apply steady_then; [by apply steady_call|]. intros [e|]; [apply steady_fail|].
  destruct (acceptableLog entry) eqn:Ea; [destruct Ho as (c & -> & Hc)|subst o; apply steady_fail].
  destruct (bool_decide (Candidate_ID c ∈ seen)) eqn:Es; bool_hyps.
  - eapply steady_weaken; [apply IH|]. intros found (F1 & F2 & F3 & F4 & F5). repeat split; [by constructor| |constructor; [|done]|done|done].
    + eapply Forall_impl; [exact F2|]. cbn. intros x (en & Hen & Hx). exists en. split; [by right|done].
    + exists c. split; [done|]. apply elem_of_app. by left.
  - eapply steady_mbind; [apply IH|]. intros found (F1 & F2 & F3 & F4 & F5). apply steady_ret. cbn. repeat split.
    + by constructor.
    + constructor; [exists entry; split; [by left|done]|]. eapply Forall_impl; [exact F2|]. cbn. intros x (en & Hen & Hx). exists en. split; [by right|done].
    + constructor; [exists c; set_solver|]. eapply Forall_impl; [exact F3|]. cbn. intros en (x & Hx & Hin). exists x. set_solver.
    + apply NoDup_cons. split; [|done]. apply F5. by left.
    + intros id Hid. apply not_elem_of_cons. split; [by intros ->|]. apply F5. by right.
Qed.

Lemma blockLogs_extracts number hash logs : steady (blockLogs number hash logs []) (extracts number hash logs).
Proof.
  eapply steady_weaken; [apply steady_blockLogs|]. intros found (H1 & H2 & H3 & H4 & _). split; try done.
  eapply Forall_impl; [exact H3|]. cbn. intros entry (c & Hc & Hin). cbn in Hin. apply list_elem_of_In, in_map_iff in Hin as (c0 & Hid & Hin).
  exists c0, c. split; [by apply list_elem_of_In|]. auto.
Qed.

(** ** Weakest preconditions *)

Section Environment.
Context (N : wevent -> Prop).
Local Abbreviation alone := (forall e, N e -> stationary e).

Definition WWP {A} (m : WM A) (s : WatcherState) (Q : WatcherState -> result GoError A -> wtrace -> Prop) (w : wtrace) : Prop :=
  wp (amid N) wallowed True (m s) (fun sr w' => Q sr.1 sr.2 w') w.

Lemma WWP_mbind {A B} (m : WM A) (f : A -> WM B) s Q w :
  WWP m s (fun s' r w' => match r with Ok a => WWP (f a) s' Q w' | Err e => Q s' (Err e) w' end) w -> WWP (mbind m f) s Q w.
Proof. intros H. apply wp_bind. eapply wp_mono; [exact H|]. by intros [s' [a|e]] w'. Qed.

Lemma WWP_ret {A} (a : A) s (Q : WatcherState -> result GoError A -> wtrace -> Prop) w : Q s (Ok a) w -> WWP (mret a) s Q w.
Proof. done. Qed.

Lemma WWP_try {A} (m : WM A) s Q w : WWP m s (fun s' r w' => Q s' (Ok r) w') w -> WWP (try m) s Q w.
Proof. intros H. apply wp_bind. eapply wp_mono; [exact H|]. done. Qed.

Lemma WWP_mono {A} (m : WM A) s Q Q' w : WWP m s Q w -> (forall s' r w', Q s' r w' -> Q' s' r w') -> WWP m s Q' w.
Proof. intros H HQ. eapply wp_mono; [exact H|]. intros [s' r] w'. apply HQ. Qed.

(** After a call the past shows it, and the cursor moved only if the call moved it. *)
Lemma WWP_call c s (Q : WatcherState -> result GoError (wanswer c) -> wtrace -> Prop) w :
  wallowed w c ->
  (forall x w', w `suffix_of` w' -> WEvent c x ∈ w' -> (alone -> cursorOf w' = cursorOf (WEvent c x :: w)) -> Q s (Ok x) w') ->
  WWP (wcall c) s Q w.
Proof.
  intros Hc HQ. split; [done|]. intros x w' (others & Ho & ->). apply HQ.
  - exists (others ++ [WEvent c x]). by rewrite <- app_assoc.
  - apply elem_of_app. right. by left.
  - intros Ha. apply cursorOf_others. eapply Forall_impl; [exact Ho|]. auto.
Qed.

Lemma wp_calm {A} (R : A -> Prop) (p : prog wanswer A) w :
  sat calm R p -> wp (amid N) wallowed True p (fun a w' => R a /\ w `suffix_of` w' /\ (alone -> cursorOf w' = cursorOf w)) w.
Proof.
  revert w. induction p as [a|c k IH| |]; intros w; cbn; auto.
  intros [Hc H]. split; [by destruct c|]. intros x w' (others & Ho & ->). eapply wp_mono; [apply IH, H|].
  intros a w2 (Ha & Hs & Hw). split; [done|]. split; [etrans; [|exact Hs]; by exists (others ++ [WEvent c x]); rewrite <- app_assoc|].
  intros Hal. rewrite Hw by done. rewrite cursorOf_others by (eapply Forall_impl; [exact Ho|]; auto). apply cursorOf_stationary. by destruct c.
Qed.

Lemma WWP_steady {A} (m : WM A) R s Q w :
  steady m R -> wellCached s ->
  (forall s' r w', wellCached s' -> w `suffix_of` w' -> (alone -> cursorOf w' = cursorOf w) -> (forall a, r = Ok a -> R a) -> Q s' r w') ->
  WWP m s Q w.
Proof. intros Hm Hs HQ. eapply wp_mono; [apply wp_calm, Hm, Hs|]. intros [s' r] w' ((H1 & H2) & H3 & H4). by apply HQ. Qed.

(** ** Functions that may store candidates *)

(** From any later moment the guarantee is kept and the cache stays well formed. *)
Definition good {A} (m : WM A) (w : wtrace) : Prop :=
  forall s w', wellCached s -> w `suffix_of` w' -> WWP m s (fun s' r w'' => wellCached s' /\ w' `suffix_of` w'') w'.

Lemma good_steady {A} (m : WM A) R w : steady m R -> good m w.
Proof. intros Hm s w' Hs Hw. eapply WWP_steady; [done|done|]. auto. Qed.

Lemma good_mbind {A B} (m : WM A) (f : A -> WM B) w : good m w -> (forall a w', w `suffix_of` w' -> good (f a) w') -> good (mbind m f) w.
Proof.
  intros Hm Hf s w' Hs Hw. apply WWP_mbind. eapply WWP_mono; [by apply Hm|]. intros s1 [a|e] w1 [Hs1 Hw1]; [|done].
  eapply WWP_mono; [apply (Hf a w1); [by etrans|done|done]|]. intros s2 r w2 [? ?]. split; [done|by etrans].
Qed.

Lemma good_call {A} c (f : wanswer c -> WM A) w :
  (forall w', w `suffix_of` w' -> wallowed w' c) -> (forall x w', w `suffix_of` w' -> WEvent c x ∈ w' -> good (f x) w') -> good (mbind (wcall c) f) w.
Proof.
  intros Hc Hf s w' Hs Hw. apply WWP_mbind, WWP_call; [by apply Hc|]. intros x w1 Hw1 Hx _.
  eapply WWP_mono; [apply (Hf x w1); [by etrans|done|done|done]|]. intros s2 r w2 [? ?]. split; [done|by etrans].
Qed.

Lemma good_after {A B} (m : WM A) (f : A -> WM B) R w :
  steady m R -> (forall a w', R a -> w `suffix_of` w' -> good (f a) w') -> good (mbind m f) w.
Proof.
  intros Hm Hf s w' Hs Hw. apply WWP_mbind. eapply WWP_steady; [done|done|]. intros s1 [a|e] w1 Hs1 Hw1 _ Ha; [|done].
  eapply WWP_mono; [apply (Hf a w1); [by apply Ha|by etrans|done|done]|]. intros s2 r w2 [? ?]. split; [done|by etrans].
Qed.

(** A result that comes with evidence. *)
Definition yields {A} (m : WM A) (R : A -> wtrace -> Prop) (w : wtrace) : Prop :=
  forall s w', wellCached s -> w `suffix_of` w' -> WWP m s (fun s' r w'' => wellCached s' /\ w' `suffix_of` w'' /\ forall a, r = Ok a -> R a w'') w'.

Lemma good_yields {A B} (m : WM A) (f : A -> WM B) R w :
  yields m R w -> (forall a w', R a w' -> w `suffix_of` w' -> good (f a) w') -> good (mbind m f) w.
Proof.
  intros Hm Hf s w' Hs Hw. apply WWP_mbind. eapply WWP_mono; [by apply Hm|]. intros s1 [a|e] w1 (Hs1 & Hw1 & Ha); [|done].
  eapply WWP_mono; [apply (Hf a w1); [by apply Ha|by etrans|done|done]|]. intros s2 r w2 [? ?]. split; [done|by etrans].
Qed.

Lemma yields_steady {A} (m : WM A) (R : A -> wtrace -> Prop) w : (forall w', w `suffix_of` w' -> steady m (fun a => forall w'', w' `suffix_of` w'' -> R a w'')) -> yields m R w.
Proof.
  intros Hm s w' Hs Hw. eapply WWP_steady; [by apply (Hm w')|done|]. intros s' r w2 Hs' Hw2 _ Ha. split; [done|]. split; [done|]. intros a Hr. by apply (Ha a Hr).
Qed.

Lemma yields_read {A} operation code c (of_ : wanswer c -> result RpcError A) (R : A -> wtrace -> Prop) w :
  calm c -> (forall x a w', w `suffix_of` w' -> WEvent c x ∈ w' -> of_ x = Ok a -> R a w') ->
  yields (let* r := wcall c in reading operation code (of_ r)) R w.
Proof.
  intros Hc HR s w' Hs Hw. apply WWP_mbind, WWP_call; [by destruct c|]. intros x w1 Hw1 Hx _. eapply WWP_steady; [apply steady_reading|done|].
  intros s' r w2 Hs' Hw2 _ Ha. split; [done|]. split; [by etrans|]. intros a Hr.
  apply (HR x); [etrans; [exact Hw|]; by etrans|by eapply shown_suffix|by apply Ha].
Qed.

Lemma good_ret {A} (a : A) w : good (mret a) w.
Proof. by eapply good_steady, (steady_ret _ (fun _ => True)). Qed.

Lemma good_fail {A} e w : good (fail (A := A) e) w.
Proof. by eapply good_steady, (steady_fail _ (fun _ => True)). Qed.

Lemma good_try {A} (m : WM A) w : good m w -> good (try m) w.
Proof. intros Hm s w' Hs Hw. apply WWP_try. by apply Hm. Qed.

Lemma good_later {A} (m : WM A) w w' : w `suffix_of` w' -> good m w -> good m w'.
Proof. intros Hw Hm s w2 Hs Hw2. apply Hm; [done|]. by etrans. Qed.

Lemma good_diverge {A} w : good (diverge (A := A)) w.
Proof. by intros s w' _ _. Qed.

Lemma good_panic {A} w : good (panic (A := A)) w.
Proof. by intros s w' _ _. Qed.

Lemma good_forEach {A} (l : list A) body w : (forall a w', a ∈ l -> w `suffix_of` w' -> good (body a) w') -> good (forEach l body) w.
Proof.
  revert w. induction l as [|a l IH]; intros w H; [by eapply good_steady, (steady_ret _ (fun _ => True))|].
  cbn. apply good_mbind; [apply H; [by left|done]|]. intros _ w' Hw. apply IH. intros b w2 Hb Hw2. apply H; [by right|by etrans].
Qed.

End Environment.

End Scan.

End WatcherScan.
Export WatcherScan.
