(* ===== verification/WatcherGuarantee.v ===== *)
(** * The watcher's scans and loops

    The finalized scan, the fast scan, observed logs, the reconciliation and the
    loops keep the guarantee ([good]); [Run_allowed] says it of every call of a
    run. *)

From S2P Require Import Prelude Programs GoTime Bytes Sha256 Domain Bolt BudgetModel StoreModel RpcQuorum RescueErrors Contracts Watcher WatcherLogic WatcherScan.

Module WatcherGuarantee.

#[export] Hint Resolve steady_recordFailure steady_readFailure steady_recordCandidate steady_reportOverflow steady_checkCtx steady_contextDone
  steady_newTickers steady_setFastSeen : steady.

Section Guarantee.
Context {AB : Abi} {WC : WatchCodec} {WA : Watch}.
Local Abbreviation svc := service.
Hypothesis sound : soundService svc.

Section Environment.
Context (N : wevent -> Prop).
Local Abbreviation alone := (forall e, N e -> stationary e).
Local Abbreviation WWP := (WWP N).
Local Abbreviation good := (good N).

(** ** The finalized scan *)

Definition lookbackStart (finalized : Z) : Z := if Svc_lookbackBlocks svc - 1 <=? finalized then finalized - Svc_lookbackBlocks svc + 1 else 0.

(** The next block and the hash it must link to are those of the cursor. *)
Definition stands (w : wtrace) (number : Z) (previous : Hash) (finalized : BlockRef) : Prop :=
  match cursorOf w with
  | None => False
  | Some None => previous = zeroHash /\ number = lookbackStart (Ref_Number finalized)
  | Some (Some cursor) => previous = CP_BlockHash cursor /\ number = uint64_wrap (CP_BlockNumber cursor + 1)
  end.

Lemma stands_follows w number previous parent finalized :
  stands w number previous finalized -> previous = zeroHash \/ parent = previous -> follows w number parent finalized.
Proof.
  unfold stands, follows. destruct (cursorOf w) as [[cp|]|]; [|intros [_ H] _; exact H|done]. intros [-> ->] [H|H]; auto.
Qed.

Lemma WWP_reading {A} operation code (r : result RpcError A) s Q w :
  wellCached s ->
  (forall a s' w', r = Ok a -> wellCached s' -> w `suffix_of` w' -> (alone -> cursorOf w' = cursorOf w) -> Q s' (Ok a) w') ->
  (forall e s' w', wellCached s' -> w `suffix_of` w' -> Q s' (Err e) w') -> WWP (reading operation code r) s Q w.
Proof.
  intros Hs HQ HE. eapply WWP_steady; [apply steady_reading|done|]. intros s' [a|e] w' Hs' Hw Hc Ha; [|by apply HE].
  by apply HQ; [apply Ha|..].
Qed.

Ltac suffix_auto := repeat first [eassumption | reflexivity | etrans; [eassumption|]].

Lemma WWP_scanBlock number previous finalized s Q w :
  alone -> wellCached s -> WEvent W_Finalized (Ok finalized) ∈ w -> number <= Ref_Number finalized -> stands w number previous finalized ->
  (forall s' hash w', wellCached s' -> w `suffix_of` w' -> cursorOf w' = Some (Some (mkCheckpoint (Svc_networkID svc) number hash)) -> Q s' (Ok hash) w') ->
  (forall s' e w', wellCached s' -> w `suffix_of` w' -> Q s' (Err e) w') ->
  WWP (scanBlock number previous) s Q w.
Proof.
  intros Hal Hs Hf Hle Hst HQ HE. unfold scanBlock.
  apply WWP_mbind, WWP_call; [exact I|]. intros r1 w1 Hw1 Hr1 Hc1. specialize (Hc1 Hal).
  apply WWP_mbind, WWP_reading; [done| |intros e s' w' Hs' Hw'; apply HE; [done|suffix_auto]].
  intros block s2 w2 -> Hs2 Hw2 Hc2. specialize (Hc2 Hal).
  destruct (negb (bytes_eqb previous zeroHash) && _) eqn:Ep; [apply HE; [done|suffix_auto]|].
  apply WWP_mbind, WWP_call; [exact I|]. intros r3 w3 Hw3 Hr3 Hc3. specialize (Hc3 Hal).
  apply WWP_mbind, WWP_reading; [done| |intros e s' w' Hs' Hw'; apply HE; [done|suffix_auto]].
  intros logs s4 w4 -> Hs4 Hw4 Hc4. specialize (Hc4 Hal).
  apply WWP_mbind. eapply WWP_steady; [by apply blockLogs_extracts|done|].
  intros s5 [found|e] w5 Hs5 Hw5 Hc5 Hx; [|apply HE; [done|suffix_auto]]. specialize (Hc5 Hal).
  assert (Hcur : cursorOf w5 = cursorOf w) by (rewrite Hc5, Hc4, Hc3, cursorOf_stationary, Hc2, Hc1, cursorOf_stationary; done).
  apply WWP_mbind, WWP_call.
  { exists finalized, block, logs, found. cbn. split; [eapply shown_suffix; [|exact Hf]; suffix_auto|]. split; [done|].
    split; [eapply shown_suffix; [|exact Hr1]; suffix_auto|]. split; [done|]. split; [done|]. split.
    - unfold follows. rewrite Hcur. apply (stands_follows _ _ _ _ _ Hst). unfold bytes_eqb in Ep.
      apply andb_false_iff in Ep as [Ep|Ep]; bool_hyps; auto.
    - split; [eapply shown_suffix; [|exact Hr3]; suffix_auto|]. split; [by apply Hx|done]. }
  intros r6 w6 Hw6 _ Hc6. specialize (Hc6 Hal). destruct r6 as [[]|e]; [|apply HE; [done|suffix_auto]].
  apply WWP_mbind. eapply WWP_steady; [apply steady_reportOverflow|done|].
  intros s7 [[]|e] w7 Hs7 Hw7 Hc7 _; [|apply HE; [done|suffix_auto]]. specialize (Hc7 Hal).
  apply WWP_mbind. eapply WWP_steady; [apply steady_forEach; intros c; apply steady_recordCandidate|done|].
  intros s8 [[]|e] w8 Hs8 Hw8 Hc8 _; [|apply HE; [done|suffix_auto]]. specialize (Hc8 Hal).
  apply HQ; [done|suffix_auto|]. by rewrite Hc8, Hc7, Hc6.
Qed.

Lemma good_scanLoop fuel number previous finalized s w :
  alone -> wellCached s -> WEvent W_Finalized (Ok finalized) ∈ w -> (number <= Ref_Number finalized -> stands w number previous finalized) ->
  WWP (scanLoop fuel number (Ref_Number finalized) previous) s (fun s' r w' => wellCached s' /\ w `suffix_of` w') w.
Proof.
  intros Hal. revert number previous s w. induction fuel as [|fuel IH]; intros number previous s w Hs Hf Hst; [exact I|].
  cbn [scanLoop]. destruct (Ref_Number finalized <? number) eqn:E; [by split|]. bool_hyps.
  apply WWP_mbind. apply (WWP_scanBlock _ _ finalized); auto.
  intros s' hash w' Hs' Hw Hc. destruct (_ || _); [by split|].
  eapply WWP_mono; [apply IH; [done|by eapply shown_suffix|]|].
  - intros _. unfold stands. by rewrite Hc.
  - intros s2 r2 w2 [? ?]. split; [done|by etrans].
Qed.

(** The scan loads the cursor first, so it needs nothing from the past. *)
Lemma good_scan w : alone -> good scan w.
Proof.
  intros Hal. apply good_call; [by intros|]. intros r w1 Hw1 Hr. eapply good_after; [apply steady_reading|].
  intros finalized w2 -> Hw2. apply (shown_suffix _ _ _ Hw2) in Hr. clear w1 w Hw1 Hw2.
  intros s w Hs Hw. apply WWP_mbind. unfold scanStart. apply WWP_mbind, WWP_call; [exact I|].
  intros r w3 Hw3 _ Hc3. specialize (Hc3 Hal). assert (Hf : WEvent W_Finalized (Ok finalized) ∈ w3) by (eapply shown_suffix; [|exact Hr]; by etrans).
  destruct r as [[cursor|]|e]; [| |by split].
  - apply WWP_mbind, WWP_call; [exact I|]. intros r w4 Hw4 _ Hc4. specialize (Hc4 Hal).
    apply WWP_mbind, WWP_reading; [done| |intros; split; [done|]; suffix_auto].
    intros persisted s5 w5 -> Hs5 Hw5 Hc5. specialize (Hc5 Hal).
    destruct (negb _ || _); [split; [done|]; suffix_auto|]. destruct (_ =? _); [split; [done|]; suffix_auto|].
    apply WWP_ret. cbv beta iota. eapply WWP_mono; [apply good_scanLoop; [done|done|eapply shown_suffix; [|exact Hf]; suffix_auto|]|].
    + intros _. unfold stands. by rewrite Hc5, Hc4, cursorOf_stationary, Hc3.
    + intros s6 r6 w6 [? ?]. split; [done|]. suffix_auto.
  - apply WWP_ret. cbv beta iota. eapply WWP_mono; [apply good_scanLoop; [done|done|exact Hf|]|].
    + intros _. unfold stands. by rewrite Hc3.
    + intros s6 r6 w6 [? ?]. split; [done|]. suffix_auto.
Qed.

(** ** Candidates *)

(** What justifies storing a candidate is not lost. *)
Lemma wallowed_suffix w w' c : (forall b, c <> W_CommitCanonicalBlock b) -> w `suffix_of` w' -> wallowed w c -> wallowed w' c.
Proof.
  intros Hc Hw. destruct c; cbn; auto; try done; [intros [H|[H|H]]|intros [entry H]|intros (entry & c & r & H & H')|by destruct (Hc block)].
  - left. destruct H as (n & b & l & e & H1 & H2 & H3 & H). exists n, b, l, e. eauto 10 with shown.
  - right. left. destruct H as (t & H & H'). exists t. eauto with shown.
  - right. right. destruct H as (t & d & tok & H1 & H2 & H). exists t, d, tok. eauto 10 with shown.
  - exists entry. destruct H as [H1 H2]. split; eauto with shown.
  - exists entry, c, r. destruct H as [H1 H2], H' as (H3 & H4 & H5). split; [split; eauto with shown|]. eauto with shown.
Qed.

Lemma good_putCandidate c w : wallowed w (W_Put c) -> good (putCandidate c) w.
Proof.
  intros Hc. apply good_call; [intros w' Hw; by eapply wallowed_suffix|]. intros [r|e] w' _ _; eapply good_steady; [apply steady_recordCandidate|].
  apply (steady_fail _ (fun _ => True)).
Qed.

Lemma steady_fastCandidate entry :
  steady (logCandidate entry false) (fun o => o = if acceptableLog entry then Some (candidateOf entry (fallbackToken (Log_Address entry))) else None).
Proof.
  unfold logCandidate. destruct (acceptableLog entry); cbn; [|by apply steady_ret].
  eapply (steady_mbind _ _ (fun t => t = fallbackToken (Log_Address entry))); [by apply steady_ret|]. intros t ->. by apply steady_ret.
Qed.

Lemma good_fastLogs number block all logs w :
  Svc_fast svc = true -> onBranch w number block -> WEvent (W_FilterLogs (queryAt (Ref_Hash block))) (Ok all) ∈ w -> (forall entry, entry ∈ logs -> entry ∈ all) ->
  good (fastLogs number (Ref_Hash block) logs) w.
Proof.
  intros Hfast. revert w. induction logs as [|entry logs IH]; intros w Hb Hl Hin; cbn [fastLogs]; [apply good_ret|].
  eapply good_after; [apply steady_fastCandidate|]. intros o w1 -> Hw1. destruct (acceptableLog entry) eqn:Ea; [|apply good_fail].
  destruct (Log_Removed entry || _ || _) eqn:E; [apply good_fail|]. unfold bytes_eqb in E. bool_hyps.
  apply good_mbind.
  - apply good_putCandidate. left. exists number, block, all, entry. cbn. split; [done|]. split; [eauto with shown|]. split; [eauto with shown|].
    split; [apply Hin; by left|]. repeat split; [done|done|done|done|].
    assert (Log_BlockHash entry = Ref_Hash block) as <- by done. assert (Log_BlockNumber entry = number) as <- by done. done.
  - intros _ w2 Hw2. apply IH; [eauto with shown|eauto with shown|]. intros e He. apply Hin. by right.
Qed.

(** The block the loop has come to is the head or the parent of the last one. *)
Definition expects (w : wtrace) (head : BlockRef) (number : Z) (expected : Hash) : Prop :=
  number = Ref_Number head \/ exists n child, number = uint64_wrap (n - 1) /\ onBranch w n child /\ expected = Ref_ParentHash child.

Lemma yields_fastBlock head number expected w :
  WEvent W_Latest (Ok head) ∈ w -> expects w head number expected ->
  yields N (fastBlock head number) (fun block w' => Ref_Hash block = expected -> onBranch w' number block) w.
Proof.
  intros Hh Hat. unfold fastBlock. destruct (number =? Ref_Number head) eqn:E; cbn [negb]; bool_hyps.
  - apply yields_steady. intros w' Hw. apply steady_ret. intros w2 Hw2 _. rewrite E. apply branch_head. eapply shown_suffix; [|exact Hh]. by etrans.
  - apply (yields_read _ _ _ (W_Header number) (fun x => x)); [exact I|]. intros x block w' Hw Hx -> He.
    destruct Hat as [?|(n & child & -> & Hc & ->)]; [done|]. eapply branch_parent; eauto with shown.
Qed.

Lemma good_fastLoop fuel head number first expected w :
  Svc_fast svc = true -> WEvent W_Latest (Ok head) ∈ w -> expects w head number expected -> good (fastLoop fuel head number first expected) w.
Proof.
  intros Hfast. revert number expected w. induction fuel as [|fuel IH]; intros number expected w Hh Hat; cbn [fastLoop]; [apply good_diverge|].
  eapply good_yields; [by apply yields_fastBlock|]. intros block w1 Hb Hw1.
  destruct (bytes_eqb (Ref_Hash block) expected) eqn:E; cbn [negb]; [|eapply good_steady, (steady_readFailure _ _ _ (fun _ => True))].
  apply bytes_eqb_spec in E. specialize (Hb E).
  eapply good_after; [by apply (steady_gets _ (fun _ => True))|]. intros seen w2 _ Hw2. destruct (bytes_eqb _ _); [apply good_ret|].
  apply good_call; [by intros|]. intros r w3 Hw3 Hr. eapply good_after; [apply steady_reading|]. intros logs w4 -> Hw4.
  assert (Hw14 : w1 `suffix_of` w4) by suffix_auto.
  apply good_mbind; [by apply (good_fastLogs _ _ logs); eauto with shown|]. intros _ w5 Hw5.
  eapply good_after; [apply steady_setFastSeen|]. intros _ w6 _ Hw6. destruct (number =? first); [apply good_ret|].
  apply IH; [eapply shown_suffix; [|exact Hh]; suffix_auto|]. right. exists number, block. split; [done|]. split; [|done].
  eapply onBranch_suffix; [|exact Hb]. suffix_auto.
Qed.

Lemma good_scanFast w : Svc_fast svc = true -> good scanFast w.
Proof.
  intros Hfast. unfold scanFast. destruct (negb _); [apply good_panic|]. apply good_call; [by intros|]. intros r w1 Hw1 Hr.
  eapply good_after; [apply steady_reading|]. intros head w2 -> Hw2. destruct (bytes_eqb _ _); [apply good_fail|].
  eapply good_after; [by apply (steady_gets _ (fun _ => True))|]. intros seen w3 _ Hw3. destruct (bytes_eqb _ _); [apply good_ret|].
  apply good_mbind; [apply good_fastLoop; [done|eapply shown_suffix; [|exact Hr]; suffix_auto|by left]|].
  intros _ w4 Hw4. eapply good_steady, steady_setFastSeen.
Qed.

Lemma good_scanLive w : (Svc_fast svc = false -> alone) -> good scanLive w.
Proof. intros Hal. unfold scanLive. destruct (Svc_fast svc) eqn:E; [by apply good_scanFast|apply good_scan; auto]. Qed.

(** ** Observed logs and reconciliation *)

Lemma good_observeLog entry w : heard w entry -> good (observeLog entry) w.
Proof.
  intros Hh. unfold observeLog. eapply good_after; [apply steady_fastCandidate|]. intros o w1 -> Hw1.
  destruct (acceptableLog entry) eqn:Ea; [|eapply good_steady, steady_recordFailure].
  set (c := candidateOf _ _). assert (Hc : observedCandidate w1 entry c) by (split; eauto with shown).
  apply good_call; [intros w' Hw; eapply wallowed_suffix; [done|exact Hw|]; by exists entry|]. intros [r|e] w2 Hw2 Hr.
  - eapply good_after; [apply steady_try, steady_recordCandidate|]. intros _ w3 _ Hw3.
    destruct (Log_Removed entry) eqn:Er; cbn [negb].
    + apply good_call.
      * intros w4 Hw4. apply (wallowed_suffix w2); [done|by etrans|]. exists entry, c, r. split; [|done]. split; [|done]. destruct Hc. eauto with shown.
      * intros [[]|e] w4 _ _; [apply good_ret|apply good_fail].
    + destruct (Svc_fast svc) eqn:E; [by apply good_scanFast|apply good_ret].
  - destruct (isSaturated e); [eapply good_steady, steady_recordFailure|apply good_fail].
Qed.

Lemma good_reconcile w : good reconcile w.
Proof.
  unfold reconcile. eapply (good_yields _ _ _ (fun slot w' => exists t, WEvent W_Now t ∈ w' /\ slot = slotOf t)).
  { intros s w' Hs Hw. apply WWP_mbind, WWP_call; [exact I|]. intros t w1 Hw1 Ht _. split; [done|]. split; [done|]. intros slot [= <-]. by exists t. }
  intros slot w1 (t & Ht & ->) Hw1. apply good_mbind; [apply good_putCandidate; right; left; by exists t|]. intros _ w2 Hw2.
  apply good_call; [by intros|]. intros [discovered|e] w3 Hw3 Hd; [|apply good_fail].
  destruct (maximumDiscoveredTokens <? _) eqn:El; [apply good_fail|]. bool_hyps.
  apply good_forEach. intros address w4 Hin Hw4. destruct (bool_decide _) eqn:Ea; [apply good_ret|]. bool_hyps.
  eapply (good_after _ _ _ (fun token => Token_Address token = address)).
  - destruct (Svc_fast svc); [by apply steady_ret, fallbackToken_address|by apply steady_resolveToken].
  - intros token w5 <- Hw5. apply good_putCandidate. right. right. exists t, discovered, token.
    split; [eapply shown_suffix; [|exact Ht]; suffix_auto|]. split; [eapply shown_suffix; [|exact Hd]; suffix_auto|]. done.
Qed.

(** ** The loops *)

Lemma yields_liveSelect heads w : yields N (liveSelect heads) (fun wake w' => forall entry, wake = inl (LiveLog (Some entry)) -> heard w' entry) w.
Proof.
  intros s w' Hs Hw. destruct heads; [|apply WWP_mbind]; (apply WWP_call; [exact I|]); intros x w1 Hw1 Hx _;
    (split; [done|]); (split; [done|]); intros wake [= <-] entry He; [left|right]; [by rewrite He in Hx|]. by injection He as ->.
Qed.

Lemma good_liveTurn heads wake w :
  (Svc_fast svc = false -> alone) -> (forall entry, wake = inl (LiveLog (Some entry)) -> heard w entry) -> good (liveTurn heads wake) w.
Proof.
  intros Hal Hh. destruct wake as [[|open|[entry|]|open|open]|[|header|]]; cbn [liveTurn];
    try (destruct open; cbn [negb]); try (apply good_fail);
    try (apply (good_steady _ _ (fun _ => True)); solve_steady; fail).
  - apply good_mbind; [apply good_observeLog; auto|]. intros. apply good_ret.
  - apply good_mbind; [by apply good_scanLive|]. intros. apply good_ret.
  - apply good_mbind; [apply good_reconcile|]. intros. apply good_ret.
  - destruct header as [h|]; [|apply (good_steady _ _ (fun _ => True)); solve_steady].
    destruct (match Hdr_Number h with Some _ => _ | None => _ end); [|apply (good_steady _ _ (fun _ => True)); solve_steady].
    apply good_mbind; [by apply good_scanLive|]. intros. apply good_ret.
Qed.

Lemma good_liveLoop fuel heads w : (Svc_fast svc = false -> alone) -> good (liveLoop fuel heads) w.
Proof.
  intros Hal. revert heads w. induction fuel as [|fuel IH]; intros heads w; cbn [liveLoop]; [apply good_diverge|].
  eapply good_yields; [apply yields_liveSelect|]. intros wake w1 Hwake Hw1. apply good_mbind; [by apply good_liveTurn|]. intros heads' w2 _. apply IH.
Qed.

Lemma good_pollLoop fuel w : (Svc_fast svc = false -> alone) -> good (pollLoop fuel) w.
Proof.
  intros Hal. revert w. induction fuel as [|fuel IH]; intros w; cbn [pollLoop]; [apply good_diverge|].
  apply good_call; [by intros|]. intros wake w1 _ _. apply good_mbind; [|intros _ w2 _; apply IH].
  destruct wake as [|open|open]; cbn [pollTurn]; [apply (good_steady _ _ (fun _ => True)); solve_steady| |]; destruct open; cbn [negb]; try apply good_fail.
  - by apply good_scanLive.
  - apply good_reconcile.
Qed.

Lemma good_poll fuel w : (Svc_fast svc = false -> alone) -> good (poll fuel) w.
Proof. intros Hal. eapply good_after; [apply steady_newTickers|]. intros _ w1 _ _. by apply good_pollLoop. Qed.

Lemma good_watchSubscriptions fuel w : (Svc_fast svc = false -> alone) -> good (watchSubscriptions fuel) w.
Proof.
  intros Hal. unfold watchSubscriptions. apply good_call; [by intros|]. intros subscribed w1 _ _.
  destruct subscribed; cbn [negb]; [|apply (good_steady _ _ (fun _ => True)); solve_steady].
  apply good_call; [by intros|]. intros heads w2 _ _. eapply (good_after _ _ _ (fun _ => True)); [solve_steady|]. intros _ w3 _ _.
  apply good_mbind; [by apply good_scanLive|]. intros _ w4 _. eapply good_after; [apply steady_newTickers|]. intros _ w5 _ _. by apply good_liveLoop.
Qed.

Lemma good_runLive fuel w : (Svc_fast svc = false -> alone) -> good (runLive fuel) w.
Proof.
  intros Hal. unfold runLive. eapply good_after; [apply steady_checkCtx|]. intros _ w1 _ _. apply good_mbind; [by apply good_scanLive|]. intros _ w2 _.
  eapply (good_after _ _ _ (fun _ => True)); [solve_steady|]. intros _ w3 _ _.
  apply good_mbind; [by apply good_try, good_watchSubscriptions|]. intros [[]|e] w4 _; [apply good_ret|].
  destruct (negb _); [apply good_fail|]. eapply good_after; [apply steady_checkCtx|]. intros _ w5 _ _. by apply good_poll.
Qed.

Lemma good_runFinalizedBackfill fuel w : alone -> good (runFinalizedBackfill fuel) w.
Proof.
  intros Hal. unfold runFinalizedBackfill. apply good_mbind; [by apply good_scan|]. intros _ w1 _. apply good_call; [by intros|].
  intros ticker w2 _ _. destruct (negb ticker); [apply good_fail|]. clear w w1. revert w2. induction fuel as [|fuel IH]; intros w; cbn [backfillLoop]; [apply good_diverge|].
  apply good_call; [by intros|]. intros wake w1 _ _. apply good_mbind; [|intros _ w2 _; apply IH].
  destruct wake as [|open]; cbn [backfillTurn]; [apply (good_steady _ _ (fun _ => True)); solve_steady|]. destruct open; cbn [negb]; [by apply good_scan|apply good_fail].
Qed.

End Environment.

(** ** The live watch in the fast mode leaves the cursor alone *)

Definition sideways {A} (m : WM A) : Prop := forall s, within stationary (m s).

Lemma sideways_ret {A} (a : A) : sideways (mret a).
Proof. done. Qed.

Lemma sideways_call c : (forall x, stationary (WEvent c x)) -> sideways (wcall c).
Proof. intros Hc s. by split. Qed.

Lemma sideways_record notice : sideways (A := unit) (wcall (W_Record notice)).
Proof. by apply (sideways_call (W_Record notice)). Qed.

Lemma sideways_mbind {A B} (m : WM A) (f : A -> WM B) : sideways m -> (forall a, sideways (f a)) -> sideways (mbind m f).
Proof. intros Hm Hf s. apply sat_mbind. eapply sat_mono; [apply Hm|]. intros [s' [a|e]] _; [apply Hf|done]. Qed.

Lemma sideways_try {A} (m : WM A) : sideways m -> sideways (try m).
Proof. intros Hm s. apply sat_try. by eapply sat_mono; [apply Hm|]. Qed.

Lemma sideways_forEach {A} (l : list A) body : (forall a, sideways (body a)) -> sideways (forEach l body).
Proof. intros H. induction l as [|a l IH]; [done|]. by apply sideways_mbind. Qed.

Ltac sideways_step :=
  match goal with
  | |- sideways (mret _) => done
  | |- sideways (fail _) => done
  | |- sideways panic => done
  | |- sideways (gets _) => done
  | |- sideways (modify _) => done
  | |- sideways (wcall _) => apply sideways_call; intros ?; exact I
  | |- sideways _ => solve [simple apply sideways_record]
  | |- sideways (mbind _ _) => apply sideways_mbind; [|intros ?]
  | |- sideways (try _) => apply sideways_try
  | |- sideways (forEach _ _) => apply sideways_forEach; intros ?
  | |- sideways (match ?x with _ => _ end) => destruct x
  | |- sideways (let _ := _ in _) => cbv zeta
  | H : context [sideways _] |- sideways _ => solve [apply H]
  end.
Ltac solve_sideways :=
  unfold putCandidate, recordCandidate, logCandidate, resolveToken, readMetadata, readSymbol, readDecimals, metadataCall, cacheMetadata, checkCtx,
    contextDone, newTickers, observationSlot, setFastSeen, fastBlock, reading, readFailure, recordFailure, when; repeat sideways_step.

Lemma sideways_scanFast : sideways scanFast.
Proof.
  assert (Hl : forall number hash logs, sideways (fastLogs number hash logs)) by (intros number hash; induction logs; cbn [fastLogs]; solve_sideways).
  assert (Hf : forall fuel head number first expected, sideways (fastLoop fuel head number first expected)) by (induction fuel; intros; cbn [fastLoop]; [done|]; solve_sideways).
  unfold scanFast. solve_sideways.
Qed.

Lemma sideways_runLive fuel : Svc_fast svc = true -> sideways (runLive fuel).
Proof.
  intros Hfast. pose proof sideways_scanFast as Hs.
  assert (Hr : sideways reconcile) by (unfold reconcile; rewrite Hfast; solve_sideways).
  assert (Ho : forall entry, sideways (observeLog entry)) by (intros; unfold observeLog; solve_sideways).
  assert (Hl : sideways scanLive) by (unfold scanLive; rewrite Hfast; exact Hs).
  assert (Ht : forall heads wake, sideways (liveTurn heads wake)) by (intros; unfold liveTurn; solve_sideways).
  assert (Hp : forall fuel, sideways (pollLoop fuel)) by (clear fuel; induction fuel; cbn [pollLoop]; [done|]; unfold pollTurn; solve_sideways).
  assert (Hsel : forall heads, sideways (liveSelect heads)) by (intros []; [by apply (sideways_call (W_LiveSelect true))|unfold liveSelect; solve_sideways]).
  assert (Hv : forall fuel heads, sideways (liveLoop fuel heads)) by (clear fuel; induction fuel; intros heads; cbn [liveLoop]; [done|]; solve_sideways).
  unfold runLive, watchSubscriptions, poll. solve_sideways.
Qed.

(** ** A whole run *)

Lemma good_held {A} N (m : WM A) s w : wellCached s -> good N m w -> held wallowed N (m s) w.
Proof. intros Hs Hm others Ho. eapply wp_mono; [apply Hm; [done|by exists others]|]. done. Qed.

Lemma wp_Run fuel s w : wellCached s -> wp traced wallowed True (Run fuel s) (fun _ _ => True) w.
Proof.
  intros Hs. unfold Run. destruct (Svc_fast svc) eqn:Hfast; cbn [negb]; apply wp_bind.
  - eapply wp_mono; [apply (wp_race _ stationary (fun _ => True))|done]; try done.
    + apply good_held; [done|]. apply good_runLive. congruence.
    + apply good_held; [done|]. by apply good_runFinalizedBackfill.
    + by apply sideways_runLive.
    + by apply sat_always.
  - eapply wp_mono; [apply (held_here _ stationary)|done]. apply good_held; [done|]. by apply good_runLive.
Qed.

(** Every call of a run is allowed by what happened before it. *)
Lemma Run_allowed fuel s steps out tr past e :
  wellCached s -> exec traced (Run fuel s) [] steps out tr -> (past, e) ∈ steps -> wallowed past (ev_call e).
Proof.
  intros Hs He Hin. destruct (wp_sound _ _ _ _ _ _ _ _ _ (wp_Run fuel s [] Hs) He) as [Hall _].
  rewrite Forall_forall in Hall. exact (Hall _ Hin).
Qed.

End Guarantee.

End WatcherGuarantee.
Export WatcherGuarantee.
