(* ===== verification/WatcherClaims.v ===== *)
(** * What the watcher guarantees

    [WatcherTotal]: when block numbers are 64-bit, the finalized scan and the fast
    scan return (the fuel of their loops is never used up and nothing panics), and a
    finalized scan that succeeds leaves the cursor at the finalized block.
    [WatcherClaims]: for every run of the service [NewService] builds, whatever the
    other components answer and however the two goroutines of the fast mode
    interleave: what is committed, what is stored, and that the scans end.  A step
    of an execution carries the trace of the calls before it, newest first. *)

From S2P Require Import Prelude GoTime Bytes Sha256 Domain Bolt BudgetModel StoreModel RpcQuorum Programs RescueErrors Contracts Watcher WatcherLogic WatcherScan WatcherGuarantee.
From Stdlib Require Import Strings.Byte.
From Stdlib Require Strings.String.
Import Strings.String.StringSyntax.

Module WatcherTotal.

(** The numbers in an answer fit 64 bits. *)
Definition ranged (c : WEff) : wanswer c -> Prop :=
  match c return wanswer c -> Prop with
  | W_Finalized | W_Latest | W_Header _ => fun r => forall ref, r = Ok ref -> inU 64 (Ref_Number ref)
  | W_LoadScanCursor _ => fun r => forall cursor, r = Ok (Some cursor) -> inU 64 (CP_BlockNumber cursor)
  | _ => fun _ => True
  end.

Section Total.
Context {AB : Abi} {WC : WatchCodec} {WA : Watch}.
Local Abbreviation svc := service.

Definition TWP {A} (m : WM A) (s : WatcherState) (Q : WatcherState -> result GoError A -> wtrace -> Prop) (w : wtrace) : Prop :=
  twp ranged (m s) (fun sr w' => Q sr.1 sr.2 w') w.

Lemma TWP_mbind {A B} (m : WM A) (f : A -> WM B) s Q w :
  TWP m s (fun s' r w' => match r with Ok a => TWP (f a) s' Q w' | Err e => Q s' (Err e) w' end) w -> TWP (mbind m f) s Q w.
Proof. intros H. apply twp_bind. eapply twp_mono; [exact H|]. by intros [s' [a|e]] w'. Qed.

Lemma TWP_mono {A} (m : WM A) s Q Q' w : TWP m s Q w -> (forall s' r w', Q s' r w' -> Q' s' r w') -> TWP m s Q' w.
Proof. intros H HQ. eapply twp_mono; [exact H|]. intros [s' r] w'. apply HQ. Qed.

Lemma TWP_call c s (Q : WatcherState -> result GoError (wanswer c) -> wtrace -> Prop) w :
  (forall x, ranged c x -> Q s (Ok x) (WEvent c x :: w)) -> TWP (wcall c) s Q w.
Proof. intros H x Hx. by apply H. Qed.

(** ** Functions that return and leave the cursor where it is *)

Definition settled {A} (m : WM A) (R : A -> Prop) : Prop :=
  forall s w, TWP m s (fun _ r w' => cursorOf w' = cursorOf w /\ w `suffix_of` w' /\ forall a, r = Ok a -> R a) w.
Local Abbreviation ends m := (settled m (fun _ => True)).

Lemma settled_ret {A} (a : A) (R : A -> Prop) : R a -> settled (mret a) R.
Proof. intros Ha s w. split; [done|]. split; [done|]. by intros ? [= <-]. Qed.

Lemma settled_fail {A} e (R : A -> Prop) : settled (fail e) R.
Proof. intros s w. split; [done|]. split; [done|]. by intros. Qed.

Lemma settled_call c : (forall x, stationary (WEvent c x)) -> settled (wcall c) (ranged c).
Proof.
  intros Hc s w. apply TWP_call. intros x Hx. split; [by apply cursorOf_stationary|]. split; [by exists [WEvent c x]|]. by intros ? [= <-].
Qed.

Lemma settled_mbind {A B} (m : WM A) (f : A -> WM B) P R : settled m P -> (forall a, P a -> settled (f a) R) -> settled (mbind m f) R.
Proof.
  intros Hm Hf s w. apply TWP_mbind. eapply TWP_mono; [apply Hm|]. intros s' [a|e] w' (Hc & Hw & Ha); [|split; [done|]; split; [done|]; by intros].
  eapply TWP_mono; [apply Hf; auto|]. intros s2 r w2 (Hc2 & Hw2 & Hr). split; [congruence|]. split; [by etrans|done].
Qed.

Lemma settled_weaken {A} (m : WM A) (P R : A -> Prop) : settled m P -> (forall a, P a -> R a) -> settled m R.
Proof. intros Hm HR s w. eapply TWP_mono; [apply Hm|]. intros s' r w' (? & ? & ?). auto. Qed.

Lemma ends_then {A B} (m : WM A) (f : A -> WM B) : ends m -> (forall a, ends (f a)) -> ends (mbind m f).
Proof. intros Hm Hf. eapply settled_mbind; [done|]. auto. Qed.

Lemma ends_call c : (forall x, stationary (WEvent c x)) -> ends (wcall c).
Proof. intros Hc. by eapply settled_weaken; [apply settled_call|]. Qed.

Lemma ends_record notice : settled (A := unit) (wcall (W_Record notice)) (fun _ => True).
Proof. by apply (ends_call (W_Record notice)). Qed.

Lemma ends_gets {A} (f : WatcherState -> A) : ends (gets f).
Proof. by intros s w. Qed.

Lemma ends_modify f : ends (modify f).
Proof. by intros s w. Qed.

Lemma ends_forEach {A} (l : list A) body : (forall a, ends (body a)) -> ends (forEach l body).
Proof. intros H. induction l as [|a l IH]; [by apply settled_ret|]. by apply ends_then. Qed.

Ltac ends_step :=
  match goal with
  | |- settled (mret _) _ => by apply settled_ret
  | |- settled (fail _) _ => apply settled_fail
  | |- settled (gets _) _ => apply ends_gets
  | |- settled (modify _) _ => apply ends_modify
  | |- settled (wcall _) _ => apply ends_call; intros ?; exact I
  | |- settled _ _ => solve [simple apply ends_record]
  | |- settled (mbind _ _) _ => apply ends_then; [|intros ?]
  | |- settled (forEach _ _) _ => apply ends_forEach; intros ?
  | |- settled (match ?x with _ => _ end) _ => destruct x
  | |- settled (let _ := _ in _) _ => cbv zeta
  | H : context [settled _ _] |- settled _ _ => solve [apply H]
  end.
Ltac solve_ends :=
  unfold putCandidate, recordCandidate, logCandidate, resolveToken, readMetadata, readSymbol, readDecimals, metadataCall, cacheMetadata,
    reportOverflow, setFastSeen, readFailure, recordFailure, when; repeat ends_step.

Lemma settled_reading {A} operation code (r : result RpcError A) : settled (reading operation code r) (fun a => r = Ok a).
Proof.
  unfold reading, readFailure. destruct r as [a|e]; [by apply settled_ret|]. destruct (errors_Is _ _); [apply settled_fail|].
  eapply settled_mbind; [solve_ends|]. intros. apply settled_fail.
Qed.

Hypothesis sound : soundService svc.

(** ** The finalized scan *)

Lemma TWP_settled {A B} (m : WM A) (f : A -> WM B) R s Q w :
  settled m R -> (forall s' e w', w `suffix_of` w' -> Q s' (Err e) w') ->
  (forall a s' w', R a -> cursorOf w' = cursorOf w -> w `suffix_of` w' -> TWP (f a) s' Q w') -> TWP (mbind m f) s Q w.
Proof. intros Hm HE HQ. apply TWP_mbind. eapply TWP_mono; [apply Hm|]. intros s' [a|e] w' (? & ? & ?); auto. Qed.

Lemma ends_blockLogs number hash logs seen : ends (blockLogs number hash logs seen).
Proof. revert seen. induction logs as [|entry logs IH]; intros seen; cbn [blockLogs]; solve_ends. Qed.

Ltac suffix_auto := repeat first [eassumption | reflexivity | etrans; [eassumption|]].
Ltac tstep lem := eapply TWP_settled; [apply lem|intros; split; [suffix_auto|done]|].

(** A block is committed or the scan fails. *)
Lemma TWP_scanBlock number previous s w :
  TWP (scanBlock number previous) s
    (fun _ r w' => w `suffix_of` w' /\ forall hash, r = Ok hash -> cursorOf w' = Some (Some (mkCheckpoint (Svc_networkID svc) number hash))) w.
Proof.
  unfold scanBlock. eapply TWP_settled; [by apply settled_call|by intros; split; [suffix_auto|]|]. intros r1 s1 w1 _ _ Hw1.
  tstep @settled_reading. intros block s2 w2 _ _ Hw2. destruct (negb _ && _); [split; [suffix_auto|done]|].
  eapply TWP_settled; [by apply settled_call|intros; split; [suffix_auto|done]|]. intros r3 s3 w3 _ _ Hw3.
  tstep @settled_reading. intros logs s4 w4 _ _ Hw4. tstep ends_blockLogs. intros found s5 w5 _ _ Hw5. cbv zeta.
  apply TWP_mbind, TWP_call. intros r6 _. set (w6 := _ :: w5). assert (Hw6 : w5 `suffix_of` w6) by by eexists [_].
  destruct r6 as [[]|e]; [|split; [suffix_auto|done]].
  eapply (TWP_settled _ _ (fun _ => True)); [solve_ends|intros; split; [suffix_auto|done]|]. intros _ s7 w7 _ Hc7 Hw7.
  eapply (TWP_settled _ _ (fun _ => True)); [solve_ends|intros; split; [suffix_auto|done]|]. intros _ s8 w8 _ Hc8 Hw8.
  split; [suffix_auto|]. intros hash [= <-]. by rewrite Hc8, Hc7.
Qed.

(** The scan is at a block. *)
Definition scannedTo (w : wtrace) (number : Z) : Prop := exists cursor, cursorOf w = Some (Some cursor) /\ CP_BlockNumber cursor = number.

Lemma TWP_scanLoop fuel number finalized previous s w :
  0 <= number <= finalized -> finalized < 2 ^ 64 -> finalized - number < Z.of_nat fuel ->
  TWP (scanLoop fuel number finalized previous) s (fun _ r w' => w `suffix_of` w' /\ (r = Ok tt -> scannedTo w' finalized)) w.
Proof.
  intros Hn Hf. revert number previous s w Hn. induction fuel as [|fuel IH]; intros number previous s w Hn Hfuel; [lia|].
  cbn [scanLoop]. destruct (finalized <? number) eqn:E; [apply Z.ltb_lt in E; lia|]. apply TWP_mbind.
  eapply TWP_mono; [apply TWP_scanBlock|]. intros s1 [hash|e] w1 [Hw1 Hc]; [|by split]. specialize (Hc hash eq_refl).
  destruct ((number =? finalized) || (number =? 2 ^ 64 - 1)) eqn:E2.
  - split; [done|]. intros _. assert (number = finalized) as -> by (apply orb_true_iff in E2 as [E2|E2]; bool_hyps; lia). by eexists.
  - bool_hyps. unfold uint64_wrap. rewrite Z.mod_small by lia.
    eapply TWP_mono; [apply IH; lia|]. intros s2 r w2 [Hw2 Hr]. split; [suffix_auto|done].
Qed.

(** The scan returns, and if it succeeds the cursor is at a finalized block. *)
Lemma TWP_scan s w :
  TWP scan s (fun _ r w' => r = Ok tt -> exists finalized, WEvent W_Finalized (Ok finalized) ∈ w' /\ scannedTo w' (Ref_Number finalized)) w.
Proof.
  unfold scan. apply TWP_mbind, TWP_call. intros r1 Hr1. set (w1 := _ :: w). assert (Hin : WEvent W_Finalized r1 ∈ w1) by by left.
  eapply TWP_settled; [apply settled_reading|by intros|]. intros finalized s2 w2 -> _ Hw2. apply (shown_suffix _ _ _ Hw2) in Hin.
  specialize (Hr1 finalized eq_refl). cbn in Hr1. clearbody w1. clear w1 Hw2.
  apply TWP_mbind. unfold scanStart. apply TWP_mbind, TWP_call. intros r3 Hr3. set (w3 := _ :: w2).
  assert (Hw3 : w2 `suffix_of` w3) by by eexists [_]. apply (shown_suffix _ _ _ Hw3) in Hin.
  assert (Hloop : forall s4 w4 next previous, WEvent W_Finalized (Ok finalized) ∈ w4 -> 0 <= next <= Ref_Number finalized ->
    TWP (scanLoop (S (Z.to_nat (Ref_Number finalized - next))) next (Ref_Number finalized) previous) s4
      (fun _ r w' => r = Ok tt -> exists finalized, WEvent W_Finalized (Ok finalized) ∈ w' /\ scannedTo w' (Ref_Number finalized)) w4).
  { intros s4 w4 next previous Hin4 Hn. unfold inU in Hr1. eapply TWP_mono; [apply TWP_scanLoop; lia|]. intros s5 r5 w5 [Hw5 Hr5] ->. exists finalized. eauto with shown. }
  destruct r3 as [[cursor|]|e]; [| |done].
  - specialize (Hr3 cursor eq_refl). eapply TWP_settled; [by apply settled_call|by intros|]. intros r4 s4 w4 _ Hc4 Hw4.
    eapply TWP_settled; [apply settled_reading|by intros|]. intros persisted s5 w5 _ Hc5 Hw5.
    destruct (negb _ || _) eqn:E; [done|]. bool_hyps. unfold inU in *.
    assert (Hin5 : WEvent W_Finalized (Ok finalized) ∈ w5) by (eapply shown_suffix; [|exact Hin]; by etrans).
    destruct (Ref_Number finalized =? CP_BlockNumber cursor) eqn:E2; bool_hyps.
    + intros _. exists finalized. split; [done|]. exists cursor. split; [by rewrite Hc5, Hc4|done].
    + apply Hloop; [done|]. unfold uint64_wrap. rewrite Z.mod_small; lia.
  - apply Hloop; [done|]. pose proof (ss_lookback _ sound). unfold inU in *. destruct (_ <=? _) eqn:E; bool_hyps; lia.
Qed.

(** ** The fast scan *)

Lemma ends_fastLogs number hash logs : ends (fastLogs number hash logs).
Proof. induction logs as [|entry logs IH]; cbn [fastLogs]; solve_ends. Qed.

Lemma ends_fastLoop fuel head number first expected :
  0 <= first <= number -> number < 2 ^ 64 -> number - first < Z.of_nat fuel -> ends (fastLoop fuel head number first expected).
Proof.
  revert number expected. induction fuel as [|fuel IH]; intros number expected Hn H64 Hfuel; [lia|]. cbn [fastLoop].
  assert (Hread : forall A operation code r, ends (reading (A := A) operation code r)) by (intros; by eapply settled_weaken; [apply settled_reading|]).
  assert (Hlogs := ends_fastLogs). unfold fastBlock.
  apply ends_then; [solve_ends|]. intros block. destruct (negb _); [solve_ends|]. apply ends_then; [solve_ends|]. intros seen.
  destruct (bytes_eqb _ _); [solve_ends|]. apply ends_then; [solve_ends|]. intros r. apply ends_then; [solve_ends|]. intros logs.
  apply ends_then; [solve_ends|]. intros _. apply ends_then; [solve_ends|]. intros _. destruct (number =? first) eqn:E; [solve_ends|]. bool_hyps.
  unfold uint64_wrap. rewrite Z.mod_small by lia. apply IH; lia.
Qed.

Lemma ends_scanFast : Svc_fast svc = true -> ends scanFast.
Proof.
  intros Hfast. unfold scanFast. rewrite (ss_latest _ sound Hfast). cbn [negb]. eapply settled_mbind; [by apply settled_call|]. intros r Hr.
  eapply settled_mbind; [apply settled_reading|]. intros head ->. specialize (Hr head eq_refl). cbn in Hr. unfold inU in Hr.
  destruct (bytes_eqb _ _); [solve_ends|]. apply ends_then; [solve_ends|]. intros seen. destruct (bytes_eqb _ _); [solve_ends|].
  assert (0 <= firstFast head <= Ref_Number head).
  { unfold firstFast. pose proof (ss_lookback _ sound). destruct (_ <=? _) eqn:E; bool_hyps; lia. }
  apply ends_then; [apply ends_fastLoop; lia|]. intros _. solve_ends.
Qed.

End Total.

End WatcherTotal.
Export WatcherTotal.

Module WatcherClaims.

Lemma initialState_wellCached : wellCached initialState.
Proof. split; cbn; [apply map_Forall_empty|apply NoDup_nil_2|done|lia]. Qed.

Lemma address_not_zero (a : Address) : length a = 20%nat -> a <> zeroAddress -> is_zero_bytes a = false.
Proof. intros Hl Ha. unfold is_zero_bytes. rewrite Hl. by apply bytes_eqb_false. Qed.

Section Claims.
Context {AB : Abi} {WC : WatchCodec} {WA : Watch}.
Local Abbreviation svc := service.

(** The store accepts the candidates of an acceptable block. *)
Lemma committable_valid past b :
  soundService svc -> length (Svc_source svc) = 20%nat ->
  (forall query logs entry, WEvent (W_FilterLogs query) (Ok logs) ∈ past -> entry ∈ logs -> length (Log_Address entry) = 20%nat) ->
  committable past b -> Forall (fun c => ValidateCandidate c = Ok tt) (CB_Candidates b).
Proof.
  intros Hs Hl Hlogs (finalized & block & logs & found & _ & _ & _ & _ & _ & _ & Hin & Hx & Hc).
  assert (Hsrc : is_zero_bytes (Svc_source svc) = false) by (apply address_not_zero; [done|apply Hs]).
  assert (Hnet : (Svc_networkID svc <=? 0) = false) by (apply Z.leb_gt, Hs).
  assert (Hfound : Forall (fun c => ValidateCandidate c = Ok tt) found).
  { eapply Forall_impl; [exact (ex_sound _ _ _ _ Hx)|]. cbn. intros c (entry & Hentry & token & Ht & ->).
    pose proof (ex_logs _ _ _ _ Hx) as Ha. rewrite Forall_forall in Ha. destruct (Ha _ Hentry) as (_ & _ & _ & Hacc).
    unfold ValidateCandidate, candidateOf, NewLogCandidate. cbn [Candidate_Network Candidate_Source withID Candidate_Kind Candidate_Token Candidate_ID].
    rewrite Hsrc, Hnet. unfold candidateID, candidatePreimage. cbn. rewrite bytes_eqb_refl. cbn.
    rewrite Ht, address_not_zero; [done|by eapply Hlogs|]. intros Hz. unfold acceptableLog in Hacc.
    destruct (default [] (Log_Topics entry)) as [|? [|? [|? [|? ?]]]]; try done. bool_hyps. rewrite Hz in *. by rewrite bytes_eqb_refl in *. }
  rewrite Hc. destruct (Svc_fast svc); [done|]. constructor; [|done].
  unfold ValidateCandidate, NewBlockCandidate. cbn [Candidate_Network Candidate_Source withID Candidate_Kind Candidate_Token Candidate_ID].
  rewrite Hsrc, Hnet. unfold candidateID, candidatePreimage. cbn. by rewrite bytes_eqb_refl.
Qed.

(** C14. The watcher commits a block only as the next one of the finalized chain.
    The block is at or below a block the finality reader called finalized, its hash
    and its parent are those of the header read at its number, and it follows the
    cursor: the store's, moved by each commit since it was loaded (next number,
    parent hash equal), or without one the configured number of blocks below a
    finalized block.  Its candidates are, without repetition, those of the logs
    read for this very hash, all of them Transfers to the source of permitted
    tokens in this block, and unless the fast mode is on the block's native
    candidate; when addresses have 20 bytes each of them is valid. *)
Theorem committed_blocks_follow_the_cursor d fuel steps out tr past b x :
  0 <= Dep_LookbackBlocks d -> NewService d = Ok svc ->
  exec traced (Run fuel initialState) [] steps out tr -> (past, WEvent (W_CommitCanonicalBlock b) x) ∈ steps ->
  committable past b /\
  (length (Svc_source svc) = 20%nat ->
   (forall query logs entry, WEvent (W_FilterLogs query) (Ok logs) ∈ past -> entry ∈ logs -> length (Log_Address entry) = 20%nat) ->
   Forall (fun c => ValidateCandidate c = Ok tt) (CB_Candidates b)).
Proof.
  intros Hl Hn He Hin. pose proof (NewService_sound _ _ Hl Hn) as Hs.
  pose proof (Run_allowed Hs _ _ _ _ _ _ _ initialState_wellCached He Hin) as Hc. split; [exact Hc|]. intros. by apply (committable_valid past).
Qed.

(** C29. The watcher stores candidates only for reasons the past shows: a fast
    candidate for a log read for a block that was reached from a latest block
    parent by parent; the periodic candidate of the slot of a time the clock
    showed; the periodic candidate of a discovered token, of at most 1024, that is
    not configured; an observed candidate for a log the subscription delivered,
    which is withdrawn only when the log says it was removed and after it was
    stored.  Each of these logs is a Transfer to the source of a permitted token. *)
Theorem stored_candidates_are_justified d fuel steps out tr past :
  0 <= Dep_LookbackBlocks d -> NewService d = Ok svc -> exec traced (Run fuel initialState) [] steps out tr ->
  (forall c x, (past, WEvent (W_Put c) x) ∈ steps -> fastCandidate past c \/ periodicCandidate past c \/ discoveredCandidate past c) /\
  (forall c x, (past, WEvent (W_PutObserved c) x) ∈ steps -> exists entry, observedCandidate past entry c) /\
  (forall id x, (past, WEvent (W_MarkRemoved id) x) ∈ steps ->
     exists entry c r, observedCandidate past entry c /\ Log_Removed entry = true /\ WEvent (W_PutObserved c) (Ok r) ∈ past /\ id = Candidate_ID c).
Proof.
  intros Hl Hn He. pose proof (NewService_sound _ _ Hl Hn) as Hs.
  split; [|split]; intros c x Hin; exact (Run_allowed Hs _ _ _ _ _ _ _ initialState_wellCached He Hin).
Qed.

(** C28. The scans end.  When the block numbers other components answer fit 64 bits,
    a finalized scan and a fast scan return from every state, neither running out of
    rounds nor panicking, and a finalized scan that succeeds has left the cursor at
    the block it was told is finalized. *)
Theorem scans_end d s past steps out tr :
  0 <= Dep_LookbackBlocks d -> NewService d = Ok svc -> Forall (fun '(_, e) => ranged (ev_call e) (ev_answer e)) steps ->
  (exec traced (scan s) past steps out tr ->
   exists s' r, out = Returned (s', r) /\
     (r = Ok tt -> exists finalized, WEvent W_Finalized (Ok finalized) ∈ tr /\ scannedTo tr (Ref_Number finalized))) /\
  (Svc_fast svc = true -> exec traced (scanFast s) past steps out tr -> exists s' r, out = Returned (s', r)).
Proof.
  intros Hl Hn Hok. pose proof (NewService_sound _ _ Hl Hn) as Hs. split.
  - intros He. destruct (twp_sound _ _ _ _ _ _ _ (TWP_scan Hs s past) He Hok) as ([s' r] & -> & Hr). by exists s', r.
  - intros Hf He. destruct (twp_sound _ _ _ _ _ _ _ (ends_scanFast Hs Hf s past) He Hok) as ([s' r] & -> & _). by exists s', r.
Qed.

End Claims.

(** ** A concrete chain *)

Definition home : Address := repeat x01 20.
Definition coin : Address := repeat x05 20.

#[local] Instance chain_abi : Abi := {
  abi_Pack name _ := Some (str name);
  abi_PackOutputs _ _ := None;
  abi_UnpackOutputs _ _ := None }.

#[local] Instance chain_codec : WatchCodec := { transferTopic := repeat xdd 32; address_Hex a := str "0x01010101" ++ a }.

Definition dependencies (fast : bool) : Dependencies :=
  mkDependencies fast false true true false home 1 [mkToken coin (str "COIN") 6] false 7 5 Second.

Definition watching (fast : bool) : Watch :=
  {| service := match NewService (dependencies fast) with Ok s => s | Err _ => mkService false false false false [] 0 0 0 0 ∅ ∅ false end |}.

Definition blockAt (n : Z) : BlockRef := mkBlockRef n (be_bytes 32 (n + 1)) (be_bytes 32 n) 0.

Definition transferAt (n : Z) : Log :=
  mkLog coin (Some [repeat xdd 32; zeroHash; zero_bytes 12 ++ home]) (Some (zero_bytes 32)) n (be_bytes 32 99) 0 (be_bytes 32 (n + 1)) 0 0 false.

(** The number of the next commit and how often the poll woke up. *)
Definition chain (c : WEff) (n : nat) : wanswer c * nat :=
  match c return wanswer c * nat with
  | W_Now => (10 ^ 18, n)
  | W_NewTicker _ => (true, n)
  | W_CtxErr => (None, n)
  | W_Ready => (None, n)
  | W_Schedule => (true, n)
  | W_CallContract _ _ => (Ok None, n)
  | W_Finalized => (Ok (blockAt 4), n)
  | W_Latest => (Ok (blockAt 4), n)
  | W_Header k => (Ok (blockAt k), n)
  | W_FilterLogs q => (Ok [transferAt (be_value (default [] (Query_BlockHash q)) - 1)], n)
  | W_SubscribeFilterLogs _ | W_SubscribeNewHead => (false, n)
  | W_LiveSelect heads => ((if heads return wanswer (W_LiveSelect heads) then inl LiveDone else LiveDone), n)
  | W_PollSelect => (match n with O => PollReconcileTick true | _ => PollDone end, S n)
  | W_BackfillSelect => (BackfillDone, n)
  | W_Put _ | W_PutObserved _ => (Ok (Some PutInserted), n)
  | W_MarkRemoved _ | W_CommitCanonicalBlock _ => (Ok tt, n)
  | W_LoadScanCursor _ => (Ok (Some (mkCheckpoint 1 2 (be_bytes 32 3))), n)
  | W_DiscoveredTokens _ => (Ok [], n)
  | W_DiscoveryOverflowed _ => (Ok false, n)
  | W_Record _ => (tt, n)
  end.

Definition watched (fast : bool) : wtrace := (run chain (Run (WA := watching fast) 5 initialState) O).1.1.

(** The call at a place of the run; its answer is the chain's. *)
Definition commitAt (n : nat) : CanonicalBlock :=
  match watched false !! n with
  | Some (Event (W_CommitCanonicalBlock b) _) => b
  | _ => mkCanonicalBlock (mkCheckpoint 0 0 []) [] []
  end.

Definition putAt (n : nat) : RescueCandidate :=
  match watched true !! n with Some (Event (W_Put c) _) => c | _ => NewPeriodicCandidate 0 [] 0 0 end.

Lemma committed_blocks_follow_the_cursor_witness :
  CB_Checkpoint (commitAt 14) = mkCheckpoint 1 4 (be_bytes 32 5) /\ exists past, committable (WA := watching false) past (commitAt 14).
Proof.
  split; [vm_compute; reflexivity|].
  destruct (run_step chain (Run (WA := watching false) 5 initialState) O 14 (WEvent (W_CommitCanonicalBlock (commitAt 14)) (Ok tt)))
    as (steps & out & tr & past & He & Hin); [vm_compute; reflexivity|].
  exists past.
  exact (proj1 (committed_blocks_follow_the_cursor (WA := watching false) (dependencies false) 5 steps out tr past _ _ ltac:(vm_compute; discriminate) ltac:(vm_compute; reflexivity) He Hin)).
Defined.

Lemma stored_candidates_are_justified_witness :
  Candidate_BlockNumber (putAt 7) = 4 /\
  exists past, let WA := watching true in fastCandidate past (putAt 7) \/ periodicCandidate past (putAt 7) \/ discoveredCandidate past (putAt 7).
Proof.
  split; [vm_compute; reflexivity|].
  destruct (run_step chain (Run (WA := watching true) 5 initialState) O 7 (WEvent (W_Put (putAt 7)) (Ok (Some PutInserted))))
    as (steps & out & tr & past & He & Hin); [vm_compute; reflexivity|].
  exists past.
  exact (proj1 (stored_candidates_are_justified (WA := watching true) (dependencies true) 5 steps out tr past ltac:(vm_compute; discriminate) ltac:(vm_compute; reflexivity) He) _ _ Hin).
Defined.

(** The numbers of the chain fit. *)
Definition rangedb (e : wevent) : bool :=
  match e with
  | Event (W_Finalized | W_Latest | W_Header _) r => match r with Ok ref => inUb 64 (Ref_Number ref) | Err _ => true end
  | Event (W_LoadScanCursor _) r => match r with Ok (Some cursor) => inUb 64 (CP_BlockNumber cursor) | _ => true end
  | _ => true
  end.

Lemma rangedb_spec e : rangedb e = true -> ranged (ev_call e) (ev_answer e).
Proof.
  destruct e as [[] x]; cbn; auto; destruct x as [x|]; try done; try (destruct x as [x|]; try done); intros H a [= <-]; by apply inUb_spec.
Qed.

Lemma ranged_steps (steps : list (wtrace * wevent)) tr :
  map snd steps = tr -> forallb rangedb tr = true -> Forall (fun '(_, e) => ranged (ev_call e) (ev_answer e)) steps.
Proof.
  intros <- H. rewrite forallb_forall in H. apply Forall_forall. intros [w e] Hin. apply rangedb_spec, H.
  apply list_elem_of_In in Hin. by apply (in_map snd) in Hin.
Qed.

Definition scanned : wtrace * outcome (WatcherState * result GoError unit) * nat := run chain (scan (WA := watching false) initialState) O.

Lemma scans_end_witness : exists tr finalized, WEvent W_Finalized (Ok finalized) ∈ tr /\ scannedTo tr (Ref_Number finalized).
Proof.
  assert (Hok : forallb rangedb scanned.1.1 = true) by (vm_compute; reflexivity).
  assert (Hret : exists s', scanned.1.2 = Returned (s', Ok tt)) by (eexists; vm_compute; reflexivity).
  pose proof (run_exec chain (scan (WA := watching false) initialState) O []) as H. fold scanned in H.
  destruct scanned as [[calls out] n]. destruct H as (steps & He & Hm). exists (rev calls ++ []).
  destruct (proj1 (scans_end (WA := watching false) (dependencies false) initialState [] steps out (rev calls ++ [])
    ltac:(vm_compute; discriminate) ltac:(vm_compute; reflexivity) (ranged_steps _ _ Hm Hok)) He) as (s' & r & Hout & Hr).
  apply Hr. destruct Hret as [s0 Hret]. cbn in Hret. congruence.
Defined.

End WatcherClaims.
