(* ===== verification/Gate.v ===== *)
(** * internal/observability/gate.go: the paid-action gate

    [Do] and [Stop] as their critical sections, and the threads that run them as a
    step relation: a thread holds the mutex for one step, sleeps on the condition
    variable until a broadcast, and checks the condition again when it is awake.
    The coordinator's gate sections (RescueSession.v) run inside [Do]. *)

From S2P Require Import Prelude.

Module Gate.

(** [drained] is created before it is first used; who sleeps on it is in [Thread]. *)
Record PaidActionGate := mkGate {
  gate_stopped : bool;
  gate_active : Z }.

Definition NewPaidActionGate : PaidActionGate := mkGate false 0.

(** ** Critical sections *)

(** The entry of [Do]: [None] is ErrPaidActionsStopped. *)
Definition enter (gate : PaidActionGate) : option PaidActionGate :=
  if gate_stopped gate then None else Some (mkGate (gate_stopped gate) (uint64_wrap (gate_active gate + 1))).

(** The deferred end of [Do]: whether it broadcasts. *)
Definition leave (gate : PaidActionGate) : PaidActionGate * bool :=
  let active := uint64_wrap (gate_active gate - 1) in
  (mkGate (gate_stopped gate) active, active =? 0).

Definition stop (gate : PaidActionGate) : PaidActionGate := mkGate true (gate_active gate).

(** [for gate.active != 0]: the condition of the wait. *)
Definition mustWait (gate : PaidActionGate) : bool := negb (gate_active gate =? 0).

Definition Stopped (gate : PaidActionGate) : bool := gate_stopped gate.

(** ** Threads *)

(** Where a thread is in [Do] (before the entry, in the action, done, refused) or
    in [Stop] (before it, at the condition, asleep, done). *)
Inductive Thread :=
| AtDo
| InAction
| DidDo
| Refused
| AtStop
| AtWait
| Asleep
| DidStop.

#[export] Instance Thread_eq_dec : EqDecision Thread.
Proof. solve_decision. Defined.

Definition wake (t : Thread) : Thread := match t with Asleep => AtWait | _ => t end.

Record GateSystem := mkSystem {
  sys_gate : PaidActionGate;
  sys_threads : list Thread }.

(** What one thread does when it runs: the gate, its next place, and whether it broadcasts. *)
Definition turn (gate : PaidActionGate) (t : Thread) : option (PaidActionGate * Thread * bool) :=
  match t with
  | AtDo => Some match enter gate with Some gate => (gate, InAction, false) | None => (gate, Refused, false) end
  | InAction => let (gate, broadcast) := leave gate in Some (gate, DidDo, broadcast)
  | AtStop | AtWait =>
      let gate := match t with AtStop => stop gate | _ => gate end in
      Some (gate, if mustWait gate then Asleep else DidStop, false)
  | DidDo | Refused | Asleep | DidStop => None
  end.

(** One thread takes its turn. *)
Inductive gate_turn : GateSystem -> GateSystem -> Prop :=
| takes_turn gate threads i t gate' t' (broadcast : bool) :
    threads !! i = Some t -> turn gate t = Some (gate', t', broadcast) ->
    gate_turn (mkSystem gate threads) (mkSystem gate' (<[i := t']> (if broadcast then map wake threads else threads))).

(** A turn, or another call begins. *)
Inductive gate_step : GateSystem -> GateSystem -> Prop :=
| step_turn s s' : gate_turn s s' -> gate_step s s'
| step_call gate threads t : t = AtDo \/ t = AtStop -> gate_step (mkSystem gate threads) (mkSystem gate (threads ++ [t])).

Definition newSystem : GateSystem := mkSystem NewPaidActionGate [].
Definition gate_reachable : GateSystem -> Prop := rtc gate_step newSystem.

(** Calls under way at once; the counter has 64 bits. *)
Definition crowded (s : GateSystem) : Prop := 2 ^ 64 <= Z.of_nat (length (sys_threads s)).

(** ** Invariant *)

Definition running (threads : list Thread) : Z := Z.of_nat (length (List.filter (fun t => bool_decide (t = InAction)) threads)).

(** The counter counts the running actions, nobody sleeps without one, and once a
    [Stop] has begun the gate is stopped; once one has returned nothing runs. *)
Record GateInv (s : GateSystem) : Prop := {
  gi_active : gate_active (sys_gate s) = running (sys_threads s);
  gi_asleep : Asleep ∈ sys_threads s -> gate_active (sys_gate s) <> 0;
  gi_stopped : forall t, t ∈ sys_threads s -> t = AtWait \/ t = Asleep \/ t = DidStop -> gate_stopped (sys_gate s) = true;
  gi_done : DidStop ∈ sys_threads s -> gate_active (sys_gate s) = 0 }.

Lemma running_app a b : running (a ++ b) = running a + running b.
Proof. unfold running. rewrite List.filter_app, length_app. lia. Qed.

Lemma running_cons t l : running (t :: l) = (if decide (t = InAction) then 1 else 0) + running l.
Proof. change (t :: l) with ([t] ++ l). rewrite running_app. f_equal. unfold running. cbn. by destruct (decide (t = InAction)) as [->|H]; [|rewrite bool_decide_eq_false_2]. Qed.

Lemma running_range l : 0 <= running l <= Z.of_nat (length l).
Proof. unfold running. pose proof (List.filter_length_le (fun t => bool_decide (t = InAction)) l). lia. Qed.

Lemma running_wake l : running (map wake l) = running l.
Proof. induction l as [|t l IH]; [done|]. cbn [map]. rewrite !running_cons, IH. by destruct t. Qed.

Lemma running_insert l i t t' :
  l !! i = Some t ->
  running (<[i := t']> l) = running l + (if decide (t' = InAction) then 1 else 0) - (if decide (t = InAction) then 1 else 0).
Proof.
  intros H. rewrite insert_take_drop by (by eapply lookup_lt_Some).
  assert (E : running l = running (take i l ++ t :: drop (S i) l)) by by rewrite take_drop_middle.
  rewrite E, !running_app, !running_cons. lia.
Qed.

Lemma running_zero l : running l = 0 -> InAction ∉ l.
Proof.
  intros H Hin. apply list_elem_of_lookup in Hin as [i Hi]. pose proof (running_insert l i InAction DidDo Hi) as Hr.
  rewrite decide_False, decide_True in Hr by done. pose proof (running_range (<[i := DidDo]> l)). lia.
Qed.

Lemma elem_of_insert_inv {A} (x y : A) (l : list A) (i : nat) : x ∈ <[i := y]> l -> x = y \/ x ∈ l.
Proof.
  intros [j Hj]%list_elem_of_lookup. destruct (decide (i = j)) as [->|Hne].
  - destruct (decide (j < length l)%nat) as [Hl|Hl].
    + rewrite list_lookup_insert_eq in Hj by done. injection Hj as ->. by left.
    + rewrite list_insert_ge in Hj by lia. right. by eapply list_elem_of_lookup_2.
  - rewrite list_lookup_insert_ne in Hj by done. right. by eapply list_elem_of_lookup_2.
Qed.

Lemma elem_of_wake t l : t ∈ map wake l -> t <> Asleep /\ (t ∈ l \/ t = AtWait /\ Asleep ∈ l).
Proof. intros (t0 & <- & H)%list_elem_of_In%in_map_iff. apply list_elem_of_In in H. destruct t0; cbn; auto. Qed.

Lemma gate_step_crowd s s' : gate_step s s' -> crowded s -> crowded s'.
Proof.
  unfold crowded. intros [_ _ [gate threads i t gate' t' b _ _]|gate threads t _]; cbn; [destruct b|]; rewrite ?length_insert, ?length_map, ?length_app; lia.
Qed.

(** A thread enters its action. *)
Lemma GateInv_enter gate threads i gate' :
  GateInv (mkSystem gate threads) -> ~ crowded (mkSystem gate threads) -> threads !! i = Some AtDo -> enter gate = Some gate' ->
  GateInv (mkSystem gate' (<[i := InAction]> threads)).
Proof.
  unfold crowded, enter. intros [Ha Hs Hst Hd] Hc Hi. cbn in *. destruct (gate_stopped gate) eqn:E; [done|]. intros [= <-].
  pose proof (running_insert _ _ _ InAction Hi) as Hr. rewrite decide_True, decide_False in Hr by done.
  pose proof (running_range (<[i := InAction]> threads)) as Hb. rewrite length_insert in Hb.
  pose proof (running_range threads). assert (Hw : uint64_wrap (gate_active gate + 1) = running threads + 1) by (rewrite Ha; apply Z.mod_small; lia).
  split; cbn; rewrite ?Hw; [lia|lia| |].
  - intros t [->|Ht]%elem_of_insert_inv Hk; [naive_solver|]. exact (Hst t Ht Hk).
  - intros [?|Ht]%elem_of_insert_inv; [done|]. specialize (Hst DidStop Ht). naive_solver.
Qed.

(** A thread leaves; the last one wakes the sleepers. *)
Lemma GateInv_leave gate threads i gate' (broadcast : bool) :
  GateInv (mkSystem gate threads) -> ~ crowded (mkSystem gate threads) -> threads !! i = Some InAction -> leave gate = (gate', broadcast) ->
  GateInv (mkSystem gate' (<[i := DidDo]> (if broadcast then map wake threads else threads))).
Proof.
  unfold crowded, leave. intros [Ha Hs Hst Hd] Hc Hi [= <- <-]. cbn in *.
  pose proof (running_insert _ _ _ DidDo Hi) as Hr. rewrite decide_False, decide_True in Hr by done.
  pose proof (running_range (<[i := DidDo]> threads)). pose proof (running_range threads).
  assert (Hw : uint64_wrap (gate_active gate - 1) = running threads - 1) by (rewrite Ha; apply Z.mod_small; lia). rewrite Hw.
  assert (Hnd : DidStop ∉ threads) by (intros Hx; specialize (Hd Hx); lia).
  destruct (running threads - 1 =? 0) eqn:E; bool_hyps.
  - assert (Hi' : map wake threads !! i = Some InAction) by (rewrite list_lookup_fmap, Hi; done).
    pose proof (running_insert _ _ _ DidDo Hi') as Hr'. rewrite decide_False, decide_True, running_wake in Hr' by done.
    split; cbn; [lia| | |].
    + intros [?|[? _]%elem_of_wake]%elem_of_insert_inv; done.
    + intros t [->|[_ [Ht|[-> Ht]]]%elem_of_wake]%elem_of_insert_inv Hk; [naive_solver|by apply (Hst t)|apply (Hst _ Ht); auto].
    + intros [?|[_ [?|[? _]]]%elem_of_wake]%elem_of_insert_inv; done.
  - split; cbn; [lia|lia| |].
    + intros t [->|Ht]%elem_of_insert_inv Hk; [naive_solver|by apply (Hst t)].
    + by intros [?|?]%elem_of_insert_inv.
Qed.

(** [Stop] begins or looks again. *)
Lemma GateInv_stop gate threads i t :
  GateInv (mkSystem gate threads) -> threads !! i = Some t -> t = AtStop \/ t = AtWait ->
  GateInv (mkSystem (stop gate) (<[i := if mustWait gate then Asleep else DidStop]> threads)).
Proof.
  intros [Ha Hs Hst Hd] Hi Ht. cbn in *. unfold mustWait.
  assert (Hr : running (<[i := if negb (gate_active gate =? 0) then Asleep else DidStop]> threads) = running threads).
  { rewrite (running_insert _ _ _ _ Hi), (decide_False (P := t = InAction)), decide_False; [lia| |]; [by destruct (negb _)|by destruct Ht as [->| ->]]. }
  destruct (gate_active gate =? 0) eqn:E; cbn [negb] in *; bool_hyps; (split; cbn; [lia| |done|]).
  - intros [?|?]%elem_of_insert_inv; [done|auto].
  - by intros _.
  - by intros _.
  - intros [?|Hx]%elem_of_insert_inv; [done|auto].
Qed.

Lemma gate_turn_inv s s' : gate_turn s s' -> ~ crowded s -> GateInv s -> GateInv s'.
Proof.
  intros [gate threads i t gate' t' b Hi Ht] Hc Hinv. destruct t; cbn in Ht; try done.
  - destruct (enter gate) as [g|] eqn:E; injection Ht as <- <- <-; [by apply (GateInv_enter gate)|].
    destruct Hinv as [Ha Hs Hst Hd]. split; cbn in *.
    + by rewrite (running_insert _ _ _ _ Hi), !decide_False, Z.sub_0_r, Z.add_0_r.
    + intros [?|?]%elem_of_insert_inv; [done|auto].
    + intros t [->|Ht]%elem_of_insert_inv Hk; [naive_solver|by apply (Hst t)].
    + intros [?|?]%elem_of_insert_inv; [done|auto].
  - injection Ht as <- <- <-. by eapply GateInv_leave.
  - injection Ht as <- <- <-. apply (GateInv_stop gate threads i AtStop); auto.
  - injection Ht as <- <- <-. pose proof (GateInv_stop gate threads i AtWait Hinv Hi (or_intror eq_refl)) as H.
    assert (Hst : gate_stopped gate = true) by (apply (gi_stopped _ Hinv AtWait); [by eapply list_elem_of_lookup_2|auto]).
    unfold stop in H. rewrite <- Hst in H. by destruct gate.
Qed.

Lemma gate_step_inv s s' : gate_step s s' -> ~ crowded s -> GateInv s -> GateInv s'.
Proof.
  intros [? ? H|gate threads t Ht] Hc Hinv; [by eapply gate_turn_inv|]. destruct Hinv as [Ha Hs Hst Hd]. cbn in *.
  assert (Hin : forall x, x ∈ threads ++ [t] -> x <> AtDo -> x <> AtStop -> x ∈ threads).
  { intros x [H| ->%list_elem_of_singleton]%elem_of_app; [done|]. naive_solver. }
  split; cbn.
  - rewrite running_app, running_cons, decide_False by (by destruct Ht as [->| ->]). change (running []) with 0. lia.
  - intros H. by apply Hs, Hin.
  - intros x Hx Hk. apply (Hst x); [|done]. apply Hin; [done|naive_solver..].
  - intros H. by apply Hd, Hin.
Qed.

Lemma gate_steps_crowd s s' : rtc gate_step s s' -> crowded s -> crowded s'.
Proof. induction 1 as [s|s s1 s2 H1 _ IH]; [done|]. intros Hc. by apply IH, (gate_step_crowd s). Qed.

Lemma gate_steps_inv s s' : rtc gate_step s s' -> ~ crowded s' -> GateInv s -> GateInv s'.
Proof.
  intros H Hc. induction H as [s|s s1 s2 H1 H2 IH]; [done|]. intros Hinv. apply IH; [done|]. apply (gate_step_inv s); [done| |done].
  intros Hx. apply Hc. apply (gate_steps_crowd s1); [done|]. by apply (gate_step_crowd s).
Qed.

Lemma newSystem_inv : GateInv newSystem.
Proof. split; cbn; [done|set_solver|set_solver|set_solver]. Qed.

Lemma gate_reachable_inv s : gate_reachable s -> ~ crowded s -> GateInv s.
Proof. intros H Hc. exact (gate_steps_inv _ _ H Hc newSystem_inv). Qed.

(** ** After [Stop] *)

(** A stopped gate stays stopped and a [Stop] that returned has returned. *)
Lemma gate_step_stopped s s' :
  gate_step s s' -> (gate_stopped (sys_gate s) = true -> gate_stopped (sys_gate s') = true) /\ (DidStop ∈ sys_threads s -> DidStop ∈ sys_threads s').
Proof.
  intros [? ? [gate threads i t gate' t' b Hi Ht]|gate threads t _]; cbn; [|split; [done|]; intros; apply elem_of_app; by left]. split.
  - intros Hs. destruct t; cbn in Ht; try done; [unfold enter in Ht; rewrite Hs in Ht|..]; by injection Ht as <- _ _.
  - intros Hd. assert (Hd' : DidStop ∈ (if b then map wake threads else threads)).
    { destruct b; [|done]. apply list_elem_of_In, in_map_iff. exists DidStop. split; [done|]. by apply list_elem_of_In. }
    apply list_elem_of_lookup in Hd as [j Hj]. assert (Hij : i <> j). { intros ->. rewrite Hi in Hj. injection Hj as ->. done. }
    apply list_elem_of_lookup_2 with j. rewrite list_lookup_insert_ne by done. destruct b; [|done]. by rewrite list_lookup_fmap, Hj.
Qed.

Lemma gate_steps_stopped s s' :
  rtc gate_step s s' -> (gate_stopped (sys_gate s) = true -> gate_stopped (sys_gate s') = true) /\ (DidStop ∈ sys_threads s -> DidStop ∈ sys_threads s').
Proof. induction 1 as [s|s s1 s2 H1 _ [IH1 IH2]]; [done|]. destruct (gate_step_stopped _ _ H1). auto. Qed.

(** How many turns are left when no call is made: an action may wake everybody. *)
Definition weight (t : Thread) : nat := match t with AtDo | AtStop | AtWait => 1 | _ => 0 end.
Definition turnsLeft (s : GateSystem) : nat :=
  Z.to_nat (running (sys_threads s)) * S (length (sys_threads s)) + sum_list_with weight (sys_threads s).

Lemma weight_insert l i t t' : l !! i = Some t -> (sum_list_with weight (<[i := t']> l) + weight t = sum_list_with weight l + weight t')%nat.
Proof.
  revert i. induction l as [|x l IH]; intros [|i] H; cbn -[weight] in *; try done.
  - injection H as ->. lia.
  - pose proof (IH i H) as E. rewrite <- !Nat.add_assoc. f_equal. exact E.
Qed.

Lemma weight_wake l : (sum_list_with weight (map wake l) <= sum_list_with weight l + length l)%nat.
Proof. induction l as [|t l IH]; [done|]. cbn [map length sum_list_with]. destruct t; cbn [weight wake]; lia. Qed.

(** A thread outside an action moves on. *)
Lemma turnsLeft_move gate gate' threads i t t' :
  threads !! i = Some t -> t <> InAction -> t' <> InAction -> (weight t' < weight t)%nat ->
  (turnsLeft (mkSystem gate' (<[i := t']> threads)) < turnsLeft (mkSystem gate threads))%nat.
Proof.
  intros Hi Ht Ht' Hw. unfold turnsLeft. cbn [sys_threads]. rewrite (running_insert _ _ _ _ Hi), !decide_False, length_insert by done.
  pose proof (weight_insert _ _ _ t' Hi). rewrite Z.sub_0_r, Z.add_0_r. lia.
Qed.

(** An action ends, and perhaps everybody wakes up. *)
Lemma turnsLeft_leave gate gate' threads i threads' :
  threads !! i = Some InAction -> threads' = threads \/ threads' = map wake threads ->
  (turnsLeft (mkSystem gate' (<[i := DidDo]> threads')) < turnsLeft (mkSystem gate threads))%nat.
Proof.
  intros Hi Ht. assert (Hi' : threads' !! i = Some InAction) by (destruct Ht as [->| ->]; [done|by rewrite list_lookup_fmap, Hi]).
  assert (Hrun : running threads' = running threads) by (destruct Ht as [->| ->]; [done|apply running_wake]).
  assert (Hlen : length threads' = length threads) by (destruct Ht as [->| ->]; [done|apply length_map]).
  assert (Hsum : (sum_list_with weight threads' <= sum_list_with weight threads + length threads)%nat)
    by (destruct Ht as [->| ->]; [lia|apply weight_wake]).
  unfold turnsLeft. cbn [sys_threads]. pose proof (weight_insert _ _ _ DidDo Hi') as Hw. pose proof (running_insert _ _ _ DidDo Hi') as Hr.
  pose proof (running_range (<[i := DidDo]> threads')). rewrite decide_False, decide_True in Hr by done. rewrite length_insert, Hlen.
  cbn [weight] in Hw. assert (Z.to_nat (running threads) = S (Z.to_nat (running (<[i := DidDo]> threads')))) as -> by lia. lia.
Qed.

Lemma gate_turn_left s s' : gate_turn s s' -> gate_stopped (sys_gate s) = true -> (turnsLeft s' < turnsLeft s)%nat.
Proof.
  intros [gate threads i t gate' t' b Hi Ht] Hs. cbn in Hs.
  destruct t; cbn in Ht; try done; [unfold enter in Ht; rewrite Hs in Ht| | |]; injection Ht as <- <- <-.
  - by eapply turnsLeft_move; [exact Hi|..]; cbn; [| |lia].
  - apply turnsLeft_leave; [done|]. destruct (_ =? 0); auto.
  - eapply turnsLeft_move; [exact Hi|done| |]; destruct (mustWait _); cbn; try done; lia.
  - eapply turnsLeft_move; [exact Hi|done| |]; destruct (mustWait _); cbn; try done; lia.
Qed.

(** A thread that is not done can run, or sleeps while an action runs. *)
Lemma gate_progress s : GateInv s -> (forall s', ~ gate_turn s s') -> Forall (fun t => t = DidDo \/ t = Refused \/ t = DidStop) (sys_threads s).
Proof.
  destruct s as [gate threads]. intros Hinv Hno. cbn.
  assert (Hturn : forall t, t ∈ threads -> turn gate t = None).
  { intros t [i Hi]%list_elem_of_lookup. destruct (turn gate t) as [[[g t'] b]|] eqn:E; [|done]. exfalso. eapply Hno. by econstructor. }
  assert (Hrun : running threads = 0).
  { unfold running. assert (List.filter (fun t => bool_decide (t = InAction)) threads = []) as ->; [|done].
    destruct (List.filter _ _) as [|t l] eqn:E; [done|]. assert (Hin : In t (t :: l)) by by left. rewrite <- E in Hin.
    apply filter_In in Hin as [Hin Ht]. bool_hyps. subst t. apply list_elem_of_In in Hin. by specialize (Hturn _ Hin). }
  apply Forall_forall. intros t Ht. pose proof (Hturn t Ht) as Hn. destruct t; cbn in Hn; try done; auto.
  pose proof (gi_active _ Hinv) as Ha. cbn in Ha. destruct (gi_asleep _ Hinv Ht). cbn. congruence.
Qed.

Lemma gate_turns_steps n s s' : nsteps gate_turn n s s' -> rtc gate_step s s'.
Proof. induction 1 as [s|n s s1 s2 H _ IH]; [done|]. eapply rtc_l; [by apply step_turn|done]. Qed.

Lemma gate_turns_left n s s' : nsteps gate_turn n s s' -> gate_stopped (sys_gate s) = true -> (n + turnsLeft s' <= turnsLeft s)%nat.
Proof.
  induction 1 as [s|n s s1 s2 H _ IH]; [done|]. intros Hs. pose proof (gate_turn_left _ _ H Hs).
  pose proof (proj1 (gate_step_stopped _ _ (step_turn _ _ H)) Hs) as Hs1. specialize (IH Hs1). lia.
Qed.

Lemma gate_turn_crowd s s' : gate_turn s s' -> length (sys_threads s') = length (sys_threads s).
Proof. intros [gate threads i t gate' t' b _ _]. cbn. rewrite length_insert. destruct b; [apply length_map|done]. Qed.

Lemma gate_turns_crowd n s s' : nsteps gate_turn n s s' -> length (sys_threads s') = length (sys_threads s).
Proof. induction 1 as [s|n s s1 s2 H _ IH]; [done|]. rewrite IH. by apply gate_turn_crowd. Qed.

(** C8. [Stop] is final and returns.  In any interleaving of calls of [Do] and
    [Stop] (fewer than 2^64 at a time): once a [Stop] has returned no action is
    running, then or at any later time; and once a [Stop] has begun, with no
    further calls and whoever runs next, the threads take a bounded number of turns
    and are only stuck when every [Stop] has returned and every [Do] has ended, so
    no wake-up is lost. *)
Theorem stop_is_final_and_returns s :
  gate_reachable s -> ~ crowded s ->
  (DidStop ∈ sys_threads s -> forall s', rtc gate_step s s' -> ~ crowded s' -> InAction ∉ sys_threads s') /\
  (gate_stopped (sys_gate s) = true -> forall n s', nsteps gate_turn n s s' ->
     (n <= turnsLeft s)%nat /\
     ((forall s'', ~ gate_turn s' s'') -> Forall (fun t => t = DidDo \/ t = Refused \/ t = DidStop) (sys_threads s'))).
Proof.
  unfold gate_reachable. intros Hr Hc. split.
  - intros Hd s' Hs Hc'. assert (Hinv : GateInv s') by (apply gate_reachable_inv; [unfold gate_reachable; by etrans|done]).
    apply running_zero. rewrite <- (gi_active _ Hinv). apply (gi_done _ Hinv). by apply (gate_steps_stopped s).
  - intros Hs n s' Hn. pose proof (gate_turns_left _ _ _ Hn Hs). split; [lia|]. apply gate_progress, gate_reachable_inv.
    + unfold gate_reachable. etrans; [exact Hr|]. by eapply gate_turns_steps.
    + unfold crowded in *. by rewrite (gate_turns_crowd _ _ _ Hn).
Qed.

(** One action and one [Stop]: the latter sleeps until the former ends. *)
Definition waiting : GateSystem := mkSystem (mkGate true 1) [InAction; Asleep].

Lemma waiting_reachable : gate_reachable waiting.
Proof.
  eapply rtc_l; [apply (step_call _ _ AtDo); auto|]. eapply rtc_l; [eapply step_turn, (takes_turn _ _ 0%nat); reflexivity|].
  eapply rtc_l; [apply (step_call _ _ AtStop); auto|]. eapply rtc_l; [eapply step_turn, (takes_turn _ _ 1%nat); reflexivity|]. apply rtc_refl.
Qed.

(** The action ends and wakes the sleeper, which finds no action and returns. *)
Definition returned : GateSystem := mkSystem (mkGate true 0) [DidDo; DidStop].

Lemma waiting_returns : nsteps gate_turn 2 waiting returned.
Proof.
  eapply nsteps_l; [apply (takes_turn _ _ 0%nat InAction (mkGate true 0) DidDo true); reflexivity|].
  eapply nsteps_l; [apply (takes_turn _ _ 1%nat AtWait (mkGate true 0) DidStop false); reflexivity|]. apply nsteps_O.
Qed.

Lemma stop_is_final_and_returns_witness :
  (2 <= turnsLeft waiting)%nat /\ Forall (fun t => t = DidDo \/ t = Refused \/ t = DidStop) (sys_threads returned).
Proof.
  destruct (proj2 (stop_is_final_and_returns waiting waiting_reachable ltac:(unfold crowded; cbn; lia)) eq_refl 2%nat returned waiting_returns)
    as [H1 H2].
  split; [exact H1|]. apply H2. intros s'' H. inversion H as [gate threads i t gate' t' broadcast Hi Ht]; subst.
  destruct i as [|[|i]]; cbn in Hi; [injection Hi as <-|injection Hi as <-|]; discriminate.
Defined.

End Gate.
Export Gate.
