(* ===== verification/Alerts.v ===== *)
(** * internal/observability/alerts.go: operator alerts

    The manager's critical sections as functions, and the threads that call it as a
    step relation: between two sections, in particular while the sink is notified,
    other threads run.  Writing the state file may fail before the rename, leaving
    the file, or after it.  The constructor, which nobody else can interfere with,
    loads the file and delivers what is pending, and fails when that fails. *)

From S2P Require Import Prelude GoTime Domain.

Module Alerts.

Definition MaxAlertEntries : Z := 4096.

Inductive AlertError := ErrInvalidAlertConfig | ErrInvalidAlert | ErrAlertCapacity | ErrAlertPersistence | ErrAlertDelivery.

(** [AlertCode] and [AlertState] are [uint8]s with these named values. *)
Definition AlertRPCDegraded : Z := 1.
Definition AlertBudgetBlocked : Z := 2.
Definition AlertAmbiguousRescue : Z := 3.
Definition AlertPaidActionsStopped : Z := 4.
Definition AlertDelegationUnexpected : Z := 5.
Definition AlertReconciliationStale : Z := 6.
Definition AlertFiring : Z := 1.
Definition AlertResolved : Z := 2.

Record Alert := mkAlert {
  Alert_ChainID : NetworkID;
  Alert_Code : Z;
  Alert_State : Z;
  Alert_At : Time }.

#[export] Instance Alert_eq_dec : EqDecision Alert.
Proof. solve_decision. Defined.

(** The chain and the code. *)
Definition alertKey : Type := NetworkID * Z.

Definition alertKeyLess (left right : alertKey) : bool :=
  if left.1 =? right.1 then left.2 <? right.2 else left.1 <? right.1.

Definition validAlertCode (code : Z) : bool := (AlertRPCDegraded <=? code) && (code <=? AlertReconciliationStale).

Record alertEntry := mkEntry {
  E_active : bool;
  E_lastNotified : Time;
  E_touched : Time;
  E_pendingState : Z;
  E_pendingAt : Time;
  E_delivering : bool }.

#[export] Instance alertEntry_eq_dec : EqDecision alertEntry.
Proof. solve_decision. Defined.

Record AlertManagerConfig := mkAlertConfig {
  Cfg_Cooldown : Duration;
  Cfg_Capacity : Z;
  Cfg_hasPath : bool }.

Abbreviation entries := (gmap alertKey alertEntry).

(** ** The state file *)

Record persistedAlert := mkPersisted {
  P_ChainID : NetworkID;
  P_Code : Z;
  P_Active : bool;
  P_LastNotified : Time;
  P_Touched : Time;
  P_PendingState : Z;
  P_PendingAt : Time }.

Definition persisted (ke : alertKey * alertEntry) : persistedAlert :=
  mkPersisted ke.1.1 ke.1.2 (E_active ke.2) (E_lastNotified ke.2) (E_touched ke.2) (E_pendingState ke.2) (E_pendingAt ke.2).

Definition key_le (a b : alertKey * alertEntry) : Prop := alertKeyLess b.1 a.1 = false.

#[export] Instance key_le_dec : RelDecision key_le.
Proof. intros a b. unfold key_le. apply _. Defined.

(** The records [persistLocked] writes, in the order of their keys. *)
Definition records (m : entries) : list persistedAlert := map persisted (merge_sort key_le (map_to_list m)).

(** How writing the file ended: it is new and safe, unchanged, or new but perhaps not safe. *)
Inductive Persistence := Written | NotWritten | PerhapsWritten.

(** What the operating system answers to each call of [persistLocked]: whether it
    succeeds, for [disk_directory] also that the directory is one and not a link. *)
Record Disk := mkDisk {
  disk_marshal : bool;
  disk_mkdir : bool;
  disk_directory : bool;
  disk_chmod : bool;
  disk_open : bool;
  disk_write : bool;
  disk_sync : bool;
  disk_close : bool;
  disk_rename : bool;
  disk_openDirectory : bool;
  disk_syncDirectory : bool;
  disk_closeDirectory : bool }.

(** The file is complete in its temporary place before it takes the name, so it is
    the old or the new one; after that only its durability is in doubt. *)
Definition writeState (disk : Disk) : Persistence :=
  if negb (disk_marshal disk) then NotWritten
  else if negb (disk_mkdir disk) then NotWritten
  else if negb (disk_directory disk) || negb (disk_chmod disk) then NotWritten
  else if negb (disk_open disk) then NotWritten
  else if negb (disk_write disk) then NotWritten
  else if negb (disk_sync disk) then NotWritten
  else if negb (disk_close disk) then NotWritten
  else if negb (disk_rename disk) then NotWritten
  else if negb (disk_openDirectory disk) then PerhapsWritten
  else if negb (disk_syncDirectory disk) || negb (disk_closeDirectory disk) then PerhapsWritten
  else Written.

Definition persistenceMayHaveCommitted (p : Persistence) : bool := match p with PerhapsWritten => true | _ => false end.

(** The file, [None] if there is none, and the error of [persistLocked]. *)
Definition persistLocked (hasPath : bool) (m : entries) (file : option (list persistedAlert)) (outcome : Persistence) :
    option (list persistedAlert) * result Persistence unit :=
  if negb hasPath then (file, Ok tt)
  else
    match outcome with
    | Written => (Some (records m), Ok tt)
    | NotWritten => (file, Err NotWritten)
    | PerhapsWritten => (Some (records m), Err PerhapsWritten)
    end.

Definition pendingValid (record : persistedAlert) : bool :=
  (P_PendingState record =? 0) && IsZero (P_PendingAt record)
  || ((P_PendingState record =? AlertFiring) || (P_PendingState record =? AlertResolved)) && negb (IsZero (P_PendingAt record)).

Definition loadRecord (m : entries) (record : persistedAlert) : result AlertError entries :=
  reject (P_ChainID record <=? 0) || negb (validAlertCode (P_Code record)) || IsZero (P_Touched record) || negb (pendingValid record)
      || IsZero (P_LastNotified record) && (P_PendingState record =? 0) with ErrAlertPersistence in
  let key : alertKey := (P_ChainID record, P_Code record) in
  match m !! key with
  | Some _ => Err ErrAlertPersistence
  | None => Ok (<[key := mkEntry (P_Active record) (P_LastNotified record) (P_Touched record) (P_PendingState record) (P_PendingAt record) false]> m)
  end.

(** The file's JSON is not in the model: its content is the list of records.  Not
    [readable] is an error of [os.ReadFile] other than that there is no file. *)
Definition loadState (config : AlertManagerConfig) (readable : bool) (file : option (list persistedAlert)) : result AlertError entries :=
  if negb (Cfg_hasPath config) then Ok ∅
  else
    reject negb readable with ErrAlertPersistence in
    match file with
    | None => Ok ∅
    | Some records =>
        reject Cfg_Capacity config <? Z.of_nat (length records) with ErrAlertPersistence in
        foldM loadRecord records ∅
    end.

Definition validConfig (config : AlertManagerConfig) : bool :=
  negb ((Cfg_Cooldown config <=? 0) || (Cfg_Capacity config <=? 0) || (MaxAlertEntries <? Cfg_Capacity config)).

(** The keys [replayPending] delivers, in order. *)
Definition pendingKeys (m : entries) : list alertKey :=
  map fst (merge_sort key_le (List.filter (fun ke => negb (E_pendingState ke.2 =? 0)) (map_to_list m))).

(** ** Critical sections *)

(** The oldest resolved entry; among equally old ones the first key. *)
Definition older (a b : alertKey * alertEntry) : bool :=
  Before (E_touched a.2) (E_touched b.2) || TimeEqual (E_touched a.2) (E_touched b.2) && alertKeyLess a.1 b.1.

Definition selectResolved (l : list (alertKey * alertEntry)) : option (alertKey * alertEntry) :=
  foldl (fun selected ke =>
    if E_active ke.2 then selected
    else match selected with
         | None => Some ke
         | Some s => if older ke s then Some ke else Some s
         end) None l.

Definition evictResolvedLocked (m : entries) : option entries :=
  match selectResolved (map_to_list m) with
  | None => None
  | Some (key, _) => Some (delete key m)
  end.

(** The first section of [deliverPending]: what is to be delivered, if anything. *)
Definition beginDelivery (key : alertKey) (m : entries) : option (Alert * entries) :=
  match m !! key with
  | None => None
  | Some e =>
      if (E_pendingState e =? 0) || E_delivering e then None
      else Some (mkAlert key.1 key.2 (E_pendingState e) (E_pendingAt e),
                 <[key := mkEntry (E_active e) (E_lastNotified e) (E_touched e) (E_pendingState e) (E_pendingAt e) true]> m)
  end.

Record Shared := mkShared {
  sh_entries : entries;
  sh_file : option (list persistedAlert) }.

Section Manager.
Context (config : AlertManagerConfig).

(** The second section, after the sink answered: whether there is more. *)
Definition endDelivery (key : alertKey) (alert : Alert) (delivered : bool) (outcome : Persistence) (st : Shared) : Shared * result AlertError bool :=
  match sh_entries st !! key with
  | None => (st, Err ErrAlertPersistence)
  | Some e =>
      let e := mkEntry (E_active e) (E_lastNotified e) (E_touched e) (E_pendingState e) (E_pendingAt e) false in
      let settled := <[key := e]> (sh_entries st) in
      if negb delivered then (mkShared settled (sh_file st), Err ErrAlertDelivery)
      else if (E_pendingState e =? Alert_State alert) && TimeEqual (E_pendingAt e) (Alert_At alert) then
        let acknowledged := <[key := mkEntry (E_active e) (Alert_At alert) (E_touched e) 0 zeroTime false]> (sh_entries st) in
        let (file, r) := persistLocked (Cfg_hasPath config) acknowledged (sh_file st) outcome in
        match r with
        | Err p => (mkShared (if persistenceMayHaveCommitted p then acknowledged else settled) file, Err ErrAlertPersistence)
        | Ok _ => (mkShared acknowledged file, Ok false)
        end
      else (mkShared settled (sh_file st), Ok (negb (E_pendingState e =? 0)))
  end.

(** The entry of a key, made if there is room or a resolved one can go. *)
Definition entryFor (key : alertKey) (m : entries) : result AlertError (entries * alertEntry) :=
  match m !! key with
  | Some e => Ok (m, e)
  | None =>
      let fresh := mkEntry false zeroTime zeroTime 0 zeroTime false in
      if Z.of_nat (size m) =? Cfg_Capacity config then
        match evictResolvedLocked m with
        | None => Err ErrAlertCapacity
        | Some m => Ok (m, fresh)
        end
      else Ok (m, fresh)
  end.

(** Whether raising an alert is worth a notification. *)
Definition emits (e : alertEntry) (now : Time) : bool :=
  let lastNotification := if After (E_pendingAt e) (E_lastNotified e) then E_pendingAt e else E_lastNotified e in
  negb (E_active e) || IsZero lastNotification || negb (Before now (Add lastNotification (Cfg_Cooldown config))).

(** The section of [Raise]: whether a notification is due. *)
Definition raiseSection (key : alertKey) (now : Time) (outcome : Persistence) (st : Shared) : Shared * result AlertError bool :=
  match entryFor key (sh_entries st) with
  | Err e => (st, Err e)
  | Ok (m, e) =>
      let emit := emits e now in
      let m := <[key := mkEntry true (E_lastNotified e) now (if emit then AlertFiring else E_pendingState e) (if emit then now else E_pendingAt e) (E_delivering e)]> m in
      let (file, r) := persistLocked (Cfg_hasPath config) m (sh_file st) outcome in
      match r with
      | Err p => (mkShared (if persistenceMayHaveCommitted p then m else sh_entries st) file, Err ErrAlertPersistence)
      | Ok _ => (mkShared m file, Ok emit)
      end
  end.

(** The section of [Resolve]: whether there was an active alert. *)
Definition resolveSection (key : alertKey) (now : Time) (outcome : Persistence) (st : Shared) : Shared * result AlertError bool :=
  match sh_entries st !! key with
  | None => (st, Ok false)
  | Some e =>
      if negb (E_active e) then (st, Ok false)
      else
        let m := <[key := mkEntry false (E_lastNotified e) now AlertResolved now (E_delivering e)]> (sh_entries st) in
        let (file, r) := persistLocked (Cfg_hasPath config) m (sh_file st) outcome in
        match r with
        | Err p => (mkShared (if persistenceMayHaveCommitted p then m else sh_entries st) file, Err ErrAlertPersistence)
        | Ok _ => (mkShared m file, Ok true)
        end
  end.

Definition Active (chainID : NetworkID) (code : Z) (m : entries) : bool :=
  match m !! ((chainID, code) : alertKey) with Some e => E_active e | None => false end.

Record AlertStatus := mkStatus {
  Status_ChainID : NetworkID;
  Status_Code : Z;
  Status_Active : bool;
  Status_LastNotified : Time }.

Definition Snapshot (m : entries) : list AlertStatus :=
  map (fun ke => mkStatus ke.1.1 ke.1.2 (E_active ke.2) (E_lastNotified ke.2)) (merge_sort key_le (map_to_list m)).

(** ** Threads *)

(** What follows a delivery. *)
Inductive Next :=
| ThenRaise (now : Time)
| ThenResolve (now : Time)
| ThenReturn
| ThenReplay (keys : list alertKey).

Inductive Place :=
| Delivering (key : alertKey) (next : Next)
| Notifying (key : alertKey) (alert : Alert) (next : Next)
| AtRaise (key : alertKey) (now : Time)
| AtResolve (key : alertKey) (now : Time)
| Ended (r : result AlertError bool).

Definition follow (key : alertKey) (next : Next) : Place :=
  match next with
  | ThenRaise now => AtRaise key now
  | ThenResolve now => AtResolve key now
  | ThenReturn => Ended (Ok true)
  | ThenReplay [] => Ended (Ok true)
  | ThenReplay (key :: keys) => Delivering key (ThenReplay keys)
  end.

Definition failed (r : result AlertError bool) : Place := Ended (match r with Ok _ => Ok false | Err e => Err e end).

(** One section of a thread, given how the sink and the disk answer. *)
Definition section (place : Place) (delivered : bool) (outcome : Persistence) (st : Shared) : Shared * Place :=
  match place with
  | Delivering key next =>
      match beginDelivery key (sh_entries st) with
      | None => (st, follow key next)
      | Some (alert, m) => (mkShared m (sh_file st), Notifying key alert next)
      end
  | Notifying key alert next =>
      let (st, r) := endDelivery key alert delivered outcome st in
      (st, match r with
           | Err e => Ended (Err e)
           | Ok more => if more then Delivering key next else follow key next
           end)
  | AtRaise key now =>
      let (st, r) := raiseSection key now outcome st in
      (st, match r with Ok true => Delivering key ThenReturn | r => failed r end)
  | AtResolve key now =>
      let (st, r) := resolveSection key now outcome st in
      (st, match r with Ok true => Delivering key ThenReturn | r => failed r end)
  | Ended r => (st, Ended r)
  end.

(** [Raise] and [Resolve] up to their first section. *)
Definition validAlert (chainID : NetworkID) (code : Z) : bool := negb ((chainID <=? 0) || negb (validAlertCode code)).

Definition Raise (chainID : NetworkID) (code : Z) (now : Time) : Place :=
  if negb (validAlert chainID code) then Ended (Err ErrInvalidAlert) else Delivering (chainID, code) (ThenRaise now).

Definition Resolve (chainID : NetworkID) (code : Z) (now : Time) : Place :=
  if negb (validAlert chainID code) then Ended (Err ErrInvalidAlert) else Delivering (chainID, code) (ThenResolve now).

(** ** The constructor *)

(** What the sink and the disk answer to one notification. *)
Abbreviation Answers := (list (bool * Disk)).

(** [deliverPending] while nobody else has the manager, as in the constructor: each
    round takes one of the answers, and [None] is that they ran out. *)
Fixpoint deliverPending (key : alertKey) (answers : Answers) (st : Shared) : option (Shared * Answers * result AlertError unit) :=
  match beginDelivery key (sh_entries st) with
  | None => Some (st, answers, Ok tt)
  | Some (alert, m) =>
      match answers with
      | [] => None
      | (delivered, disk) :: answers =>
          let (st, r) := endDelivery key alert delivered (writeState disk) (mkShared m (sh_file st)) in
          match r with
          | Err e => Some (st, answers, Err e)
          | Ok more => if more then deliverPending key answers st else Some (st, answers, Ok tt)
          end
      end
  end.

Fixpoint replayPending (keys : list alertKey) (answers : Answers) (st : Shared) : option (Shared * result AlertError unit) :=
  match keys with
  | [] => Some (st, Ok tt)
  | key :: keys =>
      match deliverPending key answers st with
      | None => None
      | Some (st, _, Err e) => Some (st, Err e)
      | Some (st, answers, Ok _) => replayPending keys answers st
      end
  end.

(** The file afterwards, and the manager or the error; the clock is there, and a
    missing sink is one that takes everything. *)
Definition NewAlertManager (readable : bool) (file : option (list persistedAlert)) (answers : Answers)
    : option (option (list persistedAlert) * result AlertError Shared) :=
  if negb (validConfig config) then Some (file, Err ErrInvalidAlertConfig)
  else
    match loadState config readable file with
    | Err e => Some (file, Err e)
    | Ok m =>
        match replayPending (pendingKeys m) answers (mkShared m file) with
        | None => None
        | Some (st, Err e) => Some (sh_file st, Err e)
        | Some (st, Ok _) => Some (sh_file st, Ok st)
        end
    end.

End Manager.

End Alerts.
Export Alerts.
