(* ===== verification/AlertTheorems.v ===== *)
(** * The alert manager under any interleaving

    Any number of threads call the manager, the sink and the disk answer as they
    like, and the process may restart at any moment.  The manager never holds more
    alerts than its capacity, its file always is its memory and loads again, and
    between two firing notifications of an alert there is a resolution or at least
    the cooldown. *)

From S2P Require Import Prelude GoTime Domain Alerts.

Module AlertTheorems.

(** An alert was raised or resolved: its key, the state and the time. *)
Definition Emission : Type := alertKey * Z * Time.

(** The last two fields record what happened, newest first: the emissions and the
    notifications of the sink, with whether it took them. *)
Record AlertSystem := mkAlertSystem {
  as_shared : Shared;
  as_threads : list Place;
  as_history : list Emission;
  as_log : list (Alert * bool) }.

Section System.
Context (config : AlertManagerConfig).

Definition kept (outcome : Persistence) : bool := negb (Cfg_hasPath config) || match outcome with NotWritten => false | _ => true end.

(** The emission of a section, if its state is kept. *)
Definition emission (place : Place) (outcome : Persistence) (st : Shared) : list Emission :=
  match place with
  | AtRaise key now =>
      match entryFor config key (sh_entries st) with
      | Ok (_, e) => if emits config e now && kept outcome then [(key, AlertFiring, now)] else []
      | Err _ => []
      end
  | AtResolve key now =>
      match sh_entries st !! key with
      | Some e => if E_active e && kept outcome then [(key, AlertResolved, now)] else []
      | None => []
      end
  | _ => []
  end.

Definition notification (place : Place) (delivered : bool) : list (Alert * bool) :=
  match place with Notifying _ alert _ => [(alert, delivered)] | _ => [] end.

(** A time after the zero one to which the cooldown can be added. *)
Definition fineTime (now : Time) : Prop := 0 < now /\ Add now (Cfg_Cooldown config) = now + Cfg_Cooldown config.

(** A new process that has loaded the file and is to replay what is pending.  Other
    threads may run before it has, which the constructor does not let them: every
    run of the constructor is one of this thread alone ([constructor_steps]). *)
Definition startManager (file : option (list persistedAlert)) : result AlertError (Shared * Place) :=
  reject negb (validConfig config) with ErrInvalidAlertConfig in
  let! m := loadState config true file in
  Ok (mkShared m file, match pendingKeys m with [] => Ended (Ok true) | key :: keys => Delivering key (ThenReplay keys) end).

(** A call begins, a thread runs one section, or the process restarts; without a
    state file a restart begins from nothing and is another system. *)
Inductive alert_step : AlertSystem -> AlertSystem -> Prop :=
| step_raise st threads h log chainID code now :
    fineTime now -> alert_step (mkAlertSystem st threads h log) (mkAlertSystem st (threads ++ [Raise chainID code now]) h log)
| step_resolve st threads h log chainID code now :
    fineTime now -> alert_step (mkAlertSystem st threads h log) (mkAlertSystem st (threads ++ [Resolve chainID code now]) h log)
| step_section st threads h log i place delivered disk st' place' :
    threads !! i = Some place -> section config place delivered (writeState disk) st = (st', place') ->
    alert_step (mkAlertSystem st threads h log)
      (mkAlertSystem st' (<[i := place']> threads) (emission place (writeState disk) st ++ h) (notification place delivered ++ log))
| step_restart st threads h log st' place :
    Cfg_hasPath config = true -> startManager (sh_file st) = Ok (st', place) -> alert_step (mkAlertSystem st threads h log) (mkAlertSystem st' [place] h log).

(** Before the first start there is no file. *)
Definition noSystem : AlertSystem := mkAlertSystem (mkShared ∅ None) [] [] [].
Definition alerts_reachable : AlertSystem -> Prop := rtc alert_step noSystem.

(** ** Entries *)

(** What [loadRecord] asks of an entry. *)
Record validEntry (key : alertKey) (e : alertEntry) : Prop := {
  ve_chain : 0 < key.1;
  ve_code : validAlertCode key.2 = true;
  ve_touched : E_touched e <> 0;
  ve_pending : E_pendingState e = 0 /\ E_pendingAt e = 0 \/ (E_pendingState e = AlertFiring \/ E_pendingState e = AlertResolved) /\ fineTime (E_pendingAt e);
  ve_notified : E_lastNotified e = 0 /\ E_pendingState e <> 0 \/ fineTime (E_lastNotified e) }.

(** Delivery in progress is not saved. *)
Definition calmed (e : alertEntry) : alertEntry :=
  mkEntry (E_active e) (E_lastNotified e) (E_touched e) (E_pendingState e) (E_pendingAt e) false.

Definition entryOf (r : persistedAlert) : alertKey * alertEntry :=
  ((P_ChainID r, P_Code r), mkEntry (P_Active r) (P_LastNotified r) (P_Touched r) (P_PendingState r) (P_PendingAt r) false).

Lemma loadRecord_valid m r :
  validEntry (entryOf r).1 (entryOf r).2 -> m !! (entryOf r).1 = None -> loadRecord m r = Ok (<[(entryOf r).1 := (entryOf r).2]> m).
Proof.
  unfold fineTime. intros [H1 H2 H3 H4 H5] Hm. cbn in *. unfold loadRecord, pendingValid, IsZero. cbv zeta. rewrite H2, Hm.
  replace (P_ChainID r <=? 0) with false by (symmetry; by apply Z.leb_gt). replace (P_Touched r =? 0) with false by (symmetry; by apply Z.eqb_neq).
  cbn [negb orb]. destruct H4 as [[H4 H4']|[H4 [H4' _]]].
  - rewrite H4, H4'. cbn. destruct H5 as [[_ ?]|[H5 _]]; [lia|]. replace (P_LastNotified r =? 0) with false by (symmetry; apply Z.eqb_neq; lia). done.
  - replace (P_PendingAt r =? 0) with false by (symmetry; apply Z.eqb_neq; lia).
    assert (E : (P_PendingState r =? 0) = false) by (apply Z.eqb_neq; unfold AlertFiring, AlertResolved in *; lia). rewrite E.
    assert (E2 : (P_PendingState r =? AlertFiring) || (P_PendingState r =? AlertResolved) = true) by (apply orb_true_iff; rewrite !Z.eqb_eq; done).
    rewrite E2. cbn. by rewrite andb_false_r.
Qed.

Lemma loadRecords_valid rs m :
  Forall (fun r => validEntry (entryOf r).1 (entryOf r).2) rs -> NoDup (map (fun r => (entryOf r).1) rs) ->
  (forall r, r ∈ rs -> m !! (entryOf r).1 = None) -> foldM loadRecord rs m = Ok (list_to_map (map entryOf rs) ∪ m).
Proof.
  revert m. induction rs as [|r rs IH]; intros m Hv Hd Hm; cbn [foldM map]; [f_equal; symmetry; apply (left_id_L ∅ (∪))|].
  apply Forall_cons in Hv as [Hr Hv]. apply NoDup_cons in Hd as [Hn Hd].
  rewrite loadRecord_valid by (try done; apply Hm; by left). rewrite IH; [|done|done|].
  - f_equal. rewrite <- insert_union_r.
    + apply insert_union_l.
    + apply not_elem_of_list_to_map_1. intros Hin. apply Hn. by rewrite <- list_fmap_compose in Hin.
  - intros r' Hr'. rewrite lookup_insert_ne; [apply Hm; by right|]. intros Heq. apply Hn. rewrite Heq. apply list_elem_of_In, in_map_iff. exists r'. split; [done|]. by apply list_elem_of_In.
Qed.

Lemma records_permutation m : map entryOf (records m) ≡ₚ map (fun ke => (ke.1, calmed ke.2)) (map_to_list m).
Proof.
  unfold records. rewrite map_map. rewrite (merge_sort_Permutation key_le (map_to_list m)).
  erewrite map_ext; [done|]. by intros [[k1 k2] e].
Qed.

Lemma records_length m : length (records m) = size m.
Proof. unfold records. rewrite length_map, (Permutation_length (merge_sort_Permutation key_le (map_to_list m))). apply length_map_to_list. Qed.

(** Saving and loading loses only the deliveries in progress. *)
Lemma load_records m : map_Forall validEntry m -> foldM loadRecord (records m) ∅ = Ok (calmed <$> m).
Proof.
  intros Hv. pose proof (records_permutation m) as Hp.
  assert (Hkeys : map (fun r => (entryOf r).1) (records m) ≡ₚ map fst (map_to_list m)).
  { rewrite <- (map_map entryOf fst), Hp, map_map. done. }
  assert (Hnd : NoDup (map (fun r => (entryOf r).1) (records m))) by (rewrite Hkeys; apply NoDup_fst_map_to_list).
  rewrite loadRecords_valid.
  - f_equal. rewrite (right_id_L ∅ (∪)). change (map entryOf (records m)) with (entryOf <$> records m) in *.
    assert (Hl : list_to_map (entryOf <$> records m) = (list_to_map (prod_map id calmed <$> map_to_list m) : gmap alertKey alertEntry)).
    { apply list_to_map_proper; [|exact Hp]. rewrite <- list_fmap_compose. exact Hnd. }
    rewrite Hl, list_to_map_fmap, list_to_map_to_list. done.
  - apply Forall_forall. intros r Hr. assert (Hin : entryOf r ∈ map entryOf (records m)) by (apply list_elem_of_In, in_map, list_elem_of_In; done).
    rewrite Hp in Hin. apply list_elem_of_In, in_map_iff in Hin as ([k e] & <- & Hin). cbn. apply list_elem_of_In, elem_of_map_to_list in Hin.
    destruct (Hv _ _ Hin) as [H1 H2 H3 H4 H5]. by split.
  - exact Hnd.
  - intros r _. apply lookup_empty.
Qed.

(** ** The invariant *)

(** The last emission of a key. *)
Fixpoint lastOf (key : alertKey) (h : list Emission) : option (Z * Time) :=
  match h with
  | [] => None
  | (k, state, t) :: h => if bool_decide (k = key) then Some (state, t) else lastOf key h
  end.

(** Two firings of a key without a resolution between them are a cooldown apart. *)
Fixpoint spaced (h : list Emission) : Prop :=
  match h with
  | [] => True
  | (key, state, t) :: h => (state = AlertFiring -> forall t', lastOf key h = Some (AlertFiring, t') -> t' + Cfg_Cooldown config <= t) /\ spaced h
  end.

Record Consistent (m : entries) (h : list Emission) : Prop := {
  co_size : Z.of_nat (size m) <= Cfg_Capacity config;
  co_valid : map_Forall validEntry m;
  co_pending : forall key e, m !! key = Some e -> E_pendingState e <> 0 -> lastOf key h = Some (E_pendingState e, E_pendingAt e);
  co_active : forall key e, m !! key = Some e -> E_active e = true -> exists t, lastOf key h = Some (AlertFiring, t) /\ 0 < t /\ (E_pendingState e = 0 -> t <= E_lastNotified e);
  co_firing : forall key t, lastOf key h = Some (AlertFiring, t) -> exists e, m !! key = Some e /\ E_active e = true;
  co_spaced : spaced h }.

(** Everything but the deliveries in progress is the same. *)
Definition same (m m' : entries) : Prop := calmed <$> m = calmed <$> m'.

Lemma same_lookup m m' key e : same m m' -> m !! key = Some e -> exists e', m' !! key = Some e' /\ calmed e = calmed e'.
Proof.
  intros H He. assert (Hk : (calmed <$> m') !! key = Some (calmed e)) by (rewrite <- H, lookup_fmap, He; done).
  rewrite lookup_fmap in Hk. destruct (m' !! key) as [e'|]; [|done]. cbn in Hk. exists e'. split; [done|]. congruence.
Qed.

Lemma same_insert m key e e' : m !! key = Some e -> calmed e' = calmed e -> same (<[key := e']> m) m.
Proof. intros He Hc. unfold same. rewrite fmap_insert, Hc. apply map_eq. intros k. destruct (decide (k = key)) as [->|Hne]; [by rewrite lookup_insert_eq, lookup_fmap, He|by rewrite lookup_insert_ne]. Qed.

Lemma Consistent_same m m' h : same m m' -> Consistent m h -> Consistent m' h.
Proof.
  intros Hs [H1 H2 H3 H4 H5 H6]. assert (Hs' : same m' m) by done. split; [|intros key e He| | | |done].
  - rewrite <- (map_size_fmap calmed m'), <- Hs, map_size_fmap. done.
  - destruct (same_lookup _ _ _ _ Hs' He) as (e' & He' & [=]). destruct (H2 _ _ He') as [? ? ? ? ?]. split; congruence.
  - intros key e He Hp. destruct (same_lookup _ _ _ _ Hs' He) as (e' & He' & [=]). rewrite (H3 _ _ He') by congruence. congruence.
  - intros key e He Hp. destruct (same_lookup _ _ _ _ Hs' He) as (e' & He' & [=]). destruct (H4 _ _ He') as (t & ? & ? & Hl); [congruence|]. exists t. split; [done|]. split; [done|]. intros Hz. assert (t <= E_lastNotified e') by (apply Hl; congruence). lia.
  - intros key t Hk. destruct (H5 _ _ Hk) as (e & He & Ha). destruct (same_lookup _ _ _ _ Hs He) as (e' & He' & [=]). exists e'. split; [done|congruence].
Qed.

(** The entry of a key changes without an emission. *)
Lemma Consistent_keep m h key e e' :
  Consistent m h -> m !! key = Some e -> validEntry key e' -> E_active e' = E_active e ->
  (E_pendingState e' <> 0 -> E_pendingState e' = E_pendingState e /\ E_pendingAt e' = E_pendingAt e) ->
  (E_pendingState e' = 0 -> forall t, lastOf key h = Some (AlertFiring, t) -> t <= E_lastNotified e') ->
  Consistent (<[key := e']> m) h.
Proof.
  intros [H1 H2 H3 H4 H5 H6] He Hv Ha Hp Hl. split; [| | | | |done].
  - rewrite map_size_insert_Some by done. done.
  - by apply map_Forall_insert_2.
  - intros k x [[<- <-]|[Hne Hx]]%lookup_insert_Some Hx'; [|by apply H3]. destruct (Hp Hx') as [-> ->]. apply H3; [done|]. destruct (Hp Hx') as [Hq _]. congruence.
  - intros k x [[<- <-]|[Hne Hx]]%lookup_insert_Some Hx'; [|by apply H4]. destruct (H4 _ _ He) as (t & Ht & Hpos & _); [congruence|]. exists t. auto.
  - intros k t Ht. destruct (H5 _ _ Ht) as (x & Hx & Hax). destruct (decide (k = key)) as [->|Hne].
    + exists e'. rewrite lookup_insert_eq. split; [done|]. congruence.
    + exists x. by rewrite lookup_insert_ne.
Qed.

(** An emission: raised or resolved, with the notification pending. *)
Lemma Consistent_emit m h key e' :
  Consistent m h -> Z.of_nat (size (<[key := e']> m)) <= Cfg_Capacity config -> validEntry key e' -> E_pendingState e' <> 0 ->
  E_active e' = (E_pendingState e' =? AlertFiring) -> 0 < E_pendingAt e' ->
  (E_pendingState e' = AlertFiring -> forall t, lastOf key h = Some (AlertFiring, t) -> t + Cfg_Cooldown config <= E_pendingAt e') ->
  Consistent (<[key := e']> m) ((key, E_pendingState e', E_pendingAt e') :: h).
Proof.
  intros [H1 H2 H3 H4 H5 H6] Hsize Hv Hp Ha Hpos Hsp. split; cbn [lastOf spaced].
  - done.
  - by apply map_Forall_insert_2.
  - intros k x [[<- <-]|[Hne Hx]]%lookup_insert_Some Hx'; [by rewrite bool_decide_eq_true_2|]. rewrite bool_decide_eq_false_2 by done. by apply H3.
  - intros k x [[<- <-]|[Hne Hx]]%lookup_insert_Some Hx'; [|rewrite bool_decide_eq_false_2 by done; by apply H4].
    rewrite bool_decide_eq_true_2 by done. rewrite Ha in Hx'. bool_hyps. rewrite Hx' in *. exists (E_pendingAt e'). split; [done|]. done.
  - intros k t. destruct (decide (key = k)) as [<-|Hne].
    + rewrite bool_decide_eq_true_2 by done. intros [= Hs _]. exists e'. rewrite lookup_insert_eq. split; [done|]. by rewrite Ha, Hs.
    + rewrite bool_decide_eq_false_2 by done. intros Ht. destruct (H5 _ _ Ht) as (x & Hx & Hax). exists x. by rewrite lookup_insert_ne.
  - done.
Qed.

Lemma older_spec a b :
  older a b = true <-> E_touched a.2 < E_touched b.2 \/ E_touched a.2 = E_touched b.2 /\ (a.1.1 < b.1.1 \/ a.1.1 = b.1.1 /\ a.1.2 < b.1.2).
Proof.
  unfold older, Before, TimeEqual, alertKeyLess. rewrite orb_true_iff, andb_true_iff, Z.ltb_lt, Z.eqb_eq.
  destruct (a.1.1 =? b.1.1) eqn:E; bool_hyps; rewrite Z.ltb_lt; lia.
Qed.

(** What is evicted is the oldest of the resolved alerts, in whatever order the map is read. *)
Lemma selectResolved_spec l :
  match selectResolved l with
  | Some sel => sel ∈ l /\ E_active sel.2 = false /\ forall ke, ke ∈ l -> E_active ke.2 = false -> older ke sel = false
  | None => forall ke, ke ∈ l -> E_active ke.2 = true
  end.
Proof.
  unfold selectResolved. induction l as [|ke l IH] using rev_ind; [set_solver|]. rewrite foldl_snoc.
  destruct (foldl _ None l) as [s|].
  - destruct IH as (Hin & Hs & Hmin). destruct (E_active ke.2) eqn:Ek.
    { split; [set_solver|]. split; [done|]. intros x [Hx| ->%list_elem_of_singleton]%elem_of_app Hax; [auto|congruence]. }
    destruct (older ke s) eqn:Eo.
    + split; [set_solver|]. split; [done|]. intros x [Hx| ->%list_elem_of_singleton]%elem_of_app Hax; apply not_true_is_false; rewrite older_spec.
      * apply older_spec in Eo. specialize (Hmin x Hx Hax). apply not_true_iff_false in Hmin. rewrite older_spec in Hmin. lia.
      * lia.
    + split; [set_solver|]. split; [done|]. intros x [Hx| ->%list_elem_of_singleton]%elem_of_app Hax; auto.
  - destruct (E_active ke.2) eqn:Ek.
    + intros x [Hx| ->%list_elem_of_singleton]%elem_of_app; auto.
    + split; [set_solver|]. split; [done|]. intros x [Hx| ->%list_elem_of_singleton]%elem_of_app Hax; [rewrite IH in Hax; done|].
      apply not_true_is_false. rewrite older_spec. lia.
Qed.

Lemma Consistent_evict m m' h : Consistent m h -> evictResolvedLocked m = Some m' -> Consistent m' h /\ S (size m') = size m.
Proof.
  intros [H1 H2 H3 H4 H5 H6]. unfold evictResolvedLocked. pose proof (selectResolved_spec (map_to_list m)) as Hs.
  destruct (selectResolved _) as [[key e]|]; [|done]. intros [= <-]. destruct Hs as (Hin & Ha & _). apply elem_of_map_to_list in Hin. cbn in Ha.
  assert (Hsz : S (size (delete key m)) = size m) by (rewrite map_size_delete_Some by eauto; pose proof (map_size_ne_0_lookup_2 m key) as Hz; destruct (size m); [destruct Hz; eauto|done]).
  split; [|done]. split; [lia|by apply map_Forall_delete| | | |done].
  - intros k x [_ Hx]%lookup_delete_Some. by apply H3.
  - intros k x [_ Hx]%lookup_delete_Some. by apply H4.
  - intros k t Ht. destruct (H5 _ _ Ht) as (x & Hx & Hax). exists x. rewrite lookup_delete_ne; [done|]. intros ->. congruence.
Qed.

(** ** The sections *)

(** The file is the memory, without the deliveries in progress. *)
Definition fileOk (m : entries) (file : option (list persistedAlert)) : Prop :=
  Cfg_hasPath config = true -> match file with None => m = ∅ | Some rs => exists m0, rs = records m0 /\ same m0 m end.

Definition SharedInv (st : Shared) (h : list Emission) : Prop := Consistent (sh_entries st) h /\ fileOk (sh_entries st) (sh_file st).

Lemma persistLocked_spec m m' file outcome file' r :
  fileOk m file -> persistLocked (Cfg_hasPath config) m' file outcome = (file', r) ->
  match r with
  | Ok _ => fileOk m' file' /\ kept outcome = true
  | Err p => fileOk (if persistenceMayHaveCommitted p then m' else m) file' /\ kept outcome = persistenceMayHaveCommitted p
  end.
Proof.
  unfold fileOk, persistLocked, kept. intros Hf. destruct (Cfg_hasPath config); cbn [negb]; [|by intros [= <- <-]].
  destruct outcome; intros [= <- <-]; cbn; (split; [intros _|done]); [by exists m'|by apply Hf|by exists m'].
Qed.

Lemma same_fileOk m m' file : same m m' -> fileOk m file -> fileOk m' file.
Proof.
  intros Hs Hf Hp. specialize (Hf Hp). destruct file as [rs|]; [destruct Hf as (m0 & -> & H0); exists m0; split; [done|]; unfold same in *; congruence|].
  subst m. unfold same in Hs. rewrite fmap_empty in Hs. symmetry in Hs. by apply fmap_empty_inv in Hs.
Qed.

Lemma SharedInv_same st m h : same (sh_entries st) m -> SharedInv st h -> SharedInv (mkShared m (sh_file st)) h.
Proof. intros Hs [H1 H2]. split; cbn; [by eapply Consistent_same|by eapply same_fileOk]. Qed.

(** The due time of an active alert whose last firing was at [t]. *)
Lemma emits_spacing m h key e now t :
  Consistent m h -> m !! key = Some e -> lastOf key h = Some (AlertFiring, t) -> emits config e now = true -> t + Cfg_Cooldown config <= now.
Proof.
  intros Hc He Ht Hem. destruct (co_firing _ _ Hc _ _ Ht) as (e0 & He0 & Ha). assert (e0 = e) as -> by congruence.
  destruct (co_active _ _ Hc _ _ He Ha) as (t0 & Ht0 & Hpos & Hlast). assert (t0 = t) as -> by congruence.
  destruct (co_valid _ _ Hc _ _ He) as [_ _ _ Hp Hn]. unfold emits, After, IsZero, Before in Hem. rewrite Ha in Hem. cbn [negb orb] in Hem.
  set (last := if E_lastNotified e <? E_pendingAt e then E_pendingAt e else E_lastNotified e) in Hem.
  assert (Hle : t <= last /\ fineTime last).
  { unfold last. destruct (decide (E_pendingState e = 0)) as [Hz|Hz].
    - specialize (Hlast Hz). destruct Hn as [[_ ?]|Hn]; [done|]. destruct Hp as [[_ Hp]|[[Hp|Hp] _]]; [|unfold AlertFiring, AlertResolved in *; lia..].
      destruct (_ <? _) eqn:E; bool_hyps; [lia|done].
    - rewrite (co_pending _ _ Hc _ _ He Hz) in Ht. injection Ht as _ <-. destruct Hp as [[? _]|[_ Hp]]; [done|].
      destruct (_ <? _) eqn:E; bool_hyps; [split; [lia|done]|]. destruct Hn as [[Hn _]|Hn]; [|split; [lia|done]]. destruct Hp. lia. }
  destruct Hle as [Hle [Hlp Hadd]]. rewrite Hadd in Hem. apply orb_true_iff in Hem as [Hem|Hem]; bool_hyps; lia.
Qed.

Lemma entryFor_spec key m h m1 e :
  Consistent m h -> entryFor config key m = Ok (m1, e) ->
  Consistent m1 h /\ (m !! key = Some e /\ m1 = m \/ m1 !! key = None /\ Z.of_nat (S (size m1)) <= Cfg_Capacity config /\ e = mkEntry false zeroTime zeroTime 0 zeroTime false).
Proof.
  intros Hc. unfold entryFor. destruct (m !! key) as [x|] eqn:E; [intros [= <- <-]; auto|].
  destruct (_ =? _) eqn:Es; bool_hyps.
  - destruct (evictResolvedLocked m) as [m2|] eqn:Ev; [|done]. intros [= <- <-]. destruct (Consistent_evict _ _ _ Hc Ev) as [Hc2 Hsz].
    split; [done|]. right. split; [|split; [lia|done]]. unfold evictResolvedLocked in Ev. destruct (selectResolved _) as [[k x]|]; [|done]. injection Ev as <-.
    destruct (decide (k = key)) as [->|Hne]; [apply lookup_delete_eq|by rewrite lookup_delete_ne].
  - intros [= <- <-]. split; [done|]. right. split; [done|]. pose proof (co_size _ _ Hc). split; [lia|done].
Qed.

Definition fineKey (key : alertKey) : Prop := 0 < key.1 /\ validAlertCode key.2 = true.

(** A section's new state is kept or dropped together with its emission. *)
Lemma SharedInv_persist st m h em outcome file r :
  SharedInv st h -> Consistent m (em ++ h) -> persistLocked (Cfg_hasPath config) m (sh_file st) outcome = (file, r) ->
  match r with
  | Ok _ => SharedInv (mkShared m file) ((if kept outcome then em else []) ++ h)
  | Err p => SharedInv (mkShared (if persistenceMayHaveCommitted p then m else sh_entries st) file) ((if kept outcome then em else []) ++ h)
  end.
Proof.
  intros [Hc Hf] Hm Hp. pose proof (persistLocked_spec _ _ _ _ _ _ Hf Hp) as H. destruct r as [[]|p]; destruct H as [H1 ->]; [by split|].
  destruct (persistenceMayHaveCommitted p); by split.
Qed.

Lemma raise_inv key now outcome st h st' r :
  fineKey key -> fineTime now -> SharedInv st h -> raiseSection config key now outcome st = (st', r) ->
  SharedInv st' (emission (AtRaise key now) outcome st ++ h).
Proof.
  intros [Hk1 Hk2] Hnow Hs. unfold raiseSection, emission. destruct (entryFor config key (sh_entries st)) as [[m e]|err] eqn:Ee; [|by intros [= <- <-]].
  destruct (entryFor_spec _ _ _ _ _ (proj1 Hs) Ee) as [Hc He]. cbv zeta.
  set (e' := mkEntry true _ _ _ _ _). assert (Hm : Consistent (<[key := e']> m) ((if emits config e now then [(key, AlertFiring, now)] else []) ++ h)).
  { unfold e'. destruct (emits config e now) eqn:Em; cbn [app].
    - apply (Consistent_emit _ _ _ (mkEntry true _ _ _ _ _)); cbn; [done| | |done|done|apply Hnow|].
      + destruct He as [[He ->]|(He & Hsz & _)]; [rewrite map_size_insert_Some by done; apply Hc|rewrite map_size_insert_None by done; done].
      + pose proof Hnow as [Hpos _]. split; cbn; auto; [lia|]. destruct He as [[He ->]|(_ & _ & ->)]; [|by left].
        destruct (ve_notified _ _ (co_valid _ _ Hc _ _ He)) as [[Hz _]|Hz]; [left; split; done|by right].
      + intros _ t Ht. destruct He as [[He ->]|(He & _)]; [by eapply emits_spacing|].
        destruct (co_firing _ _ Hc _ _ Ht) as (x & Hx & _). congruence.
    - assert (Ha : E_active e = true) by (unfold emits in Em; bool_hyps; done).
      destruct He as [[He ->]|(_ & _ & ->)]; [|done]. pose proof (co_valid _ _ Hc _ _ He) as [V1 V2 V3 V4 V5].
      eapply Consistent_keep; cbn; [done|exact He| |done|done|].
      + split; cbn; auto. destruct Hnow. lia.
      + intros Hz t Ht. destruct (co_active _ _ Hc _ _ He Ha) as (t0 & Ht0 & _ & Hl). assert (t0 = t) as -> by congruence. auto. }
  destruct (persistLocked _ _ _ _) as [file r0] eqn:Ep. pose proof (SharedInv_persist _ _ _ _ _ _ _ Hs Hm Ep) as H.
  destruct r0; intros [= <- <-]; revert H; by destruct (kept outcome), (emits config e now).
Qed.

Lemma resolve_inv key now outcome st h st' r :
  fineKey key -> fineTime now -> SharedInv st h -> resolveSection config key now outcome st = (st', r) ->
  SharedInv st' (emission (AtResolve key now) outcome st ++ h).
Proof.
  intros Hk Hnow Hs. pose proof (proj1 Hs) as Hc. unfold resolveSection, emission. destruct (sh_entries st !! key) as [e|] eqn:He; [|by intros [= <- <-]].
  destruct (E_active e) eqn:Ha; cbn [negb andb]; [|by intros [= <- <-]].
  set (e' := mkEntry false _ _ _ _ _). pose proof (co_valid _ _ Hc _ _ He) as [V1 V2 V3 V4 V5].
  assert (Hm : Consistent (<[key := e']> (sh_entries st)) ([(key, AlertResolved, now)] ++ h)).
  { unfold e'. apply (Consistent_emit _ _ _ (mkEntry false _ _ _ _ _)); cbn; [done| | |done|done|apply Hnow|done].
    - rewrite map_size_insert_Some by done. apply Hc.
    - destruct Hnow as [Hpos Hadd]. split; cbn; auto; [lia|right; split; [auto|by split]|]. destruct V5 as [[Hz _]|Hz]; [left; split; done|by right]. }
  destruct (persistLocked _ _ _ _) as [file r0] eqn:Ep. pose proof (SharedInv_persist _ _ _ _ _ _ _ Hs Hm Ep) as H.
  destruct r0; intros [= <- <-]; exact H.
Qed.

Lemma beginDelivery_inv key st h alert m :
  SharedInv st h -> beginDelivery key (sh_entries st) = Some (alert, m) ->
  SharedInv (mkShared m (sh_file st)) h /\ lastOf key h = Some (Alert_State alert, Alert_At alert) /\ fineTime (Alert_At alert) /\ key = (Alert_ChainID alert, Alert_Code alert).
Proof.
  intros Hs. pose proof (proj1 Hs) as Hc. unfold beginDelivery. destruct (sh_entries st !! key) as [e|] eqn:He; [|done].
  destruct (_ || _) eqn:E; [done|]. intros [= <- <-]. bool_hyps. split; [|split; [|split]]; cbn.
  - apply SharedInv_same; [|done]. symmetry. by apply (same_insert _ _ e).
  - by apply (co_pending _ _ Hc).
  - destruct (ve_pending _ _ (co_valid _ _ Hc _ _ He)) as [[? _]|[_ ?]]; done.
  - by destruct key.
Qed.

Lemma endDelivery_inv key alert delivered outcome st h st' r :
  fineTime (Alert_At alert) -> SharedInv st h -> endDelivery config key alert delivered outcome st = (st', r) -> SharedInv st' h.
Proof.
  intros Hat Hs. pose proof (proj1 Hs) as Hc. unfold endDelivery. destruct (sh_entries st !! key) as [e|] eqn:He; [|by intros [= <- <-]].
  cbv zeta. set (e' := mkEntry (E_active e) _ _ _ _ _).
  assert (Hset : SharedInv (mkShared (<[key := e']> (sh_entries st)) (sh_file st)) h) by (apply SharedInv_same; [symmetry; by apply (same_insert _ _ e)|done]).
  destruct (negb delivered); [by intros [= <- <-]|]. destruct (_ && _) eqn:E; [|by intros [= <- <-]]. cbn in E. unfold TimeEqual in E. bool_hyps.
  set (e2 := mkEntry _ (Alert_At alert) _ 0 zeroTime false). pose proof (co_valid _ _ Hc _ _ He) as [V1 V2 V3 V4 V5].
  assert (Hack : Consistent (<[key := e2]> (sh_entries st)) ([] ++ h)).
  { eapply Consistent_keep; cbn; [done|exact He| |done|done|].
    - split; cbn; auto.
    - intros _ t Ht. destruct (decide (E_pendingState e = 0)) as [Hz|Hz].
      + destruct V4 as [[_ Hz']|[[?|?] _]]; [destruct Hat; lia|unfold AlertFiring, AlertResolved in *; lia..].
      + rewrite (co_pending _ _ Hc _ _ He Hz) in Ht. injection Ht as _ <-. lia. }
  destruct (persistLocked _ _ _ _) as [file r0] eqn:Ep. pose proof (SharedInv_persist _ _ _ _ _ _ _ Hs Hack Ep) as HP.
  assert (Hnil : (if kept outcome then [] else []) = ([] : list Emission)) by by destruct (kept outcome). rewrite Hnil in HP.
  destruct r0 as [[]|p]; intros [= <- <-]; [exact HP|]. destruct (persistenceMayHaveCommitted p); [exact HP|].
  split; [exact (proj1 Hset)|]. eapply same_fileOk; [|exact (proj2 HP)]. symmetry. by apply (same_insert _ _ e).
Qed.

(** ** The system *)

Definition fineNext (next : Next) : Prop :=
  match next with
  | ThenRaise now | ThenResolve now => fineTime now
  | ThenReturn => True
  | ThenReplay keys => Forall fineKey keys
  end.

Definition emitted (h : list Emission) (alert : Alert) : Prop := ((Alert_ChainID alert, Alert_Code alert), Alert_State alert, Alert_At alert) ∈ h.

Definition finePlace (h : list Emission) (place : Place) : Prop :=
  match place with
  | Delivering key next => fineKey key /\ fineNext next
  | Notifying key alert next => fineKey key /\ fineNext next /\ fineTime (Alert_At alert) /\ emitted h alert
  | AtRaise key now | AtResolve key now => fineKey key /\ fineTime now
  | Ended _ => True
  end.

Record AlertInv (s : AlertSystem) : Prop := {
  ai_shared : SharedInv (as_shared s) (as_history s);
  ai_threads : Forall (finePlace (as_history s)) (as_threads s);
  ai_log : Forall (fun n => emitted (as_history s) n.1) (as_log s) }.

Lemma emitted_app h h' alert : emitted h alert -> emitted (h' ++ h) alert.
Proof. intros H. apply elem_of_app. by right. Qed.

Lemma finePlace_app h h' place : finePlace h place -> finePlace (h' ++ h) place.
Proof. destruct place; cbn; auto. intros (? & ? & ? & ?). auto using emitted_app. Qed.

Lemma lastOf_elem key h state t : lastOf key h = Some (state, t) -> (key, state, t) ∈ h.
Proof.
  induction h as [|[[k s] t'] h IH]; cbn; [done|]. destruct (bool_decide (k = key)) eqn:E; bool_hyps; [intros [= -> ->]; subst; by left|].
  intros H. right. auto.
Qed.

Lemma follow_fine h key next : fineKey key -> fineNext next -> finePlace h (follow key next).
Proof. destruct next as [now|now| |[|k keys]]; cbn; auto. intros _ [? ?]%Forall_cons. auto. Qed.

Lemma section_inv place delivered outcome st h st' place' :
  SharedInv st h -> finePlace h place -> section config place delivered outcome st = (st', place') ->
  let h' := emission place outcome st ++ h in SharedInv st' h' /\ finePlace h' place' /\ Forall (fun n => emitted h' n.1) (notification place delivered).
Proof.
  intros Hs Hp. destruct place as [key next|key alert next|key now|key now|r]; cbn [section].
  - destruct Hp as [Hk Hn]. destruct (beginDelivery _ _) as [[alert m]|] eqn:E; intros [= <- <-]; cbn [emission notification app].
    + destruct (beginDelivery_inv _ _ _ _ _ Hs E) as (H1 & H2%lastOf_elem & H3 & H4). split; [done|]. split; [|done]. cbn. unfold emitted. rewrite <- H4. done.
    + split; [done|]. split; [by apply follow_fine|done].
  - destruct Hp as (Hk & Hn & Ht & He). destruct (endDelivery _ _ _ _ _ _) as [st1 r] eqn:E. intros [= <- <-]. cbn [emission notification app].
    split; [by eapply endDelivery_inv|]. split; [|by apply Forall_singleton]. destruct r as [[]|]; [done|by apply follow_fine|done].
  - destruct Hp as [Hk Hn]. destruct (raiseSection _ _ _ _ _) as [st1 r] eqn:E. intros [= <- <-].
    split; [by eapply raise_inv|]. split; [|by apply List.Forall_nil]. by destruct r as [[]|].
  - destruct Hp as [Hk Hn]. destruct (resolveSection _ _ _ _ _) as [st1 r] eqn:E. intros [= <- <-].
    split; [by eapply resolve_inv|]. split; [|by apply List.Forall_nil]. by destruct r as [[]|].
  - intros [= <- <-]. split; [done|]. split; [done|by apply List.Forall_nil].
Qed.

Lemma call_fine h chainID code next : fineNext next -> finePlace h (if negb (validAlert chainID code) then Ended (Err ErrInvalidAlert) else Delivering (chainID, code) next).
Proof. intros Hn. destruct (validAlert chainID code) eqn:E; [|done]. unfold validAlert in E. bool_hyps. by repeat split. Qed.

Lemma same_calmed m : same m (calmed <$> m).
Proof. unfold same. apply map_eq. intros k. rewrite !lookup_fmap. by destruct (m !! k). Qed.

(** A restart finds the alerts as they were. *)
Lemma load_inv st h : Cfg_hasPath config = true -> validConfig config = true -> SharedInv st h ->
  loadState config true (sh_file st) = Ok (calmed <$> sh_entries st).
Proof.
  intros Hp Hv [Hc Hf]. specialize (Hf Hp). unfold loadState. rewrite Hp. cbn [negb]. destruct (sh_file st) as [rs|]; [|by rewrite Hf, fmap_empty].
  destruct Hf as (m0 & -> & Hs). pose proof (Consistent_same _ _ _ (eq_sym Hs) Hc) as Hc0.
  rewrite records_length. pose proof (co_size _ _ Hc0). destruct (_ <? _) eqn:E; [bool_hyps; lia|]. rewrite load_records by apply Hc0.
  by f_equal.
Qed.

Lemma restart_inv st h st' place :
  Cfg_hasPath config = true -> startManager (sh_file st) = Ok (st', place) -> SharedInv st h -> SharedInv st' h /\ finePlace h place.
Proof.
  intros Hp. unfold startManager. destruct (validConfig config) eqn:Hv; cbn [negb]; [|done]. intros Hn Hs.
  rewrite (load_inv _ _ Hp Hv Hs) in Hn. injection Hn as <- <-. pose proof (SharedInv_same _ _ _ (same_calmed _) Hs) as Hs'.
  set (m := calmed <$> sh_entries st) in *.
  split; [done|]. assert (Hk : Forall fineKey (pendingKeys m)).
  { apply Forall_forall. intros k Hk. apply list_elem_of_In, in_map_iff in Hk as ([k' e] & <- & Hin). apply list_elem_of_In in Hin.
    rewrite merge_sort_Permutation in Hin. apply list_elem_of_In, filter_In in Hin as [Hin _]. apply list_elem_of_In, elem_of_map_to_list in Hin.
    destruct (co_valid _ _ (proj1 Hs') _ _ Hin). by split. }
  destruct (pendingKeys m) as [|k keys]; [done|]. apply Forall_cons in Hk as [? ?]. by split.
Qed.

Lemma alert_step_inv s s' : alert_step s s' -> AlertInv s -> AlertInv s'.
Proof.
  intros [st threads h log chainID code now Hn|st threads h log chainID code now Hn|st threads h log i place delivered disk st' place' Hi Hsec|st threads h log st' place Hp Hnew] [Hs Ht Hl]; cbn in *.
  - split; cbn; [done| |done]. apply Forall_app. split; [done|]. constructor; [|constructor]. by apply call_fine.
  - split; cbn; [done| |done]. apply Forall_app. split; [done|]. constructor; [|constructor]. by apply call_fine.
  - destruct (section_inv _ _ _ _ _ _ _ Hs (proj1 (Forall_lookup _ _) Ht _ _ Hi) Hsec) as (H1 & H2 & H3). split; cbn; [done| |].
    + apply Forall_insert; [|done]. eapply Forall_impl; [exact Ht|]. intros. by apply finePlace_app.
    + apply Forall_app. split; [done|]. eapply Forall_impl; [exact Hl|]. intros. by apply emitted_app.
  - destruct (restart_inv _ _ _ _ Hp Hnew Hs) as [H1 H2]. split; cbn; [done|by apply Forall_singleton|done].
Qed.

Lemma alerts_reachable_inv s : 0 < Cfg_Capacity config -> alerts_reachable s -> AlertInv s.
Proof.
  intros Hcap H. assert (H0 : AlertInv noSystem).
  { split; [split; [|done]|by apply List.Forall_nil..].
    split; [change (Z.of_nat (size (∅ : entries)) <= Cfg_Capacity config); rewrite map_size_empty; lia|apply map_Forall_empty|done..]. }
  revert H0. unfold alerts_reachable in H. induction H as [s|s s1 s2 Hstep _ IH]; [done|]. intros Hi. by apply IH, (alert_step_inv s).
Qed.

(** ** The constructor *)

(** The notification of an entry was taken. *)
Definition acknowledged (e : alertEntry) : alertEntry :=
  if E_pendingState e =? 0 then calmed e else mkEntry (E_active e) (E_pendingAt e) (E_touched e) 0 zeroTime false.

(** The sink took the notification and the file was written. *)
Definition taken (a : bool * Disk) : bool := a.1 && match writeState a.2 with Written => true | _ => false end.

(** Nothing is being delivered. *)
Definition idle (m : entries) : Prop := forall key e, m !! key = Some e -> E_delivering e = false.

(** Some of the pending notifications were taken, and nothing else changed. *)
Definition partly (m m' : entries) : Prop := forall key, m' !! key = m !! key \/ m' !! key = acknowledged <$> m !! key.

Lemma calmed_idle e : E_delivering e = false -> calmed e = e.
Proof. destruct e. cbn. by intros ->. Qed.

(** One pending alert: a round for it. *)
Lemma deliver_one key e delivered disk answers st :
  Cfg_hasPath config = true -> sh_entries st !! key = Some e -> E_pendingState e <> 0 -> E_delivering e = false ->
  deliverPending config key ((delivered, disk) :: answers) st =
    let acked := <[key := acknowledged e]> (sh_entries st) in
    Some (if delivered then
            match writeState disk with
            | Written => (mkShared acked (Some (records acked)), answers, Ok tt)
            | NotWritten => (mkShared (sh_entries st) (sh_file st), answers, Err ErrAlertPersistence)
            | PerhapsWritten => (mkShared acked (Some (records acked)), answers, Err ErrAlertPersistence)
            end
          else (mkShared (sh_entries st) (sh_file st), answers, Err ErrAlertDelivery)).
Proof.
  intros Hp He Hs Hd. apply Z.eqb_neq in Hs. cbn [deliverPending]. unfold beginDelivery. rewrite He, Hs, Hd. cbn [orb].
  unfold endDelivery. cbn [sh_entries sh_file E_active E_lastNotified E_touched E_pendingState E_pendingAt Alert_State Alert_At]. rewrite lookup_insert_eq. cbn [E_active E_lastNotified E_touched E_pendingState E_pendingAt].
  rewrite !insert_insert_eq. fold (calmed e). rewrite (calmed_idle e Hd), (insert_id _ _ _ He).
  unfold TimeEqual, acknowledged. rewrite Hs, !Z.eqb_refl. cbn [andb]. destruct delivered; cbn [negb]; [|done].
  unfold persistLocked. rewrite Hp. cbn [negb]. by destruct (writeState disk).
Qed.

(** The invariant holds after the round. *)
Lemma deliver_inv key answers st st' rest r h :
  SharedInv st h -> deliverPending config key answers st = Some (st', rest, r) -> SharedInv st' h.
Proof.
  revert st. induction answers as [|[delivered disk] answers IH]; intros st Hs; cbn [deliverPending];
    (destruct (beginDelivery key (sh_entries st)) as [[alert m]|] eqn:Eb; [|by intros [= <- <- <-]]); [done|].
  destruct (beginDelivery_inv _ _ _ _ _ Hs Eb) as (Hs1 & _ & Ht & _). destruct (endDelivery _ _ _ _ _ _) as [st1 r1] eqn:Ee.
  pose proof (endDelivery_inv _ _ _ _ _ _ _ _ Ht Hs1 Ee) as Hs2. destruct r1 as [[]|e]; [by apply IH|by intros [= <- <- <-]..].
Qed.

Lemma replay_spec keys answers st h :
  Cfg_hasPath config = true -> SharedInv st h -> idle (sh_entries st) -> NoDup keys ->
  (forall key, key ∈ keys -> exists e, sh_entries st !! key = Some e /\ E_pendingState e <> 0) ->
  (length keys <= length answers)%nat ->
  exists st' r, replayPending config keys answers st = Some (st', r) /\ SharedInv st' h /\ partly (sh_entries st) (sh_entries st') /\
    match r with
    | Ok _ => forallb taken (take (length keys) answers) = true /\
        forall key, sh_entries st' !! key = if decide (key ∈ keys) then acknowledged <$> sh_entries st !! key else sh_entries st !! key
    | Err _ => forallb taken (take (length keys) answers) = false
    end.
Proof.
  intros Hp. revert answers st. induction keys as [|key keys IH]; intros answers st Hs Hi Hnd Hk Hlen; cbn [replayPending].
  { exists st, (Ok tt). split; [done|]. split; [done|]. split; [by left|]. split; [done|]. intros key. by rewrite decide_False by by intros ?%elem_of_nil. }
  destruct answers as [|[delivered disk] answers]; [cbn in Hlen; lia|]. apply NoDup_cons in Hnd as [Hn Hnd].
  destruct (Hk key) as (e & He & Hpend); [by left|]. pose proof (deliver_one key e delivered disk answers st Hp He Hpend (Hi _ _ He)) as Hone. cbv zeta in Hone.
  assert (Hinv : forall st1 rest r1, deliverPending config key ((delivered, disk) :: answers) st = Some (st1, rest, r1) -> SharedInv st1 h) by (intros; by eapply deliver_inv).
  rewrite Hone in *. cbn [length take forallb]. unfold taken at 1 3. cbn [fst snd].
  assert (Hack : partly (sh_entries st) (<[key := acknowledged e]> (sh_entries st))).
  { intros k. destruct (decide (key = k)) as [<-|Hne]; [right; by rewrite lookup_insert_eq, He|left; by rewrite lookup_insert_ne]. }
  destruct delivered; cbn [andb].
  2:{ eexists _, _. split; [done|]. split; [by eapply Hinv|]. split; [by left|done]. }
  destruct (writeState disk); cbn [andb].
  2:{ eexists _, _. split; [done|]. split; [by eapply Hinv|]. split; [by left|done]. }
  2:{ eexists _, _. split; [done|]. split; [by eapply Hinv|]. split; [done|done]. }
  set (st1 := mkShared _ _) in *.
  destruct (IH answers st1) as (st' & r & Hr & Hs' & Hpart & Hres); [by eapply Hinv| |done| |cbn in Hlen; lia|].
  - intros k x. cbn [sh_entries st1]. intros [[<- <-]|[_ Hx]]%lookup_insert_Some; [|by eapply Hi]. unfold acknowledged. by destruct (_ =? _).
  - intros k Hin. destruct (Hk k) as (x & Hx & Hxp); [by right|]. exists x. split; [|done]. cbn. rewrite lookup_insert_ne by (intros ->; done). done.
  - exists st', r. split; [done|]. split; [done|]. split.
    + intros k. destruct (Hpart k) as [H|H]; rewrite H; [apply Hack|]. cbn [sh_entries st1]. destruct (decide (key = k)) as [<-|Hne].
      * right. rewrite lookup_insert_eq, He. cbn. f_equal. unfold acknowledged. apply Z.eqb_neq in Hpend. by rewrite Hpend.
      * right. by rewrite lookup_insert_ne.
    + destruct r as [[]|]; [|done]. destruct Hres as [Ht Hres]. split; [done|]. intros k. rewrite Hres. cbn [sh_entries st1].
      destruct (decide (key = k)) as [<-|Hne].
      * rewrite decide_False, decide_True by (done || by left). by rewrite lookup_insert_eq, He.
      * rewrite lookup_insert_ne by done. destruct (decide (k ∈ keys)); [by rewrite decide_True by by right|].
        rewrite decide_False; [done|]. intros [->|?]%elem_of_cons; done.
Qed.

Lemma pendingKeys_spec m : NoDup (pendingKeys m) /\ forall key, key ∈ pendingKeys m <-> exists e, m !! key = Some e /\ E_pendingState e <> 0.
Proof.
  unfold pendingKeys. change (map fst (merge_sort key_le ?l)) with (fst <$> merge_sort key_le l). split.
  - rewrite merge_sort_Permutation.
    pose proof (NoDup_fst_map_to_list m) as Hnd. revert Hnd. generalize (map_to_list m). induction l as [|x l IHl]; [done|]. cbn. intros [H1 H2]%NoDup_cons.
    destruct (negb _); [|by apply IHl]. cbn. apply NoDup_cons. split; [|by apply IHl]. intros (y & Hy & Hin)%list_elem_of_fmap.
    apply H1. apply list_elem_of_fmap. exists y. split; [done|]. apply list_elem_of_In in Hin. apply filter_In in Hin as [Hin _]. by apply list_elem_of_In.
  - intros key. rewrite list_elem_of_fmap. setoid_rewrite merge_sort_Permutation. setoid_rewrite list_elem_of_In. setoid_rewrite filter_In. split.
    + intros ([k e] & -> & Hin & Hp). apply list_elem_of_In, elem_of_map_to_list in Hin. exists e. split; [done|]. cbn in Hp. bool_hyps. done.
    + intros (e & He & Hp). exists (key, e). split; [done|]. split; [by apply list_elem_of_In, elem_of_map_to_list|]. cbn. apply Z.eqb_neq in Hp. by rewrite Hp.
Qed.

Lemma partly_idle m m' : idle m -> partly m m' -> idle m'.
Proof.
  intros Hi Hp key e He. destruct (Hp key) as [H|H]; rewrite H in He; [by eapply Hi|]. destruct (m !! key) as [x|]; [|done]. injection He as <-.
  unfold acknowledged. by destruct (_ =? _).
Qed.

(** The constructor on the file of a system, whatever the sink and the disk answer. *)
Lemma constructor_spec st h answers :
  Cfg_hasPath config = true -> validConfig config = true -> SharedInv st h -> (length (pendingKeys (sh_entries st)) <= length answers)%nat ->
  exists file r, NewAlertManager config true (sh_file st) answers = Some (file, r) /\
    (exists m, loadState config true file = Ok m /\ partly (calmed <$> sh_entries st) m /\
       match r with
       | Ok st' => m = sh_entries st' /\ sh_entries st' = acknowledged <$> sh_entries st /\ sh_file st' = file
       | Err _ => True
       end) /\
    isOk r = forallb taken (take (length (pendingKeys (sh_entries st))) answers).
Proof.
  intros Hp Hv Hs Hlen. unfold NewAlertManager. rewrite Hv, (load_inv st h Hp Hv Hs). cbn [negb]. set (m := calmed <$> sh_entries st) in *.
  assert (Hlook : forall key, m !! key = calmed <$> sh_entries st !! key) by (intros key; subst m; apply lookup_fmap).
  assert (Hidle : idle m) by (intros key e He; rewrite Hlook in He; destruct (sh_entries st !! key); [|done]; by injection He as <-).
  destruct (pendingKeys_spec m) as [Hnd Hin]. destruct (pendingKeys_spec (sh_entries st)) as [Hnd0 Hin0].
  assert (Hkeys : pendingKeys m ≡ₚ pendingKeys (sh_entries st)).
  { apply NoDup_Permutation; [done|done|]. intros key. rewrite Hin, Hin0, Hlook. destruct (sh_entries st !! key) as [x|]; cbn; [|naive_solver].
    split; intros (e & [= <-] & He); by eexists. }
  rewrite <- (Permutation_length Hkeys) in *.
  destruct (replay_spec (pendingKeys m) answers (mkShared m (sh_file st)) h) as (st' & r & Hr & Hs' & Hpart & Hres);
    [done|apply SharedInv_same; [apply same_calmed|done]|done|done|by intros key ?%Hin|done|].
  rewrite Hr. pose proof (load_inv st' h Hp Hv Hs') as Hl'.
  assert (Hsame : calmed <$> sh_entries st' = sh_entries st').
  { apply map_eq. intros key. rewrite lookup_fmap. destruct (sh_entries st' !! key) as [e|] eqn:E; [|done]. cbn. by rewrite calmed_idle by by eapply partly_idle. }
  rewrite Hsame in Hl'. exists (sh_file st'). destruct r as [[]|e].
  - destruct Hres as [Ht Hres]. exists (Ok st'). split; [done|]. split; [|by cbn]. exists (sh_entries st'). split; [done|]. split; [done|]. split; [done|]. split; [|done].
    apply map_eq. intros key. rewrite Hres, lookup_fmap. cbn [sh_entries]. rewrite Hlook. destruct (decide _) as [Hk|Hk].
    + destruct (sh_entries st !! key) as [x|]; [|done]. cbn. f_equal.
    + destruct (sh_entries st !! key) as [x|] eqn:Ex; [|done]. cbn. f_equal. unfold acknowledged. destruct (E_pendingState x =? 0) eqn:Ez; [done|].
      destruct Hk. apply Hin. exists (calmed x). rewrite Hlook, Ex. split; [done|]. by apply Z.eqb_neq.
  - exists (Err e). split; [done|]. split; [|by cbn]. exists (sh_entries st'). done.
Qed.

(** A run of the constructor is a run of the restarted system in which only its
    thread moves: it ends as the constructor does, with its file. *)
Lemma deliver_steps key answers next st st' rest r h log threads :
  deliverPending config key answers st = Some (st', rest, r) ->
  exists log', rtc alert_step (mkAlertSystem st (threads ++ [Delivering key next]) h log)
    (mkAlertSystem st' (threads ++ [match r with Ok _ => follow key next | Err e => Ended (Err e) end]) h log').
Proof.
  assert (Hstep : forall st0 log0 place delivered disk st1 place1, section config place delivered (writeState disk) st0 = (st1, place1) ->
    emission place (writeState disk) st0 = [] ->
    alert_step (mkAlertSystem st0 (threads ++ [place]) h log0) (mkAlertSystem st1 (threads ++ [place1]) h (notification place delivered ++ log0))).
  { intros st0 log0 place delivered disk st1 place1 Hsec Hem.
    replace (threads ++ [place1]) with (<[length threads := place1]> (threads ++ [place])) by (rewrite insert_app_r_alt, Nat.sub_diag by lia; done).
    change h with ([] ++ h) at 2. rewrite <- Hem. apply (step_section _ _ _ _ _ _ _ disk); [|done]. rewrite lookup_app_r, Nat.sub_diag by lia. done. }
  assert (Hdone : forall st0 log0, beginDelivery key (sh_entries st0) = None ->
    alert_step (mkAlertSystem st0 (threads ++ [Delivering key next]) h log0) (mkAlertSystem st0 (threads ++ [follow key next]) h log0)).
  { intros st0 log0 Hb. apply (Hstep st0 log0 (Delivering key next) true (mkDisk true true true true true true true true true true true true)); [|done]. cbn. by rewrite Hb. }
  revert st log. induction answers as [|[delivered disk] answers IH]; intros st log; cbn [deliverPending];
    (destruct (beginDelivery key (sh_entries st)) as [[alert m]|] eqn:Eb; [|intros [= <- <- <-]; exists log; by apply rtc_once, Hdone]); [done|].
  destruct (endDelivery _ _ _ _ _ _) as [st1 r1] eqn:Ee. intros H.
  assert (H1 : alert_step (mkAlertSystem st (threads ++ [Delivering key next]) h log) (mkAlertSystem (mkShared m (sh_file st)) (threads ++ [Notifying key alert next]) h log)).
  { apply (Hstep st log (Delivering key next) true disk); [|done]. cbn. by rewrite Eb. }
  assert (H2 : alert_step (mkAlertSystem (mkShared m (sh_file st)) (threads ++ [Notifying key alert next]) h log)
    (mkAlertSystem st1 (threads ++ [match r1 with Err e => Ended (Err e) | Ok more => if more then Delivering key next else follow key next end]) h ((alert, delivered) :: log))).
  { apply (Hstep (mkShared m (sh_file st)) log (Notifying key alert next) delivered disk); [|done]. cbn. by rewrite Ee. }
  destruct r1 as [[]|e].
  - destruct (IH _ ((alert, delivered) :: log) H) as [log' Hr]. exists log'. eapply rtc_l; [exact H1|]. by eapply rtc_l.
  - injection H as <- <- <-. eexists. eapply rtc_l; [exact H1|]. by apply rtc_once.
  - injection H as <- <- <-. eexists. eapply rtc_l; [exact H1|]. by apply rtc_once.
Qed.

Lemma replay_steps keys answers key st st' r h log :
  replayPending config (key :: keys) answers st = Some (st', r) ->
  exists log', rtc alert_step (mkAlertSystem st [Delivering key (ThenReplay keys)] h log)
    (mkAlertSystem st' [Ended (match r with Ok _ => Ok true | Err e => Err e end)] h log').
Proof.
  revert key answers st log. induction keys as [|key' keys IH]; intros key answers st log; cbn [replayPending];
    (destruct (deliverPending config key answers st) as [[[st1 rest] r1]|] eqn:Ed; [|done]).
  - destruct (deliver_steps key answers (ThenReplay []) st st1 rest r1 h log [] Ed) as [log1 H1].
    destruct r1 as [u|e]; intros [= <- <-]; by exists log1.
  - destruct (deliver_steps key answers (ThenReplay (key' :: keys)) st st1 rest r1 h log [] Ed) as [log1 H1].
    destruct r1 as [u|e]; [|intros [= <- <-]; by exists log1].
    intros H. destruct (IH key' rest st1 log1 H) as [log2 H2]. exists log2. etransitivity; [exact H1|exact H2].
Qed.

Lemma constructor_steps st threads h log answers file r :
  Cfg_hasPath config = true -> (exists m, loadState config true (sh_file st) = Ok m) -> validConfig config = true ->
  NewAlertManager config true (sh_file st) answers = Some (file, r) ->
  exists st' log', rtc alert_step (mkAlertSystem st threads h log) (mkAlertSystem st' [Ended (match r with Ok _ => Ok true | Err e => Err e end)] h log') /\
    sh_file st' = file /\ match r with Ok s => s = st' | Err _ => True end.
Proof.
  intros Hp [m Hm] Hv. unfold NewAlertManager. rewrite Hv, Hm. cbn [negb]. intros Hnew.
  assert (Hstart : startManager (sh_file st) = Ok (mkShared m (sh_file st), match pendingKeys m with [] => Ended (Ok true) | key :: keys => Delivering key (ThenReplay keys) end))
    by (unfold startManager; by rewrite Hv, Hm).
  pose proof (step_restart st threads h log _ _ Hp Hstart) as H0. destruct (pendingKeys m) as [|key keys].
  - cbn in Hnew. injection Hnew as <- <-. exists (mkShared m (sh_file st)), log. split; [by apply rtc_once|done].
  - destruct (replayPending _ _ _ _) as [[st' [u|e]]|] eqn:Er; try done; injection Hnew as <- <-;
      (destruct (replay_steps _ _ _ _ _ _ h log Er) as [log' Hr]; exists st', log'; split; [by eapply rtc_l|done]).
Qed.

End System.

End AlertTheorems.
Export AlertTheorems.
