(* ===== verification/AlertClaims.v ===== *)
(** * What the alert manager guarantees

    Its claims, a concrete run, and the run that shows how a resolution that the
    sink did not take can be lost. *)

From S2P Require Import Prelude GoTime Domain Alerts AlertTheorems.

Module AlertClaims.

Section Claims.
Context (config : AlertManagerConfig).

Lemma spaced_lookup h l key t l' t' :
  spaced config h -> h = l ++ (key, AlertFiring, t) :: l' -> lastOf key l' = Some (AlertFiring, t') -> t' + Cfg_Cooldown config <= t.
Proof. intros Hs ->. induction l as [|[[k s] u] l IH]; cbn in Hs; [destruct Hs as [Hs _]; auto|]. apply IH, Hs. Qed.

(** C24. The alerts are bounded and survive restarts.  Whatever the threads, the
    sink and the disk do and however often the process restarts, the manager holds
    at most its capacity of alerts, and the file, if one is configured, loads at every
    moment to the same alerts: active or not, last notified, touched and pending.  A
    manager made from it at that moment, with an answer of the sink and the disk for
    each pending notification, is made exactly when all of these take and save it, and
    holds the same alerts with the pending notifications acknowledged; else the
    constructor returns an error.  Either way the file it leaves loads again, to the
    same alerts, some of the pending notifications acknowledged and nothing else
    changed. *)
Theorem alerts_survive_restarts s answers :
  validConfig config = true -> alerts_reachable config s ->
  let m := sh_entries (as_shared s) in
  Z.of_nat (size m) <= Cfg_Capacity config /\
  (Cfg_hasPath config = true ->
   loadState config true (sh_file (as_shared s)) = Ok (calmed <$> m) /\
   ((length (pendingKeys m) <= length answers)%nat ->
    exists file r, NewAlertManager config true (sh_file (as_shared s)) answers = Some (file, r) /\
      isOk r = forallb taken (take (length (pendingKeys m)) answers) /\
      match r with Ok st => sh_entries st = acknowledged <$> m /\ sh_file st = file | Err _ => True end /\
      exists m', loadState config true file = Ok m' /\ partly (calmed <$> m) m')).
Proof.
  intros Hv Hr. assert (Hcap : 0 < Cfg_Capacity config) by (unfold validConfig in Hv; bool_hyps; lia).
  pose proof (ai_shared _ _ (alerts_reachable_inv _ _ Hcap Hr)) as Hs. cbv zeta. split; [apply Hs|]. intros Hp.
  split; [by eapply load_inv|]. intros Hlen. destruct (constructor_spec _ _ _ answers Hp Hv Hs Hlen) as (file & r & H1 & (m' & H2 & H3 & H4) & H5).
  exists file, r. split; [done|]. split; [done|]. split; [|by exists m']. destruct r as [st|]; [|done]. destruct H4 as (_ & ? & ?). done.
Qed.

(** C30. Operators are not flooded and not misled.  Every notification of the sink
    is about a call that raised or resolved the alert at its time; two firings of an
    alert with no resolution between them are at least the cooldown apart, restarts
    included; and an alert is active exactly when its last change was a firing. *)
Theorem firing_alerts_are_spaced s :
  0 < Cfg_Capacity config -> alerts_reachable config s ->
  Forall (fun n => emitted (as_history s) n.1) (as_log s) /\
  (forall l key t l' t', as_history s = l ++ (key, AlertFiring, t) :: l' -> lastOf key l' = Some (AlertFiring, t') -> t' + Cfg_Cooldown config <= t) /\
  (forall chainID code, Active chainID code (sh_entries (as_shared s)) = true <-> exists t, lastOf (chainID, code) (as_history s) = Some (AlertFiring, t)).
Proof.
  intros Hcap Hr. destruct (alerts_reachable_inv _ _ Hcap Hr) as [[Hc _] _ Hl]. split; [done|]. split.
  - intros l key t l' t' Hh Ht. eapply spaced_lookup; [apply Hc|done|done].
  - intros chainID code. unfold Active. split.
    + destruct (sh_entries _ !! _) as [e|] eqn:He; [|done]. intros Ha. destruct (co_active _ _ _ Hc _ _ He Ha) as (t & Ht & _). by exists t.
    + intros [t Ht]. destruct (co_firing _ _ _ Hc _ _ Ht) as (e & He & Ha). by rewrite He.
Qed.

End Claims.

(** ** One alert at a time *)

Definition small : AlertManagerConfig := mkAlertConfig 100 1 true.

(** One thread runs to the end of its call: as many sections as listed, with the
    sink's and the disk's answers. *)
Fixpoint runCall (config : AlertManagerConfig) (answers : list (bool * Disk)) (st : Shared) (place : Place) (h : list Emission) (log : list (Alert * bool)) :
    Shared * Place * list Emission * list (Alert * bool) :=
  match answers with
  | [] => (st, place, h, log)
  | (delivered, disk) :: answers =>
      let (st', place') := section config place delivered (writeState disk) st in
      runCall config answers st' place' (emission config place (writeState disk) st ++ h) (notification place delivered ++ log)
  end.

Definition systemOf (r : Shared * Place * list Emission * list (Alert * bool)) (threads : list Place) : AlertSystem :=
  let '(st, place, h, log) := r in mkAlertSystem st (threads ++ [place]) h log.

Lemma runCall_reachable config answers st place h log threads :
  alerts_reachable config (mkAlertSystem st (threads ++ [place]) h log) ->
  alerts_reachable config (systemOf (runCall config answers st place h log) threads).
Proof.
  revert st place h log. induction answers as [|[delivered disk] answers IH]; intros st place h log Hr; cbn [runCall]; [done|].
  destruct (section config place delivered (writeState disk) st) as [st1 place1] eqn:E. apply IH. eapply rtc_r; [exact Hr|].
  replace (threads ++ [place1]) with (<[length threads := place1]> (threads ++ [place])) by (rewrite insert_app_r_alt, Nat.sub_diag by lia; done).
  eapply step_section; [|exact E]. rewrite lookup_app_r, Nat.sub_diag by lia. done.
Qed.

Definition working : Disk := mkDisk true true true true true true true true true true true true.
Definition smoothly : list (bool * Disk) := repeat (true, working) 4.
Definition deaf : list (bool * Disk) := repeat (false, working) 4.

(** An alert fires and is delivered; the sink does not take its resolution; another
    alert fires when there is room for one. *)
Definition after1 : Shared * Place * list Emission * list (Alert * bool) :=
  runCall small smoothly (mkShared ∅ None) (Raise 1 AlertRPCDegraded 10) [] [].
Definition after2 : Shared * Place * list Emission * list (Alert * bool) :=
  let '(st, _, h, log) := after1 in runCall small deaf st (Resolve 1 AlertRPCDegraded 20) h log.
Definition after3 : Shared * Place * list Emission * list (Alert * bool) :=
  let '(st, _, h, log) := after2 in runCall small smoothly st (Raise 1 AlertBudgetBlocked 30) h log.

Lemma fine_small t : 0 < t -> (Add t 100 =? t + 100) = true -> fineTime small t.
Proof. intros Ht He. split; [done|]. by apply Z.eqb_eq. Qed.

Lemma after1_reachable : alerts_reachable small (systemOf after1 []).
Proof.
  apply (runCall_reachable small smoothly _ _ _ _ []). eapply rtc_l; [|apply rtc_refl].
  apply (step_raise small (mkShared ∅ None) [] [] [] 1 AlertRPCDegraded 10). by apply fine_small.
Qed.

Lemma next_reachable r place threads answers :
  alerts_reachable small (systemOf r threads) ->
  (forall st ts h log, alert_step small (mkAlertSystem st ts h log) (mkAlertSystem st (ts ++ [place]) h log)) ->
  exists threads', alerts_reachable small (systemOf (let '(st, _, h, log) := r in runCall small answers st place h log) threads').
Proof.
  destruct r as [[[st p] h] log]. cbn [systemOf]. intros Hr Hs. exists (threads ++ [p]). apply runCall_reachable. eapply rtc_r; [exact Hr|apply Hs].
Qed.

Lemma after3_reachable : exists threads, alerts_reachable small (systemOf after3 threads).
Proof.
  destruct (next_reachable after1 (Resolve 1 AlertRPCDegraded 20) [] deaf after1_reachable) as [t2 H2].
  { intros. apply step_resolve. by apply fine_small. }
  destruct (next_reachable after2 (Raise 1 AlertBudgetBlocked 30) t2 smoothly H2) as [t3 H3].
  { intros. apply step_raise. by apply fine_small. }
  by exists t3.
Qed.

(** A resolution whose delivery failed is forgotten when its alert makes room for
    another one: it is the alert's last change, was never taken by the sink, and is
    neither in memory nor in the file. *)
Theorem undelivered_resolution_can_be_lost :
  exists s key alert, alerts_reachable small s /\ lastOf key (as_history s) = Some (AlertResolved, Alert_At alert) /\
    key = (Alert_ChainID alert, Alert_Code alert) /\ ~ (alert, true) ∈ as_log s /\ sh_entries (as_shared s) !! key = None /\
    Forall (fun r => (entryOf r).1 <> key) (default [] (sh_file (as_shared s))).
Proof.
  destruct after3_reachable as [threads Hr].
  exists (systemOf after3 threads), (1, AlertRPCDegraded), (mkAlert 1 AlertRPCDegraded AlertResolved 20). split; [exact Hr|].
  repeat split; [eapply (bool_decide_eq_false_1 (_ ∈ _)); vm_compute; reflexivity|].
  vm_compute. constructor; [|constructor]. discriminate.
Qed.

Lemma after2_reachable : exists threads, alerts_reachable small (systemOf after2 threads).
Proof. apply (next_reachable after1 (Resolve 1 AlertRPCDegraded 20) [] deaf after1_reachable). intros. apply step_resolve. by apply fine_small. Qed.

(** The state after the resolution the sink did not take. *)
Definition undelivered : Shared := let '(st, _, _, _) := after2 in st.

Lemma undelivered_state : exists s, alerts_reachable small s /\ as_shared s = undelivered.
Proof. destruct after2_reachable as [threads H]. exists (systemOf after2 threads). split; [exact H|]. unfold undelivered. by destruct after2 as [[[st p] h] log]. Qed.

(** A manager made then: with a sink that takes it the resolution is acknowledged,
    with one that does not there is no manager, and its alert is still in the file. *)
Lemma alerts_survive_restarts_witness :
  (exists file st, NewAlertManager small true (sh_file undelivered) [(true, working)] = Some (file, Ok st) /\
     sh_entries st = acknowledged <$> sh_entries undelivered) /\
  exists file e m, NewAlertManager small true (sh_file undelivered) [(false, working)] = Some (file, Err e) /\
    loadState small true file = Ok m /\ partly (calmed <$> sh_entries undelivered) m.
Proof.
  destruct undelivered_state as (s & Hr & Hs). assert (Hn : length (pendingKeys (sh_entries undelivered)) = 1%nat) by (vm_compute; reflexivity).
  split.
  - destruct (alerts_survive_restarts small s [(true, working)] ltac:(vm_compute; reflexivity) Hr) as [_ H]. rewrite Hs in H.
    destruct (H eq_refl) as [_ H']. rewrite Hn in H'. destruct (H' (le_n 1)) as (file & r & H1 & H2 & H3 & _).
    destruct r as [st|]; [|discriminate H2]. exists file, st. exact (conj H1 (proj1 H3)).
  - destruct (alerts_survive_restarts small s [(false, working)] ltac:(vm_compute; reflexivity) Hr) as [_ H]. rewrite Hs in H.
    destruct (H eq_refl) as [_ H']. rewrite Hn in H'. destruct (H' (le_n 1)) as (file & r & H1 & H2 & _ & m & H4 & H5).
    destruct r as [|e]; [discriminate H2|]. exists file, e, m. exact (conj H1 (conj H4 H5)).
Defined.

(** The alert fires, its resolution is not taken, and another alert fires. *)
Lemma firing_alerts_are_spaced_witness :
  exists s, as_shared s = (let '(st, _, _, _) := after3 in st) /\
    Forall (fun n => emitted (as_history s) n.1) (as_log s) /\
    (forall l key t l' t', as_history s = l ++ (key, AlertFiring, t) :: l' -> lastOf key l' = Some (AlertFiring, t') -> t' + 100 <= t) /\
    (Active 1 AlertBudgetBlocked (sh_entries (as_shared s)) = true <-> exists t, lastOf (1, AlertBudgetBlocked) (as_history s) = Some (AlertFiring, t)).
Proof.
  destruct after3_reachable as [threads Hr]. exists (systemOf after3 threads).
  destruct (firing_alerts_are_spaced small _ ltac:(vm_compute; reflexivity) Hr) as (H1 & H2 & H3).
  split; [by destruct after3 as [[[st p] h] log]|]. split; [exact H1|]. split; [exact H2|]. apply H3.
Defined.

End AlertClaims.
Export AlertClaims.
