(* ===== verification/Telemetry.v ===== *)
(** * internal/observability: health, metrics and the log

    [health.go], [metrics.go] and [observer.go].  The Go enumerations are [uint8]s,
    so a value may be outside the named ones; an array of names is indexed with a
    panic beyond its end ([None]).  What is written to the log is the record; its
    JSON form is not in the model. *)

From S2P Require Import Prelude GoTime Bytes Domain Alerts.
From Stdlib Require Strings.String.
Import Strings.String.StringSyntax.

Module Telemetry.

Inductive TelemetryError :=
| ErrInvalidHealthCondition
| ErrInvalidChains
| ErrUnknownChain
| ErrAmbiguousUnderflow
| ErrInvalidDelegation
| ErrInvalidReconcileTime
| ErrInvalidLogEvent
| ErrInvalidTxHash.

Definition MaxConfiguredChains : Z := 128.

(** ** The configured chains *)

Fixpoint configuredLoop (chainIDs : list NetworkID) (configured : gset NetworkID) : result TelemetryError (gset NetworkID) :=
  match chainIDs with
  | [] => Ok configured
  | chainID :: chainIDs =>
      reject chainID <=? 0 with ErrInvalidChains in
      reject bool_decide (chainID ∈ configured) with ErrInvalidChains in
      configuredLoop chainIDs ({[chainID]} ∪ configured)
  end.

Definition configuredChainSet (chainIDs : list NetworkID) : result TelemetryError (gset NetworkID) :=
  reject Nat.eqb (length chainIDs) 0 || (MaxConfiguredChains <? Z.of_nat (length chainIDs)) with ErrInvalidChains in
  configuredLoop chainIDs ∅.

(** ** Health *)

Definition HealthHealthyIdle : Z := 1.
Definition HealthDegradedRPC : Z := 2.
Definition HealthBlockedBudget : Z := 3.
Definition HealthAmbiguousRescue : Z := 4.
Definition HealthStopped : Z := 5.

Definition ConditionRPCDegraded : Z := 1.
Definition ConditionBudgetBlocked : Z := 2.
Definition ConditionAmbiguousRescue : Z := 3.

Record HealthConditions := mkConditions {
  HC_RPCDegraded : bool;
  HC_BudgetBlocked : bool;
  HC_AmbiguousRescue : bool;
  HC_Stopped : bool }.

Record ChainHealth := mkChainHealth {
  CH_State : Z;
  CH_Conditions : HealthConditions }.

Record HealthSnapshot := mkHealthSnapshot {
  HS_State : Z;
  HS_Chains : gmap NetworkID ChainHealth }.

Definition EvaluateHealth (c : HealthConditions) : Z :=
  if HC_Stopped c then HealthStopped
  else if HC_AmbiguousRescue c then HealthAmbiguousRescue
  else if HC_BudgetBlocked c then HealthBlockedBudget
  else if HC_RPCDegraded c then HealthDegradedRPC
  else HealthHealthyIdle.

Record Health := mkHealth {
  H_stopped : bool;
  H_chains : gmap NetworkID HealthConditions }.

Definition NewHealth (chainIDs : list NetworkID) : result TelemetryError Health :=
  let! configured := configuredChainSet chainIDs in
  Ok (mkHealth false (set_to_map (fun chainID => (chainID, mkConditions true false false false)) configured)).

Definition validHealthCondition (condition : Z) : bool := (ConditionRPCDegraded <=? condition) && (condition <=? ConditionAmbiguousRescue).

Definition setCondition (condition : Z) (active : bool) (c : HealthConditions) : HealthConditions :=
  if condition =? ConditionRPCDegraded then mkConditions active (HC_BudgetBlocked c) (HC_AmbiguousRescue c) (HC_Stopped c)
  else if condition =? ConditionBudgetBlocked then mkConditions (HC_RPCDegraded c) active (HC_AmbiguousRescue c) (HC_Stopped c)
  else if condition =? ConditionAmbiguousRescue then mkConditions (HC_RPCDegraded c) (HC_BudgetBlocked c) active (HC_Stopped c)
  else c.

Definition SetCondition (chainID : NetworkID) (condition : Z) (active : bool) (h : Health) : result TelemetryError Health :=
  reject negb (validHealthCondition condition) with ErrInvalidHealthCondition in
  let? conditions := H_chains h !! chainID orelse ErrUnknownChain in
  Ok (mkHealth (H_stopped h) (<[chainID := setCondition condition active conditions]> (H_chains h))).

Definition StopHealth (h : Health) : Health := mkHealth true (H_chains h).

(** [conditions.Stopped = health.stopped] *)
Definition withStopped (stopped : bool) (c : HealthConditions) : HealthConditions :=
  mkConditions (HC_RPCDegraded c) (HC_BudgetBlocked c) (HC_AmbiguousRescue c) stopped.

Definition accumulate (overall stored : HealthConditions) : HealthConditions :=
  mkConditions (HC_RPCDegraded overall || HC_RPCDegraded stored) (HC_BudgetBlocked overall || HC_BudgetBlocked stored)
    (HC_AmbiguousRescue overall || HC_AmbiguousRescue stored) (HC_Stopped overall).

Definition HealthSnapshotOf (h : Health) : HealthSnapshot :=
  let overall := foldl (fun o kc => accumulate o kc.2) (mkConditions false false false (H_stopped h)) (map_to_list (H_chains h)) in
  mkHealthSnapshot (EvaluateHealth overall)
    ((fun c => let c := withStopped (H_stopped h) c in mkChainHealth (EvaluateHealth c) c) <$> H_chains h).

(** ** Metrics *)

Definition DelegationUnknown : Z := 1.
Definition DelegationExpected : Z := 2.
Definition DelegationMissing : Z := 3.
Definition DelegationUnexpected : Z := 4.

Record ChainMetrics := mkChainMetrics {
  CM_QueueDepth : Z;
  CM_Candidates : Z;
  CM_Attempts : Z;
  CM_SpentBudget : Z;
  CM_ReservedBudget : Z;
  CM_RemainingBudget : Z;
  CM_RPCErrors : Z;
  CM_Reconnects : Z;
  CM_LostRaces : Z;
  CM_ActiveAmbiguous : Z;
  CM_TotalAmbiguous : Z;
  CM_Delegation : Z;
  CM_LastSuccessfulReconciliation : Time }.

Record BudgetMetrics := mkBudgetMetrics { BM_Spent : Z; BM_Reserved : Z; BM_Remaining : Z }.

Record Metrics := mkMetrics {
  M_chains : gmap NetworkID ChainMetrics;
  M_globalBudget : BudgetMetrics }.

Definition saturatingIncrement (value : Z) : Z := if value =? 2 ^ 64 - 1 then value else value + 1.

Definition validDelegationState (state : Z) : bool := (DelegationUnknown <=? state) && (state <=? DelegationUnexpected).

Definition NewMetrics (chainIDs : list NetworkID) : result TelemetryError Metrics :=
  let! configured := configuredChainSet chainIDs in
  Ok (mkMetrics (set_to_map (fun chainID => (chainID, mkChainMetrics 0 0 0 0 0 0 0 0 0 0 0 DelegationUnknown zeroTime)) configured) (mkBudgetMetrics 0 0 0)).

Definition updateMetrics (chainID : NetworkID) (update : ChainMetrics -> ChainMetrics) (m : Metrics) : result TelemetryError Metrics :=
  let? current := M_chains m !! chainID orelse ErrUnknownChain in
  Ok (mkMetrics (<[chainID := update current]> (M_chains m)) (M_globalBudget m)).

Definition SetQueueDepth (chainID : NetworkID) (depth : Z) : Metrics -> result TelemetryError Metrics :=
  updateMetrics chainID (fun c => mkChainMetrics depth (CM_Candidates c) (CM_Attempts c) (CM_SpentBudget c) (CM_ReservedBudget c) (CM_RemainingBudget c)
    (CM_RPCErrors c) (CM_Reconnects c) (CM_LostRaces c) (CM_ActiveAmbiguous c) (CM_TotalAmbiguous c) (CM_Delegation c) (CM_LastSuccessfulReconciliation c)).

Definition RecordCandidate (chainID : NetworkID) : Metrics -> result TelemetryError Metrics :=
  updateMetrics chainID (fun c => mkChainMetrics (CM_QueueDepth c) (saturatingIncrement (CM_Candidates c)) (CM_Attempts c) (CM_SpentBudget c) (CM_ReservedBudget c)
    (CM_RemainingBudget c) (CM_RPCErrors c) (CM_Reconnects c) (CM_LostRaces c) (CM_ActiveAmbiguous c) (CM_TotalAmbiguous c) (CM_Delegation c) (CM_LastSuccessfulReconciliation c)).

Definition RecordAttempt (chainID : NetworkID) : Metrics -> result TelemetryError Metrics :=
  updateMetrics chainID (fun c => mkChainMetrics (CM_QueueDepth c) (CM_Candidates c) (saturatingIncrement (CM_Attempts c)) (CM_SpentBudget c) (CM_ReservedBudget c)
    (CM_RemainingBudget c) (CM_RPCErrors c) (CM_Reconnects c) (CM_LostRaces c) (CM_ActiveAmbiguous c) (CM_TotalAmbiguous c) (CM_Delegation c) (CM_LastSuccessfulReconciliation c)).

Definition SetBudget (chainID : NetworkID) (spent reserved remaining : Z) : Metrics -> result TelemetryError Metrics :=
  updateMetrics chainID (fun c => mkChainMetrics (CM_QueueDepth c) (CM_Candidates c) (CM_Attempts c) spent reserved remaining (CM_RPCErrors c) (CM_Reconnects c)
    (CM_LostRaces c) (CM_ActiveAmbiguous c) (CM_TotalAmbiguous c) (CM_Delegation c) (CM_LastSuccessfulReconciliation c)).

Definition SetGlobalBudget (spent reserved remaining : Z) (m : Metrics) : Metrics := mkMetrics (M_chains m) (mkBudgetMetrics spent reserved remaining).

Definition RecordRPCError (chainID : NetworkID) : Metrics -> result TelemetryError Metrics :=
  updateMetrics chainID (fun c => mkChainMetrics (CM_QueueDepth c) (CM_Candidates c) (CM_Attempts c) (CM_SpentBudget c) (CM_ReservedBudget c) (CM_RemainingBudget c)
    (saturatingIncrement (CM_RPCErrors c)) (CM_Reconnects c) (CM_LostRaces c) (CM_ActiveAmbiguous c) (CM_TotalAmbiguous c) (CM_Delegation c) (CM_LastSuccessfulReconciliation c)).

Definition RecordReconnect (chainID : NetworkID) : Metrics -> result TelemetryError Metrics :=
  updateMetrics chainID (fun c => mkChainMetrics (CM_QueueDepth c) (CM_Candidates c) (CM_Attempts c) (CM_SpentBudget c) (CM_ReservedBudget c) (CM_RemainingBudget c)
    (CM_RPCErrors c) (saturatingIncrement (CM_Reconnects c)) (CM_LostRaces c) (CM_ActiveAmbiguous c) (CM_TotalAmbiguous c) (CM_Delegation c) (CM_LastSuccessfulReconciliation c)).

Definition RecordLostRace (chainID : NetworkID) : Metrics -> result TelemetryError Metrics :=
  updateMetrics chainID (fun c => mkChainMetrics (CM_QueueDepth c) (CM_Candidates c) (CM_Attempts c) (CM_SpentBudget c) (CM_ReservedBudget c) (CM_RemainingBudget c)
    (CM_RPCErrors c) (CM_Reconnects c) (saturatingIncrement (CM_LostRaces c)) (CM_ActiveAmbiguous c) (CM_TotalAmbiguous c) (CM_Delegation c) (CM_LastSuccessfulReconciliation c)).

Definition setAmbiguous (active total : Z) (c : ChainMetrics) : ChainMetrics :=
  mkChainMetrics (CM_QueueDepth c) (CM_Candidates c) (CM_Attempts c) (CM_SpentBudget c) (CM_ReservedBudget c) (CM_RemainingBudget c)
    (CM_RPCErrors c) (CM_Reconnects c) (CM_LostRaces c) active total (CM_Delegation c) (CM_LastSuccessfulReconciliation c).

Definition OpenAmbiguous (chainID : NetworkID) : Metrics -> result TelemetryError Metrics :=
  updateMetrics chainID (fun c => setAmbiguous (saturatingIncrement (CM_ActiveAmbiguous c)) (saturatingIncrement (CM_TotalAmbiguous c)) c).

Definition ResolveAmbiguous (chainID : NetworkID) (m : Metrics) : result TelemetryError Metrics :=
  let? current := M_chains m !! chainID orelse ErrUnknownChain in
  reject CM_ActiveAmbiguous current =? 0 with ErrAmbiguousUnderflow in
  Ok (mkMetrics (<[chainID := setAmbiguous (CM_ActiveAmbiguous current - 1) (CM_TotalAmbiguous current) current]> (M_chains m)) (M_globalBudget m)).

Definition SetActiveAmbiguous (chainID : NetworkID) (active : Z) : Metrics -> result TelemetryError Metrics :=
  updateMetrics chainID (fun c => setAmbiguous active (CM_TotalAmbiguous c) c).

Definition setDelegation (state : Z) (at_ : Time) (c : ChainMetrics) : ChainMetrics :=
  mkChainMetrics (CM_QueueDepth c) (CM_Candidates c) (CM_Attempts c) (CM_SpentBudget c) (CM_ReservedBudget c) (CM_RemainingBudget c)
    (CM_RPCErrors c) (CM_Reconnects c) (CM_LostRaces c) (CM_ActiveAmbiguous c) (CM_TotalAmbiguous c) state at_.

Definition SetDelegationState (chainID : NetworkID) (state : Z) (m : Metrics) : result TelemetryError Metrics :=
  reject negb (validDelegationState state) with ErrInvalidDelegation in
  updateMetrics chainID (fun c => setDelegation state (CM_LastSuccessfulReconciliation c) c) m.

Definition RecordSuccessfulReconciliation (chainID : NetworkID) (at_ : Time) (m : Metrics) : result TelemetryError Metrics :=
  reject IsZero at_ with ErrInvalidReconcileTime in
  updateMetrics chainID (fun c => if After at_ (CM_LastSuccessfulReconciliation c) then setDelegation (CM_Delegation c) at_ c else c) m.

(** ** The log *)

Definition LevelInfo : Z := 1.
Definition LevelWarning : Z := 2.
Definition LevelError : Z := 3.

Definition validLevel (level : Z) : bool := (1 <=? level) && (level <=? 3).
Definition validLogCode (code : Z) : bool := (1 <=? code) && (code <=? 10).
Definition validDurableState (state : Z) : bool := (1 <=? state) && (state <=? 8).
Definition validResult (r : Z) : bool := (1 <=? r) && (r <=? 8).
Definition validErrorClass (class : Z) : bool := (1 <=? class) && (class <=? 8).
Definition validErrorCode (code : Z) : bool := (1 <=? code) && (code <=? 11).

Definition levelName (value : Z) : option bytes := ([[]; str "info"; str "warning"; str "error"] : list bytes) !! Z.to_nat value.
Definition logCodeName (value : Z) : option bytes := ([[]; str "candidate_queued"; str "attempt_started"; str "budget_blocked";
    str "broadcast_accepted"; str "reconciliation_completed"; str "delegation_checked"; str "rpc_failure"; str "state_transition";
    str "paid_actions_stopped"; str "alert_state"] : list bytes) !! Z.to_nat value.
Definition durableStateName (value : Z) : option bytes := ([[]; str "pending"; str "processing"; str "retry_pending"; str "broadcast";
    str "ambiguous"; str "confirmed"; str "failed"; str "acknowledged"] : list bytes) !! Z.to_nat value.
Definition resultName (value : Z) : option bytes := ([[]; str "accepted"; str "skipped"; str "failed"; str "broadcast"; str "confirmed";
    str "token_reported"; str "lost_race"; str "ambiguous"] : list bytes) !! Z.to_nat value.
Definition errorClassName (value : Z) : option bytes := ([[]; str "configuration"; str "rpc_transient"; str "rpc_invalid_response";
    str "budget"; str "signing"; str "broadcast"; str "postcondition"; str "internal"] : list bytes) !! Z.to_nat value.
Definition errorCodeName (value : Z) : option bytes := ([[]; str "invalid_configuration"; str "rpc_unavailable"; str "rpc_response_invalid";
    str "budget_exhausted"; str "sponsor_reserve"; str "signing_failed"; str "broadcast_failed"; str "postcondition_failed";
    str "ambiguous_outcome"; str "paid_actions_stopped"; str "internal_failure"] : list bytes) !! Z.to_nat value.

(** [AlertCode.String] *)
Definition alertCodeName (code : Z) : bytes :=
  default (str "unknown") (([ str "unknown"; str "rpc_degraded"; str "budget_blocked"; str "ambiguous_rescue"; str "paid_actions_stopped";
    str "delegation_unexpected"; str "reconciliation_stale" ] : list bytes) !! Z.to_nat code).

Record SafeError := mkSafeError {
  SE_class : Z;
  SE_code : Z;
  SE_retryable : bool;
  SE_ambiguous : bool }.

Definition NewSafeError (class code : Z) (retryable ambiguous : bool) : result TelemetryError SafeError :=
  reject negb (validErrorClass class) || negb (validErrorCode code) with ErrInvalidLogEvent in
  Ok (mkSafeError class code retryable ambiguous).

Definition NewPublicTxHashAfterBroadcast (hash : Hash) : result TelemetryError Hash :=
  reject bytes_eqb hash zeroHash with ErrInvalidTxHash in Ok hash.

Record SafeEvent := mkSafeEvent {
  SEv_Level : Z;
  SEv_Code : Z;
  SEv_ChainID : NetworkID;
  SEv_Incident : IncidentID;
  SEv_State : Z;
  SEv_Result : Z;
  SEv_TxHash : Hash;
  SEv_Error : option SafeError;
  SEv_Alert : Z }.

(** Empty and nil fields are left out of the line: [None].  Identifiers are the
    bytes whose hexadecimal form is written. *)
Record safeLogRecord := mkLogRecord {
  LR_Level : bytes;
  LR_Code : bytes;
  LR_ChainID : NetworkID;
  LR_Incident : option IncidentID;
  LR_State : bytes;
  LR_Result : bytes;
  LR_TxHash : option Hash;
  LR_Error : option (bytes * bytes * bool * bool);
  LR_AlertCode : option bytes }.

(** [Err None] is an index out of range. *)
Definition invalidEvent : option TelemetryError := Some ErrInvalidLogEvent.

Definition newSafeLogRecord (event : SafeEvent) : result (option TelemetryError) safeLogRecord :=
  reject negb (validLevel (SEv_Level event)) || negb (validLogCode (SEv_Code event)) || (SEv_ChainID event <=? 0)
      || negb (SEv_State event =? 0) && negb (validDurableState (SEv_State event))
      || negb (SEv_Result event =? 0) && negb (validResult (SEv_Result event)) with invalidEvent in
  let? level := levelName (SEv_Level event) orelse None in
  let? code := logCodeName (SEv_Code event) orelse None in
  let? state := durableStateName (SEv_State event) orelse None in
  let? result := resultName (SEv_Result event) orelse None in
  let incident := if bytes_eqb (SEv_Incident event) zeroID then None else Some (SEv_Incident event) in
  let hasHash := negb (bytes_eqb (SEv_TxHash event) zeroHash) in
  reject hasHash && (SEv_Result event =? 0) with invalidEvent in
  let! error :=
    match SEv_Error event with
    | None => Ok None
    | Some e =>
        reject negb (validErrorClass (SE_class e)) || negb (validErrorCode (SE_code e)) with invalidEvent in
        let? class := errorClassName (SE_class e) orelse None in
        let? code := errorCodeName (SE_code e) orelse None in
        Ok (Some (class, code, SE_retryable e, SE_ambiguous e))
    end in
  reject negb (SEv_Alert event =? 0) && negb (validAlertCode (SEv_Alert event)) with invalidEvent in
  Ok (mkLogRecord level code (SEv_ChainID event) incident state result (if hasHash then Some (SEv_TxHash event) else None) error
        (if SEv_Alert event =? 0 then None else Some (alertCodeName (SEv_Alert event)))).

(** *** The older interface *)

Record LegacyEvent := mkLegacyEvent {
  Ev_Level : Z;
  Ev_Code : bytes;
  Ev_ChainID : NetworkID;
  Ev_NetworkName : bytes;
  Ev_Candidate : CandidateID;
  Ev_TokenSymbol : bytes;
  Ev_Amount : bytes;
  Ev_TxHash : Hash;
  Ev_ErrorCode : bytes }.

Record legacyLogRecord := mkLegacyRecord {
  LL_Level : bytes;
  LL_Code : bytes;
  LL_ChainID : NetworkID;
  LL_ErrorCode : bytes }.

Definition legacyCodes : list bytes :=
  [str "safe_event";
   str "watcher_candidate_inserted";
   str "watcher_candidate_pending";
   str "watcher_candidate_acknowledged";
   str "watcher_subscription_fallback";
   str "watcher_head_unavailable";
   str "watcher_read_failed";
   str "watcher_metadata_fallback";
   str "watcher_log_rejected";
   str "watcher_candidate_put_failed";
   str "watcher_observation_saturated";
   str "watcher_discovery_overflow";
   str "rescue_startup_verified";
   str "rescue_operation_prepared";
   str "rescue_broadcast_accepted";
   str "rescue_operation_confirmed";
   str "rescue_operation_failed";
   str "daemon_rpc_http_fallback";
   str "daemon_generation_failed";
   str "daemon_unknown_token_opt_in"].

Definition legacyEventCode (code : bytes) : bytes :=
  if bool_decide (code ∈ legacyCodes) then code else str "event_redacted".

Definition legacyLevel (level : Z) : option bytes := if negb (validLevel level) then Some (str "warning") else levelName level.

(** [Record]: [None] would be an index out of range. *)
Definition RecordLegacy (event : LegacyEvent) : option legacyLogRecord :=
  let errorCode := if bytes_eqb (Ev_ErrorCode event) [] then [] else str "error_redacted" in
  match legacyLevel (Ev_Level event) with
  | None => None
  | Some level => Some (mkLegacyRecord level (legacyEventCode (Ev_Code event)) (Ev_ChainID event) errorCode)
  end.

(** ** Properties *)

(** The severity order of the states is their numeric order: the overall state is
    the worst of the chains', or the idle one. *)
Definition worst (h : Health) : Z :=
  foldr Z.max (if H_stopped h then HealthStopped else HealthHealthyIdle) (map (fun kc => EvaluateHealth (withStopped (H_stopped h) kc.2)) (map_to_list (H_chains h))).

Lemma evaluate_accumulate o c : HC_Stopped o = HC_Stopped c -> EvaluateHealth (accumulate o c) = Z.max (EvaluateHealth o) (EvaluateHealth c).
Proof.
  destruct o as [o1 o2 o3 o4], c as [c1 c2 c3 c4]. cbn. intros ->. by destruct o1, o2, o3, c1, c2, c3, c4.
Qed.

Theorem overall_health_is_worst h : HS_State (HealthSnapshotOf h) = worst h.
Proof.
  unfold HealthSnapshotOf, worst. cbn [HS_State].
  cut (forall l o, HC_Stopped o = H_stopped h ->
    EvaluateHealth (foldl (fun o kc => accumulate o kc.2) o l) = foldr Z.max (EvaluateHealth o) (map (fun kc : NetworkID * HealthConditions => EvaluateHealth (withStopped (H_stopped h) kc.2)) l)).
  { intros H. by rewrite H. }
  intros l. induction l as [|[k c] l IH]; intros o Ho; cbn [foldl foldr map fst snd]; [done|].
  rewrite IH by done. assert (E : EvaluateHealth (accumulate o c) = Z.max (EvaluateHealth o) (EvaluateHealth (withStopped (H_stopped h) c))).
  { rewrite <- (evaluate_accumulate o (withStopped (H_stopped h) c)) by done. done. }
  rewrite E. clear. generalize (EvaluateHealth (withStopped (H_stopped h) c)) (EvaluateHealth o). intros x y.
  induction l as [|[k' c'] l IH]; cbn [foldr map]; [lia|]. rewrite IH. lia.
Qed.

(** Stopping cannot be undone. *)
Lemma stopped_health_stays h chainID condition active h' :
  H_stopped h = true -> SetCondition chainID condition active h = Ok h' -> H_stopped h' = true /\ HS_State (HealthSnapshotOf h') = HealthStopped.
Proof.
  intros Hs. unfold SetCondition. ok. ok. intros [= <-]. split; [done|]. unfold HealthSnapshotOf. cbn [H_stopped HS_State]. rewrite Hs.
  set (l := map_to_list _). clearbody l. assert (H : forall o, HC_Stopped o = true -> HC_Stopped (foldl (fun o kc => accumulate o kc.2) o l) = true).
  { clear. induction l as [|kc l IH]; cbn; [done|]. intros o Ho. by apply IH. }
  unfold EvaluateHealth. by rewrite H.
Qed.

(** Counters are [uint64]s that stop at the end. *)
Lemma saturatingIncrement_range v : inU 64 v -> inU 64 (saturatingIncrement v) /\ v <= saturatingIncrement v.
Proof. unfold inU, saturatingIncrement. intros H. destruct (_ =? _) eqn:E; bool_hyps; lia. Qed.

(** Every update leaves the set of chains and the other chains as they were. *)
Lemma updateMetrics_frame chainID f m m' :
  updateMetrics chainID f m = Ok m' -> dom (M_chains m') = dom (M_chains m) /\ forall k, k <> chainID -> M_chains m' !! k = M_chains m !! k.
Proof.
  unfold updateMetrics. ok E. intros [= <-]. cbn. split; [|intros k Hk; by rewrite lookup_insert_ne].
  rewrite dom_insert_L. apply elem_of_dom_2 in E. set_solver.
Qed.

(** The time of the last reconciliation does not go back. *)
Lemma reconciliation_time_grows chainID t m m' c :
  RecordSuccessfulReconciliation chainID t m = Ok m' -> M_chains m !! chainID = Some c ->
  exists c', M_chains m' !! chainID = Some c' /\ CM_LastSuccessfulReconciliation c' = Z.max (CM_LastSuccessfulReconciliation c) t.
Proof.
  unfold RecordSuccessfulReconciliation, updateMetrics, After. ok. intros H Hc. rewrite Hc in H. injection H as <-. cbn. rewrite lookup_insert_eq.
  eexists. split; [done|]. destruct (_ <? _) eqn:E1; cbn; bool_hyps; lia.
Qed.

(** A name for every valid value; for the optional ones, for zero too. *)
Lemma names_exist event :
  validLevel (SEv_Level event) = true -> validLogCode (SEv_Code event) = true ->
  negb (SEv_State event =? 0) && negb (validDurableState (SEv_State event)) = false ->
  negb (SEv_Result event =? 0) && negb (validResult (SEv_Result event)) = false ->
  is_Some (levelName (SEv_Level event)) /\ is_Some (logCodeName (SEv_Code event)) /\
  is_Some (durableStateName (SEv_State event)) /\ is_Some (resultName (SEv_Result event)).
Proof.
  unfold validLevel, validLogCode, validDurableState, validResult. intros H1 H2 H3 H4. bool_hyps.
  assert (0 <= SEv_State event <= 8) by (apply andb_false_iff in H3 as [H3|H3]; bool_hyps; [lia|]; lia).
  assert (0 <= SEv_Result event <= 8) by (apply andb_false_iff in H4 as [H4|H4]; bool_hyps; [lia|]; lia).
  unfold levelName, logCodeName, durableStateName, resultName. repeat split; apply lookup_lt_is_Some; cbn [length]; lia.
Qed.

Lemma error_names_exist e : validErrorClass (SE_class e) = true -> validErrorCode (SE_code e) = true ->
  is_Some (errorClassName (SE_class e)) /\ is_Some (errorCodeName (SE_code e)).
Proof.
  unfold validErrorClass, validErrorCode, errorClassName, errorCodeName. intros H1 H2. bool_hyps. split; apply lookup_lt_is_Some; cbn [length]; lia.
Qed.

(** What [Write] logs: names from the fixed lists and public identifiers; the hash
    of a transaction only together with a result; and no index is out of range. *)
Theorem safe_log_record_is_public event :
  match newSafeLogRecord event with
  | Err e => e = Some ErrInvalidLogEvent
  | Ok r =>
      levelName (SEv_Level event) = Some (LR_Level r) /\ logCodeName (SEv_Code event) = Some (LR_Code r) /\
      durableStateName (SEv_State event) = Some (LR_State r) /\ resultName (SEv_Result event) = Some (LR_Result r) /\
      0 < LR_ChainID r /\ (forall h, LR_TxHash r = Some h -> h <> zeroHash /\ SEv_Result event <> 0)
  end.
Proof.
  unfold newSafeLogRecord. destruct (negb _ || _ || _ || _ || _) eqn:E; [done|]. bool_hyps.
  destruct (names_exist event) as ([level Hl] & [code Hc] & [state Hs] & [result Hr]); try done. rewrite Hl, Hc, Hs, Hr. cbv zeta.
  destruct (negb (bytes_eqb (SEv_TxHash event) zeroHash) && _) eqn:Eh; [done|].
  set (err := match SEv_Error event with Some _ => _ | None => _ end).
  assert (He : match err with Err e => e = Some ErrInvalidLogEvent | Ok _ => True end).
  { unfold err. destruct (SEv_Error event) as [e|]; [|done]. destruct (negb _ || _) eqn:Ee; [done|]. bool_hyps.
    destruct (error_names_exist e) as [[class ->] [c ->]]; done. }
  destruct err as [o|e]; [|done]. destruct (negb (SEv_Alert event =? 0) && _); [done|]. do 4 (split; [done|]). split; [done|].
  intros h Hh. cbn [LR_TxHash] in Hh. destruct (bytes_eqb (SEv_TxHash event) zeroHash) eqn:Ez; cbn [negb andb] in *; [done|].
  injection Hh as <-. split; [by apply bytes_eqb_false|]. by bool_hyps.
Qed.

(** What the older interface logs depends on the level, the code, the chain and
    whether there is an error, and the code is one of the fixed ones. *)
Theorem legacy_log_is_redacted e e' :
  Ev_Level e = Ev_Level e' -> Ev_Code e = Ev_Code e' -> Ev_ChainID e = Ev_ChainID e' -> (Ev_ErrorCode e = [] <-> Ev_ErrorCode e' = []) ->
  RecordLegacy e = RecordLegacy e' /\
  exists r, RecordLegacy e = Some r /\ LL_Code r ∈ str "event_redacted" :: legacyCodes /\ LL_ErrorCode r ∈ [[]; str "error_redacted"].
Proof.
  intros H1 H2 H3 H4. assert (Herr : bytes_eqb (Ev_ErrorCode e) [] = bytes_eqb (Ev_ErrorCode e') []).
  { unfold bytes_eqb. by apply bool_decide_ext. }
  unfold RecordLegacy. rewrite <- H1, <- H2, <- H3, <- Herr. split; [done|].
  assert (Hl : is_Some (legacyLevel (Ev_Level e))).
  { unfold legacyLevel, validLevel. destruct (negb _) eqn:El; [by eexists|]. bool_hyps. apply lookup_lt_is_Some. cbn [length]. lia. }
  destruct Hl as [level ->]. eexists. split; [done|]. cbn [LL_Code LL_ErrorCode]. split.
  - unfold legacyEventCode. destruct (bool_decide _) eqn:Ec; bool_hyps; [by right|by left].
  - destruct (bytes_eqb _ _); [by left|right; by left].
Qed.

End Telemetry.
Export Telemetry.
