(* ===== verification/DryRun.v ===== *)
(** * internal/rescue: the session that only looks, and the signers

    [dryrun/session.go], [dryrun/guards.go] and [signer.go].  A dry-run session reads the chain and estimates
    the gas of the rescue it would send; in place of the signers and of the
    broadcaster it has guards that count the attempts and refuse them.  [Signer]: the
    signers with private keys, around go-ethereum's signing functions. *)

From S2P Require Import Prelude Programs GoTime Bytes Domain Bolt BudgetModel StoreModel RpcQuorum RescueErrors Contracts RescueEffects.
From Stdlib Require Strings.String.
Import Strings.String.StringSyntax.

Module DryRun.

Definition codeSigningForbidden : bytes := str "dry_run_signing_forbidden".
Definition codeBroadcastForbidden : bytes := str "dry_run_broadcast_forbidden".
Definition codeInvalidConfig : bytes := str "dry_run_invalid_config".
Definition codeChainIDReadFailed : bytes := str "dry_run_chain_id_read_failed".
Definition codeChainIDMismatch : bytes := str "dry_run_chain_id_mismatch".
Definition codeCandidateMismatch : bytes := str "dry_run_candidate_mismatch".
Definition codeCandidateUnsupported : bytes := str "dry_run_candidate_unsupported".
Definition codePlanFailed : bytes := str "dry_run_plan_failed".
Definition codeSimulationFailed : bytes := str "dry_run_simulation_failed".

Definition newError (operation : String.string) (class : ErrorClass) (code : bytes) (retryable : bool) : GoError :=
  NewError operation class code retryable false None.

(** ** Guards *)

Record Attempts := mkAttempts {
  At_authorizationSignatures : Z;
  At_transactionSignatures : Z;
  At_broadcasts : Z }.

Definition guardSignAuthorization (a : Attempts) (_ : Authorization) : Attempts * result GoError Authorization :=
  (mkAttempts (uint64_wrap (At_authorizationSignatures a + 1)) (At_transactionSignatures a) (At_broadcasts a),
   Err (newError "dry_run.sign_authorization" ErrorSigning codeSigningForbidden false)).

Definition guardSignTransaction (a : Attempts) (_ : Txn) (_ : Z) : Attempts * result GoError (option Txn) :=
  (mkAttempts (At_authorizationSignatures a) (uint64_wrap (At_transactionSignatures a + 1)) (At_broadcasts a),
   Err (newError "dry_run.sign_transaction" ErrorSigning codeSigningForbidden false)).

Definition guardSendTransaction (a : Attempts) (_ : Txn) : Attempts * option GoError :=
  (mkAttempts (At_authorizationSignatures a) (At_transactionSignatures a) (uint64_wrap (At_broadcasts a + 1)),
   Some (newError "dry_run.broadcast" ErrorBroadcast codeBroadcastForbidden false)).

(** ** The session *)

Record DryConfig := mkDryConfig {
  Dry_Network : NetworkID;
  Dry_Source : Address;
  Dry_Sponsor : Address;
  Dry_Destination : Address;
  Dry_Rescuer : Address;
  Dry_ReadTimeout : Duration }.

Record DrySession := mkDrySession {
  Dry_generation : Z;
  Dry_config : DryConfig }.

Inductive DEff :=
| D_ChainID
| D_EstimateGas (from to : Address) (data : bytes).

Definition danswer (c : DEff) : Type :=
  match c with
  | D_ChainID => result GoError (option Z)
  | D_EstimateGas _ _ _ => result GoError Z
  end.

Abbreviation DM := (SM danswer unit GoError).
Abbreviation dcall := (Programs.call (ans := danswer)).

Definition validateConfig (c : DryConfig) : result GoError unit :=
  reject (Dry_Network c <=? 0) || bytes_eqb (Dry_Source c) zeroAddress || bytes_eqb (Dry_Sponsor c) zeroAddress || bytes_eqb (Dry_Destination c) zeroAddress
      || bytes_eqb (Dry_Rescuer c) zeroAddress || (Dry_ReadTimeout c <=? 0) || bytes_eqb (Dry_Source c) (Dry_Sponsor c)
      || bytes_eqb (Dry_Source c) (Dry_Destination c) || bytes_eqb (Dry_Sponsor c) (Dry_Destination c)
    with newError "dry_run.config" ErrorConfiguration codeInvalidConfig false in
  Ok tt.

(** The reader and the context are not nil, and the codec's ABI parses. *)
Definition NewDrySession (generation : Z) (config : DryConfig) : DM DrySession :=
  let* _ := lift (validateConfig config) in
  let* r := dcall D_ChainID in
  match r with
  | Err _ => fail (newError "dry_run.chain_id" ErrorRPCTransient codeChainIDReadFailed true)
  | Ok chainID =>
      stop negb (bool_decide (chainID = Some (Dry_Network config)))
        with fail (newError "dry_run.chain_id" ErrorConfiguration codeChainIDMismatch false) in
      mret (mkDrySession generation config)
  end.

Section Handle.
Context {AB : Abi}.

(** The call data of the rescue of a candidate. *)
Definition dryPlan (candidate : RescueCandidate) : result GoError bytes :=
  let plan (data : option bytes) : result GoError bytes :=
    match data with Some data => Ok data | None => Err (newError "dry_run.plan" ErrorInternal codePlanFailed false) end in
  match Candidate_Kind candidate with
  | CandidateToken | CandidateFastToken =>
      reject bytes_eqb (Token_Address (Candidate_Token candidate)) zeroAddress with newError "dry_run.plan" ErrorConfiguration codePlanFailed false in
      plan (PackSweepAll [Token_Address (Candidate_Token candidate)])
  | CandidateNative | CandidatePeriodic => plan PackSweepEth
  | _ => Err (newError "dry_run.candidate" ErrorConfiguration codeCandidateUnsupported false)
  end.

Definition DryHandle (session : DrySession) (candidate : RescueCandidate) : DM unit :=
  let c := Dry_config session in
  stop negb (Candidate_Network candidate =? Dry_Network c) || negb (bytes_eqb (Candidate_Source candidate) (Dry_Source c))
       || negb (Candidate_Generation candidate =? 0) && negb (Candidate_Generation candidate =? Dry_generation session)
    with fail (newError "dry_run.candidate" ErrorConfiguration codeCandidateMismatch false) in
  let* data := lift (dryPlan candidate) in
  let* r := dcall (D_EstimateGas (Dry_Sponsor c) (Dry_Source c) data) in
  match r with
  | Err _ => fail (newError "dry_run.simulation" ErrorRPCTransient codeSimulationFailed true)
  | Ok _ => mret tt
  end.

(** A session answers a candidate with at most one read: the estimate of its own
    rescue, sent by the sponsor to the source; a candidate of another network,
    source or generation is answered without any. *)
Theorem dry_run_only_estimates session candidate s :
  sat (fun c => Candidate_Network candidate = Dry_Network (Dry_config session) /\ Candidate_Source candidate = Dry_Source (Dry_config session) /\
         exists data, dryPlan candidate = Ok data /\ c = D_EstimateGas (Dry_Sponsor (Dry_config session)) (Dry_Source (Dry_config session)) data)
    (fun sr => sr.2 = Ok tt -> exists data, dryPlan candidate = Ok data) (DryHandle session candidate s).
Proof.
  unfold DryHandle. destruct (negb _ || _ || _) eqn:E; [done|]. unfold bytes_eqb in E. bool_hyps.
  apply sat_mbind. destruct (dryPlan candidate) as [data|e] eqn:Ed; cbn; [|done]. split; [eauto 10|].
  intros [gas|e]; cbn; eauto.
Qed.

(** A session exists only for the configured network with distinct roles. *)
Theorem dry_session_is_configured generation config s :
  sat (fun c => c = D_ChainID)
    (fun sr => forall session, sr.2 = Ok session -> Dry_config session = config /\ 0 < Dry_Network config /\
       Dry_Source config <> Dry_Sponsor config /\ Dry_Source config <> Dry_Destination config /\ Dry_Sponsor config <> Dry_Destination config)
    (NewDrySession generation config s).
Proof.
  unfold NewDrySession. apply sat_mbind. unfold validateConfig. destruct (_ || _) eqn:E; cbn; [done|]. unfold bytes_eqb in E. bool_hyps.
  split; [done|]. intros [chainID|e]; cbn; [|done]. destruct (negb _); cbn; [done|]. intros session [= <-]. cbn. repeat split; done.
Qed.

End Handle.

(** The guards never let anything through. *)
Theorem guards_refuse a auth tx chainID :
  (exists e, (guardSignAuthorization a auth).2 = Err e) /\ (exists e, (guardSignTransaction a tx chainID).2 = Err e) /\ (guardSendTransaction a tx).2 <> None.
Proof. repeat split; eauto. Qed.

End DryRun.
Export DryRun.

Module Signer.

Definition errNilPrivateKey : GoError := Foreign (str "private key is nil").

(** The address of the key, when there is one. *)
Definition NewPrivateKeyAuthorizationSigner (key : option Address) : result GoError Address :=
  match key with
  | Some address => Ok address
  | None => Err (NewError "rescue.authorization_signer" ErrorConfiguration RescueErrors.codeInvalidConfig false false (Some errNilPrivateKey))
  end.

Definition NewPrivateKeyTransactionSigner (key : option Address) : result GoError Address :=
  match key with
  | Some address => Ok address
  | None => Err (NewError "rescue.transaction_signer" ErrorConfiguration RescueErrors.codeInvalidConfig false false (Some errNilPrivateKey))
  end.

(** The body of both: the context before, what go-ethereum gives, the context after. *)
Definition signWith {A} (operation : String.string) (before : option CtxErr) (signature : result GoError A) (after : option CtxErr) : result GoError A :=
  let canceled e := NewError operation ErrorSigning codeContextCanceled true true (Some (OfContext e)) in
  match before with
  | Some e => Err (canceled e)
  | None =>
      match signature with
      | Err e => Err (NewError operation ErrorSigning codeSigning false false (Some e))
      | Ok signed => match after with Some e => Err (canceled e) | None => Ok signed end
      end
  end.

Definition KeySignAuthorization : option CtxErr -> result GoError Authorization -> option CtxErr -> result GoError Authorization := signWith "rescue.sign_authorization".
Definition KeySignTransaction : option CtxErr -> result GoError Txn -> option CtxErr -> result GoError Txn := signWith "rescue.sign_transaction".

(** [newPrivateKeySigners]: the keys are the loaded secrets. *)
Definition newPrivateKeySigners (keys : option (Address * Address)) : result GoError (Address * Address) :=
  match keys with
  | None => Err (Foreign (str "live private keys are missing"))
  | Some (sourceKey, sponsorKey) =>
      let! authorizer := NewPrivateKeyAuthorizationSigner (Some sourceKey) in
      let! transactioner := NewPrivateKeyTransactionSigner (Some sponsorKey) in
      Ok (authorizer, transactioner)
  end.

(** A signature leaves the signer only while the context is alive, and a signer
    whose context ended reports an outcome that may be replayed. *)
Lemma signatures_need_a_live_context {A} operation before (signature : result GoError A) after :
  match signWith operation before signature after with
  | Ok signed => before = None /\ after = None /\ signature = Ok signed
  | Err e => exists code retryable cause, e = NewError operation ErrorSigning code retryable retryable (Some cause) /\ (retryable = true <-> code = codeContextCanceled)
  end.
Proof.
  unfold signWith. destruct before as [e|]; [by exists codeContextCanceled, true, (OfContext e)|].
  destruct signature as [s|e]; [destruct after as [e|]; [by exists codeContextCanceled, true, (OfContext e)|done]|].
  exists codeSigning, false, e. split; [done|]. split; [done|]. by vm_compute.
Qed.

End Signer.
Export Signer.
