(* ===== verification/RpcDial.v ===== *)
(** * internal/rpc: dialing, generation clients and deadlines

    [dialer.go], [client.go] and the constructors of [deadline.go].  Dialing the
    quorum is a program: each endpoint in turn, and everything closed again when
    one fails.  go-ethereum's client is what the calls answer. *)

From S2P Require Import Prelude GoTime Bytes Domain Bolt Programs StoreModel RpcQuorum RescueErrors.
From Stdlib Require Strings.String.
Import Strings.String.StringSyntax.

Module RpcDial.

Definition dialFailed : bytes := str "rpc_dial_failed".
Definition maxRPCResponseBytes : Z := 8 * 2 ^ 20.

(** ** One client *)

(** [errDial] with the context's error, if it has one; what the dial said is hidden. *)
Definition DialEthClient {A} (dialed : result GoError A) (ctxErr : option CtxErr) : result GoError A :=
  match dialed with
  | Ok backend => Ok backend
  | Err _ => Err (match ctxErr with Some e => Joined (Foreign (str "failed to connect to RPC")) (OfContext e) | None => Foreign (str "failed to connect to RPC") end)
  end.

Record Response := mkResponse { Resp_ContentLength : Z; Resp_Body : bytes }.

(** [responseLimitTransport.RoundTrip]; a response body is read through
    [http.MaxBytesReader], [None] when it is longer than the limit. *)
Definition RoundTrip (base : result GoError Response) : result GoError Response :=
  let! response := base in
  reject maxRPCResponseBytes <? Resp_ContentLength response with Foreign (str "RPC response exceeds the size limit") in
  Ok response.

Definition readBody (response : Response) : option bytes := if maxRPCResponseBytes <? len (Resp_Body response) then None else Some (Resp_Body response).

(** Which parts of a client are there. *)
Record ClientParts := mkClientParts { Parts_Reader : bool; Parts_Logs : bool; Parts_Heads : bool; Parts_Closer : bool }.

(** [closed] is the [sync.Once]. *)
Record GenerationClient := mkGenerationClient { GC_generation : Z; GC_closed : bool }.

Definition NewGenerationClient (generation : Z) (parts : ClientParts) : option GenerationClient :=
  if negb (Parts_Reader parts) || negb (Parts_Logs parts) || negb (Parts_Heads parts) || negb (Parts_Closer parts) then None
  else Some (mkGenerationClient generation false).

(** The client afterwards and how often the backend is closed. *)
Definition CloseClient (client : GenerationClient) : GenerationClient * nat :=
  (mkGenerationClient (GC_generation client) true, if GC_closed client then 0%nat else 1%nat).

(** [EthClientDialer.DialContext]: the parts are made from the backend. *)
Definition DialContext {A} (dialed : result GoError A) (ctxErr : option CtxErr) (generation : Z) : result GoError GenerationClient :=
  match DialEthClient dialed ctxErr with
  | Err _ => Err (NewError "rpc.dial" ErrorRPCTransient dialFailed true false None)
  | Ok _ =>
      match NewGenerationClient generation (mkClientParts true true true true) with
      | Some client => Ok client
      | None => Err (NewError "rpc.client" ErrorInternal (str "rpc_client_invalid") false false (Some (Foreign (str "RPC client is incomplete"))))
      end
  end.

(** *** Deadlines *)

(** What an interface value holds: nothing, a nil of a kind that can be nil, or a
    value. *)
Inductive Capability := NilInterface | NilValue | Present.

Definition nilCapability (capability : Capability) : bool := match capability with Present => false | _ => true end.

(** The constructors of the four wrappers: whether they accept. *)
Definition NewDeadlineWrapper (capability : Capability) (timeout : Duration) : bool := negb (nilCapability capability || (timeout <=? 0)).

(** ** The quorum *)

Record ProviderEndpoint := mkEndpoint { End_Identity : ProviderIdentity; End_Endpoint : bytes }.

Inductive DialError := Refused (e : RpcError) | ErrQuorumDial (cause : option CtxErr).

Definition redactedDialError (parentErr : option CtxErr) (backendErr : option BackendErr) (dialContextErr : option CtxErr) : DialError :=
  match parentErr with
  | Some e => ErrQuorumDial (Some e)
  | None =>
      if bool_decide (dialContextErr = Some DeadlineExceeded) || match backendErr with Some (BackendContext DeadlineExceeded) => true | _ => false end
      then ErrQuorumDial (Some DeadlineExceeded)
      else ErrQuorumDial None
  end.

(** A dial gives a backend (its pointer and its reader), a function that closes it,
    an error, and the error of the dial's context. *)
Record DialAnswer := mkDialAnswer {
  Dial_backend : option ((Z * Z) * HistoricalReader);
  Dial_close : bool;
  Dial_err : option BackendErr;
  Dial_ctxErr : option CtxErr }.

Inductive NEff :=
| N_Dial (index : nat) (endpoint : bytes)
| N_ParentErr
| N_Close (index : nat).

Definition nanswer (c : NEff) : Type :=
  match c with N_Dial _ _ => DialAnswer | N_ParentErr => option CtxErr | N_Close _ => unit end.

(** The state is [providers], each with the position of its endpoint. *)
Abbreviation NM := (SM nanswer (list (nat * Provider)) DialError).
Abbreviation ncall := (Programs.call (ans := nanswer)).

Section Quorum.
Variables (ToLower TrimSpace : bytes -> bytes).

Definition checkEndpoint (seen : list bytes) (endpoint : ProviderEndpoint) : result RpcError (list bytes) :=
  let canonicalEndpoint := TrimSpace (End_Endpoint endpoint) in
  reject bytes_eqb canonicalEndpoint [] with ErrInvalidProviders in
  reject bool_decide (canonicalEndpoint ∈ seen) with ErrInvalidProviders in
  Ok (canonicalEndpoint :: seen).

Definition checkEndpoints (endpoints : list ProviderEndpoint) (timeout : Duration) : result RpcError unit :=
  reject timeout <=? 0 with ErrInvalidTimeout in
  let! _ := foldM checkEndpoint endpoints [] in
  validateProviderIdentities ToLower TrimSpace (map End_Identity endpoints).

Definition cleanup : NM unit :=
  let* providers := gets (fun providers => providers) in
  forEach providers (fun p => ncall (N_Close (fst p))).

Definition dialEndpoint (ie : nat * ProviderEndpoint) : NM unit :=
  let '(index, endpoint) := ie in
  let* answer := ncall (N_Dial index (End_Endpoint endpoint)) in
  match answer with
  | mkDialAnswer (Some (instance, reader)) true None None =>
      modify (fun providers => providers ++ [(index, mkProvider (End_Identity endpoint) (Some instance) true reader)])
  | mkDialAnswer _ close err dialContextErr =>
      let* _ := when close (ncall (N_Close index)) in
      let* _ := cleanup in
      let* parentErr := ncall N_ParentErr in
      fail (redactedDialError parentErr err dialContextErr)
  end.

Definition dialQuorum (endpoints : list ProviderEndpoint) (timeout : Duration) : NM QuorumReader :=
  match checkEndpoints endpoints timeout with
  | Err e => fail (Refused e)
  | Ok _ =>
      let* _ := forEach (imap pair endpoints) dialEndpoint in
      let* providers := gets (fun providers => providers) in
      match NewQuorumReader ToLower TrimSpace (map snd providers) timeout with
      | Err e => let* _ := cleanup in fail (Refused e)
      | Ok reader => mret reader
      end
  end.

(** ** Nothing stays open *)

Definition opened (c : NEff) : nanswer c -> nat -> Z :=
  match c with N_Dial index _ => fun x i => if Dial_close x && bool_decide (index = i) then 1 else 0 | _ => fun _ _ => 0 end.

Definition closedBy (c : NEff) (i : nat) : Z := match c with N_Close index => if bool_decide (index = i) then 1 else 0 | _ => 0 end.

(** How often the backend of an endpoint was opened less how often it was closed. *)
Fixpoint openBackends (i : nat) (w : list (Programs.event nanswer)) : Z :=
  match w with [] => 0 | e :: w => opened (ev_call e) (ev_answer e) i - closedBy (ev_call e) i + openBackends i w end.

Fixpoint occurrences (i : nat) (l : list (nat * Provider)) : Z :=
  match l with [] => 0 | p :: l => (if bool_decide (fst p = i) then 1 else 0) + occurrences i l end.

Lemma occurrences_app i l l' : occurrences i (l ++ l') = occurrences i l + occurrences i l'.
Proof. induction l as [|p l IH]; cbn; lia. Qed.

Abbreviation nwp p Q w := (wp traced (fun _ _ => True) False p Q w).

Lemma closeAll_closes l s w :
  nwp ((forEach l (fun p => ncall (N_Close (fst p))) : NM unit) s)
    (fun sr w' => sr = (s, Ok tt) /\ forall i, openBackends i w' = openBackends i w - occurrences i l) w.
Proof.
  revert w. induction l as [|p l IH]; intros w; [cbn; split; [done|]; intros i; lia|]. cbn [forEach]. apply wp_bind. cbn. split; [done|]. intros [] w1 Hw. unfold traced in Hw. subst w1.
  cbn. eapply wp_mono; [apply IH|]. intros sr w' [-> Hb]. split; [done|]. intros i. rewrite Hb. cbn. lia.
Qed.

(** What the state knows is open. *)
Definition Known (s : list (nat * Provider)) (w : list (Programs.event nanswer)) : Prop := forall i, openBackends i w = occurrences i s.

Definition dialPost (sr : list (nat * Provider) * result DialError unit) (w : list (Programs.event nanswer)) : Prop :=
  match snd sr with Ok _ => Known (fst sr) w | Err _ => forall i, openBackends i w = 0 end.

(** After the endpoint's own backend is closed, if there is one. *)
Lemma giveUp_closes err dialContextErr s w :
  Known s w ->
  nwp ((let* _ := cleanup in let* parentErr := ncall N_ParentErr in fail (redactedDialError parentErr err dialContextErr)) s) dialPost w.
Proof.
  intros Hk. apply wp_bind. unfold cleanup. cbn. eapply wp_mono; [apply closeAll_closes|]. intros sr w1 [-> Hb]. cbn. split; [done|].
  intros x w2 Hw. unfold traced in Hw. subst w2. cbn. intros i. cbn. rewrite Hb, Hk. lia.
Qed.

Lemma dialEndpoint_known ie s w : Known s w -> nwp (dialEndpoint ie s) dialPost w.
Proof.
  intros Hk. destruct ie as [index endpoint]. unfold dialEndpoint. apply wp_bind. cbn. split; [done|]. intros [backend close err ctx] w1 Hw. unfold traced in Hw. subst w1.
  assert (Hg : nwp ((let* _ := when close (ncall (N_Close index)) in let* _ := cleanup in let* parentErr := ncall N_ParentErr in
      fail (redactedDialError parentErr err ctx)) s) dialPost (Event (N_Dial index (End_Endpoint endpoint)) (mkDialAnswer backend close err ctx) :: w)).
  { apply wp_bind. destruct close; cbn.
    - split; [done|]. intros [] w2 Hw. unfold traced in Hw. subst w2. apply giveUp_closes. intros i. cbn. rewrite Hk. destruct (bool_decide (index = i)); lia.
    - apply giveUp_closes. intros i. cbn. rewrite Hk. lia. }
  cbn. destruct backend as [[instance reader]|], close, err, ctx; try exact Hg.
  cbn. intros i. cbn. rewrite Hk, occurrences_app. cbn. lia.
Qed.

(** Dialing the quorum ends, and leaves open exactly the backends of the reader it
    returns, or none. *)
Lemma dialQuorum_leaves_nothing_open endpoints timeout steps out w :
  exec traced (dialQuorum endpoints timeout []) [] steps out w ->
  match out with
  | Returned (providers, Ok reader) => quorum_providers reader = map snd providers /\ Known providers w
  | Returned (_, Err _) => forall i, openBackends i w = 0
  | _ => out <> Panicked
  end.
Proof.
  intros He.
  assert (Hl : forall l s w, Known s w -> nwp (forEach l dialEndpoint s) dialPost w).
  { induction l as [|ie l IH]; intros s v Hk; [exact Hk|]. cbn [forEach]. apply wp_bind. eapply wp_mono; [by apply dialEndpoint_known|].
    intros [s' [u|e]] v' H; cbn in *; [by apply IH|exact H]. }
  assert (Hp : nwp (dialQuorum endpoints timeout []) (fun sr w' => match snd sr with
      | Ok reader => quorum_providers reader = map snd (fst sr) /\ Known (fst sr) w'
      | Err _ => forall i, openBackends i w' = 0 end) []).
  { unfold dialQuorum. destruct (checkEndpoints _ _); [|done]. apply wp_bind. eapply wp_mono; [by apply Hl|]. intros [s [u|e]] w1 H; cbn in *; [|exact H].
    destruct (NewQuorumReader _ _ _ _) as [reader|e] eqn:En.
    - cbn. split; [|exact H]. revert En. unfold NewQuorumReader. destruct (_ <=? _); [done|]. destruct (validateProviders _ _ _); [|done]. by intros [= <-].
    - apply wp_bind. unfold cleanup. cbn. eapply wp_mono; [apply closeAll_closes|]. intros sr w2 [-> Hb]. cbn. intros i. rewrite Hb. unfold Known in H. rewrite H. lia. }
  apply (wp_sound _ _ _ _ _ _ _ _ _ Hp) in He as [_ Ho]. by destruct out as [[s [r|e]]| |].
Qed.

End Quorum.

(** No answer of the HTTP transport is longer than the limit. *)
Lemma answers_are_bounded base response body :
  RoundTrip base = Ok response -> readBody response = Some body -> len body <= maxRPCResponseBytes /\ Resp_ContentLength response <= maxRPCResponseBytes.
Proof.
  unfold RoundTrip, readBody. destruct base as [r|e]; [|done]. cbn. destruct (_ <? Resp_ContentLength r) eqn:E1; [done|]. intros [= <-].
  destruct (maxRPCResponseBytes <? len (Resp_Body r)) eqn:E2; [done|]. intros Hb. injection Hb as <-. bool_hyps. lia.
Qed.

End RpcDial.
Export RpcDial.
