(* ===== verification/GoText.v ===== *)
(** * Go's text functions as the configuration uses them

    Strings are byte strings.  [strings], [strconv], [math/big], [time], [hex] and
    [filepath] are modelled on the inputs the program gives them: decimal numbers
    in both directions, separators, spaces (the Unicode ones too, by their UTF-8
    form), durations with their floating-point fractions, and normalised paths.
    The theorems show that printing a number and reading it gives the number back,
    that a duration read is one its type can hold, and that reading a duration
    ends. *)

From S2P Require Import Prelude GoTime Bytes Domain.
From Stdlib Require Import Strings.Byte.
From Stdlib Require Floats.SpecFloat.
From Stdlib Require Strings.String.
Import Strings.String.StringSyntax.

Module GoText.

(** ** Decimal numbers *)

Definition isDigit (b : byte) : bool := (48 <=? byteZ b) && (byteZ b <=? 57).

Definition digitValue (b : byte) : Z := byteZ b - 48.

(** [new(big.Int).SetString(value, 10)] of a string of digits. *)
Definition decValue (value : bytes) : Z := fold_left (fun acc b => acc * 10 + digitValue b) value 0.

(** [value.String()] of a number that is not negative. *)
Fixpoint decDigits (fuel : nat) (n : Z) : bytes :=
  match fuel with
  | O => []
  | S fuel => (if n <? 10 then [] else decDigits fuel (n / 10)) ++ [Zbyte (48 + n mod 10)]
  end.

Definition decString (n : Z) : bytes := decDigits (S (Z.to_nat (Z.log2 n))) n.

(** [strconv.ParseUint(value, 10, bits)] of a string of digits. *)
Definition ParseUint (bits : Z) (value : bytes) : option Z :=
  if decValue value <? 2 ^ bits then Some (decValue value) else None.

(** ** Hexadecimal *)

Definition hexDigit (b : byte) : option Z :=
  let c := byteZ b in
  if (48 <=? c) && (c <=? 57) then Some (c - 48)
  else if (97 <=? c) && (c <=? 102) then Some (c - 97 + 10)
  else if (65 <=? c) && (c <=? 70) then Some (c - 65 + 10)
  else None.

(** [hex.DecodeString]. *)
Fixpoint hexDecode (s : bytes) : option bytes :=
  match s with
  | [] => Some []
  | [_] => None
  | a :: b :: s' =>
      match hexDigit a, hexDigit b, hexDecode s' with
      | Some x, Some y, Some rest => Some (Zbyte (16 * x + y) :: rest)
      | _, _, _ => None
      end
  end.

Definition hexChar (v : Z) : byte := if v <? 10 then Zbyte (48 + v) else Zbyte (87 + v).

(** [hex.EncodeToString]. *)
Definition hexEncode (b : bytes) : bytes := flat_map (fun x => [hexChar (byteZ x / 16); hexChar (byteZ x mod 16)]) b.

(** ** Separators, prefixes, letters *)

(** [strings.Split] at a one-byte separator. *)
Fixpoint splitAt (sep : byte) (s : bytes) : list bytes :=
  match s with
  | [] => [[]]
  | b :: s' =>
      if bool_decide (b = sep) then [] :: splitAt sep s'
      else match splitAt sep s' with
           | part :: parts => (b :: part) :: parts
           | [] => [[b]]
           end
  end.

(** [strings.Cut] at a one-byte separator: what is before it and what follows. *)
Fixpoint cutAt (sep : byte) (s : bytes) : option (bytes * bytes) :=
  match s with
  | [] => None
  | b :: s' => if bool_decide (b = sep) then Some ([], s') else match cutAt sep s' with Some (before, after) => Some (b :: before, after) | None => None end
  end.

Fixpoint HasPrefix (s prefix : bytes) : bool :=
  match prefix, s with
  | [], _ => true
  | p :: prefix', b :: s' => bool_decide (p = b) && HasPrefix s' prefix'
  | _ :: _, [] => false
  end.

Definition containsByte (s : bytes) (b : byte) : bool := bool_decide (b ∈ s).

(** [strings.ReplaceAll]; [skip] bytes of [s] belong to the last occurrence. *)
Fixpoint replaceFrom (old new s : bytes) (skip : nat) : bytes :=
  match s with
  | [] => []
  | b :: s' =>
      match skip with
      | S skip' => replaceFrom old new s' skip'
      | O => if HasPrefix s old then new ++ replaceFrom old new s' (length old - 1) else b :: replaceFrom old new s' 0
      end
  end.

Definition ReplaceAll (s old new : bytes) : bytes := replaceFrom old new s 0.

Definition isAscii (s : bytes) : bool := forallb (fun b => byteZ b <? 128) s.

Definition lowerByte (b : byte) : byte := if (65 <=? byteZ b) && (byteZ b <=? 90) then Zbyte (byteZ b + 32) else b.
Definition upperByte (b : byte) : byte := if (97 <=? byteZ b) && (byteZ b <=? 122) then Zbyte (byteZ b - 32) else b.

(** [strings.ToLower] and [strings.ToUpper] of an ASCII string. *)
Definition asciiLower (s : bytes) : bytes := map lowerByte s.
Definition asciiUpper (s : bytes) : bytes := map upperByte s.

(** ** Spaces *)

(** The UTF-8 forms of the runes [unicode.IsSpace] accepts. *)
Definition unicodeSpaces : list bytes :=
  map (fun b => [b]) [x09; x0a; x0b; x0c; x0d; x20]
  ++ [[xc2; x85]; [xc2; xa0]; [xe1; x9a; x80]]
  ++ map (fun b => [xe2; x80; b]) [x80; x81; x82; x83; x84; x85; x86; x87; x88; x89; x8a; xa8; xa9; xaf]
  ++ [[xe2; x81; x9f]; [xe3; x80; x80]].

(** Drop leading occurrences of the given texts; a text is one byte or more. *)
Fixpoint trimTexts (texts : list bytes) (s : bytes) (skip : nat) : bytes :=
  match s with
  | [] => []
  | _ :: s' =>
      match skip with
      | S skip' => trimTexts texts s' skip'
      | O => match List.find (HasPrefix s) texts with
             | Some text => trimTexts texts s' (length text - 1)
             | None => s
             end
      end
  end.

(** [strings.TrimSpace]. *)
Definition TrimSpace (s : bytes) : bytes :=
  rev (trimTexts (map (@rev byte) unicodeSpaces) (rev (trimTexts unicodeSpaces s 0)) 0).

(** ** Durations *)

Definition f64 (z : Z) : SpecFloat.spec_float := SpecFloat.binary_normalize 53 1024 z 0 false.
Definition f64_mul := SpecFloat.SFmul 53 1024.
Definition f64_div := SpecFloat.SFdiv 53 1024.

(** [uint64(x)] of a float that is not negative and below 2^64. *)
Definition f64_trunc (x : SpecFloat.spec_float) : Z :=
  match x with
  | SpecFloat.S754_finite _ m e => if 0 <=? e then Z.pos m * 2 ^ e else Z.pos m / 2 ^ (- e)
  | _ => 0
  end.

Fixpoint leadingInt (x : Z) (s : bytes) : option (Z * bytes) :=
  match s with
  | b :: s' =>
      if isDigit b then
        if 2 ^ 63 / 10 <? x then None
        else let y := x * 10 + digitValue b in if 2 ^ 63 <? y then None else leadingInt y s'
      else Some (x, s)
  | [] => Some (x, s)
  end.

Fixpoint leadingFraction (x : Z) (scale : SpecFloat.spec_float) (overflow : bool) (s : bytes) : Z * SpecFloat.spec_float * bytes :=
  match s with
  | b :: s' =>
      if isDigit b then
        if overflow then leadingFraction x scale true s'
        else if (2 ^ 63 - 1) / 10 <? x then leadingFraction x scale true s'
        else let y := x * 10 + digitValue b in
             if 2 ^ 63 <? y then leadingFraction x scale true s'
             else leadingFraction y (f64_mul scale (f64 10)) false s'
      else (x, scale, s)
  | [] => (x, scale, s)
  end.

(** The unit: everything up to the next digit or point. *)
Fixpoint leadingUnit (s : bytes) : bytes * bytes :=
  match s with
  | b :: s' => if bool_decide (b = x2e) || isDigit b then ([], s) else let (u, rest) := leadingUnit s' in (b :: u, rest)
  | [] => ([], [])
  end.

Definition Nanosecond : Duration := 1.
Definition Microsecond : Duration := 1000 * Nanosecond.
Definition Millisecond : Duration := 1000 * Microsecond.

Definition unitMap : list (bytes * Z) :=
  [(str "ns", Nanosecond); (str "us", Microsecond); ([xc2; xb5] ++ str "s", Microsecond); ([xce; xbc] ++ str "s", Microsecond);
   (str "ms", Millisecond); (str "s", Second); (str "m", Minute); (str "h", Hour)].

(** The fraction after the point, and whether it has digits. *)
Definition fractionPart (s : bytes) : Z * SpecFloat.spec_float * bytes * bool :=
  match s with
  | b :: s' =>
      if bool_decide (b = x2e) then
        let '(f, scale, rest) := leadingFraction 0 (f64 1) false s' in (f, scale, rest, negb (len s' =? len rest))
      else (0, f64 1, s, false)
  | [] => (0, f64 1, s, false)
  end.

(** The value [v] and fraction [f] of a unit, in nanoseconds. *)
Definition scaled (v f unit : Z) (scale : SpecFloat.spec_float) : option Z :=
  if 2 ^ 63 / unit <? v then None
  else let v := v * unit in
       if 0 <? f then
         let v := uint64_wrap (v + f64_trunc (f64_mul (f64 f) (f64_div (f64 unit) scale))) in
         if 2 ^ 63 <? v then None else Some v
       else Some v.

(** One number with its unit: its value and the rest. *)
Definition durationTerm (s : bytes) : option (Z * bytes) :=
  match s with
  | [] => None
  | b :: _ =>
      if negb (bool_decide (b = x2e) || isDigit b) then None
      else
        match leadingInt 0 s with
        | None => None
        | Some (v, s1) =>
            let pre := negb (len s =? len s1) in
            let '(f, scale, s2, post) := fractionPart s1 in
            if negb pre && negb post then None
            else
              let (u, s3) := leadingUnit s2 in
              match List.find (fun e => bytes_eqb (fst e) u) unitMap with
              | None => None
              | Some (_, unit) => match scaled v f unit scale with Some v => Some (v, s3) | None => None end
              end
        end
  end.

Fixpoint durationLoop (fuel : nat) (d : Z) (s : bytes) : option Z :=
  match s with
  | [] => Some d
  | _ :: _ =>
      match fuel with
      | O => None
      | S fuel =>
          match durationTerm s with
          | None => None
          | Some (v, rest) => let d := uint64_wrap (d + v) in if 2 ^ 63 <? d then None else durationLoop fuel d rest
          end
      end
  end.

(** [time.ParseDuration] of a string without a sign. *)
Definition ParseDuration (s : bytes) : option Duration :=
  if bytes_eqb s (str "0") then Some 0
  else if bytes_eqb s [] then None
  else match durationLoop (length s) 0 s with
       | Some d => if 2 ^ 63 - 1 <? d then None else Some d
       | None => None
       end.

(** ** Paths *)

Definition cleanStep (rooted : bool) (stack : list bytes) (part : bytes) : list bytes :=
  if bytes_eqb part [] || bytes_eqb part (str ".") then stack
  else if bytes_eqb part (str "..") then
    match stack with
    | top :: rest => if bytes_eqb top (str "..") then part :: stack else rest
    | [] => if rooted then [] else [part]
    end
  else part :: stack.

Fixpoint joinSlash (parts : list bytes) : bytes :=
  match parts with
  | [] => []
  | [part] => part
  | part :: parts => part ++ x2f :: joinSlash parts
  end.

(** [filepath.Clean] on Unix. *)
Definition Clean (path : bytes) : bytes :=
  let rooted := HasPrefix path [x2f] in
  let out := (if rooted then [x2f] else []) ++ joinSlash (rev (fold_left (cleanStep rooted) (splitAt x2f path) [])) in
  if bytes_eqb out [] then str "." else out.

(** ** Lemmas *)

Lemma digit_byte n : 0 <= n < 10 -> isDigit (Zbyte (48 + n)) = true /\ digitValue (Zbyte (48 + n)) = n.
Proof.
  intros Hn. unfold isDigit, digitValue. rewrite byteZ_Zbyte, Z.mod_small by lia. split; [|lia].
  apply andb_true_iff. rewrite !Z.leb_le. lia.
Qed.

Lemma decValue_snoc s b : decValue (s ++ [b]) = decValue s * 10 + digitValue b.
Proof. unfold decValue. by rewrite fold_left_app. Qed.

Lemma decValue_nonneg s : forallb isDigit s = true -> 0 <= decValue s.
Proof.
  induction s as [|b s IH] using rev_ind; [done|]. rewrite forallb_app, decValue_snoc. cbn.
  unfold isDigit, digitValue. intros H. bool_hyps. pose proof (IH H). lia.
Qed.

Lemma decDigits_spec fuel n :
  0 <= n < 2 ^ Z.of_nat fuel -> (0 < fuel)%nat ->
  decValue (decDigits fuel n) = n /\ forallb isDigit (decDigits fuel n) = true /\ decDigits fuel n <> [].
Proof.
  revert n. induction fuel as [|fuel IH]; intros n Hn Hf; [lia|]. cbn [decDigits].
  assert (Hd : 0 <= n mod 10 < 10) by (apply Z.mod_pos_bound; lia).
  destruct (digit_byte _ Hd) as [Hb Hv]. rewrite decValue_snoc, forallb_app, Hv. cbn. rewrite Hb.
  replace (Z.of_nat (S fuel)) with (Z.of_nat fuel + 1) in Hn by lia. rewrite Z.pow_add_r in Hn by lia.
  case_match eqn:E; bool_hyps.
  - rewrite Z.mod_small by lia. done.
  - assert (n / 10 < 2 ^ Z.of_nat fuel) by (apply Z.div_lt_upper_bound; lia).
    assert (0 < n / 10) by (apply Z.div_str_pos; lia).
    assert (0 < fuel)%nat by (destruct fuel; [cbn in *; lia|lia]).
    destruct (IH (n / 10)) as (Hr & Hall & _); [lia..|]. rewrite Hr, Hall.
    split; [pose proof (Z.div_mod n 10); lia|]. split; [done|]. by destruct (decDigits fuel (n / 10)).
Qed.

(** Reading the decimal text of a number gives the number back. *)
Theorem decimal_roundtrip n :
  0 <= n -> decValue (decString n) = n /\ forallb isDigit (decString n) = true /\ decString n <> [].
Proof.
  intros Hn. apply decDigits_spec; [|lia]. split; [done|].
  destruct (decide (n = 0)) as [->|Hne]; [done|].
  pose proof (Z.log2_spec n ltac:(lia)). rewrite Nat2Z.inj_succ, Z2Nat.id by apply Z.log2_nonneg. lia.
Qed.

Lemma ParseUint_range bits value n : ParseUint bits value = Some n -> n = decValue value /\ n < 2 ^ bits.
Proof. unfold ParseUint. case_match eqn:E; [|done]. intros [= <-]. bool_hyps. done. Qed.

Lemma hexDigit_hexChar v : 0 <= v < 16 -> hexDigit (hexChar v) = Some v.
Proof.
  intros Hv. unfold hexChar, hexDigit. destruct (v <? 10) eqn:E; bool_hyps; rewrite byteZ_Zbyte, Z.mod_small by lia.
  - replace (48 <=? 48 + v) with true by (symmetry; apply Z.leb_le; lia).
    replace (48 + v <=? 57) with true by (symmetry; apply Z.leb_le; lia). cbn. f_equal. lia.
  - replace (87 + v <=? 57) with false by (symmetry; apply Z.leb_gt; lia). rewrite andb_false_r.
    replace (97 <=? 87 + v) with true by (symmetry; apply Z.leb_le; lia).
    replace (87 + v <=? 102) with true by (symmetry; apply Z.leb_le; lia). cbn. f_equal. lia.
Qed.

(** Decoding the hexadecimal text of a byte string gives it back. *)
Theorem hex_roundtrip b : hexDecode (hexEncode b) = Some b.
Proof.
  induction b as [|x b IH]; [done|]. cbn [hexEncode flat_map app hexDecode]. fold (hexEncode b).
  pose proof (byteZ_range x). rewrite IH.
  rewrite !hexDigit_hexChar by (split; [apply Z.div_pos || apply Z.mod_pos_bound; lia | apply Z.div_lt_upper_bound || apply Z.mod_pos_bound; lia]).
  do 2 f_equal. rewrite <-(Zbyte_byteZ x) at 3. f_equal. pose proof (Z.div_mod (byteZ x) 16). lia.
Qed.

Lemma hexDecode_length s b : hexDecode s = Some b -> length s = (2 * length b)%nat.
Proof.
  revert b. induction s as [s IH] using (induction_ltof1 _ (@length byte)). unfold ltof in IH. intros b.
  destruct s as [|x [|y s]]; cbn; [intros [= <-]; done|done|].
  destruct (hexDigit x), (hexDigit y), (hexDecode s) as [rest|] eqn:E; try done. intros [= <-]. cbn.
  apply IH in E; [lia|cbn; lia].
Qed.

Lemma hexEncode_inj a b : hexEncode a = hexEncode b -> a = b.
Proof. intros H. apply (f_equal hexDecode) in H. rewrite !hex_roundtrip in H. congruence. Qed.

Fixpoint joinWith (sep : byte) (parts : list bytes) : bytes :=
  match parts with
  | [] => []
  | [part] => part
  | part :: parts => part ++ sep :: joinWith sep parts
  end.

(** Splitting loses nothing: the parts, none of which has the separator, joined
    with it are the text. *)
Theorem split_join sep s : joinWith sep (splitAt sep s) = s /\ Forall (fun part => (sep ∉ part)) (splitAt sep s) /\ splitAt sep s <> [].
Proof.
  induction s as [|b s (Hj & Hn & Hne)]; cbn; [repeat constructor; [set_solver|done]|].
  destruct (splitAt sep s) as [|part parts]; [done|]. case_bool_decide as Hb.
  - subst b. split; [cbn [joinWith app] in *; by f_equal|]. split; [|done]. constructor; [set_solver|done].
  - apply Forall_cons_1 in Hn as [Hp Hn]. split; [|split; [constructor; [set_solver|done]|done]].
    destruct parts; cbn [joinWith app] in *; by f_equal.
Qed.

(** ** Durations end and fit *)

Lemma leadingInt_rest x s y rest : leadingInt x s = Some (y, rest) -> (length rest <= length s)%nat.
Proof.
  revert x. induction s as [|b s IH]; intros x; cbn; [intros [= <- <-]; done|].
  repeat case_match; try done; [intros Hr%IH; lia|intros [= <- <-]; cbn; lia].
Qed.

Lemma leadingFraction_rest x scale o s : (length (leadingFraction x scale o s).2 <= length s)%nat.
Proof.
  revert x scale o. induction s as [|b s IH]; intros x scale o; cbn [leadingFraction]; [done|].
  repeat case_match; cbn [length snd]; try lia; etrans; [apply IH|lia|apply IH|lia|apply IH|lia|apply IH|lia].
Qed.

Lemma leadingUnit_rest s : (length (leadingUnit s).1 + length (leadingUnit s).2 = length s)%nat.
Proof. induction s as [|b s IH]; cbn; [done|]. case_match; [done|]. destruct (leadingUnit s); cbn in *; lia. Qed.

Lemma fractionPart_rest s f scale rest post : fractionPart s = (f, scale, rest, post) -> (length rest <= length s)%nat.
Proof.
  unfold fractionPart. destruct s as [|b s]; [intros [= <- <- <- <-]; done|]. case_match; [|intros [= <- <- <- <-]; done].
  pose proof (leadingFraction_rest 0 (f64 1) false s) as Hf. destruct (leadingFraction _ _ _ _) as [[f' sc'] r'] eqn:E.
  intros [= <- <- <- <-]. cbn in *. lia.
Qed.

Lemma scaled_range v f unit scale n : 0 < unit -> 0 <= v -> scaled v f unit scale = Some n -> 0 <= n <= 2 ^ 63.
Proof.
  intros Hu Hv. unfold scaled. case_match eqn:E; [done|]. bool_hyps.
  assert (v * unit <= 2 ^ 63) by (pose proof (Z.mul_div_le (2 ^ 63) unit Hu); nia).
  destruct (0 <? f); [|intros [= <-]; split; [nia|lia]]. destruct (2 ^ 63 <? uint64_wrap _) eqn:E'; [done|]. bool_hyps.
  intros [= <-]. split; [apply Z.mod_pos_bound; lia|lia].
Qed.

Lemma leadingInt_nonneg x s y rest : 0 <= x -> leadingInt x s = Some (y, rest) -> 0 <= y.
Proof.
  revert x. induction s as [|b s IH]; intros x Hx; cbn; [intros [= <- _]; done|].
  destruct (isDigit b) eqn:Ed; [|intros [= <- _]; done]. do 2 (case_match; [done|]).
  apply IH. unfold isDigit, digitValue in *. bool_hyps. lia.
Qed.

(** Every unit is positive and has a name. *)
Lemma unitMap_entries : Forall (fun e : bytes * Z => 0 < e.2 /\ e.1 <> []) unitMap.
Proof. unfold unitMap. repeat constructor; done. Qed.

Lemma find_unit u e : List.find (fun e : bytes * Z => bytes_eqb e.1 u) unitMap = Some e -> e.1 = u /\ 0 < e.2 /\ u <> [].
Proof.
  intros [Hin Hb]%List.find_some. apply bytes_eqb_spec in Hb. subst u. split; [done|].
  pose proof unitMap_entries as Hall. rewrite List.Forall_forall in Hall. by apply Hall.
Qed.

Lemma durationTerm_spec s v rest : durationTerm s = Some (v, rest) -> 0 <= v <= 2 ^ 63 /\ (length rest < length s)%nat.
Proof.
  unfold durationTerm. destruct s as [|b s]; [done|]. case_match; [done|].
  destruct (leadingInt 0 (b :: s)) as [[v' s1]|] eqn:Ei; [|done].
  destruct (fractionPart s1) as [[[f scale] s2] post] eqn:Ef. case_match; [done|].
  pose proof (leadingUnit_rest s2) as Hu. destruct (leadingUnit s2) as [u s3]. cbn in Hu.
  destruct (List.find _ _) as [[u' unit]|] eqn:Eu; [|done]. destruct (scaled _ _ _ _) as [v''|] eqn:Es; [|done].
  intros [= <- <-]. apply find_unit in Eu as (_ & Hpos & Hne). cbn in Hpos.
  apply leadingInt_nonneg in Ei as Hn; [|done]. split; [by eapply scaled_range|].
  apply leadingInt_rest in Ei. apply fractionPart_rest in Ef. destruct u; [done|]. cbn in Hu. lia.
Qed.

(** As much fuel as the text is long is enough: more changes nothing. *)
Theorem duration_ends fuel d s : (length s <= fuel)%nat -> durationLoop fuel d s = durationLoop (length s) d s.
Proof.
  remember (length s) as n eqn:Hn. revert fuel d s Hn. induction n as [n IH] using lt_wf_ind. intros fuel d s Hn Hf.
  destruct s as [|b s]; [by destruct fuel, n|]. destruct n as [|n]; [done|]. destruct fuel as [|fuel]; [lia|]. cbn [durationLoop].
  destruct (durationTerm (b :: s)) as [[v rest]|] eqn:Et; [|done]. case_match; [done|].
  apply durationTerm_spec in Et as [_ Hl]. rewrite <-Hn in Hl.
  rewrite (IH (length rest) ltac:(lia) fuel) by lia. symmetry. apply (IH (length rest)); lia.
Qed.

Lemma durationLoop_range fuel d s n : 0 <= d -> durationLoop fuel d s = Some n -> 0 <= n.
Proof.
  revert d s. induction fuel as [|fuel IH]; intros d s Hd; destruct s as [|b s]; cbn [durationLoop]; try done; try (intros [= <-]; done).
  destruct (durationTerm _) as [[v rest]|]; [|done]. case_match; [done|]. apply IH. apply Z.mod_pos_bound. lia.
Qed.

(** A duration read fits its type. *)
Theorem duration_fits s d : ParseDuration s = Some d -> 0 <= d < 2 ^ 63.
Proof.
  unfold ParseDuration. case_match; [intros [= <-]; lia|]. case_match; [done|].
  destruct (durationLoop _ _ _) eqn:E; [|done]. case_match eqn:El; [done|]. bool_hyps. intros [= <-].
  apply durationLoop_range in E; lia.
Qed.

Example durations : map ParseDuration [str "1h"; str "15m"; str "1.5s"; str "1h30m"; str "0.3us"; str "h"; str "5"; str "9223372036854775808ns"]
  = [Some Hour; Some (15 * Minute); Some 1500000000; Some 5400000000000; Some 300; None; None; None].
Proof. vm_compute. reflexivity. Qed.

Example clean_paths : map Clean [str ""; str "state"; str "a//b/../c/."; str "/../x"; str "../../y"]
  = [str "."; str "state"; str "a/c"; str "/x"; str "../../y"].
Proof. vm_compute. reflexivity. Qed.

Example trimmed : TrimSpace ([x20; x09; xc2; xa0] ++ str "a b" ++ [xe3; x80; x80; x0a]) = str "a b".
Proof. vm_compute. reflexivity. Qed.

End GoText.
Export GoText.
