(* ===== verification/Fence.v ===== *)
(** * internal/store: fences of processes and canonical paths

    [process_fence.go], [process_fence_unix.go], [budget_fence.go] and
    [budget_path.go].  A fence is an exclusive [flock] on a file whose path depends
    on the network and the sponsor only.  Its functions are programs of system
    calls.  The kernel is a class: files, open descriptions, locks, the calls of an
    agent (a goroutine with the descriptors it opened) and whatever the others do
    in between, with the documented behaviour of open, flock and close as laws.

    [fence_is_exclusive]: whatever the others do, an acquired or validated fence
    owns its path, and no two agents own one path. *)

From S2P Require Import Prelude Bytes Sha256 Domain StoreModel GoText Programs.
From Stdlib Require Import Strings.Byte.
From Stdlib Require Strings.String.
Import Strings.String.StringSyntax.

Module Fence.

Inductive FenceError := ErrFenceHeld | ErrFenceLost | ErrFenceUnsupported | errFenceUnavailable | errFenceInput.

Definition processFenceRoot : bytes := str "/var/tmp/guard-daemon-leases-v1".
Definition budgetLedgerRoot : bytes := str "/var/lib/guard-daemon".

(** ** System calls *)

(** A symbolic link is a node of its own, as [Lstat] sees it. *)
Inductive NodeKind := RegularNode | DirectoryNode | OtherNode.

Record unixFileIdentity := mkFileIdentity { Id_device : Z; Id_inode : Z }.

Record Stat := mkStat { Stat_kind : NodeKind; Stat_identity : unixFileIdentity }.

#[export] Instance NodeKind_eq_dec : EqDecision NodeKind.
Proof. solve_decision. Defined.

#[export] Instance identity_eq_dec : EqDecision unixFileIdentity.
Proof. solve_decision. Defined.

#[export] Instance Stat_eq_dec : EqDecision Stat.
Proof. solve_decision. Defined.

(** [LOCK_EX | LOCK_NB]. *)
Inductive FlockAnswer := Locked | WouldBlock | FlockFailed.

Inductive FEff :=
| U_MkdirAll (path : bytes)
| U_Chmod (path : bytes)
| U_Open (path : bytes) (create : bool)
| U_Fstat (fd : Z)
| U_Fchmod (fd : Z)
| U_Flock (fd : Z)
| U_Funlock (fd : Z)
| U_Lstat (path : bytes)
| U_Close (fd : Z).

Definition fanswer (c : FEff) : Type :=
  match c with
  | U_MkdirAll _ | U_Chmod _ | U_Fchmod _ | U_Funlock _ | U_Close _ => bool
  | U_Open _ _ => option Z
  | U_Fstat _ | U_Lstat _ => option Stat
  | U_Flock _ => FlockAnswer
  end.

Abbreviation ucall := (Programs.call (ans := fanswer)).

(** ** Paths *)

Definition joinPath (directory name : bytes) : bytes := Clean (directory ++ [x2f] ++ name).

Definition fencePath (key : LeaseKey) : bytes :=
  joinPath processFenceRoot (hexEncode (sha256 (str "guard-daemon/process-fence/v1" ++ [x00] ++ be_bytes 8 (LeaseKey_Network key) ++ LeaseKey_Sponsor key))).

Definition budgetFencePath (sponsor : Address) : bytes :=
  joinPath processFenceRoot (hexEncode (sha256 (str "guard-daemon/budget-fence/v1" ++ [x00] ++ sponsor))).

(** [CanonicalBudgetPath] and the two like it: a domain and a suffix. *)
Definition canonicalPath (domain suffix : bytes) (sponsor : Address) : result FenceError bytes :=
  reject bytes_eqb sponsor zeroAddress with errFenceInput in
  Ok (joinPath budgetLedgerRoot (hexEncode (sha256 (domain ++ [x00] ++ sponsor)) ++ suffix)).

Definition CanonicalBudgetPath : Address -> result FenceError bytes := canonicalPath (str "guard-daemon/canonical-budget/v1") (str ".db").
Definition CanonicalAdmissionPath : Address -> result FenceError bytes := canonicalPath (str "guard-daemon/canonical-admission/v1") (str ".admission.db").
Definition CanonicalAlertPath : Address -> result FenceError bytes := canonicalPath (str "guard-daemon/canonical-alerts/v1") (str ".alerts.json").

(** ** The fence *)

Record unixProcessFence := mkFence {
  F_fd : Z;
  F_path : bytes;
  F_identity : unixFileIdentity;
  F_released : bool }.

(** The identity of a regular file. *)
Definition fileIdentity (s : option Stat) : option unixFileIdentity :=
  match s with Some (mkStat RegularNode i) => Some i | _ => None end.

Definition isFile (s : option Stat) (i : unixFileIdentity) : bool := bool_decide (fileIdentity s = Some i).

Abbreviation AM := (SM fanswer unit FenceError).

Definition ensurePrivateFenceDirectory (path : bytes) : AM unit :=
  let* made := ucall (U_MkdirAll path) in
  stop negb made with fail errFenceUnavailable in
  let* info := ucall (U_Lstat path) in
  match info with
  | Some (mkStat DirectoryNode _) =>
      let* restricted := ucall (U_Chmod path) in
      stop negb restricted with fail errFenceUnavailable in
      mret tt
  | _ => fail errFenceUnavailable
  end.

Definition acquireProcessFenceFile (path : bytes) : AM unixProcessFence :=
  let* opened := ucall (U_Open path true) in
  match opened with
  | None => fail errFenceUnavailable
  | Some fd =>
      let refuse (e : FenceError) : AM unixProcessFence := let* _ := ucall (U_Close fd) in fail e in
      let* stat := ucall (U_Fstat fd) in
      match fileIdentity stat with
      | None => refuse errFenceUnavailable
      | Some identity =>
          let* restricted := ucall (U_Fchmod fd) in
          stop negb restricted with refuse errFenceUnavailable in
          let* lock := ucall (U_Flock fd) in
          match lock with
          | WouldBlock => refuse ErrFenceHeld
          | FlockFailed => refuse errFenceUnavailable
          | Locked =>
              let* pathStat := ucall (U_Lstat path) in
              stop negb (isFile pathStat identity) with refuse errFenceUnavailable in
              mret (mkFence fd path identity false)
          end
      end
  end.

(** [supported] is [processFenceSupported], which depends on the system. *)
Definition AcquireProcessFence (supported : bool) (key : LeaseKey) : AM unixProcessFence :=
  stop negb supported with fail ErrFenceUnsupported in
  stop (LeaseKey_Network key <=? 0) || bytes_eqb (LeaseKey_Sponsor key) zeroAddress with fail errFenceInput in
  let* _ := ensurePrivateFenceDirectory processFenceRoot orelse (fun _ => fail errFenceUnavailable) in
  acquireProcessFenceFile (fencePath key).

Definition AcquireBudgetFence (supported : bool) (sponsor : Address) : AM unixProcessFence :=
  stop negb supported with fail ErrFenceUnsupported in
  stop bytes_eqb sponsor zeroAddress with fail errFenceInput in
  let* _ := ensurePrivateFenceDirectory processFenceRoot orelse (fun _ => fail errFenceUnavailable) in
  acquireProcessFenceFile (budgetFencePath sponsor).

(** The methods, with the mutex held; the state is the fence. *)
Abbreviation VM := (SM fanswer unixProcessFence FenceError).

(** When the probe's [flock] fails with another error the probe stays open. *)
Definition Validate : VM unit :=
  let* fence := gets (fun fence => fence) in
  stop F_released fence || (F_fd fence <? 0) with fail ErrFenceLost in
  let* fdStat := ucall (U_Fstat (F_fd fence)) in
  stop negb (isFile fdStat (F_identity fence)) with fail ErrFenceLost in
  let* pathStat := ucall (U_Lstat (F_path fence)) in
  stop negb (isFile pathStat (F_identity fence)) with fail ErrFenceLost in
  let* opened := ucall (U_Open (F_path fence) false) in
  match opened with
  | None => fail ErrFenceLost
  | Some probe =>
      let* probeStat := ucall (U_Fstat probe) in
      stop negb (isFile probeStat (F_identity fence)) with (let* _ := ucall (U_Close probe) in fail ErrFenceLost) in
      let* probeLock := ucall (U_Flock probe) in
      match probeLock with
      | Locked =>
          let* _ := ucall (U_Funlock probe) in
          let* _ := ucall (U_Close probe) in
          fail ErrFenceLost
      | FlockFailed => fail ErrFenceLost
      | WouldBlock =>
          let* closed := ucall (U_Close probe) in
          stop negb closed with fail ErrFenceLost in
          let* lock := ucall (U_Flock (F_fd fence)) in
          match lock with
          | Locked =>
              let* pathStat := ucall (U_Lstat (F_path fence)) in
              stop negb (isFile pathStat (F_identity fence)) with fail ErrFenceLost in
              mret tt
          | _ => fail ErrFenceLost
          end
      end
  end.

Definition Release : VM unit :=
  let* fence := gets (fun fence => fence) in
  stop F_released fence with mret tt in
  let* unlocked := ucall (U_Funlock (F_fd fence)) in
  let* closed := ucall (U_Close (F_fd fence)) in
  let* _ := modify (fun fence => mkFence (-1) (F_path fence) (F_identity fence) true) in
  stop negb unlocked || negb closed with fail ErrFenceLost in
  mret tt.

(** ** The kernel *)

(** Open file descriptions are numbered across the host, and a descriptor stands for
    its description.  [k_owner] is the agent that opened a description, [k_fd] what it names,
    [k_lock] the description that has the exclusive lock of a file, [k_path] what
    [Lstat] finds.  [k_call a] is a call of the agent, [k_elsewhere a] any number of
    calls of others. *)
Class Kernel := {
  k_world : Type;
  k_owner : k_world -> Z -> option nat;
  k_fd : k_world -> Z -> option Stat;
  k_lock : k_world -> unixFileIdentity -> option Z;
  k_path : k_world -> bytes -> option Stat;
  k_call : nat -> k_world -> forall c, fanswer c -> k_world -> Prop;
  k_elsewhere : nat -> k_world -> k_world -> Prop }.

Section Laws.
Context {K : Kernel}.

(** A description of the agent stays open, names the same file and keeps its lock. *)
Definition keeps (a : nat) (d : Z) (w w' : k_world) : Prop :=
  k_owner w d = Some a ->
  k_owner w' d = Some a /\ k_fd w' d = k_fd w d /\ forall i, k_lock w i = Some d -> k_lock w' i = Some d.

(** The descriptions the agent has afterwards it had before. *)
Definition opensNothing (a : nat) (w w' : k_world) : Prop := forall d, k_owner w' d = Some a -> k_owner w d = Some a.

Class KernelLaws := {
  elsewhere_keeps : forall a w w' d, k_elsewhere a w w' -> keeps a d w w' /\ opensNothing a w w';
  call_keeps : forall a w c x w' d, k_call a w c x w' -> (match c with U_Funlock e | U_Close e => d <> e | _ => True end) -> keeps a d w w';
  call_opens : forall a w c x w', k_call a w c x w' -> (match c with U_Open _ _ => False | _ => True end) -> opensNothing a w w';
  open_fresh : forall a w path create x w', k_call a w (U_Open path create) x w' ->
    match x with
    | Some d => k_owner w d = None /\ k_owner w' d = Some a /\ 0 <= d /\ forall e, k_owner w' e = Some a -> e = d \/ k_owner w e = Some a
    | None => opensNothing a w w'
    end;
  fstat_reads : forall a w d x w', k_call a w (U_Fstat d) x w' -> forall s, x = Some s -> k_fd w' d = Some s;
  lstat_reads : forall a w path x w', k_call a w (U_Lstat path) x w' -> forall s, x = Some s -> k_path w' path = Some s;
  flock_locks : forall a w d w' s, k_call a w (U_Flock d) Locked w' -> k_owner w d = Some a -> k_fd w d = Some s -> k_lock w' (Stat_identity s) = Some d;
  unlock_open : forall a w d x w', k_call a w (U_Funlock d) x w' -> k_owner w d = Some a -> k_owner w' d = Some a;
  close_ends : forall a w d x w', k_call a w (U_Close d) x w' -> k_owner w d = Some a -> k_owner w' d = None /\ forall i, k_lock w' i <> Some d }.

(** ** Ownership *)

(** Calls of the agent, with others before each. *)
Definition around (a : nat) (w : k_world) (c : FEff) (x : fanswer c) (w' : k_world) : Prop := exists v, k_elsewhere a w v /\ k_call a v c x w'.

(** The agent's description is of the file the path names, and has its lock. *)
Definition Owns (a : nat) (w : k_world) (f : unixProcessFence) : Prop :=
  F_released f = false /\ k_owner w (F_fd f) = Some a /\ k_lock w (F_identity f) = Some (F_fd f) /\ k_path w (F_path f) = Some (mkStat RegularNode (F_identity f)).

(** What a description of the agent is. *)
Definition Mine (a : nat) (w : k_world) (d : Z) (s : option Stat) (l : option unixFileIdentity) : Prop :=
  k_owner w d = Some a /\ (forall st, s = Some st -> k_fd w d = Some st) /\ forall i, l = Some i -> k_lock w i = Some d.

(** Everything the agent has open is [d] or was open before. *)
Definition Only (a : nat) (w0 : k_world) (d : Z) (w : k_world) : Prop := forall e, k_owner w e = Some a -> e = d \/ k_owner w0 e = Some a.

Context {KL : KernelLaws}.

Lemma keeps_mine a w w' d s l : keeps a d w w' -> Mine a w d s l -> Mine a w' d s l.
Proof. intros Hk (Ho & Hs & Hl). destruct (Hk Ho) as (Ho' & Hs' & Hl'). split; [done|]. split; [intros st Hst; rewrite Hs'; auto|auto]. Qed.

Lemma around_mine a w c x w' d s l :
  around a w c x w' -> (match c with U_Funlock e | U_Close e => d <> e | _ => True end) -> Mine a w d s l -> Mine a w' d s l.
Proof.
  intros (v & He & Hc) Hd Hm. eapply keeps_mine; [eapply call_keeps; [exact Hc|exact Hd]|]. eapply keeps_mine; [apply (elsewhere_keeps _ _ _ d He)|exact Hm].
Qed.

Lemma around_opens a w c x w' : around a w c x w' -> (match c with U_Open _ _ => False | _ => True end) -> opensNothing a w w'.
Proof. intros (v & He & Hc) Ho d Hd. apply (proj2 (elsewhere_keeps _ _ _ d He)), (call_opens _ _ _ _ _ Hc Ho), Hd. Qed.

Lemma around_only a w0 w c x w' d : around a w c x w' -> (match c with U_Open _ _ => False | _ => True end) -> Only a w0 d w -> Only a w0 d w'.
Proof. intros H Hc Ho e He. apply Ho, (around_opens _ _ _ _ _ H Hc), He. Qed.

Lemma opensNothing_trans a w1 w2 w3 : opensNothing a w1 w2 -> opensNothing a w2 w3 -> opensNothing a w1 w3.
Proof. intros H1 H2 d Hd. by apply H1, H2. Qed.

Lemma around_open a w path create x w' :
  around a w (U_Open path create) x w' ->
  match x with Some d => Mine a w' d None None /\ Only a w d w' /\ forall e, k_owner w e = Some a -> e <> d | None => opensNothing a w w' end.
Proof.
  intros (v & He & Hc). pose proof (open_fresh _ _ _ _ _ _ Hc) as H. destruct x as [d|].
  - destruct H as (Hn & Ho & Hd & Hf). split; [by split|].
    split; [|intros e Hoe ->; destruct (proj1 (elsewhere_keeps _ _ _ d He) Hoe) as [Hv _]; congruence]. intros e Ho'. destruct (Hf e Ho') as [->|H]; [by left|right]. by apply (proj2 (elsewhere_keeps _ _ _ e He)).
  - eapply opensNothing_trans; [apply (proj2 (elsewhere_keeps _ _ _ 0 He))|exact H].
Qed.

Lemma around_fstat a w d x w' i : around a w (U_Fstat d) x w' -> fileIdentity x = Some i -> k_fd w' d = Some (mkStat RegularNode i).
Proof. intros (v & _ & Hc) Hi. destruct x as [[[] j]|]; try discriminate Hi. injection Hi as ->. exact (fstat_reads _ _ _ _ _ Hc _ eq_refl). Qed.

Lemma around_lstat a w path x w' i : around a w (U_Lstat path) x w' -> isFile x i = true -> k_path w' path = Some (mkStat RegularNode i).
Proof.
  intros (v & _ & Hc) Hi%bool_decide_eq_true. destruct x as [[[] j]|]; try discriminate Hi. injection Hi as ->. exact (lstat_reads _ _ _ _ _ Hc _ eq_refl).
Qed.

Lemma around_flock a w d w' s i : around a w (U_Flock d) Locked w' -> Mine a w d (Some (mkStat RegularNode i)) s -> Mine a w' d (Some (mkStat RegularNode i)) (Some i).
Proof.
  intros H Hm. pose proof (around_mine _ _ _ _ _ _ _ _ H I Hm) as (Ho & Hs & _). split; [done|]. split; [done|]. intros j [= <-].
  destruct H as (v & He & Hc). pose proof (keeps_mine _ _ _ _ _ _ (proj1 (elsewhere_keeps _ _ _ d He)) Hm) as (Ho' & Hs' & _).
  exact (flock_locks _ _ _ _ _ Hc Ho' (Hs' _ eq_refl)).
Qed.

(** Closing the only new description leaves what was there before. *)
Lemma around_close a w0 w d x w' : around a w (U_Close d) x w' -> Mine a w d None None -> Only a w0 d w -> opensNothing a w0 w'.
Proof.
  intros H Hm Ho e He. pose proof (around_opens _ _ _ _ _ H I e He) as He1. destruct (Ho e He1) as [->|H1]; [|exact H1].
  destruct H as (v & Hv & Hc). pose proof (keeps_mine _ _ _ _ _ _ (proj1 (elsewhere_keeps _ _ _ d Hv)) Hm) as (Hov & _ & _).
  destruct (close_ends _ _ _ _ _ Hc Hov) as [Hn _]. congruence.
Qed.

Lemma Mine_owner a w d : k_owner w d = Some a -> Mine a w d None None.
Proof. intros H. split; [done|]. split; by intros ? [=]. Qed.

Lemma Mine_weaken a w d s l : Mine a w d s l -> Mine a w d None None.
Proof. by intros (H & _). Qed.

Lemma keeps_trans a d w1 w2 w3 : keeps a d w1 w2 -> keeps a d w2 w3 -> keeps a d w1 w3.
Proof. intros H1 H2 Ho. destruct (H1 Ho) as (Ho2 & E2 & L2). destruct (H2 Ho2) as (Ho3 & E3 & L3). split; [done|]. split; [congruence|auto]. Qed.

Lemma around_keeps a w c x w' d : around a w c x w' -> (match c with U_Funlock e | U_Close e => d <> e | _ => True end) -> keeps a d w w'.
Proof. intros (v & He & Hc) Hd. eapply keeps_trans; [apply (elsewhere_keeps _ _ _ d He)|]. by eapply call_keeps. Qed.

Abbreviation fwp a p Q w := (wp (around a) (fun _ _ => True) False p Q w).

Lemma refuse_closes {A} a w0 d (e : FenceError) s w :
  Mine a w d None None -> Only a w0 d w ->
  fwp a ((let* _ := ucall (U_Close d) in fail e) s) (fun (sr : unit * result FenceError A) w' => match snd sr with Ok _ => False | Err _ => opensNothing a w0 w' end) w.
Proof. intros Hm Ho. cbn. split; [done|]. intros x w' H. cbn. by eapply around_close. Qed.

(** What acquiring gives: ownership, or nothing left open. *)
Definition acquired (a : nat) (path : bytes) (w0 : k_world) (sr : unit * result FenceError unixProcessFence) (w : k_world) : Prop :=
  match snd sr with Ok f => F_path f = path /\ Owns a w f | Err _ => opensNothing a w0 w end.

Ltac fstep := try apply wp_bind; cbn; split; [done|].

Lemma acquireProcessFenceFile_owns a path s w : fwp a (acquireProcessFenceFile path s) (acquired a path w) w.
Proof.
  assert (Hr : forall d (e : FenceError) w', Mine a w' d None None -> Only a w d w' ->
    fwp a ((let* _ := ucall (U_Close d) in fail e) s) (acquired a path w) w').
  { intros d e w' Hm Ho. eapply wp_mono; [by apply refuse_closes|]. intros [s' [f|e']] w'' H; [done|exact H]. }
  unfold acquireProcessFenceFile. fstep. intros [d|] w1 H1%around_open; cbn; [|exact H1]. destruct H1 as (Hm & Ho & Hd).
  fstep. intros st w2 H2. pose proof (around_mine _ _ _ _ _ _ _ _ H2 I Hm) as Hm2. pose proof (around_only _ _ _ _ _ _ _ H2 I Ho) as Ho2.
  cbn. destruct (fileIdentity st) as [i|] eqn:Ei; [|by apply Hr].
  assert (Hf : Mine a w2 d (Some (mkStat RegularNode i)) None).
  { split; [apply Hm2|]. split; [|done]. intros ? [= <-]. exact (around_fstat _ _ _ _ _ _ H2 Ei). }
  clear H2 Hm Hm2 Ho. fstep. intros restricted w3 H3.
  pose proof (around_mine _ _ _ _ _ _ _ _ H3 I Hf) as Hm3. pose proof (around_only _ _ _ _ _ _ _ H3 I Ho2) as Ho3. clear H3 Hf Ho2.
  cbn. destruct restricted; cbn [negb]; [|apply Hr; [by eapply Mine_weaken|done]].
  fstep. intros lock w4 H4.
  pose proof (around_mine _ _ _ _ _ _ _ _ H4 I Hm3) as Hm4. pose proof (around_only _ _ _ _ _ _ _ H4 I Ho3) as Ho4.
  cbn. destruct lock; [|apply Hr; [by eapply Mine_weaken|done]..].
  pose proof (around_flock _ _ _ _ _ _ H4 Hm3) as Hl4. clear H4 Hm3 Hm4 Ho3.
  fstep. intros pst w5 H5.
  pose proof (around_mine _ _ _ _ _ _ _ _ H5 I Hl4) as Hm5. pose proof (around_only _ _ _ _ _ _ _ H5 I Ho4) as Ho5.
  cbn. destruct (isFile pst i) eqn:Ep; cbn [negb]; [|apply Hr; [by eapply Mine_weaken|done]].
  cbn. split; [done|]. destruct Hm5 as (Hown & _ & Hlock). split; [done|]. split; [exact Hown|]. split; [by apply Hlock|]. exact (around_lstat _ _ _ _ _ _ H5 Ep).
Qed.

(** Preparing the directory opens nothing. *)
Lemma ensurePrivateFenceDirectory_opens a path s w : fwp a (ensurePrivateFenceDirectory path s) (fun _ w' => opensNothing a w w') w.
Proof.
  unfold ensurePrivateFenceDirectory. fstep. intros made w1 H1. apply around_opens in H1; [|done]. cbn. destruct made; cbn [negb]; [|exact H1].
  fstep. intros info w2 H2. apply around_opens in H2; [|done]. pose proof (opensNothing_trans _ _ _ _ H1 H2) as H12. cbn.
  destruct info as [[[] i]|]; try exact H12. fstep. intros r w3 H3. apply around_opens in H3; [|done].
  pose proof (opensNothing_trans _ _ _ _ H12 H3). cbn. by destruct r.
Qed.

Lemma acquire_owns a path s w :
  fwp a ((let* _ := ensurePrivateFenceDirectory processFenceRoot orelse (fun _ => fail errFenceUnavailable) in acquireProcessFenceFile path) s) (acquired a path w) w.
Proof.
  apply wp_bind, wp_bind. eapply wp_mono; [apply ensurePrivateFenceDirectory_opens|]. intros [s' [u|e]] w1 H1; [|exact H1].
  change (fwp a (acquireProcessFenceFile path s') (acquired a path w) w1). eapply wp_mono; [apply acquireProcessFenceFile_owns|]. intros [s'' [f|e]] w2 H2; [exact H2|]. exact (opensNothing_trans _ _ _ _ H1 H2).
Qed.

(** After a call that closes nothing the fence's description is as before. *)
Ltac after f H K M K' M' :=
  pose proof (keeps_trans _ _ _ _ _ K (around_keeps _ _ _ _ _ (F_fd f) H I)) as K'; pose proof (around_mine _ _ _ _ _ _ _ _ H I M) as M'.

(** A validated fence owns its path; one that does not validate still has what it
    had. *)
Lemma Validate_owns a f w :
  k_owner w (F_fd f) = Some a ->
  fwp a (Validate f) (fun sr w' => fst sr = f /\ match snd sr with
    | Ok _ => Owns a w' f
    | Err e => e = ErrFenceLost /\ keeps a (F_fd f) w w'
    end) w.
Proof.
  intros Ho. pose proof (Mine_owner _ _ _ Ho) as Hm.
  assert (Hk : keeps a (F_fd f) w w) by done. unfold Validate. cbn. destruct (F_released f || (F_fd f <? 0)) eqn:Er; [done|].
  apply orb_false_iff in Er as [Er _].
  fstep. intros st w1 H1. pose proof (keeps_trans _ _ _ _ _ Hk (around_keeps _ _ _ _ _ (F_fd f) H1 I)) as K1. cbn. destruct (isFile st (F_identity f)) eqn:E1; cbn [negb]; [|done].
  assert (M1 : Mine a w1 (F_fd f) (Some (mkStat RegularNode (F_identity f))) None).
  { split; [apply (around_mine _ _ _ _ _ _ _ _ H1 I Hm)|]. split; [|done]. intros ? [= <-]. apply bool_decide_eq_true in E1. exact (around_fstat _ _ _ _ _ _ H1 E1). }
  fstep. intros pst w2 H2. after f H2 K1 M1 K2 M2.
  cbn. destruct (isFile pst _) eqn:E2; cbn [negb]; [|done].
  fstep. intros opened w3 H3. after f H3 K2 M2 K3 M3.
  cbn. destruct opened as [p|]; [|done]. destruct (around_open _ _ _ _ _ _ H3) as (_ & _ & Hne). pose proof (Hne _ (proj1 M2)) as Hp. clear Hne.
  fstep. intros ps w4 H4. after f H4 K3 M3 K4 M4.
  cbn. destruct (isFile ps _) eqn:E4; cbn [negb].
  2: { fstep. intros x w5 H5. cbn. split; [done|]. split; [done|]. exact (keeps_trans _ _ _ _ _ K4 (around_keeps _ _ _ _ _ _ H5 Hp)). }
  fstep. intros lock w5 H5. after f H5 K4 M4 K5 M5.
  cbn. destruct lock; [| |done].
  { fstep. intros x w6 H6. pose proof (keeps_trans _ _ _ _ _ K5 (around_keeps _ _ _ _ _ _ H6 Hp)) as K6.
    fstep. intros y w7 H7. cbn. split; [done|]. split; [done|]. exact (keeps_trans _ _ _ _ _ K6 (around_keeps _ _ _ _ _ _ H7 Hp)). }
  fstep. intros closed w6 H6. pose proof (keeps_trans _ _ _ _ _ K5 (around_keeps _ _ _ _ _ (F_fd f) H6 Hp)) as K6. pose proof (around_mine _ _ _ _ _ _ _ _ H6 Hp M5) as M6.
  cbn. destruct closed; cbn [negb]; [|done].
  fstep. intros lock w7 H7. pose proof (keeps_trans _ _ _ _ _ K6 (around_keeps _ _ _ _ _ (F_fd f) H7 I)) as K7.
  cbn. destruct lock; [|done..]. pose proof (around_flock _ _ _ _ _ _ H7 M6) as M7.
  fstep. intros pst' w8 H8. pose proof (keeps_trans _ _ _ _ _ K7 (around_keeps _ _ _ _ _ (F_fd f) H8 I)) as K8. pose proof (around_mine _ _ _ _ _ _ _ _ H8 I M7) as (Ho8 & _ & Hl8).
  cbn. destruct (isFile pst' _) eqn:E8; cbn [negb]; [|done].
  cbn. split; [done|]. split; [done|]. split; [done|]. split; [by apply Hl8|]. exact (around_lstat _ _ _ _ _ _ H8 E8).
Qed.

(** Releasing ends the lock. *)
Lemma Release_ends a f w :
  k_owner w (F_fd f) = Some a -> F_released f = false ->
  fwp a (Release f) (fun sr w' => F_released (fst sr) = true /\ opensNothing a w w' /\ k_owner w' (F_fd f) = None /\ forall i, k_lock w' i <> Some (F_fd f)) w.
Proof.
  intros Ho Hr. unfold Release. cbn. rewrite Hr. fstep. intros unlocked w1 H1. fstep. intros closed w2 H2. cbn.
  pose proof (opensNothing_trans _ _ _ _ (around_opens _ _ _ _ _ H1 I) (around_opens _ _ _ _ _ H2 I)) as Hn.
  destruct H1 as (v1 & E1 & C1), H2 as (v2 & E2 & C2). apply (proj1 (elsewhere_keeps _ _ _ (F_fd f) E1)) in Ho as [Ho _].
  apply (unlock_open _ _ _ _ _ C1) in Ho. apply (proj1 (elsewhere_keeps _ _ _ (F_fd f) E2)) in Ho as [Ho _].
  destruct (close_ends _ _ _ _ _ C2 Ho) as [Hc Hl]. by destruct (negb unlocked || negb closed).
Qed.

(** *** Every path ends *)

Lemma fence_programs_end :
  (forall path s, finite (acquireProcessFenceFile path s)) /\ (forall path s, finite (ensurePrivateFenceDirectory path s)) /\
  (forall f, finite (Validate f)) /\ forall f, finite (Release f).
Proof.
  unfold acquireProcessFenceFile, ensurePrivateFenceDirectory, Validate, Release.
  repeat split; intros; repeat first [ progress intros | exact I | exact (fun _ => I) | apply finite_mbind | apply finite_call | case_match ].
Qed.

Lemma fence_acquisition_ends supported key sponsor s : finite (AcquireProcessFence supported key s) /\ finite (AcquireBudgetFence supported sponsor s).
Proof.
  destruct fence_programs_end as (Ha & He & _). unfold AcquireProcessFence, AcquireBudgetFence.
  split; (case_match; [done|]; case_match; [done|]; apply finite_mbind; [apply finite_try, He|]; intros [u|e]; [apply Ha|done]).
Qed.

(** A program that ends and meets its postcondition. *)
Lemma fence_run {A} a (p : Programs.prog fanswer A) Q w steps out w' :
  finite p -> fwp a p Q w -> exec (around a) p w steps out w' -> exists r, out = Returned r /\ Q r w'.
Proof.
  intros Hf Hp He. pose proof (finite_exec _ _ _ _ _ _ Hf He) as Hn. apply (wp_sound _ _ _ _ _ _ _ _ _ Hp) in He as [_ Ho].
  destruct out as [r| |]; [by exists r|done..].
Qed.

(** C7. A fence is exclusive on its host.  Whatever other processes and goroutines do
    between its system calls, and whatever those answer: an agent that acquires a
    fence owns its path (its own open description of the file the path names has
    the file's lock), one that fails has nothing open that it did not have before;
    a validation that succeeds shows that the path is owned, one that fails takes
    nothing from the fence; a release ends the lock.  The path depends on the
    network and the sponsor only, and two agents never own the same path at once,
    even when the file is removed or replaced. *)
Theorem fence_is_exclusive (a : nat) (w : k_world) :
  (forall supported key steps out w', exec (around a) (AcquireProcessFence supported key tt) w steps out w' ->
     exists r, out = Returned r /\ acquired a (fencePath key) w r w') /\
  (forall supported sponsor steps out w', exec (around a) (AcquireBudgetFence supported sponsor tt) w steps out w' ->
     exists r, out = Returned r /\ acquired a (budgetFencePath sponsor) w r w') /\
  (forall f steps out w', k_owner w (F_fd f) = Some a -> exec (around a) (Validate f) w steps out w' ->
     exists r, out = Returned (f, r) /\ match r with Ok _ => Owns a w' f | Err e => e = ErrFenceLost /\ keeps a (F_fd f) w w' end) /\
  (forall f steps out w', Owns a w f -> exec (around a) (Release f) w steps out w' ->
     exists f' r, out = Returned (f', r) /\ F_released f' = true /\ opensNothing a w w' /\ forall i, k_lock w' i <> Some (F_fd f)) /\
  (forall b f g, Owns a w f -> Owns b w g -> F_path f = F_path g -> a = b /\ F_fd f = F_fd g).
Proof.
  destruct fence_programs_end as (_ & _ & Hv & Hr). split; [|split; [|split; [|split]]].
  - intros supported key steps out w' He. eapply fence_run in He; [exact He|apply (fence_acquisition_ends supported key zeroAddress tt)|].
    unfold AcquireProcessFence. destruct (negb supported); [by intros d|]. destruct (_ || _); [by intros d|]. apply acquire_owns.
  - intros supported sponsor steps out w' He. eapply fence_run in He; [exact He|apply (fence_acquisition_ends supported (mkLeaseKey 0 []) sponsor tt)|].
    unfold AcquireBudgetFence. destruct (negb supported); [by intros d|]. destruct (bytes_eqb _ _); [by intros d|]. apply acquire_owns.
  - intros f steps out w' Ho He. destruct (fence_run _ _ _ _ _ _ _ (Hv f) (Validate_owns a f w Ho) He) as ([f' r] & -> & Hf & H). cbn in Hf. subst f'. by exists r.
  - intros f steps out w' (Hn & Ho & _) He. destruct (fence_run _ _ _ _ _ _ _ (Hr f) (Release_ends a f w Ho Hn) He) as ([f' r] & -> & Hf & H1 & _ & H2). by exists f', r.
  - intros b f g (_ & Ho & Hl & Hp) (_ & Ho' & Hl' & Hp') Hpath. rewrite <- Hpath, Hp in Hp'. injection Hp' as Hi. rewrite Hi, Hl' in Hl. injection Hl as Hd.
    rewrite <- Hd, Ho' in Ho. split; congruence.
Qed.

End Laws.

(** ** A kernel with these laws *)

Module FenceExamples.

Record host := mkHost {
  h_path : bytes -> option Stat;
  h_fds : gmap Z (nat * Stat);
  h_lock : unixFileIdentity -> option Z }.

Definition withFds (fds : gmap Z (nat * Stat)) (w : host) : host := mkHost (h_path w) fds (h_lock w).
Definition withLock (lock : unixFileIdentity -> option Z) (w : host) : host := mkHost (h_path w) (h_fds w) lock.

(** The locks without those of [d]. *)
Definition unlock (d : Z) (lock : unixFileIdentity -> option Z) (i : unixFileIdentity) : option Z :=
  if bool_decide (lock i = Some d) then None else lock i.

Definition hostCall (a : nat) (w : host) (c : FEff) : fanswer c -> host -> Prop :=
  match c with
  | U_Open path _ => fun x w' =>
      match h_path w path, x with
      | Some s, Some d => 0 <= d /\ h_fds w !! d = None /\ w' = withFds (<[d := (a, s)]> (h_fds w)) w
      | None, None => w' = w
      | _, _ => False
      end
  | U_Fstat d => fun x w' => x = snd <$> h_fds w !! d /\ w' = w
  | U_Lstat path => fun x w' => x = h_path w path /\ w' = w
  | U_Flock d => fun x w' =>
      match h_fds w !! d with
      | Some (b, s) =>
          b = a /\
          match x with
          | Locked => (h_lock w (Stat_identity s) = None \/ h_lock w (Stat_identity s) = Some d) /\
              w' = withLock (fun i => if bool_decide (i = Stat_identity s) then Some d else h_lock w i) w
          | WouldBlock => (exists e, e <> d /\ h_lock w (Stat_identity s) = Some e) /\ w' = w
          | FlockFailed => False
          end
      | None => x = FlockFailed /\ w' = w
      end
  | U_Funlock d => fun _ w' => (exists s, h_fds w !! d = Some (a, s)) /\ w' = withLock (unlock d (h_lock w)) w
  | U_Close d => fun _ w' => (exists s, h_fds w !! d = Some (a, s)) /\ w' = withFds (delete d (h_fds w)) (withLock (unlock d (h_lock w)) w)
  | _ => fun x w' => w' = w
  end.

(** Calls of other agents, and files that are created, removed and replaced. *)
Inductive hostStep (a : nat) (w : host) : host -> Prop :=
| step_call b c x w' : b <> a -> hostCall b w c x w' -> hostStep a w w'
| step_files path : hostStep a w (mkHost path (h_fds w) (h_lock w)).

#[export] Instance hostKernel : Kernel :=
  { k_world := host; k_owner w d := fst <$> h_fds w !! d; k_fd w d := snd <$> h_fds w !! d; k_lock := h_lock; k_path := h_path;
    k_call := hostCall; k_elsewhere a := rtc (hostStep a) }.

Lemma unlock_other d e lock i : lock i = Some d -> d <> e -> unlock e lock i = Some d.
Proof. intros Hl Hd. unfold unlock. by rewrite bool_decide_false by congruence. Qed.

Lemma host_keeps a b w c x w' d : hostCall b w c x w' -> (match c with U_Funlock e | U_Close e => d <> e \/ b <> a | _ => True end) -> keeps a d w w'.
Proof.
  intros Hc Hd Ho. cbn in Ho. destruct (h_fds w !! d) as [[b' s]|] eqn:Ed; [|done]. injection Ho as ->.
  destruct c; cbn in Hc; try (subst w'; cbn; by rewrite Ed).
  - destruct (h_path w path) as [s'|], x as [e|]; try done; [|subst w'; cbn; by rewrite Ed]. destruct Hc as (_ & He & ->). cbn.
    rewrite lookup_insert_ne by congruence. by rewrite Ed.
  - destruct Hc as [_ ->]. cbn. by rewrite Ed.
  - destruct (h_fds w !! fd) as [[b' s']|] eqn:Ef; [|destruct Hc as [_ ->]; cbn; by rewrite Ed]. destruct Hc as [-> Hc].
    destruct x; [|destruct Hc as [_ ->]; cbn; by rewrite Ed|done]. destruct Hc as [Hl ->]. cbn. rewrite Ed. split; [done|]. split; [done|]. intros i Hi.
    destruct (bool_decide_reflect (i = Stat_identity s')) as [->|]; [|done]. destruct Hl; congruence.
  - destruct Hc as [[s' Hs'] ->]. cbn. rewrite Ed. split; [done|]. split; [done|]. intros i Hi. apply unlock_other; [done|]. destruct Hd; congruence.
  - destruct Hc as [_ ->]. cbn. by rewrite Ed.
  - destruct Hc as [[s' Hs'] ->]. assert (d <> fd) by (destruct Hd; congruence). cbn. rewrite lookup_delete_ne by done. rewrite Ed.
    split; [done|]. split; [done|]. intros i Hi. by apply unlock_other.
Qed.

Lemma host_opens a b w c x w' : hostCall b w c x w' -> (match c with U_Open _ _ => b <> a | _ => True end) -> opensNothing a w w'.
Proof.
  intros Hc Hb d Hd. cbn in *. destruct c; cbn in Hc; try (by subst w').
  - destruct (h_path w path) as [s'|], x as [e|]; try done; [|by subst w']. destruct Hc as (_ & He & ->). cbn in Hd.
    destruct (decide (e = d)) as [->|]; [|by rewrite lookup_insert_ne in Hd]. rewrite lookup_insert_eq in Hd. injection Hd as ->. done.
  - by destruct Hc as [_ ->].
  - destruct (h_fds w !! fd) as [[b' s']|]; [|by destruct Hc as [_ ->]]. destruct Hc as [_ Hc]. destruct x; [|by destruct Hc as [_ ->]|done]. by destruct Hc as [_ ->].
  - by destruct Hc as [_ ->].
  - by destruct Hc as [_ ->].
  - destruct Hc as [_ ->]. cbn in Hd. destruct (decide (fd = d)) as [->|]; [by rewrite lookup_delete_eq in Hd|by rewrite lookup_delete_ne in Hd].
Qed.

Lemma host_same a d w w' : h_fds w' = h_fds w -> h_lock w' = h_lock w -> keeps a d w w' /\ opensNothing a w w'.
Proof. intros Hf Hl. split; [intros Ho; cbn in *; by rewrite Hf, Hl|]. intros e He. cbn in *. by rewrite <- Hf. Qed.

Lemma host_elsewhere a w w' d : rtc (hostStep a) w w' -> keeps a d w w' /\ opensNothing a w w'.
Proof.
  induction 1 as [w|w1 w2 w3 Hs _ [IHk IHo]]; [by apply host_same|]. assert (Hk : keeps a d w1 w2 /\ opensNothing a w1 w2).
  { destruct Hs as [b c x w' Hb Hc|path]; [|by apply host_same]. split; [eapply host_keeps; [exact Hc|]; destruct c; auto|eapply host_opens; [exact Hc|]; by destruct c]. }
  destruct Hk as [Hk Ho]. split; [by eapply keeps_trans|by eapply opensNothing_trans].
Qed.

#[export] Instance hostLaws : KernelLaws.
Proof.
  constructor.
  - intros. by apply host_elsewhere.
  - intros a w c x w' d Hc Hd. eapply host_keeps; [exact Hc|]. destruct c; auto.
  - intros a w c x w' Hc Hd. eapply host_opens; [exact Hc|]. by destruct c.
  - intros a w path create x w' Hc. cbn in Hc. destruct (h_path w path) as [s|], x as [d|]; try done; [|subst w'; intros e He; exact He].
    destruct Hc as (H0 & Hn & ->). split; [cbn; by rewrite Hn|]. split; [cbn; by rewrite lookup_insert_eq|]. split; [done|]. cbn. intros e He.
    destruct (decide (d = e)) as [->|]; [by left|right; by rewrite lookup_insert_ne in He].
  - intros a w d x w' [-> ->] s Hs. exact Hs.
  - intros a w path x w' [-> ->] s Hs. exact Hs.
  - intros a w d w' s Hc Ho Hs. cbn in *. destruct (h_fds w !! d) as [[b s']|]; [|done]. injection Hs as ->. destruct Hc as (_ & _ & ->). cbn. by rewrite bool_decide_true.
  - intros a w d x w' [_ ->] Ho. exact Ho.
  - intros a w d x w' [_ ->] Ho. cbn. rewrite lookup_delete_eq. split; [done|]. intros i. unfold unlock. destruct (bool_decide_reflect (h_lock w i = Some d)); congruence.
Qed.

(** A host with the directory and one file for every other path, and a fence. *)
Definition exampleFile : unixFileIdentity := mkFileIdentity 1 2.

Definition exampleHost : host :=
  mkHost (fun path => Some (if bytes_eqb path processFenceRoot then mkStat DirectoryNode (mkFileIdentity 1 1) else mkStat RegularNode exampleFile)) ∅ (fun _ => None).

Definition exampleKey : LeaseKey := mkLeaseKey 8453 (be_bytes 20 7).

Lemma example_path : bytes_eqb (fencePath exampleKey) processFenceRoot = false.
Proof. vm_compute. reflexivity. Qed.

#[local] Arguments processFenceRoot : simpl never.

Ltac hstep x :=
  match goal with |- exec ?env (Vis ?c ?k) _ _ _ _ => eapply (exec_vis env c k x); [eexists; split; [apply rtc_refl|]|] end.

Lemma example_acquires key :
  (LeaseKey_Network key <=? 0) || bytes_eqb (LeaseKey_Sponsor key) zeroAddress = false -> bytes_eqb (fencePath key) processFenceRoot = false ->
  exists steps w', exec (around 1) (AcquireProcessFence true key tt) exampleHost steps (Returned (tt, Ok (mkFence 3 (fencePath key) exampleFile false))) w'.
Proof.
  intros Hk Hp. unfold AcquireProcessFence. cbn [negb]. rewrite Hk. generalize dependent (fencePath key). intros path Hp. do 2 eexists. cbn.
  hstep true; [reflexivity|]. cbn. hstep (Some (mkStat DirectoryNode (mkFileIdentity 1 1))); [by split|]. cbn. hstep true; [reflexivity|]. cbn.
  hstep (Some 3); [cbn; rewrite Hp; split; [lia|]; split; reflexivity|]. cbn. hstep (Some (mkStat RegularNode exampleFile)); [by split|]. cbn.
  hstep true; [reflexivity|]. cbn. hstep Locked; [cbn; split; [done|]; split; [by left|reflexivity]|]. cbn.
  hstep (Some (mkStat RegularNode exampleFile)); [split; [cbn; by rewrite Hp|reflexivity]|]. cbn. constructor.
Qed.

(** An agent owns the fence of the example, and no other agent can at that time. *)
Lemma fence_is_exclusive_witness :
  exists w f, Owns 1 w f /\ F_path f = fencePath exampleKey /\ forall b g, Owns b w g -> F_path g = fencePath exampleKey -> b = 1%nat.
Proof.
  destruct (example_acquires exampleKey eq_refl example_path) as (steps & w' & He).
  destruct (fence_is_exclusive (K := hostKernel) 1 exampleHost) as (Ha & _). destruct (Ha _ _ _ _ _ He) as (r & [= <-] & Hp & Ho). cbn in Hp.
  exists w', (mkFence 3 (fencePath exampleKey) exampleFile false). split; [exact Ho|]. split; [exact Hp|]. intros b g Hg Hpath.
  destruct (fence_is_exclusive (K := hostKernel) 1 w') as (_ & _ & _ & _ & Hx). destruct (Hx b _ _ Ho Hg (eq_trans Hp (eq_sym Hpath))) as [Hb _]. exact (eq_sym Hb).
Defined.

(** A probe whose [flock] fails for another reason than the lock stays open: the
    trace of the validation has its open and no close. *)
Definition probeHandler (f : unixProcessFence) (c : FEff) (w : unit) : fanswer c * unit :=
  match c return fanswer c * unit with
  | U_MkdirAll _ | U_Chmod _ | U_Fchmod _ | U_Funlock _ | U_Close _ => (true, w)
  | U_Open _ _ => (Some 9, w)
  | U_Fstat _ | U_Lstat _ => (Some (mkStat RegularNode (F_identity f)), w)
  | U_Flock _ => (FlockFailed, w)
  end.

Definition isOpen (e : Programs.event fanswer) : bool := match ev_call e with U_Open _ _ => true | _ => false end.
Definition isClose (e : Programs.event fanswer) : bool := match ev_call e with U_Close _ => true | _ => false end.

Lemma failed_probe_stays_open :
  let f := mkFence 3 [] exampleFile false in
  let tr := fst (fst (run (probeHandler f) (Validate f) tt)) in
  existsb isOpen tr = true /\ existsb isClose tr = false.
Proof. vm_compute. done. Qed.

End FenceExamples.

End Fence.
Export Fence.
