(* ===== verification/Configuration.v ===== *)
(** * internal/config: the runtime configuration

    [policy.go], [economics.go], [networks.go], [validate.go], [mode.go],
    [watch.go], [claim.go] and [schema.go].  A configuration is read through a
    lookup function from names to texts; every function here is that function of
    the source with the lookup as its argument, its errors the messages of the
    source.  [Panicked] stands for the panics on internal constants.

    What is not in the repository, or is a table of the standard library, is the
    class [ConfigLib]: go-ethereum's address and key parsing, Unicode case mapping,
    URL parsing and printing, the claim file and its JSON, and the dotenv parser.
    Integers that Go copies ([Clone], [cloneBigInt]) are values here. *)

From S2P Require Import Prelude GoTime Bytes Sha256 Domain GoText.
From Stdlib Require Import Strings.Byte.
From Stdlib Require Strings.String.
Import Strings.String.StringSyntax.

Module Configuration.

Inductive ConfigError := Failure (message : bytes) | Panicked (message : bytes).

Definition lookupFn := bytes -> option bytes.

(** The parts of [url.URL] the program reads or changes; [URL_Other] holds the rest. *)
Record URL := mkURL {
  URL_Scheme : bytes;
  URL_Host : bytes;
  URL_Path : bytes;
  URL_RawPath : bytes;
  URL_RawQuery : bytes;
  URL_Other : bytes }.

Record claimDocument := mkClaimDocument {
  Doc_ChainID : Z;
  Doc_Target : bytes;
  Doc_Data : bytes;
  Doc_ValueWei : bytes;
  Doc_Token : bytes;
  Doc_MinimumReceivedRaw : bytes;
  Doc_GasLimit : Z;
  Doc_MaximumCostWei : bytes;
  Doc_ValidUntil : Z }.

Class ConfigLib := {
  PrivateKey : Type;
  IsHexAddress : bytes -> bool;
  HexToAddress : bytes -> Address;
  HexToECDSA : bytes -> option PrivateKey;
  ToLower : bytes -> bytes;
  EqualFold : bytes -> bytes -> bool;
  ParseRequestURI : bytes -> option URL;
  Hostname : URL -> bytes;
  Port : URL -> bytes;
  EncodeQuery : bytes -> bytes;
  URL_String : URL -> bytes;
  (* the first [(64<<10)+1] bytes of a file, [None] when it cannot be opened or read *)
  readClaimFile : bytes -> option bytes;
  (* one JSON document without unknown fields and nothing after it *)
  decodeClaim : bytes -> option claimDocument;
  godotenv_Unmarshal : bytes -> option (list (bytes * bytes)) }.

Definition uint256Max : Z := 2 ^ 256.

(** [value.BitLen() > 256] of a number that is not negative. *)
Definition exceeds256 (value : Z) : bool := uint256Max <=? value.

(** ** policy.go: values *)

Definition decimalDigits (value : bytes) : bool := negb (bytes_eqb value []) && forallb isDigit value.

Definition decimalError (name : bytes) (allowZero : bool) : ConfigError :=
  if allowZero then Failure (str "environment variable " ++ name ++ str " must be a non-negative decimal uint256 integer")
  else Failure (str "environment variable " ++ name ++ str " must be a positive decimal uint256 integer").

Definition valueOr (lookup : lookupFn) (name defaultValue : bytes) : bytes :=
  match lookup name with Some value => value | None => defaultValue end.

Definition loadDecimal (lookup : lookupFn) (name defaultValue : bytes) (allowZero : bool) : result ConfigError Z :=
  let value := valueOr lookup name defaultValue in
  reject negb (decimalDigits value) with decimalError name allowZero in
  let result := decValue value in
  reject (result <? 0) || negb allowZero && (result =? 0) || exceeds256 result with decimalError name allowZero in
  Ok result.

Definition loadPositiveDecimal (lookup : lookupFn) (name defaultValue : bytes) : result ConfigError Z :=
  loadDecimal lookup name defaultValue false.

Definition loadNonNegativeDecimal (lookup : lookupFn) (name defaultValue : bytes) : result ConfigError Z :=
  loadDecimal lookup name defaultValue true.

Definition integerError (name : bytes) : ConfigError :=
  Failure (str "environment variable " ++ name ++ str " must be a positive decimal integer").

Definition loadPositiveUint (bits : Z) (lookup : lookupFn) (name defaultValue : bytes) : result ConfigError Z :=
  let value := valueOr lookup name defaultValue in
  reject negb (decimalDigits value) with integerError name in
  let? result := ParseUint bits value orelse integerError name in
  reject result =? 0 with integerError name in
  Ok result.

Definition loadPositiveUint32 := loadPositiveUint 32.
Definition loadPositiveUint64 := loadPositiveUint 64.

Definition durationError (name : bytes) : ConfigError :=
  Failure (str "environment variable " ++ name ++ str " must specify a positive duration").

Definition loadPositiveDuration (lookup : lookupFn) (name defaultValue : bytes) : result ConfigError Duration :=
  let value := valueOr lookup name defaultValue in
  reject bytes_eqb value [] || negb (bytes_eqb (TrimSpace value) value) || HasPrefix value (str "+") || HasPrefix value (str "-")
    with durationError name in
  let? duration := ParseDuration value orelse durationError name in
  reject duration <=? 0 with durationError name in
  Ok duration.

Definition loadStrictBoolean (lookup : lookupFn) (name defaultValue : bytes) : result ConfigError bool :=
  let value := valueOr lookup name defaultValue in
  if bytes_eqb value (str "true") then Ok true
  else if bytes_eqb value (str "false") then Ok false
  else Err (Failure (str "environment variable " ++ name ++ str " must be true or false")).

Definition defaultReadTimeout : bytes := str "10s".

Definition loadReadTimeout (lookup : lookupFn) : result ConfigError Duration :=
  loadPositiveDuration lookup (str "RPC_READ_TIMEOUT") defaultReadTimeout.

(** ** policy.go: the artifact and the global policy *)

Definition defaultArtifactPath : bytes := str "artifacts/contracts/RescuerV2.json".
Definition pinnedArtifactSHA256 : bytes := str "sha256:96c6c0d358e44980814b40553358c53ce5231b7c2ce4ef9bf99add3b9a96a4af".
Definition pinnedArtifactSourceKind : bytes := str "source-tree-sha256".
Definition pinnedArtifactSourceValue : bytes := str "sha256:e7fcd5fa1da201b9a4aa728ad6758032250919eb438733e3f57c61eef8f2971a".
Definition pinnedArtifactCompilerVersion : bytes := str "0.8.36+commit.8a079791.Emscripten.clang".

Record ArtifactTrust := mkArtifactTrust {
  Artifact_Path : bytes;
  Artifact_SHA256 : bytes;
  Artifact_SourceKind : bytes;
  Artifact_SourceValue : bytes;
  Artifact_CompilerVersion : bytes }.

Definition loadArtifactTrust (lookup : lookupFn) : result ConfigError ArtifactTrust :=
  let path := valueOr lookup (str "RESCUER_ARTIFACT") defaultArtifactPath in
  reject bytes_eqb path [] with Failure (str "RESCUER_ARTIFACT must not be empty") in
  Ok (mkArtifactTrust path pinnedArtifactSHA256 pinnedArtifactSourceKind pinnedArtifactSourceValue pinnedArtifactCompilerVersion).

Definition lowercaseHex (value : bytes) : bool :=
  forallb (fun b => isDigit b || (97 <=? byteZ b) && (byteZ b <=? 102)) value.

Definition defaultMaxTransactionCostWei : bytes := str "100000000000000".
Definition defaultHourlyBudgetWei : bytes := str "200000000000000".
Definition defaultDailyBudgetWei : bytes := str "300000000000000".
Definition defaultCumulativeBudgetWei : bytes := str "500000000000000".
Definition defaultSponsorMinimumBalanceWei : bytes := str "20000000000000000".
Definition defaultRateLimitPerMinute : bytes := str "6".
Definition defaultAbuseWindow : bytes := str "1h".
Definition defaultMaxNewUnknownTokensPerWindow : bytes := str "16".
Definition defaultMaxAttemptsPerTokenWindow : bytes := str "3".
Definition defaultMaxAttemptsPerSourceEvent : bytes := str "3".
Definition defaultEmergencyStop : bytes := str "false".
Definition defaultAlertCooldown : bytes := str "15m".

Record RuntimePolicy := mkRuntimePolicy {
  RP_MaxTransactionCostWei : Z;
  RP_HourlyBudgetWei : Z;
  RP_DailyBudgetWei : Z;
  RP_CumulativeBudgetWei : Z;
  RP_SponsorMinimumBalanceWei : Z;
  RP_RateLimitPerMinute : Z;
  RP_AbuseWindow : Duration;
  RP_MaxNewUnknownTokensPerWindow : Z;
  RP_MaxAttemptsPerTokenWindow : Z;
  RP_MaxAttemptsPerSourceEvent : Z;
  RP_EmergencyStop : bool;
  RP_AlertCooldown : Duration }.

Definition loadRuntimePolicy (lookup : lookupFn) : result ConfigError RuntimePolicy :=
  let! maxCost := loadPositiveDecimal lookup (str "MAX_TRANSACTION_COST_WEI") defaultMaxTransactionCostWei in
  let! hourly := loadPositiveDecimal lookup (str "HOURLY_BUDGET_WEI") defaultHourlyBudgetWei in
  let! daily := loadPositiveDecimal lookup (str "DAILY_BUDGET_WEI") defaultDailyBudgetWei in
  let! cumulative := loadPositiveDecimal lookup (str "CUMULATIVE_BUDGET_WEI") defaultCumulativeBudgetWei in
  reject hourly <? maxCost with Failure (str "HOURLY_BUDGET_WEI must not be less than MAX_TRANSACTION_COST_WEI") in
  reject daily <? hourly with Failure (str "DAILY_BUDGET_WEI must not be less than HOURLY_BUDGET_WEI") in
  reject cumulative <? daily with Failure (str "CUMULATIVE_BUDGET_WEI must not be less than DAILY_BUDGET_WEI") in
  let! minimumBalance := loadPositiveDecimal lookup (str "SPONSOR_MIN_BALANCE_WEI") defaultSponsorMinimumBalanceWei in
  let! rateLimit := loadPositiveUint32 lookup (str "RATE_LIMIT_PER_MINUTE") defaultRateLimitPerMinute in
  let! abuseWindow := loadPositiveDuration lookup (str "ABUSE_WINDOW") defaultAbuseWindow in
  let! maxNewUnknown := loadPositiveUint32 lookup (str "MAX_NEW_UNKNOWN_TOKENS_PER_WINDOW") defaultMaxNewUnknownTokensPerWindow in
  let! maxTokenAttempts := loadPositiveUint32 lookup (str "MAX_ATTEMPTS_PER_TOKEN_WINDOW") defaultMaxAttemptsPerTokenWindow in
  let! maxSourceAttempts := loadPositiveUint32 lookup (str "MAX_ATTEMPTS_PER_SOURCE_EVENT") defaultMaxAttemptsPerSourceEvent in
  let! emergencyStop := loadStrictBoolean lookup (str "EMERGENCY_STOP") defaultEmergencyStop in
  let! alertCooldown := loadPositiveDuration lookup (str "ALERT_COOLDOWN") defaultAlertCooldown in
  Ok (mkRuntimePolicy maxCost hourly daily cumulative minimumBalance rateLimit abuseWindow maxNewUnknown maxTokenAttempts
        maxSourceAttempts emergencyStop alertCooldown).

(** ** watch.go *)

Definition defaultStateDirectory : bytes := str "state".
Definition defaultLookbackBlocks : bytes := str "64".
Definition maxLookbackBlocks : Z := 10000.

Record WatchPolicy := mkWatchPolicy {
  WP_StateDirectory : bytes;
  WP_LookbackBlocks : Z }.

Definition loadWatchPolicy (lookup : lookupFn) : result ConfigError WatchPolicy :=
  let directory := valueOr lookup (str "STATE_DIRECTORY") defaultStateDirectory in
  reject bytes_eqb directory [] || containsByte directory x00 || negb (bytes_eqb (Clean directory) directory)
    with Failure (str "STATE_DIRECTORY must specify a non-empty normalized path without NUL bytes") in
  let lookbackValue := valueOr lookup (str "WATCH_LOOKBACK_BLOCKS") defaultLookbackBlocks in
  reject negb (decimalDigits lookbackValue) with Failure (str "WATCH_LOOKBACK_BLOCKS must be a positive decimal integer") in
  let? lookback := ParseUint 64 lookbackValue orelse Failure (str "WATCH_LOOKBACK_BLOCKS must be a positive decimal integer") in
  reject lookback =? 0 with Failure (str "WATCH_LOOKBACK_BLOCKS must be a positive decimal integer") in
  reject maxLookbackBlocks <? lookback with Failure (str "WATCH_LOOKBACK_BLOCKS must not exceed 10000") in
  Ok (mkWatchPolicy directory lookback).

(** ** validate.go *)

Definition requiredValue (lookup : lookupFn) (name : bytes) : result ConfigError bytes :=
  match lookup name with
  | Some (b :: value) => Ok (b :: value)
  | _ => Err (Failure (str "required environment variable " ++ name ++ str " is not set"))
  end.

Definition validateDistinctRoles (source sponsor destination : Address) : result ConfigError unit :=
  reject bytes_eqb source sponsor with Failure (str "SOURCE_ADDRESS and SPONSOR_ADDRESS must specify distinct addresses") in
  reject bytes_eqb source destination with Failure (str "SOURCE_ADDRESS and DESTINATION_ADDRESS must specify distinct addresses") in
  reject bytes_eqb sponsor destination with Failure (str "SPONSOR_ADDRESS and DESTINATION_ADDRESS must specify distinct addresses") in
  Ok tt.

Definition removedEnvironmentFields : list bytes :=
  [str "RESCUE_TOKENS"; str "TOKENS_TO_SWEEP"; str "CLAIM_CONTRACT"; str "CLAIM_DATA_HEX"; str "RPC_URL_BASE"; str "RPC_URL_ETHEREUM";
   str "RPC_URL_ARBITRUM"; str "RPC_URL_OPTIMISM"; str "RPC_URL_POLYGON"; str "RPC_URL_INK"; str "RPC_URL_SCROLL"; str "RPC_URL_LINEA";
   str "RPC_URL_METIS"; str "RPC_URL_BNB"; str "SPONSOR_MIN_BALANCE"; str "RESCUER_BASE"; str "RESCUER_ETHEREUM"; str "RESCUER_ARBITRUM";
   str "RESCUER_OPTIMISM"; str "RESCUER_POLYGON"; str "RESCUER_INK"; str "RESCUER_SCROLL"; str "RESCUER_LINEA"; str "RESCUER_METIS";
   str "RESCUER_BNB"; str "RESCUER_ZKSYNC"; str "RESCUER_GNOSIS"; str "RESCUER_BERACHAIN"; str "RESCUER_MODE"; str "RESCUER_ZORA";
   str "RESCUER_BOB"; str "RESCUER_LOCAL"].

Definition rejectUnsupportedFields (lookup : lookupFn) : result ConfigError unit :=
  foldM (fun _ name =>
    match lookup name with
    | Some _ => Err (Failure (str "environment variable " ++ name ++ str " is no longer supported"))
    | None => Ok tt
    end) removedEnvironmentFields tt.

Definition reservedPrefixes : list bytes :=
  [str "ABUSE_"; str "ALERT_"; str "CHAIN_OVERHEAD_"; str "CLAIM_"; str "CUMULATIVE_"; str "DAILY_"; str "EMERGENCY_"; str "HOURLY_";
   str "MAX_ATTEMPTS_"; str "MAX_FEE_"; str "MAX_NEW_UNKNOWN_"; str "MAX_PRIORITY_"; str "MAX_TRANSACTION_"; str "MIN_PRIORITY_";
   str "NATIVE_"; str "NETWORK_"; str "RATE_LIMIT_"; str "RESCUER_"; str "RPC_BROADCAST_"; str "RPC_READ_"; str "RPC_URL_"; str "SPONSOR_";
   str "STATE_"; str "TOKEN_"; str "TOKENS_"; str "UNKNOWN_TOKEN_"; str "WATCH_"].

Definition reservedEnvironmentName (name : bytes) : bool := existsb (HasPrefix name) reservedPrefixes.

(** ** mode.go *)

Inductive Mode := ModeDryRun | ModeLive.

Definition IsDryRun (mode : Mode) : bool := match mode with ModeDryRun => true | ModeLive => false end.
Definition IsLive (mode : Mode) : bool := match mode with ModeLive => true | ModeDryRun => false end.
Definition Mode_String (mode : Mode) : bytes := match mode with ModeDryRun => str "dry-run" | ModeLive => str "live" end.

Definition loadMode (lookup : lookupFn) : result ConfigError Mode :=
  match lookup (str "DRY_RUN") with
  | None => Ok ModeDryRun
  | Some value =>
      if bytes_eqb value (str "true") then Ok ModeDryRun
      else if bytes_eqb value (str "false") then Ok ModeLive
      else Err (Failure (str "DRY_RUN must be true or false"))
  end.

End Configuration.
Export Configuration.
