(* ===== verification/ConfigNetworks.v ===== *)
(** * internal/config: networks, economics and the whole runtime

    [economics.go], [networks.go], [claim.go], [schema.go] and the rest of
    [validate.go] and [mode.go], over the library parameters of
    [Configuration.ConfigLib]. *)

From S2P Require Import Prelude GoTime Bytes Sha256 Domain GoText Configuration.
From Stdlib Require Import Strings.Byte.
From Stdlib Require Strings.String.
Import Strings.String.StringSyntax.

Module ConfigNetworks.

(** ** economics.go *)

Definition defaultNetworkMaxTransactionCostWei : bytes := str "80000000000000".
Definition defaultNetworkHourlyBudgetWei : bytes := str "150000000000000".
Definition defaultNetworkDailyBudgetWei : bytes := str "250000000000000".
Definition defaultNetworkCumulativeBudgetWei : bytes := str "400000000000000".
Definition defaultNetworkSponsorMinimumBalanceWei : bytes := str "20000000000000000".
Definition defaultTokenGasLimit : bytes := str "300000".
Definition defaultBaseTokenGasLimit : bytes := str "180000".
Definition defaultNativeGasLimit : bytes := str "100000".
Definition defaultNativeMinimumNetValueWei : bytes := str "1000000000000000".
Definition defaultUnknownTokenMaxTransactionCostWei : bytes := str "20000000000000".

Record TokenValueRule := mkTokenValueRule {
  Rule_Address : Address;
  Rule_MinimumBalance : Z;
  Rule_MaxTransactionCostWei : Z }.

Record EconomicPolicy := mkEconomicPolicy {
  Econ_MaxTransactionCostWei : Z;
  Econ_HourlyBudgetWei : Z;
  Econ_DailyBudgetWei : Z;
  Econ_CumulativeBudgetWei : Z;
  Econ_SponsorMinimumBalanceWei : Z;
  Econ_MaxFeePerGasWei : Z;
  Econ_MaxPriorityFeePerGasWei : Z;
  Econ_MinPriorityFeePerGasWei : Z;
  Econ_TokenGasLimit : Z;
  Econ_NativeGasLimit : Z;
  Econ_TransactionOverheadWei : Z;
  Econ_UnboundedAdditionalFees : bool;
  Econ_EstimatedBaseFees : bool;
  Econ_NativeMinimumNetValueWei : Z;
  Econ_UnknownTokenMaxTransactionCostWei : Z;
  Econ_TokenValueRules : list TokenValueRule }.

Record economicProfile := mkEconomicProfile {
  Profile_maxFeePerGasWei : bytes;
  Profile_maxPriorityFeePerGasWei : bytes;
  Profile_transactionOverheadWei : bytes;
  Profile_unboundedAdditionalFees : bool }.

Definition economicProfiles : list (bytes * economicProfile) :=
  [(str "base", mkEconomicProfile (str "50000000") (str "2000000") (str "5000000000000") true);
   (str "ethereum", mkEconomicProfile (str "25000000000") (str "3000000000") (str "0") false);
   (str "arbitrum", mkEconomicProfile (str "3000000000") (str "100000000") (str "1100000000000000") true);
   (str "optimism", mkEconomicProfile (str "4000000000") (str "50000000") (str "1200000000000000") true);
   (str "polygon", mkEconomicProfile (str "25000000000") (str "20000000000") (str "0") false);
   (str "ink", mkEconomicProfile (str "5000000000") (str "100000000") (str "700000000000000") true);
   (str "scroll", mkEconomicProfile (str "5000000000") (str "500000000") (str "1500000000000000") true);
   (str "linea", mkEconomicProfile (str "5000000000") (str "500000000") (str "1800000000000000") true);
   (str "metis", mkEconomicProfile (str "10000000000") (str "1000000000") (str "800000000000000") true);
   (str "bnb", mkEconomicProfile (str "10000000000") (str "2000000000") (str "0") false)].

Definition economicProfileFor (network : bytes) : result ConfigError economicProfile :=
  match List.find (fun e => bytes_eqb (fst e) network) economicProfiles with
  | Some (_, profile) => Ok profile
  | None => Err (Panicked (str "unknown network in internal registry"))
  end.

(** The defaults are constants; [SetString] fails on what is not a number. *)
Definition boundedDefault (value : bytes) (upper : Z) : result ConfigError bytes :=
  reject negb (decimalDigits value) with Panicked (str "invalid internal decimal default") in
  if upper <? decValue value then Ok (decString upper) else Ok value.

Definition lowerBoundedDefault (value : bytes) (lower : Z) : result ConfigError bytes :=
  reject negb (decimalDigits value) with Panicked (str "invalid internal decimal default") in
  if decValue value <? lower then Ok (decString lower) else Ok value.

Definition validateMaximumGasCost (gasName : bytes) (gas : Z) (feeName : bytes) (fee : Z) (overheadName : bytes) (overhead : Z)
    (limitName : bytes) (limit : Z) : result ConfigError unit :=
  let maximum := gas * fee + overhead in
  reject exceeds256 maximum || (limit <? maximum)
    with Failure (str "environment variables " ++ gasName ++ str ", " ++ feeName ++ str ", and " ++ overheadName
                    ++ str " produce a cost above " ++ limitName) in
  Ok tt.

Section Loading.
Context {CL : ConfigLib}.

(** One encoded rule [address:minimum:maximum] after those already read. *)
Definition addValueRule (name : bytes) (trustedTokens : list Address) (networkMax : Z) (rules : list TokenValueRule) (encoded : bytes)
    : result ConfigError (list TokenValueRule) :=
  match splitAt x3a encoded with
  | [addressText; minimumText; maximumText] =>
      reject negb (IsHexAddress addressText) || negb (decimalDigits minimumText) || negb (decimalDigits maximumText)
        with Failure (str "environment variable " ++ name ++ str " contains a malformed token value rule") in
      let address := HexToAddress addressText in
      let minimum := decValue minimumText in
      let maximum := decValue maximumText in
      reject bytes_eqb address zeroAddress || negb (bool_decide (address ∈ trustedTokens))
          || bool_decide (address ∈ map Rule_Address rules) || (minimum <=? 0) || (maximum <=? 0)
          || exceeds256 minimum || exceeds256 maximum || (networkMax <? maximum)
        with Failure (str "environment variable " ++ name ++ str " contains an invalid token value rule") in
      Ok (rules ++ [mkTokenValueRule address minimum maximum])
  | _ => Err (Failure (str "environment variable " ++ name ++ str " contains a malformed token value rule"))
  end.

Definition loadTokenValueRules (lookup : lookupFn) (suffix : bytes) (trustedTokens : list Address) (networkMax : Z)
    : result ConfigError (list TokenValueRule) :=
  let name := str "TOKEN_VALUE_RULES_" ++ suffix in
  match lookup name with
  | None => Ok []
  | Some value =>
      reject bytes_eqb value [] with Failure (str "environment variable " ++ name ++ str " must not be empty") in
      foldM (addValueRule name trustedTokens networkMax) (splitAt x2c value) []
  end.

Definition notLess (name other : bytes) : ConfigError :=
  Failure (str "environment variable " ++ name ++ str " must not be less than " ++ other).

Definition notAbove (name other : bytes) : ConfigError :=
  Failure (str "environment variable " ++ name ++ str " must not exceed " ++ other).

Definition validFeeMode (suffix : bytes) (feeMode : option bytes) : bool :=
  match feeMode with
  | None => true
  | Some mode => bytes_eqb mode (str "bounded") || bytes_eqb mode (str "estimated") && bytes_eqb suffix (str "BASE")
  end.

Definition loadEconomicPolicy (lookup : lookupFn) (suffix : bytes) (profile : economicProfile) (global : RuntimePolicy)
    (trustedTokens : list Address) : result ConfigError EconomicPolicy :=
  let feeMode := lookup (str "NETWORK_FEE_MODE_" ++ suffix) in
  reject negb (validFeeMode suffix feeMode)
    with Failure (str "environment variable NETWORK_FEE_MODE_" ++ suffix ++ str " must be bounded, or estimated for Base") in
  let maxCostName := str "NETWORK_MAX_TRANSACTION_COST_WEI_" ++ suffix in
  let! maxCostDefault := boundedDefault defaultNetworkMaxTransactionCostWei (RP_MaxTransactionCostWei global) in
  let! maxCost := loadPositiveDecimal lookup maxCostName maxCostDefault in
  let hourlyName := str "NETWORK_HOURLY_BUDGET_WEI_" ++ suffix in
  let! hourlyDefault := boundedDefault defaultNetworkHourlyBudgetWei (RP_HourlyBudgetWei global) in
  let! hourly := loadPositiveDecimal lookup hourlyName hourlyDefault in
  let dailyName := str "NETWORK_DAILY_BUDGET_WEI_" ++ suffix in
  let! dailyDefault := boundedDefault defaultNetworkDailyBudgetWei (RP_DailyBudgetWei global) in
  let! daily := loadPositiveDecimal lookup dailyName dailyDefault in
  let cumulativeName := str "NETWORK_CUMULATIVE_BUDGET_WEI_" ++ suffix in
  let! cumulativeDefault := boundedDefault defaultNetworkCumulativeBudgetWei (RP_CumulativeBudgetWei global) in
  let! cumulative := loadPositiveDecimal lookup cumulativeName cumulativeDefault in
  let reserveName := str "NETWORK_SPONSOR_MIN_BALANCE_WEI_" ++ suffix in
  let! reserveDefault := lowerBoundedDefault defaultNetworkSponsorMinimumBalanceWei (RP_SponsorMinimumBalanceWei global) in
  let! reserve := loadPositiveDecimal lookup reserveName reserveDefault in
  let maxFeeName := str "MAX_FEE_PER_GAS_WEI_" ++ suffix in
  let! maxFee := loadPositiveDecimal lookup maxFeeName (Profile_maxFeePerGasWei profile) in
  let maxPriorityName := str "MAX_PRIORITY_FEE_PER_GAS_WEI_" ++ suffix in
  let! maxPriority := loadPositiveDecimal lookup maxPriorityName (Profile_maxPriorityFeePerGasWei profile) in
  let minPriorityName := str "MIN_PRIORITY_FEE_PER_GAS_WEI_" ++ suffix in
  let! minPriority := loadNonNegativeDecimal lookup minPriorityName (str "0") in
  reject maxPriority <? minPriority with notAbove minPriorityName maxPriorityName in
  let tokenGasName := str "TOKEN_GAS_LIMIT_" ++ suffix in
  let tokenGasDefault := if bytes_eqb suffix (str "BASE") then defaultBaseTokenGasLimit else defaultTokenGasLimit in
  let! tokenGas := loadPositiveUint64 lookup tokenGasName tokenGasDefault in
  let nativeGasName := str "NATIVE_GAS_LIMIT_" ++ suffix in
  let! nativeGas := loadPositiveUint64 lookup nativeGasName defaultNativeGasLimit in
  let overheadName := str "CHAIN_OVERHEAD_MAX_WEI_" ++ suffix in
  let! overhead := loadNonNegativeDecimal lookup overheadName (Profile_transactionOverheadWei profile) in
  let nativeMinimumName := str "NATIVE_MIN_NET_VALUE_WEI_" ++ suffix in
  let! nativeMinimum := loadPositiveDecimal lookup nativeMinimumName defaultNativeMinimumNetValueWei in
  let unknownMaxName := str "UNKNOWN_TOKEN_MAX_TRANSACTION_COST_WEI_" ++ suffix in
  let! unknownMaxDefault := boundedDefault defaultUnknownTokenMaxTransactionCostWei maxCost in
  let! unknownMax := loadPositiveDecimal lookup unknownMaxName unknownMaxDefault in
  let! valueRules := loadTokenValueRules lookup suffix trustedTokens maxCost in
  reject hourly <? maxCost with notLess hourlyName maxCostName in
  reject daily <? hourly with notLess dailyName hourlyName in
  reject cumulative <? daily with notLess cumulativeName dailyName in
  reject RP_MaxTransactionCostWei global <? maxCost with notAbove maxCostName (str "MAX_TRANSACTION_COST_WEI") in
  reject RP_HourlyBudgetWei global <? hourly with notAbove hourlyName (str "HOURLY_BUDGET_WEI") in
  reject RP_DailyBudgetWei global <? daily with notAbove dailyName (str "DAILY_BUDGET_WEI") in
  reject RP_CumulativeBudgetWei global <? cumulative with notAbove cumulativeName (str "CUMULATIVE_BUDGET_WEI") in
  reject reserve <? RP_SponsorMinimumBalanceWei global with notLess reserveName (str "SPONSOR_MIN_BALANCE_WEI") in
  reject maxFee <? maxPriority with notAbove maxPriorityName maxFeeName in
  reject maxCost <? unknownMax with notAbove unknownMaxName maxCostName in
  let! _ := validateMaximumGasCost tokenGasName tokenGas maxFeeName maxFee overheadName overhead maxCostName maxCost in
  let! _ := validateMaximumGasCost nativeGasName nativeGas maxFeeName maxFee overheadName overhead maxCostName maxCost in
  Ok (mkEconomicPolicy maxCost hourly daily cumulative reserve maxFee maxPriority minPriority tokenGas nativeGas overhead
        (Profile_unboundedAdditionalFees profile) (bool_decide (feeMode = Some (str "estimated"))) nativeMinimum unknownMax valueRules).

(** ** networks.go: tokens *)

Definition token (address symbol : bytes) (decimals : Z) : Token := mkToken (HexToAddress address) symbol decimals.

Record networkDefinition := mkNetworkDefinition {
  Def_name : bytes;
  Def_chainID : NetworkID;
  Def_tokens : list Token }.

Definition networkRegistry : list networkDefinition :=
  [mkNetworkDefinition (str "base") 8453
     [token (str "0x833589fCD6eDb6E08f4c7C32D4f71b54bdA02913") (str "USDC") 6;
      token (str "0x50c5725949A6F0c72E6C4a641F24049A917DB0Cb") (str "DAI") 18;
      token (str "0x4200000000000000000000000000000000000006") (str "WETH") 18;
      token (str "0xd9aAEc86B65D86f6A7B5B1b0c42FFA531710b6CA") (str "USDbC") 6;
      token (str "0x2Ae3F1Ec7F1F5012CFEab0185bfc7aa3cf0DEc22") (str "cbETH") 18;
      token (str "0x0555E30da8f98308EdB960aa94C0Db47230d2B9c") (str "WBTC") 8;
      token (str "0x60a3E35Cc302bFA44Cb288Bc5a4F316Fdb1adb42") (str "EURC") 6];
   mkNetworkDefinition (str "ethereum") 1
     [token (str "0xA0b86991c6218b36c1d19D4a2e9Eb0cE3606eB48") (str "USDC") 6;
      token (str "0x6B175474E89094C44Da98b954EedeAC495271d0F") (str "DAI") 18;
      token (str "0xC02aaA39b223FE8D0A0e5C4F27eAD9083C756Cc2") (str "WETH") 18;
      token (str "0xdAC17F958D2ee523a2206206994597C13D831ec7") (str "USDT") 6];
   mkNetworkDefinition (str "arbitrum") 42161
     [token (str "0xaf88d065e77c8cC2239327C5EDb3A432268e5831") (str "USDC") 6;
      token (str "0xFd086bC7CD5C481DCC9C85ebE478A1C0b69FCbb9") (str "USDT") 6;
      token (str "0x82aF49447D8a07e3bd95BD0d56f35241523fBab1") (str "WETH") 18;
      token (str "0xDA10009cBd5D07dd0CeCc66161FC93D7c9000da1") (str "DAI") 18];
   mkNetworkDefinition (str "optimism") 10
     [token (str "0x0b2C639c533813f4Aa9D7837CAf62653d097Ff85") (str "USDC") 6;
      token (str "0x4200000000000000000000000000000000000006") (str "WETH") 18;
      token (str "0x94b008aA00579c1307B0EF2c499aD98a8ce58e58") (str "USDT") 6;
      token (str "0xDA10009cBd5D07dd0CeCc66161FC93D7c9000da1") (str "DAI") 18];
   mkNetworkDefinition (str "polygon") 137
     [token (str "0x3c499c542cEF5E3811e1192ce70d8cC03d5c3359") (str "USDC") 6;
      token (str "0xc2132D05D31c914a87C6611C10748AEb04B58e8F") (str "USDT") 6;
      token (str "0x7ceB23fD6bC0adD59E62ac25578270cFf1b9f619") (str "WETH") 18;
      token (str "0x8f3Cf7ad23Cd3CaDbD9735AFf958023239c6A063") (str "DAI") 18];
   mkNetworkDefinition (str "ink") 57073
     [token (str "0x4200000000000000000000000000000000000006") (str "WETH") 18;
      token (str "0x833589fCD6eDb6E08f4c7C32D4f71b54bdA02913") (str "USDC") 6];
   mkNetworkDefinition (str "scroll") 534352
     [token (str "0x5300000000000000000000000000000000000004") (str "WETH") 18;
      token (str "0x06eFdBFf2a14a7c8E15944D1F4A48F9F95F663A4") (str "USDC") 6];
   mkNetworkDefinition (str "linea") 59144
     [token (str "0xe5D7C2a44FfDe5B02f4fcB0a0e87B2178a5b5d35") (str "WETH") 18;
      token (str "0xA0b86991c6218b36c1d19D4a2e9Eb0cE3606eB48") (str "USDC") 6];
   mkNetworkDefinition (str "metis") 1088
     [token (str "0xDeadDeAddeAddEAddeadDEaDDEAdDeAdDEadDEaD") (str "WETH") 18;
      token (str "0xEA32e89a684d7796fdB3aCa11481D38271531D15") (str "USDC") 6];
   mkNetworkDefinition (str "bnb") 56
     [token (str "0xbb4CdB9CBd36B01bD1cBaEBF2De08d9173bc095c") (str "WBNB") 18;
      token (str "0x8AC76a51cc950d9822D68b83FE1ad97B32Cd580d") (str "USDC") 18;
      token (str "0x55d398326f99059fF775485246999027B3197955") (str "USDT") 18]].

Definition trustedTokenAddresses (tokens : list Token) : list Address := map Token_Address tokens.

(** [metadata[address]]: of known tokens with one address the last one counts. *)
Definition metadataOf (known : list Token) (address : Address) : option Token :=
  List.find (fun t => bytes_eqb (Token_Address t) address) (rev known).

(** One part of the allowlist after those already read. *)
Definition addAllowedToken (name : bytes) (known : list Token) (acc : list Token * list Address) (part : bytes)
    : result ConfigError (list Token * list Address) :=
  let '(tokens, trusted) := acc in
  let candidate := TrimSpace part in
  reject bytes_eqb candidate [] || negb (IsHexAddress candidate)
    with Failure (str "environment variable " ++ name ++ str " contains an invalid EVM address") in
  let address := HexToAddress candidate in
  reject bytes_eqb address zeroAddress
    with Failure (str "environment variable " ++ name ++ str " contains the zero EVM address") in
  reject bool_decide (address ∈ map Token_Address tokens)
    with Failure (str "environment variable " ++ name ++ str " contains a duplicate EVM address") in
  match metadataOf known address with
  | Some configured => Ok (tokens ++ [mkToken address (Token_Symbol configured) (Token_Decimals configured)], trusted ++ [address])
  | None => Ok (tokens ++ [mkToken address [] 0], trusted)
  end.

Definition parseTokenAllowlist (name value : bytes) (known : list Token) : result ConfigError (list Token * list Address * bool) :=
  let! lists := foldM (addAllowedToken name known) (splitAt x2c value) ([], []) in
  Ok (fst lists, snd lists, false).

Definition loadTokenPolicy (lookup : lookupFn) (suffix : bytes) (known : list Token) : result ConfigError (list Token * list Address * bool) :=
  let modeName := str "TOKEN_MODE_" ++ suffix in
  let mode := valueOr lookup modeName (str "known-only") in
  let allowlistName := str "TOKEN_ALLOWLIST_" ++ suffix in
  let allowlist := lookup allowlistName in
  let onlyAllowlist := Failure (str "environment variable " ++ allowlistName ++ str " is only allowed when TOKEN_MODE=allowlist") in
  if bytes_eqb mode (str "known-only") then
    reject bool_decide (is_Some allowlist) with onlyAllowlist in Ok (known, trustedTokenAddresses known, false)
  else if bytes_eqb mode (str "all") then
    reject bool_decide (is_Some allowlist) with onlyAllowlist in Ok (known, trustedTokenAddresses known, true)
  else if bytes_eqb mode (str "allowlist") then
    match allowlist with
    | Some (b :: value) => parseTokenAllowlist allowlistName (b :: value) known
    | _ => Err (Failure (str "required environment variable " ++ allowlistName ++ str " is not set"))
    end
  else Err (Failure (str "environment variable " ++ modeName ++ str " contains an unsupported token mode")).

(** ** networks.go: endpoints *)

Definition endpointError (name : bytes) (websocket : bool) : ConfigError :=
  if websocket then Failure (str "environment variable " ++ name ++ str " must contain a URL with the ws or wss scheme")
  else Failure (str "environment variable " ++ name ++ str " must contain a URL with the http or https scheme").

(** [net.JoinHostPort]. *)
Definition JoinHostPort (host port : bytes) : bytes :=
  if containsByte host x3a then str "[" ++ host ++ str "]:" ++ port else host ++ str ":" ++ port.

Definition isDefaultPort (scheme port : bytes) : bool :=
  bytes_eqb scheme (str "http") && bytes_eqb port (str "80") || bytes_eqb scheme (str "https") && bytes_eqb port (str "443")
  || bytes_eqb scheme (str "ws") && bytes_eqb port (str "80") || bytes_eqb scheme (str "wss") && bytes_eqb port (str "443").

(** The host of the canonical form. *)
Definition canonicalHost (hostname port : bytes) : bytes :=
  if containsByte hostname x3a then
    if bytes_eqb port [] then str "[" ++ hostname ++ str "]" else JoinHostPort hostname port
  else if bytes_eqb port [] then hostname
  else JoinHostPort hostname port.

Definition canonicalURL (parsed : URL) : URL :=
  let scheme := ToLower (URL_Scheme parsed) in
  let hostname := ToLower (Hostname parsed) in
  let port := if isDefaultPort scheme (Port parsed) then [] else Port parsed in
  mkURL scheme (canonicalHost hostname port) (if bytes_eqb (URL_Path parsed) [] then str "/" else URL_Path parsed) []
    (EncodeQuery (URL_RawQuery parsed)) (URL_Other parsed).

Definition validateEndpoint (name value : bytes) (websocket : bool) : result ConfigError bytes :=
  let? parsed := ParseRequestURI value orelse endpointError name websocket in
  reject bytes_eqb (URL_Host parsed) [] || bytes_eqb (URL_Scheme parsed) [] with endpointError name websocket in
  let scheme := ToLower (URL_Scheme parsed) in
  reject (if websocket then negb (bytes_eqb scheme (str "ws")) && negb (bytes_eqb scheme (str "wss"))
          else negb (bytes_eqb scheme (str "http")) && negb (bytes_eqb scheme (str "https")))
    with endpointError name websocket in
  Ok (URL_String (canonicalURL parsed)).

(** ** claim.go *)

Definition claimFailure (name : bytes) : ConfigError :=
  Failure (str "environment variable " ++ name ++ str " must reference a valid claim request for this network and an allowed token").

Definition claimAmount (failure : ConfigError) (encoded : bytes) : result ConfigError Z :=
  reject negb (decimalDigits encoded) || exceeds256 (decValue encoded) with failure in Ok (decValue encoded).

Definition claimPlanOf (failure : ConfigError) (chain : NetworkID) (document : claimDocument) : result ConfigError ClaimPlan :=
  reject negb (Doc_ChainID document =? chain) || negb (IsHexAddress (Doc_Target document)) || negb (IsHexAddress (Doc_Token document))
      || negb (HasPrefix (Doc_Data document) (str "0x")) with failure in
  let? data := hexDecode (drop 2 (Doc_Data document)) orelse failure in
  let! value := claimAmount failure (Doc_ValueWei document) in
  let! minimum := claimAmount failure (Doc_MinimumReceivedRaw document) in
  let! maximum := claimAmount failure (Doc_MaximumCostWei document) in
  let plan := mkClaimPlan (HexToAddress (Doc_Target document)) data value (HexToAddress (Doc_Token document)) minimum
                (Doc_GasLimit document) maximum (Doc_ValidUntil document) in
  let! _ := errOr failure (ClaimPlan_Validate plan) in
  Ok plan.

Definition loadClaim (lookup : lookupFn) (suffix : bytes) (chain : NetworkID) (tokens : list Token) (allowUnknown : bool)
    : result ConfigError (option ClaimPlan) :=
  let name := str "CLAIM_REQUEST_" ++ suffix in
  match lookup name with
  | None => Ok None
  | Some path =>
      let failure := claimFailure name in
      let? content := readClaimFile path orelse failure in
      reject 65536 <? len content with failure in
      let? document := decodeClaim content orelse failure in
      let! plan := claimPlanOf failure chain document in
      if allowUnknown then Ok (Some plan)
      else reject negb (bool_decide (Plan_Token plan ∈ map Token_Address tokens)) with failure in Ok (Some plan)
  end.

(** ** networks.go: networks *)

Record ReadProvider := mkReadProvider {
  RPv_ID : bytes;
  RPv_HTTPURL : bytes;
  RPv_WSURL : bytes;
  RPv_TrustDomain : bytes;
  RPv_EndpointFingerprint : bytes }.

Record Network := mkNetwork {
  Net_Name : bytes;
  Net_ChainID : NetworkID;
  Net_ReadProviders : list ReadProvider;
  Net_BroadcastHTTP : bytes;
  Net_ManifestPath : bytes;
  Net_ManifestSourceKind : bytes;
  Net_ManifestSourceValue : bytes;
  Net_Tokens : list Token;
  Net_TrustedTokens : list Address;
  Net_AllowUnknownTokens : bool;
  Net_EconomicPolicy : EconomicPolicy;
  Net_Claim : option ClaimPlan;
  Net_LatestState : bool }.

Definition enabledName (names : list bytes) (part : bytes) : result ConfigError (list bytes) :=
  let name := TrimSpace part in
  reject bytes_eqb name [] with Failure (str "ENABLED_NETWORKS contains an empty network name") in
  reject negb (bytes_eqb name (ToLower name)) with Failure (str "ENABLED_NETWORKS contains a network name that is not lowercase") in
  reject negb (bool_decide (name ∈ map Def_name networkRegistry)) with Failure (str "ENABLED_NETWORKS contains an unknown network name") in
  reject bool_decide (name ∈ names) with Failure (str "ENABLED_NETWORKS contains a duplicate network name") in
  Ok (names ++ [name]).

Definition enabledNetworkNames (lookup : lookupFn) : result ConfigError (list bytes) :=
  let! value := requiredValue lookup (str "ENABLED_NETWORKS") in
  foldM enabledName (splitAt x2c value) [].

Definition loadManifestSourceProvenance (lookup : lookupFn) (suffix : bytes) : result ConfigError (bytes * bytes) :=
  let name := str "RESCUER_RELEASE_COMMIT_" ++ suffix in
  match lookup name with
  | None => Ok (pinnedArtifactSourceKind, pinnedArtifactSourceValue)
  | Some commit =>
      reject negb (len commit =? 40) || negb (lowercaseHex commit)
        with Failure (str "environment variable " ++ name ++ str " must contain a full 40-character lowercase hexadecimal commit hash") in
      Ok (str "git-commit", commit)
  end.

(** One turn of the loop over the two read providers: the provider and the
    canonical forms of its endpoints. *)
Definition loadProvider (lookup : lookupFn) (suffix name index : bytes) : result ConfigError (ReadProvider * bytes * bytes) :=
  let prefix := str "RPC_READ_" ++ index in
  let httpName := prefix ++ str "_HTTP_" ++ suffix in
  let! httpValue := requiredValue lookup httpName in
  let! canonical := validateEndpoint httpName httpValue false in
  let wsName := prefix ++ str "_WS_" ++ suffix in
  let! wsValue := requiredValue lookup wsName in
  let! canonicalWebSocket := validateEndpoint wsName wsValue true in
  let trustName := prefix ++ str "_TRUST_DOMAIN_" ++ suffix in
  let! trustDomain := requiredValue lookup trustName in
  reject negb (bytes_eqb (TrimSpace trustDomain) trustDomain)
    with Failure (str "environment variable " ++ trustName ++ str " contains an invalid trust domain") in
  Ok (mkReadProvider (name ++ str "-read-" ++ index) httpValue wsValue trustDomain (hexEncode (sha256 canonical)), canonical, canonicalWebSocket).

Definition distinctEndpoints (suffix : bytes) (p1 p2 : ReadProvider * bytes * bytes) : result ConfigError unit :=
  let '(provider1, http1, ws1) := p1 in
  let '(provider2, http2, ws2) := p2 in
  reject bytes_eqb http1 http2 || bytes_eqb (RPv_EndpointFingerprint provider1) (RPv_EndpointFingerprint provider2)
    with Failure (str "RPC_READ_1_HTTP_" ++ suffix ++ str " and RPC_READ_2_HTTP_" ++ suffix ++ str " must specify distinct endpoints") in
  reject EqualFold (RPv_TrustDomain provider1) (RPv_TrustDomain provider2)
    with Failure (str "RPC_READ_1_TRUST_DOMAIN_" ++ suffix ++ str " and RPC_READ_2_TRUST_DOMAIN_" ++ suffix ++ str " must differ") in
  reject bytes_eqb ws1 ws2
    with Failure (str "RPC_READ_1_WS_" ++ suffix ++ str " and RPC_READ_2_WS_" ++ suffix ++ str " must specify distinct endpoints") in
  Ok tt.

Definition loadBroadcast (lookup : lookupFn) (mode : Mode) (suffix : bytes) (canonicalHTTP : list bytes) : result ConfigError bytes :=
  let name := str "RPC_BROADCAST_HTTP_" ++ suffix in
  let value := lookup name in
  let broadcast := valueOr lookup name [] in
  reject IsDryRun mode && bool_decide (is_Some value)
    with Failure (str "environment variable " ++ name ++ str " is only allowed when DRY_RUN=false") in
  reject IsLive mode && bytes_eqb broadcast []
    with Failure (str "required environment variable " ++ name ++ str " is not set") in
  if bytes_eqb broadcast [] then Ok broadcast
  else
    let! canonicalBroadcast := validateEndpoint name broadcast false in
    reject bool_decide (canonicalBroadcast ∈ canonicalHTTP)
      with Failure (str "environment variable " ++ name ++ str " must differ from the read RPC endpoints") in
    Ok broadcast.

Definition loadConfirmation (lookup : lookupFn) (suffix : bytes) : result ConfigError bool :=
  match lookup (str "NETWORK_CONFIRMATION_MODE_" ++ suffix) with
  | None => Ok false
  | Some confirmation =>
      reject negb (bytes_eqb confirmation (str "finalized")) && negb (bytes_eqb confirmation (str "latest"))
        with Failure (str "environment variable NETWORK_CONFIRMATION_MODE_" ++ suffix ++ str " must be finalized or latest") in
      Ok (bytes_eqb confirmation (str "latest"))
  end.

Definition loadNetwork (lookup : lookupFn) (mode : Mode) (definition : networkDefinition) (global : RuntimePolicy) : result ConfigError Network :=
  let suffix := asciiUpper (Def_name definition) in
  let! p1 := loadProvider lookup suffix (Def_name definition) (str "1") in
  let! p2 := loadProvider lookup suffix (Def_name definition) (str "2") in
  let! _ := distinctEndpoints suffix p1 p2 in
  let! broadcast := loadBroadcast lookup mode suffix [snd (fst p1); snd (fst p2)] in
  let! manifest := requiredValue lookup (str "RESCUER_MANIFEST_" ++ suffix) in
  let! provenance := loadManifestSourceProvenance lookup suffix in
  let! policy := loadTokenPolicy lookup suffix (Def_tokens definition) in
  let '(tokens, trustedTokens, allowUnknown) := policy in
  let! profile := economicProfileFor (Def_name definition) in
  let! economicPolicy := loadEconomicPolicy lookup suffix profile global trustedTokens in
  let! claim := loadClaim lookup suffix (Def_chainID definition) tokens allowUnknown in
  let! latest := loadConfirmation lookup suffix in
  Ok (mkNetwork (Def_name definition) (Def_chainID definition) [fst (fst p1); fst (fst p2)] broadcast manifest
        (fst provenance) (snd provenance) tokens trustedTokens allowUnknown economicPolicy claim latest).

(** [registry[name]]; a missing name is the zero definition. *)
Definition registered (name : bytes) : networkDefinition :=
  match List.find (fun d => bytes_eqb (Def_name d) name) networkRegistry with
  | Some definition => definition
  | None => mkNetworkDefinition [] 0 []
  end.

Definition loadNetworks (lookup : lookupFn) (mode : Mode) (global : RuntimePolicy) : result ConfigError (list Network) :=
  let! names := enabledNetworkNames lookup in
  foldM (fun networks name =>
    let! network := loadNetwork lookup mode (registered name) global in
    Ok (networks ++ [network])) names [].

(** ** validate.go and mode.go: addresses and keys *)

Definition loadAddress (lookup : lookupFn) (name : bytes) : result ConfigError Address :=
  let! value := requiredValue lookup name in
  reject negb (IsHexAddress value) with Failure (str "environment variable " ++ name ++ str " contains an invalid EVM address") in
  let address := HexToAddress value in
  reject bytes_eqb address zeroAddress with Failure (str "environment variable " ++ name ++ str " contains the zero EVM address") in
  Ok address.

Definition loadPrivateKey (lookup : lookupFn) (name : bytes) : result ConfigError PrivateKey :=
  let! value := requiredValue lookup name in
  let material := if HasPrefix value (str "0x") then drop 2 value else value in
  let? key := HexToECDSA material orelse Failure (str "environment variable " ++ name ++ str " contains an invalid private key") in
  Ok key.

Record LiveSecrets := mkLiveSecrets {
  sourcePrivateKey : option PrivateKey;
  sponsorPrivateKey : option PrivateKey }.

Definition PrivateKeys (secrets : LiveSecrets) : option (PrivateKey * PrivateKey) :=
  match sourcePrivateKey secrets, sponsorPrivateKey secrets with
  | Some source, Some sponsor => Some (source, sponsor)
  | _, _ => None
  end.

Definition loadLiveSecrets (lookup : lookupFn) (mode : Mode) (emergencyStop : bool) : result ConfigError LiveSecrets :=
  if IsDryRun mode || emergencyStop then Ok (mkLiveSecrets None None)
  else
    let! source := loadPrivateKey lookup (str "SOURCE_PRIVATE_KEY") in
    let! sponsor := loadPrivateKey lookup (str "SPONSOR_PRIVATE_KEY") in
    Ok (mkLiveSecrets (Some source) (Some sponsor)).

(** ** schema.go: the fields and the runtime *)

Definition staticEnvironmentFields : list bytes :=
  [str "ABUSE_WINDOW"; str "ALERT_COOLDOWN"; str "CUMULATIVE_BUDGET_WEI"; str "DAILY_BUDGET_WEI"; str "DESTINATION_ADDRESS"; str "DRY_RUN";
   str "EMERGENCY_STOP"; str "ENABLED_NETWORKS"; str "HOURLY_BUDGET_WEI"; str "MAX_ATTEMPTS_PER_SOURCE_EVENT";
   str "MAX_ATTEMPTS_PER_TOKEN_WINDOW"; str "MAX_NEW_UNKNOWN_TOKENS_PER_WINDOW"; str "MAX_TRANSACTION_COST_WEI"; str "RATE_LIMIT_PER_MINUTE";
   str "RESCUER_ARTIFACT"; str "RPC_READ_TIMEOUT"; str "STATE_DIRECTORY"; str "SOURCE_ADDRESS"; str "SOURCE_PRIVATE_KEY";
   str "SPONSOR_ADDRESS"; str "SPONSOR_MIN_BALANCE_WEI"; str "SPONSOR_PRIVATE_KEY"; str "WATCH_LOOKBACK_BLOCKS"].

Definition environmentFieldTemplates : list bytes :=
  [str "CHAIN_OVERHEAD_MAX_WEI_<N>"; str "MAX_FEE_PER_GAS_WEI_<N>"; str "MAX_PRIORITY_FEE_PER_GAS_WEI_<N>"; str "NATIVE_GAS_LIMIT_<N>";
   str "NATIVE_MIN_NET_VALUE_WEI_<N>"; str "NETWORK_CUMULATIVE_BUDGET_WEI_<N>"; str "NETWORK_DAILY_BUDGET_WEI_<N>";
   str "NETWORK_HOURLY_BUDGET_WEI_<N>"; str "NETWORK_MAX_TRANSACTION_COST_WEI_<N>"; str "NETWORK_FEE_MODE_<N>";
   str "NETWORK_CONFIRMATION_MODE_<N>"; str "MIN_PRIORITY_FEE_PER_GAS_WEI_<N>"; str "CLAIM_REQUEST_<N>";
   str "NETWORK_SPONSOR_MIN_BALANCE_WEI_<N>"; str "RPC_READ_1_HTTP_<N>"; str "RPC_READ_1_WS_<N>"; str "RPC_READ_1_TRUST_DOMAIN_<N>";
   str "RPC_READ_2_HTTP_<N>"; str "RPC_READ_2_WS_<N>"; str "RPC_READ_2_TRUST_DOMAIN_<N>"; str "RPC_BROADCAST_HTTP_<N>";
   str "RESCUER_MANIFEST_<N>"; str "RESCUER_RELEASE_COMMIT_<N>"; str "TOKEN_MODE_<N>"; str "TOKEN_ALLOWLIST_<N>"; str "TOKEN_GAS_LIMIT_<N>";
   str "TOKEN_VALUE_RULES_<N>"; str "UNKNOWN_TOKEN_MAX_TRANSACTION_COST_WEI_<N>"].

Definition networkFields (name : bytes) : list bytes :=
  map (fun template => ReplaceAll template (str "<N>") (asciiUpper name)) environmentFieldTemplates.

Definition bytes_le (a b : bytes) : Prop := bytes_ltb b a = false.

#[export] Instance bytes_le_dec : RelDecision bytes_le.
Proof. intros a b. unfold bytes_le. apply _. Defined.

(** [sort.Strings] of all names. *)
Definition SupportedEnvironmentFields : list bytes :=
  merge_sort bytes_le (staticEnvironmentFields ++ flat_map (fun d => networkFields (Def_name d)) networkRegistry).

Definition rejectUnsupportedNames (names : list bytes) : result ConfigError unit :=
  foldM (fun _ name =>
    if bool_decide (name ∈ SupportedEnvironmentFields) || negb (reservedEnvironmentName name) then Ok tt
    else Err (Failure (str "environment variable " ++ name ++ str " is not supported"))) names tt.

Record Runtime := mkRuntime {
  Run_Mode : Mode;
  Run_SourceAddress : Address;
  Run_SponsorAddress : Address;
  Run_Destination : Address;
  Run_Networks : list Network;
  Run_Artifact : ArtifactTrust;
  Run_Policy : RuntimePolicy;
  Run_Watch : WatchPolicy;
  Run_ReadTimeout : Duration;
  Run_LiveSecrets : LiveSecrets }.

(** The lookup function is not nil. *)
Definition loadFrom (lookup : lookupFn) (names : list bytes) : result ConfigError Runtime :=
  let! _ := rejectUnsupportedFields lookup in
  let! _ := rejectUnsupportedNames names in
  let! mode := loadMode lookup in
  let! source := loadAddress lookup (str "SOURCE_ADDRESS") in
  let! sponsor := loadAddress lookup (str "SPONSOR_ADDRESS") in
  let! destination := loadAddress lookup (str "DESTINATION_ADDRESS") in
  let! _ := validateDistinctRoles source sponsor destination in
  let! artifact := loadArtifactTrust lookup in
  let! policy := loadRuntimePolicy lookup in
  let! networks := loadNetworks lookup mode policy in
  let! watch := loadWatchPolicy lookup in
  let! readTimeout := loadReadTimeout lookup in
  let! secrets := loadLiveSecrets lookup mode (RP_EmergencyStop policy) in
  Ok (mkRuntime mode source sponsor destination networks artifact policy watch readTimeout secrets).

(** A map: the pairs in the order Go visits them, no name twice. *)
Definition mapLookup (values : list (bytes * bytes)) : lookupFn :=
  fun name => option_map snd (List.find (fun e => bytes_eqb (fst e) name) values).

Definition LoadFrom (lookup : lookupFn) : result ConfigError Runtime := loadFrom lookup [].

Definition LoadFromMap (values : list (bytes * bytes)) : result ConfigError Runtime := loadFrom (mapLookup values) (map fst values).

(** ** schema.go: the dotenv file and the process environment *)

Definition unsafeFile : ConfigError := Failure (str "failed to read .env file safely").
Definition invalidFile : ConfigError := Failure (str ".env file contains invalid data").

Definition isFieldByte (b : byte) : bool := (65 <=? byteZ b) && (byteZ b <=? 90) || isDigit b || bool_decide (b = x5f).

(** [None] for a line that is refused, [Some None] for one without a field. *)
Definition strictDotEnvField (line : bytes) : option (option bytes) :=
  let trimmed := TrimSpace line in
  if bytes_eqb trimmed [] || HasPrefix trimmed (str "#") then Some None
  else
    match cutAt x3d trimmed with
    | Some ((first :: _) as name, _) =>
        if negb (bytes_eqb name (TrimSpace name)) || negb (forallb isFieldByte name) || isDigit first then None else Some (Some name)
    | _ => None
    end.

(** The tokens of [bufio.ScanLines]: the last line may lack its newline. *)
Definition scanLines (content : bytes) : list bytes :=
  let parts := splitAt x0a content in
  if bytes_eqb (List.last parts []) [] then removelast parts else parts.

Definition dropCR (line : bytes) : bytes := if bytes_eqb (List.last line x00 :: []) [x0d] then removelast line else line.

(** A line with its newline must fit the scanner's buffer of 64 KiB. *)
Definition maxLine : Z := 65535.

Definition isSecretName (name : bytes) : bool := bytes_eqb name (str "SOURCE_PRIVATE_KEY") || bytes_eqb name (str "SPONSOR_PRIVATE_KEY").

Definition dotEnvLine (acc : bytes * list bytes) (raw : bytes) : result ConfigError (bytes * list bytes) :=
  let '(public, names) := acc in
  reject maxLine <? len raw with unsafeFile in
  let line := dropCR raw in
  match strictDotEnvField line with
  | None => Err invalidFile
  | Some None => Ok (public ++ line ++ [x0a], names)
  | Some (Some name) => Ok (if isSecretName name then public else public ++ line ++ [x0a], names ++ [name])
  end.

Inductive DotEnvFile :=
| DotEnvMissing
| DotEnvUnreadable
| DotEnvContent (content : bytes) (readError : bool).

Definition readPublicDotEnv (file : DotEnvFile) : result ConfigError (list (bytes * bytes) * list bytes) :=
  match file with
  | DotEnvMissing => Ok ([], [])
  | DotEnvUnreadable => Err unsafeFile
  | DotEnvContent content readError =>
      let! acc := foldM dotEnvLine (scanLines content) ([], []) in
      reject readError with unsafeFile in
      let? values := godotenv_Unmarshal (fst acc) orelse invalidFile in
      Ok (values, snd acc)
  end.

(** The process: its environment ([os.Environ]) and the files it can read. *)
Record Process := mkProcess {
  Proc_environ : list bytes;
  Proc_file : bytes -> DotEnvFile }.

Definition processEnvironmentNames (environ : list bytes) : list bytes :=
  omap (fun assignment => option_map fst (cutAt x3d assignment)) environ.

Definition LookupEnv (environ : list bytes) : lookupFn :=
  fun name => mapLookup (omap (cutAt x3d) environ) name.

Definition configPath (environ : list bytes) : bytes :=
  match LookupEnv environ (str "GUARD_DAEMON_CONFIG") with Some (b :: path) => b :: path | _ => str ".env" end.

Definition runtimeLookup (environ : list bytes) (dotenv secrets : list (bytes * bytes)) (credentialsOnly : bool) : lookupFn :=
  fun name =>
    if credentialsOnly && isSecretName name then
      match mapLookup secrets name with Some (b :: value) => Some (b :: value) | _ => None end
    else match LookupEnv environ name with Some value => Some value | None => mapLookup dotenv name end.

Definition loadRuntime (process : Process) (secrets : list (bytes * bytes)) (credentialsOnly : bool) : result ConfigError Runtime :=
  let environ := Proc_environ process in
  let! public := readPublicDotEnv (Proc_file process (configPath environ)) in
  let names := snd public ++ processEnvironmentNames environ ++ map fst (List.filter (fun e => negb (bytes_eqb (snd e) [])) secrets) in
  loadFrom (runtimeLookup environ (fst public) secrets credentialsOnly) names.

Definition Load (process : Process) : result ConfigError Runtime := loadRuntime process [] false.

Definition secretNames : list bytes := [str "SOURCE_PRIVATE_KEY"; str "SPONSOR_PRIVATE_KEY"].

Definition LoadWithSecrets (process : Process) (secrets : list (bytes * bytes)) : result ConfigError Runtime :=
  let! _ := foldM (fun _ name =>
    match LookupEnv (Proc_environ process) name with
    | Some _ => Err (Failure (str "environment variable " ++ name ++ str " is forbidden; use the systemd credentials mechanism"))
    | None => Ok tt
    end) secretNames tt in
  let! runtime := loadRuntime process secrets true in
  if IsDryRun (Run_Mode runtime) || RP_EmergencyStop (Run_Policy runtime) then
    let! _ := foldM (fun _ name =>
      match mapLookup secrets name with
      | Some (_ :: _) => Err (Failure (str "credential " ++ name ++ str " must be empty when signing is disabled"))
      | _ => Ok tt
      end) secretNames tt in
    Ok runtime
  else Ok runtime.

(** ** What is printed of a configuration *)

Definition ArtifactTrust_Format (_ : ArtifactTrust) : bytes := str "ArtifactTrust{pinned}".
Definition LiveSecrets_Format (_ : LiveSecrets) : bytes := str "LiveSecrets{redacted}".
Definition WatchPolicy_Format (policy : WatchPolicy) : bytes := str "WatchPolicy{LookbackBlocks:" ++ decString (WP_LookbackBlocks policy) ++ str "}".
Definition ReadProvider_Format (provider : ReadProvider) : bytes :=
  str "ReadProvider{ID:" ++ RPv_ID provider ++ str " EndpointFingerprint:" ++ RPv_EndpointFingerprint provider ++ str "}".

(** [strconv.FormatInt] of a chain number, which is not negative. *)
Definition Network_Format (network : Network) : bytes :=
  str "Network{Name:" ++ Net_Name network ++ str " ChainID:" ++ decString (Net_ChainID network)
  ++ str " ReadProviders:" ++ decString (Z.of_nat (length (Net_ReadProviders network))) ++ str "}".

Definition Runtime_Format (runtime : Runtime) : bytes :=
  str "Runtime{Mode:" ++ Mode_String (Run_Mode runtime) ++ str " Networks:" ++ decString (Z.of_nat (length (Run_Networks runtime))) ++ str "}".

End Loading.

End ConfigNetworks.
Export ConfigNetworks.
