(* ===== verification/ConfigRuntime.v ===== *)
(** * What a loaded configuration guarantees

    Well-formedness predicates for each part of the configuration, and the lemmas
    that every loader establishes its own: numbers and durations in range, budgets
    ordered and within the global ones, the dearest transaction within the cap of
    its network, distinct roles, providers, tokens and rules ([ConfigTheorems]).
    Each network of a loaded configuration is one of the registry with two distinct
    providers, sound tokens and economics; the runtime has distinct roles and keys
    exactly when it may sign ([ConfigRuntime]). *)

From S2P Require Import Prelude GoTime Bytes Sha256 Domain GoText Configuration ConfigNetworks.
From Stdlib Require Import Strings.Byte.
From Stdlib Require Strings.String.
Import Strings.String.StringSyntax.

Module ConfigTheorems.

#[global] Arguments str s%_string_scope : simpl never.

(** ** Values *)

Lemma loadDecimal_ok lookup name d zero n :
  loadDecimal lookup name d zero = Ok n -> 0 <= n < 2 ^ 256 /\ (zero = false -> 0 < n) /\ n = decValue (valueOr lookup name d).
Proof.
  unfold loadDecimal. ok E. ok E'. intros [= <-]. unfold exceeds256, uint256Max in E'. bool_hyps.
  split; [lia|]. split; [|done]. intros ->. cbn in *. bool_hyps. lia.
Qed.

Lemma loadPositiveDecimal_ok lookup name d n : loadPositiveDecimal lookup name d = Ok n -> 0 < n < 2 ^ 256.
Proof. intros (H & Hp & _)%loadDecimal_ok. specialize (Hp eq_refl). lia. Qed.

Lemma loadNonNegativeDecimal_ok lookup name d n : loadNonNegativeDecimal lookup name d = Ok n -> 0 <= n < 2 ^ 256.
Proof. by intros (H & _)%loadDecimal_ok. Qed.

Lemma decimalDigits_nonneg value : decimalDigits value = true -> 0 <= decValue value.
Proof. unfold decimalDigits. intros H. bool_hyps. by apply decValue_nonneg. Qed.

Lemma loadPositiveUint_ok bits lookup name d n : loadPositiveUint bits lookup name d = Ok n -> 0 < n < 2 ^ bits.
Proof.
  unfold loadPositiveUint. ok E. ok E'. ok E''. intros [= <-]. apply ParseUint_range in E' as [-> Hlt]. bool_hyps.
  apply decimalDigits_nonneg in E. lia.
Qed.

Lemma loadPositiveDuration_ok lookup name d n : loadPositiveDuration lookup name d = Ok n -> 0 < n < 2 ^ 63.
Proof. unfold loadPositiveDuration. ok E. ok E'. ok E''. intros [= <-]. apply duration_fits in E'. bool_hyps. lia. Qed.

Lemma requiredValue_ok lookup name value : requiredValue lookup name = Ok value -> lookup name = Some value /\ value <> [].
Proof. unfold requiredValue. destruct (lookup name) as [[|b v]|]; try done. by intros [= <-]. Qed.

(** ** The global policy *)

Record policy_sound (p : RuntimePolicy) : Prop := {
  ps_max : 0 < RP_MaxTransactionCostWei p <= RP_HourlyBudgetWei p;
  ps_hourly : RP_HourlyBudgetWei p <= RP_DailyBudgetWei p <= RP_CumulativeBudgetWei p;
  ps_cumulative : RP_CumulativeBudgetWei p < 2 ^ 256;
  ps_reserve : 0 < RP_SponsorMinimumBalanceWei p < 2 ^ 256;
  ps_rate : 0 < RP_RateLimitPerMinute p < 2 ^ 32;
  ps_window : 0 < RP_AbuseWindow p < 2 ^ 63;
  ps_unknown : 0 < RP_MaxNewUnknownTokensPerWindow p < 2 ^ 32;
  ps_token : 0 < RP_MaxAttemptsPerTokenWindow p < 2 ^ 32;
  ps_source : 0 < RP_MaxAttemptsPerSourceEvent p < 2 ^ 32;
  ps_cooldown : 0 < RP_AlertCooldown p < 2 ^ 63 }.

(** Turn the facts [loader = Ok value] of the context into ranges. *)
Ltac ranges :=
  repeat match goal with
  | H : loadPositiveDecimal _ _ _ = Ok _ |- _ => apply loadPositiveDecimal_ok in H
  | H : loadNonNegativeDecimal _ _ _ = Ok _ |- _ => apply loadNonNegativeDecimal_ok in H
  | H : loadPositiveUint32 _ _ _ = Ok _ |- _ => apply loadPositiveUint_ok in H
  | H : loadPositiveUint64 _ _ _ = Ok _ |- _ => apply loadPositiveUint_ok in H
  | H : loadPositiveDuration _ _ _ = Ok _ |- _ => apply loadPositiveDuration_ok in H
  end; bool_hyps.

Lemma loadRuntimePolicy_sound lookup p : loadRuntimePolicy lookup = Ok p -> policy_sound p.
Proof. unfold loadRuntimePolicy. repeat ok. intros [= <-]. ranges. constructor; cbn; lia. Qed.

Record watch_sound (w : WatchPolicy) : Prop := {
  ws_directory : WP_StateDirectory w <> [] /\ (x00 ∉ WP_StateDirectory w) /\ Clean (WP_StateDirectory w) = WP_StateDirectory w;
  ws_lookback : 0 < WP_LookbackBlocks w <= maxLookbackBlocks }.

Lemma loadWatchPolicy_sound lookup w : loadWatchPolicy lookup = Ok w -> watch_sound w.
Proof.
  unfold loadWatchPolicy. ok E. ok E1. ok E2. ok E3. ok E4. intros [= <-]. apply ParseUint_range in E2 as [-> _].
  unfold containsByte, bytes_eqb in E. bool_hyps. apply decimalDigits_nonneg in E1. constructor; cbn [WP_StateDirectory WP_LookbackBlocks]; [done|lia].
Qed.

(** ** The economic policy of a network *)

Record rules_sound (trusted : list Address) (maxCost : Z) (rules : list TokenValueRule) : Prop := {
  rs_nodup : NoDup (map Rule_Address rules);
  rs_each : Forall (fun r => Rule_Address r ∈ trusted /\ Rule_Address r <> zeroAddress /\ 0 < Rule_MinimumBalance r < 2 ^ 256 /\
                             0 < Rule_MaxTransactionCostWei r <= maxCost /\ Rule_MaxTransactionCostWei r < 2 ^ 256) rules }.

Record economics_sound (global : RuntimePolicy) (trusted : list Address) (e : EconomicPolicy) : Prop := {
  es_max : 0 < Econ_MaxTransactionCostWei e <= Econ_HourlyBudgetWei e;
  es_hourly : Econ_HourlyBudgetWei e <= Econ_DailyBudgetWei e <= Econ_CumulativeBudgetWei e;
  es_global : Econ_MaxTransactionCostWei e <= RP_MaxTransactionCostWei global /\ Econ_HourlyBudgetWei e <= RP_HourlyBudgetWei global /\
              Econ_DailyBudgetWei e <= RP_DailyBudgetWei global /\ Econ_CumulativeBudgetWei e <= RP_CumulativeBudgetWei global;
  es_reserve : RP_SponsorMinimumBalanceWei global <= Econ_SponsorMinimumBalanceWei e < 2 ^ 256;
  es_fee : 0 < Econ_MaxPriorityFeePerGasWei e <= Econ_MaxFeePerGasWei e;
  es_fee_range : Econ_MaxFeePerGasWei e < 2 ^ 256;
  es_min_fee : 0 <= Econ_MinPriorityFeePerGasWei e <= Econ_MaxPriorityFeePerGasWei e;
  es_gas : 0 < Econ_TokenGasLimit e < 2 ^ 64 /\ 0 < Econ_NativeGasLimit e < 2 ^ 64;
  es_overhead : 0 <= Econ_TransactionOverheadWei e < 2 ^ 256;
  es_dearest : Econ_TokenGasLimit e * Econ_MaxFeePerGasWei e + Econ_TransactionOverheadWei e <= Econ_MaxTransactionCostWei e /\
               Econ_NativeGasLimit e * Econ_MaxFeePerGasWei e + Econ_TransactionOverheadWei e <= Econ_MaxTransactionCostWei e;
  es_native : 0 < Econ_NativeMinimumNetValueWei e < 2 ^ 256;
  es_unknown : 0 < Econ_UnknownTokenMaxTransactionCostWei e <= Econ_MaxTransactionCostWei e;
  es_rules : rules_sound trusted (Econ_MaxTransactionCostWei e) (Econ_TokenValueRules e) }.

Section Loading.
Context {CL : ConfigLib}.

Lemma addValueRule_sound name trusted maxCost rules encoded rules' :
  rules_sound trusted maxCost rules -> addValueRule name trusted maxCost rules encoded = Ok rules' -> rules_sound trusted maxCost rules'.
Proof.
  intros [Hn He]. unfold addValueRule. destruct (splitAt _ _) as [|a [|b [|c [|? ?]]]]; try done.
  ok E. ok E'. intros [= <-]. unfold exceeds256, uint256Max, bytes_eqb in E'. bool_hyps. constructor.
  - rewrite map_app, NoDup_app. cbn. split; [done|]. split; [set_solver|apply NoDup_singleton].
  - apply Forall_app. split; [done|]. constructor; [cbn; repeat split; try done; lia|done].
Qed.

Lemma loadTokenValueRules_sound lookup suffix trusted maxCost rules :
  loadTokenValueRules lookup suffix trusted maxCost = Ok rules -> rules_sound trusted maxCost rules.
Proof.
  unfold loadTokenValueRules. destruct (lookup _) as [value|]; [|intros [= <-]; constructor; [apply NoDup_nil_2|done]].
  ok E. apply (foldM_invariant (fun _ => rules_sound trusted maxCost)); [constructor; [apply NoDup_nil_2|done]|].
  intros pre rules1 encoded rules2. apply addValueRule_sound.
Qed.

Lemma validateMaximumGasCost_ok a gas b fee c overhead d limit :
  validateMaximumGasCost a gas b fee c overhead d limit = Ok tt -> gas * fee + overhead <= limit.
Proof. unfold validateMaximumGasCost. ok E. intros _. bool_hyps. lia. Qed.

Lemma loadEconomicPolicy_sound lookup suffix profile global trusted e :
  loadEconomicPolicy lookup suffix profile global trusted = Ok e -> economics_sound global trusted e.
Proof.
  unfold loadEconomicPolicy. repeat ok. intros [= <-].
  repeat match goal with
  | H : validateMaximumGasCost _ _ _ _ _ _ _ _ = Ok ?u |- _ => destruct u; apply validateMaximumGasCost_ok in H
  | H : loadTokenValueRules _ _ _ _ = Ok _ |- _ => apply loadTokenValueRules_sound in H
  end.
  ranges.
  constructor; cbn -[Z.pow]; first [lia | assumption].
Qed.

End Loading.

(** ** The registry *)

(** The bytes of a literal [0x] followed by forty hexadecimal digits. *)
Definition hexLiteral (s : bytes) : option bytes :=
  if HasPrefix s (str "0x") && (Z.of_nat (length (drop 2 s)) =? 40) then hexDecode (drop 2 s) else None.

(** What the configuration relies on of its libraries. *)
Class ConfigLaws (CL : ConfigLib) : Prop := {
  hexAddress_literal s address : hexLiteral s = Some address -> HexToAddress s = address;
  hexAddress_length s : isAddress (HexToAddress s);
  toLower_ascii s : isAscii s = true -> ToLower s = asciiLower s;
  equalFold_ascii a b : isAscii a = true -> isAscii b = true -> EqualFold a b = bytes_eqb (asciiLower a) (asciiLower b);
  decodeClaim_typed content document : decodeClaim content = Some document -> inU 64 (Doc_GasLimit document) /\ inU 64 (Doc_ValidUntil document) }.

Section Registry.
Context {CL : ConfigLib} {LA : ConfigLaws CL}.

(** ** Tokens *)

Record tokens_sound (tokens : list Token) (trusted : list Address) : Prop := {
  ts_nodup : NoDup (map Token_Address tokens);
  ts_typed : Forall isAddress (map Token_Address tokens);
  ts_nonzero : zeroAddress ∉ map Token_Address tokens;
  ts_trusted : trusted ⊆ map Token_Address tokens;
  ts_trusted_nodup : NoDup trusted }.

Lemma tokens_sound_known tokens :
  NoDup (map Token_Address tokens) -> Forall isAddress (map Token_Address tokens) -> zeroAddress ∉ map Token_Address tokens -> tokens_sound tokens (trustedTokenAddresses tokens).
Proof. by constructor. Qed.

Lemma tokens_sound_snoc tokens trusted t known :
  tokens_sound tokens trusted -> Token_Address t ∉ map Token_Address tokens -> Token_Address t <> zeroAddress -> isAddress (Token_Address t) ->
  tokens_sound (tokens ++ [t]) (if known : bool then trusted ++ [Token_Address t] else trusted).
Proof.
  intros [H1 Ht H2 H3 H4] Hn Hz Hl. constructor; rewrite ?map_app; cbn.
  - apply NoDup_app. split; [done|]. split; [set_solver|apply NoDup_singleton].
  - apply Forall_app. split; [done|]. by constructor.
  - set_solver.
  - destruct known; set_solver.
  - destruct known; [|done]. apply NoDup_app. split; [done|]. split; [set_solver|apply NoDup_singleton].
Qed.

Lemma addAllowedToken_sound name known acc part acc' :
  tokens_sound acc.1 acc.2 -> addAllowedToken name known acc part = Ok acc' -> tokens_sound acc'.1 acc'.2.
Proof.
  destruct acc as [tokens trusted]. cbn. intros Hs. unfold addAllowedToken. ok E. ok E1. ok E2. unfold bytes_eqb in *. bool_hyps.
  destruct (metadataOf _ _); intros [= <-]; cbn.
  - apply (tokens_sound_snoc tokens trusted (mkToken _ _ _) true); try done. apply hexAddress_length.
  - apply (tokens_sound_snoc tokens trusted (mkToken _ _ _) false); try done. apply hexAddress_length.
Qed.

Lemma parseTokenAllowlist_sound name value known tokens trusted unknown :
  parseTokenAllowlist name value known = Ok (tokens, trusted, unknown) -> tokens_sound tokens trusted.
Proof.
  unfold parseTokenAllowlist. ok E. intros [= <- <- <-].
  apply (foldM_invariant (fun _ (acc : list Token * list Address) => tokens_sound acc.1 acc.2)) in E; [done| |].
  - constructor; cbn; try apply NoDup_nil_2; try apply List.Forall_nil; set_solver.
  - intros pre acc1 x acc2. apply addAllowedToken_sound.
Qed.

Lemma loadTokenPolicy_sound lookup suffix known tokens trusted unknown :
  NoDup (map Token_Address known) -> Forall isAddress (map Token_Address known) -> zeroAddress ∉ map Token_Address known ->
  loadTokenPolicy lookup suffix known = Ok (tokens, trusted, unknown) -> tokens_sound tokens trusted.
Proof.
  intros Hn Hl Hz. unfold loadTokenPolicy. destruct (bytes_eqb _ _); [ok E; intros [= <- <- <-]; by apply tokens_sound_known|].
  destruct (bytes_eqb _ _); [ok E; intros [= <- <- <-]; by apply tokens_sound_known|].
  destruct (bytes_eqb _ _); [|done]. destruct (lookup _) as [[|b value]|]; try done. apply parseTokenAllowlist_sound.
Qed.


Definition definition_sound (d : networkDefinition) : Prop :=
  NoDup (map Token_Address (Def_tokens d)) /\ Forall isAddress (map Token_Address (Def_tokens d)) /\ (zeroAddress ∉ map Token_Address (Def_tokens d)) /\ 0 < Def_chainID d < 2 ^ 63 /\
  isOk (economicProfileFor (Def_name d)) = true /\ (asciiUpper (Def_name d) = str "BASE" -> Def_chainID d = 8453).

Lemma registry_sound : Forall definition_sound networkRegistry.
Proof.
  unfold networkRegistry, token.
  repeat (erewrite hexAddress_literal; [|vm_compute; reflexivity]).
  repeat apply List.Forall_cons; [..|apply List.Forall_nil]; unfold definition_sound; cbn [map Token_Address Def_tokens Def_chainID Def_name];
    (split; [apply (bool_decide_eq_true_1 _); vm_compute; reflexivity|]; split; [repeat (apply List.Forall_cons; [reflexivity|]); apply List.Forall_nil|]; split; [apply (bool_decide_eq_true_1 _); vm_compute; reflexivity|];
     split; [lia|]; split; [vm_compute; reflexivity|]; first [done | intros H; vm_compute in H; discriminate H]).
Qed.

Lemma registry_names : NoDup (map Def_name networkRegistry) /\ NoDup (map Def_chainID networkRegistry).
Proof. split; apply (bool_decide_eq_true_1 _); vm_compute; reflexivity. Qed.

End Registry.

End ConfigTheorems.
Export ConfigTheorems.

Module ConfigRuntime.

(** A loop that appends the value of a call on each element. *)
Lemma foldM_collect {E A B} (f : A -> result E B) l acc r :
  foldM (fun acc x => let! y := f x in Ok (acc ++ [y])) l acc = Ok r -> exists ys, r = acc ++ ys /\ Forall2 (fun x y => f x = Ok y) l ys.
Proof.
  revert acc. induction l as [|x l IH]; intros acc; cbn; [intros [= <-]; exists []; by rewrite app_nil_r|].
  destruct (f x) as [y|e] eqn:Ef; cbn; [|done]. intros (ys & -> & Hf)%IH. exists (y :: ys). rewrite <-app_assoc. split; [done|]. by constructor.
Qed.

Lemma NoDup_map_inj {A B} (f : A -> B) l x y : NoDup (map f l) -> x ∈ l -> y ∈ l -> f x = f y -> x = y.
Proof.
  induction l as [|z l IH]; cbn; [set_solver|]. intros [Hz Hn]%NoDup_cons Hx Hy Hf.
  apply elem_of_cons in Hx as [->|Hx], Hy as [->|Hy]; [done| | |by apply IH].
  - destruct Hz. rewrite Hf. by apply list_elem_of_fmap_2.
  - destruct Hz. rewrite <-Hf. by apply list_elem_of_fmap_2.
Qed.

Section Runtime.
Context {CL : ConfigLib} {LA : ConfigLaws CL}.

(** ** Providers *)

Record providers_sound (name : bytes) (providers : list ReadProvider) : Prop := {
  pv_pair : exists p1 p2, providers = [p1; p2] /\
    RPv_ID p1 = name ++ str "-read-1" /\ RPv_ID p2 = name ++ str "-read-2" /\
    RPv_EndpointFingerprint p1 <> RPv_EndpointFingerprint p2 /\
    EqualFold (RPv_TrustDomain p1) (RPv_TrustDomain p2) = false;
  pv_trimmed : Forall (fun p => TrimSpace (RPv_TrustDomain p) = RPv_TrustDomain p /\ RPv_TrustDomain p <> []) providers;
  pv_hex : Forall (fun p => exists digest, isHash digest /\ RPv_EndpointFingerprint p = hexEncode digest) providers }.

Lemma loadProvider_ok lookup suffix name index p http ws :
  loadProvider lookup suffix name index = Ok (p, http, ws) ->
  RPv_ID p = name ++ str "-read-" ++ index /\ RPv_EndpointFingerprint p = hexEncode (sha256 http) /\
  TrimSpace (RPv_TrustDomain p) = RPv_TrustDomain p /\ RPv_TrustDomain p <> [].
Proof using CL.
  clear LA.
  unfold loadProvider. do 5 ok. ok Et. intros [= <- <- <-].
  repeat match goal with H : requiredValue _ _ = Ok _ |- _ => apply requiredValue_ok in H as [_ H] end.
  unfold bytes_eqb in Et. bool_hyps. done.
Qed.

Lemma providers_ok lookup suffix name p1 http1 ws1 p2 http2 ws2 :
  loadProvider lookup suffix name (str "1") = Ok (p1, http1, ws1) -> loadProvider lookup suffix name (str "2") = Ok (p2, http2, ws2) ->
  distinctEndpoints suffix (p1, http1, ws1) (p2, http2, ws2) = Ok tt -> providers_sound name [p1; p2].
Proof using CL.
  clear LA.
  intros (Hi1 & Hf1 & Ht1 & Hn1)%loadProvider_ok (Hi2 & Hf2 & Ht2 & Hn2)%loadProvider_ok.
  unfold distinctEndpoints. ok E. ok E1. ok E2. intros _. unfold bytes_eqb in E. bool_hyps. constructor.
  - exists p1, p2. done.
  - repeat constructor; done.
  - repeat apply List.Forall_cons; [exists (sha256 http1)|exists (sha256 http2)|apply List.Forall_nil]; (split; [apply sha256_length|done]).
Qed.

(** ** Networks *)

Record network_sound (mode : Mode) (global : RuntimePolicy) (n : Network) : Prop := {
  ns_registered : exists d, d ∈ networkRegistry /\ Net_Name n = Def_name d /\ Net_ChainID n = Def_chainID d;
  ns_chain : 0 < Net_ChainID n < 2 ^ 63;
  ns_providers : providers_sound (Net_Name n) (Net_ReadProviders n);
  ns_dry : mode = ModeDryRun -> Net_BroadcastHTTP n = [];
  ns_live : mode = ModeLive -> Net_BroadcastHTTP n <> [];
  ns_tokens : tokens_sound (Net_Tokens n) (Net_TrustedTokens n);
  ns_economics : economics_sound global (Net_TrustedTokens n) (Net_EconomicPolicy n);
  ns_estimated : Econ_EstimatedBaseFees (Net_EconomicPolicy n) = true -> Net_ChainID n = 8453;
  ns_claim : forall plan, Net_Claim n = Some plan ->
    ClaimPlan_Validate plan = Ok tt /\ plan_typed plan /\ (Net_AllowUnknownTokens n = true \/ Plan_Token plan ∈ map Token_Address (Net_Tokens n)) }.

Lemma loadBroadcast_ok lookup mode suffix canonical broadcast :
  loadBroadcast lookup mode suffix canonical = Ok broadcast ->
  (mode = ModeDryRun -> broadcast = []) /\ (mode = ModeLive -> broadcast <> []).
Proof using CL.
  clear LA.
  unfold loadBroadcast. ok E. ok E1. unfold valueOr in *. intros Hb. split; intros ->; cbn in *.
  - destruct (lookup _); [done|]. rewrite bytes_eqb_refl in Hb. congruence.
  - destruct (bytes_eqb _ []) eqn:E2; [done|]. unfold bytes_eqb in E2. bool_hyps.
    destruct (validateEndpoint _ _ _); [|done]. revert Hb. ok E3. congruence.
Qed.

Lemma loadEconomicPolicy_estimated lookup suffix profile global trusted e :
  loadEconomicPolicy lookup suffix profile global trusted = Ok e -> Econ_EstimatedBaseFees e = true -> suffix = str "BASE".
Proof using CL.
  clear LA.
  unfold loadEconomicPolicy. generalize (lookup (str "NETWORK_FEE_MODE_" ++ suffix)). intros feeMode.
  ok E. repeat ok. intros [= <-]. cbn [Econ_EstimatedBaseFees]. intros H. bool_hyps. subst feeMode.
  unfold validFeeMode in E. apply orb_true_iff in E as [E|E]; [vm_compute in E; discriminate E|].
  apply andb_true_iff in E as [_ E]. by apply bytes_eqb_spec.
Qed.

Lemma claimAmount_ok failure encoded n : claimAmount failure encoded = Ok n -> inU 256 n.
Proof using CL.
  clear LA.
  unfold claimAmount. ok E. intros [= <-]. unfold exceeds256, uint256Max in E. bool_hyps.
  apply decimalDigits_nonneg in H. split; lia.
Qed.

Lemma claimPlanOf_ok failure chain document plan :
  inU 64 (Doc_GasLimit document) -> inU 64 (Doc_ValidUntil document) ->
  claimPlanOf failure chain document = Ok plan -> ClaimPlan_Validate plan = Ok tt /\ plan_typed plan.
Proof.
  intros Hg Hv. unfold claimPlanOf. do 5 ok. ok E5. intros [= <-].
  repeat match goal with H : claimAmount _ _ = Ok _ |- _ => apply claimAmount_ok in H end.
  match type of E5 with errOr _ (ClaimPlan_Validate ?p) = _ => destruct (ClaimPlan_Validate p) as [[]|] eqn:Ev; [|done] end.
  split; [done|]. revert Ev. unfold ClaimPlan_Validate. ok Er. intros _. bool_hyps.
  constructor; cbn [Plan_Target Plan_Token Plan_Value Plan_MinimumReceived Plan_MaximumCost Plan_GasLimit Plan_ValidUntil Plan_Data] in *;
    try assumption; try apply hexAddress_length. split; [apply len_nonneg|lia].
Qed.

Lemma loadClaim_ok lookup suffix chain tokens unknown plan :
  loadClaim lookup suffix chain tokens unknown = Ok (Some plan) ->
  ClaimPlan_Validate plan = Ok tt /\ plan_typed plan /\ (unknown = true \/ Plan_Token plan ∈ map Token_Address tokens).
Proof.
  unfold loadClaim. destruct (lookup _) as [path|]; [|done]. ok E. ok E1. ok E2. ok E3. destruct (decodeClaim_typed _ _ E2) as [Hg Hv].
  apply claimPlanOf_ok in E3 as [Hval Ht]; [|done..]. destruct unknown; [intros [= <-]; auto|]. ok E4. intros [= <-]. bool_hyps. auto.
Qed.

Lemma loadNetwork_sound lookup mode d global n :
  d ∈ networkRegistry -> loadNetwork lookup mode d global = Ok n -> network_sound mode global n.
Proof.
  intros Hd. pose proof registry_sound as Hr. rewrite Forall_forall in Hr. destruct (Hr d Hd) as (Hn & Hl & Hz & Hc & _ & Hbase).
  unfold loadNetwork. ok E1. destruct a as [[p1 http1] ws1]. ok E2. destruct a as [[p2 http2] ws2]. ok E3. destruct a.
  ok E4. ok E5. ok E6. ok E7. destruct a2 as [[tokens trusted] unknown]. do 4 ok. intros [= <-].
  apply loadBroadcast_ok in E4 as [Hdry Hlive].
  constructor; cbn [Net_Name Net_ChainID Net_ReadProviders Net_BroadcastHTTP Net_Tokens Net_TrustedTokens Net_EconomicPolicy Net_Claim Net_AllowUnknownTokens fst];
    try assumption.
  - eauto.
  - by eapply providers_ok.
  - by eapply loadTokenPolicy_sound.
  - by eapply loadEconomicPolicy_sound.
  - intros He. apply Hbase. by eapply loadEconomicPolicy_estimated.
  - intros plan ->. by eapply loadClaim_ok.
Qed.

Lemma loadNetwork_name lookup mode d global n : loadNetwork lookup mode d global = Ok n -> Net_Name n = Def_name d.
Proof using CL.
  clear LA.
  unfold loadNetwork. do 6 ok. match goal with |- context [loadTokenPolicy ?l ?s ?k] => destruct (loadTokenPolicy l s k) as [[[??]?]|] end; [|done].
  repeat ok. by intros [= <-].
Qed.

Lemma enabledName_ok names part names' :
  enabledName names part = Ok names' -> NoDup names -> Forall (fun n => n ∈ map Def_name networkRegistry) names ->
  NoDup names' /\ Forall (fun n => n ∈ map Def_name networkRegistry) names' /\ names' <> [].
Proof using CL.
  clear LA.
  unfold enabledName. ok E. ok E1. ok E2. ok E3. intros [= <-] Hn Hf. bool_hyps. split; [|split].
  - apply NoDup_app. split; [done|]. split; [set_solver|apply NoDup_singleton].
  - apply Forall_app. split; [done|]. by constructor.
  - by destruct names.
Qed.

Lemma enabledNetworkNames_ok lookup names :
  enabledNetworkNames lookup = Ok names -> NoDup names /\ Forall (fun n => n ∈ map Def_name networkRegistry) names /\ names <> [].
Proof using CL.
  clear LA.
  unfold enabledNetworkNames. ok E. intros Hf. destruct (split_join x2c a) as (_ & _ & Hne).
  apply (foldM_invariant (fun pre names => NoDup names /\ Forall (fun n => n ∈ map Def_name networkRegistry) names /\ (pre <> [] -> names <> []))) in Hf.
  - intuition.
  - split; [apply NoDup_nil_2|done].
  - intros pre names1 part names2 (Hn & Ha & _) Hs. destruct (enabledName_ok _ _ _ Hs Hn Ha) as (? & ? & ?). done.
Qed.

Lemma registered_ok name : name ∈ map Def_name networkRegistry -> registered name ∈ networkRegistry /\ Def_name (registered name) = name.
Proof using CL.
  clear LA.
  unfold registered. intros (d & -> & Hd)%list_elem_of_fmap. destruct (List.find _ _) as [d'|] eqn:Ef.
  - apply List.find_some in Ef as [Hin Hb]. apply bytes_eqb_spec in Hb. by apply list_elem_of_In in Hin.
  - apply list_elem_of_In in Hd. pose proof (List.find_none _ _ Ef d Hd) as Hb. cbn in Hb. by rewrite bytes_eqb_refl in Hb.
Qed.

Lemma loadNetworks_sound lookup mode global networks :
  loadNetworks lookup mode global = Ok networks ->
  Forall (network_sound mode global) networks /\ NoDup (map Net_Name networks) /\ networks <> [].
Proof.
  unfold loadNetworks. ok E. apply enabledNetworkNames_ok in E as (Hn & Hin & Hne). intros (ys & -> & Hf)%foldM_collect. cbn.
  assert (map Net_Name ys = a) as Hnames.
  { clear -Hf Hin. induction Hf as [|x y l l' Hx Hf IH]; [done|]. apply Forall_cons_1 in Hin as [Hx' Hin]. cbn. f_equal; [|by apply IH].
    apply registered_ok in Hx' as [_ <-]. by eapply loadNetwork_name. }
  split; [|split; [by rewrite Hnames|intros ->; by inv Hf]].
  clear -Hf Hin LA. induction Hf as [|x y l l' Hx Hf IH]; [done|]. apply Forall_cons_1 in Hin as [Hx' Hin]. constructor; [|by apply IH].
  apply registered_ok in Hx' as [Hx' _]. by eapply loadNetwork_sound.
Qed.

(** ** The runtime *)

Record runtime_sound (r : Runtime) : Prop := {
  rt_nonzero : Run_SourceAddress r <> zeroAddress /\ Run_SponsorAddress r <> zeroAddress /\ Run_Destination r <> zeroAddress;
  rt_distinct : Run_SourceAddress r <> Run_SponsorAddress r /\ Run_SourceAddress r <> Run_Destination r /\ Run_SponsorAddress r <> Run_Destination r;
  rt_addresses : isAddress (Run_SourceAddress r) /\ isAddress (Run_SponsorAddress r) /\ isAddress (Run_Destination r);
  rt_policy : policy_sound (Run_Policy r);
  rt_networks : Forall (network_sound (Run_Mode r) (Run_Policy r)) (Run_Networks r);
  rt_some : Run_Networks r <> [];
  rt_names : NoDup (map Net_Name (Run_Networks r));
  rt_watch : watch_sound (Run_Watch r);
  rt_timeout : 0 < Run_ReadTimeout r < 2 ^ 63;
  rt_keys : is_Some (PrivateKeys (Run_LiveSecrets r)) <-> Run_Mode r = ModeLive /\ RP_EmergencyStop (Run_Policy r) = false;
  rt_no_keys : PrivateKeys (Run_LiveSecrets r) = None -> Run_LiveSecrets r = mkLiveSecrets None None }.

Lemma loadAddress_ok lookup name a : loadAddress lookup name = Ok a -> a <> zeroAddress /\ isAddress a.
Proof. unfold loadAddress. do 2 ok. ok Ez. intros [= <-]. unfold bytes_eqb in Ez. bool_hyps. split; [done|apply hexAddress_length]. Qed.

Lemma loadLiveSecrets_ok lookup mode stop secrets :
  loadLiveSecrets lookup mode stop = Ok secrets ->
  (is_Some (PrivateKeys secrets) <-> mode = ModeLive /\ stop = false) /\ (PrivateKeys secrets = None -> secrets = mkLiveSecrets None None).
Proof using CL.
  clear LA.
  unfold loadLiveSecrets. destruct mode; cbn.
  - intros [= <-]. split; [|done]. split; [by intros [? ?]|by intros [? _]].
  - destruct stop; [intros [= <-]; split; [|done]; split; [by intros [? ?]|by intros [_ ?]]|]. do 2 ok. intros [= <-]. cbn. split; [|done].
    split; [done|]. intros _. eauto.
Qed.

Lemma loadFrom_sound lookup names runtime : loadFrom lookup names = Ok runtime -> runtime_sound runtime.
Proof.
  unfold loadFrom. do 3 ok. ok Q1. ok Q2. ok Q3. ok Q4. ok Q5. ok Q6. ok Q7. ok Q8. ok Q9. ok Q10. intros [= <-].
  apply loadAddress_ok in Q1 as [? ?], Q2 as [? ?], Q3 as [? ?]. apply loadNetworks_sound in Q7 as (? & ? & ?).
  apply loadLiveSecrets_ok in Q10 as [? ?]. apply loadRuntimePolicy_sound in Q6. apply loadWatchPolicy_sound in Q8.
  apply loadPositiveDuration_ok in Q9. revert Q4. unfold validateDistinctRoles, bytes_eqb. do 3 ok. intros _. bool_hyps. by constructor.
Qed.

(** The chain numbers of the networks differ as their names do. *)
Lemma chains_distinct mode global networks :
  Forall (network_sound mode global) networks -> NoDup (map Net_Name networks) -> NoDup (map Net_ChainID networks).
Proof.
  intros Hf Hn. destruct registry_names as [_ Hr].
  assert (forall d d', d ∈ networkRegistry -> d' ∈ networkRegistry -> Def_chainID d = Def_chainID d' -> d = d') as Hinj.
  { intros d d' Hd Hd'. by apply (NoDup_map_inj Def_chainID networkRegistry). }
  induction Hf as [|n l Hs Hf IH]; [apply NoDup_nil_2|]. cbn in *. apply NoDup_cons in Hn as [Hx Hn]. apply NoDup_cons. split; [|by apply IH].
  intros (m & Hm & Hin)%list_elem_of_fmap. apply Hx. rewrite Forall_forall in Hf. specialize (Hf m Hin).
  destruct (ns_registered _ _ _ Hs) as (d & Hd & Hdn & Hdc). destruct (ns_registered _ _ _ Hf) as (d' & Hd' & Hdn' & Hdc').
  rewrite (Hinj d d') in Hdn; [|done|done|congruence]. rewrite Hdn, <-Hdn'. apply list_elem_of_fmap. eauto.
Qed.

End Runtime.

End ConfigRuntime.
Export ConfigRuntime.
