(* ===== verification/ConfigGuarantees.v ===== *)
(** * Guarantees of the configuration

    [ConfigClaims]: the fields the loaders read, and that none of them reaches an
    internal panic.  [ConfigGuarantees]: the properties of [loadFrom] and
    [LoadWithSecrets] as whole functions, and a library of texts simple enough to
    evaluate them on a complete configuration. *)

From S2P Require Import Prelude GoTime Bytes Sha256 Domain GoText Configuration ConfigNetworks ConfigRuntime.
From Stdlib Require Import Strings.Byte.
From Stdlib Require Strings.String.
Import Strings.String.StringSyntax.

Module ConfigClaims.

(** ** No panics *)

Definition panics {A} (r : result ConfigError A) : Prop := exists message, r = Err (Panicked message).

Lemma bind_calm {A B} (r : result ConfigError A) (k : A -> result ConfigError B) :
  ~ panics r -> (forall a, r = Ok a -> ~ panics (k a)) -> ~ panics (let! a := r in k a).
Proof. intros Hr Hk. destruct r as [a|e]; [by apply Hk|]. intros [m [= ->]]. apply Hr. by exists m. Qed.

Lemma reject_calm {A} (c : bool) message (k : result ConfigError A) : ~ panics k -> ~ panics (reject c with Failure message in k).
Proof. intros Hk. destruct c; [|done]. by intros [m [=]]. Qed.

Lemma option_calm {A B} (o : option A) message (k : A -> result ConfigError B) :
  (forall a, ~ panics (k a)) -> ~ panics (let? a := o orelse Failure message in k a).
Proof. intros Hk. destruct o; [apply Hk|]. by intros [m [=]]. Qed.

Lemma ok_calm {A} (a : A) : ~ panics (Ok a).
Proof. by intros [m [=]]. Qed.

Lemma failure_calm {A} message : ~ panics (@Err ConfigError A (Failure message)).
Proof. by intros [m [=]]. Qed.

Lemma foldM_calm {A B} (f : B -> A -> result ConfigError B) l acc : (forall b a, a ∈ l -> ~ panics (f b a)) -> ~ panics (foldM f l acc).
Proof.
  revert acc. induction l as [|x l IH]; intros acc Hf; [apply ok_calm|]. cbn. apply bind_calm; [apply Hf; left|].
  intros b _. apply IH. intros b' a Ha. apply Hf. by right.
Qed.

Create HintDb calm.
#[local] Hint Resolve ok_calm failure_calm : calm.

(** Follow a chain of [let!], [let?] and [reject] down to its calls. *)
Ltac calm :=
  repeat first
    [ apply ok_calm | apply failure_calm
    | apply reject_calm | apply option_calm; intros ? | (apply bind_calm; [eauto with calm|intros ? ?])
    | match goal with
      | |- ~ panics (if ?c then _ else _) => destruct c
      | |- ~ panics (match ?c with _ => _ end) => destruct c
      end ].

Lemma loadDecimal_calm lookup name d zero : ~ panics (loadDecimal lookup name d zero).
Proof. unfold loadDecimal, decimalError. destruct zero; calm. Qed.
#[local] Hint Resolve loadDecimal_calm : calm.

Lemma loadPositiveDecimal_calm lookup name d : ~ panics (loadPositiveDecimal lookup name d).
Proof. apply loadDecimal_calm. Qed.

Lemma loadNonNegativeDecimal_calm lookup name d : ~ panics (loadNonNegativeDecimal lookup name d).
Proof. apply loadDecimal_calm. Qed.

Lemma loadPositiveUint_calm bits lookup name d : ~ panics (loadPositiveUint bits lookup name d).
Proof. unfold loadPositiveUint, integerError. calm. Qed.

Lemma loadPositiveUint32_calm lookup name d : ~ panics (loadPositiveUint32 lookup name d).
Proof. apply loadPositiveUint_calm. Qed.

Lemma loadPositiveUint64_calm lookup name d : ~ panics (loadPositiveUint64 lookup name d).
Proof. apply loadPositiveUint_calm. Qed.

Lemma loadPositiveDuration_calm lookup name d : ~ panics (loadPositiveDuration lookup name d).
Proof. unfold loadPositiveDuration, durationError. calm. Qed.

Lemma loadStrictBoolean_calm lookup name d : ~ panics (loadStrictBoolean lookup name d).
Proof. unfold loadStrictBoolean. calm. Qed.

Lemma requiredValue_calm lookup name : ~ panics (requiredValue lookup name).
Proof. unfold requiredValue. calm. Qed.

#[local] Hint Resolve loadPositiveDecimal_calm loadNonNegativeDecimal_calm loadPositiveUint32_calm loadPositiveUint64_calm
  loadPositiveDuration_calm loadStrictBoolean_calm requiredValue_calm : calm.

Lemma loadRuntimePolicy_calm lookup : ~ panics (loadRuntimePolicy lookup).
Proof. unfold loadRuntimePolicy. calm. Qed.

Lemma loadWatchPolicy_calm lookup : ~ panics (loadWatchPolicy lookup).
Proof. unfold loadWatchPolicy. calm. Qed.

Lemma boundedDefault_calm value upper : decimalDigits value = true -> ~ panics (boundedDefault value upper).
Proof. unfold boundedDefault. intros ->. cbn. calm. Qed.

Lemma lowerBoundedDefault_calm value lower : decimalDigits value = true -> ~ panics (lowerBoundedDefault value lower).
Proof. unfold lowerBoundedDefault. intros ->. cbn. calm. Qed.

(** The built-in defaults are decimal numbers. *)
#[local] Hint Extern 1 (~ panics (boundedDefault _ _)) => apply boundedDefault_calm; vm_compute; reflexivity : calm.
#[local] Hint Extern 1 (~ panics (lowerBoundedDefault _ _)) => apply lowerBoundedDefault_calm; vm_compute; reflexivity : calm.

Section Loading.
Context {CL : ConfigLib}.

Lemma addValueRule_calm name trusted maxCost rules encoded : ~ panics (addValueRule name trusted maxCost rules encoded).
Proof. unfold addValueRule. calm. Qed.

Lemma loadTokenValueRules_calm lookup suffix trusted maxCost : ~ panics (loadTokenValueRules lookup suffix trusted maxCost).
Proof. unfold loadTokenValueRules. calm. apply foldM_calm. intros. apply addValueRule_calm. Qed.

Lemma validateMaximumGasCost_calm a gas b fee c overhead d limit : ~ panics (validateMaximumGasCost a gas b fee c overhead d limit).
Proof. unfold validateMaximumGasCost. calm. Qed.

#[local] Hint Resolve loadTokenValueRules_calm validateMaximumGasCost_calm : calm.

Lemma loadEconomicPolicy_calm lookup suffix profile global trusted : ~ panics (loadEconomicPolicy lookup suffix profile global trusted).
Proof. unfold loadEconomicPolicy, notAbove, notLess. calm. Qed.

Lemma addAllowedToken_calm name known acc part : ~ panics (addAllowedToken name known acc part).
Proof. destruct acc. unfold addAllowedToken. calm. Qed.

Lemma loadTokenPolicy_calm lookup suffix known : ~ panics (loadTokenPolicy lookup suffix known).
Proof.
  unfold loadTokenPolicy, parseTokenAllowlist. calm.
  apply foldM_calm. intros. apply addAllowedToken_calm.
Qed.

Lemma validateEndpoint_calm name value websocket : ~ panics (validateEndpoint name value websocket).
Proof. unfold validateEndpoint, endpointError. destruct websocket; calm. Qed.

Lemma claimPlanOf_calm name chain document : ~ panics (claimPlanOf (claimFailure name) chain document).
Proof.
  assert (forall encoded, ~ panics (claimAmount (claimFailure name) encoded)) as Hc by (intros; unfold claimAmount, claimFailure; calm).
  assert (forall plan, ~ panics (errOr (claimFailure name) (ClaimPlan_Validate plan))) as He
    by (intros; unfold claimFailure; destruct (ClaimPlan_Validate _); cbn; calm).
  unfold claimPlanOf. apply reject_calm, option_calm. intros. do 4 (apply bind_calm; [auto|intros ? ?]). calm.
Qed.

#[local] Hint Resolve validateEndpoint_calm claimPlanOf_calm : calm.

Lemma loadClaim_calm lookup suffix chain tokens unknown : ~ panics (loadClaim lookup suffix chain tokens unknown).
Proof. unfold loadClaim. destruct (lookup _); [|calm]. apply option_calm. intros. apply reject_calm, option_calm. intros. calm. Qed.

Lemma loadProvider_calm lookup suffix name index : ~ panics (loadProvider lookup suffix name index).
Proof. unfold loadProvider. calm. Qed.

Lemma distinctEndpoints_calm suffix p1 p2 : ~ panics (distinctEndpoints suffix p1 p2).
Proof. destruct p1 as [[??]?], p2 as [[??]?]. unfold distinctEndpoints. calm. Qed.

Lemma loadBroadcast_calm lookup mode suffix canonical : ~ panics (loadBroadcast lookup mode suffix canonical).
Proof. unfold loadBroadcast. calm. Qed.

Lemma loadManifestSourceProvenance_calm lookup suffix : ~ panics (loadManifestSourceProvenance lookup suffix).
Proof. unfold loadManifestSourceProvenance. calm. Qed.

Lemma loadConfirmation_calm lookup suffix : ~ panics (loadConfirmation lookup suffix).
Proof. unfold loadConfirmation. calm. Qed.

#[local] Hint Resolve loadClaim_calm loadProvider_calm distinctEndpoints_calm loadBroadcast_calm loadManifestSourceProvenance_calm
  loadConfirmation_calm loadTokenPolicy_calm loadEconomicPolicy_calm loadRuntimePolicy_calm loadWatchPolicy_calm : calm.

Lemma loadNetwork_calm lookup mode d global : isOk (economicProfileFor (Def_name d)) = true -> ~ panics (loadNetwork lookup mode d global).
Proof.
  intros Hp. assert (~ panics (economicProfileFor (Def_name d))) as Hc by (destruct (economicProfileFor _); [calm|done]).
  unfold loadNetwork. do 7 (apply bind_calm; [auto with calm|intros ? ?]). destruct a5 as [[??]?]. calm.
Qed.

(** Every network of the registry has a profile. *)
Lemma registry_profiles : forallb (fun d => isOk (economicProfileFor (Def_name d))) networkRegistry = true.
Proof. vm_compute. reflexivity. Qed.

Lemma loadNetworks_calm lookup mode global : ~ panics (loadNetworks lookup mode global).
Proof.
  unfold loadNetworks. apply bind_calm.
  - unfold enabledNetworkNames. apply bind_calm; [auto with calm|]. intros value _. apply foldM_calm. intros names part _. unfold enabledName. calm.
  - intros names Hn. apply enabledNetworkNames_ok in Hn as (_ & Hin & _). apply foldM_calm. intros networks name Hname.
    rewrite Forall_forall in Hin. destruct (registered_ok name (Hin name Hname)) as [Hr _].
    pose proof registry_profiles as Hp. rewrite forallb_forall in Hp. apply list_elem_of_In in Hr. specialize (Hp _ Hr).
    apply bind_calm; [by apply loadNetwork_calm|]. intros. calm.
Qed.

#[local] Hint Resolve loadNetworks_calm : calm.

Lemma loadFrom_calm lookup names : ~ panics (loadFrom lookup names).
Proof.
  assert (~ panics (rejectUnsupportedFields lookup)) as H1 by (apply foldM_calm; intros; calm).
  assert (~ panics (rejectUnsupportedNames names)) as H2 by (apply foldM_calm; intros; calm).
  assert (~ panics (loadMode lookup)) as H3 by (unfold loadMode; calm).
  assert (forall name, ~ panics (loadAddress lookup name)) as H4 by (intros; unfold loadAddress; calm).
  assert (forall a b c, ~ panics (validateDistinctRoles a b c)) as H5 by (intros; unfold validateDistinctRoles; calm).
  assert (~ panics (loadArtifactTrust lookup)) as H6 by (unfold loadArtifactTrust; calm).
  assert (forall name, ~ panics (loadPrivateKey lookup name)) as H7 by (intros; unfold loadPrivateKey; calm).
  assert (forall mode stop, ~ panics (loadLiveSecrets lookup mode stop)) as H8 by (intros; unfold loadLiveSecrets; calm).
  unfold loadFrom, loadReadTimeout. calm.
Qed.

End Loading.

(** ** The fields a configuration depends on *)

Lemma bind_same {A B} (r r' : result ConfigError A) (k k' : A -> result ConfigError B) :
  r = r' -> (forall a, k a = k' a) -> (let! a := r in k a) = (let! a := r' in k' a).
Proof. intros -> Hk. destruct r'; [apply Hk|done]. Qed.

Lemma reject_same {A} (c : bool) e (k k' : result ConfigError A) : k = k' -> (reject c with e in k) = (reject c with e in k').
Proof. by intros ->. Qed.

Create HintDb fields.

Section Fields.
Context (lookup lookup' : lookupFn).

Section Name.
Context (name : bytes) (Hname : lookup name = lookup' name).

Lemma valueOr_same d : valueOr lookup name d = valueOr lookup' name d.
Proof using Hname. unfold valueOr. by rewrite Hname. Qed.

Lemma loadDecimal_same d zero : loadDecimal lookup name d zero = loadDecimal lookup' name d zero.
Proof using Hname. unfold loadDecimal. by rewrite valueOr_same. Qed.

Lemma loadPositiveDecimal_same d : loadPositiveDecimal lookup name d = loadPositiveDecimal lookup' name d.
Proof using Hname. apply loadDecimal_same. Qed.

Lemma loadNonNegativeDecimal_same d : loadNonNegativeDecimal lookup name d = loadNonNegativeDecimal lookup' name d.
Proof using Hname. apply loadDecimal_same. Qed.

Lemma loadPositiveUint32_same d : loadPositiveUint32 lookup name d = loadPositiveUint32 lookup' name d.
Proof using Hname. unfold loadPositiveUint32, loadPositiveUint. by rewrite valueOr_same. Qed.

Lemma loadPositiveUint64_same d : loadPositiveUint64 lookup name d = loadPositiveUint64 lookup' name d.
Proof using Hname. unfold loadPositiveUint64, loadPositiveUint. by rewrite valueOr_same. Qed.

Lemma loadPositiveDuration_same d : loadPositiveDuration lookup name d = loadPositiveDuration lookup' name d.
Proof using Hname. unfold loadPositiveDuration. by rewrite valueOr_same. Qed.

Lemma loadStrictBoolean_same d : loadStrictBoolean lookup name d = loadStrictBoolean lookup' name d.
Proof using Hname. unfold loadStrictBoolean. by rewrite valueOr_same. Qed.

Lemma requiredValue_same : requiredValue lookup name = requiredValue lookup' name.
Proof using Hname. unfold requiredValue. by rewrite Hname. Qed.

Lemma loadAddress_same {CL : ConfigLib} : loadAddress lookup name = loadAddress lookup' name.
Proof using Hname. unfold loadAddress. by rewrite requiredValue_same. Qed.

Lemma loadPrivateKey_same {CL : ConfigLib} : loadPrivateKey lookup name = loadPrivateKey lookup' name.
Proof using Hname. unfold loadPrivateKey. by rewrite requiredValue_same. Qed.

End Name.
End Fields.

#[local] Hint Resolve loadPositiveDecimal_same loadNonNegativeDecimal_same loadPositiveUint32_same loadPositiveUint64_same
  loadPositiveDuration_same loadStrictBoolean_same requiredValue_same loadAddress_same loadPrivateKey_same : fields.

(** Two loaders that read the same fields: follow both chains together. *)
Ltac same :=
  repeat first
    [ reflexivity | apply reject_same
    | (apply bind_same; [solve [reflexivity | eauto with fields]|intros ?])
    | match goal with
      | |- (match ?c with _ => _ end) = (match ?c with _ => _ end) => destruct c
      end ].

(** What precedes the network in the templates of field names. *)
Definition fieldPrefixes : list bytes := map (fun template => take (length template - 3) template) environmentFieldTemplates.

(** A name or prefix of the tables, by computation. *)
Ltac listed := apply (bool_decide_eq_true_1 _); vm_compute; reflexivity.

Section Supported.
Context {CL : ConfigLib}.

Lemma registry_fields :
  forallb (fun d => bool_decide (networkFields (Def_name d) = map (fun prefix => prefix ++ asciiUpper (Def_name d)) fieldPrefixes)) networkRegistry = true.
Proof. vm_compute. reflexivity. Qed.

Lemma supported_static name : name ∈ staticEnvironmentFields -> name ∈ SupportedEnvironmentFields.
Proof. unfold SupportedEnvironmentFields. rewrite merge_sort_Permutation, elem_of_app. auto. Qed.

Lemma supported_network d prefix : d ∈ networkRegistry -> prefix ∈ fieldPrefixes -> prefix ++ asciiUpper (Def_name d) ∈ SupportedEnvironmentFields.
Proof.
  intros Hd Hp. unfold SupportedEnvironmentFields. rewrite merge_sort_Permutation, elem_of_app. right.
  pose proof registry_fields as Hr. rewrite forallb_forall in Hr. apply list_elem_of_In in Hd. specialize (Hr d Hd). bool_hyps.
  apply list_elem_of_In, in_flat_map. exists d. split; [done|]. rewrite Hr. apply list_elem_of_In, list_elem_of_fmap. eauto.
Qed.

Context (lookup lookup' : lookupFn).

Section Network.
Context (suffix : bytes) (Hfield : forall prefix, prefix ∈ fieldPrefixes -> lookup (prefix ++ suffix) = lookup' (prefix ++ suffix)).

#[local] Hint Extern 2 (lookup (?prefix ++ suffix) = lookup' (?prefix ++ suffix)) => apply Hfield; listed : fields.

Lemma loadTokenValueRules_same trusted maxCost :
  loadTokenValueRules lookup suffix trusted maxCost = loadTokenValueRules lookup' suffix trusted maxCost.
Proof using Hfield. unfold loadTokenValueRules. rewrite (Hfield (str "TOKEN_VALUE_RULES_")) by listed. reflexivity. Qed.

#[local] Hint Resolve loadTokenValueRules_same : fields.

Lemma loadEconomicPolicy_same profile global trusted :
  loadEconomicPolicy lookup suffix profile global trusted = loadEconomicPolicy lookup' suffix profile global trusted.
Proof using Hfield. unfold loadEconomicPolicy. rewrite (Hfield (str "NETWORK_FEE_MODE_")) by listed. same. Qed.

Lemma loadTokenPolicy_same known : loadTokenPolicy lookup suffix known = loadTokenPolicy lookup' suffix known.
Proof using Hfield.
  unfold loadTokenPolicy. rewrite (valueOr_same lookup lookup' (str "TOKEN_MODE_" ++ suffix)) by (apply Hfield; listed).
  rewrite (Hfield (str "TOKEN_ALLOWLIST_")) by listed. reflexivity.
Qed.

Lemma loadClaim_same chain tokens unknown : loadClaim lookup suffix chain tokens unknown = loadClaim lookup' suffix chain tokens unknown.
Proof using Hfield. unfold loadClaim. rewrite (Hfield (str "CLAIM_REQUEST_")) by listed. reflexivity. Qed.

Lemma loadProvider_same name index :
  (str "RPC_READ_" ++ index) ++ str "_HTTP_" ∈ fieldPrefixes -> (str "RPC_READ_" ++ index) ++ str "_WS_" ∈ fieldPrefixes ->
  (str "RPC_READ_" ++ index) ++ str "_TRUST_DOMAIN_" ∈ fieldPrefixes ->
  loadProvider lookup suffix name index = loadProvider lookup' suffix name index.
Proof using Hfield.
  intros H1 H2 H3. unfold loadProvider. apply Hfield in H1, H2, H3. rewrite <-!(app_assoc (str "RPC_READ_" ++ index)) in H1, H2, H3. same.
Qed.

Lemma loadBroadcast_same mode canonical : loadBroadcast lookup mode suffix canonical = loadBroadcast lookup' mode suffix canonical.
Proof using Hfield.
  unfold loadBroadcast. rewrite (valueOr_same lookup lookup' (str "RPC_BROADCAST_HTTP_" ++ suffix)) by (apply Hfield; listed).
  rewrite (Hfield (str "RPC_BROADCAST_HTTP_")) by listed. reflexivity.
Qed.

Lemma loadManifestSourceProvenance_same : loadManifestSourceProvenance lookup suffix = loadManifestSourceProvenance lookup' suffix.
Proof using Hfield. unfold loadManifestSourceProvenance. rewrite (Hfield (str "RESCUER_RELEASE_COMMIT_")) by listed. reflexivity. Qed.

Lemma loadConfirmation_same : loadConfirmation lookup suffix = loadConfirmation lookup' suffix.
Proof using Hfield. unfold loadConfirmation. rewrite (Hfield (str "NETWORK_CONFIRMATION_MODE_")) by listed. reflexivity. Qed.

End Network.

#[local] Hint Resolve loadEconomicPolicy_same loadTokenPolicy_same loadClaim_same loadBroadcast_same loadManifestSourceProvenance_same
  loadConfirmation_same : fields.

Context (Hsame : forall name, name ∈ SupportedEnvironmentFields ++ removedEnvironmentFields -> lookup name = lookup' name).

#[local] Hint Extern 2 (lookup ?name = lookup' ?name) => apply Hsame, elem_of_app; left; apply supported_static; listed : fields.

Lemma loadNetwork_same mode d global : d ∈ networkRegistry -> loadNetwork lookup mode d global = loadNetwork lookup' mode d global.
Proof using Hsame.
  intros Hd. assert (Hfield : forall prefix, prefix ∈ fieldPrefixes ->
    lookup (prefix ++ asciiUpper (Def_name d)) = lookup' (prefix ++ asciiUpper (Def_name d))).
  { intros prefix Hp. apply Hsame, elem_of_app. left. by apply supported_network. }
  unfold loadNetwork. do 2 (apply bind_same; [apply loadProvider_same; [done|listed..]|intros ?]). apply bind_same; [done|]. intros _.
  apply bind_same; [auto with fields|]. intros broadcast. apply bind_same; [apply requiredValue_same, Hfield; listed|]. intros manifest.
  same.
Qed.

Lemma loadFrom_same names : loadFrom lookup names = loadFrom lookup' names.
Proof using Hsame.
  unfold loadFrom. apply bind_same.
  { unfold rejectUnsupportedFields. apply foldM_ext. intros _ name Hin. rewrite (Hsame name); [done|]. apply elem_of_app. by right. }
  intros _. apply bind_same; [done|]. intros _.
  apply bind_same; [unfold loadMode; rewrite (Hsame (str "DRY_RUN")); [done|apply elem_of_app; left; apply supported_static; listed]|]. intros mode.
  do 3 (apply bind_same; [auto with fields|intros ?]). apply bind_same; [done|]. intros _.
  apply bind_same; [unfold loadArtifactTrust; rewrite (valueOr_same lookup lookup'); [done|auto with fields]|]. intros artifact.
  apply bind_same; [unfold loadRuntimePolicy; same|]. intros policy.
  apply bind_same.
  { unfold loadNetworks. destruct (enabledNetworkNames lookup) as [networks|e] eqn:En.
    - assert (enabledNetworkNames lookup' = Ok networks) as ->
        by (rewrite <-En; unfold enabledNetworkNames; symmetry; apply bind_same; [auto with fields|done]).
      apply enabledNetworkNames_ok in En as (_ & Hin & _). rewrite Forall_forall in Hin.
      apply foldM_ext. intros acc name Hname. destruct (registered_ok name (Hin name Hname)) as [Hr _]. by rewrite loadNetwork_same.
    - assert (enabledNetworkNames lookup' = Err e) as ->
        by (rewrite <-En; unfold enabledNetworkNames; symmetry; apply bind_same; [auto with fields|done]). done. }
  intros loaded. apply bind_same.
  { unfold loadWatchPolicy. rewrite (valueOr_same lookup lookup' (str "STATE_DIRECTORY")) by auto with fields.
    rewrite (valueOr_same lookup lookup' (str "WATCH_LOOKBACK_BLOCKS")) by auto with fields. done. }
  intros watch. apply bind_same; [unfold loadReadTimeout; auto with fields|]. intros timeout. apply bind_same; [|done].
  unfold loadLiveSecrets. same.
Qed.

End Supported.

End ConfigClaims.
Export ConfigClaims.

Module ConfigGuarantees.

(** What a loop over checks that succeeds checked of each element. *)
Lemma foldM_each {E A} (f : unit -> A -> result E unit) l u v : foldM f l u = Ok v -> forall x, x ∈ l -> f tt x = Ok tt.
Proof.
  revert u. induction l as [|y l IH]; intros [] H x Hx; [by apply elem_of_nil in Hx|]. cbn in H.
  destruct (f tt y) as [[]|] eqn:Ey; [|done]. apply elem_of_cons in Hx as [->|Hx]; [done|]. by eapply IH.
Qed.

Lemma mapLookup_app a b name : mapLookup (a ++ b) name = match mapLookup a name with Some v => Some v | None => mapLookup b name end.
Proof. unfold mapLookup. induction a as [|e a IH]; [done|]. cbn. by destruct (bytes_eqb _ _). Qed.

(** ** Credentials *)

(** The lines of the file that reach the dotenv parser. *)
Lemma dotEnvLine_public lines public names :
  foldM dotEnvLine lines ([], []) = Ok (public, names) ->
  exists kept, public = concat (map (fun line => line ++ [x0a]) kept) /\
    Forall (fun line => forall name, strictDotEnvField line = Some (Some name) -> isSecretName name = false) kept.
Proof.
  apply (foldM_invariant (fun _ (acc : bytes * list bytes) => exists kept, acc.1 = concat (map (fun line => line ++ [x0a]) kept) /\
    Forall (fun line => forall name, strictDotEnvField line = Some (Some name) -> isSecretName name = false) kept)); [by exists []|].
  intros pre [public1 names1] raw [public2 names2] (kept & Hp & Hk). cbn in Hp. unfold dotEnvLine. ok E.
  assert (Hadd : forall line, (forall name, strictDotEnvField line = Some (Some name) -> isSecretName name = false) ->
    exists kept, public1 ++ line ++ [x0a] = concat (map (fun line => line ++ [x0a]) kept) /\
      Forall (fun line => forall name, strictDotEnvField line = Some (Some name) -> isSecretName name = false) kept).
  { intros line Hl. exists (kept ++ [line]). rewrite map_app, concat_app, <-Hp. cbn. rewrite app_nil_r. split; [done|].
    apply Forall_app. split; [done|]. by constructor. }
  destruct (strictDotEnvField (dropCR raw)) as [[name|]|] eqn:Ef; [|intros [= <- <-]; apply Hadd; by rewrite Ef|done].
  destruct (isSecretName name) eqn:Es; intros [= <- <-]; [by exists kept|]. apply Hadd. rewrite Ef. by intros ? [= <-].
Qed.

Section Credentials.
Context {CL : ConfigLib}.

(** The key a credential holds. *)
Definition credentialKey (secrets : list (bytes * bytes)) (name : bytes) : option PrivateKey :=
  match mapLookup secrets name with
  | Some (b :: value) => HexToECDSA (if HasPrefix (b :: value) (str "0x") then drop 2 (b :: value) else b :: value)
  | _ => None
  end.

Lemma loadPrivateKey_credential environ dotenv secrets name key :
  isSecretName name = true -> loadPrivateKey (runtimeLookup environ dotenv secrets true) name = Ok key -> credentialKey secrets name = Some key.
Proof.
  intros Hs. unfold loadPrivateKey, requiredValue, runtimeLookup, credentialKey. rewrite Hs. cbn [andb].
  destruct (mapLookup secrets name) as [[|b value]|]; try done. cbv zeta. ok E. intros [= <-]. exact E.
Qed.

Lemma secretName_source : isSecretName (str "SOURCE_PRIVATE_KEY") = true.
Proof. vm_compute. reflexivity. Qed.

Lemma secretName_sponsor : isSecretName (str "SPONSOR_PRIVATE_KEY") = true.
Proof. vm_compute. reflexivity. Qed.

Lemma loadFrom_secrets lookup names runtime :
  loadFrom lookup names = Ok runtime -> loadLiveSecrets lookup (Run_Mode runtime) (RP_EmergencyStop (Run_Policy runtime)) = Ok (Run_LiveSecrets runtime).
Proof. unfold loadFrom. do 12 ok. ok E12'. intros [= <-]. exact E12'. Qed.

Lemma empty_credentials secrets :
  foldM (fun _ name =>
      match mapLookup secrets name with
      | Some (_ :: _) => Err (Failure (str "credential " ++ name ++ str " must be empty when signing is disabled"))
      | _ => Ok tt
      end) secretNames tt = Ok tt ->
  credentialKey secrets (str "SOURCE_PRIVATE_KEY") = None /\ credentialKey secrets (str "SPONSOR_PRIVATE_KEY") = None.
Proof.
  unfold credentialKey. unfold secretNames. cbn [foldM].
  destruct (mapLookup secrets (str "SOURCE_PRIVATE_KEY")) as [[|? ?]|]; try done;
    destruct (mapLookup secrets (str "SPONSOR_PRIVATE_KEY")) as [[|? ?]|]; done.
Qed.

(** C13. Private keys come from the credentials alone.  When the configuration is
    loaded with the service's credentials, neither key is in the process
    environment; a live process that is not stopped has exactly the two keys of the
    credentials, whatever the dotenv file says, and any other process has no key
    and was given no credential.  A line of the file that sets a key never reaches
    the dotenv parser. *)
Theorem keys_come_only_from_credentials process secrets runtime :
  LoadWithSecrets process secrets = Ok runtime ->
  (forall name, name ∈ secretNames -> LookupEnv (Proc_environ process) name = None) /\
  match Run_Mode runtime, RP_EmergencyStop (Run_Policy runtime) with
  | ModeLive, false => exists source sponsor, PrivateKeys (Run_LiveSecrets runtime) = Some (source, sponsor) /\
      credentialKey secrets (str "SOURCE_PRIVATE_KEY") = Some source /\ credentialKey secrets (str "SPONSOR_PRIVATE_KEY") = Some sponsor
  | _, _ => Run_LiveSecrets runtime = mkLiveSecrets None None /\
      credentialKey secrets (str "SOURCE_PRIVATE_KEY") = None /\ credentialKey secrets (str "SPONSOR_PRIVATE_KEY") = None
  end /\
  (forall content failed public names, Proc_file process (configPath (Proc_environ process)) = DotEnvContent content failed ->
     foldM dotEnvLine (scanLines content) ([], []) = Ok (public, names) ->
     exists kept, public = concat (map (fun line => line ++ [x0a]) kept) /\
       Forall (fun line => forall name, strictDotEnvField line = Some (Some name) -> isSecretName name = false) kept).
Proof.
  unfold LoadWithSecrets. ok Eenv. ok Erun. intros Hend. split; [|split; [|intros content failed public names _; apply dotEnvLine_public]].
  - revert Eenv. unfold secretNames. cbn [foldM].
    destruct (LookupEnv _ (str "SOURCE_PRIVATE_KEY")) eqn:E1; [done|]. destruct (LookupEnv _ (str "SPONSOR_PRIVATE_KEY")) eqn:E2; [done|].
    intros _ name Hn. apply elem_of_cons in Hn as [->|Hn]; [done|]. apply elem_of_cons in Hn as [->|Hn]; [done|]. by apply elem_of_nil in Hn.
  - clear Eenv. assert (a0 = runtime) as -> by (revert Hend; destruct (_ || _); [ok E; congruence|congruence]).
    revert Erun. unfold loadRuntime. ok Epub. intros Hs%loadFrom_secrets. revert Hs. unfold loadLiveSecrets.
    destruct (Run_Mode runtime), (RP_EmergencyStop (Run_Policy runtime)); cbn [IsDryRun orb] in *.
    1-2, 3: intros [= Hs]; split; [done|]; revert Hend; destruct (foldM _ _ tt) as [[]|] eqn:Ef; [|done]; intros _; exact (empty_credentials _ Ef).
    destruct (loadPrivateKey _ (str "SOURCE_PRIVATE_KEY")) as [source|] eqn:E1; [|done].
    destruct (loadPrivateKey _ (str "SPONSOR_PRIVATE_KEY")) as [sponsor|] eqn:E2; [|done].
    intros [= Hs]. rewrite <-Hs. cbn. exists source, sponsor. split; [done|].
    split; eapply loadPrivateKey_credential; eauto using secretName_source, secretName_sponsor.
Qed.

End Credentials.

(** ** The loaded configuration *)

Section Sound.
Context {CL : ConfigLib} {LA : ConfigLaws CL}.

(** C19. Every configuration that loads is sound: the three roles are distinct
    non-zero addresses; global budgets are ordered and fit 256 bits; each network is
    one of the registry, appears once, stays within the global budgets and reserve,
    and its dearest transaction (gas limit times highest fee, plus overhead) is
    within its own cap; tokens, trusted tokens and value rules have no repetition;
    the two providers differ in endpoint and trust domain; a dry run has no endpoint
    to broadcast to, a live one has; and the process has both keys exactly when it
    is live and not stopped. *)
Theorem loaded_configuration_is_sound lookup names runtime :
  loadFrom lookup names = Ok runtime -> runtime_sound runtime /\ NoDup (map Net_ChainID (Run_Networks runtime)).
Proof.
  intros H%loadFrom_sound. split; [done|]. eapply chains_distinct; [apply (rt_networks _ H)|apply (rt_names _ H)].
Qed.

End Sound.

(** C27. Loading is total and depends on the supported fields only: it never
    reaches an internal panic, two sources that agree on the supported and the
    removed names load alike whatever else they hold, and a removed name that is
    set, or a given name with a reserved prefix that is not supported, makes the
    load fail. *)
Theorem configuration_depends_on_supported_fields {CL : ConfigLib} (lookup lookup' : lookupFn) names :
  ((exists runtime, loadFrom lookup names = Ok runtime) \/ (exists message, loadFrom lookup names = Err (Failure message))) /\
  ((forall name, name ∈ SupportedEnvironmentFields ++ removedEnvironmentFields -> lookup name = lookup' name) ->
     loadFrom lookup names = loadFrom lookup' names) /\
  (forall name, name ∈ removedEnvironmentFields -> is_Some (lookup name) -> isOk (loadFrom lookup names) = false) /\
  (forall name, name ∈ names -> reservedEnvironmentName name = true -> name ∉ SupportedEnvironmentFields -> isOk (loadFrom lookup names) = false).
Proof.
  split; [|split; [intros Hs; by apply loadFrom_same|split]].
  - pose proof (loadFrom_calm lookup names) as Hc. destruct (loadFrom lookup names) as [r|[m|m]]; [eauto..|]. destruct Hc. by exists m.
  - intros name Hin [value Hv]. unfold loadFrom. destruct (rejectUnsupportedFields lookup) as [[]|] eqn:E; [|done].
    pose proof (foldM_each _ _ _ _ E name Hin) as Hf. cbv beta in Hf. by rewrite Hv in Hf.
  - intros name Hin Hr Hn. unfold loadFrom. destruct (rejectUnsupportedFields lookup) as [[]|]; [|done].
    destruct (rejectUnsupportedNames names) as [[]|] eqn:E; [|done].
    pose proof (foldM_each _ _ _ _ E name Hin) as Hf. cbv beta in Hf. by rewrite bool_decide_eq_false_2, Hr in Hf.
Qed.

(** ** A configuration that loads *)

Definition exampleURL (value : bytes) : option URL :=
  match cutAt x3a value with
  | Some (scheme, x2f :: x2f :: rest) =>
      match cutAt x2f rest with
      | Some (host, path) => Some (mkURL scheme host (x2f :: path) [] [] [])
      | None => Some (mkURL scheme rest [] [] [] [])
      end
  | _ => None
  end.

#[export] Instance exampleLib : ConfigLib := {
  PrivateKey := bytes;
  IsHexAddress s := bool_decide (is_Some (hexLiteral s));
  HexToAddress s := match hexLiteral s with Some a => if Nat.eqb (length a) 20 then a else zeroAddress | None => zeroAddress end;
  HexToECDSA := hexDecode;
  ToLower := asciiLower;
  EqualFold a b := bytes_eqb (asciiLower a) (asciiLower b);
  ParseRequestURI := exampleURL;
  Hostname := URL_Host;
  Port _ := [];
  EncodeQuery q := q;
  URL_String u := URL_Scheme u ++ str "://" ++ URL_Host u ++ URL_Path u;
  readClaimFile _ := None;
  decodeClaim _ := None;
  godotenv_Unmarshal _ := Some [] }.

Lemma hexLiteral_length s a : hexLiteral s = Some a -> length a = 20%nat.
Proof.
  unfold hexLiteral. destruct (_ && _) eqn:El; [|done]. bool_hyps. intros Hd%hexDecode_length. lia.
Qed.

#[export] Instance exampleLaws : ConfigLaws exampleLib.
Proof.
  constructor; cbn; try done.
  - intros s a H. rewrite H. by rewrite (hexLiteral_length _ _ H).
  - intros s. destruct (hexLiteral s) eqn:E; [|done]. rewrite (hexLiteral_length _ _ E). cbn. by apply hexLiteral_length in E.
Qed.

Definition examplePublic : list (bytes * bytes) :=
  [(str "DRY_RUN", str "false"); (str "ENABLED_NETWORKS", str "base");
   (str "SOURCE_ADDRESS", str "0x1111111111111111111111111111111111111111");
   (str "SPONSOR_ADDRESS", str "0x2222222222222222222222222222222222222222");
   (str "DESTINATION_ADDRESS", str "0x3333333333333333333333333333333333333333");
   (str "RPC_READ_1_HTTP_BASE", str "https://one.example/rpc"); (str "RPC_READ_1_WS_BASE", str "wss://one.example/ws");
   (str "RPC_READ_1_TRUST_DOMAIN_BASE", str "one.example");
   (str "RPC_READ_2_HTTP_BASE", str "https://two.example/rpc"); (str "RPC_READ_2_WS_BASE", str "wss://two.example/ws");
   (str "RPC_READ_2_TRUST_DOMAIN_BASE", str "two.example");
   (str "RPC_BROADCAST_HTTP_BASE", str "https://send.example"); (str "RESCUER_MANIFEST_BASE", str "base.json");
   (str "NETWORK_FEE_MODE_BASE", str "estimated"); (str "TOKEN_MODE_BASE", str "allowlist");
   (str "TOKEN_ALLOWLIST_BASE", str "0x833589fCD6eDb6E08f4c7C32D4f71b54bdA02913");
   (str "TOKEN_VALUE_RULES_BASE", str "0x833589fCD6eDb6E08f4c7C32D4f71b54bdA02913:1000000:50000000000000")].

Definition exampleCredentials : list (bytes * bytes) :=
  [(str "SOURCE_PRIVATE_KEY", str "0x01"); (str "SPONSOR_PRIVATE_KEY", str "0x02")].

Definition exampleProcess : Process := mkProcess (map (fun e => fst e ++ str "=" ++ snd e) examplePublic) (fun _ => DotEnvMissing).

Definition loadsExample (r : result ConfigError Runtime) : bool :=
  match r with
  | Ok runtime => bool_decide (map Net_ChainID (Run_Networks runtime) = [8453]) && IsLive (Run_Mode runtime)
                  && negb (RP_EmergencyStop (Run_Policy runtime))
  | Err _ => false
  end.

Lemma example_loads : loadsExample (loadFrom (mapLookup (examplePublic ++ exampleCredentials)) []) = true.
Proof. vm_compute. reflexivity. Qed.

Lemma example_process_loads : loadsExample (LoadWithSecrets exampleProcess exampleCredentials) = true.
Proof. vm_compute. reflexivity. Qed.

Lemma loaded_configuration_is_sound_witness :
  exists runtime, loadFrom (mapLookup (examplePublic ++ exampleCredentials)) [] = Ok runtime /\ runtime_sound runtime /\
    map Net_ChainID (Run_Networks runtime) = [8453].
Proof.
  pose proof example_loads as Hl. destruct (loadFrom _ []) as [runtime|] eqn:E; [|discriminate Hl]. exists runtime.
  cbn [loadsExample] in Hl. bool_hyps.
  destruct (loaded_configuration_is_sound _ _ _ E) as [Hs _]. split; [reflexivity|]. split; assumption.
Defined.

Lemma keys_come_only_from_credentials_witness :
  exists runtime source sponsor, LoadWithSecrets exampleProcess exampleCredentials = Ok runtime /\
    PrivateKeys (Run_LiveSecrets runtime) = Some (source, sponsor) /\ source = [x01] /\ sponsor = [x02].
Proof.
  pose proof example_process_loads as Hl. destruct (LoadWithSecrets _ _) as [runtime|] eqn:E; [|discriminate Hl].
  cbn [loadsExample] in Hl. bool_hyps. destruct (keys_come_only_from_credentials _ _ _ E) as [_ [Hk _]].
  destruct (Run_Mode runtime); [discriminate|]. destruct (RP_EmergencyStop (Run_Policy runtime)); [discriminate|].
  destruct Hk as (source & sponsor & Hk & Hk1 & Hk2). exists runtime, source, sponsor. split; [reflexivity|]. split; [exact Hk|].
  vm_compute in Hk1, Hk2. split; congruence.
Defined.

Lemma configuration_depends_on_supported_fields_witness :
  exists runtime, LoadFrom (mapLookup (examplePublic ++ exampleCredentials)) = Ok runtime /\
    LoadFrom (mapLookup (examplePublic ++ exampleCredentials ++ [(str "HOME", str "/root")])) = Ok runtime.
Proof.
  pose proof example_loads as Hl. unfold LoadFrom. destruct (loadFrom (mapLookup (examplePublic ++ exampleCredentials)) []) as [runtime|] eqn:E; [|discriminate Hl].
  clear Hl. exists runtime. split; [reflexivity|]. rewrite <-E. symmetry.
  apply (proj1 (proj2 (configuration_depends_on_supported_fields (mapLookup (examplePublic ++ exampleCredentials))
    (mapLookup (examplePublic ++ exampleCredentials ++ [(str "HOME", str "/root")])) []))).
  intros name Hin. assert (Hne : name <> str "HOME") by (intros ->; revert Hin; apply (bool_decide_eq_false_1 _); vm_compute; reflexivity).
  rewrite (app_assoc examplePublic), (mapLookup_app (examplePublic ++ exampleCredentials)). destruct (mapLookup (examplePublic ++ exampleCredentials) name); [reflexivity|]. unfold mapLookup. cbn [List.find].
  destruct (bytes_eqb (fst (str "HOME", str "/root")) name) eqn:Eb; [|reflexivity]. apply bytes_eqb_spec in Eb. cbn in Eb. congruence.
Defined.

(** ** The defaults *)

(** With the built-in budgets and fees only Base loads: everywhere else the dearest
    transaction costs more than the default cap, so the limits must be given. *)
Theorem only_base_has_workable_defaults :
  match loadRuntimePolicy (fun _ => None) with
  | Ok global =>
      map (fun '(name, profile) => isOk (loadEconomicPolicy (fun _ => None) (asciiUpper name) profile global [])) economicProfiles
      = map (fun e => bytes_eqb (fst e) (str "base")) economicProfiles
  | Err _ => False
  end.
Proof. vm_compute. reflexivity. Qed.

End ConfigGuarantees.
Export ConfigGuarantees.
