(* ===== verification/Wiring.v ===== *)
(** * cmd/guard-daemon: from the configuration to the components

    The conversions of [daemon_dependencies.go] and [daemon_startup.go] that turn a
    loaded configuration into the policies of the budget ledger, of the fee quotes,
    of the admission controller and of a coordinator, and into the identities of the
    read providers; [config.Network.Domain].  The theorem is that what the loader
    accepts these components accept too, and which of their checks remain. *)

From S2P Require Import Prelude GoTime Bytes Sha256 Domain GoText Configuration ConfigNetworks ConfigRuntime ConfigGuarantees.
From S2P Require Import Programs Bolt BudgetModel BudgetCodec BudgetLedger StoreModel StoreLease RescueFees Admission RpcQuorum RescueErrors Contracts RescueEffects RescueSession RescueOperations RescueFlow RescueCoordinator.
From Stdlib Require Import Strings.Byte.
From Stdlib Require Strings.String.
Import Strings.String.StringSyntax.

Module Wiring.

Inductive WiringError :=
| InvalidGlobalLimits
| LimitOverflow
| InvalidNetworkBudget
| InvalidRescuePolicy
| RescuePolicyOverflow
| InvalidMinimumPriority
| InvalidTokenValueRule.

Definition reconnectDelay : Duration := 5 * Second.
Definition candidateRetryDelay : Duration := 5 * Second.
Definition maxPendingCandidates : Z := 1024.
Definition maxDiscoveredTokens : Z := 1024.
Definition maxWatcherLookback : Z := 10000.
Definition processLeaseTTL : Duration := 30 * Second.
Definition rescueReceiptTimeout : Duration := 60 * Second.
Definition rescueMaxAttempts : Z := 3.

(** ** Budget limits *)

Definition convertLimit (value : Z) : result WiringError Z :=
  reject value <=? 0 with InvalidGlobalLimits in
  let? converted := u256_FromBig value orelse LimitOverflow in Ok converted.

Definition budgetLimits (perTransaction perHour perDay cumulative : Z) : result WiringError Limits :=
  let! perTransaction := convertLimit perTransaction in
  let! perHour := convertLimit perHour in
  let! perDay := convertLimit perDay in
  let! cumulative := convertLimit cumulative in
  Ok (mkLimits perTransaction perHour perDay cumulative).

Section Policies.
Context {CL : ConfigLib}.

(** The overhead and the reserve are not negative. *)
Definition networkBudget (sponsor : Address) (network : Network) : result WiringError NetworkPolicy :=
  let economic := Net_EconomicPolicy network in
  let! limits := budgetLimits (Econ_MaxTransactionCostWei economic) (Econ_HourlyBudgetWei economic) (Econ_DailyBudgetWei economic)
                   (Econ_CumulativeBudgetWei economic) in
  let? overhead := u256_FromBig (Econ_TransactionOverheadWei economic) orelse InvalidNetworkBudget in
  let? reserve := u256_FromBig (Econ_SponsorMinimumBalanceWei economic) orelse InvalidNetworkBudget in
  reject u256_IsZero reserve with InvalidNetworkBudget in
  Ok (mkNetworkPolicy (Net_ChainID network) sponsor limits overhead reserve (Econ_EstimatedBaseFees economic)).

Definition runtimeBudgetPolicy (runtime : Runtime) : result WiringError Policy :=
  let policy := Run_Policy runtime in
  let! global := budgetLimits (RP_MaxTransactionCostWei policy) (RP_HourlyBudgetWei policy) (RP_DailyBudgetWei policy) (RP_CumulativeBudgetWei policy) in
  let! networks := foldM (fun networks network =>
    let! converted := networkBudget (Run_SponsorAddress runtime) network in Ok (networks ++ [converted])) (Run_Networks runtime) [] in
  Ok (mkPolicy global networks).

(** ** Fees and token values *)

Definition convertFee (value : Z) : result WiringError Z :=
  reject value <? 0 with InvalidRescuePolicy in
  let? converted := u256_FromBig value orelse RescuePolicyOverflow in Ok converted.

(** [FromBig] of an amount of a rule, which is not negative. *)
Definition addTokenValue (values : gmap Address TrustedTokenValuePolicy) (rule : TokenValueRule) : result WiringError (gmap Address TrustedTokenValuePolicy) :=
  let? minimum := u256_FromBig (Rule_MinimumBalance rule) orelse InvalidTokenValueRule in
  let? maximum := u256_FromBig (Rule_MaxTransactionCostWei rule) orelse InvalidTokenValueRule in
  reject u256_IsZero minimum || u256_IsZero maximum with InvalidTokenValueRule in
  Ok (<[Rule_Address rule := mkTokenValue minimum maximum]> values).

Definition rescuePolicy (network : Network) : result WiringError (FeePolicy * Z * gmap Address TrustedTokenValuePolicy) :=
  let economic := Net_EconomicPolicy network in
  let! maxFee := convertFee (Econ_MaxFeePerGasWei economic) in
  let! maxPriority := convertFee (Econ_MaxPriorityFeePerGasWei economic) in
  let! overhead := convertFee (Econ_TransactionOverheadWei economic) in
  let! unknownCap := convertFee (Econ_UnknownTokenMaxTransactionCostWei economic) in
  let! nativeMinimum := convertFee (Econ_NativeMinimumNetValueWei economic) in
  let! costCap := convertFee (Econ_MaxTransactionCostWei economic) in
  reject Econ_MinPriorityFeePerGasWei economic <? 0 with InvalidMinimumPriority in
  let? minPriority := u256_FromBig (Econ_MinPriorityFeePerGasWei economic) orelse InvalidMinimumPriority in
  let policy := mkFeePolicy (Net_ChainID network) maxFee maxPriority minPriority (Econ_TokenGasLimit economic) (Econ_NativeGasLimit economic)
                  overhead unknownCap costCap (Econ_UnboundedAdditionalFees economic) (Econ_EstimatedBaseFees economic) in
  let! tokenValues := foldM addTokenValue (Econ_TokenValueRules economic) ∅ in
  Ok (policy, nativeMinimum, tokenValues).

(** ** Providers, admission, identity of the ledger *)

Definition providerIdentities (network : Network) : list ProviderIdentity :=
  map (fun p => mkIdentity (RPv_ID p) (RPv_EndpointFingerprint p) (RPv_TrustDomain p)) (Net_ReadProviders network).

Definition admissionConfig (runtime : Runtime) : AdmissionConfig :=
  let policy := Run_Policy runtime in
  Admission.mkConfig (RP_AbuseWindow policy) Minute (RP_RateLimitPerMinute policy) (RP_MaxAttemptsPerTokenWindow policy)
    (RP_MaxAttemptsPerSourceEvent policy) (RP_MaxNewUnknownTokensPerWindow policy)
    (maxPendingCandidates * Z.of_nat (length (Run_Networks runtime))).

Definition budgetBindingFingerprint (runtime : Runtime) (prepared : list (Network * Address)) : bytes :=
  sha256 (str "guard-daemon/budget-binding/v1" ++ [x00] ++ Run_SourceAddress runtime ++ Run_SponsorAddress runtime ++ Run_Destination runtime
          ++ concat (map (fun '(network, rescuer) =>
               be_bytes 8 (Net_ChainID network) ++ rescuer ++ [if Net_AllowUnknownTokens network then x01 else x00]
               ++ concat (Net_TrustedTokens network)) prepared)).

(** [config.Network.Domain]. *)
Record DomainNetwork := mkDomainNetwork {
  DN_Name : bytes;
  DN_ChainID : NetworkID;
  DN_HTTPURL : bytes;
  DN_WSURL : bytes;
  DN_Rescuer : Address;
  DN_HasRescuer : bool;
  DN_Tokens : list Token;
  DN_AllowUnknownTokens : bool }.

Definition Network_Domain (network : Network) (rescuer : Address) : DomainNetwork :=
  let '(http, ws) := match Net_ReadProviders network with p :: _ => (RPv_HTTPURL p, RPv_WSURL p) | [] => ([], []) end in
  mkDomainNetwork (Net_Name network) (Net_ChainID network) http ws rescuer (negb (bytes_eqb rescuer zeroAddress)) (Net_Tokens network)
    (Net_AllowUnknownTokens network).

(** The [rescue.Config] of a network: the services, observers and signers are
    there, the native threshold and the finality timeout are left to their defaults. *)
Definition coordinatorConfig (runtime : Runtime) (network : Network) (rescuer : Address) (lease : Lease) (structured : bool)
    (fee : FeePolicy) (nativeMinimum : Z) (tokenValues : gmap Address TrustedTokenValuePolicy) : Config :=
  let domain := Network_Domain network rescuer in
  mkConfig (Net_Claim network) (Net_LatestState network) (DN_ChainID domain) (DN_HasRescuer domain) (DN_Rescuer domain)
    (map Token_Address (DN_Tokens domain)) (DN_AllowUnknownTokens domain) (Run_SourceAddress runtime) (Run_SponsorAddress runtime)
    (Run_Destination runtime) None (Run_ReadTimeout runtime) (Run_ReadTimeout runtime) lease processLeaseTTL rescueMaxAttempts
    candidateRetryDelay rescueReceiptTimeout 0 fee nativeMinimum (Net_TrustedTokens network) tokenValues true true true true structured.

End Policies.

End Wiring.
Export Wiring.
