(* ===== verification/WiringClaims.v ===== *)
(** * What the loader accepts, the components accept

    For each component built from the configuration: its own validation succeeds on
    every sound configuration, up to the conditions the loader leaves open, which
    the theorem states exactly. *)

From S2P Require Import Prelude GoTime Bytes Sha256 Domain Bolt BudgetModel BudgetCodec BudgetLedger StoreModel StoreLease RescueFees Admission RpcQuorum Programs RescueErrors Contracts RescueEffects RescueSession RescueOperations RescueFlow RescueCoordinator GoText Configuration ConfigNetworks ConfigRuntime ConfigGuarantees Wiring.
From Stdlib Require Import Strings.Byte.
From Stdlib Require Strings.String.
Import Strings.String.StringSyntax.

Module WiringTheorems.

(** ** Budget *)

Lemma u256_FromBig_ok z : z < 2 ^ 256 -> u256_FromBig z = Some z.
Proof. intros H. unfold u256_FromBig. by rewrite (proj2 (Z.ltb_lt _ _) H). Qed.

Lemma convertLimit_ok z : 0 < z < 2 ^ 256 -> convertLimit z = Ok z.
Proof. intros H. unfold convertLimit. rewrite (proj2 (Z.leb_gt _ _)) by lia. by rewrite u256_FromBig_ok by lia. Qed.

Lemma budgetLimits_ok a b c d : 0 < a <= b -> b <= c <= d -> d < 2 ^ 256 -> budgetLimits a b c d = Ok (mkLimits a b c d).
Proof. intros H1 H2 H3. unfold budgetLimits. rewrite !convertLimit_ok by lia. reflexivity. Qed.

Lemma validateLimits_ok a b c d : 0 < a <= b -> b <= c <= d -> validateLimits (mkLimits a b c d) = true.
Proof.
  intros H1 H2. unfold validateLimits, u256_IsZero, u256_Gt. cbn.
  rewrite !(proj2 (Z.eqb_neq _ _)) by lia. rewrite !(proj2 (Z.ltb_ge _ _)) by lia. done.
Qed.

Section Accepted.
Context {CL : ConfigLib}.

(** The budget policy of a sound network. *)
Definition budgetOf (sponsor : Address) (n : Network) : NetworkPolicy :=
  let e := Net_EconomicPolicy n in
  mkNetworkPolicy (Net_ChainID n) sponsor
    (mkLimits (Econ_MaxTransactionCostWei e) (Econ_HourlyBudgetWei e) (Econ_DailyBudgetWei e) (Econ_CumulativeBudgetWei e))
    (Econ_TransactionOverheadWei e) (Econ_SponsorMinimumBalanceWei e) (Econ_EstimatedBaseFees e).

Lemma economics_cumulative global trusted e : policy_sound global -> economics_sound global trusted e -> Econ_CumulativeBudgetWei e < 2 ^ 256.
Proof. intros Hp He. pose proof (es_global _ _ _ He). pose proof (ps_cumulative _ Hp). lia. Qed.

Lemma networkBudget_ok mode global sponsor n :
  policy_sound global -> network_sound mode global n -> networkBudget sponsor n = Ok (budgetOf sponsor n).
Proof.
  intros Hp Hn. pose proof (ns_economics _ _ _ Hn) as He. unfold networkBudget.
  rewrite budgetLimits_ok; [|apply (es_max _ _ _ He)|apply (es_hourly _ _ _ He)|by eapply economics_cumulative].
  pose proof (es_overhead _ _ _ He). pose proof (es_reserve _ _ _ He). pose proof (ps_reserve _ Hp).
  rewrite !u256_FromBig_ok by lia. unfold u256_IsZero. by rewrite (proj2 (Z.eqb_neq _ _)) by lia.
Qed.

Lemma foldM_append {E A B} (f : A -> result E B) g l acc :
  Forall (fun x => f x = Ok (g x)) l -> foldM (fun acc x => let! y := f x in Ok (acc ++ [y])) l acc = Ok (acc ++ map g l).
Proof.
  intros H. revert acc. induction H as [|x l Hx H IH]; intros acc; cbn; [by rewrite app_nil_r|]. rewrite Hx. cbn. rewrite IH, <-app_assoc. done.
Qed.

Lemma runtimeBudgetPolicy_ok runtime :
  runtime_sound runtime ->
  runtimeBudgetPolicy runtime = Ok (mkPolicy
    (mkLimits (RP_MaxTransactionCostWei (Run_Policy runtime)) (RP_HourlyBudgetWei (Run_Policy runtime)) (RP_DailyBudgetWei (Run_Policy runtime))
       (RP_CumulativeBudgetWei (Run_Policy runtime))) (map (budgetOf (Run_SponsorAddress runtime)) (Run_Networks runtime))).
Proof.
  intros Hr. pose proof (rt_policy _ Hr) as Hp. unfold runtimeBudgetPolicy.
  rewrite budgetLimits_ok; [|apply (ps_max _ Hp)|apply (ps_hourly _ Hp)|apply (ps_cumulative _ Hp)].
  rewrite (foldM_append _ (budgetOf (Run_SponsorAddress runtime))); [done|].
  eapply Forall_impl; [apply (rt_networks _ Hr)|]. intros n. by apply networkBudget_ok.
Qed.

Lemma validTable_ok (l : list NetworkPolicy) (table : gmap Z NetworkPolicy) :
  Forall (fun n => 0 < NP_Network n /\ is_zero_bytes (NP_Sponsor n) = false /\ NP_EmergencySponsorReserve n <> 0 /\ validateLimits (NP_Limits n) = true) l ->
  NoDup (map NP_Network l) -> (forall n, n ∈ l -> table !! NP_Network n = None) ->
  exists table', foldM (fun (table : gmap Z NetworkPolicy) network =>
      reject (NP_Network network <=? 0) || is_zero_bytes (NP_Sponsor network) || u256_IsZero (NP_EmergencySponsorReserve network)
          || negb (validateLimits (NP_Limits network)) with ErrInvalidOptions in
      reject bool_decide (is_Some (table !! NP_Network network)) with ErrInvalidOptions in
      Ok (<[NP_Network network := network]> table)) l table = Ok table'.
Proof.
  intros Hf. revert table. induction Hf as [|n l (Hpos & Hz & Hres & Hlim) Hf IH]; intros table Hn Ht; [by eexists|].
  cbn [map] in Hn. apply NoDup_cons in Hn as [Hx Hn]. cbn [foldM]. unfold u256_IsZero.
  rewrite Hz, Hlim, (proj2 (Z.leb_gt _ _)), (proj2 (Z.eqb_neq _ _)) by lia. cbn.
  rewrite (bool_decide_eq_false_2 (is_Some _)) by (rewrite (Ht n) by left; by intros [? ?]). apply IH; [done|].
  intros m Hm. rewrite lookup_insert_ne; [apply Ht; by right|]. intros Heq. apply Hx. rewrite Heq. by apply list_elem_of_fmap_2.
Qed.

Lemma is_zero_address a : isAddress a -> a <> zeroAddress -> is_zero_bytes a = false.
Proof. intros Ha Hz. unfold is_zero_bytes, isAddress in *. rewrite Ha. by apply bytes_eqb_false. Qed.

Lemma budget_accepted runtime :
  runtime_sound runtime -> NoDup (map Net_ChainID (Run_Networks runtime)) -> Z.of_nat (length (Run_Networks runtime)) < 2 ^ 32 ->
  exists policy, runtimeBudgetPolicy runtime = Ok policy /\ isOk (validateAndNormalizePolicy policy) = true.
Proof.
  intros Hr Hn Hl. pose proof (rt_policy _ Hr) as Hp. rewrite (runtimeBudgetPolicy_ok _ Hr). eexists. split; [done|].
  unfold validateAndNormalizePolicy. cbn [Policy_Global Policy_Networks].
  rewrite validateLimits_ok by (apply (ps_max _ Hp) || apply (ps_hourly _ Hp)). cbn [negb orb].
  rewrite bool_decide_eq_false_2 by (intros Hnil%map_eq_nil; by apply (rt_some _ Hr)).
  rewrite length_map, (proj2 (Z.ltb_ge _ _)) by lia. cbn [orb].
  set (networks := map _ _).
  assert (Hf : Forall (fun n => 0 < NP_Network n /\ is_zero_bytes (NP_Sponsor n) = false /\ NP_EmergencySponsorReserve n <> 0 /\ validateLimits (NP_Limits n) = true) networks).
  { apply Forall_fmap. eapply Forall_impl; [apply (rt_networks _ Hr)|]. intros n Hs. pose proof (ns_economics _ _ _ Hs) as He. cbn.
    pose proof (ns_chain _ _ _ Hs). pose proof (es_reserve _ _ _ He). pose proof (ps_reserve _ Hp).
    split; [lia|]. split; [apply is_zero_address; [apply (rt_addresses _ Hr)|apply (rt_nonzero _ Hr)]|]. split; [lia|].
    apply validateLimits_ok; [apply (es_max _ _ _ He)|apply (es_hourly _ _ _ He)]. }
  destruct (validTable_ok (sort_networks networks) ∅) as [table ->]; [by rewrite sort_networks_perm| |intros; apply lookup_empty|done].
  rewrite (fmap_Permutation NP_Network _ _ (sort_networks_perm networks)). unfold networks. rewrite map_map. exact Hn.
Qed.

(** ** Fees *)

Lemma convertFee_ok z : 0 <= z < 2 ^ 256 -> convertFee z = Ok z.
Proof. intros H. unfold convertFee. rewrite (proj2 (Z.ltb_ge _ _)) by lia. by rewrite u256_FromBig_ok by lia. Qed.

(** The table of value policies of a list of rules. *)
Definition valuesOf (rules : list TokenValueRule) : gmap Address TrustedTokenValuePolicy :=
  foldl (fun values r => <[Rule_Address r := mkTokenValue (Rule_MinimumBalance r) (Rule_MaxTransactionCostWei r)]> values) ∅ rules.

Lemma addTokenValue_ok trusted maxCost rules :
  rules_sound trusted maxCost rules -> foldM addTokenValue rules ∅ = Ok (valuesOf rules).
Proof.
  intros [_ He]. unfold valuesOf. generalize (∅ : gmap Address TrustedTokenValuePolicy). induction He as [|r l (_ & _ & Hm & Hc & Hc') He IH]; intros values; [done|].
  cbn [foldM foldl]. unfold addTokenValue at 1. rewrite !u256_FromBig_ok by lia. unfold u256_IsZero. rewrite !(proj2 (Z.eqb_neq _ _)) by lia. apply IH.
Qed.

Definition feesOf (n : Network) : FeePolicy :=
  let e := Net_EconomicPolicy n in
  mkFeePolicy (Net_ChainID n) (Econ_MaxFeePerGasWei e) (Econ_MaxPriorityFeePerGasWei e) (Econ_MinPriorityFeePerGasWei e) (Econ_TokenGasLimit e)
    (Econ_NativeGasLimit e) (Econ_TransactionOverheadWei e) (Econ_UnknownTokenMaxTransactionCostWei e) (Econ_MaxTransactionCostWei e)
    (Econ_UnboundedAdditionalFees e) (Econ_EstimatedBaseFees e).

Lemma rescuePolicy_ok mode global n :
  policy_sound global -> network_sound mode global n ->
  rescuePolicy n = Ok (feesOf n, Econ_NativeMinimumNetValueWei (Net_EconomicPolicy n), valuesOf (Econ_TokenValueRules (Net_EconomicPolicy n))).
Proof.
  intros Hp Hn. pose proof (ns_economics _ _ _ Hn) as He. pose proof (economics_cumulative _ _ _ Hp He).
  destruct He as [Hmax Hhour _ _ Hfee Hfee' Hmin _ Hover _ Hnat Hunk Hrules]. unfold rescuePolicy. rewrite !convertFee_ok by lia.
  rewrite (proj2 (Z.ltb_ge (Econ_MinPriorityFeePerGasWei (Net_EconomicPolicy n)) 0)) by lia. rewrite u256_FromBig_ok by lia.
  by rewrite (addTokenValue_ok _ _ _ Hrules).
Qed.

Lemma fees_valid mode global n :
  policy_sound global -> network_sound mode global n -> validFeePolicy (feesOf n) = true /\ RescueFees.policy_typed (feesOf n).
Proof.
  intros Hp Hn. pose proof (ns_economics _ _ _ Hn) as He. pose proof (economics_cumulative _ _ _ Hp He). pose proof (ns_chain _ _ _ Hn).
  destruct He as [Hmax Hhour _ _ Hfee Hfee' Hmin Hgas Hover _ Hnat Hunk Hrules]. split.
  - unfold validFeePolicy, u256_IsZero, u256_Gt, feesOf. cbn. rewrite !(proj2 (Z.eqb_neq _ _)) by lia.
    rewrite !(proj2 (Z.ltb_lt 0 _)) by lia. rewrite !(proj2 (Z.ltb_ge _ _)) by lia. done.
  - constructor; unfold inU, feesOf; cbn -[Z.pow]; lia.
Qed.

(** The quote of any rescue at the highest fee is within the cap of the network. *)
Lemma dearest_within_cap global trusted e asset n :
  economics_sound global trusted e -> Net_EconomicPolicy n = e ->
  forall gas, gasLimit (feesOf n) asset = Some gas -> gas * Fee_MaxFeePerGas (feesOf n) + Fee_Overhead (feesOf n) <= Fee_TransactionCostCap (feesOf n).
Proof. intros He <- gas. destruct (es_dearest _ _ _ He). destruct asset; intros [= <-]; cbn; lia. Qed.

(** ** Token values *)

Lemma dom_valuesOf rules : dom (valuesOf rules) = list_to_set (C := gset Address) (map Rule_Address rules).
Proof.
  unfold valuesOf. assert (forall values : gmap Address TrustedTokenValuePolicy,
    dom (foldl (fun values r => <[Rule_Address r := mkTokenValue (Rule_MinimumBalance r) (Rule_MaxTransactionCostWei r)]> values) values rules)
    = list_to_set (C := gset Address) (map Rule_Address rules) ∪ dom values) as Hg.
  { induction rules as [|r l IH]; intros values; cbn; [set_solver|]. rewrite IH, dom_insert_L. set_solver. }
  rewrite Hg, dom_empty_L. set_solver.
Qed.

Lemma valuesOf_entries trusted maxCost rules :
  rules_sound trusted maxCost rules ->
  map_Forall (fun a v => a ∈ trusted /\ TV_MinimumBalance v <> 0 /\ TV_MaximumCost v <> 0) (valuesOf rules).
Proof.
  intros [_ He]. unfold valuesOf. assert (forall values : gmap Address TrustedTokenValuePolicy,
    map_Forall (fun a v => a ∈ trusted /\ TV_MinimumBalance v <> 0 /\ TV_MaximumCost v <> 0) values ->
    map_Forall (fun a v => a ∈ trusted /\ TV_MinimumBalance v <> 0 /\ TV_MaximumCost v <> 0)
      (foldl (fun values r => <[Rule_Address r := mkTokenValue (Rule_MinimumBalance r) (Rule_MaxTransactionCostWei r)]> values) values rules)) as Hg.
  { induction He as [|r l (Ht & _ & Hm & Hc & _) He IH]; intros values Hv; cbn; [done|]. apply IH, map_Forall_insert_2; [|done]. cbn. split; [done|lia]. }
  apply Hg, map_Forall_empty.
Qed.

(** The value policy of a token is that of its rule. *)
Lemma valuesOf_lookup rules a v :
  NoDup (map Rule_Address rules) ->
  valuesOf rules !! a = Some v <-> exists r, r ∈ rules /\ Rule_Address r = a /\ v = mkTokenValue (Rule_MinimumBalance r) (Rule_MaxTransactionCostWei r).
Proof.
  intros Hnd. unfold valuesOf. induction rules as [|r rules IH] using rev_ind; cbn [foldl]; [rewrite lookup_empty; split; [done|]; by intros (? & ?%elem_of_nil & _)|].
  rewrite map_app in Hnd. apply NoDup_app in Hnd as (Hnd & Hdis & _). rewrite foldl_snoc. destruct (decide (Rule_Address r = a)) as [<-|Hne].
  - rewrite lookup_insert_eq. split; [intros [= <-]; exists r; split; [apply elem_of_app; right; by left|done]|].
    intros (q & [Hq| ->%list_elem_of_singleton]%elem_of_app & Ha & ->); [|done]. destruct (Hdis (Rule_Address r)); [|by left]. apply list_elem_of_fmap. by exists q.
  - rewrite lookup_insert_ne by done. rewrite IH by done. split; intros (q & Hq & Ha & Hv); exists q; (split; [|done]); [apply elem_of_app; by left|].
    apply elem_of_app in Hq as [?| ->%list_elem_of_singleton]; done.
Qed.

End Accepted.

End WiringTheorems.
Export WiringTheorems.

Module WiringClaims.

(** ** Texts that normalisation keeps *)

(** Printable ASCII other than the space, and not an upper-case letter. *)
Definition plainByte (b : byte) : bool := (33 <=? byteZ b) && (byteZ b <? 127) && negb ((65 <=? byteZ b) && (byteZ b <=? 90)).

Definition plain (s : bytes) : bool := forallb plainByte s.

(** No space begins or ends with a plain byte. *)
Lemma spaces_not_plain : forallb (fun text => match text with b :: _ => negb (plainByte b) | [] => false end) (unicodeSpaces ++ map (@rev byte) unicodeSpaces) = true.
Proof. vm_compute. reflexivity. Qed.

Lemma trimTexts_plain texts b s :
  forallb (fun text => match text with b :: _ => negb (plainByte b) | [] => false end) texts = true -> plainByte b = true ->
  trimTexts texts (b :: s) 0 = b :: s.
Proof.
  intros Ht Hb. cbn [trimTexts]. destruct (List.find (HasPrefix (b :: s)) texts) as [text|] eqn:Ef; [|done]. apply List.find_some in Ef as [Hin Hp].
  rewrite forallb_forall in Ht. specialize (Ht _ Hin). destruct text as [|c text]; [done|]. cbn in Hp. bool_hyps. subst c. by rewrite Hb in Ht.
Qed.

Lemma TrimSpace_plain s : plain s = true -> TrimSpace s = s.
Proof.
  intros Hs. pose proof spaces_not_plain as Hsp. rewrite forallb_app in Hsp. apply andb_true_iff in Hsp as [H1 H2]. unfold TrimSpace.
  assert (forall texts t, forallb (fun text => match text with b :: _ => negb (plainByte b) | [] => false end) texts = true -> plain t = true ->
    trimTexts texts t 0 = t) as Ht.
  { intros texts [|b t] Htx Hp; [done|]. cbn in Hp. bool_hyps. by apply trimTexts_plain. }
  rewrite (Ht unicodeSpaces s) by done. rewrite (Ht _ (rev s)); [apply rev_involutive|done|].
  unfold plain in *. rewrite forallb_forall in *. intros x Hx. apply Hs. by apply in_rev.
Qed.

Lemma lowerByte_plain b : plainByte b = true -> lowerByte b = b /\ byteZ b < 128.
Proof. unfold plainByte, lowerByte. intros H. bool_hyps. rewrite H0. split; [done|lia]. Qed.

Lemma plain_ascii s : plain s = true -> isAscii s = true /\ asciiLower s = s.
Proof.
  induction s as [|b s IH]; [done|]. cbn. intros H. bool_hyps. destruct (IH H0) as [Ha Hl]. destruct (lowerByte_plain b H) as [Hb Hz].
  unfold isAscii, asciiLower in *. cbn. rewrite Ha, Hl, Hb, (proj2 (Z.ltb_lt _ _) Hz). done.
Qed.

Lemma plain_hex b : plain (hexEncode b) = true.
Proof.
  induction b as [|x b IH]; [done|]. unfold plain in *. cbn [hexEncode flat_map]. fold (hexEncode b). rewrite forallb_app, IH, andb_true_r.
  destruct x; vm_compute; reflexivity.
Qed.

Section Claims.
Context {CL : ConfigLib} {LA : ConfigLaws CL}.

Lemma normalized_plain s : plain s = true -> normalizedIdentity ToLower TrimSpace s = s.
Proof. intros Hs. unfold normalizedIdentity. rewrite TrimSpace_plain by done. destruct (plain_ascii s Hs) as [Ha Hl]. by rewrite toLower_ascii. Qed.

Lemma registry_plain : forallb (fun d => plain (Def_name d)) networkRegistry = true.
Proof. vm_compute. reflexivity. Qed.

Lemma plain_id name index : plain name = true -> plain (str index) = true -> plain (name ++ str index) = true.
Proof. unfold plain. rewrite forallb_app. by intros -> ->. Qed.

Lemma hexEncode_nonempty d : isHash d -> hexEncode d <> [].
Proof. destruct d; [done|]. intros _. done. Qed.

(** The identities of a sound network pass the checks of the quorum reader. *)
Lemma identities_accepted mode global n :
  network_sound mode global n -> Forall (fun p => isAscii (RPv_TrustDomain p) = true) (Net_ReadProviders n) ->
  validateProviderIdentities ToLower TrimSpace (providerIdentities n) = Ok tt.
Proof.
  intros Hn Ha. destruct (ns_registered _ _ _ Hn) as (d & Hd & Hname & _). destruct (ns_providers _ _ _ Hn) as [(p1 & p2 & Hp & Hi1 & Hi2 & Hf & Ht) Htr Hh].
  pose proof registry_plain as Hpl. rewrite forallb_forall in Hpl. apply list_elem_of_In in Hd. specialize (Hpl d Hd). rewrite <-Hname in Hpl.
  unfold providerIdentities. rewrite Hp in *. apply Forall_cons_1 in Htr as [(Ht1 & Hne1) Htr], Hh as [(d1 & Hd1 & Hh1) Hh], Ha as [Ha1 Ha].
  apply Forall_cons_1 in Htr as [(Ht2 & Hne2) _], Hh as [(d2 & Hd2 & Hh2) _], Ha as [Ha2 _].
  unfold validateProviderIdentities. cbn [map length foldM]. unfold checkIdentity. cbn [Prov_ID Prov_Fingerprint Prov_TrustDomain].
  rewrite Hi1, Hi2, Hh1, Hh2. rewrite !(normalized_plain (_ ++ _)) by (apply plain_id; [done|vm_compute; reflexivity]).
  rewrite !(normalized_plain (hexEncode _)) by apply plain_hex. unfold normalizedIdentity. rewrite Ht1, Ht2, !toLower_ascii by done.
  rewrite (equalFold_ascii _ _ Ha1 Ha2) in Ht. apply bytes_eqb_false in Ht.
  assert (asciiLower (RPv_TrustDomain p1) <> [] /\ asciiLower (RPv_TrustDomain p2) <> []) as [Hl1 Hl2]
    by (split; intros Hx%map_eq_nil; done).
  assert (Net_Name n ++ str "-read-1" <> [] /\ Net_Name n ++ str "-read-2" <> []) as [Hid1 Hid2] by (by destruct (Net_Name n)).
  pose proof (hexEncode_nonempty d1 Hd1). pose proof (hexEncode_nonempty d2 Hd2).
  rewrite !(proj2 (bytes_eqb_false _ [])) by done.
  rewrite !(bool_decide_eq_false_2 (_ ∈ [])) by apply not_elem_of_nil. change (Z.of_nat 2 <? 2) with false. cbn [orb].
  rewrite !bool_decide_eq_false_2; [done|..]; intros Hx%list_elem_of_singleton; [congruence..|].
  apply app_inv_head in Hx. vm_compute in Hx. discriminate Hx.
Qed.

(** ** The coordinator *)

Lemma existsb_false {A} (f : A -> bool) l : (forall x, x ∈ l -> f x = false) -> existsb f l = false.
Proof. intros H. apply not_true_is_false. intros (x & Hx & Hf)%existsb_exists. apply list_elem_of_In in Hx. by rewrite H in Hf. Qed.

(** What the daemon puts beside the configuration of a network: its contract and
    the lease it acquired. *)
Record placed (runtime : Runtime) (n : Network) (rescuer : Address) (lease : Lease) : Prop := {
  pl_rescuer : isAddress rescuer /\ rescuer <> zeroAddress;
  pl_key : Lease_Key lease = mkLeaseKey (Net_ChainID n) (Run_SponsorAddress runtime);
  pl_owner : Lease_Owner lease <> [] }.

Section Coordinator.
Context (runtime : Runtime) (n : Network) (rescuer : Address) (lease : Lease) (structured : bool).
Context (Hr : runtime_sound runtime) (Hn : n ∈ Run_Networks runtime) (Hpl : placed runtime n rescuer lease).

Local Abbreviation rules := (Econ_TokenValueRules (Net_EconomicPolicy n)).
Local Abbreviation config :=
  (coordinatorConfig runtime n rescuer lease structured (feesOf n) (Econ_NativeMinimumNetValueWei (Net_EconomicPolicy n)) (valuesOf rules)).

Lemma sound_network : network_sound (Run_Mode runtime) (Run_Policy runtime) n.
Proof using Hr Hn. pose proof (rt_networks _ Hr) as Hf. rewrite Forall_forall in Hf. by apply Hf. Qed.

Lemma identities_checked : checkIdentities config = Ok tt.
Proof using Hr Hn Hpl.
  pose proof sound_network as Hs. destruct Hpl as [[Hra Hrz] Hk Ho]. destruct (rt_nonzero _ Hr) as (Hz1 & Hz2 & Hz3).
  destruct (rt_distinct _ Hr) as (Hd1 & Hd2 & Hd3). destruct (rt_addresses _ Hr) as (Ha1 & Ha2 & Ha3).
  destruct (fees_valid _ _ _ (rt_policy _ Hr) Hs) as [Hf _]. pose proof (ns_chain _ _ _ Hs).
  unfold checkIdentities, coordinatorConfig, Network_Domain. destruct (match Net_ReadProviders n with [] => _ | _ => _ end).
  cbn [Cfg_Network Cfg_HasRescuer Cfg_Rescuer Cfg_Source Cfg_Sponsor Cfg_Destination Cfg_ServicesSet Cfg_FeePolicy Cfg_Lease DN_ChainID DN_HasRescuer DN_Rescuer].
  rewrite !is_zero_address by done. rewrite !(proj2 (bytes_eqb_false _ _)) by done.
  rewrite (proj2 (Z.leb_gt _ _)) by lia. rewrite Hf, Hk. cbn. rewrite !Z.eqb_refl, bytes_eqb_refl. cbn.
  rewrite (proj2 (Z.eqb_neq _ _)); [done|]. unfold len. destruct (Lease_Owner lease); [done|]. cbn. lia.
Qed.

(** The trusted tokens without a value rule. *)
Definition everyTrustedValued : Prop := forall t, t ∈ Net_TrustedTokens n -> t ∈ map Rule_Address rules.

Lemma rules_cover : size (valuesOf rules) = size (list_to_set (C := gset Address) (Net_TrustedTokens n)) <-> everyTrustedValued.
Proof using Hr Hn.
  pose proof sound_network as Hs. destruct (es_rules _ _ _ (ns_economics _ _ _ Hs)) as [Hnd Hin].
  rewrite <-(size_dom (D := gset Address)), dom_valuesOf. unfold everyTrustedValued. split.
  - intros Hsize t Ht. apply (elem_of_list_to_set (C := gset Address)).
    rewrite (set_subseteq_size_eq (list_to_set (map Rule_Address rules)) (list_to_set (Net_TrustedTokens n)));
      [by apply elem_of_list_to_set| |lia].
    intros x (r & -> & Hx)%elem_of_list_to_set%list_elem_of_fmap. rewrite Forall_forall in Hin. apply elem_of_list_to_set. by apply Hin.
  - intros Hall. f_equal. apply set_eq. intros t. rewrite !elem_of_list_to_set. split; [|apply Hall].
    intros (r & -> & Hx)%list_elem_of_fmap. rewrite Forall_forall in Hin. by apply Hin.
Qed.

Lemma tokens_checked stopped :
  (stopped = true \/ everyTrustedValued) /\ checkTokens config stopped = Ok (list_to_set (map Token_Address (Net_Tokens n)), list_to_set (Net_TrustedTokens n))
  \/ stopped = false /\ ~ everyTrustedValued /\ isOk (checkTokens config stopped) = false.
Proof using Hr Hn.
  pose proof sound_network as Hs. destruct (ns_tokens _ _ _ Hs) as [Hnd Hty Hz Htr _]. pose proof (es_rules _ _ _ (ns_economics _ _ _ Hs)) as Hrules.
  rewrite Forall_forall in Hty. unfold checkTokens, coordinatorConfig, Network_Domain. destruct (match Net_ReadProviders n with [] => _ | _ => _ end).
  cbn [Cfg_Tokens Cfg_TrustedTokens Cfg_TrustedTokenValues DN_Tokens].
  rewrite existsb_false by (intros x Hx; apply is_zero_address; [by apply Hty|by intros ->]).
  rewrite existsb_false.
  2:{ intros x Hx%Htr. apply orb_false_iff. split; [apply is_zero_address; [by apply Hty|by intros ->]|].
      apply negb_false_iff, bool_decide_eq_true_2. by apply elem_of_list_to_set. }
  rewrite existsb_false.
  2:{ intros [a v] Hx%elem_of_map_to_list. destruct (valuesOf_entries _ _ _ Hrules a v Hx) as (Ha & Hm & Hc).
      unfold u256_IsZero. rewrite bool_decide_eq_true_2 by (by apply elem_of_list_to_set). by rewrite !(proj2 (Z.eqb_neq _ _)) by done. }
  destruct stopped; [left; auto|]. cbn [negb andb]. destruct (Nat.eqb _ _) eqn:Es; cbn [negb].
  - apply Nat.eqb_eq in Es. left. split; [right; by apply rules_cover|done].
  - apply Nat.eqb_neq in Es. right. split; [done|]. split; [|done]. by rewrite <-rules_cover.
Qed.

(** The fee model of a network that may spend: bounded, or estimated on Base. *)
Definition boundedFees : Prop :=
  Econ_UnboundedAdditionalFees (Net_EconomicPolicy n) = true -> Econ_EstimatedBaseFees (Net_EconomicPolicy n) = true.

Lemma fee_model_checked stopped : isOk (checkFeeModel config stopped) = true <-> (stopped = false -> boundedFees).
Proof using Hr Hn.
  pose proof (ns_estimated _ _ _ sound_network) as He. unfold checkFeeModel, coordinatorConfig, Network_Domain, boundedFees.
  destruct (match Net_ReadProviders n with [] => _ | _ => _ end). cbn [Cfg_FeePolicy Cfg_Network feesOf Fee_EstimatedBaseFees Fee_UnboundedAdditionalFees DN_ChainID].
  destruct (Econ_EstimatedBaseFees (Net_EconomicPolicy n)); [rewrite He by done; destruct stopped; by cbn; rewrite ?andb_false_r|].
  destruct stopped, (Econ_UnboundedAdditionalFees (Net_EconomicPolicy n)); cbn; intuition congruence.
Qed.

(** What the claim, if any, must meet beyond what the loader checked: it does not
    call a party of the rescue or the contract, and what it may cost and must bring
    is within the limits of the network, of unknown tokens unless its token is
    trusted, and of the value rule of its token. *)
Record claimLimited (plan : ClaimPlan) : Prop := {
  cl_target : Plan_Target plan ∉ [Run_SourceAddress runtime; Run_SponsorAddress runtime; Run_Destination runtime; rescuer];
  cl_cost : Plan_MaximumCost plan <= Econ_MaxTransactionCostWei (Net_EconomicPolicy n);
  cl_unknown : Plan_Token plan ∈ Net_TrustedTokens n \/ Plan_MaximumCost plan <= Econ_UnknownTokenMaxTransactionCostWei (Net_EconomicPolicy n);
  cl_rule : forall rule, rule ∈ rules -> Rule_Address rule = Plan_Token plan ->
    Plan_MaximumCost plan <= Rule_MaxTransactionCostWei rule /\ Rule_MinimumBalance rule <= Plan_MinimumReceived plan }.

Definition claimAccepted : Prop := forall plan, Net_Claim n = Some plan -> claimLimited plan.

(** The coordinator's check of a loaded claim decides it. *)
Lemma claim_checked plan :
  Net_Claim n = Some plan ->
  isOk (checkClaim config (list_to_set (map Token_Address (Net_Tokens n))) (list_to_set (Net_TrustedTokens n)) plan) = true <-> claimLimited plan.
Proof using Hr Hn.
  intros Hplan. pose proof sound_network as Hs. destruct (ns_claim _ _ _ Hs plan Hplan) as (Hval & _ & Htok).
  destruct (es_rules _ _ _ (ns_economics _ _ _ Hs)) as [Hnd _].
  unfold checkClaim, coordinatorConfig, Network_Domain. destruct (match Net_ReadProviders n with [] => _ | _ => _ end).
  cbn [Cfg_FeePolicy Cfg_AllowUnknownTokens Cfg_Source Cfg_Sponsor Cfg_Destination Cfg_Rescuer Cfg_TrustedTokenValues feesOf Fee_TransactionCostCap Fee_UnknownTokenCostCap
    DN_AllowUnknownTokens DN_Rescuer]. rewrite Hval. cbn [isOk negb orb]. unfold u256_Gt, u256_Lt.
  assert (Ht : negb (bool_decide (Plan_Token plan ∈ list_to_set (C := gset Address) (map Token_Address (Net_Tokens n)))) && negb (Net_AllowUnknownTokens n) = false).
  { destruct Htok as [->|Htok]; [by rewrite andb_false_r|]. rewrite bool_decide_eq_true_2; [done|]. by apply elem_of_list_to_set. }
  rewrite Ht. cbn [orb].
  assert (Hunk : negb (bool_decide (Plan_Token plan ∈ list_to_set (C := gset Address) (Net_TrustedTokens n))) &&
      (Econ_UnknownTokenMaxTransactionCostWei (Net_EconomicPolicy n) <? Plan_MaximumCost plan) = false <->
    (Plan_Token plan ∈ Net_TrustedTokens n \/ Plan_MaximumCost plan <= Econ_UnknownTokenMaxTransactionCostWei (Net_EconomicPolicy n))).
  { rewrite andb_false_iff, negb_false_iff, bool_decide_eq_true, elem_of_list_to_set, Z.ltb_ge. done. }
  assert (Hrule : forall refusal : GoError, isOk (match valuesOf rules !! Plan_Token plan with
      | Some value => reject (TV_MaximumCost value <? Plan_MaximumCost plan) || (Plan_MinimumReceived plan <? TV_MinimumBalance value)
          with refusal in Ok tt
      | None => Ok tt end) = true <->
    forall rule, rule ∈ rules -> Rule_Address rule = Plan_Token plan ->
      Plan_MaximumCost plan <= Rule_MaxTransactionCostWei rule /\ Rule_MinimumBalance rule <= Plan_MinimumReceived plan).
  { intros refusal. destruct (valuesOf rules !! Plan_Token plan) as [v|] eqn:Ev.
    - apply valuesOf_lookup in Ev as (rule & Hrl & Ha & ->); [|done]. cbn [TV_MaximumCost TV_MinimumBalance]. destruct (_ || _) eqn:E; cbn [isOk].
      + split; [done|]. intros H. destruct (H rule Hrl Ha). apply orb_true_iff in E as [E|E]; bool_hyps; lia.
      + split; [|done]. intros _ rule' Hrl' Ha'. bool_hyps.
        assert (rule' = rule) as ->; [|lia]. apply list_elem_of_lookup in Hrl as [i Hi]. apply list_elem_of_lookup in Hrl' as [j Hj].
        assert (i = j) as ->; [|congruence]. eapply (NoDup_lookup (map Rule_Address rules)); [done|..]; rewrite list_lookup_fmap; [by rewrite Hi|rewrite Hj; cbn; congruence].
    - split; [|done]. intros _ rule Hrl Ha. exfalso.
      assert (Hsome : valuesOf rules !! Plan_Token plan = Some (mkTokenValue (Rule_MinimumBalance rule) (Rule_MaxTransactionCostWei rule))); [|congruence].
      apply valuesOf_lookup; [done|]. by exists rule. }
  split.
  - intros Hok. destruct (_ || _) eqn:E1 in Hok; [done|]. destruct (_ && _) eqn:E2 in Hok; [done|]. apply Hunk in E2. pose proof (proj1 (Hrule _) Hok) as Hok2.
    apply orb_false_iff in E1 as [E1 Hcost]. rewrite !orb_false_iff, !bytes_eqb_false in E1. bool_hyps. split; try done. rewrite !not_elem_of_cons. split_hyps. repeat split; try done. apply not_elem_of_nil.
  - intros [H1 H2 H3 H4]. rewrite !not_elem_of_cons in H1. split_hyps. rewrite !(proj2 (bytes_eqb_false _ _)) by done. cbn [orb].
    rewrite (proj2 (Z.ltb_ge _ _)) by done. cbv iota. rewrite (proj2 Hunk) by done. by apply Hrule.
Qed.

(** A coordinator is built exactly when the process is stopped or every trusted
    token has a value rule and the fees are bounded, and the claim is acceptable. *)
Lemma coordinator_accepted stopped :
  isOk (NewCoordinator config true true true stopped stopped) = true <-> (stopped = false -> everyTrustedValued /\ boundedFees) /\ claimAccepted.
Proof using Hr Hn Hpl.
  unfold NewCoordinator. rewrite identities_checked. cbn [negb].
  destruct (tokens_checked stopped) as [[Hv Et]|(-> & Hv & Et)].
  2:{ destruct (checkTokens config false); [done|]. cbn. split; [done|]. intros [H _]. destruct (H eq_refl). done. }
  rewrite Et. pose proof (fee_model_checked stopped) as Hf. destruct (checkFeeModel config stopped) as [[]|]; cbn [isOk] in Hf.
  2:{ cbn [isOk]. split; [done|]. intros [H _]. apply Hf. intros Hs. by apply H. }
  assert (Hc : (stopped = false -> everyTrustedValued /\ boundedFees))
    by (intros Hs; split; [by destruct Hv; [congruence|]|by apply (proj1 Hf eq_refl)]).
  pose proof (rt_timeout _ Hr) as Ht. unfold claimAccepted.
  assert (Hcfg : Cfg_NativeThreshold config = None /\ Cfg_StartupTimeout config = Run_ReadTimeout runtime /\ Cfg_FeeReadTimeout config = Run_ReadTimeout runtime
    /\ Cfg_LeaseTTL config = processLeaseTTL /\ Cfg_RetryDelay config = candidateRetryDelay /\ Cfg_ReceiptTimeout config = rescueReceiptTimeout
    /\ Cfg_FinalityTimeout config = 0 /\ Cfg_Claim config = Net_Claim n)
    by (unfold coordinatorConfig, Network_Domain; destruct (match Net_ReadProviders n with [] => _ | _ => _ end); done).
  destruct Hcfg as (-> & -> & -> & -> & -> & -> & -> & ->). unfold durationDefault.
  rewrite !(proj2 (Z.eqb_neq (Run_ReadTimeout runtime) 0)) by lia. rewrite !(proj2 (Z.leb_gt (Run_ReadTimeout runtime) 0)) by lia. cbn [orb].
  change (((if processLeaseTTL =? 0 then defaultLeaseTTL else processLeaseTTL) <? 3) || ((if candidateRetryDelay =? 0 then defaultRetryDelay else candidateRetryDelay) <=? 0)
    || ((if rescueReceiptTimeout =? 0 then defaultReceiptTimeout else rescueReceiptTimeout) <=? 0)
    || ((if 0 =? 0 then defaultFinalityTimeout else 0) <? defaultFinalityTimeout)) with false. cbv iota.
  destruct (Net_Claim n) as [plan|] eqn:Eplan; [|cbn; split; [done|]; by intros].
  pose proof (claim_checked plan Eplan) as Hck. destruct (checkClaim config _ _ plan) as [[]|] eqn:Ec; cbn [isOk] in *.
  - split; [|done]. intros _. split; [done|]. intros plan' [= <-]. by apply Hck.
  - split; [done|]. intros [_ H]. by apply Hck, H.
Qed.

End Coordinator.

(** ** The whole *)

Lemma networks_few runtime : runtime_sound runtime -> Z.of_nat (length (Run_Networks runtime)) <= 10.
Proof.
  intros Hr. pose proof (rt_networks _ Hr) as Hf. rewrite Forall_forall in Hf.
  assert (map Net_Name (Run_Networks runtime) ⊆+ map Def_name networkRegistry) as Hs.
  { apply NoDup_submseteq; [apply (rt_names _ Hr)|]. intros x (n & -> & Hn)%list_elem_of_fmap.
    destruct (ns_registered _ _ _ (Hf n Hn)) as (d & Hd & -> & _). by apply list_elem_of_fmap_2. }
  apply submseteq_length in Hs. rewrite !length_map in Hs. cbn in Hs. lia.
Qed.

Lemma admission_accepted {B : Bolt} (runtime : Runtime) :
  runtime_sound runtime -> isOk (NewAdmissionController (admissionConfig runtime) false) = true <-> Minute <= RP_AbuseWindow (Run_Policy runtime).
Proof.
  intros Hr. destruct (rt_policy _ Hr) as [_ _ _ _ Hrate Hwin Hunk Htok Hsrc _]. pose proof (rt_some _ Hr) as Hs.
  assert (0 < Z.of_nat (length (Run_Networks runtime))) by (destruct (Run_Networks runtime); [done|]; cbn; lia).
  unfold NewAdmissionController, admissionConfig, maxPendingCandidates. cbn [RateWindow]. change (Minute =? 0) with false. cbv zeta iota.
  cbn [Window RateWindow RateLimit MaxAttemptsPerToken MaxAttemptsPerSourceEvent MaxNewUnknownTokens Capacity].
  rewrite !(proj2 (Z.eqb_neq _ 0)) by lia. rewrite !(proj2 (Z.leb_gt _ 0)) by (unfold Minute, Second in *; lia). cbn [orb].
  destruct (RP_AbuseWindow (Run_Policy runtime) <? Minute) eqn:E; cbn; bool_hyps; split; try done; lia.
Qed.

(** C33. What the loader accepts, the components accept.  The budget policy made of
    a loaded configuration passes the ledger's validation; of every network the fee
    policy is valid and typed and the dearest quote is within the network's cap;
    the identities of its providers pass the quorum's checks if their trust domains
    are ASCII (the loader compares them by folding, the quorum in lower case, which
    differ beyond ASCII); and a coordinator with its contract and lease is built
    exactly when the process is stopped or every trusted token has a value rule and
    additional fees are bounded or estimated, and the claim, if any, calls no party of
    the rescue and is within the limits of the network, of unknown tokens and of its
    token's value rule.  The admission controller accepts exactly the windows of a
    minute or more. *)
Theorem loaded_policies_are_accepted {B : Bolt} lookup names (runtime : Runtime) :
  loadFrom lookup names = Ok runtime ->
  (exists policy, runtimeBudgetPolicy runtime = Ok policy /\ isOk (validateAndNormalizePolicy policy) = true) /\
  (isOk (NewAdmissionController (admissionConfig runtime) false) = true <-> Minute <= RP_AbuseWindow (Run_Policy runtime)) /\
  (forall n, n ∈ Run_Networks runtime -> exists fee nativeMinimum values, rescuePolicy n = Ok (fee, nativeMinimum, values) /\
     validFeePolicy fee = true /\ RescueFees.policy_typed fee /\
     (forall asset gas, gasLimit fee asset = Some gas -> gas * Fee_MaxFeePerGas fee + Fee_Overhead fee <= Fee_TransactionCostCap fee) /\
     (Forall (fun p => isAscii (RPv_TrustDomain p) = true) (Net_ReadProviders n) ->
        validateProviderIdentities ToLower TrimSpace (providerIdentities n) = Ok tt) /\
     (forall rescuer lease structured stopped, placed runtime n rescuer lease ->
        isOk (NewCoordinator (coordinatorConfig runtime n rescuer lease structured fee nativeMinimum values) true true true stopped stopped) = true <->
        (stopped = false -> everyTrustedValued n /\ boundedFees n) /\ claimAccepted runtime n rescuer)).
Proof.
  intros Hl. pose proof (loadFrom_sound _ _ _ Hl) as Hr. pose proof (networks_few _ Hr) as Hfew. pose proof (rt_networks _ Hr) as Hf.
  rewrite Forall_forall in Hf. split; [|split; [by apply admission_accepted|]].
  - apply budget_accepted; [done| |lia]. eapply chains_distinct; [apply (rt_networks _ Hr)|apply (rt_names _ Hr)].
  - intros n Hn. specialize (Hf n Hn). do 3 eexists. split; [by apply (rescuePolicy_ok _ _ _ (rt_policy _ Hr) Hf)|].
    destruct (fees_valid _ _ _ (rt_policy _ Hr) Hf) as [Hv Ht]. split; [done|]. split; [done|].
    split; [intros asset gas; by eapply dearest_within_cap; [apply (ns_economics _ _ _ Hf)|]|].
    split; [by eapply identities_accepted|]. intros rescuer lease structured stopped Hpl. by apply coordinator_accepted.
Qed.

End Claims.

(** The example configuration: one live network, a trusted token with its rule. *)
Definition exampleFits (runtime : Runtime) : bool :=
  (Minute <=? RP_AbuseWindow (Run_Policy runtime)) &&
  match Run_Networks runtime with
  | [n] => forallb (fun p => isAscii (RPv_TrustDomain p)) (Net_ReadProviders n) &&
      forallb (fun t => bool_decide (t ∈ map Rule_Address (Econ_TokenValueRules (Net_EconomicPolicy n)))) (Net_TrustedTokens n) &&
      Econ_EstimatedBaseFees (Net_EconomicPolicy n) && negb (Nat.eqb (length (Net_TrustedTokens n)) 0) && negb (isSome (Net_Claim n))
  | _ => false
  end.

Lemma example_fits : match loadFrom (mapLookup (examplePublic ++ exampleCredentials)) [] with Ok runtime => exampleFits runtime | Err _ => false end = true.
Proof. vm_compute. reflexivity. Qed.

Definition exampleLease (runtime : Runtime) (n : Network) : Lease := mkLease (mkLeaseKey (Net_ChainID n) (Run_SponsorAddress runtime)) (str "owner") 100.

(** Its ledger, admission controller, quorum and coordinator are accepted. *)
Lemma loaded_policies_are_accepted_witness :
  exists runtime policy n fee nativeMinimum values,
    loadFrom (mapLookup (examplePublic ++ exampleCredentials)) [] = Ok runtime /\ runtimeBudgetPolicy runtime = Ok policy /\
    isOk (validateAndNormalizePolicy policy) = true /\
    isOk (NewAdmissionController (B := MapBolt.map_bolt) (admissionConfig runtime) false) = true /\
    n ∈ Run_Networks runtime /\ rescuePolicy n = Ok (fee, nativeMinimum, values) /\
    validateProviderIdentities ToLower TrimSpace (providerIdentities n) = Ok tt /\
    isOk (NewCoordinator (coordinatorConfig runtime n (be_bytes 20 9) (exampleLease runtime n) true fee nativeMinimum values) true true true false false) = true.
Proof.
  pose proof example_fits as Hf. destruct (loadFrom _ []) as [runtime|] eqn:E; [|discriminate Hf].
  destruct (loaded_policies_are_accepted (B := MapBolt.map_bolt) _ _ _ E) as ((policy & H1 & H2) & H3 & H4). exists runtime, policy.
  unfold exampleFits in Hf. apply andb_true_iff in Hf as [Hw Hf]. destruct (Run_Networks runtime) as [|n [|? ?]]; [discriminate Hf| |discriminate Hf].
  rewrite !andb_true_iff, !forallb_forall in Hf. destruct Hf as [[[[Ha Hv] He] _] Hc].
  destruct (H4 n) as (fee & nm & values & Hp & _ & _ & _ & Hid & Hco); [left; reflexivity|]. exists n, fee, nm, values.
  split; [reflexivity|]. split; [exact H1|]. split; [exact H2|]. split; [apply H3; apply Z.leb_le; exact Hw|]. split; [left; reflexivity|]. split; [exact Hp|]. split.
  - apply Hid. apply Forall_forall. intros x Hx. apply Ha. apply list_elem_of_In. exact Hx.
  - apply Hco; [constructor; [split; [reflexivity|intros H; vm_compute in H; discriminate H]|reflexivity|intros H; vm_compute in H; discriminate H]|].
    split; [|intros plan Hpl; rewrite Hpl in Hc; discriminate Hc]. intros _. split; [|intros _; exact He].
    intros t Ht. apply (bool_decide_eq_true_1 _). apply Hv. apply list_elem_of_In. exact Ht.
Defined.

(** A window shorter than a minute loads and is then refused. *)
Example short_window_loads_but_is_refused :
  match loadFrom (mapLookup ((str "ABUSE_WINDOW", str "30s") :: examplePublic ++ exampleCredentials)) [] with
  | Ok runtime => isOk (NewAdmissionController (B := MapBolt.map_bolt) (admissionConfig runtime) false)
  | Err _ => true
  end = false.
Proof. vm_compute. reflexivity. Qed.

End WiringClaims.
Export WiringClaims.
