(* ===== verification/Attestation.v ===== *)
(** * internal/contracts/attestation.go: the trusted manifest and its attestation

    A deployment manifest is loaded together with the build artifact it refers to:
    both are decoded strictly, the artifact's digest must be the pinned one, the
    metadata must agree, and the deployed bytecode is linked with the immutable
    addresses.  [AttestDeployment] then asks every read provider to confirm the
    deployment at one finalized block; it is a program whose calls name the reader.

    encoding/json, Keccak-256 and go-ethereum's address derivation are a parameter
    ([AttestationLib]); SHA-256, hexadecimal and decimal texts are definitions.
    The order in which Go ranges over the three immutable names is an argument. *)

From S2P Require Import Prelude Programs GoTime Bytes Sha256 Domain Bolt BudgetModel StoreModel RpcQuorum RescueErrors RescueEffects GoText.
From Stdlib Require Import Strings.Byte.
From Stdlib Require Strings.String.
Import Strings.String.StringSyntax.

Module Attestation.

Definition MaxDeploymentManifestBytes : Z := Z.shiftl 1 20.
Definition MaxCanonicalArtifactBytes : Z := Z.shiftl 16 20.
Definition manifestSchemaVersion : bytes := str "1".
Definition artifactSchemaVersion : bytes := str "1".
Definition rescuerContractRole : bytes := str "rescuer".
Definition rescuerContractName : bytes := str "RescuerV2".
Definition rescuerSourceName : bytes := str "RescuerV2.sol".

(** [operatorError] and [attestationError]: the texts after their prefix. *)
Inductive AttestationError :=
| operatorError (reason : String.string)
| attestationError (reason : String.string).

(** ** Data *)

Record SourceProvenance := mkSourceProvenance { Source_Kind : bytes; Source_Value : bytes }.
Record CompilerDescription := mkCompilerDescription { Compiler_Version : bytes; Compiler_Settings : bytes }.
Record RuntimeDescription := mkRuntimeDescription { Runtime_Keccak256 : bytes; Runtime_ByteLength : Z }.
Record ConstructorArguments := mkConstructorArguments { Ctor_Destination : Address; Ctor_Sponsor : Address }.
Record ImmutableValues := mkImmutableValues { Imm_Destination : Address; Imm_Self : Address; Imm_Sponsor : Address }.

#[export] Instance SourceProvenance_eq_dec : EqDecision SourceProvenance.
Proof. solve_decision. Defined.

(** The exported fields, and the three the loader adds. *)
Record DeploymentManifest := mkManifest {
  Man_SchemaVersion : bytes;
  Man_ContractRole : bytes;
  Man_ChainID : bytes;
  Man_Address : Address;
  Man_DeploymentTransactionHash : Hash;
  Man_DeploymentBlockNumber : bytes;
  Man_DeploymentBlockHash : Hash;
  Man_Compiler : CompilerDescription;
  Man_Source : SourceProvenance;
  Man_Artifact_SHA256 : bytes;
  Man_Runtime : RuntimeDescription;
  Man_ConstructorArguments : ConstructorArguments;
  Man_Immutables : ImmutableValues;
  Man_linkedRuntime : bytes;
  Man_deploymentData : bytes;
  Man_trustedSeal : bytes }.

Record ManifestExpectations := mkExpectations {
  Exp_ChainID : bytes;
  Exp_ContractRole : bytes;
  Exp_Destination : Address;
  Exp_Sponsor : Address;
  Exp_ArtifactSHA256 : bytes;
  Exp_SourceProvenance : SourceProvenance;
  Exp_CompilerVersion : bytes }.

Record immutableReference := mkReference { Imref_Start : Z; Imref_Length : Z }.

Record canonicalArtifact := mkArtifact {
  Art_ArtifactVersion : bytes;
  Art_ContractName : bytes;
  Art_SourceName : bytes;
  Art_CompilerVersion : bytes;
  Art_Settings : bytes;
  Art_SourceTreeSHA256 : bytes;
  Art_CompilerInputSHA256 : bytes;
  Art_ABI : bytes;
  Art_Bytecode : bytes;
  Art_DeployedBytecode : bytes;
  Art_ImmutableReferences : list (bytes * list immutableReference) }.

Record immutableRange := mkRange { Range_start : Z; Range_end : Z; Range_value : Address }.

#[export] Instance immutableRange_eq_dec : EqDecision immutableRange.
Proof. solve_decision. Defined.

(** What [decoder.Token] returns: a delimiter, a string, or another value. *)
Inductive JsonToken := TokDelim (d : byte) | TokString (s : bytes) | TokOther.

(** - [json_tokens]: the tokens of a text until [Token] fails, and whether it failed
      with [io.EOF];
    - [json_object], [json_array]: [Unmarshal] into [map[string]RawMessage] and
      [[]RawMessage], [None] for an error and for null;
    - [json_value]: [Decode] with [UseNumber] into [any], compared by [DeepEqual];
    - [json_manifest], [json_artifact]: [Decode] with [DisallowUnknownFields], with
      what is left of the input;
    - [json_marshal]: [Marshal] of the exported fields of a manifest. *)
Class AttestationLib := {
  json_tokens : bytes -> list JsonToken * bool;
  json_object : bytes -> option (gmap bytes bytes);
  json_array : bytes -> option (list bytes);
  JsonValue : Type;
  JsonValue_eq_dec :: EqDecision JsonValue;
  json_value : bytes -> option JsonValue;
  json_manifest : bytes -> option (DeploymentManifest * bytes);
  json_artifact : bytes -> option (canonicalArtifact * bytes);
  json_marshal : DeploymentManifest -> option bytes;
  Keccak256 : bytes -> Hash;
  CreateAddress : Address -> Z -> Address;
  Rcpt_ContractAddress : Receipt -> Address }.

(** ** Texts *)

Definition lowerHex (value : bytes) : bool :=
  forallb (fun b => isDigit b || (97 <=? byteZ b) && (byteZ b <=? 102)) value.

Definition validSHA256 (value : bytes) : bool :=
  (len value =? 71) && HasPrefix value (str "sha256:") && lowerHex (drop 7 value).

Definition validKeccak256 (value : bytes) : bool :=
  (len value =? 66) && HasPrefix value (str "0x") && lowerHex (drop 2 value).

Definition validSourceProvenance (source : SourceProvenance) : bool :=
  if bytes_eqb (Source_Kind source) (str "source-tree-sha256") then validSHA256 (Source_Value source)
  else if bytes_eqb (Source_Kind source) (str "git-commit") then (len (Source_Value source) =? 40) && lowerHex (Source_Value source)
  else false.

Definition parseDecimal (value : bytes) (allowZero : bool) : option Z :=
  if bytes_eqb value [] || (1 <? len value) && bool_decide (byte_at value 0 = x30) then None
  else if negb (forallb isDigit value) then None
  else
    let parsed := decValue value in
    if (parsed <? 0) || negb allowZero && (parsed =? 0) then None else Some parsed.

Definition decodeCanonicalBytecode (value : bytes) : option bytes :=
  if (len value <? 2) || negb (HasPrefix value (str "0x")) || negb ((len value - 2) mod 2 =? 0) || negb (lowerHex (drop 2 value)) then None
  else hexDecode (drop 2 value).

Definition allZero (value : bytes) : bool := forallb (fun b => bool_decide (b = x00)) value.

Definition decodeCanonicalAddress (data : bytes) : option Address :=
  if negb (len data =? 32) || negb (allZero (take 12 data)) then None else Some (drop 12 data).

(** The constructor's two arguments, each left-padded to a word. *)
Definition buildDeploymentData (creationCode : bytes) (destination sponsor : Address) : bytes :=
  creationCode ++ zero_bytes 12 ++ destination ++ zero_bytes 12 ++ sponsor.

(** An input of at most [limit] bytes that is not empty; [None] is a failed read. *)
Definition readLimited (input : option bytes) (limit : Z) : option bytes :=
  match input with
  | None => None
  | Some content =>
      let data := take (Z.to_nat (limit + 1)) content in
      if (limit <? len data) || (len data =? 0) then None else Some data
  end.

(** ** JSON *)

(** [decoder.More]: the next token does not close an object or an array. *)
Definition More (tokens : list JsonToken) : bool :=
  match tokens with
  | [] => false
  | TokDelim d :: _ => negb (bool_decide (d = x5d)) && negb (bool_decide (d = x7d))
  | _ => true
  end.

(** One value is read from the decoder; [None] is an error.  An object's keys are
    collected to find the second of two equal ones. *)
Fixpoint consumeJSONValue (fuel : nat) (tokens : list JsonToken) : option (list JsonToken) :=
  match fuel, tokens with
  | S fuel, TokDelim delimiter :: tokens =>
      if bool_decide (delimiter = x7b) then consumeMembers fuel [] tokens
      else if bool_decide (delimiter = x5b) then consumeElements fuel tokens
      else None
  | S _, _ :: tokens => Some tokens
  | _, _ => None
  end
with consumeMembers (fuel : nat) (keys : list bytes) (tokens : list JsonToken) : option (list JsonToken) :=
  match fuel with
  | O => None
  | S fuel =>
      if More tokens then
        match tokens with
        | TokString key :: tokens =>
            if bool_decide (key ∈ keys) then None
            else match consumeJSONValue fuel tokens with Some tokens => consumeMembers fuel (key :: keys) tokens | None => None end
        | _ => None
        end
      else match tokens with TokDelim d :: tokens => if bool_decide (d = x7d) then Some tokens else None | _ => None end
  end
with consumeElements (fuel : nat) (tokens : list JsonToken) : option (list JsonToken) :=
  match fuel with
  | O => None
  | S fuel =>
      if More tokens then match consumeJSONValue fuel tokens with Some tokens => consumeElements fuel tokens | None => None end
      else match tokens with TokDelim d :: tokens => if bool_decide (d = x5d) then Some tokens else None | _ => None end
  end.

(** Enough for any token list: [consume_fuel] in [AttestationTheorems]. *)
Definition jsonFuel (tokens : list JsonToken) : nat := S (2 * length tokens).

(** The white space JSON allows around a value. *)
Definition jsonSpace (b : byte) : bool := bool_decide (b ∈ [x20; x09; x0a; x0d]).

Section Loading.
Context {AL : AttestationLib}.

Definition rejectDuplicateJSONKeys (data : bytes) : bool :=
  let (tokens, atEnd) := json_tokens data in
  match consumeJSONValue (jsonFuel tokens) tokens with
  | Some [] => atEnd
  | _ => false
  end.

(** The second [Decode] reports [io.EOF] when only white space is left. *)
Definition decodeStrictJSON {T} (decode : bytes -> option (T * bytes)) (data : bytes) : option T :=
  if negb (rejectDuplicateJSONKeys data) then None
  else match decode data with
       | Some (value, trailing) => if forallb jsonSpace trailing then Some value else None
       | None => None
       end.

Definition exactJSONObject (data : bytes) (names : list bytes) : option (gmap bytes bytes) :=
  match json_object data with
  | Some object =>
      if negb (Z.of_nat (size object) =? Z.of_nat (length names)) then None
      else if forallb (fun name => bool_decide (is_Some (object !! name))) names then Some object else None
  | None => None
  end.

(** [root[name]]; a missing name is the nil text. *)
Definition member (object : gmap bytes bytes) (name : bytes) : bytes := default [] (object !! name).

Definition isSomeb {A} (o : option A) : bool := match o with Some _ => true | None => false end.

Definition immutableNames : list bytes := [str "destination"; str "self"; str "sponsor"].

Definition validManifestJSONShape (data : bytes) : bool :=
  match exactJSONObject data
          [str "schemaVersion"; str "contractRole"; str "chainId"; str "address"; str "deploymentTransactionHash"; str "deploymentBlockNumber";
           str "deploymentBlockHash"; str "compiler"; str "source"; str "artifact"; str "runtime"; str "constructorArguments"; str "immutables"] with
  | None => false
  | Some root =>
      isSomeb (exactJSONObject (member root (str "compiler")) [str "version"; str "settings"])
      && isSomeb (exactJSONObject (member root (str "source")) [str "kind"; str "value"])
      && isSomeb (exactJSONObject (member root (str "artifact")) [str "sha256"])
      && isSomeb (exactJSONObject (member root (str "runtime")) [str "keccak256"; str "byteLength"])
      && isSomeb (exactJSONObject (member root (str "constructorArguments")) [str "destination"; str "sponsor"])
      && isSomeb (exactJSONObject (member root (str "immutables")) immutableNames)
  end.

Definition validArtifactJSONShape (data : bytes) : bool :=
  match exactJSONObject data
          [str "artifactVersion"; str "contractName"; str "sourceName"; str "compilerVersion"; str "settings"; str "sourceTreeSha256";
           str "compilerInputSha256"; str "abi"; str "bytecode"; str "deployedBytecode"; str "immutableReferences"] with
  | None => false
  | Some root =>
      match exactJSONObject (member root (str "immutableReferences")) immutableNames with
      | None => false
      | Some references =>
          forallb (fun name =>
            match json_array (member references name) with
            | None => false
            | Some entries => forallb (fun entry => isSomeb (exactJSONObject entry [str "start"; str "length"])) entries
            end) immutableNames
      end
  end.

(** [bytes.TrimSpace] and the first and last byte, then [Unmarshal]. *)
Definition enclosed (first last : byte) (value : bytes) : bool :=
  negb (len value <? 2) && bool_decide (byte_at value 0 = first) && bool_decide (byte_at value (len value - 1) = last).

Definition validJSONObject (value : bytes) : bool :=
  let trimmed := TrimSpace value in enclosed x7b x7d trimmed && isSomeb (json_object trimmed).

Definition validJSONArray (value : bytes) : bool :=
  let trimmed := TrimSpace value in enclosed x5b x5d trimmed && isSomeb (json_array trimmed).

Definition equalJSON (left right : bytes) : bool :=
  match json_value left, json_value right with
  | Some l, Some r => bool_decide (l = r)
  | _, _ => false
  end.

(** ** Loading a trusted manifest *)

Definition validateExpectations (e : ManifestExpectations) : result AttestationError unit :=
  reject negb (isSomeb (parseDecimal (Exp_ChainID e) false)) with operatorError "expected chain ID has an invalid format" in
  reject negb (bytes_eqb (Exp_ContractRole e) rescuerContractRole) with operatorError "expected contract role is unsupported" in
  reject bytes_eqb (Exp_Destination e) zeroAddress || bytes_eqb (Exp_Sponsor e) zeroAddress
    with operatorError "expected destination and sponsor addresses must be non-zero" in
  reject bytes_eqb (Exp_Destination e) (Exp_Sponsor e) with operatorError "expected destination and sponsor addresses must differ" in
  reject negb (validSHA256 (Exp_ArtifactSHA256 e)) with operatorError "expected artifact SHA-256 has an invalid format" in
  reject negb (validSourceProvenance (Exp_SourceProvenance e)) with operatorError "expected source provenance has an invalid format" in
  reject bytes_eqb (Exp_CompilerVersion e) [] with operatorError "expected compiler version is not pinned" in
  Ok tt.

Definition validateManifestMetadata (m : DeploymentManifest) (artifact : canonicalArtifact) (e : ManifestExpectations) : result AttestationError unit :=
  reject negb (bytes_eqb (Man_SchemaVersion m) manifestSchemaVersion) with operatorError "deployment manifest schema version is unsupported" in
  reject negb (bytes_eqb (Man_ContractRole m) rescuerContractRole) || negb (bytes_eqb (Man_ContractRole m) (Exp_ContractRole e))
    with operatorError "contract role does not match the trusted value" in
  reject negb (isSomeb (parseDecimal (Man_ChainID m) false)) || negb (bytes_eqb (Man_ChainID m) (Exp_ChainID e))
    with operatorError "manifest chain ID does not match the trusted value" in
  reject negb (isSomeb (parseDecimal (Man_DeploymentBlockNumber m) true)) with operatorError "deployment block number has an invalid format" in
  reject bytes_eqb (Man_Address m) zeroAddress || bytes_eqb (Man_DeploymentTransactionHash m) zeroHash || bytes_eqb (Man_DeploymentBlockHash m) zeroHash
    with operatorError "deployment manifest contains a zero address or hash" in
  reject negb (bytes_eqb (Compiler_Version (Man_Compiler m)) (Exp_CompilerVersion e)) || negb (bytes_eqb (Art_CompilerVersion artifact) (Exp_CompilerVersion e))
    with operatorError "compiler version does not match the trusted value" in
  reject negb (validJSONObject (Compiler_Settings (Man_Compiler m))) || negb (validJSONObject (Art_Settings artifact))
      || negb (equalJSON (Compiler_Settings (Man_Compiler m)) (Art_Settings artifact))
    with operatorError "compiler settings in the manifest and artifact do not match" in
  reject negb (bool_decide (Man_Source m = Exp_SourceProvenance e)) || negb (validSourceProvenance (Man_Source m))
    with operatorError "source provenance does not match the trusted value" in
  reject negb (bytes_eqb (Art_ArtifactVersion artifact) artifactSchemaVersion) || negb (bytes_eqb (Art_ContractName artifact) rescuerContractName)
      || negb (bytes_eqb (Art_SourceName artifact) rescuerSourceName)
    with operatorError "canonical artifact metadata does not match RescuerV2" in
  reject negb (validSHA256 (Art_SourceTreeSHA256 artifact)) || negb (validSHA256 (Art_CompilerInputSHA256 artifact))
    with operatorError "artifact source tree or compiler input digest has an invalid format" in
  reject bytes_eqb (Source_Kind (Man_Source m)) (str "source-tree-sha256") && negb (bytes_eqb (Source_Value (Man_Source m)) (Art_SourceTreeSHA256 artifact))
    with operatorError "artifact source tree does not match the manifest" in
  reject negb (validJSONArray (Art_ABI artifact)) with operatorError "canonical artifact ABI has an invalid format" in
  let ctor := Man_ConstructorArguments m in
  let imm := Man_Immutables m in
  reject negb (bytes_eqb (Ctor_Destination ctor) (Imm_Destination imm)) || negb (bytes_eqb (Ctor_Sponsor ctor) (Imm_Sponsor imm))
    with operatorError "constructor arguments do not match the immutable values" in
  reject negb (bytes_eqb (Imm_Destination imm) (Exp_Destination e)) || negb (bytes_eqb (Imm_Sponsor imm) (Exp_Sponsor e))
    with operatorError "immutable values do not match the trusted addresses" in
  reject negb (bytes_eqb (Imm_Self imm) (Man_Address m)) with operatorError "self immutable does not match the deployment address" in
  reject bytes_eqb (Imm_Destination imm) zeroAddress || bytes_eqb (Imm_Sponsor imm) zeroAddress || bytes_eqb (Imm_Self imm) zeroAddress
    with operatorError "immutable addresses must be non-zero" in
  reject bytes_eqb (Imm_Destination imm) (Imm_Sponsor imm) with operatorError "immutable destination and sponsor addresses must differ" in
  reject negb (validKeccak256 (Runtime_Keccak256 (Man_Runtime m))) || (Runtime_ByteLength (Man_Runtime m) =? 0)
    with operatorError "runtime bytecode identifier has an invalid format" in
  Ok tt.

(** [expected[name]] of the three names. *)
Definition expectedImmutable (values : ImmutableValues) (name : bytes) : Address :=
  if bytes_eqb name (str "destination") then Imm_Destination values
  else if bytes_eqb name (str "self") then Imm_Self values
  else Imm_Sponsor values.

Definition referencesOf (references : list (bytes * list immutableReference)) (name : bytes) : option (list immutableReference) :=
  match List.find (fun r => bytes_eqb (fst r) name) references with Some r => Some (snd r) | None => None end.

Definition addReference (template : bytes) (value : Address) (ranges : list immutableRange) (entry : immutableReference)
    : result AttestationError (list immutableRange) :=
  reject negb (Imref_Length entry =? 32) || (len template <? Imref_Start entry) || (uint64_wrap (len template - Imref_Start entry) <? Imref_Length entry)
    with operatorError "immutable reference is outside the runtime bytecode template" in
  let end_ := uint64_wrap (Imref_Start entry + Imref_Length entry) in
  reject negb (allZero (take (Z.to_nat (end_ - Imref_Start entry)) (drop (Z.to_nat (Imref_Start entry)) template)))
    with operatorError "immutable slot in the runtime bytecode template must be zero-filled" in
  Ok (ranges ++ [mkRange (Imref_Start entry) end_ value]).

Definition addReferences (template : bytes) (references : list (bytes * list immutableReference)) (values : ImmutableValues)
    (ranges : list immutableRange) (name : bytes) : result AttestationError (list immutableRange) :=
  match referencesOf references name with
  | None | Some [] => Err (operatorError "artifact is missing a required immutable reference")
  | Some entries => foldM (addReference template (expectedImmutable values name)) entries ranges
  end.

Definition range_le (a b : immutableRange) : Prop := Range_start a <= Range_start b.
#[export] Instance range_le_dec a b : Decision (range_le a b) := Z_le_dec _ _.

(** The loop over neighbours of the sorted ranges. *)
Fixpoint overlapping (ranges : list immutableRange) : bool :=
  match ranges with
  | previous :: (next :: _) as rest => (Range_start next <? Range_end previous) || overlapping rest
  | _ => false
  end.

(** [copy(linked[start+12:end], value[:])] *)
Definition writeImmutable (linked : bytes) (range : immutableRange) : bytes :=
  let from := Z.to_nat (Range_start range + 12) in
  take from linked ++ take (Z.to_nat (Range_end range) - from) (Range_value range) ++
    drop (from + length (take (Z.to_nat (Range_end range) - from) (Range_value range))) linked.

Definition linkImmutableReferences (order : list bytes) (template : bytes) (references : list (bytes * list immutableReference)) (values : ImmutableValues)
    : result AttestationError bytes :=
  reject negb (Z.of_nat (length references) =? 3)
    with operatorError "immutable references must contain only destination, self, and sponsor" in
  let! ranges := foldM (addReferences template references values) order [] in
  reject existsb (fun r => negb (bool_decide (fst r ∈ immutableNames))) references with operatorError "artifact contains an unknown immutable reference" in
  let ranges := merge_sort range_le ranges in
  reject overlapping ranges with operatorError "immutable references overlap" in
  Ok (fold_left writeImmutable ranges template).

Definition sealPrefix : bytes := str "deployment-manifest-seal-v1" ++ [x00].

Definition deploymentManifestSeal (m : DeploymentManifest) : option bytes :=
  match json_marshal m with
  | Some encoded => Some (sha256 (sealPrefix ++ encoded ++ sha256 (Man_linkedRuntime m) ++ sha256 (Man_deploymentData m)))
  | None => None
  end.

Definition hashHex (h : Hash) : bytes := str "0x" ++ hexEncode h.

(** The manifest with the loader's fields. *)
Definition withLinked (m : DeploymentManifest) (linkedRuntime deploymentData trustedSeal : bytes) : DeploymentManifest :=
  mkManifest (Man_SchemaVersion m) (Man_ContractRole m) (Man_ChainID m) (Man_Address m) (Man_DeploymentTransactionHash m) (Man_DeploymentBlockNumber m)
    (Man_DeploymentBlockHash m) (Man_Compiler m) (Man_Source m) (Man_Artifact_SHA256 m) (Man_Runtime m) (Man_ConstructorArguments m) (Man_Immutables m)
    linkedRuntime deploymentData trustedSeal.

(** Both readers are not nil; their contents are the arguments. *)
Definition LoadTrustedManifest (order : list bytes) (manifestInput artifactInput : option bytes) (expectations : ManifestExpectations)
    : result AttestationError DeploymentManifest :=
  let! _ := validateExpectations expectations in
  let? manifestBytes := readLimited manifestInput MaxDeploymentManifestBytes orelse operatorError "failed to read deployment manifest safely" in
  let? artifactBytes := readLimited artifactInput MaxCanonicalArtifactBytes orelse operatorError "failed to read canonical artifact safely" in
  let? manifest := decodeStrictJSON json_manifest manifestBytes orelse operatorError "deployment manifest contains invalid JSON" in
  reject negb (validManifestJSONShape manifestBytes) with operatorError "deployment manifest contains invalid JSON" in
  let? artifact := decodeStrictJSON json_artifact artifactBytes orelse operatorError "canonical artifact contains invalid JSON" in
  reject negb (validArtifactJSONShape artifactBytes) with operatorError "canonical artifact contains invalid JSON" in
  let artifactSHA256 := str "sha256:" ++ hexEncode (sha256 artifactBytes) in
  reject negb (bytes_eqb (Man_Artifact_SHA256 manifest) artifactSHA256) || negb (bytes_eqb (Exp_ArtifactSHA256 expectations) artifactSHA256)
    with operatorError "artifact SHA-256 does not match the trusted value" in
  let! _ := validateManifestMetadata manifest artifact expectations in
  let? template := decodeCanonicalBytecode (Art_DeployedBytecode artifact) orelse operatorError "artifact deployed bytecode has an invalid format" in
  reject len template =? 0 with operatorError "artifact deployed bytecode has an invalid format" in
  let? creationCode := decodeCanonicalBytecode (Art_Bytecode artifact) orelse operatorError "artifact creation bytecode has an invalid format" in
  reject len creationCode =? 0 with operatorError "artifact creation bytecode has an invalid format" in
  let! linkedRuntime := linkImmutableReferences order template (Art_ImmutableReferences artifact) (Man_Immutables manifest) in
  reject negb (len linkedRuntime =? Runtime_ByteLength (Man_Runtime manifest)) || (Runtime_ByteLength (Man_Runtime manifest) =? 0)
    with operatorError "linked runtime bytecode length does not match the manifest" in
  reject negb (bytes_eqb (Runtime_Keccak256 (Man_Runtime manifest)) (hashHex (Keccak256 linkedRuntime)))
    with operatorError "linked runtime bytecode Keccak-256 does not match the manifest" in
  let data := buildDeploymentData creationCode (Exp_Destination expectations) (Exp_Sponsor expectations) in
  let linked := withLinked manifest linkedRuntime data (Man_trustedSeal manifest) in
  let? seal := deploymentManifestSeal linked orelse operatorError "failed to seal the trusted manifest" in
  Ok (withLinked linked linkedRuntime data seal).

Definition validateLoadedManifest (m : DeploymentManifest) : result AttestationError unit :=
  let? seal := deploymentManifestSeal m orelse attestationError "manifest was not loaded as trusted or was modified after validation" in
  reject negb (bytes_eqb seal (Man_trustedSeal m)) || bytes_eqb (Man_trustedSeal m) (zero_bytes 32)
    with attestationError "manifest was not loaded as trusted or was modified after validation" in
  reject (len (Man_linkedRuntime m) =? 0) || negb (len (Man_linkedRuntime m) =? Runtime_ByteLength (Man_Runtime m))
    with attestationError "trusted manifest is missing linked runtime bytecode" in
  reject len (Man_deploymentData m) <=? 64 with attestationError "trusted manifest is missing deployment input" in
  reject negb (bytes_eqb (hashHex (Keccak256 (Man_linkedRuntime m))) (Runtime_Keccak256 (Man_Runtime m)))
    with attestationError "linked runtime bytecode in the trusted manifest is corrupt" in
  reject negb (isSomeb (parseDecimal (Man_ChainID m) false)) with attestationError "chain ID in the trusted manifest is corrupt" in
  reject negb (isSomeb (parseDecimal (Man_DeploymentBlockNumber m) true)) with attestationError "deployment block number in the trusted manifest is corrupt" in
  Ok tt.

End Loading.

(** ** Attestation *)

(** A reader as [readerIdentity] sees it: nil, not a pointer, or a pointer of a type
    (a nil pointer has address 0). *)
Inductive Reader := NilReader | ValueReader | PointerReader (typeOf pointer : Z).

#[export] Instance Reader_eq_dec : EqDecision Reader.
Proof. solve_decision. Defined.

Definition readerIdentity (reader : Reader) : option (Z * Z) :=
  match reader with
  | NilReader | ValueReader => None
  | PointerReader typeOf pointer => if pointer =? 0 then None else Some (typeOf, pointer)
  end.

Record ReadProvider := mkReadProvider {
  Prv_ID : bytes;
  Prv_EndpointFingerprint : bytes;
  Prv_TrustDomain : bytes;
  Prv_Reader : Reader }.

(** The reads of one reader, each under its own deadline. *)
Inductive AEff :=
| A_ChainID (reader : Reader)
| A_HeaderByNumber (reader : Reader) (number : Z)
| A_TransactionByHash (reader : Reader) (hash : Hash)
| A_TransactionReceipt (reader : Reader) (hash : Hash)
| A_CodeAtHash (reader : Reader) (account : Address) (hash : Hash)
| A_CallContractAtHash (reader : Reader) (to : Address) (data : bytes) (hash : Hash).

(** [transactionLookup]: the transaction and whether it is pending. *)
Definition aanswer (c : AEff) : Type :=
  match c with
  | A_ChainID _ => Outcome (option Z)
  | A_HeaderByNumber _ _ => Outcome (option Header)
  | A_TransactionByHash _ _ => Outcome (option Txn * bool)
  | A_TransactionReceipt _ _ => Outcome (option Receipt)
  | A_CodeAtHash _ _ _ => Outcome bytes
  | A_CallContractAtHash _ _ _ _ => Outcome bytes
  end.

Abbreviation AM := (SM aanswer unit AttestationError).
Abbreviation acall := (Programs.call (ans := aanswer)).

(** The value, when neither the call nor its context failed. *)
Definition timedRead {T} (o : Outcome T) : option T :=
  match out_err o, out_contextErr o with None, None => Some (out_value o) | _, _ => None end.

(** The header and its number. *)
Definition validHeader (header : option Header) : option (Header * Z) :=
  match header with
  | Some h => match Hdr_Number h with Some number => if 0 <=? number then Some (h, number) else None | None => None end
  | None => None
  end.

(** What [timedRead] of a header gives when it is [ok] and valid. *)
Definition readHeader (reader : Reader) (number : Z) (reason : String.string) : AM (Header * Z) :=
  let* o := acall (A_HeaderByNumber reader number) in
  match timedRead o with
  | Some header => match validHeader header with Some hn => mret hn | None => fail (attestationError reason) end
  | None => fail (attestationError reason)
  end.

Record providersSeen := mkSeen {
  seen_ids : list bytes;
  seen_endpoints : list bytes;
  seen_domains : list bytes;
  seen_readers : list (Z * Z) }.

Definition addProvider (seen : providersSeen) (provider : ReadProvider) : result AttestationError providersSeen :=
  let id := TrimSpace (Prv_ID provider) in
  let endpointFingerprint := TrimSpace (Prv_EndpointFingerprint provider) in
  let trustDomain := TrimSpace (Prv_TrustDomain provider) in
  reject bytes_eqb id [] with attestationError "read provider identifier must not be empty" in
  reject bytes_eqb endpointFingerprint [] || bytes_eqb trustDomain []
    with attestationError "required read provider independence attributes are missing" in
  reject bool_decide (id ∈ seen_ids seen) with attestationError "read provider identifiers must be unique" in
  reject bool_decide (endpointFingerprint ∈ seen_endpoints seen) with attestationError "read providers do not have unique endpoint identifiers" in
  reject bool_decide (trustDomain ∈ seen_domains seen) with attestationError "read providers do not belong to independent trust domains" in
  let? identity := readerIdentity (Prv_Reader provider) orelse attestationError "read provider identity cannot be compared reliably" in
  reject bool_decide (identity ∈ seen_readers seen) with attestationError "the same read provider instance was reused" in
  Ok (mkSeen (id :: seen_ids seen) (endpointFingerprint :: seen_endpoints seen) (trustDomain :: seen_domains seen) (identity :: seen_readers seen)).

Definition validateProviders (providers : list ReadProvider) : result AttestationError unit :=
  reject Z.of_nat (length providers) <? 2 with attestationError "at least two independent read providers are required" in
  let! _ := foldM addProvider providers (mkSeen [] [] [] []) in
  Ok tt.

(** A loop that collects what its body returns. *)
Fixpoint collectEach {A B} (l : list A) (body : A -> AM B) : AM (list B) :=
  match l with
  | [] => mret []
  | x :: l => let* y := body x in let* ys := collectEach l body in mret (y :: ys)
  end.

(** The lowest of the heights, and whether all are the first one. *)
Definition commonHeight (first : Z) (others : list Z) : Z * bool :=
  fold_left (fun acc number =>
    let '(commonNumber, sameHeight) := acc in
    if negb (number =? commonNumber) then (if number <? commonNumber then number else commonNumber, false) else (commonNumber, sameHeight))
    others (first, true).

Section Attest.
Context {AL : AttestationLib} {GE : Geth} {TX : GethTx}.

Definition methodSelector (signature : bytes) : bytes := take 4 (Keccak256 signature).

Definition checkChain (expected : Z) (provider : ReadProvider) : AM unit :=
  let* o := acall (A_ChainID (Prv_Reader provider)) in
  stop negb (bool_decide (timedRead o = Some (Some expected))) with fail (attestationError "read provider did not confirm the expected chain ID") in
  mret tt.

(** The header of one provider at the common height, with its finalized header. *)
Definition commonHeader (commonNumber : Z) (pf : ReadProvider * (Header * Z)) : AM (Header * Z) :=
  let '(provider, (finalized, finalizedNumber)) := pf in
  let* (header, number) := readHeader (Prv_Reader provider) commonNumber "read provider did not confirm the common finalized block" in
  stop negb (number =? commonNumber) with fail (attestationError "read provider did not confirm the common finalized block") in
  stop (finalizedNumber =? commonNumber) && negb (bytes_eqb (headerHash finalized) (headerHash header))
    with fail (attestationError "read provider changed the finalized block hash") in
  mret (header, number).

Definition checkDeploymentBlock (m : DeploymentManifest) (deploymentNumber : Z) (provider : ReadProvider) : AM unit :=
  let* (header, number) := readHeader (Prv_Reader provider) deploymentNumber "read provider did not confirm the deployment block hash" in
  stop negb (number =? deploymentNumber) || negb (bytes_eqb (headerHash header) (Man_DeploymentBlockHash m))
    with fail (attestationError "read provider did not confirm the deployment block hash") in
  mret tt.

Definition checkDeploymentTransaction (m : DeploymentManifest) (expectedChainID deploymentNumber : Z) (provider : ReadProvider) : AM unit :=
  let* o := acall (A_TransactionByHash (Prv_Reader provider) (Man_DeploymentTransactionHash m)) in
  match timedRead o with
  | Some (Some transaction, false) =>
      stop negb (bytes_eqb (txn_Hash transaction) (Man_DeploymentTransactionHash m)) || negb (Txn_ChainID transaction =? expectedChainID)
           || isSomeb (Txn_To transaction)
        with fail (attestationError "deployment transaction does not match the trusted manifest") in
      stop negb (bytes_eqb (Txn_Data transaction) (Man_deploymentData m))
        with fail (attestationError "deployment transaction contains unexpected creation input") in
      stop negb (bool_decide (txn_Sender expectedChainID transaction = Some (Imm_Sponsor (Man_Immutables m))))
        with fail (attestationError "deployment transaction was not signed by the expected sponsor") in
      stop negb (bytes_eqb (CreateAddress (Imm_Sponsor (Man_Immutables m)) (Txn_Nonce transaction)) (Man_Address m))
        with fail (attestationError "CREATE address does not match the deployment manifest") in
      let* o := acall (A_TransactionReceipt (Prv_Reader provider) (Man_DeploymentTransactionHash m)) in
      match timedRead o with
      | Some (Some receipt) =>
          stop negb (Rcpt_Status receipt =? 1) with fail (attestationError "read provider did not confirm a successful deployment receipt") in
          stop negb (bytes_eqb (Rcpt_TxHash receipt) (Man_DeploymentTransactionHash m)) || negb (bytes_eqb (Rcpt_ContractAddress receipt) (Man_Address m))
               || negb (bool_decide (Rcpt_BlockNumber receipt = Some deploymentNumber)) || negb (bytes_eqb (Rcpt_BlockHash receipt) (Man_DeploymentBlockHash m))
            with fail (attestationError "deployment receipt does not match the trusted manifest") in
          mret tt
      | _ => fail (attestationError "read provider did not confirm a successful deployment receipt")
      end
  | _ => fail (attestationError "read provider did not confirm the mined deployment transaction")
  end.

Record Getter := mkGetter { getter_name : String.string; getter_selector : bytes; getter_expected : Address }.

Definition getters (m : DeploymentManifest) : list Getter :=
  let imm := Man_Immutables m in
  [mkGetter "destination" (methodSelector (str "destination()")) (Imm_Destination imm);
   mkGetter "sponsor" (methodSelector (str "sponsor()")) (Imm_Sponsor imm);
   mkGetter "self" (methodSelector (str "self()")) (Imm_Self imm)].

Definition getterReason (name : String.string) : String.string :=
  String.append "getter " (String.append name " did not confirm the expected immutable address").

Definition checkGetter (m : DeploymentManifest) (commonHash : Hash) (provider : ReadProvider) (getter : Getter) : AM unit :=
  let* o := acall (A_CallContractAtHash (Prv_Reader provider) (Man_Address m) (getter_selector getter) commonHash) in
  match timedRead o with
  | Some result =>
      stop negb (bool_decide (decodeCanonicalAddress result = Some (getter_expected getter))) with fail (attestationError (getterReason (getter_name getter))) in
      mret tt
  | None => fail (attestationError (getterReason (getter_name getter)))
  end.

Definition checkState (m : DeploymentManifest) (commonHash : Hash) (provider : ReadProvider) : AM unit :=
  let* o := acall (A_CodeAtHash (Prv_Reader provider) (Man_Address m) commonHash) in
  match timedRead o with
  | Some code =>
      stop negb (bytes_eqb code (Man_linkedRuntime m)) || negb (bytes_eqb (hashHex (Keccak256 code)) (Runtime_Keccak256 (Man_Runtime m)))
        with fail (attestationError "runtime bytecode does not match the trusted artifact") in
      forEach (getters m) (checkGetter m commonHash provider)
  | None => fail (attestationError "runtime bytecode does not match the trusted artifact")
  end.

(** The context is not nil.  The two decimal texts were checked by
    [validateLoadedManifest]; the providers are at least two, so there is a first
    header. *)
Definition AttestDeployment (m : DeploymentManifest) (providers : list ReadProvider) (readTimeout : Duration) : AM unit :=
  stop readTimeout <=? 0 with fail (attestationError "read timeout must be positive") in
  let* _ := lift (validateProviders providers) in
  let* _ := lift (validateLoadedManifest m) in
  let expectedChainID := default 0 (parseDecimal (Man_ChainID m) false) in
  let* _ := forEach providers (checkChain expectedChainID) in
  let* finalizedHeaders := collectEach providers (fun provider =>
    readHeader (Prv_Reader provider) FinalizedBlockNumber "failed to retrieve a valid finalized header") in
  match finalizedHeaders with
  | [] => panic
  | (_, firstNumber) :: others =>
      let (commonNumber, sameHeight) := commonHeight firstNumber (map snd others) in
      let* commonHeaders := if sameHeight then mret finalizedHeaders else collectEach (combine providers finalizedHeaders) (commonHeader commonNumber) in
      match commonHeaders with
      | [] => panic
      | (first, _) :: _ =>
          let commonHash := headerHash first in
          stop existsb (fun hn => negb (snd hn =? commonNumber) || negb (bytes_eqb (headerHash (fst hn)) commonHash)) commonHeaders
            with fail (attestationError "read providers disagree on the finalized block hash") in
          let deploymentNumber := default 0 (parseDecimal (Man_DeploymentBlockNumber m) true) in
          stop commonNumber <? deploymentNumber with fail (attestationError "deployment block is not yet finalized") in
          stop (deploymentNumber =? commonNumber) && negb (bytes_eqb (Man_DeploymentBlockHash m) commonHash)
            with fail (attestationError "deployment block hash does not match the common finalized block") in
          let* _ := forEach providers (checkDeploymentBlock m deploymentNumber) in
          let* _ := forEach providers (checkDeploymentTransaction m expectedChainID deploymentNumber) in
          forEach providers (checkState m commonHash)
      end
  end.

End Attest.

End Attestation.
Export Attestation.
