(* ===== verification/AttestationClaims.v ===== *)
(** * What a trusted manifest and an attestation guarantee

    [Linking]: the linked runtime is the artifact's template with each immutable
    address in its slots and nothing else changed.  [Reads]: a logic for programs
    that only read, whose postconditions speak of the answers received.  The claim
    puts both together: an attested deployment was confirmed by every provider;
    with it a deployment it applies to. *)

From S2P Require Import Prelude GoTime Bytes Sha256 Domain Bolt BudgetModel StoreModel RpcQuorum Programs RescueErrors RescueEffects GoText Attestation.
From Stdlib Require Import Strings.Byte.
From Stdlib Require Strings.String.
Import Strings.String.StringSyntax.

Module AttestationTheorems.

(** ** The fuel of the token reader *)

Lemma consume_shorter fuel :
  (forall tokens rest, consumeJSONValue fuel tokens = Some rest -> (length rest < length tokens)%nat) /\
  (forall keys tokens rest, consumeMembers fuel keys tokens = Some rest -> (length rest < length tokens)%nat) /\
  (forall tokens rest, consumeElements fuel tokens = Some rest -> (length rest < length tokens)%nat).
Proof.
  induction fuel as [|fuel (IHv & IHm & IHe)]; [done|]. repeat split.
  - intros [|[d|s|] tokens] rest; cbn [consumeJSONValue]; try done; [|intros [= <-]; cbn; lia..].
    repeat case_bool_decide; [intros Hc%IHm|intros Hc%IHe|done]; cbn; lia.
  - intros keys tokens rest. cbn [consumeMembers]. destruct (More tokens).
    + destruct tokens as [|[d|key|] tokens]; try done. case_bool_decide; [done|].
      destruct (consumeJSONValue fuel tokens) as [rest'|] eqn:E; [|done]. apply IHv in E. intros Hc%IHm. cbn. lia.
    + destruct tokens as [|[d|key|] tokens]; try done. case_bool_decide; [|done]. intros [= <-]. cbn. lia.
  - intros tokens rest. cbn [consumeElements]. destruct (More tokens).
    + destruct (consumeJSONValue fuel tokens) as [rest'|] eqn:E; [|done]. apply IHv in E. intros Hc%IHe. lia.
    + destruct tokens as [|[d|key|] tokens]; try done. case_bool_decide; [|done]. intros [= <-]. cbn. lia.
Qed.

(** With more fuel than [jsonFuel] the reader answers the same. *)
Lemma consume_fuel fuel :
  (forall tokens, (2 * length tokens < fuel)%nat -> consumeJSONValue (S fuel) tokens = consumeJSONValue fuel tokens) /\
  (forall keys tokens, (2 * length tokens + 1 < fuel)%nat -> consumeMembers (S fuel) keys tokens = consumeMembers fuel keys tokens) /\
  (forall tokens, (2 * length tokens + 1 < fuel)%nat -> consumeElements (S fuel) tokens = consumeElements fuel tokens).
Proof.
  induction fuel as [|fuel (IHv & IHm & IHe)]; [repeat split; lia|]. repeat split.
  - intros [|[d|s|] tokens] Hl; try done. cbn [length] in Hl.
    change (consumeJSONValue (S (S fuel)) (TokDelim d :: tokens)) with
      (if bool_decide (d = x7b) then consumeMembers (S fuel) [] tokens else if bool_decide (d = x5b) then consumeElements (S fuel) tokens else None).
    change (consumeJSONValue (S fuel) (TokDelim d :: tokens)) with
      (if bool_decide (d = x7b) then consumeMembers fuel [] tokens else if bool_decide (d = x5b) then consumeElements fuel tokens else None).
    rewrite IHm, IHe by lia. done.
  - intros keys tokens Hl. remember (S fuel) as fuel' eqn:Ef. cbn [consumeMembers]. destruct (More tokens) eqn:Em; [|subst; cbn [consumeMembers]; by rewrite Em].
    subst fuel'. cbn [consumeMembers]. rewrite Em. destruct tokens as [|[d|key|] tokens]; try done. cbn [length] in Hl. case_bool_decide; [done|].
    rewrite IHv by lia. destruct (consumeJSONValue fuel tokens) as [rest|] eqn:E; [|done].
    apply (proj1 (consume_shorter fuel)) in E. apply IHm. lia.
  - intros tokens Hl. remember (S fuel) as fuel' eqn:Ef. cbn [consumeElements]. destruct (More tokens) eqn:Em; [|subst; cbn [consumeElements]; by rewrite Em].
    subst fuel'. cbn [consumeElements]. rewrite Em, IHv by lia. destruct (consumeJSONValue fuel tokens) as [rest|] eqn:E; [|done].
    apply (proj1 (consume_shorter fuel)) in E. apply IHe. lia.
Qed.

(** ** Linking *)

(** The bytes a range overwrites. *)
Definition written (r : immutableRange) (i : nat) : Prop := (Z.to_nat (Range_start r) + 12 <= i < Z.to_nat (Range_start r) + 32)%nat.

(** A slot of the template: a word of zeros that gets an address. *)
Definition slot_of (template : bytes) (r : immutableRange) : Prop :=
  0 <= Range_start r /\ Range_end r = Range_start r + 32 /\ Range_end r <= len template /\ isAddress (Range_value r) /\
  forall k, (k < 32)%nat -> template !! (Z.to_nat (Range_start r) + k)%nat = Some x00.

Definition apart (r q : immutableRange) : Prop := Range_end r <= Range_start q \/ Range_end q <= Range_start r.

Lemma writeImmutable_spec linked r i :
  0 <= Range_start r -> Range_end r = Range_start r + 32 -> Range_end r <= len linked -> isAddress (Range_value r) ->
  length (writeImmutable linked r) = length linked /\
  (written r i -> writeImmutable linked r !! i = Range_value r !! (i - (Z.to_nat (Range_start r) + 12))%nat) /\
  (~ written r i -> writeImmutable linked r !! i = linked !! i).
Proof.
  intros H0 He Hl Ha. unfold isAddress, Address, len in *. unfold writeImmutable, written. rewrite He. unfold bytes in *.
  replace (Z.to_nat (Range_start r + 12)) with (Z.to_nat (Range_start r) + 12)%nat by lia. set (from := (Z.to_nat (Range_start r) + 12)%nat).
  rewrite !(take_ge (Range_value r)) by lia. split; [rewrite !length_app, length_take, length_drop; lia|].
  split; intros Hi.
  - rewrite lookup_app_r by (rewrite length_take; lia). rewrite length_take, lookup_app_l by lia. f_equal. lia.
  - destruct (decide (i < from)%nat).
    + rewrite lookup_app_l by (rewrite length_take; lia). apply lookup_take_lt. lia.
    + rewrite lookup_app_r by (rewrite length_take; lia). rewrite length_take, lookup_app_r by lia. rewrite lookup_drop. f_equal. lia.
Qed.

Lemma fold_write_length template ranges t :
  Forall (slot_of template) ranges -> length t = length template -> length (fold_left writeImmutable ranges t) = length template.
Proof.
  revert t. induction ranges as [|r ranges IH]; cbn; intros t Hf Hl; [done|]. apply Forall_cons in Hf as [(H0 & He & Hb & Ha & _) Hf].
  apply IH; [done|]. rewrite (proj1 (writeImmutable_spec t r 0 H0 He ltac:(unfold len in *; lia) Ha)). done.
Qed.

Lemma fold_write_out template ranges t i :
  Forall (slot_of template) ranges -> length t = length template -> Forall (fun r => ~ written r i) ranges ->
  fold_left writeImmutable ranges t !! i = t !! i.
Proof.
  revert t. induction ranges as [|r ranges IH]; cbn; intros t Hf Hl Ho; [done|].
  apply Forall_cons in Hf as [(H0 & He & Hb & Ha & _) Hf], Ho as [Hr Ho].
  destruct (writeImmutable_spec t r i H0 He ltac:(unfold len in *; lia) Ha) as (Hlen & _ & Hout).
  rewrite IH; [by apply Hout|done|lia|done].
Qed.

Lemma fold_write_in template ranges t r i :
  Forall (slot_of template) ranges -> length t = length template -> r ∈ ranges ->
  (forall q, q ∈ ranges -> q = r \/ apart r q) -> written r i ->
  fold_left writeImmutable ranges t !! i = Range_value r !! (i - (Z.to_nat (Range_start r) + 12))%nat.
Proof.
  revert t. induction ranges as [|q ranges IH]; cbn; intros t Hf Hl Hr Hd Hi; [by apply elem_of_nil in Hr|].
  apply Forall_cons in Hf as [Hq Hf]. destruct Hq as (H0 & He & Hb & Ha & Hz).
  destruct (writeImmutable_spec t q i H0 He ltac:(unfold len in *; lia) Ha) as (Hlen & Hin & Hout).
  destruct (decide (Exists (fun p => p = r) ranges)) as [(p & Hp & ->)%Exists_exists|Hn].
  { apply IH; [done|lia|done| |done]. intros p Hp'. apply Hd, elem_of_cons. by right. }
  rewrite <-Forall_Exists_neg in Hn. rewrite Forall_forall in Hn. apply elem_of_cons in Hr as [->|Hr]; [|by apply Hn in Hr].
  rewrite (fold_write_out template); [by apply Hin|done|lia|]. apply Forall_forall. intros p Hp Hw.
  destruct (Hd p) as [->|Ha']; [apply elem_of_cons; by right|by apply Hn in Hp|].
  rewrite Forall_forall in Hf. destruct (Hf p Hp) as (Hp0 & Hpe & _). unfold written, apart in *. lia.
Qed.

(** Sorted ranges whose neighbours do not overlap are apart. *)
Lemma sorted_apart template ranges r q :
  Forall (slot_of template) ranges -> StronglySorted range_le ranges -> overlapping ranges = false ->
  r ∈ ranges -> q ∈ ranges -> q = r \/ apart r q.
Proof.
  revert r q. induction ranges as [|p ranges IH]; intros r q Hf Hs Ho Hr Hq; [by apply elem_of_nil in Hr|].
  apply Forall_cons in Hf as [Hp Hf]. apply StronglySorted_inv in Hs as [Hs Hle].
  assert (Hafter : forall x, x ∈ ranges -> Range_end p <= Range_start x).
  { destruct ranges as [|n ranges]; [intros x Hx; by apply elem_of_nil in Hx|]. cbn [overlapping] in Ho. bool_hyps.
    apply StronglySorted_inv in Hs as [_ Hn]. rewrite Forall_forall in Hn. intros x [->|Hx]%elem_of_cons; [lia|].
    specialize (Hn x Hx). unfold range_le in Hn. lia. }
  assert (Ho' : overlapping ranges = false) by (destruct ranges; [done|]; cbn [overlapping] in Ho; bool_hyps; done).
  apply elem_of_cons in Hr as [->|Hr], Hq as [->|Hq]; [by left|right; left; auto|right; right; auto|by apply IH].
Qed.

Definition references_typed (references : list (bytes * list immutableReference)) : Prop :=
  Forall (fun r => Forall (fun e => inU 64 (Imref_Start e) /\ inU 64 (Imref_Length e)) r.2) references.

Definition immutables_typed (values : ImmutableValues) : Prop :=
  isAddress (Imm_Destination values) /\ isAddress (Imm_Self values) /\ isAddress (Imm_Sponsor values).

Lemma expectedImmutable_typed values name : immutables_typed values -> isAddress (expectedImmutable values name).
Proof. intros (H1 & H2 & H3). unfold expectedImmutable. by repeat destruct (bytes_eqb _ _). Qed.

Section Collected.
Context (template : bytes) (references : list (bytes * list immutableReference)) (values : ImmutableValues).
Hypothesis template_size : len template < 2 ^ 64.
Hypothesis typed : references_typed references.
Hypothesis addresses : immutables_typed values.

(** The range of an entry of [name]. *)
Definition range_of (name : bytes) (e : immutableReference) : immutableRange :=
  mkRange (Imref_Start e) (Imref_Start e + 32) (expectedImmutable values name).

(** An entry of one of the names. *)
Definition entry_of (names : list bytes) (name : bytes) (e : immutableReference) : Prop :=
  name ∈ names /\ exists entries, referencesOf references name = Some entries /\ e ∈ entries.

Lemma entry_typed names name e : entry_of names name e -> inU 64 (Imref_Start e).
Proof.
  intros (_ & entries & Hr & He). unfold referencesOf in Hr. destruct (List.find _ references) as [r|] eqn:Ef; [|done]. injection Hr as <-.
  apply List.find_some in Ef as [Hin%list_elem_of_In _]. unfold references_typed in typed. rewrite Forall_forall in typed.
  specialize (typed r Hin). rewrite Forall_forall in typed. by apply (typed e He).
Qed.

Lemma allZero_lookup (b : list byte) k : allZero b = true -> (k < length b)%nat -> b !! k = Some x00.
Proof.
  unfold allZero. rewrite forallb_forall. intros H Hk. destruct (lookup_lt_is_Some_2 b k Hk) as [x Hx]. rewrite Hx.
  f_equal. specialize (H x). rewrite <-list_elem_of_In in H. apply bool_decide_eq_true in H; [done|]. by eapply list_elem_of_lookup_2.
Qed.

Lemma addReference_ok name e ranges ranges' :
  inU 64 (Imref_Start e) -> addReference template (expectedImmutable values name) ranges e = Ok ranges' ->
  Imref_Length e = 32 /\ ranges' = ranges ++ [range_of name e] /\ slot_of template (range_of name e).
Proof.
  intros Hs. unfold addReference. unfold inU in Hs. destruct (negb _ || _ || _) eqn:E; [done|]. bool_hyps.
  unfold uint64_wrap in *. rewrite (Z.mod_small (len template - _)) in * by (unfold len in *; lia).
  rewrite (Z.mod_small (_ + _)) by (unfold len in *; lia).
  destruct (negb _) eqn:Ez; [done|]. bool_hyps. assert (Hlen : Imref_Length e = 32) by done. rewrite Hlen in *. intros [= <-]. split; [done|]. split; [done|].
  unfold slot_of. cbn. split; [lia|]. split; [done|]. split; [lia|]. split; [by apply expectedImmutable_typed|]. intros k Hk.
  replace (Imref_Start e + 32 - Imref_Start e) with 32 in Ez by lia.
  assert (Hz := allZero_lookup _ k Ez). rewrite length_take, length_drop in Hz. unfold len in *.
  rewrite <-Hz by lia. unfold bytes. rewrite lookup_take_lt by lia. by rewrite lookup_drop.
Qed.

Lemma foldM_addReference name entries ranges ranges' :
  Forall (fun e => inU 64 (Imref_Start e)) entries -> foldM (addReference template (expectedImmutable values name)) entries ranges = Ok ranges' ->
  ranges' = ranges ++ map (range_of name) entries /\ Forall (fun e => Imref_Length e = 32 /\ slot_of template (range_of name e)) entries.
Proof.
  revert ranges. induction entries as [|e entries IH]; intros ranges Ht; cbn [foldM].
  - intros [= <-]. cbn. by rewrite app_nil_r.
  - apply Forall_cons in Ht as [He Ht]. destruct (addReference _ _ ranges e) as [mid|] eqn:Ea; [|done]. intros H%IH; [|done].
    apply addReference_ok in Ea as (Hl & -> & Hs); [|done]. destruct H as [-> Hf]. cbn. rewrite <-app_assoc. split; [done|]. by constructor.
Qed.

Lemma collected_spec names ranges ranges' :
  foldM (addReferences template references values) names ranges = Ok ranges' ->
  exists added, ranges' = ranges ++ added /\ Forall (slot_of template) added /\
    (forall r, r ∈ added <-> exists name e, entry_of names name e /\ r = range_of name e) /\
    (forall name e, entry_of names name e -> Imref_Length e = 32).
Proof.
  revert ranges. induction names as [|n names IH]; intros ranges; cbn [foldM].
  - intros [= <-]. exists []. rewrite app_nil_r. split; [done|]. split; [done|]. split.
    + intros r. split; [by intros ?%elem_of_nil|]. by intros (name & e & (?%elem_of_nil & _) & _).
    + by intros name e (?%elem_of_nil & _).
  - destruct (addReferences _ _ _ ranges n) as [mid|] eqn:Ea; [|done]. intros H%IH. destruct H as (added & -> & Hs & Hr & Hl).
    unfold addReferences in Ea. destruct (referencesOf references n) as [entries|] eqn:En; [|done].
    assert (Hn : forall e, e ∈ entries -> entry_of [n] n e) by (intros e He; split; [by apply list_elem_of_singleton|]; eauto).
    assert (Ef : foldM (addReference template (expectedImmutable values n)) entries ranges = Ok mid) by (by destruct entries).
    apply foldM_addReference in Ef as [-> Hf]; [|apply Forall_forall; eauto using entry_typed]. clear Ea.
    rewrite Forall_forall in Hf. exists (map (range_of n) entries ++ added). rewrite app_assoc. split; [done|].
    split; [apply Forall_app; split; [|done]; apply Forall_forall; intros r (e & -> & He)%list_elem_of_fmap; by apply Hf|]. split.
    + intros r. rewrite elem_of_app, Hr, list_elem_of_fmap. unfold entry_of. setoid_rewrite elem_of_cons. split.
      * intros [(e & -> & He)|(name & e & (Hin & He) & ->)]; [exists n, e|exists name, e]; eauto 10.
      * intros (name & e & ([->|Hin] & (es & Hes & He)) & ->); [left; exists e|right; exists name, e]; [|by eauto 10].
        assert (es = entries) as -> by congruence. done.
    + intros name e ([->|Hin]%elem_of_cons & es & Hes & He); [|apply (Hl name e); split; [exact Hin|]; by exists es].
      assert (es = entries) as -> by congruence. by apply Hf.
Qed.

(** The linked runtime: the template with every slot holding its address. *)
Theorem linked_runtime_spec order linked :
  order ≡ₚ immutableNames -> linkImmutableReferences order template references values = Ok linked ->
  length linked = length template /\
  (forall name e, entry_of immutableNames name e ->
     Imref_Length e = 32 /\ slice linked (Imref_Start e) 32 = zero_bytes 12 ++ expectedImmutable values name) /\
  (forall i, (forall name e, entry_of immutableNames name e -> ~ written (range_of name e) i) -> linked !! i = template !! i).
Proof.
  intros Hord. unfold linkImmutableReferences. destruct (negb _); [done|]. ok Ec. destruct (existsb _ _); [done|].
  destruct (overlapping _) eqn:Eo; [done|]. intros [= <-].
  apply collected_spec in Ec as (added & -> & Hs & Hr & Hl). cbn [app] in *. set (sorted := merge_sort range_le added) in *.
  assert (Hp : sorted ≡ₚ added) by apply merge_sort_Permutation. assert (Hf : Forall (slot_of template) sorted) by (by rewrite Hp).
  assert (Hss : StronglySorted range_le sorted).
  { apply StronglySorted_merge_sort; intros ?**; unfold range_le in *; lia. }
  assert (Hin : forall name e, entry_of immutableNames name e -> range_of name e ∈ sorted).
  { intros name e (Hn & He). rewrite Hp. apply Hr. exists name, e. split; [|done]. split; [by rewrite Hord|done]. }
  assert (Hlen : length (fold_left writeImmutable sorted template) = length template) by (by apply fold_write_length).
  split; [done|]. split.
  - intros name e He. split; [apply (Hl name e); destruct He; split; [by rewrite Hord|done]|].
    pose proof (Hin name e He) as Hr'. pose proof Hf as Hf'. rewrite Forall_forall in Hf'. destruct (Hf' _ Hr') as (H0 & H1 & H2 & H3 & H4).
    unfold isAddress, len in *. cbn in H0, H1, H2, H3, H4. apply list_eq. intros k. unfold slice, zero_bytes. unfold bytes in *.
    destruct (decide (k < 32)%nat) as [Hk|Hk].
    2:{ rewrite lookup_take_ge, lookup_ge_None_2; [done| |lia]. rewrite length_app, length_replicate. unfold Address, bytes in H3. lia. }
    rewrite lookup_take_lt, lookup_drop by lia. destruct (decide (k < 12)%nat) as [Hk'|Hk'].
    + rewrite lookup_app_l, lookup_replicate_2 by (rewrite ?length_replicate; lia).
      rewrite (fold_write_out template); [by apply H4|done|done|]. apply Forall_forall. intros q Hq Hw.
      destruct (sorted_apart template sorted (range_of name e) q Hf Hss Eo Hr' Hq) as [->|Ha]; unfold written, apart in *; cbn in *; [lia|].
      destruct (Hf' _ Hq) as (Hq0 & Hq1 & _). lia.
    + rewrite lookup_app_r by (rewrite length_replicate; lia). rewrite length_replicate.
      rewrite (fold_write_in template sorted template (range_of name e)); [cbn; f_equal; lia|done|done|done| |unfold written; cbn; lia].
      intros q Hq. by eapply sorted_apart.
  - intros i Hi. apply (fold_write_out template); [done|done|]. apply Forall_forall. intros r Hr'. rewrite Hp in Hr'. apply Hr in Hr' as (name & e & (Hn & He) & ->).
    apply Hi. split; [by rewrite <-Hord|done].
Qed.

End Collected.

(** ** Programs that only read *)

Abbreviation atrace := (list (Programs.event aanswer)).

(** From a trace of [P], a result satisfies [Q] and an error is an error; nothing
    panics. *)
Definition reads {A} (P : atrace -> Prop) (m : AM A) (Q : A -> atrace -> Prop) : Prop :=
  forall s w, P w -> wp traced (fun _ _ => True) False (m s)
    (fun sr w' => w `suffix_of` w' /\ match sr.2 with Ok a => Q a w' | Err _ => True end) w.

Definition stable (P : atrace -> Prop) : Prop := forall w w', w `suffix_of` w' -> P w -> P w'.

(** A call was answered by something that satisfies [P]. *)
Definition heard (c : AEff) (P : aanswer c -> Prop) (w : atrace) : Prop := exists x, Event c x ∈ w /\ P x.

Lemma heard_stable c P : stable (heard c P).
Proof. intros w w' [l ->] (x & Hx & HP). exists x. split; [|done]. apply elem_of_app. by right. Qed.

Lemma reads_ret {A} (P : atrace -> Prop) (a : A) (Q : A -> atrace -> Prop) : (forall w, P w -> Q a w) -> reads P (mret a) Q.
Proof. intros H s w Hw. cbn. split; [done|]. auto. Qed.

Lemma reads_fail {A} P e (Q : A -> atrace -> Prop) : reads P (fail e) Q.
Proof. intros s w Hw. by cbn. Qed.

Lemma reads_lift {A} (P : atrace -> Prop) r (Q : A -> atrace -> Prop) : (forall a w, r = Ok a -> P w -> Q a w) -> reads P (lift r) Q.
Proof. intros H s w Hw. cbn. split; [done|]. destruct r; eauto. Qed.

Lemma reads_call P c : reads P (Programs.call c) (fun x w => heard c (fun y => y = x) w).
Proof.
  intros s w Hw. cbn. split; [done|]. intros x w' ->. split; [by exists [Event c x]|]. exists x. split; [|done]. apply elem_of_cons. by left.
Qed.

Lemma reads_mbind {A B} P (m : AM A) (f : A -> AM B) Q R : reads P m Q -> (forall a, reads (Q a) (f a) R) -> reads P (mbind m f) R.
Proof.
  intros Hm Hf s w Hw. apply wp_bind. eapply wp_mono; [exact (Hm s w Hw)|]. intros [s' [a|e]] w' [Hs HQ]; cbn in *; [|done].
  eapply wp_mono; [exact (Hf a s' w' HQ)|]. intros sr w'' [Hs' HR]. split; [by etrans|done].
Qed.

Lemma reads_frame {A} (P R : atrace -> Prop) (m : AM A) Q : stable R -> reads P m Q -> reads (fun w => P w /\ R w) m (fun a w => Q a w /\ R w).
Proof.
  intros HR Hm s w [Hw Hr]. eapply wp_mono; [exact (Hm s w Hw)|]. intros [s' [a|e]] w' [Hs HQ]; cbn in *; split; try done. split; [done|]. by eapply HR.
Qed.

Lemma reads_weaken {A} (P P' : atrace -> Prop) (m : AM A) (Q Q' : A -> atrace -> Prop) :
  (forall w, P' w -> P w) -> (forall a w, Q a w -> Q' a w) -> reads P m Q -> reads P' m Q'.
Proof.
  intros HP HQ Hm s w Hw. eapply wp_mono; [exact (Hm s w (HP w Hw))|]. intros [s' [a|e]] w' [Hs H]; cbn in *; auto.
Qed.

Abbreviation anything := (fun _ : atrace => True).

Lemma reads_call_frame R c : stable R -> reads R (Programs.call c) (fun x w => heard c (fun y => y = x) w /\ R w).
Proof.
  intros HR. eapply reads_weaken; [| |apply (reads_frame (fun _ => True) R _ _ HR (reads_call _ c))]; [by auto|done].
Qed.

(** A guard that fails the program. *)
Ltac checked E := lazymatch goal with |- reads _ (if ?b then _ else _) _ => destruct b eqn:E; [apply reads_fail|] end.

(** A check after a check, keeping what the first found. *)
Lemma reads_then {A B} (P : A -> atrace -> Prop) (m : AM A) (f : A -> AM B) (Q : A -> B -> atrace -> Prop) :
  (forall a, stable (P a)) -> reads anything m P -> (forall a, reads anything (f a) (Q a)) ->
  reads anything (mbind m f) (fun b w => exists a, P a w /\ Q a b w).
Proof.
  intros Hs Hm Hf. eapply reads_mbind; [exact Hm|]. intros a.
  eapply reads_weaken; [| |apply (reads_frame _ (P a) _ _ (Hs a) (Hf a))]; [by auto|]. intros b w [H1 H2]. eauto.
Qed.

Lemma reads_forEach {A} (l : list A) (body : A -> AM unit) (P : A -> atrace -> Prop) :
  (forall x, stable (P x)) -> (forall x, reads anything (body x) (fun _ => P x)) ->
  reads anything (forEach l body) (fun _ w => Forall (fun x => P x w) l).
Proof.
  intros Hs Hb. induction l as [|x l IH]; [by apply reads_ret|]. cbn [forEach].
  eapply reads_weaken; [| |apply (reads_then (fun _ => P x) _ _ (fun _ _ w => Forall (fun x => P x w) l) (fun _ => Hs x) (Hb x) (fun _ => IH))]; [done|].
  intros _ w (_ & H1 & H2). by constructor.
Qed.

Lemma reads_collectEach {A B} (l : list A) (body : A -> AM B) (P : A -> B -> atrace -> Prop) :
  (forall x y, stable (P x y)) -> (forall x, reads anything (body x) (P x)) ->
  reads anything (collectEach l body) (fun ys w => Forall2 (fun x y => P x y w) l ys).
Proof.
  intros Hs Hb. induction l as [|x l IH]; [by apply reads_ret|]. cbn [collectEach].
  eapply reads_weaken; [| |eapply (reads_then (P x) _ _ (fun y zs w => exists ys, zs = y :: ys /\ Forall2 (fun x y => P x y w) l ys) (Hs x) (Hb x))]; [done| |].
  - intros zs w (y & H1 & ys & -> & H2). by constructor.
  - intros y. eapply reads_mbind; [exact IH|]. intros ys. apply reads_ret. eauto.
Qed.

(** ** What each check of an attestation finds *)

Section Attest.
Context {AL : AttestationLib} {GE : Geth} {TX : GethTx}.

(** The value a read gave in time. *)
Definition gave {T} (v : T) (o : Outcome T) : Prop := timedRead o = Some v.

Lemma commonHeight_spec first others number same :
  commonHeight first others = (number, same) ->
  Forall (fun n => number <= n) (first :: others) /\ number ∈ first :: others /\ (same = true -> Forall (fun n => n = number) (first :: others)).
Proof.
  unfold commonHeight. intros H.
  assert (G : forall seen acc, acc.1 ∈ seen -> Forall (fun n => acc.1 <= n) seen -> (acc.2 = true -> Forall (fun n => n = acc.1) seen) ->
    fold_left (fun acc number => let '(commonNumber, sameHeight) := acc in
      if negb (number =? commonNumber) then (if number <? commonNumber then number else commonNumber, false) else (commonNumber, sameHeight)) others acc = (number, same) ->
    Forall (fun n => number <= n) (seen ++ others) /\ number ∈ seen ++ others /\ (same = true -> Forall (fun n => n = number) (seen ++ others))).
  2:{ apply (G [first] (first, true)); cbn; [by apply list_elem_of_singleton|by repeat constructor|by repeat constructor|done]. }
  clear H. induction others as [|n others IH]; intros seen [c b] H1 H2 H3 H; cbn [fst snd] in *.
  - injection H as <- <-. by rewrite app_nil_r.
  - cbn [fold_left] in H. specialize (IH (seen ++ [n])). rewrite <-app_assoc in IH. cbn [app] in IH.
    destruct (n =? c) eqn:En; bool_hyps; cbn [negb] in H; [subst n|destruct (n <? c) eqn:El; bool_hyps]; (eapply IH; [..|exact H]); cbn [fst snd]; try done.
    all: try (apply elem_of_app; auto; right; by apply list_elem_of_singleton).
    all: try (intros Hb; apply Forall_app; split; [by apply H3|]; by constructor).
    all: apply Forall_app; split; [eapply Forall_impl; [exact H2|]; cbn; lia|]; constructor; [lia|done].
Qed.

Definition header_heard (reader : Reader) (query : Z) (h : Header) (n : Z) (w : atrace) : Prop :=
  heard (A_HeaderByNumber reader query) (gave (Some h)) w /\ Hdr_Number h = Some n /\ 0 <= n.

Lemma header_heard_stable reader query h n : stable (header_heard reader query h n).
Proof. intros w w' Hs (H1 & H2). split; [|done]. by eapply heard_stable. Qed.

Lemma readHeader_reads reader query reason :
  reads anything (readHeader reader query reason) (fun hn => header_heard reader query hn.1 hn.2).
Proof.
  unfold readHeader. eapply reads_mbind; [apply reads_call|]. intros o. cbn beta. destruct (timedRead o) as [header|] eqn:Eo; [|apply reads_fail].
  destruct header as [h|]; cbn [validHeader]; [|apply reads_fail]. destruct (Hdr_Number h) as [n|] eqn:En; [|apply reads_fail].
  destruct (0 <=? n) eqn:E0; [|apply reads_fail]. bool_hyps. apply reads_ret. intros w (x & Hx & ->). split; [|done]. by exists o.
Qed.

Lemma checkChain_reads chain p : reads anything (checkChain chain p) (fun _ => heard (A_ChainID (Prv_Reader p)) (gave (Some chain))).
Proof.
  unfold checkChain. eapply reads_mbind; [apply reads_call|]. intros o. cbn beta. case_bool_decide as E; cbn [negb]; [|apply reads_fail].
  apply reads_ret. intros w (x & Hx & ->). by exists o.
Qed.

Definition deployment_block_heard (m : DeploymentManifest) (number : Z) (p : ReadProvider) (w : atrace) : Prop :=
  exists h, header_heard (Prv_Reader p) number h number w /\ headerHash h = Man_DeploymentBlockHash m.

Lemma checkDeploymentBlock_reads m number p : reads anything (checkDeploymentBlock m number p) (fun _ => deployment_block_heard m number p).
Proof.
  unfold checkDeploymentBlock. eapply reads_mbind; [apply readHeader_reads|]. intros [h n]. cbn [fst snd].
  destruct (negb _ || _) eqn:E; [apply reads_fail|]. unfold bytes_eqb in E. bool_hyps. subst n. apply reads_ret. intros w H. by exists h.
Qed.

(** The deployment transaction and its receipt. *)
Definition creation_heard (m : DeploymentManifest) (chain number : Z) (p : ReadProvider) (w : atrace) : Prop :=
  (exists t, heard (A_TransactionByHash (Prv_Reader p) (Man_DeploymentTransactionHash m)) (gave (Some t, false)) w /\
     txn_Hash t = Man_DeploymentTransactionHash m /\ Txn_ChainID t = chain /\ Txn_To t = None /\ Txn_Data t = Man_deploymentData m /\
     txn_Sender chain t = Some (Imm_Sponsor (Man_Immutables m)) /\ CreateAddress (Imm_Sponsor (Man_Immutables m)) (Txn_Nonce t) = Man_Address m) /\
  (exists r, heard (A_TransactionReceipt (Prv_Reader p) (Man_DeploymentTransactionHash m)) (gave (Some r)) w /\
     Rcpt_Status r = 1 /\ Rcpt_TxHash r = Man_DeploymentTransactionHash m /\ Rcpt_ContractAddress r = Man_Address m /\
     Rcpt_BlockNumber r = Some number /\ Rcpt_BlockHash r = Man_DeploymentBlockHash m).

Lemma creation_heard_stable m chain number p : stable (creation_heard m chain number p).
Proof.
  intros w w' Hs [(t & Ht & Ht') (r & Hr & Hr')]. split; [exists t|exists r]; (split; [|done]); by eapply heard_stable.
Qed.

Lemma checkDeploymentTransaction_reads m chain number p :
  reads anything (checkDeploymentTransaction m chain number p) (fun _ => creation_heard m chain number p).
Proof.
  unfold checkDeploymentTransaction. eapply reads_mbind; [apply reads_call|]. intros o. cbn beta.
  destruct (timedRead o) as [[[t|] []]|] eqn:Eo; try apply reads_fail.
  checked E1. checked E2. checked E3. checked E4.
  unfold bytes_eqb in *. bool_hyps. assert (Hto : Txn_To t = None) by (by destruct (Txn_To t)).
  eapply reads_mbind; [apply reads_call_frame, heard_stable|].
  intros o'. cbn beta. destruct (timedRead o') as [[r|]|] eqn:Eo'; try apply reads_fail.
  checked E5. checked E6. unfold bytes_eqb in *. bool_hyps.
  apply reads_ret. intros w [(x & Hx & ->) (y & Hy & ->)]. split; [exists t|exists r]; repeat split; try done; by eexists.
Qed.

(** The state at the common block. *)
Definition getter_heard (m : DeploymentManifest) (hash : Hash) (p : ReadProvider) (g : Getter) (w : atrace) : Prop :=
  exists data, heard (A_CallContractAtHash (Prv_Reader p) (Man_Address m) (getter_selector g) hash) (gave data) w /\
    decodeCanonicalAddress data = Some (getter_expected g).

Lemma getter_heard_stable m hash p g : stable (getter_heard m hash p g).
Proof. intros w w' Hs (data & Hd & Hd'). exists data. split; [|done]. by eapply heard_stable. Qed.

Lemma checkGetter_reads m hash p g : reads anything (checkGetter m hash p g) (fun _ => getter_heard m hash p g).
Proof.
  unfold checkGetter. eapply reads_mbind; [apply reads_call|]. intros o. cbn beta. destruct (timedRead o) as [data|] eqn:Eo; [|apply reads_fail].
  case_bool_decide as Ed; cbn [negb]; [|apply reads_fail]. apply reads_ret. intros w (x & Hx & ->). exists data. split; [|done]. by exists o.
Qed.

Definition state_heard (m : DeploymentManifest) (hash : Hash) (p : ReadProvider) (w : atrace) : Prop :=
  heard (A_CodeAtHash (Prv_Reader p) (Man_Address m) hash) (gave (Man_linkedRuntime m)) w /\ Forall (fun g => getter_heard m hash p g w) (getters m).

Lemma state_heard_stable m hash p : stable (state_heard m hash p).
Proof.
  intros w w' Hs [H1 H2]. split; [by eapply heard_stable|]. eapply Forall_impl; [exact H2|]. intros g. by apply getter_heard_stable.
Qed.

Lemma checkState_reads m hash p : reads anything (checkState m hash p) (fun _ => state_heard m hash p).
Proof.
  unfold checkState. eapply reads_mbind; [apply reads_call|]. intros o. cbn beta. destruct (timedRead o) as [code|] eqn:Eo; [|apply reads_fail].
  checked E. unfold bytes_eqb in E. bool_hyps. subst code.
  pose proof (reads_forEach (getters m) (checkGetter m hash p) _ (getter_heard_stable m hash p) (checkGetter_reads m hash p)) as Hg.
  eapply reads_weaken; [| |exact (reads_frame _ _ _ _ (heard_stable (A_CodeAtHash (Prv_Reader p) (Man_Address m) hash) (gave (Man_linkedRuntime m))) Hg)].
  - intros w (x & Hx & ->). split; [done|]. by exists o.
  - intros _ w [H1 H2]. by split.
Qed.

(** ** The whole attestation *)

(** The header of the common block, read as the finalized one or by its number, and
    a finalized header at or above it. *)
Definition finalized_heard (number : Z) (hash : Hash) (p : ReadProvider) (w : atrace) : Prop :=
  (exists h, (header_heard (Prv_Reader p) FinalizedBlockNumber h number w \/ header_heard (Prv_Reader p) number h number w) /\ headerHash h = hash) /\
  (exists h n, header_heard (Prv_Reader p) FinalizedBlockNumber h n w /\ number <= n).

Lemma finalized_heard_stable number hash p : stable (finalized_heard number hash p).
Proof.
  intros w w' Hs [(h & Hh & He) (h' & n & Hf & Hn)]. split; [exists h|exists h', n]; (split; [|done]); [|by eapply header_heard_stable].
  destruct Hh; [left|right]; by eapply header_heard_stable.
Qed.

(** Everything one provider confirmed. *)
Record confirmed (m : DeploymentManifest) (chain number deployment : Z) (hash : Hash) (w : atrace) (p : ReadProvider) : Prop := {
  cf_chain : heard (A_ChainID (Prv_Reader p)) (gave (Some chain)) w;
  cf_finalized : finalized_heard number hash p w;
  cf_block : deployment_block_heard m deployment p w;
  cf_creation : creation_heard m chain deployment p w;
  cf_state : state_heard m hash p w }.

Lemma commonHeader_reads number p h n :
  reads anything (commonHeader number (p, (h, n))) (fun hn w => header_heard (Prv_Reader p) number hn.1 number w /\ hn.2 = number).
Proof.
  unfold commonHeader. eapply reads_mbind; [apply readHeader_reads|]. intros [h' n']. cbn [fst snd].
  checked E1. checked E2. bool_hyps. subst n'. apply reads_ret. auto.
Qed.

(** The common headers, whichever way they were obtained. *)
Lemma commonHeaders_reads providers finalized number (same : bool) :
  (same = true -> Forall (fun hn => hn.2 = number) finalized) ->
  reads (fun w => Forall2 (fun p hn => header_heard (Prv_Reader p) FinalizedBlockNumber hn.1 hn.2 w) providers finalized)
    (if same then mret finalized else collectEach (combine providers finalized) (commonHeader number))
    (fun commons w => Forall2 (fun p hn => (header_heard (Prv_Reader p) FinalizedBlockNumber hn.1 number w \/ header_heard (Prv_Reader p) number hn.1 number w)
        /\ hn.2 = number) providers commons /\
      Forall2 (fun p hn => header_heard (Prv_Reader p) FinalizedBlockNumber hn.1 hn.2 w) providers finalized).
Proof.
  intros Hsame. destruct same.
  - apply reads_ret. intros w H. split; [|done]. specialize (Hsame eq_refl). induction H as [|p [h n] ps hs H1 H2 IH]; [done|].
    apply Forall_cons in Hsame as [Hn Hsame]. cbn in Hn. subst n. constructor; [by auto|by apply IH].
  - pose proof (reads_collectEach (combine providers finalized) (commonHeader number)
      (fun pf hn w => header_heard (Prv_Reader pf.1) number hn.1 number w /\ hn.2 = number)) as Hc.
    assert (Hst : stable (fun w => Forall2 (fun p hn => header_heard (Prv_Reader p) FinalizedBlockNumber hn.1 hn.2 w) providers finalized)).
    { intros w w' Hs H. eapply Forall2_impl; [exact H|]. intros p hn. by apply header_heard_stable. }
    eapply reads_weaken; [| |refine (reads_frame anything _ _ _ Hst (Hc _ _))]; [by auto| | |].
    + intros commons w [H1 H2]. split; [|done]. clear Hst Hc Hsame. revert commons H1. induction H2 as [|p [h n] ps hs H H2 IH]; intros commons H1.
      * by apply Forall2_nil_inv_l in H1 as ->.
      * cbn [combine] in H1. apply Forall2_cons_inv_l in H1 as (c & cs & [Hc Hn] & H1 & ->). constructor; [by auto|by apply IH].
    + intros [p hn] hn' w w' Hs [H Hn]. split; [by eapply header_heard_stable|done].
    + intros [p [h n]]. apply commonHeader_reads.
Qed.

(** What [AttestDeployment] found when it returns no error. *)
Definition attested (m : DeploymentManifest) (providers : list ReadProvider) (w : atrace) : Prop :=
  let deployment := default 0 (parseDecimal (Man_DeploymentBlockNumber m) true) in
  exists number hash, deployment <= number /\ (deployment = number -> Man_DeploymentBlockHash m = hash) /\
    Forall (confirmed m (default 0 (parseDecimal (Man_ChainID m) false)) number deployment hash w) providers.

Lemma Forall_stable {A} (P : A -> atrace -> Prop) l : (forall x, stable (P x)) -> stable (fun w => Forall (fun x => P x w) l).
Proof. intros HP w w' Hs H. eapply Forall_impl; [exact H|]. intros x. by apply HP. Qed.

Lemma deployment_block_heard_stable m number p : stable (deployment_block_heard m number p).
Proof. intros w w' Hs (h & Hh & He). exists h. split; [by eapply header_heard_stable|done]. Qed.

Lemma lastChecks_reads m providers chain deployment hash :
  reads anything
    (let* _ := forEach providers (checkDeploymentBlock m deployment) in
     let* _ := forEach providers (checkDeploymentTransaction m chain deployment) in
     forEach providers (checkState m hash))
    (fun _ w => Forall (fun p => deployment_block_heard m deployment p w /\ creation_heard m chain deployment p w /\ state_heard m hash p w) providers).
Proof.
  pose proof (reads_forEach providers _ _ (deployment_block_heard_stable m deployment) (checkDeploymentBlock_reads m deployment)) as H1.
  pose proof (reads_forEach providers _ _ (creation_heard_stable m chain deployment) (checkDeploymentTransaction_reads m chain deployment)) as H2.
  pose proof (reads_forEach providers _ _ (state_heard_stable m hash) (checkState_reads m hash)) as H3.
  pose proof (reads_then _ _ _ _ (fun _ => Forall_stable _ providers (creation_heard_stable m chain deployment)) H2 (fun _ => H3)) as H23.
  pose proof (reads_then _ _ _ _ (fun _ => Forall_stable _ providers (deployment_block_heard_stable m deployment)) H1 (fun _ => H23)) as H.
  eapply reads_weaken; [| |exact H]; [done|]. intros _ w (_ & Hb & _ & Hc & Hs). rewrite Forall_forall in *. auto.
Qed.

Lemma finalized_all providers finalized commons number w hash :
  Forall2 (fun p hn => header_heard (Prv_Reader p) FinalizedBlockNumber hn.1 hn.2 w) providers finalized ->
  Forall2 (fun p hn => (header_heard (Prv_Reader p) FinalizedBlockNumber hn.1 number w \/ header_heard (Prv_Reader p) number hn.1 number w) /\ hn.2 = number) providers commons ->
  Forall (fun n => number <= n) (map snd finalized) ->
  existsb (fun hn => negb (snd hn =? number) || negb (bytes_eqb (headerHash (fst hn)) hash)) commons = false ->
  Forall (fun p => finalized_heard number hash p w) providers.
Proof.
  intros Hf Hc. revert finalized Hf. induction Hc as [|p [h n] ps cs [Hh Hnum] Hc IH]; intros finalized Hf Hn He; [done|].
  apply Forall2_cons_inv_l in Hf as ([h' n'] & fs & Hp & Hf & ->). cbn [map] in Hn. apply Forall_cons in Hn as [Hn' Hn]. cbn [existsb fst snd] in He, Hh, Hn'.
  unfold bytes_eqb in *. bool_hyps. constructor; [|by eapply IH]. split; [by exists h|]. exists h', n'. by split.
Qed.

(** Every return without an error was preceded by the confirmations; the program
    never panics. *)
Lemma AttestDeployment_reads m providers readTimeout :
  reads anything (AttestDeployment m providers readTimeout) (fun _ w => validateProviders providers = Ok tt /\ validateLoadedManifest m = Ok tt /\ attested m providers w).
Proof.
  unfold AttestDeployment. checked Et. destruct (validateProviders providers) as [[]|e] eqn:Ev; [|intros s w _; cbn; done].
  destruct (validateLoadedManifest m) as [[]|e]; [|intros s w _; cbn; done].
  set (chain := default 0 (parseDecimal (Man_ChainID m) false)).
  pose proof (reads_forEach providers (checkChain chain) _ (fun p => heard_stable _ _) (checkChain_reads chain)) as Hchain.
  pose proof (reads_collectEach providers (fun provider => readHeader (Prv_Reader provider) FinalizedBlockNumber "failed to retrieve a valid finalized header")
    (fun p hn => header_heard (Prv_Reader p) FinalizedBlockNumber hn.1 hn.2) (fun p hn => header_heard_stable _ _ _ _) (fun p => readHeader_reads _ _ _)) as Hheaders.
  assert (Htwo : providers <> []) by (intros ->; done).
  eapply reads_weaken; [| |apply (reads_then (A := unit) (B := unit) _ (forEach providers (checkChain chain)) _
    (fun _ _ w => exists number hash, default 0 (parseDecimal (Man_DeploymentBlockNumber m) true) <= number /\
       (default 0 (parseDecimal (Man_DeploymentBlockNumber m) true) = number -> Man_DeploymentBlockHash m = hash) /\
       Forall (fun p => finalized_heard number hash p w) providers /\
       Forall (fun p => deployment_block_heard m (default 0 (parseDecimal (Man_DeploymentBlockNumber m) true)) p w /\
         creation_heard m chain (default 0 (parseDecimal (Man_DeploymentBlockNumber m) true)) p w /\ state_heard m hash p w) providers)
    (fun _ => Forall_stable _ _ (fun p => heard_stable _ _)) Hchain)].
  - done.
  - intros [] w (_ & H1 & number & hash & Hd & Hd' & Hf & Hl). split; [done|]. split; [done|]. exists number, hash. split; [done|]. split; [done|].
    rewrite Forall_forall in *. intros p Hp. destruct (Hl p Hp) as (Hb & Hc & Hs). constructor; auto.
  - intros _. eapply reads_mbind; [exact Hheaders|]. clear Hheaders Hchain. intros finalized.
    destruct finalized as [|[fh fn] others]; [intros s w Hf%Forall2_nil_inv_r; contradiction|].
    destruct (commonHeight fn (map snd others)) as [number same] eqn:Ec. apply commonHeight_spec in Ec as (Hle & _ & Hsame).
    eapply reads_mbind; [apply (commonHeaders_reads providers ((fh, fn) :: others))|].
    { intros Hs%Hsame. change (fn :: map snd others) with (map snd ((fh, fn) :: others)) in Hs. by apply Forall_map in Hs. }
    intros commons. destruct commons as [|[ch cn] commons]; [intros s w [Hf%Forall2_nil_inv_r _]; contradiction|].
    checked E1. checked E2. checked E3. bool_hyps.
    set (deployment := default 0 (parseDecimal (Man_DeploymentBlockNumber m) true)) in *.
    assert (Hst : stable (fun w => Forall (fun p => finalized_heard number (headerHash ch) p w) providers)) by (apply Forall_stable, finalized_heard_stable).
    eapply reads_weaken; [| |exact (reads_frame _ _ _ _ Hst (lastChecks_reads m providers chain deployment (headerHash ch)))].
    + intros w [Hc Hf]. split; [done|]. by eapply finalized_all.
    + intros _ w [Hl Hf]. exists number, (headerHash ch). split; [lia|]. split; [|done]. intros ->. unfold bytes_eqb in E3. rewrite Z.eqb_refl in E3. cbn in E3. bool_hyps. done.
Qed.

End Attest.

End AttestationTheorems.
Export AttestationTheorems.

Module AttestationClaims.

(** What the decoders of encoding/json give: addresses of 20 bytes, unsigned 64-bit
    positions, and texts that fit in memory. *)
Class AttestationLaws (AL : AttestationLib) : Prop := {
  json_manifest_typed : forall data m rest, json_manifest data = Some (m, rest) -> immutables_typed (Man_Immutables m);
  json_artifact_typed : forall data a rest, json_artifact data = Some (a, rest) ->
    references_typed (Art_ImmutableReferences a) /\ len (Art_DeployedBytecode a) < 2 ^ 63 }.

Section Trusted.
Context {AL : AttestationLib}.

(** A manifest the loader returned, with the artifact it was linked from. *)
Record trusted (order : list bytes) (expectations : ManifestExpectations) (m : DeploymentManifest) (artifactBytes : bytes) (artifact : canonicalArtifact)
    (template creation : bytes) : Prop := {
  tr_digest : Exp_ArtifactSHA256 expectations = str "sha256:" ++ hexEncode (sha256 artifactBytes);
  tr_artifact : decodeStrictJSON json_artifact artifactBytes = Some artifact;
  tr_chain : Man_ChainID m = Exp_ChainID expectations /\ exists chain, parseDecimal (Man_ChainID m) false = Some chain;
  tr_block : exists number, parseDecimal (Man_DeploymentBlockNumber m) true = Some number;
  tr_immutables : Man_Immutables m = mkImmutableValues (Exp_Destination expectations) (Man_Address m) (Exp_Sponsor expectations);
  tr_template : decodeCanonicalBytecode (Art_DeployedBytecode artifact) = Some template;
  tr_creation : decodeCanonicalBytecode (Art_Bytecode artifact) = Some creation;
  tr_linked : linkImmutableReferences order template (Art_ImmutableReferences artifact) (Man_Immutables m) = Ok (Man_linkedRuntime m);
  tr_keccak : Runtime_Keccak256 (Man_Runtime m) = hashHex (Keccak256 (Man_linkedRuntime m));
  tr_data : Man_deploymentData m = buildDeploymentData creation (Exp_Destination expectations) (Exp_Sponsor expectations) }.

Lemma isSomeb_true {A} (o : option A) : isSomeb o = true <-> exists x, o = Some x.
Proof. destruct o; cbn; split; eauto; [done|by intros [? ?]]. Qed.

Lemma validateManifestMetadata_ok m artifact e u :
  validateManifestMetadata m artifact e = Ok u ->
  Man_ChainID m = Exp_ChainID e /\ (exists chain, parseDecimal (Man_ChainID m) false = Some chain) /\
  (exists number, parseDecimal (Man_DeploymentBlockNumber m) true = Some number) /\
  Man_Immutables m = mkImmutableValues (Exp_Destination e) (Man_Address m) (Exp_Sponsor e).
Proof.
  unfold validateManifestMetadata, bytes_eqb. cbv zeta. do 18 (ok; bool_hyps). intros _. rewrite <-!isSomeb_true. split; [done|].
  split; [done|]. split; [done|]. destruct (Man_Immutables m) as [d sf sp]. cbn in *. congruence.
Qed.

Lemma LoadTrustedManifest_trusted order manifestInput artifactInput e m :
  LoadTrustedManifest order manifestInput artifactInput e = Ok m ->
  exists manifestBytes decoded artifactBytes artifact template creation,
    readLimited artifactInput MaxCanonicalArtifactBytes = Some artifactBytes /\
    decodeStrictJSON json_manifest manifestBytes = Some decoded /\ Man_Immutables decoded = Man_Immutables m /\
    trusted order e m artifactBytes artifact template creation.
Proof.
  unfold LoadTrustedManifest. cbv zeta. ok. ok. ok Ea. ok Em. ok. ok Ear. ok. ok Esha. ok Emeta. ok Et. ok. ok Ecr. ok. ok Elink. ok. ok Ek. ok Eseal.
  intros [= <-]. unfold bytes_eqb in *. bool_hyps. apply validateManifestMetadata_ok in Emeta as (M1 & M2 & M3 & M4).
  exists b, d, b0, c. do 2 eexists. split; [done|]. split; [exact Em|]. split; [done|]. constructor; cbn; eauto.
Qed.

End Trusted.

(** Providers that passed validation are independent. *)
Record independent (providers : list ReadProvider) : Prop := {
  ind_two : (2 <= length providers)%nat;
  ind_ids : NoDup (map (fun p => TrimSpace (Prv_ID p)) providers);
  ind_endpoints : NoDup (map (fun p => TrimSpace (Prv_EndpointFingerprint p)) providers);
  ind_domains : NoDup (map (fun p => TrimSpace (Prv_TrustDomain p)) providers);
  ind_readers : NoDup (map Prv_Reader providers) }.

(** The loop keeps the attributes of the providers seen, each once. *)
Definition seen_of (pre : list ReadProvider) (seen : providersSeen) : Prop :=
  seen_ids seen = rev (map (fun p => TrimSpace (Prv_ID p)) pre) /\ seen_endpoints seen = rev (map (fun p => TrimSpace (Prv_EndpointFingerprint p)) pre) /\
  seen_domains seen = rev (map (fun p => TrimSpace (Prv_TrustDomain p)) pre) /\
  map Some (seen_readers seen) = rev (map (fun p => readerIdentity (Prv_Reader p)) pre) /\
  NoDup (seen_ids seen) /\ NoDup (seen_endpoints seen) /\ NoDup (seen_domains seen) /\ NoDup (seen_readers seen).

Lemma addProvider_seen pre seen p seen' : seen_of pre seen -> addProvider seen p = Ok seen' -> seen_of (pre ++ [p]) seen'.
Proof.
  intros (H1 & H2 & H3 & H4 & N1 & N2 & N3 & N4). unfold addProvider. ok. ok. ok. ok. ok. ok Er. ok. intros [= <-]. bool_hyps.
  unfold seen_of. cbn. rewrite !map_app, !rev_app_distr. cbn. rewrite <-H1, <-H2, <-H3, <-H4, Er. repeat split; try done; by apply NoDup_cons.
Qed.

Lemma validateProviders_independent providers : validateProviders providers = Ok tt -> independent providers.
Proof.
  unfold validateProviders. ok. ok Ef. intros _. bool_hyps.
  apply (foldM_invariant seen_of) in Ef; [|repeat split; constructor|intros pre s p s'; apply addProvider_seen].
  destruct Ef as (H1 & H2 & H3 & H4 & N1 & N2 & N3 & N4). rewrite H1 in N1. rewrite H2 in N2. rewrite H3 in N3.
  apply (NoDup_fmap_2 Some) in N4. change (Some <$> seen_readers a) with (map Some (seen_readers a)) in N4. rewrite H4 in N4.
  rewrite <-Permutation_rev in N1, N2, N3, N4. constructor; [lia|done|done|done|].
  rewrite <-(map_map Prv_Reader readerIdentity) in N4. by apply NoDup_fmap_1 in N4.
Qed.

Section Claim.
Context {AL : AttestationLib} {LA : AttestationLaws AL} {GE : Geth} {TX : GethTx}.

(** C36. An attested deployment is the pinned one and every provider confirmed it.
    When the manifest was loaded as trusted and [AttestDeployment] returns no error,
    whatever the providers answered: the artifact has the pinned SHA-256, the linked
    runtime is its template with the expected addresses in their slots and nothing
    else changed, the providers are at least two and independent, and each of them
    confirmed, in this call, the chain, one common block not above its finalized one,
    the deployment block at or below it, the creation transaction of the expected
    sponsor with its successful receipt, and at the common block exactly the linked
    runtime and the three immutable addresses. *)
Theorem attested_deployment_is_confirmed order manifestInput artifactInput expectations m providers readTimeout steps tr :
  order ≡ₚ immutableNames -> LoadTrustedManifest order manifestInput artifactInput expectations = Ok m ->
  exec traced (AttestDeployment m providers readTimeout tt) [] steps (Returned (tt, Ok tt)) tr ->
  exists artifactBytes artifact template creation,
    readLimited artifactInput MaxCanonicalArtifactBytes = Some artifactBytes /\
    trusted order expectations m artifactBytes artifact template creation /\
    length (Man_linkedRuntime m) = length template /\
    (forall name e, entry_of (Art_ImmutableReferences artifact) immutableNames name e ->
       slice (Man_linkedRuntime m) (Imref_Start e) 32 = zero_bytes 12 ++ expectedImmutable (Man_Immutables m) name) /\
    (forall i, (forall name e, entry_of (Art_ImmutableReferences artifact) immutableNames name e -> ~ written (range_of (Man_Immutables m) name e) i) ->
       Man_linkedRuntime m !! i = template !! i) /\
    independent providers /\ attested m providers tr.
Proof.
  intros Hord Hl He. apply LoadTrustedManifest_trusted in Hl as (mb & decoded & artifactBytes & artifact & template & creation & Hr & Hd & Hi & Ht).
  pose proof (AttestDeployment_reads m providers readTimeout tt [] I) as Hw. apply (wp_sound _ _ _ _ _ _ _ _ _ Hw) in He as [_ [_ (Hv & _ & Ha)]].
  exists artifactBytes, artifact, template, creation. split; [done|]. split; [done|].
  assert (Htyped : references_typed (Art_ImmutableReferences artifact) /\ len (Art_DeployedBytecode artifact) < 2 ^ 63).
  { pose proof (tr_artifact _ _ _ _ _ _ _ Ht) as Hj. unfold decodeStrictJSON in Hj. destruct (negb _); [done|].
    destruct (json_artifact artifactBytes) as [[a rest]|] eqn:Ej; [|done]. destruct (forallb _ _); [|done]. injection Hj as <-. by eapply json_artifact_typed. }
  assert (Haddr : immutables_typed (Man_Immutables m)).
  { rewrite <-Hi. unfold decodeStrictJSON in Hd. destruct (negb _); [done|]. destruct (json_manifest mb) as [[a rest]|] eqn:Ej; [|done].
    destruct (forallb _ _); [|done]. injection Hd as <-. by eapply json_manifest_typed. }
  assert (Hsize : len template < 2 ^ 64).
  { pose proof (tr_template _ _ _ _ _ _ _ Ht) as Hb. unfold decodeCanonicalBytecode in Hb. destruct (_ || _); [done|]. apply hexDecode_length in Hb.
    rewrite length_drop in Hb. unfold len in *. lia. }
  destruct (linked_runtime_spec template _ (Man_Immutables m) Hsize (proj1 Htyped) Haddr order _ Hord (tr_linked _ _ _ _ _ _ _ Ht)) as (L1 & L2 & L3).
  split; [done|]. split; [intros name e Hn; by apply (L2 name e)|]. split; [done|]. split; [by apply validateProviders_independent|done].
Qed.

End Claim.

(** ** A deployment *)

Definition anAddress (n : Z) : Address := be_bytes 20 n.
Definition theDestination : Address := anAddress 1.
Definition theSponsor : Address := anAddress 2.
Definition theContract : Address := anAddress 3.
Definition theTransactionHash : Hash := be_bytes 32 77.
Definition theBlockHash : Hash := be_bytes 32 5.

Definition aTemplate : bytes := x60 :: zero_bytes 96 ++ [x00].
Definition aRuntime : bytes :=
  x60 :: (zero_bytes 12 ++ theDestination) ++ (zero_bytes 12 ++ theContract) ++ (zero_bytes 12 ++ theSponsor) ++ [x00].

Definition manifestText : bytes := str "manifest".
Definition artifactText : bytes := str "artifact text".
Definition theDigest : bytes := str "sha256:" ++ hexEncode (sha256 artifactText).

Definition anArtifact : canonicalArtifact :=
  mkArtifact artifactSchemaVersion rescuerContractName rescuerSourceName (str "0.8.30") (str "{}") theDigest theDigest (str "[]")
    (str "0x6001") (hashHex aTemplate)
    [(str "destination", [mkReference 1 32]); (str "self", [mkReference 33 32]); (str "sponsor", [mkReference 65 32])].

Definition aManifest : DeploymentManifest :=
  mkManifest manifestSchemaVersion rescuerContractRole (str "8453") theContract theTransactionHash (str "4") (be_bytes 32 4)
    (mkCompilerDescription (str "0.8.30") (str "{}")) (mkSourceProvenance (str "source-tree-sha256") theDigest) theDigest
    (mkRuntimeDescription (hashHex (sha256 aRuntime)) 98) (mkConstructorArguments theDestination theSponsor)
    (mkImmutableValues theDestination theContract theSponsor) [] [] [].

(** Objects of the texts above by the names of their members; each member is the
    text of its own name. *)
Definition exampleObjects : list (bytes * list bytes) :=
  [(manifestText, [str "schemaVersion"; str "contractRole"; str "chainId"; str "address"; str "deploymentTransactionHash"; str "deploymentBlockNumber";
      str "deploymentBlockHash"; str "compiler"; str "source"; str "artifact"; str "runtime"; str "constructorArguments"; str "immutables"]);
   (artifactText, [str "artifactVersion"; str "contractName"; str "sourceName"; str "compilerVersion"; str "settings"; str "sourceTreeSha256";
      str "compilerInputSha256"; str "abi"; str "bytecode"; str "deployedBytecode"; str "immutableReferences"]);
   (str "compiler", [str "version"; str "settings"]); (str "source", [str "kind"; str "value"]); (str "artifact", [str "sha256"]);
   (str "runtime", [str "keccak256"; str "byteLength"]); (str "constructorArguments", [str "destination"; str "sponsor"]);
   (str "immutables", immutableNames); (str "immutableReferences", immutableNames); (str "entry", [str "start"; str "length"]); (str "{}", [])].

#[local] Instance example_lib : AttestationLib := {|
  json_tokens _ := ([TokOther], true);
  json_object data := match List.find (fun o => bytes_eqb (fst o) data) exampleObjects with
    | Some o => Some (list_to_map (map (fun name => (name, name)) (snd o)))
    | None => None
    end;
  json_array data := if bytes_eqb data (str "[]") then Some [] else Some [str "entry"];
  JsonValue := bytes;
  json_value data := Some data;
  json_manifest _ := Some (aManifest, []);
  json_artifact _ := Some (anArtifact, []);
  json_marshal m := Some (Man_ChainID m ++ Man_Address m);
  Keccak256 := sha256;
  CreateAddress _ _ := theContract;
  Rcpt_ContractAddress _ := theContract |}.

#[local] Instance example_geth : Geth := {|
  headerHash h := be_bytes 32 (default 0 (Hdr_Number h));
  headerSane _ := true;
  createBloom _ := [];
  receiptJSON _ := None |}.

#[local] Instance example_tx : GethTx := {|
  txn_UnmarshalBinary _ := None;
  txn_MarshalBinary _ := None;
  txn_Hash _ := theTransactionHash;
  txn_Sender _ _ := Some theSponsor;
  auth_Authority _ := None |}.

#[local] Instance example_laws : AttestationLaws example_lib.
Proof.
  constructor.
  - intros data m rest [= <- <-]. repeat split; reflexivity.
  - intros data a rest [= <- <-]. split; [|by vm_compute]. by repeat (constructor; cbn; unfold inU).
Qed.

Definition exampleExpectations : ManifestExpectations :=
  mkExpectations (str "8453") rescuerContractRole theDestination theSponsor theDigest (mkSourceProvenance (str "source-tree-sha256") theDigest) (str "0.8.30").

Definition exampleProviders : list ReadProvider :=
  [mkReadProvider (str "one") (str "endpoint one") (str "domain one") (PointerReader 1 1);
   mkReadProvider (str "two") (str "endpoint two") (str "domain two") (PointerReader 1 2)].

Definition exampleHeader (number : Z) : Header := mkHeader (Some number) None None 0 0 None zeroHash 0 [].
Definition answerWith {T} (v : T) : Outcome T := mkOutcome v None None.

(** The first provider has finalized block 6, the second block 5. *)
Definition exampleHandler (c : AEff) (w : unit) : aanswer c * unit :=
  match c return aanswer c * unit with
  | A_ChainID _ => (answerWith (Some 8453), tt)
  | A_HeaderByNumber reader number =>
      (answerWith (Some (exampleHeader (if number =? FinalizedBlockNumber then if bool_decide (reader = PointerReader 1 1) then 6 else 5 else number))), tt)
  | A_TransactionByHash _ _ =>
      (answerWith (Some (mkTxn 2 8453 0 None 0 0 0 (buildDeploymentData [x60; x01] theDestination theSponsor) 0 [] [] []), false), tt)
  | A_TransactionReceipt _ _ =>
      (answerWith (Some (mkReceipt theTransactionHash (be_bytes 32 4) (Some 4) None 1 [] 0 0 None None 0 [] [])), tt)
  | A_CodeAtHash _ _ _ => (answerWith aRuntime, tt)
  | A_CallContractAtHash _ _ data _ =>
      (answerWith (zero_bytes 12 ++ (if bool_decide (data = methodSelector (str "destination()")) then theDestination
                                     else if bool_decide (data = methodSelector (str "sponsor()")) then theSponsor else theContract)), tt)
  end.

Definition exampleLoaded : result AttestationError DeploymentManifest :=
  LoadTrustedManifest immutableNames (Some manifestText) (Some artifactText) exampleExpectations.

Lemma example_attested :
  match exampleLoaded with
  | Ok m => match (run exampleHandler (AttestDeployment m exampleProviders 1 tt) tt).1.2 with Returned (_, Ok _) => true | _ => false end
  | Err _ => false
  end = true.
Proof. vm_compute. reflexivity. Qed.

Lemma attested_deployment_is_confirmed_witness :
  exists m tr, exampleLoaded = Ok m /\ independent exampleProviders /\ attested m exampleProviders tr.
Proof.
  pose proof example_attested as Ha. destruct exampleLoaded as [m|] eqn:El; [|discriminate Ha].
  pose proof (run_exec exampleHandler (AttestDeployment m exampleProviders 1 tt) tt []) as Hr.
  destruct (run exampleHandler (AttestDeployment m exampleProviders 1 tt) tt) as [[tr out] w]. cbn [fst snd] in Ha, Hr.
  destruct Hr as (steps & He & _). destruct out as [[[] [[]|]]| |]; try discriminate Ha.
  destruct (attested_deployment_is_confirmed immutableNames (Some manifestText) (Some artifactText) exampleExpectations m exampleProviders 1 steps (rev tr ++ [])
    ltac:(reflexivity) El He) as (_ & _ & _ & _ & _ & _ & _ & _ & _ & Hi & Hat).
  exists m, (rev tr ++ []). split; [reflexivity|]. split; assumption.
Defined.

End AttestationClaims.
