(* ===== verification/Daemon.v ===== *)
(** * cmd/guard-daemon: start-up, shutdown and the life of a generation

    [daemon_startup.go], [daemon.go], [daemon_generation.go], the manifest and
    attestation part of [daemon_dependencies.go], [credentials.go], [observer.go],
    [diagnostics.go] and [main.go].  The process is a program that calls its dependencies; a resource
    (fence, store, ledger, admission controller, lease, RPC client) is named by what
    it belongs to, a network by its position.  Metrics, health, policies and the
    construction of the coordinators are the functions of those components.

    A dependency may answer a value together with an error.  Where the code looks
    at the value then, the fences, the admission controller, the lease and the
    dialed clients, so does the model; the stores, the ledger and the quorum are
    dropped with the error, as by the Go convention there is nothing to close.  A
    client of the dial is an interface value, which can hold a nil pointer. *)

From S2P Require Import RpcDial.
From S2P Require Import StoreValidation Watcher.
From S2P Require Import Prelude GoTime Bytes Sha256 Domain GoText Attestation Configuration ConfigNetworks.
From S2P Require Import Programs Bolt BudgetModel BudgetCodec BudgetLedger StoreModel StoreLease RescueFees Admission RpcQuorum Telemetry RescueErrors Contracts RescueEffects RescueSession RescueOperations RescueFlow RescueCoordinator.
From S2P Require Import Alerts Wiring.
From Stdlib Require Import Strings.Byte.
From Stdlib Require Strings.String.
Import Strings.String.StringSyntax.

Module Daemon.

Definition leaseReleaseTimeout : Duration := 5 * Second.

Definition errorStartupInvalid : bytes := str "daemon_startup_invalid".
Definition errorDialFailed : bytes := str "daemon_rpc_dial_failed".
Definition errorClientInvalid : bytes := str "daemon_rpc_client_invalid".
Definition errorSessionFailed : bytes := str "daemon_session_failed".
Definition errorWatcherFailed : bytes := str "daemon_watcher_failed".
Definition errorWorkerStopped : bytes := str "daemon_worker_stopped".
Definition errorQueueNextFailed : bytes := str "daemon_queue_next_failed".
Definition errorIncidentPutFailed : bytes := str "daemon_incident_put_failed".
Definition errorCandidateNackFailed : bytes := str "daemon_candidate_nack_failed".
Definition errorCandidateAckFailed : bytes := str "daemon_candidate_ack_failed".
Definition errorTokenForbidden : bytes := str "daemon_token_forbidden".
Definition errorStoreFailed : bytes := str "daemon_store_failed".
Definition errorQuorumFailed : bytes := str "daemon_runtime_quorum_failed".
Definition errorLeaseAcquireFailed : bytes := str "daemon_lease_acquire_failed".
Definition errorLeaseMaintainFailed : bytes := str "daemon_lease_maintain_failed".
Definition errorLeaseReleaseFailed : bytes := str "daemon_lease_release_failed".
Definition errorFenceAcquireFailed : bytes := str "daemon_fence_acquire_failed".
Definition errorFenceValidateFailed : bytes := str "daemon_fence_validate_failed".
Definition errorFenceReleaseFailed : bytes := str "daemon_fence_release_failed".
Definition errorBudgetFailed : bytes := str "daemon_budget_failed".

Definition processError (operation : String.string) (class : ErrorClass) (code : bytes) (retryable : bool) (cause : option GoError) : GoError :=
  NewError operation class code retryable false cause.

(** [errors.Join], up to the nesting of the joined errors, which neither
    [errors.Is] nor [errors.As] sees. *)
Definition errors_Join (e1 e2 : option GoError) : option GoError :=
  match e1, e2 with
  | Some a, Some b => Some (Joined a b)
  | Some a, None => Some a
  | None, _ => e2
  end.

Definition causeOf {A} (r : result GoError A) : option GoError := match r with Ok _ => None | Err e => Some e end.

Definition wiringText (e : WiringError) : bytes :=
  match e with
  | InvalidGlobalLimits => str "invalid global budget limits"
  | LimitOverflow => str "budget limit exceeds uint256"
  | InvalidNetworkBudget => str "invalid network budget policy"
  | InvalidRescuePolicy => str "invalid network rescue policy"
  | RescuePolicyOverflow => str "rescue policy value exceeds uint256"
  | InvalidMinimumPriority => str "invalid minimum priority fee"
  | InvalidTokenValueRule => str "invalid trusted-token value rule"
  end.

(** Errors of the metrics and of the health are only wrapped. *)
Definition telemetryError (_ : TelemetryError) : GoError := Foreign (str "telemetry").

Definition zeroLease : Lease := mkLease (mkLeaseKey 0 zeroAddress) [] zeroTime.

(** What looking for the marker of a restored state gives. *)
Inductive Marker := MarkerPresent | MarkerAbsent | MarkerUnreadable.

(** ** Calls *)

Inductive DEff {CL : ConfigLib} :=
| S_LstatMarker
| S_LoadManifest (index : nat) (network : Network)
| S_AlertStatePath
| S_NewAlertManager (cooldown : Duration) (capacity : Z)
| S_GateStop
| S_AlertRaise (chain : NetworkID) (code : Z)
| S_AlertResolve (chain : NetworkID) (code : Z)
| S_Attest (index : nat) (network : Network) (manifest : Attestation.DeploymentManifest)
| S_AcquireBudgetFence (sponsor : Address)
| S_AcquireFence (index : nat) (key : LeaseKey)
| S_OpenAdmission (config : AdmissionConfig)
| S_OpenStore (index : nat) (network : DomainNetwork)
| S_Replay (index : nat) (chain : NetworkID)
| S_OpenBudget (policy : Policy) (fingerprint : bytes)
| S_Snapshot
| S_NewOwner
| S_AcquireLease (index : nat) (key : LeaseKey) (owner : bytes) (ttl : Duration)
| S_Now
| S_NewSigners (secrets : LiveSecrets)
| S_ERC20Codec
| S_CoordinatorReads (index : nat)
| S_RecordUnknownTokens (chain : NetworkID)
| S_ReleaseLease (index : nat) (lease : Lease)
| S_ReleaseFence (index : nat)
| S_CloseStore (index : nat)
| S_CloseBudget
| S_CloseAdmission
| S_ReleaseBudgetFence
| S_CoordinatorRelease (index : nat)
| S_NewDiagnostics
| S_CloseDiagnostics
| S_NextResult.

(** The workers of a running process: one result each. *)
Inductive Worker := DiagnosticsWorker | NetworkWorker (index : nat) | LeaseWorker (index : nat).

(** A budget snapshot with its networks in the order Go ranges over them. *)
Record BudgetReport := mkReport {
  Report_Global : ScopeSnapshot;
  Report_Networks : list (NetworkID * ScopeSnapshot) }.

Definition danswer {CL : ConfigLib} (c : DEff) : Type :=
  match c with
  | S_LstatMarker => Marker
  | S_LoadManifest _ _ => result GoError Attestation.DeploymentManifest
  | S_AlertStatePath | S_NewAlertManager _ _ | S_AlertRaise _ _ | S_AlertResolve _ _ | S_Attest _ _ _ | S_ERC20Codec => option GoError
  | S_GateStop | S_RecordUnknownTokens _ => unit
  | S_AcquireBudgetFence _ | S_AcquireFence _ _ | S_OpenAdmission _ | S_OpenStore _ _ | S_OpenBudget _ _ => bool * option GoError
  | S_Replay _ _ => result GoError (list RescueCandidate)
  | S_Snapshot => result GoError BudgetReport
  | S_NewOwner => result GoError bytes
  | S_AcquireLease _ _ _ _ => Lease * option GoError
  | S_Now => Time
  | S_NewSigners _ => result GoError (option (Address * Address))
  | S_CoordinatorReads _ => bool * bool * bool * bool * bool
  | S_ReleaseLease _ _ | S_ReleaseFence _ | S_CloseStore _ | S_CloseBudget | S_CloseAdmission | S_ReleaseBudgetFence | S_CoordinatorRelease _
  | S_NewDiagnostics | S_CloseDiagnostics => option GoError
  | S_NextResult => Worker * option GoError * bool
  end.

Section Process.
Context {CL : ConfigLib}.

(** ** State of the start-up *)

Record preparedNetwork := mkPrepared {
  P_configured : Network;
  P_manifest : Attestation.DeploymentManifest;
  P_handoff : bool;
  P_lease : Lease;
  P_fence : bool }.

Record Startup := mkStartup {
  St_prepared : list preparedNetwork;
  St_metrics : Metrics;
  St_health : Health;
  St_budget : bool;
  St_budgetFence : bool;
  St_admission : bool }.

Definition emptyStartup : Startup := mkStartup [] (mkMetrics ∅ (mkBudgetMetrics 0 0 0)) (mkHealth false ∅) false false false.

Definition setPrepared (p : list preparedNetwork) (s : Startup) : Startup :=
  mkStartup p (St_metrics s) (St_health s) (St_budget s) (St_budgetFence s) (St_admission s).
Definition setMetrics (m : Metrics) (s : Startup) : Startup :=
  mkStartup (St_prepared s) m (St_health s) (St_budget s) (St_budgetFence s) (St_admission s).
Definition setHealth (h : Health) (s : Startup) : Startup :=
  mkStartup (St_prepared s) (St_metrics s) h (St_budget s) (St_budgetFence s) (St_admission s).
Definition setBudget (b : bool) (s : Startup) : Startup :=
  mkStartup (St_prepared s) (St_metrics s) (St_health s) b (St_budgetFence s) (St_admission s).
Definition setBudgetFence (b : bool) (s : Startup) : Startup :=
  mkStartup (St_prepared s) (St_metrics s) (St_health s) (St_budget s) b (St_admission s).
Definition setAdmission (b : bool) (s : Startup) : Startup :=
  mkStartup (St_prepared s) (St_metrics s) (St_health s) (St_budget s) (St_budgetFence s) b.

(** [prepared[index].fence = fence] and the like. *)
Definition withFence (p : preparedNetwork) : preparedNetwork := mkPrepared (P_configured p) (P_manifest p) (P_handoff p) (P_lease p) true.
Definition withHandoff (p : preparedNetwork) : preparedNetwork := mkPrepared (P_configured p) (P_manifest p) true (P_lease p) (P_fence p).
Definition withLease (l : Lease) (p : preparedNetwork) : preparedNetwork := mkPrepared (P_configured p) (P_manifest p) (P_handoff p) l (P_fence p).
Definition updatePrepared (index : nat) (f : preparedNetwork -> preparedNetwork) (s : Startup) : Startup := setPrepared (alter f index (St_prepared s)) s.

Abbreviation DM := (SM danswer Startup GoError).
Abbreviation dcall := (Programs.call (ans := danswer)).

(** A loop over the elements with their positions. *)
Definition indexed {A} (l : list A) : list (nat * A) := imap pair l.

(** A failed call ends the start-up with its operation and code. *)
Definition startupFailure {A} (operation : String.string) (class : ErrorClass) (code : bytes) (cause : option GoError) : DM A :=
  fail (processError operation class code false cause).

Definition orFail (err : option GoError) (operation : String.string) (class : ErrorClass) (code : bytes) : DM unit :=
  match err with Some e => startupFailure operation class code (Some e) | None => mret tt end.

(** ** Checks before anything is opened *)

(** The condition of the first check of [newDaemon]; a mode is one of the two. *)
Definition invalidRuntime (r : Runtime) : bool :=
  bytes_eqb (Run_SourceAddress r) zeroAddress || bytes_eqb (Run_SponsorAddress r) zeroAddress || bytes_eqb (Run_Destination r) zeroAddress
  || bytes_eqb (Run_SourceAddress r) (Run_SponsorAddress r) || bytes_eqb (Run_SourceAddress r) (Run_Destination r)
  || bytes_eqb (Run_SponsorAddress r) (Run_Destination r) || (Run_ReadTimeout r <=? 0) || bytes_eqb (WP_StateDirectory (Run_Watch r)) []
  || containsByte (WP_StateDirectory (Run_Watch r)) x00 || negb (bytes_eqb (Clean (WP_StateDirectory (Run_Watch r))) (WP_StateDirectory (Run_Watch r)))
  || (WP_LookbackBlocks (Run_Watch r) =? 0) || (maxWatcherLookback <? WP_LookbackBlocks (Run_Watch r)).

Definition isLive (r : Runtime) : bool := IsLive (Run_Mode r).

Definition rejectRestoredSigningState (r : Runtime) : DM unit :=
  stop negb (isLive r) || RP_EmergencyStop (Run_Policy r) with mret tt in
  let* marker := dcall S_LstatMarker in
  match marker with
  | MarkerPresent => startupFailure "daemon.restore_marker" ErrorConfiguration errorStartupInvalid (Some (Foreign (str "state was restored from a backup")))
  | MarkerAbsent => mret tt
  | MarkerUnreadable =>
      startupFailure "daemon.restore_marker" ErrorConfiguration errorStartupInvalid (Some (Foreign (str "failed to inspect the restored-state marker safely")))
  end.

Definition loadNetworkManifest (in_ : nat * Network) : DM unit :=
  let '(index, network) := in_ in
  let* r := dcall (S_LoadManifest index network) in
  match r with
  | Ok manifest =>
      stop bytes_eqb (Attestation.Man_Address manifest) zeroAddress with startupFailure "daemon.manifest" ErrorConfiguration errorStartupInvalid None in
      modify (fun s => setPrepared (St_prepared s ++ [mkPrepared network manifest false zeroLease false]) s)
  | Err e => startupFailure "daemon.manifest" ErrorConfiguration errorStartupInvalid (Some e)
  end.

Definition chainIDs (prepared : list preparedNetwork) : list NetworkID := map (fun p => Net_ChainID (P_configured p)) prepared.

Definition liftTelemetry {A} (r : result TelemetryError A) (operation : String.string) (class : ErrorClass) (code : bytes) : DM A :=
  match r with Ok a => mret a | Err e => startupFailure operation class code (Some (telemetryError e)) end.

(** Metrics, health, alerts and the gate. *)
Definition prepareTelemetry (r : Runtime) : DM unit :=
  let* prepared := gets St_prepared in
  let chains := chainIDs prepared in
  let* metrics := liftTelemetry (NewMetrics chains) "daemon.metrics" ErrorConfiguration errorStartupInvalid in
  let* health := liftTelemetry (NewHealth chains) "daemon.health" ErrorConfiguration errorStartupInvalid in
  let* _ := modify (fun s => setHealth health (setMetrics metrics s)) in
  let* pathErr := dcall S_AlertStatePath in
  let* _ := orFail pathErr "daemon.alerts" ErrorConfiguration errorStartupInvalid in
  let* alertsErr := dcall (S_NewAlertManager (RP_AlertCooldown (Run_Policy r)) (Z.of_nat (length chains) * 8)) in
  let* _ := orFail alertsErr "daemon.alerts" ErrorConfiguration errorStartupInvalid in
  if RP_EmergencyStop (Run_Policy r) then
    let* _ := dcall S_GateStop in
    let* _ := modify (fun s => setHealth (StopHealth (St_health s)) s) in
    forEach chains (fun chain =>
      let* e := dcall (S_AlertRaise chain AlertPaidActionsStopped) in orFail e "daemon.alert" ErrorInternal errorStartupInvalid)
  else
    forEach chains (fun chain =>
      let* e := dcall (S_AlertResolve chain AlertPaidActionsStopped) in orFail e "daemon.alert" ErrorInternal errorStartupInvalid).

Definition attestNetworks : DM unit :=
  let* prepared := gets St_prepared in
  forEach (indexed prepared) (fun '(index, p) =>
    let* e := dcall (S_Attest index (P_configured p) (P_manifest p)) in
    orFail e "daemon.attestation" ErrorConfiguration errorStartupInvalid).

(** ** Resources *)

Definition networkKey (r : Runtime) (p : preparedNetwork) : LeaseKey :=
  mkLeaseKey (DN_ChainID (Network_Domain (P_configured p) (Attestation.Man_Address (P_manifest p)))) (Run_SponsorAddress r).

Definition acquireBudgetFence (r : Runtime) : DM unit :=
  let* (fence, err) := dcall (S_AcquireBudgetFence (Run_SponsorAddress r)) in
  let* _ := when fence (modify (setBudgetFence true)) in
  stop isSome err || negb fence with startupFailure "daemon.budget_fence_acquire" ErrorInternal errorFenceAcquireFailed err in
  mret tt.

Definition acquireFence (r : Runtime) (ip : nat * preparedNetwork) : DM unit :=
  let '(index, p) := ip in
  let* (fence, err) := dcall (S_AcquireFence index (networkKey r p)) in
  let* _ := when fence (modify (updatePrepared index withFence)) in
  stop isSome err || negb fence with startupFailure "daemon.fence_acquire" ErrorInternal errorFenceAcquireFailed err in
  mret tt.

Definition openAdmission (r : Runtime) : DM unit :=
  let* (controller, err) := dcall (S_OpenAdmission (admissionConfig r)) in
  let* _ := when controller (modify (setAdmission true)) in
  stop isSome err || negb controller with startupFailure "daemon.admission" ErrorInternal errorBudgetFailed err in
  mret tt.

(** A claim left in the queue must be the configured one. *)
Definition foreignClaim (r : Runtime) (p : preparedNetwork) (candidate : RescueCandidate) : bool :=
  match Candidate_Kind candidate with
  | CandidateClaim =>
      match Net_Claim (P_configured p) with
      | None => true
      | Some plan => negb (bytes_eqb (Candidate_ID candidate)
                             (Candidate_ID (NewClaimCandidate (Net_ChainID (P_configured p)) (Run_SourceAddress r) plan)))
      end
  | _ => false
  end.

Definition openStore (r : Runtime) (ip : nat * preparedNetwork) : DM unit :=
  let '(index, p) := ip in
  let network := Network_Domain (P_configured p) (Attestation.Man_Address (P_manifest p)) in
  let* (handoff, openErr) := dcall (S_OpenStore index network) in
  stop isSome openErr || negb handoff with startupFailure "daemon.store" ErrorInternal errorStoreFailed openErr in
  let* _ := modify (updatePrepared index withHandoff) in
  let* pending := dcall (S_Replay index (DN_ChainID network)) in
  match pending with
  | Err e => startupFailure "daemon.claim_queue" ErrorInternal errorStoreFailed (Some e)
  | Ok candidates =>
      stop existsb (foreignClaim r p) candidates with startupFailure "daemon.claim_queue" ErrorConfiguration errorStartupInvalid None in
      mret tt
  end.

(** One network of the ledger's snapshot in the metrics, the health and the alerts. *)
Definition reportBudget (globalBlocked : bool) (cn : NetworkID * ScopeSnapshot) : DM unit :=
  let '(chain, network) := cn in
  let* metrics := gets St_metrics in
  let* metrics := liftTelemetry (SetBudget chain (Totals_Cumulative (Scope_Spent network)) (Totals_Cumulative (Scope_Reserved network))
                                   (Totals_Cumulative (Scope_Remaining network)) metrics) "daemon.budget_metrics" ErrorInternal errorBudgetFailed in
  let* _ := modify (setMetrics metrics) in
  let blocked := globalBlocked || ScopeSnapshot_Blocked network in
  let* health := gets St_health in
  let* health := liftTelemetry (Telemetry.SetCondition chain Telemetry.ConditionBudgetBlocked blocked health) "daemon.budget_health" ErrorInternal errorBudgetFailed in
  let* _ := modify (setHealth health) in
  if blocked then
    let* e := dcall (S_AlertRaise chain AlertBudgetBlocked) in orFail e "daemon.budget_alert" ErrorInternal errorBudgetFailed
  else
    let* e := dcall (S_AlertResolve chain AlertBudgetBlocked) in orFail e "daemon.budget_alert" ErrorInternal errorBudgetFailed.

(** The policy was computed once already, so it is there. *)
Definition openBudget (r : Runtime) : DM unit :=
  let* prepared := gets St_prepared in
  let fingerprint := budgetBindingFingerprint r (map (fun p => (P_configured p, Attestation.Man_Address (P_manifest p))) prepared) in
  match runtimeBudgetPolicy r with
  | Err e => startupFailure "daemon.budget" ErrorInternal errorBudgetFailed (Some (Foreign (wiringText e)))
  | Ok policy =>
      let* (openedBudget, openErr) := dcall (S_OpenBudget policy fingerprint) in
      stop isSome openErr || negb openedBudget with startupFailure "daemon.budget" ErrorInternal errorBudgetFailed openErr in
      let* _ := modify (setBudget true) in
      let* snapshot := dcall S_Snapshot in
      match snapshot with
      | Err e => startupFailure "daemon.budget_snapshot" ErrorInternal errorBudgetFailed (Some e)
      | Ok report =>
          let global := Report_Global report in
          let* _ := modify (fun s => setMetrics (SetGlobalBudget (Totals_Cumulative (Scope_Spent global)) (Totals_Cumulative (Scope_Reserved global))
                                                  (Totals_Cumulative (Scope_Remaining global)) (St_metrics s)) s) in
          forEach (Report_Networks report) (reportBudget (ScopeSnapshot_Blocked global))
      end
  end.

Definition acquireLease (r : Runtime) (owner : bytes) (ip : nat * preparedNetwork) : DM unit :=
  let '(index, p) := ip in
  let key := networkKey r p in
  let* (lease, err) := dcall (S_AcquireLease index key owner processLeaseTTL) in
  let* _ := when (negb (bool_decide (lease = zeroLease))) (modify (updatePrepared index (withLease lease))) in
  let refused := startupFailure (A := unit) "daemon.lease_acquire" ErrorInternal errorLeaseAcquireFailed err in
  stop isSome err || negb (bool_decide (Lease_Key lease = key)) || negb (bytes_eqb (Lease_Owner lease) owner) with refused in
  let* now := dcall S_Now in
  stop negb (After (Lease_ExpiresAt lease) now) with refused in
  mret tt.

Definition acquireLeases (r : Runtime) : DM unit :=
  let* owner := dcall S_NewOwner in
  match owner with
  | Err e => startupFailure "daemon.lease_owner" ErrorInternal errorLeaseAcquireFailed (Some e)
  | Ok owner => let* prepared := gets St_prepared in forEach (indexed prepared) (acquireLease r owner)
  end.

(** Real signers exist only in a live process that is not stopped. *)
Definition openSigners (r : Runtime) : DM unit :=
  stop negb (isLive r) || RP_EmergencyStop (Run_Policy r) with mret tt in
  let* signers := dcall (S_NewSigners (Run_LiveSecrets r)) in
  match signers with
  | Ok (Some (authorizer, transactioner)) =>
      stop negb (bytes_eqb authorizer (Run_SourceAddress r)) || negb (bytes_eqb transactioner (Run_SponsorAddress r))
        with startupFailure "daemon.signer_address" ErrorConfiguration errorStartupInvalid None in
      mret tt
  | _ => startupFailure "daemon.signers" ErrorConfiguration errorStartupInvalid (causeOf signers)
  end.

(** ** The process *)

Record networkProcess := mkNetworkProcess {
  NPr_index : nat;
  NPr_configured : Network;
  NPr_network : DomainNetwork;
  NPr_mode : Mode;
  NPr_source : Address;
  NPr_sponsor : Address;
  NPr_destination : Address;
  NPr_readTimeout : Duration;
  NPr_watchLookback : Z;
  NPr_coordinator : option Coordinator;
  NPr_fence : bool;
  NPr_allowedTokens : gset Address;
  NPr_emergencyStopped : bool }.

Record daemon := mkDaemon {
  D_networks : list networkProcess;
  D_budget : bool;
  D_budgetFence : bool;
  D_admission : bool;
  D_metrics : Metrics;
  D_health : Health }.

(** The observer is structured: it is [safeConsoleObserver]. *)
Definition newCoordinator (r : Runtime) (index : nat) (p : preparedNetwork) : DM (option Coordinator) :=
  stop negb (isLive r) with mret None in
  match rescuePolicy (P_configured p) with
  | Err e => startupFailure "daemon.rescue_policy" ErrorConfiguration errorStartupInvalid (Some (Foreign (wiringText e)))
  | Ok (fee, nativeMinimum, tokenValues) =>
      let* answers := dcall (S_CoordinatorReads index) in
      let '(fenceValid, erc20Valid, rescuerValid, gateStopped, gateStoppedLater) := answers in
      match NewCoordinator (coordinatorConfig r (P_configured p) (Attestation.Man_Address (P_manifest p)) (P_lease p) true fee nativeMinimum tokenValues)
              fenceValid erc20Valid rescuerValid gateStopped gateStoppedLater with
      | Ok coordinator => mret (Some coordinator)
      | Err e => startupFailure "daemon.coordinator" ErrorConfiguration errorStartupInvalid (Some e)
      end
  end.

Definition newNetworkProcess (r : Runtime) (ip : nat * preparedNetwork) : DM networkProcess :=
  let '(index, p) := ip in
  let network := Network_Domain (P_configured p) (Attestation.Man_Address (P_manifest p)) in
  let* coordinator := newCoordinator r index p in
  let* _ := when (DN_AllowUnknownTokens network) (let* _ := dcall (S_RecordUnknownTokens (DN_ChainID network)) in mret tt) in
  mret (mkNetworkProcess index (P_configured p) network (Run_Mode r) (Run_SourceAddress r) (Run_SponsorAddress r) (Run_Destination r) (Run_ReadTimeout r)
          (WP_LookbackBlocks (Run_Watch r)) coordinator (P_fence p) (list_to_set (map Token_Address (DN_Tokens network))) (RP_EmergencyStop (Run_Policy r))).

Fixpoint collectEach {A B} (l : list A) (body : A -> DM B) : DM (list B) :=
  match l with
  | [] => mret []
  | x :: l => let* y := body x in let* ys := collectEach l body in mret (y :: ys)
  end.

(** Fences and admission, stores, ledger and leases, signers, in this order. *)
Definition acquireAll (r : Runtime) : DM unit :=
  let* prepared := gets St_prepared in
  let* _ := when (isLive r) (
    let* _ := acquireBudgetFence r in
    let* _ := forEach (indexed prepared) (acquireFence r) in
    openAdmission r) in
  let* _ := forEach (indexed prepared) (openStore r) in
  let* _ := when (isLive r) (
    let* _ := openBudget r in
    acquireLeases r) in
  openSigners r.

Definition assemble (r : Runtime) : DM daemon :=
  let* codecErr := dcall S_ERC20Codec in
  let* _ := orFail codecErr "daemon.erc20_codec" ErrorInternal errorStartupInvalid in
  let* prepared := gets St_prepared in
  let* networks := collectEach (indexed prepared) (newNetworkProcess r) in
  let* s := gets (fun s => s) in
  mret (mkDaemon networks (St_budget s) (St_budgetFence s) (St_admission s) (St_metrics s) (St_health s)).

(** Everything after the deferred cleanup is installed. *)
Definition openResources (r : Runtime) : DM daemon := let* _ := acquireAll r in assemble r.

(** The errors of a sequence of releases, joined. *)
Fixpoint releaseEach {A} (l : list A) (body : A -> DM (option GoError)) : DM (option GoError) :=
  match l with
  | [] => mret None
  | x :: l => let* e := body x in let* rest := releaseEach l body in mret (errors_Join e rest)
  end.

(** A release that is made when there is something to release. *)
Definition releaseWhen (present : bool) (release : DM (option GoError)) (operation : String.string) (code : bytes) : DM (option GoError) :=
  if present then
    let* err := release in
    mret (match err with Some e => Some (processError operation ErrorInternal code false (Some e)) | None => None end)
  else mret None.

Definition cleanup : DM (option GoError) :=
  let* s := gets (fun s => s) in
  let prepared := indexed (St_prepared s) in
  let* leases := releaseEach prepared (fun '(index, p) =>
    releaseWhen (P_handoff p && negb (bool_decide (P_lease p = zeroLease))) (dcall (S_ReleaseLease index (P_lease p))) "daemon.lease_release" errorLeaseReleaseFailed) in
  let* fences := releaseEach prepared (fun '(index, p) =>
    releaseWhen (P_fence p) (dcall (S_ReleaseFence index)) "daemon.fence_release" errorFenceReleaseFailed) in
  let* stores := releaseEach prepared (fun '(index, p) =>
    releaseWhen (P_handoff p) (dcall (S_CloseStore index)) "daemon.store.close" errorStoreFailed) in
  let* budget := releaseWhen (St_budget s) (dcall S_CloseBudget) "daemon.budget.close" errorBudgetFailed in
  let* admission := releaseWhen (St_admission s) (dcall S_CloseAdmission) "daemon.admission.close" errorBudgetFailed in
  let* fence := releaseWhen (St_budgetFence s) (dcall S_ReleaseBudgetFence) "daemon.budget_fence_release" errorFenceReleaseFailed in
  mret (errors_Join leases (errors_Join fences (errors_Join stores (errors_Join budget (errors_Join admission fence))))).

(** The context is not nil and the dependencies are there, as
    [newProductionDependencies] makes them. *)
Definition newDaemon (r : Runtime) : DM daemon :=
  stop invalidRuntime r with startupFailure "daemon.config" ErrorConfiguration errorStartupInvalid None in
  let* _ := rejectRestoredSigningState r in
  match runtimeBudgetPolicy r with
  | Err e => startupFailure "daemon.budget_policy" ErrorConfiguration errorStartupInvalid (Some (Foreign (wiringText e)))
  | Ok _ =>
      let* _ := forEach (indexed (Run_Networks r)) loadNetworkManifest in
      stop Nat.eqb (length (Run_Networks r)) 0 with startupFailure "daemon.networks" ErrorConfiguration errorStartupInvalid None in
      let* _ := prepareTelemetry r in
      let* _ := when (isLive r) attestNetworks in
      let* process := openResources r orelse (fun e =>
        let* cleanupError := cleanup in
        fail (default e (errors_Join (Some e) cleanupError))) in
      mret process
  end.

(** ** Running and shutting down *)

Fixpoint releaseFirst {A} (l : list A) (body : A -> DM (option GoError)) : DM (option GoError) :=
  match l with
  | [] => mret None
  | x :: l => let* e := body x in let* rest := releaseFirst l body in mret (match e with Some _ => e | None => rest end)
  end.

(** [closeStores]: every store is closed, the first error is kept. *)
Definition closeStores (d : daemon) : DM (option GoError) := releaseFirst (D_networks d) (fun n => dcall (S_CloseStore (NPr_index n))).

Definition shutdown (d : daemon) (lostLeases : list nat) : DM (option GoError) :=
  let* leases := releaseEach (D_networks d) (fun n =>
    match NPr_coordinator n with
    | None => mret None
    | Some _ =>
        let* err := dcall (S_CoordinatorRelease (NPr_index n)) in
        mret (match err with
              | Some e => if bool_decide (NPr_index n ∈ lostLeases) then None
                          else Some (processError "daemon.lease_release" ErrorInternal errorLeaseReleaseFailed false (Some e))
              | None => None
              end)
    end) in
  let* fences := releaseEach (D_networks d) (fun n =>
    releaseWhen (NPr_fence n) (dcall (S_ReleaseFence (NPr_index n))) "daemon.fence_release" errorFenceReleaseFailed) in
  let* stores := releaseWhen true (closeStores d) "daemon.store.close" errorStoreFailed in
  let* budget := releaseWhen (D_budget d) (dcall S_CloseBudget) "daemon.budget.close" errorBudgetFailed in
  let* admission := releaseWhen (D_admission d) (dcall S_CloseAdmission) "daemon.admission.close" errorBudgetFailed in
  let* fence := releaseWhen (D_budgetFence d) (dcall S_ReleaseBudgetFence) "daemon.budget_fence_release" errorFenceReleaseFailed in
  mret (errors_Join leases (errors_Join fences (errors_Join stores (errors_Join budget (errors_Join admission fence))))).

(** The error that stops the process: the first one before the context is done. *)
Definition stoppedBy (failed : option GoError) (contextDone : bool) (operation : String.string) (code : bytes) (cause : option GoError) : option GoError :=
  match failed with
  | Some e => Some e
  | None => if contextDone then None else Some (processError operation ErrorInternal code false cause)
  end.

(** One result: whether the run context was done when it was looked at is part of
    the answer. *)
Definition workerStopped (failed : option GoError) (lost : list nat) (answer : Worker * option GoError * bool) : option GoError * list nat :=
  let '(worker, err, contextDone) := answer in
  match worker with
  | DiagnosticsWorker => (stoppedBy failed contextDone "daemon.diagnostics" errorWorkerStopped err, lost)
  | NetworkWorker _ =>
      (stoppedBy failed contextDone "daemon.network" errorWorkerStopped (Some (default (Foreign (str "network worker stopped unexpectedly")) err)), lost)
  | LeaseWorker index =>
      (stoppedBy failed contextDone "daemon.lease_maintain" errorLeaseMaintainFailed
         (Some (default (Foreign (str "lease maintenance stopped unexpectedly")) err)),
       match err with Some e => if IsLeaseLost e then index :: lost else lost | None => lost end)
  end.

Fixpoint collectResults (workers : nat) (failed : option GoError) (lost : list nat) : DM (option GoError * list nat) :=
  match workers with
  | O => mret (failed, lost)
  | S workers =>
      let* answer := dcall S_NextResult in
      let (failed, lost) := workerStopped failed lost answer in
      collectResults workers failed lost
  end.

(** The deferred [diagnostics.Close], whose error is dropped, is the last call. *)
Definition Run (d : daemon) : DM (option GoError) :=
  let* diagnosticsErr := dcall S_NewDiagnostics in
  match diagnosticsErr with
  | Some e =>
      let* stopped := shutdown d [] in
      mret (errors_Join (Some (processError "daemon.diagnostics" ErrorInternal errorStartupInvalid false (Some e))) stopped)
  | None =>
      let live := List.filter (fun n => isSome (NPr_coordinator n)) (D_networks d) in
      let* (failed, lost) := collectResults (length (D_networks d) + length live + 1) None [] in
      let* stopped := shutdown d lost in
      let* _ := dcall S_CloseDiagnostics in
      mret (errors_Join failed stopped)
  end.

(** [runProcess] from the configuration on. *)
Definition runProcess (r : Runtime) : DM (option GoError) := let* d := newDaemon r in Run d.

End Process.

(** ** Candidates of the queue *)

(** [errors.As] for an error with [NextRetryAt]: the first of the tree. *)
Fixpoint errors_As_Scheduled (err : GoError) : option Time :=
  match err with
  | FastPending _ next => Some next
  | OfAdmission e => Some (AErr_RetryAt e)
  | Classified _ _ _ _ _ (Some cause) => errors_As_Scheduled cause
  | Joined e1 e2 => match errors_As_Scheduled e1 with Some t => Some t | None => errors_As_Scheduled e2 end
  | _ => None
  end.

Definition shouldReplay (err : option GoError) : bool :=
  match err with
  | None => false
  | Some e => match errors_As_Classified e with None => true | Some c => Cls_Retryable c || Cls_Ambiguous c end
  end.

Inductive CEff :=
| Q_Next
| Q_CtxErr
| Q_Now
| Q_RecordCandidate
| Q_PutIncident (incident : Incident)
| Q_Handle (candidate : RescueCandidate)
| Q_Nack (candidate : CandidateID) (incident : IncidentID) (retryAt : Time)
| Q_Ack (candidate : CandidateID) (incident : IncidentID)
| Q_Replay
| Q_SetQueueDepth (depth : Z).

Definition canswer (c : CEff) : Type :=
  match c with
  | Q_Next => result GoError RescueCandidate
  | Q_CtxErr => option CtxErr
  | Q_Now => Time
  | Q_RecordCandidate => unit
  | Q_PutIncident _ | Q_Handle _ | Q_Nack _ _ _ | Q_Ack _ _ | Q_SetQueueDepth _ => option GoError
  | Q_Replay => result GoError Z
  end.

Abbreviation CM := (SM canswer unit GoError).
Abbreviation qcall := (Programs.call (ans := canswer)).

(** The session that handles candidates: its generation and the token policy it is
    bound to; [metrics] says whether there are metrics. *)
Record Consumer := mkConsumer {
  Con_generation : Z;
  Con_allowed : gset Address;
  Con_allowUnknown : bool;
  Con_metrics : bool }.

(** The policy of [tokenPolicySession.Handle]. *)
Definition forbidden (con : Consumer) (candidate : RescueCandidate) : bool :=
  match Candidate_Kind candidate with
  | CandidateToken | CandidateClaim | CandidateFastToken =>
      bytes_eqb (Token_Address (Candidate_Token candidate)) zeroAddress
      || negb (Con_allowUnknown con) && negb (bool_decide (Token_Address (Candidate_Token candidate) ∈ Con_allowed con))
  | _ => false
  end.

Definition tokenForbidden : GoError := processError "daemon.token_policy" ErrorConfiguration errorTokenForbidden false None.

Definition policyHandle (con : Consumer) (candidate : RescueCandidate) : CM (option GoError) :=
  stop forbidden con candidate with mret (Some tokenForbidden) in
  qcall (Q_Handle candidate).

(** [candidate.Generation = generation]. *)
Definition withGeneration (c : RescueCandidate) (generation : Z) : RescueCandidate :=
  mkCandidate (Candidate_ID c) (Candidate_Network c) (Candidate_Kind c) (Candidate_Source c) (Candidate_Token c) (Candidate_BlockHash c) (Candidate_BlockNumber c)
    (Candidate_TxHash c) (Candidate_LogIndex c) generation (Candidate_Observation c).

(** [bindTokenPolicy] for a session of the generation. *)
Definition bindTokenPolicy {CL : ConfigLib} (n : networkProcess) (generation : Z) : Consumer :=
  mkConsumer generation (NPr_allowedTokens n) (DN_AllowUnknownTokens (NPr_network n)) true.

(** A candidate of an earlier generation is bound to the current one. *)
Definition rebind (con : Consumer) (candidate : RescueCandidate) : RescueCandidate :=
  if negb (Candidate_Generation candidate =? 0) && negb (Candidate_Generation candidate =? Con_generation con)
  then withGeneration candidate (Con_generation con) else candidate.

Definition updateQueueDepth (con : Consumer) : CM unit :=
  stop negb (Con_metrics con) with mret tt in
  let* r := qcall Q_Replay in
  match r with
  | Err e => fail (processError "daemon.queue_depth" ErrorInternal errorQueueNextFailed true (Some e))
  | Ok depth =>
      let* err := qcall (Q_SetQueueDepth depth) in
      match err with
      | Some e => fail (processError "daemon.queue_metrics" ErrorInternal errorQueueNextFailed true (Some e))
      | None => mret tt
      end
  end.

(** The context's error when it is done, otherwise the operation's own. *)
Definition contextFirst {A} (operation : String.string) (code : bytes) (cause : GoError) : CM A :=
  let* ctxErr := qcall Q_CtxErr in
  match ctxErr with
  | Some e => fail (OfContext e)
  | None => fail (processError operation ErrorInternal code true (Some cause))
  end.

(** When a candidate that is not finished is offered again. *)
Definition retryTime (handled : option GoError) : CM Time :=
  let* now := qcall Q_Now in
  let retryAt := Add now candidateRetryDelay in
  match handled with
  | Some e =>
      match errors_As_Scheduled e with
      | Some next => let* now := qcall Q_Now in mret (if After next now then next else retryAt)
      | None => mret retryAt
      end
  | None => mret retryAt
  end.

(** One turn of the loop of [consumeCandidates]. *)
Definition consumeCandidate (con : Consumer) : CM unit :=
  let* next := qcall Q_Next in
  match next with
  | Err e => contextFirst "daemon.queue_next" errorQueueNextFailed e
  | Ok candidate =>
      let* _ := when (Con_metrics con) (qcall Q_RecordCandidate) in
      let incidentID := NewIncidentID (Candidate_ID candidate) in
      let* now := qcall Q_Now in
      let* putErr := qcall (Q_PutIncident (mkIncident incidentID (Candidate_ID candidate) (Candidate_Network candidate) now)) in
      match putErr with
      | Some e => contextFirst "daemon.incident_put" errorIncidentPutFailed e
      | None =>
          let* handled := policyHandle con (rebind con candidate) in
          let* ctxErr := qcall Q_CtxErr in
          match ctxErr with
          | Some e => fail (OfContext e)
          | None =>
              if shouldReplay handled then
                let* retryAt := retryTime handled in
                let* nackErr := qcall (Q_Nack (Candidate_ID candidate) incidentID retryAt) in
                match nackErr with
                | Some e => fail (processError "daemon.candidate_nack" ErrorInternal errorCandidateNackFailed true (Some e))
                | None => updateQueueDepth con
                end
              else
                let* ackErr := qcall (Q_Ack (Candidate_ID candidate) incidentID) in
                match ackErr with
                | Some e => contextFirst "daemon.candidate_ack" errorCandidateAckFailed e
                | None => updateQueueDepth con
                end
          end
      end
  end.

(** The loop ends only with an error; [fuel] bounds the candidates it looks at. *)
Fixpoint consumeCandidates (fuel : nat) (con : Consumer) : CM unit :=
  match fuel with
  | O => diverge
  | S fuel => let* _ := consumeCandidate con in consumeCandidates fuel con
  end.

(** ** Errors of a generation *)

Definition isCanceled (err : GoError) : bool := errors_Is (fun e => match e with OfContext Canceled => true | _ => false end) err.

Definition generationError (workerErrors : list (option GoError)) : GoError :=
  match List.find (fun e => match e with Some e => negb (isCanceled e) | None => false end) workerErrors with
  | Some (Some e) => e
  | _ => match List.find isSome workerErrors with
         | Some (Some e) => e
         | _ => processError "daemon.worker" ErrorInternal errorWorkerStopped true None
         end
  end.

Definition publicErrorCode (err : option GoError) : bytes :=
  match err with
  | Some e => match errors_As_Classified e with
              | Some c => if bytes_eqb (Cls_Code c) [] then errorWorkerStopped else Cls_Code c
              | None => errorWorkerStopped
              end
  | None => errorWorkerStopped
  end.

(** ** A generation of a network *)

Inductive GEff :=
| G_CtxErr
| G_Dial (endpoint : bytes) (generation : Z)
| G_CloseClient (endpoint : bytes)
| G_RecordFallback (code : bytes)
| G_ClientGeneration
| G_DeadlineReader
| G_DeadlineLogs
| G_DeadlineHeads
| G_OpenQuorum
| G_CloseQuorum
| G_DrySession
| G_CoordinatorSession (broadcasts : bool)
| G_DialSubmission (endpoint : bytes)
| G_CloseSubmission
| G_DeadlineBroadcaster
| G_FenceValidate
| G_PutClaim (candidate : RescueCandidate)
| G_UpdateQueueDepth
| G_NewWatcher (fast dryRun : bool)
| G_Workers (count : nat)
| G_RecordFailure (code : bytes)
| G_RecordReconnect
| G_SetDegraded
| G_RaiseDegraded
| G_Sleep (delay : Duration).

Definition ganswer (c : GEff) : Type :=
  match c with
  | G_CtxErr => option CtxErr
  | G_Dial _ _ => RpcDial.Capability * option GoError
  | G_DialSubmission _ | G_OpenQuorum => bool * option GoError
  | G_CloseClient _ | G_RecordFallback _ | G_CloseQuorum | G_CloseSubmission | G_RecordFailure _ | G_RecordReconnect | G_SetDegraded => unit
  | G_ClientGeneration => Z
  | G_DeadlineReader | G_DeadlineLogs | G_DeadlineHeads | G_DrySession | G_CoordinatorSession _ | G_DeadlineBroadcaster | G_FenceValidate
  | G_PutClaim _ | G_UpdateQueueDepth | G_NewWatcher _ _ | G_RaiseDegraded | G_Sleep _ => option GoError
  | G_Workers _ => list (option GoError)
  end.

Abbreviation GM := (SM ganswer unit GoError).
Abbreviation gcall := (Programs.call (ans := ganswer)).

Section Generation.
Context {CL : ConfigLib}.

(** WebSocket endpoints first, then HTTP. *)
Definition dialEndpoints (network : Network) : list bytes :=
  map RPv_WSURL (Net_ReadProviders network) ++ map RPv_HTTPURL (Net_ReadProviders network).

(** The attempts from [start] on, in order, around the list. *)
Definition rotation (start count : nat) : list nat := map (fun attempt => Nat.modulo (start + attempt) count) (seq 0 count).

(** What the [dial] of [newProductionDependencies] makes of [DialContext]: the
    pointer is put into an interface, the nil one of a failed dial too. *)
Definition productionDial (dialed : result GoError RpcDial.GenerationClient) : RpcDial.Capability * option GoError :=
  match dialed with
  | Ok _ => (RpcDial.Present, None)
  | Err e => (RpcDial.NilValue, Some e)
  end.

(** [client != nil], which a nil pointer in the interface passes. *)
Definition notNil (client : RpcDial.Capability) : bool := match client with RpcDial.NilInterface => false | _ => true end.

(** A method of the client: on a nil pointer it panics. *)
Definition onClient {A} (client : RpcDial.Capability) (m : GM A) : GM A := match client with RpcDial.Present => m | _ => panic end.

(** The client is returned with its endpoint. *)
Fixpoint dialFrom (endpoints : list bytes) (webSockets : nat) (generation : Z) (indices : list nat) (lastError : option GoError) (recorded : bool)
    : GM (bytes * RpcDial.Capability) :=
  match indices with
  | [] => fail (processError "daemon.rpc_dial" ErrorRPCTransient errorDialFailed true lastError)
  | index :: indices =>
      let endpoint := nth index endpoints [] in
      let fallback := Nat.leb webSockets index && negb recorded in
      let* _ := when fallback (gcall (G_RecordFallback (publicErrorCode lastError))) in
      let* (client, err) := gcall (G_Dial endpoint generation) in
      stop negb (isSome err) && notNil client with mret (endpoint, client) in
      let* _ := when (notNil client) (onClient client (gcall (G_CloseClient endpoint))) in
      let* ctxErr := gcall G_CtxErr in
      match ctxErr with
      | Some e => fail (OfContext e)
      | None => dialFrom endpoints webSockets generation indices err (recorded || fallback)
      end
  end.

Definition dialClient (network : Network) (generation : Z) : GM (bytes * RpcDial.Capability) :=
  let endpoints := dialEndpoints network in
  let count := length endpoints in
  stop Nat.eqb count 0 with fail (processError "daemon.rpc_dial" ErrorConfiguration errorDialFailed false None) in
  let start := Z.to_nat ((uint64_wrap (generation - 1)) mod Z.of_nat count) in
  dialFrom endpoints (length (Net_ReadProviders network)) generation (rotation start count) None false.

(** [validateProcessFence]. *)
Definition validateProcessFence (n : networkProcess) : GM unit :=
  stop negb (NPr_fence n)
    with fail (processError "daemon.fence_validate" ErrorInternal errorFenceValidateFailed false (Some (IsSentinel ErrFenceLost))) in
  let* err := gcall G_FenceValidate in
  match err with
  | Some e => fail (processError "daemon.fence_validate" ErrorInternal errorFenceValidateFailed false (Some e))
  | None => mret tt
  end.

(** A call that fails with its own error. *)
Definition orError (err : option GoError) : GM unit := match err with Some e => fail e | None => mret tt end.

(** What has to be closed with the session. *)
Inductive SessionKind := DrySessionOpen | GuardedSession | LiveSession.

(** [openSession] of a process without a session factory of its own.  A session in
    which the dial gives nothing is returned as nil, and not without a submission. *)
Definition openSession (n : networkProcess) : GM (option SessionKind) :=
  if IsDryRun (NPr_mode n) then
    let* err := gcall G_DrySession in let* _ := orError err in mret (Some DrySessionOpen)
  else if NPr_emergencyStopped n then
    let* err := gcall (G_CoordinatorSession false) in let* _ := orError err in mret (Some GuardedSession)
  else
    let* (submission, err) := gcall (G_DialSubmission (Net_BroadcastHTTP (NPr_configured n))) in
    if isSome err || negb submission then
      let* _ := when submission (gcall G_CloseSubmission) in
      let* _ := orError err in mret None
    else
      let closing (m : GM unit) : GM unit := let* r := try m in match r with Ok _ => mret tt | Err e => let* _ := gcall G_CloseSubmission in fail e end in
      let* _ := closing (let* err := gcall G_DeadlineBroadcaster in orError err) in
      let* _ := closing (validateProcessFence n) in
      let* _ := closing (let* err := gcall (G_CoordinatorSession true) in orError err) in
      mret (Some LiveSession).

(** The workers: the watcher, the consumer, and the reconciliation of a live session. *)
Definition workerCount (n : networkProcess) (session : SessionKind) : nat :=
  match session with
  | DrySessionOpen => 2
  | GuardedSession | LiveSession => if IsLive (NPr_mode n) then 3 else 2
  end.

(** The [Ready] callback of the watcher: [alertErr] is what resolving the alert
    returned. *)
Definition watcherReady (chain : NetworkID) (alertErr : option GoError) (h : Health) : result GoError Health :=
  match alertErr with
  | Some e => Err (processError "daemon.rpc_alert" ErrorInternal errorSessionFailed true (Some e))
  | None =>
      match Telemetry.SetCondition chain Telemetry.ConditionRPCDegraded false h with
      | Ok h => Ok h
      | Err e => Err (processError "daemon.rpc_health" ErrorInternal errorSessionFailed true (Some (telemetryError e)))
      end
  end.

(** Everything between the opened session and its deferred close. *)
Definition runSession (n : networkProcess) (generation : Z) (session : SessionKind) : GM unit :=
  let* _ := match Net_Claim (NPr_configured n) with
            | Some plan =>
                when (IsLive (NPr_mode n) && negb (NPr_emergencyStopped n))
                  (let* err := gcall (G_PutClaim (withGeneration (NewClaimCandidate (DN_ChainID (NPr_network n)) (NPr_source n) plan) generation)) in orError err)
            | None => mret tt
            end in
  let* depthErr := gcall G_UpdateQueueDepth in
  let* _ := orError depthErr in
  let* watcherErr := gcall (G_NewWatcher (Net_LatestState (NPr_configured n)) (IsDryRun (NPr_mode n))) in
  let* _ := match watcherErr with
            | Some e => fail (processError "daemon.watcher" ErrorInternal errorWatcherFailed false (Some e))
            | None => mret tt
            end in
  let* results := gcall (G_Workers (workerCount n session)) in
  fail (generationError results).

(** [defer release]: the result of [m] after the release. *)
Definition deferred (m : GM unit) (release : GM unit) : GM unit :=
  let* r := try m in
  let* _ := release in
  lift r.

Definition closeSession (session : SessionKind) : GM unit :=
  match session with LiveSession => gcall G_CloseSubmission | _ => mret tt end.

(** The session of nil, which the code dereferences, panics. *)
Definition runGeneration (n : networkProcess) (generation : Z) : GM unit :=
  let* (endpoint, client) := dialClient (NPr_configured n) generation in
  deferred (
    let* clientGeneration := onClient client (gcall G_ClientGeneration) in
    stop negb (clientGeneration =? generation) with fail (processError "daemon.client_generation" ErrorInternal errorClientInvalid false None) in
    let* readerErr := gcall G_DeadlineReader in
    let* _ := match readerErr with Some e => fail (processError "daemon.reader" ErrorInternal errorClientInvalid false (Some e)) | None => mret tt end in
    let* logsErr := gcall G_DeadlineLogs in
    let* _ := match logsErr with Some e => fail (processError "daemon.logs" ErrorInternal errorClientInvalid false (Some e)) | None => mret tt end in
    let* headsErr := gcall G_DeadlineHeads in
    let* _ := match headsErr with Some e => fail (processError "daemon.heads" ErrorInternal errorClientInvalid false (Some e)) | None => mret tt end in
    let* (quorum, quorumErr) := gcall G_OpenQuorum in
    stop isSome quorumErr || negb quorum with fail (processError "daemon.quorum" ErrorRPCTransient errorQuorumFailed true quorumErr) in
    deferred (
      let* session := openSession n orelse (fun e => fail (processError "daemon.session" ErrorRPCTransient errorSessionFailed true (Some e))) in
      match session with
      | None => panic
      | Some session => deferred (runSession n generation session) (closeSession session)
      end) (gcall G_CloseQuorum)) (onClient client (gcall (G_CloseClient endpoint))).

(** One turn of [supervise] in a process with metrics, health and alerts;
    [G_RecordReconnect] is the pair of counters, whose errors are dropped. *)
Definition superviseTurn (n : networkProcess) (generation : Z) : GM unit :=
  let* before := gcall G_CtxErr in
  let* _ := orError (option_map OfContext before) in
  let* r := try (runGeneration n generation) in
  let* after := gcall G_CtxErr in
  let* _ := orError (option_map OfContext after) in
  let* _ := gcall (G_RecordFailure (publicErrorCode (causeOf r))) in
  let* _ := gcall G_RecordReconnect in
  let* _ := gcall G_SetDegraded in
  let* alertErr := gcall G_RaiseDegraded in
  let* _ := orError alertErr in
  let* sleepErr := gcall (G_Sleep reconnectDelay) in
  orError sleepErr.

Fixpoint supervise (fuel : nat) (n : networkProcess) (generation : Z) : GM unit :=
  match fuel with
  | O => diverge
  | S fuel => let* _ := superviseTurn n generation in supervise fuel n (uint64_wrap (generation + 1))
  end.

(** ** Manifests *)

Definition configuredManifestExpectations (r : Runtime) (network : Network) : ManifestExpectations :=
  mkExpectations (decString (Net_ChainID network)) (str "rescuer") (Run_Destination r) (Run_SponsorAddress r) (Artifact_SHA256 (Run_Artifact r))
    (mkSourceProvenance (Net_ManifestSourceKind network) (Net_ManifestSourceValue network)) (Artifact_CompilerVersion (Run_Artifact r)).

(** [open_] is what the file system gives for a path: nothing when it cannot be
    opened, and then what can be read of it. *)
Definition loadConfiguredManifest {AL : AttestationLib} (open_ : bytes -> option (option bytes)) (order : list bytes) (r : Runtime) (network : Network)
    : result bytes (result AttestationError DeploymentManifest) :=
  match open_ (Net_ManifestPath network) with
  | None => Err (str "failed to open deployment manifest")
  | Some manifest =>
      match open_ (Artifact_Path (Run_Artifact r)) with
      | None => Err (str "failed to open canonical artifact")
      | Some artifact => Ok (LoadTrustedManifest order manifest artifact (configuredManifestExpectations r network))
      end
  end.

(** [attestConfiguredNetworkWith]: a client per provider, all closed at the end. *)
Inductive TEff :=
| T_Dial (index : nat) (endpoint : bytes)
| T_Attest (manifest : DeploymentManifest) (providers : list Attestation.ReadProvider) (readTimeout : Duration)
| T_Close (index : nat).

Definition tanswer (c : TEff) : Type :=
  match c with
  | T_Dial _ _ => result GoError bool
  | T_Attest _ _ _ => option GoError
  | T_Close _ => unit
  end.

Abbreviation TM := (SM tanswer (list nat) GoError).
Abbreviation tcall := (Programs.call (ans := tanswer)).

(** The state is the list [clients]. *)
Definition dialProvider (ip : nat * ReadProvider) : TM unit :=
  let '(index, provider) := ip in
  let* r := tcall (T_Dial index (RPv_HTTPURL provider)) in
  match r with
  | Ok true => modify (fun clients => clients ++ [index])
  | _ => fail (NewError "daemon.attestation_dial" ErrorRPCTransient errorDialFailed true false (causeOf r))
  end.

(** The reader of a provider is the client dialed for it. *)
Definition attestationProvider (ip : nat * ReadProvider) : Attestation.ReadProvider :=
  let '(index, provider) := ip in
  Attestation.mkReadProvider (RPv_ID provider) (RPv_EndpointFingerprint provider) (RPv_TrustDomain provider) (PointerReader 0 (Z.of_nat index + 1)).

Definition attestConfiguredNetwork (network : Network) (manifest : DeploymentManifest) (readTimeout : Duration) : TM unit :=
  let* r := try (
    let* _ := forEach (indexed (Net_ReadProviders network)) dialProvider in
    let* err := tcall (T_Attest manifest (map attestationProvider (indexed (Net_ReadProviders network))) readTimeout) in
    match err with Some e => fail e | None => mret tt end) in
  let* clients := gets (fun clients => clients) in
  let* _ := forEach clients (fun index => tcall (T_Close index)) in
  lift r.

End Generation.

(** ** Options of the stores *)

(** The file of a network's store, and what it is opened with. *)
Definition storePath {CL : ConfigLib} (r : Runtime) (network : DomainNetwork) : bytes :=
  Clean (WP_StateDirectory (Run_Watch r) ++ [x2f] ++ str "watcher-" ++ decString (DN_ChainID network) ++ str ".db").

Definition storeOptions {CL : ConfigLib} (r : Runtime) (network : DomainNetwork) : OpenOptions :=
  mkOptions (DN_ChainID network) (Run_SourceAddress r) (Run_SponsorAddress r) (Run_Destination r) (DN_Rescuer network) maxPendingCandidates maxDiscoveredTokens
    (PolicyFingerprint (DN_ChainID network) (DN_Tokens network) (DN_AllowUnknownTokens network) (WP_LookbackBlocks (Run_Watch r))).

(** ** Credentials, labels and the command line *)

Definition maximumCredentialBytes : Z := 128.

Definition systemdCredentials : list (bytes * bytes) :=
  [(str "SOURCE_PRIVATE_KEY", str "source-private-key"); (str "SPONSOR_PRIVATE_KEY", str "sponsor-private-key")].

(** [Lstat]: a directory, a regular file of a size, or anything else; none of the
    first two is a symbolic link. *)
Inductive FileKind := IsDirectory | IsRegular (size : Z) | IsOther.

Record FileSystem := mkFileSystem {
  fs_lstat : bytes -> option FileKind;
  fs_read : bytes -> option bytes }.

Definition credentialSpace (b : byte) : bool := bool_decide (b ∈ [x00; x0d; x0a; x09; x20]).

Definition addCredential (fs : FileSystem) (directory : bytes) (values : list (bytes * bytes)) (credential : bytes * bytes) : result bytes (list (bytes * bytes)) :=
  let '(name, identifier) := credential in
  let path := Clean (directory ++ [x2f] ++ identifier) in
  match fs_lstat fs path with
  | Some (IsRegular size) =>
      reject maximumCredentialBytes <? size with str "credential " ++ name ++ str " is not a valid file" in
      match fs_read fs path with
      | None => Err (str "failed to read credential " ++ name)
      | Some value =>
          reject maximumCredentialBytes <? len value with str "credential " ++ name ++ str " exceeds the maximum size" in
          if len value =? 0 then Ok values
          else
            reject existsb credentialSpace value with str "credential " ++ name ++ str " contains whitespace" in
            Ok (values ++ [(name, value)])
      end
  | _ => Err (str "credential " ++ name ++ str " is not a valid file")
  end.

Definition loadSystemdCredentials (environ : list bytes) (fs : FileSystem) : result bytes (list (bytes * bytes)) :=
  match List.find (fun c => isSome (LookupEnv environ (fst c))) systemdCredentials with
  | Some (name, _) => Err (str "credential " ++ name ++ str " is forbidden in the initial environment")
  | None =>
      let directory := default [] (LookupEnv environ (str "CREDENTIALS_DIRECTORY")) in
      if bytes_eqb directory [] then Ok []
      else
        reject negb (HasPrefix directory [x2f]) || negb (bytes_eqb (Clean directory) directory) with str "credentials directory is not canonical" in
        match fs_lstat fs directory with
        | Some IsDirectory => foldM (addCredential fs directory) systemdCredentials []
        | _ => Err (str "invalid credentials directory")
        end
  end.

(** Ranging over a string that is not ASCII gives a rune that is refused. *)
Definition labelByte (b : byte) : bool :=
  let c := byteZ b in
  (97 <=? c) && (c <=? 122) || (65 <=? c) && (c <=? 90) || (48 <=? c) && (c <=? 57) || bool_decide (b ∈ [x5f; x2d; x2e]).

Definition safeLabel (value fallback : bytes) : bytes :=
  if bytes_eqb value [] || (64 <? len value) then fallback
  else if forallb labelByte value then value else fallback.

Definition safeOptionalLabel (value : bytes) : bytes := if bytes_eqb value [] then [] else safeLabel value (str "error_redacted").

(** The operation of the first classified error. *)
Fixpoint errors_As_Operation (err : GoError) : option String.string :=
  match err with
  | Classified operation _ _ _ _ _ => Some operation
  | FastPending inner _ => errors_As_Operation inner
  | Joined e1 e2 => match errors_As_Operation e1 with Some o => Some o | None => errors_As_Operation e2 end
  | _ => None
  end.

Definition startupOperatorMessage (err : GoError) : bytes :=
  match errors_As_Operation err with
  | None => str "guard-daemon could not prepare its dependencies safely"
  | Some operation =>
      if String.eqb operation "daemon.manifest" then str "failed to load a trusted deployment manifest and canonical artifact"
      else if String.eqb operation "daemon.restore_marker" then str "restored state cannot be used for signing"
      else if String.eqb operation "daemon.attestation" then str "the RPC quorum did not confirm the deployment at a shared finalized block"
      else if String.eqb operation "daemon.signers" || String.eqb operation "daemon.signer_address" then str "the signer address does not match the configured role"
      else if String.eqb operation "daemon.lease_owner" || String.eqb operation "daemon.lease_acquire" || String.eqb operation "daemon.fence_acquire"
        then str "failed to acquire an exclusive lease for the network and sponsor"
      else if String.eqb operation "daemon.networks" || String.eqb operation "daemon.config"
        then str "validated configuration does not contain an eligible enabled network"
      else str "guard-daemon could not prepare its dependencies safely"
  end.

(** What [runCLI] does: start the process, or print and exit with a code. *)
Inductive Command := Start | PrintHelp | PrintVersion | Refuse.

Definition runCLI (args : list bytes) : Command :=
  match args with
  | [] => Start
  | [arg] => if bytes_eqb arg (str "--help") then PrintHelp else if bytes_eqb arg (str "--version") then PrintVersion else Refuse
  | _ => Refuse
  end.

Definition exitCode (start : Z) (command : Command) : Z := match command with Start => start | PrintHelp | PrintVersion => 0 | Refuse => 2 end.

(** ** The observer of the process *)

Definition safeRecord (event : LegacyEvent) : LegacyEvent :=
  mkLegacyEvent (Ev_Level event) (safeLabel (Ev_Code event) (str "event_redacted")) (Ev_ChainID event) (safeLabel (Ev_NetworkName event) (str "network_redacted"))
    zeroID [] [] zeroHash (safeOptionalLabel (Ev_ErrorCode event)).

(** What the alert sink writes: [LogAlertState] with accepted or confirmed. *)
Definition alertEvent (alert : Alert) : Telemetry.SafeEvent :=
  let resolved := Alert_State alert =? AlertResolved in
  Telemetry.mkSafeEvent (if resolved then Telemetry.LevelInfo else Telemetry.LevelWarning) 10 (Alert_ChainID alert) zeroID 0 (if resolved then 5 else 1) zeroHash None (Alert_Code alert).

(** ** Diagnostics *)

(** [Lstat] of the socket's path. *)
Inductive SocketPath := SocketAbsent | SocketStale | SocketUnsafe | SocketUnreadable.

Inductive XEff :=
| X_Lstat (path : bytes)
| X_Remove (path : bytes)
| X_Listen (path : bytes)
| X_Chmod (path : bytes) (mode : Z)
| X_CloseListener
| X_CloseServer.

(** [Remove] that finds no file says so; closing a closed server is no error. *)
Inductive RemoveAnswer := Removed | NoSuchFile | RemoveFailed.

Definition xanswer (c : XEff) : Type :=
  match c with
  | X_Lstat _ => SocketPath
  | X_Remove _ => RemoveAnswer
  | X_Listen _ | X_Chmod _ _ => bool
  | X_CloseListener => unit
  | X_CloseServer => option bytes
  end.

(** The state says whether the server was closed. *)
Abbreviation XM := (SM xanswer bool bytes).
Abbreviation xcall := (Programs.call (ans := xanswer)).

(** The health, the metrics and the alerts are there. *)
Definition newDiagnosticsServer (path : bytes) : XM unit :=
  stop bytes_eqb path [] with fail (str "diagnostics dependencies are missing") in
  let* found := xcall (X_Lstat path) in
  let* _ := match found with
            | SocketAbsent => mret tt
            | SocketStale =>
                let* removed := xcall (X_Remove path) in
                match removed with Removed => mret tt | _ => fail (str "failed to remove stale diagnostics socket") end
            | SocketUnsafe => fail (str "diagnostics path is occupied by an unsafe file")
            | SocketUnreadable => fail (str "failed to inspect diagnostics socket")
            end in
  let* listening := xcall (X_Listen path) in
  stop negb listening with fail (str "failed to open diagnostics socket") in
  let* restricted := xcall (X_Chmod path 384) in
  stop negb restricted with
    (let* _ := xcall X_CloseListener in
     let* _ := xcall (X_Remove path) in
     fail (str "failed to restrict access to diagnostics socket")) in
  mret tt.

(** The errors [Close] joins. *)
Definition diagnosticsClose (path : bytes) : XM (list bytes) :=
  let* closed := gets (fun closed : bool => closed) in
  stop closed with mret [] in
  let* _ := modify (fun _ : bool => true) in
  let* closeErr := xcall X_CloseServer in
  let* removed := xcall (X_Remove path) in
  mret ((match closeErr with Some e => [e] | None => [] end) ++ match removed with RemoveFailed => [str "failed to remove diagnostics socket"] | _ => [] end).

(** [Run] once [Serve] returned: its error, whether it says the server was closed,
    and the error of the context. *)
Definition diagnosticsRun (err : GoError) (serverClosed : bool) (ctxErr : option CtxErr) : option GoError :=
  if serverClosed || isSome ctxErr then option_map OfContext ctxErr else Some err.

Definition HealthState_String (state : Z) : bytes :=
  if state =? HealthHealthyIdle then str "healthy_idle"
  else if state =? HealthDegradedRPC then str "degraded_rpc"
  else if state =? HealthBlockedBudget then str "blocked_budget"
  else if state =? HealthAmbiguousRescue then str "ambiguous_rescue"
  else if state =? HealthStopped then str "stopped"
  else str "unknown".

Record diagnosticsChainHealth := mkDiagnosticsChainHealth {
  DCH_Status : bytes;
  DCH_RPCDegraded : bool;
  DCH_BudgetBlocked : bool;
  DCH_AmbiguousRescue : bool;
  DCH_Stopped : bool }.

(** The chains by their decimal names, which are distinct. *)
Record diagnosticsHealth := mkDiagnosticsHealth {
  DH_Status : bytes;
  DH_Networks : list (bytes * diagnosticsChainHealth) }.

Definition chainHealthResponse (chain : ChainHealth) : diagnosticsChainHealth :=
  let c := CH_Conditions chain in
  mkDiagnosticsChainHealth (HealthState_String (CH_State chain)) (HC_RPCDegraded c) (HC_BudgetBlocked c) (HC_AmbiguousRescue c) (HC_Stopped c).

Definition healthResponse (snapshot : HealthSnapshot) : diagnosticsHealth :=
  mkDiagnosticsHealth (HealthState_String (HS_State snapshot))
    (map (fun kc => (decString kc.1, chainHealthResponse kc.2)) (map_to_list (HS_Chains snapshot))).

(** The status and the body of [GET /healthz]. *)
Definition handleHealth (h : Health) : Z * diagnosticsHealth :=
  let snapshot := HealthSnapshotOf h in
  (if HS_State snapshot =? HealthHealthyIdle then 200 else 503, healthResponse snapshot).

Record diagnosticsBudget := mkDiagnosticsBudget { DB_Spent : bytes; DB_Reserved : bytes; DB_Remaining : bytes }.

Record diagnosticsAlert := mkDiagnosticsAlert { DA_ChainID : bytes; DA_Code : bytes }.

Record diagnosticsChainMetrics := mkDiagnosticsChainMetrics {
  DCM_QueueDepth : Z;
  DCM_Candidates : Z;
  DCM_Attempts : Z;
  DCM_Budget : diagnosticsBudget;
  DCM_RPCErrors : Z;
  DCM_Reconnects : Z;
  DCM_LostRaces : Z;
  DCM_ActiveAmbiguous : Z;
  DCM_TotalAmbiguous : Z;
  DCM_DelegationState : Z;
  DCM_LastReconciliation : bytes }.

Record diagnosticsMetrics := mkDiagnosticsMetrics {
  DM_GlobalBudget : diagnosticsBudget;
  DM_Networks : list (bytes * diagnosticsChainMetrics);
  DM_ActiveAlerts : Z;
  DM_Alerts : list diagnosticsAlert }.

Definition diagnosticBudget (b : BudgetMetrics) : diagnosticsBudget :=
  mkDiagnosticsBudget (decString (BM_Spent b)) (decString (BM_Reserved b)) (decString (BM_Remaining b)).

(** [format] is [UTC().Format(time.RFC3339Nano)]. *)
Definition chainMetricsResponse (format : Time -> bytes) (c : ChainMetrics) : diagnosticsChainMetrics :=
  mkDiagnosticsChainMetrics (CM_QueueDepth c) (CM_Candidates c) (CM_Attempts c)
    (mkDiagnosticsBudget (decString (CM_SpentBudget c)) (decString (CM_ReservedBudget c)) (decString (CM_RemainingBudget c)))
    (CM_RPCErrors c) (CM_Reconnects c) (CM_LostRaces c) (CM_ActiveAmbiguous c) (CM_TotalAmbiguous c) (CM_Delegation c)
    (if IsZero (CM_LastSuccessfulReconciliation c) then [] else format (CM_LastSuccessfulReconciliation c)).

Definition metricsResponse (format : Time -> bytes) (m : Metrics) (alerts : list AlertStatus) : diagnosticsMetrics :=
  let active := List.filter Status_Active alerts in
  mkDiagnosticsMetrics (diagnosticBudget (M_globalBudget m))
    (map (fun kc => (decString kc.1, chainMetricsResponse format kc.2)) (map_to_list (M_chains m)))
    (Z.of_nat (length active)) (map (fun a => mkDiagnosticsAlert (decString (Status_ChainID a)) (alertCodeName (Status_Code a))) active).

(** [GET /metrics]. *)
Definition handleMetrics (format : Time -> bytes) (m : Metrics) (alerts : entries) : diagnosticsMetrics := metricsResponse format m (Alerts.Snapshot alerts).

End Daemon.
Export Daemon.
