(* ===== verification/DaemonClaims.v ===== *)
(** * What the process guarantees

    [DaemonTheorems]: [held] reads from the trace which resources were opened and
    not yet released, [owned] which ones the start-up's own state knows of; every
    step of the start-up keeps the two equal, so the deferred cleanup releases
    exactly what is held, and the finished process owns exactly what is held.
    [DaemonClaims]: start-up, run and shutdown lose no resource and make signers
    last; a candidate leaves the queue only when it was handled for good; a
    generation closes what it opened.  A step of an execution carries the trace of
    the calls before it, newest first. *)

From S2P Require Import RpcDial.
From S2P Require Import Prelude GoTime Bytes Sha256 Domain GoText Attestation Configuration ConfigNetworks.
From S2P Require Import Programs Bolt BudgetModel BudgetCodec BudgetLedger StoreModel StoreLease RescueFees Admission RpcQuorum Telemetry RescueErrors Contracts RescueEffects RescueSession RescueOperations RescueFlow RescueCoordinator.
From S2P Require Import Alerts ConfigRuntime ConfigGuarantees Wiring Daemon.
From Stdlib Require Import Strings.Byte.
From Stdlib Require Strings.String.
Import Strings.String.StringSyntax.

Module DaemonTheorems.

Inductive Resource := RBudgetFence | RFence (index : nat) | RAdmission | RStore (index : nat) | RBudget | RLease (index : nat) | RDiagnostics.

#[export] Instance Resource_eq_dec : EqDecision Resource.
Proof. solve_decision. Defined.

Section Resources.
Context {CL : ConfigLib}.

Abbreviation dtrace := (list (Programs.event danswer)).
Abbreviation dcall := (Programs.call (ans := danswer)).

(** A store or a ledger that comes with an error is not counted. *)
Definition acquires (c : DEff) : danswer c -> option Resource :=
  match c with
  | S_AcquireBudgetFence _ => fun x => if fst x : bool then Some RBudgetFence else None
  | S_AcquireFence i _ => fun x => if fst x : bool then Some (RFence i) else None
  | S_OpenAdmission _ => fun x => if fst x : bool then Some RAdmission else None
  | S_OpenStore i _ => fun x => if isSome (snd x) || negb (fst x) then None else Some (RStore i)
  | S_OpenBudget _ _ => fun x => if isSome (snd x) || negb (fst x) then None else Some RBudget
  | S_AcquireLease i _ _ _ => fun x => if bool_decide (fst x = zeroLease) then None else Some (RLease i)
  | S_NewDiagnostics => fun x => if isSome x then None else Some RDiagnostics
  | _ => fun _ => None
  end.

Definition releases (c : DEff) : option Resource :=
  match c with
  | S_ReleaseLease i _ | S_CoordinatorRelease i => Some (RLease i)
  | S_ReleaseFence i => Some (RFence i)
  | S_CloseStore i => Some (RStore i)
  | S_CloseBudget => Some RBudget
  | S_CloseAdmission => Some RAdmission
  | S_ReleaseBudgetFence => Some RBudgetFence
  | S_CloseDiagnostics => Some RDiagnostics
  | _ => None
  end.

(** Opened, and its release not yet called; the trace is newest first. *)
Fixpoint held (r : Resource) (w : dtrace) : bool :=
  match w with
  | [] => false
  | e :: w =>
      if decide (acquires (ev_call e) (ev_answer e) = Some r) then true
      else if decide (releases (ev_call e) = Some r) then false
      else held r w
  end.

Lemma held_neutral r c x w : acquires c x = None -> releases c = None -> held r (Event c x :: w) = held r w.
Proof. intros H1 H2. cbn. rewrite H1, H2. done. Qed.

Definition flag (f : preparedNetwork -> bool) (s : Startup) (i : nat) : bool :=
  match St_prepared s !! i with Some p => f p | None => false end.

Definition leased (p : preparedNetwork) : bool := negb (bool_decide (P_lease p = zeroLease)).

(** What the state of the start-up says is open. *)
Definition owned (s : Startup) (r : Resource) : bool :=
  match r with
  | RBudgetFence => St_budgetFence s
  | RFence i => flag P_fence s i
  | RAdmission => St_admission s
  | RStore i => flag P_handoff s i
  | RBudget => St_budget s
  | RLease i => flag leased s i
  | RDiagnostics => false
  end.

Record Inv (runtime : Runtime) (s : Startup) (w : dtrace) : Prop := {
  inv_held : forall r, held r w = owned s r;
  inv_leases : forall i, owned s (RLease i) = true -> owned s (RStore i) = true /\ isLive runtime = true }.

Lemma Inv_neutral runtime s c x w : acquires c x = None -> releases c = None -> Inv runtime s w -> Inv runtime s (Event c x :: w).
Proof. intros H1 H2 [Hh Hl]. constructor; [|done]. intros r. rewrite held_neutral by done. apply Hh. Qed.

Lemma Inv_acquire runtime s s' c x w r :
  acquires c x = Some r -> (forall q, owned s' q = if decide (q = r) then true else owned s q) ->
  (forall i, r = RLease i -> owned s (RStore i) = true /\ isLive runtime = true) -> releases c = None -> Inv runtime s w -> Inv runtime s' (Event c x :: w).
Proof.
  intros Ha Ho Hl Hr [Hh Hs]. constructor.
  - intros q. cbn. rewrite Ha, Hr, Ho. destruct (decide (q = r)) as [->|Hn]; [by rewrite decide_True|].
    rewrite decide_False by congruence. rewrite decide_False by done. exact (Hh q).
  - intros i. rewrite !Ho. destruct (decide (RLease i = r)) as [<-|Hn].
    + intros _. rewrite decide_False by done. by apply Hl.
    + intros [H ?]%Hs. rewrite H. split; [by destruct (decide _)|done].
Qed.

Lemma flag_alter f g s i j :
  flag f (updatePrepared i g s) j = if decide (i = j) then match St_prepared s !! j with Some p => f (g p) | None => false end else flag f s j.
Proof.
  unfold flag, updatePrepared, setPrepared. cbn. destruct (decide (i = j)) as [->|Hn]; [|by rewrite list_lookup_alter_ne].
  rewrite list_lookup_alter_eq. by destruct (St_prepared s !! j).
Qed.

Lemma owned_fence s i q : is_Some (St_prepared s !! i) -> owned (updatePrepared i withFence s) q = if decide (q = RFence i) then true else owned s q.
Proof.
  intros [p Hp]. destruct q as [|j| |j| |j|]; cbn [owned]; try (rewrite decide_False by done); try done; rewrite flag_alter.
  - destruct (decide (i = j)) as [->|Hn]; [rewrite decide_True by done; by rewrite Hp|by rewrite decide_False by congruence].
  - unfold flag. destruct (decide (i = j)) as [->|]; [by rewrite Hp|done].
  - unfold flag. destruct (decide (i = j)) as [->|]; [by rewrite Hp|done].
Qed.

Lemma owned_store s i q : is_Some (St_prepared s !! i) -> owned (updatePrepared i withHandoff s) q = if decide (q = RStore i) then true else owned s q.
Proof.
  intros [p Hp]. destruct q as [|j| |j| |j|]; cbn [owned]; try (rewrite decide_False by done); try done; rewrite flag_alter.
  - unfold flag. destruct (decide (i = j)) as [->|]; [by rewrite Hp|done].
  - destruct (decide (i = j)) as [->|Hn]; [rewrite decide_True by done; by rewrite Hp|by rewrite decide_False by congruence].
  - unfold flag. destruct (decide (i = j)) as [->|]; [by rewrite Hp|done].
Qed.

Lemma owned_lease s i l q :
  is_Some (St_prepared s !! i) -> l <> zeroLease -> owned (updatePrepared i (withLease l) s) q = if decide (q = RLease i) then true else owned s q.
Proof.
  intros [p Hp] Hl. destruct q as [|j| |j| |j|]; cbn [owned]; try (rewrite decide_False by done); try done; rewrite flag_alter.
  - unfold flag. destruct (decide (i = j)) as [->|]; [by rewrite Hp|done].
  - unfold flag. destruct (decide (i = j)) as [->|]; [by rewrite Hp|done].
  - destruct (decide (i = j)) as [->|Hn]; [rewrite decide_True by done|by rewrite decide_False by congruence]. rewrite Hp. unfold leased. cbn.
    by rewrite bool_decide_false.
Qed.

(** ** The judgement of the start-up's steps *)

(** What was heard before anything is opened: the manifests, the attestation of a
    live network, and for a process that will sign that no state was restored. *)
Record facts (runtime : Runtime) (pm : list (Network * DeploymentManifest)) (w : dtrace) : Prop := {
  fact_marker : isLive runtime = true -> RP_EmergencyStop (Run_Policy runtime) = false -> Event S_LstatMarker MarkerAbsent ∈ w;
  fact_networks : map fst pm = Run_Networks runtime;
  fact_manifests : forall i n m, pm !! i = Some (n, m) -> Event (S_LoadManifest i n) (Ok m) ∈ w;
  fact_attested : isLive runtime = true -> forall i n m, pm !! i = Some (n, m) -> Event (S_Attest i n m) None ∈ w }.

(** All that a live process owns. *)
Definition everything (networks : nat) : list Resource :=
  [RBudgetFence; RAdmission; RBudget] ++ map RFence (seq 0 networks) ++ map RStore (seq 0 networks) ++ map RLease (seq 0 networks).

Section Steps.
Context (runtime : Runtime) (pm : list (Network * DeploymentManifest)).
Local Abbreviation T := (facts runtime pm).

Lemma T_stable e w : T w -> T (e :: w).
Proof. intros [H1 H2 H3 H4]. constructor; [|done| |]; intros; apply elem_of_cons; right; eauto. Qed.

Definition shape (s : Startup) : list (Network * DeploymentManifest) := map (fun p => (P_configured p, P_manifest p)) (St_prepared s).

(** Signers are made only when the rest is there. *)
Definition guarded (w : dtrace) (c : DEff) : Prop :=
  match c with
  | S_NewSigners secrets => secrets = Run_LiveSecrets runtime /\ isLive runtime = true /\ RP_EmergencyStop (Run_Policy runtime) = false /\
      exists pm, facts runtime pm w /\ Forall (fun r => held r w = true) (everything (length pm))
  | _ => True
  end.

Definition grows (s s' : Startup) : Prop := shape s' = shape s /\ forall r, owned s r = true -> owned s' r = true.

Definition owns (rs : list Resource) (s : Startup) : Prop := Forall (fun r => owned s r = true) rs.

Definition does {A} (rs : list Resource) (m : SM danswer Startup GoError A) (rs' : list Resource) : Prop :=
  forall s w, Inv runtime s w -> T w -> shape s = pm -> owns rs s ->
    wp traced guarded False (m s) (fun sr w' => Inv runtime sr.1 w' /\ T w' /\ grows s sr.1 /\ match sr.2 with Ok _ => owns rs' sr.1 | Err _ => True end) w.

Lemma grows_refl s : grows s s.
Proof. by split. Qed.

Lemma grows_trans s1 s2 s3 : grows s1 s2 -> grows s2 s3 -> grows s1 s3.
Proof. intros [H1 H2] [H3 H4]. split; [by rewrite H3|auto]. Qed.

Lemma owns_grows rs s s' : grows s s' -> owns rs s -> owns rs s'.
Proof. intros [_ H] Ho. eapply Forall_impl; [exact Ho|]. auto. Qed.

Lemma does_ret {A} rs (a : A) : does rs (mret a) rs.
Proof. intros s w Hi Ht Hs Ho. cbn. auto using grows_refl. Qed.

Lemma does_fail {A} rs e rs' : does (A := A) rs (fail e) rs'.
Proof. intros s w Hi Ht Hs Ho. cbn. auto using grows_refl. Qed.

Lemma does_gets {A} rs (f : Startup -> A) : does rs (gets f) rs.
Proof. intros s w Hi Ht Hs Ho. cbn. auto using grows_refl. Qed.

Lemma does_mbind {A B} rs (m : SM danswer Startup GoError A) (f : A -> SM danswer Startup GoError B) rs1 rs2 :
  does rs m rs1 -> (forall a, does (rs ++ rs1) (f a) rs2) -> does rs (mbind m f) rs2.
Proof.
  intros Hm Hf s w Hi Ht Hs Ho. apply wp_bind. eapply wp_mono; [exact (Hm s w Hi Ht Hs Ho)|].
  intros [s' [a|e]] w' (Hi' & Ht' & Hg & Ho'); cbn in *; [|done].
  eapply wp_mono; [apply (Hf a s' w' Hi' Ht')|].
  - destruct Hg as [Hsh _]. by rewrite Hsh.
  - apply Forall_app. split; [by eapply owns_grows|done].
  - intros sr w'' (H1 & H2 & H3 & H4). split; [done|]. split; [done|]. split; [by eapply grows_trans|done].
Qed.

Lemma does_weaken {A} rs1 rs2 (m : SM danswer Startup GoError A) rs1' rs2' : rs1 ⊆ rs1' -> rs2' ⊆ rs2 ++ rs1' -> does rs1 m rs2 -> does rs1' m rs2'.
Proof.
  intros H1 H2 Hm s w Hi Ht Hs Ho. eapply wp_mono; [apply (Hm s w Hi Ht Hs)|].
  - unfold owns in *. rewrite Forall_forall in *. auto.
  - intros [s' [a|e]] w' (Hi' & Ht' & Hg & Ho'); cbn in *; [|done]. split; [done|]. split; [done|]. split; [done|].
    pose proof (owns_grows _ _ _ Hg Ho) as Ho''. unfold owns in *. rewrite Forall_forall in *. intros r Hr. apply H2, elem_of_app in Hr as [Hr|Hr]; auto.
Qed.

(** A call that opens and closes nothing. *)
Lemma does_ask rs c : (forall x, acquires c x = None) -> releases c = None -> (forall w, guarded w c) -> does rs (Programs.call c) [].
Proof.
  intros Ha Hr Hg s w Hi Ht Hs Ho. cbn. split; [apply Hg|]. intros x w' ->. cbn. split; [by apply Inv_neutral|]. split; [by apply T_stable|].
  split; [apply grows_refl|constructor].
Qed.

(** Metrics and health are not resources. *)
Lemma does_modify rs f : (forall s, St_prepared (f s) = St_prepared s /\ St_budget (f s) = St_budget s /\ St_budgetFence (f s) = St_budgetFence s /\ St_admission (f s) = St_admission s) ->
  does rs (modify f) [].
Proof.
  intros Hf s w Hi Ht Hs Ho. cbn. destruct (Hf s) as (H1 & H2 & H3 & H4).
  assert (Hown : forall r, owned (f s) r = owned s r) by (intros []; cbn; unfold flag; rewrite ?H1; done).
  split; [constructor|]. { intros r. rewrite Hown. apply Hi. } { intros i. rewrite !Hown. apply Hi. }
  split; [done|]. split; [|constructor]. split; [unfold shape; by rewrite H1|]. intros r. by rewrite Hown.
Qed.

Lemma does_forEach {A} rs (l : list A) body (K : A -> list Resource) :
  (forall x, x ∈ l -> does rs (body x) (K x)) -> does rs (forEach l body) (concat (map K l)).
Proof.
  revert rs. induction l as [|x l IH]; intros rs Hb; cbn [forEach map concat].
  - apply (does_weaken [] []); [intros r Hr; by apply elem_of_nil in Hr..|apply does_ret].
  - eapply does_mbind; [apply Hb, elem_of_cons; by left|]. intros _.
    apply (does_weaken (rs ++ K x) (concat (map K l))); [done|intros r; rewrite !elem_of_app; tauto|]. apply IH.
    intros y Hy. apply (does_weaken rs (K y)); [intros r; rewrite elem_of_app; tauto|intros r; rewrite elem_of_app; tauto|].
    apply Hb, elem_of_cons. by right.
Qed.

(** A call that may open one resource, recorded when it did. *)
Lemma does_acquire {B} rs c r (present : danswer c -> bool) (f : danswer c -> Startup -> Startup) (k rest : danswer c -> SM danswer Startup GoError B) rs' :
  (forall x, acquires c x = if present x then Some r else None) -> releases c = None -> (forall w, guarded w c) ->
  (forall x s, present x = true -> shape s = pm -> owns rs s -> shape (f x s) = shape s /\ forall q, owned (f x s) q = if decide (q = r) then true else owned s q) ->
  (forall i s, r = RLease i -> owns rs s -> owned s (RStore i) = true /\ isLive runtime = true) ->
  (forall x, k x = (let* _ := when (present x) (modify (f x)) in rest x)) ->
  (forall x, does (if present x then rs ++ [r] else rs) (rest x) rs') ->
  does rs (mbind (Programs.call c) k) rs'.
Proof.
  intros Ha Hr Hg Hf Hl Hk Hrest s w Hi Ht Hs Ho. cbn. split; [apply Hg|]. intros x w' ->. cbn. rewrite Hk.
  specialize (Ha x). specialize (Hrest x). destruct (present x) eqn:Ex; cbn.
  - destruct (Hf x s Ex Hs Ho) as [Hsh Hown].
    assert (Hi' : Inv runtime (f x s) (Event c x :: w)) by (eapply Inv_acquire; eauto).
    assert (Hgr : grows s (f x s)) by (split; [done|]; intros q Hq; rewrite Hown, Hq; by destruct (decide _)).
    eapply wp_mono; [apply (Hrest (f x s) (Event c x :: w) Hi')|].
    + by apply T_stable.
    + by rewrite Hsh.
    + apply Forall_app. split; [by eapply owns_grows|]. constructor; [|constructor]. rewrite Hown. by rewrite decide_True.
    + intros sr w'' (H1 & H2 & H3 & H4). split; [done|]. split; [done|]. split; [by eapply grows_trans|done].
  - apply (Hrest s (Event c x :: w)); [by apply Inv_neutral|by apply T_stable|done|done].
Qed.

(** ** The steps *)

Lemma does_orFail rs err op class code : does rs (orFail err op class code) [].
Proof. destruct err; [apply does_fail|]. apply (does_weaken [] []); [intros r Hr; by apply elem_of_nil in Hr..|apply does_ret]. Qed.

Lemma does_liftTelemetry {A} rs (r : result TelemetryError A) op class code : does rs (liftTelemetry r op class code) [].
Proof. destruct r; [|apply does_fail]. apply (does_weaken [] []); [intros q Hr; by apply elem_of_nil in Hr..|apply does_ret]. Qed.

Lemma does_tt rs : does rs (mret tt) [].
Proof. apply (does_weaken [] []); [intros r Hr; by apply elem_of_nil in Hr..|apply does_ret]. Qed.

(** Nothing but calls, failures and telemetry. *)
Ltac plain := repeat first
  [ apply does_fail | apply does_tt | apply does_orFail | apply does_liftTelemetry
  | apply does_modify; intros; done
  | apply does_ask; [done|done|done]
  | eapply does_weaken; [| |apply does_gets]; [done|set_solver]
  | eapply does_mbind; [|intros ?]
  | progress cbn beta iota zeta
  | match goal with |- does _ (if ?b then _ else _) _ => destruct b | |- does _ (match ?b with _ => _ end) _ => destruct b end ].

Lemma in_range s i : shape s = pm -> (i < length pm)%nat -> is_Some (St_prepared s !! i).
Proof. intros Hs Hi. apply lookup_lt_is_Some_2. rewrite <-Hs in Hi. unfold shape in Hi. by rewrite length_map in Hi. Qed.

Lemma shape_alter i g s : (forall p, P_configured (g p) = P_configured p /\ P_manifest (g p) = P_manifest p) -> shape (updatePrepared i g s) = shape s.
Proof.
  intros Hg. unfold shape, updatePrepared, setPrepared. cbn. apply list_eq. intros j. rewrite !list_lookup_fmap.
  rewrite list_lookup_alter. destruct (decide (i = j)) as [->|]; [|done]. destruct (St_prepared s !! j) as [p|]; cbn; [|done]. by destruct (Hg p) as [-> ->].
Qed.

Lemma acquireBudgetFence_does rs : does rs (acquireBudgetFence runtime) [RBudgetFence].
Proof.
  unfold acquireBudgetFence. apply (does_acquire rs (S_AcquireBudgetFence _) RBudgetFence fst (fun _ => setBudgetFence true) _
    (fun x => if isSome (snd x) || negb (fst x) then startupFailure "daemon.budget_fence_acquire" ErrorInternal errorFenceAcquireFailed (snd x) else mret tt)); try done.
  - intros x s Hx Hs Ho. split; [done|]. by intros [].
  - by intros [].
  - intros [[] err]; cbn [fst snd]; [destruct (_ || _); [apply does_fail|]|rewrite orb_true_r; apply does_fail].
    apply (does_weaken [] []); [set_solver..|apply does_ret].
Qed.

Lemma acquireFence_does rs i p : (i < length pm)%nat -> does rs (acquireFence runtime (i, p)) [RFence i].
Proof.
  intros Hi. unfold acquireFence. apply (does_acquire rs (S_AcquireFence i _) (RFence i) fst (fun _ => updatePrepared i withFence) _
    (fun x => if isSome (snd x) || negb (fst x) then startupFailure "daemon.fence_acquire" ErrorInternal errorFenceAcquireFailed (snd x) else mret tt)); try done.
  - intros x s Hx Hs Ho. split; [by apply shape_alter|]. intros q. apply owned_fence. by apply in_range.
  - by intros [].
  - intros [[] err]; cbn [fst snd]; [destruct (_ || _); [apply does_fail|]|rewrite orb_true_r; apply does_fail].
    apply (does_weaken [] []); [set_solver..|apply does_ret].
Qed.

Lemma openAdmission_does rs : does rs (openAdmission runtime) [RAdmission].
Proof.
  unfold openAdmission. apply (does_acquire rs (S_OpenAdmission _) RAdmission fst (fun _ => setAdmission true) _
    (fun x => if isSome (snd x) || negb (fst x) then startupFailure "daemon.admission" ErrorInternal errorBudgetFailed (snd x) else mret tt)); try done.
  - intros x s Hx Hs Ho. split; [done|]. by intros [].
  - by intros [].
  - intros [[] err]; cbn [fst snd]; [destruct (_ || _); [apply does_fail|]|rewrite orb_true_r; apply does_fail].
    apply (does_weaken [] []); [set_solver..|apply does_ret].
Qed.

Lemma openStore_does rs i p : (i < length pm)%nat -> does rs (openStore runtime (i, p)) [RStore i].
Proof.
  intros Hi. unfold openStore. apply (does_acquire rs (S_OpenStore i _) (RStore i) (fun x => negb (isSome (snd x) || negb (fst x)))
    (fun _ => updatePrepared i withHandoff) _ (fun x =>
      if isSome (snd x) || negb (fst x) then startupFailure "daemon.store" ErrorInternal errorStoreFailed (snd x)
      else
        let* pending := dcall (S_Replay i (DN_ChainID (Network_Domain (P_configured p) (Man_Address (P_manifest p))))) in
        match pending with
        | Err e => startupFailure "daemon.claim_queue" ErrorInternal errorStoreFailed (Some e)
        | Ok candidates =>
            if existsb (foreignClaim runtime p) candidates then startupFailure "daemon.claim_queue" ErrorConfiguration errorStartupInvalid None else mret tt
        end)); try done.
  - by intros [[] []].
  - intros x s Hx Hs Ho. split; [by apply shape_alter|]. intros q. apply owned_store. by apply in_range.
  - by intros [[] []].
  - intros [[] []]; cbn [fst snd isSome orb negb]; try apply does_fail. eapply does_mbind; [by apply does_ask|]. intros [c|]; [|apply does_fail].
    destruct (existsb _ _); [apply does_fail|]. apply (does_weaken [] []); [set_solver..|apply does_ret].
Qed.

Lemma reportBudget_does rs b cn : does rs (reportBudget b cn) [].
Proof. destruct cn as [chain network]. unfold reportBudget. plain. Qed.

Lemma openBudget_does rs : does rs (openBudget runtime) [RBudget].
Proof.
  unfold openBudget. eapply does_mbind; [eapply does_weaken; [| |apply (does_gets [])]; [set_solver|reflexivity]|]. intros prepared.
  cbv zeta. destruct (runtimeBudgetPolicy runtime) as [policy|e]; [|apply does_fail].
  apply (does_acquire _ (S_OpenBudget policy _) RBudget (fun x => negb (isSome (snd x) || negb (fst x))) (fun _ => setBudget true) _ (fun x =>
    if isSome (snd x) || negb (fst x) then startupFailure "daemon.budget" ErrorInternal errorBudgetFailed (snd x)
    else
      let* snapshot := dcall S_Snapshot in
      match snapshot with
      | Err e => startupFailure "daemon.budget_snapshot" ErrorInternal errorBudgetFailed (Some e)
      | Ok report =>
          let global := Report_Global report in
          let* _ := modify (fun s => setMetrics (SetGlobalBudget (Totals_Cumulative (Scope_Spent global)) (Totals_Cumulative (Scope_Reserved global))
                                                  (Totals_Cumulative (Scope_Remaining global)) (St_metrics s)) s) in
          forEach (Report_Networks report) (reportBudget (ScopeSnapshot_Blocked global))
      end)); try done.
  - by intros [[] []].
  - intros x s Hx Hs Ho. split; [done|]. by intros [].
  - by intros [[] []].
  - intros [[] []]; cbn [fst snd isSome orb negb]; try apply does_fail. eapply does_mbind; [by apply does_ask|]. intros [report|]; [|apply does_fail]. cbv zeta.
    eapply does_mbind; [by apply does_modify|]. intros _.
    eapply does_weaken; [| |apply (does_forEach [] _ _ (fun _ => []))]; [set_solver|set_solver|]. intros cn _. apply reportBudget_does.
Qed.

Hypothesis sponsor_set : Run_SponsorAddress runtime <> zeroAddress.

Lemma acquireLease_does rs owner i p : isLive runtime = true -> (i < length pm)%nat -> RStore i ∈ rs -> does rs (acquireLease runtime owner (i, p)) [RLease i].
Proof.
  intros Hlive Hi Hst. unfold acquireLease. cbv zeta.
  apply (does_acquire rs (S_AcquireLease i _ _ _) (RLease i) (fun x => negb (bool_decide (fst x = zeroLease))) (fun x => updatePrepared i (withLease (fst x))) _
    (fun x => if isSome (snd x) || negb (bool_decide (Lease_Key (fst x) = networkKey runtime p)) || negb (bytes_eqb (Lease_Owner (fst x)) owner)
              then startupFailure "daemon.lease_acquire" ErrorInternal errorLeaseAcquireFailed (snd x)
              else let* now := dcall S_Now in
                   if negb (After (Lease_ExpiresAt (fst x)) now) then startupFailure "daemon.lease_acquire" ErrorInternal errorLeaseAcquireFailed (snd x) else mret tt)); try done.
  - intros [l err]. cbn. by case_bool_decide.
  - intros [l err] s Hx Hs Ho. cbn [fst] in *. split; [by apply shape_alter|]. intros q. apply owned_lease; [by apply in_range|]. by case_bool_decide.
  - intros j s [= <-] Ho. unfold owns in Ho. rewrite Forall_forall in Ho. split; [by apply Ho|done].
  - by intros [].
  - intros [l err]. cbn [fst snd]. destruct (_ || _ || _) eqn:E; [apply does_fail|]. bool_hyps.
    case_bool_decide as Hz; cbn [negb].
    + exfalso. subst l. cbn in *. unfold networkKey in *. congruence.
    + eapply does_mbind; [by apply does_ask|]. intros now. destruct (negb _); [apply does_fail|]. apply (does_weaken [] []); [set_solver..|apply does_ret].
Qed.

Lemma in_indexed {A} (l : list A) i x : (i, x) ∈ indexed l -> (i < length l)%nat /\ l !! i = Some x.
Proof. unfold indexed. intros (j & y & [= -> ->] & Hj)%elem_of_lookup_imap. split; [by eapply lookup_lt_Some|done]. Qed.

Lemma does_prepared {B} rs (f : list preparedNetwork -> SM danswer Startup GoError B) rs' :
  (forall prepared, length prepared = length pm -> does rs (f prepared) rs') -> does rs (let* prepared := gets St_prepared in f prepared) rs'.
Proof. intros H s w Hi Ht Hs Ho. cbn. apply H; [|done..]. rewrite <-Hs. unfold shape. by rewrite length_map. Qed.

(** A loop over the networks that opens one resource for each. *)
Lemma does_networks rs (prepared : list preparedNetwork) body (K : nat -> Resource) :
  length prepared = length pm -> (forall i p, (i < length pm)%nat -> does rs (body (i, p)) [K i]) ->
  does rs (forEach (indexed prepared) body) (map K (seq 0 (length pm))).
Proof.
  intros Hl Hb. eapply does_weaken; [| |apply (does_forEach rs _ _ (fun ip => [K ip.1]))].
  - done.
  - intros r (i & -> & Hi)%list_elem_of_fmap. apply elem_of_seq in Hi as [_ Hi]. apply elem_of_app. left. rewrite <-Hl in Hi.
    destruct (lookup_lt_is_Some_2 prepared i Hi) as [p Hp]. apply list_elem_of_In, in_concat. exists [K i]. split; [|by left].
    apply in_map_iff. exists (i, p). split; [done|]. apply list_elem_of_In. unfold indexed. by apply elem_of_lookup_imap_2.
  - intros [i p] [Hi _]%in_indexed. apply Hb. cbn. lia.
Qed.

Lemma acquireLeases_does rs : isLive runtime = true -> map RStore (seq 0 (length pm)) ⊆ rs -> does rs (acquireLeases runtime) (map RLease (seq 0 (length pm))).
Proof.
  intros Hlive Hst. unfold acquireLeases. eapply does_mbind; [by apply does_ask|]. intros [owner|]; [|apply does_fail].
  apply does_prepared. intros prepared Hl. apply does_networks; [done|]. intros i p Hi. apply acquireLease_does; [done|done|].
  apply elem_of_app. left. apply Hst, list_elem_of_fmap. exists i. split; [done|]. apply elem_of_seq. lia.
Qed.

Lemma openSigners_does rs : (isLive runtime = true -> everything (length pm) ⊆ rs) -> does rs (openSigners runtime) [].
Proof.
  intros He. unfold openSigners. destruct (_ || _) eqn:E; [apply does_tt|]. bool_hyps. intros s w Hi Ht Hs Ho. cbn. split.
  - split; [done|]. split; [done|]. split; [done|]. exists pm. split; [done|]. unfold owns in Ho. rewrite Forall_forall in *. intros r Hr.
    rewrite (inv_held _ _ _ Hi). apply Ho. by apply He.
  - intros x w' ->. assert (Hi' : Inv runtime s (Event (S_NewSigners (Run_LiveSecrets runtime)) x :: w)) by (by apply Inv_neutral).
    destruct x as [[[a t]|]|]; cbn; [destruct (_ || _)|..]; cbn; (split; [done|]); (split; [by apply T_stable|]); (split; [apply grows_refl|]); done || constructor.
Qed.

Lemma does_sub {A} rs (m : SM danswer Startup GoError A) rs1 rs' : does rs m rs1 -> rs' ⊆ rs1 ++ rs -> does rs m rs'.
Proof. intros Hm Hs. by eapply does_weaken. Qed.

Lemma acquireAll_does : does [] (acquireAll runtime) (if isLive runtime then everything (length pm) else map RStore (seq 0 (length pm))).
Proof.
  unfold acquireAll. apply does_prepared. intros prepared Hl. destruct (isLive runtime) eqn:El; cbn [when].
  - apply (does_mbind _ _ _ (RBudgetFence :: RAdmission :: map RFence (seq 0 (length pm)))).
    { eapply does_mbind; [apply acquireBudgetFence_does|]. intros _. eapply does_mbind; [apply does_networks; [done|]; intros; by apply acquireFence_does|]. intros _.
      eapply does_sub; [apply openAdmission_does|]. set_solver. }
    intros _. eapply does_mbind; [apply does_networks; [done|]; intros; by apply openStore_does|]. intros _.
    apply (does_mbind _ _ _ (RBudget :: map RLease (seq 0 (length pm)))).
    { eapply does_mbind; [apply openBudget_does|]. intros _. eapply does_sub; [apply acquireLeases_does|]; set_solver. }
    intros _. eapply does_sub; [apply openSigners_does|]; unfold everything; set_solver.
  - eapply does_mbind; [apply does_tt|]. intros _. eapply does_mbind; [apply does_networks; [done|]; intros; by apply openStore_does|]. intros _.
    eapply does_mbind; [apply does_tt|]. intros _. eapply does_sub; [apply openSigners_does; congruence|]. set_solver.
Qed.

End Steps.

(** ** Steps that open nothing *)

Section Early.
Context (runtime : Runtime).

(** The held and the owned resources stay as they are. *)
Definition early {A} (P : Startup -> dtrace -> Prop) (m : SM danswer Startup GoError A) (Q : A -> Startup -> dtrace -> Prop) : Prop :=
  forall s w, P s w -> wp traced (guarded runtime) False (m s)
    (fun sr w' => ((forall r, held r w' = held r w) /\ forall r, owned sr.1 r = owned s r) /\ match sr.2 with Ok a => Q a sr.1 w' | Err _ => True end) w.

Lemma early_ret {A} (P : Startup -> dtrace -> Prop) (a : A) (Q : A -> Startup -> dtrace -> Prop) : (forall s w, P s w -> Q a s w) -> early P (mret a) Q.
Proof. intros H s w Hw. cbn. auto. Qed.

Lemma early_fail {A} P e (Q : A -> Startup -> dtrace -> Prop) : early P (fail e) Q.
Proof. intros s w Hw. by cbn. Qed.

Lemma early_gets {A} (P : Startup -> dtrace -> Prop) (f : Startup -> A) : early P (gets f) (fun a s w => P s w /\ a = f s).
Proof. intros s w Hw. by cbn. Qed.

Lemma early_modify (P : Startup -> dtrace -> Prop) f (Q : Startup -> dtrace -> Prop) :
  (forall s w, P s w -> (forall r, owned (f s) r = owned s r) /\ Q (f s) w) -> early P (modify f) (fun _ => Q).
Proof. intros H s w Hw. cbn. destruct (H s w Hw). auto. Qed.

Lemma early_mbind {A B} P (m : SM danswer Startup GoError A) (f : A -> SM danswer Startup GoError B) Q R :
  early P m Q -> (forall a, early (Q a) (f a) R) -> early P (mbind m f) R.
Proof.
  intros Hm Hf s w Hw. apply wp_bind. eapply wp_mono; [exact (Hm s w Hw)|]. intros [s' [a|e]] w' [[Hh Hw'] HQ]; cbn in *; [|done].
  eapply wp_mono; [exact (Hf a s' w' HQ)|]. intros sr w'' [[Hh' Hw''] HR]. split; [|done]. split; intros r; [by rewrite Hh'|by rewrite Hw''].
Qed.

(** A call that opens and closes nothing, with what its answer tells. *)
Lemma early_ask (P : Startup -> dtrace -> Prop) c (Q : danswer c -> Startup -> dtrace -> Prop) :
  (forall x, acquires c x = None) -> releases c = None -> (forall w, guarded runtime w c) -> (forall x s w, P s w -> Q x s (Event c x :: w)) ->
  early P (Programs.call c) Q.
Proof. intros Ha Hr Hg HQ s w Hw. cbn. split; [apply Hg|]. intros x w' Hx. unfold traced in Hx. subst w'. split; [|by apply HQ]. split; [|done]. intros r. by apply held_neutral. Qed.

(** A loop with an invariant on the elements done. *)
Lemma early_forEach {A} (l : list A) body (I : list A -> Startup -> dtrace -> Prop) :
  (forall pre x post, l = pre ++ x :: post -> early (I pre) (body x) (fun _ => I (pre ++ [x]))) -> early (I []) (forEach l body) (fun _ => I l).
Proof.
  intros Hb. assert (G : forall post pre, l = pre ++ post -> early (I pre) (forEach post body) (fun _ => I l)).
  2:{ by apply G. }
  induction post as [|x post IH]; intros pre Hl; cbn [forEach].
  - apply early_ret. intros s w. by rewrite Hl, app_nil_r.
  - eapply early_mbind; [by eapply Hb|]. intros ?. apply IH. by rewrite <-app_assoc.
Qed.

Lemma early_orFail (P : Startup -> dtrace -> Prop) err op class code : early P (orFail err op class code) (fun _ s w => P s w /\ err = None).
Proof. destruct err; [apply early_fail|]. by apply early_ret. Qed.

Lemma early_liftTelemetry {A} (P : Startup -> dtrace -> Prop) (r : result TelemetryError A) op class code : early P (liftTelemetry r op class code) (fun _ => P).
Proof. destruct r; [|apply early_fail]. by apply early_ret. Qed.

(** The prepared networks before anything is opened. *)
Definition fresh (pm : list (Network * DeploymentManifest)) (s : Startup) : Prop :=
  St_prepared s = map (fun nm => mkPrepared nm.1 nm.2 false zeroLease false) pm /\ St_budget s = false /\ St_budgetFence s = false /\ St_admission s = false.

Lemma fresh_owned pm s r : fresh pm s -> owned s r = false.
Proof.
  intros (Hp & H1 & H2 & H3). destruct r; cbn; try done; unfold flag; rewrite Hp, list_lookup_fmap; by destruct (pm !! index).
Qed.

Lemma fresh_shape pm s : fresh pm s -> shape s = pm.
Proof. intros (Hp & _). unfold shape. rewrite Hp, map_map. clear Hp. cbn. induction pm as [|[n m] pm IH]; cbn; [done|]. by f_equal. Qed.

Definition markerSeen (w : dtrace) : Prop :=
  isLive runtime = true -> RP_EmergencyStop (Run_Policy runtime) = false -> Event S_LstatMarker MarkerAbsent ∈ w.

Lemma rejectRestored_early : early (fun s w => s = emptyStartup) (rejectRestoredSigningState runtime) (fun _ s w => s = emptyStartup /\ markerSeen w).
Proof.
  unfold rejectRestoredSigningState. destruct (_ || _) eqn:E.
  - apply early_ret. intros s w ->. split; [done|]. intros H1 H2. rewrite H1, H2 in E. done.
  - eapply early_mbind; [apply (early_ask _ _ (fun x s w => s = emptyStartup /\ Event S_LstatMarker x ∈ w)); try done|].
    + intros x s w ->. split; [done|]. apply elem_of_cons. by left.
    + intros []; [apply early_fail| |apply early_fail]. apply early_ret. intros s w [-> Hw]. split; [done|]. intros _ _. exact Hw.
Qed.

(** The manifests of the networks read so far. *)
Definition manifestsRead (done : nat) (s : Startup) (w : dtrace) : Prop :=
  markerSeen w /\ exists pm, length pm = done /\ map fst pm = take done (Run_Networks runtime) /\ fresh pm s /\
    forall i n m, pm !! i = Some (n, m) -> Event (S_LoadManifest i n) (Ok m) ∈ w.

Lemma loadManifests_early :
  early (fun s w => s = emptyStartup /\ markerSeen w) (forEach (indexed (Run_Networks runtime)) loadNetworkManifest)
    (fun _ => manifestsRead (length (Run_Networks runtime))).
Proof.
  pose proof (early_forEach (indexed (Run_Networks runtime)) loadNetworkManifest (fun pre => manifestsRead (length pre))) as HI.
  assert (Hlen : length (indexed (Run_Networks runtime)) = length (Run_Networks runtime)) by apply length_imap. cbn beta in HI. rewrite Hlen in HI.
  assert (H0 : forall s w, s = emptyStartup /\ markerSeen w -> manifestsRead (length (@nil (nat * Network))) s w).
  { intros s w [-> Hm]. split; [done|]. exists []. repeat split; try done. }
  intros s w Hw. apply (HI); [|by apply H0]. clear HI H0 s w Hw Hlen. intros pre [i n] post Hl.
  assert (Hx : indexed (Run_Networks runtime) !! length pre = Some (i, n)) by (rewrite Hl; by apply list_lookup_middle).
  unfold indexed in Hx. rewrite list_lookup_imap in Hx. destruct (Run_Networks runtime !! length pre) as [n'|] eqn:En; [|done]. injection Hx as <- ->.
  unfold loadNetworkManifest. eapply early_mbind; [apply (early_ask _ _ (fun x s w => manifestsRead (length pre) s w /\ Event (S_LoadManifest (length pre) n) x ∈ w)); try done|].
  { intros x s w [Hm (pm & H1 & H2 & H3 & H4)]. split; [|apply elem_of_cons; by left]. split; [intros ? ?; apply elem_of_cons; right; by apply Hm|].
    exists pm. repeat split; try apply H3; try done. intros. apply elem_of_cons. right. eauto. }
  intros [m|e]; [|apply early_fail]. cbn beta. destruct (bytes_eqb _ _); [apply early_fail|]. apply early_modify.
  intros s w [[Hm (pm & H1 & H2 & Hfr & H4)] Hev].
  assert (Hfr' : fresh (pm ++ [(n, m)]) (setPrepared (St_prepared s ++ [mkPrepared n m false zeroLease false]) s)).
  { destruct Hfr as (Hp & H5 & H6 & H7). repeat split; try done. cbn. by rewrite Hp, map_app. }
  split; [intros r; by rewrite (fresh_owned _ _ r Hfr), (fresh_owned _ _ r Hfr')|].
  split; [done|]. exists (pm ++ [(n, m)]). rewrite !length_app. cbn.
  split; [lia|]. split; [|split].
  - rewrite map_app, H2. cbn. rewrite Nat.add_1_r. by erewrite take_S_r.
  - done.
  - intros i n0 m0 [Hi|[Hi He]]%lookup_app_Some; [eauto|]. apply list_lookup_singleton_Some in He as [Hz [= <- <-]]. replace i with (length pre) by lia. done.
Qed.

Section Keeping.
Context (pm : list (Network * DeploymentManifest)) (F : dtrace -> Prop).
Hypothesis F_stable : forall e w, F w -> F (e :: w).
Local Abbreviation kept := (fun s w => fresh pm s /\ F w).

Lemma early_keep c : (forall x, acquires c x = None) -> releases c = None -> (forall w, guarded runtime w c) -> early kept (Programs.call c) (fun _ => kept).
Proof. intros Ha Hr Hg. apply early_ask; try done. intros x s w [H1 H2]. split; [done|]. by apply F_stable. Qed.

Lemma early_kept_orFail err op class code : early kept (orFail err op class code) (fun _ => kept).
Proof. intros s w Hw. eapply wp_mono; [exact (early_orFail kept err op class code s w Hw)|]. intros [s' [a|e]] w'; cbn; tauto. Qed.

Lemma prepareTelemetry_early : early kept (prepareTelemetry runtime) (fun _ => kept).
Proof.
  unfold prepareTelemetry. eapply early_mbind; [apply early_gets|]. intros prepared. cbv zeta.
  eapply early_mbind; [apply early_liftTelemetry|]. intros metrics. eapply early_mbind; [apply early_liftTelemetry|]. intros health. cbn beta.
  eapply early_mbind; [apply (early_modify _ _ kept); intros s w [[Hf Hw] _]; split; [by intros []|done]|]. intros ?.
  eapply early_mbind; [by apply early_keep|]. intros pathErr. eapply early_mbind; [apply early_kept_orFail|]. intros ?.
  eapply early_mbind; [by apply early_keep|]. intros alertsErr. eapply early_mbind; [apply early_kept_orFail|]. intros ?.
  destruct (RP_EmergencyStop _).
  - eapply early_mbind; [by apply early_keep|]. intros ?. eapply early_mbind; [apply (early_modify _ _ kept); intros s w [Hf Hw]; split; [by intros []|done]|]. intros ?.
    apply (early_forEach _ _ (fun _ => kept)). intros pre x post _. eapply early_mbind; [by apply early_keep|]. intros e. apply early_kept_orFail.
  - apply (early_forEach _ _ (fun _ => kept)). intros pre x post _. eapply early_mbind; [by apply early_keep|]. intros e. apply early_kept_orFail.
Qed.

Lemma attestNetworks_early :
  early kept attestNetworks (fun _ s w => kept s w /\ forall i n m, pm !! i = Some (n, m) -> Event (S_Attest i n m) None ∈ w).
Proof.
  unfold attestNetworks. eapply early_mbind; [apply early_gets|]. intros prepared. cbn beta.
  pose (I := fun (pre : list (nat * preparedNetwork)) s w => kept s w /\ forall i p, (i, p) ∈ pre -> Event (S_Attest i (P_configured p) (P_manifest p)) None ∈ w).
  assert (HI : early (I []) (forEach (indexed prepared) (fun '(index, p) => let* e := dcall (S_Attest index (P_configured p) (P_manifest p)) in
    orFail e "daemon.attestation" ErrorConfiguration errorStartupInvalid)) (fun _ => I (indexed prepared))).
  { apply early_forEach. intros pre [i p] post _. eapply early_mbind; [apply (early_ask _ _ (fun x s w => I pre s w /\ Event (S_Attest i (P_configured p) (P_manifest p)) x ∈ w)); try done|].
    - intros x s w [[H1 H2] H3]. split; [|apply elem_of_cons; by left]. split; [split; [done|by apply F_stable]|]. intros. apply elem_of_cons. right. eauto.
    - intros [e|]; [apply early_fail|]. apply early_ret. intros s w [[H1 H2] H3]. split; [done|]. intros j q [Hj|Hj]%elem_of_app; [auto|].
      apply list_elem_of_singleton in Hj as [= -> ->]. done. }
  intros s w [[Hf Hw] ->]. eapply wp_mono; [apply (HI s w)|].
  - split; [done|]. intros i p Hip. by apply elem_of_nil in Hip.
  - intros [s' [u|e]] w' [Hh H]; cbn in *; (split; [done|]); [|done]. destruct H as [Hk Hat]. split; [done|]. intros i n m Hi.
    apply (Hat i (mkPrepared n m false zeroLease false)). destruct Hf as (-> & _).
    apply (elem_of_lookup_imap_2 pair _ (mkPrepared n m false zeroLease false)). rewrite list_lookup_fmap, Hi. done.
Qed.

End Keeping.

(** ** The assembled process *)

Definition describes (s : Startup) (d : daemon) : Prop :=
  D_budget d = St_budget s /\ D_budgetFence d = St_budgetFence s /\ D_admission d = St_admission s /\
  Forall2 (fun ip n => NPr_index n = ip.1 /\ NPr_fence n = P_fence ip.2 /\ isSome (NPr_coordinator n) = isLive runtime) (indexed (St_prepared s)) (D_networks d).

Lemma newNetworkProcess_early P ip :
  (forall e s w, P s w -> P s (e :: w)) ->
  early P (newNetworkProcess runtime ip) (fun n s w => P s w /\ NPr_index n = ip.1 /\ NPr_fence n = P_fence ip.2 /\ isSome (NPr_coordinator n) = isLive runtime).
Proof.
  intros HP. destruct ip as [i p]. unfold newNetworkProcess. cbv zeta.
  assert (Hc : early P (newCoordinator runtime i p) (fun co s w => P s w /\ isSome co = isLive runtime)).
  { unfold newCoordinator. destruct (isLive runtime); cbn [negb]; [|by apply early_ret].
    destruct (rescuePolicy _) as [[[fee nm] tv]|]; [|apply early_fail]. eapply early_mbind; [apply (early_ask P _ (fun _ => P)); try done; auto|].
    intros [[[[a b] c] d] e]. destruct (NewCoordinator _ _ _ _ _ _); [|apply early_fail]. by apply early_ret. }
  eapply early_mbind; [exact Hc|]. intros co. cbn beta. eapply early_mbind.
  { instantiate (1 := fun _ s w => P s w /\ isSome co = isLive runtime). destruct (DN_AllowUnknownTokens _); cbn [when]; [|by apply early_ret].
    eapply early_mbind; [apply (early_ask _ _ (fun _ s w => P s w /\ isSome co = isLive runtime)); try done|]; [|intros ?; by apply early_ret].
    intros x s w [H1 H2]. auto. }
  intros ?. apply early_ret. intros s w [H1 H2]. by repeat split.
Qed.

Lemma assemble_early P :
  (forall e s w, P s w -> P s (e :: w)) -> early P (assemble runtime) (fun d s w => P s w /\ describes s d).
Proof.
  intros HP. unfold assemble. eapply early_mbind; [apply (early_ask P _ (fun _ => P)); try done; auto|]. intros codecErr.
  eapply early_mbind; [apply early_orFail|]. intros ?. eapply early_mbind; [apply early_gets|]. intros prepared. cbn beta.
  pose (K := fun s (w : dtrace) => (P s w /\ codecErr = None) /\ prepared = St_prepared s).
  assert (HK : forall e s w, K s w -> K s (e :: w)) by (intros e s w [[H1 H2] H3]; repeat split; auto).
  assert (Hc : forall l, early K (collectEach l (newNetworkProcess runtime)) (fun ns s w => K s w /\
    Forall2 (fun ip n => NPr_index n = ip.1 /\ NPr_fence n = P_fence ip.2 /\ isSome (NPr_coordinator n) = isLive runtime) l ns)).
  { induction l as [|ip l IH]; cbn [collectEach]; [by apply early_ret|]. eapply early_mbind; [by apply newNetworkProcess_early|]. intros n. cbn beta.
    eapply early_mbind.
    { intros s w [Hk Hn]. eapply wp_mono; [exact (IH s w Hk)|]. intros [s' [ns|e]] w' [Hh H]; cbn in *; (split; [done|]); [|done].
      exact (conj H Hn). }
    intros ns. apply early_ret. cbn beta. intros s w [[Hk Hf] Hn]. split; [done|]. by constructor. }
  eapply early_mbind; [exact (Hc (indexed prepared))|]. intros ns. cbn beta. eapply early_mbind; [apply early_gets|]. intros s0. apply early_ret. cbn beta.
  intros s w [[[[H1 H2] ->] Hf] ->]. split; [done|]. by repeat split.
Qed.

(** ** Releasing *)

(** The program releases exactly the resources of [R] and does not fail. *)
Definition clears {A} (m : SM danswer Startup GoError A) (R : Resource -> bool) : Prop :=
  forall s w, wp traced (guarded runtime) False (m s) (fun sr w' => sr.1 = s /\ (exists a, sr.2 = Ok a) /\ forall r, held r w' = held r w && negb (R r)) w.

Lemma clears_ret {A} (a : A) : clears (mret a) (fun _ => false).
Proof. intros s w. cbn. split; [done|]. split; [by exists a|]. intros r. by rewrite andb_true_r. Qed.

Lemma clears_mbind {A B} (m : SM danswer Startup GoError A) (f : A -> SM danswer Startup GoError B) R1 R2 :
  clears m R1 -> (forall a, clears (f a) R2) -> clears (mbind m f) (fun r => R1 r || R2 r).
Proof.
  intros Hm Hf s w. apply wp_bind. eapply wp_mono; [exact (Hm s w)|]. intros [s' r] w' (Hs & [a Ha] & Hh). cbn in *. subst s' r.
  eapply wp_mono; [exact (Hf a s w')|]. intros sr w'' (H1 & H2 & H3). split; [done|]. split; [done|]. intros r. rewrite H3, Hh.
  by destruct (held r w), (R1 r), (R2 r).
Qed.

Lemma clears_call c q : (forall x, acquires c x = None) -> releases c = Some q -> (forall w, guarded runtime w c) -> clears (Programs.call c) (fun r => bool_decide (r = q)).
Proof.
  intros Ha Hr Hg s w. cbn. split; [apply Hg|]. intros x w' Hx. unfold traced in Hx. subst w'. split; [done|]. split; [by exists x|]. intros r. cbn. rewrite Ha, Hr.
  rewrite decide_False by done. destruct (decide (Some q = Some r)) as [[= ->]|Hn]; [by rewrite bool_decide_true, andb_false_r|].
  rewrite bool_decide_false by congruence. by rewrite andb_true_r.
Qed.

Lemma clears_neutral c : (forall x, acquires c x = None) -> releases c = None -> (forall w, guarded runtime w c) -> clears (Programs.call c) (fun _ => false).
Proof.
  intros Ha Hr Hg s w. cbn. split; [apply Hg|]. intros x w' Hx. unfold traced in Hx. subst w'. split; [done|]. split; [by exists x|]. intros r.
  rewrite held_neutral by done. by rewrite andb_true_r.
Qed.

Lemma clears_ext {A} (m : SM danswer Startup GoError A) R R' : (forall r, R r = R' r) -> clears m R -> clears m R'.
Proof.
  intros HR Hm s w. eapply wp_mono; [exact (Hm s w)|]. intros sr w' (H1 & H2 & H3). split; [done|]. split; [done|]. intros r. by rewrite H3, HR.
Qed.

Lemma clears_releaseEach {A} (l : list A) body (R : A -> Resource -> bool) :
  (forall x, clears (body x) (R x)) -> clears (releaseEach l body) (fun r => existsb (fun x => R x r) l).
Proof.
  intros Hb. induction l as [|x l IH]; cbn [releaseEach existsb]; [apply clears_ret|].
  eapply clears_ext; [|eapply clears_mbind; [apply Hb|intros e; eapply clears_mbind; [exact IH|intros e'; apply clears_ret]]].
  intros r. cbn. by rewrite orb_false_r.
Qed.

Lemma clears_releaseFirst {A} (l : list A) body (R : A -> Resource -> bool) :
  (forall x, clears (body x) (R x)) -> clears (releaseFirst l body) (fun r => existsb (fun x => R x r) l).
Proof.
  intros Hb. induction l as [|x l IH]; cbn [releaseFirst existsb]; [apply clears_ret|].
  eapply clears_ext; [|eapply clears_mbind; [apply Hb|intros e; eapply clears_mbind; [exact IH|intros e'; apply clears_ret]]].
  intros r. cbn. by rewrite orb_false_r.
Qed.

Lemma clears_releaseWhen b m op code R : clears m R -> clears (releaseWhen b m op code) (fun r => b && R r).
Proof.
  intros Hm. unfold releaseWhen. destruct b; [|apply clears_ret]. eapply clears_ext; [|eapply clears_mbind; [exact Hm|intros e; apply clears_ret]].
  intros r. cbn. by rewrite orb_false_r.
Qed.

(** The deferred cleanup leaves nothing held. *)
Lemma cleanup_releases s w :
  Inv runtime s w -> wp traced (guarded runtime) False (cleanup s) (fun sr w' => (exists e, sr.2 = Ok e) /\ forall r, held r w' = false) w.
Proof.
  intros [Hh Hl]. unfold cleanup. cbn [mbind gets bind fst snd].
  set (prepared := indexed (St_prepared s)).
  assert (Hc : clears (let* leases := releaseEach prepared (fun '(index, p) =>
        releaseWhen (P_handoff p && negb (bool_decide (P_lease p = zeroLease))) (dcall (S_ReleaseLease index (P_lease p))) "daemon.lease_release" errorLeaseReleaseFailed) in
      let* fences := releaseEach prepared (fun '(index, p) => releaseWhen (P_fence p) (dcall (S_ReleaseFence index)) "daemon.fence_release" errorFenceReleaseFailed) in
      let* stores := releaseEach prepared (fun '(index, p) => releaseWhen (P_handoff p) (dcall (S_CloseStore index)) "daemon.store.close" errorStoreFailed) in
      let* budget := releaseWhen (St_budget s) (dcall S_CloseBudget) "daemon.budget.close" errorBudgetFailed in
      let* admission := releaseWhen (St_admission s) (dcall S_CloseAdmission) "daemon.admission.close" errorBudgetFailed in
      let* fence := releaseWhen (St_budgetFence s) (dcall S_ReleaseBudgetFence) "daemon.budget_fence_release" errorFenceReleaseFailed in
      mret (errors_Join leases (errors_Join fences (errors_Join stores (errors_Join budget (errors_Join admission fence))))))
    (fun r => existsb (fun ip => P_handoff ip.2 && leased ip.2 && bool_decide (r = RLease ip.1)) prepared
      || (existsb (fun ip => P_fence ip.2 && bool_decide (r = RFence ip.1)) prepared
      || (existsb (fun ip => P_handoff ip.2 && bool_decide (r = RStore ip.1)) prepared
      || (St_budget s && bool_decide (r = RBudget) || (St_admission s && bool_decide (r = RAdmission) || (St_budgetFence s && bool_decide (r = RBudgetFence) || false))))))).
  { repeat (eapply clears_mbind; [|intros ?]); [..|apply clears_ret]; try (apply clears_releaseWhen; by apply clears_call).
    - apply (clears_releaseEach _ _ (fun ip r => P_handoff ip.2 && leased ip.2 && bool_decide (r = RLease ip.1))). intros [i p]. apply clears_releaseWhen. by apply clears_call.
    - apply (clears_releaseEach _ _ (fun ip r => P_fence ip.2 && bool_decide (r = RFence ip.1))). intros [i p]. apply clears_releaseWhen. by apply clears_call.
    - apply (clears_releaseEach _ _ (fun ip r => P_handoff ip.2 && bool_decide (r = RStore ip.1))). intros [i p]. apply clears_releaseWhen. by apply clears_call. }
  eapply wp_mono; [exact (Hc s w)|]. intros sr w' (_ & He & Hr). split; [done|]. intros r. rewrite Hr, Hh.
  assert (Hin : forall f i, flag f s i = true -> exists p, (i, p) ∈ prepared /\ f p = true).
  { intros f i. unfold flag. destruct (St_prepared s !! i) as [p|] eqn:Ep; [|done]. intros Hf. exists p. split; [|done]. unfold prepared, indexed. by apply elem_of_lookup_imap_2. }
  destruct (owned s r) eqn:Eo; [|done]. cbn [andb]. apply negb_false_iff. rewrite !orb_true_iff, !existsb_exists.
  destruct r as [|i| |i| |i|]; cbn in Eo.
  - rewrite Eo, (bool_decide_true (RBudgetFence = RBudgetFence)) by done. tauto.
  - right. left. destruct (Hin _ _ Eo) as (p & Hp & Hf). exists (i, p). split; [by apply list_elem_of_In|]. cbn. by rewrite Hf, bool_decide_true.
  - rewrite Eo, (bool_decide_true (RAdmission = RAdmission)) by done. tauto.
  - right. right. left. destruct (Hin _ _ Eo) as (p & Hp & Hf). exists (i, p). split; [by apply list_elem_of_In|]. cbn. by rewrite Hf, bool_decide_true.
  - rewrite Eo, (bool_decide_true (RBudget = RBudget)) by done. tauto.
  - left. destruct (Hl i Eo) as [Hst _]. destruct (Hin _ _ Eo) as (p & Hp & Hf). exists (i, p). split; [by apply list_elem_of_In|]. cbn.
    apply in_indexed in Hp as [_ Hp]. cbn in Hst. unfold flag in Hst. rewrite Hp in Hst. by rewrite Hst, Hf, bool_decide_true.
  - done.
Qed.

(** ** The whole start-up *)

(** What a finished process has to release. *)
Definition owned_by (d : daemon) (r : Resource) : bool :=
  match r with
  | RBudgetFence => D_budgetFence d
  | RFence i => existsb (fun n => NPr_fence n && bool_decide (NPr_index n = i)) (D_networks d)
  | RAdmission => D_admission d
  | RStore i => existsb (fun n => bool_decide (NPr_index n = i)) (D_networks d)
  | RBudget => D_budget d
  | RLease i => existsb (fun n => isSome (NPr_coordinator n) && bool_decide (NPr_index n = i)) (D_networks d)
  | RDiagnostics => false
  end.

(** The networks of the process are those of the state, in order. *)
Lemma network_of s d (f : networkProcess -> bool) (g : preparedNetwork -> bool) i :
  describes s d -> (forall p n, NPr_fence n = P_fence p -> isSome (NPr_coordinator n) = isLive runtime -> f n = g p) ->
  existsb (fun n => f n && bool_decide (NPr_index n = i)) (D_networks d) = flag g s i.
Proof.
  intros (_ & _ & _ & Hf) Hfg. apply eq_true_iff_eq. rewrite existsb_exists. unfold flag. split.
  - intros (n & (j & Hj)%list_elem_of_In%list_elem_of_lookup & [Hn Hi%bool_decide_eq_true]%andb_true_iff).
    apply Forall2_lookup_r with (1 := Hf) in Hj as ([k p] & Hk & H1 & H2 & H3). cbn in *. unfold indexed in Hk. rewrite list_lookup_imap in Hk.
    destruct (St_prepared s !! j) as [q|] eqn:Eq; [|done]. injection Hk as <- <-. subst i. rewrite H1, Eq. by rewrite <-(Hfg q n).
  - destruct (St_prepared s !! i) as [p|] eqn:Ep; [|done]. intros Hg.
    assert (Hk : indexed (St_prepared s) !! i = Some (i, p)) by (unfold indexed; by rewrite list_lookup_imap, Ep).
    apply Forall2_lookup_l with (1 := Hf) in Hk as (n & Hn & H1 & H2 & H3). cbn in *. exists n. split; [apply list_elem_of_In; by eapply list_elem_of_lookup_2|].
    rewrite (Hfg p n) by done. by rewrite Hg, bool_decide_true.
Qed.

Lemma describes_owned s w d r :
  Inv runtime s w -> owns (if isLive runtime then everything (length (St_prepared s)) else map RStore (seq 0 (length (St_prepared s)))) s -> describes s d ->
  owned_by d r = owned s r.
Proof.
  intros Hi Ho Hd. pose proof Hd as (H1 & H2 & H3 & _). unfold owns in Ho. rewrite Forall_forall in Ho.
  assert (Hin : forall (K : nat -> Resource) i, (i < length (St_prepared s))%nat -> K i ∈ map K (seq 0 (length (St_prepared s)))).
  { intros K i Hlt. apply list_elem_of_fmap. exists i. split; [done|]. apply elem_of_seq. lia. }
  assert (Hrange : forall f i, flag f s i = true -> (i < length (St_prepared s))%nat).
  { intros f i. unfold flag. destruct (St_prepared s !! i) eqn:E; [|done]. intros _. by eapply lookup_lt_Some. }
  destruct r as [|i| |i| |i|]; cbn [owned_by owned]; try done.
  - by apply network_of.
  - transitivity (flag (fun _ => true) s i); [exact (network_of s d (fun _ => true) (fun _ => true) i Hd (fun _ _ _ _ => eq_refl))|].
    apply eq_true_iff_eq. split.
    + intros H. apply (Ho (RStore i)). apply Hrange in H. unfold everything. destruct (isLive runtime); [rewrite !elem_of_app|]; auto.
    + intros H. apply Hrange in H. unfold flag. by destruct (lookup_lt_is_Some_2 _ _ H) as [p ->].
  - rewrite (network_of s d _ (fun _ => isLive runtime) i Hd) by done. apply eq_true_iff_eq. split.
    + intros H. pose proof (Hrange _ _ H) as Hlt. unfold flag in H. destruct (St_prepared s !! i); [|done]. rewrite H in Ho. apply (Ho (RLease i)).
      unfold everything. rewrite !elem_of_app. auto.
    + intros H. destruct (inv_leases _ _ _ Hi i H) as [_ Hlive]. pose proof (Hrange _ _ H) as Hlt. unfold flag.
      by destruct (lookup_lt_is_Some_2 _ _ Hlt) as [p ->].
Qed.

Lemma early_then {A B} P (m : SM danswer Startup GoError A) Q (f : A -> SM danswer Startup GoError B) s w (Post : Startup * result GoError B -> dtrace -> Prop) :
  early P m Q -> P s w -> (forall r, held r w = false) -> (forall s' e w', (forall r, held r w' = false) -> Post (s', Err e) w') ->
  (forall a s' w', Q a s' w' -> (forall r, held r w' = false) -> wp traced (guarded runtime) False (f a s') Post w') ->
  wp traced (guarded runtime) False (mbind m f s) Post w.
Proof.
  intros Hm Hp Hh He Hf. apply wp_bind. eapply wp_mono; [exact (Hm s w Hp)|]. intros [s' [a|e]] w' [[Hh' _] HQ]; cbn in *.
  - apply Hf; [done|]. intros r. by rewrite Hh'.
  - apply He. intros r. by rewrite Hh'.
Qed.

(** What holds when the start-up ends. *)
Definition started (sr : Startup * result GoError daemon) (w : dtrace) : Prop :=
  match sr.2 with Ok d => forall r, held r w = owned_by d r | Err _ => forall r, held r w = false end.

Lemma openResources_started pm s w :
  Run_SponsorAddress runtime <> zeroAddress -> fresh pm s -> facts runtime pm w -> (forall r, held r w = false) ->
  wp traced (guarded runtime) False
    ((let* process := openResources runtime orelse (fun e => let* cleanupError := cleanup in fail (default e (errors_Join (Some e) cleanupError))) in mret process) s) started w.
Proof.
  intros Hsp Hf Hfacts Hh.
  assert (Hi : Inv runtime s w).
  { constructor; [intros r; by rewrite Hh, (fresh_owned pm s r Hf)|]. intros i. by rewrite (fresh_owned pm s _ Hf). }
  assert (Hclean : forall e s1 w1, Inv runtime s1 w1 ->
    wp traced (guarded runtime) False ((let* cleanupError := cleanup in fail (default e (errors_Join (Some e) cleanupError))) s1) started w1).
  { intros e s1 w1 Hi1. apply wp_bind. eapply wp_mono; [exact (cleanup_releases s1 w1 Hi1)|]. intros [s2 r2] w2 [[e' He'] Hr2]. cbn in *. subst r2. done. }
  apply wp_bind. unfold try. apply wp_bind. unfold openResources. apply wp_bind.
  eapply wp_mono; [exact (acquireAll_does runtime pm Hsp s w Hi Hfacts (fresh_shape pm s Hf) (List.Forall_nil _))|].
  intros [s1 [[]|e]] w1 (Hi1 & _ & Hg & Ho); cbn [fst snd] in *; [|by apply Hclean].
  assert (Hl : length (St_prepared s1) = length pm).
  { destruct Hg as [Hg _]. rewrite (fresh_shape pm s Hf) in Hg. rewrite <-Hg. unfold shape. by rewrite length_map. }
  eapply wp_mono; [exact (assemble_early (fun s' _ => s' = s1) (fun _ _ _ H => H) s1 w1 eq_refl)|].
  intros [s2 [d|e]] w2 [[Hh2 Ho2] Hd]; cbn [fst snd] in *; cbn [bind wp mret snd fst].
  - destruct Hd as [-> Hd]. unfold started. cbn. intros r. rewrite Hh2, (inv_held _ _ _ Hi1). symmetry. eapply describes_owned; [exact Hi1| |exact Hd]. by rewrite Hl.
  - apply Hclean. constructor; [intros r; by rewrite Hh2, Ho2, (inv_held _ _ _ Hi1)|]. intros i. rewrite !Ho2. apply Hi1.
Qed.

Lemma newDaemon_started : wp traced (guarded runtime) False (newDaemon runtime emptyStartup) started [].
Proof.
  unfold newDaemon. destruct (invalidRuntime runtime) eqn:Ev; [by cbn|].
  assert (Hsp : Run_SponsorAddress runtime <> zeroAddress).
  { intros E. unfold invalidRuntime, bytes_eqb in Ev. rewrite E in Ev. rewrite (bool_decide_true (zeroAddress = zeroAddress)) in Ev by done. by rewrite !orb_true_r in Ev. }
  assert (He : forall (s' : Startup) (e : GoError) (w' : dtrace), (forall r, held r w' = false) -> started (s', Err e) w') by done.
  eapply early_then; [exact (rejectRestored_early)|done|done|done|]. intros ? s1 w1 Hs1 Hh1. cbn beta.
  destruct (runtimeBudgetPolicy runtime); [|by cbn]. eapply early_then; [exact loadManifests_early|exact Hs1|done|done|]. clear Hs1. intros ? s2 w2 Hs2 Hh2.
  destruct (Nat.eqb _ _); [by cbn|]. destruct Hs2 as [Hm (pm & Hl & Hn & Hf & Hr)]. rewrite firstn_all in Hn.
  pose (F := fun w => markerSeen w /\ forall i n m, pm !! i = Some (n, m) -> Event (S_LoadManifest i n) (Ok m) ∈ w).
  assert (HF : forall e w, F w -> F (e :: w)) by (intros e w' [H1 H2]; split; intros; [intros ? ?|]; apply elem_of_cons; right; eauto).
  eapply early_then; [exact (prepareTelemetry_early pm F HF)|by split|done|done|]. intros ? s3 w3 Hs3 Hh3. cbn beta in Hs3. clear Hf Hm Hr.
  destruct (isLive runtime) eqn:El; cbn [when].
  - eapply early_then; [exact (attestNetworks_early pm F HF)|exact Hs3|done|done|]. intros ? s4 w4 [[Hf4 [Hm4 Hr4]] Ha4] Hh4.
    apply (openResources_started pm); [done|done| |done]. constructor; auto.
  - destruct Hs3 as [Hf3 [Hm3 Hr3]]. apply (openResources_started pm); [done|done| |done]. constructor; auto. congruence.
Qed.

(** ** Shutdown *)

(** What [shutdown] releases, in its order. *)
Definition released (d : daemon) (r : Resource) : bool :=
  existsb (fun n => isSome (NPr_coordinator n) && bool_decide (r = RLease (NPr_index n))) (D_networks d)
  || (existsb (fun n => NPr_fence n && bool_decide (r = RFence (NPr_index n))) (D_networks d)
  || (existsb (fun n => bool_decide (r = RStore (NPr_index n))) (D_networks d)
  || (D_budget d && bool_decide (r = RBudget) || (D_admission d && bool_decide (r = RAdmission) || (D_budgetFence d && bool_decide (r = RBudgetFence) || false))))).

Lemma shutdown_clears d lost : clears (shutdown d lost) (released d).
Proof.
  unfold shutdown, released. repeat (eapply clears_mbind; [|intros ?]); [..|apply clears_ret]; try (apply clears_releaseWhen; by apply clears_call).
  - apply (clears_releaseEach _ _ (fun n r => isSome (NPr_coordinator n) && bool_decide (r = RLease (NPr_index n)))). intros n.
    destruct (NPr_coordinator n); [|apply clears_ret].
    eapply clears_ext; [|eapply clears_mbind; [by apply clears_call|intros ?; apply clears_ret]]. intros r. cbn. by rewrite orb_false_r.
  - apply (clears_releaseEach _ _ (fun n r => NPr_fence n && bool_decide (r = RFence (NPr_index n)))). intros n. apply clears_releaseWhen. by apply clears_call.
  - apply (clears_releaseWhen true). apply (clears_releaseFirst _ _ (fun n r => bool_decide (r = RStore (NPr_index n)))). intros n. by apply clears_call.
Qed.

Lemma owned_released d r : owned_by d r = true -> released d r = true.
Proof.
  unfold released. rewrite !orb_true_iff, !existsb_exists. destruct r as [|i| |i| |i|]; cbn [owned_by]; rewrite ?existsb_exists.
  - intros ->. rewrite (bool_decide_true (RBudgetFence = RBudgetFence)) by done. tauto.
  - intros (n & Hn & H). bool_hyps. right. left. exists n. split; [done|]. apply andb_true_iff. split; [done|]. by apply bool_decide_eq_true; f_equal.
  - intros ->. rewrite (bool_decide_true (RAdmission = RAdmission)) by done. tauto.
  - intros (n & Hn & H). bool_hyps. right. right. left. exists n. split; [done|]. by apply bool_decide_eq_true; f_equal.
  - intros ->. rewrite (bool_decide_true (RBudget = RBudget)) by done. tauto.
  - intros (n & Hn & H). bool_hyps. left. exists n. split; [done|]. apply andb_true_iff. split; [done|]. by apply bool_decide_eq_true; f_equal.
  - done.
Qed.

(** A process that owns what is held, but for the diagnostics, leaves nothing
    else held. *)
Lemma shutdown_releases d lost s w :
  (forall r, r <> RDiagnostics -> held r w = owned_by d r) ->
  wp traced (guarded runtime) False (shutdown d lost s)
    (fun sr w' => (exists e, sr.2 = Ok e) /\ (forall r, r <> RDiagnostics -> held r w' = false) /\ (held RDiagnostics w = false -> held RDiagnostics w' = false)) w.
Proof.
  intros Hh. eapply wp_mono; [exact (shutdown_clears d lost s w)|]. intros sr w' (_ & He & Hr). split; [done|]. split; [intros r Hn|intros Hd].
  - rewrite Hr, Hh by done. destruct (owned_by d r) eqn:E; [|done]. by rewrite (owned_released d r E).
  - by rewrite Hr, Hd.
Qed.

Lemma collectResults_clears n failed lost : clears (collectResults n failed lost) (fun _ => false).
Proof.
  revert failed lost. induction n as [|n IH]; intros failed lost; cbn [collectResults]; [apply clears_ret|].
  eapply clears_ext; [|eapply clears_mbind; [by apply clears_neutral|intros x; destruct (workerStopped failed lost x); apply IH]]. done.
Qed.

Lemma Run_releases d s w :
  (forall r, held r w = owned_by d r) ->
  wp traced (guarded runtime) False (Run d s) (fun sr w' => (exists e, sr.2 = Ok e) /\ forall r, held r w' = false) w.
Proof.
  intros Hh. unfold Run. apply wp_bind. cbn. split; [done|]. intros x w1 Hw1. unfold traced in Hw1. subst w1. cbn [fst snd].
  destruct x as [e|].
  - assert (Hh1 : forall r, held r (Event (ans := danswer) S_NewDiagnostics (Some e) :: w) = owned_by d r)
      by (intros r; by rewrite (held_neutral r S_NewDiagnostics)).
    apply wp_bind. eapply wp_mono; [apply (shutdown_releases d [] s); intros r _; apply Hh1|].
    intros [s2 r2] w2 ([e2 He2] & Hr2 & Hd2). cbn [snd fst] in *. subst r2. split; [by eexists|]. intros r.
    destruct (decide (r = RDiagnostics)) as [->|Hn]; [apply Hd2, Hh1|by apply Hr2].
  - assert (Hh1 : forall r, r <> RDiagnostics -> held r (Event (ans := danswer) S_NewDiagnostics None :: w) = owned_by d r).
    { intros r Hn. cbn. rewrite decide_False by congruence. apply Hh. }
    cbv zeta. apply wp_bind. eapply wp_mono; [apply collectResults_clears|].
    intros [s2 r2] w2 (Hs2 & [[failed lost] Hx2] & Hr2). cbn [fst snd] in *. subst r2 s2.
    assert (Hh2 : forall r, r <> RDiagnostics -> held r w2 = owned_by d r) by (intros r Hn; by rewrite Hr2, Hh1, andb_true_r).
    apply wp_bind. eapply wp_mono; [exact (shutdown_releases d lost s w2 Hh2)|]. intros [s3 r3] w3 ([e3 He3] & Hr3 & _). cbn [snd fst] in *. subst r3.
    apply wp_bind. cbn. split; [done|]. intros x w4 Hw4. unfold traced in Hw4. subst w4. split; [by eexists|]. intros r. cbn.
    destruct (decide (Some RDiagnostics = Some r)) as [|Hn]; [done|]. apply Hr3. congruence.
Qed.

Lemma runProcess_releases : wp traced (guarded runtime) False (runProcess runtime emptyStartup) (fun _ w => forall r, held r w = false) [].
Proof.
  unfold runProcess. apply wp_bind. eapply wp_mono; [exact newDaemon_started|]. intros [s [d|e]] w Hst; cbn [fst snd started] in *; [|done].
  eapply wp_mono; [exact (Run_releases d s w Hst)|]. by intros sr w' [_ H].
Qed.

End Early.

End Resources.

End DaemonTheorems.
Export DaemonTheorems.

Module DaemonClaims.

(** ** The consumer of the queue *)

Section Consume.
Context (con : Consumer).
Abbreviation ctrace := (list (Programs.event canswer)).
Abbreviation CEvent := (@Event CEff canswer).

(** Nothing is left to do: no error, or one that is neither retryable nor ambiguous. *)
Definition forGood (outcome : option GoError) : Prop :=
  match outcome with
  | None => True
  | Some e => exists c, errors_As_Classified e = Some c /\ Cls_Retryable c = false /\ Cls_Ambiguous c = false
  end.

(** The token policy lets the candidate through. *)
Definition permitted (c : RescueCandidate) : Prop :=
  match Candidate_Kind c with
  | CandidateToken | CandidateClaim | CandidateFastToken =>
      Token_Address (Candidate_Token c) <> zeroAddress /\ (Con_allowUnknown con = true \/ Token_Address (Candidate_Token c) ∈ Con_allowed con)
  | _ => True
  end.

(** The candidate as the session sees it: of its generation, or of none. *)
Definition boundTo (c c' : RescueCandidate) : Prop :=
  (c' = c /\ (Candidate_Generation c = 0 \/ Candidate_Generation c = Con_generation con)) \/ c' = withGeneration c (Con_generation con).

(** How a candidate was handled: refused by the token policy, or given to the
    session, bound to its generation, with this outcome. *)
Definition handledAs (c : RescueCandidate) (outcome : option GoError) (w : ctrace) : Prop :=
  (~ permitted c /\ outcome = Some (processError "daemon.token_policy" ErrorConfiguration errorTokenForbidden false None) /\ w = []) \/
  (permitted c /\ exists c', boundTo c c' /\ w = [CEvent (Q_Handle c') outcome]).

(** The calls of a turn up to the decision on the candidate: after [rest] it was
    taken from the queue, its incident was stored, it was handled, and the context
    was alive. *)
Definition handledTurn (rest : ctrace) (c : RescueCandidate) (outcome : option GoError) (w : ctrace) : Prop :=
  exists now handling, handledAs c outcome handling /\
    w = CEvent Q_CtxErr None :: handling ++ CEvent (Q_PutIncident (mkIncident (NewIncidentID (Candidate_ID c)) (Candidate_ID c) (Candidate_Network c) now)) None
          :: CEvent Q_Now now :: (if Con_metrics con then [CEvent Q_RecordCandidate tt] else []) ++ CEvent Q_Next (Ok c) :: rest.

(** When a candidate is offered again, with the clock readings for it: at the time
    the error of its outcome asks for when that is still to come, else after the
    usual delay. *)
Definition retriedAt (outcome : option GoError) (retryAt : Time) (clocks : ctrace) : Prop :=
  exists now,
  match match outcome with Some e => errors_As_Scheduled e | None => None end with
  | None => clocks = [CEvent Q_Now now] /\ retryAt = Add now candidateRetryDelay
  | Some next => exists later, clocks = [CEvent Q_Now later; CEvent Q_Now now] /\
      (later < next -> retryAt = next) /\ (next <= later -> retryAt = Add now candidateRetryDelay)
  end.

(** What must have happened before a candidate is put down. *)
Definition putDown (w : ctrace) (call : CEff) : Prop :=
  match call with
  | Q_Ack id incident => exists c outcome rest, id = Candidate_ID c /\ incident = NewIncidentID id /\ forGood outcome /\ handledTurn rest c outcome w
  | Q_Nack id incident retryAt => exists c outcome rest clocks turn, id = Candidate_ID c /\ incident = NewIncidentID id /\ ~ forGood outcome /\
      w = clocks ++ turn /\ handledTurn rest c outcome turn /\ retriedAt outcome retryAt clocks
  | Q_Handle c => exists now rest0 c0, w = CEvent (Q_PutIncident (mkIncident (NewIncidentID (Candidate_ID c)) (Candidate_ID c) (Candidate_Network c) now)) None :: rest0 /\
      boundTo c0 c /\ permitted c0
  | _ => True
  end.

(** A turn that put its candidate down, and then looked at the queue: it was
    acknowledged when it was handled for good, and put back when it was not. *)
Definition settled (rest w : ctrace) : Prop :=
  exists c outcome turn depth, handledTurn rest c outcome turn /\
    Forall (fun e => match ev_call e with Q_Replay | Q_SetQueueDepth _ => True | _ => False end) depth /\
    (forGood outcome /\ w = depth ++ CEvent (Q_Ack (Candidate_ID c) (NewIncidentID (Candidate_ID c))) None :: turn \/
     ~ forGood outcome /\ exists retryAt clocks, retriedAt outcome retryAt clocks /\
       w = depth ++ CEvent (Q_Nack (Candidate_ID c) (NewIncidentID (Candidate_ID c)) retryAt) None :: clocks ++ turn).

Abbreviation runs p := (forall s w, wp traced putDown False (p s) (fun _ _ => True) w).

Lemma shouldReplay_spec outcome : shouldReplay outcome = false <-> forGood outcome.
Proof.
  destruct outcome as [e|]; [|done]. cbn. destruct (errors_As_Classified e) as [c|]; [|split; [done|by intros (? & ? & _)]].
  rewrite orb_false_iff. split; [by exists c|]. by intros (c' & [= <-] & H).
Qed.

Lemma rebind_bound c : boundTo c (rebind con c).
Proof.
  unfold boundTo, rebind. destruct (negb _ && negb _) eqn:E; [by right|left]. split; [done|]. apply andb_false_iff in E as [E|E]; bool_hyps; auto.
Qed.

Lemma forbidden_spec c : forbidden con (rebind con c) = false <-> permitted c.
Proof.
  assert (H : forbidden con (rebind con c) = forbidden con c) by (unfold rebind; by destruct (_ && _)). rewrite H. unfold forbidden, permitted.
  destruct (Candidate_Kind c); try done; rewrite orb_false_iff, andb_false_iff, !negb_false_iff, bool_decide_eq_true, bytes_eqb_false; done.
Qed.

Lemma runs_mbind {A B} (m : SM canswer unit GoError A) (f : A -> SM canswer unit GoError B) : runs m -> (forall a, runs (f a)) -> runs (mbind m f).
Proof.
  intros Hm Hf s w. apply wp_bind. eapply wp_mono; [apply Hm|]. intros [s' [a|e]] w' _; cbn; [apply Hf|done].
Qed.

Lemma contextFirst_runs {A} op code e (Q : unit * result GoError A -> ctrace -> Prop) s w :
  (forall s' e' w', Q (s', Err e') w') -> wp traced putDown False (contextFirst op code e s) Q w.
Proof. intros HQ. unfold contextFirst. cbn. split; [done|]. by intros [c|] w1 _; apply HQ. Qed.

(** The end of a turn: without an error it settled its candidate. *)
Definition turnEnd (rest : ctrace) (sr : unit * result GoError unit) (w : ctrace) : Prop := match snd sr with Ok _ => settled rest w | Err _ => True end.

Lemma updateQueueDepth_runs rest s w :
  (forall depth, Forall (fun e => match ev_call e with Q_Replay | Q_SetQueueDepth _ => True | _ => False end) depth -> settled rest (depth ++ w)) ->
  wp traced putDown False (updateQueueDepth con s) (turnEnd rest) w.
Proof.
  intros Hd. unfold updateQueueDepth. destruct (Con_metrics con); cbn; [|by apply (Hd [])]. split; [done|]. intros [d|e] w1 Hw1; cbn; [|done].
  split; [done|]. intros [e|] w2 Hw2; cbn; [done|]. unfold traced in *. subst w2 w1. apply (Hd [CEvent (Q_SetQueueDepth d) None; CEvent Q_Replay (Ok d)]).
  by repeat constructor.
Qed.

Lemma retryTime_reads e s w :
  wp traced putDown False (retryTime (Some e) s) (fun sr w' => exists retryAt clocks, sr = (s, Ok retryAt) /\ w' = clocks ++ w /\ retriedAt (Some e) retryAt clocks) w.
Proof.
  unfold retryTime, retriedAt. cbn. split; [done|]. intros now w1 Hw1. unfold traced in Hw1. subst w1.
  destruct (errors_As_Scheduled e) as [next|]; cbn.
  - split; [done|]. intros later w2 Hw2. unfold traced in Hw2. subst w2. cbn. eexists _, [CEvent Q_Now later; CEvent Q_Now now]. split; [done|]. split; [done|].
    exists now, later. split; [done|]. unfold After. destruct (later <? next) eqn:E; bool_hyps; split; intros; lia || done.
  - eexists _, [CEvent Q_Now now]. split; [done|]. split; [done|]. by exists now.
Qed.

(** After the context was looked at. *)
Lemma settle_runs rest c outcome s w :
  handledTurn rest c outcome w ->
  wp traced putDown False
    ((if shouldReplay outcome then
        let* retryAt := retryTime outcome in
        let* nackErr := Programs.call (ans := canswer) (Q_Nack (Candidate_ID c) (NewIncidentID (Candidate_ID c)) retryAt) in
        match nackErr with
        | Some e => fail (processError "daemon.candidate_nack" ErrorInternal errorCandidateNackFailed true (Some e))
        | None => updateQueueDepth con
        end
      else
        let* ackErr := Programs.call (ans := canswer) (Q_Ack (Candidate_ID c) (NewIncidentID (Candidate_ID c))) in
        match ackErr with
        | Some e => contextFirst "daemon.candidate_ack" errorCandidateAckFailed e
        | None => updateQueueDepth con
        end) s) (turnEnd rest) w.
Proof.
  intros Hw. destruct (shouldReplay outcome) eqn:Er.
  - assert (Hng : ~ forGood outcome) by (rewrite <- shouldReplay_spec; congruence). destruct outcome as [e|]; [|done].
    apply wp_bind. eapply wp_mono; [apply retryTime_reads|]. intros sr w1 (retryAt & clocks & -> & -> & Hr). apply wp_bind. cbn.
    split; [by exists c, (Some e), rest, clocks, w|]. intros [e'|] w2 Hw2; cbn; [done|]. unfold traced in Hw2. subst w2.
    apply updateQueueDepth_runs. intros depth Hd. exists c, (Some e), w, depth. split; [done|]. split; [done|]. right. split; [done|]. by exists retryAt, clocks.
  - apply shouldReplay_spec in Er. apply wp_bind. cbn. split; [by exists c, outcome, rest|]. intros [e|] w1 Hw1; cbn; [by apply contextFirst_runs|].
    unfold traced in Hw1. subst w1. apply updateQueueDepth_runs. intros depth Hd. exists c, outcome, w, depth. split; [done|]. split; [done|]. by left.
Qed.

Lemma rebind_same c : Candidate_ID (rebind con c) = Candidate_ID c /\ Candidate_Network (rebind con c) = Candidate_Network c.
Proof. unfold rebind. by destruct (_ && _). Qed.

Lemma consumeCandidate_runs s w0 : wp traced putDown False (consumeCandidate con s) (turnEnd w0) w0.
Proof.
  unfold consumeCandidate. apply wp_bind. cbn. split; [done|]. intros [c|e] w1 Hw1; unfold traced in Hw1; subst w1; cbn; [|by apply contextFirst_runs].
  pose (w1 := (if Con_metrics con then [CEvent Q_RecordCandidate tt] else []) ++ CEvent Q_Next (Ok c) :: w0).
  apply wp_bind. eapply (wp_mono _ _ _ _ (fun sr w' => sr = (s, Ok tt) /\ w' = w1)).
  { unfold w1. destruct (Con_metrics con); cbn; [|done]. split; [done|]. by intros [] w2 ->. }
  intros sr w2 [-> ->]. cbn. split; [done|]. intros now w2 Hw2. unfold traced in Hw2. subst w2. cbn.
  split; [done|]. intros putErr w2 Hw2. unfold traced in Hw2. subst w2. cbn. destruct putErr as [e|]; [by apply contextFirst_runs|].
  destruct (rebind_same c) as [Hid Hnet].
  set (w2 := CEvent (Q_PutIncident _) None :: CEvent Q_Now now :: w1).
  apply wp_bind. eapply (wp_mono _ _ _ _ (fun sr w' => exists outcome handling, sr = (s, Ok outcome) /\ handledAs c outcome handling /\ w' = handling ++ w2)).
  { unfold policyHandle. destruct (forbidden con (rebind con c)) eqn:Ef; cbn.
    - exists (Some tokenForbidden), []. split; [done|]. split; [left|done]. split; [|done]. rewrite <- forbidden_spec. congruence.
    - apply forbidden_spec in Ef. pose proof (rebind_bound c) as Hb.
      split; [|intros outcome w' ->; exists outcome, [CEvent (Q_Handle (rebind con c)) outcome]; split; [done|]; split; [by right; eauto|done]].
      exists now, (CEvent Q_Now now :: w1), c. by rewrite Hid, Hnet. }
  intros sr w3 (outcome & handling & -> & Hh & ->). cbn. split; [done|]. intros ctxErr w4 Hw4. unfold traced in Hw4. subst w4. cbn.
  destruct ctxErr as [e|]; [done|]. apply settle_runs. exists now, handling. split; [exact Hh|]. reflexivity.
Qed.

Lemma consumeCandidates_runs fuel : runs (consumeCandidates fuel con).
Proof. induction fuel as [|fuel IH]; [done|]. cbn [consumeCandidates]. apply runs_mbind; [|intros _; exact IH].
  intros s w. eapply wp_mono; [apply consumeCandidate_runs|]. done.
Qed.

(** C32. A candidate leaves the queue only when it was handled for good.  In every
    run of the consumer, whatever the queue, the store, the session and the clock
    answer: what is acknowledged is the candidate last taken, in the same turn its
    incident was stored and it was handled (by the session of the current
    generation, or refused by the token policy), the context was alive, and the
    outcome was no error or one that is neither retryable nor ambiguous; what is put
    back is such a candidate with any other outcome, for the time its error asks for
    if that is still to come, else after the usual delay.  A turn that ends without
    an error did one of the two, and the queue took it.  Nothing reaches the session
    before its incident is stored and unless the policy allows its token, and the
    loop never panics. *)
Theorem candidates_are_settled :
  (forall fuel steps out w, exec traced (consumeCandidates fuel con tt) [] steps out w ->
     Forall (fun '(past, e) => putDown past (ev_call e)) steps /\ out <> Panicked) /\
  (forall past steps s w, exec traced (consumeCandidate con tt) past steps (Returned (s, Ok tt)) w -> settled past w).
Proof.
  split.
  - intros fuel steps out w He. apply (wp_sound _ _ _ _ _ _ _ _ _ (consumeCandidates_runs fuel tt [])) in He as [H1 H2]. split; [done|]. intros ->. exact H2.
  - intros past steps s w He. by apply (wp_sound _ _ _ _ _ _ _ _ _ (consumeCandidate_runs tt past)) in He as [_ H].
Qed.

End Consume.

(** Two turns: one candidate is rescued, and put back by an error that asks for a
    later time. *)
Definition exampleConsumer : Consumer := mkConsumer 3 ∅ true false.

Definition exampleCandidate : RescueCandidate :=
  NewClaimCandidate 8453 (be_bytes 20 1) (mkClaimPlan (be_bytes 20 2) [] 1 (be_bytes 20 3) 1 1 100 1).

Definition examplePending : GoError := FastPending (Foreign []) (unixTime 100 0).

Definition consumerHandler (outcome : option GoError) (c : CEff) (taken : bool) : canswer c * bool :=
  match c return canswer c * bool with
  | Q_Next => if taken then (Err (Foreign []), true) else (Ok exampleCandidate, true)
  | Q_CtxErr => (None, taken)
  | Q_Now => (zeroTime, taken)
  | Q_RecordCandidate => (tt, taken)
  | Q_Handle _ => (outcome, taken)
  | Q_PutIncident _ | Q_Nack _ _ _ | Q_Ack _ _ | Q_SetQueueDepth _ => (None, taken)
  | Q_Replay => (Ok 0, taken)
  end.

Abbreviation exampleID := (Candidate_ID exampleCandidate).

Lemma example_acknowledged :
  (run (consumerHandler None) (consumeCandidates 2 exampleConsumer tt) false).1.1 !! 5%nat = Some (Event (ans := canswer) (Q_Ack exampleID (NewIncidentID exampleID)) None).
Proof. vm_compute. reflexivity. Qed.

Lemma example_returned : match run (consumerHandler (Some examplePending)) (consumeCandidate exampleConsumer tt) false with
  | (tr, Returned (tt, Ok tt), _) => existsb (fun e => match ev_call e with Q_Nack _ _ t => t =? unixTime 100 0 | _ => false end) tr && Nat.eqb (length tr) 8
  | _ => false end = true.
Proof. vm_compute. reflexivity. Qed.

(** The first was acknowledged as it must be; the other was put back, and so was
    not handled for good. *)
Lemma candidates_are_settled_witness :
  (exists past, putDown exampleConsumer past (Q_Ack exampleID (NewIncidentID exampleID))) /\
  exists steps w, exec traced (consumeCandidate exampleConsumer tt) [] steps (Returned (tt, Ok tt)) w /\ settled exampleConsumer [] w.
Proof.
  destruct (candidates_are_settled exampleConsumer) as [Ht Hs]. split.
  - destruct (run_step (consumerHandler None) (consumeCandidates 2 exampleConsumer tt) false 5 _ example_acknowledged) as (steps & out & tr & past & He & Hin).
    destruct (Ht 2%nat steps out tr He) as [Hf _]. exists past. rewrite Forall_forall in Hf. exact (Hf _ Hin).
  - pose proof (run_exec (consumerHandler (Some examplePending)) (consumeCandidate exampleConsumer tt) false []) as Hr. pose proof example_returned as H.
    destruct (run _ _ _) as [[tr out] w]. destruct Hr as (steps & He & _). destruct out as [[[] [[]|e]]| |]; try discriminate H.
    exists steps, (rev tr ++ []). split; [exact He|]. exact (Hs _ _ _ _ He).
Defined.

(** ** Connections of a generation *)

Section Connections.
Context {CL : ConfigLib}.
Abbreviation gtrace := (list (Programs.event ganswer)).
Abbreviation GEvent := (@Event GEff ganswer).

Inductive Connection := ClientOf (endpoint : bytes) | QuorumReader | Submission.

#[export] Instance Connection_eq_dec : EqDecision Connection.
Proof. solve_decision. Defined.

Definition connects (c : GEff) : ganswer c -> option Connection :=
  match c with
  | G_Dial endpoint _ => fun x => match fst x with RpcDial.Present => Some (ClientOf endpoint) | _ => None end
  | G_DialSubmission _ => fun x => if fst x : bool then Some Submission else None
  | G_OpenQuorum => fun x => if isSome (snd x) || negb (fst x) then None else Some QuorumReader
  | _ => fun _ => None
  end.

Definition disconnects (c : GEff) : option Connection :=
  match c with
  | G_CloseClient endpoint => Some (ClientOf endpoint)
  | G_CloseQuorum => Some QuorumReader
  | G_CloseSubmission => Some Submission
  | _ => None
  end.

(** One when [x] is [r]. *)
Definition one (x : option Connection) (r : Connection) : Z := if decide (x = Some r) then 1 else 0.

Lemma one_none r : one None r = 0.
Proof. done. Qed.

(** How often a connection was opened less how often it was closed. *)
Fixpoint balance (r : Connection) (w : gtrace) : Z :=
  match w with
  | [] => 0
  | e :: w => one (connects (ev_call e) (ev_answer e)) r - one (disconnects (ev_call e)) r + balance r w
  end.

(** The answers the code does not survive: a client that is a nil pointer, and a
    dial for submission that gives neither a client nor an error. *)
Definition fatal (c : GEff) : ganswer c -> bool :=
  match c with
  | G_Dial _ _ => fun x => match fst x with RpcDial.NilValue => true | _ => false end
  | G_DialSubmission _ => fun x => negb (fst x) && negb (isSome (snd x))
  | _ => fun _ => false
  end.

Definition crashed (w : gtrace) : bool := existsb (fun e => fatal (ev_call e) (ev_answer e)) w.

(** With [strict] no answer is fatal. *)
Definition dialed (strict : Prop) (w : gtrace) (c : GEff) (x : ganswer c) (w' : gtrace) : Prop := traced w c x w' /\ (strict -> fatal c x = false).

Lemma crashed_earlier {A} (p : Programs.prog ganswer A) w steps out w' : exec traced p w steps out w' -> crashed w' = false -> crashed w = false.
Proof.
  induction 1 as [a w|w|w|c k x w w1 tr out w2 Hx He IH]; try done. intros H%IH. unfold traced in Hx. subst w1. by apply orb_false_iff in H as [_ H].
Qed.

Lemma traced_dialed {A} (strict : Prop) (p : Programs.prog ganswer A) w steps out w' :
  exec traced p w steps out w' -> (strict -> crashed w' = false) -> exec (dialed strict) p w steps out w'.
Proof.
  induction 1 as [a w|w|w|c k x w w1 tr out w2 Hx He IH]; intros Hc; [constructor..|].
  econstructor; [|by apply IH]. split; [done|]. intros Hs. pose proof (crashed_earlier _ _ _ _ _ He (Hc Hs)) as H. unfold traced in Hx. subst w1.
  by apply orb_false_iff in H as [H _].
Qed.

Section Generation.
Context (strict : Prop) (n : networkProcess) (generation : Z).

Definition paying : Prop := IsDryRun (NPr_mode n) = false /\ NPr_emergencyStopped n = false.

(** Clients are dialed at the configured endpoints; only a live process that is not
    stopped reaches the endpoint that broadcasts, and makes a session that
    broadcasts, with the fence validated just before. *)
Definition mayConnect (w : gtrace) (c : GEff) : Prop :=
  match c with
  | G_Dial endpoint g => endpoint ∈ dialEndpoints (NPr_configured n) /\ g = generation
  | G_DialSubmission endpoint => endpoint = Net_BroadcastHTTP (NPr_configured n) /\ paying
  | G_CoordinatorSession true => paying /\ exists rest, w = GEvent G_FenceValidate None :: rest
  | G_PutClaim _ => paying
  | _ => True
  end.

(** What holds of the trace after [m]: what is open, and no fatal answer. *)
Definition after (w : gtrace) (q : Connection -> Z) (w' : gtrace) : Prop := crashed w' = crashed w /\ forall r, balance r w' = balance r w + q r.

(** [m] opens, less what it closes, what [Q] says of its result, and ends; it
    panics only after a fatal answer. *)
Definition opening {A} (m : SM ganswer unit GoError A) (Q : result GoError A -> Connection -> Z) : Prop :=
  (forall s, finite (m s)) /\
  forall s w, wp (dialed strict) mayConnect (~ strict) (m s) (fun sr w' => after w (Q (snd sr)) w') w.

Abbreviation closed m := (opening m (fun _ _ => 0)).

Lemma opening_lift {A} (res : result GoError A) (Q : result GoError A -> Connection -> Z) : (forall r, Q res r = 0) -> opening (lift res) Q.
Proof. intros HQ. split; [done|]. intros s w. split; [done|]. intros r. cbn. rewrite HQ. lia. Qed.

Lemma opening_panic {A} (Q : result GoError A -> Connection -> Z) : ~ strict -> opening panic Q.
Proof. intros Hs. split; [done|]. intros s w. exact Hs. Qed.

Lemma opening_ret {A} (a : A) (Q : result GoError A -> Connection -> Z) : (forall r, Q (Ok a) r = 0) -> opening (mret a) Q.
Proof. exact (opening_lift (Ok a) Q). Qed.

Lemma opening_fail {A} (e : GoError) (Q : result GoError A -> Connection -> Z) : (forall r, Q (Err e) r = 0) -> opening (fail e) Q.
Proof. exact (opening_lift (Err e) Q). Qed.

Lemma opening_call c (Q : result GoError (ganswer c) -> Connection -> Z) :
  (forall w, mayConnect w c) -> (forall x, fatal c x = false) -> (forall x r, Q (Ok x) r = one (connects c x) r - one (disconnects c) r) ->
  opening (Programs.call (ans := ganswer) c) Q.
Proof.
  intros Hm Hf HQ. split; [intros s x; done|]. intros s w. cbn. split; [apply Hm|]. intros x w' [Hw _]. unfold traced in Hw. subst w'. cbn.
  split; [cbn; by rewrite Hf|]. intros r. cbn. rewrite HQ. lia.
Qed.

Lemma opening_bind {A B} (m : SM ganswer unit GoError A) (f : A -> SM ganswer unit GoError B) Q Q' :
  opening m Q -> (forall e r, Q (Err e) r = Q' (Err e) r) -> (forall a, opening (f a) (fun res r => Q' res r - Q (Ok a) r)) -> opening (mbind m f) Q'.
Proof.
  intros [He Hm] HQ Hf. split; [apply finite_mbind; [exact He|apply Hf]|].
  intros s w. apply wp_bind. eapply wp_mono; [apply Hm|]. intros [s' [a|e]] w' [Hc Hw]; cbn [fst snd] in *.
  - eapply wp_mono; [apply Hf|]. intros sr w'' [Hc'' Hw'']. split; [by rewrite Hc''|]. intros r. cbn in *. rewrite Hw'', Hw. lia.
  - split; [done|]. intros r. cbn. by rewrite Hw, HQ.
Qed.

Lemma opening_eq {A} (m : SM ganswer unit GoError A) Q Q' : opening m Q -> (forall res r, Q res r = Q' res r) -> opening m Q'.
Proof. intros [He Hm] HQ. split; [exact He|]. intros s w. eapply wp_mono; [apply Hm|]. intros sr w' [Hc Hw]. split; [done|]. intros r. by rewrite Hw, HQ. Qed.

(** After something that leaves nothing open. *)
Lemma closed_bind {A B} (m : SM ganswer unit GoError A) (f : A -> SM ganswer unit GoError B) Q :
  closed m -> (forall e r, Q (Err e) r = 0) -> (forall a, opening (f a) Q) -> opening (mbind m f) Q.
Proof. intros Hm He Hf. eapply opening_bind; [exact Hm|done|]. intros a. eapply opening_eq; [apply Hf|]. intros res r. cbn. lia. Qed.

Lemma opening_try {A} (m : SM ganswer unit GoError A) Q Q' : opening m Q -> (forall res r, Q' (Ok res) r = Q res r) -> opening (try m) Q'.
Proof.
  intros [He Hm] HQ. split; [apply finite_try, He|]. intros s w. apply wp_bind. eapply wp_mono; [apply Hm|]. intros [s' res] w' [Hc Hw]. split; [done|]. intros r. cbn. by rewrite Hw, HQ.
Qed.

(** A deferred release closes its connection on every path. *)
Lemma opening_deferred m release x :
  closed m -> opening release (fun _ r => - one x r) -> opening (deferred m release) (fun _ r => - one x r).
Proof.
  intros Hm Hr. apply (opening_bind _ _ (fun res r => match res with Ok _ => 0 | Err _ => - one x r end)); [by eapply opening_try|done|].
  intros res. eapply opening_bind; [exact Hr|intros e r; cbn; lia|]. intros []. apply opening_lift. intros r. cbn. lia.
Qed.

(** A connection that is opened and then closed on every path. *)
Lemma closed_during {A B} (m : SM ganswer unit GoError A) (f : A -> SM ganswer unit GoError B) (x : A -> option Connection) :
  opening m (fun res r => match res with Ok a => one (x a) r | Err _ => 0 end) -> (forall a, opening (f a) (fun _ r => - one (x a) r)) -> closed (mbind m f).
Proof. intros Hm Hf. eapply opening_bind; [exact Hm|done|]. intros a. eapply opening_eq; [apply Hf|]. intros res r. cbn. lia. Qed.

(** A call that neither opens nor closes anything. *)
Lemma closed_call c :
  (forall w, mayConnect w c) -> (forall x, fatal c x = false) -> (forall x, connects c x = None) -> disconnects c = None -> closed (Programs.call (ans := ganswer) c).
Proof. intros Hm Hf Hc Hd. apply opening_call; [exact Hm|exact Hf|]. intros x r. by rewrite Hc, Hd. Qed.

Lemma closed_when b m : closed m -> closed (when b m).
Proof. intros Hm. destruct b; [exact Hm|by apply opening_ret]. Qed.

Lemma orError_closed err : closed (orError err).
Proof. destruct err; [by apply opening_fail|by apply opening_ret]. Qed.

Ltac closing := repeat first
  [ progress intros | apply opening_ret; [intros; reflexivity] | apply opening_fail; [intros; reflexivity] | apply orError_closed | apply closed_when
  | apply closed_bind; [| intros; reflexivity |]
  | apply closed_call; [ intros; exact I | intros; reflexivity | intros; reflexivity | reflexivity ]
  | match goal with |- opening (if ?b then _ else _) _ => destruct b eqn:?  | |- opening (match ?b with _ => _ end) _ => destruct b eqn:? end ].

(** What a dial ends with: a client, which is open, or an error with nothing open;
    a client that is a nil pointer comes of a fatal answer only. *)
Definition found (w : gtrace) (sr : unit * result GoError (bytes * RpcDial.Capability)) (w' : gtrace) : Prop :=
  match snd sr with
  | Ok (endpoint, RpcDial.Present) => after w (one (Some (ClientOf endpoint))) w'
  | Ok _ => ~ strict
  | Err _ => after w (fun _ => 0) w'
  end.

Lemma found_after w w1 sr w' : after w (fun _ => 0) w1 -> found w1 sr w' -> found w sr w'.
Proof.
  intros [Hc Hb]. unfold found. destruct (snd sr) as [[endpoint []]|e]; try done; intros [Hc' Hb']; (split; [congruence|]); intros r; by rewrite Hb', Hb, Z.add_0_r.
Qed.

Lemma found_bind {A} (m : SM ganswer unit GoError A) (k : A -> SM ganswer unit GoError (bytes * RpcDial.Capability)) s w :
  closed m -> (forall a s w1, wp (dialed strict) mayConnect (~ strict) (k a s) (found w1) w1) ->
  wp (dialed strict) mayConnect (~ strict) (mbind m k s) (found w) w.
Proof.
  intros [_ Hm] Hk. apply wp_bind. eapply wp_mono; [apply Hm|]. intros [s' [a|e]] w1 Hw1; cbn [fst snd] in *; [|exact Hw1].
  eapply wp_mono; [apply Hk|]. intros sr w'. by apply found_after.
Qed.

Lemma dialFrom_ends endpoints webSockets indices lastError recorded s : finite (dialFrom endpoints webSockets generation indices lastError recorded s).
Proof.
  revert lastError recorded s. induction indices as [|i indices IH]; intros lastError recorded; [done|]. cbn [dialFrom].
  apply finite_mbind; [by destruct (_ && _)|]. intros _. apply finite_mbind; [done|].
  intros [[] [e|]]; cbn [isSome negb andb notNil when onClient]; try done;
    (apply finite_mbind; [done|]; intros _; apply finite_mbind; [done|]; intros [c|]; [done|apply IH]).
Qed.

Lemma dialFrom_finds endpoints webSockets indices lastError recorded s w :
  Forall (fun i => nth i endpoints [] ∈ dialEndpoints (NPr_configured n)) indices ->
  wp (dialed strict) mayConnect (~ strict) (dialFrom endpoints webSockets generation indices lastError recorded s) (found w) w.
Proof.
  intros Hi. revert lastError recorded s w. induction Hi as [|i indices Hi _ IH]; intros lastError recorded s w; cbn [dialFrom].
  { split; [done|]. intros r. cbn. lia. }
  set (endpoint := nth i endpoints []) in *. apply found_bind; [closing|]. clear s w. intros [] s w.
  cbn. split; [done|]. intros [client err] w1 [Hw Hx]. unfold traced in Hw. subst w1. cbn [fst snd] in *.
  assert (Hnext : forall recorded' w1, after w (fun _ => 0) w1 ->
    wp (dialed strict) mayConnect (~ strict) ((let* ctxErr := Programs.call (ans := ganswer) G_CtxErr in
      match ctxErr with Some e => fail (OfContext e) | None => dialFrom endpoints webSockets generation indices err recorded' end) s) (found w) w1).
  { intros recorded' w1 Hw1. eapply wp_mono; [|intros sr w'; by apply found_after].
    apply found_bind; [closing|]. intros [e|] s1 w2; [|apply IH]. split; [done|]. intros r. cbn. lia. }
  destruct client; cbn [notNil onClient].
  - rewrite andb_false_r. cbn [when]. apply Hnext. split; [done|]. intros r. cbn. rewrite !one_none. lia.
  - assert (Hs : ~ strict) by (intros H%Hx; done). by destruct err; cbn.
  - destruct err as [e|]; cbn [isSome negb andb when].
    + cbn. split; [done|]. intros [] w2 [Hw2 _]. unfold traced in Hw2. subst w2. cbn [fst snd]. apply Hnext. split; [done|].
      intros r. cbn. rewrite !one_none. lia.
    + split; [done|]. intros r. cbn. rewrite !one_none. lia.
Qed.

Lemma rotation_below start count : (0 < count)%nat -> Forall (fun i => i < count)%nat (rotation start count).
Proof.
  intros Hc. unfold rotation. apply Forall_forall. intros i (a & -> & _)%list_elem_of_fmap. apply Nat.mod_upper_bound. lia.
Qed.

Lemma dialClient_finds s w : wp (dialed strict) mayConnect (~ strict) (dialClient (NPr_configured n) generation s) (found w) w.
Proof.
  unfold dialClient. destruct (Nat.eqb _ _) eqn:E; [split; [done|]; intros r; cbn; lia|]. apply dialFrom_finds. apply Nat.eqb_neq in E.
  eapply Forall_impl; [apply rotation_below; lia|]. intros i Hi. apply list_elem_of_In, nth_In, Hi.
Qed.

Lemma dialClient_ends s : finite (dialClient (NPr_configured n) generation s).
Proof. unfold dialClient. destruct (Nat.eqb _ _); [done|apply dialFrom_ends]. Qed.

Definition sessionConnection (session : option SessionKind) : option Connection := match session with Some LiveSession => Some Submission | _ => None end.

Ltac gstep := cbn; split; [first [exact I | by eauto]|]; let w := fresh "w" in let Hw := fresh "Hw" in let Hx := fresh "Hx" in intros ? w [Hw Hx]; unfold traced in Hw; subst w; cbn.
Ltac gdone := split; [done|]; split; [done|]; intros r; cbn [balance connects disconnects ev_call ev_answer fst snd sessionConnection]; rewrite ?one_none; cbn; rewrite ?one_none; lia.

(** No session without an error only after a fatal answer. *)
Lemma openSession_opens s w :
  wp (dialed strict) mayConnect (~ strict) (openSession n s)
    (fun sr w' => match snd sr with Ok None => ~ strict | _ => True end /\
       (snd sr <> Ok None -> after w (fun r => match snd sr with Ok k => one (sessionConnection k) r | Err _ => 0 end) w')) w.
Proof.
  unfold openSession. destruct (IsDryRun (NPr_mode n)) eqn:Ed.
  { gstep. destruct x as [e|]; gdone. }
  destruct (NPr_emergencyStopped n) eqn:Es.
  { gstep. destruct x as [e|]; gdone. }
  pose proof (conj Ed Es : paying) as Hp. gstep. destruct x as [[] [e|]]; cbn; [gstep; gdone| |gdone|split; [intros H%Hx; done|done]].
  gstep. destruct x as [e|]; cbn; [gstep; gdone|]. unfold validateProcessFence. destruct (NPr_fence n); cbn; [|gstep; gdone].
  gstep. destruct x as [e|]; cbn; [gstep; gdone|]. gstep. destruct x as [e|]; cbn; [gstep; gdone|]. gdone.
Qed.

Lemma openSession_ends s : finite (openSession n s).
Proof.
  assert (Ho : forall err s, finite (orError err s)) by (by intros [e|]).
  assert (Hf : forall s, finite (validateProcessFence n s)).
  { unfold validateProcessFence. destruct (negb _); [done|]. apply finite_mbind; [apply finite_call|]. by intros [e|]. }
  unfold openSession, when. repeat first
    [ progress intros | apply Hf | apply Ho | exact I | exact (fun _ => I) | apply finite_mbind | apply finite_try | apply finite_call | case_match ].
Qed.

Lemma runSession_closed session : closed (runSession n generation session).
Proof.
  unfold runSession. apply closed_bind; [|done|intros _; closing].
  destruct (Net_Claim _) as [plan|]; [|closing]. destruct (_ && _) eqn:E; [|closing]. cbn [when].
  assert (paying) by (unfold paying, IsLive, IsDryRun in *; destruct (NPr_mode n), (NPr_emergencyStopped n); done).
  apply closed_bind; [|done|closing]. apply closed_call; done.
Qed.

(** The session and its close, while the client and the quorum are open. *)
Lemma session_closed :
  closed (let* session := openSession n orelse (fun e => fail (processError "daemon.session" ErrorRPCTransient errorSessionFailed true (Some e))) in
          match session with
          | None => panic
          | Some session => deferred (runSession n generation session) (closeSession session)
          end).
Proof.
  assert (Hd : forall k, opening (deferred (runSession n generation k) (closeSession k)) (fun _ r => - one (sessionConnection (Some k)) r)).
  { intros k. apply opening_deferred; [apply runSession_closed|]. destruct k; cbn; [apply opening_ret..|apply opening_call]; done. }
  split.
  - apply finite_mbind; [apply finite_try|].
    + apply openSession_ends.
    + intros [[k|]|e]; [apply Hd|done..].
  - intros s w. apply wp_bind, wp_bind. eapply wp_mono; [apply openSession_opens|]. intros [s' [[k|]|e]] w' [Hn Hw]; cbn in *; [|done|].
    + destruct Hw as [Hc Hw]; [done|]. eapply wp_mono; [apply Hd|]. intros sr w'' [Hc'' Hw'']. split; [congruence|]. intros r. rewrite Hw'', Hw. cbn. lia.
    + by apply Hw.
Qed.

Lemma runGeneration_closed : closed (runGeneration n generation).
Proof.
  assert (Hc : forall endpoint, opening (deferred (
    let* clientGeneration := Programs.call (ans := ganswer) G_ClientGeneration in
    stop negb (clientGeneration =? generation) with fail (processError "daemon.client_generation" ErrorInternal errorClientInvalid false None) in
    let* readerErr := Programs.call (ans := ganswer) G_DeadlineReader in
    let* _ := match readerErr with Some e => fail (processError "daemon.reader" ErrorInternal errorClientInvalid false (Some e)) | None => mret tt end in
    let* logsErr := Programs.call (ans := ganswer) G_DeadlineLogs in
    let* _ := match logsErr with Some e => fail (processError "daemon.logs" ErrorInternal errorClientInvalid false (Some e)) | None => mret tt end in
    let* headsErr := Programs.call (ans := ganswer) G_DeadlineHeads in
    let* _ := match headsErr with Some e => fail (processError "daemon.heads" ErrorInternal errorClientInvalid false (Some e)) | None => mret tt end in
    let* (quorum, quorumErr) := Programs.call (ans := ganswer) G_OpenQuorum in
    stop isSome quorumErr || negb quorum with fail (processError "daemon.quorum" ErrorRPCTransient errorQuorumFailed true quorumErr) in
    deferred (
      let* session := openSession n orelse (fun e => fail (processError "daemon.session" ErrorRPCTransient errorSessionFailed true (Some e))) in
      match session with
      | None => panic
      | Some session => deferred (runSession n generation session) (closeSession session)
      end) (Programs.call (ans := ganswer) G_CloseQuorum)) (Programs.call (ans := ganswer) (G_CloseClient endpoint))) (fun _ r => - one (Some (ClientOf endpoint)) r)).
  { intros endpoint. apply opening_deferred; [|by apply opening_call].
    apply closed_bind; [closing|done|]. intros g. destruct (negb _); [closing|]. do 6 (apply closed_bind; [closing|done|]; intros ?).
    apply (closed_during _ _ (fun q : bool * option GoError => if isSome (snd q) || negb (fst q) then None else Some QuorumReader)).
    - apply opening_call; [done|done|]. intros x r. cbn [disconnects]. rewrite one_none. symmetry. apply Z.sub_0_r.
    - intros [q qe]. cbn [fst snd]. destruct (_ || _); [by apply opening_fail|]. apply opening_deferred; [apply session_closed|by apply opening_call]. }
  unfold runGeneration. split.
  - apply finite_mbind; [apply dialClient_ends|]. intros [endpoint []]; [done|done|]. apply Hc.
  - intros s w. apply wp_bind. eapply wp_mono; [apply dialClient_finds|]. intros [s' [[endpoint []]|e]] w' Hw; cbn [fst snd found] in *; [exact Hw|exact Hw| |exact Hw].
    eapply wp_mono; [apply Hc|]. intros sr w'' [Hc'' Hw'']. destruct Hw as [Hc' Hw]. split; [congruence|]. intros r. rewrite Hw'', Hw. lia.
Qed.

End Generation.

Lemma crashed_in w e : e ∈ w -> fatal (ev_call e) (ev_answer e) = true -> crashed w = true.
Proof. intros Hin Hf. apply existsb_exists. exists e. split; [by apply list_elem_of_In|done]. Qed.

(** A generation ends, and panics exactly after a fatal answer. *)
Lemma generation_outcome n generation steps out w :
  exec traced (runGeneration n generation tt) [] steps out w ->
  match out with Returned _ => crashed w = false /\ forall r, balance r w = 0 | Panicked => crashed w = true | OutOfFuel => False end.
Proof.
  intros He. destruct (runGeneration_closed False n generation) as [Hend Hc].
  assert (Hf : out <> OutOfFuel) by (eapply finite_exec; [|exact He]; apply Hend). destruct out as [res| |]; [| |done].
  - apply (traced_dialed False) in He; [|done]. apply (wp_sound _ _ _ _ _ _ _ _ _ (Hc tt [])) in He as [_ [H1 H2]].
    split; [done|]. intros r. rewrite H2. cbn. lia.
  - destruct (crashed w) eqn:E; [done|]. apply (traced_dialed True) in He; [|done].
    destruct (runGeneration_closed True n generation) as [_ Hs]. by apply (wp_sound _ _ _ _ _ _ _ _ _ (Hs tt [])) in He as [_ []].
Qed.

End Connections.

(** ** The whole process *)

Section Whole.
Context {CL : ConfigLib}.

Lemma finite_collectEach {A B} (l : list A) (body : A -> SM danswer Startup GoError B) : (forall x s, finite (body x s)) -> forall s, finite (Daemon.collectEach l body s).
Proof.
  intros Hb. induction l as [|x l IH]; [done|]. cbn [Daemon.collectEach]. apply finite_mbind; [apply Hb|]. intros y. apply finite_mbind; [exact IH|]. done.
Qed.

Lemma finite_releaseEach {A} (l : list A) (body : A -> SM danswer Startup GoError (option GoError)) :
  (forall x s, finite (body x s)) -> (forall s, finite (releaseEach l body s)) /\ forall s, finite (releaseFirst l body s).
Proof.
  intros Hb. split; induction l as [|x l IH]; try done; cbn [releaseEach releaseFirst]; (apply finite_mbind; [apply Hb|]; intros y; apply finite_mbind; [exact IH|]; done).
Qed.

Ltac ending := repeat first
  [ progress intros
  | match goal with
    | H : forall s, finite (?m s) |- finite (?m _) => apply H
    | H : forall x s, finite (?m x s) |- finite (?m _ _) => apply H
    end
  | apply finite_mbind | apply finite_try | apply finite_call | apply finite_forEach | apply finite_collectEach | apply finite_releaseEach
  | exact I | exact (fun _ => I)
  | match goal with
    | |- finite ((if ?b then _ else _) _) => destruct b
    | |- finite ((match ?b with _ => _ end) _) => destruct b
    end ].

Lemma orFail_ends err op class code s : finite (orFail err op class code s).
Proof. unfold orFail, startupFailure. ending. Qed.

Lemma liftTelemetry_ends {A} (r : result TelemetryError A) op class code s : finite (liftTelemetry r op class code s).
Proof. unfold liftTelemetry, startupFailure. ending. Qed.

Hint Resolve orFail_ends liftTelemetry_ends : core.

Lemma prologue_ends r s :
  finite (rejectRestoredSigningState r s) /\ finite (forEach (indexed (Run_Networks r)) loadNetworkManifest s) /\ finite (prepareTelemetry r s) /\ finite (attestNetworks s).
Proof.
  unfold rejectRestoredSigningState, loadNetworkManifest, prepareTelemetry, attestNetworks, startupFailure, when, modify, gets.
  repeat split; ending; auto.
Qed.

Lemma acquireAll_ends r s : finite (acquireAll r s).
Proof.
  assert (Hb : forall b cn s, finite (reportBudget b cn s)) by (intros b [chain network]; unfold reportBudget, modify, gets; ending; auto).
  unfold acquireAll, acquireBudgetFence, acquireFence, openAdmission, openStore, openBudget, acquireLeases, acquireLease, openSigners, startupFailure, when, modify, gets.
  ending; auto.
Qed.

Lemma assemble_ends r s : finite (assemble r s).
Proof. unfold assemble, newNetworkProcess, newCoordinator, startupFailure, when, gets. ending; auto. Qed.

Lemma releasing_ends d lost s : finite (cleanup s) /\ finite (shutdown d lost s).
Proof. unfold cleanup, shutdown, closeStores, releaseWhen, gets. split; ending. Qed.

Lemma newDaemon_ends r s : finite (newDaemon r s).
Proof.
  unfold newDaemon, openResources, startupFailure, when. pose proof (fun s => proj1 (prologue_ends r s)). pose proof (fun s => proj1 (proj2 (prologue_ends r s))).
  pose proof (fun s => proj1 (proj2 (proj2 (prologue_ends r s)))). pose proof (fun s => proj2 (proj2 (proj2 (prologue_ends r s)))).
  pose proof (acquireAll_ends r). pose proof (assemble_ends r). pose proof (fun s => proj1 (releasing_ends (mkDaemon [] false false false (mkMetrics ∅ (mkBudgetMetrics 0 0 0)) (mkHealth false ∅)) [] s)).
  ending; auto.
Qed.

Lemma runProcess_ends r s : finite (runProcess r s).
Proof.
  assert (Hc : forall n f l s, finite (collectResults n f l s)).
  { induction n as [|n IH]; intros f l; cbn [collectResults]; ending. destruct (workerStopped f l a). apply IH. }
  unfold runProcess. apply finite_mbind; [apply newDaemon_ends|]. intros d. unfold Run. pose proof (fun lost s => proj2 (releasing_ends d lost s)). ending; auto.
Qed.

(** C10. The process loses nothing it opens and makes its signers last.  Whatever
    its dependencies answer, a start that fails has called the release of every
    fence, store, ledger, admission controller and lease it got; a start that
    succeeds gives a process that owns exactly what is open; and a whole run, its
    workers ending with any results, returns with nothing left open, its diagnostics
    server included.  A generation of a network always ends.  It panics exactly when
    a dial answered a client that is a nil pointer or a dial for submission answered
    neither a client nor an error, and the dial of the process does the former whenever
    it fails; otherwise it has closed every client, quorum reader and submission
    client as often as it opened it.  It dials only configured endpoints, and reaches
    the endpoint that broadcasts only in a live process that is not stopped.  Signers
    are made only for a live process that is not stopped, from its secrets, after the
    restored-state marker was found absent, every network's manifest was loaded and
    attested, and both kinds of fence, the admission controller, the ledger, every
    store and every lease are held. *)
Theorem process_loses_no_resource (runtime : Runtime) :
  (forall steps out w, exec traced (newDaemon runtime emptyStartup) [] steps out w ->
     match out with
     | Returned (_, Ok d) => forall r, held r w = owned_by d r
     | Returned (_, Err _) => forall r, held r w = false
     | _ => False
     end) /\
  (forall steps out w, exec traced (runProcess runtime emptyStartup) [] steps out w ->
     (exists result, out = Returned result) /\ (forall r, held r w = false) /\
     Forall (fun '(past, e) => match ev_call e with
       | S_NewSigners secrets => secrets = Run_LiveSecrets runtime /\ isLive runtime = true /\ RP_EmergencyStop (Run_Policy runtime) = false /\
           exists pm, facts runtime pm past /\ Forall (fun r => held r past = true) (everything (length pm))
       | _ => True
       end) steps) /\
  (forall n generation steps out w, exec traced (runGeneration n generation tt) [] steps out w ->
     match out with
     | Returned _ => crashed w = false /\ forall r, balance r w = 0
     | Panicked => crashed w = true
     | OutOfFuel => False
     end /\
     (forall endpoint e ctxErr, Event (G_Dial endpoint generation) (productionDial (RpcDial.DialContext (A := unit) (Err e) ctxErr generation)) ∈ w -> out = Panicked) /\
     Forall (fun '(past, e) => mayConnect n generation past (ev_call e)) steps).
Proof.
  split; [|split]; [intros steps out w He..|intros n generation steps out w He].
  - assert (Hf : out <> OutOfFuel) by (eapply finite_exec; [|exact He]; apply newDaemon_ends).
    apply (wp_sound _ _ _ _ _ _ _ _ _ (newDaemon_started runtime)) in He as [_ Ho]. by destruct out as [[s [d|e]]| |].
  - assert (Hf : out <> OutOfFuel) by (eapply finite_exec; [|exact He]; apply runProcess_ends).
    apply (wp_sound _ _ _ _ _ _ _ _ _ (runProcess_releases runtime)) in He as [Hg Ho]. destruct out as [res| |]; [|done..].
    split; [by exists res|]. split; [exact Ho|]. eapply Forall_impl; [exact Hg|]. intros [past e]. unfold guarded. by destruct (ev_call e).
  - assert (Hout : match out with Returned _ => crashed w = false /\ forall r, balance r w = 0 | Panicked => crashed w = true | OutOfFuel => False end)
      by exact (generation_outcome n generation steps out w He).
    split; [exact Hout|]. split.
    + intros endpoint e ctxErr Hin. destruct out as [res| |]; [|done..]. destruct Hout as [Hc _].
      by rewrite (crashed_in _ _ Hin eq_refl) in Hc.
    + apply (traced_dialed False) in He; [|done]. destruct (runGeneration_closed False n generation) as [_ Hc].
      by apply (wp_sound _ _ _ _ _ _ _ _ _ (Hc tt [])) in He as [Hg _].
Qed.

End Whole.

(** A start with a configuration of one live network, in which everything works. *)
Definition startHandler (runtime : Runtime) (c : DEff) (w : unit) : danswer c * unit :=
  match c return danswer c * unit with
  | S_LstatMarker => (MarkerAbsent, tt)
  | S_LoadManifest _ _ =>
      (Ok (mkManifest [] [] [] (be_bytes 20 9) [] [] [] (mkCompilerDescription [] []) (mkSourceProvenance [] []) [] (mkRuntimeDescription [] 0)
             (mkConstructorArguments [] []) (mkImmutableValues [] [] []) [] [] []), tt)
  | S_AlertStatePath | S_NewAlertManager _ _ | S_AlertRaise _ _ | S_AlertResolve _ _ | S_Attest _ _ _ | S_ERC20Codec => (None, tt)
  | S_GateStop | S_RecordUnknownTokens _ => (tt, tt)
  | S_AcquireBudgetFence _ | S_AcquireFence _ _ | S_OpenAdmission _ | S_OpenStore _ _ | S_OpenBudget _ _ => ((true, None), tt)
  | S_Replay _ _ => (Ok [], tt)
  | S_Snapshot => (Ok (mkReport (mkScopeSnapshot (mkTotals 0 0 0) (mkTotals 0 0 0) (mkTotals 1 1 1)) []), tt)
  | S_NewOwner => (Ok (str "owner"), tt)
  | S_AcquireLease _ key owner _ => ((mkLease key owner 100, None), tt)
  | S_Now => (1, tt)
  | S_NewSigners _ => (Ok (Some (Run_SourceAddress runtime, Run_SponsorAddress runtime)), tt)
  | S_CoordinatorReads _ => ((true, true, true, false, false), tt)
  | S_ReleaseLease _ _ | S_ReleaseFence _ | S_CloseStore _ | S_CloseBudget | S_CloseAdmission | S_ReleaseBudgetFence | S_CoordinatorRelease _
  | S_NewDiagnostics | S_CloseDiagnostics => (None, tt)
  | S_NextResult => ((DiagnosticsWorker, None, false), tt)
  end.

Definition isSigners (e : Programs.event danswer) : bool := match ev_call e with S_NewSigners _ => true | _ => false end.

Lemma example_signs :
  match loadFrom (mapLookup (examplePublic ++ exampleCredentials)) [] with
  | Ok runtime =>
      let '(tr, out, _) := run (startHandler runtime) (runProcess runtime emptyStartup) tt in
      existsb isSigners tr && match out with Returned (_, Ok (Some _)) => true | _ => false end
  | Err _ => false
  end = true.
Proof. vm_compute. reflexivity. Qed.

(** A generation whose first dial fails as the dial of the process does. *)
Definition exampleProcess (runtime : Runtime) (configured : Network) : networkProcess :=
  mkNetworkProcess 0 configured (Network_Domain configured (be_bytes 20 9)) (Run_Mode runtime) (Run_SourceAddress runtime) (Run_SponsorAddress runtime)
    (Run_Destination runtime) (Run_ReadTimeout runtime) 1 None true ∅ false.

Definition failingDial (c : GEff) (w : unit) : ganswer c * unit :=
  match c return ganswer c * unit with
  | G_Dial _ generation => (productionDial (RpcDial.DialContext (A := unit) (Err (Foreign [])) None generation), tt)
  | G_CtxErr => (None, tt)
  | G_DialSubmission _ | G_OpenQuorum => ((true, None), tt)
  | G_CloseClient _ | G_RecordFallback _ | G_CloseQuorum | G_CloseSubmission | G_RecordFailure _ | G_RecordReconnect | G_SetDegraded => (tt, tt)
  | G_ClientGeneration => (1, tt)
  | G_DeadlineReader | G_DeadlineLogs | G_DeadlineHeads | G_DrySession | G_CoordinatorSession _ | G_DeadlineBroadcaster | G_FenceValidate
  | G_PutClaim _ | G_UpdateQueueDepth | G_NewWatcher _ _ | G_RaiseDegraded | G_Sleep _ => (None, tt)
  | G_Workers _ => ([], tt)
  end.

Lemma example_panics :
  match loadFrom (mapLookup (examplePublic ++ exampleCredentials)) [] with
  | Ok runtime =>
      match Run_Networks runtime with
      | configured :: _ => match (run failingDial (runGeneration (exampleProcess runtime configured) 1 tt) tt).1.2 with Panicked => true | _ => false end
      | [] => false
      end
  | Err _ => false
  end = true.
Proof. vm_compute. reflexivity. Qed.

(** The signers of the start were made with everything open, and the generation
    ended after a fatal answer. *)
Lemma process_loses_no_resource_witness :
  match loadFrom (mapLookup (examplePublic ++ exampleCredentials)) [] with
  | Ok runtime =>
      (exists past pm, facts runtime pm past /\ Forall (fun r => held r past = true) (everything (length pm))) /\
      exists n steps w, exec traced (runGeneration n 1 tt) [] steps Panicked w /\ crashed w = true
  | Err _ => False
  end.
Proof.
  pose proof example_signs as H. pose proof example_panics as Hp. destruct (loadFrom _ _) as [runtime|]; [|discriminate H].
  destruct (process_loses_no_resource runtime) as (_ & P & G). split.
  - pose proof (run_exec (startHandler runtime) (runProcess runtime emptyStartup) tt []) as Hr.
    destruct (run _ _ _) as [[tr out] w]. destruct Hr as (steps & He & Hm). apply andb_true_iff in H as [H _].
    apply existsb_exists in H as (e & Hin & Hs). rewrite <- Hm in Hin. apply in_map_iff in Hin as ([past e'] & He' & Hin). cbn in He'. subst e'.
    destruct (P _ _ _ He) as (_ & _ & Hf). rewrite Forall_forall in Hf.
    specialize (Hf _ (proj2 (list_elem_of_In _ _) Hin)). cbn in Hf. unfold isSigners in Hs.
    destruct (ev_call e); try discriminate Hs. destruct Hf as (_ & _ & _ & pm & Hpm & Hh). exists past, pm. exact (conj Hpm Hh).
  - clear H. destruct (Run_Networks runtime) as [|configured rest]; [discriminate Hp|]. exists (exampleProcess runtime configured).
    pose proof (run_exec failingDial (runGeneration (exampleProcess runtime configured) 1 tt) tt []) as Hr.
    destruct (run failingDial _ tt) as [[tr out] w]. destruct Hr as (steps & He & _). cbn in Hp. destruct out; try discriminate Hp.
    destruct (G _ _ _ _ _ He) as [Hc _]. exists steps, (rev tr ++ []). exact (conj He Hc).
Defined.

(** ** Diagnostics *)

(** [/healthz] answers 200 exactly when nothing is stopped, blocked, ambiguous or
    degraded, and then says so. *)
Lemma healthz_reports_health (h : Health) :
  fst (handleHealth h) = 200 <->
  H_stopped h = false /\ forall chain c, H_chains h !! chain = Some c -> HC_RPCDegraded c = false /\ HC_BudgetBlocked c = false /\ HC_AmbiguousRescue c = false.
Proof.
  unfold handleHealth. cbn [fst]. rewrite overall_health_is_worst. unfold worst.
  set (l := map_to_list (H_chains h)).
  assert (Hl : forall P : HealthConditions -> Prop, (forall chain c, H_chains h !! chain = Some c -> P c) <-> Forall (fun kc => P kc.2) l).
  { intros P. subst l. rewrite Forall_forall. split.
    - intros H [k c] Hk%elem_of_map_to_list. exact (H k c Hk).
    - intros H k c Hk. exact (H (k, c) (proj2 (elem_of_map_to_list _ _ _) Hk)). }
  rewrite (Hl (fun c => HC_RPCDegraded c = false /\ HC_BudgetBlocked c = false /\ HC_AmbiguousRescue c = false)). clearbody l. clear Hl.
  destruct (H_stopped h).
  - cut (HealthStopped <= foldr Z.max HealthStopped (map (fun kc : NetworkID * HealthConditions => EvaluateHealth (withStopped true kc.2)) l)).
    { unfold HealthStopped, HealthHealthyIdle. intros H. destruct (_ =? 1) eqn:E; bool_hyps; [lia|]. split; [done|]. by intros []. }
    induction l as [|kc l IH]; cbn [foldr map]; lia.
  - cut (1 <= foldr Z.max HealthHealthyIdle (map (fun kc : NetworkID * HealthConditions => EvaluateHealth (withStopped false kc.2)) l) /\
         (foldr Z.max HealthHealthyIdle (map (fun kc : NetworkID * HealthConditions => EvaluateHealth (withStopped false kc.2)) l) = 1 <->
          Forall (fun kc : NetworkID * HealthConditions => HC_RPCDegraded kc.2 = false /\ HC_BudgetBlocked kc.2 = false /\ HC_AmbiguousRescue kc.2 = false) l)).
    { intros [_ H]. unfold HealthHealthyIdle in *. destruct (_ =? 1) eqn:E; bool_hyps.
      - split; [intros _; split; [done|]; by apply H|done].
      - split; [done|]. intros [_ Hf]. by apply H in Hf. }
    induction l as [|[k [a b c d]] l [IH1 IH2]]; [done|]. cbn [foldr map snd]. rewrite Forall_cons, <- IH2. cbn [snd HC_RPCDegraded HC_BudgetBlocked HC_AmbiguousRescue].
    generalize dependent (foldr Z.max HealthHealthyIdle (map (fun kc : NetworkID * HealthConditions => EvaluateHealth (withStopped false kc.2)) l)).
    intros z Hz _. destruct a, b, c; cbn; unfold HealthHealthyIdle, HealthDegradedRPC, HealthBlockedBudget, HealthAmbiguousRescue; split; try lia; split; intros H; try lia; try (destruct H as [(? & ? & ?) ?]; done || lia).
Qed.

End DaemonClaims.
Export DaemonClaims.
